(* ===== verification/_CoqProject ===== *)
-Q . S2P
Prelude.v
Text.v
Durations.v
Quantity.v
QuantityFacts.v
Policy.v
StateMachine.v
Teardown.v
Receipts.v
Objects.v
LeaseBinding.v
InstanceRecovery.v
Cidr.v
Ipam.v
AdmissionLock.v
FailureBackoff.v
PoolManager.v
PoolActions.v
PoolStatus.v
PoolController.v
LeaseController.v
BindingProtocol.v
BindingFacts.v
Runner.v
RunnerFacts.v
RunnerProps.v
Execution.v
Quarantine.v
SandboxObjects.v
SandboxLifecycle.v
LedgerApi.v
AccessLedger.v
LedgerCodec.v
LedgerSteps.v
LedgerBarrier.v
LedgerInvariant.v
LedgerProps.v
SandboxAccess.v
SandboxExtension.v
RunnerClient.v
ExecutionApi.v
ExecutionCleanup.v
ExecutionHandlers.v
ExecutionSystem.v
ExecutionRecords.v
ExecutionProps.v
CleanupProps.v
AdmissionApi.v
Admission.v
AdmissionFacts.v
AdmissionSystem.v
AdmissionSteps.v
AdmissionWorld.v
AdmissionProps.v
AdmissionTheorems.v
Cel.v
PolicyObjects.v
ReceiptAuthority.v
SandboxLedger.v
AuthorityProps.v
Claims.v
ClaimProtocol.v
Footprint.v
Release.v
ReleaseProps.v
ReleaseOrder.v
ReleaseWrites.v
ReleaseTheorems.v
ConnectToken.v
TokenSystem.v
TokenWorld.v
TokenSteps.v
TokenTheorems.v
Reaper.v
ReaperProps.v
