(* ===== verification/Prelude.v ===== *)
(** * Kobe: a verification of the cluster-leasing operator

    Kobe keeps pools of disposable Kubernetes clusters and leases them.  A
    [ClusterPool] describes warm capacity; the pool controller creates and
    recycles its members ([ClusterInstance]); a [ClusterLease] is bound to one
    Ready member by a reciprocal binding and gives its holder access until it
    is released or expires; the member is then torn down, and its capacity is
    returned only against a receipt that proves every object it consisted of
    is gone.  An IPAM controller hands each member a pair of CIDRs, an
    admission lock serialises a principal's requests across API replicas, and
    access policies decide who may lease what.  A Sandbox is a single Pod leased
    the same way: its holder runs commands in it, each with a durable execution
    record, behind an access ledger that counts and drains every operation;
    inside the Pod a runner supervises them through a spool directory.

    ** How the parts interact

    The pool controller reads the members ([PoolController]: snapshot, demand,
    failure bookkeeping), runs the pure pool manager ([PoolManager]) and writes
    its decisions through a fenced status patch.  The lease and instance
    controllers share a pure state machine ([StateMachine]); every path from a
    lease to an instance goes through the binding resolver ([LeaseBinding]);
    [InstanceRecovery] moves a leased member out of the way when its lease is
    terminal or gone; [Teardown] decides what a receipt proves.  [Objects] is
    the vocabulary of objects they exchange.

    A request on a Sandbox is resolved to the recorded Pod ([SandboxAccess]),
    enters the lease's gate ([AccessLedger]), reserves capacity and CREATEs its
    record ([ExecutionApi]), is checkpointed Running and only then sent to the
    runner ([ExecutionHandlers], [RunnerClient]; [Runner] is the other end).
    The reaper and the cleanup of a released lease ([ExecutionCleanup]) write
    the same records, after the gate has drained.

    ** Files

    - [Prelude]: results, machine-width integers, durations as nanoseconds,
      options; the development's tactics and hint database [kobe].
    - [Text]: the [str] primitives of Rust used by the sources (integer parsing
      and printing, prefixes, splitting, trimming), with round trips.
    - [Durations]: [parse_duration] (src/pool/manager.rs) and
      [format_duration] (src/api/policy.rs).
    - [Quantity]: the two Kubernetes-quantity parsers (src/crd/profile.rs and
      src/sandbox.rs), effective requests, container totals and ceilings.
    - [Policy]: access rules to policies and every check on them
      (src/api/policy.rs, src/crd/access_policy.rs, src/api/auth.rs).
    - [StateMachine]: crates/kobe-state-machine/src/lib.rs.
    - [Teardown], [Receipts]: src/crd/teardown.rs and the binding types of
      src/crd/instance.rs; definitions, then theorems.
    - [Objects]: leases, instances and pools as the lifecycle reads them
      (src/crd/lease.rs, src/crd/instance.rs, src/crd/profile.rs).
    - [LeaseBinding]: src/lease_binding.rs.
    - [InstanceRecovery]: the leased branch of src/controllers/instance.rs.
    - [Cidr], [Ipam]: src/pool/cidr_alloc.rs, src/controllers/ipam.rs and
      src/crd/cidr.rs.
    - [AdmissionLock]: src/api/cluster_admission.rs.
    - [FailureBackoff]: src/controllers/backoff.rs.
    - [PoolManager], [PoolActions], [PoolStatus]: src/pool/manager.rs;
      definitions, then theorems on the actions, then on order, phase and
      backoff delays.
    - [PoolController]: src/controllers/profile.rs around the pool manager.
    - [LeaseController], [BindingProtocol], [BindingFacts]: the binding path of
      src/controllers/lease.rs; its decisions, its calls interleaved on one API
      server, and what they guarantee.
    - [QuantityFacts]: theorems on the two quantity parsers and the admission of
      a Sandbox against a ceiling.
    - [Runner], [RunnerFacts], [RunnerProps]: crates/kobe-runner/src
      (protocol.rs, spool.rs, main.rs, supervisor.rs); the runner as a step
      relation over interleaved processes, its invariant, its guarantees.
    - [Execution]: src/crd/execution.rs; the record of an execution, its state
      machine, the bytes of its identity.
    - [SandboxObjects]: the Sandbox leases and pools of src/crd/sandbox.rs as
      the operation path reads them.
    - [SandboxLifecycle]: src/sandbox.rs; placement and target provenance, the
      provisioning deadline, readiness, expiry and phases of a Sandbox lease.
    - [LedgerApi], [AccessLedger], [LedgerCodec]: src/sandbox_access_ledger.rs
      with encoding.rs, storage.rs and src/sandbox_limits.rs; the coordination
      objects and their API server, every operation as a program of requests,
      and the row encoding.
    - [LedgerSteps], [LedgerBarrier], [LedgerInvariant], [LedgerProps]: the
      ledger's operations interleaved over replicas that die and requests that
      are lost, the invariants, the guarantees and a concrete run.
    - [SandboxAccess]: src/api/sandbox_access.rs and the ownership checks of
      src/api/sandbox.rs; from an id or alias to the exact recorded Pod.
    - [SandboxExtension]: extend_sandbox_lease of src/api/sandbox.rs; the decision
      and its fenced patch, interleaved with other writers of the lease.
    - [RunnerClient]: src/api/sandbox_runner.rs; calls to the runner and what
      their answers mean.
    - [ExecutionApi], [ExecutionCleanup], [ExecutionHandlers]:
      src/api/sandbox_executions.rs and the execution handlers of
      src/api/sandbox.rs, as programs of requests to the records, the ledger
      and the runner.
    - [ExecutionSystem], [ExecutionRecords], [ExecutionProps], [CleanupProps]:
      what each handler guarantees of its requests, all of them interleaved,
      the guarantees and a concrete run, and the traces of one cleanup pass.
    - [AdmissionApi], [Admission]: the admission path of src/api/sandbox.rs and
      [finish_release] of src/controllers/sandbox.rs; leases and reservation
      tokens on one API server, every operation as a program of requests whose
      stages may be abandoned.
    - [AdmissionFacts], [AdmissionSystem], [AdmissionSteps]: token names and sets,
      what a permitted request is in a history of the cluster, and a lemma per
      program that it sends no other.
    - [AdmissionWorld], [AdmissionProps], [AdmissionTheorems]: all programs
      interleaved with lost answers, late requests and the rest of the cluster;
      the invariant, the guarantees and a concrete run.
    - [Cel], [PolicyObjects]: the expressions of admission policies and what they
      evaluate to; policies, bindings and requests, and what is relied on of the
      server that enforces them ([AdmissionServer]).
    - [ReceiptAuthority], [AuthorityProps]: src/receipt_authority.rs; the
      expressions the teardown authority's policies must carry and their
      validation, then what the boundary guarantees over the life of an object.
    - [SandboxLedger]: src/sandbox_ledger.rs; the start-up proof that the admission
      ledger is bounded and has one writer.
    - [Claims], [ClaimProtocol]: src/controllers/sandbox.rs, the management
      SandboxClaim; its creation, migration, shutdown stamp, conversion into a
      release tombstone and sweep, then one Claim name under all these writers.
    - [Quarantine]: the quarantine reasons of src/sandbox.rs and their spelling.
    - [Footprint], [Release]: src/controllers/sandbox.rs, the release of a
      management lease; the absence proofs and the checkpoint of what descends
      from the Claim, then [drive_release] with its drains and fences, as
      programs of requests.
    - [ReleaseProps], [ReleaseOrder], [ReleaseWrites], [ReleaseTheorems]: a pass
      against a cluster that changes between its reads, the order of its
      requests, what it writes to the lease, the guarantees and concrete passes.
    - [ConnectToken]: src/api/connect.rs and the token protocol of
      src/controllers/lease.rs; the Secret of a lease, the attempts to create and
      close it, the proof that nothing was ever bound, as programs of requests.
    - [TokenSystem], [TokenWorld], [TokenSteps], [TokenTheorems]: what each of these
      programs may send, a cluster in which any of them run, stop and answer late,
      its invariant, the guarantees and two runs.
    - [Reaper], [ReaperProps]: src/reaper/ and src/controllers/live_set.rs; which
      entries of a node's lease root are stale, their mounts, the two sweeps, and
      what a sweep may destroy.

    ** How code becomes definitions

    A [u32], [i64] or [u128] is a [Z] with its wrap-around, saturation or
    check written where the source has it; an instant is a [Z] of nanoseconds
    and a [chrono::Duration] a difference of two; a [&str] is its UTF-8 bytes.
    A [HashMap] that is iterated is the list of its entries in some order (the
    theorems hold for all), one that is only looked up is a [gmap].  [Result]
    is [result] with a bind; [?] and early returns keep the source's order of
    checks.  An API read is an argument ([Lookup]: found, absent or failed),
    and a retry loop takes the world of each attempt as an argument, so the
    theorems hold under every interleaving with other writers; JSON-patch
    tests and merge patches are applied to the object the server holds, which
    need not be the one that was read.  SHA-256, serde and the RFC 3339 parser
    of chrono are parameters.

    ** What is shown

    - Release is exact: a receipt that permits release names, as a multiset,
      exactly the objects of the sealed manifest and the connect token; the
      manifest requires exactly the subjects the creation plan lists; what
      releases can be acknowledged; the child-receipt verdict is sound and
      complete for the producer's reachable states.
    - Access is exact: the resolver hands out a lease and an instance only when
      they name each other by UID under the same live binding, and a pair that
      resolves for access is never approved for teardown; recovery writes touch
      only the object they were decided on, and a leased member is taken back
      only on evidence: recycled when its lease has ended, released to Ready
      (which the comment on the function calls recycling) when it is gone.
    - The pool stays within its bounds: recycles are justified, the Ready floor
      and the recycle cap hold, creation is bounded by capacity with fresh
      names, a backoff window only cleans up, demand provisions, the recycle
      order does not depend on map order, the reported phase tells the truth,
      and the failure bookkeeping is a fixed point between reconciles.
    - Addresses do not overlap: the slots of a plan are disjoint, first fit is
      first fit, and no reachable store of claims holds a slot twice as long as
      pinned requests are spelled canonically (and one that is not breaks it).
    - Admission is exclusive for every reachable interleaving of clients with
      bounded clock skew; the retry gate's contract; policies fail closed and
      clamped TTLs survive printing and parsing.
    - No cluster is leased twice: in every reachable interleaving two Bound
      leases name different instances, reservations overwrite nothing that is
      not theirs, the other writers keep to the terms this relies on (each one
      is checked against [lease_rely] and [instance_rely]), and extensions stay
      within the policy.
    - Quantities are exact: the strict parser rounds up and never overflows
      silently, the lenient one agrees with it wherever both accept, and a
      Sandbox is admitted exactly when its true totals fit the ceiling.
    - An execution id runs at most one command under every interleaving and
      crash of the runner's processes, no stored request holds a payload, verdicts
      are final, "not started" is true for ever, every verb that is not killed
      answers within a number of steps of its own (the deadline of [cancel]
      counts its polls), and tailing reassembles exactly what the supervisor's
      pumps wrote, with the flag of the report it recorded; the pumps opened
      their files, and a write may fail.  Two comments are refuted: the liveness
      check can settle a live execution as lost, and output lost to an unopenable
      file is not flagged ([runner_truncation_flag]).
    - Access to a Sandbox is drained before it is torn down: in every
      interleaving a gate that reports drained has no live guard and admits
      none again, ceilings hold, one reservation binds one execution record, an
      execution row survives its encoding, and every operation ends.
    - An operation reaches exactly what the caller's lease recorded: their own
      lease, in a serving phase before its expiry, the recorded Pod by UID, the
      container, runner, attach command and transport of the pool that admitted
      it, and the ports that pool declares for its default container, all of them
      and no other; a foreign lease and a missing one are answered alike.
    - The life of a Sandbox lease: recorded identities and requirements are never
      changed or cleared by a merge, by the record at Ready or by a release pass,
      the Service of a release pass excepted; capacity comes back only
      out of Releasing with cleanup verified, and extensions and the
      controller's readiness derivation agree on one expiry, within the grant's
      and the pool's ceilings.
    - A command is sent to a runner at most once per record and only behind its
      durable checkpoint; records settle once; a reservation whose request is
      gone is never run; capacity given back without a process-absence proof is
      never that of a command that runs; while the target lives cleanup retires
      only records listed as queued or never started, and [Clean] means that nothing of the
      lease is left; deadlines end with the lease; what a forged spool can make
      a record say is bounded; the output read back is the output.  Three faults
      are shown: an argument with a NUL byte passes the API's checks and is
      refused by the runner, a poll of a queued record settles it, and a record
      listed as queued that starts and settles during the pass is retired as
      one whose process was never there ([queued_snapshot_is_retired_started]).
    - Admission of a Sandbox lease: in every interleaving of creates,
      cancellations, reapers and releases, with answers lost and requests that
      arrive late, an admitted lease keeps its quota slot and its alias until its
      footprint is proven absent, so a principal never holds more capacity than
      its slots; admission and cancellation exclude each other; a refused create
      is never admitted later and an accepted one is.  It assumes that the rest
      of the cluster keeps Kobe's finalizer and never rewrites the admission
      record ([leaves_alone]), and that a stored token set is read back as it was
      written.
    - Proofs have one author and the ledger has one writer: behind the policies
      the start-up validations accept, a proof field of a lease or an instance
      holds only what the teardown authority wrote, a lease is retained until
      the authority acknowledged, the control plane cannot enter the authority's
      namespace, and only the operator writes the admission ledger, whose
      namespace has a quota without scopes on its objects.  It assumes what
      Kubernetes documents of a policy in force
      ([AdmissionServer]) and that the engine gives the required texts their
      meaning ([engine_reads]).
    - A released Claim name stays closed: once a release has been told that the
      Claim of its lease is a tombstone, no delayed, reordered or repeated write
      of any replica brings a runnable Claim back under that name before a sweep
      found the retention over and the lease gone.  It assumes that the rest of
      the cluster leaves a tombstone's metadata and lifecycle alone
      ([leaves_claim_alone]), that a stored version never recurs and that a
      printed time is read back.
    - A release that returns capacity leaves nothing behind: however the cluster
      changes between the reads of the pass, no Sandbox of the lease's Claims is
      left, nor the recorded Sandbox's Pods, Service and volume claims, and none
      comes back before the tombstone may be swept; the pass touches the Claim
      only after allocation was fenced, the identities of the recorded Pod were
      removed and, with the access ledger enabled, access was drained and the
      executions settled; its checkpoints only grow and the first cause decides
      the outcome.  It assumes
      of the upstream controller ([upstream]) that a Sandbox appears only for a
      runnable Claim and a child only for a Sandbox that is there, that labels
      and owners of an object do not change and that a UID is not used again;
      and that the recorded Sandbox was once there ([sandbox_observed]).  The
      recorded Service is the exception to growth
      ([recorded_service_is_replaced]).
    - A connect token is created at most once and its end is an end: a lease with
      verified cleanup has had at most one Secret however many processes worked
      on it, crashed, or had a request arrive late; a stored Closed attempt means
      the Secret is not there and will not be; a stored NeverBound proof means no
      Secret was ever made and no version of the lease opens the reservation
      fence.  It assumes of the rest of the cluster ([elsewhere], [new_lease],
      [ts_foreign]) that it leaves binding, token attempt and proof of such a
      lease alone and never makes it Pending again, that a UID is not given twice
      and that nobody else makes a Secret owned by the lease; the admission
      policies and CRD rules of the repository say the first.
    - The reaper destroys only what is condemned: whatever the file system and the
      API server answer, a sweep unmounts and removes below one entry at a time,
      a directory of an instance that is in neither the live set nor the API
      server's answer, children first; the age gate lets an entry dated in the future pass
      ([future_entry_passes_the_gate]); the live set is read as it was published;
      a cgroup goes only aged, empty and by name a container's.

    ** Bounds and fuel

    [Text.dec_aux] prints with as much fuel as the number has bits, which
    bounds its digits; [Text.trim_with] has the length of the string, and each
    round drops at least a byte.  [Cidr.find_free] has the capacity of the plan
    as fuel, and [pick_first_free_first_fit] states the search is exhaustive.
    The retry loops run their source's constant number of attempts (3 and 5;
    64 for the ledger's compare-and-swap loops and for the status writers; 20
    reads for the absence of a token).
    [RunnerClient.read_stream] ends with any fuel above the stream's ceiling
    ([wait_output_ends]), which every window reaches by at least a byte; the
    waiting handler's poll loop has no bound in the source, and its theorems
    hold for every number of polls.
    Member counts are unbounded integers: a pool does not hold 2^32 members.

    ** Simplifications

    Some definitions leave out a detail of the code they model. A client of the
    admission lock reads its two clocks at one instant
    ([AdmissionLock.lock_step]); the IPAM controller reconciles the stored
    claim, not a cached copy of it ([Ipam.reconcile_claim]); the encoding of
    the request line is taken to succeed, as it does for a value of that type
    ([ExecutionHandlers.create_sandbox_execution]); a release pass that reaches
    the tail of the code ends in [PassFinish], and [Admission.finish_release]
    is that tail ([Release.drive_release]); the name under which a recycle
    write reads and patches its member is not part of
    [PoolController.mark_instance_recycling], only the UID and version it
    tests; the pid of a supervisor is written whole or not at all
    ([Runner.step_pid]), while a marker whose write fails may still be there.

    ** Not modelled

    The lease controller's queue and the retirement of a lease, the rest of the
    instance and sandbox controllers, the API's routes, streams and transports, the
    backends, kobe-sync, the runner's terminal sessions, the command-line client
    and everything that only moves bytes to external systems (metrics,
    telemetry, PKI, Velero).  Of the execution handlers, authentication, body
    decoding and the log endpoint are left out; the runner, the access ledger
    and the clock answer them arbitrarily, so a theorem about them holds whatever
    those say.  The release of a lease that runs in a child cluster (its
    receipts, its identity chain), the cleanup of credentials and the placement
    of a Sandbox lease are left out: a release pass over a child-placed lease
    ends where that path begins, and the answers of the credential cleanup are
    arbitrary.  What would come next: the receipt service, the
    instance finalizer, the runner's sessions. *)

From Stdlib Require Export ZArith Lia Ascii.
From stdpp Require Export base option list gmap strings sorting.

#[global] Open Scope Z_scope.

#[global] Arguments String.append !_ _ : simpl nomatch.

(** * Rust results

    Fallible Rust code returns [Result<A, E>]; the model keeps both arms as
    values, so that an error path is an ordinary branch of a definition. *)
Inductive result (A E : Type) : Type :=
| Ok (a : A)
| Err (e : E).
Arguments Ok {A E} a.
Arguments Err {A E} e.

Declare Scope kobe_scope.
Delimit Scope kobe_scope with kobe.

(** The [?] operator on a [Result]. *)
Notation "'let?' x := c 'in' k" :=
  (match c with Ok x => k | Err e => Err e end)
  (at level 10, x pattern, c at level 100, k at level 200,
   format "'[v' 'let?'  x  :=  c  'in' '/' k ']'") : kobe_scope.

(** [ok_or]: an [Option] turned into a [Result]. *)
Definition ok_or {A E} (o : option A) (e : E) : result A E :=
  match o with Some a => Ok a | None => Err e end.

(** [if cond { return Err(e) }] *)
Definition deny_if {E} (b : bool) (e : E) : result unit E :=
  if b then Err e else Ok tt.

Lemma deny_if_Ok {E} (b : bool) (e : E) u : deny_if b e = Ok u <-> b = false.
Proof. destruct b, u; cbn; split; congruence. Qed.

Lemma ok_or_Ok {A E} (o : option A) (e : E) a : ok_or o e = Ok a <-> o = Some a.
Proof. destruct o; cbn; split; congruence. Qed.

(** * Machine integers

    A [uN] or [iN] value is a [Z] in range.  The release profile of the
    workspace does not enable overflow checks, so [+] and [*] wrap there. *)
Definition u8_max : Z := 255.
Definition u32_max : Z := 4294967295.
Definition u64_max : Z := 18446744073709551615.
Definition i64_max : Z := 9223372036854775807.
Definition u128_max : Z := 340282366920938463463374607431768211455.

Definition u32_wrap (z : Z) : Z := z mod 4294967296.
Definition u32_add (a b : Z) : Z := u32_wrap (a + b).
Definition u32_saturating_add (a b : Z) : Z := Z.min (a + b) u32_max.
Definition saturating_sub (a b : Z) : Z := Z.max 0 (a - b).
Definition u64_saturating_mul (a b : Z) : Z := Z.min (a * b) u64_max.
Definition i64_saturating_mul (a b : Z) : Z :=
  Z.max (- i64_max - 1) (Z.min (a * b) i64_max).
Definition u128_saturating_mul (a b : Z) : Z := Z.min (a * b) u128_max.
Definition u128_saturating_add (a b : Z) : Z := Z.min (a + b) u128_max.

Definition is_u32 (z : Z) : Prop := 0 <= z <= u32_max.
Definition is_u8 (z : Z) : Prop := 0 <= z <= u8_max.

Lemma u32_wrap_small z : is_u32 z -> u32_wrap z = z.
Proof. unfold is_u32, u32_max, u32_wrap. intros; apply Z.mod_small; lia. Qed.

Lemma u32_add_small a b : is_u32 a -> is_u32 b -> a + b <= u32_max -> u32_add a b = a + b.
Proof. unfold u32_add, is_u32. intros; apply u32_wrap_small; unfold is_u32; lia. Qed.

(** * Time

    [chrono::DateTime<Utc>] and [std::time::Instant] are instants in
    nanoseconds; [chrono::Duration] and [std::time::Duration] are spans in
    nanoseconds. *)
Definition nanos_per_second : Z := 1000000000.
Definition seconds (n : Z) : Z := n * nanos_per_second.
Definition millis (n : Z) : Z := n * 1000000.
Definition minutes (n : Z) : Z := seconds (n * 60).
(** [num_seconds]: whole seconds, truncated towards zero. *)
Definition num_seconds (d : Z) : Z := Z.quot d nanos_per_second.

Lemma num_seconds_seconds n : num_seconds (seconds n) = n.
Proof. unfold num_seconds, seconds, nanos_per_second. apply Z.quot_mul; lia. Qed.

(** * Options *)
Definition is_some {A} (o : option A) : bool := match o with Some _ => true | None => false end.
Definition is_none {A} (o : option A) : bool := negb (is_some o).

Lemma is_some_true {A} (o : option A) : is_some o = true <-> is_Some o.
Proof. destruct o; cbn; split; [eauto | done | done | intros [? ?]; done]. Qed.

Lemma is_some_false {A} (o : option A) : is_some o = false <-> o = None.
Proof. destruct o; cbn; split; done. Qed.

Lemma is_none_true {A} (o : option A) : is_none o = true <-> o = None.
Proof. destruct o; cbn; split; done. Qed.

(** [Option<T>] equality as the derived [PartialEq] computes it. *)
Definition opt_eqb {A} (eqb : A -> A -> bool) (a b : option A) : bool :=
  match a, b with
  | Some x, Some y => eqb x y
  | None, None => true
  | _, _ => false
  end.

Lemma opt_eqb_eq {A} (eqb : A -> A -> bool) :
  (forall x y, eqb x y = true <-> x = y) ->
  forall a b, opt_eqb eqb a b = true <-> a = b.
Proof.
  intros H [a|] [b|]; cbn; try (split; congruence).
  rewrite H. split; congruence.
Qed.

Definition str_opt_eqb : option string -> option string -> bool := opt_eqb String.eqb.

Lemma str_opt_eqb_eq a b : str_opt_eqb a b = true <-> a = b.
Proof. apply opt_eqb_eq, String.eqb_eq. Qed.

(** * Automation

    [kobe] collects the lemmas that turn the boolean tests of the code into
    propositions (as rewrites) and the facts that close their common cases (as
    resolution hints). *)
Create HintDb kobe discriminated.
Create Rewrite HintDb kobe.

#[export] Hint Rewrite andb_true_iff orb_true_iff negb_true_iff andb_false_iff orb_false_iff
  negb_false_iff Z.eqb_eq Z.eqb_neq Z.leb_le Z.leb_gt Z.ltb_lt Z.ltb_ge Nat.eqb_eq String.eqb_eq
  bool_decide_eq_true bool_decide_eq_false str_opt_eqb_eq @is_none_true @is_some_false : kobe.

#[export] Hint Resolve deny_if_Ok ok_or_Ok u32_wrap_small u32_add_small : kobe.

(** Read a boolean hypothesis as the conjunction of what it tests. *)
Ltac to_prop H := autorewrite with kobe in H; destruct_and? H.

(** Read every boolean hypothesis. *)
Ltac bool_props := autorewrite with kobe in *; destruct_and?.

(** Split a successful chain of [let?]: every step succeeded. *)
Ltac unbind H :=
  repeat match type of H with
    | (match ?c with Ok _ => _ | Err _ => _ end) = Ok _ => let E := fresh "Hok" in destruct c eqn:E; [|discriminate H]
    end.
