(* ===== verification/Text.v ===== *)
(** * Text: the Rust string primitives the operator relies on

    A [&str] is its UTF-8 byte sequence ([string]).  This file defines what the
    sources use of [core::str] and [core::num]: ASCII classes, decimal
    [to_string], [FromStr] of unsigned integers, [trim] (Unicode
    [White_Space]), [split_once], [strip_prefix], [lines] and
    [split_whitespace], together with the print/parse lemmas the components
    share. *)

From S2P Require Import Prelude.

(** ** ASCII classes *)
Definition byte_of (c : ascii) : Z := Z.of_N (N_of_ascii c).

Definition is_ascii_digit (c : ascii) : bool := (48 <=? byte_of c) && (byte_of c <=? 57).
Definition is_ascii_lowercase (c : ascii) : bool := (97 <=? byte_of c) && (byte_of c <=? 122).
Definition is_ascii_hexdigit (c : ascii) : bool :=
  is_ascii_digit c || ((97 <=? byte_of c) && (byte_of c <=? 102))
                   || ((65 <=? byte_of c) && (byte_of c <=? 70)).

Definition digit_value (c : ascii) : Z := byte_of c - 48.
Definition digit_char (d : Z) : ascii := ascii_of_N (Z.to_N (48 + d)).

Fixpoint all_bytes (p : ascii -> bool) (s : string) : bool :=
  match s with
  | EmptyString => true
  | String c s => p c && all_bytes p s
  end.

Definition str_len (s : string) : Z := Z.of_nat (String.length s).

Lemma byte_of_ascii n : 0 <= n < 256 -> byte_of (ascii_of_N (Z.to_N n)) = n.
Proof.
  intros Hn. unfold byte_of. rewrite N_ascii_embedding by lia. lia.
Qed.

Lemma digit_char_value d : 0 <= d < 10 -> digit_value (digit_char d) = d.
Proof. intros. unfold digit_value, digit_char. rewrite byte_of_ascii; lia. Qed.

Lemma digit_char_is_digit d : 0 <= d < 10 -> is_ascii_digit (digit_char d) = true.
Proof.
  intros. unfold is_ascii_digit, digit_char. rewrite byte_of_ascii by lia.
  apply andb_true_iff; split; apply Z.leb_le; lia.
Qed.

Lemma is_ascii_digit_value c : is_ascii_digit c = true -> 0 <= digit_value c < 10.
Proof.
  unfold is_ascii_digit, digit_value. rewrite andb_true_iff, !Z.leb_le. lia.
Qed.

Lemma all_bytes_app p s t : all_bytes p (s +:+ t) = all_bytes p s && all_bytes p t.
Proof. induction s as [|c s IH]; cbn; [done|]. by rewrite IH, andb_assoc. Qed.

Lemma all_bytes_impl (p q : ascii -> bool) s :
  (forall c, p c = true -> q c = true) -> all_bytes p s = true -> all_bytes q s = true.
Proof.
  intros Hpq. induction s as [|c s IH]; cbn; [done|]. rewrite !andb_true_iff. intros [? ?]. auto.
Qed.

Lemma str_len_app s t : str_len (s +:+ t) = str_len s + str_len t.
Proof.
  unfold str_len. induction s as [|c s IH]; cbn [String.append String.length]; [lia|].
  rewrite !Nat2Z.inj_succ, IH. lia.
Qed.

Lemma app_assoc_str (s t u : string) : (s +:+ t) +:+ u = s +:+ (t +:+ u).
Proof. induction s; cbn; [done|]. by f_equal. Qed.

Lemma app_nil_str (s : string) : s +:+ "" = s.
Proof. induction s; cbn; [done|]. by f_equal. Qed.

Lemma app_inj_str (p s t : string) : p +:+ s = p +:+ t -> s = t.
Proof. induction p; cbn; [done|]. intros [= H]. auto. Qed.

(** ** Decimal numbers *)

(** [n.to_string()] for an unsigned integer.  [dec_aux] writes the digits of
    [n] in front of [acc]; one unit of fuel per digit, and a number has at
    most as many decimal digits as binary ones. *)
Fixpoint dec_aux (fuel : nat) (n : Z) (acc : string) : string :=
  match fuel with
  | O => acc
  | S fuel =>
      let acc := String (digit_char (n mod 10)) acc in
      if n <? 10 then acc else dec_aux fuel (n / 10) acc
  end.

Definition show_uint (n : Z) : string := dec_aux (S (Z.to_nat (Z.log2 n))) n "".

(** The value of a run of digits, [None] at the first byte that is no digit. *)
Fixpoint digits_value (acc : Z) (s : string) : option Z :=
  match s with
  | EmptyString => Some acc
  | String c s =>
      if is_ascii_digit c then digits_value (acc * 10 + digit_value c) s else None
  end.

(** [<uN as FromStr>::from_str]: an optional [+], then at least one digit and
    nothing else, and a value that fits. *)
Definition parse_uint (max : Z) (s : string) : option Z :=
  let body := match s with String "+" rest => rest | _ => s end in
  match body with
  | EmptyString => None
  | _ => v ← digits_value 0 body; if v <=? max then Some v else None
  end.

(** The longest prefix of digits and what follows it. *)
Fixpoint span_digits (s : string) : string * string :=
  match s with
  | EmptyString => ("", "")
  | String c r =>
      if is_ascii_digit c then let (d, t) := span_digits r in (String c d, t) else ("", s)
  end.

Definition starts_with_digit (s : string) : bool :=
  match s with String c _ => is_ascii_digit c | EmptyString => false end.

Lemma dec_aux_all_digits fuel n acc :
  0 <= n -> all_bytes is_ascii_digit acc = true ->
  all_bytes is_ascii_digit (dec_aux fuel n acc) = true.
Proof.
  revert n acc. induction fuel as [|fuel IH]; intros n acc Hn Hacc; cbn; [done|].
  assert (all_bytes is_ascii_digit (String (digit_char (n mod 10)) acc) = true) as Hacc'.
  { cbn. rewrite digit_char_is_digit by (apply Z.mod_pos_bound; lia). done. }
  case_match; [done|]. apply IH; [|done]. apply Z.div_pos; lia.
Qed.

(** Reading back what [dec_aux] wrote in front of [acc]. *)
Lemma digits_value_dec_aux fuel n acc a :
  0 <= n < 10 ^ Z.of_nat fuel ->
  exists k, 0 <= k /\
    digits_value a (dec_aux fuel n acc) = digits_value (a * 10 ^ k + n) acc.
Proof.
  revert n acc a. induction fuel as [|fuel IH]; intros n acc a Hn.
  { exists 0. cbn in *. split; [lia|]. f_equal. lia. }
  cbn [dec_aux].
  assert (0 <= n mod 10 < 10) as Hm by (apply Z.mod_pos_bound; lia).
  pose proof (Z.div_mod n 10 ltac:(lia)) as Hdm.
  destruct (n <? 10) eqn:Hlt.
  - apply Z.ltb_lt in Hlt. exists 1. split; [lia|]. cbn [digits_value].
    rewrite digit_char_is_digit, digit_char_value by lia.
    f_equal. rewrite Z.mod_small by lia. lia.
  - destruct (IH (n / 10) (String (digit_char (n mod 10)) acc) a) as (k & Hk & ->).
    { split; [apply Z.div_pos; lia|]. apply Z.div_lt_upper_bound; [lia|].
      rewrite Nat2Z.inj_succ, Z.pow_succ_r in Hn; lia. }
    exists (k + 1). split; [lia|]. cbn [digits_value].
    rewrite digit_char_is_digit, digit_char_value by lia.
    f_equal. rewrite Z.pow_add_r by lia. lia.
Qed.

Lemma show_uint_fuel n : 0 <= n -> 0 <= n < 10 ^ Z.of_nat (S (Z.to_nat (Z.log2 n))).
Proof.
  intros Hn. split; [done|].
  rewrite Nat2Z.inj_succ, Z2Nat.id by apply Z.log2_nonneg.
  destruct (Z.eq_dec n 0) as [->|]; [done|].
  pose proof (Z.log2_spec n ltac:(lia)) as [_ Hlt].
  eapply Z.lt_le_trans; [exact Hlt|].
  apply Z.pow_le_mono_l. lia.
Qed.

(** What [to_string] wrote reads back as the number, whatever follows it. *)
Lemma digits_value_show n t :
  0 <= n -> digits_value 0 (show_uint n +:+ t) = digits_value n t.
Proof.
  intros Hn.
  enough (forall fuel m acc, (dec_aux fuel m acc) +:+ t = dec_aux fuel m (acc +:+ t)) as Happ.
  { unfold show_uint. rewrite Happ. cbn [String.append].
    destruct (digits_value_dec_aux (S (Z.to_nat (Z.log2 n))) n t 0) as (k & Hk & ->).
    - by apply show_uint_fuel.
    - f_equal. }
  induction fuel as [|fuel IH]; intros m acc; cbn [dec_aux]; [done|].
  case_match; [done|]. by rewrite IH.
Qed.

Lemma show_uint_all_digits n : 0 <= n -> all_bytes is_ascii_digit (show_uint n) = true.
Proof. intros. by apply dec_aux_all_digits. Qed.

Lemma dec_aux_nonempty fuel n acc : acc <> "" -> dec_aux fuel n acc <> "".
Proof.
  revert n acc. induction fuel as [|fuel IH]; intros n acc Hacc; cbn; [done|].
  case_match; [done|]. by apply IH.
Qed.

Lemma show_uint_nonempty n : show_uint n <> "".
Proof.
  unfold show_uint. cbn [dec_aux]. case_match; [done|]. by apply dec_aux_nonempty.
Qed.

Lemma digits_value_nondigit s a : all_bytes is_ascii_digit s = false -> digits_value a s = None.
Proof.
  revert a. induction s as [|c s IH]; intros a; cbn; [done|].
  destruct (is_ascii_digit c); cbn; auto.
Qed.

Lemma parse_uint_digits max s :
  s <> "" -> all_bytes is_ascii_digit s = true ->
  parse_uint max s = v ← digits_value 0 s; if v <=? max then Some v else None.
Proof.
  intros Hne Hd. unfold parse_uint. destruct s as [|c s]; [done|].
  destruct (decide (c = "+"%char)) as [->|Hc]; [by cbn in Hd|].
  assert ((match String c s with String "+" rest => rest | _ => String c s end) = String c s)
    as ->; [|done].
  destruct c as [[] [] [] [] [] [] [] []]; try done.
Qed.

(** [FromStr] reads back what [to_string] wrote. *)
Lemma parse_uint_show max n : 0 <= n <= max -> parse_uint max (show_uint n) = Some n.
Proof.
  intros [Hn Hmax].
  rewrite parse_uint_digits by (auto using show_uint_nonempty, show_uint_all_digits).
  rewrite <- (app_nil_str (show_uint n)), digits_value_show by done. cbn.
  by rewrite (proj2 (Z.leb_le n max) Hmax).
Qed.

Lemma parse_uint_show_big max n : 0 <= n -> max < n -> parse_uint max (show_uint n) = None.
Proof.
  intros Hn Hmax.
  rewrite parse_uint_digits by (auto using show_uint_nonempty, show_uint_all_digits).
  rewrite <- (app_nil_str (show_uint n)), digits_value_show by done. cbn.
  by rewrite (proj2 (Z.leb_gt n max) Hmax).
Qed.

Lemma show_uint_inj n m : 0 <= n -> 0 <= m -> show_uint n = show_uint m -> n = m.
Proof.
  intros Hn Hm H.
  pose proof (parse_uint_show (Z.max n m) n ltac:(lia)) as H1.
  pose proof (parse_uint_show (Z.max n m) m ltac:(lia)) as H2.
  rewrite H in H1. congruence.
Qed.

Lemma digits_value_nonneg s a v : 0 <= a -> digits_value a s = Some v -> 0 <= v.
Proof.
  revert a. induction s as [|c s IH]; intros a Ha; cbn; [intros [= ->]; lia|].
  destruct (is_ascii_digit c) eqn:Hc; [|done].
  apply is_ascii_digit_value in Hc. intros H. eapply IH, H. lia.
Qed.

Lemma parse_uint_range max s v : parse_uint max s = Some v -> 0 <= v <= max.
Proof.
  unfold parse_uint. cbn zeta. set (body := match s with String "+" rest => rest | _ => s end).
  destruct body eqn:Hb; [done|]. rewrite <- Hb.
  destruct (digits_value 0 body) as [w|] eqn:Hv; cbn; [|done].
  destruct (w <=? max) eqn:Hw; [|done]. intros [= ->].
  apply Z.leb_le in Hw. apply digits_value_nonneg in Hv; lia.
Qed.

Lemma span_digits_app s t :
  all_bytes is_ascii_digit s = true -> starts_with_digit t = false ->
  span_digits (s +:+ t) = (s, t).
Proof.
  intros Hs Ht. induction s as [|c s IH]; cbn in *.
  - destruct t as [|c t]; cbn in *; [done|]. by rewrite Ht.
  - apply andb_true_iff in Hs as [Hc Hs]. rewrite Hc, IH by done. done.
Qed.

(** ** Prefixes and separators *)

(** [s.strip_prefix(p)] *)
Fixpoint strip_prefix (p s : string) : option string :=
  match p, s with
  | EmptyString, _ => Some s
  | String a p, String b s => if Ascii.eqb a b then strip_prefix p s else None
  | _, _ => None
  end.

(** [s.starts_with(p)] *)
Definition starts_with (s p : string) : bool := is_some (strip_prefix p s).

(** [s.contains(p)] for a non-empty pattern. *)
Fixpoint contains (s p : string) : bool :=
  starts_with s p || match s with EmptyString => false | String _ s => contains s p end.

(** [s.split_once(c)]: split at the first occurrence. *)
Fixpoint split_once (c : ascii) (s : string) : option (string * string) :=
  match s with
  | EmptyString => None
  | String a s =>
      if Ascii.eqb a c then Some ("", s)
      else '(l, r) ← split_once c s; Some (String a l, r)
  end.

(** [s.strip_suffix('c')] *)
Fixpoint strip_suffix_char (c : ascii) (s : string) : option string :=
  match s with
  | EmptyString => None
  | String a EmptyString => if Ascii.eqb a c then Some "" else None
  | String a s => r ← strip_suffix_char c s; Some (String a r)
  end.

(** [s.split(c)]: always at least one piece. *)
Fixpoint split_char (c : ascii) (s : string) : list string :=
  match s with
  | EmptyString => [""]
  | String a s =>
      if Ascii.eqb a c then "" :: split_char c s
      else match split_char c s with
           | [] => [String a ""]
           | p :: ps => String a p :: ps
           end
  end.

Lemma strip_prefix_app p s : strip_prefix p (p +:+ s) = Some s.
Proof. induction p as [|a p IH]; cbn; [done|]. by rewrite Ascii.eqb_refl. Qed.

Lemma strip_prefix_Some p s r : strip_prefix p s = Some r <-> s = p +:+ r.
Proof.
  split; [|intros ->; apply strip_prefix_app].
  revert s. induction p as [|a p IH]; intros s; cbn; [congruence|].
  destruct s as [|b s]; [done|].
  destruct (Ascii.eqb_spec a b) as [->|]; [|done]. intros H. by rewrite (IH _ H).
Qed.

Lemma split_once_app c l r :
  all_bytes (fun a => negb (Ascii.eqb a c)) l = true ->
  split_once c (l +:+ String c r) = Some (l, r).
Proof.
  induction l as [|a l IH]; cbn.
  - by rewrite Ascii.eqb_refl.
  - rewrite andb_true_iff, negb_true_iff. intros [-> H]. rewrite IH by done. done.
Qed.

Lemma split_once_Some c s l r : split_once c s = Some (l, r) -> s = l +:+ String c r.
Proof.
  revert l. induction s as [|a s IH]; intros l; cbn; [done|].
  destruct (Ascii.eqb_spec a c) as [->|].
  - intros [= <- <-]. done.
  - destruct (split_once c s) as [[l' r']|] eqn:E; cbn; [|done].
    intros [= <- <-]. cbn. by rewrite (IH l').
Qed.

Lemma strip_suffix_char_Some c s r : strip_suffix_char c s = Some r <-> s = r +:+ String c "".
Proof.
  split.
  - revert r. induction s as [|a s IH]; intros r; [done|]. cbn [strip_suffix_char].
    destruct s as [|b s].
    + destruct (Ascii.eqb_spec a c) as [->|]; [|done]. by intros [= <-].
    + destruct (strip_suffix_char c (String b s)) as [r'|]; cbn; [|done].
      intros [= <-]. rewrite (IH r') by done. done.
  - intros ->. induction r as [|a r IH]; cbn; [by rewrite Ascii.eqb_refl|].
    destruct (r +:+ String c "") eqn:E; [by destruct r|]. by rewrite IH.
Qed.

(** ** White space *)

(** Length in bytes of the Unicode [White_Space] character [s] starts with,
    0 when it starts with none. *)
Definition ws_len (s : string) : nat :=
  match map byte_of (String.list_ascii_of_string s) with
  | b :: rest =>
      if ((9 <=? b) && (b <=? 13)) || (b =? 32) then 1%nat
      else match b, rest with
           | 194, c :: _ => if (c =? 133) || (c =? 160) then 2%nat else 0%nat
           | 225, 154 :: 128 :: _ => 3%nat
           | 226, 128 :: d :: _ =>
               if ((128 <=? d) && (d <=? 138)) || (d =? 168) || (d =? 169) || (d =? 175)
               then 3%nat else 0%nat
           | 226, 129 :: 159 :: _ => 3%nat
           | 227, 128 :: 128 :: _ => 3%nat
           | _, _ => 0%nat
           end
  | [] => 0%nat
  end.

(** The same, for the last character of a string given in reverse. *)
Definition rev_ws_len (s : string) : nat :=
  match map byte_of (String.list_ascii_of_string s) with
  | d :: rest =>
      if ((9 <=? d) && (d <=? 13)) || (d =? 32) then 1%nat
      else match rest with
           | 194 :: _ => if (d =? 133) || (d =? 160) then 2%nat else 0%nat
           | 154 :: 225 :: _ => if d =? 128 then 3%nat else 0%nat
           | 128 :: 226 :: _ =>
               if ((128 <=? d) && (d <=? 138)) || (d =? 168) || (d =? 169) || (d =? 175)
               then 3%nat else 0%nat
           | 129 :: 226 :: _ => if d =? 159 then 3%nat else 0%nat
           | 128 :: 227 :: _ => if d =? 128 then 3%nat else 0%nat
           | _ => 0%nat
           end
  | [] => 0%nat
  end.

Fixpoint drop_str (n : nat) (s : string) : string :=
  match n, s with
  | O, _ => s
  | S n, String _ s => drop_str n s
  | S _, EmptyString => ""
  end.

Fixpoint rev_str (s acc : string) : string :=
  match s with
  | EmptyString => acc
  | String c s => rev_str s (String c acc)
  end.

(** Drop characters recognised by [len] at the front; each costs one unit of
    fuel and at least one byte, so [length s] is enough. *)
Fixpoint trim_with (len : string -> nat) (fuel : nat) (s : string) : string :=
  match fuel with
  | O => s
  | S fuel => match len s with O => s | n => trim_with len fuel (drop_str n s) end
  end.

Definition trim_start (s : string) : string := trim_with ws_len (String.length s) s.
Definition trim_end (s : string) : string :=
  rev_str (trim_with rev_ws_len (String.length s) (rev_str s "")) "".
(** [s.trim()] *)
Definition trim (s : string) : string := trim_end (trim_start s).

(** A byte no white-space character contains. *)
Definition plain_byte (c : ascii) : bool := (33 <=? byte_of c) && (byte_of c <=? 126).

Lemma rev_str_app s acc : rev_str s acc = rev_str s "" +:+ acc.
Proof.
  revert acc. induction s as [|c s IH]; intros acc; cbn; [done|].
  rewrite IH, (IH (String c "")), app_assoc_str. done.
Qed.

Lemma rev_str_involutive s acc : rev_str (rev_str s acc) "" = rev_str acc s.
Proof. revert acc. induction s as [|c s IH]; intros acc; cbn; [done|]. apply IH. Qed.

Lemma ws_len_plain c s : plain_byte c = true -> ws_len (String c s) = O.
Proof.
  unfold plain_byte, ws_len. cbn [String.list_ascii_of_string map]. generalize (byte_of c). intros b.
  rewrite andb_true_iff, !Z.leb_le. intros Hb.
  destruct ((9 <=? b) && (b <=? 13) || (b =? 32)) eqn:E.
  { apply orb_true_iff in E as [E|E]; [apply andb_true_iff in E as [E1 E2]|]; lia. }
  destruct b as [|p|p]; try done.
  do 8 (destruct p as [p|p|]; try done); lia.
Qed.

Lemma rev_ws_len_plain c s : plain_byte c = true -> rev_ws_len (String c s) = O.
Proof.
  unfold plain_byte, rev_ws_len. cbn [String.list_ascii_of_string map].
  generalize (byte_of c), (map byte_of (String.list_ascii_of_string s)). intros b l.
  rewrite andb_true_iff, !Z.leb_le. intros Hb.
  assert (((9 <=? b) && (b <=? 13) || (b =? 32)) = false) as ->
    by (apply orb_false_iff; split; [apply andb_false_iff|]; lia).
  assert ((b =? 133) = false) as -> by lia. assert ((b =? 160) = false) as -> by lia.
  assert ((b =? 128) = false) as -> by lia. assert ((b =? 159) = false) as -> by lia.
  assert ((b =? 168) = false) as -> by lia. assert ((b =? 169) = false) as -> by lia.
  assert ((b =? 175) = false) as -> by lia. assert ((128 <=? b) = false) as -> by lia.
  repeat case_match; done.
Qed.

(** A string whose first and last bytes are printable ASCII is its own [trim]. *)
Lemma trim_plain c s d t :
  String c s = t +:+ String d "" -> plain_byte c = true -> plain_byte d = true ->
  trim (String c s) = String c s.
Proof.
  intros Heq Hc Hd.
  assert (forall n u, trim_with ws_len n (String c u) = String c u) as Hs.
  { intros [|n] u; cbn [trim_with]; [done|]. by rewrite ws_len_plain. }
  assert (forall n u, trim_with rev_ws_len n (String d u) = String d u) as He.
  { intros [|n] u; cbn [trim_with]; [done|]. by rewrite rev_ws_len_plain. }
  unfold trim, trim_start. rewrite Hs, Heq. unfold trim_end.
  assert (rev_str (t +:+ String d "") "" = String d (rev_str t "")) as Hr.
  { clear. assert (forall acc, rev_str (t +:+ String d "") acc = String d (rev_str t acc)) as H; [|by rewrite H].
    induction t as [|a t IH]; intros acc; cbn; [done|]. by rewrite IH. }
  rewrite Hr, He, <- Hr, rev_str_involutive. done.
Qed.

Lemma digit_plain c : is_ascii_digit c = true -> plain_byte c = true.
Proof. unfold is_ascii_digit, plain_byte. rewrite !andb_true_iff, !Z.leb_le. lia. Qed.

(** [!s.trim().is_empty()] *)
Definition nonblank (s : string) : bool := negb (String.eqb (trim s) "").

Definition to_ascii_lower (c : ascii) : ascii :=
  if (65 <=? byte_of c) && (byte_of c <=? 90) then ascii_of_N (Z.to_N (byte_of c + 32)) else c.

Fixpoint to_ascii_lowercase (s : string) : string :=
  match s with String c s' => String (to_ascii_lower c) (to_ascii_lowercase s') | "" => "" end.

Definition eq_ignore_ascii_case (a b : string) : bool :=
  String.eqb (to_ascii_lowercase a) (to_ascii_lowercase b).

Lemma nonblank_nonempty s : nonblank s = true -> s <> "".
Proof. by intros H ->. Qed.
