(* ===== verification/Durations.v ===== *)
(** * Durations: parsing and printing of TTLs and timeouts

    [parse_duration] ([src/pool/manager.rs]) reads every human-written span of
    the CRDs ("30m", "1h30m"), [format_duration] ([src/api/policy.rs]) writes
    the effective TTL back onto a lease, where [parse_duration] reads it again.
    A [chrono::Duration] is a number of nanoseconds. *)

From S2P Require Import Prelude Text.

(** [const MAX_SECONDS: i64] of [parse_duration]: one year. *)
Definition MAX_SECONDS : Z := 365 * 24 * 3600.

(** [checked_mul]/[checked_add] on non-negative [i64] operands. *)
Definition i64_checked (z : Z) : option Z := if z <=? i64_max then Some z else None.

(** [chrono::Duration::try_seconds] *)
Definition try_seconds (n : Z) : option Z :=
  if Z.abs n <=? i64_max / 1000 then Some (seconds n) else None.

(** The unit arm of the loop: [match ch { 'h' => .., 'm' => .., 's' => .. }]. *)
Definition unit_seconds (ch : ascii) (n : Z) : option Z :=
  if Ascii.eqb ch "h" then i64_checked (n * 3600)
  else if Ascii.eqb ch "m" then i64_checked (n * 60)
  else if Ascii.eqb ch "s" then Some n
  else None.

(** The [for ch in s.chars()] loop: the accumulated seconds and the digits
    collected since the last unit.  Any non-ASCII character is rejected by
    [unit_seconds] at its first byte. *)
Fixpoint parse_duration_loop (total : Z) (num s : string) : option (Z * string) :=
  match s with
  | EmptyString => Some (total, num)
  | String ch s =>
      if is_ascii_digit ch then parse_duration_loop total (num +:+ String ch "") s
      else
        n ← parse_uint i64_max num;
        secs ← unit_seconds ch n;
        total ← i64_checked (total + secs);
        if MAX_SECONDS <? total then None else parse_duration_loop total "" s
  end.

Definition parse_duration (s : string) : option Z :=
  let s := trim s in
  match s with
  | EmptyString => None
  | _ =>
      '(total, num) ← parse_duration_loop 0 "" s;
      match num with
      | String _ _ => None
      | EmptyString => if 0 <? total then try_seconds total else None
      end
  end.

Definition format_duration (d : Z) : string :=
  let total_secs := num_seconds d in
  let hours := Z.quot total_secs 3600 in
  let mins := Z.quot (Z.rem total_secs 3600) 60 in
  let secs := Z.rem total_secs 60 in
  let out := if 0 <? hours then show_uint hours +:+ "h" else "" in
  let out := if 0 <? mins then out +:+ (show_uint mins +:+ "m") else out in
  let out := if 0 <? secs then out +:+ (show_uint secs +:+ "s") else out in
  match out with EmptyString => "0s" | _ => out end.

(** A span [parse_duration] can produce: whole seconds, positive, at most a
    year. *)
Definition ttl_range (d : Z) : Prop :=
  exists n, d = seconds n /\ 0 < n <= MAX_SECONDS.

Lemma parse_duration_loop_total t num s t' num' :
  0 <= t <= MAX_SECONDS -> parse_duration_loop t num s = Some (t', num') ->
  0 <= t' <= MAX_SECONDS.
Proof.
  revert t num. induction s as [|ch s IH]; intros t num Ht; cbn.
  { intros [= <- <-]. done. }
  destruct (is_ascii_digit ch); [by apply IH|].
  destruct (parse_uint i64_max num) as [n|] eqn:Hn; cbn; [|done].
  destruct (unit_seconds ch n) as [secs|] eqn:Hs; cbn; [|done].
  assert (0 <= secs) as Hpos.
  { apply parse_uint_range in Hn. unfold unit_seconds, i64_checked in Hs.
    repeat case_match; simplify_eq; lia. }
  unfold i64_checked. case_match; cbn; [|done].
  destruct (MAX_SECONDS <? t + secs) eqn:Hm; [done|].
  apply Z.ltb_ge in Hm. apply IH. lia.
Qed.

Lemma try_seconds_small n : 0 < n <= MAX_SECONDS -> try_seconds n = Some (seconds n).
Proof.
  intros Hn. unfold try_seconds.
  rewrite (proj2 (Z.leb_le _ _)); [done|]. transitivity MAX_SECONDS; [lia|]. by vm_compute.
Qed.

(** Every parsed span is a whole, positive number of seconds of at most a
    year. *)
Lemma parse_duration_range s d : parse_duration s = Some d -> ttl_range d.
Proof.
  unfold parse_duration. destruct (trim s) as [|c t] eqn:Ht; [done|]. rewrite <- Ht.
  destruct (parse_duration_loop 0 "" (trim s)) as [[total num]|] eqn:Hl; cbn; [|done].
  apply parse_duration_loop_total in Hl; [|split; [lia|by vm_compute]].
  destruct num; [|done].
  destruct (0 <? total) eqn:Hp; [|done]. apply Z.ltb_lt in Hp.
  rewrite try_seconds_small by lia. intros [= <-]. exists total. split; [done|lia].
Qed.

(** One printed component is read back and added. *)
Lemma loop_component t n ch u s :
  0 <= t -> 0 <= n -> is_ascii_digit ch = false ->
  unit_seconds ch n = Some u -> 0 <= u -> t + u <= MAX_SECONDS -> n <= i64_max ->
  parse_duration_loop t "" (show_uint n +:+ String ch s) = parse_duration_loop (t + u) "" s.
Proof.
  intros Ht Hn Hch Hu Hu0 Hmax Hbig.
  assert (forall ds num rest, all_bytes is_ascii_digit ds = true ->
    parse_duration_loop t num (ds +:+ rest) = parse_duration_loop t (num +:+ ds) rest) as Hds.
  { clear. induction ds as [|c ds IH]; intros num rest H; cbn in *; [by rewrite app_nil_str|].
    apply andb_true_iff in H as [-> H]. rewrite IH by done. by rewrite app_assoc_str. }
  rewrite Hds by (by apply show_uint_all_digits). cbn [String.append].
  cbn [parse_duration_loop]. rewrite Hch, parse_uint_show by lia. cbn [mbind option_bind].
  rewrite Hu. cbn [mbind option_bind]. unfold i64_checked.
  assert (MAX_SECONDS < i64_max) by (by vm_compute).
  rewrite (proj2 (Z.leb_le _ _)) by lia. cbn [mbind option_bind].
  by rewrite (proj2 (Z.ltb_ge _ _)) by lia.
Qed.

(** One component of a printed span: absent when zero. *)
Definition component (n : Z) (ch : ascii) : string :=
  if 0 <? n then show_uint n +:+ String ch "" else "".

Lemma loop_opt_component t n ch k s :
  0 <= t -> 0 <= n -> n * k <= MAX_SECONDS - t -> 1 <= k ->
  is_ascii_digit ch = false ->
  (forall n, 0 <= n <= MAX_SECONDS -> unit_seconds ch n = Some (n * k)) ->
  parse_duration_loop t "" (component n ch +:+ s) = parse_duration_loop (t + n * k) "" s.
Proof.
  intros Ht Hn Hmax Hk Hch Hu. unfold component.
  assert (MAX_SECONDS < i64_max) by (by vm_compute).
  assert (n <= MAX_SECONDS) by nia.
  destruct (0 <? n) eqn:E.
  - rewrite app_assoc_str. cbn [String.append].
    apply loop_component; try done; try nia. apply Hu. lia.
  - apply Z.ltb_ge in E. replace n with 0 by lia. cbn [String.append]. f_equal. lia.
Qed.

Lemma unit_seconds_small ch k :
  (ch = "h"%char /\ k = 3600) \/ (ch = "m"%char /\ k = 60) \/ (ch = "s"%char /\ k = 1) ->
  forall n, 0 <= n <= MAX_SECONDS -> unit_seconds ch n = Some (n * k).
Proof.
  intros Hk n Hn. assert (MAX_SECONDS * 3600 < i64_max) by (by vm_compute).
  unfold unit_seconds, i64_checked.
  destruct Hk as [[-> ->]|[[-> ->]|[-> ->]]]; cbn -[Z.mul Z.leb];
    [rewrite (proj2 (Z.leb_le _ _)) by lia; done..|]. f_equal; lia.
Qed.

(** [format_duration] of whole positive seconds, as a concatenation. *)
Lemma format_duration_components n :
  0 < n ->
  let h := n / 3600 in let m := n mod 3600 / 60 in let s := n mod 60 in
  format_duration (seconds n) = component h "h" +:+ (component m "m" +:+ component s "s").
Proof.
  intros Hn h m s. unfold format_duration. rewrite num_seconds_seconds.
  rewrite (Z.rem_mod_nonneg n 3600), (Z.rem_mod_nonneg n 60) by lia.
  pose proof (Z.mod_pos_bound n 3600 ltac:(lia)).
  rewrite !Z.quot_div_nonneg by lia.
  fold h m s. unfold component.
  assert (0 < h \/ 0 < m \/ 0 < s) as Hpos.
  { subst h m s. pose proof (Z.div_mod n 3600 ltac:(lia)).
    pose proof (Z.mod_pos_bound n 3600 ltac:(lia)). pose proof (Z.mod_pos_bound n 60 ltac:(lia)).
    pose proof (Z.div_pos n 3600 ltac:(lia) ltac:(lia)).
    pose proof (Z.div_mod n 60 ltac:(lia)).
    destruct (Z.eq_dec (n / 3600) 0); [|lia].
    destruct (Z.eq_dec (n mod 3600 / 60) 0) as [E|];
      [|pose proof (Z.div_pos (n mod 3600) 60 ltac:(lia) ltac:(lia)); lia].
    apply Z.div_small_iff in E; [|lia]. right; right.
    replace n with (n mod 3600) by lia. rewrite (Z.mod_small (n mod 3600) 60); lia. }
  pose proof (show_uint_nonempty h) as Hh. pose proof (show_uint_nonempty m) as Hm.
  pose proof (show_uint_nonempty s) as Hs.
  destruct (0 <? h) eqn:Eh, (0 <? m) eqn:Em, (0 <? s) eqn:Es; try lia;
    repeat rewrite ?app_nil_str, ?app_assoc_str; cbn [String.append];
    destruct (show_uint h), (show_uint m), (show_uint s); done.
Qed.

Lemma component_zero n ch : n <= 0 -> component n ch = "".
Proof. intros. unfold component. by rewrite (proj2 (Z.ltb_ge _ _)). Qed.

Lemma component_pos n ch :
  0 < n -> component n ch = show_uint n +:+ String ch "" /\
  exists c r, show_uint n = String c r /\ plain_byte c = true.
Proof.
  intros Hn. unfold component. rewrite (proj2 (Z.ltb_lt _ _)) by done. split; [done|].
  pose proof (show_uint_all_digits n ltac:(lia)) as Hd.
  destruct (show_uint n) as [|c r] eqn:Hs; [by apply show_uint_nonempty in Hs|].
  cbn in Hd. apply andb_true_iff in Hd as [Hd _]. eauto using digit_plain.
Qed.

Lemma trim_components h m s :
  0 <= h -> 0 <= m -> 0 <= s ->
  let out := component h "h" +:+ (component m "m" +:+ component s "s") in
  out <> "" -> trim out = out.
Proof.
  intros Hh Hm Hs out Hne.
  assert (forall n ch, component n ch = "" \/
    component n ch = show_uint n +:+ String ch "" /\
    exists c r, show_uint n = String c r /\ plain_byte c = true) as Hcomp.
  { intros n ch. destruct (Z_le_gt_dec n 0); [left; by apply component_zero|].
    right. apply component_pos. lia. }
  assert (exists c r, out = String c r /\ plain_byte c = true) as (c & r & Hc & Hpc).
  { subst out. destruct (Hcomp h "h"%char) as [Eh|(-> & c & r & -> & ?)]; [|by eauto].
    rewrite Eh in *. destruct (Hcomp m "m"%char) as [Em|(-> & c & r & -> & ?)]; [|by eauto].
    rewrite Em in *. destruct (Hcomp s "s"%char) as [Es|(-> & c & r & -> & ?)]; [|by eauto].
    by rewrite Es in Hne. }
  assert (exists t d, out = t +:+ String d "" /\ plain_byte d = true) as (t & d & Ht & Hpd).
  { subst out. destruct (Hcomp s "s"%char) as [E|(-> & _)].
    2:{ exists (component h "h" +:+ (component m "m" +:+ show_uint s)), "s"%char.
        by rewrite !app_assoc_str. }
    rewrite E, app_nil_str in *. destruct (Hcomp m "m"%char) as [Em|(-> & _)].
    2:{ exists (component h "h" +:+ show_uint m), "m"%char. by rewrite !app_assoc_str. }
    rewrite Em, app_nil_str in *. destruct (Hcomp h "h"%char) as [Eh|(-> & _)]; [by rewrite Eh in Hne|].
    by exists (show_uint h), "h"%char. }
  rewrite Hc. rewrite Hc in Ht. by eapply trim_plain.
Qed.

(** Printing a span and parsing it back is the identity on what
    [parse_duration] can produce. *)
Lemma parse_format_duration n :
  0 < n <= MAX_SECONDS -> parse_duration (format_duration (seconds n)) = Some (seconds n).
Proof.
  intros [Hn Hmax].
  assert (format_duration (seconds n) <> "") as Hne.
  { unfold format_duration. cbv zeta. by case_match. }
  rewrite format_duration_components in * by done. cbv zeta in *.
  set (h := n / 3600). set (m := n mod 3600 / 60). set (s := n mod 60).
  fold h m s in Hne. pose proof (Z.div_mod n 3600 ltac:(lia)) as E1. fold h in E1.
  pose proof (Z.mod_pos_bound n 3600 ltac:(lia)) as B1.
  pose proof (Z.div_mod (n mod 3600) 60 ltac:(lia)) as E2. fold m in E2.
  assert (n mod 3600 mod 60 = s) as E3.
  { subst s. apply Z.mod_mod_divide. by exists 60. }
  rewrite E3 in E2. pose proof (Z.mod_pos_bound n 60 ltac:(lia)) as B2. fold s in B2.
  assert (0 <= h) by (apply Z.div_pos; lia). assert (0 <= m) by (apply Z.div_pos; lia).
  unfold parse_duration. rewrite trim_components by (done || lia).
  set (out := component h "h" +:+ _) in *.
  enough (parse_duration_loop 0 "" out = Some (n, "")) as Hl.
  { destruct out as [|c r]; [done|]. rewrite Hl. cbn [mbind option_bind].
    rewrite (proj2 (Z.ltb_lt _ _)) by done. by apply try_seconds_small. }
  subst out. rewrite <- (app_nil_str (component s "s")).
  rewrite (loop_opt_component _ h "h" 3600); try done; try lia; [|apply unit_seconds_small; auto].
  rewrite (loop_opt_component _ m "m" 60); try done; try lia; [|apply unit_seconds_small; auto].
  rewrite (loop_opt_component _ s "s" 1); try done; try lia; [|apply unit_seconds_small; auto].
  cbn [parse_duration_loop]. do 2 f_equal. lia.
Qed.
