(* ===== verification/Quantity.v ===== *)
(** * Quantity: the two Kubernetes-quantity parsers

    The operator reads resource quantities in two places.  [PoolQuantity] is
    the lenient parser of [src/crd/profile.rs] behind the pool's
    effective-request gauges: every overflow saturates.  [SandboxQuantity] is
    the strict parser of [src/sandbox.rs] behind Sandbox admission: it works in
    nano-units, every overflow is a refusal, and the per-container limits of a
    template are summed and compared with the caller's ceiling. *)

From S2P Require Import Prelude Text.

(** [10^exp] with [u32] exponent; [10^38] is the largest power of ten a [u128]
    holds, so larger exponents need not be computed. *)
Definition pow10 (exp : Z) : Z := 10 ^ exp.
Definition MAX_POW10 : Z := 38.

Definition i32_max : Z := 2147483647.
Definition i32_saturating_add (a b : Z) : Z := Z.max (- i32_max - 1) (Z.min (a + b) i32_max).

Module PoolQuantity.

Inductive QuantitySuffix : Type :=
| DecimalSi (exponent : Z)
| DecimalExponent (exponent : Z)
| BinarySi (power : Z).

(** [10u128.saturating_pow(exp)] *)
Definition pow10_u128 (exp : Z) : Z := if exp <=? MAX_POW10 then pow10 exp else u128_max.

Definition ceil_div (numerator denominator : Z) : Z :=
  if denominator =? 0 then u128_max
  else u128_saturating_add (numerator / denominator)
         (if numerator mod denominator =? 0 then 0 else 1).

Definition scaled_decimal_to_millicores (mantissa fractional_digits scale_exponent : Z) : Z :=
  if 0 <=? scale_exponent then
    ceil_div (u128_saturating_mul mantissa (pow10_u128 scale_exponent))
             (pow10_u128 fractional_digits)
  else
    let denominator_exponent := u32_saturating_add fractional_digits (Z.abs scale_exponent) in
    ceil_div mantissa (pow10_u128 denominator_exponent).

(** The digit loop of [parse_decimal_exponent]: saturates as soon as the value
    reaches the limit of the sign. *)
Fixpoint exponent_loop (negative : bool) (value : Z) (digits : string) : Z :=
  match digits with
  | EmptyString => if negative then - value else value
  | String c digits =>
      let value := Z.min (Z.min (value * 10) i64_max + digit_value c) i64_max in
      if (if negative then i32_max + 1 else i32_max) <=? value
      then (if negative then - i32_max - 1 else i32_max)
      else exponent_loop negative value digits
  end.

Definition parse_decimal_exponent (s : string) : option Z :=
  let '(negative, digits) :=
    match s with
    | String "-" rest => (true, rest)
    | String "+" rest => (false, rest)
    | _ => (false, s)
    end in
  match digits with
  | EmptyString => None
  | _ => if all_bytes is_ascii_digit digits
         then Some (exponent_loop negative 0 digits) else None
  end.

Definition parse_quantity_suffix (s : string) : option QuantitySuffix :=
  if String.eqb s "" then Some (DecimalSi 0)
  else if String.eqb s "m" then Some (DecimalSi (-3))
  else if String.eqb s "k" then Some (DecimalSi 3)
  else if String.eqb s "M" then Some (DecimalSi 6)
  else if String.eqb s "G" then Some (DecimalSi 9)
  else if String.eqb s "T" then Some (DecimalSi 12)
  else if String.eqb s "P" then Some (DecimalSi 15)
  else if String.eqb s "E" then Some (DecimalSi 18)
  else if String.eqb s "Ki" then Some (BinarySi 1)
  else if String.eqb s "Mi" then Some (BinarySi 2)
  else if String.eqb s "Gi" then Some (BinarySi 3)
  else if String.eqb s "Ti" then Some (BinarySi 4)
  else if String.eqb s "Pi" then Some (BinarySi 5)
  else if String.eqb s "Ei" then Some (BinarySi 6)
  else if starts_with s "e" || (starts_with s "E" && (1 <? str_len s))
  then DecimalExponent <$> parse_decimal_exponent (drop_str 1 s)
  else None.

(** The [while idx < bytes.len()] loop of [split_quantity]: mantissa,
    fractional digits, whether a digit was seen, and the rest. *)
Fixpoint scan (mantissa fractional_digits : Z) (seen_digit seen_dot : bool) (s : string)
    : option (Z * Z * bool * string) :=
  match s with
  | EmptyString => Some (mantissa, fractional_digits, seen_digit, s)
  | String c r =>
      if is_ascii_digit c then
        let mantissa := u128_saturating_add (u128_saturating_mul mantissa 10) (digit_value c) in
        if seen_dot then
          if fractional_digits + 1 <=? u32_max
          then scan mantissa (fractional_digits + 1) true seen_dot r else None
        else scan mantissa fractional_digits true seen_dot r
      else if Ascii.eqb c "." && negb seen_dot then scan mantissa fractional_digits seen_digit true r
      else Some (mantissa, fractional_digits, seen_digit, s)
  end.

Definition split_quantity (s : string) : option (Z * Z * QuantitySuffix) :=
  let s := trim s in
  let s := match s with String "+" rest => rest | _ => s end in
  match s with
  | EmptyString => None
  | String "-" _ => None
  | _ =>
      '(mantissa, fractional_digits, seen_digit, rest) ← scan 0 0 false false s;
      if negb seen_digit then None
      else suffix ← parse_quantity_suffix rest; Some (mantissa, fractional_digits, suffix)
  end.

Definition parse_cpu_millicores (s : string) : option Z :=
  '(mantissa, fractional_digits, suffix) ← split_quantity s;
  let value :=
    match suffix with
    | DecimalSi exponent | DecimalExponent exponent =>
        scaled_decimal_to_millicores mantissa fractional_digits (i32_saturating_add exponent 3)
    | BinarySi power =>
        let factor := u128_saturating_mul (1024 ^ power) 1000 in
        ceil_div (u128_saturating_mul mantissa factor) (pow10_u128 fractional_digits)
    end in
  Some (Z.min value i64_max).

Definition parse_memory_bytes (s : string) : option Z :=
  '(mantissa, fractional_digits, suffix) ← split_quantity s;
  let value :=
    match suffix with
    | DecimalSi exponent | DecimalExponent exponent =>
        scaled_decimal_to_millicores mantissa fractional_digits exponent
    | BinarySi power =>
        ceil_div (u128_saturating_mul mantissa (1024 ^ power)) (pow10_u128 fractional_digits)
    end in
  Some (Z.min value i64_max).

(** [ResourceRequirements]: the two [BTreeMap<String, String>]. *)
Record ResourceRequirements : Type := {
  limits : gmap string string;
  requests : gmap string string;
}.

Definition limits_without_requests (r : ResourceRequirements) : list string :=
  filter (fun k => requests r !! k = None) (elements (dom (limits r))).

(** [effective.entry(key).or_insert_with(limit)] for every limit. *)
Definition or_insert (key limit : string) (effective : gmap string string) : gmap string string :=
  match effective !! key with Some _ => effective | None => <[key := limit]> effective end.

Definition effective_requests (r : ResourceRequirements) : gmap string string :=
  map_fold or_insert (requests r) (limits r).

Definition effective_cpu_millicores (r : ResourceRequirements) : option Z :=
  v ← effective_requests r !! "cpu"; parse_cpu_millicores v.

Definition effective_memory_bytes (r : ResourceRequirements) : option Z :=
  v ← effective_requests r !! "memory"; parse_memory_bytes v.

Definition gomaxprocs_from_cpu_limit (r : ResourceRequirements) : option Z :=
  limit ← limits r !! "cpu";
  millicores ← parse_cpu_millicores limit;
  Some (Z.max (millicores / 1000) 1).

End PoolQuantity.

Module SandboxQuantity.

Definition checked_u128 (z : Z) : option Z := if z <=? u128_max then Some z else None.
(** [10u128.checked_pow(exp)] *)
Definition checked_pow10 (exp : Z) : option Z :=
  if exp <=? MAX_POW10 then Some (pow10 exp) else None.

Definition checked_i32 (z : Z) : option Z :=
  if (- i32_max - 1 <=? z) && (z <=? i32_max) then Some z else None.

(** [<i32 as FromStr>::from_str] *)
Definition parse_i32 (s : string) : option Z :=
  match s with
  | String "-" EmptyString => None
  | String "-" rest => v ← digits_value 0 rest; checked_i32 (- v)
  | _ => parse_uint i32_max s
  end.

Definition ceil_div (numerator denominator : Z) : option Z :=
  if denominator =? 0 then None
  else checked_u128 (numerator / denominator + if numerator mod denominator =? 0 then 0 else 1).

Fixpoint scan (mantissa fractional_digits : Z) (saw_digit saw_decimal : bool) (s : string)
    : option (Z * Z * bool * string) :=
  match s with
  | EmptyString => Some (mantissa, fractional_digits, saw_digit, s)
  | String c r =>
      if is_ascii_digit c then
        m10 ← checked_u128 (mantissa * 10);
        mantissa ← checked_u128 (m10 + digit_value c);
        if saw_decimal then
          if fractional_digits + 1 <=? u32_max
          then scan mantissa (fractional_digits + 1) true saw_decimal r else None
        else scan mantissa fractional_digits true saw_decimal r
      else if Ascii.eqb c "." && negb saw_decimal
      then scan mantissa fractional_digits saw_digit true r
      else Some (mantissa, fractional_digits, saw_digit, s)
  end.

Definition binary_power (suffix : string) : option Z :=
  if String.eqb suffix "Ki" then Some 1
  else if String.eqb suffix "Mi" then Some 2
  else if String.eqb suffix "Gi" then Some 3
  else if String.eqb suffix "Ti" then Some 4
  else if String.eqb suffix "Pi" then Some 5
  else if String.eqb suffix "Ei" then Some 6
  else None.

Definition suffix_exponent (suffix : string) : option Z :=
  if String.eqb suffix "" then Some 0
  else if String.eqb suffix "n" then Some (-9)
  else if String.eqb suffix "u" then Some (-6)
  else if String.eqb suffix "m" then Some (-3)
  else if String.eqb suffix "k" then Some 3
  else if String.eqb suffix "M" then Some 6
  else if String.eqb suffix "G" then Some 9
  else if String.eqb suffix "T" then Some 12
  else if String.eqb suffix "P" then Some 15
  else if String.eqb suffix "E" then Some 18
  else if starts_with suffix "e" || (starts_with suffix "E" && (1 <? str_len suffix))
  then parse_i32 (drop_str 1 suffix)
  else None.

(** The nano-units of a scanned mantissa, [None] on any overflow. *)
Definition scale_nanos (mantissa fractional_digits : Z) (suffix : string) : option Z :=
  match binary_power suffix with
  | Some power =>
      n ← checked_u128 (mantissa * 1024 ^ power);
      numerator ← checked_u128 (n * 1000000000);
      denominator ← checked_pow10 fractional_digits;
      ceil_div numerator denominator
  | None =>
      e ← suffix_exponent suffix;
      e9 ← checked_i32 (e + 9);
      fd ← (if fractional_digits <=? i32_max then Some fractional_digits else None);
      scale ← checked_i32 (e9 - fd);
      if 0 <=? scale
      then p ← checked_pow10 scale; checked_u128 (mantissa * p)
      else p ← checked_pow10 (Z.abs scale); ceil_div mantissa p
  end.

Definition KUBERNETES_MAX_NANOUNITS : Z := i64_max * 1000000000.

Definition parse_quantity_nanos (value : string) : option Z :=
  if negb (String.eqb value (trim value)) then None
  else
    let value := match value with String "+" rest => rest | _ => value end in
    match value with
    | EmptyString => None
    | String "-" _ => None
    | _ =>
        '(mantissa, fractional_digits, saw_digit, suffix) ← scan 0 0 false false value;
        if negb saw_digit then None
        else
          nanos ← scale_nanos mantissa fractional_digits suffix;
          if nanos <=? KUBERNETES_MAX_NANOUNITS then Some nanos else None
    end.

Inductive QuantityDimension : Type := Cpu | Bytes.

Inductive SandboxResourceError : Type :=
| InvalidQuantity (field value : string)
| RequestExceedsLimit (container resource : string)
| AggregateOverflow (resource : string).

(** The two [filter]s of [parse_positive_quantity_nanos]: positive, and for
    CPU a whole number of millicores. *)
Definition positive_in_dimension (dimension : QuantityDimension) (nanos : Z) : bool :=
  (0 <? nanos) &&
  match dimension with
  | Cpu => (1000000 <=? nanos) && (nanos mod 1000000 =? 0)
  | Bytes => true
  end.

Definition parse_positive_quantity_nanos (value : string) (dimension : QuantityDimension)
    (field : string) : result Z SandboxResourceError :=
  match parse_quantity_nanos value with
  | Some nanos =>
      if positive_in_dimension dimension nanos then Ok nanos else Err (InvalidQuantity field value)
  | None => Err (InvalidQuantity field value)
  end.

Record SandboxResourceTotals : Type := {
  cpu_millicores : Z;
  memory_bytes : Z;
  cpu_nanocores : Z;
  memory_nanobytes : Z;
}.

Record SandboxResourceQuantity : Type := {
  cpu : string;
  memory : string;
  ephemeral_storage : string;
}.

Record SandboxContainerResources : Type := {
  requests : SandboxResourceQuantity;
  limits : SandboxResourceQuantity;
}.

(** A container of a Sandbox template, as far as admission reads it. *)
Record SandboxContainer : Type := {
  container_name : string;
  resources : SandboxContainerResources;
}.

Record SandboxResourceCeiling : Type := {
  max_cpu : string;
  max_memory : string;
}.

Local Open Scope kobe_scope.

(** One pass of the [for container in &template.containers] loop. *)
Definition container_limits (c : SandboxContainer) : result (Z * Z) SandboxResourceError :=
  let req := requests (resources c) in
  let lim := limits (resources c) in
  let? request_cpu := parse_positive_quantity_nanos (cpu req) Cpu "requests.cpu" in
  let? limit_cpu := parse_positive_quantity_nanos (cpu lim) Cpu "limits.cpu" in
  let? request_memory := parse_positive_quantity_nanos (memory req) Bytes "requests.memory" in
  let? limit_memory := parse_positive_quantity_nanos (memory lim) Bytes "limits.memory" in
  let? request_ephemeral :=
    parse_positive_quantity_nanos (ephemeral_storage req) Bytes "requests.ephemeralStorage" in
  let? limit_ephemeral :=
    parse_positive_quantity_nanos (ephemeral_storage lim) Bytes "limits.ephemeralStorage" in
  if limit_cpu <? request_cpu then Err (RequestExceedsLimit (container_name c) "cpu")
  else if limit_memory <? request_memory then Err (RequestExceedsLimit (container_name c) "memory")
  else if limit_ephemeral <? request_ephemeral
  then Err (RequestExceedsLimit (container_name c) "ephemeral-storage")
  else Ok (limit_cpu, limit_memory).

Fixpoint sum_limits (total_cpu total_memory : Z) (containers : list SandboxContainer)
    : result (Z * Z) SandboxResourceError :=
  match containers with
  | [] => Ok (total_cpu, total_memory)
  | c :: rest =>
      let? (limit_cpu, limit_memory) := container_limits c in
      let? total_cpu := ok_or (checked_u128 (total_cpu + limit_cpu)) (AggregateOverflow "cpu") in
      let? total_memory :=
        ok_or (checked_u128 (total_memory + limit_memory)) (AggregateOverflow "memory") in
      sum_limits total_cpu total_memory rest
  end.

Definition totals_of (cpu_nanos memory_nanos : Z)
    : result SandboxResourceTotals SandboxResourceError :=
  let? millicores := ok_or (ceil_div cpu_nanos 1000000) (AggregateOverflow "cpu") in
  let? bytes := ok_or (ceil_div memory_nanos 1000000000) (AggregateOverflow "memory") in
  Ok {| cpu_millicores := millicores; memory_bytes := bytes;
        cpu_nanocores := cpu_nanos; memory_nanobytes := memory_nanos |}.

Definition aggregate_resource_limits (containers : list SandboxContainer)
    : result SandboxResourceTotals SandboxResourceError :=
  let? (total_cpu_nanos, total_memory_nanos) := sum_limits 0 0 containers in
  totals_of total_cpu_nanos total_memory_nanos.

Definition parse_resource_ceiling (ceiling : SandboxResourceCeiling)
    : result SandboxResourceTotals SandboxResourceError :=
  let? cpu_nanocores :=
    parse_positive_quantity_nanos (max_cpu ceiling) Cpu "resourceCeiling.maxCpu" in
  let? memory_nanobytes :=
    parse_positive_quantity_nanos (max_memory ceiling) Bytes "resourceCeiling.maxMemory" in
  totals_of cpu_nanocores memory_nanobytes.

Definition resource_ceiling_allows (ceiling : SandboxResourceCeiling)
    (requested : SandboxResourceTotals) : result bool SandboxResourceError :=
  let? ceiling := parse_resource_ceiling ceiling in
  Ok ((cpu_nanocores requested <=? cpu_nanocores ceiling) &&
      (memory_nanobytes requested <=? memory_nanobytes ceiling)).

End SandboxQuantity.
