(* ===== verification/QuantityFacts.v ===== *)
(** * QuantityFacts: what the quantity parsers compute

    Theorems about [Quantity]: the strict parser rounds the exact value of the
    text up to a nano-unit, the lenient parser agrees with it, and Sandbox
    admission compares exact sums. *)

From S2P Require Import Prelude Text Quantity.

(** ** Ceiling division *)

Definition cdiv (a b : Z) : Z := - (- a / b).

Lemma cdiv_frac a b : 0 < b -> a / b + (if a mod b =? 0 then 0 else 1) = cdiv a b.
Proof.
  intros Hb. unfold cdiv. destruct (Z.eqb_spec (a mod b) 0) as [E|E].
  - rewrite Z.div_opp_l_z by lia. lia.
  - rewrite Z.div_opp_l_nz by lia. lia.
Qed.

Lemma cdiv_cdiv a b c : 0 < b -> 0 < c -> cdiv (cdiv a b) c = cdiv a (b * c).
Proof. intros. unfold cdiv. by rewrite Z.opp_involutive, Z.div_div by lia. Qed.

(** Equal fractions have equal ceilings. *)
Lemma cdiv_eq a b c d : 0 < b -> 0 < d -> a * d = c * b -> cdiv a b = cdiv c d.
Proof.
  intros Hb Hd E. unfold cdiv. f_equal.
  rewrite <- (Z.div_mul_cancel_r (- a) b d), <- (Z.div_mul_cancel_r (- c) d b) by lia.
  f_equal; lia.
Qed.

Lemma cdiv_1 a : cdiv a 1 = a.
Proof. unfold cdiv. rewrite Z.div_1_r. lia. Qed.

Lemma cdiv_bounds a b : 0 < b -> b * (cdiv a b - 1) < a <= b * cdiv a b.
Proof.
  intros Hb. unfold cdiv. pose proof (Z.div_mod (- a) b ltac:(lia)).
  pose proof (Z.mod_pos_bound (- a) b Hb). nia.
Qed.

Lemma cdiv_le a b c : 0 < b -> a <= c * b -> cdiv a b <= c.
Proof. intros Hb H. pose proof (cdiv_bounds a b Hb). nia. Qed.

Lemma cdiv_small a b : 0 < a <= b -> cdiv a b = 1.
Proof. intros H. pose proof (cdiv_bounds a b ltac:(lia)). nia. Qed.

Lemma cdiv_0_l b : cdiv 0 b = 0.
Proof. by destruct b. Qed.

Lemma cdiv_nonneg a b : 0 < b -> 0 <= a -> 0 <= cdiv a b.
Proof. intros Hb Ha. pose proof (cdiv_bounds a b Hb). nia. Qed.

(** ** The value of a quantity *)

(** The scale of a suffix in nano-units, as a fraction. *)
Inductive suffix_scale : string -> Z -> Z -> Prop :=
| scale_binary sfx p :
    In (sfx, p) [("Ki", 1); ("Mi", 2); ("Gi", 3); ("Ti", 4); ("Pi", 5); ("Ei", 6)] ->
    suffix_scale sfx (1024 ^ p * 10 ^ 9) 1
| scale_si sfx e :
    In (sfx, e) [("", 0); ("n", -9); ("u", -6); ("m", -3); ("k", 3); ("M", 6); ("G", 9);
                 ("T", 12); ("P", 15); ("E", 18)] ->
    suffix_scale sfx (10 ^ Z.max 0 (e + 9)) (10 ^ Z.max 0 (- (e + 9)))
| scale_exponent c t e :
    In c ["e"; "E"]%char -> SandboxQuantity.parse_i32 t = Some e ->
    suffix_scale (String c t) (10 ^ Z.max 0 (e + 9)) (10 ^ Z.max 0 (- (e + 9))).

(** [text] is an unsigned quantity: digits [i], perhaps a dot and digits [f],
    and a suffix; its value in nano-units is [num / den]. *)
Inductive quantity_value : string -> Z -> Z -> Prop :=
| quantity_intro sign i dot f sfx m num den :
    In sign [""; "+"] -> In dot [""; "."] -> (dot = "" -> f = "") ->
    i +:+ f <> "" -> digits_value 0 (i +:+ f) = Some m -> suffix_scale sfx num den ->
    quantity_value (sign +:+ i +:+ dot +:+ f +:+ sfx) (m * num) (10 ^ str_len f * den).

(** ** Scanning *)

Lemma checked_u128_Some z v : SandboxQuantity.checked_u128 z = Some v <-> v = z /\ z <= u128_max.
Proof. unfold SandboxQuantity.checked_u128. destruct (Z.leb_spec z u128_max); (split; [|intros [-> ?]]); (done || lia || by intros [= <-]). Qed.

Lemma digits_value_app a s t v :
  digits_value a s = Some v -> digits_value a (s +:+ t) = digits_value v t.
Proof.
  revert a. induction s as [|c s IH]; intros a; cbn; [by intros [= ->]|].
  destruct (is_ascii_digit c); [apply IH|done].
Qed.

Lemma scan_digits m fd sd dot s m' fd' sd' rest :
  SandboxQuantity.scan m fd sd dot s = Some (m', fd', sd', rest) ->
  exists i dt f, s = i +:+ dt +:+ f +:+ rest /\ In dt [""; "."] /\ (dt = "" -> f = "") /\
    (dot = true -> dt = "") /\
    digits_value m (i +:+ f) = Some m' /\ sd' = sd || negb (String.eqb (i +:+ f) "") /\
    fd' = fd + str_len (if dot then i else f).
Proof.
  revert m fd sd dot. induction s as [|c s IH]; intros m fd sd dot; cbn.
  { intros [= <- <- <- <-]. exists "", "", "". rewrite orb_false_r. cbn. split_and!; auto; by destruct dot; unfold str_len; cbn; lia. }
  destruct (is_ascii_digit c) eqn:Hc.
  - intros H. unfold mbind, option_bind in H.
    destruct (SandboxQuantity.checked_u128 (m * 10)) as [m10|] eqn:E1; [|done].
    destruct (SandboxQuantity.checked_u128 (m10 + digit_value c)) as [m1|] eqn:E2; [|done].
    apply checked_u128_Some in E1 as [-> _], E2 as [-> _].
    destruct dot; [case_match; [|done]|]; apply IH in H as (i & dt & f & -> & Hdt & Hf & Hd & Hv & -> & ->);
      exists (String c i), dt, f; cbn; rewrite Hc, ?orb_true_r; split_and!; auto.
    unfold str_len; cbn; lia.
  - destruct (Ascii.eqb_spec c ".") as [->|Hne]; cbn.
    + destruct dot; cbn.
      * intros [= <- <- <- <-]. exists "", "", "". cbn. rewrite orb_false_r. split_and!; auto. unfold str_len; cbn; lia.
      * intros H. apply IH in H as (i & dt & f & -> & Hdt & Hf & Hd & Hv & -> & ->).
        specialize (Hd eq_refl) as ->. rewrite (Hf eq_refl) in *.
        exists "", ".", i. cbn. rewrite app_nil_str in *. split_and!; (auto || done).
    + intros [= <- <- <- <-]. exists "", "", "". cbn. rewrite orb_false_r. split_and!; auto. by destruct dot; unfold str_len; cbn; lia.
Qed.

(** ** Scaling *)

Lemma binary_power_table sfx p :
  SandboxQuantity.binary_power sfx = Some p ->
  In (sfx, p) [("Ki", 1); ("Mi", 2); ("Gi", 3); ("Ti", 4); ("Pi", 5); ("Ei", 6)].
Proof.
  unfold SandboxQuantity.binary_power.
  repeat (case_match eqn:E; [apply String.eqb_eq in E as ->; intros [= <-]; cbn; tauto|clear E]). done.
Qed.

Lemma exponent_suffix s c t :
  starts_with s "e" || (starts_with s "E" && (1 <? str_len s)) = true -> s = String c t ->
  In c ["e"; "E"]%char.
Proof.
  intros H ->. unfold starts_with in H. cbn [strip_prefix] in H.
  destruct (Ascii.eqb_spec "e" c) as [<-|]; [cbn; tauto|].
  destruct (Ascii.eqb_spec "E" c) as [<-|]; [cbn; tauto|]. done.
Qed.

Lemma suffix_exponent_table sfx e :
  SandboxQuantity.suffix_exponent sfx = Some e ->
  suffix_scale sfx (10 ^ Z.max 0 (e + 9)) (10 ^ Z.max 0 (- (e + 9))).
Proof.
  unfold SandboxQuantity.suffix_exponent.
  do 10 (case_match eqn:E; [apply String.eqb_eq in E as ->; intros [= <-]; apply scale_si; cbn; tauto|clear E]).
  case_match eqn:E; [|done]. destruct sfx as [|c t]; [done|]. cbn. intros H.
  apply scale_exponent; [by eapply exponent_suffix|done].
Qed.

Lemma strict_ceil_div_Some a b v :
  0 < b -> SandboxQuantity.ceil_div a b = Some v -> v = cdiv a b /\ v <= u128_max.
Proof.
  intros Hb. unfold SandboxQuantity.ceil_div. case_match; [lia|]. rewrite checked_u128_Some, cdiv_frac by done.
  intros [-> ?]. done.
Qed.

Lemma checked_pow10_Some e v : SandboxQuantity.checked_pow10 e = Some v <-> v = 10 ^ e /\ e <= 38.
Proof.
  unfold SandboxQuantity.checked_pow10, MAX_POW10, pow10.
  destruct (Z.leb_spec e 38); (split; [|intros [-> ?]]); (done || lia || by intros [= <-]).
Qed.

Lemma pow10_pos e : 0 < 10 ^ Z.max 0 e.
Proof. apply Z.pow_pos_nonneg; lia. Qed.

Lemma checked_i32_Some z v :
  SandboxQuantity.checked_i32 z = Some v <-> v = z /\ - i32_max - 1 <= z <= i32_max.
Proof.
  unfold SandboxQuantity.checked_i32. destruct (Z.leb_spec (- i32_max - 1) z), (Z.leb_spec z i32_max); cbn;
    (split; [|intros [-> ?]]); (done || lia || by intros [= <-]).
Qed.

(** [m * 10^(e - fd)] rounded up is the ceiling of the fraction. *)
Lemma scaled_value m fd e n :
  0 <= m -> 0 <= fd ->
  (if 0 <=? e - fd
   then match SandboxQuantity.checked_pow10 (e - fd) with
        | Some p => SandboxQuantity.checked_u128 (m * p) | None => None end
   else match SandboxQuantity.checked_pow10 (Z.abs (e - fd)) with
        | Some p => SandboxQuantity.ceil_div m p | None => None end) = Some n ->
  n = cdiv (m * 10 ^ Z.max 0 e) (10 ^ fd * 10 ^ Z.max 0 (- e)).
Proof.
  intros Hm Hfd. pose proof (Z.pow_pos_nonneg 10 fd ltac:(lia) Hfd) as Hp.
  pose proof (pow10_pos (- e)). destruct (Z.leb_spec 0 (e - fd)).
  - destruct (SandboxQuantity.checked_pow10 _) eqn:E; [|done]. apply checked_pow10_Some in E as [-> _].
    rewrite checked_u128_Some. intros [-> _]. rewrite <- (cdiv_1 (m * 10 ^ (e - fd))).
    apply cdiv_eq; [lia|nia|]. rewrite (Z.max_r 0 e), (Z.max_l 0 (- e)) by lia.
    assert (10 ^ e = 10 ^ (e - fd) * 10 ^ fd) as -> by (rewrite <- Z.pow_add_r by lia; f_equal; lia).
    change (10 ^ 0) with 1. lia.
  - destruct (SandboxQuantity.checked_pow10 _) eqn:E; [|done]. apply checked_pow10_Some in E as [-> _].
    intros H'. apply strict_ceil_div_Some in H' as [-> _]; [|apply Z.pow_pos_nonneg; lia].
    apply cdiv_eq; [apply Z.pow_pos_nonneg; lia|nia|].
    rewrite (Z.abs_neq (e - fd)) by lia. rewrite <- Z.mul_assoc, <- !Z.pow_add_r by lia.
    do 2 f_equal. lia.
Qed.

Lemma decimal_scale_nanos m fd sfx e n :
  0 <= m -> 0 <= fd -> SandboxQuantity.binary_power sfx = None ->
  SandboxQuantity.suffix_exponent sfx = Some e -> SandboxQuantity.scale_nanos m fd sfx = Some n ->
  - i32_max - 1 <= e + 9 <= i32_max /\
  n = cdiv (m * 10 ^ Z.max 0 (e + 9)) (10 ^ fd * 10 ^ Z.max 0 (- (e + 9))).
Proof.
  intros Hm Hfd Hb He. unfold SandboxQuantity.scale_nanos. rewrite Hb, He. cbn [mbind option_bind]. intros H.
  unfold mbind, option_bind in H.
  destruct (SandboxQuantity.checked_i32 (e + 9)) as [e9|] eqn:E1; [|done].
  apply checked_i32_Some in E1 as [-> ?]. destruct (fd <=? i32_max); [|done].
  destruct (SandboxQuantity.checked_i32 (e + 9 - fd)) as [scale|] eqn:E2; [|done].
  apply checked_i32_Some in E2 as [-> _]. split; [done|]. by apply scaled_value.
Qed.

Lemma scale_nanos_value m fd sfx n :
  0 <= m -> 0 <= fd -> SandboxQuantity.scale_nanos m fd sfx = Some n ->
  exists num den, suffix_scale sfx num den /\ 0 < den /\ n = cdiv (m * num) (10 ^ fd * den).
Proof.
  intros Hm Hfd. unfold SandboxQuantity.scale_nanos.
  pose proof (Z.pow_pos_nonneg 10 fd ltac:(lia) Hfd) as Hp.
  destruct (SandboxQuantity.binary_power sfx) as [p|] eqn:Hb.
  - intros H. unfold mbind, option_bind in H.
    destruct (SandboxQuantity.checked_u128 _) eqn:E1 in H; [|done].
    destruct (SandboxQuantity.checked_u128 _) eqn:E2 in H; [|done].
    destruct (SandboxQuantity.checked_pow10 _) eqn:E3 in H; [|done].
    apply checked_u128_Some in E1 as [-> _], E2 as [-> _]. apply checked_pow10_Some in E3 as [-> _].
    apply strict_ceil_div_Some in H as [-> _]; [|done].
    exists (1024 ^ p * 10 ^ 9), 1. split; [by apply scale_binary, binary_power_table|]. split; [lia|].
    f_equal; lia.
  - intros H. destruct (SandboxQuantity.suffix_exponent sfx) as [e|] eqn:He; [|done].
    exists (10 ^ Z.max 0 (e + 9)), (10 ^ Z.max 0 (- (e + 9))).
    split; [by apply suffix_exponent_table|]. split; [apply pow10_pos|].
    unfold SandboxQuantity.scale_nanos in *. eapply decimal_scale_nanos; [done..|].
    unfold SandboxQuantity.scale_nanos. by rewrite Hb, He.
Qed.

(** ** The strict parser *)

Definition strip_plus (s : string) : string := match s with String "+" rest => rest | _ => s end.

Lemma strip_plus_spec s : exists sign, In sign [""; "+"] /\ s = sign +:+ strip_plus s.
Proof.
  destruct s as [|c s]; [exists ""; cbn; tauto|]. cbn [strip_plus].
  destruct (Ascii.eqb_spec c "+") as [->|Hne]; [exists "+"; cbn; tauto|]. exists "". split; [cbn; tauto|].
  by destruct c as [[] [] [] [] [] [] [] []].
Qed.

(** What a successful strict parse went through. *)
Lemma strict_parts v n :
  SandboxQuantity.parse_quantity_nanos v = Some n ->
  v = trim v /\ n <= SandboxQuantity.KUBERNETES_MAX_NANOUNITS /\
  match strip_plus v with "" => False | String "-" _ => False | _ => True end /\
  exists m fd sfx, SandboxQuantity.scan 0 0 false false (strip_plus v) = Some (m, fd, true, sfx) /\
    SandboxQuantity.scale_nanos m fd sfx = Some n.
Proof.
  unfold SandboxQuantity.parse_quantity_nanos. fold (strip_plus v).
  destruct (String.eqb_spec v (trim v)) as [Hv|]; [|done]. cbn [negb].
  intros H. assert ((match strip_plus v with "" => False | String "-" _ => False | _ => True end) /\
    ('(m, fd, sd, sfx) ← SandboxQuantity.scan 0 0 false false (strip_plus v);
     if negb sd then None
     else nanos ← SandboxQuantity.scale_nanos m fd sfx;
          if nanos <=? SandboxQuantity.KUBERNETES_MAX_NANOUNITS then Some nanos else None) = Some n)
    as [Hs H'].
  { destruct (strip_plus v) as [|[[] [] [] [] [] [] [] []] ?]; done. }
  clear H. unfold mbind, option_bind in H'.
  destruct (SandboxQuantity.scan _ _ _ _ _) as [[[[m fd] []] sfx]|]; [|done..]. cbn [negb] in H'.
  destruct (SandboxQuantity.scale_nanos m fd sfx) as [nanos|] eqn:Hn; [|done].
  destruct (Z.leb_spec nanos SandboxQuantity.KUBERNETES_MAX_NANOUNITS); [|done].
  injection H' as <-. split_and!; [done..|]. by exists m, fd, sfx.
Qed.

Lemma strict_value v n :
  SandboxQuantity.parse_quantity_nanos v = Some n ->
  exists num den, quantity_value v num den /\ 0 <= num /\ 0 < den /\ n = cdiv num den.
Proof.
  intros (_ & _ & _ & m & fd & sfx & Hscan & Hscale)%strict_parts.
  destruct (strip_plus_spec v) as (sign & Hsign & Hv).
  apply scan_digits in Hscan as (i & dt & f & Hs & Hdt & Hf & _ & Hm & Hsd & ->). rewrite Z.add_0_l in *.
  pose proof (digits_value_nonneg (i +:+ f) 0 m ltac:(done) Hm) as Hm0.
  assert (0 <= str_len f) by (unfold str_len; lia).
  destruct (scale_nanos_value _ _ _ _ Hm0 ltac:(done) Hscale) as (num & den & Hsc & Hden & ->).
  exists (m * num), (10 ^ str_len f * den). rewrite Hv, Hs. split.
  { apply quantity_intro; [done..| |done|done]. by destruct (String.eqb_spec (i +:+ f) ""). }
  split; [|split; [|done]].
  - apply Z.mul_nonneg_nonneg; [done|]. inversion Hsc; subst; try apply Z.lt_le_incl, pow10_pos. lia.
  - apply Z.mul_pos_pos; [apply Z.pow_pos_nonneg; lia|done].
Qed.

(** ** The lenient parser *)

Lemma scan_agree m fd sd dot s r :
  SandboxQuantity.scan m fd sd dot s = Some r -> PoolQuantity.scan m fd sd dot s = Some r.
Proof.
  revert m fd sd dot. induction s as [|c s IH]; intros m fd sd dot; cbn; [done|].
  destruct (is_ascii_digit c); [|case_match; [apply IH|done]].
  intros H. unfold mbind, option_bind in H.
  destruct (SandboxQuantity.checked_u128 (m * 10)) as [m10|] eqn:E1; [|done].
  destruct (SandboxQuantity.checked_u128 (m10 + digit_value c)) as [m1|] eqn:E2; [|done].
  apply checked_u128_Some in E1 as [-> ?], E2 as [-> ?].
  unfold u128_saturating_mul, u128_saturating_add. rewrite !Z.min_l by (rewrite ?Z.min_l by done; done).
  destruct dot; [case_match|]; auto.
Qed.

Lemma digits_value_ge acc s v : 0 <= acc -> digits_value acc s = Some v -> acc <= v /\ (s <> "" -> 10 * acc <= v).
Proof.
  revert acc. induction s as [|c s IH]; intros acc Ha; cbn; [by intros [= ->]|].
  destruct (is_ascii_digit c) eqn:Hc; [|done]. apply is_ascii_digit_value in Hc.
  intros H. destruct (IH (acc * 10 + digit_value c) ltac:(lia) H) as [? _]. split; lia.
Qed.

(** The saturating exponent loop computes the value while it is in range. *)
Lemma exponent_loop_value (neg : bool) acc s v :
  0 <= acc -> digits_value acc s = Some v -> v <= (if neg then i32_max + 1 else i32_max) ->
  PoolQuantity.exponent_loop neg acc s = if neg then - v else v.
Proof.
  set (limit := if neg then i32_max + 1 else i32_max).
  assert (0 < limit < i64_max) as Hlim by (subst limit; destruct neg; vm_compute; done).
  revert acc. induction s as [|c s IH]; intros acc Ha; [by intros [= ->]|]. cbn [digits_value PoolQuantity.exponent_loop].
  destruct (is_ascii_digit c) eqn:Hc; [|done]. apply is_ascii_digit_value in Hc. intros Hv Hle.
  destruct (digits_value_ge (acc * 10 + digit_value c) s v ltac:(lia) Hv) as [Hge Hgt].
  rewrite (Z.min_l (acc * 10)), Z.min_l by lia. fold limit.
  destruct (Z.leb_spec limit (acc * 10 + digit_value c)) as [Hl|]; [|apply IH; [lia|done|done]].
  destruct s; [cbn in Hv; injection Hv as <-|specialize (Hgt ltac:(done)); lia].
  subst limit. destruct neg; lia.
Qed.

(** The body of an exponent without its sign, read by both parsers. *)
Lemma exponent_body_agree (neg : bool) s v :
  s <> "" -> digits_value 0 s = Some v -> v <= (if neg then i32_max + 1 else i32_max) ->
  match s with
  | EmptyString => None
  | _ => if all_bytes is_ascii_digit s then Some (PoolQuantity.exponent_loop neg 0 s) else None
  end = Some (if neg then - v else v).
Proof.
  intros Hs Hv Hle. destruct (all_bytes is_ascii_digit s) eqn:Hd; [|by rewrite digits_value_nondigit in Hv].
  rewrite (exponent_loop_value neg 0 s v) by (done || lia). by destruct s.
Qed.

Lemma positive_body_agree s e :
  match s with
  | EmptyString => None
  | _ => v ← digits_value 0 s; if v <=? i32_max then Some v else None
  end = Some e ->
  match s with
  | EmptyString => None
  | _ => if all_bytes is_ascii_digit s then Some (PoolQuantity.exponent_loop false 0 s) else None
  end = Some e.
Proof.
  intros H. assert (s <> "") as Hs by (by intros ->).
  assert ((v ← digits_value 0 s; if v <=? i32_max then Some v else None) = Some e) as H' by (by destruct s).
  destruct (digits_value 0 s) as [v|] eqn:Hv; [|done]. cbn in H'.
  destruct (Z.leb_spec v i32_max); [|done]. injection H' as <-. by apply (exponent_body_agree false).
Qed.

Lemma parse_i32_agree t e :
  SandboxQuantity.parse_i32 t = Some e -> PoolQuantity.parse_decimal_exponent t = Some e.
Proof.
  unfold PoolQuantity.parse_decimal_exponent, SandboxQuantity.parse_i32, parse_uint.
  destruct t as [|c r]; [done|]. destruct (Ascii.eqb_spec c "-") as [->|Hm].
  - intros H. assert (r <> "") as Hr by (by intros ->).
    assert ((v ← digits_value 0 r; SandboxQuantity.checked_i32 (- v)) = Some e) as H' by (by destruct r).
    destruct (digits_value 0 r) as [v|] eqn:Hv; [|done].
    apply checked_i32_Some in H' as [-> ?]. apply (exponent_body_agree true r v Hr Hv). lia.
  - destruct (Ascii.eqb_spec c "+") as [->|Hp]; [apply positive_body_agree|].
    pose proof (positive_body_agree (String c r) e) as H.
    destruct c as [[] [] [] [] [] [] [] []]; first [exact H|by destruct Hm|by destruct Hp].
Qed.

Lemma suffix_agree sfx e :
  SandboxQuantity.suffix_exponent sfx = Some e -> sfx <> "n" -> sfx <> "u" ->
  exists q, PoolQuantity.parse_quantity_suffix sfx = Some q /\
    (q = PoolQuantity.DecimalSi e \/ q = PoolQuantity.DecimalExponent e).
Proof.
  intros H Hn Hu. destruct (decide (sfx ∈ [""; "m"; "k"; "M"; "G"; "T"; "P"; "E"; "Ki"; "Mi"; "Gi"; "Ti"; "Pi"; "Ei"])) as [Hin|Hin].
  { repeat (apply elem_of_cons in Hin as [->|Hin]; [cbn in H; injection H as <- || discriminate H; eauto|]).
    by apply elem_of_nil in Hin. }
  unfold SandboxQuantity.suffix_exponent, PoolQuantity.parse_quantity_suffix in *.
  rewrite !not_elem_of_cons in Hin. destruct_and! Hin.
  repeat match type of H with context [String.eqb sfx ?t] => rewrite (proj2 (String.eqb_neq sfx t)) in H by done end.
  repeat match goal with |- context [String.eqb sfx ?t] => rewrite (proj2 (String.eqb_neq sfx t)) by done end.
  destruct (starts_with sfx "e" || _); [|done]. rewrite (parse_i32_agree _ _ H). eexists. by split; [|right].
Qed.

Lemma scan_bound m fd sd dot s m' fd' sd' rest :
  SandboxQuantity.scan m fd sd dot s = Some (m', fd', sd', rest) ->
  0 <= m <= u128_max -> 0 <= fd -> 0 <= m' <= u128_max /\ 0 <= fd'.
Proof.
  revert m fd sd dot. induction s as [|c s IH]; intros m fd sd dot; cbn; [by intros [= <- <- <- <-]|].
  destruct (is_ascii_digit c) eqn:Hc; [|case_match; [apply IH|by intros [= <- <- <- <-]]].
  apply is_ascii_digit_value in Hc. intros H ? ?. unfold mbind, option_bind in H.
  destruct (SandboxQuantity.checked_u128 (m * 10)) as [m10|] eqn:E1; [|done].
  destruct (SandboxQuantity.checked_u128 (m10 + digit_value c)) as [m1|] eqn:E2; [|done].
  apply checked_u128_Some in E1 as [-> ?], E2 as [-> ?].
  destruct dot; [case_match; [|done]|]; apply IH in H; lia.
Qed.

Lemma pool_ceil_div a b : 0 < b -> 0 <= a <= u128_max -> PoolQuantity.ceil_div a b = cdiv a b.
Proof.
  intros Hb Ha. unfold PoolQuantity.ceil_div, u128_saturating_add. rewrite (proj2 (Z.eqb_neq b 0)) by lia.
  rewrite cdiv_frac by done. apply Z.min_l. transitivity a; [|lia]. apply cdiv_le; nia.
Qed.

Lemma pow10_u128_small e : e <= 38 -> PoolQuantity.pow10_u128 e = 10 ^ e.
Proof. intros H. unfold PoolQuantity.pow10_u128, MAX_POW10, pow10. by rewrite (proj2 (Z.leb_le e 38)). Qed.

(** No saturation on the way up: the strict parser's bound is far below. *)
Lemma scaled_up_fits m fd e u n :
  0 <= m <= u128_max -> 0 <= fd <= 9 -> 0 <= u <= 3 -> 0 <= e + u ->
  m * 10 ^ (e + 9) <= 10 ^ fd * n -> n <= SandboxQuantity.KUBERNETES_MAX_NANOUNITS ->
  u128_saturating_mul m (PoolQuantity.pow10_u128 (e + u)) = m * 10 ^ (e + u) /\
  0 <= m * 10 ^ (e + u) <= u128_max.
Proof.
  intros Hm Hfd Hu Heu Hb Hmax. unfold u128_saturating_mul.
  destruct (Z.eq_dec m 0) as [->|Hm0]; [rewrite !Z.mul_0_l; by vm_compute|].
  assert (10 ^ fd <= 10 ^ 9) as Hf by (apply Z.pow_le_mono_r; lia).
  assert (0 < 10 ^ fd) as Hf0 by (apply Z.pow_pos_nonneg; lia).
  assert (m * 10 ^ (e + 9) <= 10 ^ 9 * SandboxQuantity.KUBERNETES_MAX_NANOUNITS) as Hb'.
  { etransitivity; [exact Hb|].
    transitivity (10 ^ fd * SandboxQuantity.KUBERNETES_MAX_NANOUNITS); [nia|].
    apply Z.mul_le_mono_nonneg_r; [by vm_compute|done]. }
  assert (10 ^ (e + 9) < 10 ^ 37) as He.
  { apply Z.le_lt_trans with (10 ^ 9 * SandboxQuantity.KUBERNETES_MAX_NANOUNITS); [|by vm_compute].
    assert (0 < 10 ^ (e + 9)) by (apply Z.pow_pos_nonneg; lia). nia. }
  apply Z.pow_lt_mono_r_iff in He; [|lia..].
  rewrite pow10_u128_small by lia.
  assert (10 ^ (e + u) <= 10 ^ (e + 9)) as Hle by (apply Z.pow_le_mono_r; lia).
  assert (0 < 10 ^ (e + u)) by (apply Z.pow_pos_nonneg; lia).
  assert (m * 10 ^ (e + u) <= u128_max) as Hfit.
  { transitivity (m * 10 ^ (e + 9)); [nia|]. etransitivity; [exact Hb'|]. by vm_compute. }
  split; [by apply Z.min_l|nia].
Qed.

(** Both parsers on a decimal suffix, in units of [10^u] nano-units. *)
Lemma decimal_agree m fd e u n :
  0 <= m <= u128_max -> 0 <= fd <= 9 -> 0 <= u <= 3 -> - i32_max - 1 <= e ->
  n = cdiv (m * 10 ^ Z.max 0 (e + 9)) (10 ^ fd * 10 ^ Z.max 0 (- (e + 9))) ->
  n <= SandboxQuantity.KUBERNETES_MAX_NANOUNITS ->
  PoolQuantity.scaled_decimal_to_millicores m fd (e + u) = cdiv n (10 ^ (9 - u)).
Proof.
  intros Hm Hfd Hu He Hn Hmax.
  assert (0 < 10 ^ fd) as Hpf by (apply Z.pow_pos_nonneg; lia).
  pose proof (pow10_pos (- (e + 9))) as Hpe.
  assert (0 < 10 ^ (9 - u)) as Hpu by (apply Z.pow_pos_nonneg; lia).
  assert (cdiv n (10 ^ (9 - u)) = cdiv (m * 10 ^ Z.max 0 (e + 9))
    (10 ^ fd * 10 ^ Z.max 0 (- (e + 9)) * 10 ^ (9 - u))) as -> by (rewrite Hn, cdiv_cdiv by nia; done).
  unfold PoolQuantity.scaled_decimal_to_millicores. destruct (Z.leb_spec 0 (e + u)) as [Heu|Heu].
  - pose proof (cdiv_bounds (m * 10 ^ Z.max 0 (e + 9)) (10 ^ fd * 10 ^ Z.max 0 (- (e + 9))) ltac:(nia)) as [_ Hb].
    rewrite <- Hn in Hb. rewrite (Z.max_r 0 (e + 9)), (Z.max_l 0 (- (e + 9))), Z.mul_1_r in * by lia.
    destruct (scaled_up_fits m fd e u n) as [-> Hfit]; [done..|].
    rewrite (pow10_u128_small fd), pool_ceil_div by lia. apply cdiv_eq; [done|nia|].
    assert (10 ^ (e + 9) = 10 ^ (e + u) * 10 ^ (9 - u)) as -> by (rewrite <- Z.pow_add_r by lia; f_equal; lia).
    lia.
  - assert (u32_saturating_add fd (Z.abs (e + u)) = fd - (e + u)) as ->.
    { unfold u32_saturating_add. rewrite Z.abs_neq, Z.min_l by (unfold u32_max, i32_max in *; lia). lia. }
    transitivity (cdiv m (10 ^ (fd - (e + u)))).
    + unfold PoolQuantity.pow10_u128, MAX_POW10, pow10. destruct (Z.leb_spec (fd - (e + u)) 38).
      * apply pool_ceil_div; [apply Z.pow_pos_nonneg; lia|done].
      * rewrite pool_ceil_div by (done || lia). destruct (Z.eq_dec m 0) as [->|]; [by rewrite !cdiv_0_l|].
        assert (10 ^ 39 <= 10 ^ (fd - (e + u))) by (apply Z.pow_le_mono_r; lia).
        assert (u128_max <= 10 ^ 39) by (by vm_compute). rewrite !cdiv_small by lia. done.
    + apply cdiv_eq; [apply Z.pow_pos_nonneg; lia|nia|].
      rewrite <- !Z.mul_assoc, <- !Z.pow_add_r by lia. do 2 f_equal. lia.
Qed.

Lemma binary_agree m fd p u n :
  0 <= m <= u128_max -> 0 <= fd -> 0 <= u <= 3 -> 1 <= p <= 6 ->
  SandboxQuantity.checked_u128 (m * 1024 ^ p * 1000000000) = Some (m * 1024 ^ p * 1000000000) ->
  fd <= 38 -> n = cdiv (m * 1024 ^ p * 1000000000) (10 ^ fd) ->
  PoolQuantity.ceil_div (u128_saturating_mul m (1024 ^ p * 10 ^ u)) (PoolQuantity.pow10_u128 fd)
  = cdiv n (10 ^ (9 - u)).
Proof.
  intros Hm Hfd Hu Hp [_ Hfit]%checked_u128_Some Hfd' ->.
  assert (0 < 10 ^ fd) by (apply Z.pow_pos_nonneg; lia).
  assert (0 < 10 ^ (9 - u)) by (apply Z.pow_pos_nonneg; lia).
  assert (0 < 10 ^ u) by (apply Z.pow_pos_nonneg; lia).
  assert (0 < 1024 ^ p) by (apply Z.pow_pos_nonneg; lia).
  assert (10 ^ u * 10 ^ (9 - u) = 1000000000) as Hu9 by (rewrite <- Z.pow_add_r by lia; by replace (u + (9 - u)) with 9 by lia).
  assert (0 <= m * (1024 ^ p * 10 ^ u) <= u128_max) as Hb.
  { split; [nia|]. transitivity (m * 1024 ^ p * 1000000000); [|done]. rewrite <- Hu9.
    rewrite (Z.mul_assoc m), (Z.mul_assoc _ (10 ^ u)).
    assert (0 <= m * 1024 ^ p * 10 ^ u) by nia. nia. }
  unfold u128_saturating_mul. rewrite Z.min_l, pow10_u128_small, pool_ceil_div, cdiv_cdiv by (done || lia).
  apply cdiv_eq; [done|nia|]. rewrite <- Hu9. lia.
Qed.

Lemma binary_power_range sfx p : SandboxQuantity.binary_power sfx = Some p ->
  1 <= p <= 6 /\ PoolQuantity.parse_quantity_suffix sfx = Some (PoolQuantity.BinarySi p).
Proof.
  intros H%binary_power_table. cbn in H.
  repeat (destruct H as [[= <- <-]|H]; [split; [lia|done]|]). done.
Qed.

(** The lenient tokenizer sees what the strict one saw. *)
Lemma split_agree v m fd sfx q :
  v = trim v -> match strip_plus v with "" => False | String "-" _ => False | _ => True end ->
  SandboxQuantity.scan 0 0 false false (strip_plus v) = Some (m, fd, true, sfx) ->
  PoolQuantity.parse_quantity_suffix sfx = Some q ->
  PoolQuantity.split_quantity v = Some (m, fd, q).
Proof.
  intros Ht Hs Hscan Hq. unfold PoolQuantity.split_quantity. rewrite <- Ht. fold (strip_plus v).
  apply scan_agree in Hscan.
  transitivity ('(m, fd, sd, rest) ← PoolQuantity.scan 0 0 false false (strip_plus v);
    if negb sd then None else suffix ← PoolQuantity.parse_quantity_suffix rest; Some (m, fd, suffix)).
  { destruct (strip_plus v) as [|[[] [] [] [] [] [] [] []] ?]; done. }
  rewrite Hscan. cbn. by rewrite Hq.
Qed.

Lemma i32_saturating_small e u :
  - i32_max - 1 <= e -> e + u <= i32_max -> 0 <= u -> i32_saturating_add e u = e + u.
Proof. intros. unfold i32_saturating_add. lia. Qed.

Lemma parse_i32_range t e : SandboxQuantity.parse_i32 t = Some e -> - i32_max - 1 <= e.
Proof.
  unfold SandboxQuantity.parse_i32. assert (parse_uint i32_max t = Some e -> - i32_max - 1 <= e) as Hpos.
  { intros H%parse_uint_range. unfold i32_max in *. lia. }
  destruct t as [|c r]; [exact Hpos|]. destruct (Ascii.eqb_spec c "-") as [->|Hm].
  - destruct r as [|d r]; [done|]. destruct (digits_value 0 (String d r)) as [v|]; [|done].
    cbn [mbind option_bind]. intros H. apply checked_i32_Some in H. lia.
  - destruct c as [[] [] [] [] [] [] [] []]; first [exact Hpos|by destruct Hm].
Qed.

Lemma suffix_exponent_range sfx e : SandboxQuantity.suffix_exponent sfx = Some e -> - i32_max - 1 <= e.
Proof.
  unfold SandboxQuantity.suffix_exponent.
  do 10 (case_match; [intros [= <-]; by vm_compute|]).
  case_match; [|done]. apply parse_i32_range.
Qed.

Lemma cpu_factor p : 1 <= p <= 6 -> u128_saturating_mul (1024 ^ p) 1000 = 1024 ^ p * 10 ^ 3.
Proof.
  intros Hp. unfold u128_saturating_mul. apply Z.min_l. transitivity (1024 ^ 6 * 1000); [|by vm_compute].
  apply Z.mul_le_mono_nonneg_r; [lia|]. apply Z.pow_le_mono_r; lia.
Qed.

Lemma binary_scale_nanos m fd sfx p n :
  0 <= fd -> SandboxQuantity.binary_power sfx = Some p -> SandboxQuantity.scale_nanos m fd sfx = Some n ->
  SandboxQuantity.checked_u128 (m * 1024 ^ p * 1000000000) = Some (m * 1024 ^ p * 1000000000) /\
  fd <= 38 /\ n = cdiv (m * 1024 ^ p * 1000000000) (10 ^ fd).
Proof.
  intros Hfd Hb H. unfold SandboxQuantity.scale_nanos in H. rewrite Hb in H. unfold mbind, option_bind in H.
  destruct (SandboxQuantity.checked_u128 (m * 1024 ^ p)) eqn:E1; [|done].
  apply checked_u128_Some in E1 as [-> _].
  destruct (SandboxQuantity.checked_u128 (m * 1024 ^ p * 1000000000)) eqn:E2; [|done].
  pose proof E2 as [-> _]%checked_u128_Some.
  destruct (SandboxQuantity.checked_pow10 fd) eqn:E3; [|done]. apply checked_pow10_Some in E3 as [-> ?].
  apply strict_ceil_div_Some in H as [Hn' _]; [|apply Z.pow_pos_nonneg; lia]. done.
Qed.

(** Both readings of one text. *)
Lemma agree v n m fd sd sfx :
  SandboxQuantity.parse_quantity_nanos v = Some n ->
  SandboxQuantity.scan 0 0 false false (strip_plus v) = Some (m, fd, sd, sfx) ->
  fd <= 9 -> sfx <> "n" -> sfx <> "u" ->
  PoolQuantity.parse_memory_bytes v = Some (Z.min (cdiv n (10 ^ 9)) i64_max) /\
  PoolQuantity.parse_cpu_millicores v = Some (Z.min (cdiv n (10 ^ 6)) i64_max).
Proof.
  intros (Ht & Hmax & Hs & m' & fd' & sfx' & Hscan & Hscale)%strict_parts Hscan' Hfd Hn Hu.
  rewrite Hscan in Hscan'. injection Hscan' as -> -> <- ->.
  destruct (scan_bound _ _ _ _ _ _ _ _ _ Hscan) as [Hm Hfd0]; [by vm_compute|done|].
  unfold PoolQuantity.parse_memory_bytes, PoolQuantity.parse_cpu_millicores.
  destruct (SandboxQuantity.binary_power sfx) as [p|] eqn:Hb.
  - destruct (binary_power_range _ _ Hb) as [Hp Hq]. rewrite (split_agree v m fd sfx _ Ht Hs Hscan Hq).
    destruct (binary_scale_nanos m fd sfx p n Hfd0 Hb Hscale) as (Hfit & Hfd38 & Hn').
    cbn [mbind option_bind]. rewrite cpu_factor by done.
    pose proof (binary_agree m fd p 0 n) as H0. rewrite Z.mul_1_r in H0.
    by rewrite H0, (binary_agree m fd p 3 n) by (done || lia).
  - destruct (SandboxQuantity.suffix_exponent sfx) as [e|] eqn:He;
      [|unfold SandboxQuantity.scale_nanos in Hscale; by rewrite Hb, He in Hscale].
    destruct (suffix_agree sfx e He Hn Hu) as (q & Hq & Hqe).
    destruct (decimal_scale_nanos m fd sfx e n) as [He9 Hn']; [lia|done..|].
    pose proof (suffix_exponent_range _ _ He) as Hlow.
    rewrite (split_agree v m fd sfx _ Ht Hs Hscan Hq). cbn [mbind option_bind].
    pose proof (decimal_agree m fd e 0 n) as H0. rewrite Z.add_0_r in H0.
    destruct Hqe as [-> | ->]; rewrite (i32_saturating_small e 3), H0, (decimal_agree m fd e 3 n) by (done || lia); done.
Qed.

(** ** Sandbox admission *)

Section Admission.
Import SandboxQuantity.

(** A field that [parse_positive_quantity_nanos] accepts. *)
Definition reads (value : string) (dimension : QuantityDimension) (nanos : Z) : Prop :=
  parse_quantity_nanos value = Some nanos /\ positive_in_dimension dimension nanos = true.

(** A container whose limits are [(cpu, memory)] nano-units and whose requests
    stay below its limits. *)
Definition admits (c : SandboxContainer) (lim : Z * Z) : Prop :=
  exists request_cpu request_memory request_ephemeral limit_ephemeral,
    reads (cpu (limits (resources c))) Cpu lim.1 /\
    reads (memory (limits (resources c))) Bytes lim.2 /\
    reads (ephemeral_storage (limits (resources c))) Bytes limit_ephemeral /\
    reads (cpu (requests (resources c))) Cpu request_cpu /\
    reads (memory (requests (resources c))) Bytes request_memory /\
    reads (ephemeral_storage (requests (resources c))) Bytes request_ephemeral /\
    request_cpu <= lim.1 /\ request_memory <= lim.2 /\ request_ephemeral <= limit_ephemeral.

Definition total (f : Z * Z -> Z) (l : list (Z * Z)) : Z := foldr (fun x acc => f x + acc) 0 l.

Lemma parse_positive_Ok value dimension field n :
  parse_positive_quantity_nanos value dimension field = Ok n <-> reads value dimension n.
Proof.
  unfold parse_positive_quantity_nanos, reads.
  destruct (parse_quantity_nanos value) as [k|]; [|by split; [|intros [? _]]].
  destruct (positive_in_dimension dimension k) eqn:E;
    (split; [by intros [= <-]|intros [[= <-] ?]; congruence]).
Qed.

Lemma container_limits_Ok c lim : container_limits c = Ok lim <-> admits c lim.
Proof.
  unfold container_limits, admits. split.
  - intros H. unbind H. repeat match goal with H : parse_positive_quantity_nanos _ _ _ = Ok _ |- _ => apply parse_positive_Ok in H end.
    repeat (case_match; [done|]). injection H as <-. do 4 eexists. cbn. split_and!; [eassumption..| | |]; lia.
  - intros (rc & rm & re & le & Hlc & Hlm & Hle & Hrc & Hrm & Hre & Hc & Hm & He).
    rewrite (proj2 (parse_positive_Ok _ _ _ _) Hrc), (proj2 (parse_positive_Ok _ _ _ _) Hlc),
      (proj2 (parse_positive_Ok _ _ _ _) Hrm), (proj2 (parse_positive_Ok _ _ _ _) Hlm),
      (proj2 (parse_positive_Ok _ _ _ _) Hre), (proj2 (parse_positive_Ok _ _ _ _) Hle).
    rewrite !(proj2 (Z.ltb_ge _ _)) by done. by destruct lim.
Qed.

Lemma sum_limits_Ok cs tc tm rc rm :
  0 <= tc -> 0 <= tm -> sum_limits tc tm cs = Ok (rc, rm) ->
  exists ls, Forall2 admits cs ls /\ rc = tc + total fst ls /\ rm = tm + total snd ls.
Proof.
  revert tc tm. induction cs as [|c cs IH]; intros tc tm Htc Htm; cbn [sum_limits].
  { intros [= <- <-]. exists []. split; [constructor|unfold total; cbn; lia]. }
  intros H. destruct (container_limits c) as [[lc lm]|] eqn:Hc; [|done].
  apply container_limits_Ok in Hc. unbind H.
  apply ok_or_Ok, checked_u128_Some in Hok as [-> _], Hok0 as [-> _].
  assert (0 < lc /\ 0 < lm) as [? ?].
  { destruct Hc as (? & ? & ? & ? & [_ Hp] & [_ Hp'] & _). unfold positive_in_dimension in *. cbn in *. lia. }
  apply IH in H as (ls & Hls & -> & ->); [|lia..]. exists ((lc, lm) :: ls).
  split; [by constructor|]. unfold total. cbn. lia.
Qed.

Lemma totals_of_Ok c m t :
  totals_of c m = Ok t ->
  cpu_nanocores t = c /\ memory_nanobytes t = m /\
  cpu_millicores t = cdiv c 1000000 /\ memory_bytes t = cdiv m 1000000000.
Proof.
  unfold totals_of. intros H. unbind H. injection H as <-. cbn.
  apply ok_or_Ok, strict_ceil_div_Some in Hok as [-> _], Hok0 as [-> _]; done.
Qed.

End Admission.

(** ** Theorems *)

(** The strict quantity parser is exact: a text it accepts is an unsigned
    decimal number with a Kubernetes suffix, and the result is the exact value
    rounded up to the next nano-unit, at most [i64::MAX] base units. *)
Theorem strict_quantity_rounds_up (v : string) (n : Z)
    (H : SandboxQuantity.parse_quantity_nanos v = Some n) :
  n <= SandboxQuantity.KUBERNETES_MAX_NANOUNITS /\
  exists num den, quantity_value v num den /\ 0 <= num /\ 0 < den /\ den * (n - 1) < num <= den * n.
Proof.
  split; [by destruct (strict_parts v n H) as (_ & ? & _)|].
  destruct (strict_value v n H) as (num & den & Hv & Hnum & Hden & ->). exists num, den.
  split_and!; [done..| |]; by apply cdiv_bounds.
Qed.

(** C38. The two quantity parsers agree: whatever the strict parser accepts with
    at most nine fractional digits and no [n] or [u] suffix, the lenient parser
    reads as the same amount rounded up to whole bytes and whole millicores. *)
Theorem quantity_parsers_agree (v : string) (n m fd : Z) (sd : bool) (sfx : string)
    (H : SandboxQuantity.parse_quantity_nanos v = Some n)
    (Hscan : SandboxQuantity.scan 0 0 false false (strip_plus v) = Some (m, fd, sd, sfx))
    (Hfd : fd <= 9) (Hn : sfx <> "n") (Hu : sfx <> "u") :
  PoolQuantity.parse_memory_bytes v = Some (cdiv n (10 ^ 9)) /\
  PoolQuantity.parse_cpu_millicores v = Some (Z.min (cdiv n (10 ^ 6)) i64_max).
Proof.
  destruct (agree v n m fd sd sfx H Hscan Hfd Hn Hu) as [-> ->]. split; [|done].
  f_equal. apply Z.min_l, cdiv_le; [by vm_compute|]. by destruct (strict_parts v n H) as (_ & ? & _).
Qed.

(** Sandbox admission compares exact sums: when the aggregate of a template
    is within a ceiling, every container's limits and requests are readable and
    positive, no request exceeds its limit, and the exact sums of the limits
    stay within the ceiling; the reported millicores and bytes are those sums
    rounded up. *)
Theorem sandbox_admission_exact (cs : list SandboxQuantity.SandboxContainer)
    (ceiling : SandboxQuantity.SandboxResourceCeiling) (t : SandboxQuantity.SandboxResourceTotals)
    (Hagg : SandboxQuantity.aggregate_resource_limits cs = Ok t)
    (Hallow : SandboxQuantity.resource_ceiling_allows ceiling t = Ok true) :
  exists max_cpu max_memory limits,
    reads (SandboxQuantity.max_cpu ceiling) SandboxQuantity.Cpu max_cpu /\
    reads (SandboxQuantity.max_memory ceiling) SandboxQuantity.Bytes max_memory /\
    Forall2 admits cs limits /\
    total fst limits <= max_cpu /\ total snd limits <= max_memory /\
    SandboxQuantity.cpu_millicores t = cdiv (total fst limits) 1000000 /\
    SandboxQuantity.memory_bytes t = cdiv (total snd limits) 1000000000.
Proof.
  unfold SandboxQuantity.aggregate_resource_limits in Hagg.
  destruct (SandboxQuantity.sum_limits 0 0 cs) as [[tc tm]|] eqn:Hs; [|done].
  apply sum_limits_Ok in Hs as (ls & Hls & -> & ->); [|done..]. rewrite !Z.add_0_l in *.
  apply totals_of_Ok in Hagg as (Hc & Hm & Hmc & Hmb).
  unfold SandboxQuantity.resource_ceiling_allows, SandboxQuantity.parse_resource_ceiling in Hallow.
  unbind Hallow. injection Hallow as Hle. unbind Hok. apply totals_of_Ok in Hok as (Hc' & Hm' & _).
  apply parse_positive_Ok in Hok0, Hok1. rewrite Hc, Hm, Hc', Hm' in Hle.
  apply andb_true_iff in Hle as [?%Z.leb_le ?%Z.leb_le].
  do 3 eexists. split_and!; eassumption.
Qed.

(** Witness. *)
Lemma strict_quantity_rounds_up_witness :
  exists num den, quantity_value "+1.5Gi" num den /\ den * (1610612736000000000 - 1) < num.
Proof.
  destruct (strict_quantity_rounds_up "+1.5Gi" 1610612736000000000 ltac:(by vm_compute))
    as (_ & num & den & ? & _ & _ & ? & _). by exists num, den.
Defined.

(** Witness. *)
Lemma quantity_parsers_agree_witness :
  PoolQuantity.parse_cpu_millicores "0.25" = Some 250 /\ PoolQuantity.parse_memory_bytes "0.25" = Some 1.
Proof.
  destruct (quantity_parsers_agree "0.25" 250000000 25 2 true "") as [-> ->];
    try (by vm_compute); try done; by vm_compute.
Defined.

Definition example_container : SandboxQuantity.SandboxContainer :=
  {| SandboxQuantity.container_name := "main";
     SandboxQuantity.resources :=
       {| SandboxQuantity.requests :=
            {| SandboxQuantity.cpu := "250m"; SandboxQuantity.memory := "128Mi";
               SandboxQuantity.ephemeral_storage := "1Gi" |};
          SandboxQuantity.limits :=
            {| SandboxQuantity.cpu := "1"; SandboxQuantity.memory := "1Gi";
               SandboxQuantity.ephemeral_storage := "2Gi" |} |} |}.

Definition example_ceiling : SandboxQuantity.SandboxResourceCeiling :=
  {| SandboxQuantity.max_cpu := "2"; SandboxQuantity.max_memory := "2Gi" |}.

(** Witness. *)
Lemma sandbox_admission_exact_witness :
  exists limits, Forall2 admits [example_container; example_container] limits /\
    total fst limits <= 2000000000.
Proof.
  edestruct (sandbox_admission_exact [example_container; example_container] example_ceiling)
    as (mc & mm & ls & [Hmc _] & _ & Hls & Hle & _); [by vm_compute|by vm_compute|].
  vm_compute in Hmc. injection Hmc as <-. by exists ls.
Defined.
