(* ===== verification/Policy.v ===== *)
(** * Policy: what an authenticated caller may lease

    [AccessRule]s of an [AccessPolicy] ([src/crd/access_policy.rs]) become the
    runtime [Policy] at authentication time ([access_rule_to_policy],
    [src/api/auth.rs]); [src/api/policy.rs] then answers which pools and
    Sandbox verbs it grants and clamps requested TTLs. *)

From S2P Require Import Prelude Text Durations Quantity.
Import SandboxQuantity.

Inductive SandboxVerb : Type := Lease | Exec | Logs | PortForward | Release.

#[global] Instance SandboxVerb_eq_dec : EqDecision SandboxVerb.
Proof. solve_decision. Defined.

Record ClaimMatch : Type := { claim : string; value : string }.

Record SandboxAccessRule : Type := {
  rule_sandbox_pools : list string;
  rule_verbs : list SandboxVerb;
  rule_sandbox_max_ttl : string;
  rule_max_idle : option string;
  rule_sandbox_max_concurrent_leases : Z;
  rule_sandbox_max_extensions : Z;
  rule_resource_ceiling : SandboxResourceCeiling;
}.

Record AccessRule : Type := {
  match_clause : option ClaimMatch;
  pools : list string;
  rule_max_ttl : string;
  rule_max_concurrent_leases : Z;
  rule_max_extensions : Z;
  rule_sandbox : option SandboxAccessRule;
}.

Record SandboxPolicy : Type := {
  sandbox_allowed_pools : list string;
  verbs : list SandboxVerb;
  sandbox_max_ttl : Z;
  max_idle : option Z;
  sandbox_max_concurrent_leases : Z;
  sandbox_max_extensions : Z;
  resource_ceiling : SandboxResourceCeiling;
}.

Record Policy : Type := {
  allowed_pools : list string;
  max_ttl : Z;
  max_concurrent_leases : Z;
  default_priority : Z;
  max_extensions : Z;
  sandbox : option SandboxPolicy;
}.

(** The closure of [access_rule_to_policy] that turns a Sandbox grant of the
    CRD into its runtime form; any unusable field drops the whole grant. *)
Definition sandbox_grant (grant : SandboxAccessRule) : option SandboxPolicy :=
  ttl ← parse_duration (rule_sandbox_max_ttl grant);
  if ttl <=? 0 then None
  else match parse_resource_ceiling (rule_resource_ceiling grant) with
  | Err _ => None
  | Ok _ =>
      let idle :=
        match rule_max_idle grant with
        | None => Some None
        | Some raw =>
            match parse_duration raw with
            | Some duration => if 0 <? duration then Some (Some duration) else None
            | None => None
            end
        end in
      max_idle ← idle;
      Some {| sandbox_allowed_pools := rule_sandbox_pools grant;
              verbs := rule_verbs grant;
              sandbox_max_ttl := ttl;
              max_idle := max_idle;
              sandbox_max_concurrent_leases := rule_sandbox_max_concurrent_leases grant;
              sandbox_max_extensions := rule_sandbox_max_extensions grant;
              resource_ceiling := rule_resource_ceiling grant |}
  end.

Definition access_rule_to_policy (rule : AccessRule) : Policy :=
  {| allowed_pools := pools rule;
     max_ttl := default (seconds 3600) (parse_duration (rule_max_ttl rule));
     max_concurrent_leases := rule_max_concurrent_leases rule;
     default_priority := 50;
     max_extensions := rule_max_extensions rule;
     sandbox := rule_sandbox rule ≫= sandbox_grant |}.

(** [find_matching_rule]: by the clause value that authenticated the caller,
    or the first unconditional rule. *)
Definition find_matching_rule (rules : list AccessRule) (matched_value : option string)
    : option AccessRule :=
  match matched_value with
  | Some val =>
      List.find (fun r => match match_clause r with
                          | Some m => String.eqb (value m) val
                          | None => false
                          end) rules
  | None => List.find (fun r => is_none (match_clause r)) rules
  end.

Definition pattern_matches (pool pattern : string) : bool :=
  if String.eqb pattern "*" then true
  else match strip_suffix_char "*" pattern with
       | Some prefix => starts_with pool prefix
       | None => String.eqb pool pattern
       end.

Definition pool_matches (pool : string) (patterns : list string) : bool :=
  existsb (pattern_matches pool) patterns.

Definition is_pool_allowed (pool : string) (policy : Policy) : bool :=
  pool_matches pool (allowed_pools policy).

Definition is_sandbox_allowed (pool : string) (verb : SandboxVerb) (policy : Policy) : bool :=
  match sandbox policy with
  | Some grant =>
      pool_matches pool (sandbox_allowed_pools grant) &&
      existsb (fun v => bool_decide (v = verb)) (verbs grant)
  | None => false
  end.

Definition clamp_sandbox_ttl (requested : string) (policy : Policy) : option Z :=
  grant ← sandbox policy;
  requested ← parse_duration requested;
  if requested <=? 0 then None else Some (Z.min requested (sandbox_max_ttl grant)).

Definition clamp_ttl (requested : string) (policy : Policy) : Z :=
  let requested_duration := default (seconds 3600) (parse_duration requested) in
  if max_ttl policy <? requested_duration then max_ttl policy else requested_duration.

(** ** What a pattern denotes *)

(** The pool names a pattern grants: everything for ["*"], a prefix for a
    trailing [*], one name otherwise. *)
Inductive denotes : string -> string -> Prop :=
| denotes_all pool : denotes "*" pool
| denotes_prefix prefix rest : denotes (prefix +:+ "*") (prefix +:+ rest)
| denotes_name pool : strip_suffix_char "*" pool = None -> denotes pool pool.

Lemma pattern_matches_denotes pool pattern :
  pattern_matches pool pattern = true <-> denotes pattern pool.
Proof.
  unfold pattern_matches. destruct (String.eqb_spec pattern "*") as [->|Hne].
  { split; [constructor|done]. }
  destruct (strip_suffix_char "*" pattern) as [prefix|] eqn:E.
  - apply strip_suffix_char_Some in E as ->. unfold starts_with. rewrite is_some_true.
    split.
    + intros [rest H]. apply strip_prefix_Some in H as ->. constructor.
    + inversion 1 as [|p rest Hp|q Hq]; subst; [done| |].
      * assert (p = prefix) as ->; [|rewrite strip_prefix_app; eauto].
        pose proof (proj2 (strip_suffix_char_Some "*" (p +:+ "*") p) eq_refl) as H1.
        pose proof (proj2 (strip_suffix_char_Some "*" (prefix +:+ "*") prefix) eq_refl) as H2.
        congruence.
      * by rewrite (proj2 (strip_suffix_char_Some _ _ _) eq_refl) in Hq.
  - rewrite String.eqb_eq. split; [intros <-; by constructor|].
    inversion 1; subst; [done| |done].
    by rewrite (proj2 (strip_suffix_char_Some _ _ _) eq_refl) in E.
Qed.

Lemma pool_matches_denotes pool patterns :
  pool_matches pool patterns = true <-> exists p, p ∈ patterns /\ denotes p pool.
Proof.
  unfold pool_matches. rewrite existsb_exists.
  setoid_rewrite pattern_matches_denotes. by setoid_rewrite list_elem_of_In.
Qed.

Lemma ttl_range_default s : ttl_range (default (seconds 3600) (parse_duration s)).
Proof.
  destruct (parse_duration s) as [d|] eqn:E; cbn; [by eapply parse_duration_range|].
  exists 3600. split; [done|]. by vm_compute.
Qed.

Lemma ttl_range_pos d : ttl_range d -> 0 < d.
Proof. intros (n & -> & Hn). unfold seconds, nanos_per_second. lia. Qed.

Lemma ttl_range_min a b : ttl_range a -> ttl_range b -> ttl_range (Z.min a b).
Proof. intros. destruct (Z.min_spec a b) as [[_ ->]|[_ ->]]; done. Qed.

Lemma clamp_ttl_min requested policy :
  clamp_ttl requested policy
  = Z.min (default (seconds 3600) (parse_duration requested)) (max_ttl policy).
Proof. unfold clamp_ttl. destruct (Z.ltb_spec (max_ttl policy) (default (seconds 3600) (parse_duration requested))); lia. Qed.

Lemma sandbox_grant_ranges grant p :
  sandbox_grant grant = Some p ->
  ttl_range (sandbox_max_ttl p) /\
  (forall i, max_idle p = Some i -> ttl_range i) /\
  exists totals, parse_resource_ceiling (resource_ceiling p) = Ok totals.
Proof.
  unfold sandbox_grant. intros H.
  destruct (parse_duration (rule_sandbox_max_ttl grant)) as [ttl|] eqn:Ht; cbn in H; [|done].
  destruct (ttl <=? 0); [done|].
  destruct (parse_resource_ceiling (rule_resource_ceiling grant)) as [totals|] eqn:Hc; [|done].
  destruct (rule_max_idle grant) as [raw|]; cbn in H.
  - destruct (parse_duration raw) as [d|] eqn:Hd; cbn in H; [|done].
    destruct (0 <? d); cbn in H; [|done]. injection H as <-. cbn.
    split; [by eapply parse_duration_range|]. split; [|by eauto].
    intros i [= <-]. by eapply parse_duration_range.
  - injection H as <-. cbn. split; [by eapply parse_duration_range|]. split; [done|by eauto].
Qed.

(** ** Theorems *)

(** Sandbox access fails closed: a policy built from an [AccessRule] lets a
    caller use a verb on a pool only if the rule carries a Sandbox grant whose
    TTL, idle window and resource ceiling are all usable, one of the grant's
    own patterns denotes the pool, and the verb is listed; the Cluster pool
    patterns of the rule never matter. *)
Theorem sandbox_access_fails_closed (rule : AccessRule) (pool : string) (verb : SandboxVerb) :
  is_sandbox_allowed pool verb (access_rule_to_policy rule) = true <->
  exists grant ttl totals,
    rule_sandbox rule = Some grant /\
    parse_duration (rule_sandbox_max_ttl grant) = Some ttl /\
    parse_resource_ceiling (rule_resource_ceiling grant) = Ok totals /\
    (forall raw, rule_max_idle grant = Some raw -> is_Some (parse_duration raw)) /\
    (exists pattern, pattern ∈ rule_sandbox_pools grant /\ denotes pattern pool) /\
    verb ∈ rule_verbs grant.
Proof.
  unfold is_sandbox_allowed, access_rule_to_policy. cbn [sandbox].
  destruct (rule_sandbox rule) as [grant|]; cbn [mbind option_bind];
    [|split; [done|by intros (? & ? & ? & ? & _)]].
  assert (forall s d, parse_duration s = Some d -> (d <=? 0) = false /\ (0 <? d) = true) as Hpos.
  { intros s d Hd. apply parse_duration_range, ttl_range_pos in Hd. lia. }
  unfold sandbox_grant. split.
  - destruct (parse_duration (rule_sandbox_max_ttl grant)) as [ttl|] eqn:Ht; [|done].
    destruct (Hpos _ _ Ht) as [E _]. cbn [mbind option_bind]. rewrite E.
    destruct (parse_resource_ceiling _) as [totals|] eqn:Hc; [|done].
    intros H. exists grant, ttl, totals. do 3 (split; [done|]).
    destruct (rule_max_idle grant) as [raw|]; cbn [mbind option_bind] in H.
    1: destruct (parse_duration raw) as [d|] eqn:Hd; [|done];
       destruct (Hpos _ _ Hd) as [_ E']; rewrite E' in H; cbn [mbind option_bind] in H.
    all: cbn in H; apply andb_true_iff in H as [Hp Hv]; apply pool_matches_denotes in Hp;
      apply existsb_exists in Hv as (v & Hv & ->%bool_decide_eq_true); rewrite list_elem_of_In;
      split_and!; try done.
    intros ? [= <-]. by rewrite Hd.
  - intros (g & ttl & totals & [= <-] & Ht & Hc & Hi & Hp & Hv).
    rewrite Ht. cbn [mbind option_bind]. rewrite (proj1 (Hpos _ _ Ht)), Hc.
    destruct (rule_max_idle grant) as [raw|]; cbn [mbind option_bind].
    1: destruct (Hi raw eq_refl) as [d Hd]; rewrite Hd, (proj2 (Hpos _ _ Hd)).
    all: cbn; apply andb_true_iff; split; [by apply pool_matches_denotes|];
      apply existsb_exists; exists verb; rewrite <- list_elem_of_In, bool_decide_eq_true; done.
Qed.

(** The TTL the API records survives its round trip: for a policy built
    from any [AccessRule] and any requested string, the clamped TTL is a
    positive whole number of seconds no larger than the policy's maximum, and
    formatting it and parsing it back (what the lease controller does) gives
    exactly that TTL, never the one-hour fallback. *)
Theorem clamped_ttl_round_trips (rule : AccessRule) (requested : string) :
  let policy := access_rule_to_policy rule in
  let ttl := clamp_ttl requested policy in
  0 < ttl <= max_ttl policy /\ parse_duration (format_duration ttl) = Some ttl.
Proof.
  cbv zeta. rewrite clamp_ttl_min.
  pose proof (ttl_range_default requested) as Hr.
  pose proof (ttl_range_default (rule_max_ttl rule)) as Hm.
  change (ttl_range (max_ttl (access_rule_to_policy rule))) in Hm.
  pose proof (ttl_range_min _ _ Hr Hm) as Hmin.
  pose proof (ttl_range_pos _ Hmin). split; [lia|].
  destruct Hmin as (n & -> & Hn). by apply parse_format_duration.
Qed.
