(* ===== verification/StateMachine.v ===== *)
(** * StateMachine: the pure cross-object decisions of the lease lifecycle

    Model of [crates/kobe-state-machine/src/lib.rs], the closed decision tables
    the controllers consult before a fenced write, plus the step relation of a
    producer lease under the two controllers that write it. *)

From S2P Require Import Prelude.

(** [InstancePhase] *)
Module InstancePhase.
Inductive t : Type := Creating | Ready | Leased | Recycling | Unhealthy | Failed | Quarantined.
#[global] Instance eq_dec : EqDecision t. Proof. solve_decision. Defined.
End InstancePhase.

(** [LeasePhase] *)
Module LeasePhase.
Inductive t : Type := Pending | Bound | Released | Expired | Recycling | Quarantined.
#[global] Instance eq_dec : EqDecision t. Proof. solve_decision. Defined.
End LeasePhase.

Inductive BindingState : Type := Expected | Absent | Foreign.
Inductive RecoveryTransition : Type := RecycleTerminalLease | ReleaseOrphan.
#[global] Instance BindingState_eq_dec : EqDecision BindingState.
Proof. solve_decision. Defined.

Inductive RecoveryDecision : Type := Apply | AlreadyApplied | Superseded.
Inductive FinalizationDecision : Type := PublishBound | AlreadyBound | FinalizationSuperseded.

Definition exact_binding_finalization (lease_phase : LeasePhase.t) (lease_binding : BindingState)
    (instance_phase : InstancePhase.t) (instance_binding : BindingState) : FinalizationDecision :=
  match lease_phase, lease_binding, instance_phase, instance_binding with
  | LeasePhase.Pending, Expected, InstancePhase.Leased, Expected => PublishBound
  | LeasePhase.Bound, Expected, InstancePhase.Leased, Expected => AlreadyBound
  | _, _, _, _ => FinalizationSuperseded
  end.

Definition exact_binding_recovery (phase : InstancePhase.t) (binding : BindingState)
    (lease_ref_absent : bool) (transition : RecoveryTransition) : RecoveryDecision :=
  match transition, phase, binding, lease_ref_absent with
  | RecycleTerminalLease, InstancePhase.Leased, Expected, _
  | ReleaseOrphan, InstancePhase.Leased, Expected, _ => Apply
  | RecycleTerminalLease, InstancePhase.Recycling, Expected, _
  | ReleaseOrphan, InstancePhase.Ready, Absent, true => AlreadyApplied
  | _, _, _, _ => Superseded
  end.

(** ** Receipts of a producer lease *)

Inductive ReceiptState : Type := NoReceipt | Live | Consumed.
Inductive ChildReceiptVerdict : Type := Accept | NotYet | Reject.

Definition producer_state_is_reachable (phase : LeasePhase.t) (receipt : ReceiptState) : bool :=
  match phase, receipt with
  | (LeasePhase.Pending | LeasePhase.Bound), NoReceipt => true
  | (LeasePhase.Pending | LeasePhase.Bound), _ => false
  | (LeasePhase.Released | LeasePhase.Expired), NoReceipt => true
  | (LeasePhase.Released | LeasePhase.Expired), Live => true
  | (LeasePhase.Released | LeasePhase.Expired), Consumed => false
  | LeasePhase.Recycling, NoReceipt => false
  | LeasePhase.Recycling, _ => true
  | LeasePhase.Quarantined, Consumed => false
  | LeasePhase.Quarantined, _ => true
  end.

Definition child_receipt_acceptance (phase : LeasePhase.t) (receipt : ReceiptState)
    : ChildReceiptVerdict :=
  match phase, receipt with
  | _, NoReceipt => Reject
  | LeasePhase.Recycling, _ => Accept
  | (LeasePhase.Released | LeasePhase.Expired), Live => NotYet
  | LeasePhase.Quarantined, _ => Reject
  | _, _ => Reject
  end.

(** ** The writers of a producer lease

    The writes the table above is about: the lease controller binds, releases,
    expires and sweeps; the instance controller records the receipt on its own
    timer without touching the phase; a consumer acknowledges under
    [Recycling]; and teardown that cannot be proven quarantines. *)
Inductive producer_step : LeasePhase.t * ReceiptState -> LeasePhase.t * ReceiptState -> Prop :=
| step_bind : producer_step (LeasePhase.Pending, NoReceipt) (LeasePhase.Bound, NoReceipt)
| step_release p : p = LeasePhase.Pending \/ p = LeasePhase.Bound ->
    producer_step (p, NoReceipt) (LeasePhase.Released, NoReceipt)
| step_expire p : p = LeasePhase.Pending \/ p = LeasePhase.Bound ->
    producer_step (p, NoReceipt) (LeasePhase.Expired, NoReceipt)
| step_receipt p : p = LeasePhase.Released \/ p = LeasePhase.Expired ->
    producer_step (p, NoReceipt) (p, Live)
| step_sweep p : p = LeasePhase.Released \/ p = LeasePhase.Expired ->
    producer_step (p, Live) (LeasePhase.Recycling, Live)
| step_acknowledge : producer_step (LeasePhase.Recycling, Live) (LeasePhase.Recycling, Consumed)
| step_quarantine p r : p = LeasePhase.Released \/ p = LeasePhase.Expired ->
    producer_step (p, r) (LeasePhase.Quarantined, r).

Definition producer_reachable (s : LeasePhase.t * ReceiptState) : Prop :=
  rtc producer_step (LeasePhase.Pending, NoReceipt) s.

Lemma producer_step_preserves s s' :
  producer_step s s' -> producer_state_is_reachable (fst s) (snd s) = true ->
  producer_state_is_reachable (fst s') (snd s') = true.
Proof.
  destruct 1 as [|? []|? []|? []|? []| |? r []]; subst; cbn; try done; by destruct r.
Qed.

Lemma producer_reachable_sound s :
  producer_reachable s -> producer_state_is_reachable (fst s) (snd s) = true.
Proof.
  unfold producer_reachable. intros H.
  assert (producer_state_is_reachable LeasePhase.Pending NoReceipt = true) as H0 by done.
  change LeasePhase.Pending with (fst (LeasePhase.Pending, NoReceipt)) in H0 at 1.
  change NoReceipt with (snd (LeasePhase.Pending, NoReceipt)) in H0 at 2.
  induction H as [|x y z Hs _ IH]; [done|]. apply IH. by eapply producer_step_preserves.
Qed.

Lemma producer_reachable_complete s :
  producer_state_is_reachable (fst s) (snd s) = true -> producer_reachable s.
Proof.
  unfold producer_reachable.
  assert (rtc producer_step (LeasePhase.Pending, NoReceipt) (LeasePhase.Released, NoReceipt)) as HR
    by (apply rtc_once, step_release; auto).
  assert (rtc producer_step (LeasePhase.Pending, NoReceipt) (LeasePhase.Expired, NoReceipt)) as HE
    by (apply rtc_once, step_expire; auto).
  assert (rtc producer_step (LeasePhase.Pending, NoReceipt) (LeasePhase.Released, Live)) as HRL
    by (eapply rtc_r; [exact HR|apply step_receipt; auto]).
  assert (rtc producer_step (LeasePhase.Pending, NoReceipt) (LeasePhase.Recycling, Live)) as HC
    by (eapply rtc_r; [exact HRL|apply step_sweep; auto]).
  destruct s as [[] []]; cbn; try done; intros _.
  - apply rtc_once, step_bind.
  - eapply rtc_r; [exact HE|apply step_receipt; auto].
  - eapply rtc_r; [exact HC|apply step_acknowledge].
  - eapply rtc_r; [exact HR|apply step_quarantine; auto].
  - eapply rtc_r; [exact HRL|apply step_quarantine; auto].
Qed.

(** The consumer's verdict on a producer's receipt is sound over every
    interleaving of the lease controller, the instance controller and the
    consumer: the states the code calls reachable are exactly the reachable
    ones; acceptance happens only under [Recycling] with a receipt and is
    never taken back; and a reachable live receipt is rejected only when the
    producer was quarantined, otherwise it is accepted or one sweep away from
    being accepted. *)
Theorem receipt_verdict_sound (s : LeasePhase.t * ReceiptState) :
  (producer_reachable s <-> producer_state_is_reachable (fst s) (snd s) = true) /\
  (child_receipt_acceptance (fst s) (snd s) = Accept ->
     fst s = LeasePhase.Recycling /\ snd s <> NoReceipt /\
     forall s', rtc producer_step s s' -> child_receipt_acceptance (fst s') (snd s') = Accept) /\
  (producer_reachable s -> snd s = Live ->
     match child_receipt_acceptance (fst s) (snd s) with
     | Accept => True
     | NotYet => exists s', producer_step s s' /\ child_receipt_acceptance (fst s') (snd s') = Accept
     | Reject => fst s = LeasePhase.Quarantined
     end).
Proof.
  split; [split; [apply producer_reachable_sound|apply producer_reachable_complete]|]. split.
  - intros Ha. split_and!; [by destruct s as [[] []]|by destruct s as [[] []]|].
    intros s' H. revert Ha. induction H as [|x y z Hs _ IH]; [done|]. intros Ha. apply IH.
    destruct Hs as [|? []|? []|? []|? []| |? r []]; subst; cbn in *; try done; by destruct r.
  - intros Hr%producer_reachable_sound Hl. destruct s as [[] []]; cbn in *; try done.
    all: exists (LeasePhase.Recycling, Live); split; [apply step_sweep; auto|done].
Qed.
