(* ===== verification/Teardown.v ===== *)
(** * Teardown: creation manifests, receipts and what releases capacity

    Model of [src/crd/teardown.rs] and of the binding types of
    [src/crd/instance.rs].  A creation manifest lists what one instance created;
    a receipt lists what a teardown attempt proved absent; a receipt releases
    capacity only when it accounts for the exact scope the binding committed
    to.  SHA-256 over the serialized records and the RFC 3339 parser are
    third-party code and appear as parameters. *)

From S2P Require Import Prelude Text.

(** ** Data *)

Inductive BackendType : Type := K3s | K0s | Capi | Vkobe | Vcluster.
#[global] Instance BackendType_eq_dec : EqDecision BackendType.
Proof. solve_decision. Defined.

Inductive CleanupMode : Type := Standard | VerifiedDestroy.
#[global] Instance CleanupMode_eq_dec : EqDecision CleanupMode.
Proof. solve_decision. Defined.

Definition requires_receipt (m : CleanupMode) : bool :=
  match m with VerifiedDestroy => true | Standard => false end.

Inductive TeardownSubject : Type :=
| AgentDeployment | ServerStatefulSet | ServerPods | Service | PodDisruptionBudget
| PublisherConfigMap | RegistriesConfigMap | TokenSecret | KubeconfigSecret
| ConnectTokenSecret | DatastoreCredentialSecret | CidrClaim | ServerDataPvcs
| ServerDataVolumes | Database | DatabaseRole.
#[global] Instance TeardownSubject_eq_dec : EqDecision TeardownSubject.
Proof. solve_decision. Defined.

Definition subject_eqb (a b : TeardownSubject) : bool := bool_decide (a = b).

Record ResourceRef : Type := { ref_name : string; ref_uid : option string }.
#[global] Instance ResourceRef_eq_dec : EqDecision ResourceRef.
Proof. solve_decision. Defined.

Record KubernetesResourceIdentity : Type := {
  api_version : string;
  kind : string;
  namespace : option string;
  name : string;
  uid : string;
}.
#[global] Instance KubernetesResourceIdentity_eq_dec : EqDecision KubernetesResourceIdentity.
Proof. solve_decision. Defined.

Definition object_key (i : KubernetesResourceIdentity) : string :=
  "k8s:" +:+ api_version i +:+ ":" +:+ kind i +:+ ":" +:+ default "_cluster" (namespace i)
  +:+ ":" +:+ name i.

Definition canonical_id (i : KubernetesResourceIdentity) : string :=
  object_key i +:+ ":" +:+ uid i.

#[global] Arguments object_key : simpl never.
#[global] Arguments canonical_id : simpl never.

Definition is_complete (i : KubernetesResourceIdentity) : bool :=
  nonblank (api_version i) && nonblank (kind i) && nonblank (name i) && nonblank (uid i) &&
  match namespace i with Some ns => nonblank ns | None => true end.

Inductive CreationControlRelation : Type := ControllerOwner | InstanceUidLabel | ClaimRef.
#[global] Instance CreationControlRelation_eq_dec : EqDecision CreationControlRelation.
Proof. solve_decision. Defined.

Record CreationManifestResource : Type := {
  subject : TeardownSubject;
  resource : KubernetesResourceIdentity;
  controller : KubernetesResourceIdentity;
  control_relation : CreationControlRelation;
}.

Record StorageVolumeProvenance : Type := {
  pvc : KubernetesResourceIdentity;
  pv : KubernetesResourceIdentity;
  storage_class : KubernetesResourceIdentity;
  reclaim_policy : string;
  pv_reclaim_policy : string;
}.

Inductive DatastoreProvenance : Type :=
| EmbeddedSqlite
| ExternalPostgres (endpoint_digest system_identifier database database_oid role role_oid : string).

Record TeardownCreationManifest : Type := {
  schema_version : Z;
  instance : ResourceRef;
  manifest_namespace : string;
  backend_type : BackendType;
  config_digest : string;
  service_cidr : string;
  cluster_cidr : string;
  server_replicas : Z;
  agent_replicas : Z;
  resources : list CreationManifestResource;
  storage : list StorageVolumeProvenance;
  datastore : DatastoreProvenance;
  sealed_at : string;
}.
#[global] Instance TeardownCreationManifest_eq_dec : EqDecision TeardownCreationManifest.
Proof.
  assert (EqDecision CreationManifestResource) by solve_decision.
  assert (EqDecision StorageVolumeProvenance) by solve_decision.
  assert (EqDecision DatastoreProvenance) by solve_decision.
  solve_decision.
Defined.

Inductive CreationManifestInvalid : Type :=
| UnsupportedSchema | IncompleteIdentity | DuplicateResource | MultiplicityMismatch
| StorageUnverifiable | DatastoreUnverifiable.

Definition TEARDOWN_CREATION_MANIFEST_SCHEMA_VERSION : Z := 1.

(** ** Validating a manifest *)

Definition ordinal_name (name prefix : string) (replicas : Z) : bool :=
  match strip_prefix prefix name ≫= parse_uint u32_max with
  | Some ordinal => ordinal <? replicas
  | None => false
  end.

Definition resource_shape_matches (m : TeardownCreationManifest) (entry : CreationManifestResource)
    : bool :=
  let identity := resource entry in
  let inst := ref_name (instance m) in
  let namespaced := str_opt_eqb (namespace identity) (Some (manifest_namespace m)) in
  let typed a k := String.eqb (api_version identity) a && String.eqb (kind identity) k in
  let exact a k n := namespaced && typed a k && String.eqb (name identity) n in
  match subject entry with
  | AgentDeployment => exact "apps/v1" "Deployment" (inst +:+ "-agent")
  | ServerStatefulSet => exact "apps/v1" "StatefulSet" (inst +:+ "-server")
  | Service => exact "v1" "Service" (inst +:+ "-server")
  | PodDisruptionBudget => exact "policy/v1" "PodDisruptionBudget" (inst +:+ "-server")
  | PublisherConfigMap => exact "v1" "ConfigMap" (inst +:+ "-kubeconfig-publisher")
  | RegistriesConfigMap => exact "v1" "ConfigMap" (inst +:+ "-registries")
  | TokenSecret => exact "v1" "Secret" (inst +:+ "-token")
  | KubeconfigSecret => exact "v1" "Secret" (inst +:+ "-kubeconfig")
  | ConnectTokenSecret => false
  | DatastoreCredentialSecret => exact "v1" "Secret" (inst +:+ "-datastore")
  | CidrClaim => exact "kobe.kunobi.ninja/v1alpha1" "CIDRClaim" inst
  | ServerDataPvcs =>
      namespaced && typed "v1" "PersistentVolumeClaim" &&
      ordinal_name (name identity) ("data-" +:+ inst +:+ "-server-") (server_replicas m)
  | ServerDataVolumes => is_none (namespace identity) && typed "v1" "PersistentVolume"
  | ServerPods =>
      namespaced && typed "v1" "Pod" &&
      ordinal_name (name identity) (inst +:+ "-server-") (server_replicas m)
  | Database | DatabaseRole => false
  end.

Definition instance_identity (m : TeardownCreationManifest) : KubernetesResourceIdentity :=
  {| api_version := "kobe.kunobi.ninja/v1alpha1"; kind := "ClusterInstance";
     namespace := Some (manifest_namespace m); name := ref_name (instance m);
     uid := default "" (ref_uid (instance m)) |}.

Definition control_shape_matches (m : TeardownCreationManifest) (entry : CreationManifestResource)
    : bool :=
  let inst := instance_identity m in
  let relation r := bool_decide (control_relation entry = r) in
  match subject entry with
  | ServerPods =>
      relation ControllerOwner &&
      match List.find (fun c => subject_eqb (subject c) ServerStatefulSet) (resources m) with
      | Some statefulset => bool_decide (controller entry = resource statefulset)
      | None => false
      end
  | ServerDataPvcs => relation InstanceUidLabel && bool_decide (controller entry = inst)
  | ServerDataVolumes =>
      relation ClaimRef &&
      existsb (fun v => bool_decide (pv v = resource entry) && bool_decide (pvc v = controller entry))
        (storage m)
  | Database | DatabaseRole => false
  | _ => relation ControllerOwner && bool_decide (controller entry = inst)
  end.

(** The [any] over two [BTreeSet] inserts. *)
Fixpoint has_duplicate (identities object_keys : gset string) (l : list CreationManifestResource)
    : bool :=
  match l with
  | [] => false
  | e :: l' =>
      let i := canonical_id (resource e) in
      let k := object_key (resource e) in
      if bool_decide (i ∈ identities) then true
      else if bool_decide (k ∈ object_keys) then true
      else has_duplicate ({[i]} ∪ identities) ({[k]} ∪ object_keys) l'
  end.

Definition count_subject (m : TeardownCreationManifest) (s : TeardownSubject) : Z :=
  Z.of_nat (length (List.filter (fun e => subject_eqb (subject e) s) (resources m))).

Definition exactly_one : list TeardownSubject :=
  [ServerStatefulSet; Service; PublisherConfigMap; TokenSecret; KubeconfigSecret; CidrClaim].

Definition multiplicity_ok (m : TeardownCreationManifest) : bool :=
  let count := count_subject m in
  let optional_count_matches s (expected : bool) := count s =? (if expected then 1 else 0) in
  forallb (fun s => count s =? 1) exactly_one &&
  (count ServerPods =? server_replicas m) &&
  optional_count_matches AgentDeployment (0 <? agent_replicas m) &&
  optional_count_matches PodDisruptionBudget (1 <? server_replicas m) &&
  (count RegistriesConfigMap <=? 1) &&
  (count ConnectTokenSecret =? 0).

Definition ids_of (m : TeardownCreationManifest) (s : TeardownSubject) : list string :=
  map (fun e => canonical_id (resource e))
      (List.filter (fun e => subject_eqb (subject e) s) (resources m)).

Definition volume_ok (m : TeardownCreationManifest) (v : StorageVolumeProvenance) : bool :=
  is_complete (pvc v) && is_complete (pv v) && is_complete (storage_class v) &&
  str_opt_eqb (namespace (pvc v)) (Some (manifest_namespace m)) &&
  String.eqb (api_version (pvc v)) "v1" && String.eqb (kind (pvc v)) "PersistentVolumeClaim" &&
  is_none (namespace (pv v)) &&
  String.eqb (api_version (pv v)) "v1" && String.eqb (kind (pv v)) "PersistentVolume" &&
  is_none (namespace (storage_class v)) &&
  String.eqb (api_version (storage_class v)) "storage.k8s.io/v1" &&
  String.eqb (kind (storage_class v)) "StorageClass" &&
  String.eqb (reclaim_policy v) "Delete" && String.eqb (pv_reclaim_policy v) "Delete".

Definition storage_ok (m : TeardownCreationManifest) : bool :=
  let count := count_subject m in
  match storage m with
  | [] => (count ServerDataPvcs =? 0) && (count ServerDataVolumes =? 0)
  | _ =>
      let len := Z.of_nat (length (storage m)) in
      let manifest_pvcs : gset string := list_to_set (ids_of m ServerDataPvcs) in
      let manifest_pvs : gset string := list_to_set (ids_of m ServerDataVolumes) in
      let storage_pvcs : gset string := list_to_set (map (fun v => canonical_id (pvc v)) (storage m)) in
      let storage_pvs : gset string := list_to_set (map (fun v => canonical_id (pv v)) (storage m)) in
      (len =? server_replicas m) &&
      (count ServerDataPvcs =? len) && (count ServerDataVolumes =? len) &&
      (Z.of_nat (base.size storage_pvcs) =? len) && (Z.of_nat (base.size storage_pvs) =? len) &&
      bool_decide (manifest_pvcs = storage_pvcs) && bool_decide (manifest_pvs = storage_pvs) &&
      forallb (volume_ok m) (storage m)
  end.

(** [s.parse::<uN>().map_or(true, |v| v == 0)], negated. *)
Definition positive_uint (max : Z) (s : string) : bool :=
  match parse_uint max s with Some v => negb (v =? 0) | None => false end.

Definition is_hex_digest (s : string) : bool := (str_len s =? 64) && all_bytes is_ascii_hexdigit s.

Definition datastore_ok (m : TeardownCreationManifest) : bool :=
  let count := count_subject m in
  match datastore m with
  | EmbeddedSqlite => count DatastoreCredentialSecret =? 0
  | ExternalPostgres endpoint system db db_oid role role_oid =>
      is_hex_digest endpoint && positive_uint u64_max system && nonblank db &&
      positive_uint u32_max db_oid && nonblank role && positive_uint u32_max role_oid &&
      (count DatastoreCredentialSecret =? 1)
  end.

Section Validate.
(** [chrono::DateTime::parse_from_rfc3339]. *)
Context (parse_from_rfc3339 : string -> option Z).

Definition identity_ok (m : TeardownCreationManifest) : bool :=
  bool_decide (backend_type m = K3s) &&
  match ref_uid (instance m) with Some u => nonblank u | None => false end &&
  nonblank (ref_name (instance m)) && nonblank (manifest_namespace m) &&
  is_hex_digest (config_digest m) &&
  nonblank (service_cidr m) && nonblank (cluster_cidr m) &&
  negb (server_replicas m =? 0) &&
  is_some (parse_from_rfc3339 (sealed_at m)) &&
  forallb (fun e => is_complete (resource e) && is_complete (controller e) &&
                    resource_shape_matches m e && control_shape_matches m e) (resources m).

(** [TeardownCreationManifest::validate] *)
Definition validate (m : TeardownCreationManifest) : result unit CreationManifestInvalid :=
  if negb (schema_version m =? TEARDOWN_CREATION_MANIFEST_SCHEMA_VERSION) then Err UnsupportedSchema
  else if negb (identity_ok m) then Err IncompleteIdentity
  else if has_duplicate ∅ ∅ (resources m) then Err DuplicateResource
  else if negb (multiplicity_ok m) then Err MultiplicityMismatch
  else if negb (storage_ok m) then Err StorageUnverifiable
  else if negb (datastore_ok m) then Err DatastoreUnverifiable
  else Ok tt.

End Validate.

(** ** What a manifest requires of a receipt *)

(** The loop with [contains]: subjects in order of first appearance. *)
Fixpoint distinct_subjects (seen : list TeardownSubject) (l : list CreationManifestResource)
    : list TeardownSubject :=
  match l with
  | [] => seen
  | e :: l' =>
      distinct_subjects
        (if existsb (subject_eqb (subject e)) seen then seen else seen ++ [subject e]) l'
  end.

Definition required_subjects (m : TeardownCreationManifest) : list TeardownSubject :=
  distinct_subjects [] (resources m) ++
  match datastore m with ExternalPostgres _ _ _ _ _ _ => [Database; DatabaseRole] | EmbeddedSqlite => [] end.

Definition database_id (endpoint system db db_oid : string) : string :=
  "postgres:" +:+ system +:+ ":" +:+ endpoint +:+ ":database:" +:+ db +:+ ":" +:+ db_oid.
Definition role_id (endpoint system role role_oid : string) : string :=
  "postgres:" +:+ system +:+ ":" +:+ endpoint +:+ ":role:" +:+ role +:+ ":" +:+ role_oid.

#[global] Arguments database_id : simpl never.
#[global] Arguments role_id : simpl never.

Definition recorded_identities (m : TeardownCreationManifest) : list string :=
  map (fun e => canonical_id (resource e)) (resources m) ++
  match datastore m with
  | ExternalPostgres endpoint system db db_oid role role_oid =>
      [database_id endpoint system db db_oid; role_id endpoint system role role_oid]
  | EmbeddedSqlite => []
  end.

Definition identities_for_subject (m : TeardownCreationManifest) (s : TeardownSubject)
    : list string :=
  ids_of m s ++
  match datastore m with
  | ExternalPostgres endpoint system db db_oid role role_oid =>
      match s with
      | Database => [database_id endpoint system db db_oid]
      | DatabaseRole => [role_id endpoint system role role_oid]
      | _ => []
      end
  | EmbeddedSqlite => []
  end.

(** ** The binding *)

Record CapiBackendProvenance : Type := {
  infrastructure_api_version : string;
  infrastructure_kind : string;
  infrastructure_plural : option string;
}.

Record BackendProvenance : Type := {
  provenance_type : BackendType;
  provenance_digest : string;
  capi : option CapiBackendProvenance;
}.
#[global] Instance BackendProvenance_eq_dec : EqDecision BackendProvenance.
Proof. assert (EqDecision CapiBackendProvenance) by solve_decision. solve_decision. Defined.

Record BoundInstanceRef : Type := {
  bound_name : string;
  bound_uid : string;
  observed_generation : Z;
}.

Record LeaseBinding : Type := {
  binding_id : string;
  binding_lease : ResourceRef;
  binding_instance : BoundInstanceRef;
  binding_pool : ResourceRef;
  backend : BackendProvenance;
  instance_spec_digest : string;
  cleanup_mode : CleanupMode;
  creation_manifest_digest : option string;
  creation_manifest : option TeardownCreationManifest;
  connect_token : option KubernetesResourceIdentity;
}.
#[global] Instance LeaseBinding_eq_dec : EqDecision LeaseBinding.
Proof. assert (EqDecision BoundInstanceRef) by solve_decision. solve_decision. Defined.

(** ** Receipts *)

Inductive CheckResult : Type := Verified | NotApplicable | Unknown.
#[global] Instance CheckResult_eq_dec : EqDecision CheckResult.
Proof. solve_decision. Defined.

Inductive TeardownOutcome : Type := InProgress | OutcomeVerified | OutcomeQuarantined.
#[global] Instance TeardownOutcome_eq_dec : EqDecision TeardownOutcome.
Proof. solve_decision. Defined.

Record TeardownCheck : Type := {
  check_subject : TeardownSubject;
  check_result : CheckResult;
  reason : option string;
  verified : list string;
}.

Record TeardownReceipt : Type := {
  receipt_schema_version : Z;
  attempt_id : string;
  receipt_lease : ResourceRef;
  receipt_instance : ResourceRef;
  receipt_pool : ResourceRef;
  receipt_backend : string;
  receipt_config_digest : string;
  receipt_spec_digest : string;
  receipt_manifest_digest : string;
  receipt_cleanup_mode : CleanupMode;
  started_at : string;
  completed_at : option string;
  checks : list TeardownCheck;
  retry_count : Z;
  outcome : TeardownOutcome;
}.

Record TeardownScope : Type := {
  scope_lease : ResourceRef;
  scope_instance : ResourceRef;
  scope_pool : ResourceRef;
  scope_backend_type : string;
  scope_config_digest : string;
  scope_spec_digest : string;
  scope_manifest_digest : string;
  scope_cleanup_mode : CleanupMode;
  scope_attempt_id : string;
  scope_manifest : option TeardownCreationManifest;
  scope_connect_token : option KubernetesResourceIdentity;
  scope_required_subjects : list TeardownSubject;
  scope_instance_name : string;
  scope_recorded_identities : list string;
}.

Definition TEARDOWN_RECEIPT_SCHEMA_VERSION : Z := 1.

Definition outcome_for (cs : list TeardownCheck) : TeardownOutcome :=
  if existsb (fun c => bool_decide (check_result c = Unknown)) cs
  then OutcomeQuarantined else OutcomeVerified.

Definition expected_identity_for (s : TeardownSubject) (inst : string) : option string :=
  match s with
  | AgentDeployment => Some (inst +:+ "-agent")
  | ServerStatefulSet => Some (inst +:+ "-server")
  | Service => Some (inst +:+ "-server")
  | PodDisruptionBudget => Some (inst +:+ "-server")
  | PublisherConfigMap => Some (inst +:+ "-kubeconfig-publisher")
  | RegistriesConfigMap => Some (inst +:+ "-registries")
  | TokenSecret => Some (inst +:+ "-token")
  | KubeconfigSecret => Some (inst +:+ "-kubeconfig")
  | ConnectTokenSecret => Some (inst +:+ "-connect-token")
  | DatastoreCredentialSecret => Some (inst +:+ "-datastore")
  | CidrClaim => Some inst
  | Database => Some ("database:k3s_" +:+ inst)
  | DatabaseRole => Some ("role:k3s_" +:+ inst)
  | ServerPods | ServerDataPvcs | ServerDataVolumes => None
  end.

(** A reference whose UID can fence anything. *)
Definition fenced (r : ResourceRef) : bool :=
  match ref_uid r with Some u => nonblank u | None => false end.

Definition mem_str (s : string) (l : list string) : bool := existsb (String.eqb s) l.

Section Receipts.
Context (parse_from_rfc3339 : string -> option Z).
(** [serde_json::to_vec] followed by SHA-256 in hexadecimal; [None] when the
    serialization fails. *)
Context (receipt_digest : TeardownReceipt -> option string).

Definition completed_after_start (r : TeardownReceipt) : bool :=
  match parse_from_rfc3339 (started_at r), completed_at r ≫= parse_from_rfc3339 with
  | Some started, Some completed => started <? completed
  | _, _ => false
  end.

Definition acknowledgement_token (r : TeardownReceipt) : option string :=
  if negb (receipt_schema_version r =? TEARDOWN_RECEIPT_SCHEMA_VERSION)
     || negb (bool_decide (outcome r = OutcomeVerified))
     || match checks r with [] => true | _ => false end
     || negb (bool_decide (outcome_for (checks r) = OutcomeVerified))
     || negb (completed_after_start r)
     || negb (nonblank (attempt_id r))
     || negb (nonblank (receipt_manifest_digest r))
     || negb (bool_decide (receipt_cleanup_mode r = VerifiedDestroy))
  then None
  else if negb (fenced (receipt_lease r)) || negb (fenced (receipt_instance r)) || negb (fenced (receipt_pool r))
  then None
  else d ← receipt_digest r; Some ("sha256:" +:+ d).

(** The identities the check for [s] must name, when the scope carries the
    manifest. *)
Definition scope_identities (expected : TeardownScope) (m : TeardownCreationManifest)
    (s : TeardownSubject) : list string :=
  if subject_eqb s ConnectTokenSecret
  then match scope_connect_token expected with Some i => [canonical_id i] | None => [] end
  else identities_for_subject m s.

(** The closure of the final [all]. *)
Definition subject_proven (r : TeardownReceipt) (expected : TeardownScope) (s : TeardownSubject)
    : bool :=
  match List.filter (fun c => subject_eqb (check_subject c) s) (checks r) with
  | [check] =>
      bool_decide (check_result check = Verified) &&
      match scope_manifest expected with
      | Some m =>
          let identities := scope_identities expected m s in
          (length (verified check) =? length identities)%nat &&
          forallb (fun i => mem_str i (verified check)) identities
      | None =>
          match scope_recorded_identities expected with
          | [] => match expected_identity_for s (scope_instance_name expected) with
                  | Some n => mem_str n (verified check)
                  | None => true
                  end
          | _ => true
          end
      end
  | _ => false
  end.

Definition proven (r : TeardownReceipt) : list string :=
  flat_map verified (List.filter (fun c => bool_decide (check_result c = Verified)) (checks r)).

(** [TeardownReceipt::permits_release_for] *)
Definition permits_release_for (r : TeardownReceipt) (expected : TeardownScope) : bool :=
  (receipt_schema_version r =? TEARDOWN_RECEIPT_SCHEMA_VERSION) &&
  nonblank (attempt_id r) &&
  String.eqb (attempt_id r) (scope_attempt_id expected) &&
  completed_after_start r &&
  bool_decide (outcome r = OutcomeVerified) &&
  bool_decide (outcome_for (checks r) = OutcomeVerified) &&
  fenced (receipt_lease r) && fenced (receipt_instance r) && fenced (receipt_pool r) &&
  bool_decide (receipt_lease r = scope_lease expected) &&
  bool_decide (receipt_instance r = scope_instance expected) &&
  bool_decide (receipt_pool r = scope_pool expected) &&
  String.eqb (receipt_backend r) (scope_backend_type expected) &&
  String.eqb (receipt_config_digest r) (scope_config_digest expected) &&
  String.eqb (receipt_spec_digest r) (scope_spec_digest expected) &&
  String.eqb (receipt_manifest_digest r) (scope_manifest_digest expected) &&
  bool_decide (receipt_cleanup_mode r = scope_cleanup_mode expected) &&
  match scope_required_subjects expected with [] => false | _ => true end &&
  (length (checks r) =? length (scope_required_subjects expected))%nat &&
  forallb (fun i => mem_str i (proven r)) (scope_recorded_identities expected) &&
  forallb (subject_proven r expected) (scope_required_subjects expected).

End Receipts.

(** [format!("{backend_type:?}").to_lowercase()] *)
Definition receipt_backend_type (b : BackendType) : string :=
  match b with
  | K3s => "k3s" | K0s => "k0s" | Capi => "capi" | Vkobe => "vkobe" | Vcluster => "vcluster"
  end.

(** [BindingTeardownPlan::new] followed by [scope]. *)
Definition binding_scope (b : LeaseBinding) (m : TeardownCreationManifest)
    (manifest_digest : string) (token : KubernetesResourceIdentity) (attempt : string)
    : TeardownScope :=
  {| scope_lease := binding_lease b;
     scope_instance := instance m;
     scope_pool := binding_pool b;
     scope_backend_type := receipt_backend_type (provenance_type (backend b));
     scope_config_digest := provenance_digest (backend b);
     scope_spec_digest := instance_spec_digest b;
     scope_manifest_digest := manifest_digest;
     scope_cleanup_mode := cleanup_mode b;
     scope_attempt_id := attempt;
     scope_manifest := Some m;
     scope_connect_token := Some token;
     scope_required_subjects := required_subjects m ++ [ConnectTokenSecret];
     scope_instance_name := ref_name (instance m);
     scope_recorded_identities := recorded_identities m ++ [canonical_id token] |}.

(** ** Eligibility and the k3s plan *)

Record PersistenceConfig : Type := { storage_type : option string }.

(** A [ClusterConfig] as far as the teardown rules read it: the registry mirrors
    by their number, the shared mount by its presence. *)
Record ClusterConfig : Type := {
  servers : Z;
  agents : option Z;
  registry_mirrors : option nat;
  persistence : option PersistenceConfig;
  kubelet_shared_mount : bool;
}.

Definition storage_is_ephemeral (p : PersistenceConfig) : bool :=
  eq_ignore_ascii_case (default "emptyDir" (storage_type p)) "emptydir".

Definition k3s_teardown_plan (c : ClusterConfig) (has_external_datastore : bool)
    : list TeardownSubject :=
  [ServerStatefulSet; ServerPods; Service; PublisherConfigMap; TokenSecret; KubeconfigSecret;
   CidrClaim; ConnectTokenSecret] ++
  (if match agents c with Some a => 0 <? a | None => false end then [AgentDeployment] else []) ++
  (if 1 <? servers c then [PodDisruptionBudget] else []) ++
  (if match registry_mirrors c with Some k => negb (Nat.eqb k 0) | None => false end
   then [RegistriesConfigMap] else []) ++
  (if match persistence c with Some p => negb (storage_is_ephemeral p) | None => false end
   then [ServerDataPvcs; ServerDataVolumes] else []) ++
  (if has_external_datastore then [DatastoreCredentialSecret; Database; DatabaseRole] else []).

Inductive VerifiedDestroyIneligible : Type :=
| UnsupportedBackend | KubeletSharedMount | DiagnosticsEnabled | UnverifiableStorage
| DatastoreProvenanceMissing.

(** [diagnostics] is [Some enabled] when the pool configures diagnostics. *)
Definition verified_destroy_eligibility (b : BackendType) (c : ClusterConfig)
    (diagnostics : option bool) (external_datastore_identity_recorded : bool)
    : result unit VerifiedDestroyIneligible :=
  if negb (bool_decide (b = K3s)) then Err UnsupportedBackend
  else if kubelet_shared_mount c then Err KubeletSharedMount
  else if default false diagnostics then Err DiagnosticsEnabled
  else if match persistence c with
          | Some p =>
              let t := default "emptyDir" (storage_type p) in
              negb (eq_ignore_ascii_case t "emptydir") && negb (eq_ignore_ascii_case t "dynamic")
          | None => false
          end then Err UnverifiableStorage
  else if negb external_datastore_identity_recorded then Err DatastoreProvenanceMissing
  else Ok tt.
