(* ===== verification/Receipts.v ===== *)
(** * Receipts: a receipt releases exactly the footprint it was scoped to

    Theorems about [Teardown]: a receipt that permits release accounts for
    every recorded identity of the binding's sealed manifest, subject by
    subject and with nothing left over; such a receipt always has an
    acknowledgement token; and a validated manifest requires exactly the
    subjects of the k3s creation plan. *)

From S2P Require Import Prelude Text Teardown.

(** ** Lists *)

Lemma perm_of_covering {A} (l l' : list A) :
  List.NoDup l -> length l' = length l -> (forall x, In x l -> In x l') -> l' ≡ₚ l.
Proof. intros Hnd Hlen Hin. symmetry. apply NoDup_Permutation_bis; [done|lia|done]. Qed.

Lemma mem_str_In s l : mem_str s l = true <-> In s l.
Proof.
  unfold mem_str. rewrite existsb_exists. split.
  - by intros (x & ? & ->%String.eqb_eq).
  - intros ?. exists s. by rewrite String.eqb_refl.
Qed.

(** The elements of [l] with key [k]. *)
Definition with_key {A K} `{EqDecision K} (key : A -> K) (l : list A) (k : K) : list A :=
  List.filter (fun x => bool_decide (key x = k)) l.

Lemma group_by_absent {A K} `{EqDecision K} (key : A -> K) x l (ks : list K) :
  ~ In (key x) ks -> flat_map (with_key key (x :: l)) ks = flat_map (with_key key l) ks.
Proof.
  induction ks as [|k ks IH]; cbn; [done|]. intros Hni.
  rewrite bool_decide_false by (intros <-; tauto). rewrite IH by tauto. done.
Qed.

(** Grouping by a key that takes its values in a duplicate-free list loses
    nothing. *)
Lemma group_by_perm {A K} `{EqDecision K} (key : A -> K) (ks : list K) (l : list A) :
  List.NoDup ks -> (forall x, In x l -> In (key x) ks) -> flat_map (with_key key l) ks ≡ₚ l.
Proof.
  intros Hnd. induction l as [|x l IH]; intros Hin.
  { clear. by induction ks. }
  rewrite <- IH at 2 by (intros; apply Hin; by right).
  specialize (Hin x (or_introl eq_refl)). clear IH.
  apply in_split in Hin as (k1 & k2 & ->). apply NoDup_remove_2 in Hnd.
  rewrite !flat_map_app. cbn [flat_map].
  rewrite !group_by_absent by (intros ?; apply Hnd, in_or_app; auto).
  unfold with_key at 2. cbn [List.filter]. rewrite bool_decide_true by done.
  fold (with_key key l (key x)). cbn [app]. symmetry. apply Permutation_middle.
Qed.

(** ** Validated manifests *)

Lemma distinct_subjects_spec seen l :
  List.NoDup seen ->
  List.NoDup (distinct_subjects seen l) /\
  forall s, In s (distinct_subjects seen l) <-> In s seen \/ In s (map subject l).
Proof.
  revert seen. induction l as [|e l IH]; intros seen Hnd; cbn; [split; [done|tauto]|].
  destruct (existsb (subject_eqb (subject e)) seen) eqn:E.
  - destruct (IH seen Hnd) as [H1 H2]. split; [done|]. intros s. rewrite H2.
    apply existsb_exists in E as (x & Hx & ->%bool_decide_eq_true).
    split; [tauto|]. intros [?|[<-|?]]; auto.
  - destruct (IH (seen ++ [subject e])) as [H1 H2].
    { apply NoDup_ListNoDup, NoDup_app.
      split_and!; [by apply NoDup_ListNoDup| |apply NoDup_singleton].
      intros x Hx%list_elem_of_In [->|[]%elem_of_nil]%elem_of_cons.
      assert (existsb (subject_eqb (subject e)) seen = true); [|congruence].
      apply existsb_exists. exists (subject e). split; [done|]. by apply bool_decide_eq_true. }
    split; [done|]. intros s. rewrite H2, in_app_iff. cbn. tauto.
Qed.

Lemma has_duplicate_NoDup ids keys l :
  has_duplicate ids keys l = false ->
  List.NoDup (map (fun e => canonical_id (resource e)) l) /\
  forall e, In e l -> canonical_id (resource e) ∉ ids.
Proof.
  revert ids keys. induction l as [|e l IH]; intros ids keys; cbn; [by split; [constructor|]|].
  case_bool_decide as Hi; [done|]. case_bool_decide as Hk; [done|]. intros H.
  apply IH in H as [Hnd Hni]. split.
  - constructor; [|done]. intros (f & Heq & Hf)%in_map_iff. apply (Hni f Hf).
    rewrite Heq. by apply elem_of_union_l, elem_of_singleton_2.
  - intros f [<-|Hf]; [done|]. specialize (Hni f Hf). contradict Hni. by apply elem_of_union_r.
Qed.

Section Valid.
Context (parse_from_rfc3339 : string -> option Z) (m : TeardownCreationManifest).
Context (Hvalid : validate parse_from_rfc3339 m = Ok tt).

Lemma valid_facts :
  identity_ok parse_from_rfc3339 m = true /\ has_duplicate ∅ ∅ (resources m) = false /\
  multiplicity_ok m = true /\ storage_ok m = true /\ datastore_ok m = true.
Proof.
  revert Hvalid. unfold validate. repeat (case_match; [done|]).
  repeat match goal with H : negb _ = false |- _ => apply negb_false_iff in H end. done.
Qed.

Lemma valid_NoDup : List.NoDup (map (fun e => canonical_id (resource e)) (resources m)).
Proof. destruct valid_facts as (_ & H & _). by apply has_duplicate_NoDup in H as [? _]. Qed.

Lemma valid_shape e : In e (resources m) -> resource_shape_matches m e = true.
Proof.
  intros He. destruct valid_facts as (H & _). unfold identity_ok in H.
  apply andb_true_iff in H as [_ H]. rewrite forallb_forall in H. specialize (H e He).
  by apply andb_true_iff in H as [[_ ?]%andb_true_iff _].
Qed.

(** The connect token and the datastore objects are never manifest entries. *)
Lemma valid_subject s :
  s = ConnectTokenSecret \/ s = Database \/ s = DatabaseRole -> ~ In s (map subject (resources m)).
Proof.
  intros Hs (e & <- & He)%in_map_iff. apply valid_shape in He.
  unfold resource_shape_matches in He. by destruct Hs as [E|[E|E]]; rewrite E in He.
Qed.

Lemma ids_of_with_key s : ids_of m s = map (fun e => canonical_id (resource e)) (with_key subject (resources m) s).
Proof. done. Qed.

Lemma ids_of_absent s : ~ In s (map subject (resources m)) -> ids_of m s = [].
Proof.
  rewrite ids_of_with_key. unfold with_key. induction (resources m) as [|e l IH]; cbn; [done|].
  intros H. rewrite bool_decide_false by tauto. apply IH. tauto.
Qed.

Lemma ids_of_NoDup s : List.NoDup (ids_of m s).
Proof.
  pose proof valid_NoDup as Hnd. rewrite ids_of_with_key. unfold with_key.
  induction (resources m) as [|e l IH]; cbn; [constructor|].
  apply NoDup_cons_iff in Hnd as [Hni Hnd]. case_bool_decide; cbn; [|auto].
  constructor; [|auto]. intros (f & Heq & [Hf _]%filter_In)%in_map_iff. apply Hni.
  rewrite <- Heq. by apply (in_map (fun e => canonical_id (resource e))).
Qed.

Lemma identities_NoDup s : List.NoDup (identities_for_subject m s).
Proof.
  unfold identities_for_subject. destruct (datastore m); [rewrite app_nil_r; apply ids_of_NoDup|].
  destruct s; try (rewrite app_nil_r; apply ids_of_NoDup).
  all: rewrite ids_of_absent by (apply valid_subject; auto); repeat constructor; by intros [].
Qed.

Definition datastore_subjects : list TeardownSubject :=
  match datastore m with ExternalPostgres _ _ _ _ _ _ => [Database; DatabaseRole] | EmbeddedSqlite => [] end.

Lemma required_NoDup : List.NoDup (required_subjects m ++ [ConnectTokenSecret]).
Proof.
  unfold required_subjects. fold datastore_subjects. rewrite <- app_assoc.
  destruct (distinct_subjects_spec [] (resources m)) as [Hnd Hin]; [constructor|].
  apply NoDup_ListNoDup, NoDup_app. rewrite !NoDup_ListNoDup. split_and!; [done| |].
  - intros s Hs%list_elem_of_In Hd%list_elem_of_In. apply Hin in Hs as [[]|Hs].
    revert Hs. apply valid_subject. unfold datastore_subjects in Hd.
    destruct (datastore m); cbn in Hd; destruct_or?; subst; auto; done.
  - unfold datastore_subjects. destruct (datastore m); apply NoDup_ListNoDup; by apply (bool_decide_unpack _).
Qed.

(** The identities of the required subjects are the recorded identities. *)
Lemma required_identities :
  flat_map (identities_for_subject m) (required_subjects m) ≡ₚ recorded_identities m.
Proof.
  unfold required_subjects, recorded_identities. rewrite flat_map_app.
  destruct (distinct_subjects_spec [] (resources m)) as [Hnd Hin]; [constructor|].
  set (ds := distinct_subjects [] (resources m)) in *. apply Permutation_app.
  - replace (flat_map (identities_for_subject m) ds)
      with (map (fun e => canonical_id (resource e)) (flat_map (with_key subject (resources m)) ds)).
    { apply Permutation_map, group_by_perm; [done|]. intros e He. apply Hin. right. by apply in_map. }
    assert (forall s, In s ds -> s <> Database /\ s <> DatabaseRole) as Hds.
    { intros s [[]|Hs]%Hin. split; intros ->; revert Hs; apply valid_subject; auto. }
    clear Hnd Hin. induction ds as [|s ds IH]; cbn; [done|].
    rewrite map_app, IH by (intros; apply Hds; by right). f_equal.
    destruct (Hds s (or_introl eq_refl)) as [H1 H2].
    rewrite <- ids_of_with_key. unfold identities_for_subject.
    destruct (datastore m); [by rewrite app_nil_r|]. destruct s; by rewrite ?app_nil_r.
  - unfold identities_for_subject. destruct (datastore m); cbn; [done|].
    rewrite !ids_of_absent by (apply valid_subject; auto). done.
Qed.

End Valid.

(** ** What a releasing receipt proves *)

Section Release.
Context (parse_from_rfc3339 : string -> option Z).
Context (b : LeaseBinding) (m : TeardownCreationManifest) (digest : string)
  (token : KubernetesResourceIdentity) (attempt : string) (r : TeardownReceipt).
Let scope := binding_scope b m digest token attempt.
Context (Hvalid : validate parse_from_rfc3339 m = Ok tt).
Context (Hrel : permits_release_for parse_from_rfc3339 r scope = true).

(** The identities the scope commits to for a subject. *)
Definition committed_identities (m : TeardownCreationManifest) (token : KubernetesResourceIdentity)
    (s : TeardownSubject) : list string :=
  if subject_eqb s ConnectTokenSecret then [canonical_id token] else identities_for_subject m s.

Lemma release_length : length (checks r) = length (required_subjects m ++ [ConnectTokenSecret]).
Proof.
  revert Hrel. unfold permits_release_for. rewrite !andb_true_iff. intros H.
  destruct H as [[[_ H%Nat.eqb_eq] _] _]. exact H.
Qed.

Lemma release_proven s :
  In s (required_subjects m ++ [ConnectTokenSecret]) -> subject_proven r scope s = true.
Proof.
  revert Hrel. unfold permits_release_for. rewrite !andb_true_iff. intros [_ H].
  rewrite forallb_forall in H. apply H.
Qed.

Lemma proven_check s :
  subject_proven r scope s = true ->
  exists c, with_key check_subject (checks r) s = [c] /\ check_result c = Verified /\
    length (verified c) = length (committed_identities m token s) /\
    forall i, In i (committed_identities m token s) -> In i (verified c).
Proof.
  unfold subject_proven.
  change (List.filter _ (checks r)) with (with_key check_subject (checks r) s).
  destruct (with_key check_subject (checks r) s) as [|c [|? ?]]; [done| |done].
  cbn [scope binding_scope scope_manifest]. rewrite !andb_true_iff.
  intros [Hv%bool_decide_eq_true [Hl%Nat.eqb_eq Hin]]. exists c.
  do 3 (split; [done|]). rewrite forallb_forall in Hin. intros i Hi. by apply mem_str_In, Hin.
Qed.

Lemma release_subjects :
  map check_subject (checks r) ≡ₚ required_subjects m ++ [ConnectTokenSecret].
Proof.
  apply perm_of_covering; [exact (required_NoDup _ _ Hvalid)|rewrite length_map; apply release_length|].
  intros s Hs. destruct (proven_check s (release_proven s Hs)) as (c & Hc & _).
  assert (In c (with_key check_subject (checks r) s)) as [Hin Hk]%filter_In by (rewrite Hc; by left).
  apply bool_decide_eq_true in Hk as <-. by apply in_map.
Qed.

Lemma committed_NoDup s : List.NoDup (committed_identities m token s).
Proof.
  unfold committed_identities. case_match; [|by eapply identities_NoDup].
  apply NoDup_ListNoDup, NoDup_singleton.
Qed.

Lemma release_check c :
  In c (checks r) ->
  check_result c = Verified /\ verified c ≡ₚ committed_identities m token (check_subject c).
Proof.
  intros Hc. assert (In (check_subject c) (required_subjects m ++ [ConnectTokenSecret])) as Hs.
  { rewrite <- list_elem_of_In, <- release_subjects, list_elem_of_In. by apply in_map. }
  destruct (proven_check _ (release_proven _ Hs)) as (c' & Hf & Hv & Hl & Hin).
  assert (In c (with_key check_subject (checks r) (check_subject c))) as Hi.
  { apply filter_In. split; [done|]. by apply bool_decide_eq_true. }
  rewrite Hf in Hi. destruct Hi as [->|[]]. split; [done|].
  apply perm_of_covering; auto using committed_NoDup.
Qed.

Lemma flat_map_perm_In {A B} (f g : A -> list B) l :
  (forall x, In x l -> f x ≡ₚ g x) -> flat_map f l ≡ₚ flat_map g l.
Proof.
  induction l as [|x l IH]; cbn; [done|]. intros H.
  rewrite (H x) by auto. rewrite IH by auto. done.
Qed.

Lemma release_identities :
  flat_map verified (checks r) ≡ₚ recorded_identities m ++ [canonical_id token].
Proof.
  rewrite (flat_map_perm_In _ (fun c => committed_identities m token (check_subject c)))
    by (intros c Hc; by apply release_check).
  replace (flat_map (fun c => committed_identities m token (check_subject c)) (checks r))
    with (flat_map (committed_identities m token) (map check_subject (checks r)))
    by (clear; induction (checks r) as [|c l IH]; cbn; [done|by rewrite IH]).
  rewrite (Permutation_flat_map _ release_subjects), flat_map_app. apply Permutation_app; [|done].
  rewrite <- (required_identities _ _ Hvalid). apply flat_map_perm_In. intros s Hs.
  unfold committed_identities, subject_eqb. case_bool_decide as E; [|done]. exfalso. subst s.
  pose proof (required_NoDup _ _ Hvalid) as Hnd. apply NoDup_ListNoDup, NoDup_app in Hnd as (_ & Hd & _).
  apply (Hd ConnectTokenSecret); [by apply list_elem_of_In|by apply list_elem_of_singleton].
Qed.

End Release.

(** ** The creation plan *)

Lemma count_subject_In m s : In s (map subject (resources m)) <-> 0 < count_subject m s.
Proof.
  unfold count_subject, subject_eqb. split.
  - intros (e & <- & He)%in_map_iff.
    assert (In e (List.filter (fun f => bool_decide (subject f = subject e)) (resources m))) as H.
    { apply filter_In. split; [done|]. by apply bool_decide_eq_true. }
    destruct (List.filter _ _); [done|cbn; lia].
  - destruct (List.filter _ _) as [|e l] eqn:E; [cbn; lia|]. intros _.
    assert (In e (List.filter (fun e => bool_decide (subject e = s)) (resources m)))
      as [He Hs%bool_decide_eq_true]%filter_In by (rewrite E; by left).
    rewrite <- Hs. by apply in_map.
Qed.

(** The manifest [m] records an instance built from the configuration [c]:
    same replica counts, a registries object exactly when mirrors are
    configured, volumes exactly when storage is durable, and an external
    datastore exactly when there is one. *)
Record built_from (m : TeardownCreationManifest) (c : ClusterConfig) (external : bool) : Prop := {
  built_servers : server_replicas m = servers c;
  built_agents : (0 <? agent_replicas m) = match agents c with Some a => 0 <? a | None => false end;
  built_mirrors : (0 <? count_subject m RegistriesConfigMap)
    = match registry_mirrors c with Some k => negb (Nat.eqb k 0) | None => false end;
  built_storage : match storage m with [] => false | _ => true end
    = match persistence c with Some p => negb (storage_is_ephemeral p) | None => false end;
  built_datastore : match datastore m with EmbeddedSqlite => false | _ => true end = external;
}.

Lemma plan_NoDup c external : List.NoDup (k3s_teardown_plan c external).
Proof.
  unfold k3s_teardown_plan. apply NoDup_ListNoDup.
  repeat case_match; by apply (bool_decide_unpack _).
Qed.

Lemma valid_storage_count m s :
  storage_ok m = true -> s = ServerDataPvcs \/ s = ServerDataVolumes ->
  0 < count_subject m s <-> storage m <> [].
Proof.
  unfold storage_ok. intros Hs Hor. destruct (storage m) as [|v l]; cbn zeta in Hs;
    rewrite !andb_true_iff in Hs; destruct_and!; cbn [length] in *.
  - destruct Hor as [-> | ->]; split; lia || done.
  - destruct Hor as [-> | ->]; (split; [done|intros _]);
      match goal with H : (count_subject m ?s =? _) = true |- 0 < count_subject m ?s =>
        apply Z.eqb_eq in H; rewrite H; clear; lia end.
Qed.

Lemma valid_multiplicity m :
  multiplicity_ok m = true ->
  (forall s, In s exactly_one -> count_subject m s = 1) /\
  count_subject m ServerPods = server_replicas m /\
  count_subject m AgentDeployment = (if 0 <? agent_replicas m then 1 else 0) /\
  count_subject m PodDisruptionBudget = (if 1 <? server_replicas m then 1 else 0) /\
  count_subject m RegistriesConfigMap <= 1.
Proof.
  unfold multiplicity_ok. intros H. autorewrite with kobe in H. destruct_and! H.
  split_and!; try done. intros s Hs. rewrite forallb_forall in *.
  match goal with H : forall x, In x exactly_one -> _ |- _ => apply H in Hs end. by apply Z.eqb_eq.
Qed.

Lemma valid_servers parse_from_rfc3339 m :
  validate parse_from_rfc3339 m = Ok tt -> 0 < server_replicas m.
Proof.
  intros Hv. destruct (valid_facts _ _ Hv) as (Hid & _ & Hm & _).
  destruct (valid_multiplicity m Hm) as (_ & Hp & _). unfold identity_ok in Hid.
  autorewrite with kobe in Hid. destruct_and! Hid. unfold count_subject in Hp. lia.
Qed.

(** How many entries of each subject a validated manifest has. *)
Lemma valid_count parse_from_rfc3339 m s :
  validate parse_from_rfc3339 m = Ok tt ->
  0 < count_subject m s <->
  match s with
  | AgentDeployment => 0 < agent_replicas m
  | PodDisruptionBudget => 1 < server_replicas m
  | RegistriesConfigMap => 0 < count_subject m RegistriesConfigMap
  | ServerDataPvcs | ServerDataVolumes => storage m <> []
  | DatastoreCredentialSecret => datastore m <> EmbeddedSqlite
  | ConnectTokenSecret | Database | DatabaseRole => False
  | _ => True
  end.
Proof.
  intros Hv. destruct (valid_facts _ _ Hv) as (Hid & _ & Hm & Hs & Hd).
  assert (s = ConnectTokenSecret \/ s = Database \/ s = DatabaseRole -> ~ 0 < count_subject m s) as Hno.
  { intros E. rewrite <- count_subject_In. by eapply valid_subject. }
  pose proof (valid_servers _ _ Hv). destruct (valid_multiplicity m Hm) as (H1 & Hp & Ha & Hpdb & _).
  destruct s; try (split; [done|intros _; rewrite H1 by (cbn; tauto); lia]);
    try (split; [intros; apply Hno; auto|done]); try tauto.
  - rewrite Ha. destruct (Z.ltb_spec 0 (agent_replicas m)); lia.
  - rewrite Hp. tauto.
  - rewrite Hpdb. destruct (Z.ltb_spec 1 (server_replicas m)); lia.
  - unfold datastore_ok in Hd. destruct (datastore m); bool_props; (split; [lia || done|lia || done]).
  - apply valid_storage_count; auto.
  - apply valid_storage_count; auto.
Qed.

(** ** Theorems *)

(** C1. A receipt that permits release accounts for exactly the footprint of
    the binding: its checks are one per required subject and all verified, the
    identities they name are, as a multiset, exactly those of the sealed
    manifest plus the connect token (none missing, none extra, none under a
    wrong subject), and it is fenced to the binding's lease, instance and
    pool, to the manifest digest and to the current attempt. *)
Theorem receipt_accounts_for_exact_footprint (parse_from_rfc3339 : string -> option Z)
    (b : LeaseBinding) (m : TeardownCreationManifest) (digest : string)
    (token : KubernetesResourceIdentity) (attempt : string) (r : TeardownReceipt)
    (Hvalid : validate parse_from_rfc3339 m = Ok tt)
    (Hrel : permits_release_for parse_from_rfc3339 r (binding_scope b m digest token attempt) = true) :
  map check_subject (checks r) ≡ₚ required_subjects m ++ [ConnectTokenSecret] /\
  (forall c, In c (checks r) ->
     check_result c = Verified /\ verified c ≡ₚ committed_identities m token (check_subject c)) /\
  flat_map verified (checks r) ≡ₚ recorded_identities m ++ [canonical_id token] /\
  receipt_lease r = binding_lease b /\ receipt_instance r = instance m /\
  receipt_pool r = binding_pool b /\ receipt_manifest_digest r = digest /\ attempt_id r = attempt.
Proof.
  split; [by eapply release_subjects|]. split; [by intros; eapply release_check|].
  split; [by eapply release_identities|].
  unfold permits_release_for in Hrel. rewrite !andb_true_iff in Hrel. destruct_and!.
  repeat match goal with
    | H : String.eqb _ _ = true |- _ => apply String.eqb_eq in H
    | H : bool_decide _ = true |- _ => apply bool_decide_eq_true in H
    end. done.
Qed.

(** Release and acknowledgement agree: a receipt that permits release of a
    [VerifiedDestroy] binding with a nonblank manifest digest is one the
    consumer can acknowledge, as soon as it serializes. *)
Theorem released_receipt_is_acknowledgeable (parse_from_rfc3339 : string -> option Z)
    (receipt_digest : TeardownReceipt -> option string)
    (b : LeaseBinding) (m : TeardownCreationManifest) (digest : string)
    (token : KubernetesResourceIdentity) (attempt : string) (r : TeardownReceipt)
    (Hmode : cleanup_mode b = VerifiedDestroy) (Hdigest : nonblank digest = true)
    (Hser : is_Some (receipt_digest r))
    (Hrel : permits_release_for parse_from_rfc3339 r (binding_scope b m digest token attempt) = true) :
  is_Some (acknowledgement_token parse_from_rfc3339 receipt_digest r).
Proof.
  destruct Hser as [d Hd]. unfold permits_release_for in Hrel. cbn [binding_scope] in Hrel.
  rewrite !andb_true_iff in Hrel. destruct_and!. 
  unfold acknowledgement_token.
  repeat match goal with
    | H : ?x = true |- context [?x] => rewrite H
    | H : String.eqb (receipt_manifest_digest r) _ = true |- _ => apply String.eqb_eq in H; rewrite H
    | H : bool_decide (receipt_cleanup_mode r = _) = true |- _ => apply bool_decide_eq_true in H; rewrite H
    end.
  cbn [scope_manifest_digest scope_cleanup_mode binding_scope]. rewrite Hdigest, Hmode, Hd.
  destruct (checks r) eqn:E; [|cbn; eauto].
  match goal with H : Nat.eqb _ _ = true |- _ =>
    apply Nat.eqb_eq in H; cbn in H; rewrite length_app in H; cbn in H; lia end.
Qed.

(** A validated manifest commits teardown to the creation plan: for an
    instance built from a configuration, the subjects a receipt must cover
    (with the connect token) are exactly those [k3s_teardown_plan] derives
    from that configuration, each once. *)
Theorem manifest_requires_creation_plan (parse_from_rfc3339 : string -> option Z)
    (m : TeardownCreationManifest) (c : ClusterConfig) (external : bool)
    (Hvalid : validate parse_from_rfc3339 m = Ok tt) (Hbuilt : built_from m c external) :
  required_subjects m ++ [ConnectTokenSecret] ≡ₚ k3s_teardown_plan c external.
Proof.
  apply NoDup_Permutation; rewrite ?NoDup_ListNoDup;
    [by eapply required_NoDup|apply plan_NoDup|].
  intros s. rewrite !list_elem_of_In, in_app_iff. unfold required_subjects. rewrite in_app_iff.
  destruct (distinct_subjects_spec [] (resources m)) as [_ ->]; [constructor|].
  rewrite count_subject_In, (valid_count _ _ s Hvalid).
  unfold k3s_teardown_plan. rewrite !in_app_iff. destruct Hbuilt as [<- <- <- <- <-].
  destruct (Z.ltb_spec 0 (agent_replicas m)), (Z.ltb_spec 1 (server_replicas m)),
    (Z.ltb_spec 0 (count_subject m RegistriesConfigMap)), (storage m), (datastore m); cbn;
    destruct s; (split; intros; destruct_or?; try done;
      first [lia | tauto | solve [auto 30] | left; left; right; lia || done]).
Qed.

(** ** A single-server instance and its receipt *)

Definition ex_identity (api kd nm u : string) : KubernetesResourceIdentity :=
  {| api_version := api; kind := kd; namespace := Some "kobe"; name := nm; uid := u |}.

Definition ex_instance : KubernetesResourceIdentity :=
  ex_identity "kobe.kunobi.ninja/v1alpha1" "ClusterInstance" "pool-p-0" "instance-uid".

Definition ex_entry (s : TeardownSubject) (api kd nm u : string) : CreationManifestResource :=
  {| subject := s; resource := ex_identity api kd nm u; controller := ex_instance;
     control_relation := ControllerOwner |}.

Definition ex_digest : string :=
  "0123456789abcdef0123456789abcdef0123456789abcdef0123456789abcdef".

Definition ex_manifest : TeardownCreationManifest :=
  {| schema_version := 1;
     instance := {| ref_name := "pool-p-0"; ref_uid := Some "instance-uid" |};
     manifest_namespace := "kobe"; backend_type := K3s; config_digest := ex_digest;
     service_cidr := "10.240.0.0/20"; cluster_cidr := "10.248.0.0/20";
     server_replicas := 1; agent_replicas := 0;
     resources :=
       [ex_entry ServerStatefulSet "apps/v1" "StatefulSet" "pool-p-0-server" "sts";
        {| subject := ServerPods; resource := ex_identity "v1" "Pod" "pool-p-0-server-0" "pod";
           controller := ex_identity "apps/v1" "StatefulSet" "pool-p-0-server" "sts";
           control_relation := ControllerOwner |};
        ex_entry Service "v1" "Service" "pool-p-0-server" "svc";
        ex_entry PublisherConfigMap "v1" "ConfigMap" "pool-p-0-kubeconfig-publisher" "pub";
        ex_entry TokenSecret "v1" "Secret" "pool-p-0-token" "tok";
        ex_entry KubeconfigSecret "v1" "Secret" "pool-p-0-kubeconfig" "kc";
        ex_entry CidrClaim "kobe.kunobi.ninja/v1alpha1" "CIDRClaim" "pool-p-0" "cidr"];
     storage := []; datastore := EmbeddedSqlite; sealed_at := "t0" |}.

Definition ex_token : KubernetesResourceIdentity :=
  ex_identity "v1" "Secret" "lease-1-connect-token" "connect".

Definition ex_binding : LeaseBinding :=
  {| binding_id := "b"; binding_lease := {| ref_name := "lease-1"; ref_uid := Some "lease-uid" |};
     binding_instance := {| bound_name := "pool-p-0"; bound_uid := "instance-uid";
                            observed_generation := 1 |};
     binding_pool := {| ref_name := "p"; ref_uid := Some "pool-uid" |};
     backend := {| provenance_type := K3s; provenance_digest := ex_digest; capi := None |};
     instance_spec_digest := "0123456789abcdef"; cleanup_mode := VerifiedDestroy;
     creation_manifest_digest := Some ex_digest; creation_manifest := Some ex_manifest;
     connect_token := Some ex_token |}.

Definition ex_scope : TeardownScope := binding_scope ex_binding ex_manifest ex_digest ex_token "attempt".

Definition ex_receipt : TeardownReceipt :=
  {| receipt_schema_version := 1; attempt_id := "attempt"; receipt_lease := binding_lease ex_binding;
     receipt_instance := instance ex_manifest; receipt_pool := binding_pool ex_binding;
     receipt_backend := "k3s"; receipt_config_digest := ex_digest;
     receipt_spec_digest := "0123456789abcdef"; receipt_manifest_digest := ex_digest;
     receipt_cleanup_mode := VerifiedDestroy; started_at := "t0"; completed_at := Some "t1";
     checks := map (fun s => {| check_subject := s; check_result := Verified; reason := None;
                                verified := scope_identities ex_scope ex_manifest s |})
                   (scope_required_subjects ex_scope);
     retry_count := 0; outcome := OutcomeVerified |}.

(** A stand-in for the RFC 3339 parser. *)
Definition ex_rfc3339 (s : string) : option Z :=
  if String.eqb s "t0" then Some 0 else if String.eqb s "t1" then Some 1 else None.

(** Witness. *)
Lemma receipt_accounts_for_exact_footprint_witness :
  flat_map verified (checks ex_receipt) ≡ₚ recorded_identities ex_manifest ++ [canonical_id ex_token].
Proof.
  apply (receipt_accounts_for_exact_footprint ex_rfc3339 ex_binding ex_manifest ex_digest ex_token
    "attempt" ex_receipt); by vm_compute.
Defined.

(** Witness. *)
Lemma released_receipt_is_acknowledgeable_witness :
  is_Some (acknowledgement_token ex_rfc3339 (fun _ => Some ex_digest) ex_receipt).
Proof.
  apply (released_receipt_is_acknowledgeable ex_rfc3339 (fun _ => Some ex_digest) ex_binding
    ex_manifest ex_digest ex_token "attempt" ex_receipt); [by vm_compute..|by exists ex_digest|by vm_compute].
Defined.

(** Witness. *)
Lemma manifest_requires_creation_plan_witness :
  required_subjects ex_manifest ++ [ConnectTokenSecret] ≡ₚ
  k3s_teardown_plan {| servers := 1; agents := None; registry_mirrors := None;
    persistence := Some {| storage_type := None |}; kubelet_shared_mount := false |} false.
Proof.
  apply (manifest_requires_creation_plan ex_rfc3339); [by vm_compute|split; by vm_compute].
Defined.
