(* ===== verification/Objects.v ===== *)
(** * Objects: the Kubernetes objects the lease lifecycle reads and writes

    [ClusterLease], [ClusterInstance] and [ClusterPool] as far as the lease
    binding code reads them ([src/crd/lease.rs], [src/crd/instance.rs],
    [src/crd/profile.rs]), and the outcomes of an API [get]. *)

From S2P Require Import Prelude Text Teardown StateMachine.

(** [ClusterInstancePhase] of the CRD. *)
Module ClusterInstancePhase.
Inductive t : Type := Creating | Ready | Leased | Recycling | Unhealthy | Failed | Quarantined.
#[global] Instance eq_dec : EqDecision t. Proof. solve_decision. Defined.
End ClusterInstancePhase.

(** [LeasePhase] of the CRD. *)
Module ClusterLeasePhase.
Inductive t : Type := Pending | Bound | Released | Expired | Recycling | Quarantined.
#[global] Instance eq_dec : EqDecision t. Proof. solve_decision. Defined.
Definition display (p : t) : string :=
  match p with
  | Pending => "Pending" | Bound => "Bound" | Released => "Released"
  | Expired => "Expired" | Recycling => "Recycling" | Quarantined => "Quarantined"
  end.
End ClusterLeasePhase.

Record OwnerReference : Type := {
  owner_api_version : string;
  owner_kind : string;
  owner_name : string;
  owner_uid : string;
}.

Record ObjectMeta : Type := {
  meta_name : string;
  meta_uid : option string;
  meta_generation : option Z;
  resource_version : option string;
  deletion_timestamp : option string;
  owner_references : option (list OwnerReference);
}.

(** The durable attempt to create a lease's connect-token Secret. *)
Module ConnectTokenCreationPhase.
Inductive t : Type := Prepared | Creating | Reserved | Ready | Closing | Closed.
#[global] Instance eq_dec : EqDecision t. Proof. solve_decision. Defined.
End ConnectTokenCreationPhase.

Record ConnectTokenCreation : Type := {
  attempt_id : string;
  creation_phase : ConnectTokenCreationPhase.t;
  token_identity : option KubernetesResourceIdentity;
  verified_absent_at : option string;
}.
#[global] Instance ConnectTokenCreation_eq_dec : EqDecision ConnectTokenCreation.
Proof. solve_decision. Defined.

Record ClusterLeaseStatus : Type := {
  lease_phase : ClusterLeasePhase.t;
  cluster_name : option string;
  lease_status_binding : option LeaseBinding;
  bound_at : option string;
  expires_at : option string;
  extensions_count : Z;
  lease_max_extensions : Z;
  connect_token_creation : option ConnectTokenCreation;
  lease_message : option string;
}.

Definition default_lease_status : ClusterLeaseStatus :=
  {| lease_phase := ClusterLeasePhase.Pending; cluster_name := None;
     lease_status_binding := None; bound_at := None; expires_at := None; extensions_count := 0;
     lease_max_extensions := 0; connect_token_creation := None; lease_message := None |}.

Record ClusterLease : Type := {
  lease_metadata : ObjectMeta;
  lease_pool_ref : string;
  lease_ttl : string;
  requester_type : string;
  lease_cleanup_mode : option CleanupMode;
  lease_status : option ClusterLeaseStatus;
}.

Record ClusterInstanceCondition : Type := {
  condition_type : string;
  condition_status : string;
  condition_reason : string;
  condition_message : string;
  last_transition_time : option string;
}.

(** The fields of [ClusterInstanceProvenance] that bind a backend. *)
Record ClusterInstanceProvenance : Type := {
  created_pool_uid : option string;
  created_backend : option BackendProvenance;
  created_backend_type : option BackendType;
}.

Record ClusterInstanceStatus : Type := {
  inst_phase : ClusterInstancePhase.t;
  provisioned : bool;
  bootstrapped : bool;
  lease_ref : option ResourceRef;
  inst_binding : option LeaseBinding;
  inst_idle_since : option string;
  inst_state_since : option string;
  inst_health_failures : Z;
  inst_spec_hash : option string;
  created_with : option ClusterInstanceProvenance;
  inst_creation_manifest : option TeardownCreationManifest;
  inst_message : option string;
  inst_conditions : list ClusterInstanceCondition;
}.

Definition default_instance_status : ClusterInstanceStatus :=
  {| inst_phase := ClusterInstancePhase.Creating; provisioned := false; bootstrapped := false;
     lease_ref := None; inst_binding := None; inst_idle_since := None; inst_state_since := None;
     inst_health_failures := 0;
     inst_spec_hash := None; created_with := None; inst_creation_manifest := None; inst_message := None; inst_conditions := [] |}.

Record ClusterInstance : Type := {
  inst_metadata : ObjectMeta;
  inst_pool_ref : option ResourceRef;
  inst_status : option ClusterInstanceStatus;
}.

(** A [ClusterPool] by its metadata and the provenance of its backend
    configuration ([BackendProvenance::from_config], [None] when the
    configuration does not serialize). *)
Record BackendPool : Type := {
  pool_metadata : ObjectMeta;
  pool_backend : option BackendProvenance;
}.

(** The result of a [get]. *)
Inductive Lookup (A : Type) : Type := Found (a : A) | NotFound | LookupFailed.
Arguments Found {A} a.
Arguments NotFound {A}.
Arguments LookupFailed {A}.

(** [dispatch_config]: the reconstructed configuration is [CapiBackendProvenance]
    or nothing. *)
Definition dispatch_config (p : BackendProvenance)
    : result (option CapiBackendProvenance) string :=
  match provenance_type p, capi p with
  | Capi, Some c => Ok (Some c)
  | Capi, None => Err "capi_dispatch_missing"
  | _, Some _ => Err "unexpected_capi_dispatch"
  | _, None => Ok None
  end.

(** [recovery_phase] and [model_instance_phase]. *)
Definition recovery_phase (p : ClusterInstancePhase.t) : InstancePhase.t :=
  match p with
  | ClusterInstancePhase.Creating => InstancePhase.Creating
  | ClusterInstancePhase.Ready => InstancePhase.Ready
  | ClusterInstancePhase.Leased => InstancePhase.Leased
  | ClusterInstancePhase.Recycling => InstancePhase.Recycling
  | ClusterInstancePhase.Unhealthy => InstancePhase.Unhealthy
  | ClusterInstancePhase.Failed => InstancePhase.Failed
  | ClusterInstancePhase.Quarantined => InstancePhase.Quarantined
  end.

Definition model_lease_phase (p : ClusterLeasePhase.t) : LeasePhase.t :=
  match p with
  | ClusterLeasePhase.Pending => LeasePhase.Pending
  | ClusterLeasePhase.Bound => LeasePhase.Bound
  | ClusterLeasePhase.Released => LeasePhase.Released
  | ClusterLeasePhase.Expired => LeasePhase.Expired
  | ClusterLeasePhase.Recycling => LeasePhase.Recycling
  | ClusterLeasePhase.Quarantined => LeasePhase.Quarantined
  end.

Definition model_binding_state (observed : option LeaseBinding) (expected : LeaseBinding)
    : BindingState :=
  match observed with
  | Some b => if bool_decide (b = expected) then Expected else Foreign
  | None => Absent
  end.
