(* ===== verification/LeaseBinding.v ===== *)
(** * LeaseBinding: who may cross from a lease to an instance

    Model of [src/lease_binding.rs]: [resolve_lease_binding] hands out an exact
    lease/instance/pool triple or a typed denial, and
    [verify_instance_teardown] decides whether a bound instance may be torn
    down.  Both read live objects through [get]s that may fail. *)

From S2P Require Import Prelude Text Teardown Receipts StateMachine Objects.
Open Scope kobe_scope.

Inductive BindingResolveMode : Type := Access | Lifecycle.
#[global] Instance BindingResolveMode_eq_dec : EqDecision BindingResolveMode.
Proof. solve_decision. Defined.

Inductive BindingResolutionError : Type :=
| LeaseNotFound | LeaseLookup | LeaseUidMismatch | LeaseDeleting | LeaseNotBound
| ExpiryMissing | ExpiryMalformed | Expired | BindingMissing | BindingMalformed (what : string)
| BindingLeaseMismatch | ClusterNameMismatch | InstanceNotFound | InstanceLookup
| InstanceUidMismatch | InstanceGenerationMismatch | InstanceDeleting | InstancePhaseMismatch
| ReciprocalBindingMismatch | LeaseStillBound | LeaseRefMismatch | InstancePoolMismatch
| InstanceOwnerMismatch | InstanceSpecDigestMismatch | InstanceProvenanceMissing
| InstanceProvenanceMismatch | PoolNotFound | PoolLookup | PoolUidMismatch | PoolDeleting
| BackendProvenanceMismatch.

Definition reason_code (e : BindingResolutionError) : string :=
  match e with
  | LeaseNotFound => "lease_not_found"
  | LeaseLookup => "lease_lookup_failed"
  | LeaseUidMismatch => "lease_uid_mismatch"
  | LeaseDeleting => "lease_deleting"
  | LeaseNotBound => "lease_not_bound"
  | ExpiryMissing => "expiry_missing"
  | ExpiryMalformed => "expiry_malformed"
  | Expired => "expired"
  | BindingMissing => "binding_missing"
  | BindingMalformed _ => "binding_malformed"
  | BindingLeaseMismatch => "binding_lease_mismatch"
  | ClusterNameMismatch => "cluster_name_mismatch"
  | InstanceNotFound => "instance_not_found"
  | InstanceLookup => "instance_lookup_failed"
  | InstanceUidMismatch => "instance_uid_mismatch"
  | InstanceGenerationMismatch => "instance_generation_mismatch"
  | InstanceDeleting => "instance_deleting"
  | InstancePhaseMismatch => "instance_phase_mismatch"
  | ReciprocalBindingMismatch => "reciprocal_binding_mismatch"
  | LeaseStillBound => "lease_still_bound"
  | LeaseRefMismatch => "lease_ref_mismatch"
  | InstancePoolMismatch => "instance_pool_mismatch"
  | InstanceOwnerMismatch => "instance_owner_mismatch"
  | InstanceSpecDigestMismatch => "instance_spec_digest_mismatch"
  | InstanceProvenanceMissing => "instance_provenance_missing"
  | InstanceProvenanceMismatch => "instance_provenance_mismatch"
  | PoolNotFound => "pool_not_found"
  | PoolLookup => "pool_lookup_failed"
  | PoolUidMismatch => "pool_uid_mismatch"
  | PoolDeleting => "pool_deleting"
  | BackendProvenanceMismatch => "backend_provenance_mismatch"
  end.

Record ResolvedLeaseBinding : Type := {
  resolved_lease : ClusterLease;
  resolved_instance : ClusterInstance;
  resolved_pool : BackendPool;
  resolved_binding : LeaseBinding;
}.

Definition str_empty (s : string) : bool := String.eqb s "".
Definition ref_eqb (a b : ResourceRef) : bool := bool_decide (a = b).

Definition valid_backend_digest (value : string) : bool := is_hex_digest value.
Definition valid_instance_digest (value : string) : bool :=
  ((str_len value =? 16) || (str_len value =? 64)) && all_bytes is_ascii_hexdigit value.

Definition connect_secret_name (lease_id : string) : string := lease_id +:+ "-connect-token".

Definition require_connect_token_identity_shape (identity : KubernetesResourceIdentity)
    (ns lease_id : string) : bool :=
  String.eqb (api_version identity) "v1" && String.eqb (kind identity) "Secret" &&
  str_opt_eqb (namespace identity) (Some ns) &&
  String.eqb (name identity) (connect_secret_name lease_id) && nonblank (uid identity).

Section Resolve.
(** [chrono::DateTime::parse_from_rfc3339], and SHA-256 of the serialized
    manifest. *)
Context (parse_from_rfc3339 : string -> option Z).
Context (manifest_digest : TeardownCreationManifest -> option string).

Definition manifest_bound (b : LeaseBinding) (ns : string) : bool :=
  match creation_manifest_digest b, creation_manifest b with
  | Some digest, Some m =>
      match validate parse_from_rfc3339 m with Ok _ => true | Err _ => false end &&
      str_opt_eqb (manifest_digest m) (Some digest) &&
      String.eqb (manifest_namespace m) ns &&
      String.eqb (ref_name (instance m)) (bound_name (binding_instance b)) &&
      str_opt_eqb (ref_uid (instance m)) (Some (bound_uid (binding_instance b))) &&
      bool_decide (backend_type m = provenance_type (backend b)) &&
      String.eqb (config_digest m) (provenance_digest (backend b))
  | None, None => negb (requires_receipt (cleanup_mode b))
  | _, _ => false
  end.

Definition opt_blank (o : option string) : bool :=
  match o with Some s => str_empty s | None => true end.

Definition validate_binding_shape (b : LeaseBinding) (ns : string)
    : result unit BindingResolutionError :=
  let? _ := deny_if (str_empty (binding_id b) || (128 <? str_len (binding_id b)))
              (BindingMalformed "binding_id") in
  let? _ := deny_if (str_empty (ref_name (binding_lease b)) || opt_blank (ref_uid (binding_lease b))
                     || str_empty (bound_name (binding_instance b))
                     || str_empty (bound_uid (binding_instance b))
                     || (observed_generation (binding_instance b) <? 1)
                     || str_empty (ref_name (binding_pool b)) || opt_blank (ref_uid (binding_pool b)))
              (BindingMalformed "identity") in
  let? _ := deny_if (negb (valid_instance_digest (instance_spec_digest b))
                     || negb (valid_backend_digest (provenance_digest (backend b))))
              (BindingMalformed "digest") in
  let? _ := match dispatch_config (backend b) with
            | Ok _ => Ok tt | Err e => Err (BindingMalformed e) end in
  let? _ := deny_if (negb (manifest_bound b ns)) (BindingMalformed "creation_manifest") in
  if requires_receipt (cleanup_mode b) then
    let? token := ok_or (connect_token b) (BindingMalformed "connect_token") in
    deny_if (negb (require_connect_token_identity_shape token ns (ref_name (binding_lease b))))
      (BindingMalformed "connect_token")
  else Ok tt.

Definition is_access (mode : BindingResolveMode) : bool :=
  match mode with Access => true | Lifecycle => false end.

(** [chrono::Utc::now() >= expires_at] over the parsed expiry. *)
Definition check_expiry (now : Z) (st : ClusterLeaseStatus) : result unit BindingResolutionError :=
  let? raw := ok_or (expires_at st) ExpiryMissing in
  let? expires := ok_or (parse_from_rfc3339 raw) ExpiryMalformed in
  deny_if (expires <=? now) Expired.

Definition owned_by_pool (i : ClusterInstance) (b : LeaseBinding) : bool :=
  match owner_references (inst_metadata i) with
  | Some owners =>
      existsb (fun o => String.eqb (owner_api_version o) "kobe.kunobi.ninja/v1alpha1" &&
                        String.eqb (owner_kind o) "ClusterPool" &&
                        String.eqb (owner_name o) (ref_name (binding_pool b)) &&
                        str_opt_eqb (Some (owner_uid o)) (ref_uid (binding_pool b))) owners
  | None => false
  end.

Definition ref_matches (r : option ResourceRef) (target : ResourceRef) : bool :=
  match r with
  | Some r => String.eqb (ref_name r) (ref_name target) && str_opt_eqb (ref_uid r) (ref_uid target)
  | None => false
  end.

(** The checks on the lease, in order. *)
Definition resolve_lease (now : Z) (ns lease_name expected_uid : string) (mode : BindingResolveMode)
    (lease : ClusterLease) : result LeaseBinding BindingResolutionError :=
  let? lease_uid := ok_or (meta_uid (lease_metadata lease)) LeaseUidMismatch in
  let? _ := deny_if (negb (String.eqb lease_uid expected_uid)
                     || negb (String.eqb (meta_name (lease_metadata lease)) lease_name)) LeaseUidMismatch in
  let? _ := deny_if (is_access mode && is_some (deletion_timestamp (lease_metadata lease))) LeaseDeleting in
  let st := default default_lease_status (lease_status lease) in
  let? _ := if is_access mode then
              let? _ := deny_if (negb (bool_decide (lease_phase st = ClusterLeasePhase.Bound))) LeaseNotBound in
              check_expiry now st
            else Ok tt in
  let? b := ok_or (lease_status_binding st) BindingMissing in
  let? _ := validate_binding_shape b ns in
  let? _ := deny_if (negb (String.eqb (ref_name (binding_lease b)) lease_name)
                     || negb (str_opt_eqb (ref_uid (binding_lease b)) (Some expected_uid)))
              BindingLeaseMismatch in
  let? _ := deny_if (negb (String.eqb (lease_pool_ref lease) (ref_name (binding_pool b)))) InstancePoolMismatch in
  let? _ := deny_if (is_access mode &&
                     negb (str_opt_eqb (cluster_name st) (Some (bound_name (binding_instance b)))))
              ClusterNameMismatch in
  Ok b.

(** The checks on the instance, in order. *)
Definition resolve_instance (mode : BindingResolveMode) (b : LeaseBinding) (i : ClusterInstance)
    : result unit BindingResolutionError :=
  let? _ := deny_if (negb (str_opt_eqb (meta_uid (inst_metadata i)) (Some (bound_uid (binding_instance b)))))
              InstanceUidMismatch in
  let? _ := deny_if (negb (opt_eqb Z.eqb (meta_generation (inst_metadata i))
                             (Some (observed_generation (binding_instance b))))) InstanceGenerationMismatch in
  let? _ := deny_if (is_some (deletion_timestamp (inst_metadata i))) InstanceDeleting in
  let st := default default_instance_status (inst_status i) in
  let? _ := deny_if (is_access mode && negb (bool_decide (inst_phase st = ClusterInstancePhase.Leased)))
              InstancePhaseMismatch in
  let? _ := deny_if (negb (bool_decide (inst_binding st = Some b))) ReciprocalBindingMismatch in
  let? _ := deny_if (negb (ref_matches (lease_ref st) (binding_lease b))) LeaseRefMismatch in
  let? _ := deny_if (negb (ref_matches (inst_pool_ref i) (binding_pool b))) InstancePoolMismatch in
  let? _ := deny_if (negb (owned_by_pool i b)) InstanceOwnerMismatch in
  let? _ := deny_if (negb (str_opt_eqb (inst_spec_hash st) (Some (instance_spec_digest b))))
              InstanceSpecDigestMismatch in
  let? c := ok_or (created_with st) InstanceProvenanceMissing in
  deny_if (negb (str_opt_eqb (created_pool_uid c) (ref_uid (binding_pool b)))
           || negb (bool_decide (created_backend c = Some (backend b)))
           || negb (bool_decide (created_backend_type c = Some (provenance_type (backend b)))))
    InstanceProvenanceMismatch.

(** The checks on the pool, in order. *)
Definition resolve_pool (b : LeaseBinding) (p : BackendPool) : result unit BindingResolutionError :=
  let? _ := deny_if (negb (str_opt_eqb (meta_uid (pool_metadata p)) (ref_uid (binding_pool b)))) PoolUidMismatch in
  let? _ := deny_if (is_some (deletion_timestamp (pool_metadata p))) PoolDeleting in
  let? current := ok_or (pool_backend p) BackendProvenanceMismatch in
  deny_if (negb (bool_decide (current = backend b))) BackendProvenanceMismatch.

Definition found {A} (l : Lookup A) (absent failed : BindingResolutionError)
    : result A BindingResolutionError :=
  match l with Found a => Ok a | NotFound => Err absent | LookupFailed => Err failed end.

(** [resolve_lease_binding]; [leases], [instances] and [pools] are what the
    three successive [get]s return. *)
Definition resolve_lease_binding (leases : string -> Lookup ClusterLease)
    (instances : string -> Lookup ClusterInstance) (pools : string -> Lookup BackendPool)
    (now : Z) (ns lease_name expected_uid : string) (mode : BindingResolveMode)
    : result ResolvedLeaseBinding BindingResolutionError :=
  let? lease := found (leases lease_name) LeaseNotFound LeaseLookup in
  let? b := resolve_lease now ns lease_name expected_uid mode lease in
  let? i := found (instances (bound_name (binding_instance b))) InstanceNotFound InstanceLookup in
  let? _ := resolve_instance mode b i in
  let? p := found (pools (ref_name (binding_pool b))) PoolNotFound PoolLookup in
  let? _ := resolve_pool b p in
  Ok {| resolved_lease := lease; resolved_instance := i; resolved_pool := p; resolved_binding := b |}.

(** [verify_instance_teardown] *)
Definition verify_instance_teardown (leases : string -> Lookup ClusterLease) (now : Z)
    (i : ClusterInstance) : result unit BindingResolutionError :=
  match inst_status i ≫= inst_binding with
  | None => Ok tt
  | Some b =>
      let? _ := deny_if (negb (str_opt_eqb (meta_uid (inst_metadata i)) (Some (bound_uid (binding_instance b))))
                         || negb (String.eqb (meta_name (inst_metadata i)) (bound_name (binding_instance b))))
                  InstanceUidMismatch in
      match leases (ref_name (binding_lease b)) with
      | NotFound => Ok tt
      | LookupFailed => Err LeaseLookup
      | Found lease =>
          if negb (str_opt_eqb (meta_uid (lease_metadata lease)) (ref_uid (binding_lease b))) then Ok tt
          else if is_some (deletion_timestamp (lease_metadata lease)) then Ok tt
          else
            let st := default default_lease_status (lease_status lease) in
            if negb (bool_decide (lease_phase st = ClusterLeasePhase.Bound)) then Ok tt
            else
              let live := match expires_at st ≫= parse_from_rfc3339 with
                          | Some expires => now <? expires | None => false end in
              if negb live then Ok tt
              else if bool_decide (lease_status_binding st = Some b) then Err LeaseStillBound
              else Ok tt
      end
  end.

End Resolve.

(** ** What a resolution establishes *)

(** The exact pair: the lease asked for and the instance it names carry one and
    the same binding, the instance is the pinned object at the pinned
    generation with the pinned provenance, and the pool still has it. *)
Record exact_pair (leases : string -> Lookup ClusterLease)
    (instances : string -> Lookup ClusterInstance) (pools : string -> Lookup BackendPool)
    (lease_name expected_uid : string) (r : ResolvedLeaseBinding) : Prop := {
  pair_lease : leases lease_name = Found (resolved_lease r);
  pair_lease_uid : meta_uid (lease_metadata (resolved_lease r)) = Some expected_uid;
  pair_lease_binding :
    lease_status (resolved_lease r) ≫= lease_status_binding = Some (resolved_binding r);
  pair_binding_lease : binding_lease (resolved_binding r)
    = {| ref_name := lease_name; ref_uid := Some expected_uid |};
  pair_instance : instances (bound_name (binding_instance (resolved_binding r))) = Found (resolved_instance r);
  pair_instance_uid : meta_uid (inst_metadata (resolved_instance r))
    = Some (bound_uid (binding_instance (resolved_binding r)));
  pair_instance_generation : meta_generation (inst_metadata (resolved_instance r))
    = Some (observed_generation (binding_instance (resolved_binding r)));
  pair_instance_live : deletion_timestamp (inst_metadata (resolved_instance r)) = None;
  pair_reciprocal : inst_status (resolved_instance r) ≫= inst_binding = Some (resolved_binding r);
  pair_pool : pools (ref_name (binding_pool (resolved_binding r))) = Found (resolved_pool r);
  pair_pool_uid : meta_uid (pool_metadata (resolved_pool r)) = ref_uid (binding_pool (resolved_binding r));
  pair_provenance : pool_backend (resolved_pool r) = Some (backend (resolved_binding r));
}.

Lemma found_Ok {A} (l : Lookup A) e1 e2 a : found l e1 e2 = Ok a -> l = Found a.
Proof. by destruct l; intros [= ->]. Qed.

(** Read a [deny_if] or [ok_or] that succeeded. *)
Ltac read_checks :=
  repeat match goal with
    | H : deny_if _ _ = Ok _ |- _ => apply deny_if_Ok in H
    | H : ok_or _ _ = Ok _ |- _ => apply ok_or_Ok in H
    | H : found _ _ _ = Ok _ |- _ => apply found_Ok in H
    end; bool_props.

Section Facts.
Context (parse_from_rfc3339 : string -> option Z)
  (manifest_digest : TeardownCreationManifest -> option string).

Lemma resolve_lease_facts now ns ln eu mode lease b :
  resolve_lease parse_from_rfc3339 manifest_digest now ns ln eu mode lease = Ok b ->
  meta_uid (lease_metadata lease) = Some eu /\
  lease_status lease ≫= lease_status_binding = Some b /\
  binding_lease b = {| ref_name := ln; ref_uid := Some eu |} /\
  (mode = Access ->
     deletion_timestamp (lease_metadata lease) = None /\
     exists st t, lease_status lease = Some st /\ lease_phase st = ClusterLeasePhase.Bound /\
       expires_at st ≫= parse_from_rfc3339 = Some t /\ now < t).
Proof.
  unfold resolve_lease. intros H. unbind H. injection H as <-.
  destruct (lease_status lease) as [st|] eqn:Est; cbn [default] in *;
    [|apply ok_or_Ok in Hok3; done].
  assert (mode = Access -> lease_phase st = ClusterLeasePhase.Bound /\
    exists t, expires_at st ≫= parse_from_rfc3339 = Some t /\ now < t) as Hacc.
  { intros ->. clear -Hok2. cbn in Hok2. unfold check_expiry in Hok2. unbind Hok2. read_checks.
    split; [done|]. eexists. by simplify_option_eq. }
  clear Hok2. read_checks. simplify_eq. split; [done|]. split; [by simplify_option_eq|].
  split; [destruct (binding_lease _); cbn in *; congruence|].
  intros ->. cbn in *. split; [by destruct Hok1|].
  destruct (Hacc eq_refl) as (? & t & ? & ?). by exists st, t.
Qed.

Lemma resolve_instance_facts mode b i u :
  resolve_instance mode b i = Ok u ->
  meta_uid (inst_metadata i) = Some (bound_uid (binding_instance b)) /\
  meta_generation (inst_metadata i) = Some (observed_generation (binding_instance b)) /\
  deletion_timestamp (inst_metadata i) = None /\
  inst_status i ≫= inst_binding = Some b /\
  (mode = Access -> exists st, inst_status i = Some st /\ inst_phase st = ClusterInstancePhase.Leased).
Proof.
  unfold resolve_instance. intros H. unbind H. clear H.
  destruct (inst_status i) as [st|] eqn:Est; cbn [default] in *; read_checks; [|done].
  split_and!; try done.
  - destruct (meta_generation (inst_metadata i)); cbn in *; [|done]. f_equal. by apply Z.eqb_eq.
  - intros ->. exists st. split; [done|]. cbn in *. match goal with H : true = false \/ _ |- _ => by destruct H end.
Qed.

Lemma resolve_exact leases instances pools now ns ln eu mode r :
  resolve_lease_binding parse_from_rfc3339 manifest_digest leases instances pools now ns ln eu mode = Ok r ->
  exact_pair leases instances pools ln eu r /\
  resolve_lease parse_from_rfc3339 manifest_digest now ns ln eu mode (resolved_lease r) = Ok (resolved_binding r) /\
  resolve_instance mode (resolved_binding r) (resolved_instance r) = Ok tt.
Proof.
  unfold resolve_lease_binding. intros H. unbind H. injection H as <-. cbn.
  unfold resolve_pool in Hok4. unbind Hok4. destruct a2. read_checks.
  destruct (resolve_lease_facts _ _ _ _ _ _ _ Hok0) as (? & ? & ? & _).
  destruct (resolve_instance_facts _ _ _ _ Hok2) as (? & ? & ? & ? & _).
  split; [split; cbn; congruence|]. done.
Qed.

(** Two chains with the same checks, the goal's possibly fewer. *)
Ltac unbind_both H :=
  repeat match type of H with (match ?c with Ok _ => _ | Err _ => _ end) = Ok _ =>
    destruct c; [|discriminate H] end; exact H.

(** Lifecycle mode only drops checks. *)
Lemma resolve_lease_lifecycle now ns ln eu lease b :
  resolve_lease parse_from_rfc3339 manifest_digest now ns ln eu Access lease = Ok b ->
  resolve_lease parse_from_rfc3339 manifest_digest now ns ln eu Lifecycle lease = Ok b.
Proof.
  unfold resolve_lease. cbn [is_access andb deny_if]. intros H. unbind_both H. Qed.

Lemma resolve_instance_lifecycle b i u :
  resolve_instance Access b i = Ok u -> resolve_instance Lifecycle b i = Ok u.
Proof.
  unfold resolve_instance. cbn [is_access andb deny_if]. intros H. unbind_both H.
Qed.

(** [LeaseNotFound] means the [get] of the lease found nothing. *)
Lemma resolve_lease_not_found leases instances pools now ns ln eu mode :
  resolve_lease_binding parse_from_rfc3339 manifest_digest leases instances pools now ns ln eu mode
    = Err LeaseNotFound -> leases ln = NotFound.
Proof.
  unfold resolve_lease_binding. destruct (leases ln) as [lease| |]; [|done|done]. cbn [found].
  intros H. exfalso. revert H.
  unfold resolve_lease, resolve_instance, resolve_pool, validate_binding_shape, check_expiry,
    deny_if, ok_or, found.
  repeat (case_match; try done); congruence.
Qed.

End Facts.

(** ** Theorems *)

(** C2. Tenant access resolves only to the exact live pair: a resolution in
    [Access] mode returns the lease asked for, with the authenticated UID, not
    being deleted, [Bound] and unexpired, and the instance it names, [Leased],
    not being deleted, at the pinned UID and generation, both carrying the
    very same binding, with the owning pool at its pinned UID and backend
    provenance.  The same pair also resolves for lifecycle work. *)
Theorem access_resolves_exact_live_pair (parse_from_rfc3339 : string -> option Z)
    (manifest_digest : TeardownCreationManifest -> option string)
    (leases : string -> Lookup ClusterLease) (instances : string -> Lookup ClusterInstance)
    (pools : string -> Lookup BackendPool) (now : Z) (ns lease_name expected_uid : string)
    (r : ResolvedLeaseBinding)
    (Hres : resolve_lease_binding parse_from_rfc3339 manifest_digest leases instances pools now ns
              lease_name expected_uid Access = Ok r) :
  exact_pair leases instances pools lease_name expected_uid r /\
  deletion_timestamp (lease_metadata (resolved_lease r)) = None /\
  (exists st t, lease_status (resolved_lease r) = Some st /\
     lease_phase st = ClusterLeasePhase.Bound /\
     expires_at st ≫= parse_from_rfc3339 = Some t /\ now < t) /\
  (exists st, inst_status (resolved_instance r) = Some st /\
     inst_phase st = ClusterInstancePhase.Leased) /\
  resolve_lease_binding parse_from_rfc3339 manifest_digest leases instances pools now ns
    lease_name expected_uid Lifecycle = Ok r.
Proof.
  pose proof Hres as Hres'. apply resolve_exact in Hres' as (Hpair & Hl & Hi).
  pose proof (resolve_lease_facts _ _ _ _ _ _ _ _ _ Hl) as (_ & _ & _ & Hlive).
  pose proof (resolve_instance_facts _ _ _ _ Hi) as (_ & _ & _ & _ & Hleased).
  destruct (Hlive eq_refl) as [? ?]. split_and!; auto. clear Hlive Hleased.
  apply resolve_lease_lifecycle in Hl. apply resolve_instance_lifecycle in Hi.
  unfold resolve_lease_binding in *. unbind Hres. injection Hres as <-. cbn in *.
  by rewrite Hl, Hok1, Hi, Hok3, Hok4.
Qed.

(** Access and teardown exclude each other: on the same observations, an
    instance a tenant may access is refused teardown, because its lease is
    still bound to it.  ([get] returns the object of the name asked for.) *)
Theorem access_excludes_teardown (parse_from_rfc3339 : string -> option Z)
    (manifest_digest : TeardownCreationManifest -> option string)
    (leases : string -> Lookup ClusterLease) (instances : string -> Lookup ClusterInstance)
    (pools : string -> Lookup BackendPool) (now : Z) (ns lease_name expected_uid : string)
    (r : ResolvedLeaseBinding)
    (Hnames : forall n i, instances n = Found i -> meta_name (inst_metadata i) = n)
    (Hres : resolve_lease_binding parse_from_rfc3339 manifest_digest leases instances pools now ns
              lease_name expected_uid Access = Ok r) :
  verify_instance_teardown parse_from_rfc3339 leases now (resolved_instance r) = Err LeaseStillBound.
Proof.
  apply resolve_exact in Hres as ([] & Hl & _).
  pose proof (resolve_lease_facts _ _ _ _ _ _ _ _ _ Hl) as (_ & _ & _ & Hlive).
  destruct (Hlive eq_refl) as (Hdel & st & t & Hst & Hbound & Hexp & Hnow).
  pose proof (Hnames _ _ pair_instance0) as Hname.
  unfold verify_instance_teardown. rewrite pair_reciprocal0, pair_instance_uid0, Hname.
  replace (str_opt_eqb _ _) with true by (symmetry; by apply str_opt_eqb_eq).
  rewrite String.eqb_refl. cbn [negb orb deny_if].
  rewrite pair_binding_lease0. cbn [ref_name ref_uid]. rewrite pair_lease0, pair_lease_uid0.
  replace (str_opt_eqb _ _) with true by (symmetry; by apply str_opt_eqb_eq).
  cbn [negb]. rewrite Hdel, Hst. cbn [is_some from_option id]. rewrite Hbound, bool_decide_true by done.
  cbn [negb]. rewrite Hexp, (proj2 (Z.ltb_lt _ _)) by done. cbn [negb].
  rewrite Hst in pair_lease_binding0. by rewrite bool_decide_true.
Qed.

(** ** A bound lease and its instance *)

Definition ex_meta (n u : string) (owners : list OwnerReference) : ObjectMeta :=
  {| meta_name := n; meta_uid := Some u; meta_generation := Some 1; resource_version := Some "7";
     deletion_timestamp := None; owner_references := Some owners |}.

Definition ex_lease : ClusterLease :=
  {| lease_metadata := ex_meta "lease-1" "lease-uid" []; lease_pool_ref := "p"; lease_ttl := "1h"; requester_type := "ci"; lease_cleanup_mode := None;
     lease_status := Some {| lease_phase := ClusterLeasePhase.Bound; cluster_name := Some "pool-p-0";
                             lease_status_binding := Some ex_binding; bound_at := None; expires_at := Some "t1"; extensions_count := 0;
         lease_max_extensions := 0; connect_token_creation := None; lease_message := None |} |}.

Definition ex_inst_status : ClusterInstanceStatus :=
  {| inst_phase := ClusterInstancePhase.Leased; provisioned := true; bootstrapped := true;
     lease_ref := Some (binding_lease ex_binding); inst_binding := Some ex_binding;
     inst_idle_since := None; inst_state_since := Some "t0"; inst_health_failures := 0;
     inst_spec_hash := Some "0123456789abcdef";
     created_with := Some {| created_pool_uid := Some "pool-uid";
       created_backend := Some (backend ex_binding); created_backend_type := Some K3s |};
     inst_creation_manifest := None; inst_message := None; inst_conditions := [] |}.

Definition ex_inst : ClusterInstance :=
  {| inst_metadata := ex_meta "pool-p-0" "instance-uid"
       [{| owner_api_version := "kobe.kunobi.ninja/v1alpha1"; owner_kind := "ClusterPool";
           owner_name := "p"; owner_uid := "pool-uid" |}];
     inst_pool_ref := Some (binding_pool ex_binding); inst_status := Some ex_inst_status |}.

Definition ex_pool : BackendPool :=
  {| pool_metadata := ex_meta "p" "pool-uid" []; pool_backend := Some (backend ex_binding) |}.

Definition ex_get {A} (n : string) (a : A) (asked : string) : Lookup A :=
  if String.eqb asked n then Found a else NotFound.

Definition ex_resolve (mode : BindingResolveMode) : result ResolvedLeaseBinding BindingResolutionError :=
  resolve_lease_binding ex_rfc3339 (fun _ => Some ex_digest) (ex_get "lease-1" ex_lease)
    (ex_get "pool-p-0" ex_inst) (ex_get "p" ex_pool) 0 "kobe" "lease-1" "lease-uid" mode.

Definition ex_resolved : ResolvedLeaseBinding :=
  {| resolved_lease := ex_lease; resolved_instance := ex_inst; resolved_pool := ex_pool;
     resolved_binding := ex_binding |}.

(** Witness. *)
Lemma access_resolves_exact_live_pair_witness : ex_resolve Lifecycle = Ok ex_resolved.
Proof.
  apply (access_resolves_exact_live_pair ex_rfc3339 (fun _ => Some ex_digest)
    (ex_get "lease-1" ex_lease) (ex_get "pool-p-0" ex_inst) (ex_get "p" ex_pool) 0 "kobe" "lease-1"
    "lease-uid" ex_resolved). by vm_compute.
Defined.

(** Witness. *)
Lemma access_excludes_teardown_witness :
  verify_instance_teardown ex_rfc3339 (ex_get "lease-1" ex_lease) 0 ex_inst = Err LeaseStillBound.
Proof.
  apply (access_excludes_teardown ex_rfc3339 (fun _ => Some ex_digest)
    (ex_get "lease-1" ex_lease) (ex_get "pool-p-0" ex_inst) (ex_get "p" ex_pool) 0 "kobe" "lease-1"
    "lease-uid" ex_resolved).
  - intros n i. unfold ex_get. destruct (String.eqb_spec n "pool-p-0") as [->|]; [|done].
    by intros [= <-].
  - by vm_compute.
Defined.
