(* ===== verification/InstanceRecovery.v ===== *)
(** * InstanceRecovery: reclaiming a leased instance

    Model of the leased branch of [src/controllers/instance.rs]: what the
    instance controller decides for a [Leased] instance
    ([evaluate_leased_instance]) and the optimistic write loop that carries it
    out ([patch_exact_binding_transition]).  The apiserver applies a JSON Patch
    only if all its [test] operations hold; between any two requests other
    writers may have changed the object in any way. *)

From S2P Require Import Prelude Text Teardown Receipts StateMachine Objects LeaseBinding.
Open Scope kobe_scope.

(** ** Conditions *)

Definition phase_reason (p : ClusterInstancePhase.t) : string :=
  match p with
  | ClusterInstancePhase.Creating => "Creating"
  | ClusterInstancePhase.Ready => "Ready"
  | ClusterInstancePhase.Leased => "Leased"
  | ClusterInstancePhase.Recycling => "Recycling"
  | ClusterInstancePhase.Unhealthy => "Unhealthy"
  | ClusterInstancePhase.Failed => "Failed"
  | ClusterInstancePhase.Quarantined => "Quarantined"
  end.

Definition bool_status (b : bool) : string := if b then "True" else "False".

Definition build_condition (prev : list ClusterInstanceCondition) (now : string)
    (ctype new_status rsn msg : string) : ClusterInstanceCondition :=
  let kept :=
    c ← List.find (fun c => String.eqb (condition_type c) ctype) prev;
    if String.eqb (condition_status c) new_status then last_transition_time c else None in
  {| condition_type := ctype; condition_status := new_status; condition_reason := rsn;
     condition_message := msg;
     last_transition_time := match kept with Some t => Some t | None => Some now end |}.

Definition derive_instance_conditions (st : ClusterInstanceStatus)
    (prev : list ClusterInstanceCondition) (now : string) : list ClusterInstanceCondition :=
  let message := default "" (inst_message st) in
  let is_ready := bool_decide (inst_phase st = ClusterInstancePhase.Ready)
                  || bool_decide (inst_phase st = ClusterInstancePhase.Leased) in
  let phase := phase_reason (inst_phase st) in
  let build := build_condition prev now in
  [build "Provisioned" (bool_status (provisioned st))
     (if provisioned st then "Provisioned" else phase) message;
   build "Ready" (bool_status is_ready) phase message;
   build "Bootstrapped" (bool_status (bootstrapped st))
     (if bootstrapped st then "Bootstrapped" else phase) message].

(** ** Transitions *)

Inductive ExactBindingTransition : Type :=
| TRecycleTerminalLease (lease_name : string) (phase : ClusterLeasePhase.t) (transitioned_at : string)
| TReleaseOrphan (transitioned_at : string).

Definition transition_kind (t : ExactBindingTransition) : RecoveryTransition :=
  match t with
  | TRecycleTerminalLease _ _ _ => RecycleTerminalLease
  | TReleaseOrphan _ => ReleaseOrphan
  end.

(** [ExactBindingTransition::apply] *)
Definition transition_apply (t : ExactBindingTransition) (st : ClusterInstanceStatus)
    : ClusterInstanceStatus :=
  match t with
  | TRecycleTerminalLease lease_name phase at_ =>
      {| inst_phase := ClusterInstancePhase.Recycling; provisioned := provisioned st;
         bootstrapped := bootstrapped st; lease_ref := lease_ref st; inst_binding := inst_binding st;
         inst_idle_since := None; inst_state_since := Some at_;
         inst_health_failures := inst_health_failures st; inst_spec_hash := inst_spec_hash st;
         created_with := created_with st;
         inst_creation_manifest := inst_creation_manifest st;
         inst_message := Some ("recycling: exact lease '" +:+ lease_name +:+ "' is "
                               +:+ ClusterLeasePhase.display phase);
         inst_conditions := inst_conditions st |}
  | TReleaseOrphan at_ =>
      {| inst_phase := ClusterInstancePhase.Ready; provisioned := provisioned st;
         bootstrapped := bootstrapped st; lease_ref := None; inst_binding := None;
         inst_idle_since := Some at_; inst_state_since := Some at_;
         inst_health_failures := inst_health_failures st;
         inst_spec_hash := inst_spec_hash st; created_with := created_with st;
         inst_creation_manifest := inst_creation_manifest st;
         inst_message := Some "ready; exact orphan reservation released";
         inst_conditions := inst_conditions st |}
  end.

(** [patch_operations]: the fields the patch writes, taken from [next]; the
    others keep the stored value. *)
Definition patched_status (t : ExactBindingTransition) (next stored : ClusterInstanceStatus)
    : ClusterInstanceStatus :=
  let release := match t with TReleaseOrphan _ => true | _ => false end in
  {| inst_phase := inst_phase next; provisioned := provisioned stored;
     bootstrapped := bootstrapped stored;
     lease_ref := if release then None else lease_ref stored;
     inst_binding := if release then None else inst_binding stored;
     inst_idle_since := inst_idle_since next; inst_state_since := inst_state_since next;
     inst_health_failures := inst_health_failures stored;
     inst_spec_hash := inst_spec_hash stored; created_with := created_with stored;
         inst_creation_manifest := inst_creation_manifest stored;
     inst_message := inst_message next; inst_conditions := inst_conditions next |}.

(** ** The write loop *)

Inductive ExactBindingWriteOutcome : Type := WApplied | WAlreadyApplied | WSuperseded.

Inductive InstanceError : Type :=
| MissingUid | MissingResourceVersion | ApiError
| UnreachableCode.  (** the [unreachable!] after the loop *)

(** The fenced patch the loop sends. *)
Record FencedPatch : Type := {
  test_uid : string;
  test_rv : string;
  test_phase : ClusterInstancePhase.t;
  test_binding : LeaseBinding;
  patch_next : ClusterInstanceStatus;
}.

(** Whether the [test] operations hold of the stored object. *)
Definition patch_tests (p : FencedPatch) (o : ClusterInstance) : bool :=
  str_opt_eqb (meta_uid (inst_metadata o)) (Some (test_uid p)) &&
  str_opt_eqb (resource_version (inst_metadata o)) (Some (test_rv p)) &&
  match inst_status o with
  | Some st => bool_decide (inst_phase st = test_phase p) &&
               bool_decide (inst_binding st = Some (test_binding p))
  | None => false
  end.

(** How one [patch_status] request ends. *)
Inductive PatchReply : Type :=
| PatchStored (before after : ClusterInstance)
| PatchConflict  (** [optimistic_conflict]: 409, or 422 without causes *)
| PatchFailed.

(** The server on one patch: [held] is what it stores when the request arrives
    ([None] once deleted), [fault] an error it may return whatever it stores. *)
Definition serve_patch (t : ExactBindingTransition) (p : FencedPatch)
    (held : option ClusterInstance) (fault : option PatchReply) : PatchReply :=
  match fault, held with
  | Some PatchConflict, _ => PatchConflict
  | Some _, _ => PatchFailed
  | None, None => PatchFailed
  | None, Some o =>
      match patch_tests p o, inst_status o with
      | true, Some st =>
          PatchStored o {| inst_metadata := inst_metadata o; inst_pool_ref := inst_pool_ref o;
                           inst_status := Some (patched_status t (patch_next p) st) |}
      | _, _ => PatchConflict
      end
  end.

(** Everything the world does during attempt [k]: what the server holds when
    the patch arrives, its fault, what a re-read returns, and the clock. *)
Record Attempt : Type := {
  held : option ClusterInstance;
  fault : option PatchReply;
  reread : Lookup ClusterInstance;
  clock : string;
}.

(** What the loop returns, and the write it made. *)
Record LoopResult : Type := {
  loop_outcome : result ExactBindingWriteOutcome InstanceError;
  loop_write : option (ClusterInstance * ClusterInstance);
}.

Definition no_write (o : result ExactBindingWriteOutcome InstanceError) : LoopResult :=
  {| loop_outcome := o; loop_write := None |}.

(** One pass per element of [attempts]; the retry guard is
    [attempt < EXACT_BINDING_WRITE_ATTEMPTS]. *)
Fixpoint write_loop (expected_uid : string) (binding : LeaseBinding) (t : ExactBindingTransition)
    (attempts : list Attempt) (current : ClusterInstance) : LoopResult :=
  match attempts with
  | [] => no_write (Err UnreachableCode)
  | a :: rest =>
      if negb (str_opt_eqb (meta_uid (inst_metadata current)) (Some expected_uid))
      then no_write (Ok WSuperseded)
      else
        let st := default default_instance_status (inst_status current) in
        match exact_binding_recovery (recovery_phase (inst_phase st))
                (model_binding_state (inst_binding st) binding) (is_none (lease_ref st))
                (transition_kind t) with
        | AlreadyApplied => no_write (Ok WAlreadyApplied)
        | Superseded => no_write (Ok WSuperseded)
        | Apply =>
            match resource_version (inst_metadata current) with
            | None => no_write (Err MissingResourceVersion)
            | Some rv =>
                let applied := transition_apply t st in
                let next :=
                  {| inst_phase := inst_phase applied; provisioned := provisioned applied;
                     bootstrapped := bootstrapped applied; lease_ref := lease_ref applied;
                     inst_binding := inst_binding applied;
                     inst_idle_since := inst_idle_since applied;
                     inst_state_since := inst_state_since applied;
                     inst_health_failures := inst_health_failures applied;
                     inst_spec_hash := inst_spec_hash applied; created_with := created_with applied;
         inst_creation_manifest := inst_creation_manifest applied;
                     inst_message := inst_message applied;
                     inst_conditions :=
                       derive_instance_conditions applied (inst_conditions st) (clock a) |} in
                let patch := {| test_uid := expected_uid; test_rv := rv; test_phase := inst_phase st;
                                test_binding := binding; patch_next := next |} in
                match serve_patch t patch (held a) (fault a) with
                | PatchStored before after =>
                    {| loop_outcome := Ok WApplied; loop_write := Some (before, after) |}
                | PatchConflict =>
                    match rest with
                    | [] => no_write (Err ApiError)
                    | _ =>
                        match reread a with
                        | Found o => write_loop expected_uid binding t rest o
                        | _ => no_write (Err ApiError)
                        end
                    end
                | PatchFailed => no_write (Err ApiError)
                end
            end
        end
  end.

Definition EXACT_BINDING_WRITE_ATTEMPTS : nat := 3.

Definition patch_exact_binding_transition (inst : ClusterInstance) (binding : LeaseBinding)
    (t : ExactBindingTransition) (world : nat -> Attempt) : LoopResult :=
  match meta_uid (inst_metadata inst) with
  | None => no_write (Err MissingUid)
  | Some expected_uid =>
      write_loop expected_uid binding t (map world (seq 0 EXACT_BINDING_WRITE_ATTEMPTS)) inst
  end.

(** ** Deciding *)

(** What [evaluate_leased_instance] does: record a message on the unverifiable
    instance, run a transition, or wait; each with its requeue in seconds. *)
Inductive LeasedDecision : Type :=
| KeepUnavailable (message : string) (requeue_secs : Z)
| RunTransition (t : ExactBindingTransition) (requeue_secs : Z)
| Wait (requeue_secs : Z).

Section Decide.
Context (parse_from_rfc3339 : string -> option Z)
  (manifest_digest : TeardownCreationManifest -> option string).
Context (leases : string -> Lookup ClusterLease) (instances : string -> Lookup ClusterInstance)
  (pools : string -> Lookup BackendPool).

Definition reservation_grace_elapsed (state_since : option string) (now grace : Z) : bool :=
  match state_since ≫= parse_from_rfc3339 with
  | Some since => grace <=? now - since
  | None => false
  end.

Definition terminating (p : ClusterLeasePhase.t) : bool :=
  match p with
  | ClusterLeasePhase.Released | ClusterLeasePhase.Expired | ClusterLeasePhase.Recycling => true
  | _ => false
  end.

Definition evaluate_leased_instance (now : Z) (now_rfc3339 : string) (ns : string)
    (st : ClusterInstanceStatus) : LeasedDecision :=
  match inst_binding st with
  | None => KeepUnavailable "binding unverified; unavailable; recycle/quarantine required" 30
  | Some binding =>
      match ref_uid (binding_lease binding) with
      | None => KeepUnavailable "binding unverified: lease UID missing" 30
      | Some lease_uid =>
          if negb (ref_matches (lease_ref st) (binding_lease binding))
          then KeepUnavailable "binding unverified: reciprocal lease reference mismatch" 30
          else
            match resolve_lease_binding parse_from_rfc3339 manifest_digest leases instances pools
                    now ns (ref_name (binding_lease binding)) lease_uid Lifecycle with
            | Ok resolved =>
                let phase := lease_phase (default default_lease_status
                                            (lease_status (resolved_lease resolved))) in
                if terminating phase
                then RunTransition (TRecycleTerminalLease (ref_name (binding_lease binding)) phase now_rfc3339) 10
                else Wait 30
            | Err LeaseNotFound =>
                if reservation_grace_elapsed (inst_state_since st) now (minutes 2)
                then RunTransition (TReleaseOrphan now_rfc3339) 5
                else Wait 30
            | Err e => KeepUnavailable ("binding unverified: " +:+ reason_code e) 30
            end
      end
  end.

(** The pass over a [Leased] instance: the transition the decision asks for, run
    against whatever the other writers do; [None] when there is none. *)
Definition leased_pass (now : Z) (now_rfc3339 : string) (ns : string) (inst : ClusterInstance)
    (world : nat -> Attempt) : option LoopResult :=
  let st := default default_instance_status (inst_status inst) in
  match evaluate_leased_instance now now_rfc3339 ns st, inst_binding st with
  | RunTransition t _, Some binding => Some (patch_exact_binding_transition inst binding t world)
  | _, _ => None
  end.

End Decide.

(** ** The loop writes only the exact leased subject *)

Lemma recovery_apply phase b absent t :
  exact_binding_recovery phase b absent t = Apply -> phase = InstancePhase.Leased /\ b = Expected.
Proof. by destruct t, phase, b, absent. Qed.

Lemma recovery_phase_Leased p : recovery_phase p = InstancePhase.Leased -> p = ClusterInstancePhase.Leased.
Proof. by destruct p. Qed.

Lemma model_binding_Expected o b : model_binding_state o b = Expected <-> o = Some b.
Proof.
  destruct o as [b'|]; cbn; [|done]. case_bool_decide as E; [by subst|]. split; [done|]. by intros [= ->].
Qed.

(** What a write of the loop did. *)
Definition exact_write (expected_uid : string) (binding : LeaseBinding) (t : ExactBindingTransition)
    (before after : ClusterInstance) : Prop :=
  meta_uid (inst_metadata before) = Some expected_uid /\
  inst_metadata after = inst_metadata before /\ inst_pool_ref after = inst_pool_ref before /\
  exists st next,
    inst_status before = Some st /\ inst_phase st = ClusterInstancePhase.Leased /\
    inst_binding st = Some binding /\ inst_status after = Some next /\
    inst_spec_hash next = inst_spec_hash st /\ created_with next = created_with st /\
    match t with
    | TRecycleTerminalLease _ _ _ =>
        inst_phase next = ClusterInstancePhase.Recycling /\ inst_binding next = Some binding /\
        lease_ref next = lease_ref st /\ inst_idle_since next = None
    | TReleaseOrphan _ =>
        inst_phase next = ClusterInstancePhase.Ready /\ inst_binding next = None /\ lease_ref next = None
    end.

Lemma serve_patch_exact t p h f before after binding :
  serve_patch t p h f = PatchStored before after ->
  test_phase p = ClusterInstancePhase.Leased -> test_binding p = binding ->
  inst_phase (patch_next p) = inst_phase (transition_apply t default_instance_status) ->
  inst_idle_since (patch_next p) = inst_idle_since (transition_apply t default_instance_status) ->
  exact_write (test_uid p) binding t before after.
Proof.
  unfold serve_patch. intros H Hp <- Hn Hi.
  destruct f as [[]|], h as [o|]; try done.
  destruct (patch_tests p o) eqn:E, (inst_status o) as [st|] eqn:Est; try done.
  injection H as <- <-. unfold patch_tests in E. rewrite Est in E. bool_props.
  split; [done|]. split; [done|]. split; [done|].
  exists st. eexists. split; [done|]. split; [congruence|]. split; [done|]. split; [done|].
  split; [done|]. split; [done|]. destruct t; cbn in *; auto.
Qed.

Lemma write_loop_exact uid binding t attempts current before after :
  loop_write (write_loop uid binding t attempts current) = Some (before, after) ->
  loop_outcome (write_loop uid binding t attempts current) = Ok WApplied /\
  exact_write uid binding t before after.
Proof.
  revert current. induction attempts as [|a rest IH]; intros current; cbn [write_loop]; [done|].
  destruct (negb _); [done|].
  destruct (exact_binding_recovery _ _ _ _) eqn:Er; [|done..].
  apply recovery_apply in Er as [Hp%recovery_phase_Leased Hb].
  destruct (resource_version _) as [rv|]; [|done].
  destruct (serve_patch _ _ _ _) as [b' a'| |] eqn:Es; [|destruct rest as [|a' rest']; [done|]; destruct (reread a); [apply IH|done..]|done].
  intros [= -> ->]. split; [done|].
  eapply serve_patch_exact in Es; [exact Es|done|done|by destruct t|by destruct t].
Qed.

Lemma write_loop_outcome uid binding t attempts current :
  attempts <> [] ->
  let r := write_loop uid binding t attempts current in
  loop_outcome r <> Err UnreachableCode /\ (loop_outcome r = Ok WApplied -> is_Some (loop_write r)).
Proof.
  cbn zeta. revert current. induction attempts as [|a rest IH]; intros current Hne; [done|].
  cbn [write_loop]. destruct (negb _); [done|].
  destruct (exact_binding_recovery _ _ _ _); [|done..].
  destruct (resource_version _) as [rv|]; [|done].
  destruct (serve_patch _ _ _ _); [by split; [|eauto]| |done].
  destruct rest as [|a' rest']; [done|]. destruct (reread a); [by apply IH|done..].
Qed.

(** The write seen again: the same transition is recognised as done. *)
Lemma write_idempotent uid binding t before after :
  exact_write uid binding t before after ->
  forall a rest, write_loop uid binding t (a :: rest) after = no_write (Ok WAlreadyApplied).
Proof.
  intros (Hu & Hm & _ & st & next & _ & _ & _ & Hn & _ & _ & Ht) a rest.
  cbn [write_loop]. rewrite Hm, Hu. rewrite (proj2 (str_opt_eqb_eq _ _)) by done. cbn [negb].
  rewrite Hn. cbn [from_option id]. destruct t.
  - destruct Ht as (-> & Hb & _). apply (model_binding_Expected _ binding) in Hb. by rewrite Hb.
  - by destruct Ht as (-> & -> & ->).
Qed.

(** ** Theorems *)

(** The exact-binding write is fenced: against arbitrary concurrent writers
    and faults, the loop stores at most one change, reports [Applied] exactly
    when it did, and then the object it replaced was the expected UID, still
    [Leased] with the expected binding.  Recycling keeps the binding and the
    lease reference for teardown, releasing an orphan clears both; running the
    transition again on the stored object finds it already applied; and the
    loop always returns within its three attempts. *)
Theorem exact_binding_write_fenced (inst : ClusterInstance) (binding : LeaseBinding)
    (t : ExactBindingTransition) (world : nat -> Attempt) :
  let r := patch_exact_binding_transition inst binding t world in
  (is_Some (loop_write r) <-> loop_outcome r = Ok WApplied) /\
  loop_outcome r <> Err UnreachableCode /\
  forall before after, loop_write r = Some (before, after) ->
    exists uid, meta_uid (inst_metadata inst) = Some uid /\
      exact_write uid binding t before after /\
      forall world', patch_exact_binding_transition after binding t world'
                     = no_write (Ok WAlreadyApplied).
Proof.
  cbn zeta. unfold patch_exact_binding_transition.
  destruct (meta_uid (inst_metadata inst)) as [uid|]; [|split; [split; [by intros []|done]|done]].
  set (attempts := map world _).
  destruct (write_loop_outcome uid binding t attempts inst) as [H1 H2]; [done|].
  split; [|split; [done|]].
  - split; [|done]. intros [[b a] Hw]. by apply write_loop_exact in Hw as [? _].
  - intros b a Hw. apply write_loop_exact in Hw as [_ Hx]. exists uid. split; [done|].
    split; [done|]. intros world'. pose proof Hx as (Hu & Hm & _).
    rewrite Hm, Hu. change (map world' _) with
      (world' 0%nat :: map world' (seq 1 (pred EXACT_BINDING_WRITE_ATTEMPTS))).
    by eapply write_idempotent.
Qed.

Lemma leased_decision_on_evidence (parse_from_rfc3339 : string -> option Z)
    (manifest_digest : TeardownCreationManifest -> option string)
    (leases : string -> Lookup ClusterLease) (instances : string -> Lookup ClusterInstance)
    (pools : string -> Lookup BackendPool) (now : Z) (now_s ns : string)
    (st : ClusterInstanceStatus) (t : ExactBindingTransition) (requeue : Z) :
  evaluate_leased_instance parse_from_rfc3339 manifest_digest leases instances pools now now_s ns st
    = RunTransition t requeue ->
  exists binding uid,
    inst_binding st = Some binding /\ ref_uid (binding_lease binding) = Some uid /\
    let resolve := resolve_lease_binding parse_from_rfc3339 manifest_digest leases instances pools
                     now ns (ref_name (binding_lease binding)) uid in
    (forall r, resolve Access <> Ok r) /\
    match t with
    | TRecycleTerminalLease _ phase _ =>
        terminating phase = true /\ exists r, resolve Lifecycle = Ok r /\
          lease_phase (default default_lease_status (lease_status (resolved_lease r))) = phase
    | TReleaseOrphan _ =>
        leases (ref_name (binding_lease binding)) = NotFound /\
        exists since, inst_state_since st ≫= parse_from_rfc3339 = Some since /\ minutes 2 <= now - since
    end.
Proof.
  intros Hrun.
  unfold evaluate_leased_instance in Hrun.
  destruct (inst_binding st) as [b|]; [|done]. destruct (ref_uid (binding_lease b)) as [uid|] eqn:Eu; [|done].
  destruct (negb _); [done|]. exists b, uid. split; [done|]. split; [done|]. cbn zeta.
  destruct (resolve_lease_binding _ _ _ _ _ _ _ _ _ Lifecycle) as [r|e] eqn:Er.
  - destruct (terminating _) eqn:Et; [|done]. injection Hrun as <- _. split; [|by eauto].
    intros r' Ha. unfold resolve_lease_binding in Ha, Er. unbind Ha. unbind Er. simplify_eq.
    apply resolve_lease_facts in Hok0 as (_ & _ & _ & H). destruct (H eq_refl) as (_ & s & t & Hs & Hb & _).
    cbn in Et. rewrite Hs in Et. cbn in Et. by rewrite Hb in Et.
  - assert (leases (ref_name (binding_lease b)) = NotFound /\ e = LeaseNotFound) as [Hn ->].
    { destruct e; try done. split; [|done]. clear Hrun. by apply resolve_lease_not_found in Er. }
    unfold reservation_grace_elapsed in Hrun.
    destruct (inst_state_since st ≫= parse_from_rfc3339) as [since|]; [|done].
    destruct (Z.leb_spec (minutes 2) (now - since)); [|done]. injection Hrun as <- _.
    split; [|by eauto]. intros r Ha. unfold resolve_lease_binding in Ha. by rewrite Hn in Ha.
Qed.

(** C32. The pass of the instance controller over a [Leased] instance takes it
    from its tenant only on evidence, and only the instance the evidence is
    about.  Whatever its reads of the lease, the instance and the pool answer
    and whatever other writers do in between, a pass that writes a transition
    found that the lease of the binding does not resolve for access, and either
    resolves as released, expired or recycling (the instance is recycled), or
    does not exist and the two-minute grace has passed (the instance is
    released, not recycled); and the object it overwrites is the one it was
    given, by UID, still [Leased] under exactly that binding. *)
Theorem leased_instance_reclaimed_on_evidence (parse_from_rfc3339 : string -> option Z)
    (manifest_digest : TeardownCreationManifest -> option string)
    (leases : string -> Lookup ClusterLease) (instances : string -> Lookup ClusterInstance)
    (pools : string -> Lookup BackendPool) (now : Z) (now_s ns : string)
    (inst : ClusterInstance) (world : nat -> Attempt) (done_ : LoopResult) (before after : ClusterInstance)
    (Hrun : leased_pass parse_from_rfc3339 manifest_digest leases instances pools now now_s ns inst world = Some done_)
    (Hwrite : loop_write done_ = Some (before, after)) :
  exists st binding uid inst_uid t,
    inst_status inst = Some st /\ inst_binding st = Some binding /\ ref_uid (binding_lease binding) = Some uid /\
    meta_uid (inst_metadata inst) = Some inst_uid /\ exact_write inst_uid binding t before after /\
    let resolve := resolve_lease_binding parse_from_rfc3339 manifest_digest leases instances pools
                     now ns (ref_name (binding_lease binding)) uid in
    (forall r, resolve Access <> Ok r) /\
    match t with
    | TRecycleTerminalLease _ phase _ =>
        terminating phase = true /\ exists r, resolve Lifecycle = Ok r /\
          lease_phase (default default_lease_status (lease_status (resolved_lease r))) = phase
    | TReleaseOrphan _ =>
        leases (ref_name (binding_lease binding)) = NotFound /\
        exists since, inst_state_since st ≫= parse_from_rfc3339 = Some since /\ minutes 2 <= now - since
    end.
Proof.
  unfold leased_pass in Hrun. destruct (inst_status inst) as [st|]; [|done]. cbn [default id] in Hrun.
  destruct (evaluate_leased_instance _ _ _ _ _ _ _ _ st) as [|t requeue|] eqn:Hd; [done| |done].
  destruct (leased_decision_on_evidence _ _ _ _ _ _ _ _ _ _ _ Hd) as (b & uid & Hb & Hu & Hev).
  rewrite Hb in Hrun. injection Hrun as <-. unfold patch_exact_binding_transition in Hwrite.
  destruct (meta_uid (inst_metadata inst)) as [inst_uid|]; [|done]. apply write_loop_exact in Hwrite as [_ Hx].
  by exists st, b, uid, inst_uid, t.
Qed.

(** Witness: an expired lease recycles its instance. *)
Definition ex_expired_lease : ClusterLease :=
  {| lease_metadata := lease_metadata ex_lease; lease_pool_ref := "p"; lease_ttl := "1h"; requester_type := "ci"; lease_cleanup_mode := None;
     lease_status := Some {| lease_phase := ClusterLeasePhase.Expired; cluster_name := None;
       lease_status_binding := Some ex_binding; bound_at := None; expires_at := None; extensions_count := 0;
       lease_max_extensions := 0; connect_token_creation := None; lease_message := None |} |}.

Definition ex_leased_inst : ClusterInstance :=
  let meta := inst_metadata ex_inst in
  {| inst_metadata := {| meta_name := meta_name meta; meta_uid := meta_uid meta; meta_generation := meta_generation meta;
       resource_version := Some "7"; deletion_timestamp := deletion_timestamp meta;
       owner_references := owner_references meta |};
     inst_pool_ref := inst_pool_ref ex_inst; inst_status := inst_status ex_inst |}.

Definition ex_calm : nat -> Attempt :=
  fun _ => {| held := Some ex_leased_inst; fault := None; reread := NotFound; clock := "t0" |}.

Definition ex_pass : option LoopResult :=
  leased_pass ex_rfc3339 (fun _ => Some ex_digest) (ex_get "lease-1" ex_expired_lease)
    (ex_get "pool-p-0" ex_leased_inst) (ex_get "p" ex_pool) 0 "t0" "kobe" ex_leased_inst ex_calm.

Lemma leased_instance_reclaimed_on_evidence_witness :
  exists before after, ex_pass = Some {| loop_outcome := Ok WApplied; loop_write := Some (before, after) |} /\
    exists binding t, exact_write "instance-uid" binding t before after.
Proof.
  destruct ex_pass as [[o [[before after]|]]|] eqn:E; [|by vm_compute in E..].
  assert (o = Ok WApplied) as -> by (vm_compute in E; by injection E as <-).
  exists before, after. split; [done|].
  destruct (leased_instance_reclaimed_on_evidence _ _ _ _ _ _ _ _ _ _ _ _ _ E eq_refl)
    as (st & b & uid & inst_uid & t & _ & _ & _ & Hi & Hx & _).
  injection Hi as <-. by exists b, t.
Defined.
