(* ===== verification/Cidr.v ===== *)
(** * Cidr: carving address blocks into slots

    Model of [src/pool/cidr_alloc.rs].  An IPv4 address is a [u32] as a [Z];
    masks and strides are computed with the shifts of the source, wrapped to
    32 bits; CIDR strings are parsed and printed as [std::net::Ipv4Addr] and
    [u8::from_str] do. *)

From S2P Require Import Prelude Text.
Open Scope kobe_scope.

(** ** Addresses as text *)

(** One octet of [Ipv4Addr::from_str]: one to three digits, no leading zero,
    at most 255. *)
Definition parse_octet (s : string) : option Z :=
  match s with
  | "" => None
  | String c rest =>
      if 3 <? str_len s then None
      else if Ascii.eqb c "0" && negb (String.eqb rest "") then None
      else v ← digits_value 0 s; if v <=? 255 then Some v else None
  end.

Definition parse_ipv4 (s : string) : option Z :=
  match split_char "." s with
  | [a; b; c; d] =>
      a ← parse_octet a; b ← parse_octet b; c ← parse_octet c; d ← parse_octet d;
      Some (((a * 256 + b) * 256 + c) * 256 + d)
  | _ => None
  end.

(** [Display for Ipv4Addr] *)
Definition show_ipv4 (ip : Z) : string :=
  show_uint (ip / 16777216) +:+ "." +:+ show_uint (ip / 65536 mod 256) +:+ "." +:+
  show_uint (ip / 256 mod 256) +:+ "." +:+ show_uint (ip mod 256).

Inductive PoolPlanError : Type :=
| Malformed (s : string)
| BadAddr (s : string)
| BadPrefix (s : string)
| SlotPrefixTooSmall (block slot : Z)
| SlotPrefixTooBig (slot : Z)
| BlockPrefixTooBig (block : Z)
| Unaligned (s : string)
| BlocksOverlap (service cluster : string).

Definition parse_cidr (s : string) : result (Z * Z) PoolPlanError :=
  let? (addr_s, prefix_s) := ok_or (split_once "/" s) (Malformed s) in
  let? addr := ok_or (parse_ipv4 addr_s) (BadAddr addr_s) in
  let? prefix := ok_or (parse_uint u8_max prefix_s) (BadPrefix prefix_s) in
  Ok (addr, prefix).

(** ** Blocks *)

Record Block : Type := { network : Z; block_prefix : Z; slot_prefix : Z }.

Record PoolPlan : Type := { service : Block; cluster : Block }.

Definition block_mask (prefix : Z) : Z :=
  if prefix =? 0 then 0 else u32_wrap (Z.shiftl u32_max (32 - prefix)).

(** [Block::parse] *)
Definition parse_block (block : string) (slot_prefix : Z) : result Block PoolPlanError :=
  let? (addr, prefix) := parse_cidr block in
  let? _ := deny_if (32 <? prefix) (BlockPrefixTooBig prefix) in
  let? _ := deny_if (32 <? slot_prefix) (SlotPrefixTooBig slot_prefix) in
  let? _ := deny_if (slot_prefix <? prefix) (SlotPrefixTooSmall prefix slot_prefix) in
  let? _ := deny_if (negb (Z.land addr (block_mask prefix) =? addr)) (Unaligned block) in
  Ok {| network := addr; block_prefix := prefix; slot_prefix := slot_prefix |}.

Definition show_cidr (ip prefix : Z) : string := show_ipv4 ip +:+ "/" +:+ show_uint prefix.

Definition block_cidr (b : Block) : string := show_cidr (network b) (block_prefix b).

Definition range (b : Block) : Z * Z :=
  (network b, network b + Z.shiftl 1 (32 - block_prefix b)).

Definition overlaps (a b : Block) : bool :=
  let '(a0, a1) := range a in
  let '(b0, b1) := range b in
  (a0 <? b1) && (b0 <? a1).

Definition block_capacity (b : Block) : Z :=
  let bits := slot_prefix b - block_prefix b in
  if 32 <=? bits then u32_max else Z.shiftl 1 bits.

(** [1u32 << (32 - slot_prefix)]; the release build masks the shift amount. *)
Definition stride (b : Block) : Z := u32_wrap (Z.shiftl 1 ((32 - slot_prefix b) mod 32)).

(** The network address [cidr_at] prints. *)
Definition slot_network (b : Block) (slot : Z) : Z :=
  u32_add (network b) (u32_wrap (slot * stride b)).

Definition cidr_at (b : Block) (slot : Z) : string :=
  show_cidr (slot_network b slot) (slot_prefix b).

Definition slot_of (b : Block) (cidr : string) : option Z :=
  match parse_cidr cidr with
  | Err _ => None
  | Ok (addr, prefix) =>
      if negb (prefix =? slot_prefix b) then None
      else if negb (Z.land addr (block_mask (block_prefix b)) =? network b) then None
      else
        let offset := u32_wrap (addr - network b) in
        if negb (offset mod stride b =? 0) then None else Some (offset / stride b)
  end.

(** ** Plans *)

Definition new_plan (service_block : string) (service_prefix : Z) (cluster_block : string)
    (cluster_prefix : Z) : result PoolPlan PoolPlanError :=
  let? s := parse_block service_block service_prefix in
  let? c := parse_block cluster_block cluster_prefix in
  let? _ := deny_if (overlaps s c) (BlocksOverlap (block_cidr s) (block_cidr c)) in
  Ok {| service := s; cluster := c |}.

Definition capacity (p : PoolPlan) : Z := Z.min (block_capacity (service p)) (block_capacity (cluster p)).

(** [(0..cap).find_map(..)], from [slot] with [fuel] slots left. *)
Fixpoint find_free (p : PoolPlan) (used_svc used_cls : list string) (slot : Z) (fuel : nat)
    : option (Z * string * string) :=
  match fuel with
  | O => None
  | S fuel =>
      let svc := cidr_at (service p) slot in
      let cls := cidr_at (cluster p) slot in
      if existsb (String.eqb svc) used_svc || existsb (String.eqb cls) used_cls
      then find_free p used_svc used_cls (slot + 1) fuel
      else Some (slot, svc, cls)
  end.

Definition pick_first_free (p : PoolPlan) (used_svc used_cls : list string)
    : option (Z * string * string) :=
  find_free p used_svc used_cls 0 (Z.to_nat (capacity p)).

(** The constant of [ipam_plan]; [new_plan] accepts it. *)
Definition ipam_plan : PoolPlan :=
  match new_plan "10.240.0.0/13" 20 "10.248.0.0/13" 20 with
  | Ok p => p
  | Err _ => {| service := {| network := 0; block_prefix := 0; slot_prefix := 0 |};
                cluster := {| network := 0; block_prefix := 0; slot_prefix := 0 |} |}
  end.

Example ipam_plan_slots :
  block_cidr (service ipam_plan) = "10.240.0.0/13" /\ block_cidr (cluster ipam_plan) = "10.248.0.0/13" /\
  capacity ipam_plan = 128 /\ cidr_at (service ipam_plan) 127 = "10.247.240.0/20" /\
  slot_of (cluster ipam_plan) "10.248.16.0/20" = Some 1 /\
  slot_of (cluster ipam_plan) "10.248.17.0/20" = None /\ parse_ipv4 "10.01.0.0" = None.
Proof. by vm_compute. Qed.

(** ** Text round trips *)

Lemma digits_value_show_uint n : 0 <= n -> digits_value 0 (show_uint n) = Some n.
Proof.
  intros Hn. rewrite <- (app_nil_str (show_uint n)), digits_value_show by done. cbn.
  done.
Qed.

Lemma parse_octet_show n : 0 <= n <= 255 -> parse_octet (show_uint n) = Some n.
Proof.
  intros Hn.
  assert (forallb (fun k => opt_eqb Z.eqb (parse_octet (show_uint (Z.of_nat k))) (Some (Z.of_nat k)))
            (seq 0 256) = true) as H by (by vm_compute).
  rewrite forallb_forall in H. specialize (H (Z.to_nat n)). rewrite Z2Nat.id in H by lia.
  apply (opt_eqb_eq Z.eqb Z.eqb_eq), H, in_seq. lia.
Qed.

Lemma split_char_cons c l r :
  all_bytes (fun a => negb (Ascii.eqb a c)) l = true ->
  split_char c (l +:+ String c r) = l :: split_char c r.
Proof.
  induction l as [|a l IH]; cbn; [by rewrite Ascii.eqb_refl|].
  intros [Ha Hl]%andb_true_iff. apply negb_true_iff in Ha. by rewrite Ha, IH.
Qed.

Lemma split_char_last c l :
  all_bytes (fun a => negb (Ascii.eqb a c)) l = true -> split_char c l = [l].
Proof.
  induction l as [|a l IH]; cbn; [done|].
  intros [Ha Hl]%andb_true_iff. apply negb_true_iff in Ha. by rewrite Ha, IH.
Qed.

(** A decimal number contains none of the separators. *)
Lemma show_uint_no_sep n c :
  0 <= n -> is_ascii_digit c = false -> all_bytes (fun a => negb (Ascii.eqb a c)) (show_uint n) = true.
Proof.
  intros Hn Hc. eapply all_bytes_impl; [|by apply show_uint_all_digits].
  intros a Ha. destruct (Ascii.eqb_spec a c) as [->|]; [congruence|done].
Qed.

#[local] Arguments show_uint : simpl never.

Lemma ipv4_octets ip :
  0 <= ip < 4294967296 ->
  0 <= ip / 16777216 <= 255 /\ 0 <= ip / 65536 mod 256 <= 255 /\ 0 <= ip / 256 mod 256 <= 255 /\
  0 <= ip mod 256 <= 255 /\
  ((ip / 16777216 * 256 + ip / 65536 mod 256) * 256 + ip / 256 mod 256) * 256 + ip mod 256 = ip.
Proof.
  intros Hip.
  pose proof (Z.div_mod ip 256). pose proof (Z.div_mod (ip / 256) 256). pose proof (Z.div_mod (ip / 65536) 256).
  pose proof (Z.mod_pos_bound ip 256). pose proof (Z.mod_pos_bound (ip / 256) 256).
  pose proof (Z.mod_pos_bound (ip / 65536) 256).
  assert (ip / 256 / 256 = ip / 65536) by (by rewrite Z.div_div by lia).
  assert (ip / 65536 / 256 = ip / 16777216) by (by rewrite Z.div_div by lia).
  pose proof (Z.div_lt_upper_bound ip 16777216 256). pose proof (Z.div_pos ip 16777216). lia.
Qed.

Lemma parse_ipv4_show ip : 0 <= ip < 4294967296 -> parse_ipv4 (show_ipv4 ip) = Some ip.
Proof.
  intros Hip. destruct (ipv4_octets ip Hip) as (Ha & Hb & Hc & Hd & Hsum).
  unfold parse_ipv4, show_ipv4. cbn [String.append].
  rewrite !split_char_cons by (apply show_uint_no_sep; [lia|done]).
  rewrite split_char_last by (apply show_uint_no_sep; [lia|done]).
  rewrite !parse_octet_show by lia. cbn. by rewrite Hsum.
Qed.

Lemma show_ipv4_no_slash ip :
  0 <= ip < 4294967296 -> all_bytes (fun a => negb (Ascii.eqb a "/")) (show_ipv4 ip) = true.
Proof.
  intros Hip. destruct (ipv4_octets ip Hip) as (Ha & Hb & Hc & Hd & _). unfold show_ipv4.
  rewrite !all_bytes_app, !show_uint_no_sep by (lia || done). done.
Qed.

Lemma parse_show_cidr ip prefix :
  0 <= ip < 4294967296 -> 0 <= prefix <= 255 -> parse_cidr (show_cidr ip prefix) = Ok (ip, prefix).
Proof.
  intros Hip Hp. unfold parse_cidr, show_cidr. cbn [String.append].
  rewrite split_once_app by (by apply show_ipv4_no_slash). cbn [ok_or].
  rewrite parse_ipv4_show by done. cbn [ok_or]. by rewrite parse_uint_show.
Qed.

(** ** Blocks as intervals *)

(** The size of a slot, and the addresses a slot covers. *)
Definition slot_size (b : Block) : Z := 2 ^ (32 - slot_prefix b).

Definition in_slot (b : Block) (slot a : Z) : Prop :=
  slot_network b slot <= a < slot_network b slot + slot_size b.

(** A block of an accepted plan: in range, prefixes ordered and at least 1,
    aligned. *)
Record wf_block (b : Block) : Prop := {
  wf_network : 0 <= network b < 4294967296;
  wf_prefix : 1 <= block_prefix b <= slot_prefix b;
  wf_slot : slot_prefix b <= 32;
  wf_aligned : network b mod 2 ^ (32 - block_prefix b) = 0;
}.

Lemma block_mask_spec p : 1 <= p <= 32 -> block_mask p = Z.shiftl (Z.ones p) (32 - p).
Proof.
  intros Hp. unfold block_mask. rewrite (proj2 (Z.eqb_neq p 0)) by lia.
  rewrite Z.ones_equiv, !Z.shiftl_mul_pow2 by lia. unfold u32_wrap, u32_max.
  assert (2 ^ p * 2 ^ (32 - p) = 4294967296) as E by (rewrite <- Z.pow_add_r by lia; by replace (p + (32 - p)) with 32 by lia).
  pose proof (Z.pow_pos_nonneg 2 (32 - p)). pose proof (Z.pow_pos_nonneg 2 p).
  symmetry. apply (Z.mod_unique _ _ (2 ^ (32 - p) - 1)); nia.
Qed.

Lemma land_block_mask a p :
  0 <= a < 4294967296 -> 1 <= p <= 32 -> Z.land a (block_mask p) = a - a mod 2 ^ (32 - p).
Proof.
  intros Ha Hp. rewrite block_mask_spec by done.
  assert (Z.land a (Z.shiftl (Z.ones p) (32 - p)) = Z.shiftl (Z.land (Z.shiftr a (32 - p)) (Z.ones p)) (32 - p)) as ->.
  { apply Z.bits_inj'. intros n Hn. rewrite Z.land_spec, !Z.shiftl_spec by lia.
    rewrite Z.land_spec. destruct (Z.le_gt_cases (32 - p) n).
    - rewrite Z.shiftr_spec by lia. by replace (n - (32 - p) + (32 - p)) with n by lia.
    - rewrite (Z.testbit_neg_r _ (n - (32 - p))) by lia. by rewrite !andb_false_r. }
  rewrite Z.land_ones, Z.shiftr_div_pow2, Z.shiftl_mul_pow2 by lia.
  assert (2 ^ p * 2 ^ (32 - p) = 4294967296) as E by (rewrite <- Z.pow_add_r by lia; by replace (p + (32 - p)) with 32 by lia).
  pose proof (Z.pow_pos_nonneg 2 (32 - p)). 
  assert (0 <= a / 2 ^ (32 - p) < 2 ^ p).
  { split; [apply Z.div_pos; lia|]. apply Z.div_lt_upper_bound; lia. }
  rewrite Z.mod_small by lia. pose proof (Z.div_mod a (2 ^ (32 - p))). lia.
Qed.

Section Block.
Context (b : Block) (Hwf : wf_block b).

Lemma stride_slot_size : stride b = slot_size b.
Proof.
  destruct Hwf. unfold stride, slot_size. rewrite Z.mod_small by lia.
  rewrite Z.shiftl_mul_pow2, Z.mul_1_l by lia. unfold u32_wrap. apply Z.mod_small.
  pose proof (Z.pow_pos_nonneg 2 (32 - slot_prefix b)). split; [lia|].
  apply (Z.lt_le_trans _ (2 ^ 32)); [apply Z.pow_lt_mono_r; lia|done].
Qed.

Lemma capacity_slots : block_capacity b * slot_size b = 2 ^ (32 - block_prefix b) /\ 0 < slot_size b.
Proof.
  destruct Hwf. unfold block_capacity, slot_size. destruct (Z.leb_spec 32 (slot_prefix b - block_prefix b)); [lia|].
  rewrite Z.shiftl_mul_pow2, Z.mul_1_l by lia. split; [|apply Z.pow_pos_nonneg; lia].
  rewrite <- Z.pow_add_r by lia. f_equal. lia.
Qed.

(** The parent block lies in the address space. *)
Lemma block_fits : network b + 2 ^ (32 - block_prefix b) <= 4294967296.
Proof.
  destruct Hwf. set (k := 32 - block_prefix b) in *.
  assert (2 ^ (32 - k) * 2 ^ k = 4294967296) as E.
  { rewrite <- Z.pow_add_r by lia. by replace (32 - k + k) with 32 by lia. }
  pose proof (Z.pow_pos_nonneg 2 k). pose proof (Z.div_mod (network b) (2 ^ k)).
  assert (network b / 2 ^ k < 2 ^ (32 - k)) by (apply Z.div_lt_upper_bound; lia). nia.
Qed.

Lemma slot_network_exact s :
  0 <= s < block_capacity b -> slot_network b s = network b + s * slot_size b.
Proof.
  intros Hs. destruct capacity_slots as [Hc Hp]. pose proof block_fits. destruct Hwf.
  unfold slot_network. rewrite stride_slot_size.
  rewrite (u32_wrap_small (s * slot_size b)) by (unfold is_u32, u32_max; nia).
  apply u32_add_small; unfold is_u32, u32_max; nia.
Qed.

Lemma slot_of_cidr_at s : 0 <= s < block_capacity b -> slot_of b (cidr_at b s) = Some s.
Proof.
  intros Hs. destruct capacity_slots as [Hc Hp]. pose proof block_fits. pose proof Hwf as [].
  unfold slot_of, cidr_at. rewrite slot_network_exact by done.
  rewrite parse_show_cidr by nia. cbn [negb]. rewrite Z.eqb_refl. cbn [negb].
  rewrite land_block_mask by nia.
  assert ((network b + s * slot_size b) mod 2 ^ (32 - block_prefix b) = s * slot_size b) as ->.
  { rewrite <- Z.add_mod_idemp_l by lia. rewrite wf_aligned0. apply Z.mod_small. nia. }
  rewrite (proj2 (Z.eqb_eq _ _)) by lia. cbn [negb]. rewrite stride_slot_size.
  replace (network b + s * slot_size b - network b) with (s * slot_size b) by lia.
  rewrite u32_wrap_small by (unfold is_u32, u32_max; nia).
  rewrite Z.mod_mul, Z.div_mul by lia. done.
Qed.

Lemma cidr_at_inj s t :
  0 <= s < block_capacity b -> 0 <= t < block_capacity b -> cidr_at b s = cidr_at b t -> s = t.
Proof.
  intros Hs Ht E. apply slot_of_cidr_at in Hs, Ht. rewrite E in Hs. congruence.
Qed.

Lemma slots_disjoint s t a :
  0 <= s < block_capacity b -> 0 <= t < block_capacity b -> in_slot b s a -> in_slot b t a -> s = t.
Proof.
  intros Hs Ht. destruct capacity_slots as [_ Hp]. unfold in_slot.
  rewrite !slot_network_exact by done. nia.
Qed.

Lemma slot_in_block s a :
  0 <= s < block_capacity b -> in_slot b s a ->
  network b <= a < network b + 2 ^ (32 - block_prefix b).
Proof.
  intros Hs. destruct capacity_slots as [Hc Hp]. unfold in_slot.
  rewrite slot_network_exact by done. nia.
Qed.

End Block.

(** ** Accepted plans *)

Lemma parse_octet_range s v : parse_octet s = Some v -> 0 <= v <= 255.
Proof.
  unfold parse_octet. destruct s as [|c s]; [done|]. repeat (case_match; [done|]).
  destruct (digits_value 0 (String c s)) as [n|] eqn:E; cbn; [|done].
  apply digits_value_nonneg in E; [|done].
  destruct (Z.leb_spec n 255); [|done]. intros [= <-]. lia.
Qed.

Lemma parse_ipv4_range s ip : parse_ipv4 s = Some ip -> 0 <= ip < 4294967296.
Proof.
  unfold parse_ipv4. destruct (split_char "." s) as [|s1 [|s2 [|s3 [|s4 [|? ?]]]]]; try done.
  destruct (parse_octet s1) as [a|] eqn:Ha; cbn; [|done].
  destruct (parse_octet s2) as [b|] eqn:Hb; cbn; [|done].
  destruct (parse_octet s3) as [c|] eqn:Hc; cbn; [|done].
  destruct (parse_octet s4) as [d|] eqn:Hd; cbn; [|done]. intros [= <-].
  apply parse_octet_range in Ha, Hb, Hc, Hd. lia.
Qed.

Lemma parse_cidr_range s ip p : parse_cidr s = Ok (ip, p) -> 0 <= ip < 4294967296 /\ 0 <= p <= 255.
Proof.
  unfold parse_cidr. destruct (ok_or (split_once "/" s) _) as [[x y]|]; [|done].
  destruct (parse_ipv4 x) as [a|] eqn:Ha; [|done]. cbn [ok_or].
  destruct (parse_uint u8_max y) as [q|] eqn:Hq; [|done]. cbn [ok_or]. intros [= -> ->].
  apply parse_ipv4_range in Ha. apply parse_uint_range in Hq. done.
Qed.

(** A parsed block is well formed, unless it is the whole address space. *)
Lemma parse_block_wf s sp b :
  parse_block s sp = Ok b ->
  (wf_block b \/ (block_prefix b = 0 /\ network b = 0)) /\ 0 <= network b < 4294967296 /\ 0 <= block_prefix b <= 32.
Proof.
  unfold parse_block. destruct (parse_cidr s) as [[a p]|] eqn:E; [|done].
  intros H. unbind H. injection H as <-. apply parse_cidr_range in E as [Ha Hp].
  repeat match goal with H : deny_if _ _ = Ok _ |- _ => apply deny_if_Ok in H end. bool_props.
  split; [|cbn; lia]. destruct (Z.eq_dec p 0) as [->|].
  { right. cbn. change (block_mask 0) with 0 in *. rewrite Z.land_0_r in *. done. }
  left.
  rewrite land_block_mask in * by lia. split; cbn; lia.
Qed.

(** A block with prefix 0 overlaps every block, so no accepted plan has one. *)
Lemma new_plan_wf sb sp cb cp p :
  new_plan sb sp cb cp = Ok p ->
  wf_block (service p) /\ wf_block (cluster p) /\ overlaps (service p) (cluster p) = false.
Proof.
  unfold new_plan. intros H. unbind H. injection H as <-. cbn.
  apply parse_block_wf in Hok as (Hs & Hns & Hps), Hok0 as (Hc & Hnc & Hpc).
  apply deny_if_Ok in Hok1. pose proof Hok1 as Hov. unfold overlaps, range in Hok1.
  rewrite !Z.shiftl_mul_pow2, !Z.mul_1_l in Hok1 by lia.
  pose proof (Z.pow_pos_nonneg 2 (32 - block_prefix a)).
  pose proof (Z.pow_pos_nonneg 2 (32 - block_prefix a0)).
  split_and!; [|..|done].
  - destruct Hs as [|[E E']]; [done|]. rewrite E, E' in Hok1.
    change (2 ^ (32 - 0)) with 4294967296 in Hok1. lia.
  - destruct Hc as [|[E E']]; [done|]. rewrite E, E' in Hok1.
    change (2 ^ (32 - 0)) with 4294967296 in Hok1. lia.
Qed.

Lemma find_free_spec p us uc k fuel :
  match find_free p us uc k fuel with
  | Some (s, svc, cls) =>
      k <= s < k + Z.of_nat fuel /\ svc = cidr_at (service p) s /\ cls = cidr_at (cluster p) s /\
      ~ In svc us /\ ~ In cls uc /\
      forall t, k <= t < s -> In (cidr_at (service p) t) us \/ In (cidr_at (cluster p) t) uc
  | None => forall t, k <= t < k + Z.of_nat fuel ->
      In (cidr_at (service p) t) us \/ In (cidr_at (cluster p) t) uc
  end.
Proof.
  assert (forall x l, existsb (String.eqb x) l = true <-> In x l) as Hex.
  { intros x l. rewrite existsb_exists. split; [by intros (y & ? & ->%String.eqb_eq)|].
    intros. exists x. by rewrite String.eqb_refl. }
  revert k. induction fuel as [|fuel IH]; intros k; cbn [find_free]; [lia|].
  destruct (existsb _ us || existsb _ uc) eqn:E.
  - apply orb_true_iff in E. rewrite !Hex in E. specialize (IH (k + 1)).
    destruct (find_free p us uc (k + 1) fuel) as [[[s svc] cls]|].
    + destruct IH as (? & ? & ? & ? & ? & Hlow). split_and!; try done; try lia.
      intros t Ht. destruct (Z.eq_dec t k) as [->|]; [done|]. apply Hlow. lia.
    + intros t Ht. destruct (Z.eq_dec t k) as [->|]; [done|]. apply IH. lia.
  - apply orb_false_iff in E as [E1 E2]. split_and!; try done; try lia.
    + rewrite <- Hex. congruence.
    + rewrite <- Hex. congruence.
Qed.

(** ** Theorems *)

(** An accepted plan hands out disjoint address ranges: over the slots of
    its capacity, two different slots of one axis share no address, a service
    slot and a cluster slot share no address whatever their numbers, and the
    CIDR string of a slot parses back to that slot (so the shifts, wrapping
    additions and the text form lose nothing). *)
Theorem plan_slots_disjoint (sb : string) (sp : Z) (cb : string) (cp : Z) (p : PoolPlan)
    (Hplan : new_plan sb sp cb cp = Ok p) (s t a : Z)
    (Hs : 0 <= s < capacity p) (Ht : 0 <= t < capacity p) :
  (in_slot (service p) s a -> in_slot (service p) t a -> s = t) /\
  (in_slot (cluster p) s a -> in_slot (cluster p) t a -> s = t) /\
  ~ (in_slot (service p) s a /\ in_slot (cluster p) t a) /\
  slot_of (service p) (cidr_at (service p) s) = Some s /\
  slot_of (cluster p) (cidr_at (cluster p) s) = Some s.
Proof.
  destruct (new_plan_wf _ _ _ _ _ Hplan) as (Hws & Hwc & Hov). unfold capacity in *.
  split; [apply slots_disjoint; done || lia|]. split; [apply slots_disjoint; done || lia|].
  split; [|split; apply slot_of_cidr_at; done || lia].
  intros [H1 H2]. pose proof (slot_in_block _ Hws s a ltac:(lia) H1).
  pose proof (slot_in_block _ Hwc t a ltac:(lia) H2).
  unfold overlaps, range in Hov. destruct Hws, Hwc. rewrite !Z.shiftl_mul_pow2, !Z.mul_1_l in Hov by lia. lia.
Qed.

(** Slot picking is first-fit and complete: it returns the lowest slot of
    the plan whose two CIDRs are both unused, with exactly those CIDRs, and
    returns nothing only when every slot has one of its CIDRs in use. *)
Theorem pick_first_free_first_fit (p : PoolPlan) (used_svc used_cls : list string) :
  let blocked t := In (cidr_at (service p) t) used_svc \/ In (cidr_at (cluster p) t) used_cls in
  match pick_first_free p used_svc used_cls with
  | Some (s, svc, cls) =>
      0 <= s < capacity p /\ svc = cidr_at (service p) s /\ cls = cidr_at (cluster p) s /\
      ~ blocked s /\ forall t, 0 <= t < s -> blocked t
  | None => forall t, 0 <= t < capacity p -> blocked t
  end.
Proof.
  cbn zeta. unfold pick_first_free.
  pose proof (find_free_spec p used_svc used_cls 0 (Z.to_nat (capacity p))) as H.
  destruct (find_free _ _ _ _ _) as [[[s svc] cls]|].
  - destruct H as (Hr & -> & -> & ? & ? & ?). split_and!; try done; try lia. by intros [?|?].
  - intros t Ht. apply H. lia.
Qed.

(** Witness. *)
Lemma plan_slots_disjoint_witness :
  slot_of (service ipam_plan) (cidr_at (service ipam_plan) 5) = Some 5.
Proof.
  apply (plan_slots_disjoint "10.240.0.0/13" 20 "10.248.0.0/13" 20 ipam_plan ltac:(by vm_compute) 5 6 0);
    vm_compute; split; done.
Defined.
