(* ===== verification/Ipam.v ===== *)
(** * Ipam: binding CIDR claims

    Model of [src/controllers/ipam.rs] and the claim types of
    [src/crd/cidr.rs].  [reconcile_claim] computes the status patch of one
    claim from the live claims and instances; the controller runs one reconcile
    at a time, so the store evolves by whole reconciles interleaved with users
    creating and deleting claims.  A status patch is a JSON merge patch whose
    [None] fields are not serialized: they leave the stored field alone. *)

From S2P Require Import Prelude Text Cidr.
Open Scope kobe_scope.

Inductive CIDRClaimPhase : Type := Pending | Bound | Conflict.
#[global] Instance CIDRClaimPhase_eq_dec : EqDecision CIDRClaimPhase.
Proof. solve_decision. Defined.

Record CIDRClaimStatus : Type := {
  phase : CIDRClaimPhase;
  service_cidr : option string;
  cluster_cidr : option string;
  bound_at : option string;
  message : option string;
}.

Definition default_claim_status : CIDRClaimStatus :=
  {| phase := Pending; service_cidr := None; cluster_cidr := None; bound_at := None; message := None |}.

Record CIDRClaim : Type := {
  claim_uid : option string;
  requested_service_cidr : option string;
  requested_cluster_cidr : option string;
  claim_status : option CIDRClaimStatus;
  claim_deleting : bool;
}.

(** [ClusterInstanceNetwork] of an instance's status. *)
Record Network : Type := { net_service : string; net_cluster : string }.

Record IpamContext : Type := { plan : PoolPlan; blocked : bool }.

(** ** The plan at startup *)

Record CIDRPoolSpec : Type := {
  pool_service_cidr : string; service_slot_prefix : Z;
  pool_cluster_cidr : string; cluster_slot_prefix : Z;
}.

(** [resolve_ipam_plan]: [pool] is what [get_opt] of the singleton returned,
    [None] standing for a read error. *)
Definition resolve_ipam_plan (pool : option (option CIDRPoolSpec)) : IpamContext :=
  match pool with
  | None | Some None => {| plan := ipam_plan; blocked := false |}
  | Some (Some spec) =>
      match new_plan (pool_service_cidr spec) (service_slot_prefix spec)
              (pool_cluster_cidr spec) (cluster_slot_prefix spec) with
      | Ok p => {| plan := p; blocked := false |}
      | Err _ => {| plan := ipam_plan; blocked := true |}
      end
  end.

(** ** What is in use *)

(** The claims loop of [compute_used]. *)
Definition other_claims (current : CIDRClaim) (claims : list CIDRClaim) : list CIDRClaim :=
  List.filter (fun c => negb (str_opt_eqb (claim_uid c) (claim_uid current) && is_some (claim_uid current)))
    claims.

Definition held (field : CIDRClaimStatus -> option string) (c : CIDRClaim) : option string :=
  claim_status c ≫= field.

Definition compute_used (ctx : IpamContext) (current : CIDRClaim) (claims : list CIDRClaim)
    (instances : list Network) : list string * list string :=
  let others := other_claims current claims in
  let fits b s := is_some (slot_of b s) in
  (omap (held service_cidr) others ++
     List.filter (fits (service (plan ctx))) (map net_service instances),
   omap (held cluster_cidr) others ++
     List.filter (fits (cluster (plan ctx))) (map net_cluster instances)).

Definition validate_static (p : PoolPlan) (svc cls : string) : result unit string :=
  let? svc_slot := ok_or (slot_of (service p) svc)
    ("requestedServiceCidr " +:+ svc +:+ " is not aligned to the plan's service prefix /" +:+
     show_uint (slot_prefix (service p)) +:+ " or is outside the parent block") in
  let? cls_slot := ok_or (slot_of (cluster p) cls)
    ("requestedClusterCidr " +:+ cls +:+ " is not aligned to the plan's cluster prefix /" +:+
     show_uint (slot_prefix (cluster p)) +:+ " or is outside the parent block") in
  deny_if (negb (svc_slot =? cls_slot))
    ("requestedServiceCidr and requestedClusterCidr must be at the same slot index (service " +:+
     svc +:+ " is slot " +:+ show_uint svc_slot +:+ ", cluster " +:+ cls +:+ " is slot " +:+
     show_uint cls_slot +:+ ")").

(** ** Reconcile *)

Inductive ClaimAction : Type := AwaitChange | RequeueSecs (n : Z).

Definition bound_patch (svc cls now : string) : CIDRClaimStatus :=
  {| phase := Bound; service_cidr := Some svc; cluster_cidr := Some cls;
     bound_at := Some now; message := None |}.

Definition conflict_patch (claim : CIDRClaim) (msg : string) : CIDRClaimStatus :=
  {| phase := Conflict; service_cidr := claim_status claim ≫= service_cidr;
     cluster_cidr := claim_status claim ≫= cluster_cidr;
     bound_at := claim_status claim ≫= bound_at; message := Some msg |}.

(** The status patch of one reconcile, if it writes one, and the requeue. *)
Definition set_conflict (claim : CIDRClaim) (msg : string) : option CIDRClaimStatus * ClaimAction :=
  (Some (conflict_patch claim msg), RequeueSecs 60).

Definition is_bound (claim : CIDRClaim) : bool :=
  match claim_status claim with Some s => bool_decide (phase s = Bound) | None => false end.

(** The [Allocate] part of [reconcile_claim]; [lists] is what the two [list]
    calls return, [None] when one fails. *)
Definition allocate (ctx : IpamContext) (claim : CIDRClaim)
    (lists : option (list CIDRClaim * list Network)) (now : string)
    : result (option CIDRClaimStatus * ClaimAction) unit :=
  match requested_service_cidr claim, requested_cluster_cidr claim with
  | Some svc, Some cls =>
      match validate_static (plan ctx) svc cls with
      | Err msg => Ok (set_conflict claim msg)
      | Ok _ =>
          let? (claims, instances) := ok_or lists tt in
          let '(used_svc, used_cls) := compute_used ctx claim claims instances in
          if existsb (String.eqb svc) used_svc || existsb (String.eqb cls) used_cls
          then Ok (set_conflict claim ("requested CIDR " +:+ svc +:+ "/" +:+ cls +:+ " already allocated"))
          else Ok (Some (bound_patch svc cls now), AwaitChange)
      end
  | Some _, None | None, Some _ =>
      Ok (set_conflict claim "must pin both requestedServiceCidr and requestedClusterCidr together")
  | None, None =>
      let? (claims, instances) := ok_or lists tt in
      let '(used_svc, used_cls) := compute_used ctx claim claims instances in
      match pick_first_free (plan ctx) used_svc used_cls with
      | Some (_, svc, cls) => Ok (Some (bound_patch svc cls now), AwaitChange)
      | None => Ok (set_conflict claim "IPAM plan is full")
      end
  end.

Definition reconcile_claim (ctx : IpamContext) (claim : CIDRClaim)
    (lists : option (list CIDRClaim * list Network)) (now : string)
    : result (option CIDRClaimStatus * ClaimAction) unit :=
  if claim_deleting claim then Ok (None, AwaitChange)
  else if blocked ctx then
    Ok (set_conflict claim "IPAM is failing closed: CIDRPool/default is invalid. No CIDRs will be allocated until it is corrected and the operator restarts.")
  else if is_bound claim then
    match claim_status claim ≫= service_cidr, claim_status claim ≫= cluster_cidr with
    | Some svc, Some cls =>
        if is_some (slot_of (service (plan ctx)) svc) && is_some (slot_of (cluster (plan ctx)) cls)
        then Ok (None, AwaitChange)
        else Ok (set_conflict claim "previously bound CIDRs no longer fit the IPAM plan; plan may have been narrowed since binding")
    | _, _ => Ok (set_conflict claim "previously bound CIDRs no longer fit the IPAM plan; plan may have been narrowed since binding")
    end
  else allocate ctx claim lists now.

(** ** The store *)

Definition or_keep {A} (new old : option A) : option A := match new with Some a => Some a | None => old end.

(** [Patch::Merge] of a status: a [None] field is not serialized. *)
Definition merge_status (stored : option CIDRClaimStatus) (p : CIDRClaimStatus) : CIDRClaimStatus :=
  let s := default default_claim_status stored in
  {| phase := phase p; service_cidr := or_keep (service_cidr p) (service_cidr s);
     cluster_cidr := or_keep (cluster_cidr p) (cluster_cidr s);
     bound_at := or_keep (bound_at p) (bound_at s); message := or_keep (message p) (message s) |}.

Definition patch_claim (c : CIDRClaim) (p : CIDRClaimStatus) : CIDRClaim :=
  {| claim_uid := claim_uid c; requested_service_cidr := requested_service_cidr c;
     requested_cluster_cidr := requested_cluster_cidr c;
     claim_status := Some (merge_status (claim_status c) p); claim_deleting := claim_deleting c |}.

(** One event at the store of claims: a user creates a claim (under a fresh
    UID) or deletes one, or the controller reconciles one against the whole
    store and whatever instances exist. *)
Inductive ipam_step (ctx : IpamContext) : list CIDRClaim -> list CIDRClaim -> Prop :=
| step_create store c u :
    claim_uid c = Some u -> claim_status c = None -> (forall d, In d store -> claim_uid d <> Some u) ->
    ipam_step ctx store (store ++ [c])
| step_delete l c r : ipam_step ctx (l ++ c :: r) (l ++ r)
| step_reconcile l c r instances now p a :
    reconcile_claim ctx c (Some (l ++ c :: r, instances)) now = Ok (Some p, a) ->
    ipam_step ctx (l ++ c :: r) (l ++ patch_claim c p :: r).

Definition ipam_reachable (ctx : IpamContext) (store : list CIDRClaim) : Prop :=
  rtc (ipam_step ctx) [] store.

(** ** The invariant *)

(** UIDs are present and distinct, and no CIDR string is held twice. *)
Record ipam_inv (store : list CIDRClaim) : Prop := {
  inv_uids : List.NoDup (map claim_uid store) /\ Forall (fun c => is_Some (claim_uid c)) store;
  inv_service : List.NoDup (omap (held service_cidr) store);
  inv_cluster : List.NoDup (omap (held cluster_cidr) store);
}.

(** How a status patch that reconcile writes came about. *)
Inductive patch_origin (ctx : IpamContext) (c : CIDRClaim) (others : list CIDRClaim)
    : CIDRClaimStatus -> Prop :=
| origin_conflict msg : patch_origin ctx c others (conflict_patch c msg)
| origin_bound svc cls now :
    ~ In svc (omap (held service_cidr) others) -> ~ In cls (omap (held cluster_cidr) others) ->
    blocked ctx = false ->
    (exists s, 0 <= s < capacity (plan ctx) /\ svc = cidr_at (service (plan ctx)) s /\
       cls = cidr_at (cluster (plan ctx)) s) \/
    (exists s, requested_service_cidr c = Some svc /\ requested_cluster_cidr c = Some cls /\
       slot_of (service (plan ctx)) svc = Some s /\ slot_of (cluster (plan ctx)) cls = Some s) ->
    patch_origin ctx c others (bound_patch svc cls now).

Lemma existsb_In x l : existsb (String.eqb x) l = true <-> In x l.
Proof.
  rewrite existsb_exists. split; [by intros (y & ? & ->%String.eqb_eq)|].
  intros. exists x. by rewrite String.eqb_refl.
Qed.

Lemma validate_static_Ok p svc cls u :
  validate_static p svc cls = Ok u ->
  exists s, slot_of (service p) svc = Some s /\ slot_of (cluster p) cls = Some s.
Proof.
  unfold validate_static. intros H. unbind H. apply ok_or_Ok in Hok, Hok0. apply deny_if_Ok in H.
  apply negb_false_iff, Z.eqb_eq in H as <-. eauto.
Qed.

Lemma allocate_origin ctx c store insts now p a :
  blocked ctx = false ->
  allocate ctx c (Some (store, insts)) now = Ok (Some p, a) ->
  patch_origin ctx c (other_claims c store) p.
Proof.
  intros Hb. unfold allocate, compute_used. cbn [ok_or].
  destruct (requested_service_cidr c) as [svc|] eqn:Es, (requested_cluster_cidr c) as [cls|] eqn:Ec;
    try (intros [= <- <-]; apply origin_conflict).
  - destruct (validate_static _ svc cls) as [u|] eqn:Ev; [|intros [= <- <-]; apply origin_conflict].
    destruct (existsb _ _ || existsb _ _) eqn:E; [intros [= <- <-]; apply origin_conflict|].
    intros [= <- <-]. apply orb_false_iff in E as [E1 E2].
    apply origin_bound; [| |done|right; apply validate_static_Ok in Ev as (s & ? & ?); eauto].
    + intros Hi. rewrite (proj2 (existsb_In _ _)) in E1; [done|]. apply in_or_app. by left.
    + intros Hi. rewrite (proj2 (existsb_In _ _)) in E2; [done|]. apply in_or_app. by left.
  - match goal with |- context [pick_first_free ?p ?us ?uc] =>
      pose proof (find_free_spec p us uc 0 (Z.to_nat (capacity p))) as H; unfold pick_first_free end.
    destruct (find_free _ _ _ _ _) as [[[s svc] cls]|]; [|intros [= <- <-]; apply origin_conflict].
    intros [= <- <-]. destruct H as (Hs & -> & -> & Hu & Hc & _).
    apply origin_bound; [| |done|left; exists s; split_and!; done || lia].
    + intros Hi. apply Hu, in_or_app. by left.
    + intros Hi. apply Hc, in_or_app. by left.
Qed.

Lemma reconcile_origin ctx c store insts now p a :
  reconcile_claim ctx c (Some (store, insts)) now = Ok (Some p, a) ->
  patch_origin ctx c (other_claims c store) p.
Proof.
  unfold reconcile_claim. destruct (claim_deleting c); [done|].
  destruct (blocked ctx) eqn:Hb; [intros [= <- <-]; apply origin_conflict|].
  destruct (is_bound c); [|by apply allocate_origin].
  destruct (claim_status c ≫= service_cidr), (claim_status c ≫= cluster_cidr);
    try (intros [= <- <-]; apply origin_conflict).
  case_match; [done|]. intros [= <- <-]; apply origin_conflict.
Qed.

(** A conflict patch leaves what the claim holds alone. *)
Lemma held_conflict c msg :
  held service_cidr (patch_claim c (conflict_patch c msg)) = held service_cidr c /\
  held cluster_cidr (patch_claim c (conflict_patch c msg)) = held cluster_cidr c.
Proof.
  unfold held, patch_claim, merge_status, conflict_patch, or_keep. cbn.
  destruct (claim_status c) as [s|]; cbn; [|done]. by destruct (service_cidr s), (cluster_cidr s).
Qed.

Lemma other_claims_middle l c r :
  List.NoDup (map claim_uid (l ++ c :: r)) -> is_Some (claim_uid c) ->
  other_claims c (l ++ c :: r) = l ++ r.
Proof.
  intros Hnd [u Hu]. rewrite map_app in Hnd. cbn in Hnd. pose proof (NoDup_remove_2 _ _ _ Hnd) as Hni.
  unfold other_claims. rewrite List.filter_app. cbn. rewrite Hu.
  rewrite (proj2 (str_opt_eqb_eq (Some u) (Some u)) eq_refl). cbn.
  assert (forall k, (forall d, In d k -> claim_uid d <> Some u) ->
    List.filter (fun c => negb (str_opt_eqb (claim_uid c) (Some u) && true)) k = k) as Hk.
  { induction k as [|d k IH]; cbn; [done|]. intros Hd.
    destruct (str_opt_eqb (claim_uid d) (Some u)) eqn:E.
    - apply str_opt_eqb_eq in E. exfalso. apply (Hd d); auto.
    - cbn. f_equal. auto. }
  rewrite !Hk; [done|..]; intros d Hd E; apply Hni; rewrite Hu, <- E; apply in_or_app;
    [right|left]; by apply in_map.
Qed.

Lemma omap_middle {A} (f : A -> option string) l x r :
  List.NoDup (omap f (l ++ x :: r)) <->
  List.NoDup (omap f (l ++ r)) /\ forall v, f x = Some v -> ~ In v (omap f (l ++ r)).
Proof.
  rewrite <- !NoDup_ListNoDup.
  assert (omap f (l ++ x :: r) ≡ₚ omap f (x :: l ++ r)) as ->
    by (f_equiv; symmetry; apply Permutation_middle).
  cbn [omap list_omap]. destruct (f x) as [v|] eqn:E.
  - change (list_omap A string f (l ++ r)) with (omap f (l ++ r)).
    rewrite NoDup_cons, list_elem_of_In. split; [intros [? ?]; split; [done|by intros ? [= <-]]|].
    intros [? Hv]. split; [by apply Hv|done].
  - split; [intros ?; split; [done|by intros ?]|by intros [? _]].
Qed.

Lemma ipam_inv_step ctx s s' : ipam_step ctx s s' -> ipam_inv s -> ipam_inv s'.
Proof.
  destruct 1 as [store c u Hu Hst Hfresh|l c r|l c r insts now p a Hr]; intros [[Hn Hs] Hsv Hcl].
  - split.
    + rewrite map_app. split; [|apply Forall_app; split; [done|]; constructor; [by rewrite Hu|done]].
      apply NoDup_ListNoDup, NoDup_app. rewrite NoDup_ListNoDup. split_and!; [done| |apply NoDup_singleton].
      intros x (d & <- & Hd)%list_elem_of_In%in_map_iff [E|E]%list_elem_of_In; [|done].
      apply (Hfresh d Hd). by rewrite <- E.
    + rewrite omap_app. cbn. unfold held at 2. rewrite Hst. cbn. by rewrite app_nil_r.
    + rewrite omap_app. cbn. unfold held at 2. rewrite Hst. cbn. by rewrite app_nil_r.
  - split.
    + rewrite map_app in Hn. cbn in Hn. apply NoDup_remove_1 in Hn. rewrite map_app. split; [done|].
      apply Forall_app in Hs as [? [? ?]%Forall_cons]. by apply Forall_app.
    + by apply omap_middle in Hsv as [? _].
    + by apply omap_middle in Hcl as [? _].
  - apply reconcile_origin in Hr. rewrite other_claims_middle in Hr; [|done|].
    2: by apply Forall_app in Hs as [_ [? _]%Forall_cons].
    apply omap_middle in Hsv as [Hsv Hsv'], Hcl as [Hcl Hcl'].
    split.
    + rewrite map_app in *. split; [done|]. apply Forall_app in Hs as [? [? ?]%Forall_cons].
      apply Forall_app. split; [done|]. by constructor.
    + apply omap_middle. split; [done|]. destruct Hr as [msg|svc cls now' H1 H2 _ _].
      * by rewrite (proj1 (held_conflict c msg)).
      * cbn. by intros v [= <-].
    + apply omap_middle. split; [done|]. destruct Hr as [msg|svc cls now' H1 H2 _ _].
      * by rewrite (proj2 (held_conflict c msg)).
      * cbn. by intros v [= <-].
Qed.

Lemma ipam_inv_reachable ctx s : ipam_reachable ctx s -> ipam_inv s.
Proof.
  intros H. assert (ipam_inv []) as H0 by (repeat split; constructor).
  revert H0. unfold ipam_reachable in H. remember [] as s0 eqn:E. clear E.
  induction H as [|x y z Hs _ IH]; [done|]. intros Hi. by eapply IH, ipam_inv_step.
Qed.

(** ** Slots *)

(** A claim holds nothing, or the two CIDRs of one slot of the plan. *)
Definition paired (p : PoolPlan) (c : CIDRClaim) : Prop :=
  (held service_cidr c = None /\ held cluster_cidr c = None) \/
  exists s, 0 <= s < capacity p /\ held service_cidr c = Some (cidr_at (service p) s) /\
    held cluster_cidr c = Some (cidr_at (cluster p) s).

(** A static reservation that writes its CIDRs the way the plan does. *)
Definition canonical_request (p : PoolPlan) (c : CIDRClaim) : Prop :=
  (forall svc s, requested_service_cidr c = Some svc -> slot_of (service p) svc = Some s ->
     svc = cidr_at (service p) s) /\
  (forall cls s, requested_cluster_cidr c = Some cls -> slot_of (cluster p) cls = Some s ->
     cls = cidr_at (cluster p) s).

Lemma slot_of_range b cidr s : wf_block b -> slot_of b cidr = Some s -> 0 <= s < block_capacity b.
Proof.
  intros Hwf. unfold slot_of. destruct (parse_cidr cidr) as [[a p]|] eqn:E; [|done].
  apply parse_cidr_range in E as [Ha _].
  destruct (negb (p =? _)); [done|]. destruct (negb (Z.land _ _ =? _)) eqn:Hl; [done|].
  destruct (negb (_ mod _ =? 0)); [done|]. intros [= <-].
  apply negb_false_iff, Z.eqb_eq in Hl. destruct (capacity_slots b Hwf) as [Hc Hp].
  rewrite stride_slot_size by done. pose proof Hwf as []. rewrite land_block_mask in Hl by lia.
  pose proof (Z.mod_pos_bound a (2 ^ (32 - block_prefix b)) ltac:(apply Z.pow_pos_nonneg; lia)).
  rewrite u32_wrap_small by (unfold is_u32, u32_max; lia).
  split; [apply Z.div_pos; lia|]. apply Z.div_lt_upper_bound; [done|]. nia.
Qed.

Lemma patch_paired ctx c others p :
  wf_block (service (plan ctx)) -> wf_block (cluster (plan ctx)) ->
  patch_origin ctx c others p -> canonical_request (plan ctx) c -> paired (plan ctx) c ->
  paired (plan ctx) (patch_claim c p).
Proof.
  intros Hws Hwc Ho [Hcs Hcc] Hp. destruct Ho as [msg|svc cls now _ _ _ Hor].
  - unfold paired. destruct (held_conflict c msg) as [-> ->]. exact Hp.
  - right. destruct Hor as [(s & Hs & -> & ->)|(s & R1 & R2 & S1 & S2)]; [by exists s|].
    pose proof (slot_of_range _ _ _ Hws S1). pose proof (slot_of_range _ _ _ Hwc S2).
    exists s. split; [unfold capacity; lia|]. rewrite <- (Hcs svc s), <- (Hcc cls s) by done. done.
Qed.

(** Steps in which every created reservation is written canonically. *)
Definition canonical_step (ctx : IpamContext) (s s' : list CIDRClaim) : Prop :=
  ipam_step ctx s s' /\ Forall (canonical_request (plan ctx)) s'.

Definition slot_inv (ctx : IpamContext) (s : list CIDRClaim) : Prop :=
  Forall (canonical_request (plan ctx)) s /\ Forall (paired (plan ctx)) s.

Lemma slot_inv_step ctx s s' :
  wf_block (service (plan ctx)) -> wf_block (cluster (plan ctx)) -> ipam_inv s ->
  canonical_step ctx s s' -> slot_inv ctx s -> slot_inv ctx s'.
Proof.
  intros Hws Hwc Hinv [Hstep Hcan] [Hc Hp]. split; [done|].
  destruct Hstep as [store c u Hu Hst _|l c r|l c r insts now p a Hr].
  - apply Forall_app. split; [done|]. constructor; [|done]. left. unfold held. by rewrite Hst.
  - apply Forall_app in Hp as [? [? ?]%Forall_cons]. by apply Forall_app.
  - apply Forall_app in Hp as [? [? ?]%Forall_cons], Hc as [_ [? _]%Forall_cons].
    apply Forall_app. split; [done|]. constructor; [|done].
    eapply patch_paired; eauto using reconcile_origin.
Qed.

Lemma slot_inv_reachable ctx s :
  wf_block (service (plan ctx)) -> wf_block (cluster (plan ctx)) ->
  rtc (canonical_step ctx) [] s -> ipam_inv s /\ slot_inv ctx s.
Proof.
  intros Hws Hwc H.
  assert (ipam_inv [] /\ slot_inv ctx []) as H0 by (split; repeat split; constructor).
  revert H0. remember [] as s0 eqn:E. clear E.
  induction H as [|x y z Hs _ IH]; [done|]. intros [Hi Hl]. apply IH. split.
  - by eapply ipam_inv_step, Hi; apply Hs.
  - by eapply slot_inv_step, Hl.
Qed.

(** The addresses a claim owns. *)
Definition owns (p : PoolPlan) (c : CIDRClaim) (a : Z) : Prop :=
  exists s, 0 <= s < capacity p /\
    ((held service_cidr c = Some (cidr_at (service p) s) /\ in_slot (service p) s a) \/
     (held cluster_cidr c = Some (cidr_at (cluster p) s) /\ in_slot (cluster p) s a)).

(** Two members of a list whose held values are distinct hold different values. *)
Lemma held_distinct f l (c : CIDRClaim) m d r v :
  List.NoDup (omap (held f) (l ++ c :: m ++ d :: r)) -> held f c = Some v -> held f d <> Some v.
Proof.
  intros Hnd Hc Hd. apply omap_middle in Hnd as [_ Hni]. apply (Hni v Hc).
  rewrite <- list_elem_of_In, list_elem_of_omap. exists d. split; [|done]. set_solver.
Qed.

Lemma resolved_plan_wf pool :
  let p := plan (resolve_ipam_plan pool) in
  wf_block (service p) /\ wf_block (cluster p) /\ overlaps (service p) (cluster p) = false.
Proof.
  assert (new_plan "10.240.0.0/13" 20 "10.248.0.0/13" 20 = Ok ipam_plan) as H by (by vm_compute).
  apply new_plan_wf in H. cbn zeta.
  destruct pool as [[spec|]|]; [|exact H..]. unfold resolve_ipam_plan.
  destruct (new_plan (pool_service_cidr spec) _ _ _) as [p|] eqn:E; [|exact H].
  by apply new_plan_wf in E.
Qed.

(** ** Theorems *)

(** C4. No address is handed out twice: for the plan the operator starts with
    (built-in or from the [CIDRPool] singleton), in every state the store of
    claims reaches from empty by creations, deletions and serialized
    reconciles, with static reservations written canonically, no IP address
    belongs to two different claims, on either axis or across axes. *)
Theorem ipam_no_double_allocation (pool : option (option CIDRPoolSpec))
    (l m r : list CIDRClaim) (c d : CIDRClaim) (a : Z)
    (Hreach : rtc (canonical_step (resolve_ipam_plan pool)) [] (l ++ c :: m ++ d :: r)) :
  ~ (owns (plan (resolve_ipam_plan pool)) c a /\ owns (plan (resolve_ipam_plan pool)) d a).
Proof.
  set (ctx := resolve_ipam_plan pool) in *.
  destruct (resolved_plan_wf pool) as (Hws & Hwc & Hov). fold ctx in Hws, Hwc, Hov.
  destruct (slot_inv_reachable ctx _ Hws Hwc Hreach) as [[_ Hsv Hcl] _].
  intros [(s & Hs & Hc) (t & Ht & Hd)]. unfold capacity in *.
  assert (forall s t, 0 <= s < block_capacity (service (plan ctx)) ->
    0 <= t < block_capacity (cluster (plan ctx)) ->
    in_slot (service (plan ctx)) s a -> in_slot (cluster (plan ctx)) t a -> False) as Hcross.
  { intros s' t' Hs' Ht' H1%slot_in_block H2%slot_in_block; [|done..].
    unfold overlaps, range in Hov. destruct Hws, Hwc.
    rewrite !Z.shiftl_mul_pow2, !Z.mul_1_l in Hov by lia. lia. }
  destruct Hc as [[Hc Ha]|[Hc Ha]], Hd as [[Hd Hb]|[Hd Hb]].
  - apply (held_distinct _ _ _ _ _ _ _ Hsv Hc). rewrite Hd. do 2 f_equal.
    apply (slots_disjoint _ Hws t s a); [lia|lia|exact Hb|exact Ha].
  - eapply Hcross; [| |exact Ha|exact Hb]; lia.
  - eapply Hcross; [| |exact Hb|exact Ha]; lia.
  - apply (held_distinct _ _ _ _ _ _ _ Hcl Hc). rewrite Hd. do 2 f_equal.
    apply (slots_disjoint _ Hwc t s a); [lia|lia|exact Hb|exact Ha].
Qed.

(** ** Claims on the built-in plan *)

Definition ex_claim (u : string) (svc cls : option string) : CIDRClaim :=
  {| claim_uid := Some u; requested_service_cidr := svc; requested_cluster_cidr := cls;
     claim_status := None; claim_deleting := false |}.

Definition ex_ctx : IpamContext := resolve_ipam_plan (Some None).

(** Two claims created and reconciled, one after the other. *)
Lemma two_claims_reach (R : list CIDRClaim -> list CIDRClaim -> Prop) (c d : CIDRClaim)
    (p q : CIDRClaimStatus) u v :
  (forall s s', ipam_step ex_ctx s s' -> (forall x, In x s' -> In x [c; patch_claim c p; d; patch_claim d q]) -> R s s') ->
  claim_uid c = Some u -> claim_uid d = Some v -> u <> v -> claim_status c = None -> claim_status d = None ->
  reconcile_claim ex_ctx c (Some ([c], [])) "t0" = Ok (Some p, AwaitChange) ->
  reconcile_claim ex_ctx d (Some ([patch_claim c p; d], [])) "t0" = Ok (Some q, AwaitChange) ->
  rtc R [] [patch_claim c p; patch_claim d q].
Proof.
  intros HR Hu Hv Hne Hc Hd Hp Hq.
  eapply rtc_l; [apply HR; [eapply (step_create ex_ctx []); [exact Hu|done|done]|cbn; tauto]|].
  eapply rtc_l; [apply HR; [eapply (step_reconcile ex_ctx []); exact Hp|cbn; tauto]|].
  eapply rtc_l; [apply HR; [eapply (step_create ex_ctx [_]); [exact Hv|done|]|cbn; tauto]|].
  { intros x [<-|[]]. cbn. congruence. }
  apply rtc_once, HR; [eapply (step_reconcile ex_ctx [patch_claim c p] d []); exact Hq|cbn; tauto].
Qed.

Definition ex_bound (svc cls : string) : CIDRClaimStatus := bound_patch svc cls "t0".

(** A reservation that is not written canonically is allocated twice: with
    the built-in plan, a claim that pins slot 0 as [10.240.0.0/+20] is bound
    (the plan parses the prefix), yet the textual in-use test does not see
    slot 0 as taken and the next dynamic claim is bound to it as well. *)
Theorem noncanonical_reservation_double_allocates :
  exists c d svc1 svc2, ipam_reachable ex_ctx [c; d] /\
    held service_cidr c = Some svc1 /\ held service_cidr d = Some svc2 /\
    slot_of (service (plan ex_ctx)) svc1 = Some 0 /\ slot_of (service (plan ex_ctx)) svc2 = Some 0.
Proof.
  set (c := ex_claim "a" (Some "10.240.0.0/+20") (Some "10.248.0.0/+20")).
  set (d := ex_claim "b" None None).
  exists (patch_claim c (ex_bound "10.240.0.0/+20" "10.248.0.0/+20")),
    (patch_claim d (ex_bound "10.240.0.0/20" "10.248.0.0/20")), "10.240.0.0/+20", "10.240.0.0/20".
  split; [|by vm_compute].
  apply (two_claims_reach (ipam_step ex_ctx) c d _ _ "a" "b");
    [auto|reflexivity|reflexivity|discriminate|reflexivity|reflexivity|by vm_compute|by vm_compute].
Qed.

Definition ex_first : CIDRClaim :=
  patch_claim (ex_claim "a" None None) (ex_bound "10.240.0.0/20" "10.248.0.0/20").
Definition ex_second : CIDRClaim :=
  patch_claim (ex_claim "b" None None) (ex_bound "10.240.16.0/20" "10.248.16.0/20").

(** Witness. *)
Lemma ipam_no_double_allocation_witness :
  ~ (owns (plan ex_ctx) ex_first 183500800 /\ owns (plan ex_ctx) ex_second 183500800).
Proof.
  apply (ipam_no_double_allocation (Some None) [] [] []). cbn [app].
  apply (two_claims_reach _ (ex_claim "a" None None) (ex_claim "b" None None)
    (ex_bound "10.240.0.0/20" "10.248.0.0/20") (ex_bound "10.240.16.0/20" "10.248.16.0/20") "a" "b");
    [|reflexivity|reflexivity|discriminate|reflexivity|reflexivity|by vm_compute|by vm_compute].
  intros s s' Hstep Hin. split; [exact Hstep|]. apply Forall_forall. intros x Hx%list_elem_of_In%Hin.
  destruct Hx as [<-|[<-|[<-|[<-|[]]]]]; split; discriminate.
Defined.
