(* ===== verification/AdmissionLock.v ===== *)
(** * AdmissionLock: one admission per principal at a time

    Model of [src/api/cluster_admission.rs].  Requests of one principal, on any
    replica, race for one [Lease] object: [create] is serialized by the API
    server on the object name, takeover of an expired lock is a [replace]
    fenced on [resourceVersion], release is a [delete] fenced on UID and
    [resourceVersion].  Requests may crash, and replies may be lost.  Each
    replica judges expiry against its own wall clock. *)

From S2P Require Import Prelude Text.

Definition LOCK_DURATION : Z := seconds 30.
Definition LOCK_SAFE_WINDOW : Z := seconds 10.
Definition LOCK_RETRY_INITIAL : Z := millis 50.
Definition LOCK_RETRY_MAX : Z := seconds 1.

(** [lock_retry_delay]; [jitter_ms] is the random number of
    [0..=half.as_millis()]. *)
Definition retry_step (attempt : Z) : Z :=
  Z.min (LOCK_RETRY_INITIAL * Z.shiftl 1 (Z.min attempt 16)) LOCK_RETRY_MAX.

Definition lock_retry_delay (attempt jitter_ms : Z) : Z := retry_step attempt / 2 + millis jitter_ms.

(** ** The lock object *)

Record LockObject : Type := {
  lock_uid : Z;
  lock_rv : Z;
  renew_time : option Z;
  acquire_time : option Z;
  creation_timestamp : option Z;
  lease_duration_seconds : option Z;
}.

(** [to_micro_time]: timestamps are stored in whole microseconds. *)
Definition to_micro_time (t : Z) : Z := t / 1000 * 1000.

(** [lock_object], as stored under the UID and version the server assigns. *)
Definition lock_object (now uid rv : Z) : LockObject :=
  {| lock_uid := uid; lock_rv := rv; renew_time := Some (to_micro_time now);
     acquire_time := Some (to_micro_time now); creation_timestamp := None;
     lease_duration_seconds := Some 30 |}.

Definition lock_expired (l : LockObject) (now : Z) : bool :=
  let stamp := match renew_time l with
               | Some t => Some t
               | None => match acquire_time l with Some t => Some t | None => creation_timestamp l end
               end in
  let duration := match lease_duration_seconds l with
                  | Some n => if 0 <? n then Some n else None | None => None end in
  match stamp, duration with
  | Some stamp, Some secs => stamp + seconds secs <=? now
  | _, _ => true
  end.

(** ** Requests and the server *)

(** Where a request is in [try_acquire]; [now] and [started] are the wall clock
    and the monotonic clock it read before its first write. *)
Inductive Client : Type :=
| Started (now started : Z)
| SawConflict (now started : Z)
| SawExpired (now started rv : Z)
| Holding (uid rv acquired_at : Z).

(** The whole system at real time [time]: the stored lock, the identifiers the
    server has not assigned yet, and the requests in progress. *)
Record System : Type := {
  time : Z;
  stored : option LockObject;
  next_id : Z;
  clients : gmap nat Client;
}.

Definition with_clients (s : System) (c : gmap nat Client) : System :=
  {| time := time s; stored := stored s; next_id := next_id s; clients := c |}.

Definition write_lock (s : System) (now uid : Z) (c : gmap nat Client) : System :=
  {| time := time s; stored := Some (lock_object now uid (next_id s)); next_id := next_id s + 1; clients := c |}.

Definition clear_lock (s : System) (c : gmap nat Client) : System :=
  {| time := time s; stored := None; next_id := next_id s; clients := c |}.

Section Steps.
(** The offset of each replica's wall clock from real time. *)
Context (skew : nat -> Z).

(** One event.  [step_create] and [step_replace] are the writes that win, with
    their reply received or lost. *)
Inductive lock_step : System -> System -> Prop :=
| step_tick s d : 0 <= d ->
    lock_step s {| time := time s + d; stored := stored s; next_id := next_id s; clients := clients s |}
| step_begin s i : clients s !! i = None ->
    lock_step s (with_clients s (<[i := Started (time s + skew i) (time s)]> (clients s)))
| step_create s i now started : clients s !! i = Some (Started now started) -> stored s = None ->
    lock_step s (write_lock s now (next_id s)
      (<[i := Holding (next_id s) (next_id s) started]> (clients s)))
| step_create_lost s i now started : clients s !! i = Some (Started now started) -> stored s = None ->
    lock_step s (write_lock s now (next_id s) (delete i (clients s)))
| step_conflict s i now started : clients s !! i = Some (Started now started) -> is_Some (stored s) ->
    lock_step s (with_clients s (<[i := SawConflict now started]> (clients s)))
| step_get s i now started l : clients s !! i = Some (SawConflict now started) ->
    stored s = Some l -> lock_expired l now = true ->
    lock_step s (with_clients s (<[i := SawExpired now started (lock_rv l)]> (clients s)))
| step_replace s i now started l : clients s !! i = Some (SawExpired now started (lock_rv l)) ->
    stored s = Some l ->
    lock_step s (write_lock s now (lock_uid l)
      (<[i := Holding (lock_uid l) (next_id s) started]> (clients s)))
| step_replace_lost s i now started l : clients s !! i = Some (SawExpired now started (lock_rv l)) ->
    stored s = Some l -> lock_step s (write_lock s now (lock_uid l) (delete i (clients s)))
| step_release s i uid rv at_ l : clients s !! i = Some (Holding uid rv at_) ->
    stored s = Some l -> lock_uid l = uid -> lock_rv l = rv ->
    lock_step s (clear_lock s (delete i (clients s)))
| step_give_up s i : lock_step s (with_clients s (delete i (clients s))).

Definition initial (t : Z) : System := {| time := t; stored := None; next_id := 0; clients := ∅ |}.

Definition lock_reachable (s : System) : Prop := exists t, rtc lock_step (initial t) s.

(** [AdmissionLockGuard::still_safe] of a request that holds the lock. *)
Definition still_safe (s : System) (i : nat) : bool :=
  match clients s !! i with
  | Some (Holding _ _ acquired_at) => time s - acquired_at <? LOCK_SAFE_WINDOW
  | _ => false
  end.

(** ** The invariant *)

(** Any two clocks are less than 20 seconds (minus the microsecond lost to the
    stored stamp) apart. *)
Definition skew_bounded : Prop :=
  forall i j, skew i - skew j <= LOCK_DURATION - LOCK_SAFE_WINDOW - 1000.

(** The request read its clocks in the past. *)
Definition clocks_ok (s : System) (i : nat) (now started : Z) : Prop :=
  now = started + skew i /\ started <= time s.

Definition client_ok (s : System) (i : nat) (c : Client) : Prop :=
  match c with
  | Started now started | SawConflict now started => clocks_ok s i now started
  | SawExpired now started rv =>
      clocks_ok s i now started /\ rv < next_id s /\
      forall l, stored s = Some l -> lock_rv l = rv -> lock_expired l now = true
  | Holding _ rv at_ =>
      rv < next_id s /\ at_ <= time s /\
      ((exists uid, stored s = Some (lock_object (at_ + skew i) uid rv)) \/
       LOCK_SAFE_WINDOW <= time s - at_)
  end.

Record lock_inv (s : System) : Prop := {
  inv_stored : forall l, stored s = Some l -> lock_rv l < next_id s;
  inv_clients : forall i c, clients s !! i = Some c -> client_ok s i c;
  inv_distinct : forall i j ui uj r ai aj, clients s !! i = Some (Holding ui r ai) ->
    clients s !! j = Some (Holding uj r aj) -> i = j;
}.

Context (Hskew : skew_bounded).

Lemma expired_unsafe s i j at_ uid rv started :
  lock_expired (lock_object (at_ + skew i) uid rv) (started + skew j) = true -> started <= time s ->
  LOCK_SAFE_WINDOW <= time s - at_.
Proof.
  unfold lock_expired. cbn. intros H%Z.leb_le Ht. specialize (Hskew j i).
  unfold to_micro_time, LOCK_SAFE_WINDOW, LOCK_DURATION, seconds, nanos_per_second in *.
  pose proof (Z.div_mod (at_ + skew i) 1000). pose proof (Z.mod_pos_bound (at_ + skew i) 1000). lia.
Qed.

(** No safe request depends on the lock that a write replaces. *)
Definition replaceable (s : System) : Prop :=
  forall i at_ uid rv, stored s = Some (lock_object (at_ + skew i) uid rv) ->
    LOCK_SAFE_WINDOW <= time s - at_.

Lemma client_ok_write s now uid cs i c :
  replaceable s -> client_ok s i c -> client_ok (write_lock s now uid cs) i c.
Proof.
  intros Hr. destruct c as [now' st|now' st|now' st rv|u rv at_]; cbn; [done|done| |].
  - intros (Hc & Hrv & _). split; [done|]. split; [lia|]. intros l [= <-]. cbn. lia.
  - intros (Hrv & Hat & Hor). split; [lia|]. split; [done|]. right.
    destruct Hor as [[uid' Hs]|]; [by eapply Hr|done].
Qed.

(** A write by request [i] that wins. *)
Lemma lock_inv_write s now uid uid' i started :
  lock_inv s -> replaceable s -> clocks_ok s i now started ->
  lock_inv (write_lock s now uid (<[i := Holding uid' (next_id s) started]> (clients s))) /\
  lock_inv (write_lock s now uid (delete i (clients s))).
Proof.
  intros [Hst Hcl Hd] Hr [Hnow Ht]. split; split; cbn.
  - intros l [= <-]. cbn. lia.
  - intros j c. rewrite lookup_insert_Some. intros [[<- <-]|[Hne Hj]].
    + cbn. split; [lia|]. split; [done|]. left. exists uid. by rewrite Hnow.
    + by apply client_ok_write, Hcl.
  - intros a b ua ub r aa ab. rewrite !lookup_insert_Some.
    intros [[<- E]|[Ha Hla]] [[<- E']|[Hb Hlb]]; simplify_eq; [done| | |by eapply Hd].
    + pose proof (Hcl _ _ Hlb) as (? & _). lia.
    + pose proof (Hcl _ _ Hla) as (? & _). lia.
  - intros l [= <-]. cbn. lia.
  - intros j c [Hne Hj]%lookup_delete_Some. by apply client_ok_write, Hcl.
  - intros a b ua ub r aa ab [_ Ha]%lookup_delete_Some [_ Hb]%lookup_delete_Some. by eapply Hd.
Qed.

(** A request that moves to another state of [try_acquire] without writing. *)
Lemma lock_inv_move s i c :
  lock_inv s -> client_ok s i c -> (forall u r a, c <> Holding u r a) ->
  lock_inv (with_clients s (<[i := c]> (clients s))).
Proof.
  intros [Hst Hcl Hd] Hc Hn. split; cbn; [done| |].
  - intros j d. rewrite lookup_insert_Some. intros [[<- <-]|[_ Hj]]; [done|by apply Hcl].
  - intros a b ua ub r aa ab. rewrite !lookup_insert_Some.
    intros [[_ E]|[_ Ha]] [[_ E']|[_ Hb]]; [exfalso; eapply Hn; eauto..|by eapply Hd].
Qed.

Lemma lock_inv_drop s i : lock_inv s -> lock_inv (with_clients s (delete i (clients s))).
Proof.
  intros [Hst Hcl Hd]. split; cbn; [done| |].
  - intros j c [_ Hj]%lookup_delete_Some. by apply Hcl.
  - intros a b ua ub r aa ab [_ Ha]%lookup_delete_Some [_ Hb]%lookup_delete_Some. by eapply Hd.
Qed.

Lemma replaceable_None s : stored s = None -> replaceable s.
Proof. intros H i a u r. by rewrite H. Qed.

Lemma replaceable_expired s i now started l :
  lock_inv s -> clients s !! i = Some (SawExpired now started (lock_rv l)) -> stored s = Some l ->
  replaceable s /\ clocks_ok s i now started.
Proof.
  intros [_ Hcl _] Hi Hs. pose proof (Hcl _ _ Hi) as ((Hn & Ht) & _ & He). split; [|done].
  intros j a u r Hj. specialize (He _ Hs eq_refl). rewrite Hs in Hj. injection Hj as Hj. subst l.
  rewrite Hn in He. by eapply expired_unsafe.
Qed.

Lemma lock_inv_release s i uid rv at_ l :
  lock_inv s -> clients s !! i = Some (Holding uid rv at_) -> stored s = Some l -> lock_rv l = rv ->
  lock_inv (clear_lock s (delete i (clients s))).
Proof.
  intros [Hst Hcl Hd] Hi Hs Hr. split; cbn; [done| |].
  - intros j c [Hne Hj]%lookup_delete_Some. specialize (Hcl _ _ Hj).
    destruct c as [now' st|now' st|now' st rv'|u rv' a']; cbn in *; [done|done| |].
    + destruct Hcl as (? & ? & _). split_and!; try done.
    + destruct Hcl as (? & ? & [[u' Hu]|?]); [|by auto]. exfalso.
      rewrite Hs in Hu. injection Hu as ->. cbn in Hr. subst rv. apply Hne. by eapply Hd.
  - intros a b ua ub r aa ab [_ Ha]%lookup_delete_Some [_ Hb]%lookup_delete_Some. by eapply Hd.
Qed.

Lemma lock_inv_step s s' : lock_step s s' -> lock_inv s -> lock_inv s'.
Proof.
  intros Hstep Hinv. pose proof Hinv as [Hst Hcl Hd].
  destruct Hstep as [s d Hd0|s i Hi|s i now st Hi Hn|s i now st Hi Hn|s i now st Hi Hn
    |s i now st l Hi Hs He|s i now st l Hi Hs|s i now st l Hi Hs|s i u r a l Hi Hs Hu Hr|s i].
  - split; cbn; [done| |done]. intros i c Hi. specialize (Hcl _ _ Hi).
    destruct c; cbn in *; unfold clocks_ok in *; cbn; try (destruct_and! Hcl; split_and!; done || lia).
    all: destruct Hcl as (? & ? & Hor); split; [done|split; [lia|]]; destruct Hor; [by left|right; lia].
  - apply lock_inv_move; [done|split; [done|lia]|done].
  - apply lock_inv_write; [done|by apply replaceable_None|exact (Hcl _ _ Hi)].
  - eapply (lock_inv_write s now (next_id s) 0 i st); [done|by apply replaceable_None|exact (Hcl _ _ Hi)].
  - apply lock_inv_move; [done|exact (Hcl _ _ Hi)|done].
  - apply lock_inv_move; [done| |done]. split; [exact (Hcl _ _ Hi)|]. split; [by apply Hst|].
    intros l' Hl'. rewrite Hs in Hl'. by injection Hl' as <-.
  - destruct (replaceable_expired s i now st l) as [? ?]; [done..|]. by apply lock_inv_write.
  - destruct (replaceable_expired s i now st l) as [? ?]; [done..|]. by eapply (lock_inv_write s now (lock_uid l) 0 i st).
  - by eapply lock_inv_release.
  - by apply lock_inv_drop.
Qed.

Lemma lock_inv_reachable s : lock_reachable s -> lock_inv s.
Proof.
  intros [t H]. assert (lock_inv (initial t)) as H0 by (split; done).
  revert H0. induction H as [|x y z Hs _ IH]; [done|]. intros Hi. by eapply IH, lock_inv_step.
Qed.

End Steps.

(** ** Theorems *)

(** C5. Admission is mutually exclusive: in every interleaving of requests of
    one principal, with crashes and lost replies, as long as any two replica
    clocks differ by less than the 20 seconds the design leaves (minus the
    microsecond truncation), at most one request at a time holds the lock with
    enough of it left to start its create. *)
Theorem admission_lock_exclusive (skew : nat -> Z) (Hskew : skew_bounded skew) (s : System)
    (Hreach : lock_reachable skew s) (i j : nat)
    (Hi : still_safe s i = true) (Hj : still_safe s j = true) :
  i = j.
Proof.
  destruct (lock_inv_reachable skew Hskew s Hreach) as [_ Hcl Hd]. unfold still_safe in *.
  destruct (clients s !! i) as [[| | |ui ri ai]|] eqn:Ei; try done.
  destruct (clients s !! j) as [[| | |uj rj aj]|] eqn:Ej; try done.
  apply Z.ltb_lt in Hi, Hj.
  pose proof (Hcl _ _ Ei) as (_ & _ & [[u Hu]|?]); [|lia].
  pose proof (Hcl _ _ Ej) as (_ & _ & [[v Hv]|?]); [|lia].
  assert (ri = rj) as -> by (rewrite Hu in Hv; by injection Hv). by eapply Hd.
Qed.

(** ** A takeover: request 1 never releases, request 2 takes over after 31 s *)

Definition ex_taken_over : System :=
  {| time := seconds 31; stored := Some (lock_object (seconds 31) 0 1); next_id := 2;
     clients := <[2%nat := Holding 0 1 (seconds 31)]> (<[1%nat := Holding 0 0 0]> ∅) |}.

Lemma ex_taken_over_reachable : lock_reachable (fun _ => 0) ex_taken_over.
Proof.
  exists 0.
  eapply rtc_l; [apply (step_begin _ _ 1%nat); reflexivity|].
  eapply rtc_l; [eapply (step_create _ _ 1%nat); reflexivity|].
  eapply rtc_l; [apply (step_tick _ _ (seconds 31)); by vm_compute|].
  eapply rtc_l; [apply (step_begin _ _ 2%nat); reflexivity|].
  eapply rtc_l; [eapply (step_conflict _ _ 2%nat); [reflexivity|by eexists]|].
  eapply rtc_l; [eapply (step_get _ _ 2%nat); [reflexivity|reflexivity|by vm_compute]|].
  eapply rtc_l; [eapply (step_replace _ _ 2%nat); reflexivity|].
  match goal with |- rtc _ ?x ?y => assert (x = y) as ->; [|apply rtc_refl] end.
  reflexivity.
Qed.

(** Witness. *)
Lemma admission_lock_exclusive_witness :
  still_safe ex_taken_over 2 = true /\ still_safe ex_taken_over 1 <> true.
Proof.
  split; [by vm_compute|]. intros H1.
  assert (1%nat = 2%nat); [|done].
  apply (admission_lock_exclusive (fun _ => 0) ltac:(intros ? ?; by vm_compute) ex_taken_over
    ex_taken_over_reachable 1 2 H1). by vm_compute.
Defined.

(** The pause between attempts is at least 25 ms and at most one second. *)
Lemma lock_retry_delay_bounds attempt jitter_ms :
  0 <= attempt -> 0 <= jitter_ms <= retry_step attempt / 2 / 1000000 ->
  millis 25 <= lock_retry_delay attempt jitter_ms <= LOCK_RETRY_MAX.
Proof.
  intros Ha Hj. unfold lock_retry_delay.
  assert (millis 50 <= retry_step attempt <= LOCK_RETRY_MAX) as Hs.
  { unfold retry_step, LOCK_RETRY_INITIAL, LOCK_RETRY_MAX, millis, seconds, nanos_per_second.
    rewrite Z.shiftl_mul_pow2 by lia. pose proof (Z.pow_pos_nonneg 2 (Z.min attempt 16)). lia. }
  set (x := retry_step attempt) in *. unfold LOCK_RETRY_MAX, millis, seconds, nanos_per_second in *.
  pose proof (Z.div_mod x 2). pose proof (Z.mod_pos_bound x 2).
  pose proof (Z.div_mod (x / 2) 1000000). pose proof (Z.mod_pos_bound (x / 2) 1000000). lia.
Qed.
