(* ===== verification/FailureBackoff.v ===== *)
(** * FailureBackoff: per-object retry spacing

    Model of [src/controllers/backoff.rs]: the map of failing objects shared by
    a controller's reconciler ([defer], [forget]) and its error policy
    ([record]).  Instants and durations are in nanoseconds. *)

From S2P Require Import Prelude.

Definition DEFAULT_BASE : Z := seconds 2.
Definition DEFAULT_MAX : Z := seconds 300.
Definition DEADLINE_BOUND_MAX : Z := seconds 60.
Definition PRUNE_AFTER : Z := 4.

(** [Duration::MAX]. *)
Definition DURATION_MAX : Z := u64_max * nanos_per_second + 999999999.

Record Failure : Type := {
  consecutive : Z;
  generation : option Z;
  next_attempt : Z;
  touched : Z;
}.

(** The fields of [ObjectMeta] the gate reads. *)
Record Meta : Type := { meta_generation : option Z; meta_deleting : bool }.

Record FailureBackoff : Type := {
  base : Z;
  max : Z;
  poisoned : bool;  (** a thread panicked while holding the mutex *)
  state : gmap string Failure;
}.

Definition with_state (b : FailureBackoff) (m : gmap string Failure) : FailureBackoff :=
  {| base := base b; max := max b; poisoned := poisoned b; state := m |}.

Definition delay (b : FailureBackoff) (n : Z) : Z :=
  let doublings := Z.min (saturating_sub n 1) 16 in
  Z.min (Z.min (base b * Z.shiftl 1 doublings) DURATION_MAX) (max b).

Definition prune (m : gmap string Failure) (now ttl : Z) : gmap string Failure :=
  filter (fun kv => now - touched (snd kv) < ttl) m.

Definition record (b : FailureBackoff) (key : string) (m : Meta) (now : Z) : FailureBackoff * Z :=
  if poisoned b then (b, base b)
  else
    let n := match state b !! key with Some f => u32_saturating_add (consecutive f) 1 | None => 1 end in
    let d := delay b n in
    let entry := {| consecutive := n; generation := meta_generation m; next_attempt := now + d; touched := now |} in
    (with_state b (prune (<[key := entry]> (state b)) now (max b * PRUNE_AFTER)), d).

(** The remaining wait, and the map afterwards. *)
Definition defer (b : FailureBackoff) (key : string) (m : Meta) (now : Z) : FailureBackoff * option Z :=
  if meta_deleting m then (b, None)
  else if poisoned b then (b, None)
  else match state b !! key with
       | None => (b, None)
       | Some f =>
           if match meta_generation m, generation f with
              | Some current, Some failed_at => failed_at <? current
              | _, _ => false
              end
           then (with_state b (delete key (state b)), None)
           else if next_attempt f <=? now then (b, None)
           else (b, Some (next_attempt f - now))
       end.

Definition forget (b : FailureBackoff) (key : string) : FailureBackoff :=
  if poisoned b then b else with_state b (delete key (state b)).

(** ** Properties *)

(** Durations are non-negative, the cap is positive. *)
Record wf_backoff (b : FailureBackoff) : Prop := {
  wf_base : 0 < base b <= DURATION_MAX;
  wf_max : 0 < max b <= DURATION_MAX;
  wf_entries : forall k f, state b !! k = Some f -> next_attempt f - touched f <= max b;
}.

Lemma delay_closed_form b n :
  wf_backoff b -> 1 <= n -> delay b n = Z.min (base b * 2 ^ Z.min (n - 1) 16) (max b).
Proof.
  intros [? ? _] Hn. unfold delay, saturating_sub. rewrite Z.shiftl_mul_pow2, Z.mul_1_l by lia.
  replace (Z.max 0 (n - 1)) with (n - 1) by lia. lia.
Qed.

Lemma delay_bounds b n : wf_backoff b -> 1 <= n -> Z.min (base b) (max b) <= delay b n <= max b.
Proof.
  intros Hwf Hn. rewrite delay_closed_form by done. destruct Hwf as [? ? _].
  pose proof (Z.pow_pos_nonneg 2 (Z.min (n - 1) 16)). nia.
Qed.

Lemma delay_mono b n m : wf_backoff b -> 1 <= n <= m -> delay b n <= delay b m.
Proof.
  intros Hwf Hn. rewrite !delay_closed_form by (done || lia). destruct Hwf as [? ? _].
  pose proof (Z.pow_le_mono_r 2 (Z.min (n - 1) 16) (Z.min (m - 1) 16)). nia.
Qed.

(** The failure number a [record] stores. *)
Definition failures_after (b : FailureBackoff) (key : string) : Z :=
  match state b !! key with Some f => u32_saturating_add (consecutive f) 1 | None => 1 end.

Definition new_entry (b : FailureBackoff) (key : string) (m : Meta) (now : Z) : Failure :=
  {| consecutive := failures_after b key; generation := meta_generation m;
     next_attempt := now + delay b (failures_after b key); touched := now |}.

Lemma record_state b key m now :
  poisoned b = false ->
  state (fst (record b key m now))
  = prune (<[key := new_entry b key m now]> (state b)) now (max b * PRUNE_AFTER).
Proof. intros Hp. unfold record. rewrite Hp. reflexivity. Qed.

Lemma prune_lookup m now ttl k f :
  prune m now ttl !! k = Some f <-> m !! k = Some f /\ now - touched f < ttl.
Proof. apply map_lookup_filter_Some. Qed.

Lemma record_entry b key m now :
  wf_backoff b -> poisoned b = false ->
  state (fst (record b key m now)) !! key
  = Some (new_entry b key m now).
Proof.
  intros [? ? _] Hp. rewrite record_state by done. apply prune_lookup.
  split; [apply lookup_insert_eq|]. cbn [new_entry touched]. unfold PRUNE_AFTER. lia.
Qed.

(** Pruning while recording another key keeps an entry that is still waiting. *)
Lemma record_other b key key' m now f :
  wf_backoff b -> key <> key' -> state b !! key = Some f ->
  state (fst (record b key' m now)) !! key = Some f \/
  (state (fst (record b key' m now)) !! key = None /\ next_attempt f <= now).
Proof.
  intros [? ? Hent] Hne Hf. destruct (poisoned b) eqn:Hp; [left; unfold record; by rewrite Hp|].
  rewrite record_state by done. set (mp := prune _ _ _).
  assert (forall g, mp !! key = Some g <-> g = f /\ now - touched g < max b * PRUNE_AFTER) as Hmp.
  { intros g. subst mp. rewrite prune_lookup, lookup_insert_ne, Hf by done. split; intros [E ?]; simplify_eq; done. }
  clearbody mp. destruct (decide (now - touched f < max b * PRUNE_AFTER)) as [Hlt|Hge].
  - left. by apply Hmp.
  - right. split.
    + destruct (mp !! key) as [g|]; [|done]. by destruct (proj1 (Hmp g) eq_refl) as [-> ?].
    + specialize (Hent _ _ Hf). unfold PRUNE_AFTER in Hge. lia.
Qed.

Lemma failures_after_pos b key :
  (forall k f, state b !! k = Some f -> 1 <= consecutive f) -> 1 <= failures_after b key.
Proof.
  intros Hc. unfold failures_after. destruct (state b !! key) as [f|] eqn:E; [|done].
  specialize (Hc _ _ E). unfold u32_saturating_add, u32_max. clear -Hc. lia.
Qed.

Lemma record_config b key m now :
  base (fst (record b key m now)) = base b /\ max (fst (record b key m now)) = max b /\
  poisoned (fst (record b key m now)) = poisoned b.
Proof. unfold record. destruct (poisoned b) eqn:E; cbn [fst with_state base max poisoned]; rewrite ?E; done. Qed.

Lemma record_wf b key m now :
  wf_backoff b -> (forall k f, state b !! k = Some f -> 1 <= consecutive f) ->
  wf_backoff (fst (record b key m now)).
Proof.
  intros Hwf Hc. destruct (poisoned b) eqn:Hp; [unfold record; by rewrite Hp|].
  destruct (record_config b key m now) as (Eb & Em & _).
  pose proof (delay_bounds b _ Hwf (failures_after_pos b key Hc)) as [_ Hd].
  destruct Hwf as [? ? Hent]. split; [by rewrite Eb|by rewrite Em|].
  intros k f Hk. rewrite Em. rewrite record_state in Hk by done. apply prune_lookup in Hk as [Hk _].
  apply lookup_insert_Some in Hk as [[_ <-]|[_ Hk]]; [|by eapply Hent].
  unfold new_entry. cbn [next_attempt touched]. clear -Hd. lia.
Qed.

(** The retry gate keeps its contract: a recorded failure waits
    [min (base * 2^min(n-1,16)) max] for the [n]-th failure in a row; until
    then an early wake is told exactly the remaining wait, and from then on it
    reconciles; a deletion or a newer generation is never held back (and new
    intent clears the history); and failures recorded for other objects
    meanwhile, with their pruning, never shorten or lengthen the wait. *)
Theorem retry_gate_contract (b : FailureBackoff) (key : string) (m : Meta) (now : Z)
    (Hwf : wf_backoff b) (Hp : poisoned b = false)
    (Hcount : forall k f, state b !! k = Some f -> 1 <= consecutive f) :
  let n := failures_after b key in
  let d := Z.min (base b * 2 ^ Z.min (n - 1) 16) (max b) in
  let b1 := fst (record b key m now) in
  snd (record b key m now) = d /\ Z.min (base b) (max b) <= d <= max b /\
  (forall m' now', meta_deleting m' = true -> snd (defer b1 key m' now') = None) /\
  (forall m' now' g g', meta_generation m' = Some g' -> meta_generation m = Some g -> g < g' ->
     meta_deleting m' = false ->
     snd (defer b1 key m' now') = None /\ state (fst (defer b1 key m' now')) !! key = None) /\
  (forall m' now' key' m2 now2, meta_deleting m' = false ->
     (forall g g', meta_generation m' = Some g' -> meta_generation m = Some g -> g' <= g) ->
     key <> key' -> now <= now2 <= now' ->
     let expected := if now' <? now + d then Some (now + d - now') else None in
     snd (defer b1 key m' now') = expected /\
     snd (defer (fst (record b1 key' m2 now2)) key m' now') = expected).
Proof.
  cbn zeta. pose proof (failures_after_pos b key Hcount) as Hn.
  set (d := Z.min _ (max b)).
  assert (delay b (failures_after b key) = d) as Hd by (by apply delay_closed_form).
  pose proof (delay_bounds b _ Hwf Hn) as Hb. rewrite Hd in Hb.
  pose proof (record_entry b key m now Hwf Hp) as He. unfold new_entry in He. rewrite Hd in He.
  pose proof (record_wf b key m now Hwf Hcount) as Hwf1.
  assert (poisoned (fst (record b key m now)) = false) as Hp1
    by (rewrite <- Hp; apply record_config).
  split; [unfold record; rewrite Hp; exact Hd|]. split; [done|].
  set (b1 := fst (record b key m now)) in *. clearbody b1.
  split; [intros m' now' H; unfold defer; by rewrite H|]. split.
  - intros m' now' g g' Hg' Hg Hlt Hdel. unfold defer. rewrite Hdel, Hp1, He, Hg'. cbn.
    rewrite Hg, (proj2 (Z.ltb_lt _ _)) by done. cbn. split; [done|]. apply lookup_delete_eq.
  - intros m' now' key' m2 now2 Hdel Hgen Hne Hnow.
    assert (forall b2 : FailureBackoff, poisoned b2 = false -> state b2 !! key = state b1 !! key ->
      snd (defer b2 key m' now') = if now' <? now + d then Some (now + d - now') else None) as Hdefer.
    { intros b2 Hp2 Hs. unfold defer. rewrite Hdel, Hp2, Hs, He. cbn.
      destruct (meta_generation m') as [g'|], (meta_generation m) as [g|];
        [rewrite (proj2 (Z.ltb_ge _ _)) by (by apply Hgen)| | |];
        destruct (Z.leb_spec (now + d) now'), (Z.ltb_spec now' (now + d)); cbn; done || lia. }
    split; [by apply Hdefer|].
    destruct (record_other b1 key key' m2 now2 _ Hwf1 Hne He) as [Hs|[Hs Hpast]].
    + apply Hdefer; [rewrite <- Hp1; apply record_config|]. by rewrite Hs, He.
    + cbn in Hpast. rewrite (proj2 (Z.ltb_ge _ _)) by lia.
      unfold defer. destruct (record_config b1 key' m2 now2) as (_ & _ & ->).
      by rewrite Hdel, Hp1, Hs.
Qed.

(** A fresh gate with the default constants. *)
Definition default_backoff : FailureBackoff :=
  {| base := DEFAULT_BASE; max := DEFAULT_MAX; poisoned := false; state := ∅ |}.

(** Witness. *)
Lemma retry_gate_contract_witness :
  snd (record default_backoff "lease-1" {| meta_generation := Some 1; meta_deleting := false |} 0)
  = seconds 2.
Proof.
  destruct (retry_gate_contract default_backoff "lease-1"
    {| meta_generation := Some 1; meta_deleting := false |} 0) as [H _]; [|done|done|].
  - split; [by vm_compute|by vm_compute|done].
  - rewrite H. by vm_compute.
Defined.
