(* ===== verification/PoolManager.v ===== *)
(** * PoolManager: the decisions of one pool reconcile

    Model of [src/pool/manager.rs].  [compute_pool_actions] is the pure
    function the pool controller runs on a snapshot of a pool's members: which
    members to recycle and which to create.  [compute_pool_phase] summarises
    the same counts for operators.

    A [HashMap<String, ClusterEntry>] is the list of its entries in the (fixed
    but unspecified) order the map iterates in; [wf_state] says its keys are
    distinct.  Counters of members are mathematical integers (a pool never
    holds 2^32 members); the sums in which numbers from the CRD take part keep
    their [u32] width. *)

From S2P Require Import Prelude Text Durations.

(** ** Data *)

Inductive ClusterState : Type :=
| Creating | Ready | Leased | Unhealthy | Recycling | Quarantined.

#[global] Instance ClusterState_eq_dec : EqDecision ClusterState.
Proof. solve_decision. Defined.

Definition state_eqb (a b : ClusterState) : bool := bool_decide (a = b).

Inductive RecycleReason : Type :=
| SpecDrift | CertExpiry | CreatingTimeout | UnhealthyReason | ScaleDown
| BootstrapFailed | HealthFailed | LeaseReleased | KobeStoreDegraded | IpamConflict | Manual.

#[global] Instance RecycleReason_eq_dec : EqDecision RecycleReason.
Proof. solve_decision. Defined.

(** [SpecHash]: 16 hexadecimal digits. *)
Abbreviation SpecHash := string (only parsing).

Record ClusterEntry : Type := mk_entry {
  state : ClusterState;
  idle_since : option Z;
  health_failures : Z;
  state_since : option Z;
  spec_hash : option SpecHash;
  scheduling_blocked : bool;
  crashlooping : bool;
  crash_message : option string;
  cert_horizon_secs : option Z;
}.

Record PoolState : Type := {
  clusters : list (string * ClusterEntry);
  queue_depth : Z;
}.

Inductive PoolAction : Type :=
| Create (name : string)
| Delete (name : string) (reason : RecycleReason).

#[global] Instance PoolAction_eq_dec : EqDecision PoolAction.
Proof. solve_decision. Defined.

Record FailureBackoffConfig : Type := {
  base : string;
  multiplier : Z;
  backoff_max : string;
}.

Record ScalingConfig : Type := {
  min_ready : Z;
  max_clusters : Z;
  scale_down_after : string;
  creating_timeout : string;
  failure_backoff : option FailureBackoffConfig;
}.

Record UpgradePolicy : Type := {
  max_recycling : Z;
  max_surge : Z;
  min_ready_during_upgrade : option Z;
}.

Record ResolvedUpgradePolicy : Type := {
  resolved_max_recycling : Z;
  resolved_max_surge : Z;
  resolved_floor : Z;
}.

(** The backoff fields of [ClusterPoolStatus]. *)
Record PoolBackoffStatus : Type := {
  consecutive_failures : Z;
  next_attempt_at : option string;
  last_failure_reason : option string;
  max_attempted_index : Z;
  last_ready_max_index : Z;
}.

(** A [ClusterPool] as far as the pool manager reads it. *)
Record ClusterPool : Type := {
  pool_name : option string;
  size : Z;
  scaling : option ScalingConfig;
  upgrade_policy : option UpgradePolicy;
  status : option PoolBackoffStatus;
}.

Inductive ClusterPoolPhase : Type :=
| Healthy | PhaseQuarantined | ScalingUp | Exhausted | ScalingDown | Backoff | Failing | Idle.

(** ** Configuration *)

Definition CERT_RECYCLE_HORIZON_SECS : Z := 30 * 86400.
Definition FIXED_POOL_HEADROOM : Z := 10.
Definition MAX_BURST : Z := 2.
Definition UNSTAMPED_RECYCLE_GRACE : Z := minutes 2.
Definition DEFAULT_BACKOFF_BASE : Z := seconds 5.
Definition DEFAULT_BACKOFF_MULTIPLIER : Z := 2.
Definition DEFAULT_BACKOFF_MAX : Z := seconds 120.
Definition FAILING_THRESHOLD : Z := 3.

Definition cert_expiring (e : ClusterEntry) : bool :=
  match cert_horizon_secs e with
  | Some h => h <? CERT_RECYCLE_HORIZON_SECS
  | None => false
  end.

Definition spec_hash_is_current (h : option SpecHash) (current_hash : SpecHash) : bool :=
  str_opt_eqb h (Some current_hash).

Definition resolved_upgrade_policy (profile : ClusterPool) (min_ready : Z)
    : ResolvedUpgradePolicy :=
  match upgrade_policy profile with
  | Some p => {| resolved_max_recycling := max_recycling p;
                 resolved_max_surge := max_surge p;
                 resolved_floor := default min_ready (min_ready_during_upgrade p) |}
  | None => {| resolved_max_recycling := 1; resolved_max_surge := 1;
               resolved_floor := min_ready |}
  end.

Definition resolve_creating_timeout (profile : ClusterPool) : Z :=
  match scaling profile with
  | None => minutes 10
  | Some s => default (minutes 10) (parse_duration (creating_timeout s))
  end.

Definition pool_capacity (profile : ClusterPool) : Z :=
  match scaling profile with
  | Some s => max_clusters s
  | None => u32_saturating_add (size profile) FIXED_POOL_HEADROOM
  end.

(** [(min_ready, scale_down_after)] of [compute_pool_actions]. *)
Definition warm_config (profile : ClusterPool) : Z * option Z :=
  match scaling profile with
  | Some s => (min_ready s, parse_duration (scale_down_after s))
  | None => (size profile, None)
  end.

Definition resolved_backoff (profile : ClusterPool) : Z * Z * Z :=
  let cfg := scaling profile ≫= failure_backoff in
  let base := default DEFAULT_BACKOFF_BASE (c ← cfg; parse_duration (base c)) in
  let mult := default DEFAULT_BACKOFF_MULTIPLIER
                (c ← cfg; if 1 <=? multiplier c then Some (multiplier c) else None) in
  let max := default DEFAULT_BACKOFF_MAX (c ← cfg; parse_duration (backoff_max c)) in
  (base, mult, max).

(** [u64::saturating_pow], by repeated saturating multiplication. *)
Fixpoint u64_saturating_pow (b : Z) (e : nat) : Z :=
  match e with O => 1 | S e => u64_saturating_mul b (u64_saturating_pow b e) end.

Definition backoff_delay_for (profile : ClusterPool) (consecutive_failures : Z) : option Z :=
  if consecutive_failures =? 0 then None
  else
    let '(base, multiplier, max) := resolved_backoff profile in
    let shift := Z.min (saturating_sub consecutive_failures 1) 31 in
    let factor := u64_saturating_pow multiplier (Z.to_nat shift) in
    let factor := if factor <=? i64_max then factor else i64_max in
    let secs := Z.min (i64_saturating_mul (num_seconds base) factor) (num_seconds max) in
    Some (seconds secs).

(** ** Counting *)

Record StateCounts : Type := {
  creating : Z; ready : Z; leased : Z; unhealthy : Z; recycling : Z; quarantined : Z;
  ready_clean : Z; ready_drifted : Z;
  creating_clean : Z; creating_drifted : Z;
  leased_drifted : Z;
}.

Definition zero_counts : StateCounts :=
  {| creating := 0; ready := 0; leased := 0; unhealthy := 0; recycling := 0; quarantined := 0;
     ready_clean := 0; ready_drifted := 0; creating_clean := 0; creating_drifted := 0;
     leased_drifted := 0 |}.

Definition hash_drifted (current_hash : option SpecHash) (e : ClusterEntry) : bool :=
  match current_hash, spec_hash e with
  | Some curr, Some h => negb (String.eqb h curr)
  | _, _ => false
  end.

(** What one entry adds to the tally. *)
Definition count_entry (current_hash : option SpecHash) (c : StateCounts) (e : ClusterEntry)
    : StateCounts :=
  let one s := if state_eqb (state e) s then 1 else 0 in
  let drifted := hash_drifted current_hash e || cert_expiring e in
  let bucket s d :=
    if is_some current_hash && state_eqb (state e) s && Bool.eqb drifted d then 1 else 0 in
  {| creating := creating c + one Creating;
     ready := ready c + one Ready;
     leased := leased c + one Leased;
     unhealthy := unhealthy c + one Unhealthy;
     recycling := recycling c + one Recycling;
     quarantined := quarantined c + one Quarantined;
     ready_drifted := ready_drifted c + bucket Ready true;
     ready_clean := ready_clean c + bucket Ready false;
     creating_drifted := creating_drifted c + bucket Creating true;
     creating_clean := creating_clean c + bucket Creating false;
     leased_drifted := leased_drifted c + bucket Leased true |}.

Definition count_states (st : PoolState) (current_hash : option SpecHash) : StateCounts :=
  fold_left (count_entry current_hash) (map snd (clusters st)) zero_counts.

Definition total_members (c : StateCounts) : Z :=
  creating c + ready c + leased c + unhealthy c + recycling c + quarantined c.

(** ** Names *)

Definition is_valid_k8s_name (name : string) : bool :=
  let alnum c := is_ascii_lowercase c || is_ascii_digit c in
  if (str_len name =? 0) || (63 <? str_len name) then false
  else match name, rev_str name "" with
       | String first _, String last _ =>
           alnum first && alnum last &&
           all_bytes (fun c => alnum c || Ascii.eqb c "-") name
       | _, _ => false
       end.

Definition generate_cluster_name (profile_name : string) (index : Z) : string :=
  "pool-" +:+ profile_name +:+ "-" +:+ show_uint index.

Definition name_prefix (profile_name : string) : string := "pool-" +:+ profile_name +:+ "-".

Definition index_of_name (profile_name name : string) : option Z :=
  suffix ← strip_prefix (name_prefix profile_name) name; parse_uint u32_max suffix.

(** [filter_map(..).max().unwrap_or(0)] *)
Definition max_existing_index (st : PoolState) (profile_name : string) : Z :=
  foldr Z.max 0 (omap (index_of_name profile_name) (map fst (clusters st))).

(** ** Sorting

    [sort_by] and [sort_by_key] are stable: [insert_by] puts an element in
    front of the equal ones that followed it. *)
Fixpoint insert_by {A} (cmp : A -> A -> comparison) (x : A) (l : list A) : list A :=
  match l with
  | [] => [x]
  | y :: l' => match cmp x y with Gt => y :: insert_by cmp x l' | _ => x :: y :: l' end
  end.

Definition sort_by {A} (cmp : A -> A -> comparison) (l : list A) : list A :=
  foldr (insert_by cmp) [] l.

Definition then_with (a b : comparison) : comparison := match a with Eq => b | _ => a end.

(** [Option<T>]: [None] is the least element. *)
Definition opt_compare (a b : option Z) : comparison :=
  match a, b with
  | None, None => Eq
  | None, Some _ => Lt
  | Some _, None => Gt
  | Some x, Some y => Z.compare x y
  end.

Definition expiry_key (e : ClusterEntry) : Z :=
  if cert_expiring e then default i64_max (cert_horizon_secs e) else i64_max.

(** The comparator of step 4. *)
Definition drift_order (a b : string * ClusterEntry) : comparison :=
  then_with (Z.compare (expiry_key (snd a)) (expiry_key (snd b)))
    (then_with (opt_compare (state_since (snd a)) (state_since (snd b)))
       (String.compare (fst a) (fst b))).

(** The key of step 7. *)
Definition idle_order (a b : string * ClusterEntry) : comparison :=
  opt_compare (idle_since (snd a)) (idle_since (snd b)).

(** ** The steps of [compute_pool_actions] *)

(** [actions] in push order, and the [deleting] set. *)
Definition Acc : Type := list PoolAction * list string.

Definition in_set (name : string) (deleting : list string) : bool :=
  existsb (String.eqb name) deleting.

(** One [for (name, entry) in &state.clusters] loop that pushes a [Delete] for
    the entries [want] selects. *)
Definition delete_step (want : string -> ClusterEntry -> list string -> option RecycleReason)
    (acc : Acc) (kv : string * ClusterEntry) : Acc :=
  match want (fst kv) (snd kv) (snd acc) with
  | Some reason => (fst acc ++ [Delete (fst kv) reason], fst kv :: snd acc)
  | None => acc
  end.

Definition delete_loop want (acc : Acc) (cs : list (string * ClusterEntry)) : Acc :=
  fold_left (delete_step want) cs acc.

(** Step 1. *)
Definition want_unhealthy (name : string) (e : ClusterEntry) (_ : list string)
    : option RecycleReason :=
  if state_eqb (state e) Unhealthy then Some UnhealthyReason else None.

(** Steps 2 and 5. *)
Definition want_stuck (now timeout : Z) (name : string) (e : ClusterEntry)
    (deleting : list string) : option RecycleReason :=
  if scheduling_blocked e then None
  else if state_eqb (state e) Creating && negb (in_set name deleting) then
    match state_since e with
    | Some since => if timeout <? now - since then Some CreatingTimeout else None
    | None => None
    end
  else None.

(** Step 3. *)
Definition want_drifted_creating (current_hash : SpecHash) (name : string) (e : ClusterEntry)
    (deleting : list string) : option RecycleReason :=
  if state_eqb (state e) Creating && negb (in_set name deleting) then
    match spec_hash e with
    | Some stamped => if String.eqb stamped current_hash then None else Some SpecDrift
    | None => None
    end
  else None.

Definition entry_drift_eligible (h : option SpecHash) (since : option Z)
    (current_hash : SpecHash) (now : Z) : bool :=
  match h with
  | Some h => negb (String.eqb h current_hash)
  | None => match since with
            | Some t => UNSTAMPED_RECYCLE_GRACE <=? now - t
            | None => false
            end
  end.

(** The candidates of step 4, in recycle order. *)
Definition drift_candidate (current_hash : SpecHash) (now : Z) (deleting : list string)
    (kv : string * ClusterEntry) : bool :=
  state_eqb (state (snd kv)) Ready && negb (in_set (fst kv) deleting) &&
  (entry_drift_eligible (spec_hash (snd kv)) (state_since (snd kv)) current_hash now
   || cert_expiring (snd kv)).

Definition drifted_ready (current_hash : SpecHash) (now : Z) (deleting : list string)
    (cs : list (string * ClusterEntry)) : list (string * ClusterEntry) :=
  sort_by drift_order (List.filter (drift_candidate current_hash now deleting) cs).

Definition drift_reason (current_hash : SpecHash) (now : Z) (e : ClusterEntry) : RecycleReason :=
  if negb (entry_drift_eligible (spec_hash e) (state_since e) current_hash now) && cert_expiring e
  then CertExpiry else SpecDrift.

(** The loop of step 4 over [drifted_ready.iter().take(max_recycling)]. *)
Fixpoint rolling_recycle (current_hash : SpecHash) (now floor remaining_ready : Z) (acc : Acc)
    (candidates : list (string * ClusterEntry)) : Acc :=
  match candidates with
  | [] => acc
  | (name, e) :: rest =>
      if remaining_ready <=? floor then acc
      else rolling_recycle current_hash now floor (remaining_ready - 1)
             (fst acc ++ [Delete name (drift_reason current_hash now e)], name :: snd acc) rest
  end.

(** Step 6: the names of the members to create. *)
Definition scale_up (profile : ClusterPool) (st : PoolState) (counts : StateCounts)
    (warm_target : Z) : list PoolAction :=
  let total := total_members counts in
  let max_clusters := pool_capacity profile in
  if (ready counts + creating counts <? warm_target) && (total <? max_clusters) then
    let deficit := saturating_sub warm_target (ready counts + creating counts) in
    let room := saturating_sub max_clusters total in
    let to_create := Z.min (Z.min deficit room) MAX_BURST in
    let profile_name := default "" (pool_name profile) in
    let max_index := max_existing_index st profile_name in
    map (fun i => Create (generate_cluster_name profile_name
                            (u32_add (u32_add max_index 1) (Z.of_nat i))))
        (seq 0 (Z.to_nat to_create))
  else [].

(** Step 7: the loop over the idle candidates. *)
Fixpoint reap_idle (now idle_max excess deleted_excess : Z)
    (candidates : list (string * ClusterEntry)) : list PoolAction :=
  match candidates with
  | [] => []
  | (name, e) :: rest =>
      if excess <=? deleted_excess then []
      else match idle_since e with
           | Some since =>
               if idle_max <? now - since
               then Delete name ScaleDown :: reap_idle now idle_max excess (deleted_excess + 1) rest
               else reap_idle now idle_max excess deleted_excess rest
           | None => reap_idle now idle_max excess deleted_excess rest
           end
  end.

Definition scale_down (now idle_max excess : Z) (deleting : list string)
    (cs : list (string * ClusterEntry)) : list PoolAction :=
  let idle kv := state_eqb (state (snd kv)) Ready && negb (in_set (fst kv) deleting) in
  reap_idle now idle_max excess 0 (sort_by idle_order (List.filter idle cs)).

Section Actions.
(** [chrono::DateTime::parse_from_rfc3339], a third-party parser. *)
Context (parse_from_rfc3339 : string -> option Z).

Definition backoff_active (profile : ClusterPool) (now : Z) : bool :=
  match status profile ≫= next_attempt_at with
  | None => false
  | Some next =>
      match parse_from_rfc3339 next with
      | Some next_at => now <? next_at
      | None => true
      end
  end.

(** [compute_pool_actions]; [current_hash] is [profile_spec_hash] of the pool,
    a SHA-256 digest of its rendered spec. *)
Definition compute_pool_actions (profile : ClusterPool) (st : PoolState) (now : Z)
    (current_hash : SpecHash) : list PoolAction :=
  let cs := clusters st in
  let acc := delete_loop want_unhealthy ([], []) cs in
  let '(min_ready, scale_down_after) := warm_config profile in
  let queue_demand := if is_some (scaling profile) then queue_depth st else 0 in
  let counts := count_states st (Some current_hash) in
  let policy := resolved_upgrade_policy profile min_ready in
  let timeout := resolve_creating_timeout profile in
  if backoff_active profile now then fst (delete_loop (want_stuck now timeout) acc cs)
  else
    let acc := delete_loop (want_drifted_creating current_hash) acc cs in
    let drifted := drifted_ready current_hash now (snd acc) cs in
    let recycle_candidates :=
      if resolved_max_recycling policy =? 0 then 0 else Z.of_nat (length drifted) in
    let acc := rolling_recycle current_hash now (resolved_floor policy) (ready counts) acc
                 (take (Z.to_nat (resolved_max_recycling policy)) drifted) in
    let acc := delete_loop (want_stuck now timeout) acc cs in
    let warm_target :=
      if 0 <? recycle_candidates
      then u32_add min_ready (Z.min (resolved_max_surge policy) recycle_candidates)
      else min_ready in
    let warm_target := u32_saturating_add warm_target queue_demand in
    let creates := scale_up profile st counts warm_target in
    let upgrade_in_progress := (0 <? recycle_candidates) || (0 <? creating_drifted counts) in
    let downs :=
      match scale_down_after with
      | Some idle_max =>
          if upgrade_in_progress then []
          else
            let excess := saturating_sub (ready counts) (u32_saturating_add min_ready queue_demand) in
            scale_down now idle_max excess (snd acc) cs
      | None => []
      end in
    fst acc ++ creates ++ downs.

(** [compute_pool_phase] *)
Definition compute_pool_phase (profile : ClusterPool) (counts : StateCounts)
    (queue_depth consecutive_failures : Z) (next_attempt_at : option string) (now : Z)
    : ClusterPoolPhase :=
  let min_ready := fst (warm_config profile) in
  let quarantined_present := 0 <? quarantined counts in
  let in_backoff :=
    (0 <? consecutive_failures) &&
    match next_attempt_at ≫= parse_from_rfc3339 with Some t => now <? t | None => false end in
  if FAILING_THRESHOLD <=? consecutive_failures then Failing
  else if in_backoff then Backoff
  else if (ready counts =? 0) && (leased counts =? 0) && (creating counts =? 0) &&
          (recycling counts =? 0) && (unhealthy counts =? 0) && (min_ready =? 0)
  then if quarantined_present then PhaseQuarantined else Idle
  else if (min_ready <? ready counts) && (0 <? recycling counts) then ScalingDown
  else if (Z.max min_ready 1 <=? ready counts) ||
          ((0 <? leased counts) && (min_ready <=? ready counts) && (queue_depth =? 0))
  then if quarantined_present then PhaseQuarantined else Healthy
  else if (ready counts =? 0) && (creating counts =? 0) && negb quarantined_present &&
          (0 <? queue_depth) && (0 <? leased counts) &&
          (pool_capacity profile <=? total_members counts)
  then Exhausted
  else ScalingUp.

End Actions.
