(* ===== verification/PoolActions.v ===== *)
(** * PoolActions: what the actions of one pool reconcile guarantee

    Theorems about [compute_pool_actions] of [PoolManager]: which members may be
    recycled and why, how many Ready members a reconcile can take away, how
    many members it creates and under which names, and what it does inside a
    backoff window. *)

From S2P Require Import Prelude Text Durations PoolManager.

(** The keys of the member map are distinct. *)
Definition wf_state (st : PoolState) : Prop := List.NoDup (map fst (clusters st)).

(** ** Sorting *)

Lemma insert_by_perm {A} (cmp : A -> A -> comparison) x l : insert_by cmp x l ≡ₚ x :: l.
Proof.
  induction l as [|y l IH]; cbn; [done|]. case_match; [done..|]. rewrite IH. apply perm_swap.
Qed.

Lemma sort_by_perm {A} (cmp : A -> A -> comparison) l : sort_by cmp l ≡ₚ l.
Proof. induction l as [|x l IH]; cbn; [done|]. rewrite insert_by_perm. by f_equiv. Qed.

Lemma sort_by_In {A} (cmp : A -> A -> comparison) l x : In x (sort_by cmp l) <-> In x l.
Proof. rewrite <- !list_elem_of_In, (sort_by_perm cmp l). done. Qed.

(** ** Reading the action list *)

Definition delete_name (a : PoolAction) : option string :=
  match a with Delete n _ => Some n | Create _ => None end.
Definition create_name (a : PoolAction) : option string :=
  match a with Create n => Some n | Delete _ _ => None end.

(** The names a reconcile recycles, and the names it creates, in order. *)
Definition deletes (l : list PoolAction) : list string := omap delete_name l.
Definition creates (l : list PoolAction) : list string := omap create_name l.

Definition entry_of (cs : list (string * ClusterEntry)) (n : string) : option ClusterEntry :=
  snd <$> List.find (fun kv => String.eqb (fst kv) n) cs.

Definition is_ready (cs : list (string * ClusterEntry)) (n : string) : bool :=
  match entry_of cs n with Some e => state_eqb (state e) Ready | None => false end.

(** How many Ready members the actions take away. *)
Definition ready_deletes (cs : list (string * ClusterEntry)) (l : list PoolAction) : Z :=
  Z.of_nat (length (List.filter (is_ready cs) (deletes l))).

Lemma state_eqb_eq a b : state_eqb a b = true <-> a = b.
Proof. apply bool_decide_eq_true. Qed.

Lemma entry_of_In cs n e : List.NoDup (map fst cs) -> In (n, e) cs -> entry_of cs n = Some e.
Proof.
  unfold entry_of. induction cs as [|[m f] cs IH]; cbn; [done|].
  intros Hnd [[= -> ->]|Hin]; [by rewrite String.eqb_refl|].
  inversion_clear Hnd as [|? ? Hni Hnd'].
  destruct (String.eqb_spec m n) as [->|]; [|auto].
  exfalso. apply Hni, (in_map fst _ _ Hin).
Qed.

Lemma is_ready_In cs n e :
  List.NoDup (map fst cs) -> In (n, e) cs -> is_ready cs n = state_eqb (state e) Ready.
Proof. intros Hnd Hin. unfold is_ready. by rewrite (entry_of_In _ _ e). Qed.

Lemma in_set_In name d : in_set name d = true <-> In name d.
Proof.
  unfold in_set. rewrite existsb_exists. split.
  - intros (x & Hx & ->%String.eqb_eq). done.
  - intros H. exists name. by rewrite String.eqb_refl.
Qed.

Lemma in_set_false name d : in_set name d = false <-> ~ In name d.
Proof. rewrite <- in_set_In. destruct (in_set name d); split; congruence. Qed.

Lemma deletes_app l l' : deletes (l ++ l') = deletes l ++ deletes l'.
Proof. unfold deletes. by rewrite omap_app. Qed.
Lemma creates_app l l' : creates (l ++ l') = creates l ++ creates l'.
Proof. unfold creates. by rewrite omap_app. Qed.

Lemma ready_deletes_app cs l l' :
  ready_deletes cs (l ++ l') = ready_deletes cs l + ready_deletes cs l'.
Proof.
  unfold ready_deletes. rewrite deletes_app, List.filter_app, length_app. lia.
Qed.

Lemma in_deletes n l : In n (deletes l) <-> exists r, In (Delete n r) l.
Proof.
  unfold deletes. rewrite <- list_elem_of_In, list_elem_of_omap.
  setoid_rewrite <- list_elem_of_In. split.
  - intros ([m|m r] & Hin & [= ->]). eauto.
  - intros [r Hin]. by exists (Delete n r).
Qed.

(** ** Justified recycles *)

(** Why a member may be recycled: what each [RecycleReason] means of the entry
    it is attached to. *)
Definition justified (profile : ClusterPool) (now : Z) (current_hash : SpecHash)
    (e : ClusterEntry) (r : RecycleReason) : Prop :=
  match r with
  | UnhealthyReason => state e = Unhealthy
  | CreatingTimeout =>
      state e = Creating /\ scheduling_blocked e = false /\
      exists since, state_since e = Some since /\ resolve_creating_timeout profile < now - since
  | SpecDrift =>
      (state e = Creating /\ exists h, spec_hash e = Some h /\ h <> current_hash) \/
      (state e = Ready /\ entry_drift_eligible (spec_hash e) (state_since e) current_hash now = true)
  | CertExpiry => state e = Ready /\ cert_expiring e = true
  | ScaleDown =>
      state e = Ready /\
      exists since idle_max, idle_since e = Some since /\
        snd (warm_config profile) = Some idle_max /\ idle_max < now - since
  | _ => False
  end.

Lemma justified_state profile now current_hash e r :
  justified profile now current_hash e r ->
  state e = Unhealthy \/ state e = Creating \/ state e = Ready.
Proof. destruct r; cbn; tauto. Qed.

Section Invariant.
Context (profile : ClusterPool) (st : PoolState) (now : Z) (current_hash : SpecHash).
Context (Hwf : wf_state st).
Let cs := clusters st.

(** The invariant of the two accumulators [actions] and [deleting]: every
    pushed action is a justified [Delete], [deleting] holds exactly the pushed
    names, and no name twice. *)
Record acc_ok (acc : Acc) : Prop := {
  acc_names : deletes (fst acc) ≡ₚ snd acc;
  acc_nodup : List.NoDup (snd acc);
  acc_just : forall n r, In (Delete n r) (fst acc) ->
    exists e, In (n, e) cs /\ justified profile now current_hash e r;
  acc_nocreate : creates (fst acc) = [];
}.

Lemma acc_ok_nil : acc_ok ([], []).
Proof. split; cbn; [done|constructor|done|done]. Qed.

Lemma acc_ok_push acc n e r :
  acc_ok acc -> In (n, e) cs -> ~ In n (snd acc) -> justified profile now current_hash e r ->
  acc_ok (fst acc ++ [Delete n r], n :: snd acc).
Proof.
  intros [Hn Hd Hj Hc] Hin Hni Hr. split; cbn.
  - rewrite deletes_app. cbn. rewrite Hn. symmetry. apply Permutation_cons_append.
  - by constructor.
  - intros m r' [H|[[= <- <-]|[]]]%in_app_or; eauto.
  - rewrite creates_app, Hc. done.
Qed.

(** A loop whose selector is justified, and which never selects a name already
    in [deleting], keeps the invariant. *)
Lemma delete_loop_ok want acc l :
  acc_ok acc -> (forall kv, In kv l -> In kv cs) ->
  (forall n e d r, In (n, e) cs -> want n e d = Some r ->
     justified profile now current_hash e r /\ ~ In n d) ->
  acc_ok (delete_loop want acc l).
Proof.
  intros Hacc Hsub Hwant. revert acc Hacc. unfold delete_loop.
  induction l as [|[n e] l IH]; intros acc Hacc; cbn; [done|].
  apply IH; [intros; apply Hsub; by right|]. unfold delete_step. cbn.
  destruct (want n e (snd acc)) as [r|] eqn:E; [|done].
  assert (In (n, e) cs) as Hin by (apply Hsub; by left).
  destruct (Hwant _ _ _ _ Hin E). by eapply acc_ok_push.
Qed.

(** Step 1 has no [deleting] test: the distinct keys of the map make it
    unnecessary. *)
Lemma unhealthy_loop_ok l acc :
  acc_ok acc -> (forall kv, In kv l -> In kv cs) -> List.NoDup (map fst l) ->
  (forall n, In n (snd acc) -> ~ In n (map fst l)) ->
  acc_ok (delete_loop want_unhealthy acc l).
Proof.
  unfold delete_loop. revert acc.
  induction l as [|[n e] l IH]; intros acc Hacc Hsub Hnd Hdis; cbn; [done|].
  inversion_clear Hnd as [|? ? Hni Hnd'].
  unfold delete_step, want_unhealthy. cbn.
  destruct (state_eqb (state e) Unhealthy) eqn:E.
  - apply IH; cbn; auto using in_cons.
    + eapply acc_ok_push; [done|apply Hsub; by left| |by apply state_eqb_eq].
      intros Hin. apply (Hdis _ Hin). by left.
    + intros m [<-|Hm]; [done|]. intros ?. apply (Hdis _ Hm). by right.
  - apply IH; auto using in_cons. intros m Hm ?. apply (Hdis _ Hm). by right.
Qed.

Lemma want_stuck_just n e d r :
  want_stuck now (resolve_creating_timeout profile) n e d = Some r ->
  (justified profile now current_hash e r /\ ~ In n d) /\ state e <> Ready.
Proof.
  unfold want_stuck. destruct (scheduling_blocked e) eqn:Hb; [done|].
  destruct (state_eqb (state e) Creating && negb (in_set n d)) eqn:E; [|done].
  apply andb_true_iff in E as [Hs%state_eqb_eq Hd%negb_true_iff%in_set_false].
  destruct (state_since e) as [since|] eqn:Hsince; [|done].
  destruct (_ <? _) eqn:Hlt; [|done]. intros [= <-]. apply Z.ltb_lt in Hlt.
  rewrite Hs. split; [|done]. split; [|done]. cbn. eauto.
Qed.

Lemma want_drifted_creating_just n e d r :
  want_drifted_creating current_hash n e d = Some r ->
  (justified profile now current_hash e r /\ ~ In n d) /\ state e <> Ready.
Proof.
  unfold want_drifted_creating.
  destruct (state_eqb (state e) Creating && negb (in_set n d)) eqn:E; [|done].
  apply andb_true_iff in E as [Hs%state_eqb_eq Hd%negb_true_iff%in_set_false].
  destruct (spec_hash e) as [h|] eqn:Hh; [|done].
  destruct (String.eqb_spec h current_hash); [done|]. intros [= <-].
  rewrite Hs. split; [|done]. split; [|done]. cbn. left. eauto.
Qed.

Lemma drifted_ready_spec d n e :
  In (n, e) (drifted_ready current_hash now d cs) ->
  In (n, e) cs /\ state e = Ready /\ ~ In n d /\
  (entry_drift_eligible (spec_hash e) (state_since e) current_hash now = true \/
   cert_expiring e = true).
Proof.
  unfold drifted_ready. rewrite sort_by_In, filter_In. unfold drift_candidate. cbn.
  rewrite !andb_true_iff, orb_true_iff, negb_true_iff, in_set_false, state_eqb_eq.
  tauto.
Qed.

Lemma drift_reason_just e :
  state e = Ready ->
  entry_drift_eligible (spec_hash e) (state_since e) current_hash now = true \/
  cert_expiring e = true ->
  justified profile now current_hash e (drift_reason current_hash now e).
Proof.
  intros Hs Hor. unfold drift_reason.
  destruct (entry_drift_eligible _ _ _ _) eqn:E, (cert_expiring e) eqn:Ec; cbn; auto.
  by destruct Hor.
Qed.

Lemma sublist_NoDup_fst (l : list (string * ClusterEntry)) f :
  List.NoDup (map fst l) -> List.NoDup (map fst (List.filter f l)).
Proof.
  induction l as [|kv l IH]; cbn; [done|]. inversion_clear 1 as [|? ? Hni Hnd].
  destruct (f kv); cbn; auto. constructor; [|auto].
  contradict Hni. apply in_map_iff in Hni as (kv' & <- & [Hin _]%filter_In). by apply in_map.
Qed.

Lemma sort_by_NoDup_fst cmp (l : list (string * ClusterEntry)) :
  List.NoDup (map fst l) -> List.NoDup (map fst (sort_by cmp l)).
Proof.
  intros H. eapply Permutation_NoDup; [|exact H]. apply Permutation_map. symmetry. apply sort_by_perm.
Qed.

Lemma take_NoDup_fst k (l : list (string * ClusterEntry)) :
  List.NoDup (map fst l) -> List.NoDup (map fst (take k l)).
Proof.
  intros H. rewrite <- (take_drop k l), map_app in H. by apply NoDup_app_remove_r in H.
Qed.

Lemma take_In {A} k (l : list A) x : In x (take k l) -> In x l.
Proof. intros H. rewrite <- (take_drop k l). apply in_or_app. by left. Qed.

(** Step 4 keeps the invariant and deletes [k] Ready members with
    [k <= length candidates] and [k <= max 0 (remaining - floor)]. *)
Lemma rolling_recycle_ok floor remaining acc l :
  acc_ok acc -> List.NoDup (map fst l) ->
  (forall n e, In (n, e) l ->
     In (n, e) cs /\ state e = Ready /\ ~ In n (snd acc) /\
     (entry_drift_eligible (spec_hash e) (state_since e) current_hash now = true \/
      cert_expiring e = true)) ->
  let acc' := rolling_recycle current_hash now floor remaining acc l in
  acc_ok acc' /\
  exists k, ready_deletes cs (fst acc') = ready_deletes cs (fst acc) + k /\
    0 <= k <= Z.of_nat (length l) /\ k <= Z.max 0 (remaining - floor).
Proof.
  cbn zeta. revert remaining acc.
  induction l as [|[n e] l IH]; intros remaining acc Hacc Hnd Hl; cbn [rolling_recycle].
  { split; [done|]. exists 0. cbn. lia. }
  destruct (Z.leb_spec remaining floor); [split; [done|]; exists 0; lia|].
  cbn in Hnd. apply NoDup_cons_iff in Hnd as [Hni Hnd].
  destruct (Hl n e) as (Hin & Hs & Hd & Hor); [by left|].
  assert (acc_ok (fst acc ++ [Delete n (drift_reason current_hash now e)], n :: snd acc)) as Hacc'.
  { eapply acc_ok_push; eauto using drift_reason_just. }
  destruct (IH (remaining - 1) _ Hacc' Hnd) as (Hok & k & Hk & Hk1 & Hk2).
  { intros m f Hm. destruct (Hl m f) as (? & ? & ? & ?); [by right|]. split_and!; auto.
    intros [<-|?]; [|done]. apply Hni. by apply (in_map fst) in Hm. }
  split; [exact Hok|]. exists (k + 1). rewrite Hk. cbn [fst]. rewrite ready_deletes_app.
  replace (ready_deletes cs [Delete n (drift_reason current_hash now e)]) with 1.
  { cbn [length]. lia. }
  unfold ready_deletes. cbn. by rewrite (is_ready_In cs n e), Hs.
Qed.

(** A loop that never selects a Ready member does not change the count. *)
Lemma delete_loop_ready want acc l :
  (forall kv, In kv l -> In kv cs) ->
  (forall n e d r, In (n, e) cs -> want n e d = Some r -> state e <> Ready) ->
  ready_deletes cs (fst (delete_loop want acc l)) = ready_deletes cs (fst acc).
Proof.
  intros Hsub Hwant. unfold delete_loop. revert acc.
  induction l as [|[n e] l IH]; intros acc; cbn; [done|].
  rewrite IH by (intros; apply Hsub; by right).
  unfold delete_step. cbn. destruct (want n e (snd acc)) as [r|] eqn:E; [|done]. cbn.
  assert (In (n, e) cs) as Hin by (apply Hsub; by left).
  rewrite ready_deletes_app.
  replace (ready_deletes cs [Delete n r]) with 0; [lia|].
  unfold ready_deletes. cbn. rewrite (is_ready_In cs n e) by done.
  pose proof (Hwant _ _ _ _ Hin E).
  destruct (state_eqb (state e) Ready) eqn:Es; [by apply state_eqb_eq in Es|done].
Qed.

(** Step 7 emits at most [excess] justified deletes of distinct names of its
    candidates. *)
Lemma reap_idle_ok idle_max excess dele l :
  snd (warm_config profile) = Some idle_max -> 0 <= dele -> List.NoDup (map fst l) ->
  (forall n e, In (n, e) l -> In (n, e) cs /\ state e = Ready) ->
  let out := reap_idle now idle_max excess dele l in
  Z.of_nat (length out) <= Z.max 0 (excess - dele) /\
  creates out = [] /\ List.NoDup (deletes out) /\
  (forall n r, In (Delete n r) out -> exists e, In (n, e) l /\ justified profile now current_hash e r).
Proof.
  intros Hcfg. cbn zeta. revert dele.
  induction l as [|[n e] l IH]; intros dele Hd Hnd Hl; cbn [reap_idle].
  { cbn. split; [lia|]. repeat split; [constructor|done]. }
  cbn in Hnd. apply NoDup_cons_iff in Hnd as [Hni Hnd].
  destruct (Z.leb_spec excess dele).
  { cbn. split; [lia|]. repeat split; [constructor|done]. }
  assert (forall n e, In (n, e) l -> In (n, e) cs /\ state e = Ready) as Hl' by (intros; apply Hl; by right).
  assert (let out := reap_idle now idle_max excess dele l in
    Z.of_nat (length out) <= Z.max 0 (excess - dele) /\
    creates out = [] /\ List.NoDup (deletes out) /\
    (forall m r, In (Delete m r) out -> exists f, In (m, f) ((n, e) :: l) /\ justified profile now current_hash f r))
    as Hskip.
  { cbn zeta. destruct (IH dele) as (H1 & H2 & H3 & H4); auto. split_and!; auto.
    intros m r Hm. destruct (H4 m r Hm) as (f & ? & ?). exists f. split; [by right|done]. }
  destruct (idle_since e) as [since|] eqn:Hi; [|exact Hskip].
  destruct (Z.ltb_spec idle_max (now - since)) as [Hlt|]; [|exact Hskip].
  destruct (IH (dele + 1)) as (H1 & H2 & H3 & H4); auto; [lia|].
  cbn [length]. split; [lia|]. split; [done|]. split.
  - cbn. constructor; [|done]. intros (r & Hr)%in_deletes.
    destruct (H4 n r Hr) as (f & Hf & _). apply Hni. by apply (in_map fst) in Hf.
  - intros m r [[= <- <-]|Hm].
    + exists e. split; [by left|]. cbn. split; [by apply (Hl n); left|]. exists since, idle_max. done.
    + destruct (H4 m r Hm) as (f & ? & ?). exists f. split; [by right|done].
Qed.

Lemma ready_deletes_length l : 0 <= ready_deletes cs l <= Z.of_nat (length l).
Proof.
  unfold ready_deletes. split; [lia|].
  transitivity (Z.of_nat (length (deletes l))).
  - apply inj_le, List.filter_length_le.
  - apply inj_le. unfold deletes. induction l as [|[n|n r] l IH]; cbn in *; lia.
Qed.

End Invariant.

(** ** The whole reconcile *)

Section Reconcile.
Context (parse_from_rfc3339 : string -> option Z).
Context (profile : ClusterPool) (st : PoolState) (now : Z) (current_hash : SpecHash).
Context (Hwf : wf_state st).
Let cs := clusters st.
Let actions := compute_pool_actions parse_from_rfc3339 profile st now current_hash.
Let counts := count_states st (Some current_hash).
Let queue_demand := if is_some (scaling profile) then queue_depth st else 0.
Let policy := resolved_upgrade_policy profile (fst (warm_config profile)).
Let ok := acc_ok profile st now current_hash.

Lemma unhealthy_ok :
  let acc := delete_loop want_unhealthy ([], []) cs in
  ok acc /\ ready_deletes cs (fst acc) = 0.
Proof.
  cbn zeta. split.
  - apply unhealthy_loop_ok; [apply acc_ok_nil|done|done|done].
  - rewrite (delete_loop_ready st Hwf); [done|done|].
    intros n e d r _. unfold want_unhealthy.
    destruct (state_eqb (state e) Unhealthy) eqn:E; [|done].
    apply state_eqb_eq in E as ->. done.
Qed.

Lemma stuck_ok acc :
  ok acc ->
  let acc' := delete_loop (want_stuck now (resolve_creating_timeout profile)) acc cs in
  ok acc' /\ ready_deletes cs (fst acc') = ready_deletes cs (fst acc).
Proof.
  intros Hacc. cbn zeta. split.
  - apply delete_loop_ok; [done|done|]. intros n e d r _ H.
    by destruct (want_stuck_just profile now current_hash n e d r H).
  - apply (delete_loop_ready st Hwf); [done|]. intros n e d r _ H.
    by destruct (want_stuck_just profile now current_hash n e d r H).
Qed.

Lemma drifted_creating_ok acc :
  ok acc ->
  let acc' := delete_loop (want_drifted_creating current_hash) acc cs in
  ok acc' /\ ready_deletes cs (fst acc') = ready_deletes cs (fst acc).
Proof.
  intros Hacc. cbn zeta. split.
  - apply delete_loop_ok; [done|done|]. intros n e d r _ H.
    by destruct (want_drifted_creating_just profile now current_hash n e d r H).
  - apply (delete_loop_ready st Hwf); [done|]. intros n e d r _ H.
    by destruct (want_drifted_creating_just profile now current_hash n e d r H).
Qed.

(** Inside a backoff window only steps 1 and 5 run. *)
Lemma backoff_actions :
  backoff_active parse_from_rfc3339 profile now = true ->
  exists acc, actions = fst acc /\ ok acc /\ ready_deletes cs (fst acc) = 0.
Proof.
  intros Hb. destruct unhealthy_ok as [H1 R1]. destruct (stuck_ok _ H1) as [H2 R2].
  eexists. split; [|split; [exact H2|by rewrite R2]].
  subst actions. unfold compute_pool_actions. rewrite Hb.
  by destruct (warm_config profile).
Qed.

(** Outside it: the recycles of steps 1 to 5, then the creates of step 6, then
    the idle reaps of step 7. *)
Lemma normal_actions :
  backoff_active parse_from_rfc3339 profile now = false ->
  exists acc downs candidates,
    let min_ready := fst (warm_config profile) in
    let warm_target :=
      u32_saturating_add
        (if 0 <? candidates
         then u32_add min_ready (Z.min (resolved_max_surge policy) candidates) else min_ready)
        queue_demand in
    let excess := saturating_sub (ready counts) (u32_saturating_add min_ready queue_demand) in
    actions = fst acc ++ scale_up profile st counts warm_target ++ downs /\
    ok acc /\
    (exists k, ready_deletes cs (fst acc) = k /\ k <= Z.max 0 (ready counts - resolved_floor policy) /\
       k <= Z.max 0 (resolved_max_recycling policy) /\ (0 < k -> downs = [])) /\
    Z.of_nat (length downs) <= excess /\
    creates downs = [] /\ List.NoDup (deletes downs) /\
    (forall n r, In (Delete n r) downs ->
       exists e, In (n, e) cs /\ ~ In n (snd acc) /\ justified profile now current_hash e r) /\
    (downs <> [] -> candidates <= 0) /\ 0 <= candidates.
Proof.
  intros Hb. subst actions. unfold compute_pool_actions. rewrite Hb. fold cs counts.
  destruct unhealthy_ok as [H1 R1]. destruct (drifted_creating_ok _ H1) as [H3 R3].
  set (acc3 := delete_loop (want_drifted_creating current_hash) _ cs) in *.
  set (drifted := drifted_ready current_hash now (snd acc3) cs).
  destruct (warm_config profile) as [min_ready down_after] eqn:Hcfg. cbn [fst] in *.
  fold policy.
  destruct (rolling_recycle_ok profile st now current_hash Hwf (resolved_floor policy)
    (ready counts) acc3 (take (Z.to_nat (resolved_max_recycling policy)) drifted)) as (H4 & k & Rk & Hk1 & Hk2).
  { exact H3. }
  { apply take_NoDup_fst, sort_by_NoDup_fst, sublist_NoDup_fst, Hwf. }
  { intros n e Hin%take_In. by apply drifted_ready_spec. }
  set (acc4 := rolling_recycle _ _ _ _ _ _) in *. fold cs in Rk.
  destruct (stuck_ok _ H4) as [H5 R5].
  set (acc5 := delete_loop (want_stuck _ _) acc4 cs) in *.
  set (cand := if resolved_max_recycling policy =? 0 then 0 else Z.of_nat (length drifted)).
  set (excess := saturating_sub (ready counts) (u32_saturating_add min_ready queue_demand)).
  eexists acc5, (match down_after with
    | Some idle_max => if (0 <? cand) || (0 <? creating_drifted counts) then []
                       else scale_down now idle_max excess (snd acc5) cs
    | None => [] end), cand.
  split; [reflexivity|]. split; [exact H5|].
  assert (0 <= excess) by (unfold excess, saturating_sub; lia).
  assert (0 <= cand) by (unfold cand; case_match; lia).
  pose proof (length_take drifted (Z.to_nat (resolved_max_recycling policy))) as Hlen.
  split.
  { exists k. rewrite R5, Rk, R3, R1. split; [lia|]. split; [lia|]. split; [lia|].
    intros Hk. replace (0 <? cand) with true; [by destruct down_after|].
    symmetry. apply Z.ltb_lt. unfold cand. destruct (Z.eqb_spec (resolved_max_recycling policy) 0); lia. }
  destruct down_after as [idle_max|]; [|cbn; split_and!; done || lia || constructor].
  destruct (0 <? cand) eqn:Ec; cbn [orb]; [cbn; split_and!; done || lia || constructor|].
  destruct (0 <? creating_drifted counts); [cbn; split_and!; done || lia || constructor|].
  apply Z.ltb_ge in Ec.
  unfold scale_down. set (l := sort_by idle_order _).
  assert (forall n e, In (n, e) l -> (In (n, e) cs /\ state e = Ready) /\ ~ In n (snd acc5)) as Hl.
  { intros n e. subst l. rewrite sort_by_In, filter_In. cbn.
    rewrite andb_true_iff, state_eqb_eq, negb_true_iff, in_set_false. tauto. }
  destruct (reap_idle_ok profile st now current_hash idle_max excess 0 l) as (D1 & D2 & D3 & D4).
  { by rewrite Hcfg. } { lia. } { apply sort_by_NoDup_fst, sublist_NoDup_fst, Hwf. }
  { intros n e Hin. by apply Hl. }
  split; [lia|]. split; [done|]. split; [done|]. split; [|done].
  intros n r Hin. destruct (D4 n r Hin) as (e & He & Hj). destruct (Hl n e He) as [[? ?] ?]. eauto.
Qed.

Lemma delete_loop_In want acc l n r :
  In (Delete n r) (fst (delete_loop want acc l)) ->
  In (Delete n r) (fst acc) \/ exists e d, In (n, e) l /\ want n e d = Some r.
Proof.
  unfold delete_loop. revert acc. induction l as [|[m e] l IH]; intros acc; cbn; [auto|].
  intros [H|(f & d & ? & ?)]%IH; [|by eauto 8].
  unfold delete_step in H. cbn in H. destruct (want m e (snd acc)) eqn:E; [|auto].
  cbn in H. apply in_app_or in H as [H|[[= <- <-]|[]]]; eauto 8.
Qed.

(** Inside a backoff window a recycle is for an unhealthy or a stuck member. *)
Lemma backoff_reasons n r :
  backoff_active parse_from_rfc3339 profile now = true ->
  In (Delete n r) actions -> r = UnhealthyReason \/ r = CreatingTimeout.
Proof.
  intros Hb. subst actions. unfold compute_pool_actions. rewrite Hb.
  destruct (warm_config profile).
  intros [[H|(e & d & _ & H)]%delete_loop_In|(e & d & _ & H)]%delete_loop_In; [done| |].
  - unfold want_unhealthy in H. case_match; simplify_eq; auto.
  - unfold want_stuck in H. repeat case_match; simplify_eq; auto.
Qed.

Lemma acc_names_In acc n : ok acc -> In n (snd acc) <-> In n (deletes (fst acc)).
Proof. intros [Hn _ _ _]. by rewrite <- !list_elem_of_In, Hn. Qed.

Lemma actions_justified n r :
  In (Delete n r) actions -> exists e, In (n, e) cs /\ justified profile now current_hash e r.
Proof.
  destruct (backoff_active parse_from_rfc3339 profile now) eqn:Hb.
  { destruct (backoff_actions Hb) as (acc & -> & Hok & _). apply (acc_just _ _ _ _ _ Hok). }
  destruct (normal_actions Hb) as (acc & downs & cand & -> & Hok & _ & _ & _ & _ & Hd & _).
  intros [H|[H|H]%in_app_or]%in_app_or.
  - by apply (acc_just _ _ _ _ _ Hok).
  - exfalso. unfold scale_up in H. case_match; [|done].
    apply in_map_iff in H as (? & ? & _). done.
  - destruct (Hd n r H) as (e & ? & _ & ?). eauto.
Qed.

Lemma scale_up_deletes c wt : deletes (scale_up profile st c wt) = [].
Proof.
  unfold scale_up. case_match; [|done].
  match goal with |- context [seq 0 ?k] => generalize (seq 0 k) end.
  induction l as [|i l IH]; cbn; [done|]. exact IH.
Qed.

Lemma actions_NoDup : List.NoDup (deletes actions).
Proof.
  destruct (backoff_active parse_from_rfc3339 profile now) eqn:Hb.
  { destruct (backoff_actions Hb) as (acc & -> & Hok & _).
    eapply Permutation_NoDup; [symmetry; apply (acc_names _ _ _ _ _ Hok)|apply Hok]. }
  destruct (normal_actions Hb) as (acc & downs & cand & -> & Hok & _ & _ & _ & Hnd & Hd & _).
  rewrite !deletes_app, scale_up_deletes. cbn [app].
  apply NoDup_ListNoDup, NoDup_app. rewrite !NoDup_ListNoDup. split_and!; [|..|done].
  - eapply Permutation_NoDup; [symmetry; apply (acc_names _ _ _ _ _ Hok)|apply Hok].
  - intros n. rewrite !list_elem_of_In. intros H1 [r H2]%in_deletes.
    destruct (Hd n r H2) as (e & _ & Hni & _). apply Hni. by apply acc_names_In.
Qed.

Lemma actions_ready_deletes :
  let k := ready_deletes cs actions in
  (k <= Z.max 0 (resolved_max_recycling policy) /\ k <= Z.max 0 (ready counts - resolved_floor policy)) \/
  k <= saturating_sub (ready counts) (u32_saturating_add (fst (warm_config profile)) queue_demand).
Proof.
  cbn zeta. destruct (backoff_active parse_from_rfc3339 profile now) eqn:Hb.
  { destruct (backoff_actions Hb) as (acc & -> & _ & ->). left; lia. }
  destruct (normal_actions Hb) as (acc & downs & cand & -> & _ & (k & Hk & Hk1 & Hk2 & Hk3) & Hlen & _).
  rewrite !ready_deletes_app, Hk.
  replace (ready_deletes cs (scale_up profile st counts _)) with 0
    by (unfold ready_deletes; by rewrite scale_up_deletes).
  pose proof (ready_deletes_length st downs) as Hd. fold cs in Hd.
  assert (0 <= k) by (rewrite <- Hk; unfold ready_deletes; lia).
  destruct (Z_lt_le_dec 0 k) as [Hpos|]; [rewrite (Hk3 Hpos) in *; left; cbn in Hd; lia|right; lia].
Qed.

(** What step 6 creates, whatever else the reconcile does. *)
Lemma actions_creates :
  creates actions = [] \/ exists candidates, 0 <= candidates /\
  let min_ready := fst (warm_config profile) in
  creates actions = creates (scale_up profile st counts
    (u32_saturating_add
       (if 0 <? candidates
        then u32_add min_ready (Z.min (resolved_max_surge policy) candidates) else min_ready)
       queue_demand)).
Proof.
  destruct (backoff_active parse_from_rfc3339 profile now) eqn:Hb.
  { left. destruct (backoff_actions Hb) as (acc & -> & Hok & _). apply Hok. }
  right. destruct (normal_actions Hb) as (acc & downs & cand & -> & Hok & _ & _ & Hc & _ & _ & _ & H0).
  exists cand. split; [done|]. cbn zeta.
  rewrite !creates_app, Hc, (acc_nocreate _ _ _ _ _ Hok), app_nil_r. done.
Qed.

End Reconcile.

(** ** What step 6 creates *)

(** The name of the [i]-th member step 6 creates. *)
Definition nth_new_name (profile : ClusterPool) (st : PoolState) (i : nat) : string :=
  let p := default "" (pool_name profile) in
  generate_cluster_name p (u32_add (u32_add (max_existing_index st p) 1) (Z.of_nat i)).

(** How many members step 6 creates. *)
Definition burst (profile : ClusterPool) (counts : StateCounts) (warm_target : Z) : Z :=
  Z.min (Z.min (saturating_sub warm_target (ready counts + creating counts))
               (saturating_sub (pool_capacity profile) (total_members counts))) MAX_BURST.

Lemma scale_up_creates profile st counts wt :
  creates (scale_up profile st counts wt)
  = map (nth_new_name profile st) (seq 0 (Z.to_nat (burst profile counts wt))).
Proof.
  unfold scale_up. fold (burst profile counts wt).
  destruct ((ready counts + creating counts <? wt) && (total_members counts <? pool_capacity profile)) eqn:E.
  - generalize (seq 0 (Z.to_nat (burst profile counts wt))).
    induction l as [|i l IH]; cbn; [done|]. by f_equal.
  - replace (Z.to_nat (burst profile counts wt)) with O; [done|].
    unfold burst, saturating_sub, MAX_BURST. apply andb_false_iff in E. lia.
Qed.

#[local] Arguments index_of_name : simpl never.

Lemma max_existing_index_ge st p n e i :
  In (n, e) (clusters st) -> index_of_name p n = Some i -> i <= max_existing_index st p.
Proof.
  unfold max_existing_index. induction (clusters st) as [|[m f] l IH]; cbn; [done|].
  intros [[= -> ->]|Hin] Hi; [rewrite Hi; cbn; lia|].
  specialize (IH Hin Hi). destruct (index_of_name p m) as [j|]; cbn; [|exact IH].
  etransitivity; [exact IH|]. apply Z.le_max_r.
Qed.

Lemma max_existing_index_nonneg st p : 0 <= max_existing_index st p.
Proof.
  unfold max_existing_index. induction (omap _ _); cbn; lia.
Qed.

Lemma index_of_generated p i :
  0 <= i <= u32_max -> index_of_name p (generate_cluster_name p i) = Some i.
Proof.
  intros Hi. unfold index_of_name, generate_cluster_name, name_prefix.
  replace ("pool-" +:+ p +:+ "-" +:+ show_uint i)
    with (("pool-" +:+ p +:+ "-") +:+ show_uint i) by (by rewrite !app_assoc_str).
  rewrite strip_prefix_app. cbn. by apply parse_uint_show.
Qed.

(** The new names are distinct and unused as long as the two indices after the
    largest one fit a [u32]. *)
Lemma new_names_fresh profile st k :
  max_existing_index st (default "" (pool_name profile)) + MAX_BURST <= u32_max ->
  (k <= Z.to_nat MAX_BURST)%nat ->
  List.NoDup (map (nth_new_name profile st) (seq 0 k)) /\
  forall n, In n (map (nth_new_name profile st) (seq 0 k)) -> ~ In n (map fst (clusters st)).
Proof.
  intros Hmax Hk. set (p := default "" (pool_name profile)) in *.
  pose proof (max_existing_index_nonneg st p) as H0.
  assert (forall i, (i < k)%nat ->
    index_of_name p (nth_new_name profile st i) = Some (max_existing_index st p + 1 + Z.of_nat i)) as Hix.
  { intros i Hi. unfold nth_new_name. fold p. unfold MAX_BURST in *.
    rewrite (u32_add_small _ 1) by (unfold is_u32, u32_max in *; lia).
    rewrite u32_add_small by (unfold is_u32, u32_max in *; lia).
    apply index_of_generated. lia. }
  split.
  - apply NoDup_map_NoDup_ForallPairs; [|apply seq_NoDup].
    intros i j Hi%in_seq Hj%in_seq Heq. pose proof (Hix i ltac:(lia)) as E.
    rewrite Heq, Hix in E by lia. injection E. lia.
  - intros n (i & <- & Hi%in_seq)%in_map_iff ((m & e) & Hm & Hin)%in_map_iff. cbn [fst] in Hm.
    pose proof (Hix i ltac:(lia)) as E. rewrite <- Hm in E.
    pose proof (max_existing_index_ge st p m e _ Hin E). lia.
Qed.

(** ** Theorems *)

(** C27. Every recycle a reconcile orders is of a member of the pool and is
    justified by that member's entry: an unhealthy member, a Creating member
    past its deadline or built from an old spec, or a Ready member that
    drifted, whose certificates expire, or that idled past the scale-down
    delay.  A Leased, Quarantined or Recycling member is never touched, and no
    member is recycled twice. *)
Theorem recycles_are_justified (parse_from_rfc3339 : string -> option Z) (profile : ClusterPool)
    (st : PoolState) (now : Z) (current_hash : SpecHash) (Hwf : wf_state st) :
  let actions := compute_pool_actions parse_from_rfc3339 profile st now current_hash in
  List.NoDup (deletes actions) /\
  forall n r, In (Delete n r) actions ->
    exists e, In (n, e) (clusters st) /\ justified profile now current_hash e r /\
      state e <> Leased /\ state e <> Quarantined /\ state e <> Recycling.
Proof.
  cbn zeta. split; [by apply actions_NoDup|]. intros n r Hin.
  destruct (actions_justified _ _ _ _ _ Hwf n r Hin) as (e & He & Hj). exists e.
  split; [done|]. split; [done|].
  by destruct (justified_state _ _ _ _ _ Hj) as [->|[->| ->]].
Qed.

(** Ready members are protected: one reconcile takes away at most
    [max_recycling] Ready members and never goes below the upgrade floor, or,
    when it scales an idle pool down, never goes below [min_ready] plus the
    queued demand. *)
Theorem ready_members_protected (parse_from_rfc3339 : string -> option Z) (profile : ClusterPool)
    (st : PoolState) (now : Z) (current_hash : SpecHash) (Hwf : wf_state st) :
  let actions := compute_pool_actions parse_from_rfc3339 profile st now current_hash in
  let counts := count_states st (Some current_hash) in
  let min_ready := fst (warm_config profile) in
  let policy := resolved_upgrade_policy profile min_ready in
  let demand := if is_some (scaling profile) then queue_depth st else 0 in
  let left := ready counts - ready_deletes (clusters st) actions in
  (left = ready counts \/
   (resolved_floor policy <= left /\ ready counts - left <= resolved_max_recycling policy)) \/
  u32_saturating_add min_ready demand <= left.
Proof.
  cbn zeta. pose proof (actions_ready_deletes parse_from_rfc3339 profile st now current_hash Hwf) as H.
  cbn zeta in H. set (k := ready_deletes _ _) in *.
  assert (0 <= k) by (apply (ready_deletes_length st)). unfold saturating_sub in H. lia.
Qed.

(** Creation is bounded and fresh: a reconcile creates at most two members,
    never takes the pool past its capacity, and, while the next two indices
    fit a [u32], the names it picks are distinct and belong to no member. *)
Theorem creates_bounded_and_fresh (parse_from_rfc3339 : string -> option Z) (profile : ClusterPool)
    (st : PoolState) (now : Z) (current_hash : SpecHash) (Hwf : wf_state st)
    (Hidx : max_existing_index st (default "" (pool_name profile)) + MAX_BURST <= u32_max) :
  let names := creates (compute_pool_actions parse_from_rfc3339 profile st now current_hash) in
  let total := total_members (count_states st (Some current_hash)) in
  Z.of_nat (length names) <= MAX_BURST /\
  total + Z.of_nat (length names) <= Z.max total (pool_capacity profile) /\
  List.NoDup names /\ forall n, In n names -> ~ In n (map fst (clusters st)).
Proof.
  cbn zeta. destruct (actions_creates parse_from_rfc3339 profile st now current_hash Hwf)
    as [->|(cand & Hc & ->)]; [cbn; split_and!; [done|lia|constructor|done]|].
  rewrite scale_up_creates. set (b := burst _ _ _).
  assert (b <= MAX_BURST /\
    b <= saturating_sub (pool_capacity profile) (total_members (count_states st (Some current_hash))))
    as [Hb1 Hb2] by (subst b; unfold burst; lia).
  rewrite length_map, length_seq. unfold saturating_sub, MAX_BURST in *.
  split; [lia|]. split; [lia|]. apply new_names_fresh; [exact Hidx|]; unfold MAX_BURST; lia.
Qed.

(** Inside a backoff window the reconcile only cleans up: nothing is
    created, no Ready member is touched, and a recycle is for an unhealthy
    member or one stuck in Creating. *)
Theorem backoff_window_only_cleans_up (parse_from_rfc3339 : string -> option Z)
    (profile : ClusterPool) (st : PoolState) (now : Z) (current_hash : SpecHash)
    (Hwf : wf_state st) (Hb : backoff_active parse_from_rfc3339 profile now = true) :
  let actions := compute_pool_actions parse_from_rfc3339 profile st now current_hash in
  creates actions = [] /\ ready_deletes (clusters st) actions = 0 /\
  forall n r, In (Delete n r) actions -> r = UnhealthyReason \/ r = CreatingTimeout.
Proof.
  cbn zeta. destruct (backoff_actions _ _ _ _ current_hash Hwf Hb) as (acc & E & Hok & Hr).
  split; [|split].
  - rewrite E. apply (acc_nocreate _ _ _ _ _ Hok).
  - by rewrite E.
  - intros n r. by apply backoff_reasons.
Qed.

(** Demand is met: outside a backoff window, a pool with fewer warm or
    provisioning members than [min_ready] plus the queue creates as many
    members as the deficit, the room left under its capacity and the burst
    limit allow (at least one if there is room). *)
Theorem demand_provisions (parse_from_rfc3339 : string -> option Z) (profile : ClusterPool)
    (st : PoolState) (now : Z) (current_hash : SpecHash) (Hwf : wf_state st)
    (Hb : backoff_active parse_from_rfc3339 profile now = false)
    (Hsurge : 0 <= resolved_max_surge (resolved_upgrade_policy profile (fst (warm_config profile))))
    (Hfit : 0 <= fst (warm_config profile) /\
      fst (warm_config profile) + resolved_max_surge
        (resolved_upgrade_policy profile (fst (warm_config profile))) <= u32_max) :
  let names := creates (compute_pool_actions parse_from_rfc3339 profile st now current_hash) in
  let counts := count_states st (Some current_hash) in
  let demand := if is_some (scaling profile) then queue_depth st else 0 in
  burst profile counts (u32_saturating_add (fst (warm_config profile)) demand)
    <= Z.of_nat (length names).
Proof.
  cbn zeta. destruct (normal_actions _ _ _ _ current_hash Hwf Hb)
    as (acc & downs & cand & -> & Hok & _ & _ & Hc & _ & _ & _ & H0).
  rewrite !creates_app, Hc, (acc_nocreate _ _ _ _ _ Hok), app_nil_r. cbn [app].
  rewrite scale_up_creates, length_map, length_seq.
  set (mr := fst (warm_config profile)) in *. set (pol := resolved_upgrade_policy profile mr) in *.
  set (q := if is_some _ then _ else _).
  assert (mr <= if 0 <? cand then u32_add mr (Z.min (resolved_max_surge pol) cand) else mr) as Hle.
  { case_match; [|lia]. rewrite u32_add_small by (unfold is_u32 in *; lia). lia. }
  unfold burst, u32_saturating_add, saturating_sub in *. lia.
Qed.

(** ** A pool to run the theorems on

    Two Ready members (one of an old spec), one stuck in Creating, one Leased
    and one Unhealthy; two requests queue. *)
Definition example_entry (s : ClusterState) (hash : SpecHash) (since : Z) : ClusterEntry :=
  {| state := s; idle_since := Some since; health_failures := 0; state_since := Some since;
     spec_hash := Some hash; scheduling_blocked := false; crashlooping := false;
     crash_message := None; cert_horizon_secs := None |}.

Definition example_state : PoolState :=
  {| clusters := [("pool-ci-1", example_entry Ready "new" 0);
                  ("pool-ci-2", example_entry Ready "old" 0);
                  ("pool-ci-3", example_entry Creating "new" 0);
                  ("pool-ci-4", example_entry Leased "old" 0);
                  ("pool-ci-7", example_entry Unhealthy "new" 0)];
     queue_depth := 2 |}.

Definition example_pool (st : option PoolBackoffStatus) : ClusterPool :=
  {| pool_name := Some "ci"; size := 0;
     scaling := Some {| min_ready := 1; max_clusters := 8; scale_down_after := "30m";
                        creating_timeout := "5m"; failure_backoff := None |};
     upgrade_policy := None; status := st |}.

(** A stand-in for the RFC 3339 parser: the instant one hour in. *)
Definition example_rfc3339 (_ : string) : option Z := Some (seconds 3600).

Lemma example_state_wf : wf_state example_state.
Proof. apply NoDup_ListNoDup. by apply (bool_decide_unpack _). Qed.

Example example_actions :
  compute_pool_actions example_rfc3339 (example_pool None) example_state (seconds 600) "new"
  = [Delete "pool-ci-7" UnhealthyReason; Delete "pool-ci-2" SpecDrift;
     Delete "pool-ci-3" CreatingTimeout; Create "pool-ci-8"].
Proof. by vm_compute. Qed.

(** Witness. *)
Lemma recycles_are_justified_witness :
  exists e, In ("pool-ci-2", e) (clusters example_state) /\
    justified (example_pool None) (seconds 600) "new" e SpecDrift.
Proof.
  destruct (recycles_are_justified example_rfc3339 (example_pool None) example_state (seconds 600)
    "new" example_state_wf) as [_ H].
  destruct (H "pool-ci-2" SpecDrift) as (e & ? & ? & _); [vm_compute; tauto|by exists e].
Defined.

(** Witness. *)
Lemma ready_members_protected_witness :
  1 <= ready (count_states example_state (Some "new")) - ready_deletes (clusters example_state)
    (compute_pool_actions example_rfc3339 (example_pool None) example_state (seconds 600) "new").
Proof.
  pose proof (ready_members_protected example_rfc3339 (example_pool None) example_state (seconds 600)
    "new" example_state_wf) as [[H|H]|H]; vm_compute in H; vm_compute; try done; destruct H; done.
Defined.

(** Witness. *)
Lemma creates_bounded_and_fresh_witness :
  ~ In "pool-ci-8" (map fst (clusters example_state)).
Proof.
  pose proof (creates_bounded_and_fresh example_rfc3339 (example_pool None) example_state (seconds 600)
    "new" example_state_wf ltac:(vm_compute; discriminate)) as (_ & _ & _ & H).
  apply H. vm_compute. tauto.
Defined.

Definition example_backoff : PoolBackoffStatus :=
  {| consecutive_failures := 2; next_attempt_at := Some "1970-01-01T01:00:00Z";
     last_failure_reason := Some "x"; max_attempted_index := 7; last_ready_max_index := 4 |}.

(** Witness. *)
Lemma backoff_window_only_cleans_up_witness :
  creates (compute_pool_actions example_rfc3339 (example_pool (Some example_backoff)) example_state
    (seconds 600) "new") = [].
Proof.
  apply (backoff_window_only_cleans_up example_rfc3339 (example_pool (Some example_backoff))
    example_state (seconds 600) "new" example_state_wf). by vm_compute.
Defined.

(** Witness. *)
Lemma demand_provisions_witness :
  0 < Z.of_nat (length (creates (compute_pool_actions example_rfc3339 (example_pool None)
    {| clusters := clusters example_state; queue_depth := 5 |} (seconds 600) "new"))).
Proof.
  eapply Z.lt_le_trans; [|apply (demand_provisions example_rfc3339 (example_pool None)
    {| clusters := clusters example_state; queue_depth := 5 |} (seconds 600) "new" example_state_wf)];
  vm_compute; done || (split; discriminate) || discriminate.
Defined.
