(* ===== verification/PoolStatus.v ===== *)
(** * PoolStatus: the recycle order, the reported phase and the failure backoff

    More theorems about [PoolManager]: the order in which step 4 recycles does
    not depend on the iteration order of the member map, the phase a pool
    reports is truthful about its counts and its next reconcile, and the
    backoff delay after failed attempts has a closed form. *)

From S2P Require Import Prelude Text Durations PoolManager PoolActions.

(** ** Comparators *)

(** What [sort_by] needs of a comparator: a total preorder. *)
Class TotalPreorder {A} (cmp : A -> A -> comparison) : Prop := {
  cmp_opp : forall a b, cmp b a = CompOpp (cmp a b);
  cmp_eq : forall a b c, cmp a b = Eq -> cmp a c = cmp b c;
  cmp_lt : forall a b c, cmp a b = Lt -> cmp b c = Lt -> cmp a c = Lt;
}.

#[global] Instance Z_compare_preorder : TotalPreorder Z.compare.
Proof.
  split.
  - intros a b. apply Z.compare_antisym.
  - intros a b c ->%Z.compare_eq. done.
  - intros a b c. rewrite !Z.compare_lt_iff. lia.
Qed.

#[global] Instance opt_compare_preorder : TotalPreorder opt_compare.
Proof.
  split.
  - intros [a|] [b|]; cbn; try done. apply Z.compare_antisym.
  - intros [a|] [b|] [c|]; cbn; try done. apply cmp_eq.
  - intros [a|] [b|] [c|]; cbn; try done. apply cmp_lt.
Qed.

#[global] Instance ascii_compare_preorder : TotalPreorder Ascii.compare.
Proof.
  unfold Ascii.compare. split.
  - intros a b. apply N.compare_antisym.
  - intros a b c ->%N.compare_eq. done.
  - intros a b c. rewrite !N.compare_lt_iff. lia.
Qed.

Lemma ascii_compare_eq a b : Ascii.compare a b = Eq -> a = b.
Proof. apply Ascii.compare_eq_iff. Qed.

#[global] Instance string_compare_preorder : TotalPreorder String.compare.
Proof.
  split.
  - intros a b. apply String.compare_antisym.
  - intros a b c ->%String.compare_eq_iff. done.
  - induction a as [|x a IH]; intros [|y b] [|z c]; cbn; try done.
    destruct (Ascii.compare x y) eqn:E; [apply ascii_compare_eq in E as ->| |done].
    + destruct (Ascii.compare y z); [apply IH|done|done].
    + destruct (Ascii.compare y z) eqn:E'; [apply ascii_compare_eq in E' as ->| |done].
      * by rewrite E.
      * by rewrite (cmp_lt _ _ _ E E').
Qed.

(** Comparing by a key, and breaking ties with a second comparator. *)
#[global] Instance key_preorder {A B} (key : A -> B) cmp `{!TotalPreorder cmp} :
  TotalPreorder (fun a b => cmp (key a) (key b)).
Proof. split; intros *; [apply cmp_opp|apply cmp_eq|apply cmp_lt]. Qed.

#[global] Instance then_with_preorder {A} (c1 c2 : A -> A -> comparison)
    `{!TotalPreorder c1} `{!TotalPreorder c2} :
  TotalPreorder (fun a b => then_with (c1 a b) (c2 a b)).
Proof.
  split.
  - intros a b. rewrite (cmp_opp (cmp := c1) a b), (cmp_opp (cmp := c2) a b). by destruct (c1 a b).
  - intros a b c. destruct (c1 a b) eqn:E1; cbn; try done. intros E2.
    by rewrite (cmp_eq a b c E1), (cmp_eq a b c E2).
  - intros a b c. destruct (c1 a b) eqn:E1; cbn; try done.
    + rewrite (cmp_eq a b c E1). destruct (c1 b c); cbn; try done. apply cmp_lt.
    + intros _. destruct (c1 b c) eqn:E2; cbn; try done.
      * intros _. assert (c1 c a = Gt) as H.
        { rewrite <- (cmp_eq b c a E2), cmp_opp, E1. done. }
        by rewrite (cmp_opp (cmp := c1) c a), H.
      * by rewrite (cmp_lt _ _ _ E1 E2).
Qed.

#[global] Instance drift_order_preorder : TotalPreorder drift_order.
Proof.
  pose proof (key_preorder (fun kv : string * ClusterEntry => expiry_key (snd kv)) Z.compare) as H1.
  pose proof (key_preorder (fun kv : string * ClusterEntry => state_since (snd kv)) opt_compare) as H2.
  pose proof (key_preorder (@fst string ClusterEntry) String.compare) as H3.
  exact (then_with_preorder _ _).
Qed.

Section Sorting.
Context {A} (cmp : A -> A -> comparison) `{!TotalPreorder cmp}.

Definition cmp_le (a b : A) : Prop := cmp a b <> Gt.

Lemma cmp_le_trans a b c : cmp_le a b -> cmp_le b c -> cmp_le a c.
Proof.
  unfold cmp_le. destruct (cmp a b) eqn:E; [by rewrite (cmp_eq a b c E)| |done].
  intros _ H. destruct (cmp b c) eqn:E'; [|by rewrite (cmp_lt _ _ _ E E')|done].
  assert (cmp c a = Gt) as H' by (rewrite <- (cmp_eq b c a E'), cmp_opp, E; done).
  by rewrite (cmp_opp (cmp := cmp) c a), H'.
Qed.

Lemma insert_by_sorted x l : StronglySorted cmp_le l -> StronglySorted cmp_le (insert_by cmp x l).
Proof.
  induction 1 as [|y l Hl IH Hy]; cbn; [by repeat constructor|].
  destruct (cmp x y) eqn:E.
  1,2: constructor; [by constructor|]; constructor; [unfold cmp_le; congruence|];
    eapply Forall_impl; [exact Hy|]; intros z; apply cmp_le_trans; unfold cmp_le; congruence.
  constructor; [done|]. rewrite insert_by_perm. constructor; [|done].
  unfold cmp_le. by rewrite (cmp_opp (cmp := cmp) x y), E.
Qed.

Lemma sort_by_sorted l : StronglySorted cmp_le (sort_by cmp l).
Proof. induction l; cbn; [constructor|]. by apply insert_by_sorted. Qed.

(** Sorting permuted lists gives the same list when the comparator tells their
    elements apart. *)
Lemma sort_by_unique l l' :
  l ≡ₚ l' -> (forall a b, a ∈ l -> b ∈ l -> cmp a b = Eq -> a = b) -> sort_by cmp l = sort_by cmp l'.
Proof.
  intros Hp Hinj. apply (StronglySorted_unique_strong cmp_le); [|apply sort_by_sorted..|].
  - intros a b. rewrite !sort_by_perm, <- Hp. unfold cmp_le. rewrite (cmp_opp (cmp := cmp) a b).
    intros Ha Hb. specialize (Hinj a b Ha Hb). destruct (cmp a b); cbn; auto; done.
  - by rewrite !sort_by_perm.
Qed.

End Sorting.

Lemma filter_perm {A} (f : A -> bool) l l' : l ≡ₚ l' -> List.filter f l ≡ₚ List.filter f l'.
Proof.
  induction 1 as [|x l l' _ IH|x y l|]; cbn; [done| | |by etrans].
  - destruct (f x); [by f_equiv|done].
  - destruct (f x), (f y); try done. apply perm_swap.
Qed.

(** ** Phase and backoff *)

Lemma u64_saturating_pow_spec b e :
  1 <= b -> u64_saturating_pow b e = Z.min (b ^ Z.of_nat e) u64_max.
Proof.
  intros Hb. induction e as [|e IH]; [by vm_compute|].
  cbn [u64_saturating_pow]. rewrite IH, Nat2Z.inj_succ, Z.pow_succ_r by lia.
  unfold u64_saturating_mul. pose proof (Z.pow_pos_nonneg b (Z.of_nat e)).
  assert (0 < u64_max) by (by vm_compute). nia.
Qed.

Lemma resolved_backoff_range profile base mult max :
  resolved_backoff profile = (base, mult, max) -> ttl_range base /\ 1 <= mult /\ ttl_range max.
Proof.
  unfold resolved_backoff. intros [= <- <- <-]. split_and!.
  - destruct (scaling profile ≫= failure_backoff) as [c|]; cbn;
      [destruct (parse_duration (PoolManager.base c)) as [d|] eqn:E; cbn;
         [by eapply parse_duration_range|]|]; by exists 5.
  - destruct (scaling profile ≫= failure_backoff) as [c|]; cbn; [|by vm_compute].
    destruct (Z.leb_spec 1 (multiplier c)); cbn; [done|by vm_compute].
  - destruct (scaling profile ≫= failure_backoff) as [c|]; cbn;
      [destruct (parse_duration (PoolManager.backoff_max c)) as [d|] eqn:E; cbn;
         [by eapply parse_duration_range|]|]; by exists 120.
Qed.

(** ** Theorems *)

(** The rolling recycle is deterministic: whatever order the member map
    iterates in, the drifted Ready members are recycled in the same order
    (soonest certificate expiry, then oldest, then by name). *)
Theorem recycle_order_deterministic (current_hash : SpecHash) (now : Z) (deleting : list string)
    (cs cs' : list (string * ClusterEntry)) (Hperm : cs ≡ₚ cs') (Hwf : List.NoDup (map fst cs)) :
  drifted_ready current_hash now deleting cs = drifted_ready current_hash now deleting cs'.
Proof.
  unfold drifted_ready. apply (sort_by_unique drift_order); [by apply filter_perm|].
  intros [n e] [m f]. rewrite !list_elem_of_In, !filter_In. intros [Hn _] [Hm _].
  unfold drift_order. cbn.
  destruct (Z.compare _ _); cbn; try done. destruct (opt_compare _ _); cbn; try done.
  intros ->%String.compare_eq_iff. f_equal.
  apply (entry_of_In _ _ _ Hwf) in Hn, Hm. congruence.
Qed.

(** The phase is truthful: [Healthy] and [Idle] are reported only when no
    member is quarantined and fewer than three attempts failed in a row,
    [Healthy] only with the warm target met, [Failing] exactly from the third
    failure on, and a pool reported [Exhausted] is at its capacity with
    nothing warm, so the same reconcile creates nothing. *)
Theorem phase_is_truthful (parse_from_rfc3339 : string -> option Z) (profile : ClusterPool)
    (st : PoolState) (now : Z) (current_hash : SpecHash) (failures : Z)
    (next_attempt : option string) (Hwf : wf_state st) :
  let counts := count_states st (Some current_hash) in
  let phase := compute_pool_phase parse_from_rfc3339 profile counts (queue_depth st)
                 failures next_attempt now in
  (phase = Healthy \/ phase = Idle -> quarantined counts <= 0 /\ failures < FAILING_THRESHOLD) /\
  (phase = Healthy -> fst (warm_config profile) <= ready counts) /\
  (phase = Failing <-> FAILING_THRESHOLD <= failures) /\
  (phase = Exhausted ->
     ready counts = 0 /\ creating counts = 0 /\ 0 < queue_depth st /\
     pool_capacity profile <= total_members counts /\
     creates (compute_pool_actions parse_from_rfc3339 profile st now current_hash) = []).
Proof.
  cbn zeta. set (c := count_states st (Some current_hash)).
  assert (pool_capacity profile <= total_members c ->
    creates (compute_pool_actions parse_from_rfc3339 profile st now current_hash) = []) as Hfull.
  { intros Hle. destruct (actions_creates parse_from_rfc3339 profile st now current_hash Hwf)
      as [?|(cand & _ & ->)]; [done|]. fold c. rewrite scale_up_creates.
    match goal with |- context [burst ?a ?b ?t] =>
      replace (Z.to_nat (burst a b t)) with O; [done|unfold burst, saturating_sub, MAX_BURST; lia] end. }
  unfold compute_pool_phase.
  repeat match goal with |- context [if ?b then _ else _] => destruct b eqn:? end.
  all: repeat match goal with
    | H : _ && _ = true |- _ => apply andb_true_iff in H as [? ?]
    | H : negb _ = true |- _ => apply negb_true_iff in H
    | H : _ || _ = true |- _ => apply orb_true_iff in H
    end.
  all: unfold FAILING_THRESHOLD in *.
  all: split_and!; try (intros; simplify_eq; exfalso; destruct_or?; done).
  all: try (split; intros; simplify_eq; lia).
  all: try (intros _; lia || (destruct_or?; destruct_and?; lia)).
  - split; [intros _; lia|done].
  - intros _. split_and!; try lia. apply Hfull. lia.
Qed.

(** The failure backoff is capped exponential: after [n > 0] failed attempts
    the delay is exactly [min (base * multiplier^min(n-1,31)) max], so it is
    never below [min base max], never above [max] and never decreases with
    [n]; the saturations of the code do not show. *)
Theorem backoff_delay_closed_form (profile : ClusterPool) (n m : Z) (Hn : 0 < n <= m) :
  let '(base, mult, max) := resolved_backoff profile in
  let delay k := Z.min (base * mult ^ Z.min (k - 1) 31) max in
  backoff_delay_for profile n = Some (delay n) /\
  Z.min base max <= delay n <= max /\ delay n <= delay m.
Proof.
  destruct (resolved_backoff profile) as [[base mult] max] eqn:E.
  destruct (resolved_backoff_range _ _ _ _ E) as ((b & -> & Hb) & Hm & (x & -> & Hx)).
  cbn zeta. unfold backoff_delay_for. rewrite E, (proj2 (Z.eqb_neq n 0)) by lia.
  replace (saturating_sub n 1) with (n - 1) by (unfold saturating_sub; lia).
  assert (forall k, 0 < k -> 1 <= mult ^ Z.min (k - 1) 31) as Hpow.
  { intros k Hk. pose proof (Z.pow_pos_nonneg mult (Z.min (k - 1) 31)). lia. }
  rewrite u64_saturating_pow_spec, Z2Nat.id, !num_seconds_seconds by lia.
  pose proof (Hpow n ltac:(lia)) as Hp.
  pose proof (Z.pow_le_mono_r mult (Z.min (n - 1) 31) (Z.min (m - 1) 31) ltac:(lia) ltac:(lia)) as Hmono.
  set (p := mult ^ Z.min (n - 1) 31) in *. set (p' := mult ^ Z.min (m - 1) 31) in *.
  assert (MAX_SECONDS < i64_max < u64_max) as Hmax by (split; by vm_compute).
  split; [|unfold seconds, nanos_per_second; nia]. f_equal.
  replace (if _ <=? i64_max then _ else _) with (Z.min p i64_max) by (case_match; lia).
  unfold i64_saturating_mul, seconds, nanos_per_second. nia.
Qed.

(** Witness. *)
Lemma recycle_order_deterministic_witness :
  drifted_ready "new" (seconds 600) [] (rev (clusters example_state))
  = drifted_ready "new" (seconds 600) [] (clusters example_state).
Proof.
  symmetry. apply (recycle_order_deterministic "new" (seconds 600) [] (clusters example_state)
    (rev (clusters example_state))); [apply Permutation_rev|apply example_state_wf].
Defined.

(** A scaled-out pool: its only member is leased and two requests wait. *)
Definition exhausted_pool : ClusterPool :=
  {| pool_name := Some "ci"; size := 0;
     scaling := Some {| min_ready := 1; max_clusters := 1; scale_down_after := "30m";
                        creating_timeout := "5m"; failure_backoff := None |};
     upgrade_policy := None; status := None |}.

Definition exhausted_state : PoolState :=
  {| clusters := [("pool-ci-1", example_entry Leased "new" 0)]; queue_depth := 2 |}.

(** Witness. *)
Lemma phase_is_truthful_witness :
  creates (compute_pool_actions example_rfc3339 exhausted_pool exhausted_state (seconds 600) "new") = [].
Proof.
  destruct (phase_is_truthful example_rfc3339 exhausted_pool exhausted_state (seconds 600) "new" 0 None)
    as (_ & _ & _ & H); [repeat constructor; by intros []|].
  apply H. by vm_compute.
Defined.

(** Witness. *)
Lemma backoff_delay_closed_form_witness :
  backoff_delay_for (example_pool None) 4 = Some (seconds 40).
Proof.
  destruct (backoff_delay_closed_form (example_pool None) 4 9) as [H _]; [lia|].
  rewrite H. by vm_compute.
Defined.
