(* ===== verification/PoolController.v ===== *)
(** * PoolController: from instances to pool decisions and back

    Model of [src/controllers/profile.rs] around the pure pool manager: the
    snapshot of the members ([build_pool_state]), the demand ([count_queued]),
    the failure bookkeeping ([compute_backoff_state]) and its merge into the
    stored status, the unsupported-spec hold, the pool conditions, and the
    fenced write that moves a member to [Recycling]
    ([mark_instance_recycling]). *)

From S2P Require Import Prelude Text Durations Teardown StateMachine Objects PoolManager PoolActions.

(** ** The snapshot *)

Definition SCHEDULING_BLOCKED_MESSAGE_PREFIX : string := "scheduling blocked:".
Definition CRASHLOOP_MESSAGE_MARKER : string := "CrashLoopBackOff".
Definition CAPACITY_BLOCKED_REASON_PREFIX : string := "capacity-blocked:".

Definition cluster_state_from_phase (p : ClusterInstancePhase.t) : ClusterState :=
  match p with
  | ClusterInstancePhase.Creating => Creating
  | ClusterInstancePhase.Ready => Ready
  | ClusterInstancePhase.Leased => Leased
  | ClusterInstancePhase.Recycling => Recycling
  | ClusterInstancePhase.Unhealthy => Unhealthy
  | ClusterInstancePhase.Failed => Unhealthy
  | ClusterInstancePhase.Quarantined => Quarantined
  end.

Definition lease_held (st : ClusterInstanceStatus) : bool :=
  is_some (lease_ref st) || is_some (inst_binding st).

Definition pool_state_from_status (st : ClusterInstanceStatus) : ClusterState :=
  if bool_decide (inst_phase st = ClusterInstancePhase.Ready) && lease_held st
  then Quarantined else cluster_state_from_phase (inst_phase st).

(** Leases that are queued demand. *)
Definition count_queued (leases : list ClusterLease) : Z :=
  Z.of_nat (length (List.filter (fun c =>
    match lease_status c with
    | Some s => bool_decide (lease_phase s = ClusterLeasePhase.Pending) &&
                is_none (cluster_name s) && is_none (lease_status_binding s)
    | None => true
    end) leases)).

Section Snapshot.
Context (parse_from_rfc3339 : string -> option Z).

Definition parse_optional_time (v : option string) : option Z := v ≫= parse_from_rfc3339.

Definition entry_of_instance (i : ClusterInstance) : string * ClusterEntry :=
  let st := default default_instance_status (inst_status i) in
  let state := pool_state_from_status st in
  let marked p := match inst_message st with Some m => p m | None => false end in
  let blocked := state_eqb state Creating && marked (fun m => starts_with m SCHEDULING_BLOCKED_MESSAGE_PREFIX) in
  let crashing := state_eqb state Creating && marked (fun m => contains m CRASHLOOP_MESSAGE_MARKER) in
  (meta_name (inst_metadata i),
   {| PoolManager.state := state;
      idle_since := parse_optional_time (inst_idle_since st);
      health_failures := inst_health_failures st;
      state_since := parse_optional_time (inst_state_since st);
      spec_hash := inst_spec_hash st;
      scheduling_blocked := blocked;
      crashlooping := crashing;
      crash_message := if crashing then inst_message st else None;
      cert_horizon_secs := None |}).

(** [build_pool_state]: [instances] and [leases] are what the two [list] calls
    return, [None] for a failure. *)
Definition build_pool_state (instances : option (list ClusterInstance))
    (leases : option (list ClusterLease)) : PoolState :=
  match instances with
  | None => {| clusters := []; queue_depth := 0 |}
  | Some l => {| clusters := map entry_of_instance l;
                 queue_depth := match leases with Some ls => count_queued ls | None => 0 end |}
  end.

End Snapshot.

Definition oldest_quarantined_age_secs (st : PoolState) (now : Z) : Z :=
  foldr Z.max 0
    (map (fun e => match state_since e with
                   | Some since => Z.max (num_seconds (now - since)) 0
                   | None => 0
                   end)
         (List.filter (fun e => state_eqb (state e) Quarantined) (map snd (clusters st)))).

(** ** An unsupported spec *)

Definition hold_unsupported_config (actions : list PoolAction) (unsupported : list string)
    : list PoolAction :=
  match unsupported with
  | [] => actions
  | _ => List.filter (fun a => match a with
                               | Create _ => false
                               | Delete _ reason => negb (bool_decide (reason = SpecDrift))
                               end) actions
  end.

Record ClusterPoolCondition : Type := {
  pc_type : string;
  pc_status : string;
  pc_reason : string;
  pc_message : string;
  pc_last_transition_time : option string;
}.

Fixpoint join (sep : string) (l : list string) : string :=
  match l with
  | [] => ""
  | [s] => s
  | s :: l' => s +:+ sep +:+ join sep l'
  end.

Definition config_supported_condition (backend : BackendType) (unsupported : list string)
    : ClusterPoolCondition :=
  match unsupported with
  | [] => {| pc_type := "ConfigSupported"; pc_status := "True"; pc_reason := "AllFieldsSupported";
             pc_message := ""; pc_last_transition_time := None |}
  | _ => {| pc_type := "ConfigSupported"; pc_status := "False"; pc_reason := "UnsupportedFields";
            pc_message := "backend " +:+ receipt_backend_type backend +:+ " ignores " +:+
              join ", " unsupported +:+ "; remove them or pick a backend that supports them. No new members are created until then.";
            pc_last_transition_time := None |}
  end.

(** [now] is the current time, rendered to the second. *)
Definition pool_conditions (previous : list ClusterPoolCondition) (c : ClusterPoolCondition)
    (now : string) : list ClusterPoolCondition :=
  let same_type d := String.eqb (pc_type d) (pc_type c) in
  let time :=
    match List.find same_type previous with
    | Some p => if String.eqb (pc_status p) (pc_status c)
                then match pc_last_transition_time p with Some t => Some t | None => Some now end
                else Some now
    | None => Some now
    end in
  List.filter (fun d => negb (same_type d)) previous ++
  [{| pc_type := pc_type c; pc_status := pc_status c; pc_reason := pc_reason c;
      pc_message := pc_message c; pc_last_transition_time := time |}].

(** ** Failure bookkeeping *)

Inductive PoolFailureClass : Type := Capacity | Other.
#[global] Instance PoolFailureClass_eq_dec : EqDecision PoolFailureClass.
Proof. solve_decision. Defined.

Definition persisted_failure_class (reason : option string) : PoolFailureClass :=
  match reason with
  | Some r => if starts_with r CAPACITY_BLOCKED_REASON_PREFIX then Capacity else Other
  | None => Other
  end.

Record BackoffState : Type := {
  bs_consecutive_failures : Z;
  bs_next_attempt_at : option string;
  bs_last_failure_reason : option string;
  bs_failure_class : PoolFailureClass;
  bs_max_attempted_index : Z;
  bs_last_ready_max_index : Z;
}.

(** Whether an entry is, or has been, Ready. *)
Definition reached_ready (e : ClusterEntry) : bool :=
  is_some (idle_since e) || state_eqb (state e) Ready || state_eqb (state e) Leased.

Definition max_ready_index (st : PoolState) (p : string) : Z :=
  foldr Z.max 0 (omap (fun kv => index_of_name p (fst kv))
                      (List.filter (fun kv => reached_ready (snd kv)) (clusters st))).

(** The crash message of the member with the highest name. *)
Definition newest_crash (st : PoolState) : option (string * string) :=
  fold_left (fun best kv =>
    match crash_message (snd kv), best with
    | None, _ => best
    | Some m, None => Some (fst kv, m)
    | Some m, Some (n, _) => match String.compare (fst kv) n with Lt => best | _ => Some (fst kv, m) end
    end) (clusters st) None.

Section BackoffState.
(** [DateTime::to_rfc3339]. *)
Context (to_rfc3339 : Z -> string).

Definition failure_reason (profile : ClusterPool) (st : PoolState) (failures attempted ready_max : Z)
    : string :=
  let p := default "" (pool_name profile) in
  let base :=
    show_uint failures +:+ " instance(s) not reaching Ready (attempted up to index " +:+
    show_uint attempted +:+ ", highest Ready " +:+ show_uint ready_max +:+
    "); inspect the Failed/not-Ready ClusterInstances (kubectl get ci -l kobe.kunobi.ninja/pool=" +:+
    p +:+ ") and their pod logs/events" in
  let base := match newest_crash st with
              | Some (n, m) => base +:+ "; e.g. " +:+ n +:+ ": " +:+ m
              | None => base
              end in
  let blocked := List.filter (fun kv => scheduling_blocked (snd kv)) (clusters st) in
  match blocked with
  | [] => base
  | _ => CAPACITY_BLOCKED_REASON_PREFIX +:+ " " +:+ show_uint (Z.of_nat (length blocked)) +:+
         " instance(s) unschedulable; " +:+ base
  end.

(** The second half of [compute_backoff_state]: everything after the two
    high-water marks and the scheduling block are known. *)
Definition next_backoff (profile : ClusterPool) (st : PoolState) (blocked any_ready : bool)
    (new_max_attempted new_last_ready_max : Z) (prev_failures : Z)
    (prev_next_attempt prev_reason : option string) (now : Z) : BackoffState :=
  if any_ready && (new_max_attempted <=? new_last_ready_max) && negb blocked then
    {| bs_consecutive_failures := 0; bs_next_attempt_at := None; bs_last_failure_reason := None;
       bs_failure_class := Other; bs_max_attempted_index := new_max_attempted;
       bs_last_ready_max_index := new_last_ready_max |}
  else
    let new_failures := Z.max (saturating_sub new_max_attempted new_last_ready_max)
                              (if blocked then 1 else 0) in
    let after d := to_rfc3339 (now + d) in
    let next_attempt :=
      if (prev_failures <? new_failures) && (0 <? new_failures)
      then after <$> backoff_delay_for profile new_failures
      else if blocked then
        match prev_next_attempt with
        | Some t => Some t
        | None => after <$> backoff_delay_for profile (Z.max new_failures 1)
        end
      else if new_failures =? 0 then None else prev_next_attempt in
    {| bs_consecutive_failures := new_failures;
       bs_next_attempt_at := next_attempt;
       bs_last_failure_reason :=
         if 0 <? new_failures
         then Some (failure_reason profile st new_failures new_max_attempted new_last_ready_max)
         else prev_reason;
       bs_failure_class := if (0 <? new_failures) && blocked then Capacity else Other;
       bs_max_attempted_index := new_max_attempted;
       bs_last_ready_max_index := new_last_ready_max |}.

Definition compute_backoff_state (profile : ClusterPool) (st : PoolState) (counts : StateCounts)
    (now : Z) : BackoffState :=
  let prev := status profile in
  let prev_failures := default 0 (consecutive_failures <$> prev) in
  let prev_max_attempted := default 0 (max_attempted_index <$> prev) in
  let prev_last_ready_max := default 0 (last_ready_max_index <$> prev) in
  let blocked := existsb (fun kv => scheduling_blocked (snd kv)) (clusters st) in
  let p := default "" (pool_name profile) in
  let new_max_attempted := Z.max (max_existing_index st p) prev_max_attempted in
  let new_last_ready_max := Z.max (max_ready_index st p) prev_last_ready_max in
  let any_ready := (0 <? ready counts) || (0 <? leased counts) || (0 <? new_last_ready_max) in
  next_backoff profile st blocked any_ready new_max_attempted new_last_ready_max
    prev_failures (prev ≫= next_attempt_at) (prev ≫= last_failure_reason) now.

End BackoffState.

(** The status the controller asks for, and what [Patch::Merge] stores: the two
    [Option] fields are not serialized when [None]. *)
Definition asked_status (b : BackoffState) : PoolBackoffStatus :=
  {| consecutive_failures := bs_consecutive_failures b; next_attempt_at := bs_next_attempt_at b;
     last_failure_reason := bs_last_failure_reason b;
     max_attempted_index := bs_max_attempted_index b;
     last_ready_max_index := bs_last_ready_max_index b |}.

Definition merge_option {A} (new old : option A) : option A := match new with Some a => Some a | None => old end.

Definition merged_status (stored : option PoolBackoffStatus) (b : BackoffState) : PoolBackoffStatus :=
  {| consecutive_failures := bs_consecutive_failures b;
     next_attempt_at := merge_option (bs_next_attempt_at b) (stored ≫= next_attempt_at);
     last_failure_reason := merge_option (bs_last_failure_reason b) (stored ≫= last_failure_reason);
     max_attempted_index := bs_max_attempted_index b;
     last_ready_max_index := bs_last_ready_max_index b |}.

Definition with_status (profile : ClusterPool) (s : PoolBackoffStatus) : ClusterPool :=
  {| pool_name := pool_name profile; size := size profile; scaling := scaling profile;
     upgrade_policy := upgrade_policy profile; status := Some s |}.

(** [emit_pool_failure_metrics]: whether the reason-change counter is
    incremented. *)
Definition counts_reason_change (failures prev_failures : Z) (class prev_class : PoolFailureClass) : bool :=
  (prev_failures <? failures) || ((0 <? failures) && negb (bool_decide (class = prev_class))).

(** ** Moving a member to [Recycling] *)

(** What the world does during one attempt: what the read returns, what the
    server holds when the patch arrives, a fault, and the clock. *)
Record RecycleAttempt : Type := {
  ra_read : Lookup ClusterInstance;
  ra_held : option ClusterInstance;
  ra_fault : option bool;  (** [Some true]: an optimistic conflict; [Some false]: another error *)
  ra_now : string;
}.

Inductive RecycleOutcome : Type :=
| Marked (before after : ClusterInstance)
| MovedOn
| RecycleError.

(** The tests of the patch against the held object. *)
Definition recycle_tests (read held : ClusterInstance) : bool :=
  str_opt_eqb (meta_uid (inst_metadata held)) (meta_uid (inst_metadata read)) &&
  str_opt_eqb (resource_version (inst_metadata held)) (resource_version (inst_metadata read)) &&
  match inst_status read with
  | Some st => match inst_status held with
               | Some hs => bool_decide (inst_phase hs = inst_phase st)
               | None => false
               end
  | None => true
  end.

(** The operations of the patch applied to the held object. *)
Definition recycle_patch (read held : ClusterInstance) (now : string) : ClusterInstance :=
  let next :=
    match inst_status read with
    | Some st =>
        let hs := default default_instance_status (inst_status held) in
        {| inst_phase := ClusterInstancePhase.Recycling; provisioned := provisioned hs;
           bootstrapped := bootstrapped hs; lease_ref := lease_ref hs; inst_binding := inst_binding hs;
           inst_idle_since := if is_some (inst_idle_since st) then None else inst_idle_since hs;
           inst_state_since := Some now; inst_health_failures := inst_health_failures hs;
           inst_spec_hash := inst_spec_hash hs; created_with := created_with hs;
         inst_creation_manifest := inst_creation_manifest hs;
           inst_message := inst_message hs; inst_conditions := inst_conditions hs |}
    | None =>
        let d := default_instance_status in
        {| inst_phase := ClusterInstancePhase.Recycling; provisioned := provisioned d;
           bootstrapped := bootstrapped d; lease_ref := lease_ref d; inst_binding := inst_binding d;
           inst_idle_since := None; inst_state_since := Some now;
           inst_health_failures := inst_health_failures d; inst_spec_hash := inst_spec_hash d;
           created_with := created_with d;
         inst_creation_manifest := inst_creation_manifest d; inst_message := inst_message d; inst_conditions := [] |}
    end in
  {| inst_metadata := inst_metadata held; inst_pool_ref := inst_pool_ref held; inst_status := Some next |}.

(** The loop; an optimistic conflict on the last attempt is returned as an
    error. *)
Fixpoint mark_loop (expected : ClusterState) (attempts : list RecycleAttempt) : RecycleOutcome :=
  match attempts with
  | [] => RecycleError
  | a :: rest =>
      match ra_read a with
      | Found i =>
          if negb (is_some (meta_uid (inst_metadata i))) || negb (is_some (resource_version (inst_metadata i)))
          then RecycleError
          else
            let st := default default_instance_status (inst_status i) in
            if lease_held st || negb (state_eqb (pool_state_from_status st) expected) then MovedOn
            else
              match ra_fault a, ra_held a with
              | Some true, _ => mark_loop expected rest
              | Some false, _ | None, None => RecycleError
              | None, Some h =>
                  if recycle_tests i h then Marked h (recycle_patch i h (ra_now a))
                  else mark_loop expected rest
              end
      | _ => RecycleError
      end
  end.

Definition mark_instance_recycling (expected : ClusterState) (world : nat -> RecycleAttempt)
    : RecycleOutcome := mark_loop expected (map world (seq 0 5)).

(** [pool_state.clusters.get] and the in-place state change that follows a
    successful write. *)
Definition pool_get (st : PoolState) (n : string) : option ClusterEntry :=
  snd <$> List.find (fun kv => String.eqb (fst kv) n) (clusters st).

Definition as_recycling (e : ClusterEntry) : ClusterEntry :=
  mk_entry Recycling (idle_since e) (health_failures e) (state_since e) (spec_hash e)
    (scheduling_blocked e) (crashlooping e) (crash_message e) (cert_horizon_secs e).

Definition set_recycling (st : PoolState) (n : string) : PoolState :=
  {| clusters := map (fun kv => if String.eqb (fst kv) n then (fst kv, as_recycling (snd kv)) else kv)
                     (clusters st);
     queue_depth := queue_depth st |}.

(** The [PoolAction::Delete] arm of the reconcile; a name that left the
    snapshot is skipped. *)
Definition apply_delete (st : PoolState) (n : string) (world : nat -> RecycleAttempt)
    : RecycleOutcome * PoolState :=
  match pool_get st n with
  | None => (MovedOn, st)
  | Some e =>
      match mark_instance_recycling (state e) world with
      | Marked before after => (Marked before after, set_recycling st n)
      | outcome => (outcome, st)
      end
  end.

(** A version identifies the content: the same UID and [resourceVersion] is the
    same object. *)
Definition versions_identify (world : nat -> RecycleAttempt) : Prop :=
  forall k i h, ra_read (world k) = Found i -> ra_held (world k) = Some h ->
    meta_uid (inst_metadata h) = meta_uid (inst_metadata i) ->
    resource_version (inst_metadata h) = resource_version (inst_metadata i) -> h = i.

Lemma mark_loop_exact expected world ks before after :
  versions_identify world ->
  mark_loop expected (map world ks) = Marked before after ->
  lease_held (default default_instance_status (inst_status before)) = false /\
  pool_state_from_status (default default_instance_status (inst_status before)) = expected /\
  inst_metadata after = inst_metadata before /\
  exists next, inst_status after = Some next /\ inst_phase next = ClusterInstancePhase.Recycling /\
    lease_held next = false.
Proof.
  intros Hv. induction ks as [|k ks IH]; cbn [map mark_loop]; [done|].
  destruct (ra_read (world k)) as [i| |] eqn:Hr; [|done|done].
  destruct (negb _ || negb _); [done|].
  destruct (lease_held _ || _) eqn:Hl; [done|]. apply orb_false_iff in Hl as [Hl Hs].
  apply negb_false_iff, state_eqb_eq in Hs.
  destruct (ra_fault (world k)) as [[]|]; [exact IH|done|].
  destruct (ra_held (world k)) as [h|] eqn:Hh; [|done].
  destruct (recycle_tests i h) eqn:Ht; [|exact IH]. intros [= <- <-].
  unfold recycle_tests in Ht. rewrite !andb_true_iff, !str_opt_eqb_eq in Ht. destruct Ht as [[Hu Hrv] _].
  pose proof (Hv k i h Hr Hh Hu Hrv) as ->. split; [done|]. split; [done|]. split; [done|].
  unfold recycle_patch. destruct (inst_status i) as [st|]; cbn in *; eexists; (split; [done|]); done.
Qed.

Lemma find_In_nodup {A} n (e : A) cs :
  List.NoDup (map fst cs) -> In (n, e) cs ->
  List.find (fun kv => String.eqb (fst kv) n) cs = Some (n, e).
Proof.
  induction cs as [|[m d] cs IH]; cbn; [done|]. intros Hnd [[= -> ->]|Hin].
  - by rewrite String.eqb_refl.
  - apply NoDup_cons_iff in Hnd as [Hni Hnd]. destruct (String.eqb_spec m n) as [->|]; [|auto].
    destruct Hni. apply in_map_iff. by exists (n, e).
Qed.

Lemma pool_get_In st n e : wf_state st -> In (n, e) (clusters st) -> pool_get st n = Some e.
Proof. intros Hwf Hin. unfold pool_get. by rewrite (find_In_nodup n e). Qed.

Lemma set_recycling_same st n e :
  pool_get st n = Some e -> pool_get (set_recycling st n) n = Some (as_recycling e).
Proof.
  unfold pool_get, set_recycling. cbn. induction (clusters st) as [|[m d] cs IH]; cbn; [done|].
  destruct (String.eqb m n) eqn:E; cbn; rewrite E; [by intros [= ->]|exact IH].
Qed.

Lemma set_recycling_other st n m : m <> n -> pool_get (set_recycling st n) m = pool_get st m.
Proof.
  intros Hne. unfold pool_get, set_recycling. cbn. induction (clusters st) as [|[k d] cs IH]; cbn; [done|].
  destruct (String.eqb_spec k n) as [->|]; cbn.
  - destruct (String.eqb_spec n m) as [->|]; [done|exact IH].
  - destruct (String.eqb k m); [done|exact IH].
Qed.

(** ** Bookkeeping is stable *)

Lemma backoff_delay_some profile n : 0 < n -> is_Some (backoff_delay_for profile n).
Proof.
  intros Hn. unfold backoff_delay_for. rewrite (proj2 (Z.eqb_neq n 0)) by lia.
  destruct (resolved_backoff profile) as [[? ?] ?]. eauto.
Qed.

Lemma next_backoff_facts to_rfc3339 profile st blocked any att rdy pf pn pr now :
  let b := next_backoff to_rfc3339 profile st blocked any att rdy pf pn pr now in
  bs_max_attempted_index b = att /\ bs_last_ready_max_index b = rdy /\
  bs_consecutive_failures b = Z.max (saturating_sub att rdy) (if blocked then 1 else 0).
Proof.
  cbn zeta. unfold next_backoff. case_match eqn:E; [|done]. cbn. split_and!; [done..|].
  apply andb_true_iff in E as [[_ E%Z.leb_le]%andb_true_iff ->%negb_true_iff].
  unfold saturating_sub. lia.
Qed.

Lemma compute_backoff_facts to_rfc3339 profile st counts now :
  let b := compute_backoff_state to_rfc3339 profile st counts now in
  let p := default "" (pool_name profile) in
  bs_max_attempted_index b
    = Z.max (max_existing_index st p) (default 0 (max_attempted_index <$> status profile)) /\
  bs_last_ready_max_index b
    = Z.max (max_ready_index st p) (default 0 (last_ready_max_index <$> status profile)) /\
  bs_consecutive_failures b
    = Z.max (saturating_sub (bs_max_attempted_index b) (bs_last_ready_max_index b))
            (if existsb (fun kv => scheduling_blocked (snd kv)) (clusters st) then 1 else 0).
Proof.
  cbn zeta. unfold compute_backoff_state. cbn zeta.
  match goal with |- context [next_backoff ?f ?a ?b ?c ?d ?e ?g ?h ?i ?j ?k] =>
    destruct (next_backoff_facts f a b c d e g h i j k) as (Ha & Hr & Hf) end.
  by rewrite Hf, Ha, Hr.
Qed.

(** Fed its own result, the second half is a fixed point, whatever the time. *)
Lemma next_backoff_stable to_rfc3339 profile s st blocked any att rdy pf pn pr now now' :
  let b := next_backoff to_rfc3339 profile st blocked any att rdy pf pn pr now in
  next_backoff to_rfc3339 (with_status profile s) st blocked any att rdy
    (bs_consecutive_failures b) (bs_next_attempt_at b) (bs_last_failure_reason b) now' = b.
Proof.
  cbn zeta. unfold next_backoff. destruct (any && (att <=? rdy) && negb blocked); [done|].
  cbn [bs_consecutive_failures bs_next_attempt_at bs_last_failure_reason].
  set (nf := Z.max _ _). rewrite Z.ltb_irrefl. cbn [andb]. f_equal.
  - destruct blocked.
    + assert (0 < nf) by (subst nf; lia).
      destruct (backoff_delay_some profile nf) as [d ->]; [done|].
      destruct (backoff_delay_some profile (Z.max nf 1)) as [d' ->]; [lia|].
      destruct ((pf <? nf) && (0 <? nf)); [done|]. by destruct pn.
    + destruct (Z.eqb_spec nf 0) as [E|E]; [|by case_match].
      assert ((0 <? nf) = false) as -> by lia. by rewrite andb_false_r.
  - by destruct (0 <? nf).
Qed.

(** ** Theorems *)

(** Failure bookkeeping is stable and monotone: the recorded indices never
    go down, the failure count is their gap (at least 1 while a member is
    unschedulable, 0 once every attempted index has been Ready), and
    reconciling again on the same members with the status just asked for, at
    whatever later time, asks for the same status, so repeated reconciles
    never push a backoff window further out. *)
Theorem backoff_bookkeeping_stable (to_rfc3339 : Z -> string) (profile : ClusterPool)
    (st : PoolState) (counts : StateCounts) (now now' : Z) :
  let b := compute_backoff_state to_rfc3339 profile st counts now in
  let prev := default {| consecutive_failures := 0; next_attempt_at := None; last_failure_reason := None;
                         max_attempted_index := 0; last_ready_max_index := 0 |} (status profile) in
  let blocked := existsb (fun kv => scheduling_blocked (snd kv)) (clusters st) in
  max_attempted_index prev <= bs_max_attempted_index b /\
  last_ready_max_index prev <= bs_last_ready_max_index b /\
  bs_consecutive_failures b
    = Z.max (saturating_sub (bs_max_attempted_index b) (bs_last_ready_max_index b))
            (if blocked then 1 else 0) /\
  compute_backoff_state to_rfc3339 (with_status profile (asked_status b)) st counts now' = b.
Proof.
  cbn zeta. set (b := compute_backoff_state to_rfc3339 profile st counts now).
  destruct (compute_backoff_facts to_rfc3339 profile st counts now) as (Ha & Hr & Hf). fold b in Ha, Hr, Hf.
  split; [rewrite Ha; destruct (status profile); cbn; lia|].
  split; [rewrite Hr; destruct (status profile); cbn; lia|]. split; [by rewrite Hf, Ha, Hr|].
  unfold compute_backoff_state. cbn [with_status status pool_name asked_status option_fmap option_map
    fmap from_option id mbind option_bind consecutive_failures next_attempt_at last_failure_reason
    max_attempted_index last_ready_max_index].
  rewrite Ha, Hr, !Z.max_assoc, !Z.max_id. apply next_backoff_stable.
Qed.

(** C28. A recycle lands only on the member it was decided for: for every
    [Delete] the pool manager emits from a snapshot, the status write happens
    only while the stored member still is in the state the decision was made
    against (Unhealthy, Creating or Ready) and holds no lease handle; it moves
    exactly that object to Recycling and records it in the snapshot, and a
    member that moved on leaves the snapshot as it was. *)
Theorem pool_recycle_fenced (parse_from_rfc3339 : string -> option Z) (profile : ClusterPool)
    (st : PoolState) (now : Z) (current_hash : SpecHash) (n : string) (r : RecycleReason)
    (world : nat -> RecycleAttempt) (Hwf : wf_state st)
    (Hin : In (Delete n r) (compute_pool_actions parse_from_rfc3339 profile st now current_hash))
    (Hv : versions_identify world) :
  match apply_delete st n world with
  | (Marked before after, st') =>
      let stored := default default_instance_status (inst_status before) in
      lease_held stored = false /\
      In (pool_state_from_status stored) [Unhealthy; Creating; Ready] /\
      state <$> pool_get st n = Some (pool_state_from_status stored) /\
      inst_metadata after = inst_metadata before /\
      (exists next, inst_status after = Some next /\
        inst_phase next = ClusterInstancePhase.Recycling /\ lease_held next = false) /\
      state <$> pool_get st' n = Some Recycling /\
      (forall m, m <> n -> pool_get st' m = pool_get st m)
  | (_, st') => st' = st
  end.
Proof.
  destruct (actions_justified _ _ _ _ _ Hwf n r Hin) as (e & He & Hj).
  pose proof (pool_get_In st n e Hwf He) as Hg. unfold apply_delete. rewrite Hg.
  destruct (mark_instance_recycling (state e) world) as [before after| |] eqn:Hm; [|done..].
  destruct (mark_loop_exact _ _ _ _ _ Hv Hm) as (Hl & Hs & Hmeta & Hnext). cbn zeta.
  rewrite Hs, (set_recycling_same st n e Hg). split_and!; [done| |done|done|done|done|].
  - destruct (justified_state _ _ _ _ _ Hj) as [->|[->| ->]]; cbn; tauto.
  - intros m Hne. by apply set_recycling_other.
Qed.

Definition example_meta : ObjectMeta :=
  {| meta_name := "pool-ci-7"; meta_uid := Some "u7"; meta_generation := None;
     resource_version := Some "41"; deletion_timestamp := None; owner_references := None |}.

Definition example_unhealthy : ClusterInstance :=
  {| inst_metadata := example_meta; inst_pool_ref := None;
     inst_status := Some {| inst_phase := ClusterInstancePhase.Failed; provisioned := true;
       bootstrapped := true; lease_ref := None; inst_binding := None; inst_idle_since := None;
       inst_state_since := Some "t0"; inst_health_failures := 3; inst_spec_hash := Some "new";
       created_with := None; inst_creation_manifest := None; inst_message := None; inst_conditions := [] |} |}.

(** The first attempt meets a conflict, the second one lands. *)
Definition example_world (k : nat) : RecycleAttempt :=
  {| ra_read := Found example_unhealthy; ra_held := Some example_unhealthy;
     ra_fault := if Nat.eqb k 0 then Some true else None; ra_now := "t1" |}.

(** Witness. *)
Lemma pool_recycle_fenced_witness :
  state <$> pool_get (snd (apply_delete example_state "pool-ci-7" example_world)) "pool-ci-7"
    = Some Recycling.
Proof.
  pose proof (pool_recycle_fenced example_rfc3339 (example_pool None) example_state (seconds 600)
    "new" "pool-ci-7" UnhealthyReason example_world example_state_wf) as H.
  destruct (apply_delete example_state "pool-ci-7" example_world) as [[before after| |] st'] eqn:E;
    vm_compute in E; try discriminate E.
  apply H; [vm_compute; tauto|]. intros k i h. cbn. by intros [= <-] [= <-].
Defined.

(** A cleared backoff window does not reach the stored status: once a pool
    has recovered, [compute_backoff_state] asks for no window, but the merge
    patch leaves an absent field as it is, so the old window stays stored and,
    until it passes, the next reconcile creates nothing for queued demand that
    the asked-for status would have it provision. *)
Theorem cleared_backoff_window_survives_merge :
  let stored := example_backoff in
  let recovered := {| clusters := [("pool-ci-7", mk_entry Ready (Some 0) 0 (Some 0) (Some "new")
                        false false None None)]; queue_depth := 2 |} in
  let pool := example_pool (Some stored) in
  let asked := compute_backoff_state (fun _ => "") pool recovered
                 (count_states recovered None) (seconds 600) in
  let next s := compute_pool_actions example_rfc3339 (with_status pool s) recovered (seconds 600) "new" in
  bs_consecutive_failures asked = 0 /\ bs_next_attempt_at asked = None /\
  next_attempt_at (merged_status (Some stored) asked) = next_attempt_at stored /\
  next (merged_status (Some stored) asked) = [] /\
  next (asked_status asked) = [Create "pool-ci-8"; Create "pool-ci-9"].
Proof. by vm_compute. Qed.
