(* ===== verification/LeaseController.v ===== *)
(** * LeaseController: from a Pending lease to an exact binding

    Model of the binding path of [src/controllers/lease.rs]: choosing a free
    instance, the two-sided reservation ([reserve_binding_instance]), the
    publication of [Bound] ([finalize_binding]), and the fenced writes that
    clear an intent, recycle, extend or expire.  Every write is a JSON Patch
    that carries the UID and resourceVersion that were read; a function here is
    one decision between two requests, and [BindingProtocol] puts them in
    sequence against one API server. *)

From S2P Require Import Prelude Text Durations Quantity Policy Teardown StateMachine Objects LeaseBinding PoolManager.
Open Scope kobe_scope.

(** ** Choosing an instance *)

Definition instance_is_free_capacity (i : ClusterInstance) : bool :=
  is_none (deletion_timestamp (inst_metadata i)) &&
  match inst_status i with
  | Some st => bool_decide (inst_phase st = ClusterInstancePhase.Ready) &&
               is_none (lease_ref st) && is_none (inst_binding st)
  | None => false
  end.

Definition bind_window (free_instances : Z) : Z := Z.max free_instances 1.

Definition candidates_for_slot {A} (candidates : list A) (slot : nat) : list A :=
  match slot with
  | O => candidates
  | _ => match nth_error candidates slot with Some c => [c] | None => [] end
  end.

Section Order.
Context (parse_from_rfc3339 : string -> option Z).

Definition bind_state_since (i : ClusterInstance) : option Z :=
  st ← inst_status i; raw ← inst_state_since st; parse_from_rfc3339 raw.

(** [Some] before [None], and the earlier first. *)
Definition since_order (a b : option Z) : comparison :=
  match a, b with
  | Some a, Some b => Z.compare a b
  | Some _, None => Lt
  | None, Some _ => Gt
  | None, None => Eq
  end.

Definition is_current (current_hash : string) (i : ClusterInstance) : bool :=
  spec_hash_is_current (st ← inst_status i; inst_spec_hash st) current_hash.

(** [b_current.cmp(&a_current)]: [true] first. *)
Definition current_order (a b : bool) : comparison :=
  match a, b with true, false => Lt | false, true => Gt | _, _ => Eq end.

Definition bind_order (current_hash : string) (a b : ClusterInstance) : comparison :=
  then_with (current_order (is_current current_hash a) (is_current current_hash b))
    (then_with (since_order (bind_state_since a) (bind_state_since b))
       (String.compare (meta_name (inst_metadata a)) (meta_name (inst_metadata b)))).

Definition order_bind_candidates (ready : list ClusterInstance) (current_hash : string)
    : list ClusterInstance := sort_by (bind_order current_hash) ready.

End Order.

(** ** The binding *)

Section Observe.
Context (parse_from_rfc3339 : string -> option Z)
  (manifest_digest : TeardownCreationManifest -> option string).

Definition manifest_of_instance (i : ClusterInstance) (ns instance_uid : string)
    (b : BackendProvenance) (m : TeardownCreationManifest) : bool :=
  match Teardown.validate parse_from_rfc3339 m with Ok _ => true | Err _ => false end &&
  String.eqb (ref_name (instance m)) (meta_name (inst_metadata i)) &&
  str_opt_eqb (ref_uid (instance m)) (Some instance_uid) &&
  String.eqb (manifest_namespace m) ns && bool_decide (backend_type m = provenance_type b) &&
  String.eqb (config_digest m) (provenance_digest b).

(** [new_id] is the fresh UUID of the binding, [ns] the instance's namespace. *)
Definition binding_from_observation (new_id ns : string) (lease : ClusterLease)
    (i : ClusterInstance) (pool : BackendPool) : result LeaseBinding string :=
  let pool_name := meta_name (pool_metadata pool) in
  let? lease_uid := ok_or (meta_uid (lease_metadata lease)) "lease_uid_missing" in
  let? pool_uid := ok_or (meta_uid (pool_metadata pool)) "pool_uid_missing" in
  let? _ := deny_if (negb (String.eqb pool_name (lease_pool_ref lease)) ||
                     is_some (deletion_timestamp (pool_metadata pool))) "pool_identity_mismatch" in
  let? instance_uid := ok_or (meta_uid (inst_metadata i)) "instance_uid_missing" in
  let? generation := ok_or (g ← meta_generation (inst_metadata i); if 0 <? g then Some g else None)
                       "instance_generation_missing" in
  let? st := ok_or (inst_status i) "instance_status_missing" in
  let? spec_digest := ok_or (inst_spec_hash st) "instance_spec_digest_missing" in
  let? created := ok_or (created_with st) "instance_provenance_missing" in
  let? b := ok_or (created_backend created) "backend_provenance_missing" in
  let? current_backend := ok_or (pool_backend pool) "backend_digest_failed" in
  let? _ := deny_if (negb (bool_decide (b = current_backend)) ||
                     negb (str_opt_eqb (created_pool_uid created) (Some pool_uid)) ||
                     negb (bool_decide (created_backend_type created = Some (provenance_type b))))
              "backend_provenance_mismatch" in
  let pool_ref := {| ref_name := pool_name; ref_uid := Some pool_uid |} in
  let? _ := deny_if (negb (ref_matches (inst_pool_ref i) pool_ref)) "pool_reference_mismatch" in
  let? _ := deny_if (negb (existsb (fun o =>
                       String.eqb (owner_api_version o) "kobe.kunobi.ninja/v1alpha1" &&
                       String.eqb (owner_kind o) "ClusterPool" && String.eqb (owner_name o) pool_name &&
                       String.eqb (owner_uid o) pool_uid)
                       (default [] (owner_references (inst_metadata i))))) "pool_owner_mismatch" in
  let mode := default Standard (lease_cleanup_mode lease) in
  let? manifest :=
    match inst_creation_manifest st with
    | Some m => if manifest_of_instance i ns instance_uid b m then Ok (Some m)
                else if requires_receipt mode then Err "creation_manifest_invalid" else Ok None
    | None => if requires_receipt mode then Err "creation_manifest_missing" else Ok None
    end in
  let digest := manifest ≫= manifest_digest in
  let? _ := deny_if (requires_receipt mode && is_none digest) "creation_manifest_digest_failed" in
  Ok {| binding_id := new_id;
        binding_lease := {| ref_name := meta_name (lease_metadata lease); ref_uid := Some lease_uid |};
        binding_instance := {| bound_name := meta_name (inst_metadata i); bound_uid := instance_uid;
                               observed_generation := generation |};
        binding_pool := pool_ref; backend := b; instance_spec_digest := spec_digest;
        cleanup_mode := mode; creation_manifest_digest := digest; creation_manifest := manifest;
        connect_token := None |}.

End Observe.

Definition instance_matches_binding_subject (i : ClusterInstance) (b : LeaseBinding) : bool :=
  String.eqb (meta_name (inst_metadata i)) (bound_name (binding_instance b)) &&
  str_opt_eqb (meta_uid (inst_metadata i)) (Some (bound_uid (binding_instance b))) &&
  bool_decide (meta_generation (inst_metadata i) = Some (observed_generation (binding_instance b))) &&
  ref_matches (inst_pool_ref i) (binding_pool b) &&
  str_opt_eqb (st ← inst_status i; inst_spec_hash st) (Some (instance_spec_digest b)) &&
  match st ← inst_status i; created_with st with
  | Some created =>
      str_opt_eqb (created_pool_uid created) (ref_uid (binding_pool b)) &&
      bool_decide (created_backend created = Some (backend b)) &&
      bool_decide (created_backend_type created = Some (provenance_type (backend b)))
  | None => false
  end.

Definition carries (st : ClusterInstanceStatus) (b : LeaseBinding) : bool :=
  bool_decide (inst_binding st = Some b).

Definition instance_carries_compatible_reservation (i : ClusterInstance) (st : ClusterInstanceStatus)
    (b : LeaseBinding) : bool :=
  String.eqb (meta_name (inst_metadata i)) (bound_name (binding_instance b)) &&
  str_opt_eqb (meta_uid (inst_metadata i)) (Some (bound_uid (binding_instance b))) &&
  (carries st b ||
   match lease_ref st with
   | Some r => String.eqb (ref_name r) (ref_name (binding_lease b)) &&
               (is_none (ref_uid r) || str_opt_eqb (ref_uid r) (ref_uid (binding_lease b)))
   | None => false
   end).

(** ** Reservation *)

Inductive ReservationOutcome : Type := Reserved | Occupied | Retry.
#[global] Instance ReservationOutcome_eq_dec : EqDecision ReservationOutcome.
Proof. solve_decision. Defined.

(** The last look at the lease before its instance is written. *)
Definition token_ready (st : ClusterLeaseStatus) (b : LeaseBinding) : bool :=
  negb (requires_receipt (cleanup_mode b)) ||
  match connect_token_creation st with
  | Some c => bool_decide (creation_phase c = ConnectTokenCreationPhase.Ready) &&
              bool_decide (token_identity c = connect_token b)
  | None => false
  end.

Definition reserve_lease_fence (b : LeaseBinding) (lease : ClusterLease) : bool :=
  let st := default default_lease_status (lease_status lease) in
  str_opt_eqb (meta_uid (lease_metadata lease)) (ref_uid (binding_lease b)) &&
  is_none (deletion_timestamp (lease_metadata lease)) &&
  bool_decide (lease_phase st = ClusterLeasePhase.Pending) &&
  bool_decide (lease_status_binding st = Some b) && token_ready st b.

(** The two patches of a reservation: restoring the projections of a binding
    that is already there, and installing it where there is none. *)
Inductive ReserveKind : Type := Repair | Install (expected_ref : option ResourceRef).

Record ReservePatch : Type := {
  reserve_uid : string;
  reserve_rv : string;
  reserve_phase : ClusterInstancePhase.t;
  reserve_kind : ReserveKind;
}.

Inductive ReservePlan : Type :=
| Answer (o : ReservationOutcome)
| Send (p : ReservePatch)
| PlanError.  (** the object has no UID or no resourceVersion *)

Definition is_phase (st : ClusterInstanceStatus) (p : ClusterInstancePhase.t) : bool :=
  bool_decide (inst_phase st = p).

Definition send_reserve (i : ClusterInstance) (phase : ClusterInstancePhase.t) (k : ReserveKind)
    : ReservePlan :=
  match meta_uid (inst_metadata i), resource_version (inst_metadata i) with
  | Some uid, Some rv =>
      Send {| reserve_uid := uid; reserve_rv := rv; reserve_phase := phase; reserve_kind := k |}
  | _, _ => PlanError
  end.

(** [reserve_binding_instance_after_lease_fence] up to its request. *)
Definition reserve_plan (b : LeaseBinding) (i : ClusterInstance) : ReservePlan :=
  let st := default default_instance_status (inst_status i) in
  let leased := is_phase st ClusterInstancePhase.Leased in
  let ready := is_phase st ClusterInstancePhase.Ready in
  if negb (instance_matches_binding_subject i b)
  then Answer (if instance_carries_compatible_reservation i st b then Retry else Occupied)
  else if leased && carries st b && ref_matches (lease_ref st) (binding_lease b)
  then Answer Reserved
  else if carries st b && (leased || (ready && (is_none (lease_ref st) ||
                                               ref_matches (lease_ref st) (binding_lease b))))
  then send_reserve i (inst_phase st) Repair
  else if carries st b then Answer Retry
  else
    let is_free := ready && is_none (inst_binding st) && is_none (lease_ref st) in
    let is_provable_existing_pair :=
      is_none (inst_binding st) &&
      match lease_ref st with
      | Some r => String.eqb (ref_name r) (ref_name (binding_lease b)) &&
                  (str_opt_eqb (ref_uid r) (ref_uid (binding_lease b)) || (leased && is_none (ref_uid r)))
      | None => false
      end && (leased || ready) in
    if negb is_free && negb is_provable_existing_pair
    then Answer (if is_some (inst_binding st) || is_some (lease_ref st) then Occupied else Retry)
    else send_reserve i (if is_free then ClusterInstancePhase.Ready else inst_phase st)
           (Install (if is_free then None else lease_ref st)).

(** The [test] operations against the object the server holds; a [null] value
    tests absence. *)
Definition reserve_tests (b : LeaseBinding) (p : ReservePatch) (o : ClusterInstance) : bool :=
  str_opt_eqb (meta_uid (inst_metadata o)) (Some (reserve_uid p)) &&
  str_opt_eqb (resource_version (inst_metadata o)) (Some (reserve_rv p)) &&
  match inst_status o with
  | Some st => is_phase st (reserve_phase p) &&
               match reserve_kind p with
               | Repair => carries st b
               | Install ref => bool_decide (lease_ref st = ref)
               end
  | None => false
  end.

(** The operations that write. *)
Definition reserve_patched (b : LeaseBinding) (now : string) (k : ReserveKind)
    (st : ClusterInstanceStatus) : ClusterInstanceStatus :=
  let install := match k with Install _ => true | Repair => false end in
  {| inst_phase := ClusterInstancePhase.Leased; provisioned := provisioned st;
     bootstrapped := bootstrapped st; lease_ref := Some (binding_lease b);
     inst_binding := if install then Some b else inst_binding st;
     inst_idle_since := if install then None else inst_idle_since st;
     inst_state_since := if install then Some now else inst_state_since st;
     inst_health_failures := inst_health_failures st; inst_spec_hash := inst_spec_hash st;
     created_with := created_with st; inst_creation_manifest := inst_creation_manifest st;
     inst_message := inst_message st; inst_conditions := inst_conditions st |}.

(** A lost [Install] is re-read before it is classified; a lost [Repair] is a
    retry. *)
Definition reserve_after_conflict (b : LeaseBinding) (current : ClusterInstance) : ReservationOutcome :=
  let st := default default_instance_status (inst_status current) in
  if negb (instance_matches_binding_subject current b)
  then if instance_carries_compatible_reservation current st b then Retry else Occupied
  else if is_phase st ClusterInstancePhase.Leased && carries st b &&
          ref_matches (lease_ref st) (binding_lease b) then Reserved
  else if carries st b then Retry
  else if is_phase st ClusterInstancePhase.Ready && is_none (inst_binding st) && is_none (lease_ref st)
  then Retry
  else if match inst_binding st with Some c => negb (bool_decide (c = b)) | None => false end ||
          match lease_ref st with
          | Some r => negb (String.eqb (ref_name r) (ref_name (binding_lease b))) ||
                      (is_some (ref_uid r) && negb (str_opt_eqb (ref_uid r) (ref_uid (binding_lease b))))
          | None => false
          end
  then Occupied
  else Retry.

(** A request names the UID and the version it was decided on; without them the
    code returns an error. *)
Definition versioned (m : ObjectMeta) : bool := is_some (meta_uid m) && is_some (resource_version m).

(** ** Finalization *)

Definition FINALIZE_BINDING_ATTEMPTS : nat := 3.

(** What [finalize_binding] makes of the lease it read: [Ok already_bound]. *)
Definition finalize_lease_check (b : LeaseBinding) (lease : ClusterLease) : result bool string :=
  let st := default default_lease_status (lease_status lease) in
  let? _ := deny_if (negb (str_opt_eqb (meta_uid (lease_metadata lease)) (ref_uid (binding_lease b))))
              "lease UID changed while finalizing binding" in
  let expected := bool_decide (model_binding_state (lease_status_binding st) b = Expected) in
  let already_bound := bool_decide (lease_phase st = ClusterLeasePhase.Bound) && expected in
  let? _ := deny_if (negb already_bound &&
                     (negb (bool_decide (lease_phase st = ClusterLeasePhase.Pending)) || negb expected))
              "lease binding intent changed before finalization" in
  Ok already_bound.

Definition finalize_instance_check (b : LeaseBinding) (lease : ClusterLease) (i : ClusterInstance)
    : result FinalizationDecision string :=
  let st := default default_lease_status (lease_status lease) in
  let ist := default default_instance_status (inst_status i) in
  let? _ := deny_if (negb (instance_matches_binding_subject i b))
              "instance reciprocal binding changed before finalization" in
  match exact_binding_finalization (model_lease_phase (lease_phase st))
          (model_binding_state (lease_status_binding st) b)
          (recovery_phase (inst_phase ist)) (model_binding_state (inst_binding ist) b) with
  | FinalizationSuperseded => Err "exact reciprocal binding changed before finalization"
  | d => Ok d
  end.

Definition DEFAULT_LEASE_TTL : Z := seconds 3600.

(** The [Bound] patch: its tests, and its writes. *)
Definition bound_tests (b : LeaseBinding) (read held : ClusterLease) : bool :=
  str_opt_eqb (meta_uid (lease_metadata held)) (ref_uid (binding_lease b)) &&
  str_opt_eqb (resource_version (lease_metadata held)) (resource_version (lease_metadata read)) &&
  match lease_status held with
  | Some st => bool_decide (lease_phase st = ClusterLeasePhase.Pending) &&
               bool_decide (lease_status_binding st = Some b)
  | None => false
  end.

Section Write.
(** [chrono]'s [to_rfc3339] and [parse_from_rfc3339]. *)
Context (to_rfc3339 : Z -> string) (parse_from_rfc3339 : string -> option Z).

Definition bound_status (b : LeaseBinding) (lease : ClusterLease) (policy : option Policy) (now : Z)
    (held : ClusterLeaseStatus) : ClusterLeaseStatus :=
  let ttl := default DEFAULT_LEASE_TTL (parse_duration (lease_ttl lease)) in
  {| lease_phase := ClusterLeasePhase.Bound; cluster_name := Some (bound_name (binding_instance b));
     lease_status_binding := lease_status_binding held; bound_at := Some (to_rfc3339 now);
     expires_at := Some (to_rfc3339 (now + ttl)); extensions_count := 0;
     lease_max_extensions := match policy with Some p => Policy.max_extensions p | None => 2 end;
     connect_token_creation := connect_token_creation held;
     lease_message := match st ← lease_status lease; lease_message st with
                      | Some _ => None | None => lease_message held end |}.

(** ** Extension and expiry *)

Inductive ExtendError : Type :=
| LeaseIdentityChanged | LeaseNoVersion | LeaseNotInBound | MaximumExtensions | InvalidDuration
| NoBoundAt | NoPolicy | ExceedsMaximumTtl.

(** [extend_lease_ttl] up to its request: the new expiry. *)
Definition extend_check (expected_uid extend_by : string) (policy : option Policy) (now : Z)
    (lease : ClusterLease) : result Z ExtendError :=
  let? _ := deny_if (negb (str_opt_eqb (meta_uid (lease_metadata lease)) (Some expected_uid)))
              LeaseIdentityChanged in
  let? _ := deny_if (is_none (resource_version (lease_metadata lease))) LeaseNoVersion in
  let st := default default_lease_status (lease_status lease) in
  let? _ := deny_if (negb (bool_decide (lease_phase st = ClusterLeasePhase.Bound))) LeaseNotInBound in
  let? _ := deny_if (lease_max_extensions st <=? extensions_count st) MaximumExtensions in
  let? extension := ok_or (parse_duration extend_by) InvalidDuration in
  let current_expiry := default now (expires_at st ≫= parse_from_rfc3339) in
  let new_expiry := current_expiry + extension in
  let? bound := ok_or (bound_at st ≫= parse_from_rfc3339) NoBoundAt in
  let? p := ok_or policy NoPolicy in
  let? _ := deny_if (bound + max_ttl p <? new_expiry) ExceedsMaximumTtl in
  Ok new_expiry.

Definition extend_tests (expected_uid : string) (read held : ClusterLease) : bool :=
  str_opt_eqb (meta_uid (lease_metadata held)) (Some expected_uid) &&
  str_opt_eqb (resource_version (lease_metadata held)) (resource_version (lease_metadata read)) &&
  match lease_status held with
  | Some st => extensions_count st =?
               extensions_count (default default_lease_status (lease_status read))
  | None => false
  end.

Definition extended_status (read : ClusterLease) (new_expiry : Z) (held : ClusterLeaseStatus)
    : ClusterLeaseStatus :=
  {| lease_phase := lease_phase held; cluster_name := cluster_name held;
     lease_status_binding := lease_status_binding held; bound_at := bound_at held;
     expires_at := Some (to_rfc3339 new_expiry);
     extensions_count := extensions_count (default default_lease_status (lease_status read)) + 1;
     lease_max_extensions := lease_max_extensions held;
     connect_token_creation := connect_token_creation held; lease_message := lease_message held |}.

End Write.

(** [expire_lease_fenced]: the whole status is written back with the phase
    changed. *)
Definition expire_tests (read held : ClusterLease) : bool :=
  str_opt_eqb (meta_uid (lease_metadata held)) (meta_uid (lease_metadata read)) &&
  str_opt_eqb (resource_version (lease_metadata held)) (resource_version (lease_metadata read)) &&
  match lease_status held with
  | Some st => bool_decide (lease_phase st =
                 lease_phase (default default_lease_status (lease_status read)))
  | None => false
  end.

Definition expired_status (read : ClusterLease) : ClusterLeaseStatus :=
  let st := default default_lease_status (lease_status read) in
  {| lease_phase := ClusterLeasePhase.Expired; cluster_name := cluster_name st;
     lease_status_binding := lease_status_binding st; bound_at := bound_at st;
     expires_at := expires_at st; extensions_count := extensions_count st;
     lease_max_extensions := lease_max_extensions st;
     connect_token_creation := connect_token_creation st; lease_message := lease_message st |}.

(** ** Letting go *)

(** [clear_lease_binding_intent]: whether there is still this intent to clear. *)
Definition clear_intent_applies (lease_uid : string) (b : LeaseBinding) (lease : ClusterLease) : bool :=
  str_opt_eqb (meta_uid (lease_metadata lease)) (Some lease_uid) &&
  bool_decide ((st ← lease_status lease; lease_status_binding st) = Some b) &&
  bool_decide ((st ← lease_status lease; Some (lease_phase st)) = Some ClusterLeasePhase.Pending).

Definition with_lease_binding (ob : option LeaseBinding) (st : ClusterLeaseStatus) : ClusterLeaseStatus :=
  {| lease_phase := lease_phase st; cluster_name := cluster_name st; lease_status_binding := ob;
     bound_at := bound_at st; expires_at := expires_at st; extensions_count := extensions_count st;
     lease_max_extensions := lease_max_extensions st;
     connect_token_creation := connect_token_creation st; lease_message := lease_message st |}.

Definition with_token_creation (c : option ConnectTokenCreation) (st : ClusterLeaseStatus)
    : ClusterLeaseStatus :=
  {| lease_phase := lease_phase st; cluster_name := cluster_name st;
     lease_status_binding := lease_status_binding st; bound_at := bound_at st;
     expires_at := expires_at st; extensions_count := extensions_count st;
     lease_max_extensions := lease_max_extensions st; connect_token_creation := c;
     lease_message := lease_message st |}.

Definition creation_at (c : ConnectTokenCreation) (p : ConnectTokenCreationPhase.t)
    (absent : option string) : ConnectTokenCreation :=
  {| attempt_id := attempt_id c; creation_phase := p; token_identity := token_identity c;
     verified_absent_at := absent |}.

(** [close_abandoned_pending_binding]: the next state of the token attempt, or
    nothing to do; [deleted] is the verified deletion of the exact Secret. *)
Definition abandon_creation (b : LeaseBinding) (st : ClusterLeaseStatus) (deleted : bool) (now : string)
    : result (option ConnectTokenCreation) string :=
  let? c := ok_or (connect_token_creation st) "verified binding rollback has no token creation checkpoint" in
  let? identity := ok_or (token_identity c) "verified binding rollback has no exact token identity" in
  if negb (bool_decide (lease_phase st = ClusterLeasePhase.Pending)) ||
     negb (bool_decide (lease_status_binding st = Some b)) ||
     negb (bool_decide (connect_token b = Some identity)) then Ok None
  else match creation_phase c with
       | ConnectTokenCreationPhase.Reserved | ConnectTokenCreationPhase.Ready =>
           Ok (Some (creation_at c ConnectTokenCreationPhase.Closing (verified_absent_at c)))
       | ConnectTokenCreationPhase.Closing =>
           let? _ := deny_if (negb deleted)
                       "cannot clear a verified binding while its token footprint is unproven" in
           Ok (Some (creation_at c ConnectTokenCreationPhase.Closed (Some now)))
       | _ => Err "verified binding rollback did not enter Closing"
       end.

(** What clearing an intent writes: a verified one is kept, and its token
    attempt closed; a standard one is removed. *)
Definition cleared_status (b : LeaseBinding) (st : ClusterLeaseStatus) (deleted : bool) (now : string)
    : result (option ClusterLeaseStatus) string :=
  if requires_receipt (cleanup_mode b) then
    let? next := abandon_creation b st deleted now in
    Ok (c ← next; Some (with_token_creation (Some c) st))
  else Ok (Some (with_lease_binding None st)).

(** The lease side's [mark_instance_recycling]. *)
Definition generation_current (i : ClusterInstance) (b : LeaseBinding) : bool :=
  is_some (deletion_timestamp (inst_metadata i)) ||
  bool_decide (meta_generation (inst_metadata i) = Some (observed_generation (binding_instance b))).

Inductive MarkPlan : Type := MarkAnswer (done : bool) | MarkSend (previous : ClusterInstancePhase.t) | MarkError.

Definition mark_plan (b : LeaseBinding) (i : ClusterInstance) : MarkPlan :=
  let st := default default_instance_status (inst_status i) in
  if negb (str_opt_eqb (meta_uid (inst_metadata i)) (Some (bound_uid (binding_instance b)))) ||
     negb (generation_current i b) || negb (carries st b) ||
     negb (ref_matches (lease_ref st) (binding_lease b)) then MarkAnswer false
  else if is_phase st ClusterInstancePhase.Recycling then MarkAnswer true
  else if negb (is_phase st ClusterInstancePhase.Leased) && negb (is_phase st ClusterInstancePhase.Ready)
  then MarkAnswer false
  else if is_none (resource_version (inst_metadata i)) then MarkError
  else MarkSend (inst_phase st).

Definition mark_tests (b : LeaseBinding) (read : ClusterInstance) (previous : ClusterInstancePhase.t)
    (o : ClusterInstance) : bool :=
  str_opt_eqb (meta_uid (inst_metadata o)) (Some (bound_uid (binding_instance b))) &&
  str_opt_eqb (resource_version (inst_metadata o)) (resource_version (inst_metadata read)) &&
  match inst_status o with
  | Some st => is_phase st previous && carries st b
  | None => false
  end.

Definition marked_status (now : string) (st : ClusterInstanceStatus) : ClusterInstanceStatus :=
  {| inst_phase := ClusterInstancePhase.Recycling; provisioned := provisioned st;
     bootstrapped := bootstrapped st; lease_ref := lease_ref st; inst_binding := inst_binding st;
     inst_idle_since := None; inst_state_since := Some now;
     inst_health_failures := inst_health_failures st; inst_spec_hash := inst_spec_hash st;
     created_with := created_with st; inst_creation_manifest := inst_creation_manifest st;
     inst_message := inst_message st; inst_conditions := inst_conditions st |}.

(** [reserve_ready_instance]'s intent: tests [Pending] and the version read. *)
Definition intent_tests (read held : ClusterLease) : bool :=
  str_opt_eqb (meta_uid (lease_metadata held)) (meta_uid (lease_metadata read)) &&
  str_opt_eqb (resource_version (lease_metadata held)) (resource_version (lease_metadata read)) &&
  match lease_status held with
  | Some st => bool_decide (lease_phase st = ClusterLeasePhase.Pending)
  | None => false
  end.

(** [attempt] is the fresh UUID of a verified binding's token attempt. *)
Definition intent_status (b : LeaseBinding) (attempt : string) (st : ClusterLeaseStatus)
    : ClusterLeaseStatus :=
  let st' := with_lease_binding (Some b) st in
  if requires_receipt (cleanup_mode b)
  then with_token_creation (Some {| attempt_id := attempt;
         creation_phase := ConnectTokenCreationPhase.Prepared; token_identity := None;
         verified_absent_at := None |}) st'
  else st'.
