(* ===== verification/BindingProtocol.v ===== *)
(** * BindingProtocol: leases and instances behind one API server

    The reservation and finalization calls of [LeaseController] as they run:
    one request at a time, any number of calls in flight (replicas, restarts,
    stale reconciles), every other writer of a lease or an instance in between.
    A call keeps the object it read; the server serves a patch against the
    object it holds and gives every stored object a new resourceVersion.  What
    the other writers may do is stated once ([lease_rely], [instance_rely]) and
    each modelled writer is shown to keep to it. *)

From S2P Require Import Prelude Text Durations Quantity Policy Teardown Receipts StateMachine Objects LeaseBinding InstanceRecovery PoolManager PoolActions PoolController LeaseController.
Open Scope kobe_scope.

Inductive Call : Type :=
| ReserveStart (b : LeaseBinding)  (** about to read the lease *)
| ReserveFenced (b : LeaseBinding)  (** about to read the instance *)
| ReserveSending (b : LeaseBinding) (read : ClusterInstance) (p : ReservePatch)
| ReserveRereading (b : LeaseBinding)
| ReserveAnswered (b : LeaseBinding) (o : ReservationOutcome)
| ReserveFailed (b : LeaseBinding)
| FinalizeStart (b : LeaseBinding) (attempts : nat)  (** about to read the lease *)
| FinalizeRead (b : LeaseBinding) (attempts : nat) (lease : ClusterLease) (already_bound : bool)
| FinalizeSending (b : LeaseBinding) (attempts : nat) (lease : ClusterLease)
| FinalizeAnswered (b : LeaseBinding) (published : bool)
| FinalizeFailed (b : LeaseBinding).

Record Cluster : Type := {
  leases : gmap string ClusterLease;
  instances : gmap string ClusterInstance;
  calls : gmap nat Call;
  past_leases : list ClusterLease;  (** ghost: every version ever stored *)
  past_instances : list ClusterInstance;  (** ghost *)
  installed : list LeaseBinding;  (** ghost: every binding an instance was given *)
}.

(** ** Objects *)

Definition lease_uid (l : ClusterLease) : option string := meta_uid (lease_metadata l).
Definition inst_uid (i : ClusterInstance) : option string := meta_uid (inst_metadata i).

Definition stamp (m : ObjectMeta) (rv : string) : ObjectMeta :=
  {| meta_name := meta_name m; meta_uid := meta_uid m; meta_generation := meta_generation m;
     resource_version := Some rv; deletion_timestamp := deletion_timestamp m;
     owner_references := owner_references m |}.

Definition stored_lease (l : ClusterLease) (st : ClusterLeaseStatus) (rv : string) : ClusterLease :=
  {| lease_metadata := stamp (lease_metadata l) rv; lease_pool_ref := lease_pool_ref l;
     lease_ttl := lease_ttl l; requester_type := requester_type l;
     lease_cleanup_mode := lease_cleanup_mode l; lease_status := Some st |}.

Definition stored_instance (i : ClusterInstance) (st : ClusterInstanceStatus) (rv : string)
    : ClusterInstance :=
  {| inst_metadata := stamp (inst_metadata i) rv; inst_pool_ref := inst_pool_ref i;
     inst_status := Some st |}.

(** The binding an instance carries, and the one a lease is [Bound] with. *)
Definition carried (i : ClusterInstance) : option LeaseBinding := st ← inst_status i; inst_binding st.

Definition bound_with (l : ClusterLease) : option LeaseBinding :=
  st ← lease_status l;
  if bool_decide (lease_phase st = ClusterLeasePhase.Bound) then lease_status_binding st else None.

(** The lease a binding names exists. *)
Definition live (ls : gmap string ClusterLease) (b : LeaseBinding) : Prop :=
  exists l, ls !! ref_name (binding_lease b) = Some l /\ lease_uid l = ref_uid (binding_lease b).

(** ** What other writers do *)

(** Nobody else publishes [Bound] or changes the binding of a Bound lease. *)
Definition lease_rely (l l' : ClusterLease) : Prop :=
  forall b, bound_with l' = Some b -> bound_with l = Some b.

(** Nobody else gives an instance a binding, and one is taken away only when the
    lease it names is gone. *)
Definition instance_rely (ls : gmap string ClusterLease) (i i' : ClusterInstance) : Prop :=
  carried i' = carried i \/
  exists b, carried i = Some b /\ carried i' = None /\ ~ live ls b.

Definition same_object (m m' : ObjectMeta) : Prop :=
  meta_name m' = meta_name m /\ meta_uid m' = meta_uid m.

Definition fresh_version (m : ObjectMeta) (past : list ObjectMeta) : Prop :=
  is_Some (resource_version m) /\
  Forall (fun p => resource_version p <> resource_version m) past.

Section Steps.
Context (to_rfc3339 : Z -> string).

Definition upd_calls (s : Cluster) (k : nat) (c : Call) : Cluster :=
  {| leases := leases s; instances := instances s; calls := <[k := c]> (calls s);
     past_leases := past_leases s; past_instances := past_instances s; installed := installed s |}.

Definition put_lease (s : Cluster) (n : string) (l : ClusterLease) : Cluster :=
  {| leases := <[n := l]> (leases s); instances := instances s; calls := calls s;
     past_leases := l :: past_leases s; past_instances := past_instances s; installed := installed s |}.

Definition put_instance (s : Cluster) (n : string) (i : ClusterInstance) : Cluster :=
  {| leases := leases s; instances := <[n := i]> (instances s); calls := calls s;
     past_leases := past_leases s; past_instances := i :: past_instances s; installed := installed s |}.

Definition install (s : Cluster) (b : LeaseBinding) : Cluster :=
  {| leases := leases s; instances := instances s; calls := calls s; past_leases := past_leases s;
     past_instances := past_instances s; installed := b :: installed s |}.

Definition lease_version_ok (s : Cluster) (l : ClusterLease) : Prop :=
  fresh_version (lease_metadata l) (map lease_metadata (past_leases s)).

Definition instance_version_ok (s : Cluster) (i : ClusterInstance) : Prop :=
  fresh_version (inst_metadata i) (map inst_metadata (past_instances s)).

Definition lease_name_of (b : LeaseBinding) : string := ref_name (binding_lease b).
Definition instance_name_of (b : LeaseBinding) : string := bound_name (binding_instance b).

Inductive binding_step (s : Cluster) : Cluster -> Prop :=
(** Leases and instances come, change under other hands, and go.  A UID is new
    when its object is created. *)
| create_lease n l u : leases s !! n = None -> meta_name (lease_metadata l) = n -> lease_uid l = Some u ->
    Forall (fun p => lease_uid p <> Some u) (past_leases s) ->
    Forall (fun b => ref_uid (binding_lease b) <> Some u) (installed s) ->
    lease_version_ok s l -> bound_with l = None -> binding_step s (put_lease s n l)
| write_lease n l l' : leases s !! n = Some l -> same_object (lease_metadata l) (lease_metadata l') ->
    lease_version_ok s l' -> lease_rely l l' -> binding_step s (put_lease s n l')
| delete_lease n : binding_step s
    {| leases := delete n (leases s); instances := instances s; calls := calls s;
       past_leases := past_leases s; past_instances := past_instances s; installed := installed s |}
| create_instance n i u : instances s !! n = None -> meta_name (inst_metadata i) = n ->
    inst_uid i = Some u -> Forall (fun p => inst_uid p <> Some u) (past_instances s) ->
    instance_version_ok s i -> carried i = None -> binding_step s (put_instance s n i)
| write_instance n i i' : instances s !! n = Some i -> same_object (inst_metadata i) (inst_metadata i') ->
    instance_version_ok s i' -> instance_rely (leases s) i i' -> binding_step s (put_instance s n i')
| delete_instance n : binding_step s
    {| leases := leases s; instances := delete n (instances s); calls := calls s;
       past_leases := past_leases s; past_instances := past_instances s; installed := installed s |}
(** [reserve_binding_instance]: the fence on the lease, or its absence. *)
| reserve_call k b : calls s !! k = None -> binding_step s (upd_calls s k (ReserveStart b))
| reserve_fenced k b l : calls s !! k = Some (ReserveStart b) -> leases s !! lease_name_of b = Some l ->
    binding_step s (upd_calls s k (if reserve_lease_fence b l then ReserveFenced b
                                   else ReserveAnswered b Retry))
| reserve_no_lease k b : calls s !! k = Some (ReserveStart b) -> leases s !! lease_name_of b = None ->
    binding_step s (upd_calls s k (ReserveAnswered b Retry))
(** A terminal lease adopts its own binding without that fence. *)
| reserve_closing k b l st : calls s !! k = None -> In l (past_leases s) -> lease_status l = Some st ->
    terminating (lease_phase st) = true -> lease_status_binding st = Some b ->
    binding_step s (upd_calls s k (ReserveFenced b))
(** [reserve_binding_instance_after_lease_fence]. *)
| reserve_read k b i : calls s !! k = Some (ReserveFenced b) -> instances s !! instance_name_of b = Some i ->
    binding_step s (upd_calls s k match reserve_plan b i with
                                  | Answer o => ReserveAnswered b o
                                  | Send p => ReserveSending b i p
                                  | PlanError => ReserveFailed b
                                  end)
| reserve_gone k b : calls s !! k = Some (ReserveFenced b) -> instances s !! instance_name_of b = None ->
    binding_step s (upd_calls s k (ReserveAnswered b Retry))
| reserve_stored k b i p o st now rv : calls s !! k = Some (ReserveSending b i p) ->
    instances s !! instance_name_of b = Some o -> reserve_tests b p o = true -> inst_status o = Some st ->
    let o' := stored_instance o (reserve_patched b now (reserve_kind p) st) rv in
    instance_version_ok s o' ->
    let s' := upd_calls (put_instance s (instance_name_of b) o') k (ReserveAnswered b Reserved) in
    binding_step s match reserve_kind p with Install _ => install s' b | Repair => s' end
| reserve_conflict k b i p : calls s !! k = Some (ReserveSending b i p) ->
    binding_step s (upd_calls s k match reserve_kind p with
                                  | Install _ => ReserveRereading b
                                  | Repair => ReserveAnswered b Retry
                                  end)
| reserve_reread k b i : calls s !! k = Some (ReserveRereading b) ->
    instances s !! instance_name_of b = Some i ->
    binding_step s (upd_calls s k (ReserveAnswered b (reserve_after_conflict b i)))
| reserve_reread_gone k b : calls s !! k = Some (ReserveRereading b) ->
    instances s !! instance_name_of b = None ->
    binding_step s (upd_calls s k (ReserveAnswered b Retry))
(** [finalize_binding]; authorization, eligibility and the connect token may
    end a pass wherever they are consulted ([call_fails]). *)
| finalize_call k b : calls s !! k = None ->
    binding_step s (upd_calls s k (FinalizeStart b FINALIZE_BINDING_ATTEMPTS))
| finalize_read k b n l : calls s !! k = Some (FinalizeStart b n) -> leases s !! lease_name_of b = Some l ->
    binding_step s (upd_calls s k match finalize_lease_check b l with
                                  | Ok already => FinalizeRead b n l already
                                  | Err _ => FinalizeFailed b
                                  end)
| finalize_instance k b n l already i : calls s !! k = Some (FinalizeRead b n l already) ->
    instances s !! instance_name_of b = Some i ->
    binding_step s (upd_calls s k match finalize_instance_check b l i with
                                  | Ok _ => if already then FinalizeAnswered b true
                                            else if versioned (lease_metadata l) then FinalizeSending b n l
                                            else FinalizeFailed b
                                  | Err _ => FinalizeFailed b
                                  end)
| finalize_stored k b n l held st policy now rv : calls s !! k = Some (FinalizeSending b n l) ->
    leases s !! lease_name_of b = Some held -> bound_tests b l held = true -> lease_status held = Some st ->
    let held' := stored_lease held (bound_status to_rfc3339 b l policy now st) rv in
    lease_version_ok s held' ->
    binding_step s (upd_calls (put_lease s (lease_name_of b) held') k (FinalizeAnswered b true))
| finalize_conflict k b n l : calls s !! k = Some (FinalizeSending b n l) ->
    binding_step s (upd_calls s k match n with
                                  | S (S m) => FinalizeStart b (S m)
                                  | _ => FinalizeFailed b
                                  end)
(** Any call may end in an error or with its process. *)
| call_fails k : binding_step s
    {| leases := leases s; instances := instances s; calls := delete k (calls s);
       past_leases := past_leases s; past_instances := past_instances s; installed := installed s |}.

Definition initial_cluster : Cluster :=
  {| leases := ∅; instances := ∅; calls := ∅; past_leases := []; past_instances := []; installed := [] |}.

Definition binding_reachable (s : Cluster) : Prop := rtc binding_step initial_cluster s.

End Steps.
