(* ===== verification/BindingFacts.v ===== *)
(** * BindingFacts: what the binding protocol guarantees

    Theorems about [LeaseController] and [BindingProtocol]: what a reservation
    writes and answers, that every modelled writer keeps to what the protocol
    relies on, that no two Bound leases hold the same instance, and the bounds
    on extension. *)

From S2P Require Import Prelude Text Durations Quantity Policy Teardown Receipts StateMachine Objects LeaseBinding InstanceRecovery PoolManager PoolActions PoolController LeaseController BindingProtocol.
Open Scope kobe_scope.

(** ** Versions *)

Lemma fresh_version_spec m past p :
  fresh_version m past -> In p past -> resource_version p <> resource_version m.
Proof. intros [_ H] Hin. rewrite List.Forall_forall in H. by apply H. Qed.

(** A version identifies the object. *)
Definition versioned_objects {A} (meta : A -> ObjectMeta) (past : list A) : Prop :=
  forall a a', In a past -> In a' past ->
    resource_version (meta a) = resource_version (meta a') -> a = a'.

Lemma versioned_objects_cons {A} (meta : A -> ObjectMeta) past a :
  versioned_objects meta past -> fresh_version (meta a) (map meta past) ->
  versioned_objects meta (a :: past).
Proof.
  intros H Hf x y [<-|Hx] [<-|Hy] E; [done| | |by apply H].
  - edestruct (fresh_version_spec _ _ (meta y) Hf); [by apply in_map|done].
  - edestruct (fresh_version_spec _ _ (meta x) Hf); [by apply in_map|done].
Qed.

(** ** The invariant *)

Definition call_ok (s : Cluster) (c : Call) : Prop :=
  match c with
  | ReserveSending b i p => In i (past_instances s) /\ reserve_plan b i = Send p
  | FinalizeRead b _ l already => In l (past_leases s) /\ finalize_lease_check b l = Ok already
  | FinalizeSending b _ l =>
      In l (past_leases s) /\ finalize_lease_check b l = Ok false /\ In b (installed s)
  | _ => True
  end.

Record binding_inv (s : Cluster) : Prop := {
  bi_lease : forall n l, leases s !! n = Some l ->
    In l (past_leases s) /\ meta_name (lease_metadata l) = n;
  bi_instance : forall n i, instances s !! n = Some i ->
    In i (past_instances s) /\ meta_name (inst_metadata i) = n;
  bi_lease_versions : versioned_objects lease_metadata (past_leases s);
  bi_instance_versions : versioned_objects inst_metadata (past_instances s);
  bi_names : forall i i', In i (past_instances s) -> In i' (past_instances s) ->
    inst_uid i = inst_uid i' -> meta_name (inst_metadata i) = meta_name (inst_metadata i');
  bi_carried : forall n i b, instances s !! n = Some i -> carried i = Some b -> In b (installed s);
  bi_seen : forall b, In b (installed s) -> exists i, In i (past_instances s) /\
    inst_uid i = Some (bound_uid (binding_instance b)) /\ meta_name (inst_metadata i) = instance_name_of b;
  bi_holds : forall b i, In b (installed s) -> live (leases s) b ->
    instances s !! instance_name_of b = Some i ->
    inst_uid i = Some (bound_uid (binding_instance b)) -> carried i = Some b;
  bi_unique : forall b b', In b (installed s) -> In b' (installed s) ->
    live (leases s) b -> live (leases s) b' ->
    bound_uid (binding_instance b) = bound_uid (binding_instance b') -> b = b';
  bi_bound : forall n l b, leases s !! n = Some l -> bound_with l = Some b ->
    In b (installed s) /\ lease_name_of b = n /\ ref_uid (binding_lease b) = lease_uid l;
  bi_calls : forall k c, calls s !! k = Some c -> call_ok s c;
}.

Lemma call_ok_mono s s' c :
  incl (past_leases s) (past_leases s') -> incl (past_instances s) (past_instances s') ->
  incl (installed s) (installed s') -> call_ok s c -> call_ok s' c.
Proof. intros H1 H2 H3. destruct c; cbn; try done; intros; destruct_and?; split_and?; auto. Qed.

Lemma inv_call s k c : binding_inv s -> call_ok s c -> binding_inv (upd_calls s k c).
Proof.
  intros H Hc. destruct H. split; try done. intros k' c'. cbn. rewrite lookup_insert_Some.
  intros [[<- <-]|[_ Hk]]; [done|]. by apply (bi_calls0 k').
Qed.

(** A lease is stored: no installed binding comes to life, and a Bound lease
    has an installed binding of its own. *)
Lemma inv_put_lease s n l :
  binding_inv s -> lease_version_ok s l -> meta_name (lease_metadata l) = n ->
  (forall b, In b (installed s) -> live (<[n := l]> (leases s)) b -> live (leases s) b) ->
  (forall b, bound_with l = Some b ->
     In b (installed s) /\ lease_name_of b = n /\ ref_uid (binding_lease b) = lease_uid l) ->
  binding_inv (put_lease s n l).
Proof.
  intros [] Hv Hn Hlive Hb. split; cbn; try done.
  - intros n' l'. rewrite lookup_insert_Some. intros [[<- <-]|[_ Hl]]; [auto|].
    destruct (bi_lease0 n' l' Hl). auto.
  - by apply versioned_objects_cons.
  - intros b i Hin Hl. apply bi_holds0; auto.
  - intros b b' Hin Hin' Hl Hl'. apply bi_unique0; auto.
  - intros n' l' b. rewrite lookup_insert_Some. intros [[<- <-]|[_ Hl]]; [apply Hb|by apply bi_bound0].
  - intros k c Hc. apply (call_ok_mono s); [apply incl_tl|..]; try apply incl_refl. by eapply bi_calls0.
Qed.

(** An instance is stored, with no new binding. *)
Lemma inv_put_instance s n i :
  binding_inv s -> instance_version_ok s i -> meta_name (inst_metadata i) = n ->
  (forall p, In p (past_instances s) -> inst_uid p = inst_uid i -> meta_name (inst_metadata p) = n) ->
  (forall b, carried i = Some b -> In b (installed s)) ->
  (forall b, In b (installed s) -> live (leases s) b -> instance_name_of b = n ->
     inst_uid i = Some (bound_uid (binding_instance b)) -> carried i = Some b) ->
  binding_inv (put_instance s n i).
Proof.
  intros [] Hv Hn Hnames Hc Hh. split; cbn; try done.
  - intros n' i'. rewrite lookup_insert_Some. intros [[<- <-]|[_ Hl]]; [auto|].
    destruct (bi_instance0 n' i' Hl). auto.
  - by apply versioned_objects_cons.
  - intros x y [<-|Hx] [<-|Hy] E; [done| | |by apply bi_names0].
    + rewrite Hn. symmetry. by apply Hnames.
    + rewrite Hn. by apply Hnames.
  - intros n' i' b. rewrite lookup_insert_Some. intros [[<- <-]|[_ Hl]]; [by apply Hc|by eapply bi_carried0].
  - intros b Hin. destruct (bi_seen0 b Hin) as (p & Hp & ?). exists p. auto.
  - intros b i' Hin Hl. rewrite lookup_insert_Some. intros [[Hn' <-]|[_ Hi]] Hu; [by apply Hh|by eapply bi_holds0].
  - intros k c Hk. apply (call_ok_mono s); [apply incl_refl|apply incl_tl, incl_refl|apply incl_refl|]. by eapply bi_calls0.
Qed.

(** A free instance is given a binding. *)
Lemma inv_install s n o i b :
  binding_inv s -> instances s !! n = Some o -> carried o = None ->
  inst_uid o = Some (bound_uid (binding_instance b)) -> instance_name_of b = n ->
  instance_version_ok s i -> same_object (inst_metadata o) (inst_metadata i) -> carried i = Some b ->
  binding_inv (install (put_instance s n i) b).
Proof.
  intros Hinv Ho Hco Huo Hnb Hv [Hn Hu] Hci. pose proof (bi_instance s Hinv n o Ho) as [Hpo Hno].
  assert (forall b', In b' (installed s) -> live (leases s) b' ->
            bound_uid (binding_instance b') = bound_uid (binding_instance b) -> False) as Hfree.
  { intros b' Hin Hl E. destruct (bi_seen s Hinv b' Hin) as (p & Hp & Hup & Hnp).
    assert (instance_name_of b' = n) as Hn'.
    { rewrite <- Hnp, <- Hno. apply (bi_names s Hinv); [done..|]. congruence. }
    enough (carried o = Some b') by congruence.
    apply (bi_holds s Hinv b' o); [done|done|by rewrite Hn'|by rewrite E]. }
  destruct Hinv. split; cbn; try done.
  - intros n' i'. rewrite lookup_insert_Some. intros [[<- <-]|[_ Hl]]; [split; [auto|congruence]|].
    destruct (bi_instance0 n' i' Hl). auto.
  - by apply versioned_objects_cons.
  - assert (forall x, In x (past_instances s) -> inst_uid x = inst_uid i ->
              meta_name (inst_metadata x) = meta_name (inst_metadata i)) as Hx.
    { intros x Hx E. rewrite Hn. apply bi_names0; [done..|]. rewrite E. exact Hu. }
    intros x y [<-|Hxi] [<-|Hyi] E; [done|symmetry; by apply Hx|by apply Hx|by apply bi_names0].
  - intros n' i' b'. rewrite lookup_insert_Some. intros [[<- <-]|[_ Hl]] Hc; [left; congruence|right; by eapply bi_carried0].
  - intros b' [<-|Hin].
    + exists o. split_and!; [auto|done|congruence].
    + destruct (bi_seen0 b' Hin) as (p & Hp & ?). exists p. auto.
  - intros b' i' [<-|Hin] Hl; rewrite lookup_insert_Some.
    + intros [[_ <-]|[Hne _]]; [done|congruence].
    + intros [[Hn' <-]|[_ Hi]] Hu'; [|by eapply bi_holds0].
      exfalso. apply (Hfree b' Hin Hl). unfold inst_uid in *. rewrite Hu, Huo in Hu'. by injection Hu'.
  - intros x y [<-|Hx] [<-|Hy] Hlx Hly E; [done| | |by apply bi_unique0].
    + by destruct (Hfree y Hy Hly).
    + by destruct (Hfree x Hx Hlx).
  - intros n' l b' Hl Hb. destruct (bi_bound0 n' l b' Hl Hb) as (? & ? & ?). auto.
  - intros k c Hk. apply (call_ok_mono s); [apply incl_refl|apply incl_tl, incl_refl..|]. by eapply bi_calls0.
Qed.

(** ** What a reservation decides *)

(** The states a reservation may write over. *)
Definition reservable (b : LeaseBinding) (k : ReserveKind) (st : ClusterInstanceStatus) : Prop :=
  (inst_phase st = ClusterInstancePhase.Ready \/ inst_phase st = ClusterInstancePhase.Leased) /\
  match k with
  | Repair => inst_binding st = Some b
  | Install ref =>
      inst_binding st = None /\ lease_ref st = ref /\
      match ref with
      | Some r => ref_name r = ref_name (binding_lease b) /\
                  (ref_uid r = ref_uid (binding_lease b) \/ ref_uid r = None)
      | None => True
      end
  end.

Lemma send_reserve_Send i ph k p :
  send_reserve i ph k = Send p ->
  inst_uid i = Some (reserve_uid p) /\ resource_version (inst_metadata i) = Some (reserve_rv p) /\
  reserve_phase p = ph /\ reserve_kind p = k.
Proof. unfold send_reserve, inst_uid. repeat case_match; try done. by intros [= <-]. Qed.

Lemma subject_ids i b :
  instance_matches_binding_subject i b = true ->
  meta_name (inst_metadata i) = instance_name_of b /\ inst_uid i = Some (bound_uid (binding_instance b)) /\
  is_Some (inst_status i).
Proof.
  unfold instance_matches_binding_subject. intros H. destruct (inst_status i) as [st|] eqn:E.
  - rewrite !andb_true_iff in H. destruct_and?. rewrite String.eqb_eq, str_opt_eqb_eq in *. eauto.
  - cbn in H. by rewrite andb_false_r in H.
Qed.

Lemma carries_true st b : carries st b = true <-> inst_binding st = Some b.
Proof. unfold carries. by rewrite bool_decide_eq_true. Qed.

Lemma is_phase_true st p : is_phase st p = true <-> inst_phase st = p.
Proof. unfold is_phase. by rewrite bool_decide_eq_true. Qed.

Lemma ref_matches_true r t : ref_matches r t = true <-> r = Some t.
Proof.
  unfold ref_matches. destruct r as [[n u]|], t as [n' u']; cbn; [|done].
  rewrite andb_true_iff, String.eqb_eq, str_opt_eqb_eq. split; [by intros [-> ->]|by intros [= -> ->]].
Qed.

Lemma reserve_plan_Send b i p :
  reserve_plan b i = Send p ->
  instance_matches_binding_subject i b = true /\ inst_uid i = Some (reserve_uid p) /\
  resource_version (inst_metadata i) = Some (reserve_rv p) /\
  exists st, inst_status i = Some st /\ reservable b (reserve_kind p) st /\ reserve_phase p = inst_phase st.
Proof.
  unfold reserve_plan. destruct (instance_matches_binding_subject i b) eqn:Hm; [|done]. cbn [negb].
  destruct (subject_ids i b Hm) as (_ & _ & [st Hst]). rewrite Hst.
  change (default default_instance_status (Some st)) with st. cbv zeta.
  destruct (is_phase st ClusterInstancePhase.Leased) eqn:Hl, (carries st b) eqn:Hc;
    cbn [andb orb]; rewrite ?is_phase_true, ?carries_true in *.
  - case_match; [done|]. intros (? & ? & ? & Hk)%send_reserve_Send. rewrite Hk.
    split_and!; [done..|]. exists st. split_and!; [done| |done]. split; [by right|done].
  - case_match; [done|]. intros (? & ? & Hp & Hk)%send_reserve_Send. rewrite Hp, Hk.
    rewrite andb_false_iff, !negb_false_iff, !andb_true_iff, !is_none_true in *.
    split_and!; [done..|]. exists st. split; [done|].
    destruct (is_phase st ClusterInstancePhase.Ready && is_none (inst_binding st) && is_none (lease_ref st)) eqn:Hf.
    { rewrite !andb_true_iff, is_phase_true in Hf. destruct Hf as [[Hr _] _]. congruence. }
    destruct H as [[[Hr _] _]|[[Hb Hr] _]]; [apply is_phase_true in Hr; congruence|]. destruct (lease_ref st) as [r|] eqn:Href; [|done].
    split; [|done]. split; [by right|]. split; [done|split; [done|]].
    rewrite andb_true_iff, orb_true_iff, String.eqb_eq, str_opt_eqb_eq, is_none_true in Hr. cbn in Hr. tauto.
  - case_match; [|done]. rewrite andb_true_iff, is_phase_true in *. destruct H as [Hr _].
    intros (? & ? & ? & Hk)%send_reserve_Send. rewrite Hk.
    split_and!; [done..|]. exists st. split_and!; [done| |done]. split; [by left|done].
  - case_match; [done|]. intros (? & ? & Hp & Hk)%send_reserve_Send. rewrite Hp, Hk.
    split_and!; [done..|]. exists st. split; [done|].
    destruct (is_phase st ClusterInstancePhase.Ready) eqn:Hr;
      [|by rewrite !andb_false_r in H]. rewrite is_phase_true in Hr. cbn [andb] in *.
    destruct (is_none (inst_binding st)) eqn:Hb; [|done]. rewrite is_none_true in Hb. cbn [andb] in *.
    destruct (lease_ref st) as [r|] eqn:Href; cbn in *.
    + split; [|done]. split; [by left|]. split; [done|split; [done|]].
      rewrite orb_false_r, andb_true_r, negb_false_iff, andb_true_iff, String.eqb_eq, str_opt_eqb_eq in H. tauto.
    + split; [|done]. split; [by left|done].
Qed.

(** ** Preservation *)

Lemma live_put_same ls n l l' b :
  ls !! n = Some l -> lease_uid l' = lease_uid l -> live (<[n := l']> ls) b -> live ls b.
Proof.
  intros Hl Hu (x & Hx & Hux). apply lookup_insert_Some in Hx as [[E <-]|[_ Hx]]; [|by exists x].
  exists l. rewrite <- E. split; [done|congruence].
Qed.

Lemma live_delete ls n b : live (delete n ls) b -> live ls b.
Proof. intros (x & [_ Hx]%lookup_delete_Some & ?). by exists x. Qed.

Lemma finalize_lease_check_Ok b l already :
  finalize_lease_check b l = Ok already -> lease_uid l = ref_uid (binding_lease b) /\
  exists st, lease_status l = Some st /\ lease_status_binding st = Some b /\
    lease_phase st = if already then ClusterLeasePhase.Bound else ClusterLeasePhase.Pending.
Proof.
  unfold finalize_lease_check, lease_uid. destruct (str_opt_eqb _ _) eqn:Hu; [|done].
  rewrite str_opt_eqb_eq in Hu. cbn [negb deny_if].
  destruct (lease_status l) as [st|] eqn:Hst; [|done].
  change (default default_lease_status (Some st)) with st. cbv zeta.
  destruct (bool_decide (model_binding_state _ _ = _)) eqn:Hb; [|by rewrite andb_false_r, orb_true_r].
  apply bool_decide_eq_true, model_binding_Expected in Hb. rewrite andb_true_r, orb_false_r.
  do 2 case_bool_decide; cbn; try done; intros [= <-]; (split; [done|by exists st]).
Qed.

Lemma finalize_instance_check_Ok b l i d :
  finalize_instance_check b l i = Ok d ->
  instance_matches_binding_subject i b = true /\ carried i = Some b /\
  exists st, inst_status i = Some st /\ inst_phase st = ClusterInstancePhase.Leased.
Proof.
  unfold finalize_instance_check. destruct (instance_matches_binding_subject i b) eqn:Hm; [|done].
  destruct (subject_ids i b Hm) as (_ & _ & [st Hst]). unfold carried. rewrite Hst.
  change (default default_instance_status (Some st)) with st. cbn [negb deny_if mbind option_bind].
  intros H. split; [done|]. unfold exact_binding_finalization in H.
  destruct (model_binding_state (inst_binding st) b) eqn:Hb; [|by repeat case_match..].
  apply model_binding_Expected in Hb. split; [done|]. exists st. split; [done|].
  apply recovery_phase_Leased. by repeat case_match.
Qed.

Section Preservation.
Context (to_rfc3339 : Z -> string).

Lemma inv_reserve_stored s b i p o st now rv :
  binding_inv s -> In i (past_instances s) -> reserve_plan b i = Send p ->
  instances s !! instance_name_of b = Some o -> reserve_tests b p o = true -> inst_status o = Some st ->
  let o' := stored_instance o (reserve_patched b now (reserve_kind p) st) rv in
  instance_version_ok s o' ->
  let s' := put_instance s (instance_name_of b) o' in
  binding_inv match reserve_kind p with Install _ => install s' b | Repair => s' end.
Proof.
  intros H Hi Hp Ho Ht Hst o' Hv s'. destruct (reserve_plan_Send b i p Hp) as (Hm & Hu & Hr & st' & Hst' & [_ Hk] & _).
  assert (o = i) as ->.
  { apply (bi_instance_versions s H); [by eapply bi_instance|done|]. rewrite Hr.
    unfold reserve_tests in Ht. rewrite !andb_true_iff, !str_opt_eqb_eq in Ht. by destruct Ht as [[_ ->] _]. }
  rewrite Hst in Hst'. injection Hst' as <-. destruct (subject_ids i b Hm) as (Hn & Hui & _).
  destruct (reserve_kind p) as [|ref].
  - apply inv_put_instance; [done|done|done| | |].
    + intros q Hq E. rewrite <- Hn. apply (bi_names s H); [done|by eapply bi_instance|exact E].
    + intros b' E. assert (carried i = Some b') by (unfold carried; by rewrite Hst). by eapply bi_carried.
    + intros b' Hb Hl Hnb Hub. change (carried o') with (inst_binding st).
      transitivity (carried i); [unfold carried; by rewrite Hst|]. apply (bi_holds s H); [done|done|by rewrite Hnb|done].
  - eapply inv_install; [done|done| |done|done|done|done|done]. unfold carried. by rewrite Hst; apply Hk.
Qed.

Lemma binding_step_inv s s' : binding_step to_rfc3339 s s' -> binding_inv s -> binding_inv s'.
Proof.
  intros Hst H. destruct Hst; try (by apply inv_call); try (by apply inv_call; [|repeat case_match]).
  - apply inv_put_lease; [done..| |congruence]. intros b Hin (x & Hx & Hux).
    apply lookup_insert_Some in Hx as [[_ <-]|[_ Hx]]; [|by exists x].
    rewrite List.Forall_forall in H4. destruct (H4 b Hin). congruence.
  - destruct (bi_lease s H n l H0) as [_ Hn]. apply inv_put_lease; [done..| | |].
    + destruct H1. congruence.
    + intros b _. eapply live_put_same; [done|apply H1].
    + intros b Hb%H3. destruct (bi_bound s H n l b H0 Hb) as (? & ? & ->). split_and!; [done..|].
      symmetry. apply H1.
  - destruct H. split; cbn; try done.
    + intros n' l [_ Hl]%lookup_delete_Some. by apply bi_lease0.
    + intros b i Hin Hl. apply bi_holds0; eauto using live_delete.
    + intros b b' Hin Hin' Hl Hl'. apply bi_unique0; eauto using live_delete.
    + intros n' l b [_ Hl]%lookup_delete_Some. by apply bi_bound0.
  - apply inv_put_instance; [done..| | |].
    + intros q Hq E. rewrite List.Forall_forall in H3. destruct (H3 q Hq). congruence.
    + congruence.
    + intros b Hin _ Hn Hu. destruct (bi_seen s H b Hin) as (q & Hq & Huq & _).
      rewrite List.Forall_forall in H3. destruct (H3 q Hq). congruence.
  - destruct (bi_instance s H n i H0) as [Hp Hn], H1 as [Hn' Hu].
    assert (inst_uid i' = inst_uid i) as Hu' by done. apply inv_put_instance; [done..|congruence| | |].
    + intros q Hq E. rewrite <- Hn. apply (bi_names s H); [done..|congruence].
    + intros b Hb. destruct H3 as [E|(b' & _ & ? & _)]; [|congruence]. eapply (bi_carried s H n i); congruence.
    + intros b Hin Hl Hnb Hub. assert (carried i = Some b) as Hc.
      { apply (bi_holds s H); [done|done|by rewrite Hnb|congruence]. }
      destruct H3 as [E|(b' & Hb' & _ & Hd)]; [congruence|]. destruct Hd. congruence.
  - destruct H. split; cbn; try done.
    + intros n' i [_ Hl]%lookup_delete_Some. by apply bi_instance0.
    + intros n' i b [_ Hl]%lookup_delete_Some. by eapply bi_carried0.
    + intros b i Hin Hl [_ Hi]%lookup_delete_Some. by apply bi_holds0.
  - apply inv_call; [done|]. destruct (reserve_plan b i) eqn:Hp; [done| |done].
    split; [by eapply bi_instance|done].
  - destruct (bi_calls s H k _ H0) as [Hi Hp].
    assert (call_ok (match reserve_kind p with Install _ => install (put_instance s (instance_name_of b) o') b
                     | Repair => put_instance s (instance_name_of b) o' end) (ReserveAnswered b Reserved)) as Hc by done.
    pose proof (inv_call _ k _ (inv_reserve_stored s b i p o st now rv H Hi Hp H1 H2 H3 H4) Hc) as Hinv.
    subst s'. by destruct (reserve_kind p).
  - apply inv_call; [done|]. destruct (finalize_lease_check b l) eqn:Hc; [|done].
    split; [by eapply bi_lease|done].
  - destruct (bi_calls s H k _ H0) as [Hl Hc]. apply inv_call; [done|].
    destruct (finalize_instance_check b l i) eqn:Hf; [|done].
    destruct (finalize_instance_check_Ok _ _ _ _ Hf) as (_ & Hcar & _).
    destruct already; [done|]. case_match; [|done]. split_and!; [done..|by eapply bi_carried].
  - destruct (bi_calls s H k _ H0) as (Hl & Hc & Hin). unfold bound_tests in H2.
    rewrite H3, !andb_true_iff, !str_opt_eqb_eq, !bool_decide_eq_true in H2. destruct H2 as [[Hu _] [_ Hb]].
    apply inv_call; [|done]. apply inv_put_lease; [done|done| | |].
    + by destruct (bi_lease s H _ _ H1).
    + intros b' _. by eapply live_put_same.
    + intros b' Hb'. cbn in Hb'. rewrite Hb in Hb'. injection Hb' as <-. done.
  - destruct H. split; cbn; try done. intros k' c [_ Hc]%lookup_delete_Some. by eapply bi_calls0.
Qed.

Lemma binding_reachable_inv s : binding_reachable to_rfc3339 s -> binding_inv s.
Proof.
  intros H. cut (forall a, rtc (binding_step to_rfc3339) a s -> binding_inv a -> binding_inv s).
  { intros Hc. apply (Hc _ H). split; cbn; unfold versioned_objects; intros; rewrite ?lookup_empty in *; done. }
  clear H. intros a Ha. induction Ha as [|a b c Hab _ IH]; [done|]. intros Hi. by eapply IH, binding_step_inv.
Qed.

(** A lease that is gone stays gone: its UID is never given out again. *)
Lemma dead_stays_dead s s' b :
  rtc (binding_step to_rfc3339) s s' -> In b (installed s) -> ~ live (leases s) b -> ~ live (leases s') b.
Proof.
  intros Hs. induction Hs as [|a c d Hac _ IH]; [done|]. intros Hin Hd. apply IH.
  - destruct Hac; cbn; try done. destruct (reserve_kind p); cbn; auto.
  - intros Hl. apply Hd. revert Hl. destruct Hac; cbn; try done.
    + intros (x & Hx & Hux). apply lookup_insert_Some in Hx as [[_ <-]|[_ Hx]]; [|by exists x].
      rewrite List.Forall_forall in H3. destruct (H3 b Hin). congruence.
    + destruct H0. by eapply live_put_same.
    + apply live_delete.
    + by destruct (reserve_kind p).
    + by eapply live_put_same.
Qed.

End Preservation.

(** ** The other writers *)

(** One successful write of a modelled writer, from the object the server held
    to the one it stored. *)
Inductive lease_write (to_rfc3339 : Z -> string) (parse : string -> option Z)
    : ClusterLease -> ClusterLease -> Prop :=
| write_expire read held rv : expire_tests read held = true ->
    lease_write to_rfc3339 parse held (stored_lease held (expired_status read) rv)
| write_extend uid by_ policy now read held st e rv :
    extend_check parse uid by_ policy now read = Ok e -> extend_tests uid read held = true ->
    lease_status held = Some st ->
    lease_write to_rfc3339 parse held (stored_lease held (extended_status to_rfc3339 read e st) rv)
| write_clear uid b read held st deleted now st' rv : clear_intent_applies uid b read = true ->
    expire_tests read held = true -> lease_status held = Some st ->
    cleared_status b st deleted now = Ok (Some st') ->
    lease_write to_rfc3339 parse held (stored_lease held st' rv)
| write_intent b attempt read held st rv : intent_tests read held = true -> lease_status held = Some st ->
    lease_write to_rfc3339 parse held (stored_lease held (intent_status b attempt st) rv).

Inductive instance_write : ClusterInstance -> ClusterInstance -> Prop :=
| write_mark b read held st previous now rv : mark_plan b read = MarkSend previous ->
    mark_tests b read previous held = true -> inst_status held = Some st ->
    instance_write held (stored_instance held (marked_status now st) rv)
| write_recycle inst b name phase at_ world before after :
    loop_write (patch_exact_binding_transition inst b (TRecycleTerminalLease name phase at_) world)
      = Some (before, after) -> instance_write before after
| write_pool_recycle expected world before after :
    PoolController.mark_instance_recycling expected world = Marked before after ->
    versions_identify world -> instance_write before after.

Lemma lease_write_rely to_rfc3339 parse l l' : lease_write to_rfc3339 parse l l' -> lease_rely l l'.
Proof.
  intros Hw b. unfold bound_with. destruct Hw; cbn; try done.
  - by rewrite H1.
  - rewrite H1. unfold clear_intent_applies, expire_tests in *. rewrite H1 in H0.
    revert H2. unfold cleared_status. case_match; [|intros [= <-]; cbn; destruct (bool_decide (lease_phase st = ClusterLeasePhase.Bound)); discriminate].
    destruct (abandon_creation _ _ _ _) as [[c|]|]; [|done..]. by intros [= <-].
  - rewrite H0. unfold intent_tests in H. rewrite H0, !andb_true_iff, bool_decide_eq_true in H.
    destruct H as [_ Hp]. unfold intent_status. destruct (requires_receipt _); cbn; by rewrite Hp.
Qed.

Lemma write_loop_carried inst b t world before after :
  loop_write (patch_exact_binding_transition inst b t world) = Some (before, after) ->
  carried before = Some b /\
  carried after = match t with TRecycleTerminalLease _ _ _ => Some b | TReleaseOrphan _ => None end.
Proof.
  unfold patch_exact_binding_transition. destruct (meta_uid _); [|done].
  intros [_ (_ & _ & _ & st & next & Hst & _ & Hb & Hn & _ & _ & Ht)]%write_loop_exact.
  unfold carried. rewrite Hst, Hn. cbn. split; [done|]. destruct t; tauto.
Qed.

Lemma instance_write_rely ls i i' : instance_write i i' -> instance_rely ls i i'.
Proof.
  intros Hw. left. destruct Hw.
  - unfold carried. by rewrite H1.
  - apply write_loop_carried in H as [-> ->]. done.
  - apply mark_loop_exact in H as (Hb & _ & _ & next & Hn & _ & Ha); [|done].
    unfold carried. rewrite Hn. unfold lease_held in *. cbn. rewrite orb_false_iff, !is_some_false in *.
    destruct Hb as [_ Hb], Ha as [_ ->]. destruct (inst_status before); [|done]. by rewrite <- Hb.
Qed.

Lemma evaluate_orphan parse digest ls is_ ps now now_s ns st at_ q b :
  evaluate_leased_instance parse digest ls is_ ps now now_s ns st = RunTransition (TReleaseOrphan at_) q ->
  inst_binding st = Some b -> ls (lease_name_of b) = NotFound.
Proof.
  intros H Hb. unfold evaluate_leased_instance in H. rewrite Hb in H.
  destruct (ref_uid (binding_lease b)) as [uid|]; [|done]. destruct (negb _); [done|].
  destruct (resolve_lease_binding _ _ _ _ _ _ _ _ _ Lifecycle) as [r|e] eqn:Er; [by destruct (terminating _)|].
  destruct e; try done. by apply resolve_lease_not_found in Er.
Qed.

(** ** What a reservation answers *)

Lemma compatible_carries i st b :
  inst_binding st = Some b -> meta_name (inst_metadata i) = instance_name_of b ->
  inst_uid i = Some (bound_uid (binding_instance b)) ->
  instance_carries_compatible_reservation i st b = true.
Proof.
  intros Hb Hn Hu. unfold instance_carries_compatible_reservation. unfold inst_uid in Hu.
  apply carries_true in Hb. rewrite Hn, Hu, Hb. unfold instance_name_of, str_opt_eqb, opt_eqb. by rewrite !String.eqb_refl.
Qed.

(** The one state in which the answer is [Reserved] without a write. *)
Definition adopted (i : ClusterInstance) (st : ClusterInstanceStatus) (b : LeaseBinding) : Prop :=
  inst_phase st = ClusterInstancePhase.Leased /\ inst_binding st = Some b /\
  lease_ref st = Some (binding_lease b) /\ instance_matches_binding_subject i b = true.

Section Answers.
Context (b : LeaseBinding) (i : ClusterInstance) (st : ClusterInstanceStatus)
  (Hst : inst_status i = Some st).

#[local] Ltac plan_cases :=
  unfold reserve_plan, reserve_after_conflict, send_reserve; rewrite Hst;
  change (default default_instance_status (Some st)) with st; cbv zeta;
  destruct (instance_matches_binding_subject i b) eqn:Hm; cbn [negb].

Lemma adopted_true :
  instance_matches_binding_subject i b = true ->
  is_phase st ClusterInstancePhase.Leased && carries st b && ref_matches (lease_ref st) (binding_lease b) = true ->
  adopted i st b.
Proof. intros Hm. rewrite !andb_true_iff, is_phase_true, carries_true, ref_matches_true. by intros [[? ?] ?]. Qed.

Lemma plan_reserved : reserve_plan b i = Answer Reserved -> adopted i st b.
Proof.
  plan_cases; [|by case_match].
  destruct (is_phase st ClusterInstancePhase.Leased && carries st b && ref_matches _ _) eqn:Ha;
    [by intros _; apply adopted_true|]. by repeat case_match.
Qed.

Lemma conflict_reserved : reserve_after_conflict b i = Reserved -> adopted i st b.
Proof.
  plan_cases; [|by case_match].
  destruct (is_phase st ClusterInstancePhase.Leased && carries st b && ref_matches _ _) eqn:Ha;
    [by intros _; apply adopted_true|]. by repeat case_match.
Qed.

Lemma plan_occupied : reserve_plan b i = Answer Occupied ->
  meta_name (inst_metadata i) = instance_name_of b ->
  inst_uid i = Some (bound_uid (binding_instance b)) -> inst_binding st <> Some b.
Proof.
  intros H Hn Hu Hb. pose proof (compatible_carries i st b Hb Hn Hu) as Hc. revert H. plan_cases; [|by rewrite Hc].
  apply carries_true in Hb. rewrite Hb. by repeat case_match.
Qed.

Lemma conflict_occupied : reserve_after_conflict b i = Occupied ->
  meta_name (inst_metadata i) = instance_name_of b ->
  inst_uid i = Some (bound_uid (binding_instance b)) -> inst_binding st <> Some b.
Proof.
  intros H Hn Hu Hb. pose proof (compatible_carries i st b Hb Hn Hu) as Hc. revert H. plan_cases; [|by rewrite Hc].
  apply carries_true in Hb. rewrite Hb. by repeat case_match.
Qed.

(** The tests of a patch hold of the object it was made for. *)
Lemma plan_tests p : reserve_plan b i = Send p -> reserve_tests b p i = true /\ reservable b (reserve_kind p) st.
Proof.
  intros H. destruct (reserve_plan_Send b i p H) as (_ & Hu & Hr & st' & Hst' & Hk & Hp).
  rewrite Hst in Hst'. injection Hst' as <-. split; [|done]. unfold reserve_tests. unfold inst_uid in Hu.
  rewrite Hu, Hr, Hst, Hp. unfold str_opt_eqb, opt_eqb. rewrite !String.eqb_refl.
  rewrite (proj2 (is_phase_true st _)) by done. destruct Hk as [_ Hk], (reserve_kind p); cbn.
  - by apply carries_true.
  - apply bool_decide_eq_true, Hk.
Qed.

End Answers.

(** ** A run *)

Definition sample_time (z : Z) : string := "t".

Definition sample_binding (k : string) : LeaseBinding :=
  {| binding_id := "id-" +:+ k;
     binding_lease := {| ref_name := k; ref_uid := Some ("lease-" +:+ k) |};
     binding_instance := {| bound_name := "i-" +:+ k; bound_uid := "inst-" +:+ k; observed_generation := 1 |};
     binding_pool := binding_pool ex_binding; backend := backend ex_binding;
     instance_spec_digest := "0123456789abcdef"; cleanup_mode := Standard;
     creation_manifest_digest := None; creation_manifest := None; connect_token := None |}.

Definition sample_meta (n u rv : string) : ObjectMeta :=
  {| meta_name := n; meta_uid := Some u; meta_generation := Some 1; resource_version := Some rv;
     deletion_timestamp := None; owner_references := None |}.

Definition sample_lease (k rv : string) (b : option LeaseBinding) : ClusterLease :=
  {| lease_metadata := sample_meta k ("lease-" +:+ k) rv; lease_pool_ref := "p"; lease_ttl := "1h";
     requester_type := "ci"; lease_cleanup_mode := None;
     lease_status := Some (with_lease_binding b default_lease_status) |}.

Definition sample_instance (k rv : string) : ClusterInstance :=
  {| inst_metadata := sample_meta ("i-" +:+ k) ("inst-" +:+ k) rv; inst_pool_ref := Some (binding_pool ex_binding);
     inst_status := Some
       {| inst_phase := ClusterInstancePhase.Ready; provisioned := true; bootstrapped := true;
          lease_ref := None; inst_binding := None; inst_idle_since := None; inst_state_since := Some "t0";
          inst_health_failures := 0; inst_spec_hash := Some "0123456789abcdef";
          created_with := created_with ex_inst_status; inst_creation_manifest := None;
          inst_message := None; inst_conditions := [] |} |}.

(** One step of a concrete run, its side conditions evaluated. *)
Ltac side_condition :=
  first [ reflexivity | vm_compute; reflexivity
        | split; [by eexists|]; vm_compute; repeat constructor; discriminate
        | vm_compute; repeat constructor; discriminate
        | split; reflexivity
        | intros ?; vm_compute; done ].
Ltac run_binding tac := eapply rtc_l; [tac; side_condition|].

(** Lease [k] is created, bound to its instance and published as Bound, with
    the versions [v1] to [v5] and the calls [r] and [f]. *)
Ltac bind_lease k v1 v2 v3 v4 v5 r f :=
  run_binding ltac:(eapply (create_lease _ _ k (sample_lease k v1 None)));
  run_binding ltac:(eapply (create_instance _ _ ("i-" +:+ k) (sample_instance k v2)));
  run_binding ltac:(eapply (write_lease _ _ k _ (sample_lease k v3 (Some (sample_binding k)))));
  run_binding ltac:(eapply (reserve_call _ _ r (sample_binding k)));
  run_binding ltac:(eapply (reserve_fenced _ _ r (sample_binding k)));
  run_binding ltac:(eapply (reserve_read _ _ r (sample_binding k)));
  run_binding ltac:(eapply (reserve_stored _ _ r (sample_binding k) _ _ _ _ "t" v4));
  run_binding ltac:(eapply (finalize_call _ _ f (sample_binding k)));
  run_binding ltac:(eapply (finalize_read _ _ f (sample_binding k)));
  run_binding ltac:(eapply (finalize_instance _ _ f (sample_binding k)));
  run_binding ltac:(eapply (finalize_stored _ _ f (sample_binding k) _ _ _ _ None 0 v5)).

Lemma sample_run :
  exists s la lb, binding_reachable sample_time s /\
    leases s !! "a" = Some la /\ leases s !! "b" = Some lb /\
    bound_with la = Some (sample_binding "a") /\ bound_with lb = Some (sample_binding "b").
Proof.
  do 3 eexists. split.
  { unfold binding_reachable, initial_cluster.
    bind_lease "a" "1" "2" "3" "4" "5" 1%nat 2%nat.
    bind_lease "b" "6" "7" "8" "9" "10" 3%nat 4%nat.
    reflexivity. }
  vm_compute. split_and!; reflexivity.
Qed.

(** ** Theorems *)

(** C3. No cluster is leased twice.  For every interleaving of reservation and
    finalization calls, of other writers within their bounds, and of objects
    created and deleted under reused names, two Bound leases never name the
    same instance UID; and as long as a Bound lease's exact instance exists it
    carries that lease's binding, which names the lease by name and UID. *)
Theorem bound_leases_hold_distinct_instances to_rfc3339 s n n' l l' b b'
    (Hr : binding_reachable to_rfc3339 s)
    (Hl : leases s !! n = Some l) (Hl' : leases s !! n' = Some l')
    (Hb : bound_with l = Some b) (Hb' : bound_with l' = Some b') (Hn : n <> n') :
  bound_uid (binding_instance b) <> bound_uid (binding_instance b') /\
  lease_name_of b = n /\ ref_uid (binding_lease b) = lease_uid l /\
  forall i, instances s !! instance_name_of b = Some i ->
    inst_uid i = Some (bound_uid (binding_instance b)) -> carried i = Some b.
Proof.
  apply binding_reachable_inv in Hr.
  destruct (bi_bound s Hr n l b Hl Hb) as (Hin & Hname & Huid).
  destruct (bi_bound s Hr n' l' b' Hl' Hb') as (Hin' & Hname' & Huid').
  assert (live (leases s) b) as Hlive by (exists l; unfold lease_name_of in Hname; by rewrite Hname).
  assert (live (leases s) b') as Hlive' by (exists l'; unfold lease_name_of in Hname'; by rewrite Hname').
  split_and!; [|done|done|intros i Hi Hu; by apply (bi_holds s Hr)].
  intros E. apply Hn. rewrite <- Hname, <- Hname'. f_equal. by apply (bi_unique s Hr).
Qed.

Lemma bound_leases_hold_distinct_instances_witness :
  exists s la lb, leases s !! "a" = Some la /\ leases s !! "b" = Some lb /\
    bound_with la = Some (sample_binding "a") /\ bound_with lb = Some (sample_binding "b") /\
    bound_uid (binding_instance (sample_binding "a")) <> bound_uid (binding_instance (sample_binding "b")).
Proof.
  destruct sample_run as (s & la & lb & Hr & Ha & Hb & Hba & Hbb). exists s, la, lb.
  split_and!; [done..|].
  by apply (bound_leases_hold_distinct_instances sample_time s "a" "b" la lb _ _ Hr Ha Hb Hba Hbb).
Defined.

(** A reservation is exact.  The patch it sends, served against the version
    it read, only ever overwrites a Ready or Leased instance that carries no
    binding, or this very binding: it never takes an instance from another
    lease and never brings a recycling or quarantined one back.  What it stores
    is Leased with this binding and lease reference and otherwise unchanged.
    [Reserved] without a write means that state was read, and [Occupied] is
    never answered of the exact instance while it carries the binding, so
    clearing the intent strands nothing. *)
Theorem reservation_exact (b : LeaseBinding) (i : ClusterInstance) (p : ReservePatch) (now : string)
    (st : ClusterInstanceStatus) (Hst : inst_status i = Some st) :
  (reserve_plan b i = Send p ->
     reserve_tests b p i = true /\ reservable b (reserve_kind p) st /\
     let st' := reserve_patched b now (reserve_kind p) st in
     inst_phase st' = ClusterInstancePhase.Leased /\ inst_binding st' = Some b /\
     lease_ref st' = Some (binding_lease b) /\ inst_spec_hash st' = inst_spec_hash st /\
     created_with st' = created_with st /\ inst_creation_manifest st' = inst_creation_manifest st) /\
  (reserve_plan b i = Answer Reserved \/ reserve_after_conflict b i = Reserved ->
     inst_phase st = ClusterInstancePhase.Leased /\ inst_binding st = Some b /\
     lease_ref st = Some (binding_lease b) /\ instance_matches_binding_subject i b = true) /\
  (reserve_plan b i = Answer Occupied \/ reserve_after_conflict b i = Occupied ->
     meta_name (inst_metadata i) = instance_name_of b ->
     inst_uid i = Some (bound_uid (binding_instance b)) -> inst_binding st <> Some b).
Proof.
  split_and!.
  - intros H. destruct (plan_tests b i st Hst p H) as [Ht Hk]. split; [done|]. split; [done|].
    cbv zeta. destruct (reserve_kind p); cbn; split_and!; try done. apply Hk.
  - intros [H|H]; [by apply plan_reserved|by apply conflict_reserved].
  - intros [H|H]; [by apply plan_occupied|by apply conflict_occupied].
Qed.

Lemma reservation_exact_witness :
  exists st p, inst_status (sample_instance "a" "2") = Some st /\
    reserve_plan (sample_binding "a") (sample_instance "a" "2") = Send p /\
    inst_binding (reserve_patched (sample_binding "a") "t" (reserve_kind p) st) = Some (sample_binding "a").
Proof.
  eexists. eexists. split; [reflexivity|]. split; [vm_compute; reflexivity|].
  edestruct (reservation_exact (sample_binding "a") (sample_instance "a" "2")
    {| reserve_uid := "inst-a"; reserve_rv := "2"; reserve_phase := ClusterInstancePhase.Ready;
       reserve_kind := Install None |} "t") as [H _]; [reflexivity|].
  apply H. vm_compute. reflexivity.
Defined.

(** What a [get] returns of the leases in a state. *)
Definition lease_get (s : Cluster) (n : string) : Lookup ClusterLease :=
  match leases s !! n with Some l => Found l | None => NotFound end.

(** The other writers keep to the protocol's terms: expiring, extending,
    clearing or recording an intent on a lease never publishes Bound and never
    changes a Bound binding; recycling an instance, from the lease, the
    instance or the pool side, never changes its binding; and releasing an
    orphaned reservation, decided on a read that found no lease and written any
    number of steps later, takes a binding away only when the exact lease it
    names is gone, even if a new lease has taken its name. *)
Theorem modelled_writers_keep_rely to_rfc3339 parse digest s s'
    (Hr : binding_reachable to_rfc3339 s) (Hs : rtc (binding_step to_rfc3339) s s') :
  (forall l l', lease_write to_rfc3339 parse l l' -> lease_rely l l') /\
  (forall i i', instance_write i i' -> instance_rely (leases s') i i') /\
  (forall n i st b now now_s ns is_ ps at_ q world before after,
     instances s !! n = Some i -> inst_status i = Some st -> inst_binding st = Some b ->
     evaluate_leased_instance parse digest (lease_get s) is_ ps now now_s ns st
       = RunTransition (TReleaseOrphan at_) q ->
     loop_write (patch_exact_binding_transition i b (TReleaseOrphan at_) world) = Some (before, after) ->
     instance_rely (leases s') before after).
Proof.
  split_and!; [apply lease_write_rely|apply instance_write_rely|].
  intros n i st b now now_s ns is_ ps at_ q world before after Hi Hst Hb He Hw. right. exists b.
  apply write_loop_carried in Hw as [Hbe Haf]. split_and!; [done..|].
  apply binding_reachable_inv in Hr as Hinv. eapply dead_stays_dead; [done| |].
  - eapply (bi_carried s Hinv n i); [done|]. unfold carried. by rewrite Hst.
  - apply (evaluate_orphan _ _ _ _ _ _ _ _ _ _ _ b) in He; [|done]. unfold lease_get in He.
    intros (l & Hl & _). unfold lease_name_of in He. by rewrite Hl in He.
Qed.

Lemma modelled_writers_keep_rely_witness :
  exists s, binding_reachable sample_time s /\
    forall i i', instance_write i i' -> instance_rely (leases s) i i'.
Proof.
  destruct sample_run as (s & la & lb & Hr & _). exists s. split; [done|].
  exact (proj1 (proj2 (modelled_writers_keep_rely sample_time (fun _ => None) (fun _ => None) s s Hr
    (rtc_refl _ s)))).
Defined.

(** ** Extension *)

Section Extend.
Context (to_rfc3339 : Z -> string) (parse : string -> option Z) (p : Policy).

(** One successful extension, under the policy [p]; the stored version is new,
    so the same read never succeeds twice. *)
Inductive extend_step : ClusterLease -> ClusterLease -> Prop :=
| extend_stored uid by_ now l st e rv :
    lease_status l = Some st -> extend_check parse uid by_ (Some p) now l = Ok e ->
    extend_tests uid l l = true -> Some rv <> resource_version (lease_metadata l) ->
    extend_step l (stored_lease l (extended_status to_rfc3339 l e st) rv).

Lemma extend_check_Ok uid by_ now l st e :
  lease_status l = Some st -> extend_check parse uid by_ (Some p) now l = Ok e ->
  lease_phase st = ClusterLeasePhase.Bound /\ extensions_count st < lease_max_extensions st /\
  exists t, bound_at st ≫= parse = Some t /\ e <= t + max_ttl p.
Proof.
  intros Hst. unfold extend_check. rewrite Hst.
  change (default default_lease_status (Some st)) with st. cbv zeta.
  do 2 (destruct (deny_if _ _) as [[]|]; [|done]).
  destruct (deny_if (negb (bool_decide _)) _) as [[]|] eqn:H1; [|done].
  destruct (deny_if (_ <=? _) _) as [[]|] eqn:H2; [|done].
  destruct (ok_or (parse_duration by_) _) as [d|]; [|done].
  destruct (bound_at st ≫= parse) as [t|]; [|done]. cbn.
  destruct (deny_if (_ <? _) _) as [[]|] eqn:H3; [|done]. intros [= <-].
  rewrite deny_if_Ok in H1, H2, H3. rewrite negb_false_iff, bool_decide_eq_true in H1.
  split_and!; [done|lia|]. exists t. split; [done|lia].
Qed.

Context (Hround : forall t, parse (to_rfc3339 t) = Some t).

(** What [n] extensions leave. *)
Definition extended_by (n : nat) (st st' : ClusterLeaseStatus) : Prop :=
  lease_phase st' = ClusterLeasePhase.Bound /\ lease_status_binding st' = lease_status_binding st /\
  bound_at st' = bound_at st /\ lease_max_extensions st' = lease_max_extensions st /\
  extensions_count st' = extensions_count st + Z.of_nat n /\
  extensions_count st' <= lease_max_extensions st /\
  exists e t, expires_at st' ≫= parse = Some e /\ bound_at st ≫= parse = Some t /\ e <= t + max_ttl p.

Lemma extend_step_status l l' :
  extend_step l l' -> exists st st', lease_status l = Some st /\ lease_status l' = Some st' /\
    extended_by 1 st st'.
Proof.
  intros Hs. destruct Hs as [uid by_ now l st e rv Hst Hc _ _].
  destruct (extend_check_Ok uid by_ now l st e Hst Hc) as (Hp & Hlt & t & Ht & He).
  exists st. eexists. split; [done|]. split; [done|]. unfold extended_by, extended_status. cbn.
  rewrite Hst. cbn. split_and!; try done; [lia|]. exists e, t. by rewrite Hround.
Qed.

Lemma extend_steps_status n : forall l l', nsteps extend_step (S n) l l' ->
  exists st st', lease_status l = Some st /\ lease_status l' = Some st' /\ extended_by (S n) st st'.
Proof.
  induction n as [|n IH]; intros l l' Hs.
  - apply nsteps_once_inv in Hs. by apply extend_step_status.
  - inversion Hs as [|? ? m ? H1 H2]; subst.
    destruct (extend_step_status _ _ H1) as (st & st1 & Hst & Hst1 & _ & Hb1 & Ha1 & Hm1 & Hc1 & _).
    destruct (IH _ _ H2) as (st1' & st' & Hst1' & Hst' & Hp & Hb & Ha & Hm & Hc & Hle & e & t & He & Ht & Hx).
    rewrite Hst1 in Hst1'. injection Hst1' as <-. exists st, st'. split; [done|]. split; [done|].
    unfold extended_by. rewrite Hm1 in *. rewrite Ha1 in *. split_and!; try congruence; [lia|]. by exists e, t.
Qed.

End Extend.

(** Extensions stay within the lease's policy: any run of successful
    extensions, by any callers, keeps the lease Bound to the same binding,
    counts each of them, never exceeds the maximum count, and leaves an expiry
    of at most the binding instant plus the policy's maximum TTL; a request
    decided on a version before them is refused, so two racing extensions
    never count as one. *)
Theorem extensions_bounded (to_rfc3339 : Z -> string) (parse : string -> option Z) (p : Policy)
    (n : nat) (l l' : ClusterLease)
    (Hround : forall t, parse (to_rfc3339 t) = Some t)
    (Hs : nsteps (extend_step to_rfc3339 parse p) (S n) l l') :
  exists st st', lease_status l = Some st /\ lease_status l' = Some st' /\
    extended_by parse p (S n) st st' /\ forall uid, extend_tests uid l l' = false.
Proof.
  destruct (extend_steps_status _ _ _ Hround n l l' Hs) as (st & st' & Hst & Hst' & Hx).
  exists st, st'. split_and!; [done..|]. intros uid. destruct Hx as (_ & _ & _ & _ & Hc & _).
  unfold extend_tests. rewrite Hst, Hst'. change (default default_lease_status (Some st)) with st.
  rewrite (proj2 (Z.eqb_neq _ _)) by lia. apply andb_false_r.
Qed.

(** An instant written in binary, for the witness. *)
Fixpoint bits_of (p : positive) : string :=
  match p with xH => "H" | xO p => "O" +:+ bits_of p | xI p => "I" +:+ bits_of p end.

Fixpoint of_bits (s : string) : option positive :=
  match s with
  | "H" => Some xH
  | String "O" s => xO <$> of_bits s
  | String "I" s => xI <$> of_bits s
  | _ => None
  end.

Definition sample_print (z : Z) : string :=
  match z with Z0 => "0" | Zpos p => "+" +:+ bits_of p | Zneg p => "-" +:+ bits_of p end.

Definition sample_parse (s : string) : option Z :=
  match s with
  | "0" => Some 0
  | String "+" s => Zpos <$> of_bits s
  | String "-" s => Zneg <$> of_bits s
  | _ => None
  end.

Lemma bits_round p : of_bits (bits_of p) = Some p.
Proof. induction p as [p IH|p IH|]; [| |done]; cbn; by rewrite IH; destruct p. Qed.

Lemma sample_round z : sample_parse (sample_print z) = Some z.
Proof. destruct z; [done| |]; cbn; by rewrite bits_round. Qed.

Definition sample_policy : Policy :=
  {| allowed_pools := []; max_ttl := seconds 7200; max_concurrent_leases := 1; default_priority := 1;
     Policy.max_extensions := 2; sandbox := None |}.

Definition sample_bound_lease : ClusterLease :=
  stored_lease (sample_lease "a" "1" None)
    (bound_status sample_print (sample_binding "a") (sample_lease "a" "1" None) (Some sample_policy) 0
       (with_lease_binding (Some (sample_binding "a")) default_lease_status)) "2".

Lemma extensions_bounded_witness :
  exists l' st', nsteps (extend_step sample_print sample_parse sample_policy) 1 sample_bound_lease l' /\
    lease_status l' = Some st' /\ extensions_count st' = 1 /\
    forall uid, extend_tests uid sample_bound_lease l' = false.
Proof.
  assert (exists l', nsteps (extend_step sample_print sample_parse sample_policy) 1 sample_bound_lease l')
    as [l' Hs].
  { eexists. apply nsteps_once. eapply (extend_stored _ _ _ "lease-a" "30m" 0 _ _ _ "3");
      [reflexivity|vm_compute; reflexivity|vm_compute; reflexivity|discriminate]. }
  destruct (extensions_bounded sample_print sample_parse sample_policy 0 sample_bound_lease l'
    sample_round Hs) as (st & st' & Hst & Hst' & Hx & Ht).
  exists l', st'. split_and!; [done|done| |done]. destruct Hx as (_ & _ & _ & _ & -> & _).
  injection Hst as <-. reflexivity.
Defined.
