(* ===== verification/Runner.v ===== *)
(** * Runner: supervising one execution inside a Sandbox container

    Model of the [kobe-runner] crate: the wire types ([protocol.rs]), the spool
    directory of an execution ([spool.rs]), the [start], [status] and [cancel]
    verbs ([main.rs]) and the supervisor ([supervisor.rs]).  Every invocation is
    a short-lived process; [System] holds the spool, the live processes and, as
    ghost state, the commands that were ever spawned, and [runner_step] is one
    file-system or process event.  Processes interleave arbitrarily, may die at
    any point, and any of their file operations may fail; the workload does not
    tamper with the spool. *)

From S2P Require Import Prelude Text.

Local Open Scope kobe_scope.

(** ** Protocol *)

Definition PROTOCOL_VERSION : Z := 1.
Definition MAX_ID_LEN : Z := 64.
Definition MAX_LOG_CHUNK_BYTES : Z := 256 * 1024.

(** The closed set of reason codes. *)
Module Reason.
Definition COMPLETED : string := "completed".
Definition TIMED_OUT : string := "timed_out".
Definition CANCELLED : string := "cancelled_by_caller".
Definition SIGNALLED : string := "signalled".
Definition SPAWN_FAILED : string := "spawn_failed".
Definition SUPERVISOR_NOT_STARTED : string := "supervisor_not_started".
Definition SUPERVISOR_SETUP_FAILED : string := "supervisor_setup_failed".
Definition SUPERVISOR_LOST : string := "supervisor_lost".
Definition OUTCOME_UNOBSERVED : string := "outcome_unobserved".
End Reason.

Definition is_valid_id (id : string) : bool :=
  negb (String.eqb id "") && (str_len id <=? MAX_ID_LEN) &&
  all_bytes (fun b => is_ascii_lowercase b || is_ascii_digit b || Ascii.eqb b "-") id.

Record StartRequest : Type := {
  protocol : Z;
  req_id : string;
  argv : list string;
  cwd : option string;
  timeout_seconds : Z;
  max_output_bytes : Z;
  stdin_base64 : option string;
}.

Definition same_command (a b : StartRequest) : bool :=
  bool_decide (argv a = argv b) && bool_decide (cwd a = cwd b) &&
  (timeout_seconds a =? timeout_seconds b) && (max_output_bytes a =? max_output_bytes b).

Definition without_stdin (r : StartRequest) : StartRequest :=
  {| protocol := protocol r; req_id := req_id r; argv := argv r; cwd := cwd r;
     timeout_seconds := timeout_seconds r; max_output_bytes := max_output_bytes r;
     stdin_base64 := None |}.

Inductive RunnerState : Type := Running | Succeeded | Failed | Cancelled | TimedOut | Unknown.

#[global] Instance RunnerState_eq_dec : EqDecision RunnerState.
Proof. solve_decision. Defined.

Definition is_terminal (s : RunnerState) : bool := match s with Running => false | _ => true end.

Record ExecutionReport : Type := {
  report_id : string;
  report_state : RunnerState;
  exit_code : option Z;
  signal : option Z;
  started_at_unix_ms : option Z;
  finished_at_unix_ms : option Z;
  reason : option string;
  stdout_truncated : bool;
  stderr_truncated : bool;
}.

Inductive RunnerErrorCode : Type := ErrNotFound | ErrConflict | ErrInvalidRequest | ErrInternal.

Inductive Reply : Type :=
| Started (report : ExecutionReport)
| State (report : ExecutionReport)
| ReplyError (code : RunnerErrorCode).

(** [ExecutionReport { id, state, reason, .. }] with the two timestamps. *)
Definition bare_report (id : string) (st : RunnerState) (started finished : option Z)
    (why : option string) : ExecutionReport :=
  {| report_id := id; report_state := st; exit_code := None; signal := None;
     started_at_unix_ms := started; finished_at_unix_ms := finished; reason := why;
     stdout_truncated := false; stderr_truncated := false |}.

(** ** The spool *)

Inductive SpoolError : Type :=
| SpoolNotFound | SpoolConflict (existing : StartRequest) | SpoolIo | SpoolCorrupt.

Definition map_error (e : SpoolError) : RunnerErrorCode :=
  match e with
  | SpoolNotFound => ErrNotFound
  | SpoolConflict _ => ErrConflict
  | SpoolIo | SpoolCorrupt => ErrInternal
  end.

(** The files of one execution directory. *)
Record ExecDir : Type := {
  request_file : StartRequest;
  state_file : ExecutionReport;
  cancel_file : bool;
  spawn_intent_file : bool;
  supervisor_pid_file : option nat;
}.

Abbreviation Spool := (gmap string ExecDir) (only parsing).

(** What [assemble] puts in the staging directory; [rename] publishes it. *)
Definition fresh_dir (r : StartRequest) (now : Z) : ExecDir :=
  {| request_file := without_stdin r;
     state_file := bare_report (req_id r) Running (Some now) None None;
     cancel_file := false; spawn_intent_file := false; supervisor_pid_file := None |}.

Inductive Reservation : Type := Created | AlreadyReserved.

Definition reserve (spool : Spool) (r : StartRequest) (now : Z)
    : result (Reservation * Spool) SpoolError :=
  if negb (is_valid_id (req_id r)) then Err SpoolNotFound
  else match spool !! req_id r with
       | None => Ok (Created, <[req_id r := fresh_dir r now]> spool)
       | Some d => if same_command (request_file d) r then Ok (AlreadyReserved, spool)
                   else Err (SpoolConflict (request_file d))
       end.

Definition read_report (spool : Spool) (id : string) : result ExecutionReport SpoolError :=
  if negb (is_valid_id id) then Err SpoolNotFound
  else match spool !! id with Some d => Ok (state_file d) | None => Err SpoolNotFound end.

Definition with_state (d : ExecDir) (r : ExecutionReport) : ExecDir :=
  {| request_file := request_file d; state_file := r; cancel_file := cancel_file d;
     spawn_intent_file := spawn_intent_file d; supervisor_pid_file := supervisor_pid_file d |}.

(** The locked read, decide and rename; without the directory, opening the lock
    file fails. *)
Definition write_report (spool : Spool) (r : ExecutionReport)
    : result (ExecutionReport * Spool) SpoolError :=
  if negb (is_valid_id (report_id r)) then Err SpoolNotFound
  else match spool !! report_id r with
       | None => Err SpoolIo
       | Some d =>
           if negb (String.eqb (report_id (state_file d)) (report_id r)) then Err SpoolCorrupt
           else if is_terminal (report_state (state_file d)) then Ok (state_file d, spool)
           else Ok (r, <[report_id r := with_state d r]> spool)
       end.

Definition request_cancel (spool : Spool) (id : string) : result Spool SpoolError :=
  if negb (is_valid_id id) then Err SpoolNotFound
  else match spool !! id with
       | None => Err SpoolNotFound
       | Some d =>
           Ok (<[id := {| request_file := request_file d; state_file := state_file d;
                          cancel_file := true; spawn_intent_file := spawn_intent_file d;
                          supervisor_pid_file := supervisor_pid_file d |}]> spool)
       end.

Definition mark_spawn_intent (d : ExecDir) : ExecDir :=
  {| request_file := request_file d; state_file := state_file d; cancel_file := cancel_file d;
     spawn_intent_file := true; supervisor_pid_file := supervisor_pid_file d |}.

Definition write_supervisor_pid (pid : nat) (d : ExecDir) : ExecDir :=
  {| request_file := request_file d; state_file := state_file d; cancel_file := cancel_file d;
     spawn_intent_file := spawn_intent_file d; supervisor_pid_file := Some pid |}.

(** ** Validation *)

Fixpoint no_nul (s : string) : bool :=
  match s with EmptyString => true | String c s => negb (Ascii.eqb c zero) && no_nul s end.

Section Validate.
(** [base64::engine::general_purpose::STANDARD]. *)
Context (decode_base64 : string -> option (list ascii)).

Definition stdin_ok (r : StartRequest) : bool :=
  match stdin_base64 r with None => true | Some e => is_some (decode_base64 e) end.

Definition validate (r : StartRequest) : result unit RunnerErrorCode :=
  let? _ := deny_if (negb (protocol r =? PROTOCOL_VERSION)) ErrInvalidRequest in
  let? _ := deny_if (negb (is_valid_id (req_id r))) ErrInvalidRequest in
  let? _ := deny_if (match argv r with [] => true | _ => false end ||
                     existsb (String.eqb "") (argv r)) ErrInvalidRequest in
  let? _ := deny_if (existsb (fun a => negb (no_nul a)) (argv r)) ErrInvalidRequest in
  let? _ := deny_if (match cwd r with
                     | Some c => String.eqb c "" || negb (starts_with c "/") || negb (no_nul c)
                     | None => false
                     end) ErrInvalidRequest in
  let? _ := deny_if (timeout_seconds r =? 0) ErrInvalidRequest in
  deny_if (negb (stdin_ok r)) ErrInvalidRequest.

End Validate.

(** ** Output *)

(** What the pump thread keeps: the count it has accounted for, the file, and
    whether it flagged dropped output. *)
Record PumpState : Type := { written : Z; log_file : list ascii; truncated : bool }.

(** One non-empty [read]; [failed] is [Some k] when [write_all] fails after [k]
    bytes. *)
Record PumpRead : Type := { buffer : list ascii; failed : option nat }.

(** [opened] is whether the append to the stream file could be opened. *)
Definition pump_read (opened : bool) (cap : Z) (p : PumpState) (r : PumpRead) : PumpState :=
  let room := if cap =? 0 then u64_max else saturating_sub cap (written p) in
  if room =? 0 then {| written := written p; log_file := log_file p; truncated := true |}
  else
    let read := Z.of_nat (length (buffer r)) in
    let n := Z.min read room in
    let kept := take (Z.to_nat n) (buffer r) in
    let stored := match failed r with Some k => take k kept | None => kept end in
    {| written := written p + n;
       log_file := if opened then log_file p ++ stored else log_file p;
       truncated := truncated p || (n <? read) || (opened && is_some (failed r)) |}.

Definition pump (opened : bool) (cap : Z) (reads : list PumpRead) : PumpState :=
  fold_left (pump_read opened cap) reads {| written := 0; log_file := []; truncated := false |}.

Record LogChunk : Type := {
  chunk_offset : Z;
  next_offset : Z;
  data_base64 : string;
  chunk_truncated : bool;
  more : bool;
}.

Inductive LogStream : Type := Stdout | Stderr.
#[global] Instance LogStream_eq_dec : EqDecision LogStream. Proof. solve_decision. Defined.

(** [LogStream::from_str]. *)
Definition log_stream_of (value : string) : option LogStream :=
  if String.eqb value "stdout" then Some Stdout else if String.eqb value "stderr" then Some Stderr else None.

(** The report's flag of a stream. *)
Definition stream_truncated (r : ExecutionReport) (stream : LogStream) : bool :=
  match stream with Stdout => stdout_truncated r | Stderr => stderr_truncated r end.

Section Logs.
Context (encode_base64 : list ascii -> string).

(** The window [read_chunk] cuts out of a stream file holding [log]. *)
Definition chunk_window (log : list ascii) (dropped : bool) (offset max_bytes : Z) : LogChunk :=
  let length := Z.of_nat (length log) in
  let offset := Z.min offset length in
  let data := take (Z.to_nat max_bytes) (drop (Z.to_nat offset) log) in
  let next := offset + Z.of_nat (List.length data) in
  {| chunk_offset := offset; next_offset := next; data_base64 := encode_base64 data;
     chunk_truncated := dropped; more := next <? length |}.

(** [Spool::read_chunk], the stream file holding [log]; it was created with the
    reservation, so it exists when the report does.  The report is the authority
    on truncation. *)
Definition read_chunk (spool : Spool) (id : string) (stream : LogStream) (log : list ascii) (offset max_bytes : Z)
  : result LogChunk SpoolError :=
  let? report := read_report spool id in
  Ok (chunk_window log (stream_truncated report stream) offset max_bytes).

(** The [logs] verb: the window is clamped, never refused. *)
Definition logs (spool : Spool) (id stream : string) (log : list ascii) (offset max_bytes : Z)
  : result LogChunk RunnerErrorCode :=
  match log_stream_of stream with
  | None => Err ErrInvalidRequest
  | Some stream =>
      match read_chunk spool id stream log offset (Z.max 1 (Z.min max_bytes MAX_LOG_CHUNK_BYTES)) with
      | Ok chunk => Ok chunk
      | Err e => Err (map_error e)
      end
  end.

End Logs.

(** ** Outcomes *)

(** [std::process::ExitStatus]: exactly one of the two is present for a process
    that ended. *)
Record ExitStatus : Type := { status_code : option Z; status_signal : option Z }.

Definition settle_report (id : string) (started_at finished_at : Z) (status : option ExitStatus)
    (ended_by : option string) (out_truncated err_truncated : bool) : ExecutionReport :=
  let report st code sig why :=
    {| report_id := id; report_state := st; exit_code := code; signal := sig;
       started_at_unix_ms := Some started_at; finished_at_unix_ms := Some finished_at;
       reason := Some why; stdout_truncated := out_truncated; stderr_truncated := err_truncated |} in
  match status with
  | None => report Unknown None None Reason.OUTCOME_UNOBSERVED
  | Some st =>
      match ended_by with
      | Some why =>
          report (if String.eqb why Reason.CANCELLED then Cancelled else TimedOut) None None why
      | None =>
          match status_code st, status_signal st with
          | Some c, _ =>
              if c =? 0 then report Succeeded (Some 0) None Reason.COMPLETED
              else report Failed (Some c) None Reason.COMPLETED
          | None, Some s => report Failed None (Some s) Reason.SIGNALLED
          | None, None => report Unknown None None Reason.OUTCOME_UNOBSERVED
          end
      end
  end.

(** What [supervise] records in the end, from what its two pumps have flagged. *)
Definition supervisor_report (id : string) (started_at finished_at : Z) (status : option ExitStatus)
    (ended_by : option string) (stdout stderr : PumpState) : ExecutionReport :=
  settle_report id started_at finished_at status ended_by (truncated stdout) (truncated stderr).

(** [reconcile]'s settled report: the report read, with a verdict. *)
Definition settled (r : ExecutionReport) (now : Z) (why : string) : ExecutionReport :=
  {| report_id := report_id r; report_state := Unknown; exit_code := exit_code r; signal := signal r;
     started_at_unix_ms := started_at_unix_ms r; finished_at_unix_ms := Some now; reason := Some why;
     stdout_truncated := stdout_truncated r; stderr_truncated := stderr_truncated r |}.

(** ** Processes *)

(** The verb a process serves. *)
Inductive Verb : Type := StartVerb (r : StartRequest) | StatusVerb | CancelVerb.

Inductive Proc : Type :=
| Starting (r : StartRequest)  (** [start], about to reserve *)
| Reserved (r : StartRequest)  (** created the reservation; holds the start lock *)
| Intended (r : StartRequest)  (** spawn intent written; holds the start lock *)
| Feeding (r : StartRequest) (child : nat)  (** writing the command's stdin; holds the start lock *)
| Launched (r : StartRequest) (child : nat)  (** about to write the pid file; holds the start lock *)
| SpawnFailed (r : StartRequest)  (** about to report that; holds the start lock *)
| Polling (v : Verb) (id : string)  (** [reconcile], about to read the report *)
| ReadingPid (v : Verb) (id : string) (report : ExecutionReport)
| ProbingLock (v : Verb) (id : string) (report : ExecutionReport)
| ReadingIntent (v : Verb) (id : string) (report : ExecutionReport)
| ProbingPid (v : Verb) (id : string) (report : ExecutionReport) (pid : nat)
| Settling (v : Verb) (id : string) (report : ExecutionReport) (why : string)
| Cancelling (id : string)  (** [cancel] of an execution it saw running *)
| AwaitingCancel (id : string) (waited : nat)  (** the marker is written; polling for the outcome, so many ms since *)
| Answered (v : Verb) (reply : Reply)
| AwaitingStdin (id : string)  (** supervisor, blocked on its stdin *)
| Supervisor (id : string)  (** about to spawn the command *)
| Supervising (id : string)  (** the command is running *)
| Recording (report : ExecutionReport)  (** supervisor, about to write its report *)
| Zombie.  (** exited, not reaped *)

Record System : Type := {
  spool : Spool;
  procs : gmap nat Proc;
  commands : list (string * StartRequest);  (** ghost: every command spawned *)
}.

Definition sys (sp : Spool) (ps : gmap nat Proc) (cs : list (string * StartRequest)) : System :=
  {| spool := sp; procs := ps; commands := cs |}.

(** The process holds the [start.lock] of [id]. *)
Definition holds_start_lock (p : Proc) (id : string) : bool :=
  match p with
  | Reserved r | Intended r | SpawnFailed r => String.eqb (req_id r) id
  | Feeding r _ | Launched r _ => String.eqb (req_id r) id
  | _ => false
  end.

(** The pid names a process that [kill(pid, 0)] and [/proc] call alive. *)
Definition pid_alive (ps : gmap nat Proc) (pid : nat) : bool :=
  match ps !! pid with None | Some Zombie => false | Some _ => true end.

Definition reply_with (v : Verb) (r : ExecutionReport) : Reply :=
  match v with StartVerb _ => Started r | StatusVerb | CancelVerb => State r end.

(** What a verb does with the report [reconcile] returned. *)
Definition reconciled (v : Verb) (id : string) (r : ExecutionReport) : Proc :=
  match v with
  | CancelVerb => if is_terminal (report_state r) then Answered v (reply_with v r) else Cancelling id
  | _ => Answered v (reply_with v r)
  end.

(** ** Steps *)

(** The bounded wait of [cancel], in milliseconds. *)
Definition CANCEL_WAIT : nat := 3000.
Definition CANCEL_POLL : nat := 50.

Inductive Actor : Type := Invoked | Own (i : nat) | Killed (i : nat).
#[global] Instance Actor_eq_dec : EqDecision Actor. Proof. solve_decision. Defined.

Section Steps.
Context (decode_base64 : string -> option (list ascii)).

(** The spool after a [write_report] whose result is ignored. *)
Definition recorded (sp : Spool) (r : ExecutionReport) : Spool :=
  match write_report sp r with Ok (_, sp') => sp' | Err _ => sp end.

Definition start_error (e : SpoolError) : RunnerErrorCode :=
  match e with SpoolConflict _ => ErrConflict | _ => ErrInternal end.

(** What is sent to the supervisor through the pipe. *)
Definition payload (r : StartRequest) : list ascii :=
  match stdin_base64 r with Some encoded => default [] (decode_base64 encoded) | None => [] end.

(** One event, by whom: a verb is invoked, a process takes a step of its own,
    or it is killed or reaped. *)
Inductive acts : Actor -> System -> System -> Prop :=
(** A verb is invoked; [start] validates its request first. *)
| step_start sp ps cs i r : ps !! i = None -> validate decode_base64 r = Ok tt ->
    acts Invoked (sys sp ps cs) (sys sp (<[i := Starting r]> ps) cs)
| step_start_refused sp ps cs i r e : ps !! i = None -> validate decode_base64 r = Err e ->
    acts Invoked (sys sp ps cs) (sys sp (<[i := Answered (StartVerb r) (ReplyError e)]> ps) cs)
| step_status sp ps cs i id : ps !! i = None ->
    acts Invoked (sys sp ps cs) (sys sp (<[i := Polling StatusVerb id]> ps) cs)
| step_cancel sp ps cs i id : ps !! i = None ->
    acts Invoked (sys sp ps cs) (sys sp (<[i := Polling CancelVerb id]> ps) cs)
(** [start]: reserve. *)
| step_reserve sp ps cs i r now res sp' : ps !! i = Some (Starting r) ->
    reserve sp r now = Ok (res, sp') ->
    acts (Own i) (sys sp ps cs)
      (sys sp' (<[i := match res with Created => Reserved r
                       | AlreadyReserved => Polling (StartVerb r) (req_id r) end]> ps) cs)
| step_reserve_error sp ps cs i r now e : ps !! i = Some (Starting r) -> reserve sp r now = Err e ->
    acts (Own i) (sys sp ps cs)
      (sys sp (<[i := Answered (StartVerb r) (ReplyError (start_error e))]> ps) cs)
| step_reserve_io sp ps cs i r : ps !! i = Some (Starting r) ->
    acts (Own i) (sys sp ps cs) (sys sp (<[i := Answered (StartVerb r) (ReplyError ErrInternal)]> ps) cs)
(** [spawn_supervisor]: the intent, the spawn, the stdin hand-over, the pid. *)
| step_intent sp ps cs i r : ps !! i = Some (Reserved r) ->
    acts (Own i) (sys sp ps cs)
      (sys (alter mark_spawn_intent (req_id r) sp) (<[i := Intended r]> ps) cs)
| step_intent_error sp ps cs i r : ps !! i = Some (Reserved r) ->
    acts (Own i) (sys sp ps cs) (sys sp (<[i := SpawnFailed r]> ps) cs)
(** A failed write may leave the marker behind. *)
| step_intent_half sp ps cs i r : ps !! i = Some (Reserved r) ->
    acts (Own i) (sys sp ps cs)
      (sys (alter mark_spawn_intent (req_id r) sp) (<[i := SpawnFailed r]> ps) cs)
| step_spawn sp ps cs i j r : ps !! i = Some (Intended r) -> ps !! j = None -> payload r = [] ->
    acts (Own i) (sys sp ps cs)
      (sys sp (<[j := Supervisor (req_id r)]> (<[i := Launched r j]> ps)) cs)
| step_spawn_stdin sp ps cs i j r : ps !! i = Some (Intended r) -> ps !! j = None ->
    payload r <> [] ->
    acts (Own i) (sys sp ps cs)
      (sys sp (<[j := AwaitingStdin (req_id r)]> (<[i := Feeding r j]> ps)) cs)
| step_spawn_error sp ps cs i r : ps !! i = Some (Intended r) ->
    acts (Own i) (sys sp ps cs) (sys sp (<[i := SpawnFailed r]> ps) cs)
| step_feed sp ps cs i j r : ps !! i = Some (Feeding r j) -> ps !! j = Some (AwaitingStdin (req_id r)) ->
    acts (Own i) (sys sp ps cs)
      (sys sp (<[j := Supervisor (req_id r)]> (<[i := Launched r j]> ps)) cs)
(** A failed hand-over closes the pipe: the supervisor's exact read fails. *)
| step_feed_error sp ps cs i j r t0 t1 : ps !! i = Some (Feeding r j) ->
    ps !! j = Some (AwaitingStdin (req_id r)) ->
    acts (Own i) (sys sp ps cs)
      (sys sp (<[j := Recording (bare_report (req_id r) Unknown (Some t0) (Some t1)
                                   (Some Reason.SUPERVISOR_SETUP_FAILED))]>
                (<[i := SpawnFailed r]> ps)) cs)
| step_feed_dead sp ps cs i j r : ps !! i = Some (Feeding r j) ->
    ps !! j <> Some (AwaitingStdin (req_id r)) ->
    acts (Own i) (sys sp ps cs) (sys sp (<[i := SpawnFailed r]> ps) cs)
| step_pid sp ps cs i j r : ps !! i = Some (Launched r j) ->
    acts (Own i) (sys sp ps cs)
      (sys (alter (write_supervisor_pid j) (req_id r) sp)
           (<[i := Polling (StartVerb r) (req_id r)]> ps) cs)
| step_pid_error sp ps cs i j r : ps !! i = Some (Launched r j) ->
    acts (Own i) (sys sp ps cs) (sys sp (<[i := Polling (StartVerb r) (req_id r)]> ps) cs)
| step_not_started sp ps cs i r now : ps !! i = Some (SpawnFailed r) ->
    acts (Own i) (sys sp ps cs)
      (sys (recorded sp (bare_report (req_id r) Unknown None (Some now)
                           (Some Reason.SUPERVISOR_NOT_STARTED)))
           (<[i := Polling (StartVerb r) (req_id r)]> ps) cs)
| step_not_started_io sp ps cs i r : ps !! i = Some (SpawnFailed r) ->
    acts (Own i) (sys sp ps cs) (sys sp (<[i := Polling (StartVerb r) (req_id r)]> ps) cs)
(** [reconcile], one read at a time; a file that cannot be read ends it. *)
| step_poll_io sp ps cs i v id : ps !! i = Some (Polling v id) ->
    acts (Own i) (sys sp ps cs) (sys sp (<[i := Answered v (ReplyError ErrInternal)]> ps) cs)
| step_poll_error sp ps cs i v id e : ps !! i = Some (Polling v id) -> read_report sp id = Err e ->
    acts (Own i) (sys sp ps cs) (sys sp (<[i := Answered v (ReplyError (map_error e))]> ps) cs)
| step_poll sp ps cs i v id r : ps !! i = Some (Polling v id) -> read_report sp id = Ok r ->
    acts (Own i) (sys sp ps cs)
      (sys sp (<[i := if is_terminal (report_state r) then reconciled v id r
                      else ReadingPid v id r]> ps) cs)
| step_read_pid sp ps cs i v id r : ps !! i = Some (ReadingPid v id r) ->
    acts (Own i) (sys sp ps cs)
      (sys sp (<[i := match sp !! id ≫= supervisor_pid_file with
                      | Some pid => ProbingPid v id r pid | None => ProbingLock v id r end]> ps) cs)
| step_lock_held sp ps cs i v id r : ps !! i = Some (ProbingLock v id r) ->
    acts (Own i) (sys sp ps cs) (sys sp (<[i := reconciled v id r]> ps) cs)
| step_lock_free sp ps cs i v id r : ps !! i = Some (ProbingLock v id r) ->
    (forall j p, ps !! j = Some p -> holds_start_lock p id = false) ->
    acts (Own i) (sys sp ps cs) (sys sp (<[i := ReadingIntent v id r]> ps) cs)
| step_read_intent sp ps cs i v id r d : ps !! i = Some (ReadingIntent v id r) -> sp !! id = Some d ->
    acts (Own i) (sys sp ps cs)
      (sys sp (<[i := Settling v id r (if spawn_intent_file d then Reason.SUPERVISOR_LOST
                                       else Reason.SUPERVISOR_NOT_STARTED)]> ps) cs)
| step_intent_unreadable sp ps cs i v id r : ps !! i = Some (ReadingIntent v id r) ->
    acts (Own i) (sys sp ps cs) (sys sp (<[i := Settling v id r Reason.SUPERVISOR_LOST]> ps) cs)
| step_probe_pid sp ps cs i v id r pid : ps !! i = Some (ProbingPid v id r pid) ->
    acts (Own i) (sys sp ps cs)
      (sys sp (<[i := if pid_alive ps pid then reconciled v id r
                      else Settling v id r Reason.SUPERVISOR_LOST]> ps) cs)
| step_settle sp ps cs i v id r why now r' sp' : ps !! i = Some (Settling v id r why) ->
    write_report sp (settled r now why) = Ok (r', sp') ->
    acts (Own i) (sys sp ps cs) (sys sp' (<[i := reconciled v id r']> ps) cs)
| step_settle_io sp ps cs i v id r why : ps !! i = Some (Settling v id r why) ->
    acts (Own i) (sys sp ps cs) (sys sp (<[i := Answered v (ReplyError ErrInternal)]> ps) cs)
(** [cancel] leaves its marker, then reads the report every [CANCEL_POLL] until
    it is terminal or [CANCEL_WAIT] has passed, and then once more. *)
| step_mark_cancel sp ps cs i id sp' : ps !! i = Some (Cancelling id) -> request_cancel sp id = Ok sp' ->
    acts (Own i) (sys sp ps cs) (sys sp' (<[i := AwaitingCancel id 0]> ps) cs)
| step_mark_cancel_error sp ps cs i id e : ps !! i = Some (Cancelling id) -> request_cancel sp id = Err e ->
    acts (Own i) (sys sp ps cs) (sys sp (<[i := Answered CancelVerb (ReplyError (map_error e))]> ps) cs)
| step_mark_cancel_io sp ps cs i id : ps !! i = Some (Cancelling id) ->
    acts (Own i) (sys sp ps cs) (sys sp (<[i := Answered CancelVerb (ReplyError ErrInternal)]> ps) cs)
| step_mark_cancel_half sp ps cs i id sp' : ps !! i = Some (Cancelling id) -> request_cancel sp id = Ok sp' ->
    acts (Own i) (sys sp ps cs) (sys sp' (<[i := Answered CancelVerb (ReplyError ErrInternal)]> ps) cs)
| step_cancel_wait sp ps cs i id waited later r : ps !! i = Some (AwaitingCancel id waited) ->
    (waited < CANCEL_WAIT)%nat -> read_report sp id = Ok r -> is_terminal (report_state r) = false ->
    (waited + CANCEL_POLL <= later)%nat ->
    acts (Own i) (sys sp ps cs) (sys sp (<[i := AwaitingCancel id later]> ps) cs)
| step_cancel_settled sp ps cs i id waited r : ps !! i = Some (AwaitingCancel id waited) ->
    (waited < CANCEL_WAIT)%nat -> read_report sp id = Ok r -> is_terminal (report_state r) = true ->
    acts (Own i) (sys sp ps cs) (sys sp (<[i := Answered CancelVerb (State r)]> ps) cs)
| step_cancel_answer sp ps cs i id waited r : ps !! i = Some (AwaitingCancel id waited) ->
    (CANCEL_WAIT <= waited)%nat -> read_report sp id = Ok r ->
    acts (Own i) (sys sp ps cs) (sys sp (<[i := Answered CancelVerb (State r)]> ps) cs)
| step_cancel_error sp ps cs i id waited e : ps !! i = Some (AwaitingCancel id waited) -> read_report sp id = Err e ->
    acts (Own i) (sys sp ps cs) (sys sp (<[i := Answered CancelVerb (ReplyError (map_error e))]> ps) cs)
| step_cancel_io sp ps cs i id waited : ps !! i = Some (AwaitingCancel id waited) ->
    acts (Own i) (sys sp ps cs) (sys sp (<[i := Answered CancelVerb (ReplyError ErrInternal)]> ps) cs)
(** The supervisor. *)
| step_stdin_lost sp ps cs j id t0 t1 : ps !! j = Some (AwaitingStdin id) ->
    acts (Own j) (sys sp ps cs)
      (sys sp (<[j := Recording (bare_report id Unknown (Some t0) (Some t1)
                                   (Some Reason.SUPERVISOR_SETUP_FAILED))]> ps) cs)
| step_setup_error sp ps cs j id t0 t1 why : ps !! j = Some (Supervisor id) ->
    In why [Reason.SUPERVISOR_SETUP_FAILED; Reason.SPAWN_FAILED] ->
    acts (Own j) (sys sp ps cs)
      (sys sp (<[j := Recording (bare_report id Unknown (Some t0) (Some t1) (Some why))]> ps) cs)
| step_command sp ps cs j id d : ps !! j = Some (Supervisor id) -> sp !! id = Some d ->
    acts (Own j) (sys sp ps cs)
      (sys sp (<[j := Supervising id]> ps) (cs ++ [(id, request_file d)]))
| step_helper_error sp ps cs j id t0 t1 : ps !! j = Some (Supervising id) ->
    acts (Own j) (sys sp ps cs)
      (sys sp (<[j := Recording (bare_report id Unknown (Some t0) (Some t1)
                                   (Some Reason.SUPERVISOR_SETUP_FAILED))]> ps) cs)
| step_outcome sp ps cs j id t0 t1 status ended_by o e : ps !! j = Some (Supervising id) ->
    In ended_by [None; Some Reason.TIMED_OUT; Some Reason.CANCELLED] ->
    (ended_by = Some Reason.CANCELLED -> exists d, sp !! id = Some d /\ cancel_file d = true) ->
    acts (Own j) (sys sp ps cs)
      (sys sp (<[j := Recording (settle_report id t0 t1 status ended_by o e)]> ps) cs)
| step_record sp ps cs j r : ps !! j = Some (Recording r) ->
    acts (Own j) (sys sp ps cs) (sys (recorded sp r) (<[j := Zombie]> ps) cs)
| step_record_io sp ps cs j r : ps !! j = Some (Recording r) ->
    acts (Own j) (sys sp ps cs) (sys sp (<[j := Zombie]> ps) cs)
(** Any process may die, and a dead one is reaped. *)
| step_die sp ps cs i : is_Some (ps !! i) ->
    acts (Killed i) (sys sp ps cs) (sys sp (<[i := Zombie]> ps) cs)
| step_reap sp ps cs i : acts (Killed i) (sys sp ps cs) (sys sp (delete i ps) cs).

Definition runner_step (s s' : System) : Prop := exists a, acts a s s'.

Definition initial_system : System := sys ∅ ∅ [].

Definition runner_reachable (s : System) : Prop := rtc runner_step initial_system s.

End Steps.
