(* ===== verification/RunnerFacts.v ===== *)
(** * RunnerFacts: what the runner guarantees

    Theorems about [Runner]: an id runs at most one command, a terminal report
    is final, "not started" is only ever said of a command that never runs, and
    the output a poller assembles is the output the command wrote.  The safety
    theorems are proved from one invariant of every reachable [System]. *)

From S2P Require Import Prelude Text Runner.

Local Open Scope kobe_scope.

(** ** Tokens

    A token is the right to bring the command of an id into being; the start
    lock is the other exclusive thing a process may hold. *)

Definition tok (p : Proc) : option string :=
  match p with
  | Reserved r | Intended r => Some (req_id r)
  | AwaitingStdin id | Supervisor id => Some id
  | _ => None
  end.

Definition lck (p : Proc) : option string :=
  match p with
  | Reserved r | Intended r | SpawnFailed r => Some (req_id r)
  | Feeding r _ | Launched r _ => Some (req_id r)
  | _ => None
  end.

Lemma holds_start_lock_lck p id : holds_start_lock p id = true <-> lck p = Some id.
Proof. destruct p; cbn; rewrite ?String.eqb_eq; split; congruence. Qed.

Section Holders.
Context (f : Proc -> option string).
Implicit Types (ps : gmap nat Proc).

Definition unique ps : Prop :=
  forall i j p q id, ps !! i = Some p -> ps !! j = Some q -> f p = Some id -> f q = Some id -> i = j.

Definition absent ps (id : string) : Prop := forall i p, ps !! i = Some p -> f p <> Some id.

(** The new process at [i] holds no more than the old one did. *)
Definition no_more ps (i : nat) (q : Proc) : Prop :=
  f q = None \/ exists p, ps !! i = Some p /\ f q = f p.

Lemma unique_simple ps i q : unique ps -> no_more ps i q -> unique (<[i := q]> ps).
Proof.
  intros H Hq a b x y id. rewrite !lookup_insert_Some.
  intros [[<- <-]|[Ha Hx]] [[<- <-]|[Hb Hy]] Hfx Hfy; [done| | |by eapply H];
    (destruct Hq as [Hn|(p & Hp & Hq)]; [congruence|]).
  - symmetry. eapply (H b i); eauto; congruence.
  - eapply (H a i); eauto; congruence.
Qed.

Lemma unique_new ps i q id : unique ps -> absent ps id -> f q = Some id -> unique (<[i := q]> ps).
Proof.
  intros H Ha Hq a b x y k. rewrite !lookup_insert_Some.
  intros [[<- <-]|[Hai Hx]] [[<- <-]|[Hbi Hy]] Hfx Hfy; [done| | |by eapply H].
  - destruct (Ha b y Hy). congruence.
  - destruct (Ha a x Hx). congruence.
Qed.

Lemma absent_simple ps i q id : absent ps id -> f q <> Some id -> absent (<[i := q]> ps) id.
Proof. intros H Hq a x. rewrite lookup_insert_Some. intros [[<- <-]|[_ Hx]]; [done|by eapply H]. Qed.

Lemma absent_no_more ps i q id : absent ps id -> no_more ps i q -> absent (<[i := q]> ps) id.
Proof.
  intros H [Hn|(p & Hp & E)]; (apply absent_simple; [done|]); [congruence|]. rewrite E. by eapply H.
Qed.

(** Taking the only holder away. *)
Lemma absent_taken ps i p q id :
  unique ps -> ps !! i = Some p -> f p = Some id -> f q <> Some id -> absent (<[i := q]> ps) id.
Proof.
  intros H Hp Hfp Hq a x. rewrite lookup_insert_Some. intros [[<- <-]|[Hne Hx]]; [done|].
  intros Hfx. destruct Hne. by eapply (H i a).
Qed.

Lemma unique_delete ps i : unique ps -> unique (delete i ps).
Proof. intros H a b x y id [_ ?]%lookup_delete_Some [_ ?]%lookup_delete_Some. by eapply H. Qed.

Lemma absent_delete ps i id : absent ps id -> absent (delete i ps) id.
Proof. intros H a x [_ ?]%lookup_delete_Some. by eapply H. Qed.

End Holders.

(** ** The spool only grows *)

Definition spool_le (a b : Spool) : Prop :=
  forall id d, a !! id = Some d -> exists d', b !! id = Some d' /\ request_file d' = request_file d /\
    (spawn_intent_file d = true -> spawn_intent_file d' = true).

#[global] Instance spool_le_preorder : PreOrder spool_le.
Proof.
  split; [intros a id d H; by exists d|]. intros a b c Hab Hbc id d H.
  destruct (Hab id d H) as (d1 & H1 & E1 & I1). destruct (Hbc id d1 H1) as (d2 & H2 & E2 & I2).
  exists d2. split; [done|]. split; [congruence|auto].
Qed.

Lemma spool_le_insert sp id d d' :
  sp !! id = Some d -> request_file d' = request_file d ->
  (spawn_intent_file d = true -> spawn_intent_file d' = true) -> spool_le sp (<[id := d']> sp).
Proof.
  intros Hd Hr Hi k e He. destruct (decide (k = id)) as [->|Hne].
  - exists d'. rewrite lookup_insert_eq. rewrite Hd in He. injection He as <-. done.
  - exists e. by rewrite lookup_insert_ne.
Qed.

(** Every file is stored under its id. *)
Definition spool_ok (sp : Spool) : Prop :=
  forall id d, sp !! id = Some d -> report_id (state_file d) = id /\ is_valid_id id = true /\
    stdin_base64 (request_file d) = None.

Definition says_not_started (sp : Spool) (id : string) : Prop :=
  exists d, sp !! id = Some d /\ reason (state_file d) = Some Reason.SUPERVISOR_NOT_STARTED.

(** A change of one directory's files. *)
Lemma alter_facts g sp id :
  (forall d, request_file (g d) = request_file d /\ state_file (g d) = state_file d /\
    (spawn_intent_file d = true -> spawn_intent_file (g d) = true)) ->
  spool_ok sp ->
  spool_le sp (alter g id sp) /\ spool_ok (alter g id sp) /\
  forall k, says_not_started (alter g id sp) k -> says_not_started sp k.
Proof.
  intros Hg Hok. split; [|split].
  - intros k d H. destruct (decide (id = k)) as [->|Hne].
    + exists (g d). rewrite lookup_alter_eq, H. destruct (Hg d) as (? & ? & ?). done.
    + exists d. by rewrite lookup_alter_ne.
  - intros k d. destruct (decide (id = k)) as [->|Hne]; [|rewrite lookup_alter_ne by done; apply Hok].
    rewrite lookup_alter_eq. destruct (sp !! k) as [e|] eqn:He; [|done]. intros [= <-].
    destruct (Hg e) as (-> & -> & _). by apply Hok.
  - intros k (d & Hd & Hr). destruct (decide (id = k)) as [->|Hne];
      [|rewrite lookup_alter_ne in Hd by done; by exists d].
    rewrite lookup_alter_eq in Hd. destruct (sp !! k) as [e|] eqn:He; [|done]. injection Hd as <-.
    exists e. destruct (Hg e) as (_ & E & _). by rewrite <- E.
Qed.

Lemma write_report_facts sp r r' sp' :
  spool_ok sp -> write_report sp r = Ok (r', sp') ->
  spool_le sp sp' /\ spool_ok sp' /\ is_Some (sp !! report_id r) /\
  (forall k, says_not_started sp' k ->
     says_not_started sp k \/ (k = report_id r /\ reason r = Some Reason.SUPERVISOR_NOT_STARTED)) /\
  (forall id d, sp !! id = Some d -> is_terminal (report_state (state_file d)) = true ->
     exists d', sp' !! id = Some d' /\ state_file d' = state_file d).
Proof.
  intros Hok. unfold write_report. destruct (is_valid_id (report_id r)) eqn:Hv; [|done]. cbn.
  destruct (sp !! report_id r) as [d|] eqn:Hd; [|done]. case_match; [done|].
  destruct (is_terminal (report_state (state_file d))) eqn:Ht; intros [= <- <-].
  { split_and!; [done|done|done|by left|]. intros id e He _. by exists e. }
  split_and!; [by eapply spool_le_insert| |done| |].
  - intros k e. rewrite lookup_insert_Some. intros [[<- <-]|[_ He]]; [|by apply Hok].
    split_and!; [done..|]. by apply (Hok _ d Hd).
  - intros k (e & He & Hr). apply lookup_insert_Some in He as [[<- <-]|[_ He]]; [by right|left; by exists e].
  - intros id e He Hte. exists e. rewrite lookup_insert_ne; [done|]. congruence.
Qed.

Lemma recorded_facts sp r :
  spool_ok sp ->
  spool_le sp (recorded sp r) /\ spool_ok (recorded sp r) /\
  (forall k, says_not_started (recorded sp r) k ->
     says_not_started sp k \/ (k = report_id r /\ reason r = Some Reason.SUPERVISOR_NOT_STARTED)) /\
  (forall id d, sp !! id = Some d -> is_terminal (report_state (state_file d)) = true ->
     exists d', recorded sp r !! id = Some d' /\ state_file d' = state_file d).
Proof.
  intros Hok. unfold recorded. destruct (write_report sp r) as [[r' sp']|] eqn:E.
  - destruct (write_report_facts _ _ _ _ Hok E) as (? & ? & _ & ? & ?). done.
  - split_and!; [done|done|by left|]. intros id d Hd _. by exists d.
Qed.

Lemma request_cancel_facts sp id sp' :
  spool_ok sp -> request_cancel sp id = Ok sp' ->
  spool_le sp sp' /\ spool_ok sp' /\ (forall k, says_not_started sp' k -> says_not_started sp k) /\
  (forall k d, sp !! k = Some d -> exists d', sp' !! k = Some d' /\ state_file d' = state_file d).
Proof.
  intros Hok. unfold request_cancel. destruct (is_valid_id id) eqn:Hv; [|done]. cbn.
  destruct (sp !! id) as [d|] eqn:Hd; [|done]. intros [= <-].
  split_and!; [by eapply spool_le_insert| | |].
  - intros k e. rewrite lookup_insert_Some. intros [[<- <-]|[_ He]]; [exact (Hok id d Hd)|by apply Hok].
  - intros k (e & He & Hr). apply lookup_insert_Some in He as [[<- <-]|[_ He]]; [by exists d|by exists e].
  - intros k e He. destruct (decide (id = k)) as [->|Hne].
    + eexists. rewrite lookup_insert_eq. split; [done|]. cbn. congruence.
    + exists e. by rewrite lookup_insert_ne.
Qed.

Lemma same_command_refl r : same_command (without_stdin r) r = true.
Proof. unfold same_command. cbn. by rewrite !bool_decide_eq_true_2, !Z.eqb_refl by done. Qed.

(** ** The invariant *)

Definition bound (sp : Spool) (r : StartRequest) : Prop :=
  exists d, sp !! req_id r = Some d /\ same_command (request_file d) r = true.

Definition has_intent (sp : Spool) (id : string) : Prop :=
  exists d, sp !! id = Some d /\ spawn_intent_file d = true.

Definition verb_ok (sp : Spool) (v : Verb) : Prop :=
  match v with StartVerb r => bound sp r | StatusVerb | CancelVerb => True end.

(** What a process in some state knows of the spool. *)
Definition proc_ok (sp : Spool) (p : Proc) : Prop :=
  match p with
  | Starting _ | Cancelling _ | AwaitingCancel _ _ | Supervising _ | Zombie => True
  | Reserved r | SpawnFailed r => bound sp r
  | Intended r | Feeding r _ | Launched r _ => bound sp r /\ has_intent sp (req_id r)
  | Polling v _ => verb_ok sp v
  | ReadingPid v id r | ProbingLock v id r | ReadingIntent v id r | ProbingPid v id r _
  | Settling v id r _ => verb_ok sp v /\ report_id r = id /\ is_Some (sp !! id)
  | Answered v (ReplyError _) => True
  | Answered v _ => verb_ok sp v
  | AwaitingStdin id | Supervisor id => has_intent sp id
  | Recording r => reason r <> Some Reason.SUPERVISOR_NOT_STARTED
  end.

Lemma bound_mono a b r : spool_le a b -> bound a r -> bound b r.
Proof. intros H (d & Hd & E). destruct (H _ _ Hd) as (d' & ? & R & _). exists d'. by rewrite R. Qed.

Lemma has_intent_mono a b id : spool_le a b -> has_intent a id -> has_intent b id.
Proof. intros H (d & Hd & E). destruct (H _ _ Hd) as (d' & ? & _ & I). exists d'. auto. Qed.

Lemma present_mono a b id : spool_le a b -> is_Some (a !! id) -> is_Some (b !! id).
Proof. intros H [d Hd]. destruct (H _ _ Hd) as (d' & ? & _). eauto. Qed.

Lemma verb_ok_mono a b v : spool_le a b -> verb_ok a v -> verb_ok b v.
Proof. destruct v; [apply bound_mono|done..]. Qed.

Lemma proc_ok_mono a b p : spool_le a b -> proc_ok a p -> proc_ok b p.
Proof.
  intros H. destruct p; cbn; repeat case_match; try done; intros; destruct_and?; split_and?;
    eauto using bound_mono, has_intent_mono, present_mono, verb_ok_mono.
Qed.

(** Nothing has run the command of [id] and nothing ever will. *)
Definition quiet (ps : gmap nat Proc) (cs : list (string * StartRequest)) (id : string) : Prop :=
  absent tok ps id /\ ~ In id (map fst cs).

(** A process about to say that [id] was not started. *)
Definition denies (p : Proc) (id : string) : Prop :=
  match p with
  | SpawnFailed r => req_id r = id
  | Settling _ k _ why => k = id /\ why = Reason.SUPERVISOR_NOT_STARTED
  | _ => False
  end.

Record runner_inv (sp : Spool) (ps : gmap nat Proc) (cs : list (string * StartRequest)) : Prop := {
  inv_spool : spool_ok sp;
  inv_proc : forall i p, ps !! i = Some p -> proc_ok sp p;
  inv_cmd : forall id r, In (id, r) cs -> exists d, sp !! id = Some d /\ request_file d = r /\
    spawn_intent_file d = true;
  inv_nodup : List.NoDup (map fst cs);
  inv_tok : unique tok ps;
  inv_fresh : forall i p id, ps !! i = Some p -> tok p = Some id -> ~ In id (map fst cs);
  inv_lck : unique lck ps;
  inv_feed : forall i r j, ps !! i = Some (Feeding r j) ->
    ~ In (req_id r) (map fst cs) /\
    forall k q, ps !! k = Some q -> tok q = Some (req_id r) -> k = j /\ q = AwaitingStdin (req_id r);
  inv_reading : forall i v id r, ps !! i = Some (ReadingIntent v id r) -> absent lck ps id;
  inv_never : forall i p id, says_not_started sp id \/ (ps !! i = Some p /\ denies p id) -> quiet ps cs id;
}.

Lemma quiet_no_more ps cs i q id : quiet ps cs id -> no_more tok ps i q -> quiet (<[i := q]> ps) cs id.
Proof. intros [Ha Hc] Hq. split; [by apply absent_no_more|done]. Qed.

(** No [start] is feeding a supervisor of [id]. *)
Definition no_feeder (ps : gmap nat Proc) (id : string) : Prop :=
  forall k r j, ps !! k = Some (Feeding r j) -> req_id r <> id.

(** A step of one process that holds no more than before and spawns nothing. *)
Lemma inv_simple sp ps cs sp' i q :
  runner_inv sp ps cs -> spool_le sp sp' -> spool_ok sp' -> proc_ok sp' q ->
  (tok q = None \/ exists p id, ps !! i = Some p /\ tok q = Some id /\ tok p = Some id /\ no_feeder ps id) ->
  no_more lck ps i q ->
  (forall r j, q = Feeding r j -> quiet (<[i := q]> ps) cs (req_id r)) ->
  (forall v id r, q = ReadingIntent v id r -> absent lck ps id) ->
  (forall id, says_not_started sp' id ->
     says_not_started sp id \/ exists p, ps !! i = Some p /\ denies p id) ->
  (forall id, denies q id -> quiet (<[i := q]> ps) cs id) ->
  runner_inv sp' (<[i := q]> ps) cs.
Proof.
  intros [Hsp Hpr Hcm Hnd Htk Hfr Hlk Hfd Hrd Hnv] Hle Hok Hq Ht Hl Hnf Hri Hsn Hdn.
  assert (no_more tok ps i q) as Ht' by
    (destruct Ht as [?|(p & id & ? & ? & ? & _)]; [by left|right; exists p; split; congruence]).
  split.
  - done.
  - intros k p. rewrite lookup_insert_Some. intros [[<- <-]|[_ Hp]]; [done|]. eauto using proc_ok_mono.
  - intros id r Hin. destruct (Hcm id r Hin) as (d & Hd & E & I).
    destruct (Hle _ _ Hd) as (d' & ? & R & I'). exists d'. split_and!; [done|congruence|auto].
  - done.
  - by apply unique_simple.
  - intros k p id. rewrite lookup_insert_Some. intros [[<- <-]|[_ Hp]] Hk; [|by eapply Hfr].
    destruct Ht' as [?|(p & Hp & E)]; [congruence|]. eapply (Hfr i p); congruence.
  - by apply unique_simple.
  - intros k r j. rewrite lookup_insert_Some. intros [[<- Eq]|[Hne Hk]].
    { destruct (Hnf r j Eq) as [Ha Hc]. split; [done|]. intros a x Hx Hx'. by destruct (Ha a x). }
    destruct (Hfd k r j Hk) as [Hnc Hone]. split; [done|]. intros a x.
    rewrite lookup_insert_Some. intros [[<- <-]|[_ Hx]] Hx'; [|by apply Hone].
    destruct Ht as [?|(p & id & Hp & E & _ & Hno)]; [congruence|]. destruct (Hno k r j Hk). congruence.
  - intros k v id r. rewrite lookup_insert_Some. intros [[<- Eq]|[_ Hk]];
      (apply absent_no_more; [|done]); eauto.
  - intros k p id [Hs|[Hk Hd]].
    + apply quiet_no_more; [|done]. destruct (Hsn id Hs) as [?|(p' & ? & ?)]; eapply (Hnv i); eauto.
    + apply lookup_insert_Some in Hk as [[<- <-]|[_ Hk]]; [by apply Hdn|].
      apply quiet_no_more; [|done]. eapply Hnv; eauto.
Unshelve. all: exact Zombie.
Qed.

(** The environment changes the spool alone. *)
Lemma inv_spool_change sp ps cs sp' :
  runner_inv sp ps cs -> spool_le sp sp' -> spool_ok sp' ->
  (forall id, says_not_started sp' id -> says_not_started sp id) -> runner_inv sp' ps cs.
Proof.
  intros [Hsp Hpr Hcm Hnd Htk Hfr Hlk Hfd Hrd Hnv] Hle Hok Hsn. split; try done.
  - eauto using proc_ok_mono.
  - intros id r Hin. destruct (Hcm id r Hin) as (d & Hd & E & I).
    destruct (Hle _ _ Hd) as (d' & ? & R & I'). exists d'. split_and!; [done|congruence|auto].
  - intros i p id [Hs|?]; eapply Hnv; eauto.
Unshelve. all: first [exact 0%nat|exact Zombie].
Qed.

Lemma bound_present sp r : bound sp r -> is_Some (sp !! req_id r).
Proof. intros (d & ? & _). by exists d. Qed.

Lemma has_intent_present sp id : has_intent sp id -> is_Some (sp !! id).
Proof. intros (d & ? & _). by exists d. Qed.

Lemma tok_present sp p id : proc_ok sp p -> tok p = Some id -> is_Some (sp !! id).
Proof.
  destruct p; cbn; try done; intros Hp [= <-]; destruct_and?; eauto using bound_present, has_intent_present.
Qed.

Lemma lck_present sp p id : proc_ok sp p -> lck p = Some id -> is_Some (sp !! id).
Proof. destruct p; cbn; try done; intros Hp [= <-]; destruct_and?; eauto using bound_present. Qed.

Lemma denies_present sp p id : proc_ok sp p -> denies p id -> is_Some (sp !! id).
Proof.
  destruct p; cbn; try done; [by intros ? <-; apply bound_present|by intros (_ & _ & ?) [<- _]].
Qed.

(** The reservation that creates the directory. *)
Lemma inv_created sp ps cs i r now :
  runner_inv sp ps cs -> ps !! i = Some (Starting r) -> is_valid_id (req_id r) = true ->
  sp !! req_id r = None ->
  runner_inv (<[req_id r := fresh_dir r now]> sp) (<[i := Reserved r]> ps) cs.
Proof.
  intros [Hsp Hpr Hcm Hnd Htk Hfr Hlk Hfd Hrd Hnv] Hi Hv Hd.
  assert (spool_le sp (<[req_id r := fresh_dir r now]> sp)) as Hle.
  { intros k d Hk. exists d. rewrite lookup_insert_ne by congruence. done. }
  assert (forall id, is_Some (sp !! id) -> id <> req_id r) as Hne by (intros id [d ?]; congruence).
  assert (absent tok ps (req_id r)) as Hat.
  { intros k p Hk Ht. by destruct (Hne (req_id r) (tok_present sp p _ (Hpr k p Hk) Ht)). }
  assert (absent lck ps (req_id r)) as Hal.
  { intros k p Hk Ht. by destruct (Hne (req_id r) (lck_present sp p _ (Hpr k p Hk) Ht)). }
  split.
  - intros k d. rewrite lookup_insert_Some. intros [[<- <-]|[_ ?]]; [done|by apply Hsp].
  - intros k p. rewrite lookup_insert_Some. intros [[<- <-]|[_ Hp]]; [|eauto using proc_ok_mono].
    exists (fresh_dir r now). rewrite lookup_insert_eq. split; [done|apply same_command_refl].
  - intros id q Hin. destruct (Hcm id q Hin) as (d & Hd' & ? & ?). exists d.
    by rewrite lookup_insert_ne by congruence.
  - done.
  - by eapply unique_new.
  - intros k p id. rewrite lookup_insert_Some. intros [[<- <-]|[_ Hp]] Hk; [|by eapply Hfr].
    injection Hk as <-. intros (x & Hx & Hin)%in_map_iff. destruct x as [id q]. cbn in Hx. subst id.
    destruct (Hcm _ q Hin) as (d & ? & _). congruence.
  - by eapply unique_new.
  - intros k r' j. rewrite lookup_insert_Some. intros [[_ ?]|[_ Hk]]; [done|].
    destruct (Hfd k r' j Hk) as [Hnc Hone]. split; [done|]. intros a x.
    rewrite lookup_insert_Some. intros [[<- <-]|[_ Hx]] Hx'; [|by apply Hone].
    injection Hx' as E. destruct (Hal k _ Hk). cbn. congruence.
  - intros k v id r'. rewrite lookup_insert_Some. intros [[_ ?]|[_ Hk]]; [done|].
    apply absent_simple; [by eapply Hrd|]. cbn. intros [= <-].
    destruct (Hpr k _ Hk) as (_ & _ & Hs). by destruct (Hne _ Hs).
  - intros k p id H. assert (is_Some (sp !! id) /\ quiet ps cs id) as [Hs [Ha Hc]].
    { destruct H as [(d & Hd' & Hr)|[Hk Hdn]].
      - apply lookup_insert_Some in Hd' as [[<- <-]|[_ Hd']]; [done|].
        split; [done|]. eapply (Hnv i Zombie). left. by exists d.
      - apply lookup_insert_Some in Hk as [[_ <-]|[_ Hk]]; [done|].
        split; [by eapply denies_present; eauto|]. eapply Hnv; eauto. }
    split; [|done]. apply absent_simple; [done|]. cbn. intros [= <-]. by destruct (Hne _ Hs).
Qed.

(** A new child that takes over the token of [id]. *)
Lemma inv_child sp ps cs j c id :
  runner_inv sp ps cs -> ps !! j = None -> quiet ps cs id -> has_intent sp id ->
  c = AwaitingStdin id \/ (c = Supervisor id /\ no_feeder ps id) ->
  (forall k r j', ps !! k = Some (Feeding r j') -> req_id r = id -> j' = j) ->
  ~ says_not_started sp id -> (forall k p, ps !! k = Some p -> ~ denies p id) ->
  runner_inv sp (<[j := c]> ps) cs.
Proof.
  intros [Hsp Hpr Hcm Hnd Htk Hfr Hlk Hfd Hrd Hnv] Hj [Ha Hc] Hi Hk Hf Hs Hden.
  assert (tok c = Some id /\ lck c = None /\ proc_ok sp c) as (Htc & Hlc & Hpc) by (by destruct Hk as [->|[-> _]]).
  split; try done.
  - intros k p. rewrite lookup_insert_Some. intros [[<- <-]|[_ ?]]; [done|eauto].
  - by eapply unique_new.
  - intros k p x. rewrite lookup_insert_Some. intros [[<- <-]|[_ ?]]; [|eauto]. rewrite Htc. by intros [= <-].
  - by apply unique_simple; [|left].
  - intros k r j'. rewrite lookup_insert_Some. intros [[_ ->]|[_ Hk']]; [by destruct Hk as [|[]]|].
    destruct (Hfd k r j' Hk') as [Hnc Hone]. split; [done|]. intros a x.
    rewrite lookup_insert_Some. intros [[<- <-]|[_ Hx]] Hx'; [|by apply Hone].
    rewrite Htc in Hx'. injection Hx' as E. split; [symmetry; by eapply Hf|].
    destruct Hk as [->|[-> Hno]]; [congruence|]. by destruct (Hno k r j' Hk').
  - intros k v x r. rewrite lookup_insert_Some. intros [[_ ->]|[_ Hk']]; [by destruct Hk as [|[]]|].
    apply absent_simple; [by eapply Hrd|congruence].
  - intros k p x Hx. assert (x <> id /\ quiet ps cs x) as [Hne [Ha' Hc']].
    { destruct Hx as [Hx|[Hk' Hd]].
      - split; [by intros ->|]. eapply (Hnv j Zombie). by left.
      - apply lookup_insert_Some in Hk' as [[_ <-]|[_ Hk']]; [by destruct Hk as [->|[-> _]]|].
        split; [intros ->; by eapply Hden|]. eapply Hnv; eauto. }
    split; [|done]. apply absent_simple; [done|congruence].
Qed.

(** The command is spawned. *)
Lemma inv_command sp ps cs j id d :
  runner_inv sp ps cs -> ps !! j = Some (Supervisor id) -> sp !! id = Some d ->
  runner_inv sp (<[j := Supervising id]> ps) (cs ++ [(id, request_file d)]).
Proof.
  intros [Hsp Hpr Hcm Hnd Htk Hfr Hlk Hfd Hrd Hnv] Hj Hd.
  assert (~ In id (map fst cs)) as Hid by (by eapply (Hfr j)).
  assert (forall x, ~ In x (map fst cs) -> x <> id -> ~ In x (map fst (cs ++ [(id, request_file d)]))) as Hin.
  { intros x Hx Hne. rewrite map_app, in_app_iff. cbn. intuition. }
  assert (no_more tok ps j (Supervising id)) as Hnm by (by left).
  split; try done.
  - intros k p. rewrite lookup_insert_Some. intros [[<- <-]|[_ ?]]; [done|eauto].
  - intros x r. rewrite in_app_iff. intros [?|[[= <- <-]|[]]]; [eauto|]. exists d.
    destruct (Hpr j _ Hj) as (e & He & ?). split_and!; [done..|]. congruence.
  - rewrite map_app. cbn. apply List.NoDup_app; [done|by constructor; [intros []|constructor]|].
    by intros x Hx [<-|[]].
  - by apply unique_simple.
  - intros k p x. rewrite lookup_insert_Some. intros [[<- <-]|[Hne Hk]] Hx; [done|].
    apply Hin; [by eapply Hfr|]. intros ->. destruct Hne. by eapply (Htk j k).
  - by apply unique_simple; [|left].
  - intros k r i. rewrite lookup_insert_Some. intros [[_ ?]|[_ Hk]]; [done|].
    destruct (Hfd k r i Hk) as [Hnc Hone]. split.
    + apply Hin; [done|]. intros E. destruct (Hone j _ Hj) as [_ ?]; [cbn; congruence|done].
    + intros a x. rewrite lookup_insert_Some. intros [[<- <-]|[_ Hx]] Hx'; [done|by apply Hone].
  - intros k v x r. rewrite lookup_insert_Some. intros [[_ ?]|[_ Hk]]; [done|].
    apply absent_simple; [by eapply Hrd|done].
  - intros k p x Hx. assert (quiet ps cs x) as [Ha Hc].
    { destruct Hx as [Hx|[Hk Hden]]; [eapply (Hnv j Zombie); by left|].
      apply lookup_insert_Some in Hk as [[_ <-]|[_ Hk]]; [done|]. eapply Hnv; eauto. }
    split; [by apply absent_simple|]. apply Hin; [done|]. intros ->. by destruct (Ha j _ Hj).
Qed.

Lemma inv_delete sp ps cs i : runner_inv sp ps cs -> runner_inv sp (delete i ps) cs.
Proof.
  intros [Hsp Hpr Hcm Hnd Htk Hfr Hlk Hfd Hrd Hnv]. split; try done.
  - intros k p [_ ?]%lookup_delete_Some. eauto.
  - by apply unique_delete.
  - intros k p id [_ ?]%lookup_delete_Some. eauto.
  - by apply unique_delete.
  - intros k r j [_ Hk]%lookup_delete_Some. destruct (Hfd k r j Hk) as [? Hone]. split; [done|].
    intros a x [_ ?]%lookup_delete_Some. eauto.
  - intros k v id r [_ ?]%lookup_delete_Some. eapply absent_delete, Hrd. eauto.
  - intros k p id [Hs|[[_ Hk]%lookup_delete_Some Hd]];
      (destruct (Hnv k p id) as [Ha Hc]; [eauto|]; split; [by apply absent_delete|done]).
Qed.

(** A step that only moves one process, to a state without token. *)
Lemma inv_move sp ps cs i q :
  runner_inv sp ps cs -> proc_ok sp q -> tok q = None -> no_more lck ps i q ->
  match q with Feeding _ _ | ReadingIntent _ _ _ | SpawnFailed _ => False
          | Settling _ _ _ why => why <> Reason.SUPERVISOR_NOT_STARTED | _ => True end ->
  runner_inv sp (<[i := q]> ps) cs.
Proof.
  intros H Hq Ht Hl Hm. pose proof (inv_spool _ _ _ H). apply (inv_simple sp); [done|done|done|done|by left|done|by intros r j ->|by intros v id r ->|by left|].
  intros id. by destruct q; cbn in *; try done; intros [_ ?].
Qed.

Lemma only_lock sp ps cs i p id :
  runner_inv sp ps cs -> ps !! i = Some p -> lck p = Some id ->
  match p with Feeding _ _ => False | _ => True end -> no_feeder ps id.
Proof.
  intros H Hi Hl Hp k r j Hk E. assert (i = k) as -> by (eapply (inv_lck _ _ _ H); eauto; cbn; congruence).
  rewrite Hi in Hk. by injection Hk as ->.
Qed.

(** A holder of the token keeps its id out of every "not started". *)
Lemma token_not_never sp ps cs i p id :
  runner_inv sp ps cs -> ps !! i = Some p -> tok p = Some id ->
  ~ says_not_started sp id /\ forall k q, ps !! k = Some q -> ~ denies q id.
Proof.
  intros H Hi Ht. split.
  - intros Hs. destruct (inv_never _ _ _ H i p id) as [Ha _]; [by left|]. exact (Ha i p Hi Ht).
  - intros k q Hk Hd. destruct (inv_never _ _ _ H k q id) as [Ha _]; [by right|]. exact (Ha i p Hi Ht).
Qed.

(** The starter gives up: its token is gone and nobody has the command. *)
Lemma inv_give_up sp ps cs i p r :
  runner_inv sp ps cs -> ps !! i = Some p -> p = Reserved r \/ p = Intended r ->
  runner_inv sp (<[i := SpawnFailed r]> ps) cs.
Proof.
  intros H Hi Hp. pose proof (inv_spool _ _ _ H).
  assert (tok p = Some (req_id r) /\ lck p = Some (req_id r) /\ bound sp r) as (Ht & Hl & Hb).
  { pose proof (inv_proc _ _ _ H i p Hi) as Hok. by destruct Hp as [-> | ->]; cbn in Hok; destruct_and?. }
  apply (inv_simple sp); [done|done|done|done|by left|right; exists p; by rewrite Hl|done|done|by left|].
  intros id <-. split; [|by eapply (inv_fresh _ _ _ H)].
  by eapply absent_taken; [apply (inv_tok _ _ _ H)| | |].
Qed.

Lemma feed_quiet sp ps cs i j r q :
  runner_inv sp ps cs -> ps !! i = Some (Feeding r j) -> q <> AwaitingStdin (req_id r) -> ps !! j = Some q ->
  quiet ps cs (req_id r).
Proof.
  intros H Hi Hq Hj. destruct (inv_feed _ _ _ H i r j Hi) as [Hc Hone]. split; [|done].
  intros k p Hk Ht. destruct (Hone k p Hk Ht) as [-> ->]. congruence.
Qed.

Lemma inv_feed_failed sp ps cs i j r :
  runner_inv sp ps cs -> ps !! i = Some (Feeding r j) -> quiet ps cs (req_id r) ->
  runner_inv sp (<[i := SpawnFailed r]> ps) cs.
Proof.
  intros H Hi [Ha Hc]. pose proof (inv_spool _ _ _ H). pose proof (inv_proc _ _ _ H i _ Hi) as [Hb _].
  apply (inv_simple sp); [done|done|done|done|by left|right; by exists (Feeding r j)|done|done|by left|].
  intros id <-. split; [by apply absent_simple|done].
Qed.

(** ** Preservation *)

Section Preservation.
Context (decode_base64 : string -> option (list ascii)).

Lemma inv_reserve sp ps cs i r now res sp' :
  runner_inv sp ps cs -> ps !! i = Some (Starting r) -> reserve sp r now = Ok (res, sp') ->
  runner_inv sp' (<[i := match res with Created => Reserved r
                         | AlreadyReserved => Polling (StartVerb r) (req_id r) end]> ps) cs.
Proof.
  intros H Hi. unfold reserve. destruct (is_valid_id (req_id r)) eqn:Hv; [|done]. cbn.
  destruct (sp !! req_id r) as [d|] eqn:Hd; [|intros [= <- <-]; by apply inv_created].
  destruct (same_command (request_file d) r) eqn:Hs; [|done]. intros [= <- <-].
  apply inv_move; [done|by exists d|done|by left|done].
Qed.

Lemma inv_intent_step sp ps cs i r :
  runner_inv sp ps cs -> ps !! i = Some (Reserved r) ->
  runner_inv (alter mark_spawn_intent (req_id r) sp) (<[i := Intended r]> ps) cs.
Proof.
  intros H Hi. destruct (alter_facts mark_spawn_intent sp (req_id r)) as (Hle & Hok & Hs); [done|apply H|].
  pose proof (inv_proc _ _ _ H i _ Hi) as Hb. eapply inv_simple; [done|done|done| | | |done|done|by left; auto|done].
  - split; [by eapply bound_mono|]. destruct Hb as (d & Hd & _). exists (mark_spawn_intent d).
    by rewrite lookup_alter_eq, Hd.
  - right. exists (Reserved r), (req_id r). split_and!; [done..|]. by eapply only_lock.
  - right. by exists (Reserved r).
Qed.

(** The marker was left by a write that failed. *)
Lemma inv_intent_half sp ps cs i r :
  runner_inv sp ps cs -> ps !! i = Some (Reserved r) ->
  runner_inv (alter mark_spawn_intent (req_id r) sp) (<[i := SpawnFailed r]> ps) cs.
Proof.
  intros H Hi. destruct (alter_facts mark_spawn_intent sp (req_id r)) as (Hle & Hok & Hs); [done|apply H|].
  eapply inv_give_up; [by eapply inv_spool_change|done|by left].
Qed.

(** [start] brings a supervisor into being. *)
Lemma inv_spawn_step sp ps cs i j r c q :
  runner_inv sp ps cs -> ps !! i = Some (Intended r) -> ps !! j = None ->
  (c = Supervisor (req_id r) /\ q = Launched r j) \/ (c = AwaitingStdin (req_id r) /\ q = Feeding r j) ->
  runner_inv sp (<[j := c]> (<[i := q]> ps)) cs.
Proof.
  intros H Hi Hj Hcq. assert (i <> j) as Hij by congruence.
  destruct (token_not_never _ _ _ i _ (req_id r) H Hi) as [Hns Hnd]; [done|].
  pose proof (inv_proc _ _ _ H i _ Hi) as [Hb Hint]. pose proof (inv_spool _ _ _ H).
  assert (quiet (<[i := q]> ps) cs (req_id r)) as Hq.
  { split; [|by eapply (inv_fresh _ _ _ H)].
    eapply absent_taken; [apply (inv_tok _ _ _ H)|done|done|]. by destruct Hcq as [[_ ->]|[_ ->]]. }
  assert (no_feeder ps (req_id r)) as Hno by (by eapply only_lock).
  assert (runner_inv sp (<[i := q]> ps) cs) as H'.
  { apply (inv_simple sp); [done|done|done| | | | | |by left|].
    - by destruct Hcq as [[_ ->]|[_ ->]].
    - left. by destruct Hcq as [[_ ->]|[_ ->]].
    - right. exists (Intended r). by destruct Hcq as [[_ ->]|[_ ->]].
    - intros r' j'. destruct Hcq as [[_ ->]|[_ ->]]; [done|]. by intros [= <- <-].
    - by destruct Hcq as [[_ ->]|[_ ->]].
    - by destruct Hcq as [[_ ->]|[_ ->]]. }
  eapply inv_child; [done|by rewrite lookup_insert_ne|done|done| | |done|].
  - destruct Hcq as [[-> ->]|[-> ->]]; [right|by left]. split; [done|]. intros k r' j'.
    rewrite lookup_insert_Some. intros [[_ ?]|[_ Hk]]; [done|by eapply Hno].
  - intros k r' j'. rewrite lookup_insert_Some. intros [[_ Hq']|[_ Hk]] E; [|by destruct (Hno k r' j')].
    destruct Hcq as [[_ ->]|[_ ->]]; [done|]. by injection Hq' as <- <-.
  - intros k p. rewrite lookup_insert_Some. intros [[_ <-]|[_ Hk]]; [|by eapply Hnd].
    destruct Hcq as [[_ ->]|[_ ->]]; by intros [].
Qed.

Lemma inv_feed_step sp ps cs i j r :
  runner_inv sp ps cs -> ps !! i = Some (Feeding r j) -> ps !! j = Some (AwaitingStdin (req_id r)) ->
  runner_inv sp (<[j := Supervisor (req_id r)]> (<[i := Launched r j]> ps)) cs.
Proof.
  intros H Hi Hj. assert (i <> j) as Hij by congruence.
  pose proof (inv_proc _ _ _ H i _ Hi) as [Hb Hint]. pose proof (inv_spool _ _ _ H).
  assert (runner_inv sp (<[i := Launched r j]> ps) cs) as H'.
  { apply inv_move; [done..|right; by exists (Feeding r j)|done]. }
  apply (inv_simple sp); [done|done|done|done| |by left|done|done|by left|done].
  right. exists (AwaitingStdin (req_id r)), (req_id r). rewrite lookup_insert_ne by done.
  split_and!; [done..|]. eapply (only_lock _ _ _ i (Launched r j)); [done|by rewrite lookup_insert_eq|done..].
Qed.

Lemma inv_feed_error sp ps cs i j r rep :
  runner_inv sp ps cs -> ps !! i = Some (Feeding r j) -> ps !! j = Some (AwaitingStdin (req_id r)) ->
  reason rep <> Some Reason.SUPERVISOR_NOT_STARTED ->
  runner_inv sp (<[j := Recording rep]> (<[i := SpawnFailed r]> ps)) cs.
Proof.
  intros H Hi Hj Hr. assert (i <> j) as Hij by congruence.
  rewrite insert_insert_ne by done.
  assert (runner_inv sp (<[j := Recording rep]> ps) cs) as H' by (apply inv_move; [done..|by left|done]).
  eapply inv_feed_failed; [done|by rewrite lookup_insert_ne|].
  eapply (feed_quiet _ _ _ i j); [done|by rewrite lookup_insert_ne| |by rewrite lookup_insert_eq]. done.
Qed.

Lemma settle_report_reason id t0 t1 st by_ o e :
  In by_ [None; Some Reason.TIMED_OUT; Some Reason.CANCELLED] ->
  reason (settle_report id t0 t1 st by_ o e) <> Some Reason.SUPERVISOR_NOT_STARTED.
Proof.
  intros Hby. unfold settle_report. destruct st as [[c s]|]; [|done].
  destruct Hby as [<-|[<-|[<-|[]]]]; [|done|done]. cbn. destruct c as [c|]; [by destruct (c =? 0)|by destruct s].
Qed.

Lemma verb_reply_ok sp v r : verb_ok sp v -> proc_ok sp (Answered v (reply_with v r)).
Proof. by destruct v. Qed.

(** A verb that has its report holds nothing and denies nothing. *)
Lemma inv_reconciled sp ps cs i v id r :
  runner_inv sp ps cs -> verb_ok sp v -> runner_inv sp (<[i := reconciled v id r]> ps) cs.
Proof.
  intros H Hv. assert (proc_ok sp (reconciled v id r)) by (destruct v; cbn; try case_match; done).
  apply inv_move; [done|done| |left|]; destruct v; cbn; try destruct (is_terminal (report_state r)); done.
Qed.

Lemma read_report_Ok sp id r : spool_ok sp -> read_report sp id = Ok r -> report_id r = id /\ is_Some (sp !! id).
Proof.
  intros Hok. unfold read_report. case_match; [done|]. destruct (sp !! id) as [d|] eqn:Hd; [|done].
  intros [= <-]. split; [by apply Hok|done].
Qed.

(** A poller that saw the lock free and no intent: the command is nobody's. *)
Lemma never_started sp ps cs i v id r d :
  runner_inv sp ps cs -> ps !! i = Some (ReadingIntent v id r) -> sp !! id = Some d ->
  spawn_intent_file d = false -> quiet ps cs id.
Proof.
  intros H Hi Hd Hint. pose proof (inv_reading _ _ _ H i v id r Hi) as Hl.
  assert (~ has_intent sp id) as Hno by (intros (e & He & ?); congruence). split.
  - intros k p Hk Ht. pose proof (inv_proc _ _ _ H k p Hk) as Hok. pose proof (Hl k p Hk) as Hlp.
    destruct p; cbn in *; try done; injection Ht as E; subst; destruct_and?; done.
  - intros (x & Hx & Hin)%in_map_iff. destruct x as [y q]. cbn in Hx. subst y.
    destruct (inv_cmd _ _ _ H id q Hin) as (e & He & _ & ?). congruence.
Qed.

(** A recorded report that does not deny more than its writer did. *)
Lemma inv_written sp ps cs sp' i q rep :
  runner_inv sp ps cs -> spool_le sp sp' -> spool_ok sp' ->
  (forall k, says_not_started sp' k ->
     says_not_started sp k \/ (k = report_id rep /\ reason rep = Some Reason.SUPERVISOR_NOT_STARTED)) ->
  (reason rep = Some Reason.SUPERVISOR_NOT_STARTED -> exists p, ps !! i = Some p /\ denies p (report_id rep)) ->
  proc_ok sp' q -> tok q = None -> lck q = None ->
  match q with ReadingIntent _ _ _ | Settling _ _ _ _ => False | _ => True end ->
  runner_inv sp' (<[i := q]> ps) cs.
Proof.
  intros H Hle Hok Hs Hd Hq Ht Hl Hm. eapply (inv_simple sp); [done|done|done|done|by left|by left| | | |].
  - by intros r j ->.
  - by intros v id r ->.
  - intros id Hid. destruct (Hs id Hid) as [?|[-> ?]]; [by left|right; by apply Hd].
  - intros id. destruct q; cbn in *; done.
Qed.

Lemma inv_recorded sp ps cs i q rep :
  runner_inv sp ps cs ->
  (reason rep = Some Reason.SUPERVISOR_NOT_STARTED -> exists p, ps !! i = Some p /\ denies p (report_id rep)) ->
  proc_ok sp q -> tok q = None -> lck q = None ->
  match q with ReadingIntent _ _ _ | Settling _ _ _ _ => False | _ => True end ->
  runner_inv (recorded sp rep) (<[i := q]> ps) cs.
Proof.
  intros H Hd Hq Ht Hl Hm. destruct (recorded_facts sp rep) as (Hle & Hok & Hs & _); [apply H|].
  eapply inv_written; eauto using proc_ok_mono.
Qed.

Lemma inv_feed_dead sp ps cs i j r :
  runner_inv sp ps cs -> ps !! i = Some (Feeding r j) -> ps !! j <> Some (AwaitingStdin (req_id r)) ->
  runner_inv sp (<[i := SpawnFailed r]> ps) cs.
Proof.
  intros H Hi Hj. eapply inv_feed_failed; [done|done|].
  destruct (inv_feed _ _ _ H i r j Hi) as [Hc Hone]. split; [|done].
  intros k p Hk Ht. destruct (Hone k p Hk Ht) as [-> ->]. congruence.
Qed.

Lemma inv_read_intent sp ps cs i v id r d :
  runner_inv sp ps cs -> ps !! i = Some (ReadingIntent v id r) -> sp !! id = Some d ->
  runner_inv sp (<[i := Settling v id r (if spawn_intent_file d then Reason.SUPERVISOR_LOST
                                         else Reason.SUPERVISOR_NOT_STARTED)]> ps) cs.
Proof.
  intros H Hi Hd. pose proof (inv_spool _ _ _ H). pose proof (inv_proc _ _ _ H i _ Hi) as Hp.
  apply (inv_simple sp); [done|done|done|done|by left|by left|done|done|by left|].
  intros k [<- Hw]. destruct (spawn_intent_file d) eqn:Hint; [done|].
  apply quiet_no_more; [|by left]. by eapply never_started.
Qed.

Lemma inv_settle sp ps cs i v id r why now r' sp' :
  runner_inv sp ps cs -> ps !! i = Some (Settling v id r why) ->
  write_report sp (settled r now why) = Ok (r', sp') ->
  runner_inv sp' (<[i := reconciled v id r']> ps) cs.
Proof.
  intros H Hi Hw. pose proof (inv_proc _ _ _ H i _ Hi) as (Hv & Hid & _).
  destruct (write_report_facts _ _ _ _ (inv_spool _ _ _ H) Hw) as (Hle & Hok & _ & Hs & _).
  assert (verb_ok sp' v) by (by eapply verb_ok_mono).
  eapply inv_written; [done|done|done|exact Hs| | | | |];
    [|destruct v; cbn; try destruct (is_terminal (report_state r')); done..].
  cbn. intros [= ->]. by exists (Settling v id r Reason.SUPERVISOR_NOT_STARTED).
Qed.

Lemma inv_pid sp ps cs i j r :
  runner_inv sp ps cs -> ps !! i = Some (Launched r j) ->
  runner_inv (alter (write_supervisor_pid j) (req_id r) sp)
    (<[i := Polling (StartVerb r) (req_id r)]> ps) cs.
Proof.
  intros H Hi. pose proof (inv_proc _ _ _ H i _ Hi) as [Hb _].
  destruct (alter_facts (write_supervisor_pid j) sp (req_id r)) as (Hle & Hok & Hs); [done|apply H|].
  eapply inv_simple; [done|done|done|by eapply bound_mono|by left|by left|done|done|by left; auto|done].
Qed.

Lemma inv_poll sp ps cs i v id r :
  runner_inv sp ps cs -> ps !! i = Some (Polling v id) -> read_report sp id = Ok r ->
  runner_inv sp (<[i := if is_terminal (report_state r) then reconciled v id r
                        else ReadingPid v id r]> ps) cs.
Proof.
  intros H Hi Hr. pose proof (inv_proc _ _ _ H i _ Hi) as Hv.
  destruct (read_report_Ok _ _ _ (inv_spool _ _ _ H) Hr) as [Hid Hs].
  case_match; [by apply inv_reconciled|]. apply inv_move; try done. by left.
Qed.

Lemma inv_lock_free sp ps cs i v id r :
  runner_inv sp ps cs -> ps !! i = Some (ProbingLock v id r) ->
  (forall j p, ps !! j = Some p -> holds_start_lock p id = false) ->
  runner_inv sp (<[i := ReadingIntent v id r]> ps) cs.
Proof.
  intros H Hi Hfree. pose proof (inv_spool _ _ _ H). pose proof (inv_proc _ _ _ H i _ Hi) as Hp.
  apply (inv_simple sp); [done|done|done|done|by left|by left|done| |by left|done].
  intros v' id' r' [= <- <- <-] k p Hk Hl%holds_start_lock_lck. rewrite (Hfree k p Hk) in Hl. done.
Qed.

Lemma inv_step s s' : runner_step decode_base64 s s' ->
  runner_inv (spool s) (procs s) (commands s) -> runner_inv (spool s') (procs s') (commands s').
Proof.
  intros [a Hst] H. destruct Hst; cbn in *; pose proof (inv_spool _ _ _ H) as Hok;
    try match goal with Hi : _ !! _ = Some _ |- _ => pose proof (inv_proc _ _ _ H _ _ Hi) as Hpi; cbn in Hpi end;
    try (by (apply inv_move; [done|try done; try (by apply verb_reply_ok; destruct_and?);
                              destruct_and?; done|done|by left|done]));
    eauto using inv_reserve, inv_intent_step, inv_intent_half, inv_give_up, inv_spawn_step, inv_feed_step, inv_feed_error,
      inv_feed_dead, inv_pid, inv_poll, inv_lock_free, inv_read_intent, inv_settle, inv_command, inv_delete.
  5,6: destruct (request_cancel_facts _ _ _ Hok H1) as (? & ? & ? & _);
    apply inv_move; [by eapply inv_spool_change|done|done|by left|done].
  - apply inv_recorded; [done| |done..]. intros _. by exists (SpawnFailed r).
  - case_match; (apply inv_move; [done..|by left|done]).
  - apply inv_reconciled; [done|apply Hpi].
  - case_match; [apply inv_reconciled; [done|apply Hpi]|]. apply inv_move; [done..|by left|done].
  - apply inv_move; [done| |done|by left|done]. cbn. by destruct H1 as [<-|[<-|[]]].
  - apply inv_move; [done| |done|by left|done]. by apply settle_report_reason.
  - by apply inv_recorded.
Qed.

Lemma inv_initial : runner_inv ∅ ∅ [].
Proof.
  split; unfold unique; intros; rewrite ?lookup_empty in *; try done; [constructor|].
  destruct H as [(d & ?%lookup_empty_Some & _)|[? _]]; done.
Qed.

Lemma runner_reachable_inv s :
  runner_reachable decode_base64 s -> runner_inv (spool s) (procs s) (commands s).
Proof.
  intros H. cut (forall a, rtc (runner_step decode_base64) a s ->
    runner_inv (spool a) (procs a) (commands a) -> runner_inv (spool s) (procs s) (commands s)).
  { intros Hc. apply (Hc _ H). apply inv_initial. }
  clear H. intros a Ha. induction Ha as [|a b c Hab _ IH]; [done|]. intros Hi. by eapply IH, inv_step.
Qed.

(** A directory and the request in it survive a step. *)
Lemma step_keeps_requests s s' :
  runner_step decode_base64 s s' -> spool_ok (spool s) -> spool_le (spool s) (spool s').
Proof.
  intros [a Hst] Hok.
  assert (forall g k, (forall d, request_file (g d) = request_file d /\ state_file (g d) = state_file d /\
    (spawn_intent_file d = true -> spawn_intent_file (g d) = true)) -> spool_le (spool s) (alter g k (spool s))) as Halter.
  { intros g k Hg. by apply alter_facts. }
  destruct Hst; cbn in *; try reflexivity; try (by apply Halter).
  - revert H0. unfold reserve. case_match; [done|]. case_match; [case_match; [|done]|]; intros [= <- <-]; [done|].
    intros id d Hd. exists d. rewrite lookup_insert_ne; [done|congruence].
  - by apply recorded_facts.
  - by eapply write_report_facts.
  - by eapply request_cancel_facts.
  - by eapply request_cancel_facts.
  - by apply recorded_facts.
Qed.

Lemma runs_keep_requests s s' :
  runner_reachable decode_base64 s -> rtc (runner_step decode_base64) s s' -> spool_le (spool s) (spool s').
Proof.
  intros Hr Hs. induction Hs as [s|a b c Hab Hbc IH]; [done|]. etrans; [|apply IH; by eapply rtc_r].
  apply step_keeps_requests; [done|by apply runner_reachable_inv].
Qed.

(** A terminal report survives a step. *)
Lemma step_keeps_terminal s s' id d :
  runner_step decode_base64 s s' -> spool_ok (spool s) -> spool s !! id = Some d ->
  is_terminal (report_state (state_file d)) = true ->
  exists d', spool s' !! id = Some d' /\ state_file d' = state_file d.
Proof.
  intros [a Hst] Hok Hd Ht.
  assert (forall g k, (forall e, state_file (g e) = state_file e) ->
    exists d', alter g k (spool s) !! id = Some d' /\ state_file d' = state_file d) as Halter.
  { intros g k Hg. destruct (decide (k = id)) as [->|Hne]; [|exists d; by rewrite lookup_alter_ne].
    exists (g d). rewrite lookup_alter_eq, Hd. by rewrite Hg. }
  destruct Hst; cbn in *; try (by exists d); try (by apply Halter).
  - revert H0. unfold reserve. case_match; [done|]. case_match; [case_match; [|done]|]; intros [= <- <-].
    + by exists d.
    + exists d. rewrite lookup_insert_ne; [done|]. congruence.
  - by eapply recorded_facts.
  - by eapply write_report_facts.
  - destruct (request_cancel_facts _ _ _ Hok H0) as (_ & _ & _ & Hk). by apply Hk.
  - destruct (request_cancel_facts _ _ _ Hok H0) as (_ & _ & _ & Hk). by apply Hk.
  - by eapply recorded_facts.
Qed.

Lemma runs_keep_terminal s s' id d :
  runner_reachable decode_base64 s -> rtc (runner_step decode_base64) s s' -> spool s !! id = Some d ->
  is_terminal (report_state (state_file d)) = true ->
  exists d', spool s' !! id = Some d' /\ state_file d' = state_file d.
Proof.
  intros Hr Hs. revert d. induction Hs as [s|a b c Hab Hbc IH]; intros d Hd Ht; [by exists d|].
  destruct (step_keeps_terminal a b id d Hab) as (e & He & E); [by apply runner_reachable_inv|done|done|].
  destruct (IH) with (d := e) as (f & Hf & F); [by eapply rtc_r|done|by rewrite E|].
  exists f. split; [done|]. congruence.
Qed.

End Preservation.
