(* ===== verification/RunnerProps.v ===== *)
(** * RunnerProps: what the runner promises its callers

    The theorems about [Runner] that a caller relies on: an id runs at most one
    command, a verdict is final and a "not started" is true, every verb answers,
    and the output assembled from the retained log is the output the command
    wrote.  The last group shows where the promises of the comments do not hold:
    a premature [SUPERVISOR_LOST] and output lost without a flag. *)

From S2P Require Import Prelude Text Runner RunnerFacts.

Local Open Scope kobe_scope.

(** ** Samples *)

Definition sample_request : StartRequest :=
  {| protocol := 1; req_id := "job"; argv := ["make"]; cwd := None; timeout_seconds := 60;
     max_output_bytes := 0; stdin_base64 := None |}.

Definition no_base64 (_ : string) : option (list ascii) := None.

(** One step of a concrete run, its side conditions evaluated, and the end of
    the run. *)
Ltac run_step tac := eapply rtc_l; [eexists; tac; solve [reflexivity | vm_compute; reflexivity]|].

Ltac run_end :=
  match goal with |- rtc _ ?a ?b => replace b with a by (vm_compute; reflexivity) end; reflexivity.

(** [start] ran to its answer, and the command is running. *)
Definition sample_running : System :=
  let d := alter (write_supervisor_pid 2) "job" (alter mark_spawn_intent "job"
             (<["job" := fresh_dir sample_request 0]> ∅)) in
  sys d (<[1%nat := Answered (StartVerb sample_request)
                     (Started (bare_report "job" Running (Some 0) None None))]>
          (<[2%nat := Supervising "job"]> ∅))
    [("job", without_stdin sample_request)].

Lemma sample_running_reachable : runner_reachable no_base64 sample_running.
Proof.
  unfold runner_reachable, initial_system.
  run_step ltac:(eapply (step_start _ _ _ _ 1 sample_request)).
  run_step ltac:(eapply (step_reserve _ _ _ _ 1 sample_request 0 Created)).
  run_step ltac:(eapply (step_intent _ _ _ _ 1 sample_request)).
  run_step ltac:(eapply (step_spawn _ _ _ _ 1 2 sample_request)).
  run_step ltac:(eapply (step_command _ _ _ _ 2 "job")).
  run_step ltac:(eapply (step_pid _ _ _ _ 1 2 sample_request)).
  run_step ltac:(eapply (step_poll _ _ _ _ 1 (StartVerb sample_request) "job")).
  run_step ltac:(eapply (step_read_pid _ _ _ _ 1 (StartVerb sample_request) "job")).
  run_step ltac:(eapply (step_probe_pid _ _ _ _ 1 (StartVerb sample_request) "job" _ 2)).
  run_end.
Qed.

(** The intent could not be written, so nothing was spawned. *)
Definition sample_not_started : System :=
  sys (<["job" := with_state (fresh_dir sample_request 0)
                    (bare_report "job" Unknown None (Some 1) (Some Reason.SUPERVISOR_NOT_STARTED))]> ∅)
    (<[1%nat := Polling (StartVerb sample_request) "job"]> ∅) [].

Lemma sample_not_started_reachable : runner_reachable no_base64 sample_not_started.
Proof.
  unfold runner_reachable, initial_system.
  run_step ltac:(eapply (step_start _ _ _ _ 1 sample_request)).
  run_step ltac:(eapply (step_reserve _ _ _ _ 1 sample_request 0 Created)).
  run_step ltac:(eapply (step_intent_error _ _ _ _ 1 sample_request)).
  run_step ltac:(eapply (step_not_started _ _ _ _ 1 sample_request 1)).
  run_end.
Qed.

(** ** Safety *)

(** C29. Whatever the interleaving of [start], [status], [cancel] and supervisor
    processes, and wherever any of them is killed, an execution id runs at most
    one command.  That command is the request the id was reserved with, which
    no later step of any process replaces.  Every stored request has a valid id
    and holds no stdin payload, from its reservation on and whether or not its
    command was ever spawned.  A [start] that was answered [Started] asked for
    exactly the command its id is bound to. *)
Theorem runner_runs_at_most_one_command decode s (H : runner_reachable decode s) :
  List.NoDup (map fst (commands s)) /\
  (forall id r, In (id, r) (commands s) -> exists d, spool s !! id = Some d /\ request_file d = r) /\
  (forall id d, spool s !! id = Some d ->
     is_valid_id id = true /\ stdin_base64 (request_file d) = None /\
     forall s', rtc (runner_step decode) s s' ->
       exists d', spool s' !! id = Some d' /\ request_file d' = request_file d) /\
  (forall i r rep, procs s !! i = Some (Answered (StartVerb r) (Started rep)) ->
     exists d, spool s !! req_id r = Some d /\ same_command (request_file d) r = true).
Proof.
  apply runner_reachable_inv in H as Hi. split; [apply Hi|split; [|split]].
  - intros id r Hin. destruct (inv_cmd _ _ _ Hi id r Hin) as (d & Hd & <- & _). by exists d.
  - intros id d Hd. destruct (inv_spool _ _ _ Hi id d Hd) as (_ & Hv & Hs). split_and!; [done..|].
    intros s' Hs'. destruct (runs_keep_requests decode s s' H Hs' id d Hd) as (d' & ? & ? & _). by exists d'.
  - intros i r rep Hp. exact (inv_proc _ _ _ Hi i _ Hp).
Qed.

Lemma runner_runs_at_most_one_command_witness :
  commands sample_running = [("job", without_stdin sample_request)] /\
  List.NoDup (map fst (commands sample_running)).
Proof.
  split; [reflexivity|].
  exact (proj1 (runner_runs_at_most_one_command no_base64 sample_running sample_running_reachable)).
Defined.

(** C30. A terminal report is never changed by any later step of any process, so
    no verdict is downgraded or rewritten; and a verdict "supervisor not
    started" is true for ever: the command of that id is not in the list of
    spawned commands then, nor in any later state. *)
Theorem runner_verdicts_final_and_sound decode s s' id d
    (Hr : runner_reachable decode s) (Hs : rtc (runner_step decode) s s')
    (Hd : spool s !! id = Some d) (Ht : is_terminal (report_state (state_file d)) = true) :
  exists d', spool s' !! id = Some d' /\ state_file d' = state_file d /\
    (reason (state_file d) = Some Reason.SUPERVISOR_NOT_STARTED -> ~ In id (map fst (commands s'))).
Proof.
  destruct (runs_keep_terminal decode s s' id d Hr Hs Hd Ht) as (d' & Hd' & E).
  exists d'. split_and!; [done..|]. intros Hn.
  assert (runner_reachable decode s') as Hr' by (by unfold runner_reachable; etrans).
  apply runner_reachable_inv in Hr'. apply (inv_never _ _ _ Hr' 0%nat Zombie id).
  left. exists d'. by rewrite E.
Qed.

Lemma runner_verdicts_final_and_sound_witness :
  exists d, spool sample_not_started !! "job" = Some d /\
    reason (state_file d) = Some Reason.SUPERVISOR_NOT_STARTED /\
    exists d', spool sample_not_started !! "job" = Some d' /\ state_file d' = state_file d /\
      (reason (state_file d) = Some Reason.SUPERVISOR_NOT_STARTED ->
       ~ In "job" (map fst (commands sample_not_started))).
Proof.
  eexists. split; [reflexivity|]. split; [reflexivity|].
  apply (runner_verdicts_final_and_sound no_base64 sample_not_started sample_not_started "job");
    [apply sample_not_started_reachable|apply rtc_refl|reflexivity|reflexivity].
Defined.

(** ** Every verb answers *)

(** The polls a [cancel] that has waited so long may still make before its last
    read. *)
Definition polls_left (waited : nat) : nat := ((CANCEL_WAIT - waited + (CANCEL_POLL - 1)) / CANCEL_POLL)%nat.

(** What a verb may still do once [reconcile] has returned. *)
Definition after_reconcile (v : Verb) : nat := match v with CancelVerb => 62 | _ => 0 end%nat.

(** How many steps of its own a verb is at most from its answer. *)
Definition verb_rank (p : Proc) : nat :=
  match p with
  | Starting _ => 10 | Reserved _ => 9 | Intended _ => 8 | Feeding _ _ => 7
  | Launched _ _ | SpawnFailed _ => 6 | Polling v _ => 5 + after_reconcile v
  | ReadingPid v _ _ => 4 + after_reconcile v
  | ProbingLock v _ _ | ProbingPid v _ _ _ => 3 + after_reconcile v
  | ReadingIntent v _ _ => 2 + after_reconcile v | Settling v _ _ _ => 1 + after_reconcile v
  | Cancelling _ => 62 | AwaitingCancel _ waited => 1 + polls_left waited
  | _ => 0
  end%nat.

(** The steps of its own a verb takes at most. *)
Definition verb_bound (v : Verb) : nat := match v with StartVerb _ => 10 | StatusVerb => 5 | CancelVerb => 67 end%nat.

Definition verb_of (p : Proc) : option Verb :=
  match p with
  | Starting r | Reserved r | Intended r | SpawnFailed r => Some (StartVerb r)
  | Feeding r _ | Launched r _ => Some (StartVerb r)
  | Polling v _ | ReadingPid v _ _ | ProbingLock v _ _ | ReadingIntent v _ _ | ProbingPid v _ _ _
  | Settling v _ _ _ | Answered v _ => Some v
  | Cancelling _ | AwaitingCancel _ _ => Some CancelVerb
  | _ => None
  end.

(** [p] made progress to [q] on the same verb. *)
Definition closer (p q : Proc) : Prop := verb_of q = verb_of p /\ (verb_rank q < verb_rank p)%nat.

Section Progress.
Context (decode_base64 : string -> option (list ascii)).

Lemma verb_of_reconciled v id r : verb_of (reconciled v id r) = Some v.
Proof. destruct v; cbn; try case_match; done. Qed.

Lemma rank_reconciled v id r : (verb_rank (reconciled v id r) <= after_reconcile v)%nat.
Proof. destruct v; cbn; try case_match; cbn; lia. Qed.

Lemma polls_left_0 : polls_left 0 = 60%nat.
Proof. reflexivity. Qed.

Lemma polls_left_wait waited later :
  (waited < CANCEL_WAIT)%nat -> (waited + CANCEL_POLL <= later)%nat -> (polls_left later < polls_left waited)%nat.
Proof.
  unfold polls_left, CANCEL_WAIT, CANCEL_POLL. intros Hw Hl. cbn [Nat.sub].
  apply Nat.Div0.div_lt_upper_bound. pose proof (Nat.div_mod_eq (3000 - waited + 49) 50).
  pose proof (Nat.mod_upper_bound (3000 - waited + 49) 50). lia.
Qed.

Lemma polls_left_le waited : (polls_left waited <= 60)%nat.
Proof.
  unfold polls_left, CANCEL_WAIT, CANCEL_POLL. assert (3000 - waited + (50 - 1) <= 3049)%nat as H by lia.
  exact (Nat.Div0.div_le_mono _ _ 50 H).
Qed.

Lemma verb_rank_bound p v : verb_of p = Some v -> (verb_rank p <= verb_bound v)%nat.
Proof.
  destruct p; cbn -[polls_left]; try done; intros [= <-];
    repeat match goal with v : Verb |- _ => destruct v end; cbn -[polls_left]; try lia.
  pose proof (polls_left_le waited). lia.
Qed.

#[local] Ltac by_rank :=
  split; [by rewrite ?verb_of_reconciled|];
  try match goal with |- context [reconciled ?v ?id ?r] => pose proof (rank_reconciled v id r) end;
  rewrite ?polls_left_0; cbn [verb_rank after_reconcile]; rewrite ?polls_left_0; try (apply -> Nat.succ_lt_mono; by apply polls_left_wait); lia.

Lemma fresh_pid (ps : gmap nat Proc) : ps !! fresh (dom ps) = None.
Proof. apply not_elem_of_dom, is_fresh. Qed.

Lemma awaiting_dec (ps : gmap nat Proc) j id :
  {ps !! j = Some (AwaitingStdin id)} + {ps !! j <> Some (AwaitingStdin id)}.
Proof.
  destruct (ps !! j) as [[]|]; try (by right).
  destruct (decide (id0 = id)) as [->|Hne]; [by left|right; congruence].
Defined.

Lemma settle_succeeds sp id r why now :
  spool_ok sp -> report_id r = id -> is_Some (sp !! id) ->
  exists r' sp', write_report sp (settled r now why) = Ok (r', sp').
Proof.
  intros Hok <- [d Hd]. destruct (Hok _ _ Hd) as (E & Hv & _). unfold write_report. cbn.
  rewrite Hv, Hd, E, String.eqb_refl. cbn. case_match; eauto.
Qed.

(** A verb that has not answered has a step of its own. *)
Lemma verb_progress sp ps cs i p :
  runner_inv sp ps cs -> ps !! i = Some p -> (0 < verb_rank p)%nat ->
  exists s', acts decode_base64 (Own i) (sys sp ps cs) s'.
Proof.
  intros H Hi Hr. pose proof (inv_proc _ _ _ H i p Hi) as Hok. pose proof (inv_spool _ _ _ H) as Hsp.
  destruct p; cbn in Hr, Hok; try lia.
  - destruct (reserve sp r 0) as [[res sp']|e] eqn:E; eexists; [by eapply step_reserve|by eapply step_reserve_error].
  - eexists. by eapply step_intent.
  - pose proof (fresh_pid ps) as Hj. destruct (payload decode_base64 r) eqn:E; eexists;
      [by eapply step_spawn|by eapply step_spawn_stdin; rewrite ?E].
  - destruct (awaiting_dec ps child (req_id r)) as [E|E]; eexists; [by eapply step_feed|by eapply step_feed_dead].
  - eexists. by eapply step_pid.
  - eexists. by eapply (step_not_started _ _ _ _ _ _ 0).
  - destruct (read_report sp id) as [r|e] eqn:E; eexists; [by eapply step_poll|by eapply step_poll_error].
  - eexists. by eapply step_read_pid.
  - eexists. by eapply step_lock_held.
  - destruct Hok as (_ & _ & d & Hd). eexists. by eapply step_read_intent.
  - eexists. by eapply step_probe_pid.
  - destruct Hok as (_ & Hid & Hd). destruct (settle_succeeds sp id report why 0 Hsp Hid Hd) as (r' & sp' & E).
    eexists. by eapply step_settle.
  - destruct (request_cancel sp id) as [sp'|e] eqn:E; eexists; [by eapply step_mark_cancel|by eapply step_mark_cancel_error].
  - destruct (read_report sp id) as [r|e] eqn:E; [|eexists; by eapply step_cancel_error].
    destruct (Nat.lt_ge_cases waited CANCEL_WAIT); [|eexists; by eapply step_cancel_answer].
    destruct (is_terminal (report_state r)) eqn:Et; eexists; [by eapply step_cancel_settled|by eapply step_cancel_wait].
Qed.

(** A step of its own brings a verb closer to its answer, a step of anybody else
    leaves it where it is, and only a kill ends it. *)
Lemma verb_steps a s s' i p :
  acts decode_base64 a s s' -> procs s !! i = Some p -> is_Some (verb_of p) -> a <> Killed i ->
  exists q, procs s' !! i = Some q /\ (if decide (a = Own i) then closer p q else q = p).
Proof.
  intros Hst Hi Hv Ha. destruct Hst; cbn in *; rewrite ?lookup_insert, ?lookup_delete;
    repeat case_decide; subst; simplify_map_eq; try (by cbn in Hv; destruct Hv); try done; try (by eexists).
  all: eexists; split; [done|]; try destruct res; repeat case_match; by_rank.
Qed.

(** ** Runs *)

Inductive run : System -> list Actor -> System -> Prop :=
| run_start s : run s [] s
| run_act s s' s'' actors a : run s actors s' -> acts decode_base64 a s' s'' -> run s (actors ++ [a]) s''.

Lemma run_stays_reachable s actors s' :
  runner_reachable decode_base64 s -> run s actors s' -> runner_reachable decode_base64 s'.
Proof. intros Hr Hrun. induction Hrun; [done|]. eapply rtc_r; [by apply IHHrun|]. by eexists. Qed.

Definition own_steps (i : nat) (actors : list Actor) : nat :=
  length (List.filter (fun a => match a with Own j => Nat.eqb j i | _ => false end) actors).

Lemma own_steps_snoc i actors a :
  own_steps i (actors ++ [a]) = (own_steps i actors + match a with Own j => if Nat.eqb j i then 1 else 0 | _ => 0 end)%nat.
Proof.
  unfold own_steps. rewrite List.filter_app, length_app. destruct a; cbn; try lia. by destruct (Nat.eqb _ _).
Qed.

Lemma run_counts s actors s' i p v :
  run s actors s' -> procs s !! i = Some p -> verb_of p = Some v -> ~ In (Killed i) actors ->
  exists q, procs s' !! i = Some q /\ verb_of q = Some v /\ (own_steps i actors + verb_rank q <= verb_rank p)%nat.
Proof.
  intros Hrun Hi Hv. induction Hrun as [s|s s1 s2 actors a Hrun IH Hact]; intros Hk; [by exists p|].
  destruct IH as (q & Hq & Hqv & Hrank); [done|intros Hin; apply Hk, in_or_app; by left|].
  destruct (verb_steps _ _ _ i q Hact Hq) as (q' & Hq' & Hc); [by rewrite Hqv|intros ->; apply Hk, in_or_app; right; by left|].
  exists q'. split; [done|]. rewrite own_steps_snoc. case_decide as E.
  - subst a. destruct Hc as [Hc1 Hc2]. rewrite Nat.eqb_refl. split; [congruence|lia].
  - subst q'. split; [done|]. destruct a as [|j|]; try lia. destruct (Nat.eqb_spec j i); [congruence|lia].
Qed.
End Progress.

(** C34. A [start], [status] or [cancel] that is not killed answers.  In every run
    of the system from a reachable state, whatever the other processes do, it
    takes at most 10, 5 or 67 steps of its own (a [cancel] polls at most 60
    times, at least 50 ms apart, before its last read), and until it has
    answered it has a next step.  A locked report write and the hand-over of
    stdin are one step each: the processes on the other side of the lock and of
    the pipe are taken to be scheduled. *)
Theorem runner_verbs_answer decode s i p v actors s'
    (Hr : runner_reachable decode s) (Hi : procs s !! i = Some p) (Hv : verb_of p = Some v)
    (Hrun : run decode s actors s') (Hk : ~ In (Killed i) actors) :
  (own_steps i actors <= verb_bound v)%nat /\
  exists q, procs s' !! i = Some q /\
    ((exists reply, q = Answered v reply) \/ exists s'', acts decode (Own i) s' s'').
Proof.
  destruct (run_counts decode _ _ _ _ _ _ Hrun Hi Hv Hk) as (q & Hq & Hqv & Hrank).
  pose proof (verb_rank_bound _ _ Hv). split; [lia|]. exists q. split; [done|].
  destruct (Nat.eq_0_gt_0_cases (verb_rank q)) as [E|E].
  - left. destruct q; cbn in E, Hqv; try lia; try done. injection Hqv as ->. by eexists.
  - right. pose proof (runner_reachable_inv _ _ (run_stays_reachable _ _ _ _ Hr Hrun)) as Hinv.
    destruct s' as [sp ps cs]. by eapply verb_progress.
Qed.

(** A [start] whose command was not started, up to its answer. *)
Lemma runner_verbs_answer_witness :
  exists actors s' reply, run no_base64 sample_not_started actors s' /\
    procs s' !! 1%nat = Some (Answered (StartVerb sample_request) reply) /\ (own_steps 1 actors <= 10)%nat.
Proof.
  eexists [Own 1%nat], _, _.
  assert (acts no_base64 (Own 1%nat) sample_not_started
    (sys (spool sample_not_started)
       (<[1%nat := Answered (StartVerb sample_request) (Started (bare_report "job" Unknown None (Some 1)
            (Some Reason.SUPERVISOR_NOT_STARTED)))]> (procs sample_not_started)) [])) as Hstep.
  { refine (step_poll no_base64 (spool sample_not_started) (procs sample_not_started) [] 1 (StartVerb sample_request) "job"
      (bare_report "job" Unknown None (Some 1) (Some Reason.SUPERVISOR_NOT_STARTED)) _ _); vm_compute; reflexivity. }
  assert (run no_base64 sample_not_started [Own 1%nat] _) as Hrun by exact (run_act _ _ _ _ [] _ (run_start _ _) Hstep).
  split; [exact Hrun|]. split; [vm_compute; reflexivity|].
  refine (proj1 (runner_verbs_answer no_base64 sample_not_started 1
    (Polling (StartVerb sample_request) "job") (StartVerb sample_request) _ _
    sample_not_started_reachable _ _ Hrun _)); [vm_compute; reflexivity|reflexivity|].
  by intros [|[]].
Defined.

(** ** A premature verdict *)

(** The liveness check does not err towards "still running": a poller reads
    the pid file before it exists, the starter then records the pid and
    releases its lock, and the poller finds the lock free and the intent
    present.  It settles the execution as lost while the supervisor is alive
    and the command is running, and no later step can record the outcome. *)
Theorem runner_lost_verdict_race decode :
  exists s i d, runner_reachable decode s /\
    procs s !! i = Some (Supervising "job") /\ spool s !! "job" = Some d /\
    supervisor_pid_file d = Some i /\ In ("job", request_file d) (commands s) /\
    report_state (state_file d) = Unknown /\
    reason (state_file d) = Some Reason.SUPERVISOR_LOST /\
    forall s', rtc (runner_step decode) s s' ->
      exists d', spool s' !! "job" = Some d' /\ state_file d' = state_file d.
Proof.
  assert (exists s, runner_reachable decode s /\ procs s !! 2%nat = Some (Supervising "job") /\
    exists d, spool s !! "job" = Some d /\ supervisor_pid_file d = Some 2%nat /\
      In ("job", request_file d) (commands s) /\ report_state (state_file d) = Unknown /\
      reason (state_file d) = Some Reason.SUPERVISOR_LOST) as (s & Hr & Hp & d & Hd & Hpid & Hc & Hu & Hl).
  { eexists. split; [unfold runner_reachable, initial_system|].
    { run_step ltac:(eapply (step_start _ _ _ _ 1 sample_request)).
      run_step ltac:(eapply (step_reserve _ _ _ _ 1 sample_request 0 Created)).
      run_step ltac:(eapply (step_intent _ _ _ _ 1 sample_request)).
      run_step ltac:(eapply (step_spawn _ _ _ _ 1 2 sample_request)).
      run_step ltac:(eapply (step_status _ _ _ _ 3 "job")).
      run_step ltac:(eapply (step_poll _ _ _ _ 3 StatusVerb "job")).
      run_step ltac:(eapply (step_read_pid _ _ _ _ 3 StatusVerb "job")).
      run_step ltac:(eapply (step_command _ _ _ _ 2 "job")).
      run_step ltac:(eapply (step_pid _ _ _ _ 1 2 sample_request)).
      eapply rtc_l; [eexists; eapply (step_lock_free _ _ _ _ 3 StatusVerb "job"); [vm_compute; reflexivity|]|].
      { intros j p Hj. repeat (apply lookup_insert_Some in Hj as [[<- <-]|[? Hj]]; [first [reflexivity|congruence]|]).
        by rewrite lookup_empty in Hj. }
      run_step ltac:(eapply (step_read_intent _ _ _ _ 3 StatusVerb "job")).
      run_step ltac:(eapply (step_settle _ _ _ _ 3 StatusVerb "job" _ Reason.SUPERVISOR_LOST 5)).
      reflexivity. }
    split; [vm_compute; reflexivity|]. eexists. split; [vm_compute; reflexivity|].
    split_and!; try (vm_compute; reflexivity). by left. }
  exists s, 2%nat, d. split_and!; [done..|]. intros s' Hs. by eapply (runs_keep_terminal decode); [| |done|rewrite Hu].
Qed.

(** ** Output *)

(** What the stream file keeps of [output] under a cap, 0 being no cap. *)
Definition retained (cap : Z) (output : list ascii) : list ascii :=
  if cap =? 0 then output else take (Z.to_nat cap) output.

Definition over_cap (cap : Z) (output : list ascii) : bool :=
  negb (cap =? 0) && (cap <? Z.of_nat (length output)).

Definition output_of (reads : list PumpRead) : list ascii := concat (map buffer reads).

(** A [read] into the pump's 64 KiB buffer that was not the end of the stream. *)
Definition read_ok (r : PumpRead) : Prop := 0 < Z.of_nat (length (buffer r)) <= 65536.

Section Pump.
Context (cap : Z) (Hcap : 0 <= cap <= u64_max).

Lemma pump_snoc o reads r : pump o cap (reads ++ [r]) = pump_read o cap (pump o cap reads) r.
Proof. unfold pump. by rewrite fold_left_app. Qed.

Lemma output_snoc reads r : output_of (reads ++ [r]) = output_of reads ++ buffer r.
Proof. unfold output_of. rewrite map_app, concat_app. cbn. by rewrite app_nil_r. Qed.

Lemma pump_written o reads :
  Forall read_ok reads ->
  let total := Z.of_nat (length (output_of reads)) in
  written (pump o cap reads) = if cap =? 0 then total else Z.min cap total.
Proof.
  induction reads as [|r reads IH] using rev_ind; [intros _; cbn; case_match; lia|].
  intros [Hf [Hr _]%Forall_cons]%Forall_app. specialize (IH Hf). revert IH. red in Hr.
  rewrite pump_snoc, output_snoc, length_app. unfold pump_read, saturating_sub. cbn. intros IH.
  rewrite IH. unfold u64_max in *.
  destruct (cap =? 0) eqn:E; [cbn; lia|]. case_match; cbn; lia.
Qed.

(** No more is kept than was read. *)
Lemma pump_length reads :
  Forall read_ok reads -> (length (log_file (pump true cap reads)) <= length (output_of reads))%nat.
Proof.
  induction reads as [|r reads IH] using rev_ind; [done|].
  intros [Hf _]%Forall_app. specialize (IH Hf). rewrite pump_snoc, output_snoc, length_app. unfold pump_read. cbv zeta.
  case_match; cbn [log_file]; [lia|]. destruct (failed r); rewrite length_app, ?length_take; lia.
Qed.

(** Output that was not flagged is all there, whatever writes failed. *)
Lemma pump_unflagged reads :
  Forall read_ok reads -> truncated (pump true cap reads) = false ->
  log_file (pump true cap reads) = output_of reads.
Proof.
  induction reads as [|r reads IH] using rev_ind; [done|].
  intros [Hf _]%Forall_app. specialize (IH Hf). rewrite pump_snoc, output_snoc. unfold pump_read. cbv zeta.
  case_match; [done|]. cbn. rewrite !orb_false_iff. intros [[Ht Hn] Hw]. rewrite IH by done.
  destruct (failed r); [done|]. by rewrite take_ge by lia.
Qed.

#[local] Ltac by_bools := apply eq_true_iff_eq; rewrite ?orb_true_iff, ?andb_true_iff, ?Z.ltb_lt; cbn; lia.

(** With no failed write, the cap decides. *)
Lemma pump_exact reads :
  Forall read_ok reads -> Forall (fun r => failed r = None) reads ->
  log_file (pump true cap reads) = retained cap (output_of reads) /\
  truncated (pump true cap reads) = over_cap cap (output_of reads).
Proof.
  induction reads as [|r reads IH] using rev_ind; intros H1 H2; [unfold retained, over_cap; cbn;
    destruct (cap =? 0) eqn:E; cbn; rewrite ?take_nil; split; try done; symmetry; apply Z.ltb_ge; lia|].
  apply Forall_app in H1 as [H1 [Hr _]%Forall_cons], H2 as [H2 [Hw _]%Forall_cons].
  destruct (IH H1 H2) as [IHl IHt]. pose proof (pump_written true reads H1) as Hwr. cbn in Hwr.
  rewrite pump_snoc, output_snoc. unfold pump_read, over_cap, retained, read_ok, saturating_sub, u64_max in *.
  rewrite IHl, IHt, Hw, length_app. cbn.
  destruct (cap =? 0) eqn:E; cbn.
  - rewrite take_ge by lia. split; [done|]. rewrite !orb_false_r. apply Z.ltb_ge. lia.
  - rewrite Hwr, take_app. case_match; cbn.
    + split; [|symmetry; apply Z.ltb_lt; lia].
      replace (Z.to_nat cap - _)%nat with 0%nat by lia. by rewrite take_0, app_nil_r.
    + split; [|by_bools]. f_equal. destruct (Z.le_gt_cases (Z.of_nat (length (buffer r))) (cap - Z.of_nat (length (output_of reads)))).
      * by rewrite !take_ge by lia.
      * f_equal. lia.
Qed.

(** Without its file the pump flags only what the cap would have dropped. *)
Lemma pump_unopened reads :
  Forall read_ok reads ->
  log_file (pump false cap reads) = [] /\ truncated (pump false cap reads) = over_cap cap (output_of reads).
Proof.
  induction reads as [|r reads IH] using rev_ind; intros H1; [unfold over_cap; cbn;
    destruct (cap =? 0) eqn:E; cbn; split; try done; symmetry; apply Z.ltb_ge; lia|].
  apply Forall_app in H1 as [H1 [Hr _]%Forall_cons].
  destruct (IH H1) as [IHl IHt]. pose proof (pump_written false reads H1) as Hwr. cbn in Hwr.
  rewrite pump_snoc, output_snoc. unfold pump_read, over_cap, read_ok, saturating_sub, u64_max in *.
  rewrite IHl, IHt, length_app. cbn. destruct (cap =? 0) eqn:E; cbn; [split; [done|by_bools]|].
  rewrite Hwr. case_match; cbn; (split; [done|by_bools]).
Qed.
End Pump.

(** ** Tailing *)

Section Tail.
Context (encode : list ascii -> string) (decode : string -> option (list ascii)).
Context (Hcodec : forall l, decode (encode l) = Some l).
Context (id stream : string) (max_bytes : Z).

(** A caller that polls with the [next_offset] of the last chunk, appends what
    it decodes and keeps the last flag it was told. *)
Record Reader : Type := { got : list ascii; at_offset : Z; flagged : bool }.

(** A poll of a spool while the stream file holds [snd view]. *)
Definition tail_poll (client : Reader) (view : Spool * list ascii) : Reader :=
  match logs encode (fst view) id stream (snd view) (at_offset client) max_bytes with
  | Ok c => {| got := got client ++ default [] (decode (data_base64 c)); at_offset := next_offset c;
               flagged := chunk_truncated c |}
  | Err _ => client
  end.

Definition window : nat := Z.to_nat (Z.max 1 (Z.min max_bytes MAX_LOG_CHUNK_BYTES)).

(** The caller holds a prefix of the file and knows how long it is. *)
Definition holds_prefix (c : Reader) (log : list ascii) : Prop :=
  got c `prefix_of` log /\ at_offset c = Z.of_nat (length (got c)).

Lemma tail_poll_answered c sp log s report :
  holds_prefix c log -> log_stream_of stream = Some s -> read_report sp id = Ok report ->
  tail_poll c (sp, log) =
    {| got := take (length (got c) + window) log;
       at_offset := Z.of_nat (length (take (length (got c) + window) log)); flagged := stream_truncated report s |}.
Proof.
  intros [[rest ->] Ho] Hs Hr. unfold tail_poll, logs, read_chunk. cbn [fst snd]. rewrite Hs, Hr.
  unfold chunk_window. cbn [next_offset data_base64 chunk_truncated].
  fold window. rewrite Hcodec, length_app, Ho. cbn [default].
  replace (Z.to_nat (Z.min (Z.of_nat (length (got c))) _)) with (length (got c)) by lia.
  rewrite drop_app_length, take_app_add, length_app. f_equal. lia.
Qed.

Lemma tail_poll_refused c sp log :
  log_stream_of stream = None \/ (exists e, read_report sp id = Err e) -> tail_poll c (sp, log) = c.
Proof.
  unfold tail_poll, logs, read_chunk. cbn [fst snd]. intros [->|[e He]]; [done|]. rewrite He.
  by destruct (log_stream_of stream).
Qed.

Lemma tail_poll_holds c sp log : holds_prefix c log -> holds_prefix (tail_poll c (sp, log)) log.
Proof.
  intros Hc. destruct (log_stream_of stream) as [s|] eqn:Hs; [|rewrite tail_poll_refused; auto].
  destruct (read_report sp id) as [r|e] eqn:Hr; [|rewrite tail_poll_refused; eauto].
  rewrite (tail_poll_answered _ _ _ s r) by done. split; [apply prefix_take|done].
Qed.

Lemma holds_prefix_grows c log log' : holds_prefix c log -> log `prefix_of` log' -> holds_prefix c log'.
Proof. intros [Hp Ho] Hl. split; [by etrans|done]. Qed.

(** Polling a file that grows. *)
Lemma tail_views views log c :
  StronglySorted prefix (map snd views ++ [log]) -> holds_prefix c (hd log (map snd views)) ->
  holds_prefix (fold_left tail_poll views c) log.
Proof.
  revert c. induction views as [|[sp v] views IH]; intros c Hs Hc; cbn in *; [done|].
  apply StronglySorted_inv in Hs as [Hs Hv]. apply IH; [done|].
  eapply holds_prefix_grows; [by apply tail_poll_holds|].
  destruct views as [|w views]; cbn in *; by apply Forall_cons in Hv as [].
Qed.

(** Polling a file that no longer grows reads all of it. *)
Lemma tail_done n sp log s report c :
  log_stream_of stream = Some s -> read_report sp id = Ok report ->
  holds_prefix c log -> (length log <= length (got c) + n)%nat -> (0 < n)%nat ->
  fold_left tail_poll (replicate n (sp, log)) c =
    {| got := log; at_offset := Z.of_nat (length log); flagged := stream_truncated report s |}.
Proof.
  intros Hs Hr. revert c. induction n as [|n IH]; intros c Hc Hn Hpos; [lia|]. cbn [replicate fold_left].
  rewrite (tail_poll_answered _ _ _ s report) by done. assert (1 <= window)%nat by (unfold window; lia).
  destruct n as [|n].
  - cbn [replicate fold_left]. by rewrite take_ge by lia.
  - apply IH; [|cbn [got]; rewrite length_take; lia|lia]. split; [apply prefix_take|done].
Qed.

Lemma chunk_bounded sp log offset c :
  0 <= offset -> logs encode sp id stream log offset max_bytes = Ok c ->
  next_offset c - chunk_offset c <= MAX_LOG_CHUNK_BYTES /\
  (more c = true -> chunk_offset c < next_offset c).
Proof.
  intros Ho. unfold logs, read_chunk. destruct (log_stream_of stream); [|done].
  destruct (read_report sp id); [|done]. intros [= <-]. unfold chunk_window, MAX_LOG_CHUNK_BYTES.
  cbn [next_offset chunk_offset more]. rewrite length_take, length_drop, Z.ltb_lt. lia.
Qed.

End Tail.

Lemma written_report_is_read sp r sp' : write_report sp r = Ok (r, sp') -> read_report sp' (report_id r) = Ok r.
Proof.
  unfold write_report, read_report. destruct (is_valid_id _); [|done]. cbn.
  destruct (sp !! report_id r) as [d|] eqn:Hd; [|done]. case_match; [done|].
  case_match; [intros [= E <-]; rewrite Hd; congruence|intros [= <-]]. by rewrite lookup_insert_eq.
Qed.

Lemma settle_report_fields id t0 t1 status ended_by o e :
  let r := settle_report id t0 t1 status ended_by o e in
  report_id r = id /\ stdout_truncated r = o /\ stderr_truncated r = e.
Proof. unfold settle_report. by repeat case_match. Qed.

(** C33. Output is exact end to end.  Two pumps copy what a command writes to its
    stream files (opened for append) and have read it all when the supervisor
    settles; its report becomes the verdict.  A caller polls [logs] any number
    of times before that, with the offset it was given, while the spool is
    anything and the file only grows, and then on.  It ends up with the file,
    each byte once, in chunks of at most 256 KiB; and the truncation flag the
    runner answers says whether the output is complete: when it is clear the
    caller has every byte, whatever writes failed, and when none failed the
    caller has exactly the output up to the cap and the flag is set exactly
    when the cap dropped something. *)
Theorem runner_output_exact encode decode cap reads views sp sp' id stream s started finished status ended_by max_bytes n
    (Hcodec : forall l, decode (encode l) = Some l)
    (Hcap : 0 <= cap <= u64_max) (Hreads : Forall read_ok (reads s)) (Hs : log_stream_of stream = Some s)
    (Hreport : let report := supervisor_report id started finished status ended_by (pump true cap (reads Stdout))
                               (pump true cap (reads Stderr)) in
               write_report sp report = Ok (report, sp'))
    (Hviews : StronglySorted prefix (map snd views ++ [log_file (pump true cap (reads s))]))
    (Hn : Z.of_nat (length (output_of (reads s))) <= Z.of_nat n) (Hpos : (0 < n)%nat) :
  let log := log_file (pump true cap (reads s)) in
  let client := fold_left (tail_poll encode decode id stream max_bytes) (views ++ replicate n (sp', log))
                  {| got := []; at_offset := 0; flagged := false |} in
  got client = log /\
  (flagged client = false -> got client = output_of (reads s)) /\
  (Forall (fun r => failed r = None) (reads s) ->
     got client = retained cap (output_of (reads s)) /\ flagged client = over_cap cap (output_of (reads s))) /\
  (forall sp log offset c, 0 <= offset -> logs encode sp id stream log offset max_bytes = Ok c ->
     next_offset c - chunk_offset c <= MAX_LOG_CHUNK_BYTES /\
     (more c = true -> chunk_offset c < next_offset c)).
Proof.
  cbv zeta in *. set (log := log_file _). set (report := supervisor_report _ _ _ _ _ _ _) in *.
  destruct (settle_report_fields id started finished status ended_by (truncated (pump true cap (reads Stdout)))
    (truncated (pump true cap (reads Stderr)))) as (Hid & Ho & He).
  change (settle_report _ _ _ _ _ _ _) with report in *.
  assert (read_report sp' id = Ok report) as Hr by (rewrite <- Hid; by apply written_report_is_read with sp).
  assert (stream_truncated report s = truncated (pump true cap (reads s))) as Hflag by (destruct s; cbn; congruence).
  pose proof (pump_length cap _ Hreads) as Hlen. fold log in Hlen.
  rewrite fold_left_app, (tail_done encode decode Hcodec _ _ _ n sp' log s report) by
    (done || lia || (apply tail_views; [done|done|]; split; [apply prefix_nil|done])).
  cbn [got flagged]. rewrite Hflag. split_and!; [done|by apply pump_unflagged| |].
  - intros Hw. by apply pump_exact.
  - intros sp1 log1 offset c. by apply chunk_bounded.
Qed.

Definition sample_reads : list PumpRead :=
  [{| buffer := String.list_ascii_of_string "hello "; failed := None |};
   {| buffer := String.list_ascii_of_string "world"; failed := None |}].

Definition sample_streams (s : LogStream) : list PumpRead := match s with Stdout => sample_reads | Stderr => [] end.

(** The reservation of the sample, and the spool after its command has exited. *)
Definition sample_reserved : Spool := <["job" := fresh_dir sample_request 0]> ∅.

Definition sample_settled : Spool :=
  recorded sample_reserved
    (supervisor_report "job" 0 5 (Some {| status_code := Some 0; status_signal := None |}) None
       (pump true 8 (sample_streams Stdout)) (pump true 8 (sample_streams Stderr))).

Lemma runner_output_exact_witness :
  let client := fold_left
    (tail_poll String.string_of_list_ascii (fun s => Some (String.list_ascii_of_string s)) "job" "stdout" 3)
    ([(∅, []); (sample_reserved, String.list_ascii_of_string "hell")]
       ++ replicate 11 (sample_settled, log_file (pump true 8 sample_reads)))
    {| got := []; at_offset := 0; flagged := false |} in
  got client = retained 8 (output_of sample_reads) /\ flagged client = true.
Proof.
  refine (proj1 (proj2 (proj2 (runner_output_exact String.string_of_list_ascii (fun s => Some (String.list_ascii_of_string s)) 8
    sample_streams [(∅, []); (sample_reserved, String.list_ascii_of_string "hell")] sample_reserved sample_settled "job"
    "stdout" Stdout 0 5 (Some {| status_code := Some 0; status_signal := None |}) None 3 11 _ _ _ _ _ _ _ _))) _).
  - intros l. by rewrite String.list_ascii_of_string_of_list_ascii.
  - unfold u64_max. lia.
  - repeat constructor; cbn; lia.
  - reflexivity.
  - vm_compute. reflexivity.
  - repeat constructor; first [apply prefix_nil | by exists (String.list_ascii_of_string "o wo")].
  - cbn. lia.
  - lia.
  - repeat constructor.
Defined.

(** What is not flagged is complete: whatever writes fail, a stream whose
    truncation flag is clear holds every byte the command wrote.  The one gap
    is a stream file that could not be opened: nothing is kept and, below the
    cap, nothing is flagged. *)
Theorem runner_truncation_flag cap reads
    (Hcap : 0 <= cap <= u64_max) (Hreads : Forall read_ok reads) :
  (truncated (pump true cap reads) = false -> log_file (pump true cap reads) = output_of reads) /\
  log_file (pump false cap reads) = [] /\
  truncated (pump false cap reads) = over_cap cap (output_of reads).
Proof.
  split; [by apply pump_unflagged|]. by apply pump_unopened.
Qed.

Lemma runner_truncation_flag_witness :
  output_of sample_reads <> [] /\
  log_file (pump false 0 sample_reads) = [] /\ truncated (pump false 0 sample_reads) = false.
Proof.
  split; [done|].
  refine (proj2 (runner_truncation_flag 0 sample_reads _ _)).
  - unfold u64_max. lia.
  - repeat constructor; cbn; lia.
Defined.
