(* ===== verification/Execution.v ===== *)
(** * Execution: the durable record of one Sandbox command

    Model of [src/crd/execution.rs]: the execution record, the state changes a
    record may go through ([transition_execution]), the identity of a request
    ([request_digest], [legacy_request_digest], [reuse_verdict]) and the name
    that makes a reservation a CREATE ([execution_name]).  SHA-256 is a
    parameter: the theorems are about the bytes fed to it. *)

From S2P Require Import Prelude Text.

Module ExecutionState.
Inductive t : Type := Queued | Running | Succeeded | Failed | Cancelled | TimedOut | Unknown.
#[global] Instance eq_dec : EqDecision t. Proof. solve_decision. Defined.
Definition is_terminal (s : t) : bool :=
  match s with Succeeded | Failed | Cancelled | TimedOut | Unknown => true | Queued | Running => false end.
End ExecutionState.

Record SandboxExecutionTarget : Type := {
  target_namespace : string;
  target_pod_name : string;
  target_pod_uid : string;
  target_container : string;
  target_runner_path : string;
}.
#[global] Instance SandboxExecutionTarget_eq_dec : EqDecision SandboxExecutionTarget.
Proof. solve_decision. Defined.

Record SandboxExecutionSpec : Type := {
  exec_lease_name : option string;
  exec_lease_uid : string;
  exec_pod_uid : string;
  exec_idempotency_key : string;
  exec_request_digest : string;
  exec_timeout : string;
  exec_detached : bool;
  exec_runner_managed : option bool;
  exec_target : option SandboxExecutionTarget;
}.
#[global] Instance SandboxExecutionSpec_eq_dec : EqDecision SandboxExecutionSpec.
Proof. solve_decision. Defined.

Inductive ExecutionDeadlineSource : Type := DeadlineTimeout | DeadlineLease.
#[global] Instance ExecutionDeadlineSource_eq_dec : EqDecision ExecutionDeadlineSource.
Proof. solve_decision. Defined.

Record SandboxExecutionStatus : Type := {
  exec_state : ExecutionState.t;
  exec_started_at : option string;
  exec_finished_at : option string;
  exec_exit_code : option Z;
  exec_reason : option string;
  exec_verdict_deadline : option string;
  exec_deadline : option string;
  exec_deadline_source : option ExecutionDeadlineSource;
}.
#[global] Instance SandboxExecutionStatus_eq_dec : EqDecision SandboxExecutionStatus.
Proof. solve_decision. Defined.

Definition default_execution_status : SandboxExecutionStatus :=
  {| exec_state := ExecutionState.Queued; exec_started_at := None; exec_finished_at := None;
     exec_exit_code := None; exec_reason := None; exec_verdict_deadline := None; exec_deadline := None;
     exec_deadline_source := None |}.

(** ** State changes *)

Inductive ExecutionTransitionError : Type :=
| AlreadyTerminal (from to : ExecutionState.t)
| InvalidTransition (from to : ExecutionState.t)
| ExitCodeRequired (state : ExecutionState.t)
| ExitCodeForbidden (state : ExecutionState.t).

Definition transition_allowed (from to : ExecutionState.t) : bool :=
  match from, to with
  | ExecutionState.Queued, (ExecutionState.Running | ExecutionState.Cancelled | ExecutionState.TimedOut
                           | ExecutionState.Unknown) => true
  | ExecutionState.Running, (ExecutionState.Succeeded | ExecutionState.Failed | ExecutionState.Cancelled
                            | ExecutionState.TimedOut | ExecutionState.Unknown) => true
  | _, _ => false
  end.

(** An exit code is a claim that the process ran to completion. *)
Definition carries_exit_code (s : ExecutionState.t) : bool :=
  match s with ExecutionState.Succeeded | ExecutionState.Failed => true | _ => false end.

Definition transition_execution (from to : ExecutionState.t) (exit_code : option Z)
  : result ExecutionState.t ExecutionTransitionError :=
  if bool_decide (from = to) then Ok from
  else if ExecutionState.is_terminal from then Err (AlreadyTerminal from to)
  else if negb (transition_allowed from to) then Err (InvalidTransition from to)
  else if carries_exit_code to && is_none exit_code then Err (ExitCodeRequired to)
  else if negb (carries_exit_code to) && is_some exit_code then Err (ExitCodeForbidden to)
  else Ok to.

(** ** Request identity *)

(** [u64::to_be_bytes] of a length: eight bytes, most significant first. *)
Fixpoint be_bytes (count : nat) (n : Z) : string :=
  match count with
  | O => ""
  | S count => be_bytes count (n / 256) +:+ String (ascii_of_N (Z.to_N (n mod 256))) ""
  end.

Definition u64_be (n : Z) : string := be_bytes 8 n.

(** [update(len.to_be_bytes()); update(bytes)] *)
Definition framed (s : string) : string := u64_be (str_len s) +:+ s.

Definition byte (n : Z) : string := String (ascii_of_N (Z.to_N n)) "".

Definition concat_strings (l : list string) : string := fold_right String.append "" l.

(** Every byte [request_digest_with_mode] feeds to the hasher, in order. *)
Definition request_bytes (argv : list string) (cwd : option string) (timeout : string)
    (container : option string) (detached : option bool) (stdin : option string) : string :=
  u64_be (Z.of_nat (length argv)) +:+ concat_strings (map framed argv)
  +:+ match cwd with Some cwd => byte 1 +:+ framed cwd | None => byte 0 end
  +:+ framed timeout
  +:+ match container with Some container => framed container | None => "" end
  +:+ match detached with Some true => byte 1 | Some false => byte 0 | None => "" end
  +:+ match stdin with Some stdin => byte 2 +:+ framed stdin | None => "" end.

Definition name_bytes (lease_uid idempotency_key : string) : string :=
  framed lease_uid +:+ idempotency_key.

Section digests.
(** [format!("{:x}", Sha256::digest(bytes))] *)
Variable sha256_hex : string -> string.

Definition request_digest (argv : list string) (cwd : option string) (timeout container : string)
    (detached : bool) (stdin : option string) : string :=
  sha256_hex (request_bytes argv cwd timeout (Some container) (Some detached) stdin).

Definition legacy_request_digest (argv : list string) (cwd : option string) (timeout : string) : string :=
  sha256_hex (request_bytes argv cwd timeout None None None).

Definition execution_name (lease_uid idempotency_key : string) : string :=
  String.substring 0 37 ("sbxe-" +:+ sha256_hex (name_bytes lease_uid idempotency_key)).
End digests.

Inductive ReuseVerdict : Type := SameRequest | ReuseConflict | ForeignRecord.

Definition reuse_verdict (existing : SandboxExecutionSpec) (lease_uid request_digest : string) : ReuseVerdict :=
  if negb (String.eqb (exec_lease_uid existing) lease_uid) then ForeignRecord
  else if String.eqb (exec_request_digest existing) request_digest then SameRequest
  else ReuseConflict.

(** ** Facts *)

Lemma be_bytes_length count n : String.length (be_bytes count n) = count.
Proof.
  revert n. induction count as [|count IH]; intros n; cbn; [done|].
  pose proof (str_len_app (be_bytes count (n / 256)) (String (ascii_of_N (Z.to_N (n mod 256))) "")) as H.
  unfold str_len in H. rewrite IH in H. cbn in H. lia.
Qed.

(** Two strings cut at the same length. *)
Lemma app_eq_length (a b x y : string) :
  String.length a = String.length b -> a +:+ x = b +:+ y -> a = b /\ x = y.
Proof.
  revert b. induction a as [|c a IH]; intros [|d b] Hlen H; cbn in *; try done.
  injection H as -> H. injection Hlen as Hlen. destruct (IH _ Hlen H) as [-> ->]. done.
Qed.

Lemma be_bytes_inj count n m :
  0 <= n < 256 ^ Z.of_nat count -> 0 <= m < 256 ^ Z.of_nat count ->
  be_bytes count n = be_bytes count m -> n = m.
Proof.
  revert n m. induction count as [|count IH]; intros n m Hn Hm H.
  - cbn in Hn, Hm. lia.
  - assert (E : 256 ^ Z.of_nat (S count) = 256 * 256 ^ Z.of_nat count) by (rewrite Nat2Z.inj_succ, Z.pow_succ_r; lia).
    rewrite E in Hn, Hm. cbn [be_bytes] in H.
    apply app_eq_length in H as [H1 H2]; [|by rewrite !be_bytes_length].
    apply IH in H1; [|split; [apply Z.div_pos; lia | apply Z.div_lt_upper_bound; lia]..].
    injection H2 as H2. apply (f_equal byte_of) in H2.
    rewrite !byte_of_ascii in H2 by (apply Z.mod_pos_bound; lia).
    rewrite (Z.div_mod n 256), (Z.div_mod m 256) by lia. lia.
Qed.

(** A Rust string is shorter than [2^64] bytes. *)
Definition is_usize (n : Z) : Prop := 0 <= n <= u64_max.
Definition rust_str (s : string) : Prop := str_len s <= u64_max.

Lemma u64_be_inj n m x y : is_usize n -> is_usize m -> u64_be n +:+ x = u64_be m +:+ y -> n = m /\ x = y.
Proof.
  unfold is_usize, u64_max, u64_be. intros Hn Hm H.
  apply app_eq_length in H as [H ->]; [|by rewrite !be_bytes_length].
  apply be_bytes_inj in H; [done | change (256 ^ Z.of_nat 8) with 18446744073709551616; lia..].
Qed.

(** A framed string can be read back from the front of a byte stream. *)
Lemma framed_inj s t x y :
  rust_str s -> rust_str t -> framed s +:+ x = framed t +:+ y -> s = t /\ x = y.
Proof.
  unfold framed, rust_str. intros Hs Ht H. rewrite !app_assoc_str in H.
  apply u64_be_inj in H as [Hlen H]; [|unfold is_usize, str_len in *; lia..].
  apply app_eq_length in H; [done | unfold str_len in Hlen; lia].
Qed.

Lemma framed_list_inj l l' x y :
  Forall rust_str l -> Forall rust_str l' -> length l = length l' ->
  concat_strings (map framed l) +:+ x = concat_strings (map framed l') +:+ y -> l = l' /\ x = y.
Proof.
  intros Hl. revert l'. induction Hl as [|s l Hs Hl IH]; intros l' Hl' Hlen H;
    destruct Hl' as [|t l' Ht Hl']; try done.
  cbn in H. rewrite !app_assoc_str in H. apply framed_inj in H as [-> H]; [|done..].
  injection Hlen as Hlen. destruct (IH _ Hl' Hlen H) as [-> ->]. done.
Qed.

(** What Rust guarantees of the request: every buffer fits the address space. *)
Record request_fits (argv : list string) (cwd : option string) (timeout container : string)
    (stdin : option string) : Prop := {
  argv_fits : Z.of_nat (length argv) <= u64_max;
  args_fit : Forall rust_str argv;
  cwd_fits : from_option rust_str True cwd;
  timeout_fits : rust_str timeout;
  container_fits : rust_str container;
  stdin_fits : from_option rust_str True stdin;
}.

Lemma option_framed_inj a b x y :
  from_option rust_str True a -> from_option rust_str True b ->
  match a with Some s => byte 1 +:+ framed s | None => byte 0 end +:+ x
  = match b with Some s => byte 1 +:+ framed s | None => byte 0 end +:+ y -> a = b /\ x = y.
Proof.
  destruct a as [a|], b as [b|]; cbn [from_option]; intros Ha Hb H; rewrite ?app_assoc_str in H.
  - apply app_inj_str, framed_inj in H as [-> ->]; done.
  - cbn in H. discriminate H.
  - cbn in H. discriminate H.
  - apply app_inj_str in H. done.
Qed.

(** The bytes [request_digest] hashes determine the request: two requests
    that differ in any argument, in where one argument ends and the next begins,
    in the working directory, the timeout, the resolved container, the lifecycle
    mode or the forwarded standard input (an empty one included) are hashed from
    different bytes. *)
Theorem request_bytes_determine_request argv cwd timeout container detached stdin
    argv' cwd' timeout' container' detached' stdin' :
  request_fits argv cwd timeout container stdin ->
  request_fits argv' cwd' timeout' container' stdin' ->
  request_bytes argv cwd timeout (Some container) (Some detached) stdin
  = request_bytes argv' cwd' timeout' (Some container') (Some detached') stdin' ->
  argv = argv' /\ cwd = cwd' /\ timeout = timeout' /\ container = container'
  /\ detached = detached' /\ stdin = stdin'.
Proof.
  intros [] [] H. unfold request_bytes in H.
  apply u64_be_inj in H as [Hlen H]; [|unfold is_usize; lia..].
  apply framed_list_inj in H as [-> H]; [|done || lia..].
  apply option_framed_inj in H as [-> H]; [|done..].
  apply framed_inj in H as [-> H]; [|done..].
  apply framed_inj in H as [-> H]; [|done..].
  assert (detached = detached' /\ stdin = stdin') as [-> ->]; [|done].
  destruct detached, detached'; try (cbn in H; discriminate H); split; try done;
    apply app_inj_str in H;
    destruct stdin as [a|], stdin' as [b|]; try done; cbn [from_option] in *;
    apply app_inj_str in H;
    destruct (framed_inj a b "" "") as [-> _]; try done; by rewrite !app_nil_str.
Qed.

Lemma request_bytes_determine_request_witness :
  request_bytes ["ab"; "c"] None "60s" (Some "main") (Some false) (Some "")
  <> request_bytes ["a"; "bc"] None "60s" (Some "main") (Some false) None.
Proof.
  intros H.
  assert (X := fun p q => request_bytes_determine_request ["ab"; "c"] None "60s" "main" false (Some "")
                 ["a"; "bc"] None "60s" "main" false None p q H).
  destruct X as [E _]; [constructor; repeat constructor; vm_compute; try done; intros ?; discriminate ..|].
  discriminate E.
Defined.

(** A record written before the resolved container and the mode became part of
    the identity is never taken for a current one. *)
Theorem legacy_bytes_distinct argv cwd timeout container detached stdin argv' cwd' timeout' :
  request_fits argv cwd timeout container stdin ->
  request_fits argv' cwd' timeout' "" None ->
  request_bytes argv cwd timeout (Some container) (Some detached) stdin
  <> request_bytes argv' cwd' timeout' None None None.
Proof.
  intros [] [] H. unfold request_bytes in H.
  apply u64_be_inj in H as [Hlen H]; [|unfold is_usize; lia..].
  apply framed_list_inj in H as [-> H]; [|done || lia..].
  apply option_framed_inj in H as [-> H]; [|done..].
  apply framed_inj in H as [-> H]; [|done..].
  unfold framed in H. rewrite app_assoc_str in H.
  apply (f_equal str_len) in H. rewrite str_len_app in H.
  unfold str_len in H. unfold u64_be in H at 1. rewrite be_bytes_length in H. cbn in H. lia.
Qed.

(** The name a reservation is created under is hashed from bytes that
    determine the lease and the idempotency key. *)
Lemma name_bytes_inj uid key uid' key' :
  rust_str uid -> rust_str uid' -> name_bytes uid key = name_bytes uid' key' -> uid = uid' /\ key = key'.
Proof. unfold name_bytes. intros. by apply framed_inj. Qed.

(** ** State changes *)

(** What a state of a record says about its exit code. *)
Definition exit_code_agrees (s : ExecutionState.t) (code : option Z) : bool :=
  Bool.eqb (carries_exit_code s) (is_some code).

(** One accepted change of a stored record. *)
Inductive execution_change : ExecutionState.t * option Z -> ExecutionState.t * option Z -> Prop :=
| change_state from to code code' :
    from <> to -> transition_execution from to code' = Ok to ->
    execution_change (from, code) (to, code').

Lemma transition_terminal from to code s :
  ExecutionState.is_terminal from = true -> transition_execution from to code = Ok s -> s = from /\ to = from.
Proof.
  unfold transition_execution. intros Ht. case_bool_decide as E; [intros [= <-]; done|]. by rewrite Ht.
Qed.

(** Along any sequence of accepted changes from a queued record, a settled
    state is never left, an exit code is recorded exactly for [Succeeded] and
    [Failed], and a record is never queued again. *)
Theorem execution_record_settles_once r r' :
  rtc execution_change (ExecutionState.Queued, None) r -> rtc execution_change r r' ->
  exit_code_agrees (fst r) (snd r) = true
  /\ (ExecutionState.is_terminal (fst r) = true -> r' = r)
  /\ (fst r' = ExecutionState.Queued -> r' = r).
Proof.
  intros H0 H.
  assert (exit_code_agrees (fst r) (snd r) = true) as Hcode.
  { remember (ExecutionState.Queued, None) as q eqn:Eq.
    assert (exit_code_agrees (fst q) (snd q) = true) as Hq by by rewrite Eq.
    clear Eq H. induction H0 as [|q m z Hs _ IH]; [done|]. apply IH.
    destruct Hs as [from to code code' Hne Ht]. cbn. revert Ht. unfold transition_execution.
    rewrite bool_decide_eq_false_2 by done. repeat case_match; try done.
    intros _. bool_props. unfold exit_code_agrees.
    destruct (carries_exit_code to), code'; cbn in *; intuition done. }
  split; [done|]. split.
  - intros Ht. destruct H as [|? m ? Hs _]; [done|]. destruct Hs as [from to code code' Hne Hok].
    destruct (transition_terminal _ _ _ _ Ht Hok) as [E _]. cbn in E. congruence.
  - clear Hcode. induction H as [|x m z Hs Hrest IH]; [done|]. intros Hz.
    assert (Hm : m = z) by (symmetry; apply IH; [eapply rtc_r; eauto | done]). subst m.
    destruct Hs as [from to code code' Hne Hok]. cbn in Hz. subst to.
    exfalso. revert Hok. unfold transition_execution. rewrite bool_decide_eq_false_2 by done.
    destruct from; cbn; congruence.
Qed.

Lemma execution_record_settles_once_witness :
  let done := (ExecutionState.Failed, Some 3) in
  exit_code_agrees (fst done) (snd done) = true
  /\ (ExecutionState.is_terminal (fst done) = true -> done = done)
  /\ (fst done = ExecutionState.Queued -> done = done).
Proof.
  apply execution_record_settles_once; [|apply rtc_refl].
  eapply rtc_l; [by apply (change_state _ ExecutionState.Running None None)|].
  eapply rtc_l; [by apply (change_state _ ExecutionState.Failed None (Some 3))|]. apply rtc_refl.
Defined.
