(* ===== verification/Quarantine.v ===== *)
(** * The closed vocabulary of quarantine reasons

    [QuarantineReason] of src/sandbox.rs and the wire name of each reason.  The
    names tell the reasons apart, which also gives decidable equality. *)

From S2P Require Import Prelude.

Inductive QuarantineReason : Type :=
| AbsenceUnverifiable
| AccessDrainForbidden
| AccessDrainUnverifiable
| AccessGateForbidden
| AccessGateUnverifiable
| AdmissionOnlyProvenanceInvalid
| AllocationFenceIdentityChanged
| AllocationFenceMissing
| AllocationFenceProvenanceInvalid
| AllocationFenceTimestampMissing
| AllocationFenceUidMissing
| AllocationFenceUnverifiable
| BoundExecutionMissing
| ChildAbsenceUnverifiable
| ChildApiAuthenticationFailed
| ChildApiResponseUnverifiable
| ChildBindingIdentityUnverifiable
| ChildBindingProvenanceChanged
| ChildCompositionGenerationChanged
| ChildCompositionGenerationMissing
| ChildCompositionIdentityChanged
| ChildCompositionIdentityUnverifiable
| ChildCompositionProvenanceInvalid
| ChildCompositionProvenanceMissing
| ChildCompositionUidMissing
| ChildCompositionUnverifiable
| ChildCredentialCleanupUnverifiable
| ChildCredentialTargetUnverifiable
| ChildKubeconfigClientInvalid
| ChildKubeconfigPayloadInvalid
| ChildKubeconfigProtocolMissing
| ChildKubeconfigProvenanceMissing
| ChildKubeconfigSecretForbidden
| ChildKubeconfigSecretMalformed
| ChildKubeconfigSecretMissing
| ChildKubeconfigSecretReplaced
| ChildNamespaceIdentityChanged
| ChildNamespaceUnverifiable
| ChildParentUidMissing
| ChildPoolIdentityChanged
| ChildPoolProvenanceInvalid
| ChildPoolProvenanceUnavailable
| ChildPoolProvenanceUnverifiable
| ChildPrecheckpointStateUnverifiable
| ChildReceiptAcknowledgementChanged
| ChildReceiptAuthorityUnavailable
| ChildReceiptAuthorityUnverified
| ChildReceiptDoesNotMatch
| ChildReceiptDoesNotMatchPrecheckpoint
| ChildReceiptUnavailable
| ChildTargetNamespaceChanged
| ChildTargetProvenanceMissing
| ChildTeardownModeChanged
| ChildTeardownModeMissing
| ChildTeardownQuarantined
| ChildUnboundProofCheckpointChanged
| ClaimAbsenceUnverifiable
| ClaimIdentityUnverifiable
| ClaimLabelledSandboxReplaced
| ClaimLabelledSandboxUnrecorded
| ClaimNamespaceChanged
| ClaimOwnerrefLegacyUnverifiable
| ClaimProvenanceInvalid
| ClaimProvenanceMissing
| ClaimProvenanceMissingAfterAbsence
| ClaimTombstoneDeletingWithoutCleanupFence
| ClaimTombstoneIdentityChanged
| ClaimTombstoneIdentityUnverifiable
| ClaimTombstoneMissing
| ClaimTombstoneProvenanceInvalid
| ClaimTombstoneUnverifiable
| CredentialCleanupUnverifiable
| CredentialProvenanceInvalid
| ExecutionClaimProvenanceMissing
| ExecutionDeleteForbidden
| ExecutionFinalizerUnverifiable
| ExecutionIdentityUnverifiable
| ExecutionLeaseStatusMissing
| ExecutionListForbidden
| ExecutionManifestMismatch
| ExecutionManifestUnverifiable
| ExecutionNameDuplicated
| ExecutionNotInManifest
| ExecutionParentUidMissing
| ExecutionPlacementMissing
| ExecutionPodProvenanceMissing
| ExecutionReplacedDuringCleanup
| ExecutionRunnerProvenanceChanged
| ExecutionRunnerProvenanceMissing
| ExecutionRvMissing
| ExecutionSandboxProvenanceMissing
| ExecutionStateUnverifiable
| ExecutionTargetProvenanceMissing
| ExecutionUidMissing
| ManagementTargetNamespaceChanged
| ManagementTargetProvenanceInvalid
| ManagementTargetProvenanceMissing
| NeverBoundExecutionManifestNonempty
| PodAbsenceUnverifiable
| PodEnumerationUnverifiable
| PodIdentityChangedDuringTeardown
| PodIdentityUnverifiable
| PodOwnerChainUnverifiable
| PodOwnerIdentityChanged
| PodProvenanceMissing
| PodSelectorAmbiguous
| PodReplacementUnbounded
| PreCreateChildHandlePresent
| PreCreateProvenanceInvalid
| PvEnumerationUnverifiable
| PvcEnumerationUnverifiable
| ReleaseCauseMissing
| RequiredServiceProvenanceMissing
| SandboxAbsenceUnverifiable
| SandboxEnumerationUnverifiable
| SandboxIdentityChangedDuringTeardown
| SandboxIdentityUnverifiable
| SandboxOwnedPodReplaced
| SandboxOwnedServiceReplaced
| SandboxOwnerIdentityChanged
| ServiceAbsenceUnverifiable
| ServiceEnumerationUnverifiable
| ServiceIdentityChangedDuringTeardown
| ServiceIdentityUnverifiable
| ServiceOwnerChainUnverifiable
| ServiceOwnerIdentityChanged
| ServiceProvenanceInvalid
| ServiceRequirementPoolIdentityChanged
| ServiceRequirementPoolMissing
| ServiceRequirementUnverifiable
| StaleUncertainty
| UnexpectedPersistentStorage.

Definition reason_as_str (r : QuarantineReason) : string :=
  match r with
  | AbsenceUnverifiable => "absence_unverifiable"
  | AccessDrainForbidden => "access_drain_forbidden"
  | AccessDrainUnverifiable => "access_drain_unverifiable"
  | AccessGateForbidden => "access_gate_forbidden"
  | AccessGateUnverifiable => "access_gate_unverifiable"
  | AdmissionOnlyProvenanceInvalid => "admission_only_provenance_invalid"
  | AllocationFenceIdentityChanged => "allocation_fence_identity_changed"
  | AllocationFenceMissing => "allocation_fence_missing"
  | AllocationFenceProvenanceInvalid => "allocation_fence_provenance_invalid"
  | AllocationFenceTimestampMissing => "allocation_fence_timestamp_missing"
  | AllocationFenceUidMissing => "allocation_fence_uid_missing"
  | AllocationFenceUnverifiable => "allocation_fence_unverifiable"
  | BoundExecutionMissing => "bound_execution_missing"
  | ChildAbsenceUnverifiable => "child_absence_unverifiable"
  | ChildApiAuthenticationFailed => "child_api_authentication_failed"
  | ChildApiResponseUnverifiable => "child_api_response_unverifiable"
  | ChildBindingIdentityUnverifiable => "child_binding_identity_unverifiable"
  | ChildBindingProvenanceChanged => "child_binding_provenance_changed"
  | ChildCompositionGenerationChanged => "child_composition_generation_changed"
  | ChildCompositionGenerationMissing => "child_composition_generation_missing"
  | ChildCompositionIdentityChanged => "child_composition_identity_changed"
  | ChildCompositionIdentityUnverifiable => "child_composition_identity_unverifiable"
  | ChildCompositionProvenanceInvalid => "child_composition_provenance_invalid"
  | ChildCompositionProvenanceMissing => "child_composition_provenance_missing"
  | ChildCompositionUidMissing => "child_composition_uid_missing"
  | ChildCompositionUnverifiable => "child_composition_unverifiable"
  | ChildCredentialCleanupUnverifiable => "child_credential_cleanup_unverifiable"
  | ChildCredentialTargetUnverifiable => "child_credential_target_unverifiable"
  | ChildKubeconfigClientInvalid => "child_kubeconfig_client_invalid"
  | ChildKubeconfigPayloadInvalid => "child_kubeconfig_payload_invalid"
  | ChildKubeconfigProtocolMissing => "child_kubeconfig_protocol_missing"
  | ChildKubeconfigProvenanceMissing => "child_kubeconfig_provenance_missing"
  | ChildKubeconfigSecretForbidden => "child_kubeconfig_secret_forbidden"
  | ChildKubeconfigSecretMalformed => "child_kubeconfig_secret_malformed"
  | ChildKubeconfigSecretMissing => "child_kubeconfig_secret_missing"
  | ChildKubeconfigSecretReplaced => "child_kubeconfig_secret_replaced"
  | ChildNamespaceIdentityChanged => "child_namespace_identity_changed"
  | ChildNamespaceUnverifiable => "child_namespace_unverifiable"
  | ChildParentUidMissing => "child_parent_uid_missing"
  | ChildPoolIdentityChanged => "child_pool_identity_changed"
  | ChildPoolProvenanceInvalid => "child_pool_provenance_invalid"
  | ChildPoolProvenanceUnavailable => "child_pool_provenance_unavailable"
  | ChildPoolProvenanceUnverifiable => "child_pool_provenance_unverifiable"
  | ChildPrecheckpointStateUnverifiable => "child_precheckpoint_state_unverifiable"
  | ChildReceiptAcknowledgementChanged => "child_receipt_acknowledgement_changed"
  | ChildReceiptAuthorityUnavailable => "child_receipt_authority_unavailable"
  | ChildReceiptAuthorityUnverified => "child_receipt_authority_unverified"
  | ChildReceiptDoesNotMatch => "child_receipt_does_not_match"
  | ChildReceiptDoesNotMatchPrecheckpoint => "child_receipt_does_not_match_precheckpoint"
  | ChildReceiptUnavailable => "child_receipt_unavailable"
  | ChildTargetNamespaceChanged => "child_target_namespace_changed"
  | ChildTargetProvenanceMissing => "child_target_provenance_missing"
  | ChildTeardownModeChanged => "child_teardown_mode_changed"
  | ChildTeardownModeMissing => "child_teardown_mode_missing"
  | ChildTeardownQuarantined => "child_teardown_quarantined"
  | ChildUnboundProofCheckpointChanged => "child_unbound_proof_checkpoint_changed"
  | ClaimAbsenceUnverifiable => "claim_absence_unverifiable"
  | ClaimIdentityUnverifiable => "claim_identity_unverifiable"
  | ClaimLabelledSandboxReplaced => "claim_labelled_sandbox_replaced"
  | ClaimLabelledSandboxUnrecorded => "claim_labelled_sandbox_unrecorded"
  | ClaimNamespaceChanged => "claim_namespace_changed"
  | ClaimOwnerrefLegacyUnverifiable => "claim_ownerref_legacy_unverifiable"
  | ClaimProvenanceInvalid => "claim_provenance_invalid"
  | ClaimProvenanceMissing => "claim_provenance_missing"
  | ClaimProvenanceMissingAfterAbsence => "claim_provenance_missing_after_absence"
  | ClaimTombstoneDeletingWithoutCleanupFence => "claim_tombstone_deleting_without_cleanup_fence"
  | ClaimTombstoneIdentityChanged => "claim_tombstone_identity_changed"
  | ClaimTombstoneIdentityUnverifiable => "claim_tombstone_identity_unverifiable"
  | ClaimTombstoneMissing => "claim_tombstone_missing"
  | ClaimTombstoneProvenanceInvalid => "claim_tombstone_provenance_invalid"
  | ClaimTombstoneUnverifiable => "claim_tombstone_unverifiable"
  | CredentialCleanupUnverifiable => "credential_cleanup_unverifiable"
  | CredentialProvenanceInvalid => "credential_provenance_invalid"
  | ExecutionClaimProvenanceMissing => "execution_claim_provenance_missing"
  | ExecutionDeleteForbidden => "execution_delete_forbidden"
  | ExecutionFinalizerUnverifiable => "execution_finalizer_unverifiable"
  | ExecutionIdentityUnverifiable => "execution_identity_unverifiable"
  | ExecutionLeaseStatusMissing => "execution_lease_status_missing"
  | ExecutionListForbidden => "execution_list_forbidden"
  | ExecutionManifestMismatch => "execution_manifest_mismatch"
  | ExecutionManifestUnverifiable => "execution_manifest_unverifiable"
  | ExecutionNameDuplicated => "execution_name_duplicated"
  | ExecutionNotInManifest => "execution_not_in_manifest"
  | ExecutionParentUidMissing => "execution_parent_uid_missing"
  | ExecutionPlacementMissing => "execution_placement_missing"
  | ExecutionPodProvenanceMissing => "execution_pod_provenance_missing"
  | ExecutionReplacedDuringCleanup => "execution_replaced_during_cleanup"
  | ExecutionRunnerProvenanceChanged => "execution_runner_provenance_changed"
  | ExecutionRunnerProvenanceMissing => "execution_runner_provenance_missing"
  | ExecutionRvMissing => "execution_rv_missing"
  | ExecutionSandboxProvenanceMissing => "execution_sandbox_provenance_missing"
  | ExecutionStateUnverifiable => "execution_state_unverifiable"
  | ExecutionTargetProvenanceMissing => "execution_target_provenance_missing"
  | ExecutionUidMissing => "execution_uid_missing"
  | ManagementTargetNamespaceChanged => "management_target_namespace_changed"
  | ManagementTargetProvenanceInvalid => "management_target_provenance_invalid"
  | ManagementTargetProvenanceMissing => "management_target_provenance_missing"
  | NeverBoundExecutionManifestNonempty => "never_bound_execution_manifest_nonempty"
  | PodAbsenceUnverifiable => "pod_absence_unverifiable"
  | PodEnumerationUnverifiable => "pod_enumeration_unverifiable"
  | PodIdentityChangedDuringTeardown => "pod_identity_changed_during_teardown"
  | PodIdentityUnverifiable => "pod_identity_unverifiable"
  | PodOwnerChainUnverifiable => "pod_owner_chain_unverifiable"
  | PodOwnerIdentityChanged => "pod_owner_identity_changed"
  | PodProvenanceMissing => "pod_provenance_missing"
  | PodSelectorAmbiguous => "pod_selector_ambiguous"
  | PodReplacementUnbounded => "pod_replacement_unbounded"
  | PreCreateChildHandlePresent => "pre_create_child_handle_present"
  | PreCreateProvenanceInvalid => "pre_create_provenance_invalid"
  | PvEnumerationUnverifiable => "pv_enumeration_unverifiable"
  | PvcEnumerationUnverifiable => "pvc_enumeration_unverifiable"
  | ReleaseCauseMissing => "release_cause_missing"
  | RequiredServiceProvenanceMissing => "required_service_provenance_missing"
  | SandboxAbsenceUnverifiable => "sandbox_absence_unverifiable"
  | SandboxEnumerationUnverifiable => "sandbox_enumeration_unverifiable"
  | SandboxIdentityChangedDuringTeardown => "sandbox_identity_changed_during_teardown"
  | SandboxIdentityUnverifiable => "sandbox_identity_unverifiable"
  | SandboxOwnedPodReplaced => "sandbox_owned_pod_replaced"
  | SandboxOwnedServiceReplaced => "sandbox_owned_service_replaced"
  | SandboxOwnerIdentityChanged => "sandbox_owner_identity_changed"
  | ServiceAbsenceUnverifiable => "service_absence_unverifiable"
  | ServiceEnumerationUnverifiable => "service_enumeration_unverifiable"
  | ServiceIdentityChangedDuringTeardown => "service_identity_changed_during_teardown"
  | ServiceIdentityUnverifiable => "service_identity_unverifiable"
  | ServiceOwnerChainUnverifiable => "service_owner_chain_unverifiable"
  | ServiceOwnerIdentityChanged => "service_owner_identity_changed"
  | ServiceProvenanceInvalid => "service_provenance_invalid"
  | ServiceRequirementPoolIdentityChanged => "service_requirement_pool_identity_changed"
  | ServiceRequirementPoolMissing => "service_requirement_pool_missing"
  | ServiceRequirementUnverifiable => "service_requirement_unverifiable"
  | StaleUncertainty => "stale_uncertainty"
  | UnexpectedPersistentStorage => "unexpected_persistent_storage"
  end.

Definition all_reasons : list QuarantineReason :=
  [AbsenceUnverifiable; AccessDrainForbidden; AccessDrainUnverifiable;
   AccessGateForbidden; AccessGateUnverifiable; AdmissionOnlyProvenanceInvalid;
   AllocationFenceIdentityChanged; AllocationFenceMissing; AllocationFenceProvenanceInvalid;
   AllocationFenceTimestampMissing; AllocationFenceUidMissing; AllocationFenceUnverifiable;
   BoundExecutionMissing; ChildAbsenceUnverifiable; ChildApiAuthenticationFailed;
   ChildApiResponseUnverifiable; ChildBindingIdentityUnverifiable; ChildBindingProvenanceChanged;
   ChildCompositionGenerationChanged; ChildCompositionGenerationMissing; ChildCompositionIdentityChanged;
   ChildCompositionIdentityUnverifiable; ChildCompositionProvenanceInvalid; ChildCompositionProvenanceMissing;
   ChildCompositionUidMissing; ChildCompositionUnverifiable; ChildCredentialCleanupUnverifiable;
   ChildCredentialTargetUnverifiable; ChildKubeconfigClientInvalid; ChildKubeconfigPayloadInvalid;
   ChildKubeconfigProtocolMissing; ChildKubeconfigProvenanceMissing; ChildKubeconfigSecretForbidden;
   ChildKubeconfigSecretMalformed; ChildKubeconfigSecretMissing; ChildKubeconfigSecretReplaced;
   ChildNamespaceIdentityChanged; ChildNamespaceUnverifiable; ChildParentUidMissing;
   ChildPoolIdentityChanged; ChildPoolProvenanceInvalid; ChildPoolProvenanceUnavailable;
   ChildPoolProvenanceUnverifiable; ChildPrecheckpointStateUnverifiable; ChildReceiptAcknowledgementChanged;
   ChildReceiptAuthorityUnavailable; ChildReceiptAuthorityUnverified; ChildReceiptDoesNotMatch;
   ChildReceiptDoesNotMatchPrecheckpoint; ChildReceiptUnavailable; ChildTargetNamespaceChanged;
   ChildTargetProvenanceMissing; ChildTeardownModeChanged; ChildTeardownModeMissing;
   ChildTeardownQuarantined; ChildUnboundProofCheckpointChanged; ClaimAbsenceUnverifiable;
   ClaimIdentityUnverifiable; ClaimLabelledSandboxReplaced; ClaimLabelledSandboxUnrecorded;
   ClaimNamespaceChanged; ClaimOwnerrefLegacyUnverifiable; ClaimProvenanceInvalid;
   ClaimProvenanceMissing; ClaimProvenanceMissingAfterAbsence; ClaimTombstoneDeletingWithoutCleanupFence;
   ClaimTombstoneIdentityChanged; ClaimTombstoneIdentityUnverifiable; ClaimTombstoneMissing;
   ClaimTombstoneProvenanceInvalid; ClaimTombstoneUnverifiable; CredentialCleanupUnverifiable;
   CredentialProvenanceInvalid; ExecutionClaimProvenanceMissing; ExecutionDeleteForbidden;
   ExecutionFinalizerUnverifiable; ExecutionIdentityUnverifiable; ExecutionLeaseStatusMissing;
   ExecutionListForbidden; ExecutionManifestMismatch; ExecutionManifestUnverifiable;
   ExecutionNameDuplicated; ExecutionNotInManifest; ExecutionParentUidMissing;
   ExecutionPlacementMissing; ExecutionPodProvenanceMissing; ExecutionReplacedDuringCleanup;
   ExecutionRunnerProvenanceChanged; ExecutionRunnerProvenanceMissing; ExecutionRvMissing;
   ExecutionSandboxProvenanceMissing; ExecutionStateUnverifiable; ExecutionTargetProvenanceMissing;
   ExecutionUidMissing; ManagementTargetNamespaceChanged; ManagementTargetProvenanceInvalid;
   ManagementTargetProvenanceMissing; NeverBoundExecutionManifestNonempty; PodAbsenceUnverifiable;
   PodEnumerationUnverifiable; PodIdentityChangedDuringTeardown; PodIdentityUnverifiable;
   PodOwnerChainUnverifiable; PodOwnerIdentityChanged; PodProvenanceMissing;
   PodSelectorAmbiguous; PodReplacementUnbounded; PreCreateChildHandlePresent;
   PreCreateProvenanceInvalid; PvEnumerationUnverifiable; PvcEnumerationUnverifiable;
   ReleaseCauseMissing; RequiredServiceProvenanceMissing; SandboxAbsenceUnverifiable;
   SandboxEnumerationUnverifiable; SandboxIdentityChangedDuringTeardown; SandboxIdentityUnverifiable;
   SandboxOwnedPodReplaced; SandboxOwnedServiceReplaced; SandboxOwnerIdentityChanged;
   ServiceAbsenceUnverifiable; ServiceEnumerationUnverifiable; ServiceIdentityChangedDuringTeardown;
   ServiceIdentityUnverifiable; ServiceOwnerChainUnverifiable; ServiceOwnerIdentityChanged;
   ServiceProvenanceInvalid; ServiceRequirementPoolIdentityChanged; ServiceRequirementPoolMissing;
   ServiceRequirementUnverifiable; StaleUncertainty; UnexpectedPersistentStorage].

Definition reason_of_str (s : string) : option QuarantineReason :=
  List.find (fun r => String.eqb (reason_as_str r) s) all_reasons.

(** A wire name identifies its reason. *)
Lemma reason_of_str_as_str r : reason_of_str (reason_as_str r) = Some r.
Proof. by destruct r. Qed.

#[global] Instance reason_as_str_inj : Inj (=) (=) reason_as_str.
Proof. intros r s H. pose proof (reason_of_str_as_str s) as E. rewrite <- H, reason_of_str_as_str in E. by injection E. Qed.

#[global] Instance QuarantineReason_eq_dec : EqDecision QuarantineReason.
Proof.
  intros r s. destruct (decide (reason_as_str r = reason_as_str s)) as [E|E]; [left|right; congruence].
  by apply reason_as_str_inj.
Defined.
