(* ===== verification/SandboxObjects.v ===== *)
(** * SandboxObjects: SandboxLease and SandboxPool as the API and the ledger read them

    Data of [src/crd/sandbox.rs]: the phases, conditions and provenance of a
    [SandboxLease], the principal that owns it, and the part of a [SandboxPool]
    that decides what a caller may reach.  Ports are [u16] values kept as
    integers. *)

From S2P Require Import Prelude.

Module SandboxLeasePhase.
Inductive t : Type := Pending | Provisioning | Ready | Releasing | Released | Expired | Quarantined.
#[global] Instance eq_dec : EqDecision t. Proof. solve_decision. Defined.
End SandboxLeasePhase.

Inductive SandboxConditionStatus : Type := ConditionTrue | ConditionFalse | ConditionUnknown.
#[global] Instance SandboxConditionStatus_eq_dec : EqDecision SandboxConditionStatus.
Proof. solve_decision. Defined.

Record SandboxCondition : Type := {
  sc_type : string;
  sc_status : SandboxConditionStatus;
  sc_reason : string;
  sc_message : string;
  sc_observed_generation : option Z;
  sc_last_transition_time : option string;
}.
#[global] Instance SandboxCondition_eq_dec : EqDecision SandboxCondition. Proof. solve_decision. Defined.

(** Identity of one exact Kubernetes object. *)
Record SandboxObjectReference : Type := {
  oref_api_version : string;
  oref_kind : string;
  oref_namespace : option string;
  oref_name : string;
  oref_uid : string;
  oref_generation : option Z;
}.
#[global] Instance SandboxObjectReference_eq_dec : EqDecision SandboxObjectReference.
Proof. solve_decision. Defined.

Inductive ResolvedSandboxPlacement : Type :=
| PlacedManagement
| PlacedChildCluster (cluster_pool : SandboxObjectReference).
#[global] Instance ResolvedSandboxPlacement_eq_dec : EqDecision ResolvedSandboxPlacement.
Proof. solve_decision. Defined.

(** Every object a lease was placed on, with what release must know of it. *)
Record SandboxTargetProvenance : Type := {
  tp_namespace : string;
  tp_child_cluster_lease : option SandboxObjectReference;
  tp_child_cluster_instance : option SandboxObjectReference;
  tp_child_cluster_kubeconfig_secret : option SandboxObjectReference;
  tp_child_cluster_kubeconfig_sha256 : option string;
  tp_sandbox_template : option SandboxObjectReference;
  tp_sandbox_warm_pool : option SandboxObjectReference;
  tp_sandbox_claim : option SandboxObjectReference;
  tp_sandbox : option SandboxObjectReference;
  tp_pod : option SandboxObjectReference;
  tp_replacement_pods : list SandboxObjectReference;
  tp_service : option SandboxObjectReference;
  tp_service_required : option bool;
  tp_workspace_volume_required : option bool;
}.
#[global] Instance SandboxTargetProvenance_eq_dec : EqDecision SandboxTargetProvenance.
Proof. solve_decision. Defined.

Record SandboxPoolReference : Type := {
  pool_ref_name : string;
  pool_ref_uid : string;
  pool_ref_generation : Z;
}.
#[global] Instance SandboxPoolReference_eq_dec : EqDecision SandboxPoolReference. Proof. solve_decision. Defined.

Record SandboxPrincipal : Type := {
  pr_provider : string;
  pr_issuer : string;
  pr_identity : string;
}.
#[global] Instance SandboxPrincipal_eq_dec : EqDecision SandboxPrincipal. Proof. solve_decision. Defined.

(** The part of a [SandboxLease] status the API and the ledger read. *)
Record SandboxLeaseSummary : Type := {
  sbx_phase : SandboxLeasePhase.t;
  sbx_conditions : list SandboxCondition;
  sbx_expires_at : option string;
  sbx_placement : option ResolvedSandboxPlacement;
  sbx_target : option SandboxTargetProvenance;
}.

Record SandboxLease : Type := {
  sbx_name : string;
  sbx_namespace : option string;
  sbx_uid : option string;
  sbx_annotations : gmap string string;
  sbx_deletion_timestamp : option string;
  sbx_pool_ref : SandboxPoolReference;
  sbx_alias : option string;
  sbx_requester : SandboxPrincipal;
  sbx_status : option SandboxLeaseSummary;
}.

(** An [ObjectList<SandboxLease>]. *)
Record SandboxLeaseList : Type := {
  list_items : list SandboxLease;
  list_continue : option string;
  list_resource_version : option string;
}.

(** ** Pools *)

Record SandboxPortRange : Type := { range_start : Z; range_end : Z }.

(** [u32] arithmetic on [u16] ends, which cannot overflow. *)
Definition span (r : SandboxPortRange) : Z :=
  if range_end r <? range_start r then 0 else range_end r - range_start r + 1.

Definition MAX_PORT_RANGE_SPAN : Z := 8192.

Record SandboxPortSpec : Type := {
  port_name : string;
  port_container : string;
  port_single : option Z;
  port_range : option SandboxPortRange;
}.

Definition published_port (p : SandboxPortSpec) : option Z :=
  match port_single p, port_range p with Some single, None => Some single | _, _ => None end.

Inductive SandboxTransport : Type := TransportDirect | TransportIroh.

(** The part of a [SandboxPool] an access decision reads. *)
Record SandboxPool : Type := {
  sp_name : string;
  sp_uid : option string;
  sp_default_container : string;
  sp_exposed_ports : list SandboxPortSpec;
  sp_runner_path : option string;
  sp_attach_command : option (list string);
  sp_transport : SandboxTransport;
}.
