(* ===== verification/SandboxLifecycle.v ===== *)
(** * SandboxLifecycle: placement provenance, phases and expiry of a Sandbox lease

    Model of the pure lifecycle functions of [src/sandbox.rs] (placement and
    target provenance, the provisioning deadline, readiness, phase
    transitions).  Instants are nanoseconds; the range of [chrono]'s instants
    and their RFC 3339 text are parameters. *)

From S2P Require Import Prelude Text Durations SandboxObjects.

Local Open Scope kobe_scope.

(** ** Status *)

Inductive SandboxReleaseCause : Type :=
| CauseRequested | CauseRuntimeTtl | CauseProvisioningDeadline | CauseModeDisabled | CauseUnverifiable | CauseWorkloadLost.
#[global] Instance SandboxReleaseCause_eq_dec : EqDecision SandboxReleaseCause. Proof. solve_decision. Defined.

(** The teardown checkpoints of a status, which the functions below carry along
    unread; nested objects are kept as their text. *)
Record SandboxTeardownRecord : Type := {
  td_releasing_at : option string;
  td_claim_cleanup_fence : option string;
  td_sandbox_claim_tombstone : option SandboxObjectReference;
  td_allocation_fence : option SandboxObjectReference;
  td_child_teardown_mode : option string;
  td_child_teardown_receipt_acknowledgement : option string;
  td_child_teardown_evidence : option string;
  td_child_unbound_release_proof : option string;
}.
#[global] Instance SandboxTeardownRecord_eq_dec : EqDecision SandboxTeardownRecord. Proof. solve_decision. Defined.

Definition no_teardown : SandboxTeardownRecord :=
  {| td_releasing_at := None; td_claim_cleanup_fence := None; td_sandbox_claim_tombstone := None;
     td_allocation_fence := None; td_child_teardown_mode := None; td_child_teardown_receipt_acknowledgement := None;
     td_child_teardown_evidence := None; td_child_unbound_release_proof := None |}.

Record SandboxLeaseStatus : Type := {
  ls_phase : SandboxLeasePhase.t;
  ls_observed_generation : option Z;
  ls_provisioning_deadline : option string;
  ls_ready_at : option string;
  ls_expires_at : option string;
  ls_extensions_count : Z;
  ls_granted_extension_seconds : Z;
  ls_release_cause : option SandboxReleaseCause;
  ls_placement : option ResolvedSandboxPlacement;
  ls_target : option SandboxTargetProvenance;
  ls_teardown : SandboxTeardownRecord;
  ls_conditions : list SandboxCondition;
}.
#[global] Instance SandboxLeaseStatus_eq_dec : EqDecision SandboxLeaseStatus. Proof. solve_decision. Defined.

Definition default_sandbox_status : SandboxLeaseStatus :=
  {| ls_phase := SandboxLeasePhase.Pending; ls_observed_generation := None; ls_provisioning_deadline := None;
     ls_ready_at := None; ls_expires_at := None; ls_extensions_count := 0; ls_granted_extension_seconds := 0;
     ls_release_cause := None; ls_placement := None; ls_target := None; ls_teardown := no_teardown; ls_conditions := [] |}.

(** ** Placement and target provenance *)

Inductive SandboxProvenanceError : Type :=
| UnresolvedPlacement
| PlacementChanged
| NamespaceChanged
| ReferenceCleared (field : string)
| ReferenceChanged (field : string)
| InvalidReference (field reason : string)
| UnexpectedChildReference
| MissingTargetProvenance
| IncompleteChildProvenance.

Definition KOBE_API_VERSION : string := "kobe.kunobi.ninja/v1alpha1".
Definition SANDBOX_API_VERSION : string := "agents.x-k8s.io/v1beta1".
Definition AGENT_SANDBOX_API_VERSION : string := "extensions.agents.x-k8s.io/v1beta1".
Definition CORE_API_VERSION : string := "v1".
Definition CHILD_SANDBOX_NAMESPACE : string := "kobe-sandbox".

Definition blank (s : string) : bool := String.eqb (trim s) "".

Definition validate_reference (field : string) (r : SandboxObjectReference) (api_version kind : string)
    (expected_namespace : option string) (generation_required : bool) : result unit SandboxProvenanceError :=
  let? _ := deny_if (negb (String.eqb (oref_api_version r) api_version) || negb (String.eqb (oref_kind r) kind))
              (InvalidReference field "unexpected API version or kind") in
  let? _ := deny_if (blank (oref_name r) || blank (oref_uid r)) (InvalidReference field "name and UID are required") in
  let namespace := match oref_namespace r with Some ns => if String.eqb ns "" then None else Some ns | None => None end in
  let? _ := deny_if (is_none namespace) (InvalidReference field "namespace is required") in
  let? _ := deny_if (match expected_namespace with
                     | Some expected => negb (str_opt_eqb namespace (Some expected))
                     | None => false
                     end) (InvalidReference field "namespace does not match the target namespace") in
  deny_if (generation_required && match oref_generation r with Some g => g <=? 0 | None => true end)
    (InvalidReference field "positive generation is required").

Definition validate_resolved_placement (placement : ResolvedSandboxPlacement) (management_namespace : string)
  : result unit SandboxProvenanceError :=
  match placement with
  | PlacedChildCluster pool =>
      validate_reference "clusterPool" pool KOBE_API_VERSION "ClusterPool" (Some management_namespace) true
  | PlacedManagement => Ok tt
  end.

(** The rows of the loop of [validate_target_provenance]. *)
Definition reference_rows (p : SandboxTargetProvenance) (management_namespace : string)
  : list (string * option SandboxObjectReference * string * string * string * bool) :=
  [("childClusterLease", tp_child_cluster_lease p, KOBE_API_VERSION, "ClusterLease", management_namespace, true);
   ("childClusterInstance", tp_child_cluster_instance p, KOBE_API_VERSION, "ClusterInstance", management_namespace, true);
   ("childClusterKubeconfigSecret", tp_child_cluster_kubeconfig_secret p, CORE_API_VERSION, "Secret",
    management_namespace, false);
   ("sandboxTemplate", tp_sandbox_template p, AGENT_SANDBOX_API_VERSION, "SandboxTemplate", tp_namespace p, false);
   ("sandboxWarmPool", tp_sandbox_warm_pool p, AGENT_SANDBOX_API_VERSION, "SandboxWarmPool", tp_namespace p, false);
   ("sandboxClaim", tp_sandbox_claim p, AGENT_SANDBOX_API_VERSION, "SandboxClaim", tp_namespace p, false);
   ("sandbox", tp_sandbox p, SANDBOX_API_VERSION, "Sandbox", tp_namespace p, false);
   ("pod", tp_pod p, CORE_API_VERSION, "Pod", tp_namespace p, false);
   ("service", tp_service p, CORE_API_VERSION, "Service", tp_namespace p, false)].

Fixpoint validate_rows (rows : list (string * option SandboxObjectReference * string * string * string * bool))
  : result unit SandboxProvenanceError :=
  match rows with
  | [] => Ok tt
  | (field, reference, api_version, kind, namespace, generation_required) :: rows =>
      let? _ := match reference with
                | Some r => validate_reference field r api_version kind (Some namespace) generation_required
                | None => Ok tt
                end in
      validate_rows rows
  end.

Definition lowercase_sha256 (digest : string) : bool :=
  (str_len digest =? 64)
  && all_bytes (fun b => is_ascii_digit b || ((97 <=? byte_of b) && (byte_of b <=? 102))) digest.

Definition validate_kubeconfig (p : SandboxTargetProvenance) : result unit SandboxProvenanceError :=
  match tp_child_cluster_kubeconfig_secret p, tp_child_cluster_kubeconfig_sha256 p with
  | Some secret, Some digest =>
      match tp_child_cluster_instance p with
      | None => Err (InvalidReference "childClusterKubeconfigSecret" "credential Secret requires a recorded child instance")
      | Some instance =>
          let? _ := deny_if (negb (String.eqb (oref_name secret) (oref_name instance +:+ "-kubeconfig"))
                             || negb (str_opt_eqb (oref_namespace secret) (oref_namespace instance))
                             || is_some (oref_generation secret))
                      (InvalidReference "childClusterKubeconfigSecret"
                         "credential Secret does not match the recorded child instance") in
          deny_if (negb (lowercase_sha256 digest))
            (InvalidReference "childClusterKubeconfigSha256" "credential payload digest is not lowercase SHA-256")
      end
  | None, None => Ok tt
  | _, _ => Err (InvalidReference "childClusterKubeconfigSecret"
                   "credential Secret identity and payload digest must be recorded together")
  end.

Definition validate_target_provenance (p : SandboxTargetProvenance) (placement : ResolvedSandboxPlacement)
    (management_namespace : string) : result unit SandboxProvenanceError :=
  let? _ := deny_if (blank (tp_namespace p)) (InvalidReference "namespace" "target namespace is empty") in
  let? _ := match placement with
            | PlacedManagement =>
                deny_if (is_some (tp_child_cluster_lease p) || is_some (tp_child_cluster_instance p)
                         || is_some (tp_child_cluster_kubeconfig_secret p)
                         || is_some (tp_child_cluster_kubeconfig_sha256 p)) UnexpectedChildReference
            | PlacedChildCluster _ =>
                deny_if (negb (String.eqb (tp_namespace p) CHILD_SANDBOX_NAMESPACE))
                  (InvalidReference "namespace" "child target namespace does not match Kobe's fixed child namespace")
            end in
  let? _ := validate_rows (reference_rows p management_namespace) in
  validate_kubeconfig p.

Definition record_placement_once (existing : option ResolvedSandboxPlacement) (proposed : ResolvedSandboxPlacement)
    (management_namespace : string) : result ResolvedSandboxPlacement SandboxProvenanceError :=
  let? _ := validate_resolved_placement proposed management_namespace in
  match existing with
  | None => Ok proposed
  | Some current =>
      if bool_decide (current = proposed) then
        let? _ := validate_resolved_placement current management_namespace in
        Ok current
      else Err PlacementChanged
  end.

Definition require_resolved_placement (status : SandboxLeaseStatus) (management_namespace : string)
  : result ResolvedSandboxPlacement SandboxProvenanceError :=
  let? placement := ok_or (ls_placement status) UnresolvedPlacement in
  let? _ := validate_resolved_placement placement management_namespace in
  Ok placement.

Definition require_release_safe_target_provenance (status : SandboxLeaseStatus) (management_namespace : string)
  : result SandboxTargetProvenance SandboxProvenanceError :=
  let? placement := require_resolved_placement status management_namespace in
  let? target := ok_or (ls_target status) MissingTargetProvenance in
  let? _ := validate_target_provenance target placement management_namespace in
  let? _ := match placement with
            | PlacedManagement =>
                deny_if (negb (String.eqb (tp_namespace target) management_namespace))
                  (InvalidReference "namespace" "management target namespace does not match the operator namespace")
            | PlacedChildCluster _ =>
                deny_if (is_none (tp_child_cluster_lease target) || is_none (tp_child_cluster_instance target))
                  IncompleteChildProvenance
            end in
  Ok target.

(** [merge_reference], [merge_string] and [merge_flag]. *)
Definition merge_once {A} `{EqDecision A} (field : string) (existing proposed : option A)
  : result (option A) SandboxProvenanceError :=
  match existing, proposed with
  | None, proposed => Ok proposed
  | Some _, None => Err (ReferenceCleared field)
  | Some current, Some p => if bool_decide (current = p) then Ok (Some current) else Err (ReferenceChanged field)
  end.

Fixpoint merge_append_only (existing proposed : list SandboxObjectReference) : list SandboxObjectReference :=
  match proposed with
  | [] => existing
  | r :: proposed =>
      merge_append_only (if existsb (fun e => bool_decide (e = r)) existing then existing else existing ++ [r]) proposed
  end.

Definition merge_target_provenance (existing : option SandboxTargetProvenance) (proposed : SandboxTargetProvenance)
    (placement : ResolvedSandboxPlacement) (management_namespace : string)
  : result SandboxTargetProvenance SandboxProvenanceError :=
  let? _ := validate_resolved_placement placement management_namespace in
  let? _ := validate_target_provenance proposed placement management_namespace in
  match existing with
  | None => Ok proposed
  | Some e =>
      let? _ := validate_target_provenance e placement management_namespace in
      let? _ := deny_if (negb (String.eqb (tp_namespace e) (tp_namespace proposed))) NamespaceChanged in
      let? lease := merge_once "childClusterLease" (tp_child_cluster_lease e) (tp_child_cluster_lease proposed) in
      let? instance := merge_once "childClusterInstance" (tp_child_cluster_instance e)
                         (tp_child_cluster_instance proposed) in
      let? secret := merge_once "childClusterKubeconfigSecret" (tp_child_cluster_kubeconfig_secret e)
                       (tp_child_cluster_kubeconfig_secret proposed) in
      let? sha := merge_once "childClusterKubeconfigSha256" (tp_child_cluster_kubeconfig_sha256 e)
                    (tp_child_cluster_kubeconfig_sha256 proposed) in
      let? template := merge_once "sandboxTemplate" (tp_sandbox_template e) (tp_sandbox_template proposed) in
      let? warm_pool := merge_once "sandboxWarmPool" (tp_sandbox_warm_pool e) (tp_sandbox_warm_pool proposed) in
      let? claim := merge_once "sandboxClaim" (tp_sandbox_claim e) (tp_sandbox_claim proposed) in
      let? sandbox := merge_once "sandbox" (tp_sandbox e) (tp_sandbox proposed) in
      let? pod := merge_once "pod" (tp_pod e) (tp_pod proposed) in
      let? service := merge_once "service" (tp_service e) (tp_service proposed) in
      let? required := merge_once "serviceRequired" (tp_service_required e) (tp_service_required proposed) in
      let? workspace := merge_once "workspaceVolumeRequired" (tp_workspace_volume_required e)
                          (tp_workspace_volume_required proposed) in
      Ok {| tp_namespace := tp_namespace e; tp_child_cluster_lease := lease; tp_child_cluster_instance := instance;
            tp_child_cluster_kubeconfig_secret := secret; tp_child_cluster_kubeconfig_sha256 := sha;
            tp_sandbox_template := template; tp_sandbox_warm_pool := warm_pool; tp_sandbox_claim := claim;
            tp_sandbox := sandbox; tp_pod := pod;
            tp_replacement_pods := merge_append_only (tp_replacement_pods e) (tp_replacement_pods proposed);
            tp_service := service; tp_service_required := required; tp_workspace_volume_required := workspace |}
  end.

(** ** Phases *)

Definition consumes_capacity (p : SandboxLeasePhase.t) : bool :=
  match p with SandboxLeasePhase.Released | SandboxLeasePhase.Expired => false | _ => true end.

Inductive SandboxLifecycleError : Type :=
| InvalidDuration (what : string)
| TimestampOverflow
| MissingProvisioningDeadline
| MalformedProvisioningDeadline
| ProvisioningDeadlineElapsed
| PersistedTimestampChanged (what : string)
| CleanupProofRequired
| InvalidTransition (current next : SandboxLeasePhase.t).

Definition phase_transition_allowed (current next : SandboxLeasePhase.t) : bool :=
  match current, next with
  | SandboxLeasePhase.Pending,
      (SandboxLeasePhase.Provisioning | SandboxLeasePhase.Releasing | SandboxLeasePhase.Quarantined)
  | SandboxLeasePhase.Provisioning,
      (SandboxLeasePhase.Ready | SandboxLeasePhase.Releasing | SandboxLeasePhase.Quarantined)
  | SandboxLeasePhase.Ready, (SandboxLeasePhase.Releasing | SandboxLeasePhase.Quarantined)
  | SandboxLeasePhase.Releasing,
      (SandboxLeasePhase.Released | SandboxLeasePhase.Expired | SandboxLeasePhase.Quarantined)
  | SandboxLeasePhase.Quarantined, SandboxLeasePhase.Releasing => true
  | _, _ => false
  end.

Definition transition_sandbox_phase (current next : SandboxLeasePhase.t) (cleanup_verified : bool)
  : result SandboxLeasePhase.t SandboxLifecycleError :=
  if bool_decide (current = next) then Ok current
  else
    let? _ := deny_if (negb (consumes_capacity next) && negb cleanup_verified) CleanupProofRequired in
    if phase_transition_allowed current next then Ok next else Err (InvalidTransition current next).

(** ** Deadlines and expiry *)

Section Clock.

(** [chrono]: the instants it can represent, the text of
    [to_rfc3339_opts(AutoSi, true)] and [parse_from_rfc3339]. *)
Context (representable : Z -> bool) (to_rfc3339 : Z -> string) (parse_rfc3339 : string -> option Z).

Definition checked_add_signed (t d : Z) : option Z := if representable (t + d) then Some (t + d) else None.

Definition sandbox_provisioning_deadline (accepted_at provisioning_timeout : Z) : result string SandboxLifecycleError :=
  let? _ := deny_if (provisioning_timeout <=? 0) (InvalidDuration "provisioning timeout") in
  let? deadline := ok_or (checked_add_signed accepted_at provisioning_timeout) TimestampOverflow in
  Ok (to_rfc3339 deadline).

Definition with_provisioning (s : SandboxLeaseStatus) (generation : Z) (deadline : string) : SandboxLeaseStatus :=
  {| ls_phase := SandboxLeasePhase.Provisioning; ls_observed_generation := Some generation;
     ls_provisioning_deadline := Some deadline; ls_ready_at := ls_ready_at s; ls_expires_at := ls_expires_at s;
     ls_extensions_count := ls_extensions_count s; ls_granted_extension_seconds := ls_granted_extension_seconds s;
     ls_release_cause := ls_release_cause s; ls_placement := ls_placement s; ls_target := ls_target s;
     ls_teardown := ls_teardown s; ls_conditions := ls_conditions s |}.

Definition begin_sandbox_provisioning (s : SandboxLeaseStatus) (observed_generation accepted_at provisioning_timeout : Z)
  : result SandboxLeaseStatus SandboxLifecycleError :=
  let? deadline := sandbox_provisioning_deadline accepted_at provisioning_timeout in
  let? _ := deny_if (match ls_provisioning_deadline s with
                     | Some persisted => negb (String.eqb persisted deadline)
                     | None => false
                     end) (PersistedTimestampChanged "provisioningDeadline") in
  if bool_decide (ls_phase s = SandboxLeasePhase.Provisioning) then
    if str_opt_eqb (ls_provisioning_deadline s) (Some deadline)
       && bool_decide (ls_observed_generation s = Some observed_generation)
    then Ok s
    else Err (PersistedTimestampChanged "provisioningDeadline")
  else
    let? _ := transition_sandbox_phase (ls_phase s) SandboxLeasePhase.Provisioning false in
    Ok (with_provisioning s observed_generation deadline).

Definition with_ready (s : SandboxLeaseStatus) (generation : Z) (ready_at expires_at : string) : SandboxLeaseStatus :=
  {| ls_phase := SandboxLeasePhase.Ready; ls_observed_generation := Some generation;
     ls_provisioning_deadline := ls_provisioning_deadline s; ls_ready_at := Some ready_at;
     ls_expires_at := Some expires_at; ls_extensions_count := ls_extensions_count s;
     ls_granted_extension_seconds := ls_granted_extension_seconds s; ls_release_cause := ls_release_cause s;
     ls_placement := ls_placement s; ls_target := ls_target s; ls_teardown := ls_teardown s; ls_conditions := ls_conditions s |}.

(** The derivation of [expiresAt] inside [mark_sandbox_ready]. *)
Definition derived_expiry (ready_at ttl granted : Z) : option Z :=
  value ← checked_add_signed ready_at ttl; checked_add_signed value granted.

Definition mark_sandbox_ready (s : SandboxLeaseStatus) (observed_generation ready_at runtime_ttl : Z)
  : result SandboxLeaseStatus SandboxLifecycleError :=
  let? _ := deny_if (runtime_ttl <=? 0) (InvalidDuration "runtime TTL") in
  let? text := ok_or (ls_provisioning_deadline s) MissingProvisioningDeadline in
  let? deadline := ok_or (parse_rfc3339 text) MalformedProvisioningDeadline in
  let? _ := deny_if (deadline <? ready_at) ProvisioningDeadlineElapsed in
  let ready_at_string := to_rfc3339 ready_at in
  let? granted := ok_or (try_seconds (ls_granted_extension_seconds s)) TimestampOverflow in
  let? _ := deny_if (granted <? 0) (InvalidDuration "granted extension") in
  let? expires := ok_or (derived_expiry ready_at runtime_ttl granted) TimestampOverflow in
  let expires_at := to_rfc3339 expires in
  if bool_decide (ls_phase s = SandboxLeasePhase.Ready) then
    if str_opt_eqb (ls_ready_at s) (Some ready_at_string)
       && str_opt_eqb (ls_expires_at s) (Some expires_at)
       && bool_decide (ls_observed_generation s = Some observed_generation)
    then Ok s
    else Err (PersistedTimestampChanged "readyAt/expiresAt")
  else
    let? _ := transition_sandbox_phase (ls_phase s) SandboxLeasePhase.Ready false in
    Ok (with_ready s observed_generation ready_at_string expires_at).

Lemma try_seconds_Some n d : try_seconds n = Some d -> d = seconds n.
Proof. unfold try_seconds. by case_match; intros [= <-]. Qed.

Lemma mark_sandbox_ready_Ok s g t ttl s' :
  mark_sandbox_ready s g t ttl = Ok s' ->
  exists d, derived_expiry t ttl (seconds (ls_granted_extension_seconds s)) = Some d /\ s' = with_ready s g (to_rfc3339 t) (to_rfc3339 d).
Proof.
  unfold mark_sandbox_ready. intros H. unbind H.
  rewrite ok_or_Ok in Hok3, Hok5. apply try_seconds_Some in Hok3 as ->.
  exists a5. split; [done|]. case_bool_decide as Hphase.
  - destruct (_ && _) eqn:Hsame; [|done]. injection H as <-.
    rewrite !andb_true_iff, !str_opt_eqb_eq, bool_decide_eq_true in Hsame. destruct Hsame as [[Hr He] Hg].
    destruct s. cbn in *. by subst.
  - unbind H. by injection H as <-.
Qed.

(** Marking a Ready status again, with the same inputs, is a no-op. *)
Lemma mark_sandbox_ready_again s g t ttl s' :
  mark_sandbox_ready s g t ttl = Ok s' -> mark_sandbox_ready s' g t ttl = Ok s'.
Proof.
  intros H. pose proof (mark_sandbox_ready_Ok _ _ _ _ _ H) as (d & Hd & ->).
  unfold mark_sandbox_ready in *. cbn -[try_seconds]. unbind H.
  rewrite ok_or_Ok in Hok3, Hok5. pose proof (try_seconds_Some _ _ Hok3) as ->. rewrite Hd in Hok5.
  injection Hok5 as <-. by rewrite !String.eqb_refl, !bool_decide_true.
Qed.

End Clock.

(** ** What recorded provenance can become *)

(** A recorded field is never cleared and never changed. *)
Definition grows {A} (a b : option A) : Prop := forall x, a = Some x -> b = Some x.

#[global] Instance grows_preorder {A} : PreOrder (@grows A).
Proof. split; [by intros a x|intros a b c Hab Hbc x Hx; by apply Hbc, Hab]. Qed.

Record provenance_le (e m : SandboxTargetProvenance) : Prop := {
  le_namespace : tp_namespace m = tp_namespace e;
  le_lease : grows (tp_child_cluster_lease e) (tp_child_cluster_lease m);
  le_instance : grows (tp_child_cluster_instance e) (tp_child_cluster_instance m);
  le_secret : grows (tp_child_cluster_kubeconfig_secret e) (tp_child_cluster_kubeconfig_secret m);
  le_sha256 : grows (tp_child_cluster_kubeconfig_sha256 e) (tp_child_cluster_kubeconfig_sha256 m);
  le_template : grows (tp_sandbox_template e) (tp_sandbox_template m);
  le_warm_pool : grows (tp_sandbox_warm_pool e) (tp_sandbox_warm_pool m);
  le_claim : grows (tp_sandbox_claim e) (tp_sandbox_claim m);
  le_sandbox : grows (tp_sandbox e) (tp_sandbox m);
  le_pod : grows (tp_pod e) (tp_pod m);
  le_service : grows (tp_service e) (tp_service m);
  le_service_required : grows (tp_service_required e) (tp_service_required m);
  le_workspace : grows (tp_workspace_volume_required e) (tp_workspace_volume_required m);
  le_replacements : tp_replacement_pods e `prefix_of` tp_replacement_pods m;
}.

#[global] Instance provenance_le_preorder : PreOrder provenance_le.
Proof.
  split; [intros e; by split|]. intros a b c [] []. split; try congruence; by etrans.
Qed.

Definition with_replacements (p : SandboxTargetProvenance) (pods : list SandboxObjectReference)
  : SandboxTargetProvenance :=
  {| tp_namespace := tp_namespace p; tp_child_cluster_lease := tp_child_cluster_lease p;
     tp_child_cluster_instance := tp_child_cluster_instance p;
     tp_child_cluster_kubeconfig_secret := tp_child_cluster_kubeconfig_secret p;
     tp_child_cluster_kubeconfig_sha256 := tp_child_cluster_kubeconfig_sha256 p;
     tp_sandbox_template := tp_sandbox_template p; tp_sandbox_warm_pool := tp_sandbox_warm_pool p;
     tp_sandbox_claim := tp_sandbox_claim p; tp_sandbox := tp_sandbox p; tp_pod := tp_pod p;
     tp_replacement_pods := pods; tp_service := tp_service p; tp_service_required := tp_service_required p;
     tp_workspace_volume_required := tp_workspace_volume_required p |}.

Lemma merge_once_Ok {A} `{EqDecision A} field (e p m : option A) :
  merge_once field e p = Ok m -> m = p /\ grows e m.
Proof.
  unfold merge_once. destruct e as [x|], p as [y|]; try done; [|by intros [= <-]..].
  case_bool_decide; [|done]. by intros [= <-]; simplify_eq.
Qed.

Lemma merge_once_same {A} `{EqDecision A} field (p : option A) : merge_once field p p = Ok p.
Proof. unfold merge_once. destruct p; [|done]. by rewrite bool_decide_true. Qed.

Lemma merge_append_only_prefix e p : e `prefix_of` merge_append_only e p.
Proof.
  revert e. induction p as [|r p IH]; intros e; cbn; [done|].
  etrans; [|apply IH]. case_match; [done|by apply prefix_app_r].
Qed.

Lemma merge_append_only_known e p : Forall (fun r => r ∈ e) p -> merge_append_only e p = e.
Proof.
  intros Hp. induction Hp as [|r p Hr _ IH]; cbn; [done|].
  rewrite (proj2 (existsb_exists _ _)); [done|].
  exists r. split; [by apply list_elem_of_In|by apply bool_decide_eq_true].
Qed.

Lemma merge_target_provenance_Some e p placement ns m :
  merge_target_provenance (Some e) p placement ns = Ok m ->
  m = with_replacements p (merge_append_only (tp_replacement_pods e) (tp_replacement_pods p)) /\
  provenance_le e m /\ validate_resolved_placement placement ns = Ok tt /\ validate_target_provenance p placement ns = Ok tt.
Proof.
  unfold merge_target_provenance. intros H. unbind H.
  rewrite deny_if_Ok, negb_false_iff, String.eqb_eq in Hok2.
  repeat match goal with Hm : merge_once _ _ _ = Ok _ |- _ => apply merge_once_Ok in Hm as [-> ?] end.
  injection H as <-. destruct a, a0. split_and!; try done; [unfold with_replacements; congruence|].
  split; try done. apply merge_append_only_prefix.
Qed.

(** The provenance after a controller has recorded each of [proposals] in
    turn; a refused record leaves the stored value. *)
Fixpoint record_all (placement : ResolvedSandboxPlacement) (ns : string) (stored : SandboxTargetProvenance)
    (proposals : list SandboxTargetProvenance) : SandboxTargetProvenance :=
  match proposals with
  | [] => stored
  | p :: proposals =>
      record_all placement ns
        match merge_target_provenance (Some stored) p placement ns with Ok m => m | Err _ => stored end proposals
  end.

Definition recordable (placement : ResolvedSandboxPlacement) (ns : string) (p : SandboxTargetProvenance) : Prop :=
  validate_resolved_placement placement ns = Ok tt /\ validate_target_provenance p placement ns = Ok tt.

Lemma merge_recorded e p placement ns m :
  merge_target_provenance e p placement ns = Ok m -> recordable placement ns m.
Proof.
  destruct e as [e|]; intros H.
  - by apply merge_target_provenance_Some in H as (-> & _ & ? & ?).
  - unfold merge_target_provenance in H. unbind H. destruct a, a0. by injection H as <-.
Qed.

Lemma merge_again placement ns m :
  recordable placement ns m -> merge_target_provenance (Some m) m placement ns = Ok m.
Proof.
  intros [Hp Hm]. unfold merge_target_provenance. rewrite Hp, Hm, String.eqb_refl. cbn [negb deny_if].
  rewrite !merge_once_same, merge_append_only_known by (by apply list.Forall_forall). by destruct m.
Qed.

Lemma record_all_spec placement ns proposals : forall stored, recordable placement ns stored ->
  recordable placement ns (record_all placement ns stored proposals) /\
  provenance_le stored (record_all placement ns stored proposals).
Proof.
  induction proposals as [|p proposals IH]; intros stored Hs; cbn; [done|].
  destruct (merge_target_provenance (Some stored) p placement ns) as [m|] eqn:Hm; [|by apply IH].
  destruct (IH m (merge_recorded _ _ _ _ _ Hm)) as [? ?]. split; [done|].
  apply merge_target_provenance_Some in Hm as (_ & ? & _). by etrans.
Qed.

(** A status with another target. *)
Definition with_target (s : SandboxLeaseStatus) (target : SandboxTargetProvenance) : SandboxLeaseStatus :=
  {| ls_phase := ls_phase s; ls_observed_generation := ls_observed_generation s;
     ls_provisioning_deadline := ls_provisioning_deadline s; ls_ready_at := ls_ready_at s;
     ls_expires_at := ls_expires_at s; ls_extensions_count := ls_extensions_count s;
     ls_granted_extension_seconds := ls_granted_extension_seconds s; ls_release_cause := ls_release_cause s;
     ls_placement := ls_placement s; ls_target := Some target; ls_teardown := ls_teardown s; ls_conditions := ls_conditions s |}.

Lemma is_none_grows {A} (a b : option A) : grows a b -> is_none a = false -> is_none b = false.
Proof. intros Hg. destruct a as [x|]; [|done]. by rewrite (Hg x). Qed.

Lemma release_safe_recordable s ns placement e :
  ls_placement s = Some placement -> require_release_safe_target_provenance s ns = Ok e -> recordable placement ns e.
Proof.
  intros Hp Hsafe. unfold require_release_safe_target_provenance, require_resolved_placement in Hsafe.
  rewrite Hp in Hsafe. cbn [ok_or] in Hsafe. destruct (validate_resolved_placement placement ns) as [[]|] eqn:Hvp; [|done].
  unbind Hsafe. destruct a0, a1. injection Hsafe as ->. by split.
Qed.

(** A target that has grown out of a release-safe one and is valid is safe to
    release too. *)
Lemma release_safe_grows s ns placement e m :
  ls_placement s = Some placement -> require_release_safe_target_provenance s ns = Ok e ->
  validate_target_provenance m placement ns = Ok tt -> provenance_le e m ->
  require_release_safe_target_provenance (with_target s m) ns = Ok m.
Proof.
  intros Hp Hsafe Hv Hle. unfold require_release_safe_target_provenance, require_resolved_placement in *.
  cbn [ls_placement ls_target with_target]. rewrite Hp in *. cbn [ok_or] in *.
  destruct (validate_resolved_placement placement ns) as [[]|] eqn:Hvp; [|done].
  unbind Hsafe. destruct a0, a1. injection Hsafe as ->. rewrite Hv. destruct Hle.
  destruct placement; [by rewrite le_namespace0, Hok1|].
  rewrite deny_if_Ok, orb_false_iff in Hok1. destruct Hok1 as [Hl Hi].
  by rewrite (is_none_grows _ _ le_lease0 Hl), (is_none_grows _ _ le_instance0 Hi).
Qed.

(** Whatever sequence of records is attempted through [merge_target_provenance]
    on a lease that could be released, accepted or refused, every identity
    recorded before keeps its exact value, replaced pods are only appended,
    the stored target is still valid and safe to release, and recording it
    again changes nothing. *)
Theorem merged_provenance_only_grows (s : SandboxLeaseStatus) (ns : string) (placement : ResolvedSandboxPlacement)
    (e : SandboxTargetProvenance) (proposals : list SandboxTargetProvenance)
    (Hp : ls_placement s = Some placement)
    (Hsafe : require_release_safe_target_provenance s ns = Ok e) :
  let m := record_all placement ns e proposals in
  provenance_le e m /\ require_release_safe_target_provenance (with_target s m) ns = Ok m /\
  merge_target_provenance (Some m) m placement ns = Ok m.
Proof.
  intros m. destruct (record_all_spec placement ns proposals e) as [Hr Hle]; [by eapply release_safe_recordable|].
  split_and!; [done| |by apply merge_again]. destruct Hr. by eapply release_safe_grows.
Qed.

(** ** The service requirement, recorded when a lease becomes Ready *)

Definition with_service_required (p : SandboxTargetProvenance) (required : option bool) : SandboxTargetProvenance :=
  {| tp_namespace := tp_namespace p; tp_child_cluster_lease := tp_child_cluster_lease p;
     tp_child_cluster_instance := tp_child_cluster_instance p;
     tp_child_cluster_kubeconfig_secret := tp_child_cluster_kubeconfig_secret p;
     tp_child_cluster_kubeconfig_sha256 := tp_child_cluster_kubeconfig_sha256 p;
     tp_sandbox_template := tp_sandbox_template p; tp_sandbox_warm_pool := tp_sandbox_warm_pool p;
     tp_sandbox_claim := tp_sandbox_claim p; tp_sandbox := tp_sandbox p; tp_pod := tp_pod p;
     tp_replacement_pods := tp_replacement_pods p; tp_service := tp_service p; tp_service_required := required;
     tp_workspace_volume_required := tp_workspace_volume_required p |}.

Definition record_service_requirement_at_ready (phase_before_ready : SandboxLeasePhase.t) (next : SandboxLeaseStatus)
    (service_required : bool) : SandboxLeaseStatus :=
  if bool_decide (phase_before_ready = SandboxLeasePhase.Ready) then next
  else match ls_target next with
       | None => next
       | Some target =>
           with_target next (with_service_required target
             (Some (default service_required (tp_service_required target))))
       end.

Lemma requirement_grows phase next b t t' :
  ls_target next = Some t -> ls_target (record_service_requirement_at_ready phase next b) = Some t' ->
  provenance_le t t' /\ forall placement ns, recordable placement ns t -> recordable placement ns t'.
Proof.
  unfold record_service_requirement_at_ready. intros Ht H. case_bool_decide; [by simplify_eq|].
  rewrite Ht in H. cbn in H. injection H as <-. split; [|done]. split; try done. cbn. by intros x ->.
Qed.

Definition sample_reference (api_version kind ns name : string) (generation : option Z) : SandboxObjectReference :=
  {| oref_api_version := api_version; oref_kind := kind; oref_namespace := Some ns; oref_name := name;
     oref_uid := "uid-" +:+ name; oref_generation := generation |}.

Definition sample_target (pod service : option SandboxObjectReference) (replacements : list SandboxObjectReference)
  : SandboxTargetProvenance :=
  {| tp_namespace := CHILD_SANDBOX_NAMESPACE;
     tp_child_cluster_lease := Some (sample_reference KOBE_API_VERSION "ClusterLease" "kobe" "child" (Some 1));
     tp_child_cluster_instance := Some (sample_reference KOBE_API_VERSION "ClusterInstance" "kobe" "c1" (Some 1));
     tp_child_cluster_kubeconfig_secret := None; tp_child_cluster_kubeconfig_sha256 := None;
     tp_sandbox_template := None; tp_sandbox_warm_pool := None; tp_sandbox_claim := None; tp_sandbox := None;
     tp_pod := pod; tp_replacement_pods := replacements; tp_service := service; tp_service_required := Some false;
     tp_workspace_volume_required := None |}.

Definition sample_pod (name : string) : SandboxObjectReference :=
  sample_reference CORE_API_VERSION "Pod" CHILD_SANDBOX_NAMESPACE name None.

Definition sample_placement : ResolvedSandboxPlacement :=
  PlacedChildCluster (sample_reference KOBE_API_VERSION "ClusterPool" "kobe" "pool" (Some 3)).

Definition sample_lease_status : SandboxLeaseStatus :=
  {| ls_phase := SandboxLeasePhase.Ready; ls_observed_generation := Some 1; ls_provisioning_deadline := None;
     ls_ready_at := None; ls_expires_at := None; ls_extensions_count := 0; ls_granted_extension_seconds := 0;
     ls_release_cause := None; ls_placement := Some sample_placement;
     ls_target := Some (sample_target (Some (sample_pod "p1")) None []); ls_teardown := no_teardown; ls_conditions := [] |}.

(** Three attempts: a changed pod and a cleared pod are refused, a replacement
    is appended. *)
Definition sample_proposals : list SandboxTargetProvenance :=
  [sample_target (Some (sample_pod "p2")) None []; sample_target None None [];
   sample_target (Some (sample_pod "p1")) None [sample_pod "p2"]].

Lemma merged_provenance_only_grows_witness :
  record_all sample_placement "kobe" (sample_target (Some (sample_pod "p1")) None []) sample_proposals
    = sample_target (Some (sample_pod "p1")) None [sample_pod "p2"] /\
  provenance_le (sample_target (Some (sample_pod "p1")) None [])
    (record_all sample_placement "kobe" (sample_target (Some (sample_pod "p1")) None []) sample_proposals).
Proof.
  split; [by vm_compute|].
  by apply (merged_provenance_only_grows sample_lease_status "kobe" sample_placement _ sample_proposals); vm_compute.
Defined.

(** ** Phases over time *)

(** The phase after a sequence of attempted transitions; a refused one leaves
    the phase. *)
Definition attempt_phase (p : SandboxLeasePhase.t) (a : SandboxLeasePhase.t * bool) : SandboxLeasePhase.t :=
  match transition_sandbox_phase p (fst a) (snd a) with Ok q => q | Err _ => p end.

Definition run_phases (p : SandboxLeasePhase.t) (attempts : list (SandboxLeasePhase.t * bool)) : SandboxLeasePhase.t :=
  fold_left attempt_phase attempts p.

(** The phases a lease never leaves towards use again. *)
Definition past_use (p : SandboxLeasePhase.t) : bool :=
  match p with
  | SandboxLeasePhase.Pending | SandboxLeasePhase.Provisioning | SandboxLeasePhase.Ready => false
  | _ => true
  end.

Lemma attempt_clean_stays p a : consumes_capacity p = false -> attempt_phase p a = p.
Proof. destruct a as [q []], p, q; by vm_compute. Qed.

Lemma attempt_past_use p a : past_use p = true -> past_use (attempt_phase p a) = true.
Proof. destruct a as [q []], p, q; by vm_compute. Qed.

Lemma attempt_frees p a :
  consumes_capacity p = true -> consumes_capacity (attempt_phase p a) = false ->
  p = SandboxLeasePhase.Releasing /\ a = (attempt_phase p a, true).
Proof. destruct a as [q []], p, q; by vm_compute. Qed.

Lemma run_clean_stays p attempts : consumes_capacity p = false -> run_phases p attempts = p.
Proof.
  intros Hp. induction attempts as [|a attempts IH]; [done|]. unfold run_phases in *. cbn.
  by rewrite attempt_clean_stays.
Qed.

Lemma run_past_use attempts : forall p, past_use p = true -> past_use (run_phases p attempts) = true.
Proof.
  induction attempts as [|a attempts IH]; intros p Hp; [done|]. by apply (IH (attempt_phase p a)), attempt_past_use.
Qed.

(** Capacity comes back only with a cleanup proof: for any sequence of
    attempted phase changes on a lease that holds capacity, if it ends in
    Released or Expired then one attempt made exactly that change with cleanup
    verified, out of Releasing; no later attempt of any kind changes a clean
    phase; and a lease that has started to release is never Ready again. *)
Theorem capacity_returns_with_cleanup_proof (p : SandboxLeasePhase.t) (attempts : list (SandboxLeasePhase.t * bool))
    (Hheld : consumes_capacity p = true) :
  let q := run_phases p attempts in
  (consumes_capacity q = false ->
   exists before after, attempts = before ++ (q, true) :: after /\ run_phases p before = SandboxLeasePhase.Releasing) /\
  (forall more, (consumes_capacity q = false -> run_phases q more = q) /\
                (past_use q = true -> run_phases q more <> SandboxLeasePhase.Ready)).
Proof.
  intros q. split.
  - subst q. revert p Hheld. induction attempts as [|a attempts IH]; intros p Hheld Hq.
    { unfold run_phases in Hq. cbn in Hq. congruence. }
    change (run_phases p (a :: attempts)) with (run_phases (attempt_phase p a) attempts) in *.
    destruct (consumes_capacity (attempt_phase p a)) eqn:Ha.
    + destruct (IH _ Ha Hq) as (before & after & Hat & Hr). exists (a :: before), after.
      by rewrite Hat at 1.
    + destruct (attempt_frees p a Hheld Ha) as [-> Hpair]. rewrite run_clean_stays by done.
      exists [], attempts. by rewrite <- Hpair.
  - intros more. split; [apply run_clean_stays|]. intros Hq Hr. apply (run_past_use more) in Hq. by rewrite Hr in Hq.
Qed.

Lemma capacity_returns_with_cleanup_proof_witness :
  let attempts := [(SandboxLeasePhase.Provisioning, false); (SandboxLeasePhase.Released, true);
                   (SandboxLeasePhase.Releasing, false); (SandboxLeasePhase.Quarantined, false);
                   (SandboxLeasePhase.Released, true); (SandboxLeasePhase.Releasing, false);
                   (SandboxLeasePhase.Expired, false); (SandboxLeasePhase.Expired, true)] in
  run_phases SandboxLeasePhase.Pending attempts = SandboxLeasePhase.Expired /\
  run_phases SandboxLeasePhase.Expired attempts = SandboxLeasePhase.Expired.
Proof.
  intros attempts. split; [by vm_compute|].
  by apply (capacity_returns_with_cleanup_proof SandboxLeasePhase.Pending attempts).
Defined.
