(* ===== verification/LedgerApi.v ===== *)
(** * LedgerApi: the objects of the Sandbox access ledger and their API server

    The coordination [Lease] objects of the protected ledger namespace, the
    JSON patches [src/sandbox_access_ledger.rs] sends, the API server that
    applies them (creates serialized by name, every write under a fresh
    [resourceVersion]), and programs over that server: a handler is a value of
    [prog], the sequence of requests it makes with what it does on each
    possible answer.  [run] executes one program alone on the server; the
    interleaved executions are in LedgerBarrier. *)

From S2P Require Import Prelude Text SandboxObjects.

(** ** Objects *)

(** [k8s_openapi::api::coordination::v1::LeaseSpec]; the timestamps are kept as
    text. *)
Record LeaseSpec : Type := {
  spec_acquire_time : option string;
  spec_holder_identity : option string;
  spec_lease_duration_seconds : option Z;
  spec_lease_transitions : option Z;
  spec_preferred_holder : option string;
  spec_renew_time : option string;
  spec_strategy : option string;
}.
#[global] Instance LeaseSpec_eq_dec : EqDecision LeaseSpec. Proof. solve_decision. Defined.

Definition LeaseSpec_default : LeaseSpec :=
  {| spec_acquire_time := None; spec_holder_identity := None; spec_lease_duration_seconds := None;
     spec_lease_transitions := None; spec_preferred_holder := None; spec_renew_time := None;
     spec_strategy := None |}.

(** A [Lease] with the metadata the ledger reads.  [labels()] and
    [annotations()] of [kube::ResourceExt] read an absent map as an empty one. *)
Record Lease : Type := {
  l_name : string;
  l_namespace : option string;
  l_uid : option string;
  l_resource_version : option string;
  l_labels : gmap string string;
  l_annotations : gmap string string;
  l_owner_references : option (list string);
  l_finalizers : option (list string);
  l_deletion_timestamp : option string;
  l_spec : option LeaseSpec;
}.
#[global] Instance Lease_eq_dec : EqDecision Lease. Proof. solve_decision. Defined.

Definition with_annotation (o : Lease) (key value : string) : Lease :=
  {| l_name := l_name o; l_namespace := l_namespace o; l_uid := l_uid o;
     l_resource_version := l_resource_version o; l_labels := l_labels o;
     l_annotations := <[key := value]> (l_annotations o); l_owner_references := l_owner_references o;
     l_finalizers := l_finalizers o; l_deletion_timestamp := l_deletion_timestamp o; l_spec := l_spec o |}.

Definition stamped (o : Lease) (uid rv : option string) : Lease :=
  {| l_name := l_name o; l_namespace := l_namespace o; l_uid := uid; l_resource_version := rv;
     l_labels := l_labels o; l_annotations := l_annotations o; l_owner_references := l_owner_references o;
     l_finalizers := l_finalizers o; l_deletion_timestamp := l_deletion_timestamp o; l_spec := l_spec o |}.

(** The metadata and the identity of a serving Pod, as a [get] returns it. *)
Record Pod : Type := {
  pod_meta_name : string;
  pod_meta_namespace : option string;
  pod_meta_uid : option string;
}.

(** ** Errors *)

(** [kube::Error]: a status the API server returned (its code, and the number of
    causes when the status carries details) or anything else. *)
Inductive kube_error : Type :=
| Api (code : Z) (causes : option nat)
| Transport.

Definition is_404 (e : kube_error) : bool := match e with Api code _ => code =? 404 | Transport => false end.
Definition is_409 (e : kube_error) : bool := match e with Api code _ => code =? 409 | Transport => false end.

Definition optimistic_conflict (e : kube_error) : bool :=
  match e with
  | Transport => false
  | Api code causes =>
      if code =? 409 then true
      else if code =? 422 then match causes with None => true | Some n => Nat.eqb n 0 end
      else false
  end.

(** ** Writes and the server *)

Inductive patch_op : Type :=
| TestUid (value : string)
| TestResourceVersion (value : string)
| TestAnnotation (key value : string)
| ReplaceAnnotation (key value : string).

Inductive write : Type :=
| Create (o : Lease)
| PatchJson (name : string) (ops : list patch_op)
| Delete (name uid rv : string).

(** One RFC 6902 operation: a failed test, and a replacement of an absent
    annotation, reject the whole patch. *)
Definition apply_op (o : Lease) (op : patch_op) : option Lease :=
  match op with
  | TestUid v => if bool_decide (l_uid o = Some v) then Some o else None
  | TestResourceVersion v => if bool_decide (l_resource_version o = Some v) then Some o else None
  | TestAnnotation k v => if bool_decide (l_annotations o !! k = Some v) then Some o else None
  | ReplaceAnnotation k v => if bool_decide (is_Some (l_annotations o !! k)) then Some (with_annotation o k v) else None
  end.

Fixpoint apply_ops (ops : list patch_op) (o : Lease) : option Lease :=
  match ops with
  | [] => Some o
  | op :: ops => match apply_op o op with Some o => apply_ops ops o | None => None end
  end.

(** The stored objects, and the next version the server will assign. *)
Record Server : Type := { objects : gmap string Lease; next_version : Z }.

Definition version (n : Z) : string := show_uint n.
Definition fresh_uid (n : Z) : string := "uid-" +:+ show_uint n.

Definition put (s : Server) (o : Lease) : Server :=
  {| objects := <[l_name o := o]> (objects s); next_version := next_version s + 1 |}.

Definition not_found : kube_error := Api 404 None.

Definition apply_write (s : Server) (w : write) : Server * result Lease kube_error :=
  match w with
  | Create o =>
      match objects s !! l_name o with
      | Some _ => (s, Err (Api 409 None))
      | None =>
          let o := stamped o (Some (fresh_uid (next_version s))) (Some (version (next_version s))) in
          (put s o, Ok o)
      end
  | PatchJson name ops =>
      match objects s !! name with
      | None => (s, Err not_found)
      | Some o =>
          match apply_ops ops o with
          | None => (s, Err (Api 422 None))
          | Some o' =>
              if bool_decide (o' = o) then (s, Ok o)
              else let o' := stamped o' (l_uid o) (Some (version (next_version s))) in (put s o', Ok o')
          end
      end
  | Delete name uid rv =>
      match objects s !! name with
      | None => (s, Err not_found)
      | Some o =>
          if bool_decide (l_uid o = Some uid /\ l_resource_version o = Some rv)
          then ({| objects := delete name (objects s); next_version := next_version s |}, Ok o)
          else (s, Err (Api 409 None))
      end
  end.

Definition get_object (s : Server) (name : string) : result Lease kube_error :=
  match objects s !! name with Some o => Ok o | None => Err not_found end.

(** Iteration over a [BTreeMap<String, _>]: ascending keys, bytewise. *)
Definition key_le {A} (a b : string * A) : Prop := String.le a.1 b.1.
#[global] Instance key_le_dec {A} : RelDecision (@key_le A).
Proof. intros a b. unfold key_le. apply _. Defined.

Definition btree_iter {A} (m : gmap string A) : list (string * A) := merge_sort key_le (map_to_list m).

Definition list_objects (s : Server) : list Lease := map snd (btree_iter (objects s)).

Lemma btree_iter_perm {A} (m : gmap string A) : btree_iter m ≡ₚ map_to_list m.
Proof. apply merge_sort_Permutation. Qed.

Lemma elem_of_btree_iter {A} (m : gmap string A) k v : (k, v) ∈ btree_iter m <-> m !! k = Some v.
Proof. rewrite btree_iter_perm. apply elem_of_map_to_list. Qed.

Lemma btree_iter_NoDup {A} (m : gmap string A) : NoDup (btree_iter m).*1.
Proof. rewrite btree_iter_perm. apply NoDup_fst_map_to_list. Qed.

Lemma btree_iter_map {A} (m : gmap string A) : list_to_map (btree_iter m) = m.
Proof.
  transitivity (list_to_map (map_to_list m) : gmap string A); [|apply list_to_map_to_list].
  apply list_to_map_proper; [apply btree_iter_NoDup | apply btree_iter_perm].
Qed.

Lemma btree_iter_nil {A} (m : gmap string A) : btree_iter m = [] <-> m = ∅.
Proof.
  split; [|intros ->; done]. intros H. rewrite <- (btree_iter_map m), H. done.
Qed.

(** ** Data of the ledger *)

(** Cluster identity of the API process serving one operation. *)
Record ServingReplica : Type := {
  rep_namespace : string;
  rep_pod_name : string;
  rep_pod_uid : string;
  rep_boot_id : string;
}.
#[global] Instance ServingReplica_eq_dec : EqDecision ServingReplica. Proof. solve_decision. Defined.
#[global] Instance ServingReplica_countable : Countable ServingReplica.
Proof.
  refine (inj_countable' (fun r => (rep_namespace r, rep_pod_name r, rep_pod_uid r, rep_boot_id r))
    (fun '(a, b, c, d) => {| rep_namespace := a; rep_pod_name := b; rep_pod_uid := c; rep_boot_id := d |}) _).
  by intros [].
Defined.

(** What a guard needs to retire its own entries. *)
Record ReleaseRegistration : Type := {
  reg_sandbox_name : string;
  reg_sandbox_uid : string;
  reg_gate_name : string;
  reg_expected_gate_uid : string;
  reg_gate_uid : option string;
  reg_principal_name : string;
  reg_principal_uid : option string;
  reg_principal_hash : string;
  reg_operation_id : string;
  reg_replica : ServingReplica;
}.

(** ** Programs

    [Arm] is the assignment to [guard.registration]: the part of a handler's
    memory that outlives the cancellation of its future. *)
Inductive prog (R : Type) : Type :=
| Ret (r : R)
| GetLease (name : string) (k : result Lease kube_error -> prog R)
| WriteLease (w : write) (k : result Lease kube_error -> prog R)
| ListLeases (k : result (list Lease) kube_error -> prog R)
| GetPod (namespace name : string) (k : result Pod kube_error -> prog R)
| ListSandboxes (namespace : string) (k : result SandboxLeaseList kube_error -> prog R)
| Arm (registration : ReleaseRegistration) (k : prog R).
Arguments Ret {R} r.
Arguments GetLease {R} name k.
Arguments WriteLease {R} w k.
Arguments ListLeases {R} k.
Arguments GetPod {R} namespace name k.
Arguments ListSandboxes {R} namespace k.
Arguments Arm {R} registration k.

Fixpoint bind {A B} (p : prog A) (f : A -> prog B) : prog B :=
  match p with
  | Ret a => f a
  | GetLease n k => GetLease n (fun r => bind (k r) f)
  | WriteLease w k => WriteLease w (fun r => bind (k r) f)
  | ListLeases k => ListLeases (fun r => bind (k r) f)
  | GetPod ns n k => GetPod ns n (fun r => bind (k r) f)
  | ListSandboxes ns k => ListSandboxes ns (fun r => bind (k r) f)
  | Arm g k => Arm g (bind k f)
  end.

(** Sequencing, and sequencing with [?]. *)
Notation "'do' x := p 'in' k" := (bind p (fun x => k))
  (at level 10, x pattern, p at level 100, k at level 200,
   format "'[v' 'do'  x  :=  p  'in' '/' k ']'") : kobe_scope.
Notation "'do?' x := p 'in' k" :=
  (bind p (fun r => match r with Ok x => k | Err e => Ret (Err e) end))
  (at level 10, x pattern, p at level 100, k at level 200,
   format "'[v' 'do?'  x  :=  p  'in' '/' k ']'") : kobe_scope.

(** Everything a program can observe. *)
Record World : Type := {
  w_server : Server;
  w_pods : gmap (string * string) Pod;
  w_sandboxes : SandboxLeaseList;
}.

Definition with_server (w : World) (s : Server) : World :=
  {| w_server := s; w_pods := w_pods w; w_sandboxes := w_sandboxes w |}.

Definition get_pod (w : World) (namespace name : string) : result Pod kube_error :=
  match w_pods w !! (namespace, name) with Some pod => Ok pod | None => Err not_found end.

(** One program run alone, every request answered. *)
Fixpoint run {R} (p : prog R) (w : World) : World * R :=
  match p with
  | Ret r => (w, r)
  | GetLease n k => run (k (get_object (w_server w) n)) w
  | WriteLease c k => let '(s, r) := apply_write (w_server w) c in run (k r) (with_server w s)
  | ListLeases k => run (k (Ok (list_objects (w_server w)))) w
  | GetPod ns n k => run (k (get_pod w ns n)) w
  | ListSandboxes _ k => run (k (Ok (w_sandboxes w))) w
  | Arm _ k => run k w
  end.

Lemma run_bind {A B} (p : prog A) (f : A -> prog B) w :
  run (bind p f) w = let '(w', a) := run p w in run (f a) w'.
Proof.
  revert w. induction p; intros w'; cbn; try done; try (by rewrite H); auto.
  destruct (apply_write _ _). by rewrite H.
Qed.

(** A bound on the number of requests a program makes, whatever the answers. *)
Inductive at_most {R} : nat -> prog R -> Prop :=
| am_ret n r : at_most n (Ret r)
| am_get n name k : (forall r, at_most n (k r)) -> at_most (S n) (GetLease name k)
| am_write n w k : (forall r, at_most n (k r)) -> at_most (S n) (WriteLease w k)
| am_list n k : (forall r, at_most n (k r)) -> at_most (S n) (ListLeases k)
| am_pod n ns name k : (forall r, at_most n (k r)) -> at_most (S n) (GetPod ns name k)
| am_sandboxes n ns k : (forall r, at_most n (k r)) -> at_most (S n) (ListSandboxes ns k)
| am_arm n g k : at_most n k -> at_most n (Arm g k).

Lemma at_most_weaken {R} n m (p : prog R) : at_most n p -> (n <= m)%nat -> at_most m p.
Proof.
  intros H. revert m. induction H; intros m Hle; try (destruct m as [|m]; [lia|]); constructor; auto with lia.
Qed.

Lemma at_most_bind {A B} n m (p : prog A) (f : A -> prog B) :
  at_most n p -> (forall a, at_most m (f a)) -> at_most (n + m) (bind p f).
Proof.
  intros H Hf. induction H; cbn [bind Nat.add]; try (constructor; auto; fail).
  apply at_most_weaken with m; [apply Hf | lia].
Qed.
