(* ===== verification/AccessLedger.v ===== *)
(** * AccessLedger: the distributed admission and teardown barrier of a Sandbox

    Model of [src/sandbox_access_ledger.rs] with its modules [encoding] and
    [storage], and of [src/sandbox_limits.rs].  One gate object per
    [SandboxLease] UID holds the operations that entered it, its open/closed
    state and the rows of the executions reserved under it; one ledger object
    per principal holds the same operations for the principal-wide limit.
    Every handler is a program of LedgerApi, with the requests of the source in
    their order; [serde_json] and SHA-256 are the parameters of [Codec]. *)

From S2P Require Import Prelude Text Execution SandboxObjects LedgerApi.

Open Scope kobe_scope.

(** ** Usage ceilings ([src/sandbox_limits.rs]) *)

Record SandboxLimits : Type := {
  stream_bytes : Z;
  stream_idle_seconds : Z;
  stream_duration_seconds : Z;
  executions_per_lease : Z;
  streams_per_lease : Z;
  streams_per_principal : Z;
  output_bytes : Z;
  stdin_bytes : Z;
  log_tail_lines : Z;
  legacy_exec_seconds : Z;
  admission_burst : Z;
}.

(** Zero disables a ceiling. *)
Definition exceeds (value limit : Z) : bool := negb (limit =? 0) && (limit <? value).

(** [parse]: an unset variable disables the ceiling; anything but a [u64] in
    ASCII digits fails startup. *)
Definition parse_limit (value : option string) : option Z :=
  match value with
  | None => Some 0
  | Some v => if negb (String.eqb v "") && all_bytes is_ascii_digit v then parse_uint u64_max v else None
  end.

(** ** Entries *)

Record GateEntry : Type := { ge_principal_hash : string; ge_replica : ServingReplica }.
#[global] Instance GateEntry_eq_dec : EqDecision GateEntry. Proof. solve_decision. Defined.

Record PrincipalEntry : Type := {
  pe_lease_uid : string;
  pe_gate_name : string;
  pe_replica : ServingReplica;
}.
#[global] Instance PrincipalEntry_eq_dec : EqDecision PrincipalEntry. Proof. solve_decision. Defined.

Inductive ExecutionCreationState : Type := Creating | Bound | Rejected.
#[global] Instance ExecutionCreationState_eq_dec : EqDecision ExecutionCreationState.
Proof. solve_decision. Defined.

Record ExecutionEntry : Type := {
  ee_request_digest : string;
  ee_pod_uid : string;
  ee_reserved_at : string;
  ee_execution_uid : option string;
  ee_creation_state : ExecutionCreationState;
  ee_active : bool;
  ee_writer : option ServingReplica;
}.
#[global] Instance ExecutionEntry_eq_dec : EqDecision ExecutionEntry. Proof. solve_decision. Defined.

Definition effective_creation_state (e : ExecutionEntry) : ExecutionCreationState :=
  if is_some (ee_execution_uid e) then Bound else ee_creation_state e.

Inductive ExecutionCapacity : Type :=
| Reserved
| ExistingActive (execution_uid : option string)
| ExistingTerminal (execution_uid : option string)
| CapacityLeaseClosed
| CapacityLimitReached
| CapacityConflict.
#[global] Instance ExecutionCapacity_eq_dec : EqDecision ExecutionCapacity. Proof. solve_decision. Defined.

Record ExecutionManifestEntry : Type := {
  me_name : string;
  me_request_digest : string;
  me_pod_uid : string;
  me_reserved_at : string;
  me_execution_uid : option string;
  me_creation_state : ExecutionCreationState;
  me_active : bool;
  me_writer : option ServingReplica;
}.

Record AccessGateReference : Type := { gate_ref_name : string; gate_ref_uid : string }.

Inductive AccessLedgerError : Type :=
| Capacity
| Invalid (what : string)
| Contended
| Kubernetes (e : kube_error)
| Serialization.

Inductive AccessAcquire : Type :=
| Acquired (registration : ReleaseRegistration)
| LeaseClosed
| LimitReached.

Inductive AccessDrain : Type := Checkpointed | Waiting | Drained.
#[global] Instance AccessDrain_eq_dec : EqDecision AccessDrain. Proof. solve_decision. Defined.

(** [SandboxExecution] as the ledger reads it. *)
Record SandboxExecution : Type := {
  se_name : string;
  se_uid : option string;
  se_spec : SandboxExecutionSpec;
  se_status : option SandboxExecutionStatus;
}.

(** A [Result] with its error converted by [?]. *)
Definition kube_result {A} (r : result A kube_error) : result A AccessLedgerError :=
  match r with Ok a => Ok a | Err e => Err (Kubernetes e) end.

Definition replica_validate (r : ServingReplica) : result unit AccessLedgerError :=
  deny_if (negb (nonblank (rep_namespace r)) || negb (nonblank (rep_pod_name r))
           || negb (nonblank (rep_pod_uid r)) || negb (nonblank (rep_boot_id r)))
    (Invalid "serving replica identity").

Definition stale_for_current_replica (entry current : ServingReplica) : bool :=
  String.eqb (rep_namespace entry) (rep_namespace current)
  && String.eqb (rep_pod_name entry) (rep_pod_name current)
  && (negb (String.eqb (rep_pod_uid entry) (rep_pod_uid current))
      || negb (String.eqb (rep_boot_id entry) (rep_boot_id current))).

(** The reservation of one execution in the decoded rows: the verdict, and the
    rows after it. *)
Definition reserve_execution_entry (entries : gmap string ExecutionEntry)
    (execution_name request_digest pod_uid reserved_at : string) (writer : option ServingReplica)
    (max_executions : Z) : ExecutionCapacity * gmap string ExecutionEntry :=
  match entries !! execution_name with
  | Some existing =>
      (if negb (String.eqb (ee_request_digest existing) request_digest)
          || negb (String.eqb (ee_pod_uid existing) pod_uid) then CapacityConflict
       else if ee_active existing then ExistingActive (ee_execution_uid existing)
       else ExistingTerminal (ee_execution_uid existing), entries)
  | None =>
      if exceeds (Z.of_nat (size entries) + 1) max_executions then (CapacityLimitReached, entries)
      else (Reserved,
            <[execution_name :=
                {| ee_request_digest := request_digest; ee_pod_uid := pod_uid; ee_reserved_at := reserved_at;
                   ee_execution_uid := None; ee_creation_state := Creating; ee_active := true;
                   ee_writer := writer |}]> entries)
  end.

Definition execution_can_release_active_capacity (state : ExecutionState.t)
    (started process_absence_proven : bool) : bool :=
  ExecutionState.is_terminal state && (negb started || process_absence_proven).

(** ** The wire format of the rows ([encoding.rs]) *)

Record PackedExecution : Type := {
  pk_digest : string;
  pk_pod : nat;
  pk_at : string;
  pk_uid : option string;
  pk_state : ExecutionCreationState;
  pk_active : bool;
  pk_writer : option nat;
}.
#[global] Instance PackedExecution_eq_dec : EqDecision PackedExecution. Proof. solve_decision. Defined.

Record CompactExecutions : Type := {
  cx_pods : list string;
  cx_writers : list ServingReplica;
  cx_entries : gmap string PackedExecution;
}.

(** What [serde_json] and [sha2] provide. *)
Class Json (A : Type) := { to_json : A -> option string; from_json : string -> option A }.

Class Codec := {
  gate_json :: Json (gmap string GateEntry);
  principal_json :: Json (gmap string PrincipalEntry);
  executions_json :: Json (gmap string ExecutionEntry);
  compact_json :: Json CompactExecutions;
  reference_json :: Json AccessGateReference;
  sha256_hex : string -> string;
}.

Definition PREFIX : string := "compact-v1:".

(** [serde_json] reads back what it wrote; an object's text starts with a
    brace; ["{}"] is the empty object. *)
Class CodecLaws (C : Codec) : Prop := {
  gate_roundtrip (m : gmap string GateEntry) s : to_json m = Some s -> from_json s = Some m;
  principal_roundtrip (m : gmap string PrincipalEntry) s : to_json m = Some s -> from_json s = Some m;
  executions_roundtrip (m : gmap string ExecutionEntry) s : to_json m = Some s -> from_json s = Some m;
  compact_roundtrip (c : CompactExecutions) s : to_json c = Some s -> from_json s = Some c;
  executions_object (m : gmap string ExecutionEntry) s :
    to_json m = Some s -> exists rest, s = "{" +:+ rest;
  gate_empty_object : from_json "{}" = Some (∅ : gmap string GateEntry);
  principal_empty_object : from_json "{}" = Some (∅ : gmap string PrincipalEntry);
  executions_empty_object : from_json "{}" = Some (∅ : gmap string ExecutionEntry);
}.

Definition json_text {A} `{Json A} (a : A) : result string AccessLedgerError := ok_or (to_json a) Serialization.
Definition json_value {A} `{Json A} (s : string) : result A AccessLedgerError := ok_or (from_json s) Serialization.

(** [intern]: the index of a value, appended when it is new. *)
Fixpoint position {A} `{EqDecision A} (v : A) (l : list A) : option nat :=
  match l with
  | [] => None
  | x :: l => if decide (x = v) then Some O else S <$> position v l
  end.

Definition intern {A} `{EqDecision A} (values : list A) (v : A) : nat * list A :=
  match position v values with
  | Some i => (i, values)
  | None => (length values, values ++ [v])
  end.

(** One row packed against the dictionaries built so far. *)
Definition pack (pods : list string) (writers : list ServingReplica) (e : ExecutionEntry)
  : PackedExecution * list string * list ServingReplica :=
  let '(pod, pods) := intern pods (ee_pod_uid e) in
  let '(writer, writers) :=
    match ee_writer e with
    | Some w => let '(i, writers) := intern writers w in (Some i, writers)
    | None => (None, writers)
    end in
  ({| pk_digest := ee_request_digest e; pk_pod := pod; pk_at := ee_reserved_at e;
      pk_uid := ee_execution_uid e; pk_state := ee_creation_state e; pk_active := ee_active e;
      pk_writer := writer |}, pods, writers).

Fixpoint pack_all (pods : list string) (writers : list ServingReplica) (rows : list (string * ExecutionEntry))
  : list (string * PackedExecution) * list string * list ServingReplica :=
  match rows with
  | [] => ([], pods, writers)
  | (name, e) :: rows =>
      let '(p, pods, writers) := pack pods writers e in
      let '(packed, pods, writers) := pack_all pods writers rows in
      ((name, p) :: packed, pods, writers)
  end.

Definition compact (entries : gmap string ExecutionEntry) : CompactExecutions :=
  let '(packed, pods, writers) := pack_all [] [] (btree_iter entries) in
  {| cx_pods := pods; cx_writers := writers; cx_entries := list_to_map packed |}.

Definition unpack (c : CompactExecutions) (p : PackedExecution) : result ExecutionEntry AccessLedgerError :=
  let? pod_uid := ok_or (cx_pods c !! pk_pod p) (Invalid "execution target index") in
  let? writer := match pk_writer p with
                 | None => Ok None
                 | Some i => let? w := ok_or (cx_writers c !! i) (Invalid "execution writer index") in Ok (Some w)
                 end in
  Ok {| ee_request_digest := pk_digest p; ee_pod_uid := pod_uid; ee_reserved_at := pk_at p;
        ee_execution_uid := pk_uid p; ee_creation_state := pk_state p; ee_active := pk_active p;
        ee_writer := writer |}.

Fixpoint unpack_all (c : CompactExecutions) (rows : list (string * PackedExecution))
  : result (gmap string ExecutionEntry) AccessLedgerError :=
  match rows with
  | [] => Ok ∅
  | (name, p) :: rows =>
      let? e := unpack c p in
      let? rest := unpack_all c rows in
      Ok (<[name := e]> rest)
  end.

Definition STATE_ANNOTATION : string := "kobe.kunobi.ninja/sandbox-access-state".
Definition ENTRIES_ANNOTATION : string := "kobe.kunobi.ninja/sandbox-access-entries".
Definition EXECUTIONS_ANNOTATION : string := "kobe.kunobi.ninja/sandbox-executions".
Definition PRINCIPAL_ANNOTATION : string := "kobe.kunobi.ninja/sandbox-principal-hash".
Definition ACCESS_GATE_ANNOTATION : string := "kobe.kunobi.ninja/sandbox-access-gate".
Definition LEDGER_KIND_LABEL : string := "kobe.kunobi.ninja/sandbox-access-kind".
Definition LEASE_NAME_LABEL : string := "kobe.kunobi.ninja/sandbox-lease-name".
Definition LEASE_UID_LABEL : string := "kobe.kunobi.ninja/sandbox-access-lease-uid".
Definition GATE_KIND : string := "lease-gate".
Definition PRINCIPAL_KIND : string := "principal-ledger".
Definition OPEN : string := "open".
Definition CLOSED : string := "closed".
Definition MAX_CAS_ATTEMPTS : nat := 64.
Definition ANNOTATION_BYTES : Z := 256 * 1024.
Definition HISTORY_BYTES : Z := 128 * 1024.

Definition gate_state (o : Lease) : option string := l_annotations o !! STATE_ANNOTATION.

Definition lease_uid (o : Lease) : result string AccessLedgerError :=
  match l_uid o with
  | Some u => if String.eqb u "" then Err (Invalid "object UID") else Ok u
  | None => Err (Invalid "object UID")
  end.

Definition lease_rv (o : Lease) : result string AccessLedgerError :=
  match l_resource_version o with
  | Some v => if String.eqb v "" then Err (Invalid "object resourceVersion") else Ok v
  | None => Err (Invalid "object resourceVersion")
  end.

(** [lease.uid().filter(|uid| !uid.is_empty())] *)
Definition sandbox_uid (lease : SandboxLease) : result string AccessLedgerError :=
  match sbx_uid lease with
  | Some u => if String.eqb u "" then Err (Invalid "SandboxLease UID") else Ok u
  | None => Err (Invalid "SandboxLease UID")
  end.

Definition execution_uid_of (e : SandboxExecution) : result string AccessLedgerError :=
  match se_uid e with
  | Some u => if String.eqb u "" then Err (Invalid "SandboxExecution UID") else Ok u
  | None => Err (Invalid "SandboxExecution UID")
  end.

(** ** Bytes an object may hold ([storage.rs]) *)

Definition future_growth (entries : gmap string ExecutionEntry) : Z :=
  map_fold (fun _ e acc =>
    (if is_none (ee_execution_uid e) && bool_decide (ee_creation_state e = Creating) then 128 else 0)
    + (if ee_active e then 1 else 0) + acc) 0 entries.

Definition annotation_bytes (annotations : gmap string string) : Z :=
  map_fold (fun k v acc => str_len k + str_len v + acc) 0 annotations.

Definition check_size (object : Lease) (replacements : list (string * string)) (future : Z)
  : result unit AccessLedgerError :=
  let annotations := fold_left (fun m '(k, v) => <[k := v]> m) replacements (l_annotations object) in
  let closing := match annotations !! STATE_ANNOTATION with
                 | Some state => saturating_sub (str_len CLOSED) (str_len state) | None => 0 end in
  deny_if (ANNOTATION_BYTES <? annotation_bytes annotations + future + closing) Capacity.

(** What an attempt decides from the gate it read. *)
Inductive row_plan (A : Type) : Type :=
| Answer (a : A)
| Commit (entries : gmap string ExecutionEntry) (a : A).
Arguments Answer {A} a.
Arguments Commit {A} entries a.

Section ledger.
Context {C : Codec}.

Definition decode (encoded : string) : result (gmap string ExecutionEntry) AccessLedgerError :=
  match strip_prefix PREFIX encoded with
  | None => json_value encoded
  | Some text =>
      let? c := json_value text in
      unpack_all c (btree_iter (cx_entries c))
  end.

Definition encode (entries : gmap string ExecutionEntry) : result string AccessLedgerError :=
  let? plain := json_text entries in
  if str_len plain <=? 64 * 1024 then Ok plain
  else
    let? text := json_text (compact entries) in
    let packed := PREFIX +:+ text in
    Ok (if str_len packed <? str_len plain then packed else plain).

Definition history_fits (gate : Lease) (entries : gmap string ExecutionEntry) : result bool AccessLedgerError :=
  let? encoded := encode entries in
  let future := future_growth entries in
  if HISTORY_BYTES <? str_len encoded + future then Ok false
  else match check_size gate [(EXECUTIONS_ANNOTATION, encoded)] future with
       | Ok _ => Ok true
       | Err Capacity => Ok false
       | Err e => Err e
       end.

(** ** Patches: the operations sent, or why none is sent *)

(** [patch_entries] *)
Definition entries_patch {T} `{Json (gmap string T)} (object : Lease) (previous : string) (entries : gmap string T)
  : result (list patch_op) AccessLedgerError :=
  let? next := json_text entries in
  let? uid := lease_uid object in
  let? rv := lease_rv object in
  Ok [TestUid uid; TestResourceVersion rv; TestAnnotation ENTRIES_ANNOTATION previous;
      ReplaceAnnotation ENTRIES_ANNOTATION next].

(** The rows re-encoded, and the operations that rewrite a legacy encoding. *)
Definition recompact (object : Lease)
  : result (list patch_op * list (string * string) * Z) AccessLedgerError :=
  match l_annotations object !! EXECUTIONS_ANNOTATION with
  | None => Ok ([], [], 0)
  | Some history =>
      let? executions := decode history in
      let? packed := encode executions in
      Ok (if String.eqb packed history then []
          else [TestAnnotation EXECUTIONS_ANNOTATION history; ReplaceAnnotation EXECUTIONS_ANNOTATION packed],
          [(EXECUTIONS_ANNOTATION, packed)], future_growth executions)
  end.

Definition access_patch {T} `{Json (gmap string T)} (object : Lease) (previous : string) (entries : gmap string T)
  : result (list patch_op) AccessLedgerError :=
  let? next := json_text entries in
  let? uid := lease_uid object in
  let? rv := lease_rv object in
  let? (rewrite_ops, replacements, future) := recompact object in
  let? _ := check_size object ((ENTRIES_ANNOTATION, next) :: replacements) future in
  Ok ([TestUid uid; TestResourceVersion rv; TestAnnotation ENTRIES_ANNOTATION previous]
      ++ rewrite_ops ++ [ReplaceAnnotation ENTRIES_ANNOTATION next]).

(** [patch_execution_entries] with [check_execution_patch] *)
Definition execution_patch (gate : Lease) (previous : string) (entries : gmap string ExecutionEntry)
  : result (list patch_op) AccessLedgerError :=
  let? next := encode entries in
  let? _ := check_size gate [(EXECUTIONS_ANNOTATION, next)] 0 in
  let? uid := lease_uid gate in
  let? rv := lease_rv gate in
  Ok [TestUid uid; TestResourceVersion rv; TestAnnotation EXECUTIONS_ANNOTATION previous;
      ReplaceAnnotation EXECUTIONS_ANNOTATION next].

Definition close_patch (gate : Lease) : result (list patch_op) AccessLedgerError :=
  let? uid := lease_uid gate in
  let? rv := lease_rv gate in
  let? (rewrite_ops, replacements, _) := recompact gate in
  let? _ := check_size gate ((STATE_ANNOTATION, CLOSED) :: replacements) 0 in
  Ok ([TestUid uid; TestResourceVersion rv; TestAnnotation STATE_ANNOTATION OPEN;
       ReplaceAnnotation STATE_ANNOTATION CLOSED] ++ rewrite_ops).

(** ** Shapes *)

Definition gate_name (uid : string) : string := "kobe-access-g-" +:+ String.substring 0 40 (sha256_hex uid).
Definition principal_name (hash : string) : string := "kobe-access-p-" +:+ String.substring 0 40 (sha256_hex hash).

Definition gate_labels (lease_name uid : string) : gmap string string :=
  {[ LEDGER_KIND_LABEL := GATE_KIND; LEASE_NAME_LABEL := lease_name; LEASE_UID_LABEL := uid ]}.

Definition build_gate (ns lease_name uid state : string) : Lease :=
  {| l_name := gate_name uid; l_namespace := Some ns; l_uid := None; l_resource_version := None;
     l_labels := gate_labels lease_name uid;
     l_annotations := {[ STATE_ANNOTATION := state; ENTRIES_ANNOTATION := "{}"; EXECUTIONS_ANNOTATION := "{}" ]};
     l_owner_references := None; l_finalizers := None; l_deletion_timestamp := None;
     l_spec := Some LeaseSpec_default |}.

Definition build_principal (ns hash : string) : Lease :=
  {| l_name := principal_name hash; l_namespace := Some ns; l_uid := None; l_resource_version := None;
     l_labels := {[ LEDGER_KIND_LABEL := PRINCIPAL_KIND ]};
     l_annotations := {[ PRINCIPAL_ANNOTATION := hash; ENTRIES_ANNOTATION := "{}" ]};
     l_owner_references := None; l_finalizers := None; l_deletion_timestamp := None;
     l_spec := Some LeaseSpec_default |}.

Definition parse_entries {T} `{Json (gmap string T)} (o : Lease) : result (gmap string T) AccessLedgerError :=
  let? encoded := ok_or (l_annotations o !! ENTRIES_ANNOTATION) (Invalid "entries annotation") in
  json_value encoded.

Definition parse_execution_entries (o : Lease) : result (gmap string ExecutionEntry) AccessLedgerError :=
  let? encoded := ok_or (l_annotations o !! EXECUTIONS_ANNOTATION) (Invalid "executions annotation") in
  decode encoded.

(** The metadata every ledger object must have: nothing owns it, nothing
    finalizes it, nothing is deleting it, and its spec is empty. *)
Definition bare_object (o : Lease) : bool :=
  bool_decide (default [] (l_owner_references o) = []) && bool_decide (default [] (l_finalizers o) = [])
  && is_none (l_deletion_timestamp o) && bool_decide (l_spec o = Some LeaseSpec_default).

Definition validate_gate (gate : Lease) (ns lease_name uid : string) : result unit AccessLedgerError :=
  let? _ := deny_if (negb (String.eqb (l_name gate) (gate_name uid))
                     || negb (bool_decide (l_namespace gate = Some ns))
                     || negb (bool_decide (l_labels gate = gate_labels lease_name uid))
                     || negb (bare_object gate)) (Invalid "lease gate provenance") in
  let? _ := deny_if (negb (Nat.eqb (size (l_annotations gate)) 3)
                     || is_none (l_annotations gate !! ENTRIES_ANNOTATION)
                     || is_none (l_annotations gate !! EXECUTIONS_ANNOTATION))
              (Invalid "lease gate annotations") in
  if bool_decide (gate_state gate = Some OPEN) || bool_decide (gate_state gate = Some CLOSED) then
    let? _ := parse_execution_entries gate in Ok tt
  else Err (Invalid "lease gate state").

Definition validate_principal (ledger : Lease) (ns hash : string) : result unit AccessLedgerError :=
  let? _ := deny_if (negb (String.eqb (l_name ledger) (principal_name hash))
                     || negb (bool_decide (l_namespace ledger = Some ns))
                     || negb (bool_decide (l_labels ledger = {[ LEDGER_KIND_LABEL := PRINCIPAL_KIND ]}))
                     || negb (bare_object ledger)) (Invalid "principal ledger provenance") in
  deny_if (negb (Nat.eqb (size (l_annotations ledger)) 2)
           || negb (bool_decide (l_annotations ledger !! PRINCIPAL_ANNOTATION = Some hash))
           || is_none (l_annotations ledger !! ENTRIES_ANNOTATION))
    (Invalid "principal ledger annotations").

Definition encode_gate_reference (reference : AccessGateReference) : result string AccessLedgerError :=
  let? _ := deny_if (negb (nonblank (gate_ref_name reference)) || negb (nonblank (gate_ref_uid reference)))
              (Invalid "access gate reference") in
  json_text reference.

Definition persisted_gate_reference (lease : SandboxLease) : result AccessGateReference AccessLedgerError :=
  let? encoded := ok_or (sbx_annotations lease !! ACCESS_GATE_ANNOTATION)
                    (Invalid "persisted access gate reference") in
  let? reference := json_value encoded in
  let? uid := sandbox_uid lease in
  let? _ := deny_if (negb (String.eqb (gate_ref_name reference) (gate_name uid))
                     || negb (nonblank (gate_ref_uid reference)))
              (Invalid "persisted access gate reference") in
  Ok reference.

(** ** Admission of a lease: its gate *)

Definition get (name : string) : prog (result Lease kube_error) := GetLease name Ret.
Definition get_ledger (name : string) : prog (result Lease AccessLedgerError) :=
  GetLease name (fun r => Ret (kube_result r)).

Definition get_or_create_open_gate (ns lease_name uid : string)
  : prog (result (Lease * bool) AccessLedgerError) :=
  let name := gate_name uid in
  do found := get name in
  match found with
  | Ok gate => Ret (Ok (gate, false))
  | Err e =>
      if is_404 e then
        WriteLease (Create (build_gate ns lease_name uid OPEN)) (fun r =>
          match r with
          | Ok created => Ret (Ok (created, true))
          | Err e =>
              if optimistic_conflict e then do? gate := get_ledger name in Ret (Ok (gate, false))
              else Ret (Err (Kubernetes e))
          end)
      else Ret (Err (Kubernetes e))
  end.

(** What [prepare_open_gate] and [remove_pre_admission_gate] require of the
    gate: open, never entered. *)
Definition prepared_gate (gate : Lease) (ns lease_name uid : string)
  : result AccessGateReference AccessLedgerError :=
  let? _ := validate_gate gate ns lease_name uid in
  let? _ := deny_if (negb (bool_decide (gate_state gate = Some OPEN))) (Invalid "lease gate state") in
  let? entries := parse_entries (T := GateEntry) gate in
  let? _ := deny_if (negb (bool_decide (entries = ∅))) (Invalid "pre-admission lease gate entries") in
  let? executions := parse_execution_entries gate in
  let? _ := deny_if (negb (bool_decide (executions = ∅))) (Invalid "pre-admission execution entries") in
  let? gate_uid := lease_uid gate in
  Ok {| gate_ref_name := l_name gate; gate_ref_uid := gate_uid |}.

Definition prepare_open_gate (ns : string) (lease : SandboxLease)
  : prog (result AccessGateReference AccessLedgerError) :=
  match sandbox_uid lease with
  | Err e => Ret (Err e)
  | Ok uid =>
      do? (gate, _) := get_or_create_open_gate ns (sbx_name lease) uid in
      Ret (prepared_gate gate ns (sbx_name lease) uid)
  end.

(** The exact gate of an admitted lease: full shape, and the UID recorded at
    admission. *)
Definition admitted_gate (gate : Lease) (ns : string) (lease : SandboxLease) (expected : AccessGateReference)
  : result unit AccessLedgerError :=
  let? uid := sandbox_uid lease in
  let? _ := validate_gate gate ns (sbx_name lease) uid in
  let? gate_uid := lease_uid gate in
  deny_if (negb (String.eqb gate_uid (gate_ref_uid expected))) (Invalid "persisted access gate UID").

Definition verify_open_admitted_gate (ns : string) (lease : SandboxLease) : prog (result unit AccessLedgerError) :=
  match (let? _ := sandbox_uid lease in persisted_gate_reference lease) with
  | Err e => Ret (Err e)
  | Ok expected =>
      do found := get (gate_ref_name expected) in
      match found with
      | Err e => Ret (Err (if is_404 e then Invalid "missing admitted lease gate" else Kubernetes e))
      | Ok gate =>
          Ret (let? _ := admitted_gate gate ns lease expected in
               let? _ := deny_if (negb (bool_decide (gate_state gate = Some OPEN)))
                           (Invalid "admitted lease gate is not open") in
               let? _ := parse_entries (T := GateEntry) gate in Ok tt)
      end
  end.

(** The gate of a lease whose admission failed, checked before its deletion:
    its UID and version. *)
Definition removable_gate (gate : Lease) (ns lease_name uid : string) : result (string * string) AccessLedgerError :=
  let? _ := validate_gate gate ns lease_name uid in
  let? untouched :=
    if negb (bool_decide (gate_state gate = Some OPEN)) then Ok false
    else let? entries := parse_entries (T := GateEntry) gate in
         if negb (bool_decide (entries = ∅)) then Ok false
         else let? executions := parse_execution_entries gate in Ok (bool_decide (executions = ∅)) in
  let? _ := deny_if (negb untouched) (Invalid "pre-admission lease gate state") in
  let? gate_uid := lease_uid gate in
  let? rv := lease_rv gate in
  Ok (gate_uid, rv).

Definition remove_pre_admission_gate (ns : string) (lease : SandboxLease) : prog (result unit AccessLedgerError) :=
  match sandbox_uid lease with
  | Err e => Ret (Err e)
  | Ok uid =>
      let name := gate_name uid in
      do found := get name in
      match found with
      | Err e => Ret (if is_404 e then Ok tt else Err (Kubernetes e))
      | Ok gate =>
          match removable_gate gate ns (sbx_name lease) uid with
          | Err e => Ret (Err e)
          | Ok (gate_uid, rv) =>
              WriteLease (Delete name gate_uid rv) (fun deletion =>
              do after := get name in
              Ret match after with
                  | Err e => if is_404 e then Ok tt else Err (Kubernetes e)
                  | Ok replacement =>
                      let? replacement_uid := lease_uid replacement in
                      if negb (String.eqb replacement_uid gate_uid) then Ok tt
                      else match deletion with
                           | Ok _ => Err (Invalid "pre-admission gate deletion not confirmed")
                           | Err e => Err (Kubernetes e)
                           end
                  end)
          end
      end
  end.

(** ** Entering the gate, then the principal ledger *)

Definition with_gate_uid (g : ReleaseRegistration) (uid : option string) : ReleaseRegistration :=
  {| reg_sandbox_name := reg_sandbox_name g; reg_sandbox_uid := reg_sandbox_uid g;
     reg_gate_name := reg_gate_name g; reg_expected_gate_uid := reg_expected_gate_uid g; reg_gate_uid := uid;
     reg_principal_name := reg_principal_name g; reg_principal_uid := reg_principal_uid g;
     reg_principal_hash := reg_principal_hash g; reg_operation_id := reg_operation_id g;
     reg_replica := reg_replica g |}.

Definition with_principal_uid (g : ReleaseRegistration) (uid : option string) : ReleaseRegistration :=
  {| reg_sandbox_name := reg_sandbox_name g; reg_sandbox_uid := reg_sandbox_uid g;
     reg_gate_name := reg_gate_name g; reg_expected_gate_uid := reg_expected_gate_uid g;
     reg_gate_uid := reg_gate_uid g;
     reg_principal_name := reg_principal_name g; reg_principal_uid := uid;
     reg_principal_hash := reg_principal_hash g; reg_operation_id := reg_operation_id g;
     reg_replica := reg_replica g |}.

(** The entries an operation writes. *)
Definition gate_entry (g : ReleaseRegistration) : GateEntry :=
  {| ge_principal_hash := reg_principal_hash g; ge_replica := reg_replica g |}.

Definition principal_entry (g : ReleaseRegistration) (gate : string) : PrincipalEntry :=
  {| pe_lease_uid := reg_sandbox_uid g; pe_gate_name := gate; pe_replica := reg_replica g |}.

(** The patch that enters an object: [None] when the gate is closed, a ceiling
    is reached, or the object is full. *)
Definition enter_plan {T} `{Json (gmap string T)} (object : Lease) (operation_id : string) (entry : T) (limit : Z)
  : result (option (list patch_op)) AccessLedgerError :=
  let? previous := ok_or (l_annotations object !! ENTRIES_ANNOTATION) (Invalid "entries annotation") in
  let? entries := json_value previous in
  if exceeds (Z.of_nat (size (entries : gmap string T)) + 1) limit then Ok None
  else match access_patch object previous (<[operation_id := entry]> entries) with
       | Ok ops => Ok (Some ops)
       | Err Capacity => Ok None
       | Err e => Err e
       end.

Fixpoint add_gate_entry (attempts : nat) (ns : string) (limits : SandboxLimits) (g : ReleaseRegistration)
  : prog (ReleaseRegistration * result (option Lease) AccessLedgerError) :=
  match attempts with
  | O => Ret (g, Err Contended)
  | S attempts =>
      GetLease (reg_gate_name g) (fun found =>
      match (let? gate := kube_result found in
             let? _ := validate_gate gate ns (reg_sandbox_name g) (reg_sandbox_uid g) in
             let? uid := lease_uid gate in
             let? _ := deny_if (negb (String.eqb uid (reg_expected_gate_uid g)))
                         (Invalid "persisted access gate UID") in
             Ok (gate, uid)) with
      | Err e => Ret (g, Err e)
      | Ok (gate, uid) =>
          let g := with_gate_uid g (Some uid) in
          Arm g
            match (if negb (bool_decide (gate_state gate = Some OPEN)) then Ok None
                   else enter_plan gate (reg_operation_id g) (gate_entry g) (streams_per_lease limits)) with
            | Err e => Ret (g, Err e)
            | Ok None => Ret (g, Ok None)
            | Ok (Some ops) =>
                WriteLease (PatchJson (l_name gate) ops) (fun r =>
                match r with
                | Ok updated => Ret (g, Ok (Some updated))
                | Err e => if optimistic_conflict e then add_gate_entry attempts ns limits g
                           else Ret (g, Err (Kubernetes e))
                end)
            end
      end)
  end.

(** The principal's ledger, created when it is absent. *)
Definition get_or_create_principal (ns : string) (g : ReleaseRegistration) : prog (result Lease AccessLedgerError) :=
  let name := reg_principal_name g in
  do found := get name in
  match found with
  | Ok ledger => Ret (Ok ledger)
  | Err e =>
      if is_404 e then
        WriteLease (Create (build_principal ns (reg_principal_hash g))) (fun r =>
          match r with
          | Ok created => Ret (Ok created)
          | Err e => if optimistic_conflict e then get_ledger name else Ret (Err (Kubernetes e))
          end)
      else Ret (Err (Kubernetes e))
  end.

Fixpoint add_principal_entry (attempts : nat) (ns : string) (limits : SandboxLimits) (gate : Lease)
    (g : ReleaseRegistration) : prog (ReleaseRegistration * result (option Lease) AccessLedgerError) :=
  match attempts with
  | O => Ret (g, Err Contended)
  | S attempts =>
      do found := get_or_create_principal ns g in
      match (let? ledger := found in
             let? _ := validate_principal ledger ns (reg_principal_hash g) in
             let? uid := lease_uid ledger in Ok (ledger, uid)) with
      | Err e => Ret (g, Err e)
      | Ok (ledger, uid) =>
          let g := with_principal_uid g (Some uid) in
          Arm g
            match enter_plan ledger (reg_operation_id g) (principal_entry g (l_name gate))
                    (streams_per_principal limits) with
            | Err e => Ret (g, Err e)
            | Ok None => Ret (g, Ok None)
            | Ok (Some ops) =>
                WriteLease (PatchJson (l_name ledger) ops) (fun r =>
                match r with
                | Ok updated => Ret (g, Ok (Some updated))
                | Err e => if optimistic_conflict e then add_principal_entry attempts ns limits gate g
                           else Ret (g, Err (Kubernetes e))
                end)
            end
      end
  end.

(** ** CAS loops: [for _ in 0..MAX_CAS_ATTEMPTS], where an attempt answers or
    asks for another one *)
Fixpoint cas {A} (attempts : nat) (body : nat -> prog (option (result A AccessLedgerError)))
  : prog (result A AccessLedgerError) :=
  match attempts with
  | O => Ret (Err Contended)
  | S attempts =>
      do r := body attempts in
      match r with Some r => Ret r | None => cas attempts body end
  end.

(** [match api.patch(..).await { Ok(_) => return Ok(a), Err(conflict) =>
    continue, Err(e) => return Err(e) }] *)
Definition commit {A} (name : string) (ops : list patch_op) (a : A) : prog (option (result A AccessLedgerError)) :=
  WriteLease (PatchJson name ops) (fun r =>
    Ret match r with
        | Ok _ => Some (Ok a)
        | Err e => if optimistic_conflict e then None else Some (Err (Kubernetes e))
        end).

(** ** Leaving *)

(** One attempt to remove an exact entry from an exact object. *)
Definition remove_entry_attempt {T} `{Json (gmap string T)} `{EqDecision T} (name expected_uid operation_id : string)
    (expected_entry : T) (validate : Lease -> result unit AccessLedgerError) (mismatch : string)
  : prog (option (result unit AccessLedgerError)) :=
  do found := get name in
  match found with
  | Err e => Ret (Some (if is_404 e then Ok tt else Err (Kubernetes e)))
  | Ok object =>
      match lease_uid object with
      | Err e => Ret (Some (Err e))
      | Ok uid =>
          if negb (String.eqb uid expected_uid) then Ret (Some (Ok tt))
          else match (let? _ := validate object in
                      let? previous := ok_or (l_annotations object !! ENTRIES_ANNOTATION)
                                         (Invalid "entries annotation") in
                      let? entries := json_value previous in
                      match (entries : gmap string T) !! operation_id with
                      | None => Ok None
                      | Some entry =>
                          let? _ := deny_if (negb (bool_decide (entry = expected_entry))) (Invalid mismatch) in
                          let? ops := entries_patch object previous (delete operation_id entries) in
                          Ok (Some ops)
                      end) with
               | Err e => Ret (Some (Err e))
               | Ok None => Ret (Some (Ok tt))
               | Ok (Some ops) => commit (l_name object) ops tt
               end
      end
  end.

Definition remove_principal_entry (ns name expected_uid hash operation_id : string) (expected : PrincipalEntry)
  : prog (result unit AccessLedgerError) :=
  cas MAX_CAS_ATTEMPTS (fun _ =>
    remove_entry_attempt name expected_uid operation_id expected
      (fun ledger => validate_principal ledger ns hash) "principal entry identity").

Definition remove_gate_entry (ns name expected_uid sandbox_name uid operation_id : string) (expected : GateEntry)
  : prog (result unit AccessLedgerError) :=
  cas MAX_CAS_ATTEMPTS (fun _ =>
    remove_entry_attempt name expected_uid operation_id expected
      (fun gate => validate_gate gate ns sandbox_name uid) "lease gate entry identity").

Definition release_exact (ns : string) (g : ReleaseRegistration) : prog (result unit AccessLedgerError) :=
  do? _ := match reg_principal_uid g with
           | Some uid =>
               remove_principal_entry ns (reg_principal_name g) uid (reg_principal_hash g) (reg_operation_id g)
                 (principal_entry g (reg_gate_name g))
           | None => Ret (Ok tt)
           end in
  match reg_gate_uid g with
  | Some uid =>
      remove_gate_entry ns (reg_gate_name g) uid (reg_sandbox_name g) (reg_sandbox_uid g) (reg_operation_id g)
        (gate_entry g)
  | None => Ret (Ok tt)
  end.

(** The registration of a new operation, before its first request. *)
Definition new_registration (lease : SandboxLease) (uid : string) (expected : AccessGateReference)
    (principal_hash operation_id : string) (replica : ServingReplica) : ReleaseRegistration :=
  {| reg_sandbox_name := sbx_name lease; reg_sandbox_uid := uid; reg_gate_name := gate_ref_name expected;
     reg_expected_gate_uid := gate_ref_uid expected; reg_gate_uid := None;
     reg_principal_name := principal_name principal_hash; reg_principal_uid := None;
     reg_principal_hash := principal_hash; reg_operation_id := operation_id; reg_replica := replica |}.

(** [operation_id] is the fresh UUID of the operation. *)
Definition acquire_with_limits (ns : string) (lease : SandboxLease) (principal_hash operation_id : string)
    (replica : ServingReplica) (limits : SandboxLimits) : prog (result AccessAcquire AccessLedgerError) :=
  match (let? _ := replica_validate replica in
         let? uid := sandbox_uid lease in
         let? expected := persisted_gate_reference lease in Ok (uid, expected)) with
  | Err e => Ret (Err e)
  | Ok (uid, expected) =>
      do (g, entered) := add_gate_entry MAX_CAS_ATTEMPTS ns limits
                           (new_registration lease uid expected principal_hash operation_id replica) in
      match entered with
      | Err e => Ret (Err e)
      | Ok None =>
          do? gate := get_ledger (gate_name uid) in
          Ret (Ok (if bool_decide (gate_state gate = Some CLOSED) then LeaseClosed else LimitReached))
      | Ok (Some gate) =>
          do (g, principal) := add_principal_entry MAX_CAS_ATTEMPTS ns limits gate g in
          match principal with
          | Err e => Ret (Err e)
          | Ok (Some _) => Ret (Ok (Acquired g))
          | Ok None =>
              match lease_uid gate with
              | Err e => Ret (Err e)
              | Ok gate_uid =>
                  do? _ := remove_gate_entry ns (l_name gate) gate_uid (sbx_name lease) uid operation_id
                             {| ge_principal_hash := principal_hash; ge_replica := replica |} in
                  Arm (with_gate_uid g None) (Ret (Ok LimitReached))
              end
          end
      end
  end.

(** ** Execution rows *)

Definition exact_gate_for_lease (ns : string) (lease : SandboxLease) : prog (result Lease AccessLedgerError) :=
  match (let? _ := sandbox_uid lease in persisted_gate_reference lease) with
  | Err e => Ret (Err e)
  | Ok expected =>
      do? gate := get_ledger (gate_ref_name expected) in
      Ret (let? _ := admitted_gate gate ns lease expected in Ok gate)
  end.

(** The loop every row operation runs: read the exact gate, answer before
    reading the rows ([early]) or plan a change of them, and write the changed
    rows under the gate's version.  [full] answers a write refused for size. *)
Definition execution_cas {A} (ns : string) (lease : SandboxLease)
    (early : Lease -> result (option A) AccessLedgerError)
    (plan : nat -> Lease -> gmap string ExecutionEntry -> result (row_plan A) AccessLedgerError)
    (full : option A) : prog (result A AccessLedgerError) :=
  cas MAX_CAS_ATTEMPTS (fun attempt =>
    do read := exact_gate_for_lease ns lease in
    match (let? gate := read in
           let? answered := early gate in
           match answered with
           | Some a => Ok (gate, inl a)
           | None =>
               let? previous := ok_or (l_annotations gate !! EXECUTIONS_ANNOTATION)
                                  (Invalid "executions annotation") in
               let? entries := decode previous in
               let? planned := plan attempt gate entries in
               match planned with
               | Answer a => Ok (gate, inl a)
               | Commit entries a =>
                   match execution_patch gate previous entries with
                   | Ok ops => Ok (gate, inr (ops, a))
                   | Err Capacity => match full with Some a => Ok (gate, inl a) | None => Err Capacity end
                   | Err e => Err e
                   end
               end
           end) with
    | Err e => Ret (Some (Err e))
    | Ok (_, inl a) => Ret (Some (Ok a))
    | Ok (gate, inr (ops, a)) => commit (l_name gate) ops a
    end).

Definition when_open {A} (closed : A) (gate : Lease) : result (option A) AccessLedgerError :=
  Ok (if bool_decide (gate_state gate = Some OPEN) then None else Some closed).

Definition no_early {A} (_ : Lease) : result (option A) AccessLedgerError := Ok None.

Definition row_of (entries : gmap string ExecutionEntry) (name : string) : result ExecutionEntry AccessLedgerError :=
  ok_or (entries !! name) (Invalid "execution reservation").

(** [now attempt] is the clock read in each attempt. *)
Definition reserve_plan (now : nat -> string) (execution_name request_digest pod_uid : string)
    (writer : option ServingReplica) (max_executions : Z) (attempt : nat) (gate : Lease)
    (entries : gmap string ExecutionEntry) : result (row_plan ExecutionCapacity) AccessLedgerError :=
  let '(outcome, entries) :=
    reserve_execution_entry entries execution_name request_digest pod_uid (now attempt) writer max_executions in
  if negb (bool_decide (outcome = Reserved)) then Ok (Answer outcome)
  else
    let? fits := history_fits gate entries in
    Ok (if fits then Commit entries Reserved else Answer CapacityLimitReached).

Definition reserve_execution_capacity (ns : string) (lease : SandboxLease)
    (execution_name request_digest pod_uid : string) (writer : option ServingReplica) (now : nat -> string)
    (limits : SandboxLimits) : prog (result ExecutionCapacity AccessLedgerError) :=
  match (let? _ := deny_if (String.eqb execution_name "" || negb (str_len request_digest =? 64)
                            || String.eqb pod_uid "") (Invalid "execution reservation identity") in
         match writer with Some w => replica_validate w | None => Ok tt end) with
  | Err e => Ret (Err e)
  | Ok _ =>
      execution_cas ns lease (when_open CapacityLeaseClosed)
        (reserve_plan now execution_name request_digest pod_uid writer (executions_per_lease limits))
        (Some CapacityLimitReached)
  end.

(** The changes of one row. *)
Definition resolve_row (e : ExecutionEntry) (uid : option string) (state : ExecutionCreationState) (active : bool)
  : ExecutionEntry :=
  {| ee_request_digest := ee_request_digest e; ee_pod_uid := ee_pod_uid e; ee_reserved_at := ee_reserved_at e;
     ee_execution_uid := uid; ee_creation_state := state; ee_active := active; ee_writer := ee_writer e |}.

Definition bind_plan (execution : SandboxExecution) (uid : string) (_ : nat) (_ : Lease)
    (entries : gmap string ExecutionEntry) : result (row_plan bool) AccessLedgerError :=
  let? entry := row_of entries (se_name execution) in
  let? _ := deny_if (negb (ee_active entry)
                     || negb (String.eqb (ee_request_digest entry) (exec_request_digest (se_spec execution)))
                     || negb (String.eqb (ee_pod_uid entry) (exec_pod_uid (se_spec execution))))
              (Invalid "execution reservation identity") in
  match ee_execution_uid entry with
  | Some bound => if String.eqb bound uid then Ok (Answer true) else Err (Invalid "execution reservation UID")
  | None =>
      if bool_decide (ee_creation_state entry = Creating) then
        Ok (Commit (<[se_name execution := resolve_row entry (Some uid) Bound (ee_active entry)]> entries) true)
      else Err (Invalid "execution creation is already resolved")
  end.

Definition bind_execution_capacity (ns : string) (lease : SandboxLease) (execution : SandboxExecution)
  : prog (result bool AccessLedgerError) :=
  match execution_uid_of execution with
  | Err e => Ret (Err e)
  | Ok uid => execution_cas ns lease (when_open false) (bind_plan execution uid) None
  end.

Definition complete_plan (execution : SandboxExecution) (uid : string) (_ : nat) (_ : Lease)
    (entries : gmap string ExecutionEntry) : result (row_plan unit) AccessLedgerError :=
  let? entry := row_of entries (se_name execution) in
  let? _ := deny_if (negb (String.eqb (ee_request_digest entry) (exec_request_digest (se_spec execution)))
                     || negb (String.eqb (ee_pod_uid entry) (exec_pod_uid (se_spec execution)))
                     || negb (bool_decide (ee_execution_uid entry = Some uid))
                     || negb (bool_decide (effective_creation_state entry = Bound)))
              (Invalid "execution reservation identity") in
  if negb (ee_active entry) then Ok (Answer tt)
  else Ok (Commit (<[se_name execution :=
                       resolve_row entry (ee_execution_uid entry) (ee_creation_state entry) false]> entries) tt).

Definition complete_execution_capacity (ns : string) (lease : SandboxLease) (execution : SandboxExecution)
    (process_absence_proven : bool) : prog (result unit AccessLedgerError) :=
  let status := default default_execution_status (se_status execution) in
  match (let? _ := deny_if (negb (execution_can_release_active_capacity (exec_state status)
                                    (is_some (exec_started_at status)) process_absence_proven))
                     (Invalid "execution process group is not proven terminal") in
         execution_uid_of execution) with
  | Err e => Ret (Err e)
  | Ok uid => execution_cas ns lease no_early (complete_plan execution uid) None
  end.

Definition manifest_entry (row : string * ExecutionEntry) : ExecutionManifestEntry :=
  let '(name, e) := row in
  {| me_name := name; me_request_digest := ee_request_digest e; me_pod_uid := ee_pod_uid e;
     me_reserved_at := ee_reserved_at e; me_execution_uid := ee_execution_uid e;
     me_creation_state := effective_creation_state e; me_active := ee_active e; me_writer := ee_writer e |}.

Definition execution_manifest (ns : string) (lease : SandboxLease)
  : prog (result (list ExecutionManifestEntry) AccessLedgerError) :=
  do? gate := exact_gate_for_lease ns lease in
  Ret (let? entries := parse_execution_entries gate in Ok (map manifest_entry (btree_iter entries))).

Definition expire_unbound_plan (execution_name digest pod_uid : string) (observed : option string) (_ : nat)
    (_ : Lease) (entries : gmap string ExecutionEntry) : result (row_plan bool) AccessLedgerError :=
  let? entry := row_of entries execution_name in
  let? _ := deny_if (negb (String.eqb (ee_request_digest entry) digest)
                     || negb (String.eqb (ee_pod_uid entry) pod_uid)) (Invalid "execution reservation identity") in
  if is_some (ee_execution_uid entry) then Ok (Answer false)
  else match observed with
       | None => Ok (Answer false)
       | Some uid =>
           if String.eqb uid "" then Err (Invalid "SandboxExecution UID")
           else if negb (bool_decide (ee_creation_state entry = Creating)) then Ok (Answer false)
           else Ok (Commit (<[execution_name := resolve_row entry (Some uid) Bound false]> entries) true)
       end.

Definition expire_unbound_execution (ns : string) (lease : SandboxLease) (execution_name digest pod_uid : string)
    (observed : option string) : prog (result bool AccessLedgerError) :=
  execution_cas ns lease no_early (expire_unbound_plan execution_name digest pod_uid observed) None.

Definition expire_orphaned_plan (expected : ExecutionManifestEntry) (current : ServingReplica) (_ : nat)
    (_ : Lease) (entries : gmap string ExecutionEntry) : result (row_plan bool) AccessLedgerError :=
  let? entry := row_of entries (me_name expected) in
  let? _ := deny_if (is_some (ee_execution_uid entry)
                     || negb (String.eqb (ee_request_digest entry) (me_request_digest expected))
                     || negb (String.eqb (ee_pod_uid entry) (me_pod_uid expected))
                     || negb (String.eqb (ee_reserved_at entry) (me_reserved_at expected))
                     || negb (bool_decide (ee_creation_state entry = Creating)))
              (Invalid "execution reservation identity") in
  let stale := match ee_writer entry with
               | Some writer => stale_for_current_replica writer current | None => false end in
  if negb stale then Ok (Answer false)
  else Ok (Commit (<[me_name expected := resolve_row entry (ee_execution_uid entry) Rejected false]> entries) true).

Definition expire_orphaned_creating_execution (ns : string) (lease : SandboxLease)
    (expected : ExecutionManifestEntry) (current : ServingReplica) : prog (result bool AccessLedgerError) :=
  match (let? _ := replica_validate current in
         deny_if (is_some (me_execution_uid expected)) (Invalid "bound execution reservation")) with
  | Err e => Ret (Err e)
  | Ok _ => execution_cas ns lease no_early (expire_orphaned_plan expected current) None
  end.

Definition reject_plan (execution_name digest pod_uid : string) (_ : nat) (_ : Lease)
    (entries : gmap string ExecutionEntry) : result (row_plan bool) AccessLedgerError :=
  let? entry := row_of entries execution_name in
  let? _ := deny_if (negb (String.eqb (ee_request_digest entry) digest)
                     || negb (String.eqb (ee_pod_uid entry) pod_uid)) (Invalid "execution reservation identity") in
  if is_some (ee_execution_uid entry) || bool_decide (effective_creation_state entry = Bound) then Ok (Answer false)
  else if bool_decide (ee_creation_state entry = Rejected) then Ok (Answer false)
  else Ok (Commit (<[execution_name := resolve_row entry (ee_execution_uid entry) Rejected false]> entries) true).

Definition reject_execution_creation (ns : string) (lease : SandboxLease) (execution_name digest pod_uid : string)
  : prog (result bool AccessLedgerError) :=
  execution_cas ns lease no_early (reject_plan execution_name digest pod_uid) None.

Definition when_closed {A} (what : string) (gate : Lease) : result (option A) AccessLedgerError :=
  let? _ := deny_if (negb (bool_decide (gate_state gate = Some CLOSED))) (Invalid what) in Ok None.

Definition retire_plan (expected : ExecutionManifestEntry) (_ : nat) (_ : Lease)
    (entries : gmap string ExecutionEntry) : result (row_plan bool) AccessLedgerError :=
  match entries !! me_name expected with
  | None => Ok (Answer false)
  | Some entry =>
      let? _ := deny_if (ee_active entry
                         || negb (String.eqb (ee_request_digest entry) (me_request_digest expected))
                         || negb (String.eqb (ee_pod_uid entry) (me_pod_uid expected))
                         || negb (String.eqb (ee_reserved_at entry) (me_reserved_at expected))
                         || negb (bool_decide (ee_execution_uid entry = me_execution_uid expected))
                         || negb (bool_decide (effective_creation_state entry = me_creation_state expected)))
                  (Invalid "execution reservation identity") in
      Ok (Commit (delete (me_name expected) entries) true)
  end.

Definition retire_inactive_execution (ns : string) (lease : SandboxLease) (expected : ExecutionManifestEntry)
  : prog (result bool AccessLedgerError) :=
  if me_active expected || bool_decide (me_creation_state expected = Creating)
  then Ret (Err (Invalid "active execution reservation"))
  else execution_cas ns lease (when_closed "execution gate is not closed") (retire_plan expected) None.

Definition retire_rejected_execution (ns : string) (lease : SandboxLease) (expected : ExecutionManifestEntry)
  : prog (result bool AccessLedgerError) :=
  if me_active expected || is_some (me_execution_uid expected)
     || negb (bool_decide (me_creation_state expected = Rejected))
  then Ret (Err (Invalid "execution CREATE is not rejected"))
  else retire_inactive_execution ns lease expected.

Definition unresolved (e : ExecutionEntry) : bool :=
  ee_active e || bool_decide (effective_creation_state e = Creating).

Definition clear_early (gate : Lease) : result (option bool) AccessLedgerError :=
  let? clean := if negb (bool_decide (gate_state gate = Some CLOSED)) then Ok false
                else let? entries := parse_entries (T := GateEntry) gate in Ok (bool_decide (entries = ∅)) in
  let? _ := deny_if (negb clean) (Invalid "execution cleanup gate state") in Ok None.

Definition clear_plan (_ : nat) (_ : Lease) (entries : gmap string ExecutionEntry)
  : result (row_plan bool) AccessLedgerError :=
  if bool_decide (entries = ∅) then Ok (Answer false)
  else let? _ := deny_if (existsb (fun row => unresolved row.2) (btree_iter entries))
                   (Invalid "active execution reservation") in
       Ok (Commit ∅ true).

Definition clear_execution_manifest (ns : string) (lease : SandboxLease) : prog (result bool AccessLedgerError) :=
  execution_cas ns lease clear_early clear_plan None.

(** ** Closing the gate *)

Definition close_gate (gate : Lease) : prog (result unit AccessLedgerError) :=
  match gate_state gate with
  | None => Ret (Err (Invalid "lease gate state"))
  | Some current =>
      if String.eqb current CLOSED then Ret (Ok tt)
      else if negb (String.eqb current OPEN) then Ret (Err (Invalid "lease gate state"))
      else match close_patch gate with
           | Err e => Ret (Err e)
           | Ok ops =>
               WriteLease (PatchJson (l_name gate) ops) (fun r =>
                 Ret match r with Ok _ => Ok tt | Err e => Err (Kubernetes e) end)
           end
  end.

(** Whether the exact recorded Pod still exists. *)
Definition replica_is_live (replica : ServingReplica) : prog (result bool AccessLedgerError) :=
  match replica_validate replica with
  | Err e => Ret (Err e)
  | Ok _ =>
      GetPod (rep_namespace replica) (rep_pod_name replica) (fun r =>
        Ret match r with
            | Ok pod =>
                let? _ := deny_if (negb (bool_decide (pod_meta_namespace pod = Some (rep_namespace replica)))
                                   || negb (String.eqb (pod_meta_name pod) (rep_pod_name replica)))
                            (Invalid "observed serving replica Pod provenance") in
                match pod_meta_uid pod with
                | Some uid => if String.eqb uid "" then Err (Invalid "observed serving replica Pod UID")
                              else Ok (String.eqb uid (rep_pod_uid replica))
                | None => Err (Invalid "observed serving replica Pod UID")
                end
            | Err e => if is_404 e then Ok false else Err (Kubernetes e)
            end)
  end.

(** The entries of one dead operation: the principal's first, the gate's
    second. *)
Definition retire_operation (ns gate_object_name gate_uid sandbox_name uid operation_id : string) (entry : GateEntry)
  : prog (result unit AccessLedgerError) :=
  let name := principal_name (ge_principal_hash entry) in
  do found := get name in
  do? _ := match found with
           | Ok principal =>
               match lease_uid principal with
               | Err e => Ret (Err e)
               | Ok principal_uid =>
                   remove_principal_entry ns name principal_uid (ge_principal_hash entry) operation_id
                     {| pe_lease_uid := uid; pe_gate_name := gate_object_name; pe_replica := ge_replica entry |}
               end
           | Err e => if is_404 e then Ret (Ok tt) else Ret (Err (Kubernetes e))
           end in
  remove_gate_entry ns gate_object_name gate_uid sandbox_name uid operation_id entry.

Fixpoint drain_entries (ns gate_object_name gate_uid sandbox_name uid : string) (entries : list (string * GateEntry))
  : prog (result AccessDrain AccessLedgerError) :=
  match entries with
  | [] => Ret (Ok Waiting)
  | (operation_id, entry) :: entries =>
      do? live := replica_is_live (ge_replica entry) in
      if live then drain_entries ns gate_object_name gate_uid sandbox_name uid entries
      else do? _ := retire_operation ns gate_object_name gate_uid sandbox_name uid operation_id entry in
           drain_entries ns gate_object_name gate_uid sandbox_name uid entries
  end.

Definition close_and_drain (ns : string) (lease : SandboxLease) : prog (result AccessDrain AccessLedgerError) :=
  match (let? uid := sandbox_uid lease in
         let? expected := persisted_gate_reference lease in Ok (uid, expected)) with
  | Err e => Ret (Err e)
  | Ok (uid, expected) =>
      do found := get (gate_ref_name expected) in
      match found with
      | Err e => Ret (Err (if is_404 e then Invalid "missing admitted lease gate" else Kubernetes e))
      | Ok gate =>
          match admitted_gate gate ns lease expected with
          | Err e => Ret (Err e)
          | Ok _ =>
              if bool_decide (gate_state gate = Some OPEN) then
                do closed := close_gate gate in
                Ret match closed with
                    | Ok _ => Ok Checkpointed
                    | Err (Kubernetes e) => if optimistic_conflict e then Ok Waiting else Err (Kubernetes e)
                    | Err e => Err e
                    end
              else
                match (let? gate_uid := lease_uid gate in
                       let? entries := parse_entries (T := GateEntry) gate in Ok (gate_uid, entries)) with
                | Err e => Ret (Err e)
                | Ok (gate_uid, entries) =>
                    if bool_decide (entries = ∅) then Ret (Ok Drained)
                    else drain_entries ns (l_name gate) gate_uid (sbx_name lease) uid (btree_iter entries)
                end
          end
      end
  end.

(** ** Recovery and reaping *)

Fixpoint recover_entries (ns gate_object_name gate_uid sandbox_name uid : string) (replica : ServingReplica)
    (entries : list (string * GateEntry)) : prog (result unit AccessLedgerError) :=
  match entries with
  | [] => Ret (Ok tt)
  | (operation_id, entry) :: entries =>
      if negb (stale_for_current_replica (ge_replica entry) replica)
      then recover_entries ns gate_object_name gate_uid sandbox_name uid replica entries
      else do? _ := retire_operation ns gate_object_name gate_uid sandbox_name uid operation_id entry in
           recover_entries ns gate_object_name gate_uid sandbox_name uid replica entries
  end.

(** A listed gate, by its own labels. *)
Definition labelled_gate (gate : Lease) (ns : string) : result (string * string) AccessLedgerError :=
  let? sandbox_name := ok_or (l_labels gate !! LEASE_NAME_LABEL) (Invalid "lease gate name label") in
  let? uid := ok_or (l_labels gate !! LEASE_UID_LABEL) (Invalid "lease gate UID label") in
  let? _ := validate_gate gate ns sandbox_name uid in
  Ok (sandbox_name, uid).

Fixpoint recover_gates (ns : string) (replica : ServingReplica) (gates : list Lease)
  : prog (result unit AccessLedgerError) :=
  match gates with
  | [] => Ret (Ok tt)
  | gate :: gates =>
      match (let? (sandbox_name, uid) := labelled_gate gate ns in
             let? gate_uid := lease_uid gate in
             let? entries := parse_entries (T := GateEntry) gate in Ok (sandbox_name, uid, gate_uid, entries)) with
      | Err e => Ret (Err e)
      | Ok (sandbox_name, uid, gate_uid, entries) =>
          do? _ := recover_entries ns (l_name gate) gate_uid sandbox_name uid replica (btree_iter entries) in
          recover_gates ns replica gates
      end
  end.

Definition is_gate (o : Lease) : bool := bool_decide (l_labels o !! LEDGER_KIND_LABEL = Some GATE_KIND).

Definition recover_replica (ns : string) (replica : ServingReplica) : prog (result unit AccessLedgerError) :=
  match replica_validate replica with
  | Err e => Ret (Err e)
  | Ok _ =>
      do? live := replica_is_live replica in
      if negb live then Ret (Err (Invalid "serving replica Pod identity"))
      else ListLeases (fun r =>
             match r with
             | Err e => Ret (Err (Kubernetes e))
             | Ok objects => recover_gates ns replica (List.filter is_gate objects)
             end)
  end.

(** Best effort: an entry whose owner cannot be judged is kept. *)
Fixpoint reap_dead_replica_entries (ns : string) (gate : Lease) (gate_uid sandbox_name uid : string)
    (entries : list (string * GateEntry)) : prog unit :=
  match entries with
  | [] => Ret tt
  | (operation_id, entry) :: entries =>
      do live := replica_is_live (ge_replica entry) in
      match live with
      | Ok true | Err _ => reap_dead_replica_entries ns gate gate_uid sandbox_name uid entries
      | Ok false =>
          do _ := retire_operation ns (l_name gate) gate_uid sandbox_name uid operation_id entry in
          reap_dead_replica_entries ns gate gate_uid sandbox_name uid entries
      end
  end.

Fixpoint reap_dead_principal_entries (ns : string) (principal : Lease) (principal_uid hash : string)
    (entries : list (string * PrincipalEntry)) : prog unit :=
  match entries with
  | [] => Ret tt
  | (operation_id, entry) :: entries =>
      do live := replica_is_live (pe_replica entry) in
      match live with
      | Ok true | Err _ => reap_dead_principal_entries ns principal principal_uid hash entries
      | Ok false =>
          do _ := remove_principal_entry ns (l_name principal) principal_uid hash operation_id entry in
          reap_dead_principal_entries ns principal principal_uid hash entries
      end
  end.

Definition clean_terminal_lease (lease : SandboxLease) : bool :=
  match sbx_status lease with
  | None => false
  | Some status =>
      (bool_decide (sbx_phase status = SandboxLeasePhase.Released)
       || bool_decide (sbx_phase status = SandboxLeasePhase.Expired))
      && forallb (fun expected =>
           existsb (fun c => String.eqb (sc_type c) expected && bool_decide (sc_status c = ConditionTrue))
             (sbx_conditions status)) ["FootprintAbsent"; "CleanupVerified"]
  end.

(** One unfiltered page, at a known version, of well-formed leases. *)
Definition snapshot_complete (sandbox_ns : string) (snapshot : SandboxLeaseList) : bool :=
  String.eqb (default "" (list_continue snapshot)) ""
  && match list_resource_version snapshot with Some rv => negb (String.eqb rv "") | None => false end
  && forallb (fun lease =>
       bool_decide (sbx_namespace lease = Some sandbox_ns)
       && match sbx_uid lease with Some uid => negb (String.eqb uid "") | None => false end
       && negb (String.eqb (sbx_name lease) "")) (list_items snapshot).

(** The operations the listed gates still own, as (principal object, operation). *)
Definition paired_entries (ns : string) (objects : list Lease) : list (string * string) :=
  flat_map (fun gate =>
    if negb (is_gate gate) then []
    else match (let? _ := labelled_gate gate ns in parse_entries (T := GateEntry) gate) with
         | Ok entries => map (fun '(operation_id, e) => (principal_name (ge_principal_hash e), operation_id))
                           (btree_iter entries)
         | Err _ => []
         end) objects.

(** Whether an empty gate outlived its parent. *)
Definition gate_is_orphan (snapshot : SandboxLeaseList) (name uid : string) : bool :=
  match List.filter (fun lease => bool_decide (sbx_uid lease = Some uid)) (list_items snapshot) with
  | [] => true
  | [lease] => String.eqb (sbx_name lease) name && clean_terminal_lease lease
  | _ => false
  end.

(** [None]: malformed, skipped.  Otherwise whether the object may be deleted,
    after the entries of dead replicas were retired. *)
Definition reap_object (ns sandbox_ns : string) (snapshot : option SandboxLeaseList) (paired : list (string * string))
    (object : Lease) : prog (result bool AccessLedgerError) :=
  if bool_decide (l_labels object !! LEDGER_KIND_LABEL = Some PRINCIPAL_KIND) then
    match l_annotations object !! PRINCIPAL_ANNOTATION with
    | None => Ret (Ok false)
    | Some hash =>
        match (let? _ := validate_principal object ns hash in
               let? uid := lease_uid object in
               let? _ := lease_rv object in
               let? entries := parse_entries (T := PrincipalEntry) object in Ok (uid, entries)) with
        | Err _ => Ret (Ok false)
        | Ok (uid, entries) =>
            if bool_decide (entries = ∅) then Ret (Ok true)
            else
              do _ := reap_dead_principal_entries ns object uid hash
                        (List.filter (fun '(operation_id, _) =>
                           negb (bool_decide ((l_name object, operation_id) ∈ paired))) (btree_iter entries)) in
              Ret (Ok false)
        end
    end
  else if is_gate object then
    match (let? (name, uid) := labelled_gate object ns in
           let? gate_uid := lease_uid object in
           let? _ := lease_rv object in
           let? entries := parse_entries (T := GateEntry) object in Ok (name, uid, gate_uid, entries)) with
    | Err _ => Ret (Ok false)
    | Ok (name, uid, gate_uid, entries) =>
        if negb (bool_decide (entries = ∅)) then
          do _ := reap_dead_replica_entries ns object gate_uid name uid (btree_iter entries) in Ret (Ok false)
        else
          Ret (let? executions := parse_execution_entries object in
               Ok (bool_decide (executions = ∅)
                   && match snapshot with
                      | Some snapshot => snapshot_complete sandbox_ns snapshot && gate_is_orphan snapshot name uid
                      | None => false
                      end))
    end
  else Ret (Ok false).

Fixpoint reap_objects (ns sandbox_ns : string) (snapshot : option SandboxLeaseList) (paired : list (string * string))
    (objects : list Lease) : prog (result unit AccessLedgerError) :=
  match objects with
  | [] => Ret (Ok tt)
  | object :: objects =>
      do? removable := reap_object ns sandbox_ns snapshot paired object in
      if negb removable then reap_objects ns sandbox_ns snapshot paired objects
      else match (let? uid := lease_uid object in let? rv := lease_rv object in Ok (uid, rv)) with
           | Err e => Ret (Err e)
           | Ok (uid, rv) =>
               WriteLease (Delete (l_name object) uid rv) (fun r =>
                 match r with
                 | Err e => if is_404 e || is_409 e then reap_objects ns sandbox_ns snapshot paired objects
                            else Ret (Err (Kubernetes e))
                 | Ok _ => reap_objects ns sandbox_ns snapshot paired objects
                 end)
           end
  end.

Definition reap_empty (sandbox_ns ns : string) : prog (result unit AccessLedgerError) :=
  ListLeases (fun r =>
    match r with
    | Err e => Ret (Err (Kubernetes e))
    | Ok objects =>
        if existsb is_gate objects then
          ListSandboxes sandbox_ns (fun r =>
            match r with
            | Err e => Ret (Err (Kubernetes e))
            | Ok snapshot => reap_objects ns sandbox_ns (Some snapshot) (paired_entries ns objects) objects
            end)
        else reap_objects ns sandbox_ns None (paired_entries ns objects) objects
    end).
End ledger.
