(* ===== verification/LedgerCodec.v ===== *)
(** * LedgerCodec: what the annotations of a ledger object say

    The wire format of [src/sandbox_access_ledger/encoding.rs] reads back what
    it wrote, interned or not; the view of a gate (open or closed, operations
    inside, execution rows) and what each patch of the ledger does to it. *)

From S2P Require Import Prelude Text Execution SandboxObjects LedgerApi AccessLedger.

Open Scope kobe_scope.

(** ** The compact format *)

Lemma position_Some {A} `{EqDecision A} (v : A) l i : position v l = Some i -> l !! i = Some v.
Proof.
  revert i. induction l as [|x l IH]; intros i; cbn; [done|].
  case_decide as E; [intros [= <-]; by rewrite E|].
  rewrite fmap_Some. intros (j & Hj & ->). by apply IH.
Qed.

Lemma intern_spec {A} `{EqDecision A} values (v : A) i values' :
  intern values v = (i, values') -> values' !! i = Some v /\ values `prefix_of` values'.
Proof.
  unfold intern. case_match eqn:E; intros [= <- <-].
  - split; [by apply position_Some | done].
  - split; [by apply list_lookup_middle | by apply prefix_app_r].
Qed.

Lemma pack_spec pods writers e p pods' writers' :
  pack pods writers e = (p, pods', writers') ->
  pods `prefix_of` pods' /\ writers `prefix_of` writers'
  /\ forall c, pods' `prefix_of` cx_pods c -> writers' `prefix_of` cx_writers c -> unpack c p = Ok e.
Proof.
  unfold pack. destruct (intern pods (ee_pod_uid e)) as [pod pods1] eqn:E1.
  apply intern_spec in E1 as [L1 P1].
  destruct e as [digest pod_uid at_ uid state active [w|]]; cbn [ee_writer] in *.
  - destruct (intern writers w) as [i writers1] eqn:E2. apply intern_spec in E2 as [L2 P2].
    intros [= <- <- <-]. split; [done|]. split; [done|]. intros c H1 H2. unfold unpack. cbn.
    rewrite (prefix_lookup_Some _ _ _ _ L1 H1), (prefix_lookup_Some _ _ _ _ L2 H2). done.
  - intros [= <- <- <-]. split; [done|]. split; [done|]. intros c H1 H2. unfold unpack. cbn.
    by rewrite (prefix_lookup_Some _ _ _ _ L1 H1).
Qed.

Lemma pack_all_spec pods writers rows packed pods' writers' :
  pack_all pods writers rows = (packed, pods', writers') ->
  pods `prefix_of` pods' /\ writers `prefix_of` writers'
  /\ Forall2 (fun row out => row.1 = out.1 /\
       forall c, pods' `prefix_of` cx_pods c -> writers' `prefix_of` cx_writers c -> unpack c out.2 = Ok row.2)
     rows packed.
Proof.
  revert pods writers packed. induction rows as [|[name e] rows IH]; intros pods writers packed; cbn.
  - intros [= <- <- <-]. eauto.
  - destruct (pack pods writers e) as [[p pods1] writers1] eqn:E1.
    destruct (pack_all pods1 writers1 rows) as [[packed1 pods2] writers2] eqn:E2.
    intros [= <- <- <-]. apply pack_spec in E1 as (P1 & W1 & U1).
    apply IH in E2 as (P2 & W2 & F). split; [by etrans|]. split; [by etrans|].
    constructor; [|done]. split; [done|]. cbn. intros c H1 H2. apply U1; by etrans.
Qed.

(** Unpacking succeeds on rows that unpack one by one. *)
Lemma unpack_all_spec c rows (m : gmap string ExecutionEntry) :
  NoDup rows.*1 ->
  (forall n p, (n, p) ∈ rows -> exists e, unpack c p = Ok e /\ m !! n = Some e) ->
  (forall n e, m !! n = Some e -> exists p, (n, p) ∈ rows) ->
  unpack_all c rows = Ok m.
Proof.
  revert m. induction rows as [|[n p] rows IH]; intros m Hnd Hin Hout; cbn.
  - f_equal. symmetry. apply map_empty. intros n. apply eq_None_not_Some.
    intros [e He]. destruct (Hout _ _ He) as [p Hp]. by apply elem_of_nil in Hp.
  - apply NoDup_cons in Hnd as [Hn Hnd].
    destruct (Hin n p) as (e & He & Hm); [by left|]. rewrite He.
    rewrite (IH (delete n m)); [by rewrite insert_delete_id|done|..].
    + intros n' p' Hp'. destruct (Hin n' p') as (e' & ? & ?); [by right|].
      exists e'. rewrite lookup_delete_ne; [done|]. intros ->. apply Hn. by apply (list_elem_of_fmap_2 fst) in Hp'.
    + intros n' e' [Hne He']%lookup_delete_Some. destruct (Hout _ _ He') as [p' Hp'].
      apply elem_of_cons in Hp' as [[= -> ->]|Hp']; [done | eauto].
Qed.

Lemma compact_unpack (m : gmap string ExecutionEntry) :
  unpack_all (compact m) (btree_iter (cx_entries (compact m))) = Ok m.
Proof.
  unfold compact. destruct (pack_all [] [] (btree_iter m)) as [[packed pods] writers] eqn:E. cbn.
  apply pack_all_spec in E as (_ & _ & F).
  assert (K : packed.*1 = (btree_iter m).*1).
  { clear -F. induction F as [|[n e] [n' p] ? ? [Hn _] _ IH]; cbn in *; [done|]. by rewrite Hn, IH. }
  assert (ND : NoDup packed.*1) by (rewrite K; apply btree_iter_NoDup).
  apply unpack_all_spec; [apply btree_iter_NoDup|..].
  - intros n p Hp. apply elem_of_btree_iter, elem_of_list_to_map_2 in Hp.
    apply list_elem_of_lookup in Hp as [i Hi].
    destruct (Forall2_lookup_r _ _ _ _ _ F Hi) as ([n' e] & He & Hn & Hu). cbn in *. subst n'.
    exists e. split; [by apply Hu|]. apply elem_of_btree_iter, list_elem_of_lookup. eauto.
  - intros n e He. apply elem_of_btree_iter, list_elem_of_lookup in He as [i Hi].
    destruct (Forall2_lookup_l _ _ _ _ _ F Hi) as ([n' p] & Hp & Hn & _). cbn in *. subst n'.
    exists p. apply elem_of_btree_iter, elem_of_list_to_map_1; [done|]. apply list_elem_of_lookup. eauto.
Qed.

Section codec.
Context {C : Codec} {CL : CodecLaws C}.

Lemma json_gate_text (m : gmap string GateEntry) s : json_text m = Ok s -> json_value s = Ok m.
Proof. unfold json_text, json_value. rewrite !ok_or_Ok. apply gate_roundtrip. Qed.

Lemma json_principal_text (m : gmap string PrincipalEntry) s : json_text m = Ok s -> json_value s = Ok m.
Proof. unfold json_text, json_value. rewrite !ok_or_Ok. apply principal_roundtrip. Qed.

Lemma decode_plain (m : gmap string ExecutionEntry) s : to_json m = Some s -> decode s = Ok m.
Proof.
  intros H. unfold decode. destruct (executions_object _ _ H) as [rest ->].
  change (strip_prefix PREFIX ("{" +:+ rest)) with (@None string). by apply ok_or_Ok, executions_roundtrip.
Qed.

Lemma decode_encode (m : gmap string ExecutionEntry) s : encode m = Ok s -> decode s = Ok m.
Proof.
  unfold encode. intros H. unbind H. apply ok_or_Ok in Hok.
  case_match; [injection H as <-; by apply decode_plain|].
  unbind H. apply ok_or_Ok, compact_roundtrip in Hok0. injection H as <-.
  case_match; [|by apply decode_plain].
  unfold decode. match goal with |- context [strip_prefix _ ?s] => change s with (PREFIX +:+ a0) end.
  rewrite strip_prefix_app. unfold json_value. rewrite Hok0. cbn. apply compact_unpack.
Qed.

(** ** Views *)

Record GateView : Type := {
  v_open : bool;
  v_entries : gmap string GateEntry;
  v_rows : gmap string ExecutionEntry;
}.

Definition ok_option {A E} (r : result A E) : option A := match r with Ok a => Some a | Err _ => None end.

Definition state_open (o : Lease) : option bool :=
  if bool_decide (gate_state o = Some OPEN) then Some true
  else if bool_decide (gate_state o = Some CLOSED) then Some false else None.

Definition gate_view (o : Lease) : option GateView :=
  open ← state_open o;
  entries ← ok_option (parse_entries (T := GateEntry) o);
  rows ← ok_option (parse_execution_entries o);
  Some {| v_open := open; v_entries := entries; v_rows := rows |}.

(** Two objects with the same three annotations have the same view. *)
Lemma gate_view_ext o o' :
  l_annotations o !! STATE_ANNOTATION = l_annotations o' !! STATE_ANNOTATION ->
  l_annotations o !! ENTRIES_ANNOTATION = l_annotations o' !! ENTRIES_ANNOTATION ->
  (let? e := ok_or (l_annotations o !! EXECUTIONS_ANNOTATION) (Invalid "executions annotation") in decode e)
  = (let? e := ok_or (l_annotations o' !! EXECUTIONS_ANNOTATION) (Invalid "executions annotation") in decode e) ->
  gate_view o = gate_view o'.
Proof.
  unfold gate_view, state_open, gate_state, parse_entries, parse_execution_entries. by intros -> -> ->.
Qed.

Lemma gate_view_stamped o uid rv : gate_view (stamped o uid rv) = gate_view o.
Proof. by apply gate_view_ext. Qed.

Lemma parse_entries_stamped {T} `{Json (gmap string T)} o uid rv :
  parse_entries (T := T) (stamped o uid rv) = parse_entries o.
Proof. done. Qed.

Lemma gate_view_Some o v :
  gate_view o = Some v <->
  state_open o = Some (v_open v) /\ parse_entries o = Ok (v_entries v) /\ parse_execution_entries o = Ok (v_rows v).
Proof.
  unfold gate_view. destruct (state_open o) as [b|] eqn:E1; cbn; [|by split; [|intros (? & ? & ?)]].
  destruct (parse_entries o) as [m|] eqn:E2; cbn; [|by split; [|intros (? & ? & ?)]].
  destruct (parse_execution_entries o) as [r|] eqn:E3; cbn; [|by split; [|intros (? & ? & ?)]].
  destruct v; cbn. split; [by intros [= -> -> ->] | by intros ([= ->] & [= ->] & [= ->])].
Qed.

(** ** What a patch does to the view *)

Lemma view_replace_entries o v es next :
  gate_view o = Some v -> json_text es = Ok next ->
  gate_view (with_annotation o ENTRIES_ANNOTATION next)
  = Some {| v_open := v_open v; v_entries := es; v_rows := v_rows v |}.
Proof.
  rewrite !gate_view_Some. intros (H1 & H2 & H3) Hn. cbn. split; [|split].
  - revert H1. unfold state_open, gate_state. cbn. by rewrite lookup_insert_ne.
  - unfold parse_entries. cbn. rewrite lookup_insert_eq. cbn. by apply json_gate_text.
  - revert H3. unfold parse_execution_entries. cbn. by rewrite lookup_insert_ne.
Qed.

Lemma view_replace_rows o v rows next :
  gate_view o = Some v -> encode rows = Ok next ->
  gate_view (with_annotation o EXECUTIONS_ANNOTATION next)
  = Some {| v_open := v_open v; v_entries := v_entries v; v_rows := rows |}.
Proof.
  rewrite !gate_view_Some. intros (H1 & H2 & H3) Hn. cbn. split; [|split].
  - revert H1. unfold state_open, gate_state. cbn. by rewrite lookup_insert_ne.
  - revert H2. unfold parse_entries. cbn. by rewrite lookup_insert_ne.
  - unfold parse_execution_entries. cbn. rewrite lookup_insert_eq. cbn. by apply decode_encode.
Qed.

Lemma view_replace_state o v :
  gate_view o = Some v ->
  gate_view (with_annotation o STATE_ANNOTATION CLOSED)
  = Some {| v_open := false; v_entries := v_entries v; v_rows := v_rows v |}.
Proof.
  rewrite !gate_view_Some. intros (H1 & H2 & H3). cbn. split; [|split].
  - unfold state_open, gate_state. cbn. by rewrite lookup_insert_eq.
  - revert H2. unfold parse_entries. cbn. by rewrite lookup_insert_ne.
  - revert H3. unfold parse_execution_entries. cbn. by rewrite lookup_insert_ne.
Qed.

(** Everything but the annotations is kept, up to the version. *)
Definition same_object (o o' : Lease) : Prop :=
  l_name o' = l_name o /\ l_uid o' = l_uid o /\ l_labels o' = l_labels o.

Lemma same_object_annotation o k v : same_object o (with_annotation o k v).
Proof. done. Qed.

Lemma same_object_trans o o' o'' : same_object o o' -> same_object o' o'' -> same_object o o''.
Proof. unfold same_object. intuition congruence. Qed.

Lemma apply_ops_app ops ops' o :
  apply_ops (ops ++ ops') o = match apply_ops ops o with Some o => apply_ops ops' o | None => None end.
Proof. revert o. induction ops as [|op ops IH]; intros o; cbn; [done|]. by destruct (apply_op o op). Qed.

Lemma apply_ops_same ops o o' : apply_ops ops o = Some o' -> same_object o o' /\ l_resource_version o' = l_resource_version o.
Proof.
  revert o. induction ops as [|op ops IH]; intros o; cbn; [by intros [= <-]|].
  destruct (apply_op o op) as [o1|] eqn:E; [|done]. intros [H1 H2]%IH.
  assert (same_object o o1 /\ l_resource_version o1 = l_resource_version o) as [H3 H4].
  { destruct op; cbn in E; case_bool_decide; inversion E; subst; done. }
  split; [by eapply same_object_trans | congruence].
Qed.

(** The operations of [recompact] rewrite the rows' text, not the rows. *)
Lemma recompact_view o v ops replacements future o' :
  gate_view o = Some v -> recompact o = Ok (ops, replacements, future) ->
  apply_ops ops o = Some o' -> gate_view o' = Some v
  /\ forall k, k <> EXECUTIONS_ANNOTATION -> l_annotations o' !! k = l_annotations o !! k.
Proof.
  intros Hv Hr. unfold recompact in Hr.
  destruct (l_annotations o !! EXECUTIONS_ANNOTATION) as [history|] eqn:Eh; [|by injection Hr as <- <- <-; intros [= <-]].
  unbind Hr. injection Hr as <- <- <-. case_match; [by intros [= <-]|]. cbn.
  case_bool_decide; [|done]. rewrite Eh. rewrite bool_decide_eq_true_2 by eauto. intros [= <-].
  split; [|intros k Hk; cbn; by rewrite lookup_insert_ne].
  rewrite (view_replace_rows _ _ _ _ Hv Hok0). apply gate_view_Some in Hv as (_ & _ & H3).
  unfold parse_execution_entries in H3. rewrite Eh in H3. cbn in H3. rewrite Hok in H3.
  injection H3 as ->. by destruct v.
Qed.

(** Every patch names the exact object and version it was computed from. *)
Definition pinned (ops : list patch_op) (o : Lease) : Prop :=
  exists uid rv rest, ops = TestUid uid :: TestResourceVersion rv :: rest
    /\ l_uid o = Some uid /\ l_resource_version o = Some rv.

Lemma lease_uid_Ok o u : lease_uid o = Ok u -> l_uid o = Some u.
Proof. unfold lease_uid. repeat case_match; congruence. Qed.

Lemma lease_rv_Ok o u : lease_rv o = Ok u -> l_resource_version o = Some u.
Proof. unfold lease_rv. repeat case_match; congruence. Qed.

#[local] Hint Resolve lease_uid_Ok lease_rv_Ok : kobe.

Lemma apply_pinned_tests uid rv rest o :
  apply_ops (TestUid uid :: TestResourceVersion rv :: rest) o =
  if bool_decide (l_uid o = Some uid /\ l_resource_version o = Some rv) then apply_ops rest o else None.
Proof.
  cbn. destruct (bool_decide_reflect (l_uid o = Some uid)), (bool_decide_reflect (l_resource_version o = Some rv));
    first [rewrite bool_decide_eq_true_2 by done | rewrite bool_decide_eq_false_2 by tauto]; done.
Qed.

(** A pinned patch only lands on its own object and version. *)
Lemma pinned_lands ops o c c' : pinned ops o -> apply_ops ops c = Some c' ->
  l_uid c = l_uid o /\ l_resource_version c = l_resource_version o.
Proof.
  intros (uid & rv & rest & -> & Hu & Hr). rewrite apply_pinned_tests. case_bool_decide as H; [|done].
  intros _. destruct H. split; congruence.
Qed.

Lemma apply_test_replace k prev next o o' :
  apply_ops [TestAnnotation k prev; ReplaceAnnotation k next] o = Some o' -> o' = with_annotation o k next.
Proof. cbn. repeat case_bool_decide; congruence. Qed.

Section entries.
Context {T : Type} {J : Json (gmap string T)}.
Hypothesis law : forall (m : gmap string T) s, json_text m = Ok s -> json_value s = Ok m.

Lemma entries_patch_spec o prev (es : gmap string T) ops :
  entries_patch o prev es = Ok ops ->
  pinned ops o /\ exists next, json_text es = Ok next /\
    forall c c', apply_ops ops c = Some c' -> c' = with_annotation c ENTRIES_ANNOTATION next.
Proof.
  unfold entries_patch. intros H. unbind H. injection H as <-.
  split; [repeat eexists; auto with kobe|]. eexists. split; [done|].
  intros c c'. rewrite apply_pinned_tests. case_bool_decide; [|done]. apply apply_test_replace.
Qed.

Lemma access_patch_spec o prev (es : gmap string T) ops :
  access_patch o prev es = Ok ops ->
  pinned ops o /\ exists next rewrite_ops replacements future, json_text es = Ok next
    /\ recompact o = Ok (rewrite_ops, replacements, future)
    /\ forall c c', apply_ops ops c = Some c' ->
       exists c1, apply_ops rewrite_ops c = Some c1 /\ c' = with_annotation c1 ENTRIES_ANNOTATION next.
Proof.
  unfold access_patch. intros H. unbind H. destruct a2 as [[rewrite_ops replacements] future].
  unbind H. injection H as <-.
  split; [repeat eexists; auto with kobe|].
  eexists a, rewrite_ops, replacements, future. split; [done|]. split; [done|].
  intros c c'. cbn [app]. rewrite apply_pinned_tests. case_bool_decide; [|done].
  cbn. case_bool_decide; [|done]. rewrite apply_ops_app.
  destruct (apply_ops rewrite_ops c) as [c1|]; [|done]. cbn.
  case_bool_decide; [|done]. intros [= <-]. eauto.
Qed.

Lemma parse_after_replace o next es : json_text es = Ok next ->
  parse_entries (with_annotation o ENTRIES_ANNOTATION next) = Ok (es : gmap string T).
Proof. intros. unfold parse_entries. cbn. rewrite lookup_insert_eq. cbn. by apply law. Qed.
End entries.

(** The view after each patch that lands on the gate it was computed from. *)
Lemma entries_patch_view o v prev es ops o' :
  gate_view o = Some v -> entries_patch o prev es = Ok ops -> apply_ops ops o = Some o' ->
  gate_view o' = Some {| v_open := v_open v; v_entries := es; v_rows := v_rows v |}.
Proof.
  intros Hv (_ & next & Hn & H)%entries_patch_spec Ho. rewrite (H _ _ Ho). by apply view_replace_entries.
Qed.

Lemma access_patch_view o v prev es ops o' :
  gate_view o = Some v -> access_patch o prev es = Ok ops -> apply_ops ops o = Some o' ->
  gate_view o' = Some {| v_open := v_open v; v_entries := es; v_rows := v_rows v |}.
Proof.
  intros Hv (_ & next & rw & rs & fut & Hn & Hr & H)%access_patch_spec Ho.
  destruct (H _ _ Ho) as (c1 & Hc & ->). apply (recompact_view _ _ _ _ _ _ Hv Hr) in Hc as [Hc _].
  by apply (view_replace_entries _ _ _ _ Hc).
Qed.

Lemma execution_patch_spec o prev rows ops :
  execution_patch o prev rows = Ok ops ->
  pinned ops o /\ exists next, encode rows = Ok next /\
    forall c c', apply_ops ops c = Some c' -> c' = with_annotation c EXECUTIONS_ANNOTATION next.
Proof.
  unfold execution_patch. intros H. unbind H. injection H as <-.
  split; [repeat eexists; auto with kobe|]. eexists. split; [done|].
  intros c c'. rewrite apply_pinned_tests. case_bool_decide; [|done]. apply apply_test_replace.
Qed.

Lemma execution_patch_view o v prev rows ops o' :
  gate_view o = Some v -> execution_patch o prev rows = Ok ops -> apply_ops ops o = Some o' ->
  gate_view o' = Some {| v_open := v_open v; v_entries := v_entries v; v_rows := rows |}.
Proof.
  intros Hv (_ & next & Hn & H)%execution_patch_spec Ho. rewrite (H _ _ Ho). by apply view_replace_rows.
Qed.

Lemma close_patch_pinned o ops : close_patch o = Ok ops -> pinned ops o.
Proof.
  unfold close_patch. intros H. unbind H. destruct a1 as [[rw rs] fut]. unbind H. injection H as <-.
  repeat eexists; auto with kobe.
Qed.

Lemma close_patch_view o v ops o' :
  gate_view o = Some v -> close_patch o = Ok ops -> apply_ops ops o = Some o' ->
  v_open v = true /\ gate_view o' = Some {| v_open := false; v_entries := v_entries v; v_rows := v_rows v |}.
Proof.
  intros Hv. unfold close_patch. intros H. unbind H. destruct a1 as [[rw rs] fut]. unbind H. injection H as <-.
  cbn [app]. rewrite apply_pinned_tests. case_bool_decide; [|done].
  cbn. case_bool_decide as Es; [|done]. case_bool_decide; [|done]. intros Ho.
  split.
  { apply gate_view_Some in Hv as [Hs _]. revert Hs. unfold state_open, gate_state. rewrite Es.
    rewrite bool_decide_eq_true_2 by done. by intros [= <-]. }
  assert (Hr : recompact (with_annotation o STATE_ANNOTATION CLOSED) = Ok (rw, rs, fut)).
  { rewrite <- Hok1. unfold recompact. cbn. by rewrite lookup_insert_ne. }
  by apply (recompact_view _ _ _ _ _ _ (view_replace_state _ _ Hv) Hr).
Qed.
End codec.
