(* ===== verification/LedgerSteps.v ===== *)
(** * LedgerSteps: the abstract protocol of a gate, and the programs that follow it

    [gate_step] is the specification of a gate: what may happen to its state,
    the operations inside and the execution rows.  [wlp] follows a program
    through every answer of the server and requires each write it sends to be a
    [gate_step] of the object it read, pinned to that object's version; every
    handler of AccessLedger satisfies it. *)

From S2P Require Import Prelude Text Execution SandboxObjects LedgerApi AccessLedger LedgerCodec.

Open Scope kobe_scope.

(** ** The protocol *)

Definition fresh_row (e : ExecutionEntry) : Prop :=
  ee_execution_uid e = None /\ ee_creation_state e = Creating /\ ee_active e = true.

Definition creating_row (e : ExecutionEntry) : Prop :=
  ee_execution_uid e = None /\ ee_creation_state e = Creating.

(** The changes of the rows under an open or closed gate. *)
Inductive row_step (limit : Z) (open : bool) : gmap string ExecutionEntry -> gmap string ExecutionEntry -> Prop :=
| rs_reserve name e rows :
    open = true -> rows !! name = None -> fresh_row e -> exceeds (Z.of_nat (size rows) + 1) limit = false ->
    row_step limit open rows (<[name := e]> rows)
| rs_bind name e uid rows :
    open = true -> rows !! name = Some e -> fresh_row e ->
    row_step limit open rows (<[name := resolve_row e (Some uid) Bound true]> rows)
| rs_adopt name e uid rows :
    rows !! name = Some e -> creating_row e ->
    row_step limit open rows (<[name := resolve_row e (Some uid) Bound false]> rows)
| rs_reject name e rows :
    rows !! name = Some e -> creating_row e ->
    row_step limit open rows (<[name := resolve_row e None Rejected false]> rows)
| rs_complete name e uid rows :
    rows !! name = Some e -> ee_execution_uid e = Some uid -> ee_active e = true ->
    row_step limit open rows (<[name := resolve_row e (Some uid) (ee_creation_state e) false]> rows)
| rs_retire name e rows :
    open = false -> rows !! name = Some e -> unresolved e = false ->
    row_step limit open rows (delete name rows).

Definition view (open : bool) (entries : gmap string GateEntry) (rows : gmap string ExecutionEntry) : GateView :=
  {| v_open := open; v_entries := entries; v_rows := rows |}.

(** [enter] and [leave] say which operations may be added and removed. *)
Inductive gate_step (L : SandboxLimits) (enter leave : string -> GateEntry -> Prop) : GateView -> GateView -> Prop :=
| gs_enter op e es rows :
    enter op e -> exceeds (Z.of_nat (size es) + 1) (streams_per_lease L) = false ->
    gate_step L enter leave (view true es rows) (view true (<[op := e]> es) rows)
| gs_leave open op e es rows :
    es !! op = Some e -> leave op e ->
    gate_step L enter leave (view open es rows) (view open (delete op es) rows)
| gs_close es rows :
    gate_step L enter leave (view true es rows) (view false es rows)
| gs_rows open es rows rows' :
    row_step (executions_per_lease L) open rows rows' ->
    gate_step L enter leave (view open es rows) (view open es rows')
| gs_clear rows :
    (forall name e, rows !! name = Some e -> unresolved e = false) ->
    gate_step L enter leave (view false ∅ rows) (view false ∅ ∅).

Definition anyone (_ : string) (_ : GateEntry) : Prop := True.
Definition gate_protocol (L : SandboxLimits) : GateView -> GateView -> Prop := gate_step L anyone anyone.

Lemma gate_step_mono L enter leave enter' leave' v v' :
  (forall op e, enter op e -> enter' op e) ->
  (forall op e, v_entries v !! op = Some e -> leave op e -> leave' op e) ->
  gate_step L enter leave v v' -> gate_step L enter' leave' v v'.
Proof.
  intros He Hl Hs. destruct Hs; [eapply gs_enter | eapply gs_leave | apply gs_close | apply gs_rows | apply gs_clear]; eauto.
Qed.

Lemma gate_step_any L enter leave v v' : gate_step L enter leave v v' -> gate_protocol L v v'.
Proof. by apply gate_step_mono. Qed.

(** The ledger of a principal. *)
Inductive principal_step (L : SandboxLimits) : gmap string PrincipalEntry -> gmap string PrincipalEntry -> Prop :=
| ps_enter op e m :
    exceeds (Z.of_nat (size m) + 1) (streams_per_principal L) = false ->
    principal_step L m (<[op := e]> m)
| ps_leave op m : principal_step L m (delete op m).

(** ** What the protocol preserves *)

Lemma exceeds_false v l : exceeds v l = false <-> l = 0 \/ v <= l.
Proof. unfold exceeds. destruct (Z.eqb_spec l 0), (Z.ltb_spec l v); cbn; split; lia || done. Qed.

(** A count under a ceiling that is not disabled. *)
Definition within (n : nat) (limit : Z) : Prop := limit <= 0 \/ Z.of_nat n <= limit.

Lemma within_empty limit : within 0 limit.
Proof. unfold within. lia. Qed.


Lemma within_insert {A} (m : gmap string A) k v limit :
  exceeds (Z.of_nat (size m) + 1) limit = false -> within (size (<[k := v]> m)) limit.
Proof.
  intros [->|H]%exceeds_false; [left; lia|]. right.
  destruct (m !! k) as [x|] eqn:E.
  - rewrite map_size_insert_Some by eauto. lia.
  - rewrite map_size_insert_None by done. lia.
Qed.

Lemma within_delete {A} (m : gmap string A) k limit : within (size m) limit -> within (size (delete k m)) limit.
Proof.
  intros [H|H]; [by left|]. right. destruct (m !! k) as [x|] eqn:E.
  - rewrite map_size_delete_Some by eauto. lia.
  - rewrite delete_id; done.
Qed.

Lemma within_replace {A} (m : gmap string A) k x v limit :
  m !! k = Some x -> within (size m) limit -> within (size (<[k := v]> m)) limit.
Proof. intros Hk. rewrite map_size_insert_Some by eauto. done. Qed.

#[export] Hint Resolve within_insert within_delete within_replace : kobe.

(** The ceilings hold of every gate of the protocol. *)
Definition within_limits (L : SandboxLimits) (v : GateView) : Prop :=
  within (size (v_entries v)) (streams_per_lease L) /\ within (size (v_rows v)) (executions_per_lease L).

Lemma row_step_within limit open rows rows' :
  row_step limit open rows rows' -> within (size rows) limit -> within (size rows') limit.
Proof. intros Hs H. destruct Hs; eauto with kobe. Qed.

Lemma gate_step_within L enter leave v v' :
  gate_step L enter leave v v' -> within_limits L v -> within_limits L v'.
Proof.
  unfold within_limits. intros Hs [H1 H2]. destruct Hs; cbn in *; split; eauto using row_step_within with kobe.
  rewrite map_size_empty. apply within_empty.
Qed.

(** A closed gate stays closed, and is only left. *)
Lemma gate_step_closed L enter leave v v' :
  gate_step L enter leave v v' -> v_open v = false -> v_open v' = false /\ v_entries v' ⊆ v_entries v.
Proof. intros Hs Hc. destruct Hs; cbn in *; try done. split; [done|]. apply delete_subseteq. Qed.

Lemma protocol_closed L v v' :
  rtc (gate_protocol L) v v' -> v_open v = false -> v_open v' = false /\ v_entries v' ⊆ v_entries v.
Proof.
  induction 1 as [|v m v' H _ IH]; intros Hc; [done|].
  apply gate_step_closed in H as [Hm Hs]; [|done]. destruct (IH Hm) as [? ?]. split; [done | by etrans].
Qed.

(** ** The life of one row *)

(** What a later row keeps of an earlier one: its identity, a UID once bound, a
    rejection, and the end of its active slot. *)
Record row_le (e e' : ExecutionEntry) : Prop := {
  row_le_digest : ee_request_digest e' = ee_request_digest e;
  row_le_pod : ee_pod_uid e' = ee_pod_uid e;
  row_le_at : ee_reserved_at e' = ee_reserved_at e;
  row_le_writer : ee_writer e' = ee_writer e;
  row_le_uid uid : ee_execution_uid e = Some uid -> ee_execution_uid e' = Some uid;
  row_le_resolved : ee_creation_state e <> Creating ->
    ee_creation_state e' = ee_creation_state e /\ ee_execution_uid e' = ee_execution_uid e;
  row_le_active : ee_active e' = true -> ee_active e = true;
}.

#[export] Instance row_le_preorder : PreOrder row_le.
Proof.
  split.
  - intros e. by constructor.
  - intros e1 e2 e3 [] []. split; try congruence; auto.
    intros H. destruct row_le_resolved0 as [Hs Hu]; [done|].
    rewrite <- Hs, <- Hu. apply row_le_resolved1. congruence.
Qed.

(** Under the protocol a row moves forward, or leaves under a closed gate once
    it is resolved. *)
Lemma row_step_life limit open rows rows' name e :
  row_step limit open rows rows' -> rows !! name = Some e ->
  (exists e', rows' !! name = Some e' /\ row_le e e'
     /\ (open = false -> ee_active e' = true -> ee_execution_uid e' = ee_execution_uid e))
  \/ (rows' !! name = None /\ open = false /\ unresolved e = false).
Proof.
  assert (Hother : forall n x, rows !! name = Some e -> n <> name ->
            exists e', <[n := x]> rows !! name = Some e' /\ row_le e e'
              /\ (open = false -> ee_active e' = true -> ee_execution_uid e' = ee_execution_uid e)).
  { intros n x Hn Hne. exists e. rewrite lookup_insert_ne by done. done. }
  destruct 1 as [n x ? Ho Hx Hf _|n x uid ? Ho Hx Hf|n x uid ? Hx Hf|n x ? Hx Hf|n x uid ? Hx Hu Ha|n x ? Ho Hx Hr]; intros Hn;
    (destruct (decide (n = name)) as [->|Hne]; [|try (left; by apply Hother)]).
  - congruence.
  - left. assert (x = e) as -> by congruence. eexists. rewrite lookup_insert_eq. split; [done|].
    destruct Hf as (? & ? & ?). split; [split; cbn; congruence || done|]. congruence.
  - left. assert (x = e) as -> by congruence. eexists. rewrite lookup_insert_eq. split; [done|].
    destruct Hf as (? & ?). split; [split; cbn; congruence || done|]. done.
  - left. assert (x = e) as -> by congruence. eexists. rewrite lookup_insert_eq. split; [done|].
    destruct Hf as (? & ?). split; [split; cbn; congruence || done|]. done.
  - left. assert (x = e) as -> by congruence. eexists. rewrite lookup_insert_eq. split; [done|].
    split; [split; cbn; congruence || done|]. done.
  - right. rewrite lookup_delete_eq. split; [done|]. split; [done|]. congruence.
  - left. exists e. rewrite lookup_delete_ne by done. done.
Qed.

Lemma gate_step_row_life L enter leave v v' name e :
  gate_step L enter leave v v' -> v_rows v !! name = Some e ->
  (exists e', v_rows v' !! name = Some e' /\ row_le e e'
     /\ (v_open v = false -> ee_active e' = true -> ee_execution_uid e' = ee_execution_uid e))
  \/ (v_rows v' !! name = None /\ v_open v' = false).
Proof.
  intros Hs Hn. destruct Hs; cbn in *; try (left; exists e; done).
  - edestruct row_step_life as [?|(? & ? & ?)]; [done..|by left|by right].
  - right. by rewrite lookup_empty.
Qed.

(** A row that is absent from a closed gate never comes back. *)
Lemma gate_step_no_row L enter leave v v' name :
  gate_step L enter leave v v' -> v_open v = false -> v_rows v !! name = None -> v_rows v' !! name = None.
Proof.
  intros Hs Hc Hn. destruct Hs as [| | |open es rows rows' Hr|]; cbn in *; try done.
  destruct Hr as [n x ? Ho _|n x ? ? Ho _|n x ? ? Hx _|n x ? Hx _|n x ? ? Hx _|n x ? Ho Hx _];
    try congruence; try (rewrite lookup_insert_ne; [done|]; congruence).
  rewrite lookup_delete_ne; [done|]. congruence.
Qed.

Lemma protocol_row_life L v v' name e :
  rtc (gate_protocol L) v v' -> v_rows v !! name = Some e ->
  (exists e', v_rows v' !! name = Some e' /\ row_le e e'
     /\ (v_open v = false -> ee_active e' = true -> ee_execution_uid e' = ee_execution_uid e))
  \/ (v_rows v' !! name = None /\ v_open v' = false).
Proof.
  intros H. revert e. induction H as [v|v m v' Hs Hrest IH]; intros e Hn; [left; exists e; done|].
  destruct (gate_step_row_life _ _ _ _ _ _ _ Hs Hn) as [(e1 & H1 & Hle & Ha)|[H1 Hc]].
  - destruct (IH _ H1) as [(e2 & H2 & Hle2 & Ha2)|?]; [left|by right].
    exists e2. split; [done|]. split; [by etrans|]. intros Ho Hact.
    assert (v_open m = false) as Hm by (eapply gate_step_closed in Hs as [? _]; eauto).
    rewrite Ha2 by done. apply Ha; [done|]. by apply (row_le_active _ _ Hle2).
  - right. clear IH Hs Hn. induction Hrest as [x|x m' z Hs _ IH]; [done|].
    apply IH; [by eapply gate_step_no_row|]. by eapply gate_step_closed in Hs as [? _].
Qed.

(** ** Contexts: what a running program has learnt *)

Definition gate_named (name : string) : bool := starts_with name "kobe-access-g-".
Definition principal_named (name : string) : bool := starts_with name "kobe-access-p-".

Section programs.
Context {C : Codec} {CL : CodecLaws C}.
Variable L : SandboxLimits.

(** [seen]: the objects the server returned; [dead]: the replicas whose Pod was
    observed absent or replaced; [self]: the replica the program runs in, when it
    acts as one; [own]: the operation it owns; [retiring]: whether it has asked
    for the removal of that operation. *)
Record Ctx : Type := {
  seen : Lease -> Prop;
  dead : ServingReplica -> Prop;
  self : option ServingReplica;
  own : option (string * GateEntry);
  retiring : bool;
}.

Definition saw (c : Ctx) (o : Lease -> Prop) : Ctx :=
  {| seen := fun x => seen c x \/ o x; dead := dead c; self := self c; own := own c; retiring := retiring c |}.

Definition saw_answer (c : Ctx) (r : result Lease kube_error) : Ctx := saw c (fun o => r = Ok o).

(** A replica that owns an operation inside a gate the program has seen. *)
Definition known (c : Ctx) (r : ServingReplica) : Prop :=
  exists o v op e, seen c o /\ gate_named (l_name o) = true /\ gate_view o = Some v
    /\ v_entries v !! op = Some e /\ ge_replica e = r.

(** A Pod answer that excludes a replica. *)
Definition refuted (r : ServingReplica) (answer : result Pod kube_error) : Prop :=
  match answer with
  | Ok pod => pod_meta_uid pod <> Some (rep_pod_uid r)
  | Err e => is_404 e = true
  end.

Definition learn (c : Ctx) (ns name : string) (answer : result Pod kube_error) : Ctx :=
  {| seen := seen c;
     dead := fun r => dead c r \/
       (known c r /\ rep_namespace r = ns /\ rep_pod_name r = name /\ refuted r answer);
     self := self c; own := own c; retiring := retiring c |}.

Definition retire (c : Ctx) (b : bool) : Ctx :=
  {| seen := seen c; dead := dead c; self := self c; own := own c; retiring := retiring c || b |}.

(** Who may enter and leave a gate, as far as a program knows. *)
Definition may_enter (c : Ctx) (op : string) (e : GateEntry) : Prop := own c = Some (op, e).

Definition may_leave (c : Ctx) (op : string) (e : GateEntry) : Prop :=
  (exists e', own c = Some (op, e')) \/ dead c (ge_replica e)
  \/ (exists me, self c = Some me /\ stale_for_current_replica (ge_replica e) me = true).

(** What a landed patch may do to the object it was computed from; [b] allows
    removals. *)
Definition object_change (c : Ctx) (b : bool) (o o' : Lease) : Prop :=
  (gate_named (l_name o) = true ->
     forall v, gate_view o = Some v -> exists v', gate_view o' = Some v'
       /\ gate_step L (may_enter c) (fun op e => b = true /\ may_leave c op e) v v')
  /\ (principal_named (l_name o) = true ->
     forall m, parse_entries o = Ok m -> exists m', parse_entries o' = Ok m' /\ principal_step L m m').

Definition write_ok (c : Ctx) (b : bool) (w : write) : Prop :=
  match w with
  | Create o =>
      (exists ns name uid, o = build_gate ns name uid OPEN) \/ (exists ns hash, o = build_principal ns hash)
  | PatchJson name ops =>
      exists o, seen c o /\ l_name o = name /\ pinned ops o
        /\ forall o', apply_ops ops o = Some o' -> object_change c b o o'
  | Delete name uid rv =>
      exists o, seen c o /\ l_name o = name /\ l_uid o = Some uid /\ l_resource_version o = Some rv
        /\ (gate_named name = true -> forall v, gate_view o = Some v -> v_entries v = ∅ /\ v_rows v = ∅)
  end.

(** What the answer to a write says about the stored object. *)
Definition answer_ok (c : Ctx) (w : write) (r : result Lease kube_error) : Prop :=
  match w, r with
  | PatchJson name ops, Ok o' =>
      exists o o1, l_name o = name /\ (forall x, seen c x -> l_resource_version x = l_resource_version o -> x = o)
        /\ apply_ops ops o = Some o1 /\ (o' = o1 \/ exists rv, o' = stamped o1 (l_uid o) rv)
  | Create o, Ok o' => exists uid rv, o' = stamped o uid rv
  | _, _ => True
  end.

Fixpoint wlp {R} (c : Ctx) (p : prog R) (Q : Ctx -> R -> Prop) : Prop :=
  match p with
  | Ret r => Q c r
  | GetLease name k => forall r, (forall o, r = Ok o -> l_name o = name) -> wlp (saw_answer c r) (k r) Q
  | WriteLease w k =>
      exists b, write_ok c b w /\ forall r, answer_ok c w r -> wlp (saw_answer (retire c b) r) (k r) Q
  | ListLeases k => forall r, wlp (saw c (fun o => exists l, r = Ok l /\ o ∈ l)) (k r) Q
  | GetPod ns name k => forall r, wlp (learn c ns name r) (k r) Q
  | ListSandboxes _ k => forall r, wlp c (k r) Q
  | Arm g k => own c = Some (reg_operation_id g, gate_entry g) /\ wlp c k Q
  end.

(** ** Reasoning about programs *)

Lemma wlp_mono {R} (p : prog R) c (Q Q' : Ctx -> R -> Prop) :
  (forall c' r, Q c' r -> Q' c' r) -> wlp c p Q -> wlp c p Q'.
Proof.
  intros HQ. revert c. induction p; intros c; cbn; auto; try (intros Hw r; eauto; fail).
  - intros (b & Hb & Hk). eauto.
  - intros [? ?]. auto.
Qed.

Lemma wlp_bind {A B} (p : prog A) (f : A -> prog B) c Q :
  wlp c p (fun c' a => wlp c' (f a) Q) -> wlp c (bind p f) Q.
Proof.
  revert c. induction p; intros c; cbn; auto; try (intros Hw r; eauto; fail).
  - intros (b & Hb & Hk). eauto.
  - intros [? ?]. auto.
Qed.

(** What a program learns it keeps. *)
Record ctx_le (c c' : Ctx) : Prop := {
  le_seen o : seen c o -> seen c' o;
  le_dead r : dead c r -> dead c' r;
  le_self : self c' = self c;
  le_own : own c' = own c;
}.

#[local] Instance ctx_le_preorder : PreOrder ctx_le.
Proof.
  split; [by constructor|]. intros c1 c2 c3 [] []. constructor; try congruence; auto.
Qed.

Lemma ctx_le_saw c o : ctx_le c (saw c o).
Proof. constructor; cbn; auto. Qed.

Lemma ctx_le_learn c ns name r : ctx_le c (learn c ns name r).
Proof. constructor; cbn; auto. Qed.

Lemma ctx_le_retire c b : ctx_le c (retire c b).
Proof. constructor; cbn; auto. Qed.

#[local] Hint Resolve ctx_le_saw ctx_le_learn ctx_le_retire : kobe.

Lemma wlp_frame_from {R} (p : prog R) c0 c Q :
  ctx_le c0 c -> wlp c p Q -> wlp c p (fun c' r => Q c' r /\ ctx_le c0 c').
Proof.
  intros Hle. revert c Hle. induction p; intros c Hle; cbn; auto.
  - intros Hw r Hr. apply H; [|auto]. etrans; [done|]. apply ctx_le_saw.
  - intros (b & Hb & Hk). exists b. split; [done|]. intros r Hr. apply H; [|auto].
    etrans; [done|]. etrans; [apply ctx_le_retire|apply ctx_le_saw].
  - intros Hw r. apply H; [|auto]. etrans; [done|]. apply ctx_le_saw.
  - intros Hw r. apply H; [|auto]. etrans; [done|]. apply ctx_le_learn.
  - intros [? ?]. auto.
Qed.

Lemma wlp_frame {R} (p : prog R) c Q : wlp c p Q -> wlp c p (fun c' r => Q c' r /\ ctx_le c c').
Proof. by apply wlp_frame_from. Qed.

Lemma wlp_bind_frame {A B} (p : prog A) (f : A -> prog B) c P Q :
  wlp c p P -> (forall c' a, ctx_le c c' -> P c' a -> wlp c' (f a) Q) -> wlp c (bind p f) Q.
Proof.
  intros Hp Hf. apply wlp_bind. apply wlp_frame in Hp. eapply wlp_mono; [|exact Hp]. cbn.
  intros c' a [? ?]. auto.
Qed.

(** A CAS loop keeps an invariant of the context from one attempt to the next. *)
Lemma wlp_cas {A} (I : Ctx -> Prop) attempts (body : nat -> prog (option (result A AccessLedgerError))) c Q :
  I c -> (forall c', I c' -> Q c' (Err Contended)) ->
  (forall n c', I c' -> wlp c' (body n) (fun c'' r => match r with Some r => Q c'' r | None => I c'' end)) ->
  wlp c (cas attempts body) Q.
Proof.
  intros HI HC Hb. revert c HI. induction attempts as [|n IH]; intros c HI; cbn; [auto|].
  apply wlp_bind. eapply wlp_mono; [|by apply Hb]. cbn. intros c' [r|] H; cbn; auto.
Qed.

(** ** Names and shapes *)

Lemma gate_named_gate uid : gate_named (gate_name uid) = true /\ principal_named (gate_name uid) = false.
Proof. done. Qed.

Lemma principal_named_principal hash :
  principal_named (principal_name hash) = true /\ gate_named (principal_name hash) = false.
Proof. done. Qed.

Lemma validate_gate_Ok o ns name uid u :
  validate_gate o ns name uid = Ok u -> l_name o = gate_name uid.
Proof.
  unfold validate_gate. intros H. unbind H. apply deny_if_Ok in Hok. by bool_props.
Qed.

Lemma validate_principal_Ok o ns hash u :
  validate_principal o ns hash = Ok u -> l_name o = principal_name hash.
Proof.
  unfold validate_principal. intros H. unbind H. apply deny_if_Ok in Hok. by bool_props.
Qed.

(** A patch computed from a gate that changes its view by one step. *)
Lemma gate_patch_ok c b o uid ops (step : GateView -> GateView) :
  seen c o -> l_name o = gate_name uid -> pinned ops o ->
  (forall o' v, gate_view o = Some v -> apply_ops ops o = Some o' ->
     gate_view o' = Some (step v)
     /\ gate_step L (may_enter c) (fun op e => b = true /\ may_leave c op e) v (step v)) ->
  write_ok c b (PatchJson (l_name o) ops).
Proof.
  intros Hs Hn Hp Hv. exists o. split; [done|]. split; [done|]. split; [done|].
  intros o' Ho. destruct (gate_named_gate uid) as [Hg Hpn]. split; rewrite Hn; [|congruence].
  intros _ v Hview. eauto.
Qed.

Lemma principal_patch_ok c b o hash ops (step : gmap string PrincipalEntry -> gmap string PrincipalEntry) :
  seen c o -> l_name o = principal_name hash -> pinned ops o ->
  (forall o' m, parse_entries o = Ok m -> apply_ops ops o = Some o' ->
     parse_entries o' = Ok (step m) /\ principal_step L m (step m)) ->
  write_ok c b (PatchJson (l_name o) ops).
Proof.
  intros Hs Hn Hp Hv. exists o. split; [done|]. split; [done|]. split; [done|].
  intros o' Ho. destruct (principal_named_principal hash) as [Hpn Hg]. split; rewrite Hn; [congruence|].
  intros _ m Hm. eauto.
Qed.

(** A parsed object's entries are the ones in its view. *)
Lemma view_entries o v m : gate_view o = Some v -> parse_entries o = Ok m -> v_entries v = m.
Proof. intros (_ & H & _)%gate_view_Some. congruence. Qed.

Lemma view_rows o v m : gate_view o = Some v -> parse_execution_entries o = Ok m -> v_rows v = m.
Proof. intros (_ & _ & H)%gate_view_Some. congruence. Qed.

Lemma view_open_state o v :
  gate_view o = Some v -> v_open v = bool_decide (gate_state o = Some OPEN).
Proof.
  intros (H & _)%gate_view_Some. revert H. unfold state_open. repeat case_bool_decide; by intros [= <-].
Qed.

Lemma parse_entries_intro {T} `{Json (gmap string T)} o s (m : gmap string T) :
  l_annotations o !! ENTRIES_ANNOTATION = Some s -> json_value s = Ok m -> parse_entries o = Ok m.
Proof. unfold parse_entries. by intros ->. Qed.

Lemma parse_rows_intro o s m :
  l_annotations o !! EXECUTIONS_ANNOTATION = Some s -> decode s = Ok m -> parse_execution_entries o = Ok m.
Proof. unfold parse_execution_entries. by intros ->. Qed.

(** ** Entering *)

Lemma enter_plan_Ok {T} `{Json (gmap string T)} o op (e : T) limit ops :
  enter_plan o op e limit = Ok (Some ops) ->
  exists prev m, parse_entries o = Ok m /\ exceeds (Z.of_nat (size m) + 1) limit = false
    /\ access_patch o prev (<[op := e]> m) = Ok ops.
Proof.
  unfold enter_plan. intros H1. unbind H1. apply ok_or_Ok in Hok.
  case_match eqn:Ex; [done|]. case_match eqn:Ep; [injection H1 as <- | by destruct e0].
  do 2 eexists. split; [by eapply parse_entries_intro|]. done.
Qed.

Lemma enter_gate_ok c o uid op e ops :
  seen c o -> l_name o = gate_name uid -> gate_state o = Some OPEN -> own c = Some (op, e) ->
  enter_plan o op e (streams_per_lease L) = Ok (Some ops) ->
  write_ok c false (PatchJson (l_name o) ops).
Proof.
  intros Hs Hn Ho Hown (prev & m & Hm & Hx & Hp)%enter_plan_Ok.
  eapply gate_patch_ok with (step := fun v => view (v_open v) (<[op := e]> m) (v_rows v)); [done..| |].
  - by apply access_patch_spec in Hp as [? _].
  - intros o' v Hv Happ. split; [by eapply access_patch_view|].
    pose proof (view_entries _ _ _ Hv Hm) as Hes. pose proof (view_open_state _ _ Hv) as Hop.
    rewrite bool_decide_eq_true_2 in Hop by done. destruct v as [vo ve vr]; cbn in *; subst.
    by apply gs_enter.
Qed.

Lemma enter_principal_ok c o hash op (e : PrincipalEntry) ops :
  seen c o -> l_name o = principal_name hash ->
  enter_plan o op e (streams_per_principal L) = Ok (Some ops) ->
  write_ok c false (PatchJson (l_name o) ops).
Proof.
  intros Hs Hn (prev & m & Hm & Hx & Hp)%enter_plan_Ok.
  apply access_patch_spec in Hp as (Hpin & next & rw & rs & fut & Hnext & _ & Happ).
  eapply principal_patch_ok with (step := fun m => <[op := e]> m); [done..|].
  intros o' m' Hm' Ho'. assert (m' = m) as -> by congruence.
  destruct (Happ _ _ Ho') as (c1 & _ & ->). split; [|by apply ps_enter].
  apply parse_after_replace; [apply json_principal_text | done].
Qed.

(** A gate that contains the operation a registration owns. *)
Definition entered (g : ReleaseRegistration) (o : Lease) : Prop :=
  l_name o = reg_gate_name g /\ l_uid o = Some (reg_expected_gate_uid g) /\ reg_gate_uid g = l_uid o
  /\ gate_named (l_name o) = true
  /\ exists m, parse_entries o = Ok m /\ m !! reg_operation_id g = Some (gate_entry g).

(** The same registration, whatever it has armed. *)
Definition reg_like (g g' : ReleaseRegistration) : Prop :=
  exists gu pu, g' = with_principal_uid (with_gate_uid g gu) pu.

Lemma reg_like_refl g : reg_like g g.
Proof. exists (reg_gate_uid g), (reg_principal_uid g). by destruct g. Qed.

Lemma reg_like_gate g uid : reg_like g (with_gate_uid g uid).
Proof. exists uid, (reg_principal_uid g). by destruct g. Qed.

Lemma reg_like_principal g uid : reg_like g (with_principal_uid g uid).
Proof. exists (reg_gate_uid g), uid. by destruct g. Qed.

Lemma reg_like_trans g g' g'' : reg_like g g' -> reg_like g' g'' -> reg_like g g''.
Proof. intros (? & ? & ->) (gu & pu & ->). exists gu, pu. done. Qed.

#[local] Hint Resolve reg_like_refl reg_like_gate reg_like_principal : kobe.

(** The object a committed entry patch left. *)
Lemma entered_answer c o ops g uid o' :
  l_name o = gate_name uid -> l_name o = reg_gate_name g -> l_uid o = Some (reg_expected_gate_uid g) ->
  reg_gate_uid g = Some (reg_expected_gate_uid g) ->
  enter_plan o (reg_operation_id g) (gate_entry g) (streams_per_lease L) = Ok (Some ops) ->
  answer_ok c (PatchJson (l_name o) ops) (Ok o') -> entered g o'.
Proof.
  intros Hn Hg Hu Hgu (prev & m & Hm & Hx & Hp)%enter_plan_Ok Ha.
  destruct Ha as (o0 & o1 & Hn0 & _ & Happ & Ho').
  apply access_patch_spec in Hp as (Hpin & next & rw & rs & fut & Hnext & _ & Hspec).
  pose proof (pinned_lands _ _ _ _ Hpin Happ) as [Hu0 _].
  pose proof (apply_ops_same _ _ _ Happ) as [(Hsn & Hsu & _) _].
  destruct (Hspec _ _ Happ) as (c1 & _ & Ho1).
  assert (parse_entries o1 = Ok (<[reg_operation_id g := gate_entry g]> m)) as Hp1.
  { rewrite Ho1. apply parse_after_replace; [apply json_gate_text | done]. }
  assert (l_name o' = l_name o1 /\ l_uid o' = l_uid o1 /\ parse_entries o' = parse_entries (T := GateEntry) o1) as (E1 & E2 & E3).
  { destruct Ho' as [->|[rv ->]]; [done|]. cbn. split; [done|]. split; [congruence|done]. }
  unfold entered. rewrite E1, E2, E3, Hsn, Hsu, Hn0, Hu0, Hn. destruct (gate_named_gate uid) as [-> _].
  split; [congruence|]. split; [done|]. split; [congruence|]. split; [done|].
  eexists. split; [done|]. by rewrite lookup_insert_eq.
Qed.

(** An attempt that ends without an entry. *)
Ltac not_entered := cbn; rewrite ?orb_false_r; split; [done|]; split; [auto with kobe | by intros].

Lemma wlp_add_gate_entry n ns g c :
  own c = Some (reg_operation_id g, gate_entry g) ->
  wlp c (add_gate_entry n ns L g) (fun c' out =>
    retiring c' = retiring c /\ reg_like g out.1
    /\ forall gate, out.2 = Ok (Some gate) -> seen c' gate /\ entered out.1 gate).
Proof.
  revert g c. induction n as [|n IH]; intros g c Hown; cbn [add_gate_entry wlp].
  { not_entered. }
  intros r Hr. destruct r as [gate|e]; cbn [kube_result]; [|not_entered].
  destruct (validate_gate gate ns _ _) as [u|] eqn:Ev; [|not_entered].
  destruct (lease_uid gate) as [uid|] eqn:Eu; [|not_entered].
  destruct (deny_if _ _) as [u'|] eqn:Ed; [|not_entered]. cbn [wlp].
  apply validate_gate_Ok in Ev. apply deny_if_Ok in Ed. bool_props. subst uid.
  apply lease_uid_Ok in Eu. split; [done|].
  case_bool_decide as Eo; cbn [negb]; [|not_entered].
  destruct (enter_plan _ _ _ _) as [[ops|]|] eqn:Ep; [|not_entered..]. cbn [wlp].
  exists false. split; [by eapply enter_gate_ok; [right|..]|].
  intros r Ha. destruct r as [updated|e].
  - cbn. split; [apply orb_false_r|]. split; [auto with kobe|]. intros g' [= <-].
    split; [by right|]. eapply entered_answer; [done| |done|done|done|done]. by rewrite (Hr _ eq_refl).
  - case_match; [|not_entered].
    eapply wlp_mono; [|apply IH; done]. cbn. intros c' out (H1 & H2 & H3).
    rewrite orb_false_r in H1. split; [done|]. split; [|done]. eapply reg_like_trans; [|done]. auto with kobe.
Qed.

(** ** Reading and creating *)

Lemma wlp_get name c (Q : Ctx -> result Lease kube_error -> Prop) :
  (forall r, (forall o, r = Ok o -> l_name o = name) -> Q (saw_answer c r) r) -> wlp c (get name) Q.
Proof. done. Qed.

Lemma wlp_get_or_create_principal ns g c :
  wlp c (get_or_create_principal ns g) (fun c' r =>
    retiring c' = retiring c /\ forall o, r = Ok o -> seen c' o).
Proof.
  unfold get_or_create_principal. apply wlp_bind, wlp_get. intros r Hr. cbn beta.
  destruct r as [o|e]; [cbn; split; [done|]; intros ? [= <-]; by right|].
  case_match; [|cbn; done]. cbn [wlp]. exists false. split; [right; eauto|].
  intros r _. destruct r as [o|e']; cbn [wlp].
  - split; [apply orb_false_r|]. intros ? [= <-]. by right.
  - case_match; [|cbn; split; [apply orb_false_r|done]]. cbn. intros r _.
    split; [apply orb_false_r|]. intros o. destruct r; cbn; intros [= <-]. by right.
Qed.

Lemma wlp_add_principal_entry n ns gate g c :
  own c = Some (reg_operation_id g, gate_entry g) ->
  wlp c (add_principal_entry n ns L gate g) (fun c' out =>
    retiring c' = retiring c /\ exists pu, out.1 = with_principal_uid g pu).
Proof.
  revert g c. induction n as [|n IH]; intros g c Hown; cbn [add_principal_entry].
  { cbn. split; [done|]. exists (reg_principal_uid g). by destruct g. }
  eapply wlp_bind_frame; [apply wlp_get_or_create_principal|]. cbn beta.
  intros c1 found Hle (Hret & Hseen).
  assert (Hsame : exists pu, g = with_principal_uid g pu) by (exists (reg_principal_uid g); by destruct g).
  destruct found as [ledger|e]; [|cbn; eauto].
  destruct (validate_principal ledger ns _) as [u|] eqn:Ev; [|cbn; eauto].
  destruct (lease_uid ledger) as [uid|] eqn:Eu; [|cbn; eauto]. cbn [wlp].
  apply validate_principal_Ok in Ev. rewrite (le_own _ _ Hle). split; [done|].
  destruct (enter_plan _ _ _ _) as [[ops|]|] eqn:Ep; [|cbn; eauto..]. cbn [wlp].
  exists false. split; [eapply enter_principal_ok; eauto|].
  intros r _. destruct r as [updated|e]; [cbn; rewrite orb_false_r; eauto|].
  case_match; [|cbn; rewrite orb_false_r; eauto].
  eapply wlp_mono; [|apply IH; cbn; by rewrite (le_own _ _ Hle)]. cbn. rewrite orb_false_r.
  intros c' out [-> [pu ->]]. split; [done|]. by exists pu.
Qed.

(** ** Leaving *)

Lemma wlp_commit {A} name ops (a : A) c Q :
  (exists b, write_ok c b (PatchJson name ops)
     /\ forall r, Q (saw_answer (retire c b) r)
          (match r with Ok _ => Some (Ok a)
           | Err e => if optimistic_conflict e then None else Some (Err (Kubernetes e)) end)) ->
  wlp c (commit name ops a) Q.
Proof. intros (b & Hw & Hk). exists b. split; [done|]. intros r _. apply Hk. Qed.

Lemma wlp_remove_gate_entry ns name expected_uid sandbox_name uid op e c :
  may_leave c op e ->
  wlp c (remove_gate_entry ns name expected_uid sandbox_name uid op e) (fun _ _ => True).
Proof.
  intros Hm. unfold remove_gate_entry.
  apply wlp_cas with (I := fun c' => may_leave c' op e); [done..|]. clear c Hm. intros _ c Hm.
  unfold remove_entry_attempt. apply wlp_bind, wlp_get. intros r Hr. cbn beta.
  destruct r as [o|err]; [|by cbn].
  destruct (lease_uid o) as [u|] eqn:Eu; [|by cbn]. case_match; [by cbn|].
  destruct (validate_gate o ns _ _) as [x|] eqn:Ev; [|by cbn].
  destruct (ok_or (l_annotations o !! ENTRIES_ANNOTATION) _) as [prev|] eqn:Eprev; [|by cbn].
  destruct (json_value prev) as [m|] eqn:Em; [|by cbn].
  destruct (m !! op) as [entry|] eqn:Ee; [|by cbn].
  destruct (deny_if _ _) as [y|] eqn:Ed; [|by cbn].
  destruct (entries_patch o prev (delete op m)) as [ops|] eqn:Ep; [|by cbn].
  apply deny_if_Ok in Ed. bool_props. subst entry. apply ok_or_Ok in Eprev.
  pose proof (parse_entries_intro _ _ _ Eprev Em) as Hm'.
  apply wlp_commit. exists true. split; [|by intros [|]; cbn; [|case_match; cbn]].
  eapply gate_patch_ok with (step := fun v => view (v_open v) (delete op m) (v_rows v));
    [by right|by eapply validate_gate_Ok|by apply entries_patch_spec in Ep as [? _]|].
  intros o' v Hv Ho'. split; [by eapply entries_patch_view|].
  pose proof (view_entries _ _ _ Hv Hm') as Hes. destruct v as [vo ve vr]; cbn in *; subst.
  by eapply gs_leave.
Qed.

Lemma wlp_remove_principal_entry ns name expected_uid hash op e c :
  wlp c (remove_principal_entry ns name expected_uid hash op e) (fun c' _ => retiring c' = retiring c).
Proof.
  unfold remove_principal_entry.
  apply wlp_cas with (I := fun c' => retiring c' = retiring c); [done..|]. intros _ c1 Hc1.
  unfold remove_entry_attempt. apply wlp_bind, wlp_get. intros r Hr. cbn beta.
  destruct r as [o|err]; [|by cbn].
  destruct (lease_uid o) as [u|] eqn:Eu; [|by cbn]. case_match; [by cbn|].
  destruct (validate_principal o ns _) as [x|] eqn:Ev; [|by cbn].
  destruct (ok_or (l_annotations o !! ENTRIES_ANNOTATION) _) as [prev|] eqn:Eprev; [|by cbn].
  destruct (json_value prev) as [m|] eqn:Em; [|by cbn].
  destruct (m !! op) as [entry|] eqn:Ee; [|by cbn].
  destruct (deny_if _ _) as [y|] eqn:Ed; [|by cbn].
  destruct (entries_patch o prev (delete op m)) as [ops|] eqn:Ep; [|by cbn].
  apply ok_or_Ok in Eprev. pose proof (parse_entries_intro _ _ _ Eprev Em) as Hm'.
  apply entries_patch_spec in Ep as (Hpin & next & Hnext & Happ).
  apply wlp_commit. exists false. split.
  - eapply principal_patch_ok with (step := fun m => delete op m); [by right|by eapply validate_principal_Ok|done|].
    intros o' m' Hm'' Ho'. assert (m' = m) as -> by congruence. rewrite (Happ _ _ Ho').
    split; [apply parse_after_replace; [apply json_principal_text|done] | apply ps_leave].
  - intros [|]; cbn; [|case_match; cbn]; by rewrite orb_false_r.
Qed.

Lemma may_leave_le c c' op e : ctx_le c c' -> may_leave c op e -> may_leave c' op e.
Proof.
  unfold may_leave. intros [] [[e' ?]|[?|[me ?]]].
  - left. exists e'. congruence.
  - right; left. auto.
  - right; right. exists me. intuition congruence.
Qed.

#[local] Hint Resolve may_leave_le : kobe.

(** ** The handlers *)

Lemma wlp_acquire ns lease hash op replica c :
  own c = Some (op, {| ge_principal_hash := hash; ge_replica := replica |}) ->
  wlp c (acquire_with_limits ns lease hash op replica L) (fun c' r => forall g, r = Ok (Acquired g) ->
    retiring c' = retiring c /\ own c = Some (reg_operation_id g, gate_entry g)
    /\ reg_replica g = replica /\ exists o, seen c' o /\ entered g o).
Proof.
  intros Hown. unfold acquire_with_limits.
  destruct (replica_validate replica); [|by cbn]. destruct (sandbox_uid lease) as [uid|]; [|by cbn].
  destruct (persisted_gate_reference lease) as [expected|]; [|by cbn].
  set (g0 := new_registration lease uid expected hash op replica).
  eapply wlp_bind_frame; [by apply (wlp_add_gate_entry _ _ g0)|]. cbn beta.
  intros c1 [g r] Hle1 (Hr1 & (gu & pu & Hg) & Hent). cbn [fst snd] in *.
  destruct r as [[gate|]|]; [|cbn; intros [gate|]; cbn; [case_bool_decide|]; done|by cbn].
  destruct (Hent _ eq_refl) as [Hseen He].
  eapply wlp_bind_frame; [apply (wlp_add_principal_entry _ _ _ g); by rewrite (le_own _ _ Hle1), Hg|].
  cbn beta. intros c2 [g' r] Hle2 (Hr2 & pu' & Hg'). cbn [fst snd] in *.
  destruct r as [[ledger|]|]; [| |by cbn].
  - cbn. intros g'' [= <-]. split; [congruence|]. split; [by rewrite Hg', Hg|]. split; [by rewrite Hg', Hg|].
    exists gate. split; [by apply (le_seen _ _ Hle2)|]. by rewrite Hg'.
  - destruct (lease_uid gate) as [gate_uid|]; [|by cbn].
    eapply wlp_bind_frame; [apply wlp_remove_gate_entry|].
    + left. eexists. by rewrite (le_own _ _ Hle2), (le_own _ _ Hle1).
    + cbn beta. intros c3 [?|?] Hle3 _; [|by cbn]. cbn. split; [|by intros].
      rewrite (le_own _ _ Hle3), (le_own _ _ Hle2), (le_own _ _ Hle1), Hg', Hg. done.
Qed.

Lemma wlp_release_exact ns g c :
  (exists e, own c = Some (reg_operation_id g, e)) -> wlp c (release_exact ns g) (fun _ _ => True).
Proof.
  intros [e Hown]. unfold release_exact.
  eapply wlp_bind_frame with (P := fun _ _ => True).
  - case_match; [|done]. eapply wlp_mono; [|apply wlp_remove_principal_entry]. done.
  - intros c' [?|?] Hle _; [|by cbn]. case_match; [|by cbn]. apply wlp_remove_gate_entry.
    left. exists e. by rewrite (le_own _ _ Hle).
Qed.

(** Row operations: each plan is a step of the rows. *)
Definition plan_ok {A} (early : Lease -> result (option A) AccessLedgerError)
    (plan : nat -> Lease -> gmap string ExecutionEntry -> result (row_plan A) AccessLedgerError) : Prop :=
  forall n o v rows a, gate_view o = Some v -> early o = Ok None ->
    plan n o (v_rows v) = Ok (Commit rows a) ->
    gate_step L (fun _ _ => False) (fun _ _ => False) v (view (v_open v) (v_entries v) rows).

Lemma wlp_exact_gate ns lease c :
  wlp c (exact_gate_for_lease ns lease) (fun c' r => forall o, r = Ok o ->
    seen c' o /\ (exists uid, l_name o = gate_name uid)
    /\ exists ref, persisted_gate_reference lease = Ok ref /\ l_uid o = Some (gate_ref_uid ref)).
Proof.
  unfold exact_gate_for_lease. destruct (sandbox_uid lease) as [uid|] eqn:Eu; [|by cbn].
  destruct (persisted_gate_reference lease) as [expected|]; [|by cbn].
  apply wlp_bind. cbn. intros r Hr. destruct r as [gate|]; [|by cbn]. cbn.
  unfold admitted_gate. rewrite Eu. destruct (validate_gate gate ns _ _) eqn:Ev; [|done].
  destruct (lease_uid gate) as [u|] eqn:El; [|done]. destruct (deny_if _ _) eqn:Ed; [|done].
  intros o [= <-]. split; [by right|]. split; [eexists; by eapply validate_gate_Ok|].
  apply deny_if_Ok in Ed. bool_props. subst u. apply lease_uid_Ok in El. eauto.
Qed.

(** The gate after its rows were committed. *)
Definition committed (o o' : Lease) (rows : gmap string ExecutionEntry) : Prop :=
  l_name o' = l_name o /\ l_uid o' = l_uid o /\ gate_state o' = gate_state o
  /\ parse_execution_entries o' = Ok rows.

Lemma committed_answer c o o' prev rows ops :
  seen c o -> execution_patch o prev rows = Ok ops -> answer_ok c (PatchJson (l_name o) ops) (Ok o') ->
  committed o o' rows.
Proof.
  intros Hs (Hpin & next & Hn & Happ)%execution_patch_spec (o0 & o1 & Hn0 & Huniq & Ho1 & Ho').
  destruct (pinned_lands _ _ _ _ Hpin Ho1) as [_ Hrv]. assert (o = o0) as <- by (apply Huniq; [done|congruence]).
  assert (committed o o1 rows) as (H1 & H2 & H3 & H4).
  { rewrite (Happ _ _ Ho1). split; [done|]. split; [done|]. split; [unfold gate_state; cbn; by rewrite lookup_insert_ne|].
    unfold parse_execution_entries. cbn. rewrite lookup_insert_eq. cbn. by apply decode_encode. }
  destruct Ho' as [->|[rv ->]]; done.
Qed.

Lemma wlp_execution_cas {A} ns lease (early : Lease -> result (option A) AccessLedgerError) plan full c Q :
  plan_ok early plan ->
  (forall c' r, Q c' (Err r)) ->
  (forall c' n o a, seen c' o -> (exists ref, persisted_gate_reference lease = Ok ref /\ l_uid o = Some (gate_ref_uid ref)) ->
     (exists uid, l_name o = gate_name uid) ->
     (early o = Ok (Some a) \/ (early o = Ok None /\ exists rows, parse_execution_entries o = Ok rows
        /\ (plan n o rows = Ok (Answer a)
            \/ (full = Some a /\ exists rows' a', plan n o rows = Ok (Commit rows' a'))
            \/ exists rows' o', plan n o rows = Ok (Commit rows' a) /\ seen c' o' /\ committed o o' rows'))) ->
     Q c' (Ok a)) ->
  wlp c (execution_cas ns lease early plan full) Q.
Proof.
  intros Hplan Herr Hok. unfold execution_cas. apply wlp_cas with (I := fun _ => True); [done|auto|].
  intros n c1 _. eapply wlp_bind_frame; [apply wlp_exact_gate|]. cbn beta. intros c2 r Hle Hgate.
  destruct r as [o|]; [|cbn; auto]. destruct (Hgate _ eq_refl) as (Hseen & [uid Hname] & Href). clear Hgate.
  destruct (early o) as [[a|]|] eqn:Ee; [cbn; eapply (Hok _ n); eauto| |cbn; auto].
  destruct (ok_or _ _) as [prev|] eqn:Eprev; [|cbn; auto]. apply ok_or_Ok in Eprev.
  destruct (decode prev) as [rows|] eqn:Er; [|cbn; auto].
  pose proof (parse_rows_intro _ _ _ Eprev Er) as Hrows.
  destruct (plan n o rows) as [[a|rows' a]|] eqn:Ep; [cbn; eapply (Hok _ n); eauto 10| |cbn; auto].
  destruct (execution_patch o prev rows') as [ops|err] eqn:Eo.
  - exists false. split.
    + eapply gate_patch_ok with (step := fun v => view (v_open v) (v_entries v) rows');
        [done|done|by apply execution_patch_spec in Eo as [? _]|].
      intros o' v Hv Ho'. split; [by eapply execution_patch_view|].
      rewrite <- (view_rows _ _ _ Hv Hrows) in Ep. eapply gate_step_mono; [..|by eapply Hplan]; done.
    + intros r Hr. destruct r as [o'|e]; cbn; [|destruct (optimistic_conflict e); cbn; auto].
      eapply (Hok _ n); [by left; apply Hseen|done|eauto|]. right. split; [done|]. exists rows. split; [done|].
      right; right. exists rows', o'. split; [done|]. split; [by right|]. by eapply committed_answer.
  - destruct err; try (cbn; auto; fail). destruct full as [a'|]; [|cbn; auto]. cbn. eapply (Hok _ n); eauto 10.
Qed.

(** ** Row operations *)

Lemma resolve_same (e : ExecutionEntry) : resolve_row e (ee_execution_uid e) (ee_creation_state e) (ee_active e) = e.
Proof. by destruct e. Qed.

Lemma row_plan_step open entries rows rows' :
  row_step (executions_per_lease L) open rows rows' ->
  gate_step L (fun _ _ => False) (fun _ _ => False) (view open entries rows) (view open entries rows').
Proof. apply gs_rows. Qed.

(** The view of a gate an [early] check let through. *)
Lemma when_open_None {A} (closed : A) o v : gate_view o = Some v -> when_open closed o = Ok None -> v_open v = true.
Proof.
  intros Hv. unfold when_open. rewrite (view_open_state _ _ Hv). case_bool_decide; done.
Qed.

Lemma when_closed_None {A} what o v : gate_view o = Some v -> when_closed (A := A) what o = Ok None -> v_open v = false.
Proof.
  intros Hv. unfold when_closed. intros H. unbind H. apply deny_if_Ok in Hok. bool_props.
  rewrite (view_open_state _ _ Hv). rewrite Hok. done.
Qed.

Ltac plan_start :=
  intros n o [vo ve vr] rows a Hv He Hp; cbn [v_open v_entries v_rows] in *; apply row_plan_step.

Lemma reserve_plan_ok now name digest pod writer :
  plan_ok (when_open CapacityLeaseClosed) (reserve_plan now name digest pod writer (executions_per_lease L)).
Proof.
  plan_start. apply (when_open_None _ _ _ Hv) in He. cbn in He. subst vo.
  revert Hp. unfold reserve_plan, reserve_execution_entry.
  destruct (vr !! name) as [e|] eqn:En; [destruct (_ || _), (ee_active e); by vm_compute|].
  destruct (exceeds _ _) eqn:Ex; [done|]. rewrite bool_decide_eq_true_2 by done. cbn [negb]. intros Hp. unbind Hp.
  match type of Hp with Ok (if ?b then _ else _) = _ => destruct b; [|done] end.
  injection Hp as <- <-. by apply rs_reserve.
Qed.

Lemma bind_plan_ok execution uid : plan_ok (when_open false) (bind_plan execution uid).
Proof.
  plan_start. apply (when_open_None _ _ _ Hv) in He. cbn in He. subst vo.
  revert Hp. unfold bind_plan, row_of. destruct (vr !! se_name execution) as [e|] eqn:En; [|done]. cbn.
  intros Hp. unbind Hp. apply deny_if_Ok in Hok. bool_props.
  destruct (ee_execution_uid e) eqn:Eu; [by case_match|]. case_bool_decide; [|done].
  injection Hp as <- <-.
  match goal with H : ee_active e = true |- _ => rewrite H end. by apply rs_bind.
Qed.

Lemma complete_plan_ok execution uid : plan_ok no_early (complete_plan execution uid).
Proof.
  plan_start. revert Hp. unfold complete_plan, row_of. destruct (vr !! se_name execution) as [e|] eqn:En; [|done]. cbn.
  intros Hp. unbind Hp. apply deny_if_Ok in Hok. bool_props.
  destruct (ee_active e) eqn:Ea; [|done]. injection Hp as <- <-.
  match goal with H : ee_execution_uid e = Some uid |- _ => rewrite H end. by apply rs_complete.
Qed.

Lemma expire_unbound_plan_ok name digest pod observed : plan_ok no_early (expire_unbound_plan name digest pod observed).
Proof.
  plan_start. revert Hp. unfold expire_unbound_plan, row_of. destruct (vr !! name) as [e|] eqn:En; [|done]. cbn.
  intros Hp. unbind Hp. case_match eqn:Eu; [done|]. destruct observed as [uid|]; [|done].
  case_match; [done|]. case_bool_decide; [|done]. injection Hp as <- <-. apply is_some_false in Eu.
  by apply rs_adopt.
Qed.

Lemma expire_orphaned_plan_ok expected current : plan_ok no_early (expire_orphaned_plan expected current).
Proof.
  plan_start. revert Hp. unfold expire_orphaned_plan, row_of.
  destruct (vr !! me_name expected) as [e|] eqn:En; [|done]. cbn.
  intros Hp. unbind Hp. apply deny_if_Ok in Hok. bool_props. case_match; [done|]. injection Hp as <- <-.
  match goal with H : ee_execution_uid e = None |- _ => rewrite H end. by apply rs_reject.
Qed.

Lemma reject_plan_ok name digest pod : plan_ok no_early (reject_plan name digest pod).
Proof.
  plan_start. revert Hp. unfold reject_plan, row_of. destruct (vr !! name) as [e|] eqn:En; [|done]. cbn.
  intros Hp. unbind Hp. destruct (ee_execution_uid e) as [u|] eqn:Eu; [done|].
  unfold effective_creation_state in Hp. rewrite Eu in Hp. cbn in Hp.
  destruct (ee_creation_state e) eqn:Es; [|done..]. injection Hp as <- <-. by apply rs_reject.
Qed.

Lemma retire_plan_ok expected what :
  (me_active expected || bool_decide (me_creation_state expected = Creating)) = false ->
  plan_ok (when_closed what) (retire_plan expected).
Proof.
  intros Hx. plan_start. apply (when_closed_None _ _ _ Hv) in He. cbn in He. subst vo.
  revert Hp. unfold retire_plan. destruct (vr !! me_name expected) as [e|] eqn:En; [|done].
  intros Hp. unbind Hp. injection Hp as <- <-. apply deny_if_Ok in Hok. bool_props.
  eapply rs_retire; [done..|]. unfold unresolved. apply orb_false_iff. split; [done|].
  apply bool_decide_eq_false. congruence.
Qed.

Lemma clear_plan_ok : plan_ok clear_early clear_plan.
Proof.
  intros n o [vo ve vr] rows a Hv He Hp. cbn [v_open v_entries v_rows] in *.
  revert He. unfold clear_early. case_bool_decide as Es; cbn [negb]; [|done].
  destruct (parse_entries o) as [m|] eqn:Em; [|done]. case_bool_decide as Ee; [|done]. intros _. subst m.
  pose proof (view_entries _ _ _ Hv Em) as Hve. pose proof (view_open_state _ _ Hv) as Hvo. cbn in *.
  rewrite Es in Hvo. rewrite bool_decide_eq_false_2 in Hvo by done. subst.
  revert Hp. unfold clear_plan. case_bool_decide; [done|]. intros Hp. unbind Hp. injection Hp as <- <-.
  apply deny_if_Ok in Hok. apply gs_clear. intros name e Hn. apply elem_of_btree_iter in Hn.
  destruct (unresolved e) eqn:Eu; [|done]. exfalso. apply not_true_iff_false in Hok. apply Hok.
  apply existsb_exists. exists (name, e). split; [by apply list_elem_of_In|done].
Qed.

Lemma wlp_execution_any {A} ns lease (early : Lease -> result (option A) AccessLedgerError) plan full c :
  plan_ok early plan -> wlp c (execution_cas ns lease early plan full) (fun _ _ => True).
Proof. intros. by apply wlp_execution_cas. Qed.

(** ** Closing, draining, recovering, reaping *)

Lemma known_le c c' r : ctx_le c c' -> known c r -> known c' r.
Proof. intros [] (o & v & op & e & H & ?). exists o, v, op, e. auto. Qed.

Lemma wlp_replica_is_live r c :
  wlp c (replica_is_live r) (fun c' live => live = Ok false -> known c r -> dead c' r).
Proof.
  unfold replica_is_live. destruct (replica_validate r); [|by cbn]. cbn. intros answer Hlive Hknown.
  right. split; [done|]. split; [done|]. split; [done|]. unfold refuted. destruct answer as [pod|err].
  - unbind Hlive. destruct (pod_meta_uid pod) as [uid|]; [|done].
    destruct (String.eqb uid ""); [done|]. injection Hlive as Hne. apply String.eqb_neq in Hne. congruence.
  - by destruct (is_404 err).
Qed.

Lemma wlp_retire_operation ns gate_object gate_uid sandbox_name uid op e c :
  may_leave c op e ->
  wlp c (retire_operation ns gate_object gate_uid sandbox_name uid op e) (fun _ _ => True).
Proof.
  intros Hm. unfold retire_operation. eapply wlp_bind_frame with (P := fun _ _ => True); [done|].
  intros c1 found Hle1 _. eapply wlp_bind_frame with (P := fun _ _ => True).
  - destruct found as [principal|err]; [|by case_match]. destruct (lease_uid principal); [|done].
    eapply wlp_mono; [|apply wlp_remove_principal_entry]. done.
  - intros c2 [?|?] Hle2 _; [|done]. apply wlp_remove_gate_entry. eauto with kobe.
Qed.

(** The operations listed from a gate the program has seen. *)
Definition listed (c : Ctx) (entries : list (string * GateEntry)) : Prop :=
  forall op e, (op, e) ∈ entries -> known c (ge_replica e).

Lemma listed_tail c x entries : listed c (x :: entries) -> listed c entries.
Proof. intros H op e Hin. eapply H. by right. Qed.

Lemma listed_le c c' entries : ctx_le c c' -> listed c entries -> listed c' entries.
Proof. intros Hle H op e Hin. eapply known_le; [done|]. by eapply H. Qed.

#[local] Hint Resolve listed_tail listed_le known_le : kobe.

Lemma validate_gate_view o ns name uid u m :
  validate_gate o ns name uid = Ok u -> parse_entries o = Ok m -> exists v, gate_view o = Some v /\ v_entries v = m.
Proof.
  intros Hv Hm. unfold validate_gate in Hv. unbind Hv.
  destruct (parse_execution_entries o) as [rows|] eqn:Er; [|by case_match].
  assert (exists b, state_open o = Some b) as [b Hb].
  { unfold state_open. repeat case_bool_decide; cbn in Hv; eauto; done. }
  exists (view b m rows). split; [|done]. by apply gate_view_Some.
Qed.

Lemma listed_btree c o ns name uid u m :
  seen c o -> validate_gate o ns name uid = Ok u -> parse_entries o = Ok m -> listed c (btree_iter m).
Proof.
  intros Hs Hv Hm op e Hin. apply elem_of_btree_iter in Hin.
  destruct (validate_gate_view _ _ _ _ _ _ Hv Hm) as (v & Hview & <-).
  exists o, v, op, e. apply validate_gate_Ok in Hv. rewrite Hv. destruct (gate_named_gate uid). done.
Qed.

Lemma wlp_drain_entries ns gate_object gate_uid sandbox_name uid entries c :
  listed c entries ->
  wlp c (drain_entries ns gate_object gate_uid sandbox_name uid entries) (fun _ r => r <> Ok Drained).
Proof.
  revert c. induction entries as [|[op e] entries IH]; intros c Hl; [by cbn|]. cbn [drain_entries].
  eapply wlp_bind_frame; [apply wlp_replica_is_live|]. cbn beta. intros c1 [[|]|] Hle Hlive; [| |by cbn].
  - apply IH. eauto with kobe.
  - eapply wlp_bind_frame with (P := fun _ _ => True).
    + apply wlp_retire_operation. right; left. apply Hlive; [done|]. eapply Hl. by left.
    + intros c2 [?|?] Hle2 _; [|by cbn]. apply IH. eauto with kobe.
Qed.

Lemma wlp_close_gate o uid c :
  seen c o -> l_name o = gate_name uid -> wlp c (close_gate o) (fun _ _ => True).
Proof.
  intros Hs Hn. unfold close_gate. destruct (gate_state o); [|by cbn]. repeat case_match; try by cbn.
  exists false. split; [|done].
  eapply gate_patch_ok with (step := fun v => view false (v_entries v) (v_rows v));
    [done|done|by apply close_patch_pinned|].
  intros o' v Hv Ho'. destruct (close_patch_view _ _ _ _ Hv H1 Ho') as [Hopen Hv']. split; [done|].
  destruct v; cbn in *; subst. apply gs_close.
Qed.

(** [Drained] is only answered from a closed gate without operations, the one
    recorded at admission. *)
Lemma wlp_close_and_drain ns lease c :
  wlp c (close_and_drain ns lease) (fun c' r => r = Ok Drained ->
    exists o ref, seen c' o /\ gate_named (l_name o) = true /\ persisted_gate_reference lease = Ok ref
      /\ l_uid o = Some (gate_ref_uid ref) /\ exists rows, gate_view o = Some (view false ∅ rows)).
Proof.
  unfold close_and_drain. destruct (sandbox_uid lease) as [uid|] eqn:Euid; [|by cbn].
  destruct (persisted_gate_reference lease) as [expected|] eqn:Eref; [|by cbn].
  apply wlp_bind, wlp_get. intros found Hfound. cbn beta. destruct found as [o|err]; [|cbn; by case_match].
  unfold admitted_gate. rewrite Euid. destruct (validate_gate o ns _ _) as [u|] eqn:Ev; [|by cbn].
  destruct (lease_uid o) as [gate_uid|] eqn:El; [|by cbn]. destruct (deny_if _ _) eqn:Ed; [|by cbn].
  apply deny_if_Ok in Ed. bool_props. subst gate_uid. apply lease_uid_Ok in El.
  case_bool_decide as Eo.
  - eapply wlp_bind_frame; [eapply wlp_close_gate; [by right|by eapply validate_gate_Ok]|].
    intros c' [?|[]] _ _; cbn; try done. by case_match.
  - destruct (parse_entries o) as [m|] eqn:Em; [|by cbn]. case_bool_decide as Ee.
    + cbn. intros _. subst m. destruct (validate_gate_view _ _ _ _ _ _ Ev Em) as ([vo ve vr] & Hview & Hve).
      cbn in Hve. subst ve. exists o, expected. split; [by right|]. apply validate_gate_Ok in Ev.
      rewrite Ev. destruct (gate_named_gate uid) as [? _]. repeat (split; [done|]). exists vr.
      pose proof (view_open_state _ _ Hview) as Hvo. cbn in Hvo. rewrite bool_decide_eq_false_2 in Hvo by done.
      by subst vo.
    + eapply wlp_mono; [|eapply wlp_drain_entries, listed_btree; [by right|done|done]]. by cbn.
Qed.

(** A program that acts for a running replica. *)
Lemma wlp_recover_entries ns gate_object gate_uid sandbox_name uid me entries c :
  self c = Some me -> wlp c (recover_entries ns gate_object gate_uid sandbox_name uid me entries) (fun _ _ => True).
Proof.
  revert c. induction entries as [|[op e] entries IH]; intros c Hme; [by cbn|]. cbn [recover_entries].
  destruct (stale_for_current_replica _ _) eqn:Es; cbn [negb]; [|by apply IH].
  eapply wlp_bind_frame with (P := fun _ _ => True); [apply wlp_retire_operation; right; right; eauto|].
  intros c' [?|?] Hle _; [|by cbn]. apply IH. by rewrite (le_self _ _ Hle).
Qed.

Lemma wlp_recover_gates ns me gates c :
  self c = Some me -> wlp c (recover_gates ns me gates) (fun _ _ => True).
Proof.
  revert c. induction gates as [|gate gates IH]; intros c Hme; [by cbn|]. cbn [recover_gates].
  destruct (labelled_gate gate ns) as [[sandbox_name uid]|]; [|by cbn].
  destruct (lease_uid gate); [|by cbn]. destruct (parse_entries gate); [|by cbn].
  eapply wlp_bind_frame with (P := fun _ _ => True); [by apply wlp_recover_entries|].
  intros c' [?|?] Hle _; [|by cbn]. apply IH. by rewrite (le_self _ _ Hle).
Qed.

Lemma wlp_recover_replica ns me c : self c = Some me -> wlp c (recover_replica ns me) (fun _ _ => True).
Proof.
  intros Hme. unfold recover_replica. destruct (replica_validate me); [|by cbn].
  eapply wlp_bind_frame; [apply wlp_replica_is_live|]. intros c1 [[|]|] Hle _; [|by cbn|by cbn].
  cbn [negb wlp]. intros [objects|?]; [|by cbn]. apply wlp_recover_gates. cbn. by rewrite (le_self _ _ Hle).
Qed.

Lemma wlp_reap_dead_replica_entries ns gate gate_uid sandbox_name uid entries c :
  listed c entries ->
  wlp c (reap_dead_replica_entries ns gate gate_uid sandbox_name uid entries) (fun _ _ => True).
Proof.
  revert c. induction entries as [|[op e] entries IH]; intros c Hl; [by cbn|]. cbn [reap_dead_replica_entries].
  eapply wlp_bind_frame; [apply wlp_replica_is_live|]. cbn beta.
  intros c1 [[|]|] Hle Hlive; [apply IH; eauto with kobe| |apply IH; eauto with kobe].
  eapply wlp_bind_frame with (P := fun _ _ => True).
  - apply wlp_retire_operation. right; left. apply Hlive; [done|]. eapply Hl. by left.
  - intros c2 _ Hle2 _. apply IH. eauto with kobe.
Qed.

Lemma wlp_reap_dead_principal_entries ns principal uid hash entries c :
  wlp c (reap_dead_principal_entries ns principal uid hash entries) (fun _ _ => True).
Proof.
  revert c. induction entries as [|[op e] entries IH]; intros c; [by cbn|]. cbn [reap_dead_principal_entries].
  eapply wlp_bind_frame; [apply wlp_replica_is_live|]. intros c1 [[|]|] _ _; [apply IH| |apply IH].
  eapply wlp_bind_frame; [apply wlp_remove_principal_entry|]. intros. apply IH.
Qed.

(** An object is only judged removable when it is empty. *)
Lemma labelled_gate_Ok o ns x : labelled_gate o ns = Ok x -> validate_gate o ns x.1 x.2 = Ok tt.
Proof.
  unfold labelled_gate. intros H. unbind H. injection H as <-. cbn. by destruct a1.
Qed.

Lemma wlp_reap_object ns sandbox_ns snapshot paired o c :
  seen c o ->
  wlp c (reap_object ns sandbox_ns snapshot paired o) (fun _ r => r = Ok true ->
    gate_named (l_name o) = true -> forall v, gate_view o = Some v -> v_entries v = ∅ /\ v_rows v = ∅).
Proof.
  intros Hs. unfold reap_object. case_bool_decide.
  - destruct (l_annotations o !! PRINCIPAL_ANNOTATION) as [hash|]; [|by cbn].
    destruct (validate_principal o ns hash) as [u|] eqn:Ev; [|by cbn].
    destruct (lease_uid o) as [uid|]; [|by cbn]. destruct (lease_rv o); [|by cbn].
    destruct (parse_entries o) as [m|]; [|by cbn]. case_bool_decide.
    + cbn. intros _. apply validate_principal_Ok in Ev. rewrite Ev.
      destruct (principal_named_principal hash). congruence.
    + eapply wlp_bind_frame; [apply wlp_reap_dead_principal_entries|]. by cbn.
  - destruct (is_gate o); [|by cbn].
    destruct (labelled_gate o ns) as [[name uid]|] eqn:El; [|by cbn]. apply labelled_gate_Ok in El. cbn in El.
    destruct (lease_uid o) as [gate_uid|]; [|by cbn]. destruct (lease_rv o); [|by cbn].
    destruct (parse_entries o) as [m|] eqn:Em; [|by cbn]. case_bool_decide as Ee; cbn [negb].
    + destruct (parse_execution_entries o) as [rows|] eqn:Er; [|by cbn]. cbn. intros [= Hr] _ v Hv.
      apply andb_true_iff in Hr as [Hr _]. apply bool_decide_eq_true in Hr.
      by rewrite (view_entries _ _ _ Hv Em), (view_rows _ _ _ Hv Er).
    + eapply wlp_bind_frame; [by eapply wlp_reap_dead_replica_entries, listed_btree|]. by cbn.
Qed.

Lemma wlp_reap_objects ns sandbox_ns snapshot paired objects c :
  Forall (seen c) objects -> wlp c (reap_objects ns sandbox_ns snapshot paired objects) (fun _ _ => True).
Proof.
  revert c. induction objects as [|o objects IH]; intros c Hs; [by cbn|]. cbn [reap_objects].
  apply Forall_cons in Hs as [Ho Hs].
  eapply wlp_bind_frame; [by apply wlp_reap_object|]. cbn beta. intros c1 [removable|] Hle Hr; [|by cbn].
  assert (Hs1 : Forall (seen c1) objects) by (eapply Forall_impl; [done|]; by apply le_seen).
  destruct removable; cbn [negb]; [|by apply IH].
  destruct (lease_uid o) as [uid|] eqn:Eu; [|by cbn]. destruct (lease_rv o) as [rv|] eqn:Erv; [|by cbn].
  apply lease_uid_Ok in Eu. apply lease_rv_Ok in Erv. exists false. split.
  - exists o. split; [by apply (le_seen _ _ Hle)|]. repeat (split; [done|]). by apply Hr.
  - intros r _. assert (Forall (seen (saw_answer (retire c1 false) r)) objects).
    { eapply Forall_impl; [done|]. intros x Hx. left. done. }
    destruct r; [by apply IH|]. case_match; [by apply IH|by cbn].
Qed.

Lemma wlp_reap_empty sandbox_ns ns c : wlp c (reap_empty sandbox_ns ns) (fun _ _ => True).
Proof.
  unfold reap_empty. cbn [wlp]. intros [objects|?]; [|by cbn].
  assert (Hall : Forall (seen (saw c (fun o => exists l, Ok objects = (Ok l : result (list Lease) kube_error) /\ o ∈ l))) objects).
  { apply Forall_forall. intros o Ho. right. eauto. }
  case_match; [intros [?|?]; [|by cbn]|]; by apply wlp_reap_objects.
Qed.

(** ** Admission *)

Lemma wlp_get_or_create_open_gate ns name uid c :
  wlp c (get_or_create_open_gate ns name uid) (fun _ _ => True).
Proof.
  unfold get_or_create_open_gate. apply wlp_bind, wlp_get. intros [?|err] _; [by cbn|]. case_match; [|by cbn].
  exists false. split; [left; eauto|]. intros [?|err'] _; [by cbn|]. case_match; [|by cbn].
  apply wlp_bind. cbn. by intros [|].
Qed.

Lemma wlp_prepare_open_gate ns lease c : wlp c (prepare_open_gate ns lease) (fun _ _ => True).
Proof.
  unfold prepare_open_gate. destruct (sandbox_uid lease); [|by cbn].
  eapply wlp_bind_frame; [apply wlp_get_or_create_open_gate|]. by intros ? [[??]|?] _ _.
Qed.

Lemma wlp_verify_open_admitted_gate ns lease c : wlp c (verify_open_admitted_gate ns lease) (fun _ _ => True).
Proof.
  unfold verify_open_admitted_gate. destruct (sandbox_uid lease); [|by cbn].
  destruct (persisted_gate_reference lease); [|by cbn]. apply wlp_bind, wlp_get. by intros [|].
Qed.

Lemma wlp_remove_pre_admission_gate ns lease c : wlp c (remove_pre_admission_gate ns lease) (fun _ _ => True).
Proof.
  unfold remove_pre_admission_gate. destruct (sandbox_uid lease) as [uid|]; [|by cbn].
  apply wlp_bind, wlp_get. intros [o|?] Hn; [|by cbn].
  destruct (removable_gate o ns _ uid) as [[gate_uid rv]|] eqn:Er; [|by cbn].
  unfold removable_gate in Er. unbind Er. apply deny_if_Ok in Hok1. injection Er as <- <-.
  apply lease_uid_Ok in Hok2. apply lease_rv_Ok in Hok3. exists false. split; [|by intros].
  exists o. split; [by right|]. split; [by apply Hn|]. repeat (split; [done|]).
  intros _ v Hv. destruct a0; [|done]. clear Hok1. revert Hok0.
  case_bool_decide; [|done]. cbn [negb]. destruct (parse_entries o) as [m|] eqn:Em; [|done].
  case_bool_decide; [|done]. cbn [negb]. destruct (parse_execution_entries o) as [rows|] eqn:Ex; [|done].
  intros [= Hx]. apply bool_decide_eq_true in Hx.
  by rewrite (view_entries _ _ _ Hv Em), (view_rows _ _ _ Hv Ex).
Qed.

End programs.
