(* ===== verification/LedgerBarrier.v ===== *)
(** * LedgerBarrier: replicas, controllers and the API server, interleaved

    The system the ledger runs in: serving replicas that boot and die, the
    Pods they run in, handlers that enter and leave gates, controllers that
    close, drain, recover and reap, requests that are answered, lost or applied
    long after their sender gave up, and objects of the namespace that belong
    to others.  The theorems are about every reachable state of it. *)

From S2P Require Import Prelude Text Execution SandboxObjects LedgerApi AccessLedger LedgerCodec LedgerSteps.

Open Scope kobe_scope.

(** ** Jobs *)

Inductive Job : Type :=
| JAcquire (lease : SandboxLease) (principal_hash : string) (replica : ServingReplica)
| JRelease (g : ReleaseRegistration)
| JDrain (lease : SandboxLease)
| JPrepare (lease : SandboxLease)
| JVerify (lease : SandboxLease)
| JRemove (lease : SandboxLease)
| JReserve (lease : SandboxLease) (name digest pod_uid : string) (writer : option ServingReplica) (now : nat -> string)
| JBind (lease : SandboxLease) (execution : SandboxExecution)
| JComplete (lease : SandboxLease) (execution : SandboxExecution) (process_absence_proven : bool)
| JManifest (lease : SandboxLease)
| JExpireUnbound (lease : SandboxLease) (name digest pod_uid : string) (observed : option string)
| JExpireOrphaned (lease : SandboxLease) (expected : ExecutionManifestEntry) (current : ServingReplica)
| JReject (lease : SandboxLease) (name digest pod_uid : string)
| JRetire (lease : SandboxLease) (expected : ExecutionManifestEntry)
| JRetireRejected (lease : SandboxLease) (expected : ExecutionManifestEntry)
| JClear (lease : SandboxLease)
| JRecover (replica : ServingReplica)
| JReap.

Inductive Outcome : Type :=
| OAcquire (r : result AccessAcquire AccessLedgerError)
| ORelease (r : result unit AccessLedgerError)
| ODrain (r : result AccessDrain AccessLedgerError)
| OReserve (r : result ExecutionCapacity AccessLedgerError)
| OBind (r : result bool AccessLedgerError)
| OOther.

(** The replica a job runs in; controllers run anywhere. *)
Definition job_replica (j : Job) : option ServingReplica :=
  match j with
  | JAcquire _ _ r => Some r
  | JRelease g => Some (reg_replica g)
  | JRecover r => Some r
  | _ => None
  end.

Definition job_own (id : string) (j : Job) : option (string * GateEntry) :=
  match j with
  | JAcquire _ hash r => Some (id, {| ge_principal_hash := hash; ge_replica := r |})
  | JRelease g => Some (reg_operation_id g, gate_entry g)
  | _ => None
  end.

Definition job_self (j : Job) : option ServingReplica := match j with JRecover r => Some r | _ => None end.

Inductive Task : Type :=
| Running (j : Job) (armed : option ReleaseRegistration) (p : prog Outcome)
| Holding (g : ReleaseRegistration).

Record Sys : Type := {
  server : Server;
  pods : gmap (string * string) string;
  alive : gset ServingReplica;
  booted : gset ServingReplica;
  tasks : gmap string Task;
  used : gset string;
  limbo : list write;
  answers : list (Job * Outcome);
}.

Definition with_store (s : Sys) (srv : Server) : Sys :=
  {| server := srv; pods := pods s; alive := alive s; booted := booted s; tasks := tasks s; used := used s;
     limbo := limbo s; answers := answers s |}.
Definition with_tasks (s : Sys) (t : gmap string Task) : Sys :=
  {| server := server s; pods := pods s; alive := alive s; booted := booted s; tasks := t; used := used s;
     limbo := limbo s; answers := answers s |}.
Definition with_limbo (s : Sys) (l : list write) : Sys :=
  {| server := server s; pods := pods s; alive := alive s; booted := booted s; tasks := tasks s; used := used s;
     limbo := l; answers := answers s |}.
Definition with_answer (s : Sys) (a : Job * Outcome) : Sys :=
  {| server := server s; pods := pods s; alive := alive s; booted := booted s; tasks := tasks s; used := used s;
     limbo := limbo s; answers := a :: answers s |}.
Definition with_used (s : Sys) (id : string) : Sys :=
  {| server := server s; pods := pods s; alive := alive s; booted := booted s; tasks := tasks s;
     used := {[id]} ∪ used s; limbo := limbo s; answers := answers s |}.
Definition with_pods (s : Sys) (p : gmap (string * string) string) : Sys :=
  {| server := server s; pods := p; alive := alive s; booted := booted s; tasks := tasks s; used := used s;
     limbo := limbo s; answers := answers s |}.
Definition with_alive (s : Sys) (a b : gset ServingReplica) : Sys :=
  {| server := server s; pods := pods s; alive := a; booted := b; tasks := tasks s; used := used s;
     limbo := limbo s; answers := answers s |}.

Definition set_task (s : Sys) (id : string) (t : Task) : Sys := with_tasks s (<[id := t]> (tasks s)).
Definition end_task (s : Sys) (id : string) : Sys := with_tasks s (delete id (tasks s)).

(** What a Pod [get] answers: the Pod, its absence, or a failure. *)
Definition pod_answer (s : Sys) (ns name : string) (r : result Pod kube_error) : Prop :=
  match r with
  | Ok pod => exists uid, pods s !! (ns, name) = Some uid
                /\ pod = {| pod_meta_name := name; pod_meta_namespace := Some ns; pod_meta_uid := Some uid |}
  | Err e => is_404 e = true -> pods s !! (ns, name) = None
  end.

Section system.
Context {C : Codec}.
Variable L : SandboxLimits.
Variables ledger_ns sandbox_ns : string.

(** What each job runs. *)
Definition other {A} (p : prog A) : prog Outcome := bind p (fun _ => Ret OOther).

Definition release_prog (g : ReleaseRegistration) : prog Outcome :=
  do r := release_exact ledger_ns g in Ret (ORelease r).

Definition job_prog (id : string) (j : Job) : prog Outcome :=
  match j with
  | JAcquire lease hash r => do a := acquire_with_limits ledger_ns lease hash id r L in Ret (OAcquire a)
  | JRelease g => release_prog g
  | JDrain lease => do a := close_and_drain ledger_ns lease in Ret (ODrain a)
  | JPrepare lease => other (prepare_open_gate ledger_ns lease)
  | JVerify lease => other (verify_open_admitted_gate ledger_ns lease)
  | JRemove lease => other (remove_pre_admission_gate ledger_ns lease)
  | JReserve lease name digest pod writer now =>
      do a := reserve_execution_capacity ledger_ns lease name digest pod writer now L in Ret (OReserve a)
  | JBind lease execution => do a := bind_execution_capacity ledger_ns lease execution in Ret (OBind a)
  | JComplete lease execution proven => other (complete_execution_capacity ledger_ns lease execution proven)
  | JManifest lease => other (execution_manifest ledger_ns lease)
  | JExpireUnbound lease name digest pod observed => other (expire_unbound_execution ledger_ns lease name digest pod observed)
  | JExpireOrphaned lease expected current => other (expire_orphaned_creating_execution ledger_ns lease expected current)
  | JReject lease name digest pod => other (reject_execution_creation ledger_ns lease name digest pod)
  | JRetire lease expected => other (retire_inactive_execution ledger_ns lease expected)
  | JRetireRejected lease expected => other (retire_rejected_execution ledger_ns lease expected)
  | JClear lease => other (clear_execution_manifest ledger_ns lease)
  | JRecover r => other (recover_replica ledger_ns r)
  | JReap => other (reap_empty sandbox_ns ledger_ns)
  end.

(** [Drop for AccessGuard]: the pending PATCH is awaited before the release. *)
Definition drop_prog (p : prog Outcome) (g : ReleaseRegistration) : prog Outcome :=
  match p with
  | WriteLease w k => WriteLease w (fun _ => release_prog g)
  | _ => release_prog g
  end.

Definition may_run (s : Sys) (j : Job) : Prop :=
  match job_replica j with Some r => r ∈ alive s | None => True end.

Inductive ledger_step (s : Sys) : Sys -> Prop :=
(* Handlers and controllers start, under a fresh identifier. *)
| ls_start id j :
    id ∉ used s -> may_run s j -> (forall g, j <> JRelease g) ->
    ledger_step s (set_task (with_used s id) id (Running j None (job_prog id j)))
(* Requests. *)
| ls_get id j armed name k r :
    tasks s !! id = Some (Running j armed (GetLease name k)) -> may_run s j ->
    r = get_object (server s) name \/ (exists e, r = Err e /\ is_404 e = false) ->
    ledger_step s (set_task s id (Running j armed (k r)))
| ls_write id j armed w k srv r :
    tasks s !! id = Some (Running j armed (WriteLease w k)) -> may_run s j ->
    apply_write (server s) w = (srv, r) ->
    ledger_step s (set_task (with_store s srv) id (Running j armed (k r)))
| ls_write_lost id j armed w k e :
    tasks s !! id = Some (Running j armed (WriteLease w k)) -> may_run s j ->
    ledger_step s (set_task (with_limbo s (w :: limbo s)) id (Running j armed (k (Err e))))
| ls_list id j armed k r :
    tasks s !! id = Some (Running j armed (ListLeases k)) -> may_run s j ->
    r = Ok (list_objects (server s)) \/ (exists e, r = Err e) ->
    ledger_step s (set_task s id (Running j armed (k r)))
| ls_pod id j armed ns name k r :
    tasks s !! id = Some (Running j armed (GetPod ns name k)) -> may_run s j -> pod_answer s ns name r ->
    ledger_step s (set_task s id (Running j armed (k r)))
| ls_sandboxes id j armed ns k r :
    tasks s !! id = Some (Running j armed (ListSandboxes ns k)) -> may_run s j ->
    ledger_step s (set_task s id (Running j armed (k r)))
| ls_arm id j armed g k :
    tasks s !! id = Some (Running j armed (Arm g k)) -> may_run s j ->
    ledger_step s (set_task s id (Running j (Some g) k))
(* Answers. *)
| ls_acquired id j armed g :
    tasks s !! id = Some (Running j armed (Ret (OAcquire (Ok (Acquired g))))) -> may_run s j ->
    ledger_step s (set_task (with_answer s (j, OAcquire (Ok (Acquired g)))) id (Holding g))
| ls_answer id j armed o :
    tasks s !! id = Some (Running j armed (Ret o)) -> may_run s j ->
    (forall g, o <> OAcquire (Ok (Acquired g))) ->
    ledger_step s (match armed with
                   | Some g => set_task (with_answer s (j, o)) id (Running (JRelease g) None (release_prog g))
                   | None => end_task (with_answer s (j, o)) id
                   end)
(* Guards: dropped when the operation ends, when an acquisition fails (above)
   or is cancelled after it armed its registration, until the release succeeds. *)
| ls_drop id g :
    tasks s !! id = Some (Holding g) -> reg_replica g ∈ alive s ->
    ledger_step s (set_task s id (Running (JRelease g) None (release_prog g)))
| ls_cancel id j g p :
    tasks s !! id = Some (Running j (Some g) p) -> may_run s j ->
    ledger_step s (set_task s id (Running (JRelease g) None (drop_prog p g)))
| ls_retry id g armed e :
    tasks s !! id = Some (Running (JRelease g) armed (Ret (ORelease (Err e)))) -> may_run s (JRelease g) ->
    ledger_step s (set_task s id (Running (JRelease g) None (release_prog g)))
(* A task disappears (its process is about to end, or its future was dropped);
   a write it sent may still be applied. *)
| ls_abandon id j armed p :
    tasks s !! id = Some (Running j armed p) -> may_run s j ->
    ledger_step s (end_task (with_limbo s (match p with WriteLease w _ => w :: limbo s | _ => limbo s end)) id)
| ls_land w before after srv r :
    limbo s = before ++ w :: after -> apply_write (server s) w = (srv, r) ->
    ledger_step s (with_store (with_limbo s (before ++ after)) srv)
(* Replicas and their Pods. *)
| ls_boot r :
    r ∉ booted s -> pods s !! (rep_namespace r, rep_pod_name r) = Some (rep_pod_uid r) ->
    (forall r', r' ∈ alive s -> rep_namespace r' = rep_namespace r -> rep_pod_name r' <> rep_pod_name r) ->
    ledger_step s (with_alive s ({[r]} ∪ alive s) ({[r]} ∪ booted s))
| ls_exit r :
    ledger_step s (with_alive s (alive s ∖ {[r]}) (booted s))
| ls_pod_created ns name uid :
    pods s !! (ns, name) = None -> ledger_step s (with_pods s (<[(ns, name) := uid]> (pods s)))
| ls_pod_deleted ns name :
    (forall r, r ∈ alive s -> rep_namespace r = ns -> rep_pod_name r <> name) ->
    ledger_step s (with_pods s (delete (ns, name) (pods s)))
(* Other objects of the namespace. *)
| ls_foreign o uid :
    gate_named (l_name o) = false -> principal_named (l_name o) = false ->
    ledger_step s (with_store s (put (server s) (stamped o uid (Some (version (next_version (server s)))))))
| ls_foreign_deleted name :
    gate_named name = false -> principal_named name = false ->
    ledger_step s (with_store s {| objects := delete name (objects (server s));
                                   next_version := next_version (server s) |}).

Definition initial (s : Sys) : Prop :=
  objects (server s) = ∅ /\ 0 <= next_version (server s) /\ alive s = ∅ /\ tasks s = ∅ /\ limbo s = [] /\ answers s = [].

Definition reachable (s : Sys) : Prop := exists s0, initial s0 /\ rtc ledger_step s0 s.

End system.
