(* ===== verification/LedgerInvariant.v ===== *)
(** * LedgerInvariant: what holds in every reachable state of the ledger

    The history of the store explains every stored gate as a path of the gate
    protocol; every operation that a live replica has entered and not given up
    is still inside its gate; every running program only sends writes the
    protocol allows; every write still in flight was computed that way. *)

From S2P Require Import Prelude Text Execution SandboxObjects LedgerApi AccessLedger LedgerCodec LedgerSteps LedgerBarrier.

Open Scope kobe_scope.

Lemma version_inj n m : 0 <= n -> 0 <= m -> version n = version m -> n = m.
Proof. apply show_uint_inj. Qed.

Lemma fresh_uid_inj n m : 0 <= n -> 0 <= m -> fresh_uid n = fresh_uid m -> n = m.
Proof. intros Hn Hm H. apply app_inj_str in H. by apply show_uint_inj. Qed.

Section invariant.
Context {C : Codec} {CL : CodecLaws C}.
Variable L : SandboxLimits.

(** The ghost state: every object the server ever stored, the operations whose
    owner asked to leave, and the entry each operation stands for. *)
Record Ghost : Type := {
  hist : Lease -> Prop;
  retired : string -> Prop;
  ent : string -> option GateEntry;
}.

Record ghost_le (g g' : Ghost) : Prop := {
  gl_hist o : hist g o -> hist g' o;
  gl_retired op : retired g op -> retired g' op;
  gl_ent op e : ent g op = Some e -> ent g' op = Some e;
}.

#[local] Instance ghost_le_preorder : PreOrder ghost_le.
Proof. split; [by constructor|]. intros ? ? ? [] []. constructor; auto. Qed.

(** A replica whose process ended. *)
Definition gone (booted alive : gset ServingReplica) (r : ServingReplica) : Prop := r ∈ booted /\ r ∉ alive.

Definition leave_ok (g : Ghost) (booted alive : gset ServingReplica) (op : string) (e : GateEntry) : Prop :=
  retired g op \/ gone booted alive (ge_replica e).

Definition enter_ok (g : Ghost) (op : string) (e : GateEntry) : Prop := ent g op = Some e.

(** A write that may be applied at any time. *)
Definition write_sem (g : Ghost) (booted alive : gset ServingReplica) (w : write) : Prop :=
  match w with
  | Create o =>
      (exists ns name uid, o = build_gate ns name uid OPEN) \/ (exists ns hash, o = build_principal ns hash)
  | PatchJson name ops =>
      exists o, hist g o /\ l_name o = name /\ pinned ops o
        /\ forall o', apply_ops ops o = Some o' ->
           (gate_named name = true -> forall v, gate_view o = Some v ->
              exists v', gate_view o' = Some v' /\ gate_step L (enter_ok g) (leave_ok g booted alive) v v')
           /\ (principal_named name = true -> forall m, parse_entries o = Ok m ->
              exists m', parse_entries o' = Ok m' /\ principal_step L m m')
  | Delete name uid rv =>
      exists o, hist g o /\ l_name o = name /\ l_uid o = Some uid /\ l_resource_version o = Some rv
        /\ (gate_named name = true -> forall v, gate_view o = Some v -> v_entries v = ∅ /\ v_rows v = ∅)
  end.

Lemma write_sem_mono g g' b a b' a' w :
  ghost_le g g' -> (forall r, gone b a r -> gone b' a' r) -> write_sem g b a w -> write_sem g' b' a' w.
Proof.
  intros Hg Hgone. destruct w as [o|name ops|name uid rv]; cbn; [done| |].
  - intros (o & Ho & Hn & Hp & Hstep). exists o. split; [by apply (gl_hist _ _ Hg)|]. split; [done|]. split; [done|].
    intros o' Ho'. destruct (Hstep _ Ho') as [H1 H2]. split; [|done].
    intros Hgn v Hv. destruct (H1 Hgn v Hv) as (v' & Hv' & Hs). exists v'. split; [done|].
    eapply gate_step_mono; [..|done].
    + intros op e. apply (gl_ent _ _ Hg).
    + intros op e _ [?|?]; [left; by apply (gl_retired _ _ Hg) | right; auto].
  - intros (o & Ho & ?). exists o. split; [by apply (gl_hist _ _ Hg)|done].
Qed.

(** Two stored states of one gate, one after the other. *)
Definition follows (o o' : Lease) : Prop :=
  exists v v', gate_view o = Some v /\ gate_view o' = Some v' /\ rtc (gate_protocol L) v v'.

Lemma follows_refl o : is_Some (gate_view o) -> follows o o.
Proof. intros [v Hv]. exists v, v. done. Qed.

Lemma follows_step o c v v' o' enter leave :
  follows o c -> gate_view c = Some v -> gate_view o' = Some v' -> gate_step L enter leave v v' -> follows o o'.
Proof.
  intros (v0 & v1 & H0 & H1 & Hr) Hv Hv' Hs. assert (v1 = v) as -> by congruence.
  exists v0, v'. split; [done|]. split; [done|]. eapply rtc_r; [done|]. by eapply gate_step_any.
Qed.

Record store_inv (g : Ghost) (booted alive : gset ServingReplica) (srv : Server) : Prop := {
  si_next : 0 <= next_version srv;
  si_current name o : objects srv !! name = Some o -> hist g o /\ l_name o = name;
  si_version o : hist g o -> exists k, 0 <= k < next_version srv /\ l_resource_version o = Some (version k);
  si_unique o o' : hist g o -> hist g o' -> l_resource_version o = l_resource_version o' -> o = o';
  si_uid o : hist g o -> gate_named (l_name o) = true ->
    exists k, 0 <= k < next_version srv /\ l_uid o = Some (fresh_uid k);
  si_name o o' : hist g o -> hist g o' -> gate_named (l_name o) = true -> gate_named (l_name o') = true ->
    l_uid o = l_uid o' -> l_name o = l_name o';
  si_view o : hist g o -> gate_named (l_name o) = true -> exists v, gate_view o = Some v /\ within_limits L v
    /\ forall op e, v_entries v !! op = Some e -> ent g op = Some e;
  si_chain o o' : hist g o -> hist g o' -> gate_named (l_name o) = true -> gate_named (l_name o') = true ->
    l_uid o = l_uid o' -> follows o o' \/ follows o' o;
  si_latest o c : hist g o -> gate_named (l_name o) = true -> objects srv !! l_name o = Some c ->
    l_uid c = l_uid o -> follows o c;
  si_inside o v op e : hist g o -> gate_named (l_name o) = true -> gate_view o = Some v ->
    v_entries v !! op = Some e -> ~ retired g op -> ge_replica e ∈ alive ->
    exists c v', objects srv !! l_name o = Some c /\ l_uid c = l_uid o /\ gate_view c = Some v'
      /\ v_entries v' !! op = Some e;
  si_principal o : hist g o -> principal_named (l_name o) = true ->
    exists m, parse_entries o = Ok m /\ within (size (m : gmap string PrincipalEntry)) (streams_per_principal L);
}.

(** The history after one more stored object. *)
Definition remember (g : Ghost) (o : Lease) : Ghost :=
  {| hist := fun x => hist g x \/ x = o; retired := retired g; ent := ent g |}.

Lemma ghost_le_remember g o : ghost_le g (remember g o).
Proof. constructor; cbn; auto. Qed.

(** *** A new version of an existing object *)
Lemma store_inv_update g b a srv c o' :
  store_inv g b a srv -> objects srv !! l_name o' = Some c ->
  l_uid o' = l_uid c -> l_resource_version o' = Some (version (next_version srv)) ->
  (gate_named (l_name o') = true -> exists v v', gate_view c = Some v /\ gate_view o' = Some v'
     /\ gate_step L (enter_ok g) (leave_ok g b a) v v') ->
  (principal_named (l_name o') = true -> exists m m', parse_entries c = Ok m /\ parse_entries o' = Ok m'
     /\ principal_step L m m') ->
  store_inv (remember g o') b a (put srv o').
Proof.
  intros [] Hc Hu Hrv Hgate Hprin.
  destruct (si_current0 _ _ Hc) as [Hhc Hnc].
  assert (Hold : forall x, hist g x -> l_resource_version x <> l_resource_version o').
  { intros x Hx Heq. destruct (si_version0 _ Hx) as (k & Hk & Hkv). rewrite Hkv, Hrv in Heq.
    injection Heq as Heq. apply version_inj in Heq; lia. }
  assert (Hlater : forall x, hist g x -> gate_named (l_name x) = true -> gate_named (l_name o') = true ->
            l_uid x = l_uid o' -> follows x o').
  { intros x Hx Hgx Hgo Hxu. destruct (Hgate Hgo) as (v & v' & Hv & Hv' & Hs).
    assert (l_name x = l_name c) as Hxn by (apply si_name0; [done..|by rewrite Hnc|congruence]).
    eapply (follows_step _ c v v'); [|done..]. eapply si_latest0; [done..| |congruence]. by rewrite Hxn, Hnc. }
  constructor; cbn.
  - lia.
  - intros n o [[<- <-]|[Hne Ho]]%lookup_insert_Some; [auto|]. destruct (si_current0 _ _ Ho). auto.
  - intros o [Ho| ->]; [|exists (next_version srv); auto with lia].
    destruct (si_version0 _ Ho) as (k & ? & ?). exists k. split; [lia|done].
  - intros o1 o2 [H1| ->] [H2| ->] Heq; [eauto|by destruct (Hold _ H1)|by destruct (Hold _ H2)|done].
  - intros o [Ho| ->] Hg.
    + destruct (si_uid0 _ Ho Hg) as (k & ? & ?). exists k. split; [lia|done].
    + destruct (si_uid0 c) as (k & ? & ?); [done|by rewrite Hnc|]. exists k. rewrite Hu. split; [lia|done].
  - intros o1 o2 [H1| ->] [H2| ->] G1 G2 Heq; [eauto| | |done].
    + rewrite <- Hnc. apply si_name0; [done..|by rewrite Hnc|congruence].
    + symmetry. rewrite <- Hnc. apply si_name0; [done..|by rewrite Hnc|congruence].
  - intros o [Ho| ->] Hg; [by apply si_view0|].
    destruct (Hgate Hg) as (v & v' & Hv & Hv' & Hs). exists v'. split; [done|].
    destruct (si_view0 c Hhc) as (v1 & Hv1 & Hlim & Hent); [by rewrite Hnc|].
    assert (v1 = v) as -> by congruence. split; [by eapply gate_step_within|].
    intros op e. destruct Hs as [op' e' es rows He _|open op' e' es rows _ _| | |]; cbn in *;
      [|intros [_ ?]%lookup_delete_Some|..]; auto.
    intros [[-> <-]|[_ ?]]%lookup_insert_Some; [done|auto].
  - intros o1 o2 [H1| ->] [H2| ->] G1 G2 Heq; [eauto|left; auto|right; auto|].
    left. destruct (Hgate G1) as (v & v' & Hv & Hv' & Hs). by apply follows_refl.
  - intros o c' [Ho| ->] Hg.
    + intros [[Heq <-]|[Hne Hc']]%lookup_insert_Some Huc; [|by eapply si_latest0].
      apply Hlater; [done|done|by rewrite Heq|congruence].
    + rewrite lookup_insert_eq. intros [= <-] _. destruct (Hgate Hg) as (v & v' & Hv & Hv' & Hs). by apply follows_refl.
  - intros o v op e Ho Hg Hv He Hret Halive.
    destruct Ho as [Ho| ->]; [|exists o', v; by rewrite lookup_insert_eq].
    destruct (si_inside0 _ _ _ _ Ho Hg Hv He Hret Halive) as (c1 & v1 & Hc1 & Hu1 & Hv1 & He1).
    destruct (decide (l_name o = l_name o')) as [Heq|Hne]; [|exists c1, v1; by rewrite lookup_insert_ne].
    rewrite Heq in Hc1. assert (c1 = c) as -> by congruence. rewrite Heq, lookup_insert_eq.
    destruct (Hgate ltac:(by rewrite <- Heq)) as (v2 & v' & Hv2 & Hv' & Hs).
    assert (v2 = v1) as -> by congruence. exists o', v'. split; [done|]. split; [congruence|]. split; [done|].
    destruct Hs as [op' e' es rows He' _|open op' e' es rows Hl [Hr|[_ Hr]]| | |]; cbn in *; try done.
    + destruct (decide (op' = op)) as [->|]; [|by rewrite lookup_insert_ne].
      rewrite lookup_insert_eq. destruct (si_view0 c Hhc) as (v3 & Hv3 & _ & Hent); [by rewrite Hnc, <- Heq|].
      assert (v3 = view true es rows) as -> by congruence. cbn in Hent. apply Hent in He1.
      unfold enter_ok in He'. congruence.
    + rewrite lookup_delete_ne; [done|]. intros ->. done.
    + rewrite lookup_delete_ne; [done|]. intros ->. assert (e' = e) as -> by congruence. done.
  - intros o [Ho| ->] Hp; [by apply si_principal0|].
    destruct (Hprin Hp) as (m & m' & Hm & Hm' & Hs). exists m'. split; [done|].
    destruct (si_principal0 c Hhc) as (m1 & Hm1 & Hw); [by rewrite Hnc|]. assert (m1 = m) as -> by congruence.
    destruct Hs; eauto with kobe.
Qed.

(** *** A new object, or an object of somebody else *)
Lemma store_inv_insert g b a srv o' :
  store_inv g b a srv -> l_resource_version o' = Some (version (next_version srv)) ->
  (gate_named (l_name o') = true ->
     objects srv !! l_name o' = None /\ l_uid o' = Some (fresh_uid (next_version srv))
     /\ gate_view o' = Some (view true ∅ ∅)) ->
  (principal_named (l_name o') = true -> parse_entries o' = Ok (∅ : gmap string PrincipalEntry)) ->
  store_inv (remember g o') b a (put srv o').
Proof.
  intros [] Hrv Hgate Hprin.
  assert (Hold : forall x, hist g x -> l_resource_version x <> l_resource_version o').
  { intros x Hx Heq. destruct (si_version0 _ Hx) as (k & Hk & Hkv). rewrite Hkv, Hrv in Heq.
    injection Heq as Heq. apply version_inj in Heq; lia. }
  assert (Hfresh : forall x, hist g x -> gate_named (l_name x) = true -> gate_named (l_name o') = true ->
            l_uid x <> l_uid o').
  { intros x Hx Hgx Hgo Heq. destruct (si_uid0 _ Hx Hgx) as (k & Hk & Hku).
    destruct (Hgate Hgo) as (_ & Ho & _). rewrite Hku, Ho in Heq. injection Heq as Heq.
    apply show_uint_inj in Heq; lia. }
  constructor; cbn.
  - lia.
  - intros n o [[<- <-]|[Hne Ho]]%lookup_insert_Some; [auto|]. destruct (si_current0 _ _ Ho). auto.
  - intros o [Ho| ->]; [|exists (next_version srv); auto with lia].
    destruct (si_version0 _ Ho) as (k & ? & ?). exists k. split; [lia|done].
  - intros o1 o2 [H1| ->] [H2| ->] Heq; [eauto|by destruct (Hold _ H1)|by destruct (Hold _ H2)|done].
  - intros o [Ho| ->] Hg.
    + destruct (si_uid0 _ Ho Hg) as (k & ? & ?). exists k. split; [lia|done].
    + exists (next_version srv). destruct (Hgate Hg) as (_ & -> & _). split; [lia|done].
  - intros o1 o2 [H1| ->] [H2| ->] G1 G2 Heq; [eauto|by destruct (Hfresh _ H1 G1 G2)|by destruct (Hfresh _ H2 G2 G1)|done].
  - intros o [Ho| ->] Hg; [by apply si_view0|]. destruct (Hgate Hg) as (_ & _ & Hv).
    eexists. split; [done|]. split; [|intros op e; cbn; by rewrite lookup_empty].
    split; cbn; rewrite map_size_empty; apply within_empty.
  - intros o1 o2 [H1| ->] [H2| ->] G1 G2 Heq; [eauto|by destruct (Hfresh _ H1 G1 G2)|by destruct (Hfresh _ H2 G2 G1)|].
    left. destruct (Hgate G1) as (_ & _ & Hv). by apply follows_refl.
  - intros o c' [Ho| ->] Hg.
    + intros [[Heq <-]|[Hne Hc']]%lookup_insert_Some Huc; [|by eapply si_latest0].
      destruct (Hfresh _ Ho Hg); [by rewrite Heq|done].
    + rewrite lookup_insert_eq. intros [= <-] _. destruct (Hgate Hg) as (_ & _ & Hv). by apply follows_refl.
  - intros o v op e [Ho| ->] Hg Hv He Hret Halive; [|exists o', v; by rewrite lookup_insert_eq].
    destruct (si_inside0 _ _ _ _ Ho Hg Hv He Hret Halive) as (c1 & v1 & Hc1 & Hu1 & Hv1 & He1).
    exists c1, v1. rewrite lookup_insert_ne; [done|]. intros Heq. rewrite <- Heq in *.
    destruct (Hgate Hg) as (Hnone & _). congruence.
  - intros o [Ho| ->] Hp; [by apply si_principal0|]. exists ∅. rewrite Hprin by done. split; [done|].
    rewrite map_size_empty. apply within_empty.
Qed.

(** *** An object goes *)
Lemma store_inv_delete g b a srv name :
  store_inv g b a srv ->
  (gate_named name = true -> forall c, objects srv !! name = Some c ->
     exists v, gate_view c = Some v /\ v_entries v = ∅) ->
  store_inv g b a {| objects := delete name (objects srv); next_version := next_version srv |}.
Proof.
  intros [] Hgate. constructor; cbn; auto.
  - intros n o [_ ?]%lookup_delete_Some. auto.
  - intros o c Ho Hg [_ Hc]%lookup_delete_Some. by apply si_latest0.
  - intros o v op e Ho Hg Hv He Hret Halive.
    destruct (si_inside0 _ _ _ _ Ho Hg Hv He Hret Halive) as (c1 & v1 & Hc1 & Hu1 & Hv1 & He1).
    exists c1, v1. rewrite lookup_delete_ne; [done|]. intros ->.
    destruct (Hgate Hg _ Hc1) as (v2 & Hv2 & Hempty). rewrite Hv1 in Hv2. injection Hv2 as <-.
    rewrite Hempty, lookup_empty in He1. done.
Qed.

Lemma build_gate_view ns name uid u rv : gate_view (stamped (build_gate ns name uid OPEN) u rv) = Some (view true ∅ ∅).
Proof.
  rewrite gate_view_stamped. apply gate_view_Some. unfold parse_entries, parse_execution_entries, build_gate.
  split; [done|]. split; cbn [l_annotations].
  - change (_ !! ENTRIES_ANNOTATION) with (Some "{}"). cbn [ok_or]. unfold json_value. by rewrite gate_empty_object.
  - change (_ !! EXECUTIONS_ANNOTATION) with (Some "{}"). cbn [ok_or]. unfold decode.
    change (strip_prefix PREFIX "{}") with (@None string). unfold json_value. by rewrite executions_empty_object.
Qed.

Lemma build_principal_entries ns hash u rv :
  parse_entries (stamped (build_principal ns hash) u rv) = Ok (∅ : gmap string PrincipalEntry).
Proof.
  unfold parse_entries. cbn [l_annotations stamped build_principal].
  change (_ !! ENTRIES_ANNOTATION) with (Some "{}"). cbn [ok_or]. unfold json_value. by rewrite principal_empty_object.
Qed.

(** Every allowed write keeps the store's invariant, and its answer is part of
    the history. *)
Lemma apply_write_inv g b a srv w srv' r :
  store_inv g b a srv -> write_sem g b a w -> apply_write srv w = (srv', r) ->
  exists g', ghost_le g g' /\ retired g' = retired g /\ ent g' = ent g /\ store_inv g' b a srv'
    /\ (forall o, r = Ok o -> hist g' o) /\ (forall c, (forall o, seen c o -> hist g o) -> answer_ok c w r).
Proof.
  intros Hinv Hw Ha. destruct w as [o|name ops|name uid rv]; cbn in Ha.
  - destruct (objects srv !! l_name o) eqn:Eo; injection Ha as <- <-.
    { exists g. done. }
    set (o' := stamped o _ _). exists (remember g o').
    split; [apply ghost_le_remember|]. split; [done|]. split; [done|].
    split; [|split; [intros ? [= <-]; by right|]; intros; cbn; eauto].
    apply store_inv_insert; [done|done|..]; subst o'; cbn.
    + intros Hg. destruct Hw as [(ns & n & uid & ->)|(ns & hash & ->)]; [by rewrite build_gate_view|done].
    + intros Hp. destruct Hw as [(ns & n & uid & ->)|(ns & hash & ->)]; [done|]. apply build_principal_entries.
  - destruct (objects srv !! name) as [c|] eqn:Ec; [|injection Ha as <- <-; by exists g].
    destruct (apply_ops ops c) as [c1|] eqn:Eops; [|injection Ha as <- <-; by exists g].
    destruct (si_current _ _ _ _ Hinv _ _ Ec) as [Hhc Hnc].
    case_bool_decide as Enop.
    { injection Ha as <- <-. exists g. do 4 (split; [done|]). split; [by intros ? [= <-]|]. subst c1.
      intros x Hx. exists c, c. split; [done|]. split; [intros; eapply si_unique; eauto|]. split; [done|]. by left. }
    injection Ha as <- <-. destruct Hw as (o & Ho & Hn & Hpin & Hstep).
    destruct (pinned_lands _ _ _ _ Hpin Eops) as [_ Hrv].
    assert (c = o) as -> by (eapply si_unique; eauto).
    destruct (apply_ops_same _ _ _ Eops) as [(Hs1 & Hs2 & _) _].
    destruct (Hstep _ Eops) as [Hg Hp].
    set (o' := stamped c1 _ _). exists (remember g o').
    split; [apply ghost_le_remember|]. split; [done|]. split; [done|].
    split; [|split; [intros ? [= <-]; by right|]; intros x Hx; exists o, c1; split; [done|];
      split; [intros; eapply si_unique; eauto|eauto]].
    apply store_inv_update with (c := o); [done|cbn; by rewrite Hs1, Hn|done|done|..].
    + cbn. rewrite Hs1, Hn. intros Hgn.
      destruct (si_view _ _ _ _ Hinv o Ho) as (v & Hv & _); [by rewrite Hn|].
      destruct (Hg Hgn v Hv) as (v' & Hv' & Hs). exists v, v'. split; [done|]. subst o'. by rewrite gate_view_stamped.
    + cbn. rewrite Hs1, Hn. intros Hpn.
      destruct (si_principal _ _ _ _ Hinv o Ho) as (m & Hm & _); [by rewrite Hn|].
      destruct (Hp Hpn m Hm) as (m' & Hm' & Hs). exists m, m'. done.
  - destruct (objects srv !! name) as [c|] eqn:Ec; [|injection Ha as <- <-; by exists g].
    destruct (si_current _ _ _ _ Hinv _ _ Ec) as [Hhc Hnc].
    case_bool_decide as Epre; injection Ha as <- <-; [|by exists g].
    destruct Epre as [Hu Hr]. destruct Hw as (o & Ho & Hn & Huo & Hro & Hempty).
    assert (c = o) as -> by (eapply si_unique; eauto; congruence).
    exists g. do 3 (split; [done|]). split; [|split; [by intros ? [= <-]|done]].
    apply store_inv_delete; [done|]. intros Hg c' Hc'. assert (c' = o) as -> by congruence.
    destruct (si_view _ _ _ _ Hinv o Ho) as (v & Hv & _); [by rewrite Hn|].
    destruct (Hempty Hg v Hv). eauto.
Qed.

(** ** Tasks *)

(** What an answer of a job certifies. *)
Definition gate_of (lease : SandboxLease) (o : Lease) : Prop :=
  gate_named (l_name o) = true
  /\ exists ref, persisted_gate_reference lease = Ok ref /\ l_uid o = Some (gate_ref_uid ref).

Definition drained_fact (H : Lease -> Prop) (lease : SandboxLease) : Prop :=
  exists o rows, H o /\ gate_of lease o /\ gate_view o = Some (view false ∅ rows).

(** The gate was open when it held the active row bound to that UID. *)
Definition bound_fact (H : Lease -> Prop) (lease : SandboxLease) (execution : SandboxExecution) : Prop :=
  exists o rows e uid, H o /\ gate_of lease o /\ gate_state o = Some OPEN /\ parse_execution_entries o = Ok rows
    /\ rows !! se_name execution = Some e /\ se_uid execution = Some uid /\ ee_execution_uid e = Some uid
    /\ ee_active e = true
    /\ ee_request_digest e = exec_request_digest (se_spec execution)
    /\ ee_pod_uid e = exec_pod_uid (se_spec execution).

Definition answer_fact (H : Lease -> Prop) (a : Job * Outcome) : Prop :=
  match a.2 with
  | ODrain (Ok Drained) => exists lease, a.1 = JDrain lease /\ drained_fact H lease
  | OBind (Ok true) => exists lease execution, a.1 = JBind lease execution /\ bound_fact H lease execution
  | _ => True
  end.

Definition acquired_fact (H : Lease -> Prop) (c : Ctx) (j : Job) (g : ReleaseRegistration) : Prop :=
  retiring c = false /\ own c = Some (reg_operation_id g, gate_entry g)
  /\ (exists lease hash, j = JAcquire lease hash (reg_replica g)) /\ exists o, H o /\ entered g o.

Definition post (j : Job) (c : Ctx) (o : Outcome) : Prop :=
  answer_fact (seen c) (j, o)
  /\ match o with OAcquire (Ok (Acquired g)) => acquired_fact (seen c) c j g | _ => True end.

Lemma answer_fact_mono (H H' : Lease -> Prop) a : (forall o, H o -> H' o) -> answer_fact H a -> answer_fact H' a.
Proof.
  intros Hm. unfold answer_fact. repeat case_match; try done.
  - intros (lease & ? & o & rows & Ho & ?). exists lease. split; [done|]. exists o, rows. auto.
  - intros (lease & execution & ? & o & rows & e & uid & Ho & ?). exists lease, execution. split; [done|].
    exists o, rows, e, uid. auto.
Qed.

(** The knowledge of a task agrees with the system. *)
Record ctx_ok (g : Ghost) (b a : gset ServingReplica) (id : string) (j : Job) (c : Ctx) : Prop := {
  co_seen o : seen c o -> hist g o;
  co_dead r : dead c r -> gone b a r;
  co_self : self c = job_self j;
  co_own : own c = job_own id j;
  co_entry op e : own c = Some (op, e) -> op = id /\ ent g id = Some e;
  co_retired : retired g id -> retiring c = true \/ exists r, j = JRelease r;
}.

Definition task_ok (g : Ghost) (b a : gset ServingReplica) (id : string) (t : Task) : Prop :=
  match t with
  | Running j armed p =>
      exists c, ctx_ok g b a id j c /\ wlp L c p (post j)
        /\ (forall r, armed = Some r -> own c = Some (reg_operation_id r, gate_entry r))
        /\ (forall r, j = JRelease r -> retired g id)
  | Holding r =>
      reg_operation_id r = id /\ ~ retired g id /\ exists o, hist g o /\ entered r o
  end.

Lemma task_ok_mono g g' b a b' a' id t :
  ghost_le g g' -> (retired g' id -> retired g id) -> (forall r, gone b a r -> gone b' a' r) ->
  task_ok g b a id t -> task_ok g' b' a' id t.
Proof.
  intros [Hh Hr He] Hnr Hgone. destruct t as [j armed p|r]; cbn.
  - intros (c & [] & Hw & Harm & Hrel). exists c. split; [|eauto 10]. constructor; eauto.
    intros op e Ho. destruct (co_entry0 _ _ Ho). auto.
  - intros (Hid & Hnot & o & Ho & Hent). eauto 10.
Qed.

(** ** The system *)

Record sys_inv (g : Ghost) (s : Sys) : Prop := {
  in_store : store_inv g (booted s) (alive s) (server s);
  in_limbo : Forall (write_sem g (booted s) (alive s)) (limbo s);
  in_alive r : r ∈ alive s -> r ∈ booted s /\ pods s !! (rep_namespace r, rep_pod_name r) = Some (rep_pod_uid r);
  in_slot r r' : r ∈ alive s -> r' ∈ alive s -> rep_namespace r = rep_namespace r' ->
    rep_pod_name r = rep_pod_name r' -> r = r';
  in_ent op e : ent g op = Some e -> op ∈ used s /\ ge_replica e ∈ booted s;
  in_retired op : retired g op -> op ∈ used s;
  in_used id t : tasks s !! id = Some t -> id ∈ used s;
  in_tasks id t : tasks s !! id = Some t -> task_ok g (booted s) (alive s) id t;
  in_answers a : a ∈ answers s -> answer_fact (hist g) a;
}.

(** A known replica has run. *)
Lemma known_booted g s id j c r :
  sys_inv g s -> ctx_ok g (booted s) (alive s) id j c -> known c r -> r ∈ booted s.
Proof.
  intros Hs Hc (o & v & op & e & Ho & Hg & Hv & He & <-). apply (co_seen _ _ _ _ _ _ Hc) in Ho.
  destruct (si_view _ _ _ _ (in_store _ _ Hs) o Ho Hg) as (v' & Hv' & _ & Hent).
  assert (v' = v) as -> by congruence. by eapply (in_ent _ _ Hs), Hent.
Qed.

(** What a task sees, learns and asks keeps its knowledge right. *)
Lemma ctx_ok_saw g b a id j c o :
  ctx_ok g b a id j c -> (forall x, o x -> hist g x) -> ctx_ok g b a id j (saw c o).
Proof. intros [] Ho. constructor; cbn; auto. intros x [?|?]; auto. Qed.

Lemma ctx_ok_learn g s id j c ns name r :
  sys_inv g s -> ctx_ok g (booted s) (alive s) id j c -> pod_answer s ns name r ->
  ctx_ok g (booted s) (alive s) id j (learn c ns name r).
Proof.
  intros Hs Hc Hpod. pose proof (fun x => known_booted g s id j c x Hs Hc) as Hknown.
  destruct Hc. constructor; cbn; auto.
  intros x [?|(Hk & <- & <- & Href)]; [auto|]. split; [auto|]. intros Halive.
  destruct (in_alive _ _ Hs _ Halive) as [_ Hp]. unfold refuted in Href. destruct r as [pod|e]; cbn in Hpod.
  - destruct Hpod as (uid & Hu & ->). cbn in Href. congruence.
  - rewrite (Hpod Href) in Hp. done.
Qed.

(** The ghost state after task [id] sends a write; [b] marks a departure. *)
Definition leaving (g : Ghost) (b : bool) (id : string) : Ghost :=
  {| hist := hist g; retired := fun op => retired g op \/ (b = true /\ op = id); ent := ent g |}.

Lemma ghost_le_leaving g b id : ghost_le g (leaving g b id).
Proof. constructor; cbn; auto. Qed.

Lemma leaving_other g b id op : op <> id -> retired (leaving g b id) op -> retired g op.
Proof. cbn. intros Hne [?|[_ ?]]; [done|congruence]. Qed.

Lemma ctx_ok_leaving g b a id j c f :
  ctx_ok g b a id j c -> ctx_ok (leaving g f id) b a id j (retire c f).
Proof.
  intros []. constructor; cbn; auto. intros [Hr|[-> _]]; [|left; apply orb_true_r].
  destruct (co_retired0 Hr) as [->|?]; auto.
Qed.

(** The store does not mind departures and new owners. *)
Lemma store_inv_ghost g g' b a srv :
  (forall o, hist g' o <-> hist g o) -> ghost_le g g' -> store_inv g b a srv -> store_inv g' b a srv.
Proof.
  intros Hh [_ Hr He] []. constructor; auto.
  - intros name o Ho. rewrite Hh. auto.
  - intros o Ho%Hh. auto.
  - intros o o' Ho%Hh Ho'%Hh. auto.
  - intros o Ho%Hh. auto.
  - intros o o' Ho%Hh Ho'%Hh. auto.
  - intros o Ho%Hh Hg. destruct (si_view0 o Ho Hg) as (v & ? & ? & ?). exists v. eauto.
  - intros o o' Ho%Hh Ho'%Hh. auto.
  - intros o c Ho%Hh. auto.
  - intros o v op e Ho%Hh Hg Hv Hin Hnot Ha. eapply si_inside0; eauto.
  - intros o Ho%Hh. auto.
Qed.

Lemma store_inv_leaving g b a srv f id : store_inv g b a srv -> store_inv (leaving g f id) b a srv.
Proof. apply store_inv_ghost; [done|apply ghost_le_leaving]. Qed.

(** A write a task may send is one that may be applied at any time. *)
Lemma write_ok_sem g s id j c f w :
  sys_inv g s -> ctx_ok g (booted s) (alive s) id j c -> may_run s j ->
  write_ok L c f w -> write_sem (leaving g f id) (booted s) (alive s) w.
Proof.
  intros Hs Hc Hrun. destruct w as [o|name ops|name uid rv]; cbn; [done| |].
  - intros (o & Ho & <- & Hp & Hstep). apply (co_seen _ _ _ _ _ _ Hc) in Ho.
    exists o. split; [done|]. split; [done|]. split; [done|]. intros o' Ho'.
    destruct (Hstep _ Ho') as [H1 H2]. split; [|done]. intros Hg v Hv.
    destruct (H1 Hg v Hv) as (v' & Hv' & Hs'). exists v'. split; [done|].
    eapply gate_step_mono; [..|done].
    + intros op e He. by destruct (co_entry _ _ _ _ _ _ Hc _ _ He) as [-> ?].
    + intros op e He [Hf [[e' Hown]|[Hdead|(me & Hself & Hstale)]]].
      * left. right. by destruct (co_entry _ _ _ _ _ _ Hc _ _ Hown).
      * right. by apply (co_dead _ _ _ _ _ _ Hc).
      * right. destruct (si_view _ _ _ _ (in_store _ _ Hs) o Ho Hg) as (v1 & Hv1 & _ & Hent).
        assert (v1 = v) as -> by congruence. apply Hent in He.
        split; [by eapply (in_ent _ _ Hs)|]. intros Halive.
        rewrite (co_self _ _ _ _ _ _ Hc) in Hself. unfold may_run in Hrun.
        destruct j; try done. injection Hself as ->. cbn in Hrun.
        unfold stale_for_current_replica in Hstale. bool_props.
        assert (ge_replica e = me) as <- by (eapply in_slot; eauto).
        rewrite !String.eqb_refl in *. cbn in *. intuition done.
  - intros (o & Ho & ?). exists o. split; [by apply (co_seen _ _ _ _ _ _ Hc)|done].
Qed.

(** ** Every job follows the protocol *)

Lemma execution_uid_of_Ok e u : execution_uid_of e = Ok u -> se_uid e = Some u.
Proof. unfold execution_uid_of. repeat case_match; congruence. Qed.

Lemma when_open_Ok {A} (closed : A) o : when_open closed o = Ok None -> gate_state o = Some OPEN.
Proof. unfold when_open. case_bool_decide; done. Qed.

Lemma wlp_bind_execution ns lease execution c :
  wlp L c (bind_execution_capacity ns lease execution) (fun c' r => r = Ok true -> bound_fact (seen c') lease execution).
Proof.
  unfold bind_execution_capacity. destruct (execution_uid_of execution) as [uid|] eqn:Eu; [|by cbn].
  apply execution_uid_of_Ok in Eu. apply wlp_execution_cas; [apply bind_plan_ok|done|].
  intros c' n o a Hs Href [guid Hn] Hcase. intros [= ->].
  assert (gate_of lease o) as Hgo. { split; [by rewrite Hn; apply gate_named_gate | done]. }
  destruct Hcase as [He|(He & rows & Hrows & Hplan)].
  { revert He. unfold when_open. case_bool_decide; done. }
  apply when_open_Ok in He.
  destruct Hplan as [Hp|[[? _]|(rows' & o' & Hp & Ho' & Hc)]]; [|done|].
  - unfold bind_plan, row_of in Hp. destruct (rows !! se_name execution) as [e|] eqn:En; [|done]. cbn in Hp.
    unbind Hp. apply deny_if_Ok in Hok. bool_props.
    destruct (ee_execution_uid e) as [bound|] eqn:Eb; [|by case_bool_decide].
    destruct (String.eqb_spec bound uid) as [->|]; [|done].
    exists o, rows, e, uid. done.
  - unfold bind_plan, row_of in Hp. destruct (rows !! se_name execution) as [e|] eqn:En; [|done]. cbn in Hp.
    unbind Hp. apply deny_if_Ok in Hok. bool_props.
    destruct (ee_execution_uid e) as [bound|] eqn:Eb; [by case_match|]. case_bool_decide; [|done].
    injection Hp as Hp. destruct Hc as (Hc1 & Hc2 & Hc3 & Hc4).
    exists o', rows', (resolve_row e (Some uid) Bound (ee_active e)), uid.
    split; [done|]. split; [unfold gate_of; by rewrite Hc1, Hc2|]. split; [congruence|]. split; [done|].
    split; [by rewrite <- Hp, lookup_insert_eq|]. done.
Qed.

Lemma wlp_other {A} (p : prog A) c j : wlp L c p (fun _ _ => True) -> wlp L c (other p) (post j).
Proof. intros H. apply wlp_bind. eapply wlp_mono; [|done]. done. Qed.

Lemma wlp_release_prog ns g c j :
  (exists e, own c = Some (reg_operation_id g, e)) -> wlp L c (release_prog ns g) (post j).
Proof. intros H. apply wlp_bind. eapply wlp_mono; [|by apply wlp_release_exact]. done. Qed.

(** The argument checks a handler makes before its first request. *)
Ltac split_guard :=
  cbv zeta; match goal with |- wlp _ _ (match ?x with Ok _ => _ | Err _ => _ end) _ => destruct x end; [|by cbn].

Lemma wlp_job ns sns id j c :
  own c = job_own id j -> self c = job_self j -> retiring c = false -> wlp L c (job_prog L ns sns id j) (post j).
Proof.
  intros Hown Hself Hret. destruct j; cbn [job_prog job_own job_self] in *; try apply wlp_other.
  - apply wlp_bind. eapply wlp_mono; [|by apply wlp_frame, wlp_acquire]. intros c' r [Hr Hle]. cbn. split; [done|].
    destruct r as [[g| |]|]; try done. destruct (Hr _ eq_refl) as (H1 & H2 & H3 & H4).
    split; [congruence|]. split; [by rewrite (le_own _ _ Hle)|]. split; [rewrite H3; eauto|done].
  - apply wlp_release_prog. eauto.
  - apply wlp_bind. eapply wlp_mono; [|apply wlp_close_and_drain]. intros c' r Hr. split; [|done]. cbn.
    destruct r as [[| |]|]; try done. destruct (Hr eq_refl) as (o & ref & H1 & H2 & H3 & H4 & rows & H5).
    exists lease. split; [done|]. exists o, rows. split; [done|]. split; [|done]. split; [done|]. eauto.
  - apply wlp_prepare_open_gate.
  - apply wlp_verify_open_admitted_gate.
  - apply wlp_remove_pre_admission_gate.
  - apply wlp_bind. apply wlp_mono with (Q := fun _ _ => True); [by intros|].
    unfold reserve_execution_capacity. split_guard. apply wlp_execution_any, reserve_plan_ok.
  - apply wlp_bind. eapply wlp_mono; [|apply wlp_bind_execution]. intros c' r Hr. split; [|done]. cbn.
    destruct r as [[|]|]; try done. exists lease, execution. auto.
  - unfold complete_execution_capacity. split_guard. apply wlp_execution_any, complete_plan_ok.
  - unfold execution_manifest. eapply wlp_bind_frame; [apply wlp_exact_gate|]. by intros ? [|] _ _.
  - apply wlp_execution_any, expire_unbound_plan_ok.
  - unfold expire_orphaned_creating_execution. split_guard. apply wlp_execution_any, expire_orphaned_plan_ok.
  - apply wlp_execution_any, reject_plan_ok.
  - unfold retire_inactive_execution. case_match eqn:E; [by cbn|]. by apply wlp_execution_any, retire_plan_ok.
  - unfold retire_rejected_execution. case_match; [by cbn|].
    unfold retire_inactive_execution. case_match eqn:E; [by cbn|]. by apply wlp_execution_any, retire_plan_ok.
  - apply wlp_execution_any, clear_plan_ok.
  - by apply wlp_recover_replica.
  - apply wlp_reap_empty.
Qed.

(** ** Steps *)

Lemma ctx_ok_ghost g g' b a id j c :
  ghost_le g g' -> (retired g' id -> retired g id) -> ctx_ok g b a id j c -> ctx_ok g' b a id j c.
Proof.
  intros [Hh Hr He] Hnr []. constructor; eauto. intros op e Ho. destruct (co_entry0 _ _ Ho). auto.
Qed.

(** The store and the writes in flight change, and one task with them. *)
Lemma sys_inv_act g g' s srv l id (t : option Task) :
  sys_inv g s -> ghost_le g g' -> ent g' = ent g ->
  (forall op, op <> id -> retired g' op -> retired g op) -> id ∈ used s ->
  store_inv g' (booted s) (alive s) srv -> Forall (write_sem g' (booted s) (alive s)) l ->
  (forall t', t = Some t' -> task_ok g' (booted s) (alive s) id t') ->
  sys_inv g' (with_tasks (with_limbo (with_store s srv) l)
                (match t with Some t => <[id := t]> (tasks s) | None => delete id (tasks s) end)).
Proof.
  intros Hs Hle Hent Hother Hid Hstore Hlimbo Ht.
  assert (Hset : forall id' t', (match t with Some t => <[id := t]> (tasks s) | None => delete id (tasks s) end) !! id' = Some t' ->
            (id' = id /\ t = Some t') \/ (id' <> id /\ tasks s !! id' = Some t')).
  { intros id' t'. destruct t as [t|].
    - intros [[-> ->]|[? ?]]%lookup_insert_Some; auto.
    - intros [? ?]%lookup_delete_Some. auto. }
  destruct Hs. constructor; cbn; auto.
  - rewrite Hent. auto.
  - intros op Hop. destruct (decide (op = id)) as [->|]; auto.
  - intros id' t' [[-> _]|[_ H]]%Hset; eauto.
  - intros id' t' [[-> H]|[Hne H]]%Hset; [auto|]. eapply task_ok_mono; [done|by apply Hother|done|]. auto.
  - intros x Hx. eapply answer_fact_mono; [apply (gl_hist _ _ Hle)|auto].
Qed.

Lemma with_same s : with_limbo (with_store s (server s)) (limbo s) = s.
Proof. by destruct s. Qed.

Lemma limbo_mono g g' b a l :
  ghost_le g g' -> Forall (write_sem g b a) l -> Forall (write_sem g' b a) l.
Proof. intros Hle H. eapply Forall_impl; [done|]. intros w. by apply write_sem_mono. Qed.

(** One task moves on, learning nothing that the store does not know. *)
Lemma sys_inv_move g s id t :
  sys_inv g s -> id ∈ used s -> task_ok g (booted s) (alive s) id t -> sys_inv g (set_task s id t).
Proof.
  intros Hs Hid Ht. pose proof (sys_inv_act g g s (server s) (limbo s) id (Some t)) as H.
  rewrite with_same in H. apply H; [done|done|done|auto|done|apply Hs|apply Hs|]. by intros ? [= <-].
Qed.

Lemma sys_inv_answer g s a : sys_inv g s -> answer_fact (hist g) a -> sys_inv g (with_answer s a).
Proof.
  intros [] Ha. constructor; cbn; auto. intros x [->|Hx]%elem_of_cons; auto.
Qed.

(** A write is applied for task [id]. *)
Lemma sys_inv_write g s id j armed w k srv r :
  sys_inv g s -> tasks s !! id = Some (Running j armed (WriteLease w k)) -> may_run s j ->
  apply_write (server s) w = (srv, r) ->
  exists g', ghost_le g g' /\ sys_inv g' (set_task (with_store s srv) id (Running j armed (k r))).
Proof.
  intros Hs Hid Hrun Ha. pose proof (in_used _ _ Hs _ _ Hid) as Hu.
  destruct (in_tasks _ _ Hs _ _ Hid) as (c & Hc & (f & Hw & Hk) & Harm & Hrel).
  pose proof (write_ok_sem _ _ _ _ _ _ _ Hs Hc Hrun Hw) as Hsem.
  destruct (apply_write_inv _ _ _ _ _ _ _ (store_inv_leaving _ _ _ _ f id (in_store _ _ Hs)) Hsem Ha)
    as (g' & Hle & Hret & Hent & Hstore & Hhist & Hans).
  assert (Hle' : ghost_le g g') by (etrans; [apply (ghost_le_leaving g f id)|done]).
  exists g'. split; [done|].
  assert (Hother : forall op, op <> id -> retired g' op -> retired g op)
    by (intros op Hne; rewrite Hret; by apply leaving_other).
  apply (sys_inv_act g g' s srv (limbo s) id (Some (Running j armed (k r)))); try done.
  - by apply (limbo_mono g), (in_limbo _ _ Hs).
  - intros ? [= <-]. exists (saw_answer (retire c f) r). split; [|split; [|split]].
    + apply ctx_ok_saw; [|done]. apply (ctx_ok_ghost (leaving g f id)); [done|by rewrite Hret|by apply ctx_ok_leaving].
    + apply Hk, Hans, Hc.
    + done.
    + intros r0 Hj. eapply (gl_retired _ _ Hle'), Hrel, Hj.
Qed.

(** The answer to a write is lost; the write may still be applied. *)
Lemma sys_inv_lost g s id j armed w k e :
  sys_inv g s -> tasks s !! id = Some (Running j armed (WriteLease w k)) -> may_run s j ->
  exists g', ghost_le g g'
    /\ sys_inv g' (set_task (with_limbo s (w :: limbo s)) id (Running j armed (k (Err e)))).
Proof.
  intros Hs Hid Hrun. pose proof (in_used _ _ Hs _ _ Hid) as Hu.
  destruct (in_tasks _ _ Hs _ _ Hid) as (c & Hc & (f & Hw & Hk) & Harm & Hrel).
  pose proof (write_ok_sem _ _ _ _ _ _ _ Hs Hc Hrun Hw) as Hsem.
  exists (leaving g f id). split; [apply ghost_le_leaving|].
  apply (sys_inv_act g (leaving g f id) s (server s) (w :: limbo s) id (Some (Running j armed (k (Err e))))); try done.
  - apply ghost_le_leaving.
  - intros op. apply leaving_other.
  - by apply store_inv_leaving, in_store.
  - constructor; [done|]. eapply limbo_mono; [apply ghost_le_leaving|apply Hs].
  - intros ? [= <-]. exists (saw_answer (retire c f) (Err e)). split; [|split; [|split]].
    + apply ctx_ok_saw; [by apply ctx_ok_leaving|done].
    + apply Hk. by destruct w.
    + done.
    + intros r0 Hj. left. by eapply Hrel.
Qed.

(** A task is abandoned. *)
Lemma sys_inv_abandon g s id j armed p :
  sys_inv g s -> tasks s !! id = Some (Running j armed p) -> may_run s j ->
  exists g', ghost_le g g'
    /\ sys_inv g' (end_task (with_limbo s (match p with WriteLease w _ => w :: limbo s | _ => limbo s end)) id).
Proof.
  intros Hs Hid Hrun. pose proof (in_used _ _ Hs _ _ Hid) as Hu.
  destruct (in_tasks _ _ Hs _ _ Hid) as (c & Hc & Hwlp & _).
  assert (exists f, Forall (write_sem (leaving g f id) (booted s) (alive s))
            (match p with WriteLease w _ => w :: limbo s | _ => limbo s end)) as [f Hf].
  { destruct p; try (exists false; eapply limbo_mono; [apply ghost_le_leaving|apply Hs]).
    destruct Hwlp as (f & Hw & _). exists f. constructor; [by eapply write_ok_sem|].
    eapply limbo_mono; [apply ghost_le_leaving|apply Hs]. }
  exists (leaving g f id). split; [apply ghost_le_leaving|].
  apply (sys_inv_act g (leaving g f id) s (server s) _ id None); try done.
  - apply ghost_le_leaving.
  - intros op. apply leaving_other.
  - by apply store_inv_leaving, in_store.
Qed.

(** The owner of an operation starts to leave. *)
Lemma sys_inv_leave g s id r (p : prog Outcome) c :
  sys_inv g s -> id ∈ used s -> reg_operation_id r = id -> ent g id = Some (gate_entry r) ->
  (forall o, seen c o -> hist g o) -> (forall x, dead c x -> gone (booted s) (alive s) x) ->
  self c = None -> own c = Some (id, gate_entry r) ->
  wlp L c p (post (JRelease r)) ->
  exists g', ghost_le g g' /\ sys_inv g' (set_task s id (Running (JRelease r) None p)).
Proof.
  intros Hs Hid Hop Hent Hseen Hdead Hself Hown Hw.
  exists (leaving g true id). split; [apply ghost_le_leaving|].
  pose proof (sys_inv_act g (leaving g true id) s (server s) (limbo s) id (Some (Running (JRelease r) None p))) as H.
  rewrite with_same in H. apply H; try done.
  - apply ghost_le_leaving.
  - intros op. apply leaving_other.
  - by apply store_inv_leaving, in_store.
  - eapply limbo_mono; [apply ghost_le_leaving|apply Hs].
  - intros ? [= <-]. exists c. split; [|split; [done|split; [done|]]].
    + constructor; cbn; [auto|auto|done|by rewrite Hown, Hop| |eauto]. rewrite Hown. intros op e [= <- <-]. done.
    + intros r0 _. by right.
Qed.

(** The entry of a guard is the one its operation stands for. *)
Lemma holding_entry g s id r :
  sys_inv g s -> tasks s !! id = Some (Holding r) -> reg_operation_id r = id /\ ent g id = Some (gate_entry r).
Proof.
  intros Hs Hid. destruct (in_tasks _ _ Hs _ _ Hid) as (Hop & _ & o & Ho & (_ & _ & _ & Hg & m & Hm & He)).
  split; [done|]. destruct (si_view _ _ _ _ (in_store _ _ Hs) o Ho Hg) as (v & Hv & _ & Hent).
  rewrite <- Hop. apply Hent. by rewrite (view_entries _ _ _ Hv Hm).
Qed.

Definition blank (id : string) (j : Job) : Ctx :=
  {| seen := fun _ => False; dead := fun _ => False; self := job_self j; own := job_own id j; retiring := false |}.

Lemma sys_inv_release g s ns id r :
  sys_inv g s -> id ∈ used s -> reg_operation_id r = id -> ent g id = Some (gate_entry r) ->
  exists g', ghost_le g g' /\ sys_inv g' (set_task s id (Running (JRelease r) None (release_prog ns r))).
Proof.
  intros Hs Hid Hop Hent. apply (sys_inv_leave g s id r _ (blank id (JRelease r))); try done; cbn.
  - by rewrite Hop.
  - apply wlp_release_prog. cbn. eauto.
Qed.

(** A new task. *)
Lemma sys_inv_start g s ns sns id j :
  sys_inv g s -> id ∉ used s -> may_run s j -> (forall r, j <> JRelease r) ->
  exists g', ghost_le g g' /\ sys_inv g' (set_task (with_used s id) id (Running j None (job_prog L ns sns id j))).
Proof.
  intros Hs Hid Hrun Hnr.
  assert (Hnone : ent g id = None).
  { destruct (ent g id) as [e|] eqn:E; [|done]. by destruct (in_ent _ _ Hs _ _ E). }
  assert (Hfresh : ~ retired g id) by (intros H; by apply (in_retired _ _ Hs) in H).
  set (g' := {| hist := hist g; retired := retired g;
                ent := fun op => if decide (op = id) then snd <$> job_own id j else ent g op |}).
  assert (Hle : ghost_le g g').
  { constructor; cbn; auto. intros op e He. rewrite decide_False; [done|]. congruence. }
  exists g'. split; [done|]. destruct Hs. constructor; cbn; auto.
  - by apply (store_inv_ghost g).
  - by eapply limbo_mono.
  - intros op e. case_decide as E.
    + subst op. destruct j; cbn; try done; [|by destruct (Hnr g0)]. intros [= <-]. split; [apply elem_of_union; left; by apply elem_of_singleton|].
      cbn. by apply in_alive0, Hrun.
    + intros [? ?]%in_ent0. split; [by apply elem_of_union_r|done].
  - intros op Hop%in_retired0. by apply elem_of_union_r.
  - intros id' t [[-> _]|[_ Ht]]%lookup_insert_Some; [apply elem_of_union; left; by apply elem_of_singleton|].
    apply elem_of_union_r. by eapply in_used0.
  - intros id' t [[<- <-]|[Hne Ht]]%lookup_insert_Some; [|eapply task_ok_mono; eauto].
    exists (blank id j). split; [|split; [by apply wlp_job|split; [done|intros r Hr; by destruct (Hnr r)]]].
    constructor; cbn; try done. intros op e. rewrite decide_True by done.
    destruct j; cbn; try done; [|by destruct (Hnr g0)]. by intros [= <- <-].
Qed.

(** Replicas. *)
Lemma sys_inv_boot g s r :
  sys_inv g s -> r ∉ booted s -> pods s !! (rep_namespace r, rep_pod_name r) = Some (rep_pod_uid r) ->
  (forall r', r' ∈ alive s -> rep_namespace r' = rep_namespace r -> rep_pod_name r' <> rep_pod_name r) ->
  sys_inv g (with_alive s ({[r]} ∪ alive s) ({[r]} ∪ booted s)).
Proof.
  intros Hs Hb Hp Hslot.
  assert (Hgone : forall x, gone (booted s) (alive s) x -> gone ({[r]} ∪ booted s) ({[r]} ∪ alive s) x).
  { intros x [H1 H2]. split; [by apply elem_of_union_r|].
    intros [->%elem_of_singleton|?]%elem_of_union; done. }
  pose proof (in_ent _ _ Hs) as Hent. destruct Hs. constructor; cbn; auto.
  - destruct in_store0. constructor; auto.
    intros o v op e Ho Hg Hv He Hret [Heq%elem_of_singleton|Hal]%elem_of_union; [|eauto].
    exfalso. destruct (si_view0 o Ho Hg) as (v' & Hv' & _ & Hin). assert (v' = v) as -> by congruence.
    apply Hb. rewrite <- Heq. by eapply Hent, Hin.
  - eapply Forall_impl; [done|]. intros w. by apply write_sem_mono.
  - intros x [->%elem_of_singleton|Hx]%elem_of_union; [split; [apply elem_of_union; left; by apply elem_of_singleton|done]|].
    destruct (in_alive0 _ Hx). split; [by apply elem_of_union_r|done].
  - intros x y [->%elem_of_singleton|Hx]%elem_of_union [->%elem_of_singleton|Hy]%elem_of_union E1 E2; auto.
    + by destruct (Hslot y).
    + by destruct (Hslot x).
  - intros op e He. destruct (Hent _ _ He). split; [done|]. by apply elem_of_union_r.
  - intros id t Ht. eapply task_ok_mono; [done|done|exact Hgone|auto].
Qed.

Lemma sys_inv_exit g s r : sys_inv g s -> sys_inv g (with_alive s (alive s ∖ {[r]}) (booted s)).
Proof.
  intros Hs.
  assert (Hgone : forall x, gone (booted s) (alive s) x -> gone (booted s) (alive s ∖ {[r]}) x).
  { intros x [H1 H2]. split; [done|]. by intros [? _]%elem_of_difference. }
  destruct Hs. constructor; cbn; auto.
  - destruct in_store0. constructor; auto.
    intros o v op e Ho Hg Hv He Hret [Hal _]%elem_of_difference. eauto.
  - eapply Forall_impl; [done|]. intros w. by apply write_sem_mono.
  - intros x [Hx _]%elem_of_difference. auto.
  - intros x y [Hx _]%elem_of_difference [Hy _]%elem_of_difference. auto.
  - intros id t Ht. eapply task_ok_mono; [done|done|exact Hgone|auto].
Qed.

(** The store changes on its own. *)
Lemma sys_inv_store g g' s srv :
  sys_inv g s -> ghost_le g g' -> ent g' = ent g -> retired g' = retired g ->
  store_inv g' (booted s) (alive s) srv -> sys_inv g' (with_store s srv).
Proof.
  intros [] Hle Hent Hret Hstore. constructor; cbn; auto.
  - by eapply limbo_mono.
  - by rewrite Hent.
  - by rewrite Hret.
  - intros id t Ht. eapply task_ok_mono; [done|by rewrite Hret|done|auto].
  - intros x Hx. eapply answer_fact_mono; [apply (gl_hist _ _ Hle)|auto].
Qed.

(** ** Preservation *)

Lemma sys_inv_step ns sns g s s' :
  sys_inv g s -> ledger_step L ns sns s s' -> exists g', ghost_le g g' /\ sys_inv g' s'.
Proof.
  intros Hs Hstep. destruct Hstep as
    [id j Hid Hrun Hnr|id j armed name k r Hid Hrun Hr|id j armed w k srv r Hid Hrun Ha
    |id j armed w k e Hid Hrun|id j armed k r Hid Hrun Hr|id j armed pns name k r Hid Hrun Hr
    |id j armed pns k r Hid Hrun|id j armed g0 k Hid Hrun|id j armed g0 Hid Hrun|id j armed o Hid Hrun Ho
    |id r Hid Hal|id j r p Hid Hrun|id r armed e Hid Hrun|id j armed p Hid Hrun|w before after srv r Hl Ha
    |r Hb Hp Hslot|r|pns name uid Hp|pns name Hp|o uid Hg Hp|name Hg Hp].
  - by eapply sys_inv_start.
  - exists g. split; [done|]. pose proof (in_used _ _ Hs _ _ Hid).
    destruct (in_tasks _ _ Hs _ _ Hid) as (c & Hc & Hw & ? & ?).
    apply sys_inv_move; [done|done|]. exists (saw_answer c r). split; [|split; [|done]].
    + apply ctx_ok_saw; [done|]. intros o ->. destruct Hr as [Hr|(e & ? & _)]; [|done].
      unfold get_object in Hr. case_match eqn:Eo; [|done]. injection Hr as ->.
      by apply (si_current _ _ _ _ (in_store _ _ Hs)) in Eo as [? _].
    + apply Hw. intros o ->. destruct Hr as [Hr|(e & ? & _)]; [|done].
      unfold get_object in Hr. case_match eqn:Eo; [|done]. injection Hr as ->.
      by apply (si_current _ _ _ _ (in_store _ _ Hs)) in Eo as [_ ?].
  - by eapply sys_inv_write.
  - by eapply sys_inv_lost.
  - exists g. split; [done|]. pose proof (in_used _ _ Hs _ _ Hid).
    destruct (in_tasks _ _ Hs _ _ Hid) as (c & Hc & Hw & ? & ?).
    apply sys_inv_move; [done|done|]. eexists. split; [|split; [apply Hw|done]].
    apply ctx_ok_saw; [done|]. intros o (l & -> & Hin). destruct Hr as [[= ->]|[e ?]]; [|done].
    unfold list_objects in Hin. apply list_elem_of_fmap in Hin as ([name o'] & -> & Hin).
    apply elem_of_btree_iter in Hin. by apply (si_current _ _ _ _ (in_store _ _ Hs)) in Hin as [? _].
  - exists g. split; [done|]. pose proof (in_used _ _ Hs _ _ Hid).
    destruct (in_tasks _ _ Hs _ _ Hid) as (c & Hc & Hw & ? & ?).
    apply sys_inv_move; [done|done|]. eexists. split; [|split; [apply Hw|done]]. by eapply ctx_ok_learn.
  - exists g. split; [done|]. pose proof (in_used _ _ Hs _ _ Hid).
    destruct (in_tasks _ _ Hs _ _ Hid) as (c & Hc & Hw & ? & ?).
    apply sys_inv_move; [done|done|]. exists c. split; [done|]. split; [apply Hw|done].
  - exists g. split; [done|]. pose proof (in_used _ _ Hs _ _ Hid).
    destruct (in_tasks _ _ Hs _ _ Hid) as (c & Hc & [Hown Hw] & ? & ?).
    apply sys_inv_move; [done|done|]. exists c. split; [done|]. split; [done|]. split; [by intros ? [= <-]|done].
  - exists g. split; [done|]. pose proof (in_used _ _ Hs _ _ Hid).
    destruct (in_tasks _ _ Hs _ _ Hid) as (c & Hc & [Hf Hacq] & ? & ?).
    destruct Hacq as (Hret & Hown & Hrep & o & Ho & Hent).
    apply sys_inv_move; [by apply sys_inv_answer|done|].
    destruct (co_entry _ _ _ _ _ _ Hc _ _ Hown) as [Hop _]. split; [done|]. split.
    + intros Hr. destruct (co_retired _ _ _ _ _ _ Hc Hr) as [?|[r ->]]; [congruence|].
      by destruct Hrep as (? & ? & ?).
    + exists o. split; [by apply (co_seen _ _ _ _ _ _ Hc)|done].
  - pose proof (in_used _ _ Hs _ _ Hid).
    destruct (in_tasks _ _ Hs _ _ Hid) as (c & Hc & [Hf _] & Harm & ?).
    assert (Hs' : sys_inv g (with_answer s (j, o))).
    { apply sys_inv_answer; [done|]. eapply answer_fact_mono; [|done]. apply (co_seen _ _ _ _ _ _ Hc). }
    destruct armed as [r|].
    + destruct (co_entry _ _ _ _ _ _ Hc _ _ (Harm _ eq_refl)) as [Hop Hent]. by eapply sys_inv_release.
    + exists g. split; [done|].
      pose proof (sys_inv_act g g (with_answer s (j, o)) (server s) (limbo s) id None) as H'.
      apply H'; try done; auto; apply Hs.
  - destruct (holding_entry _ _ _ _ Hs Hid). pose proof (in_used _ _ Hs _ _ Hid). by eapply sys_inv_release.
  - pose proof (in_used _ _ Hs _ _ Hid). destruct (in_tasks _ _ Hs _ _ Hid) as (c & Hc & Hw & Harm & ?).
    pose proof (Harm _ eq_refl) as Hown. destruct (co_entry _ _ _ _ _ _ Hc _ _ Hown) as [Hop Hent].
    assert (Hself : self c = None).
    { rewrite (co_self _ _ _ _ _ _ Hc). rewrite (co_own _ _ _ _ _ _ Hc) in Hown. by destruct j. }
    apply (sys_inv_leave g s id r _ c); try done; [apply Hc|apply Hc|by rewrite Hown, Hop|].
    destruct p; cbn [drop_prog]; try (apply wlp_release_prog; eauto; fail).
    destruct Hw as (f & Hw & _). exists f. split; [done|]. intros r0 _. apply wlp_release_prog. cbn. eauto.
  - pose proof (in_used _ _ Hs _ _ Hid). destruct (in_tasks _ _ Hs _ _ Hid) as (c & Hc & _ & _ & _).
    pose proof (co_own _ _ _ _ _ _ Hc) as Hown. destruct (co_entry _ _ _ _ _ _ Hc _ _ Hown) as [Hop Hent].
    by eapply sys_inv_release.
  - by eapply sys_inv_abandon.
  - pose proof (in_limbo _ _ Hs) as Hlimbo. rewrite Hl in Hlimbo.
    apply Forall_app in Hlimbo as [H1 [Hw H2]%Forall_cons].
    destruct (apply_write_inv _ _ _ _ _ _ _ (in_store _ _ Hs) Hw Ha) as (g' & Hle & Hret & Hent & Hstore & _).
    exists g'. split; [done|]. apply (sys_inv_store g g' (with_limbo s (before ++ after)) srv); try done.
    destruct Hs. constructor; auto. by apply Forall_app.
  - exists g. split; [done|]. by apply sys_inv_boot.
  - exists g. split; [done|]. by apply sys_inv_exit.
  - exists g. split; [done|]. destruct Hs. constructor; cbn; auto.
    intros r Hr. destruct (in_alive0 _ Hr) as [? Hpr]. split; [done|]. rewrite lookup_insert_ne; [done|].
    intros Heq. rewrite Heq in Hp. congruence.
  - exists g. split; [done|]. destruct Hs. constructor; cbn; auto.
    intros r Hr. destruct (in_alive0 _ Hr) as [? Hpr]. split; [done|]. rewrite lookup_delete_ne; [done|].
    intros [= ? ?]. by apply (Hp r).
  - set (o' := stamped o uid _). exists (remember g o'). split; [apply ghost_le_remember|].
    apply (sys_inv_store g); [done|apply ghost_le_remember|done|done|].
    apply store_inv_insert; [apply Hs|done|cbn; congruence..].
  - exists g. split; [done|]. apply (sys_inv_store g); [done..|].
    apply store_inv_delete; [apply Hs|congruence].
Qed.

Lemma sys_inv_initial s : initial s -> sys_inv {| hist := fun _ => False; retired := fun _ => False; ent := fun _ => None |} s.
Proof.
  intros (H1 & H2 & H3 & H4 & H5 & H6). constructor; rewrite ?H3, ?H4, ?H5, ?H6; try done.
  - constructor; try done. intros n o. by rewrite H1.
  - intros a Ha. by apply elem_of_nil in Ha.
Qed.

Lemma sys_inv_steps ns sns g s s' :
  sys_inv g s -> rtc (ledger_step L ns sns) s s' -> exists g', ghost_le g g' /\ sys_inv g' s'.
Proof.
  intros Hs H. revert g Hs. induction H as [s|s m s' Hstep _ IH]; intros g Hs; [by exists g|].
  destruct (sys_inv_step _ _ _ _ _ Hs Hstep) as (g1 & Hle & H1).
  destruct (IH _ H1) as (g2 & Hle2 & H2). exists g2. split; [by etrans|done].
Qed.

Lemma reachable_inv ns sns s : reachable L ns sns s -> exists g, sys_inv g s.
Proof.
  intros (s0 & Hi & Hr). destruct (sys_inv_steps _ _ _ _ _ (sys_inv_initial _ Hi) Hr) as (g & _ & ?). eauto.
Qed.

End invariant.
