(* ===== verification/LedgerProps.v ===== *)
(** * LedgerProps: what the access ledger guarantees

    Theorems about every reachable state of the system of LedgerBarrier, about
    the wire format, and about a handler whatever the server answers it; with
    a concrete codec and a concrete run at which they apply. *)

From S2P Require Import Prelude Text Execution SandboxObjects LedgerApi AccessLedger LedgerCodec LedgerSteps LedgerBarrier LedgerInvariant.

Open Scope kobe_scope.

(** ** A concrete codec *)

Section countable_json.
Context {A : Type} `{Countable A}.

Fixpoint pos_text (p : positive) : string :=
  match p with xH => "" | xO p => "0" +:+ pos_text p | xI p => "1" +:+ pos_text p end.

Fixpoint text_pos (s : string) : positive :=
  match s with
  | EmptyString => 1
  | String c s => if Ascii.eqb c "1" then xI (text_pos s) else xO (text_pos s)
  end.

Lemma text_pos_text p : text_pos (pos_text p) = p.
Proof. induction p; cbn; by rewrite ?IHp. Qed.

(** A value as an object: a brace and the digits of its code. *)
Definition object_text (a : A) : string := "{" +:+ pos_text (countable.encode a).
Definition object_value (s : string) : option A :=
  match s with String _ s => countable.decode (text_pos s) | EmptyString => None end.

Lemma object_roundtrip a : object_value (object_text a) = Some a.
Proof. unfold object_value, object_text. cbn. rewrite text_pos_text. apply countable.decode_encode. Qed.
End countable_json.

Definition map_text {A} `{Countable A} (m : gmap string A) : string :=
  if decide (m = ∅) then "{}" else object_text m.
Definition map_value {A} `{Countable A} (s : string) : option (gmap string A) :=
  if String.eqb s "{}" then Some ∅ else object_value s.

Lemma object_text_brace {A} `{Countable A} (a : A) : object_text a <> "{}".
Proof. unfold object_text. destruct (countable.encode a); cbn; congruence. Qed.

Lemma map_roundtrip {A} `{Countable A} (m : gmap string A) : map_value (map_text m) = Some m.
Proof.
  unfold map_value, map_text. case_decide as E; [by subst|].
  destruct (String.eqb_spec (object_text m) "{}") as [Hc|_]; [by apply object_text_brace in Hc|].
  apply object_roundtrip.
Qed.

#[local] Instance GateEntry_countable : Countable GateEntry.
Proof.
  refine (inj_countable' (fun e => (ge_principal_hash e, ge_replica e))
    (fun '(a, b) => {| ge_principal_hash := a; ge_replica := b |}) _). by intros [].
Defined.
#[local] Instance PrincipalEntry_countable : Countable PrincipalEntry.
Proof.
  refine (inj_countable' (fun e => (pe_lease_uid e, pe_gate_name e, pe_replica e))
    (fun '(a, b, c) => {| pe_lease_uid := a; pe_gate_name := b; pe_replica := c |}) _). by intros [].
Defined.
#[local] Instance ExecutionCreationState_countable : Countable ExecutionCreationState.
Proof.
  refine (inj_countable' (fun s => match s with Creating => 0%nat | Bound => 1%nat | Rejected => 2%nat end)
    (fun n => match n with 0%nat => Creating | 1%nat => Bound | _ => Rejected end) _). by intros [].
Defined.
#[local] Instance ExecutionEntry_countable : Countable ExecutionEntry.
Proof.
  refine (inj_countable' (fun e => (ee_writer e, (ee_request_digest e, (ee_pod_uid e, (ee_reserved_at e, (ee_execution_uid e,
      (ee_creation_state e, ee_active e)))))))
    (fun '(g, (a, (b, (c, (d, (e, f)))))) => {| ee_request_digest := a; ee_pod_uid := b; ee_reserved_at := c;
       ee_execution_uid := d; ee_creation_state := e; ee_active := f; ee_writer := g |}) _). by intros [].
Defined.
#[local] Instance PackedExecution_countable : Countable PackedExecution.
Proof.
  refine (inj_countable' (fun e => (pk_digest e, pk_pod e, pk_at e, pk_uid e, pk_state e, pk_active e, pk_writer e))
    (fun '(a, b, c, d, e, f, g) => {| pk_digest := a; pk_pod := b; pk_at := c; pk_uid := d; pk_state := e;
       pk_active := f; pk_writer := g |}) _). by intros [].
Defined.
#[local] Instance CompactExecutions_eq_dec : EqDecision CompactExecutions. Proof. solve_decision. Defined.
#[local] Instance CompactExecutions_countable : Countable CompactExecutions.
Proof.
  refine (inj_countable' (fun e => (cx_pods e, cx_writers e, cx_entries e))
    (fun '(a, b, c) => {| cx_pods := a; cx_writers := b; cx_entries := c |}) _). by intros [].
Defined.
#[local] Instance AccessGateReference_eq_dec : EqDecision AccessGateReference. Proof. solve_decision. Defined.
#[local] Instance AccessGateReference_countable : Countable AccessGateReference.
Proof.
  refine (inj_countable' (fun e => (gate_ref_name e, gate_ref_uid e))
    (fun '(a, b) => {| gate_ref_name := a; gate_ref_uid := b |}) _). by intros [].
Defined.

Definition demo_codec : Codec :=
  {| gate_json := {| to_json m := Some (map_text m); from_json := map_value |};
     principal_json := {| to_json m := Some (map_text m); from_json := map_value |};
     executions_json := {| to_json m := Some (map_text m); from_json := map_value |};
     compact_json := {| to_json c := Some (object_text c); from_json := object_value |};
     reference_json := {| to_json c := Some (object_text c); from_json := object_value |};
     sha256_hex s := s |}.

Lemma demo_codec_laws : CodecLaws demo_codec.
Proof.
  constructor; cbn; try (intros ? ? [= <-]; first [apply map_roundtrip | apply object_roundtrip]); try done.
  intros m s [= <-]. unfold map_text. case_decide; [by exists "}"|]. unfold object_text. eauto.
Qed.
#[local] Existing Instance demo_codec_laws.

(** ** Theorems *)

Section theorems.
Context {C : Codec} {CL : CodecLaws C}.
Variable L : SandboxLimits.
Variables ledger_ns sandbox_ns : string.

(** Where a live guard is. *)
Lemma live_guard_inside s id g :
  reachable L ledger_ns sandbox_ns s -> tasks s !! id = Some (Holding g) -> reg_replica g ∈ alive s ->
  exists ghost c v, sys_inv L ghost s /\ objects (server s) !! reg_gate_name g = Some c
    /\ Some (reg_expected_gate_uid g) = l_uid c /\ reg_gate_uid g = l_uid c
    /\ gate_view c = Some v /\ v_entries v !! id = Some (gate_entry g).
Proof.
  intros [ghost Hs]%reachable_inv Hid Hal.
  destruct (in_tasks _ _ _ Hs _ _ Hid) as (Hop & Hret & o & Ho & (Hn & Hu & Hgu & Hg & m & Hm & He)).
  destruct (si_view _ _ _ _ _ (in_store _ _ _ Hs) o Ho Hg) as (v & Hv & _ & _).
  rewrite <- (view_entries _ _ _ Hv Hm) in He. rewrite Hop in He.
  destruct (si_inside _ _ _ _ _ (in_store _ _ _ Hs) o v id (gate_entry g) Ho Hg Hv He Hret Hal)
    as (c & v' & Hc & Huc & Hvc & Hec).
  exists ghost, c, v'. split; [done|]. split; [by rewrite <- Hn|]. split; [congruence|]. split; [congruence|]. done.
Qed.

(** C6. The barrier.  Once [close_and_drain] has answered [Drained] for a lease,
    in that state and in every later one, no live replica holds an access guard
    on that lease's gate: whatever handlers were racing, whichever requests were
    lost or applied late, cleanup never overlaps an operation. *)
Theorem drained_gate_has_no_live_guard s lease ref id g :
  reachable L ledger_ns sandbox_ns s -> (JDrain lease, ODrain (Ok Drained)) ∈ answers s ->
  persisted_gate_reference lease = Ok ref ->
  tasks s !! id = Some (Holding g) -> reg_replica g ∈ alive s ->
  reg_gate_uid g <> Some (gate_ref_uid ref).
Proof.
  intros Hr Ha Href Hid Hal Hgu.
  destruct (live_guard_inside _ _ _ Hr Hid Hal) as (ghost & c & v & Hs & Hc & _ & Huc & Hv & He).
  destruct (in_answers _ _ _ Hs _ Ha) as (lease' & [= <-] & o & rows & Ho & [Hg (ref' & Href' & Hu)] & Hvo).
  assert (ref' = ref) as -> by congruence.
  destruct (si_current _ _ _ _ _ (in_store _ _ _ Hs) _ _ Hc) as [Hhc Hnc].
  destruct (in_tasks _ _ _ Hs _ _ Hid) as (_ & _ & o1 & _ & (Hn1 & _ & _ & Hg1 & _)).
  assert (Hname : l_name o = l_name c).
  { eapply (si_name _ _ _ _ _ (in_store _ _ _ Hs)); try done; congruence. }
  destruct (si_latest _ _ _ _ _ (in_store _ _ _ Hs) o c Ho Hg) as (v0 & v1 & H0 & H1 & Hpath);
    [congruence | congruence |].
  assert (v0 = view false ∅ rows) as -> by congruence. assert (v1 = v) as -> by congruence.
  destruct (protocol_closed _ _ _ Hpath eq_refl) as [_ Hsub]. cbn in Hsub.
  pose proof (lookup_weaken _ _ _ _ He Hsub) as Hin. by rewrite lookup_empty in Hin.
Qed.

(** While a live replica holds a guard, the exact gate it entered is still
    stored, under the UID recorded at admission, and lists the operation with
    its principal and replica. *)
Theorem live_guards_stay_listed s id g :
  reachable L ledger_ns sandbox_ns s -> tasks s !! id = Some (Holding g) -> reg_replica g ∈ alive s ->
  exists gate entries, objects (server s) !! reg_gate_name g = Some gate
    /\ l_uid gate = Some (reg_expected_gate_uid g)
    /\ parse_entries gate = Ok entries /\ entries !! id = Some (gate_entry g).
Proof.
  intros Hr Hid Hal. destruct (live_guard_inside _ _ _ Hr Hid Hal) as (ghost & c & v & _ & Hc & Hu & _ & Hv & He).
  exists c, (v_entries v). split; [done|]. split; [done|]. split; [|done]. by apply gate_view_Some in Hv as (_ & ? & _).
Qed.

(** Two states of one gate, in time. *)
Lemma gate_later s s' name o name' o' :
  reachable L ledger_ns sandbox_ns s -> rtc (ledger_step L ledger_ns sandbox_ns) s s' -> objects (server s) !! name = Some o -> objects (server s') !! name' = Some o' ->
  gate_named name = true -> gate_named name' = true -> l_uid o = l_uid o' ->
  name' = name /\ exists v v', gate_view o = Some v /\ gate_view o' = Some v' /\ rtc (gate_protocol L) v v'.
Proof.
  intros [ghost Hs]%reachable_inv Hsteps Ho Ho' Hg Hg' Hu.
  destruct (sys_inv_steps _ _ _ _ _ _ Hs Hsteps) as (ghost' & Hle & Hs').
  destruct (si_current _ _ _ _ _ (in_store _ _ _ Hs) _ _ Ho) as [Hho Hn].
  destruct (si_current _ _ _ _ _ (in_store _ _ _ Hs') _ _ Ho') as [Hho' Hn'].
  apply (gl_hist _ _ Hle) in Hho. subst name name'.
  assert (l_name o = l_name o') as Hn by (by eapply (si_name _ _ _ _ _ (in_store _ _ _ Hs'))).
  split; [done|]. eapply (si_latest _ _ _ _ _ (in_store _ _ _ Hs')); try done; by rewrite Hn.
Qed.

(** C31. Refinement: between any two states of the system, a stored gate moves
    along the gate protocol: operations enter an open gate below the ceiling and
    leave, the gate closes once, rows are reserved and bound under the open gate
    only, move forward, and are retired when resolved under the closed one. *)
Theorem gate_refines_protocol s s' name o name' o' :
  reachable L ledger_ns sandbox_ns s -> rtc (ledger_step L ledger_ns sandbox_ns) s s' -> objects (server s) !! name = Some o -> objects (server s') !! name' = Some o' ->
  gate_named name = true -> gate_named name' = true -> l_uid o = l_uid o' ->
  exists v v', gate_view o = Some v /\ gate_view o' = Some v' /\ rtc (gate_protocol L) v v'.
Proof. intros. by eapply gate_later. Qed.

(** A closed gate is closed for good: it never reopens, no operation enters
    it, and no execution row in it is added, bound or made active again. *)
Theorem closed_gate_is_final s s' name o name' o' v :
  reachable L ledger_ns sandbox_ns s -> rtc (ledger_step L ledger_ns sandbox_ns) s s' -> objects (server s) !! name = Some o -> objects (server s') !! name' = Some o' ->
  gate_named name = true -> gate_named name' = true -> l_uid o = l_uid o' ->
  gate_view o = Some v -> v_open v = false ->
  exists v', gate_view o' = Some v' /\ v_open v' = false /\ v_entries v' ⊆ v_entries v
    /\ forall execution e', v_rows v' !! execution = Some e' -> ee_active e' = true ->
       exists e, v_rows v !! execution = Some e /\ ee_active e = true /\ ee_execution_uid e' = ee_execution_uid e.
Proof.
  intros Hr Hsteps Ho Ho' Hg Hg' Hu Hv Hclosed.
  destruct (gate_later _ _ _ _ _ _ Hr Hsteps Ho Ho' Hg Hg' Hu) as (_ & v0 & v' & Hv0 & Hv' & Hpath).
  assert (v0 = v) as -> by congruence. exists v'. split; [done|].
  destruct (protocol_closed _ _ _ Hpath Hclosed) as [? ?]. split; [done|]. split; [done|].
  intros execution e' He' Hact. destruct (v_rows v !! execution) as [e|] eqn:He.
  - exists e. split; [done|]. destruct (protocol_row_life _ _ _ _ _ Hpath He) as [(e1 & He1 & Hle & Huid)|[? _]]; [|congruence].
    assert (e1 = e') as -> by congruence. split; [by apply (row_le_active _ _ Hle)|auto].
  - exfalso. assert (v_rows v' !! execution = None); [|congruence].
    clear -Hpath Hclosed He. induction Hpath as [|v m v' Hs _ IH]; [done|].
    apply IH; [by eapply gate_step_closed in Hs as [? _] | by eapply gate_step_no_row].
Qed.

(** The configured ceilings hold of every stored gate and of every stored
    principal ledger, however many replicas race: operations per lease,
    executions per lease, operations per principal. *)
Theorem ledger_ceilings_hold s name o :
  reachable L ledger_ns sandbox_ns s -> objects (server s) !! name = Some o ->
  (gate_named name = true -> exists v, gate_view o = Some v
     /\ (0 < streams_per_lease L -> Z.of_nat (size (v_entries v)) <= streams_per_lease L)
     /\ (0 < executions_per_lease L -> Z.of_nat (size (v_rows v)) <= executions_per_lease L))
  /\ (principal_named name = true -> exists entries, parse_entries o = Ok (entries : gmap string PrincipalEntry)
     /\ (0 < streams_per_principal L -> Z.of_nat (size entries) <= streams_per_principal L)).
Proof.
  intros [ghost Hs]%reachable_inv Ho.
  destruct (si_current _ _ _ _ _ (in_store _ _ _ Hs) _ _ Ho) as [Hho <-]. split; intros Hg.
  - destruct (si_view _ _ _ _ _ (in_store _ _ _ Hs) o Hho Hg) as (v & Hv & [H1 H2] & _).
    exists v. split; [done|]. unfold within in *. lia.
  - destruct (si_principal _ _ _ _ _ (in_store _ _ _ Hs) o Hho Hg) as (m & Hm & H).
    exists m. split; [done|]. unfold within in *. lia.
Qed.

(** The row an answered bind saw. *)
Lemma bound_fact_view ghost s lease execution :
  sys_inv L ghost s -> bound_fact (hist ghost) lease execution ->
  exists o v e uid, hist ghost o /\ gate_of lease o /\ gate_view o = Some v /\ v_open v = true
    /\ v_rows v !! se_name execution = Some e /\ se_uid execution = Some uid /\ ee_execution_uid e = Some uid
    /\ ee_request_digest e = exec_request_digest (se_spec execution) /\ ee_pod_uid e = exec_pod_uid (se_spec execution).
Proof.
  intros Hs (o & rows & e & uid & Ho & Hgo & Hopen & Hrows & He & Hu & Heu & _ & Hd & Hp).
  destruct (si_view _ _ _ _ _ (in_store _ _ _ Hs) o Ho) as (v & Hv & _ & _); [apply Hgo|].
  exists o, v, e, uid. rewrite (view_rows _ _ _ Hv Hrows).
  pose proof (view_open_state _ _ Hv) as Hvo. rewrite bool_decide_eq_true_2 in Hvo by done. done.
Qed.

(** Bound rows under one open gate agree. *)
Lemma bound_rows_agree v1 v2 name e1 e2 uid1 uid2 :
  rtc (gate_protocol L) v1 v2 -> v_open v2 = true ->
  v_rows v1 !! name = Some e1 -> v_rows v2 !! name = Some e2 ->
  ee_execution_uid e1 = Some uid1 -> ee_execution_uid e2 = Some uid2 ->
  uid1 = uid2 /\ ee_request_digest e1 = ee_request_digest e2 /\ ee_pod_uid e1 = ee_pod_uid e2.
Proof.
  intros Hpath Hopen H1 H2 Hu1 Hu2.
  destruct (protocol_row_life _ _ _ _ _ Hpath H1) as [(e & He & Hle & _)|[_ ?]]; [|congruence].
  assert (e = e2) as -> by congruence. apply (row_le_uid _ _ Hle) in Hu1.
  rewrite (row_le_digest _ _ Hle), (row_le_pod _ _ Hle). split; [congruence|done].
Qed.

(** At most one execution object is ever licensed to start under one
    reservation: any two positive answers of [bind_execution_capacity] for the
    same gate and execution name, on any replicas, are for the same object UID,
    request digest and Pod. *)
Theorem one_execution_per_reservation s lease lease' execution execution' ref ref' :
  reachable L ledger_ns sandbox_ns s ->
  (JBind lease execution, OBind (Ok true)) ∈ answers s ->
  (JBind lease' execution', OBind (Ok true)) ∈ answers s ->
  persisted_gate_reference lease = Ok ref -> persisted_gate_reference lease' = Ok ref' ->
  gate_ref_uid ref = gate_ref_uid ref' -> se_name execution = se_name execution' ->
  se_uid execution = se_uid execution'
  /\ exec_request_digest (se_spec execution) = exec_request_digest (se_spec execution')
  /\ exec_pod_uid (se_spec execution) = exec_pod_uid (se_spec execution').
Proof.
  intros [ghost Hs]%reachable_inv H1 H2 Hr1 Hr2 Href Hname.
  destruct (in_answers _ _ _ Hs _ H1) as (? & ? & [= <- <-] & (o1 & v1 & e1 & u1 & Ho1 & [Hg1 (r1 & Hr1' & Hu1)] & Hv1 & Hop1 & He1 & Hs1 & Hx1 & Hd1 & Hp1)%(bound_fact_view _ s)); [|done].
  destruct (in_answers _ _ _ Hs _ H2) as (? & ? & [= <- <-] & (o2 & v2 & e2 & u2 & Ho2 & [Hg2 (r2 & Hr2' & Hu2)] & Hv2 & Hop2 & He2 & Hs2 & Hx2 & Hd2 & Hp2)%(bound_fact_view _ s)); [|done].
  rewrite <- Hd1, <- Hd2, <- Hp1, <- Hp2, Hs1, Hs2. rewrite <- Hname in He2.
  destruct (si_chain _ _ _ _ _ (in_store _ _ _ Hs) o1 o2) as [(w1 & w2 & E1 & E2 & Hpath)|(w2 & w1 & E2 & E1 & Hpath)];
    try done; [congruence|..]; assert (w1 = v1) as -> by congruence; assert (w2 = v2) as -> by congruence.
  - destruct (bound_rows_agree _ _ _ _ _ _ _ Hpath Hop2 He1 He2 Hx1 Hx2) as (-> & ? & ?). done.
  - destruct (bound_rows_agree _ _ _ _ _ _ _ Hpath Hop1 He2 He1 Hx2 Hx1) as (-> & ? & ?). done.
Qed.
End theorems.

(** ** Running one task of the system alone *)

Section play.
Context {C : Codec}.
Variable L : SandboxLimits.
Variables ledger_ns sandbox_ns : string.

Definition read_pod (pods : gmap (string * string) string) (ns name : string) : result Pod kube_error :=
  match pods !! (ns, name) with
  | Some uid => Ok {| pod_meta_name := name; pod_meta_namespace := Some ns; pod_meta_uid := Some uid |}
  | None => Err not_found
  end.

Fixpoint exec_prog {R : Type} (srv : Server) (pods : gmap (string * string) string) (armed : option ReleaseRegistration)
    (p : prog R) : Server * option ReleaseRegistration * R :=
  match p with
  | Ret r => (srv, armed, r)
  | GetLease n k => exec_prog srv pods armed (k (get_object srv n))
  | WriteLease w k => let '(srv, r) := apply_write srv w in exec_prog srv pods armed (k r)
  | ListLeases k => exec_prog srv pods armed (k (Ok (list_objects srv)))
  | GetPod ns n k => exec_prog srv pods armed (k (read_pod pods ns n))
  | ListSandboxes _ k => exec_prog srv pods armed (k (Err Transport))
  | Arm g k => exec_prog srv pods (Some g) k
  end.

Lemma set_task_twice s srv srv' id t t' :
  set_task (with_store (set_task (with_store s srv) id t) srv') id t' = set_task (with_store s srv') id t'.
Proof. unfold set_task, with_tasks, with_store. cbn. by rewrite insert_insert_eq. Qed.

Lemma with_store_same s : with_store s (server s) = s.
Proof. by destruct s. Qed.

Lemma exec_prog_steps p : forall s id j armed srv armed' o,
  tasks s !! id = Some (Running j armed p) -> may_run s j ->
  exec_prog (server s) (pods s) armed p = (srv, armed', o) ->
  rtc (ledger_step L ledger_ns sandbox_ns) s (set_task (with_store s srv) id (Running j armed' (Ret o))).
Proof.
  induction p as [r|n k IH|w k IH|k IH|ns n k IH|ns k IH|g k IH]; intros s id j armed srv armed' o Hid Hrun He; cbn in He.
  - injection He as <- <- <-. rewrite with_store_same. unfold set_task, with_tasks.
    rewrite insert_id by done. destruct s. apply rtc_refl.
  - eapply rtc_l; [by apply (ls_get _ _ _ _ id j armed n k (get_object (server s) n)); [done|done|left]|].
    pose proof (set_task_twice s (server s) srv id) as E. rewrite with_store_same in E. rewrite <- (E (Running j armed (k (get_object (server s) n)))).
    eapply IH; [by apply lookup_insert_eq|done|done].
  - destruct (apply_write (server s) w) as [srv1 r] eqn:Ew. eapply rtc_l; [by eapply ls_write|].
    rewrite <- (set_task_twice s srv1 srv id (Running j armed (k r))).
    eapply IH; [by apply lookup_insert_eq|done|done].
  - eapply rtc_l; [by apply (ls_list _ _ _ _ id j armed k (Ok (list_objects (server s)))); [done|done|left]|].
    pose proof (set_task_twice s (server s) srv id) as E. rewrite with_store_same in E.
    rewrite <- (E (Running j armed (k (Ok (list_objects (server s)))))).
    eapply IH; [by apply lookup_insert_eq|done|done].
  - eapply rtc_l; [apply (ls_pod _ _ _ _ id j armed ns n k (read_pod (pods s) ns n)); [done|done|]|].
    { unfold read_pod, pod_answer. destruct (pods s !! (ns, n)) eqn:Ep; [eauto|done]. }
    pose proof (set_task_twice s (server s) srv id) as E. rewrite with_store_same in E.
    rewrite <- (E (Running j armed (k (read_pod (pods s) ns n)))).
    eapply IH; [by apply lookup_insert_eq|done|done].
  - eapply rtc_l; [by apply (ls_sandboxes _ _ _ _ id j armed ns k (Err Transport))|].
    pose proof (set_task_twice s (server s) srv id) as E. rewrite with_store_same in E.
    rewrite <- (E (Running j armed (k (Err Transport)))).
    eapply IH; [by apply lookup_insert_eq|done|done].
  - eapply rtc_l; [by eapply ls_arm|].
    pose proof (set_task_twice s (server s) srv id) as E. rewrite with_store_same in E.
    rewrite <- (E (Running j (Some g) k)).
    eapply IH; [by apply lookup_insert_eq|done|done].
Qed.

(** A job from its start to its answer. *)
Definition play (s : Sys) (id : string) (j : Job) : Sys :=
  let '(srv, armed, o) := exec_prog (server s) (pods s) None (job_prog L ledger_ns sandbox_ns id j) in
  let s := with_answer (with_store (with_used s id) srv) (j, o) in
  match o with
  | OAcquire (Ok (Acquired g)) => set_task s id (Holding g)
  | _ => match armed with
         | Some g => set_task s id (Running (JRelease g) None (release_prog ledger_ns g))
         | None => end_task s id
         end
  end.

Lemma play_steps s id j :
  id ∉ used s -> may_run s j -> (forall g, j <> JRelease g) ->
  rtc (ledger_step L ledger_ns sandbox_ns) s (play s id j).
Proof.
  intros Hid Hrun Hj. unfold play.
  destruct (exec_prog (server s) (pods s) None _) as [[srv armed] o] eqn:E.
  eapply rtc_l; [by apply (ls_start _ _ _ _ id j)|].
  etrans; [eapply exec_prog_steps; [by apply lookup_insert_eq|done|exact E]|].
  set (s1 := set_task _ id _). assert (Hs1 : tasks s1 !! id = Some (Running j armed (Ret o))) by (by apply lookup_insert_eq).
  assert (Hset : forall t, set_task (with_answer s1 (j, o)) id t = set_task (with_answer (with_store (with_used s id) srv) (j, o)) id t).
  { intros t. subst s1. unfold set_task, with_tasks. cbn. by rewrite !insert_insert_eq. }
  assert (Hend : end_task (with_answer s1 (j, o)) id = end_task (with_answer (with_store (with_used s id) srv) (j, o)) id).
  { subst s1. unfold set_task, end_task, with_tasks. cbn. by rewrite !delete_insert_eq. }
  assert (Hanswer : (forall g, o <> OAcquire (Ok (Acquired g))) ->
    rtc (ledger_step L ledger_ns sandbox_ns) s1
      (match armed with
       | Some g => set_task (with_answer (with_store (with_used s id) srv) (j, o)) id
                     (Running (JRelease g) None (release_prog ledger_ns g))
       | None => end_task (with_answer (with_store (with_used s id) srv) (j, o)) id
       end)).
  { intros Hno. pose proof (ls_answer L ledger_ns sandbox_ns s1 id j armed o Hs1 Hrun Hno) as Hstep.
    rewrite Hend in Hstep. apply rtc_once. destruct armed; [by rewrite <- Hset|done]. }
  destruct o as [[[g| |]|]| | | | |]; try (by apply Hanswer).
  rewrite <- Hset. apply rtc_once. by eapply ls_acquired.
Qed.
End play.

(** ** A concrete run

    One replica; lease [a], whose gate is drained; lease [b], whose gate one
    operation has entered and where one execution was reserved and bound. *)
Definition demo_limits : SandboxLimits :=
  {| stream_bytes := 0; stream_idle_seconds := 0; stream_duration_seconds := 0; executions_per_lease := 4;
     streams_per_lease := 2; streams_per_principal := 3; output_bytes := 0; stdin_bytes := 0; log_tail_lines := 0;
     legacy_exec_seconds := 0; admission_burst := 0 |}.

Definition demo_replica : ServingReplica :=
  {| rep_namespace := "kobe"; rep_pod_name := "api-0"; rep_pod_uid := "pod-1"; rep_boot_id := "boot-1" |}.

Definition demo_lease (name uid gate_uid : string) : SandboxLease :=
  {| sbx_name := name; sbx_namespace := Some "sandboxes"; sbx_uid := Some uid;
     sbx_annotations := {[ ACCESS_GATE_ANNOTATION :=
       object_text {| gate_ref_name := gate_name (C := demo_codec) uid; gate_ref_uid := gate_uid |} ]};
     sbx_deletion_timestamp := None;
     sbx_pool_ref := {| pool_ref_name := "pool"; pool_ref_uid := "pool-uid"; pool_ref_generation := 1 |};
     sbx_alias := None; sbx_requester := {| pr_provider := "oidc"; pr_issuer := "issuer"; pr_identity := "alice" |};
     sbx_status := None |}.

Definition lease_a : SandboxLease := demo_lease "a" "sbx-a" "uid-1".
Definition lease_b : SandboxLease := demo_lease "b" "sbx-b" "uid-2".

Definition demo_digest : string := "0123456789abcdef0123456789abcdef0123456789abcdef0123456789abcdef".
Definition demo_execution : SandboxExecution :=
  {| se_name := "sbxe-1"; se_uid := Some "exec-1";
     se_spec := {| exec_lease_name := Some "b"; exec_lease_uid := "sbx-b"; exec_pod_uid := "target-pod";
                   exec_idempotency_key := "k"; exec_request_digest := demo_digest; exec_timeout := "60s";
                   exec_detached := false; exec_runner_managed := Some true; exec_target := None |};
     se_status := None |}.

Definition demo_start : Sys :=
  {| server := {| objects := ∅; next_version := 1 |}; pods := {[ ("kobe", "api-0") := "pod-1" ]}; alive := ∅;
     booted := ∅; tasks := ∅; used := ∅; limbo := []; answers := [] |}.

Definition demo_jobs : list (string * Job) :=
  [("1", JPrepare lease_a); ("2", JPrepare lease_b); ("3", JDrain lease_a); ("4", JDrain lease_a);
   ("5", JAcquire lease_b "alice" demo_replica);
   ("6", JReserve lease_b "sbxe-1" demo_digest "target-pod" (Some demo_replica) (fun _ => "now"));
   ("7", JBind lease_b demo_execution)].

Definition play_all (s : Sys) (jobs : list (string * Job)) : Sys :=
  fold_left (fun s '(id, j) => play (C := demo_codec) demo_limits "ledger" "sandboxes" s id j) jobs s.

Definition demo_booted : Sys := with_alive demo_start {[demo_replica]} {[demo_replica]}.
Definition demo : Sys := play_all demo_booted demo_jobs.

Lemma play_frame (s : Sys) id j :
  used (play (C := demo_codec) demo_limits "ledger" "sandboxes" s id j) = {[id]} ∪ used s
  /\ alive (play (C := demo_codec) demo_limits "ledger" "sandboxes" s id j) = alive s.
Proof.
  unfold play. destruct (exec_prog _ _ _ _) as [[srv armed] o].
  destruct o as [[[g| |]|]| | | | |]; try destruct armed; done.
Qed.

Lemma play_all_steps jobs : forall s,
  NoDup jobs.*1 -> (forall id, id ∈ jobs.*1 -> id ∉ used s) ->
  (forall id j, (id, j) ∈ jobs -> may_run s j /\ forall g, j <> JRelease g) ->
  rtc (ledger_step (C := demo_codec) demo_limits "ledger" "sandboxes") s (play_all s jobs).
Proof.
  induction jobs as [|[id j] jobs IH]; intros s Hnd Hused Hjobs; [apply rtc_refl|].
  change (play_all s ((id, j) :: jobs)) with (play_all (play (C := demo_codec) demo_limits "ledger" "sandboxes" s id j) jobs).
  cbn in Hnd. apply NoDup_cons in Hnd as [Hin Hnd].
  destruct (Hjobs id j) as [Hrun Hnr]; [by left|]. destruct (play_frame s id j) as [Hu Ha].
  etrans; [apply play_steps; [apply Hused; by left|done|done]|]. apply IH; [done|..].
  - intros id' Hid'. rewrite Hu. intros [->%elem_of_singleton|H]%elem_of_union; [done|].
    eapply Hused; [|done]. by right.
  - intros id' j' H. destruct (Hjobs id' j') as [Hrun' Hnr']; [by right|]. split; [|done].
    unfold may_run in *. by rewrite Ha.
Qed.

Lemma demo_booted_reachable : reachable (C := demo_codec) demo_limits "ledger" "sandboxes" demo_booted.
Proof.
  exists demo_start. split; [by repeat split|]. apply rtc_once.
  assert (demo_booted = with_alive demo_start ({[demo_replica]} ∪ alive demo_start) ({[demo_replica]} ∪ booted demo_start)) as ->
    by (unfold demo_booted; f_equal; vm_compute; reflexivity).
  apply ls_boot; [apply not_elem_of_empty|done|]. intros r Hr. by apply elem_of_empty in Hr.
Qed.

Lemma demo_prefix_steps n :
  rtc (ledger_step (C := demo_codec) demo_limits "ledger" "sandboxes") demo_booted (play_all demo_booted (take n demo_jobs)).
Proof.
  apply play_all_steps.
  - rewrite fmap_take. eapply sublist_NoDup; [|apply sublist_take].
    apply (bool_decide_unpack (NoDup demo_jobs.*1)). vm_compute. done.
  - intros id _. apply not_elem_of_empty.
  - intros id j Hin. assert (In (id, j) demo_jobs) as Hj by (apply list_elem_of_In; eapply elem_of_sublist; [done|apply sublist_take]).
    cbn in Hj. repeat destruct Hj as [[= <- <-]|Hj]; try done; split; done.
Qed.

Definition demo_at (n : nat) : Sys := play_all demo_booted (take n demo_jobs).

Lemma demo_reachable n : reachable (C := demo_codec) demo_limits "ledger" "sandboxes" (demo_at n).
Proof.
  destruct demo_booted_reachable as (s0 & Hi & Hr). exists s0. split; [done|]. etrans; [done|apply demo_prefix_steps].
Qed.

Definition held (s : Sys) (id : string) : option ReleaseRegistration :=
  match tasks s !! id with Some (Holding g) => Some g | _ => None end.

Lemma held_task s id g : held s id = Some g -> tasks s !! id = Some (Holding g).
Proof. unfold held. by case_match; [case_match|]; intros [= <-]. Qed.

(** The guard that the run ends with. *)
Definition demo_guard : ReleaseRegistration :=
  {| reg_sandbox_name := "b"; reg_sandbox_uid := "sbx-b"; reg_gate_name := "kobe-access-g-sbx-b";
     reg_expected_gate_uid := "uid-2"; reg_gate_uid := Some "uid-2"; reg_principal_name := "kobe-access-p-alice";
     reg_principal_uid := Some "uid-5"; reg_principal_hash := "alice"; reg_operation_id := "5";
     reg_replica := demo_replica |}.

Lemma demo_held : tasks (demo_at 7) !! "5" = Some (Holding demo_guard).
Proof. apply held_task. vm_compute. reflexivity. Qed.

Lemma demo_alive : reg_replica demo_guard ∈ alive (demo_at 7).
Proof. vm_compute. reflexivity. Qed.

Lemma demo_answer n a : answers (demo_at 7) !! n = Some a -> a ∈ answers (demo_at 7).
Proof. apply list_elem_of_lookup_2. Qed.

Lemma drained_gate_has_no_live_guard_witness :
  (JDrain lease_a, ODrain (Ok Drained)) ∈ answers (demo_at 7) /\ reg_gate_uid demo_guard <> Some "uid-1".
Proof.
  assert (Ha : (JDrain lease_a, ODrain (Ok Drained)) ∈ answers (demo_at 7))
    by (apply (demo_answer 3); vm_compute; reflexivity).
  split; [exact Ha|].
  exact (drained_gate_has_no_live_guard (CL := demo_codec_laws) demo_limits "ledger" "sandboxes" (demo_at 7) lease_a
    {| gate_ref_name := "kobe-access-g-sbx-a"; gate_ref_uid := "uid-1" |} "5" demo_guard
    (demo_reachable 7) Ha ltac:(vm_compute; reflexivity) demo_held demo_alive).
Defined.

Lemma live_guards_stay_listed_witness :
  exists gate entries, objects (server (demo_at 7)) !! "kobe-access-g-sbx-b" = Some gate
    /\ l_uid gate = Some "uid-2" /\ parse_entries (H := gate_json (Codec := demo_codec)) gate = Ok entries
    /\ entries !! "5" = Some (gate_entry demo_guard).
Proof.
  exact (live_guards_stay_listed (CL := demo_codec_laws) demo_limits "ledger" "sandboxes" (demo_at 7) "5" demo_guard
    (demo_reachable 7) demo_held demo_alive).
Defined.

(** The gate of [lease_a]: prepared after job 1, closed after job 3. *)
Definition gate_a (n : nat) : Lease :=
  default (build_principal (C := demo_codec) "" "") (objects (server (demo_at n)) !! "kobe-access-g-sbx-a").

Lemma gate_a_stored n : bool_decide (is_Some (objects (server (demo_at n)) !! "kobe-access-g-sbx-a")) = true ->
  objects (server (demo_at n)) !! "kobe-access-g-sbx-a" = Some (gate_a n).
Proof. unfold gate_a. intros [o ->]%bool_decide_eq_true. done. Qed.

Lemma demo_later :
  rtc (ledger_step (C := demo_codec) demo_limits "ledger" "sandboxes") (demo_at 3) (demo_at 7).
Proof.
  change (demo_at 7) with (play_all (demo_at 3) (drop 3 demo_jobs)). apply play_all_steps.
  - apply (bool_decide_unpack (NoDup (drop 3 demo_jobs).*1)). vm_compute. done.
  - assert (H : Forall (fun id => id ∉ used (demo_at 3)) (drop 3 demo_jobs).*1)
      by (apply (bool_decide_unpack _); vm_compute; done).
    intros id Hid. by eapply Forall_forall in H.
  - intros id j Hin%list_elem_of_In. cbn in Hin.
    repeat destruct Hin as [[= <- <-]|Hin]; try done; (split; [|done]); vm_compute; reflexivity || exact I.
Qed.

Lemma demo_gates : bool_decide (is_Some (objects (server (demo_at 3)) !! "kobe-access-g-sbx-a")) = true
  /\ bool_decide (is_Some (objects (server (demo_at 7)) !! "kobe-access-g-sbx-a")) = true
  /\ l_uid (gate_a 3) = l_uid (gate_a 7).
Proof. vm_compute. done. Qed.

Lemma gate_refines_protocol_witness :
  exists v v', gate_view (C := demo_codec) (gate_a 3) = Some v /\ gate_view (C := demo_codec) (gate_a 7) = Some v'
    /\ rtc (gate_protocol demo_limits) v v'.
Proof.
  destruct demo_gates as (H3 & H7 & Hu).
  exact (gate_refines_protocol (CL := demo_codec_laws) demo_limits "ledger" "sandboxes" (demo_at 3) (demo_at 7)
    "kobe-access-g-sbx-a" (gate_a 3) "kobe-access-g-sbx-a" (gate_a 7) (demo_reachable 3) demo_later
    (gate_a_stored 3 H3) (gate_a_stored 7 H7) eq_refl eq_refl Hu).
Defined.

Lemma closed_gate_is_final_witness :
  exists v', gate_view (C := demo_codec) (gate_a 7) = Some v' /\ v_open v' = false /\ v_entries v' ⊆ ∅
    /\ forall execution e', v_rows v' !! execution = Some e' -> ee_active e' = true ->
       exists e, (∅ : gmap string ExecutionEntry) !! execution = Some e /\ ee_active e = true
         /\ ee_execution_uid e' = ee_execution_uid e.
Proof.
  destruct demo_gates as (H3 & H7 & Hu).
  exact (closed_gate_is_final (CL := demo_codec_laws) demo_limits "ledger" "sandboxes" (demo_at 3) (demo_at 7)
    "kobe-access-g-sbx-a" (gate_a 3) "kobe-access-g-sbx-a" (gate_a 7) (view false ∅ ∅) (demo_reachable 3) demo_later
    (gate_a_stored 3 H3) (gate_a_stored 7 H7) eq_refl eq_refl Hu ltac:(vm_compute; reflexivity) eq_refl).
Defined.

Lemma ledger_ceilings_hold_witness :
  exists v, gate_view (C := demo_codec) (gate_a 7) = Some v /\ Z.of_nat (size (v_entries v)) <= 2
    /\ Z.of_nat (size (v_rows v)) <= 4.
Proof.
  destruct demo_gates as (_ & H7 & _).
  destruct (ledger_ceilings_hold (CL := demo_codec_laws) demo_limits "ledger" "sandboxes" (demo_at 7)
    "kobe-access-g-sbx-a" (gate_a 7) (demo_reachable 7) (gate_a_stored 7 H7)) as [Hg _].
  destruct (Hg eq_refl) as (v & Hv & H1 & H2). exists v. split; [exact Hv|].
  split; [apply H1; reflexivity | apply H2; reflexivity].
Defined.

Lemma one_execution_per_reservation_witness :
  (JBind lease_b demo_execution, OBind (Ok true)) ∈ answers (demo_at 7)
  /\ se_uid demo_execution = se_uid demo_execution.
Proof.
  assert (Ha : (JBind lease_b demo_execution, OBind (Ok true)) ∈ answers (demo_at 7))
    by (apply (demo_answer 0); vm_compute; reflexivity).
  split; [exact Ha|].
  exact (proj1 (one_execution_per_reservation (CL := demo_codec_laws) demo_limits "ledger" "sandboxes" (demo_at 7)
    lease_b lease_b demo_execution demo_execution
    {| gate_ref_name := "kobe-access-g-sbx-b"; gate_ref_uid := "uid-2" |}
    {| gate_ref_name := "kobe-access-g-sbx-b"; gate_ref_uid := "uid-2" |}
    (demo_reachable 7) Ha Ha ltac:(vm_compute; reflexivity) ltac:(vm_compute; reflexivity) eq_refl eq_refl)).
Defined.

(** ** The wire format *)

(** C35. The rows of a gate survive their encoding, whatever their number:
    [decode] reads back exactly what [encode] wrote, interned or plain, and a
    plain text written by an older release reads as the same rows. *)
Theorem execution_rows_roundtrip {C : Codec} {CL : CodecLaws C} (rows : gmap string ExecutionEntry) text plain :
  encode rows = Ok text -> to_json rows = Some plain -> decode text = Ok rows /\ decode plain = Ok rows.
Proof. intros H1 H2. split; [by apply decode_encode | by apply decode_plain]. Qed.

Definition demo_rows : gmap string ExecutionEntry :=
  {[ "sbxe-1" := {| ee_request_digest := "d"; ee_pod_uid := "p"; ee_reserved_at := "t"; ee_execution_uid := None;
                    ee_creation_state := Creating; ee_active := true; ee_writer := None |} ]}.

Lemma execution_rows_roundtrip_witness :
  decode (C := demo_codec) (map_text demo_rows) = Ok demo_rows.
Proof.
  assert (He : encode (C := demo_codec) demo_rows = Ok (map_text demo_rows)) by (vm_compute; reflexivity).
  exact (proj1 (execution_rows_roundtrip (CL := demo_codec_laws) demo_rows (map_text demo_rows) (map_text demo_rows)
    He eq_refl)).
Defined.

(** ** Every operation ends, whatever the server answers *)

Section bounded.
Context {C : Codec}.

Lemma at_most_ret {R} n (r : R) : at_most n (Ret r). Proof. constructor. Qed.
#[local] Hint Resolve at_most_ret : kobe.

(** Close a bound on a program whose remaining branches only answer. *)
Ltac bounded := repeat first [apply at_most_ret | case_match | constructor; intros].

Lemma at_most_add_gate_entry n ns L g : at_most (2 * n) (add_gate_entry n ns L g).
Proof.
  revert g. induction n as [|n IH]; intros g; [constructor|].
  replace (2 * S n)%nat with (S (S (2 * n)))%nat by lia. cbn [add_gate_entry]. constructor. intros r.
  match goal with |- at_most _ (match ?x with _ => _ end) => destruct x as [[gate uid]|] end; [|constructor].
  constructor.
  match goal with |- at_most _ (match ?x with _ => _ end) => destruct x as [[ops|]|] end; [|constructor..].
  constructor. intros [?|?]; [constructor|]. case_match; [apply IH|constructor].
Qed.

Lemma at_most_get_or_create_principal ns g : at_most 3 (get_or_create_principal ns g).
Proof. unfold get_or_create_principal, get, get_ledger. cbn. bounded. Qed.

Lemma at_most_add_principal_entry n ns L gate g : at_most (4 * n) (add_principal_entry n ns L gate g).
Proof.
  revert g. induction n as [|n IH]; intros g; [constructor|].
  replace (4 * S n)%nat with (3 + S (4 * n))%nat by lia. cbn [add_principal_entry].
  apply at_most_bind; [apply at_most_get_or_create_principal|]. intros found.
  match goal with |- at_most _ (match ?x with _ => _ end) => destruct x as [[ledger uid]|] end; [|constructor].
  constructor. destruct (enter_plan _ _ _ _) as [[ops|]|]; [|constructor..].
  constructor. intros [?|?]; [constructor|]. case_match; [apply IH|constructor].
Qed.

Lemma at_most_cas {A} k n (body : nat -> prog (option (result A AccessLedgerError))) :
  (forall i, at_most k (body i)) -> at_most (n * k) (cas n body).
Proof.
  intros Hb. induction n as [|n IH]; [constructor|]. cbn [cas Nat.mul]. apply at_most_bind; [done|].
  intros [r|]; [constructor|done].
Qed.

Lemma at_most_remove_entry {T} `{Json (gmap string T)} `{EqDecision T} name uid op (e : T) validate what :
  at_most 2 (remove_entry_attempt name uid op e validate what).
Proof.
  unfold remove_entry_attempt, get, commit. cbn. constructor. intros [o|err]; [|constructor].
  destruct (lease_uid o); [|constructor]. case_match; [constructor|].
  match goal with |- at_most _ (match ?x with _ => _ end) => destruct x as [[ops|]|] end; bounded.
Qed.

Lemma at_most_remove_gate_entry ns name uid sn su op e : at_most 128 (remove_gate_entry ns name uid sn su op e).
Proof. apply (at_most_cas 2 64). intros _. apply at_most_remove_entry. Qed.

Lemma at_most_remove_principal_entry ns name uid hash op e : at_most 128 (remove_principal_entry ns name uid hash op e).
Proof. apply (at_most_cas 2 64). intros _. apply at_most_remove_entry. Qed.

Lemma at_most_exact_gate ns lease : at_most 1 (exact_gate_for_lease ns lease).
Proof.
  unfold exact_gate_for_lease, get_ledger.
  match goal with |- at_most _ (match ?x with _ => _ end) => destruct x end; [|constructor].
  cbn. constructor. intros [?|?]; constructor.
Qed.

Lemma at_most_execution_cas {A} ns lease early plan (full : option A) :
  at_most 128 (execution_cas ns lease early plan full).
Proof.
  apply (at_most_cas 2 64). intros n. apply (at_most_bind 1 1); [apply at_most_exact_gate|]. intros r.
  match goal with |- at_most _ (match ?x with _ => _ end) => destruct x as [[gate [a|[ops a]]]|] end; bounded.
Qed.

(** C36. No ledger operation of a request runs away: whatever the API server
    answers, conflicts included, entering a Sandbox makes at most 512 requests,
    one release pass at most 256, each of the nine operations that change
    execution rows at most 128, reading the rows or verifying an admitted gate
    one and removing a gate before admission three, and then it answers.  (The
    drop of an access guard repeats the release pass until it succeeds;
    draining, recovery and the reapers are as long as what they list.) *)
Theorem ledger_operations_end ns lease hash op replica L g name digest pod writer now execution proven observed
    expected current :
  at_most 512 (acquire_with_limits ns lease hash op replica L)
  /\ at_most 256 (release_exact ns g)
  /\ at_most 128 (reserve_execution_capacity ns lease name digest pod writer now L)
  /\ at_most 128 (bind_execution_capacity ns lease execution)
  /\ at_most 128 (complete_execution_capacity ns lease execution proven)
  /\ at_most 128 (expire_unbound_execution ns lease name digest pod observed)
  /\ at_most 128 (expire_orphaned_creating_execution ns lease expected current)
  /\ at_most 128 (reject_execution_creation ns lease name digest pod)
  /\ at_most 128 (retire_rejected_execution ns lease expected)
  /\ at_most 128 (retire_inactive_execution ns lease expected)
  /\ at_most 128 (clear_execution_manifest ns lease)
  /\ at_most 1 (execution_manifest ns lease)
  /\ at_most 1 (verify_open_admitted_gate ns lease)
  /\ at_most 3 (remove_pre_admission_gate ns lease).
Proof.
  split_and!; try apply at_most_execution_cas.
  - unfold acquire_with_limits.
    match goal with |- at_most _ (match ?x with _ => _ end) => destruct x as [[uid ref]|] end; [|constructor].
    apply (at_most_bind 128 384); [apply (at_most_add_gate_entry 64)|]. intros [g1 [[gate|]|]]; [|bounded..].
    apply (at_most_bind 256 128); [apply (at_most_add_principal_entry 64)|]. intros [g2 [[ledger|]|]]; [bounded| |bounded].
    destruct (lease_uid gate); [|constructor].
    apply (at_most_bind 128 0); [apply at_most_remove_gate_entry|]. intros [?|?]; bounded.
  - apply (at_most_bind 128 128).
    + case_match; [apply at_most_remove_principal_entry|constructor].
    + intros [?|?]; [|constructor]. case_match; [apply at_most_remove_gate_entry|constructor].
  - unfold reserve_execution_capacity.
    match goal with |- at_most _ (match ?x with _ => _ end) => destruct x end; [apply at_most_execution_cas|constructor].
  - unfold bind_execution_capacity. destruct (execution_uid_of execution); [apply at_most_execution_cas|constructor].
  - unfold complete_execution_capacity. cbv zeta.
    match goal with |- at_most _ (match ?x with _ => _ end) => destruct x end; [apply at_most_execution_cas|constructor].
  - unfold expire_orphaned_creating_execution.
    match goal with |- at_most _ (match ?x with _ => _ end) => destruct x end; [apply at_most_execution_cas|constructor].
  - unfold retire_rejected_execution, retire_inactive_execution.
    repeat case_match; first [constructor | apply at_most_execution_cas].
  - unfold retire_inactive_execution. case_match; first [constructor | apply at_most_execution_cas].
  - apply (at_most_bind 1 0); [apply at_most_exact_gate|]. intros [?|?]; constructor.
  - unfold verify_open_admitted_gate, get.
    match goal with |- at_most _ (match ?x with _ => _ end) => destruct x end; [cbn|constructor].
    constructor. intros [?|?]; bounded.
  - unfold remove_pre_admission_gate, get. destruct (sandbox_uid lease); [cbn|constructor].
    constructor. intros [?|?]; [|bounded].
    match goal with |- at_most _ (match ?x with _ => _ end) => destruct x as [[]|] end; [|constructor].
    do 2 (constructor; intros ?). constructor.
Qed.
End bounded.
