(* ===== verification/SandboxAccess.v ===== *)
(** * SandboxAccess: from an authenticated principal to one exact Sandbox target

    Model of [src/api/sandbox_access.rs]: resolving a lease id or an alias, the
    ownership, phase and expiry checks, the target built from recorded
    provenance and the live pool, the port and container allowlists, and the
    re-verification of a composed child cluster.  What the API server answers
    is an argument; [chrono]'s RFC 3339 parser is a parameter. *)

From S2P Require Import Prelude Text SandboxObjects LedgerApi AccessLedger.

Local Open Scope kobe_scope.

Inductive SandboxAccessDenied : Type :=
| DeniedNotFound
| DeniedNotReady (phase : string)
| DeniedExpired
| DeniedTargetUnresolved
| DeniedProvenanceIncomplete
| DeniedPoolUnresolvable
| DeniedNotDeclared (what : string)
| DeniedPortNameCoversRange
| DeniedAmbiguousAlias
| DeniedBackend.
#[global] Instance SandboxAccessDenied_eq_dec : EqDecision SandboxAccessDenied. Proof. solve_decision. Defined.

Definition denied_reason_code (d : SandboxAccessDenied) : string :=
  match d with
  | DeniedNotFound => "not_found"
  | DeniedNotReady _ => "not_ready"
  | DeniedExpired => "expired"
  | DeniedTargetUnresolved => "target_unresolved"
  | DeniedProvenanceIncomplete => "provenance_incomplete"
  | DeniedPoolUnresolvable => "pool_unresolvable"
  | DeniedNotDeclared _ => "not_declared"
  | DeniedPortNameCoversRange => "port_name_covers_range"
  | DeniedAmbiguousAlias => "ambiguous_alias"
  | DeniedBackend => "backend_error"
  end.

Definition denied_http_status (d : SandboxAccessDenied) : Z :=
  match d with
  | DeniedNotFound => 404
  | DeniedNotReady _ | DeniedTargetUnresolved => 409
  | DeniedExpired => 410
  | DeniedNotDeclared _ | DeniedPortNameCoversRange => 400
  | DeniedAmbiguousAlias => 409
  | DeniedProvenanceIncomplete | DeniedPoolUnresolvable | DeniedBackend => 503
  end.

(** [Display] of a phase. *)
Definition phase_text (p : SandboxLeasePhase.t) : string :=
  match p with
  | SandboxLeasePhase.Pending => "Pending" | SandboxLeasePhase.Provisioning => "Provisioning"
  | SandboxLeasePhase.Ready => "Ready" | SandboxLeasePhase.Releasing => "Releasing"
  | SandboxLeasePhase.Released => "Released" | SandboxLeasePhase.Expired => "Expired"
  | SandboxLeasePhase.Quarantined => "Quarantined"
  end.

Definition phase_permits_access (phase : SandboxLeasePhase.t) : result unit SandboxAccessDenied :=
  match phase with
  | SandboxLeasePhase.Ready => Ok tt
  | SandboxLeasePhase.Expired => Err DeniedExpired
  | other => Err (DeniedNotReady (phase_text other))
  end.

(** ** Targets *)

Inductive TargetPlacement : Type := TargetManagement | TargetChildCluster.
#[global] Instance TargetPlacement_eq_dec : EqDecision TargetPlacement. Proof. solve_decision. Defined.

Inductive DeclaredPortReach : Type := Single (port : Z) | Range (low high : Z).
Record DeclaredPort : Type := { dp_name : string; dp_reach : DeclaredPortReach }.

Definition reach_contains (r : DeclaredPortReach) (port : Z) : bool :=
  match r with Single single => single =? port | Range low high => (low <=? port) && (port <=? high) end.

Record SandboxTarget : Type := {
  t_lease_uid : string;
  t_placement : TargetPlacement;
  t_namespace : string;
  t_claim_uid : string;
  t_sandbox_name : string;
  t_sandbox_uid : string;
  t_pod_name : string;
  t_pod_uid : string;
  t_container : string;
  t_ports : list DeclaredPort;
  t_runner_path : option string;
  t_attach_command : option (list string);
  t_transport : SandboxTransport;
}.

(** What one declaration authorizes, when it is unambiguous and admissible. *)
Definition declared_reach (p : SandboxPortSpec) : option DeclaredPortReach :=
  match port_single p, port_range p with
  | Some single, None => if negb (single =? 0) then Some (Single single) else None
  | None, Some range =>
      if negb (range_start range =? 0) && (range_start range <=? range_end range)
         && (span range <=? MAX_PORT_RANGE_SPAN)
      then Some (Range (range_start range) (range_end range)) else None
  | _, _ => None
  end.

Definition declared_port (p : SandboxPortSpec) : option DeclaredPort :=
  match declared_reach p with
  | Some reach => Some {| dp_name := port_name p; dp_reach := reach |}
  | None => None
  end.

Definition declared_ports (pool : SandboxPool) : list DeclaredPort :=
  omap declared_port
    (List.filter (fun p => String.eqb (port_container p) (sp_default_container pool)) (sp_exposed_ports pool)).

Definition resolve_port (target : SandboxTarget) (requested : string) : result Z SandboxAccessDenied :=
  match List.find (fun p => String.eqb (dp_name p) requested) (t_ports target) with
  | Some p => match dp_reach p with Single single => Ok single | Range _ _ => Err DeniedPortNameCoversRange end
  | None =>
      match parse_uint 65535 requested with
      | Some number =>
          if existsb (fun p => reach_contains (dp_reach p) number) (t_ports target) then Ok number
          else Err (DeniedNotDeclared "port")
      | None => Err (DeniedNotDeclared "port")
      end
  end.

Definition resolve_container (target : SandboxTarget) (requested : option string)
  : result string SandboxAccessDenied :=
  match requested with
  | None => Ok (t_container target)
  | Some name => if String.eqb name (t_container target) then Ok (t_container target)
                 else Err (DeniedNotDeclared "container")
  end.

Section resolve.
(** [chrono::DateTime::parse_from_rfc3339] *)
Variable parse_rfc3339 : string -> option Z.

Definition expiry_permits_access (expires_at : option string) (now : Z) : result unit SandboxAccessDenied :=
  match expires_at with
  | None => Err DeniedExpired
  | Some text =>
      match parse_rfc3339 text with
      | None => Err DeniedExpired
      | Some expires_at => if expires_at <=? now then Err DeniedExpired else Ok tt
      end
  end.

Definition target_from_provenance (lease : SandboxLease) (pool : SandboxPool) (now : Z)
  : result SandboxTarget SandboxAccessDenied :=
  let? _ := deny_if (is_some (sbx_deletion_timestamp lease)) (DeniedNotReady "Deleting") in
  let? status := ok_or (sbx_status lease) DeniedTargetUnresolved in
  let? _ := phase_permits_access (sbx_phase status) in
  let? _ := expiry_permits_access (sbx_expires_at status) now in
  let? lease_uid := ok_or (sbx_uid lease) DeniedProvenanceIncomplete in
  let? _ := deny_if (negb (bool_decide (sp_uid pool = Some (pool_ref_uid (sbx_pool_ref lease)))))
              DeniedPoolUnresolvable in
  let? placement := match sbx_placement status with
                    | Some PlacedManagement => Ok TargetManagement
                    | Some (PlacedChildCluster _) => Ok TargetChildCluster
                    | None => Err DeniedTargetUnresolved
                    end in
  let? target := ok_or (sbx_target status) DeniedTargetUnresolved in
  let? claim := ok_or (tp_sandbox_claim target) DeniedTargetUnresolved in
  let? sandbox := ok_or (tp_sandbox target) DeniedTargetUnresolved in
  let? pod := ok_or (tp_pod target) DeniedTargetUnresolved in
  let? _ := deny_if (String.eqb (oref_uid claim) "" || String.eqb (oref_uid sandbox) ""
                     || String.eqb (oref_uid pod) "" || String.eqb (oref_name pod) ""
                     || String.eqb (tp_namespace target) "") DeniedProvenanceIncomplete in
  Ok {| t_lease_uid := lease_uid; t_placement := placement; t_namespace := tp_namespace target;
        t_claim_uid := oref_uid claim; t_sandbox_name := oref_name sandbox; t_sandbox_uid := oref_uid sandbox;
        t_pod_name := oref_name pod; t_pod_uid := oref_uid pod; t_container := sp_default_container pool;
        t_ports := declared_ports pool; t_runner_path := sp_runner_path pool;
        t_attach_command := sp_attach_command pool; t_transport := sp_transport pool |}.

(** ** Leases and aliases *)

Definition LEASE_ID_PREFIX : string := "sandbox-".
Definition looks_like_lease_id (value : string) : bool := starts_with value LEASE_ID_PREFIX.

Definition principal_matches (requester identity : SandboxPrincipal) : bool :=
  String.eqb (pr_provider requester) (pr_provider identity)
  && String.eqb (pr_issuer requester) (pr_issuer identity)
  && String.eqb (pr_identity requester) (pr_identity identity).

Definition principal_owns_lease (lease : SandboxLease) (identity : SandboxPrincipal) : bool :=
  principal_matches (sbx_requester lease) identity.

Definition alias_is_live (lease : SandboxLease) : bool :=
  match default SandboxLeasePhase.Pending (sbx_phase <$> sbx_status lease) with
  | SandboxLeasePhase.Released | SandboxLeasePhase.Expired | SandboxLeasePhase.Quarantined => false
  | _ => true
  end.

(** The candidates among the leases the label selector returned. *)
Definition leases_with_alias (listed : list SandboxLease) (alias : string) (identity : SandboxPrincipal)
  : list string :=
  map sbx_name
    (List.filter (fun l => principal_matches (sbx_requester l) identity
                           && bool_decide (sbx_alias l = Some alias) && alias_is_live l) listed).

Definition resolve_alias (listed : result (list SandboxLease) kube_error) (alias : string)
    (identity : SandboxPrincipal) : result string SandboxAccessDenied :=
  match listed with
  | Err _ => Err DeniedBackend
  | Ok listed =>
      match leases_with_alias listed alias identity with
      | [id] => Ok id
      | [] => Err DeniedNotFound
      | _ => Err DeniedAmbiguousAlias
      end
  end.

(** The answers of the API server to the three reads. *)
Record AccessReads : Type := {
  read_aliases : result (list SandboxLease) kube_error;
  read_lease : string -> result SandboxLease kube_error;
  read_pool : string -> result SandboxPool kube_error;
}.

Definition resolve_sandbox_target (r : AccessReads) (lease_name : string) (identity : SandboxPrincipal) (now : Z)
  : result (SandboxLease * SandboxTarget) SandboxAccessDenied :=
  let? lease_name := if looks_like_lease_id lease_name then Ok lease_name
                     else resolve_alias (read_aliases r) lease_name identity in
  let? lease := match read_lease r lease_name with
                | Ok lease => Ok lease
                | Err e => Err (if is_404 e then DeniedNotFound else DeniedBackend)
                end in
  let? _ := deny_if (negb (principal_owns_lease lease identity)) DeniedNotFound in
  let? pool := match read_pool r (pool_ref_name (sbx_pool_ref lease)) with
               | Ok pool => Ok pool
               | Err e => Err (if is_404 e then DeniedPoolUnresolvable else DeniedBackend)
               end in
  let? target := target_from_provenance lease pool now in
  Ok (lease, target).

End resolve.

(** ** The cluster of a target *)

(** What [resolve_target_cluster] reads of a [ClusterLease]: its UID and the
    instance its binding names. *)
Record BoundClusterLease : Type := {
  bcl_uid : option string;
  bcl_binding : option (string * string);
}.

(** Which kubeconfig the operation is run with: the operator's own, or that of
    one exact instance. *)
Inductive TargetCluster : Type := OperatorCluster | ChildCluster (instance : string).

Definition resolve_target_cluster (get_internal : string -> result BoundClusterLease kube_error)
    (lease : SandboxLease) (target : SandboxTarget) : result TargetCluster SandboxAccessDenied :=
  if bool_decide (t_placement target = TargetManagement) then Ok OperatorCluster
  else
    let? provenance := ok_or (status ← sbx_status lease; sbx_target status) DeniedTargetUnresolved in
    let? recorded_lease := ok_or (tp_child_cluster_lease provenance) DeniedProvenanceIncomplete in
    let? recorded_instance := ok_or (tp_child_cluster_instance provenance) DeniedProvenanceIncomplete in
    let? _ := deny_if (String.eqb (oref_uid recorded_lease) "" || String.eqb (oref_uid recorded_instance) "")
                DeniedProvenanceIncomplete in
    let? current := match get_internal (oref_name recorded_lease) with
                    | Ok current => Ok current
                    | Err e => Err (if is_404 e then DeniedTargetUnresolved else DeniedBackend)
                    end in
    let? _ := deny_if (negb (bool_decide (bcl_uid current = Some (oref_uid recorded_lease))))
                DeniedTargetUnresolved in
    let? binding := ok_or (bcl_binding current) DeniedTargetUnresolved in
    let? _ := deny_if (negb (String.eqb binding.2 (oref_uid recorded_instance))
                       || negb (String.eqb binding.1 (oref_name recorded_instance))) DeniedTargetUnresolved in
    Ok (ChildCluster (oref_name recorded_instance)).

(** ** Logs and exit statuses *)

Definition tail_with_limit (requested : option Z) (limit : Z) : option Z :=
  let requested := match requested with Some n => if 0 <=? n then Some n else None | None => None end in
  let cap := if negb (limit =? 0) then Some (Z.min limit i64_max) else None in
  match requested, cap with
  | Some n, Some cap => Some (Z.min n cap)
  | Some n, None => Some n
  | None, cap => cap
  end.

(** ** What a resolved operation addresses *)

(** A name stands for one lease: its own id, or the only live lease of the
    caller under that alias. *)
Definition names_lease (r : AccessReads) (name : string) (identity : SandboxPrincipal) (id : string) : Prop :=
  if looks_like_lease_id name then id = name
  else exists listed, read_aliases r = Ok listed /\ leases_with_alias listed name identity = [id].

(** What provenance records of a target, complete enough to fence it. *)
Record addresses (prov : SandboxTargetProvenance) (t : SandboxTarget) : Prop := {
  adr_namespace : t_namespace t = tp_namespace prov;
  adr_claim : exists c, tp_sandbox_claim prov = Some c /\ t_claim_uid t = oref_uid c;
  adr_sandbox : exists s, tp_sandbox prov = Some s /\ t_sandbox_name t = oref_name s /\ t_sandbox_uid t = oref_uid s;
  adr_pod : exists p, tp_pod prov = Some p /\ t_pod_name t = oref_name p /\ t_pod_uid t = oref_uid p;
  adr_fenced : t_namespace t <> "" /\ t_claim_uid t <> "" /\ t_sandbox_uid t <> "" /\ t_pod_name t <> "" /\ t_pod_uid t <> "";
}.

Lemma names_lease_Ok r name identity id :
  (if looks_like_lease_id name then Ok name else resolve_alias (read_aliases r) name identity) = Ok id ->
  names_lease r name identity id.
Proof.
  unfold names_lease, resolve_alias. case_match; [by intros [= ->]|].
  destruct (read_aliases r) as [listed|e]; [|done].
  destruct (leases_with_alias listed name identity) as [|x [|y l]] eqn:E; try done. intros [= <-]. eauto.
Qed.

Section exact.
Variable parse : string -> option Z.

(** The lease may serve traffic now. *)
Definition serves (lease : SandboxLease) (now : Z) (status : SandboxLeaseSummary) : Prop :=
  sbx_deletion_timestamp lease = None /\ sbx_status lease = Some status
  /\ sbx_phase status = SandboxLeasePhase.Ready
  /\ exists text expires, sbx_expires_at status = Some text /\ parse text = Some expires /\ now < expires.

Lemma expiry_permits_access_Ok text now u :
  expiry_permits_access parse text now = Ok u -> exists t e, text = Some t /\ parse t = Some e /\ now < e.
Proof.
  unfold expiry_permits_access. destruct text as [t|]; [|done]. destruct (parse t) as [e|] eqn:E; [|done].
  destruct (e <=? now) eqn:H; [done|]. intros _. exists t, e. split_and!; [done..|lia].
Qed.

Lemma phase_permits_access_Ok p u : phase_permits_access p = Ok u -> p = SandboxLeasePhase.Ready.
Proof. by destruct p. Qed.

Lemma target_from_provenance_Ok lease pool now t :
  target_from_provenance parse lease pool now = Ok t ->
  exists status prov,
    serves lease now status /\ sbx_target status = Some prov /\ addresses prov t
    /\ sbx_uid lease = Some (t_lease_uid t) /\ sp_uid pool = Some (pool_ref_uid (sbx_pool_ref lease))
    /\ t_container t = sp_default_container pool /\ t_ports t = declared_ports pool
    /\ t_runner_path t = sp_runner_path pool /\ t_attach_command t = sp_attach_command pool
    /\ t_transport t = sp_transport pool.
Proof.
  unfold target_from_provenance. intros H.
  destruct (is_some (sbx_deletion_timestamp lease)) eqn:Hdel; [done|cbn [deny_if] in H].
  destruct (sbx_status lease) as [status|] eqn:Hst; [cbn [ok_or] in H|done].
  unbind H. injection H as <-.
  repeat match goal with X : ok_or _ _ = Ok _ |- _ => apply ok_or_Ok in X end.
  repeat match goal with X : deny_if _ _ = Ok _ |- _ => apply deny_if_Ok in X end.
  match goal with X : phase_permits_access _ = Ok _ |- _ => apply phase_permits_access_Ok in X end.
  match goal with X : expiry_permits_access _ _ _ = Ok _ |- _ => apply expiry_permits_access_Ok in X end.
  apply is_some_false in Hdel. bool_props.
  eexists status, _. split_and!; [unfold serves; by eauto | eassumption | | cbn; done..].
  constructor; cbn; eauto 10.
  split_and!; intros E; match goal with X : String.eqb _ _ = false |- _ => apply String.eqb_neq in X; by apply X end.
Qed.
End exact.

(** The numbers one declaration of a pool lets a caller reach. *)
Definition declares (pool : SandboxPool) (p : SandboxPortSpec) (n : Z) : Prop :=
  In p (sp_exposed_ports pool) /\ port_container p = sp_default_container pool
  /\ ((port_single p = Some n /\ port_range p = None /\ n <> 0)
      \/ exists r, port_single p = None /\ port_range p = Some r /\ range_start r <> 0
                   /\ range_start r <= n <= range_end r /\ span r <= MAX_PORT_RANGE_SPAN).

Lemma elem_of_declared_ports pool d :
  In d (declared_ports pool) <->
  exists p, In p (sp_exposed_ports pool) /\ port_container p = sp_default_container pool
            /\ declared_reach p = Some (dp_reach d) /\ dp_name d = port_name p.
Proof.
  unfold declared_ports. rewrite <- list_elem_of_In, list_elem_of_omap. split.
  - intros (p & Hp & Hd). apply list_elem_of_In, filter_In in Hp as [Hp Hc]. exists p.
    unfold declared_port in Hd. destruct (declared_reach p) as [reach|] eqn:E; [|done]. injection Hd as <-.
    cbn. bool_props. done.
  - intros (p & Hp & Hc & Hr & Hn). exists p. split.
    + apply list_elem_of_In, filter_In. split; [done|]. by apply String.eqb_eq.
    + unfold declared_port. rewrite Hr, <- Hn. by destruct d.
Qed.

Lemma declared_reach_declares pool p n :
  In p (sp_exposed_ports pool) -> port_container p = sp_default_container pool ->
  (exists reach, declared_reach p = Some reach /\ reach_contains reach n = true) <-> declares pool p n.
Proof.
  intros Hp Hc. unfold declares, declared_reach. split.
  - intros (reach & Hr & Hn). split_and!; [done..|].
    destruct (port_single p) as [s|], (port_range p) as [r|]; try done.
    + left. case_match eqn:E; [|done]. injection Hr as <-. cbn in Hn. bool_props. subst. done.
    + right. exists r. case_match eqn:E; [|done]. injection Hr as <-. cbn in Hn. bool_props. done.
  - intros (_ & _ & [(-> & -> & Hn) | (r & -> & -> & Hs & Hn & Hsp)]).
    + exists (Single n). rewrite (proj2 (Z.eqb_neq n 0)) by done. cbn. by rewrite Z.eqb_refl.
    + exists (Range (range_start r) (range_end r)). rewrite (proj2 (Z.eqb_neq _ 0)) by done.
      rewrite (proj2 (Z.leb_le (range_start r) (range_end r))) by lia. rewrite (proj2 (Z.leb_le (span r) _)) by done.
      cbn. split; [done|]. by rewrite (proj2 (Z.leb_le _ _)), (proj2 (Z.leb_le _ _)) by lia.
Qed.

(** What a caller can ask of a target is what the pool declares.  Every port a
    request resolves to is one of the numbers an admissible declaration for the
    default container covers; every declared number resolves to itself unless a
    declaration carries that number as its name; a name that is declared once
    resolves to its single port; and the container is the default one. *)
Record reaches_declared (pool : SandboxPool) (target : SandboxTarget) : Prop := {
  rd_only : forall requested n, resolve_port target requested = Ok n -> exists p, declares pool p n;
  rd_every : forall p n, declares pool p n -> 0 <= n <= 65535 ->
    (forall q, In q (sp_exposed_ports pool) -> port_name q <> show_uint n) ->
    resolve_port target (show_uint n) = Ok n;
  rd_named : forall p n, declares pool p n -> port_single p = Some n ->
    (forall q, In q (sp_exposed_ports pool) -> port_container q = sp_default_container pool ->
       port_name q = port_name p -> q = p) ->
    resolve_port target (port_name p) = Ok n;
  rd_container : forall requested c, resolve_container target requested = Ok c -> c = sp_default_container pool;
}.

(** A caller reaches exactly the ports the pool declares for its default
    container. *)
Theorem ports_reach_exactly_the_allowlist parse lease pool now target :
  target_from_provenance parse lease pool now = Ok target -> reaches_declared pool target.
Proof.
  intros H. apply target_from_provenance_Ok in H as (status & prov & _ & _ & _ & _ & _ & Hc & Hports & _).
  split.
  - intros requested n. unfold resolve_port. rewrite Hports.
    destruct (List.find _ _) as [d|] eqn:Hf.
    + apply find_some in Hf as [Hd _]. destruct (dp_reach d) as [s|low high] eqn:E; [|done]. intros [= <-].
      apply elem_of_declared_ports in Hd as (p & Hp & Hpc & Hr & _). exists p.
      apply declared_reach_declares; [done..|]. exists (Single s). rewrite Hr, E. cbn. by rewrite Z.eqb_refl.
    + destruct (parse_uint 65535 requested) as [m|]; [|done]. case_match eqn:He; [|done]. intros [= <-].
      apply existsb_exists in He as (d & Hd & Hn). apply elem_of_declared_ports in Hd as (p & Hp & Hpc & Hr & _).
      exists p. apply declared_reach_declares; eauto.
  - intros p n Hp Hn Hnames. unfold resolve_port. rewrite Hports.
    destruct (List.find _ _) as [d|] eqn:Hf.
    + exfalso. apply find_some in Hf as [Hd Hname]. apply String.eqb_eq in Hname.
      apply elem_of_declared_ports in Hd as (q & Hq & _ & _ & Hqn). apply (Hnames q); congruence.
    + rewrite parse_uint_show by lia. rewrite (proj2 (existsb_exists _ _)); [done|].
      destruct Hp as (Hp & Hpc & Hd). destruct (proj2 (declared_reach_declares pool p n Hp Hpc)) as (reach & Hr & Hin);
        [by split_and!|].
      exists {| dp_name := port_name p; dp_reach := reach |}. split; [|done]. apply elem_of_declared_ports. eauto 10.
  - intros p n Hp Hs Hone. pose proof Hp as (Hin & Hpc & Hd). unfold resolve_port. rewrite Hports.
    destruct (proj2 (declared_reach_declares pool p n Hin Hpc) Hp) as (reach & Hr & Hrn).
    assert (reach = Single n) as ->.
    { unfold declared_reach in Hr. rewrite Hs in Hr. destruct (port_range p); [done|]. case_match; [|done].
      by injection Hr as <-. }
    destruct (List.find _ _) as [d|] eqn:Hf.
    + apply find_some in Hf as [Hd' Hname]. apply String.eqb_eq in Hname.
      apply elem_of_declared_ports in Hd' as (q & Hq & Hqc & Hqr & Hqn).
      rewrite (Hone q Hq Hqc) in Hqr by congruence. rewrite Hr in Hqr. by injection Hqr as <-.
    + apply (find_none _ _) with (x := {| dp_name := port_name p; dp_reach := Single n |}) in Hf; cbn in Hf.
      * by rewrite String.eqb_refl in Hf.
      * apply elem_of_declared_ports. eauto 10.
  - intros requested c. unfold resolve_container. rewrite Hc. destruct requested as [name|]; [|by intros [= <-]].
    case_match; [|done]. by intros [= <-].
Qed.

Lemma target_placement parse lease pool now target :
  target_from_provenance parse lease pool now = Ok target ->
  exists status, sbx_status lease = Some status
    /\ (t_placement target = TargetManagement <-> sbx_placement status = Some PlacedManagement).
Proof.
  unfold target_from_provenance. intros H. destruct (deny_if _ _); [|done].
  destruct (sbx_status lease) as [status|]; [|done]. exists status. split; [done|]. cbn [ok_or] in H.
  unbind H. injection H as <-. cbn. by destruct (sbx_placement status) as [[]|]; simplify_eq.
Qed.

(** C24. An operation is resolved only for the caller's own lease, found by its
    exact id or as the only live lease of theirs under the alias, while the
    lease is Ready, not being deleted and before its readable expiry.  The
    target is exactly the recorded Pod, Sandbox and claim, every one with a
    nonempty UID, in the cluster of the recorded placement.  The container,
    runner, attach command and transport are those of the pool whose UID
    admitted the lease, and through the target a caller reaches that pool's
    default container and the ports it declares for it, no other and every
    one. *)
Theorem access_addresses_recorded_target parse r name identity now lease target :
  resolve_sandbox_target parse r name identity now = Ok (lease, target) ->
  exists id pool status prov,
    names_lease r name identity id /\ read_lease r id = Ok lease
    /\ principal_matches (sbx_requester lease) identity = true
    /\ read_pool r (pool_ref_name (sbx_pool_ref lease)) = Ok pool
    /\ sp_uid pool = Some (pool_ref_uid (sbx_pool_ref lease))
    /\ serves parse lease now status /\ sbx_target status = Some prov /\ addresses prov target
    /\ sbx_uid lease = Some (t_lease_uid target)
    /\ t_container target = sp_default_container pool /\ t_runner_path target = sp_runner_path pool
    /\ t_attach_command target = sp_attach_command pool /\ t_transport target = sp_transport pool
    /\ reaches_declared pool target
    /\ (t_placement target = TargetManagement <-> sbx_placement status = Some PlacedManagement).
Proof.
  unfold resolve_sandbox_target. intros H.
  destruct (if looks_like_lease_id name then _ else _) as [id|e] eqn:Hid; [|done].
  destruct (read_lease r id) as [l|e] eqn:Hl; [|done].
  destruct (principal_owns_lease l identity) eqn:Hown; [|done]. cbn [negb deny_if] in H.
  destruct (read_pool r _) as [pool|e] eqn:Hp; [|done].
  destruct (target_from_provenance parse l pool now) as [t|e] eqn:Ht; [|done]. injection H as -> ->.
  apply names_lease_Ok in Hid. pose proof (ports_reach_exactly_the_allowlist _ _ _ _ _ Ht) as Hports.
  pose proof (target_placement _ _ _ _ _ Ht) as (st & Hst & Hplace).
  apply target_from_provenance_Ok in Ht as (status & prov & [? [Hs ?]] & ? & ? & ? & ? & ? & ? & ? & ? & ?).
  rewrite Hs in Hst. injection Hst as <-. exists id, pool, status, prov. split_and!; done.
Qed.

(** ** What a caller can tell apart *)

(** The reads of a caller in a namespace where no lease of anybody else exists. *)
Definition only_own (identity : SandboxPrincipal) (r : AccessReads) : AccessReads :=
  {| read_aliases := match read_aliases r with
                     | Ok listed => Ok (List.filter (fun l => principal_owns_lease l identity) listed)
                     | Err e => Err e
                     end;
     read_lease id := match read_lease r id with
                      | Ok l => if principal_owns_lease l identity then Ok l else Err not_found
                      | Err e => Err e
                      end;
     read_pool := read_pool r |}.

Lemma leases_with_alias_own listed alias identity :
  leases_with_alias (List.filter (fun l => principal_owns_lease l identity) listed) alias identity
  = leases_with_alias listed alias identity.
Proof.
  unfold leases_with_alias. induction listed as [|l listed IH]; [done|]. cbn. unfold principal_owns_lease in *.
  destruct (principal_matches (sbx_requester l) identity) eqn:E; cbn; [|done]. rewrite E. cbn.
  case_match; cbn; by rewrite IH.
Qed.

(** A caller cannot learn about leases that are not theirs: whatever id or
    alias is asked for, the answer, grant or refusal, is the one a namespace
    without anybody else's leases gives. *)
Theorem access_reveals_no_foreign_lease parse r name identity now :
  resolve_sandbox_target parse r name identity now
  = resolve_sandbox_target parse (only_own identity r) name identity now.
Proof.
  unfold resolve_sandbox_target, only_own. cbn [read_aliases read_lease read_pool].
  assert (resolve_alias (match read_aliases r with
            | Ok listed => Ok (List.filter (fun l => principal_owns_lease l identity) listed)
            | Err e => Err e end) name identity = resolve_alias (read_aliases r) name identity) as ->.
  { unfold resolve_alias. destruct (read_aliases r); [|done]. by rewrite leases_with_alias_own. }
  destruct (if looks_like_lease_id name then _ else _) as [id|e]; [|done].
  destruct (read_lease r id) as [l|e]; [|done].
  destruct (principal_owns_lease l identity) eqn:E; [|done]. cbn. by rewrite E.
Qed.

(** A composed target is reached only through the kubeconfig of the instance
    its provenance records, while the recorded internal lease is still the
    exact object and is still bound to it. *)
Theorem child_cluster_is_the_recorded_one get_internal lease target instance :
  resolve_target_cluster get_internal lease target = Ok (ChildCluster instance) ->
  exists status prov recorded_lease recorded_instance current,
    sbx_status lease = Some status /\ sbx_target status = Some prov
    /\ tp_child_cluster_lease prov = Some recorded_lease /\ tp_child_cluster_instance prov = Some recorded_instance
    /\ get_internal (oref_name recorded_lease) = Ok current /\ bcl_uid current = Some (oref_uid recorded_lease)
    /\ bcl_binding current = Some (oref_name recorded_instance, oref_uid recorded_instance)
    /\ instance = oref_name recorded_instance
    /\ oref_uid recorded_lease <> "" /\ oref_uid recorded_instance <> "".
Proof.
  unfold resolve_target_cluster. case_bool_decide as Hpl; [done|]. intros H.
  destruct (sbx_status lease) as [status|]; [|done]. cbn in H.
  destruct (sbx_target status) as [prov|] eqn:Hp; [|done]. cbn in H.
  destruct (tp_child_cluster_lease prov) as [rl|] eqn:Hrl; [|done]. cbn in H.
  destruct (tp_child_cluster_instance prov) as [ri|] eqn:Hri; [|done]. cbn in H.
  destruct (_ || _) eqn:He; [done|]. cbn in H.
  destruct (get_internal (oref_name rl)) as [cur|] eqn:Hg; [|done].
  destruct (bool_decide _) eqn:Hu in H; [|done]. cbn in H.
  destruct (bcl_binding cur) as [[n u]|] eqn:Hb; [|done]. cbn in H.
  destruct (_ || _) eqn:Hbb in H; [done|]. injection H as <-.
  apply orb_false_iff in He as [He1 He2]. apply orb_false_iff in Hbb as [Hb1 Hb2].
  apply negb_false_iff, String.eqb_eq in Hb1, Hb2. apply String.eqb_neq in He1, He2. apply bool_decide_eq_true in Hu.
  subst. exists status, prov, rl, ri, cur. done.
Qed.

(** A log tail never exceeds a configured ceiling, and without one the caller's
    own bound is kept. *)
Theorem tail_within_ceiling requested limit :
  0 <= limit ->
  (limit <> 0 -> exists n, tail_with_limit requested limit = Some n /\ n <= limit)
  /\ (forall n, requested = Some n -> 0 <= n -> exists m, tail_with_limit requested limit = Some m /\ m <= n)
  /\ (limit = 0 -> forall n, requested = Some n -> 0 <= n -> tail_with_limit requested limit = Some n).
Proof.
  intros Hl. unfold tail_with_limit. split_and!.
  - intros Hn. rewrite (proj2 (Z.eqb_neq _ _)) by done. cbn.
    destruct requested as [n|]; [case_match|]; eexists; (split; [done|unfold i64_max; lia]).
  - intros n -> Hn. rewrite (proj2 (Z.leb_le 0 n)) by done. case_match; eexists; (split; [done|lia]).
  - intros -> n -> Hn. by rewrite (proj2 (Z.leb_le 0 n)) by done.
Qed.

(** ** A concrete lease *)

Definition demo_reference (name uid : string) : SandboxObjectReference :=
  {| oref_api_version := "v1"; oref_kind := "Object"; oref_namespace := Some "sandboxes"; oref_name := name;
     oref_uid := uid; oref_generation := None |}.

Definition demo_principal : SandboxPrincipal :=
  {| pr_provider := "oidc"; pr_issuer := "issuer"; pr_identity := "alice" |}.

Definition demo_provenance : SandboxTargetProvenance :=
  {| tp_namespace := "sandboxes"; tp_child_cluster_lease := None; tp_child_cluster_instance := None;
     tp_child_cluster_kubeconfig_secret := None; tp_child_cluster_kubeconfig_sha256 := None;
     tp_sandbox_template := None; tp_sandbox_warm_pool := None; tp_replacement_pods := []; tp_service := None;
     tp_service_required := None; tp_workspace_volume_required := None;
     tp_sandbox_claim := Some (demo_reference "claim" "claim-uid");
     tp_sandbox := Some (demo_reference "sandbox" "sandbox-uid");
     tp_pod := Some (demo_reference "pod" "pod-uid") |}.

Definition demo_status : SandboxLeaseSummary :=
  {| sbx_phase := SandboxLeasePhase.Ready; sbx_conditions := []; sbx_expires_at := Some "3600";
     sbx_placement := Some PlacedManagement; sbx_target := Some demo_provenance |}.

Definition demo_ready_lease : SandboxLease :=
  {| sbx_name := "sandbox-1"; sbx_namespace := Some "sandboxes"; sbx_uid := Some "lease-uid";
     sbx_annotations := ∅; sbx_deletion_timestamp := None;
     sbx_pool_ref := {| pool_ref_name := "pool"; pool_ref_uid := "pool-uid"; pool_ref_generation := 1 |};
     sbx_alias := Some "dev"; sbx_requester := demo_principal; sbx_status := Some demo_status |}.

Definition demo_pool : SandboxPool :=
  {| sp_name := "pool"; sp_uid := Some "pool-uid"; sp_default_container := "main";
     sp_exposed_ports :=
       [{| port_name := "http"; port_container := "main"; port_single := Some 8080; port_range := None |};
        {| port_name := "dev"; port_container := "main"; port_single := None;
           port_range := Some {| range_start := 3000; range_end := 3999 |} |};
        {| port_name := "wide"; port_container := "main"; port_single := None;
           port_range := Some {| range_start := 1; range_end := 65535 |} |}];
     sp_runner_path := Some "/kobe-runner"; sp_attach_command := None; sp_transport := TransportDirect |}.

Definition demo_reads : AccessReads :=
  {| read_aliases := Ok [demo_ready_lease]; read_lease _ := Ok demo_ready_lease; read_pool _ := Ok demo_pool |}.

Definition demo_clock : string -> option Z := parse_uint u64_max.

Definition demo_target : SandboxTarget :=
  {| t_lease_uid := "lease-uid"; t_placement := TargetManagement; t_namespace := "sandboxes";
     t_claim_uid := "claim-uid"; t_sandbox_name := "sandbox"; t_sandbox_uid := "sandbox-uid";
     t_pod_name := "pod"; t_pod_uid := "pod-uid"; t_container := "main";
     t_ports := [{| dp_name := "http"; dp_reach := Single 8080 |}; {| dp_name := "dev"; dp_reach := Range 3000 3999 |}];
     t_runner_path := Some "/kobe-runner"; t_attach_command := None; t_transport := TransportDirect |}.

Lemma access_addresses_recorded_target_witness :
  exists id pool status prov,
    names_lease demo_reads "dev" demo_principal id /\ read_lease demo_reads id = Ok demo_ready_lease
    /\ principal_matches (sbx_requester demo_ready_lease) demo_principal = true
    /\ read_pool demo_reads (pool_ref_name (sbx_pool_ref demo_ready_lease)) = Ok pool
    /\ sp_uid pool = Some (pool_ref_uid (sbx_pool_ref demo_ready_lease))
    /\ serves demo_clock demo_ready_lease 100 status /\ sbx_target status = Some prov
    /\ addresses prov demo_target /\ sbx_uid demo_ready_lease = Some (t_lease_uid demo_target)
    /\ t_container demo_target = sp_default_container pool /\ t_runner_path demo_target = sp_runner_path pool
    /\ t_attach_command demo_target = sp_attach_command pool /\ t_transport demo_target = sp_transport pool
    /\ reaches_declared pool demo_target
    /\ (t_placement demo_target = TargetManagement <-> sbx_placement status = Some PlacedManagement).
Proof. apply (access_addresses_recorded_target demo_clock demo_reads "dev" demo_principal 100). by vm_compute. Defined.

Lemma ports_reach_exactly_the_allowlist_witness :
  (exists p, declares demo_pool p 3333) /\ resolve_port demo_target (show_uint 8080) = Ok 8080
  /\ resolve_port demo_target "9000" = Err (DeniedNotDeclared "port").
Proof.
  assert (H : target_from_provenance demo_clock demo_ready_lease demo_pool 100 = Ok demo_target) by by vm_compute.
  destruct (ports_reach_exactly_the_allowlist _ _ _ _ _ H) as [Hin Hout _ _]. split_and!; [| |by vm_compute].
  - apply (Hin "3333"). by vm_compute.
  - destruct (Hin "http" 8080) as [p Hp]; [by vm_compute|]. apply (Hout p); [done|lia|].
    intros q [<-|[<-|[<-|[]]]]; by vm_compute.
Defined.
