(* ===== verification/SandboxExtension.v ===== *)
(** * SandboxExtension: extending the runtime TTL of a Ready Sandbox lease

    Model of [extend_sandbox_lease] ([src/api/sandbox.rs]): the decision on one
    read of the lease and of its pool, and the fenced status patch that stores
    it.  Both clock readings of the handler are arguments. *)

From S2P Require Import Prelude Text Durations Quantity Policy SandboxObjects SandboxLifecycle LedgerApi SandboxAccess.

Local Open Scope kobe_scope.

Definition Zsum (l : list Z) : Z := foldr Z.add 0 l.

(** The part of a [SandboxLease] and of a [SandboxPool] that
    [extend_sandbox_lease] reads. *)

Record ExtendableLease : Type := {
  xl_uid : option string;
  xl_resource_version : option string;
  xl_requester : SandboxPrincipal;
  xl_pool : string;
  xl_ttl : string;
  xl_status : option SandboxLeaseStatus;
}.

Record ExtendablePool : Type := { xp_max_ttl : string; xp_max_idle : option string }.

Inductive ExtendRefusal : Type :=
| CrdsUnavailable
| LeaseNotFound
| InfraError (what : string)
| ExtensionNotAllowed
| LeaseNotReady (phase : SandboxLeasePhase.t)
| InvalidExtension
| ExtensionNotPositive
| NoReadiness
| NoExpiry
| AlreadyExpired
| PoolUnavailable
| PoolMaxTtlInvalid
| PoolIdleInvalid
| LeaseTtlInvalid
| ExpiryDerivationMismatch
| ExtensionBudgetExhausted
| MaxIdleCeiling
| MaxTtlCeiling
| LeaseHasNoUid
| LeaseHasNoResourceVersion
| ExpiryOverflow
| ConflictRetryable
| Panicked.

(** The HTTP status of each refusal; a panic closes the connection. *)
Definition refusal_status (r : ExtendRefusal) : option Z :=
  match r with
  | CrdsUnavailable | InfraError _ | PoolMaxTtlInvalid | PoolIdleInvalid => Some 503
  | LeaseNotFound => Some 404
  | ExtensionNotAllowed => Some 403
  | InvalidExtension | ExtensionNotPositive => Some 400
  | Panicked => None
  | _ => Some 409
  end.

Section Clock.
Context (representable : Z -> bool) (to_rfc3339 : Z -> string) (parse_rfc3339 : string -> option Z).

(** The operators [+] on instants and [Duration::seconds], which panic. *)
Definition add_instant (t d : Z) : result Z ExtendRefusal := ok_or (checked_add_signed representable t d) Panicked.
Definition duration_seconds (n : Z) : result Z ExtendRefusal := ok_or (try_seconds n) Panicked.

Definition positive_duration (raw : string) : option Z :=
  d ← parse_duration raw; if 0 <? d then Some d else None.

(** [+] on [i64] in the release profile. *)
Definition i64_add (a b : Z) : Z := (a + b + i64_max + 1) mod (2 * (i64_max + 1)) - (i64_max + 1).

Definition owned_sandbox_lease (read : result ExtendableLease kube_error) (identity : SandboxPrincipal)
  : result (option ExtendableLease) kube_error :=
  match read with
  | Ok lease => Ok (if principal_matches (xl_requester lease) identity then Some lease else None)
  | Err e => if is_404 e then Ok None else Err e
  end.

Record ExtendReads : Type := {
  xr_crds : bool;                                  (** [require_sandbox_crds] *)
  xr_lease : result ExtendableLease kube_error;
  xr_now : Z;                                      (** the reading compared with the current expiry *)
  xr_pool : result ExtendablePool kube_error;
  xr_now_ceiling : Z;                              (** the reading the idle ceiling is anchored at *)
}.

(** [max_idle] as the handler computes it from the pool and the grant. *)
Definition effective_max_idle (pool : ExtendablePool) (grant : SandboxPolicy) : result (option Z) ExtendRefusal :=
  match xp_max_idle pool with
  | None => Ok None
  | Some raw =>
      let? pool_idle := ok_or (positive_duration raw) PoolIdleInvalid in
      Ok (Some (match max_idle grant with Some g => Z.min pool_idle g | None => pool_idle end))
  end.

Definition extension_ceiling (idle : option Z) (ready_at max_ttl now : Z) : result (Z * ExtendRefusal) ExtendRefusal :=
  match idle with
  | Some idle => let? c := add_instant now idle in Ok (c, MaxIdleCeiling)
  | None => let? c := add_instant ready_at max_ttl in Ok (c, MaxTtlCeiling)
  end.

Definition extended (s : SandboxLeaseStatus) (granted : Z) (expires_at : string) (count : Z) : SandboxLeaseStatus :=
  {| ls_phase := ls_phase s; ls_observed_generation := ls_observed_generation s;
     ls_provisioning_deadline := ls_provisioning_deadline s; ls_ready_at := ls_ready_at s;
     ls_expires_at := Some expires_at; ls_extensions_count := count; ls_granted_extension_seconds := granted;
     ls_release_cause := ls_release_cause s; ls_placement := ls_placement s; ls_target := ls_target s;
     ls_teardown := ls_teardown s; ls_conditions := ls_conditions s |}.

(** The status patch: two [test] operations and the new status. *)
Record StatusPatch : Type := { patch_uid : string; patch_resource_version : string; patch_status : SandboxLeaseStatus }.

(** [extend_sandbox_lease] up to the patch it sends. *)
Definition extend_sandbox_lease (r : ExtendReads) (identity : SandboxPrincipal) (policy : Policy) (extend_ttl : string)
  : result StatusPatch ExtendRefusal :=
  let? _ := deny_if (negb (xr_crds r)) CrdsUnavailable in
  let? lease := match owned_sandbox_lease (xr_lease r) identity with
                | Ok (Some lease) => Ok lease
                | Ok None => Err LeaseNotFound
                | Err _ => Err (InfraError "Failed to get Sandbox lease")
                end in
  let? _ := deny_if (negb (is_sandbox_allowed (xl_pool lease) Policy.Lease policy)) ExtensionNotAllowed in
  let? grant := ok_or (sandbox policy) ExtensionNotAllowed in
  let status := default default_sandbox_status (xl_status lease) in
  let? _ := deny_if (negb (bool_decide (ls_phase status = SandboxLeasePhase.Ready))) (LeaseNotReady (ls_phase status)) in
  let? extension := ok_or (parse_duration extend_ttl) InvalidExtension in
  let? _ := deny_if (extension <=? 0) ExtensionNotPositive in
  let? ready_at := ok_or (ls_ready_at status ≫= parse_rfc3339) NoReadiness in
  let? current_expiry := ok_or (ls_expires_at status ≫= parse_rfc3339) NoExpiry in
  let? _ := deny_if (current_expiry <=? xr_now r) AlreadyExpired in
  let? pool := match xr_pool r with
               | Ok pool => Ok pool
               | Err e => Err (if is_404 e then PoolUnavailable else InfraError "Failed to read the SandboxPool")
               end in
  let? pool_max_ttl := ok_or (positive_duration (xp_max_ttl pool)) PoolMaxTtlInvalid in
  let? idle := effective_max_idle pool grant in
  let? spec_ttl := ok_or (positive_duration (xl_ttl lease)) LeaseTtlInvalid in
  let? base := add_instant ready_at spec_ttl in
  let? granted := duration_seconds (ls_granted_extension_seconds status) in
  let? expected_expiry := add_instant base granted in
  let? _ := deny_if (negb (current_expiry =? expected_expiry)) ExpiryDerivationMismatch in
  let? _ := deny_if (is_none idle && (sandbox_max_extensions grant <=? ls_extensions_count status))
              ExtensionBudgetExhausted in
  let? new_expiry := add_instant current_expiry extension in
  let? ceiling := extension_ceiling idle ready_at (Z.min (sandbox_max_ttl grant) pool_max_ttl)
                               (xr_now_ceiling r) in
  let? _ := deny_if (fst ceiling <? new_expiry) (snd ceiling) in
  let? uid := ok_or (match xl_uid lease with Some u => if String.eqb u "" then None else Some u | None => None end)
                LeaseHasNoUid in
  let? resource_version := ok_or (xl_resource_version lease) LeaseHasNoResourceVersion in
  let next_count := u32_add (ls_extensions_count status) 1 in
  let granted_total := i64_add (ls_granted_extension_seconds status) (num_seconds extension) in
  let? total := duration_seconds granted_total in
  let? derived := ok_or (derived_expiry representable ready_at spec_ttl total) ExpiryOverflow in
  Ok {| patch_uid := uid; patch_resource_version := resource_version;
        patch_status := extended status granted_total (to_rfc3339 derived) next_count |}.

(** The API server's answer to the patch: both [test]s must hold of the stored
    lease, and the stored object gets a new version. *)
Definition apply_status_patch (p : StatusPatch) (fresh_version : string) (stored : ExtendableLease)
  : option ExtendableLease :=
  if str_opt_eqb (xl_uid stored) (Some (patch_uid p))
     && str_opt_eqb (xl_resource_version stored) (Some (patch_resource_version p))
  then Some {| xl_uid := xl_uid stored; xl_resource_version := Some fresh_version; xl_requester := xl_requester stored;
               xl_pool := xl_pool stored; xl_ttl := xl_ttl stored; xl_status := Some (patch_status p) |}
  else None.

(** What the caller is told once the patch was answered. *)
Definition extension_answer (p : StatusPatch) (answered : result unit kube_error)
  : result (option string * Z) ExtendRefusal :=
  match answered with
  | Ok _ => Ok (ls_expires_at (patch_status p), ls_extensions_count (patch_status p))
  | Err (Api code _) => Err (if (code =? 409) || (code =? 422) then ConflictRetryable
                             else InfraError "Failed to extend Sandbox lease")
  | Err Transport => Err (InfraError "Failed to extend Sandbox lease")
  end.

(** ** What an accepted extension means *)

Lemma i64_add_small a b : - i64_max - 1 <= a + b <= i64_max -> i64_add a b = a + b.
Proof. intros H. unfold i64_add. rewrite Z.mod_small by lia. lia. Qed.

Lemma positive_duration_parse raw d : positive_duration raw = Some d -> parse_duration raw = Some d.
Proof. unfold positive_duration. destruct (parse_duration raw); cbn; [|done]. case_match; congruence. Qed.

Lemma add_instant_Ok t d x : add_instant t d = Ok x <-> x = t + d /\ representable (t + d) = true.
Proof.
  unfold add_instant, checked_add_signed. destruct (representable (t + d)); cbn; split; try (by intros []); try done.
  - by intros [= <-].
  - by intros [-> _].
Qed.

Lemma duration_seconds_Ok n x : duration_seconds n = Ok x -> x = seconds n /\ Z.abs n <= i64_max / 1000.
Proof.
  unfold duration_seconds. rewrite ok_or_Ok. unfold try_seconds. case_match; [|done]. intros [= <-].
  split; [done|]. by apply Z.leb_le.
Qed.

Lemma duration_seconds_grows n k : Z.abs n <= i64_max / 1000 -> 0 < k <= MAX_SECONDS -> i64_add n k = n + k.
Proof.
  intros Hn Hk. assert (i64_max / 1000 + MAX_SECONDS < i64_max) by (by vm_compute).
  apply i64_add_small. lia.
Qed.

Lemma derived_expiry_Some t ttl granted d :
  derived_expiry representable t ttl granted = Some d ->
  d = t + ttl + granted /\ representable (t + ttl) = true /\ representable d = true.
Proof.
  unfold derived_expiry, checked_add_signed. destruct (representable (t + ttl)) eqn:H1; cbn; [|done].
  destruct (representable (t + ttl + granted)) eqn:H2; [|done]. by intros [= <-].
Qed.

(** An accepted request, field by field. *)
Record Accepted (r : ExtendReads) (identity : SandboxPrincipal) (policy : Policy) (extend_ttl : string)
    (p : StatusPatch) (lease : ExtendableLease) (grant : SandboxPolicy) (st : SandboxLeaseStatus)
    (extension ready_at ttl expiry : Z) (pool : ExtendablePool) (pool_max_ttl : Z) (idle : option Z) : Prop := {
  acc_lease : xr_lease r = Ok lease;
  acc_owner : principal_matches (xl_requester lease) identity = true;
  acc_allowed : is_sandbox_allowed (xl_pool lease) Policy.Lease policy = true;
  acc_grant : sandbox policy = Some grant;
  acc_status : st = default default_sandbox_status (xl_status lease);
  acc_ready : ls_phase st = SandboxLeasePhase.Ready;
  acc_extension : parse_duration extend_ttl = Some extension;
  acc_positive : 0 < extension;
  acc_ready_at : ls_ready_at st ≫= parse_rfc3339 = Some ready_at;
  acc_expiry : ls_expires_at st ≫= parse_rfc3339 = Some expiry;
  acc_live : xr_now r < expiry;
  acc_pool : xr_pool r = Ok pool;
  acc_pool_max : positive_duration (xp_max_ttl pool) = Some pool_max_ttl;
  acc_idle : effective_max_idle pool grant = Ok idle;
  acc_ttl : positive_duration (xl_ttl lease) = Some ttl;
  acc_derived : expiry = ready_at + ttl + seconds (ls_granted_extension_seconds st);
  acc_budget : idle = None -> ls_extensions_count st < sandbox_max_extensions grant;
  acc_ceiling : expiry + extension <= match idle with
                                      | Some idle => xr_now_ceiling r + idle
                                      | None => ready_at + Z.min (sandbox_max_ttl grant) pool_max_ttl
                                      end;
  acc_uid : xl_uid lease = Some (patch_uid p);
  acc_version : xl_resource_version lease = Some (patch_resource_version p);
  acc_granted : try_seconds (ls_granted_extension_seconds st + num_seconds extension)
                = Some (seconds (ls_granted_extension_seconds st + num_seconds extension));
  acc_representable : derived_expiry representable ready_at ttl
                        (seconds (ls_granted_extension_seconds st + num_seconds extension)) = Some (expiry + extension);
  acc_patch : patch_status p = extended st (ls_granted_extension_seconds st + num_seconds extension)
                                 (to_rfc3339 (expiry + extension)) (u32_add (ls_extensions_count st) 1);
}.

Lemma owned_sandbox_lease_Some read identity l :
  owned_sandbox_lease read identity = Ok (Some l) -> read = Ok l /\ principal_matches (xl_requester l) identity = true.
Proof.
  unfold owned_sandbox_lease. destruct read as [x|e]; [|by case_match].
  destruct (principal_matches (xl_requester x) identity) eqn:Hp; [|done]. by intros [= <-].
Qed.

Lemma extension_ceiling_Ok idle ready_at max_ttl now c :
  extension_ceiling idle ready_at max_ttl now = Ok c ->
  fst c = match idle with Some idle => now + idle | None => ready_at + max_ttl end.
Proof. unfold extension_ceiling. intros H. destruct idle; unbind H; injection H as <-; by apply add_instant_Ok in Hok as [-> _]. Qed.

Lemma extend_sandbox_lease_Ok r identity policy extend_ttl p :
  extend_sandbox_lease r identity policy extend_ttl = Ok p ->
  exists lease grant st extension ready_at ttl expiry pool pool_max_ttl idle,
    Accepted r identity policy extend_ttl p lease grant st extension ready_at ttl expiry pool pool_max_ttl idle.
Proof.
  unfold extend_sandbox_lease. intros H.
  destruct (deny_if (negb (xr_crds r)) _) as [[]|]; [|done].
  destruct (owned_sandbox_lease (xr_lease r) identity) as [[lease|]|] eqn:Hown; try done.
  apply owned_sandbox_lease_Some in Hown as [Hread Howner]. set (st := default default_sandbox_status (xl_status lease)) in *.
  destruct (xr_pool r) as [pool|] eqn:Hpool; [|by unbind H].
  unbind H. injection H as <-.
  repeat match goal with
  | Hx : deny_if _ _ = Ok _ |- _ => rewrite deny_if_Ok in Hx
  | Hx : ok_or _ _ = Ok _ |- _ => rewrite ok_or_Ok in Hx
  | Hx : add_instant _ _ = Ok _ |- _ => apply add_instant_Ok in Hx as [-> ?]
  end.
  apply duration_seconds_Ok in Hok11 as [-> Hsmall]. apply extension_ceiling_Ok in Hok16.
  rewrite negb_false_iff in Hok, Hok1, Hok13. apply Z.eqb_eq in Hok13 as Hx.
  destruct (parse_duration_range _ _ Hok2) as (k & -> & Hk).
  rewrite num_seconds_seconds, duration_seconds_grows in * by done.
  pose proof Hok20 as [-> _]%duration_seconds_Ok. unfold duration_seconds in Hok20. rewrite ok_or_Ok in Hok20.
  pose proof Hok21 as (-> & _ & _)%derived_expiry_Some.
  replace (a4 + a9 + seconds (ls_granted_extension_seconds st + k)) with (a5 + seconds k) in *
    by (unfold seconds in *; lia).
  exists lease, a0, st, (seconds k), a4, a9, a5, pool, a7, a8.
  rewrite andb_false_iff in Hok14. apply bool_decide_eq_true in Hok1.
  split; rewrite ?num_seconds_seconds; cbn; try done; try lia.
  - intros ->. destruct Hok14; [done|lia].
  - destruct (xl_uid lease) as [u|]; [|done]. case_match; congruence.
Qed.

(** ** Interleaved extensions

    The stored lease with every version it ever had: a request may decide on
    any of them.  Other writers (the controllers) change phase, conditions and
    provenance, never the readiness anchor nor the derivation of the expiry. *)

Record VersionedLease : Type := { vl_current : ExtendableLease; vl_past : list ExtendableLease }.

Definition versions (s : VersionedLease) : list ExtendableLease := vl_current s :: vl_past s.

Definition version_fresh (s : VersionedLease) (l : ExtendableLease) : Prop :=
  Forall (fun old => xl_resource_version old <> xl_resource_version l) (versions s).

Definition store (s : VersionedLease) (l : ExtendableLease) : VersionedLease :=
  {| vl_current := l; vl_past := versions s |}.

(** The fields of a status that only an extension changes. *)
Definition derivation (st : SandboxLeaseStatus) :=
  (ls_provisioning_deadline st, ls_observed_generation st, ls_ready_at st, ls_expires_at st,
   ls_extensions_count st, ls_granted_extension_seconds st).

Inductive lease_step : VersionedLease -> option Z -> VersionedLease -> Prop :=
| extension_lands s r l identity policy extend_ttl extension p version new :
    In l (versions s) -> xr_lease r = Ok l ->
    extend_sandbox_lease r identity policy extend_ttl = Ok p ->
    parse_duration extend_ttl = Some extension ->
    apply_status_patch p version (vl_current s) = Some new ->
    version_fresh s new ->
    lease_step s (Some extension) (store s new)
| other_write s new st st' :
    xl_status (vl_current s) = Some st -> xl_status new = Some st' -> derivation st' = derivation st ->
    xl_ttl new = xl_ttl (vl_current s) -> version_fresh s new ->
    lease_step s None (store s new).

Inductive lease_run : VersionedLease -> list Z -> VersionedLease -> Prop :=
| run_done s : lease_run s [] s
| run_extension s d s1 ds s2 : lease_step s (Some d) s1 -> lease_run s1 ds s2 -> lease_run s (d :: ds) s2
| run_other s s1 ds s2 : lease_step s None s1 -> lease_run s1 ds s2 -> lease_run s ds s2.

(** No two versions share a resourceVersion. *)
Definition versions_distinct (s : VersionedLease) : Prop := NoDup (map xl_resource_version (versions s)).

Lemma store_distinct s l : version_fresh s l -> versions_distinct s -> versions_distinct (store s l).
Proof.
  intros Hf Hd.
  change (NoDup (xl_resource_version l :: map xl_resource_version (versions s))). apply NoDup_cons. split; [|done].
  rewrite list_elem_of_In, in_map_iff. intros (old & Heq & Hin).
  unfold version_fresh in Hf. rewrite List.Forall_forall in Hf. by apply (Hf old).
Qed.

Lemma patched_version_read s p version new l :
  versions_distinct s -> In l (versions s) -> xl_resource_version l = Some (patch_resource_version p) ->
  apply_status_patch p version (vl_current s) = Some new -> l = vl_current s.
Proof.
  intros Hd Hin Hv Hp. unfold apply_status_patch in Hp. destruct (_ && _) eqn:Ht; [|done].
  apply andb_true_iff in Ht as [_ Ht]. apply str_opt_eqb_eq in Ht.
  destruct Hin as [<-|Hin]; [done|]. exfalso. unfold versions_distinct, versions in Hd. cbn in Hd.
  apply NoDup_cons in Hd as [Hn _]. apply Hn, list_elem_of_In, in_map_iff. exists l. split; [congruence|done].
Qed.

Context (ready_at ttl : Z) (generation : Z).

(** The status derives its expiry from the readiness instant, the requested TTL
    and what was granted. *)
Definition derives (count granted : Z) (l : ExtendableLease) : Prop :=
  exists st deadline expiry,
    xl_status l = Some st /\ parse_duration (xl_ttl l) = Some ttl /\
    ls_observed_generation st = Some generation /\
    ls_provisioning_deadline st ≫= parse_rfc3339 = Some deadline /\ ready_at <= deadline /\
    ls_ready_at st = Some (to_rfc3339 ready_at) /\ ls_expires_at st = Some (to_rfc3339 expiry) /\
    ls_extensions_count st = u32_wrap count /\ ls_granted_extension_seconds st = granted /\ 0 <= granted /\
    try_seconds granted = Some (seconds granted) /\
    derived_expiry representable ready_at ttl (seconds granted) = Some expiry.

Context (Hround : forall t, representable t = true -> parse_rfc3339 (to_rfc3339 t) = Some t)
        (Hready : representable ready_at = true).

Lemma u32_add_wrap a : u32_add (u32_wrap a) 1 = u32_wrap (a + 1).
Proof. unfold u32_add, u32_wrap. by rewrite Zplus_mod_idemp_l. Qed.

Lemma num_seconds_nonneg d : 0 <= d -> 0 <= num_seconds d.
Proof. intros H. unfold num_seconds, nanos_per_second. apply Z.quot_pos; lia. Qed.

Lemma lease_step_derives s e s' count granted :
  lease_step s e s' -> versions_distinct s -> derives count granted (vl_current s) ->
  versions_distinct s' /\
  derives (count + if e is Some _ then 1 else 0) (granted + if e is Some d then num_seconds d else 0) (vl_current s').
Proof.
  intros Hs Hd (st & deadline & expiry & Hst & Httl & Hg & Hdl & Hle & Hra & Hex & Hc & Hgr & Hpos & Htry & Hder).
  destruct Hs as [s r l identity policy text ext p version new Hin Hr Hext Hparse Hpatch Hf
                 |s new st1 st' Hst1 Hst' Hsame Httl' Hf]; (split; [by apply store_distinct|]); cbn [vl_current store].
  - apply extend_sandbox_lease_Ok in Hext as (l' & grant & st1 & d & t & ttl' & x & pool & pm & idle & [?????????????????????? Hpt]).
    assert (l' = l) as -> by congruence. assert (d = ext) as -> by congruence.
    assert (l = vl_current s) as -> by eauto using patched_version_read.
    assert (st1 = st) as -> by (rewrite Hst in *; done).
    assert (t = ready_at) as -> by (rewrite Hra in *; cbn in *; rewrite Hround in * by done; congruence).
    assert (ttl' = ttl) as -> by (apply positive_duration_parse in acc_ttl0; congruence).
    pose proof (derived_expiry_Some _ _ _ _ Hder) as (_ & _ & Hrep).
    assert (x = expiry) as -> by (rewrite Hex in *; cbn in *; rewrite Hround in * by done; congruence).
    unfold apply_status_patch in Hpatch. destruct (_ && _); [|done]. injection Hpatch as <-.
    rewrite Hgr in *. unfold derives. cbn. rewrite Hpt. eexists _, deadline, (expiry + ext). cbn.
    split_and!; try done; [by rewrite Hc, u32_add_wrap|]. pose proof (num_seconds_nonneg ext ltac:(lia)). lia.
  - rewrite Hst in Hst1. injection Hst1 as <-. unfold derivation in Hsame. injection Hsame as E1 E2 E3 E4 E5 E6.
    exists st', deadline, expiry. rewrite E1, E2, E3, E4, E5, E6, Httl', !Z.add_0_r. split_and!; done.
Qed.

Lemma lease_run_derives s ds s' : lease_run s ds s' -> forall count granted,
  versions_distinct s -> derives count granted (vl_current s) ->
  derives (count + Z.of_nat (length ds)) (granted + Zsum (map num_seconds ds)) (vl_current s').
Proof.
  induction 1 as [s|s d s1 ds s2 Hs _ IH|s s1 ds s2 Hs _ IH]; intros count granted Hd Hder.
  - cbn. by rewrite !Z.add_0_r.
  - destruct (lease_step_derives _ _ _ _ _ Hs Hd Hder) as [Hd1 Hder1]. specialize (IH _ _ Hd1 Hder1).
    cbn [map Zsum length] in *. rewrite Nat2Z.inj_succ. by rewrite <- !Z.add_assoc, Z.add_1_l in IH.
  - destruct (lease_step_derives _ _ _ _ _ Hs Hd Hder) as [Hd1 Hder1]. specialize (IH _ _ Hd1 Hder1).
    by rewrite !Z.add_0_r in IH.
Qed.

(** A Ready status the controller's derivation confirms. *)
Lemma marked_derives l st :
  xl_status l = Some st -> parse_duration (xl_ttl l) = Some ttl -> is_u32 (ls_extensions_count st) ->
  mark_sandbox_ready representable to_rfc3339 parse_rfc3339 st generation ready_at ttl = Ok st ->
  derives (ls_extensions_count st) (ls_granted_extension_seconds st) l.
Proof.
  intros Hst Httl Hc H. pose proof (mark_sandbox_ready_Ok _ _ _ _ _ _ _ _ H) as (x & Hd & Heq).
  unfold mark_sandbox_ready in H. unbind H. rewrite ok_or_Ok in Hok0. rewrite ok_or_Ok in Hok1, Hok3. rewrite deny_if_Ok in Hok2, Hok4.
  pose proof (try_seconds_Some _ _ Hok3) as ->.
  exists st, a1, x. rewrite Hok0, u32_wrap_small by done.
  split_and!; try done; try lia; [by rewrite Heq|by rewrite Heq|by rewrite Heq|].
  unfold seconds, nanos_per_second in Hok4. lia.
Qed.

Lemma derives_marked count granted l st :
  0 < ttl -> xl_status l = Some st -> ls_phase st = SandboxLeasePhase.Ready -> derives count granted l ->
  mark_sandbox_ready representable to_rfc3339 parse_rfc3339 st generation ready_at ttl = Ok st.
Proof.
  intros Httl Hst Hp (st' & deadline & expiry & Hst' & _ & Hg & Hdl & Hle & Hra & Hex & _ & Hgr & Hpos & Htry & Hder).
  rewrite Hst in Hst'. injection Hst' as <-. unfold mark_sandbox_ready.
  rewrite (proj2 (Z.leb_gt _ _)) by done. cbn [deny_if].
  destruct (ls_provisioning_deadline st) as [text|]; [|done]. cbn in Hdl. cbn [ok_or]. rewrite Hdl. cbn [ok_or].
  rewrite (proj2 (Z.ltb_ge _ _)) by done. cbn [deny_if]. rewrite Hgr, Htry. cbn [ok_or].
  rewrite (proj2 (Z.ltb_ge _ _)) by (unfold seconds, nanos_per_second; lia). cbn [deny_if]. rewrite Hder. cbn [ok_or].
  rewrite bool_decide_true by done. rewrite Hra, Hex, Hg.
  by rewrite !(proj2 (str_opt_eqb_eq _ _)), bool_decide_true.
Qed.

End Clock.

(** C26. Extensions and the controller agree on one expiry: from a Ready lease
    whose status the controller's readiness derivation confirms, after any
    interleaving of extensions decided on current or stale reads with other
    writes of the lease, the count is the number that landed, the grant is
    their sum, the expiry is readiness plus the requested TTL plus the grant,
    and while the lease is Ready the controller's derivation confirms the
    status unchanged instead of refusing it. *)
Theorem extensions_keep_the_derivation (representable : Z -> bool) (to_rfc3339 : Z -> string)
    (parse_rfc3339 : string -> option Z) (s s' : VersionedLease) (ds : list Z) (st : SandboxLeaseStatus)
    (ready_at ttl generation : Z)
    (Hround : forall t, representable t = true -> parse_rfc3339 (to_rfc3339 t) = Some t)
    (Hready : representable ready_at = true) (Hdistinct : versions_distinct s)
    (Hst : xl_status (vl_current s) = Some st) (Hcount : is_u32 (ls_extensions_count st))
    (Httl : parse_duration (xl_ttl (vl_current s)) = Some ttl)
    (Hmark : mark_sandbox_ready representable to_rfc3339 parse_rfc3339 st generation ready_at ttl = Ok st)
    (Hrun : lease_run representable to_rfc3339 parse_rfc3339 s ds s') :
  let granted := ls_granted_extension_seconds st + Zsum (map num_seconds ds) in
  exists st', xl_status (vl_current s') = Some st' /\
    ls_extensions_count st' = u32_wrap (ls_extensions_count st + Z.of_nat (length ds)) /\
    ls_granted_extension_seconds st' = granted /\
    ls_expires_at st' = Some (to_rfc3339 (ready_at + ttl + seconds granted)) /\
    (ls_phase st' = SandboxLeasePhase.Ready ->
     mark_sandbox_ready representable to_rfc3339 parse_rfc3339 st' generation ready_at ttl = Ok st').
Proof.
  intros granted. destruct (parse_duration_range _ _ Httl) as (k & Hk & ?).
  pose proof (marked_derives _ to_rfc3339 parse_rfc3339 ready_at ttl generation _ _ Hst Httl Hcount Hmark) as Hder.
  pose proof (lease_run_derives _ _ _ _ _ _ Hround Hready _ _ _ Hrun _ _ Hdistinct Hder) as Hend.
  pose proof Hend as (st' & deadline & expiry & Hst' & _ & _ & _ & _ & _ & Hex & Hc & Hgr & _ & _ & Hx).
  apply derived_expiry_Some in Hx as (-> & _ & _). exists st'. split_and!; try done.
  intros Hp. eapply derives_marked; try done. unfold seconds, nanos_per_second in Hk. lia.
Qed.

(** No extension passes its ceiling: an accepted request comes from the
    lease's own principal under a policy that grants leasing from its pool,
    finds the lease Ready and not yet expired, and moves the expiry forward by
    exactly the requested span; without an idle window the result is at most
    readiness plus the smaller of the grant's and the pool's maximum TTL and
    the count was below the grant's maximum, with one it is at most the
    smaller of the pool's and the grant's window past the clock. *)
Theorem extension_within_ceiling (representable : Z -> bool) (to_rfc3339 : Z -> string)
    (parse_rfc3339 : string -> option Z) (r : ExtendReads) (identity : SandboxPrincipal) (policy : Policy)
    (extend_ttl : string) (p : StatusPatch)
    (Hok : extend_sandbox_lease representable to_rfc3339 parse_rfc3339 r identity policy extend_ttl = Ok p) :
  exists lease grant st pool d ready_at expiry pool_max idle,
    xr_lease r = Ok lease /\ xl_status lease = Some st /\ xr_pool r = Ok pool /\ sandbox policy = Some grant /\
    principal_matches (xl_requester lease) identity = true /\
    is_sandbox_allowed (xl_pool lease) Policy.Lease policy = true /\
    ls_phase st = SandboxLeasePhase.Ready /\ parse_duration extend_ttl = Some d /\ 0 < d /\
    ls_ready_at st ≫= parse_rfc3339 = Some ready_at /\ ls_expires_at st ≫= parse_rfc3339 = Some expiry /\
    parse_duration (xp_max_ttl pool) = Some pool_max /\ effective_max_idle pool grant = Ok idle /\
    xr_now r < expiry /\ ls_expires_at (patch_status p) = Some (to_rfc3339 (expiry + d)) /\
    match idle with
    | None => expiry + d <= ready_at + Z.min (sandbox_max_ttl grant) pool_max /\
              ls_extensions_count st < sandbox_max_extensions grant
    | Some window => expiry + d <= xr_now_ceiling r + window
    end.
Proof.
  apply extend_sandbox_lease_Ok in Hok as (lease & grant & st & d & t & ttl & x & pool & pm & idle & []).
  assert (xl_status lease = Some st) as Hst.
  { destruct (xl_status lease); cbn in *; [congruence|]. subst st. discriminate. }
  exists lease, grant, st, pool, d, t, x, pm, idle. split_and!; try done.
  - by apply positive_duration_parse.
  - by rewrite acc_patch0.
  - destruct idle; [done|]. auto.
Qed.

(** ** A lease extended twice *)

Definition clock_range (t : Z) : bool := (0 <=? t) && (t <=? i64_max).
Definition clock_parse : string -> option Z := parse_uint i64_max.

Lemma clock_round t : clock_range t = true -> clock_parse (show_uint t) = Some t.
Proof. unfold clock_range, clock_parse. intros H. apply parse_uint_show. lia. Qed.

Definition extension_policy : Policy :=
  {| allowed_pools := []; max_ttl := 0; max_concurrent_leases := 0; default_priority := 50; max_extensions := 0;
     sandbox := Some {| sandbox_allowed_pools := ["*"]; verbs := [Policy.Lease]; sandbox_max_ttl := seconds 7200;
                        max_idle := None; sandbox_max_concurrent_leases := 1; sandbox_max_extensions := 2;
                        resource_ceiling := {| SandboxQuantity.max_cpu := "1"; SandboxQuantity.max_memory := "1Gi" |} |} |}.

Definition ready_status (count granted : Z) : SandboxLeaseStatus :=
  {| ls_phase := SandboxLeasePhase.Ready; ls_observed_generation := Some 1;
     ls_provisioning_deadline := Some (show_uint (seconds 300)); ls_ready_at := Some (show_uint (seconds 100));
     ls_expires_at := Some (show_uint (seconds (3700 + granted))); ls_extensions_count := count;
     ls_granted_extension_seconds := granted; ls_release_cause := None; ls_placement := None; ls_target := None;
     ls_teardown := no_teardown; ls_conditions := [] |}.

Definition ready_lease (version : string) (count granted : Z) : ExtendableLease :=
  {| xl_uid := Some "lease-uid"; xl_resource_version := Some version; xl_requester := demo_principal;
     xl_pool := "pool"; xl_ttl := "1h"; xl_status := Some (ready_status count granted) |}.

Definition extension_reads (l : ExtendableLease) : ExtendReads :=
  {| xr_crds := true; xr_lease := Ok l; xr_now := seconds 200;
     xr_pool := Ok {| xp_max_ttl := "8h"; xp_max_idle := None |}; xr_now_ceiling := seconds 200 |}.

Lemma extension_within_ceiling_witness :
  let r := extension_reads (ready_lease "1" 0 0) in
  let p := {| patch_uid := "lease-uid"; patch_resource_version := "1"; patch_status := ready_status 1 600 |} in
  exists grant st expiry d, ls_expires_at st ≫= clock_parse = Some expiry /\ sandbox extension_policy = Some grant /\
    ls_expires_at (patch_status p) = Some (show_uint (expiry + d)) /\ xr_now r < expiry.
Proof.
  intros r p.
  destruct (extension_within_ceiling clock_range show_uint clock_parse r demo_principal extension_policy "10m" p)
    as (lease & grant & st & pool & d & ready_at & expiry & pool_max & idle & H); [by vm_compute|].
  exists grant, st, expiry, d. tauto.
Defined.

Definition demo_versions : VersionedLease := {| vl_current := ready_lease "1" 0 0; vl_past := [] |}.
Definition demo_versions' : VersionedLease :=
  store (store demo_versions (ready_lease "2" 1 600)) (ready_lease "3" 2 660).

Lemma demo_extensions_run :
  lease_run clock_range show_uint clock_parse demo_versions [seconds 600; seconds 60] demo_versions'.
Proof.
  eapply run_extension; [|eapply run_extension; [|apply run_done]].
  - eapply (extension_lands _ _ _ _ (extension_reads (ready_lease "1" 0 0)) _ demo_principal extension_policy "10m" _
      {| patch_uid := "lease-uid"; patch_resource_version := "1"; patch_status := ready_status 1 600 |} "2");
      [by left|done|by vm_compute..|]. by repeat constructor.
  - eapply (extension_lands _ _ _ _ (extension_reads (ready_lease "2" 1 600)) _ demo_principal extension_policy "1m" _
      {| patch_uid := "lease-uid"; patch_resource_version := "2"; patch_status := ready_status 2 660 |} "3");
      [by left|done|by vm_compute..|]. by repeat constructor.
Qed.

Lemma extensions_keep_the_derivation_witness :
  exists st', xl_status (vl_current demo_versions') = Some st' /\ ls_extensions_count st' = 2 /\
    ls_granted_extension_seconds st' = 660 /\ ls_expires_at st' = Some (show_uint (seconds 4360)).
Proof.
  destruct (extensions_keep_the_derivation clock_range show_uint clock_parse demo_versions demo_versions'
    [seconds 600; seconds 60] (ready_status 0 0) (seconds 100) (seconds 3600) 1) as (st' & H);
    [exact clock_round|by vm_compute|by repeat constructor; set_solver|done|by vm_compute|by vm_compute|by vm_compute
    |exact demo_extensions_run|].
  exists st'. destruct H as (? & -> & -> & -> & _). by vm_compute.
Defined.
