(* ===== verification/RunnerClient.v ===== *)
(** * RunnerClient: how the API reads the runner

    Model of [src/api/sandbox_runner.rs]: one exec against the runner, the reply
    read from its stdout, the report translated into an outcome that may be
    persisted, and the output of a finished command read in windows.  The exec
    stream and [serde_json] are parameters: an answer of the exec is an
    argument, and an envelope is read from one line by [envelope_of]. *)

From S2P Require Import Prelude Text Execution Runner SandboxAccess.

Local Open Scope kobe_scope.

(** ** Failures *)

Inductive RunnerCallFailure : Type := Unreachable | Unreadable | Refused (code : RunnerErrorCode).

Definition failure_reason_code (f : RunnerCallFailure) : string :=
  match f with
  | Unreachable => "runner_unreachable"
  | Unreadable => "runner_unreadable"
  | Refused ErrNotFound => "runner_forgot_execution"
  | Refused ErrConflict => "runner_id_conflict"
  | Refused ErrInvalidRequest => "runner_rejected_request"
  | Refused ErrInternal => "runner_internal_error"
  end.

Definition state_unverifiable (f : RunnerCallFailure) : bool :=
  match f with Unreachable => false | _ => true end.

Definition failure_http_status (f : RunnerCallFailure) : Z :=
  match f with Refused ErrConflict => 409 | Refused ErrNotFound => 404 | _ => 502 end.

(** ** Outcomes *)

Record RunnerOutcome : Type := {
  out_state : ExecutionState.t;
  out_exit_code : option Z;
  out_reason : string;
}.

Definition recognised_reasons : list string :=
  [Reason.COMPLETED; Reason.TIMED_OUT; Reason.CANCELLED; Reason.SIGNALLED; Reason.SPAWN_FAILED;
   Reason.SUPERVISOR_NOT_STARTED; Reason.SUPERVISOR_SETUP_FAILED; Reason.SUPERVISOR_LOST; Reason.OUTCOME_UNOBSERVED].

Definition bounded_reason (reason : string) : string :=
  if existsb (String.eqb reason) recognised_reasons then reason else "runner_reason_unrecognised".

Definition in_range (low high n : Z) : bool := (low <=? n) && (n <=? high).

(** The arms of [RunnerState::Failed], in their order. *)
Definition failed_outcome (code signal : option Z) : ExecutionState.t * option Z :=
  if match code with Some c => negb (in_range 1 255 c) | None => false end then (ExecutionState.Unknown, None)
  else if match signal with Some s => negb (in_range 1 127 s) | None => false end then (ExecutionState.Unknown, None)
  else match code, signal with
       | Some c, _ => (ExecutionState.Failed, Some c)
       | None, Some s => (ExecutionState.Failed, Some (128 + s))
       | None, None => (ExecutionState.Unknown, None)
       end.

Definition outcome_from_report (r : ExecutionReport) : RunnerOutcome :=
  let reason := match reason r with Some why => bounded_reason why | None => "runner_gave_no_reason" end in
  let '(state, code) :=
    match report_state r with
    | Running => (ExecutionState.Running, None)
    | Succeeded => match exit_code r with
                   | Some 0 => (ExecutionState.Succeeded, Some 0)
                   | _ => (ExecutionState.Unknown, None)
                   end
    | Failed => failed_outcome (exit_code r) (signal r)
    | Cancelled => (ExecutionState.Cancelled, None)
    | TimedOut => (ExecutionState.TimedOut, None)
    | Unknown => (ExecutionState.Unknown, None)
    end in
  {| out_state := state; out_exit_code := code; out_reason := reason |}.

(** ** Requests *)

(** [std::time::Duration]: whole seconds and nanoseconds below a second. *)
Record StdDuration : Type := { as_secs : Z; subsec_nanos : Z }.

Section Client.
(** [base64::engine::general_purpose::STANDARD] and [serde_json]. *)
Context (encode_base64 : list ascii -> string) (decode_base64 : string -> option (list ascii)).
Context (output_bytes : Z).

Definition start_request (id : string) (argv : list string) (cwd : option string) (timeout : StdDuration)
    (stdin : option (list ascii)) : StartRequest :=
  {| protocol := PROTOCOL_VERSION; req_id := id; argv := argv; cwd := cwd;
     timeout_seconds := Z.max (as_secs timeout + (if 0 <? subsec_nanos timeout then 1 else 0)) 1;
     max_output_bytes := output_bytes; stdin_base64 := encode_base64 <$> stdin |}.

Definition control_argv (runner_path verb id : string) (extra : list string) : list string :=
  [runner_path; verb; "--id"; id] ++ extra.

(** ** Replies *)

(** A [LogChunk] as it travels: the window, and whose it is. *)
Record WireChunk : Type := { wc_id : string; wc_stream : LogStream; wc_chunk : LogChunk }.

Inductive WireReply : Type :=
| ReplyStarted (report : ExecutionReport)
| ReplyState (report : ExecutionReport)
| ReplyLogs (chunk : WireChunk)
| ReplyRefused (code : RunnerErrorCode).

Record Envelope : Type := { env_protocol : Z; env_reply : WireReply }.

(** [serde_json::from_str::<Envelope>] *)
Context (envelope_of : string -> option Envelope).

(** [std::str::from_utf8]: well-formed sequences, shortest form, no surrogates. *)
Definition continuation (low high : Z) (c : ascii) : bool := in_range low high (byte_of c).

Fixpoint valid_utf8 (s : string) : bool :=
  match s with
  | EmptyString => true
  | String c rest =>
      let b := byte_of c in
      if b <? 128 then valid_utf8 rest
      else match rest with
           | EmptyString => false
           | String c1 rest1 =>
               if in_range 194 223 b then continuation 128 191 c1 && valid_utf8 rest1
               else match rest1 with
                    | EmptyString => false
                    | String c2 rest2 =>
                        if in_range 224 239 b then
                          continuation (if b =? 224 then 160 else 128) (if b =? 237 then 159 else 191) c1
                          && continuation 128 191 c2 && valid_utf8 rest2
                        else match rest2 with
                             | EmptyString => false
                             | String c3 rest3 =>
                                 in_range 240 244 b
                                 && continuation (if b =? 240 then 144 else 128) (if b =? 244 then 143 else 191) c1
                                 && continuation 128 191 c2 && continuation 128 191 c3 && valid_utf8 rest3
                             end
                    end
           end
  end.

(** [text.lines().map(str::trim).rfind(nonempty)]; a carriage return that
    [lines] strips is whitespace that [trim] strips. *)
Definition last_line (text : string) : option string :=
  List.find (fun line => negb (String.eqb line "")) (rev (map trim (split_char "010" text))).

Definition parse_reply (stdout : string) : result WireReply RunnerCallFailure :=
  let? _ := deny_if (negb (valid_utf8 stdout)) Unreadable in
  let? line := ok_or (last_line stdout) Unreachable in
  let? envelope := ok_or (envelope_of line) Unreadable in
  let? _ := deny_if (negb (env_protocol envelope =? PROTOCOL_VERSION)) Unreadable in
  match env_reply envelope with
  | ReplyRefused code => Err (Refused code)
  | reply => Ok reply
  end.

Inductive ExpectedReportReply : Type := ExpectStarted | ExpectState.

Definition report_from (reply : WireReply) (expected : ExpectedReportReply) (expected_id : string)
  : result ExecutionReport RunnerCallFailure :=
  let? report := match expected, reply with
                 | ExpectStarted, ReplyStarted report | ExpectState, ReplyState report => Ok report
                 | _, _ => Err Unreadable
                 end in
  let? _ := deny_if (negb (String.eqb (report_id report) expected_id)) Unreadable in
  Ok report.

(** ** Calls *)

(** What [exec_capped_until] captured. *)
Record RawExecOutput : Type := { raw_stdout : string; raw_truncated : bool; raw_success : bool }.

Definition interpret_runner_stdout (stdout : string) (truncated success : bool)
  : result string (RunnerCallFailure * string) :=
  if truncated then Err (Unreadable, "truncated_reply")
  else if negb (String.eqb stdout "") then Ok stdout
  else if success then Err (Unreachable, "empty_reply")
  else Err (Unreachable, "nonzero_exit").

Definition call_inner (raw : result RawExecOutput SandboxAccessDenied)
  : result string (RunnerCallFailure * string) :=
  match raw with
  | Err (DeniedNotDeclared _) => Err (Unreadable, "not_declared")
  | Err other => Err (Unreachable, denied_reason_code other)
  | Ok raw => interpret_runner_stdout (raw_stdout raw) (raw_truncated raw) (raw_success raw)
  end.

Definition call (raw : result RawExecOutput SandboxAccessDenied) : result string RunnerCallFailure :=
  match call_inner raw with Ok stdout => Ok stdout | Err (failure, _) => Err failure end.

(** [start], [poll] and [cancel], given what the exec answered. *)
Definition start_answer (id : string) (raw : result RawExecOutput SandboxAccessDenied)
  : result ExecutionReport RunnerCallFailure :=
  let? output := call raw in
  let? reply := parse_reply output in
  report_from reply ExpectStarted id.

Definition state_answer (id : string) (raw : result RawExecOutput SandboxAccessDenied)
  : result ExecutionReport RunnerCallFailure :=
  let? output := call raw in
  let? reply := parse_reply output in
  report_from reply ExpectState id.

(** ** Output *)

Record RunnerLogChunk : Type := {
  rc_offset : Z;
  rc_next_offset : Z;
  rc_bytes : list ascii;
  rc_truncated : bool;
  rc_more : bool;
}.

Definition validate_log_chunk (chunk : WireChunk) (expected_id : string) (expected_stream : LogStream)
    (expected_offset : Z) : result RunnerLogChunk RunnerCallFailure :=
  let c := wc_chunk chunk in
  let? _ := deny_if (negb (String.eqb (wc_id chunk) expected_id)
                     || negb (bool_decide (wc_stream chunk = expected_stream))
                     || negb (chunk_offset c =? expected_offset)) Unreadable in
  let? bytes := ok_or (decode_base64 (data_base64 c)) Unreadable in
  let len := Z.of_nat (length bytes) in
  let? _ := deny_if (MAX_LOG_CHUNK_BYTES <? len) Unreadable in
  let? _ := deny_if (u64_max <? chunk_offset c + len) Unreadable in
  let? _ := deny_if (negb (next_offset c =? chunk_offset c + len) || (more c && (len =? 0))) Unreadable in
  Ok {| rc_offset := chunk_offset c; rc_next_offset := next_offset c; rc_bytes := bytes;
        rc_truncated := chunk_truncated c; rc_more := more c |}.

Definition read_output (id : string) (stream : LogStream) (offset : Z)
    (raw : result RawExecOutput SandboxAccessDenied) : result RunnerLogChunk RunnerCallFailure :=
  let? output := call raw in
  let? reply := parse_reply output in
  match reply with
  | ReplyLogs chunk => validate_log_chunk chunk id stream offset
  | _ => Err Unreadable
  end.

(** [sandbox_limits::capacity] on a 64-bit target. *)
Definition capacity (value : Z) : Z := if value =? 0 then u64_max else value.

(** The loop of [read_stream_to_cap]; [fetch n offset] is what the exec of the
    [n]th window answers.  [None] when the fuel ends first. *)
Fixpoint read_stream (fuel n : nat) (fetch : nat -> Z -> result RawExecOutput SandboxAccessDenied)
    (id : string) (stream : LogStream) (offset : Z) (output : list ascii) (truncated : bool)
  : option (result (list ascii * bool) RunnerCallFailure) :=
  match fuel with
  | O => None
  | S fuel =>
      match read_output id stream offset (fetch n offset) with
      | Err e => Some (Err e)
      | Ok chunk =>
          let remaining := saturating_sub (capacity output_bytes) (Z.of_nat (length output)) in
          let kept := Z.min (Z.of_nat (length (rc_bytes chunk))) remaining in
          let output := output ++ take (Z.to_nat kept) (rc_bytes chunk) in
          let truncated := truncated || rc_truncated chunk || (kept <? Z.of_nat (length (rc_bytes chunk))) in
          if Z.of_nat (length output) =? capacity output_bytes then Some (Ok (output, truncated || rc_more chunk))
          else if negb (rc_more chunk) then Some (Ok (output, truncated))
          else if rc_next_offset chunk =? offset then Some (Err Unreadable)
          else read_stream fuel (S n) fetch id stream (rc_next_offset chunk) output truncated
      end
  end.

Definition read_stream_to_cap (fuel : nat) (fetch : nat -> Z -> result RawExecOutput SandboxAccessDenied)
    (id : string) (stream : LogStream) : option (result (list ascii * bool) RunnerCallFailure) :=
  read_stream fuel 0 fetch id stream 0 [] false.

Record RunnerOutput : Type := { ro_stdout : list ascii; ro_stderr : list ascii; ro_truncated : bool }.

Definition read_wait_output (fuel : nat)
    (fetch : LogStream -> nat -> Z -> result RawExecOutput SandboxAccessDenied) (id : string)
  : option (result RunnerOutput RunnerCallFailure) :=
  stdout ← read_stream_to_cap fuel (fetch Stdout) id Stdout;
  stderr ← read_stream_to_cap fuel (fetch Stderr) id Stderr;
  Some (let? out := stdout in
        let? err := stderr in
        Ok {| ro_stdout := out.1; ro_stderr := err.1; ro_truncated := out.2 || err.2 |}).

End Client.

(** ** What may be persisted *)

Lemma bounded_reason_known why : In (bounded_reason why) ("runner_reason_unrecognised" :: recognised_reasons).
Proof.
  unfold bounded_reason. destruct (existsb _ _) eqn:E; [|by left]. right.
  apply existsb_exists in E as (x & Hx & Heq). apply String.eqb_eq in Heq. by subst.
Qed.

Lemma failed_outcome_cases code signal :
  failed_outcome code signal = (ExecutionState.Unknown, None)
  \/ exists c, failed_outcome code signal = (ExecutionState.Failed, Some c) /\ 1 <= c <= 255.
Proof.
  unfold failed_outcome, in_range.
  destruct code as [c|], signal as [s|]; repeat case_match; bool_props; try (by left); right; eexists;
    (split; [done|]); lia.
Qed.

(** C39. Whatever a runner reports (the workload can forge its spool), what is
    persisted of it is a state with an exit code exactly when the state carries
    one, a code that a wait status can hold, and a reason of the closed
    vocabulary; success is recorded only for an observed exit code of zero, and
    a settled outcome is always an accepted change of a running record. *)
Theorem outcome_is_recordable r :
  let o := outcome_from_report r in
  exit_code_agrees (out_state o) (out_exit_code o) = true
  /\ (forall c, out_exit_code o = Some c -> 0 <= c <= 255)
  /\ In (out_reason o) ("runner_gave_no_reason" :: "runner_reason_unrecognised" :: recognised_reasons)
  /\ (out_state o = ExecutionState.Succeeded <-> report_state r = Succeeded /\ exit_code r = Some 0)
  /\ (out_state o = ExecutionState.Running <-> report_state r = Running)
  /\ (ExecutionState.is_terminal (out_state o) = true ->
      transition_execution ExecutionState.Running (out_state o) (out_exit_code o) = Ok (out_state o)).
Proof.
  cbv zeta. unfold outcome_from_report.
  set (why := match reason r with Some _ => _ | None => _ end).
  assert (In why ("runner_gave_no_reason" :: "runner_reason_unrecognised" :: recognised_reasons)) as Hwhy.
  { subst why. destruct (reason r); [right; apply bounded_reason_known | by left]. }
  destruct (report_state r) eqn:Hst; cbn [out_state out_exit_code out_reason].
  2: destruct (exit_code r) as [[|p|p]|] eqn:Hcode; cbn [out_state out_exit_code out_reason].
  6: destruct (failed_outcome_cases (exit_code r) (signal r)) as [-> | (c & -> & Hc)];
     cbn [out_state out_exit_code out_reason].
  all: split_and!; try done; try (intros; simplify_eq; lia); naive_solver.
Qed.

(** The verdict of the supervisor survives the translation: an exit code or
    a fatal signal the kernel reported comes out as that code or as 128 plus
    the signal, a stop the runner imposed as the state it imposed, without a
    code, and an unobserved end as Unknown. *)
Theorem settled_verdict_survives_translation id started finished st ended_by out_trunc err_trunc :
  (forall c, status_code st = Some c -> 0 <= c <= 255) ->
  (status_code st = None -> exists s, status_signal st = Some s /\ 1 <= s <= 127) ->
  let o := outcome_from_report (settle_report id started finished (Some st) ended_by out_trunc err_trunc) in
  (out_state o, out_exit_code o, out_reason o) =
    match ended_by with
    | Some why => (if String.eqb why Reason.CANCELLED then ExecutionState.Cancelled else ExecutionState.TimedOut,
                   None, bounded_reason why)
    | None => match status_code st with
              | Some 0 => (ExecutionState.Succeeded, Some 0, Reason.COMPLETED)
              | Some c => (ExecutionState.Failed, Some c, Reason.COMPLETED)
              | None => (ExecutionState.Failed, Some (128 + default 0 (status_signal st)), Reason.SIGNALLED)
              end
    end.
Proof.
  intros Hcode Hsig. cbv zeta. unfold settle_report. destruct ended_by as [why|].
  { unfold outcome_from_report. cbn. by destruct (String.eqb why Reason.CANCELLED). }
  destruct (status_code st) as [c|] eqn:Hc.
  - specialize (Hcode c eq_refl). destruct (c =? 0) eqn:E.
    + apply Z.eqb_eq in E. by subst.
    + unfold outcome_from_report. cbn. unfold failed_outcome, in_range.
      rewrite (proj2 (Z.leb_le 1 c)), (proj2 (Z.leb_le c 255)) by lia. cbn. destruct c; done.
  - destruct (Hsig eq_refl) as (s & -> & Hs). unfold outcome_from_report. cbn. unfold failed_outcome, in_range.
    by rewrite (proj2 (Z.leb_le 1 s)), (proj2 (Z.leb_le s 127)) by lia.
Qed.

Lemma settled_verdict_survives_translation_witness :
  let o := outcome_from_report
             (settle_report "sbxe-1" 0 1 (Some {| status_code := None; status_signal := Some 9 |}) None false false) in
  (out_state o, out_exit_code o, out_reason o) = (ExecutionState.Failed, Some 137, Reason.SIGNALLED).
Proof.
  apply (settled_verdict_survives_translation "sbxe-1" 0 1 {| status_code := None; status_signal := Some 9 |} None);
    cbn; [done | intros _; exists 9; split; [done | lia]].
Defined.

(** ** Reading output *)

Section Reading.
Context (encode : list ascii -> string) (decode : string -> option (list ascii)).
Context (output_bytes : Z) (envelope_of : string -> option Envelope).
Context (Hlimit : 0 <= output_bytes <= u64_max).

#[local] Abbreviation read := (read_stream decode output_bytes envelope_of).

Lemma capacity_range : 0 < capacity output_bytes <= u64_max.
Proof. unfold capacity. destruct (Z.eqb_spec output_bytes 0); unfold u64_max in *; lia. Qed.

(** A window that says more follows holds at least one byte. *)
Lemma read_output_more id stream offset raw chunk :
  read_output decode envelope_of id stream offset raw = Ok chunk ->
  rc_more chunk = true -> rc_bytes chunk <> [].
Proof.
  unfold read_output, validate_log_chunk. intros H Hmore.
  destruct (call raw) as [out|]; [|done]. destruct (parse_reply envelope_of out) as [[| |c|]|]; try done.
  destruct (deny_if _ _) in H; [|done]. destruct (decode _) as [bytes|]; [|done]. cbn [ok_or] in H.
  destruct (deny_if _ _) in H; [|done]. destruct (deny_if _ _) in H; [|done].
  destruct (_ || _) eqn:E in H; [done|]. injection H as <-. cbn in *. rewrite Hmore in E. intros ->.
  by rewrite orb_true_r in E.
Qed.

(** Every window the loop keeps reading after adds at least one byte, so a
    runner that answers anything at all cannot keep a reader in the loop. *)
Lemma read_stream_ends fuel n fetch id stream offset output truncated :
  (Z.to_nat (capacity output_bytes - Z.of_nat (length output)) < fuel)%nat ->
  Z.of_nat (length output) < capacity output_bytes ->
  is_Some (read fuel n fetch id stream offset output truncated).
Proof.
  revert n offset output truncated. induction fuel as [|fuel IH]; intros n offset output truncated Hfuel Hlen; [lia|].
  cbn [read_stream]. destruct (read_output _ _ _ _ _ _) as [chunk|e] eqn:Hread; [|by eexists].
  set (kept := Z.min _ _). destruct (_ =? capacity _) eqn:Hcap; [by eexists|].
  destruct (rc_more chunk) eqn:Hmore; [cbn [negb] | by eexists]. case_match; [by eexists|].
  apply read_output_more in Hread; [|done]. unfold saturating_sub in kept.
  assert (1 <= kept) as Hk by (subst kept; destruct (rc_bytes chunk); [done|cbn; lia]).
  apply Z.eqb_neq in Hcap. rewrite length_app, length_take in Hcap.
  apply IH; rewrite length_app, length_take; subst kept; lia.
Qed.

(** The runner answers every window from one finished stream. *)
Definition serves_log (fetch : nat -> Z -> result RawExecOutput SandboxAccessDenied) (id : string)
    (stream : LogStream) (log : list ascii) (dropped : bool) : Prop :=
  forall n offset, 0 <= offset <= Z.of_nat (length log) -> exists stdout,
    call (fetch n offset) = Ok stdout
    /\ parse_reply envelope_of stdout =
       Ok (ReplyLogs {| wc_id := id; wc_stream := stream;
                        wc_chunk := chunk_window encode log dropped offset MAX_LOG_CHUNK_BYTES |}).

Context (Hcodec : forall l, decode (encode l) = Some l).
Context (fetch : nat -> Z -> result RawExecOutput SandboxAccessDenied) (id : string) (stream : LogStream).
Context (log : list ascii) (dropped : bool).
Context (Hserve : serves_log fetch id stream log dropped) (Hlog : Z.of_nat (length log) <= u64_max).

Definition chunk_size : nat := Z.to_nat MAX_LOG_CHUNK_BYTES.

#[local] Opaque Z.to_nat.

Lemma chunk_size_pos : (0 < chunk_size)%nat /\ Z.of_nat chunk_size = MAX_LOG_CHUNK_BYTES.
Proof.
  assert (0 < MAX_LOG_CHUNK_BYTES) by done. unfold chunk_size. split; [|apply Z2Nat.id; lia].
  apply Nat2Z.inj_lt. rewrite Z2Nat.id by lia. done.
Qed.

Lemma read_output_serves n k :
  (k <= length log)%nat ->
  read_output decode envelope_of id stream (Z.of_nat k) (fetch n (Z.of_nat k)) =
    Ok {| rc_offset := Z.of_nat k; rc_next_offset := Z.of_nat (Nat.min (k + chunk_size) (length log));
          rc_bytes := take chunk_size (drop k log); rc_truncated := dropped;
          rc_more := (k + chunk_size <? length log)%nat |}.
Proof.
  intros Hk. destruct (Hserve n (Z.of_nat k)) as (stdout & Hcall & Hparse); [lia|].
  unfold read_output. rewrite Hcall, Hparse. unfold validate_log_chunk, chunk_window. cbn [wc_id wc_stream wc_chunk].
  cbn [chunk_offset next_offset data_base64 chunk_truncated more].
  rewrite String.eqb_refl, bool_decide_eq_true_2, Z.min_l, Z.eqb_refl by (done || lia). cbn [negb orb deny_if].
  replace (Z.to_nat MAX_LOG_CHUNK_BYTES) with chunk_size by reflexivity.
  destruct chunk_size_pos as [_ Hcs]. rewrite Nat2Z.id, Hcodec. cbn [ok_or].
  assert (length (take chunk_size (drop k log)) = Nat.min (k + chunk_size) (length log) - k)%nat as Hlen
    by (rewrite length_take, length_drop; lia).
  assert (0 < MAX_LOG_CHUNK_BYTES) as Hmax by done. rewrite Hlen.
  rewrite (proj2 (Z.ltb_ge _ _)) by lia. cbn [deny_if].
  rewrite (proj2 (Z.ltb_ge _ _)) by lia. cbn [deny_if]. rewrite Z.eqb_refl. cbn [negb orb].
  match goal with |- context [deny_if ?b] => replace b with false end.
  2: { symmetry. apply andb_false_iff. destruct (Nat.ltb_spec (k + chunk_size) (length log)).
       - right. apply Z.eqb_neq. lia.
       - left. apply Z.ltb_ge. lia. }
  cbn [deny_if]. f_equal. f_equal; [lia|].
  destruct (Nat.ltb_spec (k + chunk_size) (length log)); [apply Z.ltb_lt | apply Z.ltb_ge]; lia.
Qed.

Lemma read_stream_exact fuel n k truncated :
  (length log - k < fuel)%nat -> (k <= length log)%nat -> Z.of_nat k < capacity output_bytes ->
  read fuel n fetch id stream (Z.of_nat k) (take k log) truncated =
    Some (Ok (take (Z.to_nat (capacity output_bytes)) log,
              truncated || dropped || (capacity output_bytes <? Z.of_nat (length log)))).
Proof.
  revert n k truncated. induction fuel as [|fuel IH]; intros n k truncated Hfuel Hk Hcap; [lia|].
  destruct chunk_size_pos as [Hcs Hmax].
  cbn [read_stream]. rewrite read_output_serves by done. cbn [rc_bytes rc_truncated rc_more rc_next_offset].
  unfold saturating_sub. rewrite !length_take, !length_drop, (Nat.min_l k) by lia.
  set (cap := capacity output_bytes) in *.
  destruct (Z.le_gt_cases cap (Z.of_nat (Nat.min (k + chunk_size) (length log)))) as [Hfull|Hmore].
  - (* the cap is reached in this window *)
    replace (Z.to_nat (Z.min _ _)) with (Z.to_nat cap - k)%nat by lia.
    assert (take k log ++ take (Z.to_nat cap - k) (take chunk_size (drop k log)) = take (Z.to_nat cap) log) as ->.
    { rewrite take_take, Nat.min_l by lia. rewrite take_take_drop. f_equal. lia. }
    rewrite length_take, (proj2 (Z.eqb_eq _ _)) by lia. do 3 f_equal.
    rewrite <- !orb_assoc. f_equal. f_equal.
    destruct (Z.ltb_spec cap (Z.of_nat (length log))).
    + apply orb_true_iff. destruct (Nat.ltb_spec (k + chunk_size) (length log)); [by right|left; apply Z.ltb_lt; lia].
    + apply orb_false_iff. split; [apply Z.ltb_ge | apply Nat.ltb_ge]; lia.
  - (* everything in this window is kept *)
    replace (Z.to_nat (Z.min _ _)) with (Nat.min chunk_size (length log - k)) by lia.
    assert (take k log ++ take (Nat.min chunk_size (length log - k)) (take chunk_size (drop k log))
            = take (Nat.min (k + chunk_size) (length log)) log) as ->.
    { rewrite take_take, Nat.min_l by lia. rewrite take_take_drop. f_equal. lia. }
    rewrite length_take, (proj2 (Z.eqb_neq _ _)) by lia.
    rewrite (proj2 (Z.ltb_ge _ _)), orb_false_r by lia.
    destruct (Nat.ltb_spec (k + chunk_size) (length log)) as [Hlt|Hge]; cbn [negb].
    + rewrite (proj2 (Z.eqb_neq _ _)) by lia. rewrite (IH (S n) (Nat.min (k + chunk_size) (length log))) by lia.
      do 3 f_equal. by destruct truncated, dropped.
    + rewrite (Nat.min_r (k + chunk_size)) by lia. rewrite firstn_all.
      rewrite (proj2 (Z.ltb_ge cap _)), orb_false_r by lia. by rewrite take_ge by lia.
Qed.

End Reading.

(** What a caller is shown of one stream. *)
Definition shown (output_bytes : Z) (log : list ascii) : list ascii :=
  take (Z.to_nat (capacity output_bytes)) log.
Definition cut (output_bytes : Z) (log : list ascii) : bool :=
  capacity output_bytes <? Z.of_nat (length log).

(** The output of a finished command read back in windows is exactly what
    the runner holds, byte for byte and in order, up to the configured ceiling,
    on both streams; and truncation is reported exactly when the runner dropped
    output or the ceiling cut some. *)
Theorem wait_output_exact encode decode output_bytes envelope_of fetch id out err out_dropped err_dropped fuel :
  0 <= output_bytes <= u64_max ->
  (forall l, decode (encode l) = Some l) ->
  serves_log encode envelope_of (fetch Stdout) id Stdout out out_dropped ->
  serves_log encode envelope_of (fetch Stderr) id Stderr err err_dropped ->
  Z.of_nat (length out) <= u64_max -> Z.of_nat (length err) <= u64_max ->
  (length out < fuel)%nat -> (length err < fuel)%nat ->
  read_wait_output decode output_bytes envelope_of fuel fetch id =
    Some (Ok {| ro_stdout := shown output_bytes out; ro_stderr := shown output_bytes err;
                ro_truncated := (out_dropped || cut output_bytes out) || (err_dropped || cut output_bytes err) |}).
Proof.
  intros Hlim Hcodec Hout Herr Hlo Hle Hfo Hfe. unfold read_wait_output, read_stream_to_cap.
  pose proof (capacity_range output_bytes Hlim) as Hcap.
  pose proof (read_stream_exact encode decode output_bytes envelope_of Hcodec _ _ _ _ _ Hout Hlo fuel 0 0 false) as EHout.
  rewrite firstn_O in EHout. change (Z.of_nat 0) with 0 in EHout. rewrite EHout by lia.
  cbn [mbind option_bind].
  pose proof (read_stream_exact encode decode output_bytes envelope_of Hcodec _ _ _ _ _ Herr Hle fuel 0 0 false) as EHerr.
  rewrite firstn_O in EHerr. change (Z.of_nat 0) with 0 in EHerr. rewrite EHerr by lia.
  done.
Qed.

(** Reading output ends, whatever the runner answers: a window that does not
    advance is refused, and every other one adds at least a byte below the
    ceiling. *)
Theorem wait_output_ends decode output_bytes envelope_of fetch id fuel :
  0 <= output_bytes <= u64_max -> (Z.to_nat (capacity output_bytes) < fuel)%nat ->
  is_Some (read_wait_output decode output_bytes envelope_of fuel fetch id).
Proof.
  intros Hlim Hfuel. pose proof (capacity_range output_bytes Hlim) as Hcap.
  unfold read_wait_output, read_stream_to_cap.
  destruct (read_stream_ends decode output_bytes envelope_of fuel 0 (fetch Stdout) id Stdout 0 [] false) as [a ->];
    [cbn; rewrite Z.sub_0_r; lia | cbn; lia |].
  destruct (read_stream_ends decode output_bytes envelope_of fuel 0 (fetch Stderr) id Stderr 0 [] false) as [b ->];
    [cbn; rewrite Z.sub_0_r; lia | cbn; lia |].
  by eexists.
Qed.

(** An answered call is about the execution that was asked for. *)
Theorem runner_answers_are_exact envelope_of id raw report :
  start_answer envelope_of id raw = Ok report \/ state_answer envelope_of id raw = Ok report -> report_id report = id.
Proof.
  unfold start_answer, state_answer, report_from. intros H.
  destruct (call raw) as [out|]; [|by destruct H].
  destruct (parse_reply envelope_of out) as [reply|]; [|by destruct H].
  destruct H as [H|H]; destruct reply; try done;
    (destruct (String.eqb _ _) eqn:E in H; [|done]; injection H as <-; by apply String.eqb_eq).
Qed.

Definition demo_log : list ascii := String.list_ascii_of_string "hi".
Definition demo_encode (l : list ascii) : string := String.string_of_list_ascii l.
Definition demo_decode (s : string) : option (list ascii) := Some (String.list_ascii_of_string s).

Definition demo_stdout (stream : LogStream) (offset : Z) : string :=
  match stream with Stdout => "out" | Stderr => "err" end +:+ show_uint offset +:+ String "010" "".

Definition demo_envelope (line : string) : option Envelope :=
  let chunk stream offset :=
    Some {| env_protocol := 1;
            env_reply := ReplyLogs {| wc_id := "sbxe-1"; wc_stream := stream;
                                      wc_chunk := chunk_window demo_encode demo_log false offset MAX_LOG_CHUNK_BYTES |} |} in
  match line with
  | "out0" => chunk Stdout 0 | "out1" => chunk Stdout 1 | "out2" => chunk Stdout 2
  | "err0" => chunk Stderr 0 | "err1" => chunk Stderr 1 | "err2" => chunk Stderr 2
  | _ => None
  end.

Definition demo_fetch (stream : LogStream) (_ : nat) (offset : Z) : result RawExecOutput SandboxAccessDenied :=
  Ok {| raw_stdout := demo_stdout stream offset; raw_truncated := false; raw_success := true |}.

Lemma demo_serves stream : serves_log demo_encode demo_envelope (demo_fetch stream) "sbxe-1" stream demo_log false.
Proof.
  intros n offset Ho. cbn in Ho.
  assert (offset = 0 \/ offset = 1 \/ offset = 2) as [-> | [-> | ->]] by lia;
    destruct stream; eexists; (split; [reflexivity|]); reflexivity.
Qed.

Lemma wait_output_exact_witness :
  read_wait_output demo_decode 1 demo_envelope 5 demo_fetch "sbxe-1"
  = Some (Ok {| ro_stdout := String.list_ascii_of_string "h"; ro_stderr := String.list_ascii_of_string "h";
                ro_truncated := true |}).
Proof.
  apply (wait_output_exact demo_encode demo_decode 1 demo_envelope demo_fetch "sbxe-1" demo_log demo_log false false 5);
    [by vm_compute | | apply demo_serves | apply demo_serves | by vm_compute | by vm_compute | cbn; lia | cbn; lia].
  intros l. unfold demo_decode, demo_encode. by rewrite String.list_ascii_of_string_of_list_ascii.
Defined.

Lemma wait_output_ends_witness :
  is_Some (read_wait_output demo_decode 3 demo_envelope 4 (fun _ _ _ => Err DeniedBackend) "sbxe-1").
Proof. apply wait_output_ends; [by vm_compute | vm_compute; lia]. Defined.
