(* ===== verification/ExecutionApi.v ===== *)
(** * ExecutionApi: reserve, then spawn, then record

    Model of [src/api/sandbox_executions.rs]: the timeout and request checks,
    the reservation of an idempotency key (capacity, CREATE, bind), the status
    writers, and reading and cancelling one record.  A handler is a value of
    [xprog]: the requests it makes to the execution records, to the access
    ledger and to the runner, with what it does on each possible answer.
    [record_write]s are applied by [apply_record] the way the API server does. *)

From S2P Require Import Prelude Text Durations Execution SandboxObjects LedgerApi AccessLedger SandboxAccess RunnerClient.

(** ** Records *)

(** A [SandboxExecution] with its metadata. *)
Record ExecutionObject : Type := {
  x_exec : SandboxExecution;
  x_namespace : option string;
  x_labels : gmap string string;
  x_owner_references : option (list string);
  x_finalizers : option (list string);
  x_resource_version : option string;
  x_creation_timestamp : option string;
  x_deletion_timestamp : option string;
}.

Definition x_name (o : ExecutionObject) : string := se_name (x_exec o).
Definition x_uid (o : ExecutionObject) : option string := se_uid (x_exec o).
Definition x_spec (o : ExecutionObject) : SandboxExecutionSpec := se_spec (x_exec o).

(** [status.clone().unwrap_or_default()] *)
Definition x_status (o : ExecutionObject) : SandboxExecutionStatus :=
  default default_execution_status (se_status (x_exec o)).
Definition x_state (o : ExecutionObject) : ExecutionState.t := exec_state (x_status o).
Definition x_started (o : ExecutionObject) : bool := is_some (exec_started_at (x_status o)).

Definition with_exec (o : ExecutionObject) (e : SandboxExecution) (rv : option string) : ExecutionObject :=
  {| x_exec := e; x_namespace := x_namespace o; x_labels := x_labels o; x_owner_references := x_owner_references o;
     x_finalizers := x_finalizers o; x_resource_version := rv; x_creation_timestamp := x_creation_timestamp o;
     x_deletion_timestamp := x_deletion_timestamp o |}.

Definition with_status (e : SandboxExecution) (st : SandboxExecutionStatus) : SandboxExecution :=
  {| se_name := se_name e; se_uid := se_uid e; se_spec := se_spec e; se_status := Some st |}.

(** ** The records' API server *)

Inductive record_write : Type :=
| CreateRecord (o : ExecutionObject)
| PatchStatus (name uid rv : string) (status : SandboxExecutionStatus)
| DropFinalizers (name uid rv : string) (finalizers : list string)
| DeleteRecord (name uid : string) (rv : option string).

Record RecordServer : Type := { records : gmap string ExecutionObject; record_version : Z }.

Definition put_record (s : RecordServer) (o : ExecutionObject) : RecordServer :=
  {| records := <[x_name o := o]> (records s); record_version := record_version s + 1 |}.
Definition drop_record (s : RecordServer) (name : string) : RecordServer :=
  {| records := delete name (records s); record_version := record_version s |}.

(** A stored object after a metadata change: a fresh version. *)
Definition with_meta (o : ExecutionObject) (finalizers : option (list string)) (deletion rv : option string)
  : ExecutionObject :=
  {| x_exec := x_exec o; x_namespace := x_namespace o; x_labels := x_labels o;
     x_owner_references := x_owner_references o; x_finalizers := finalizers; x_resource_version := rv;
     x_creation_timestamp := x_creation_timestamp o; x_deletion_timestamp := deletion |}.

Definition no_finalizers (o : ExecutionObject) : bool :=
  match default [] (x_finalizers o) with [] => true | _ => false end.

(** [stamp] is the server's clock.  Creation drops what a client put in the
    server's fields; the status subresource is the only way to change a status;
    an object without finalizers disappears when it is deleted, and one being
    deleted when its last finalizer goes. *)
Definition apply_record (s : RecordServer) (w : record_write) (stamp : string)
  : RecordServer * result ExecutionObject kube_error :=
  let rv := Some (version (record_version s)) in
  match w with
  | CreateRecord o =>
      match records s !! x_name o with
      | Some _ => (s, Err (Api 409 None))
      | None =>
          let o := {| x_exec := {| se_name := x_name o; se_uid := Some (fresh_uid (record_version s));
                                   se_spec := x_spec o; se_status := None |};
                      x_namespace := x_namespace o; x_labels := x_labels o;
                      x_owner_references := x_owner_references o; x_finalizers := x_finalizers o;
                      x_resource_version := rv; x_creation_timestamp := Some stamp; x_deletion_timestamp := None |} in
          (put_record s o, Ok o)
      end
  | PatchStatus name uid version_read status =>
      match records s !! name with
      | None => (s, Err not_found)
      | Some o =>
          if bool_decide (x_uid o = Some uid /\ x_resource_version o = Some version_read) then
            if bool_decide (se_status (x_exec o) = Some status) then (s, Ok o)
            else let o := with_exec o (with_status (x_exec o) status) rv in (put_record s o, Ok o)
          else (s, Err (Api 422 None))
      end
  | DropFinalizers name uid version_read finalizers =>
      match records s !! name with
      | None => (s, Err not_found)
      | Some o =>
          if bool_decide (x_uid o = Some uid /\ x_resource_version o = Some version_read
                          /\ x_finalizers o = Some finalizers) then
            let o := with_meta o None (x_deletion_timestamp o) rv in
            if is_some (x_deletion_timestamp o) then (drop_record s name, Ok o) else (put_record s o, Ok o)
          else (s, Err (Api 422 None))
      end
  | DeleteRecord name uid version_read =>
      match records s !! name with
      | None => (s, Err not_found)
      | Some o =>
          if bool_decide (x_uid o = Some uid) && match version_read with
                                                 | Some v => bool_decide (x_resource_version o = Some v)
                                                 | None => true
                                                 end then
            if no_finalizers o then (drop_record s name, Ok o)
            else let o := with_meta o (x_finalizers o) (Some (default stamp (x_deletion_timestamp o))) rv in
                 (put_record s o, Ok o)
          else (s, Err (Api 409 None))
      end
  end.

Definition get_record (s : RecordServer) (name : string) : result ExecutionObject kube_error :=
  match records s !! name with Some o => Ok o | None => Err not_found end.

Definition RECORD_LEASE_UID_LABEL : string := "kobe.kunobi.ninja/sandbox-lease-uid".
Definition RECORD_LEASE_NAME_LABEL : string := "kobe.kunobi.ninja/sandbox-lease-name".
Definition SANDBOX_EXECUTION_FINALIZER : string := "kobe.kunobi.ninja/sandbox-execution-cleanup".

(** [labels(LEASE_UID_LABEL=uid)], or the whole namespace. *)
Definition list_records (s : RecordServer) (selector : option string) : list ExecutionObject :=
  List.filter (fun o => match selector with
                        | Some uid => bool_decide (x_labels o !! RECORD_LEASE_UID_LABEL = Some uid)
                        | None => true
                        end) (map snd (btree_iter (records s))).

(** ** Calls *)

(** The operations of the access ledger these handlers await. *)
Inductive ledger_call : Type :=
| CallReserve (name digest pod_uid : string) (writer : option ServingReplica)
| CallBind (execution : SandboxExecution)
| CallComplete (execution : SandboxExecution) (process_absence_proven : bool)
| CallManifest
| CallExpireUnbound (name digest pod_uid : string) (observed : option string)
| CallExpireOrphaned (entry : ExecutionManifestEntry) (current : ServingReplica)
| CallReject (name digest pod_uid : string)
| CallRetireInactive (entry : ExecutionManifestEntry)
| CallRetireRejected (entry : ExecutionManifestEntry)
| CallClear.

Definition ledger_answer (c : ledger_call) : Type :=
  match c with
  | CallReserve _ _ _ _ => result ExecutionCapacity AccessLedgerError
  | CallManifest => result (list ExecutionManifestEntry) AccessLedgerError
  | CallComplete _ _ | CallReject _ _ _ => result unit AccessLedgerError
  | _ => result bool AccessLedgerError
  end.

(** The runner verbs, with the exact Pod they are executed in. *)
Inductive runner_verb : Type := VerbStart (request : Runner.StartRequest) | VerbPoll | VerbCancel | VerbLogs.

Record runner_call : Type := {
  rc_verb : runner_verb;
  rc_target : SandboxTarget;
  rc_container : string;
  rc_path : string;
  rc_id : string;
  rc_record : option string;  (** the record the call is made for; not sent *)
}.

(** Why a scoped credential could not be set up. *)
Inductive ScopedSetupDenied : Type :=
| SetupAccess (denied : SandboxAccessDenied)
| SetupRevoked
| SetupTargetTimeout
| SetupCredentialTimeout.

(** [Interrupt] is which branch of a [select!] wins: the lease was revoked, the
    deadline passed or the process is shutting down; or the operation. *)
Inductive xprog (R : Type) : Type :=
| XRet (r : R)
| GetRecord (name : string) (k : result ExecutionObject kube_error -> xprog R)
| ListRecords (selector : option string) (k : result (list ExecutionObject) kube_error -> xprog R)
| WriteRecord (w : record_write) (k : result ExecutionObject kube_error -> xprog R)
| GetParent (name : string) (k : result SandboxLease kube_error -> xprog R)
| ListParents (k : result (list SandboxLease) kube_error -> xprog R)
| LedgerCall (lease : SandboxLease) (c : ledger_call) (k : ledger_answer c -> xprog R)
| RunnerCall (c : runner_call) (k : result Runner.ExecutionReport RunnerCallFailure -> xprog R)
| ReadOutput (c : runner_call) (k : result RunnerOutput RunnerCallFailure -> xprog R)
| ScopedSetup (k : result unit ScopedSetupDenied -> xprog R)
| Clock (k : Z -> xprog R)
| Interrupt (k : bool -> xprog R).
Arguments XRet {R} r.
Arguments GetRecord {R} name k.
Arguments ListRecords {R} selector k.
Arguments WriteRecord {R} w k.
Arguments GetParent {R} name k.
Arguments ListParents {R} k.
Arguments LedgerCall {R} lease c k.
Arguments RunnerCall {R} c k.
Arguments ReadOutput {R} c k.
Arguments ScopedSetup {R} k.
Arguments Clock {R} k.
Arguments Interrupt {R} k.

Fixpoint xbind {A B} (p : xprog A) (f : A -> xprog B) : xprog B :=
  match p with
  | XRet a => f a
  | GetRecord n k => GetRecord n (fun r => xbind (k r) f)
  | ListRecords s k => ListRecords s (fun r => xbind (k r) f)
  | WriteRecord w k => WriteRecord w (fun r => xbind (k r) f)
  | GetParent n k => GetParent n (fun r => xbind (k r) f)
  | ListParents k => ListParents (fun r => xbind (k r) f)
  | LedgerCall l c k => LedgerCall l c (fun r => xbind (k r) f)
  | RunnerCall c k => RunnerCall c (fun r => xbind (k r) f)
  | ReadOutput c k => ReadOutput c (fun r => xbind (k r) f)
  | ScopedSetup k => ScopedSetup (fun r => xbind (k r) f)
  | Clock k => Clock (fun r => xbind (k r) f)
  | Interrupt k => Interrupt (fun r => xbind (k r) f)
  end.

Notation "'xdo' x := p 'in' k" := (xbind p (fun x => k))
  (at level 10, x pattern, p at level 100, k at level 200,
   format "'[v' 'xdo'  x  :=  p  'in' '/' k ']'") : kobe_scope.
Notation "'xdo?' x := p 'in' k" :=
  (xbind p (fun r => match r with Ok x => k | Err e => XRet (Err e) end))
  (at level 10, x pattern, p at level 100, k at level 200,
   format "'[v' 'xdo?'  x  :=  p  'in' '/' k ']'") : kobe_scope.

Local Open Scope kobe_scope.

(** ** Requests *)

Inductive ExecutionRequestError : Type :=
| IdempotencyConflict
| InvalidRequest (what : string)
| RequestDenied (denied : SandboxAccessDenied)
| RequestBackend
| ExecutionLimit.

Definition request_error_status (e : ExecutionRequestError) : Z :=
  match e with
  | IdempotencyConflict => 409
  | InvalidRequest _ => 400
  | RequestDenied denied => denied_http_status denied
  | RequestBackend => 503
  | ExecutionLimit => 409
  end.

Record ExecutionRequest : Type := {
  rq_argv : list string;
  rq_cwd : option string;
  rq_timeout : string;
  rq_idempotency_key : string;
  rq_detached : bool;
  rq_stdin : option string;
}.

Definition MAX_IDEMPOTENCY_KEY : Z := 253.
Definition LEASE_TIMEOUT : string := "lease".
Definition EXECUTION_SETUP_GRACE : Z := minutes 5.
Definition STATUS_CAS_ATTEMPTS : nat := 64.
Definition DURATION_MAX : StdDuration := {| as_secs := u64_max; subsec_nanos := 999999999 |}.

(** [chrono::Duration::to_std] of a positive span. *)
Definition to_std (d : Z) : StdDuration :=
  {| as_secs := d / nanos_per_second; subsec_nanos := d mod nanos_per_second |}.

Definition requested_timeout (timeout : string) : option StdDuration :=
  if String.eqb timeout LEASE_TIMEOUT then Some DURATION_MAX
  else match parse_duration timeout with
       | Some d => if 0 <? d then Some (to_std d) else None
       | None => None
       end.

Definition requested_seconds (requested : StdDuration) : Z :=
  Z.max 1 (Z.min (as_secs requested + (if 0 <? subsec_nanos requested then 1 else 0)) u64_max).

Definition deadline_source (requested effective : StdDuration) : ExecutionDeadlineSource :=
  if as_secs effective <? requested_seconds requested then DeadlineLease else DeadlineTimeout.

Definition validate_request (limits : SandboxLimits) (r : ExecutionRequest) : result unit ExecutionRequestError :=
  let? _ := deny_if (match rq_argv r with [] => true | _ => false end || existsb (String.eqb "") (rq_argv r))
              (InvalidRequest "command") in
  let? _ := deny_if (String.eqb (rq_idempotency_key r) "" || (MAX_IDEMPOTENCY_KEY <? str_len (rq_idempotency_key r)))
              (InvalidRequest "idempotencyKey") in
  let? _ := deny_if (match rq_cwd r with
                     | Some cwd => String.eqb cwd "" || negb (starts_with cwd "/") || negb (Runner.no_nul cwd)
                     | None => false
                     end) (InvalidRequest "cwd") in
  let? _ := deny_if (match rq_stdin r with
                     | Some stdin => exceeds (str_len stdin) (stdin_bytes limits)
                     | None => false
                     end) (InvalidRequest "stdin") in
  match requested_timeout (rq_timeout r) with
  | Some _ => Ok tt
  | None => Err (InvalidRequest "timeout")
  end.

(** API answers that prove the object was not created. *)
Definition definitive_create_rejection (code : Z) : bool :=
  existsb (Z.eqb code) [400; 401; 403; 404; 405; 406; 410; 411; 413; 414; 415; 422].

Definition execution_pod_identity_holds (existing : SandboxExecutionSpec) (pod_uid : string) : bool :=
  String.eqb (exec_pod_uid existing) pod_uid.

Inductive AddressError : Type := PodReplaced | ProvenanceChanged | RunnerMissing.

Definition execution_runner_address (existing : SandboxExecutionSpec) (target : SandboxTarget)
  : result (option (string * string)) AddressError :=
  let? _ := deny_if (negb (execution_pod_identity_holds existing (t_pod_uid target))) PodReplaced in
  match exec_target existing with
  | Some recorded =>
      if String.eqb (target_namespace recorded) (t_namespace target)
         && String.eqb (target_pod_name recorded) (t_pod_name target)
         && String.eqb (target_pod_uid recorded) (t_pod_uid target)
         && String.eqb (target_pod_uid recorded) (exec_pod_uid existing)
      then Ok (Some (target_container recorded, target_runner_path recorded))
      else Err ProvenanceChanged
  | None =>
      if default (exec_detached existing) (exec_runner_managed existing) then
        match t_runner_path target with
        | Some path => Ok (Some (t_container target, path))
        | None => Err RunnerMissing
        end
      else Ok None
  end.

Definition execution_reuse_target_holds (existing : SandboxExecutionSpec) (target : SandboxTarget)
    (container runner_path : string) : bool :=
  match execution_runner_address existing target with
  | Ok (Some (recorded_container, recorded_path)) =>
      if is_some (exec_target existing)
      then String.eqb recorded_container container && String.eqb recorded_path runner_path
      else is_none (exec_runner_managed existing) && String.eqb container (t_container target)
  | Ok None => is_none (exec_runner_managed existing) && String.eqb container (t_container target)
  | Err _ => false
  end.

Definition compatible_reuse_verdict (existing : SandboxExecutionSpec) (lease_uid digest legacy_digest : string)
    (detached : bool) : ReuseVerdict :=
  match reuse_verdict existing lease_uid digest with
  | ReuseConflict =>
      if is_none (exec_runner_managed existing) && Bool.eqb (exec_detached existing) detached
         && String.eqb (exec_request_digest existing) legacy_digest
      then SameRequest else ReuseConflict
  | verdict => verdict
  end.

Definition may_spawn (o : ExecutionObject) : bool := bool_decide (x_state o = ExecutionState.Queued).

Section Api.
(** SHA-256 as hexadecimal digits, and [chrono]'s RFC 3339 text. *)
Context (sha256_hex : string -> string) (parse_rfc3339 : string -> option Z) (to_rfc3339 : Z -> string).
(** [chrono::Duration::from_std] and [checked_add_signed]. *)
Context (checked_deadline : Z -> StdDuration -> option Z).
Context (limits : SandboxLimits).

Definition effective_timeout (requested : StdDuration) (lease : SandboxLease) (now : Z)
  : result StdDuration ExecutionRequestError :=
  let? expires_at := ok_or (status ← sbx_status lease; text ← sbx_expires_at status; parse_rfc3339 text)
                       (RequestDenied DeniedExpired) in
  let remaining_millis := Z.max (Z.quot (expires_at - now) 1000000) 0 in
  let remaining_seconds := remaining_millis / 1000 in
  if remaining_seconds =? 0 then Err (RequestDenied DeniedExpired)
  else Ok {| as_secs := Z.min (requested_seconds requested) remaining_seconds; subsec_nanos := 0 |}.

Definition queued_verdict_due (o : ExecutionObject) (now : Z) : bool :=
  if negb (bool_decide (x_state o = ExecutionState.Queued)) then false
  else match (text ← x_creation_timestamp o; parse_rfc3339 text) with
       | Some created => created + EXECUTION_SETUP_GRACE <=? now
       | None => false
       end.

Definition build_execution_record (namespace name : string) (lease : SandboxLease) (target : SandboxTarget)
    (request : ExecutionRequest) (digest : string) (recorded_target : SandboxExecutionTarget) : ExecutionObject :=
  {| x_exec := {| se_name := name; se_uid := None;
                  se_spec := {| exec_lease_name := Some (sbx_name lease); exec_lease_uid := t_lease_uid target;
                                exec_pod_uid := t_pod_uid target;
                                exec_idempotency_key := rq_idempotency_key request; exec_request_digest := digest;
                                exec_timeout := rq_timeout request; exec_detached := rq_detached request;
                                exec_runner_managed := Some true; exec_target := Some recorded_target |};
                  se_status := None |};
     x_namespace := Some namespace;
     x_labels := <[RECORD_LEASE_UID_LABEL := t_lease_uid target]>
                   (<[RECORD_LEASE_NAME_LABEL := sbx_name lease]> ∅);
     x_owner_references := None; x_finalizers := Some [SANDBOX_EXECUTION_FINALIZER]; x_resource_version := None;
     x_creation_timestamp := None; x_deletion_timestamp := None |}.

(** ** Status writers *)

Definition fenced_status_patch (name uid rv : string) (status : SandboxExecutionStatus) : record_write :=
  PatchStatus name uid rv status.

Definition mutate_status (expected : ExecutionObject)
    (mutate : SandboxExecutionStatus -> result SandboxExecutionStatus ExecutionRequestError)
  : xprog (result ExecutionObject ExecutionRequestError) :=
  match x_uid expected with
  | None => XRet (Err RequestBackend)
  | Some expected_uid =>
      GetRecord (x_name expected) (fun live =>
        match live with
        | Err _ => XRet (Err RequestBackend)
        | Ok live =>
            match (let? _ := deny_if (negb (bool_decide (x_uid live = Some expected_uid))) RequestBackend in
                   let? rv := ok_or (x_resource_version live) RequestBackend in
                   let? status := mutate (x_status live) in
                   Ok (rv, status)) with
            | Err e => XRet (Err e)
            | Ok (rv, status) =>
                WriteRecord (fenced_status_patch (x_name expected) expected_uid rv status) (fun r =>
                  XRet (match r with Ok updated => Ok updated | Err _ => Err RequestBackend end))
            end
        end)
  end.

Definition running_status (started : Z) (timeout : StdDuration) (source : ExecutionDeadlineSource)
    (status : SandboxExecutionStatus) : result SandboxExecutionStatus ExecutionRequestError :=
  match transition_execution (exec_state status) ExecutionState.Running None with
  | Err _ => Err RequestBackend
  | Ok _ =>
      Ok {| exec_state := ExecutionState.Running; exec_started_at := Some (to_rfc3339 started);
            exec_finished_at := exec_finished_at status; exec_exit_code := exec_exit_code status;
            exec_reason := exec_reason status; exec_verdict_deadline := None;
            exec_deadline := to_rfc3339 <$> checked_deadline started timeout;
            exec_deadline_source := Some source |}
  end.

Definition mark_running (execution : ExecutionObject) (timeout : StdDuration) (source : ExecutionDeadlineSource)
  : xprog (result unit ExecutionRequestError) :=
  Clock (fun started =>
    xdo? _ := mutate_status execution (running_status started timeout source) in
    XRet (Ok tt)).

Definition settled_status (status : SandboxExecutionStatus) (state : ExecutionState.t) (exit_code : option Z)
    (finished_at reason : string) : SandboxExecutionStatus :=
  {| exec_state := state; exec_started_at := exec_started_at status; exec_finished_at := Some finished_at;
     exec_exit_code := exit_code; exec_reason := Some reason;
     exec_verdict_deadline := exec_verdict_deadline status; exec_deadline := exec_deadline status;
     exec_deadline_source := exec_deadline_source status |}.

(** One attempt of [persist_terminal]: the answer, or the write to try. *)
Definition settle_plan (name : string) (live : ExecutionObject) (expected_uid : string) (state : ExecutionState.t)
    (exit_code : option Z) (finished_at reason : string)
  : result (ExecutionObject + record_write) ExecutionRequestError :=
  let? _ := deny_if (negb (bool_decide (x_uid live = Some expected_uid))) RequestBackend in
  if ExecutionState.is_terminal (x_state live) then Ok (inl live)
  else match transition_execution (x_state live) state exit_code with
       | Err _ => Err RequestBackend
       | Ok _ =>
           let? rv := ok_or (x_resource_version live) RequestBackend in
           Ok (inr (fenced_status_patch name expected_uid rv
                      (settled_status (x_status live) state exit_code finished_at reason)))
       end.

Definition retried_code (e : kube_error) : bool :=
  match e with Api code _ => (code =? 409) || (code =? 422) | Transport => false end.

Fixpoint persist_loop (attempts : nat) (name expected_uid : string) (state : ExecutionState.t)
    (exit_code : option Z) (finished_at reason : string) : xprog (result ExecutionObject ExecutionRequestError) :=
  match attempts with
  | O => XRet (Err RequestBackend)
  | S attempts =>
      GetRecord name (fun live =>
        match live with
        | Err _ => XRet (Err RequestBackend)
        | Ok live =>
            match settle_plan name live expected_uid state exit_code finished_at reason with
            | Err e => XRet (Err e)
            | Ok (inl live) => XRet (Ok live)
            | Ok (inr w) =>
                WriteRecord w (fun r =>
                  match r with
                  | Ok updated => XRet (Ok updated)
                  | Err e => if retried_code e
                             then persist_loop attempts name expected_uid state exit_code finished_at reason
                             else XRet (Err RequestBackend)
                  end)
            end
        end)
  end.

Definition persist_terminal (expected : ExecutionObject) (state : ExecutionState.t) (exit_code : option Z)
    (reason : string) : xprog (result ExecutionObject ExecutionRequestError) :=
  match x_uid expected with
  | None => XRet (Err RequestBackend)
  | Some expected_uid =>
      Clock (fun now =>
        persist_loop STATUS_CAS_ATTEMPTS (x_name expected) expected_uid state exit_code (to_rfc3339 now) reason)
  end.

Definition record_terminal (execution : ExecutionObject) (state : ExecutionState.t) (exit_code : option Z)
    (reason : string) : xprog (option ExecutionObject) :=
  xdo r := persist_terminal execution state exit_code reason in
  XRet (match r with Ok durable => Some durable | Err _ => None end).

Definition setup_unknown_status (finished_at : string) (status : SandboxExecutionStatus)
  : result SandboxExecutionStatus ExecutionRequestError :=
  if negb (bool_decide (exec_state status = ExecutionState.Queued)) then Err RequestBackend
  else match transition_execution (exec_state status) ExecutionState.Unknown None with
       | Err _ => Err RequestBackend
       | Ok _ =>
           Ok {| exec_state := ExecutionState.Unknown; exec_started_at := exec_started_at status;
                 exec_finished_at := Some finished_at; exec_exit_code := exec_exit_code status;
                 exec_reason := Some "setup_unconfirmed"; exec_verdict_deadline := exec_verdict_deadline status;
                 exec_deadline := exec_deadline status; exec_deadline_source := exec_deadline_source status |}
       end.

Definition record_queued_setup_unknown (execution : ExecutionObject) : xprog (option ExecutionObject) :=
  Clock (fun now =>
    xdo r := mutate_status execution (setup_unknown_status (to_rfc3339 now)) in
    XRet (match r with Ok updated => Some updated | Err _ => None end)).

(** ** Reading and cancelling *)

Definition refresh (execution : ExecutionObject) : xprog (option ExecutionObject) :=
  GetRecord (x_name execution) (fun r => XRet (match r with Ok o => Some o | Err _ => None end)).

Definition get_owned (name lease_uid : string) : xprog (result (option ExecutionObject) ExecutionRequestError) :=
  GetRecord name (fun r =>
    XRet (match r with
          | Ok o => if String.eqb (exec_lease_uid (x_spec o)) lease_uid then Ok (Some o) else Ok None
          | Err e => if is_404 e then Ok None else Err RequestBackend
          end)).

Definition cancel_owned (name lease_uid : string) : xprog (result (option ExecutionObject) ExecutionRequestError) :=
  xdo? owned := get_owned name lease_uid in
  match owned with
  | None => XRet (Ok None)
  | Some execution =>
      if ExecutionState.is_terminal (x_state execution) then XRet (Ok (Some execution))
      else match transition_execution (x_state execution) ExecutionState.Cancelled None with
           | Err _ => XRet (Err RequestBackend)
           | Ok _ =>
               xdo _ := record_terminal execution ExecutionState.Cancelled None "cancelled_by_caller" in
               xdo refreshed := refresh execution in
               XRet (Ok (Some (default execution refreshed)))
           end
  end.

(** ** Reservation *)

Inductive Reservation : Type :=
| NewReservation (o : ExecutionObject)
| ExistingReservation (o : ExecutionObject)
| PendingReservation (o : ExecutionObject).

Definition reservation_record (r : Reservation) : ExecutionObject :=
  match r with NewReservation o | ExistingReservation o | PendingReservation o => o end.

Definition releasing_denied : ExecutionRequestError := RequestDenied (DeniedNotReady "Releasing").

(** What an existing record under the same name means for this request. *)
Definition reuse_existing (existing : ExecutionObject) (lease_uid digest legacy_digest : string) (detached : bool)
  : result Reservation ExecutionRequestError :=
  match compatible_reuse_verdict (x_spec existing) lease_uid digest legacy_digest detached with
  | SameRequest => Ok (ExistingReservation existing)
  | ReuseConflict => Err IdempotencyConflict
  | ForeignRecord => Err (RequestDenied DeniedNotFound)
  end.

(** The CREATE of [resolve_execution_create] and what its answer means. *)
Definition create_record (lease : SandboxLease) (target : SandboxTarget)
    (container runner_path digest legacy_digest : string) (detached : bool) (reserved : ExecutionObject)
  : xprog (result Reservation ExecutionRequestError) :=
  WriteRecord (CreateRecord reserved) (fun created =>
    match created with
    | Ok created => XRet (Ok (NewReservation created))
    | Err e =>
        if is_409 e then
          GetRecord (x_name reserved) (fun existing =>
            match existing with
            | Err _ => XRet (Err RequestBackend)
            | Ok existing =>
                if String.eqb (exec_lease_uid (x_spec existing)) (t_lease_uid target)
                   && negb (execution_reuse_target_holds (x_spec existing) target container runner_path)
                then XRet (Err (RequestDenied DeniedTargetUnresolved))
                else XRet (reuse_existing existing (t_lease_uid target) digest legacy_digest detached)
            end)
        else if match e with Api code _ => definitive_create_rejection code | Transport => false end then
          LedgerCall lease (CallReject (x_name reserved) digest (t_pod_uid target)) (fun _ =>
            XRet (Err RequestBackend))
        else XRet (Err RequestBackend)
    end).

Definition resolve_execution_create (lease : SandboxLease) (target : SandboxTarget)
    (container runner_path digest legacy_digest : string) (detached : bool) (reserved : ExecutionObject)
  : xprog (result Reservation ExecutionRequestError) :=
  xdo? reservation := create_record lease target container runner_path digest legacy_digest detached reserved in
  LedgerCall lease (CallBind (x_exec (reservation_record reservation))) (fun bound =>
    XRet (match bound with
          | Ok true => Ok reservation
          | Ok false => Err releasing_denied
          | Err _ => Err RequestBackend
          end)).

(** [reserve_execution].  An interruption before the capacity is reserved ends
    the request; after it the resolver is a task of its own that keeps running,
    so its requests are made whether or not the handler still waits for them. *)
Definition reserve_execution (namespace : string) (lease : SandboxLease) (target : SandboxTarget)
    (container : string) (request : ExecutionRequest) (writer : option ServingReplica)
  : xprog (result Reservation ExecutionRequestError) :=
  match (let? _ := validate_request limits request in ok_or (t_runner_path target) RequestBackend) with
  | Err e => XRet (Err e)
  | Ok runner_path =>
      let digest := request_digest sha256_hex (rq_argv request) (rq_cwd request) (rq_timeout request) container
                      (rq_detached request) (rq_stdin request) in
      let legacy_digest := legacy_request_digest sha256_hex (rq_argv request) (rq_cwd request) (rq_timeout request) in
      let name := execution_name sha256_hex (t_lease_uid target) (rq_idempotency_key request) in
      let reserved :=
        build_execution_record namespace name lease target request digest
          {| target_namespace := t_namespace target; target_pod_name := t_pod_name target;
             target_pod_uid := t_pod_uid target; target_container := container;
             target_runner_path := runner_path |} in
      Interrupt (fun gone =>
        if gone then XRet (Err RequestBackend) else
        LedgerCall lease (CallReserve name digest (t_pod_uid target) writer) (fun capacity =>
          match capacity with
          | Err _ => XRet (Err RequestBackend)
          | Ok CapacityLimitReached => XRet (Err ExecutionLimit)
          | Ok CapacityLeaseClosed => XRet (Err releasing_denied)
          | Ok CapacityConflict => XRet (Err IdempotencyConflict)
          | Ok (ExistingTerminal execution_uid) =>
              Interrupt (fun gone =>
                if gone then XRet (Ok (PendingReservation reserved)) else
                GetRecord name (fun existing =>
                  XRet (match existing with
                        | Err _ => Err RequestBackend
                        | Ok existing =>
                            if negb (bool_decide (execution_uid = x_uid existing)) then Err RequestBackend
                            else if negb (execution_reuse_target_holds (x_spec existing) target container runner_path)
                            then Err (RequestDenied DeniedTargetUnresolved)
                            else reuse_existing existing (t_lease_uid target) digest legacy_digest
                                   (rq_detached request)
                        end)))
          | Ok Reserved | Ok (ExistingActive _) =>
              xdo resolved := resolve_execution_create lease target container runner_path digest legacy_digest
                                (rq_detached request) reserved in
              Interrupt (fun gone => XRet (if gone then Ok (PendingReservation reserved) else resolved))
          end))
  end.

End Api.
