(* ===== verification/ExecutionCleanup.v ===== *)
(** * ExecutionCleanup: the execution reaper and the cleanup of a released lease

    Model of the second half of [src/api/sandbox_executions.rs]: the periodic
    sweep that settles reservations nobody is left to resolve, and the pass
    that retires every record of a lease before its credentials and workload
    are torn down.  Programs are values of [xprog]. *)

From S2P Require Import Prelude Text Quarantine Execution SandboxObjects LedgerApi AccessLedger SandboxAccess RunnerClient ExecutionApi.

Local Open Scope kobe_scope.

Inductive ExecutionCleanupOutcome : Type :=
| CleanupClean
| CleanupCheckpointed
| AwaitTargetDestruction
| CleanupRetry
| AwaitCreation (stale : bool)
| Quarantine (reason : QuarantineReason).
#[global] Instance ExecutionCleanupOutcome_eq_dec : EqDecision ExecutionCleanupOutcome.
Proof. solve_decision. Defined.

Definition EXECUTION_CREATION_STALE : Z := seconds 30.

Definition is_401_or_403 (e : kube_error) : bool :=
  match e with Api code _ => (code =? 401) || (code =? 403) | Transport => false end.

(** ** Identity *)

Definition execution_identity_holds (o : ExecutionObject) (lease : SandboxLease) : result string QuarantineReason :=
  let? lease_uid := ok_or (sbx_uid lease) ExecutionParentUidMissing in
  let? uid := match x_uid o with
              | Some uid => if String.eqb uid "" then Err ExecutionUidMissing else Ok uid
              | None => Err ExecutionUidMissing
              end in
  let? _ := deny_if (negb (str_opt_eqb (x_namespace o) (sbx_namespace lease))
                     || negb (String.eqb (exec_lease_uid (x_spec o)) lease_uid)
                     || negb (str_opt_eqb (exec_lease_name (x_spec o)) (Some (sbx_name lease)))
                     || negb (str_opt_eqb (x_labels o !! RECORD_LEASE_UID_LABEL) (Some lease_uid))
                     || negb (str_opt_eqb (x_labels o !! RECORD_LEASE_NAME_LABEL) (Some (sbx_name lease)))
                     || negb (bool_decide (default [] (x_owner_references o) = []))
                     || negb (bool_decide (x_finalizers o = Some [SANDBOX_EXECUTION_FINALIZER])))
              ExecutionIdentityUnverifiable in
  Ok uid.

Definition cleanup_target (lease : SandboxLease) (o : ExecutionObject) : result SandboxTarget QuarantineReason :=
  let? status := ok_or (sbx_status lease) ExecutionLeaseStatusMissing in
  let? provenance := ok_or (sbx_target status) ExecutionTargetProvenanceMissing in
  let? claim := ok_or (tp_sandbox_claim provenance) ExecutionClaimProvenanceMissing in
  let? sandbox := ok_or (tp_sandbox provenance) ExecutionSandboxProvenanceMissing in
  let? pod := ok_or (tp_pod provenance) ExecutionPodProvenanceMissing in
  let? recorded := ok_or (exec_target (x_spec o)) ExecutionRunnerProvenanceMissing in
  let? _ := deny_if (negb (String.eqb (tp_namespace provenance) (target_namespace recorded))
                     || negb (String.eqb (oref_name pod) (target_pod_name recorded))
                     || negb (String.eqb (oref_uid pod) (target_pod_uid recorded))
                     || negb (String.eqb (exec_pod_uid (x_spec o)) (target_pod_uid recorded)))
              ExecutionRunnerProvenanceChanged in
  let? placement := match sbx_placement status with
                    | Some PlacedManagement => Ok TargetManagement
                    | Some (PlacedChildCluster _) => Ok TargetChildCluster
                    | None => Err ExecutionPlacementMissing
                    end in
  Ok {| t_lease_uid := exec_lease_uid (x_spec o); t_placement := placement;
        t_namespace := target_namespace recorded; t_claim_uid := oref_uid claim;
        t_sandbox_name := oref_name sandbox; t_sandbox_uid := oref_uid sandbox;
        t_pod_name := target_pod_name recorded; t_pod_uid := target_pod_uid recorded;
        t_container := target_container recorded; t_ports := [];
        t_runner_path := Some (target_runner_path recorded); t_attach_command := None;
        t_transport := TransportDirect |}.

Definition labelled (o : ExecutionObject) (lease_uid : string) : bool :=
  str_opt_eqb (x_labels o !! RECORD_LEASE_UID_LABEL) (Some lease_uid).
Definition names_this_lease (o : ExecutionObject) (lease_uid : string) : bool :=
  String.eqb (exec_lease_uid (x_spec o)) lease_uid.

Fixpoint collect_owned (listed : list ExecutionObject) (lease_uid : string) (owned : gmap string ExecutionObject)
  : result (gmap string ExecutionObject) QuarantineReason :=
  match listed with
  | [] => Ok owned
  | o :: listed =>
      if negb (names_this_lease o lease_uid) && negb (labelled o lease_uid) then collect_owned listed lease_uid owned
      else if negb (names_this_lease o lease_uid) || negb (labelled o lease_uid)
      then Err ExecutionIdentityUnverifiable
      else if is_some (owned !! x_name o) then Err ExecutionNameDuplicated
      else collect_owned listed lease_uid (<[x_name o := o]> owned)
  end.

Definition owned_execution_records (listed : list ExecutionObject) (lease_uid : string)
    (manifest : list ExecutionManifestEntry) : result (gmap string ExecutionObject) QuarantineReason :=
  let? owned := collect_owned listed lease_uid ∅ in
  if existsb (fun '(name, _) => negb (existsb (fun e => String.eqb (me_name e) name) manifest)) (map_to_list owned)
  then Err ExecutionNotInManifest
  else Ok owned.

Definition unlisted_record_is_absent (name lease_uid : string) : xprog (result unit ExecutionCleanupOutcome) :=
  GetRecord name (fun r =>
    XRet (match r with
          | Ok record =>
              match labelled record lease_uid, names_this_lease record lease_uid with
              | true, true => Err CleanupRetry
              | false, false => Ok tt
              | _, _ => Err (Quarantine ExecutionIdentityUnverifiable)
              end
          | Err e =>
              if is_404 e then Ok tt
              else if is_401_or_403 e then Err (Quarantine ExecutionListForbidden)
              else Err CleanupRetry
          end)).

(** ** Removing one record *)

(** The read after the DELETE. *)
Definition confirm_deleted (o : ExecutionObject) (expected_uid : string) : xprog ExecutionCleanupOutcome :=
  GetRecord (x_name o) (fun r =>
    XRet (match r with
          | Err e => if is_404 e then CleanupCheckpointed else CleanupRetry
          | Ok replacement => if negb (bool_decide (x_uid replacement = Some expected_uid))
                              then Quarantine ExecutionReplacedDuringCleanup else CleanupRetry
          end)).

Definition remove_execution_record (o : ExecutionObject) (expected_uid : string) : xprog ExecutionCleanupOutcome :=
  match x_resource_version o with
  | None => XRet (Quarantine ExecutionRvMissing)
  | Some rv =>
      let finalizers := default [] (x_finalizers o) in
      if negb (bool_decide (finalizers = [SANDBOX_EXECUTION_FINALIZER]))
      then XRet (Quarantine ExecutionFinalizerUnverifiable)
      else
        WriteRecord (DropFinalizers (x_name o) expected_uid rv finalizers) (fun dropped =>
          match dropped with
          | Err e =>
              XRet (if is_404 e || is_409 e then CleanupRetry
                    else if is_401_or_403 e then Quarantine ExecutionDeleteForbidden else CleanupRetry)
          | Ok _ =>
              GetRecord (x_name o) (fun current =>
                match current with
                | Err e => XRet (if is_404 e then CleanupCheckpointed else CleanupRetry)
                | Ok current =>
                    if negb (bool_decide (x_uid current = Some expected_uid))
                    then XRet (Quarantine ExecutionReplacedDuringCleanup)
                    else
                      WriteRecord (DeleteRecord (x_name o) expected_uid (x_resource_version current)) (fun deleted =>
                        match deleted with
                        | Err e =>
                            if is_404 e then confirm_deleted o expected_uid
                            else XRet (if is_401_or_403 e then Quarantine ExecutionDeleteForbidden else CleanupRetry)
                        | Ok _ => confirm_deleted o expected_uid
                        end)
                end)
          end)
  end.

Section Cleanup.
Context (parse_rfc3339 : string -> option Z) (to_rfc3339 : Z -> string).

Definition creation_is_stale (reserved_at : string) (now : Z) : bool :=
  match parse_rfc3339 reserved_at with
  | Some reserved => EXECUTION_CREATION_STALE <=? now - reserved
  | None => true
  end.

Definition await_creation (entry : ExecutionManifestEntry) : xprog ExecutionCleanupOutcome :=
  Clock (fun now => XRet (AwaitCreation (creation_is_stale (me_reserved_at entry) now))).

(** What a boolean ledger checkpoint means for the pass. *)
Definition checkpointed (r : result bool AccessLedgerError) : ExecutionCleanupOutcome :=
  match r with Ok true => CleanupCheckpointed | Ok false => CleanupRetry | Err _ => CleanupRetry end.

(** The manifest entry has no record. *)
Definition missing_record (lease : SandboxLease) (lease_uid : string) (entry : ExecutionManifestEntry)
  : xprog ExecutionCleanupOutcome :=
  xdo absent := unlisted_record_is_absent (me_name entry) lease_uid in
  match absent with
  | Err outcome => XRet outcome
  | Ok _ =>
      if negb (me_active entry) then
        match me_creation_state entry with
        | Rejected => LedgerCall lease (CallRetireRejected entry) (fun r => XRet (checkpointed r))
        | Bound => LedgerCall lease (CallRetireInactive entry) (fun r => XRet (checkpointed r))
        | Creating => await_creation entry
        end
      else if is_some (me_execution_uid entry) then XRet (Quarantine BoundExecutionMissing)
      else await_creation entry
  end.

(** [refresh], and the record has settled. *)
Definition refresh_settled (o : ExecutionObject) : xprog (result ExecutionObject ExecutionCleanupOutcome) :=
  xdo refreshed := refresh o in
  XRet (match refreshed with
        | None => Err CleanupRetry
        | Some refreshed => if ExecutionState.is_terminal (x_state refreshed)
                            then Ok refreshed else Err CleanupRetry
        end).

(** Bring a bound record to a stable outcome: the settled record, and whether
    its process group is proven absent.  [reachable] is [target_client.is_some()]. *)
Definition settle_bound (o : ExecutionObject) (target : SandboxTarget) (reachable : bool)
  : xprog (result (ExecutionObject * bool) ExecutionCleanupOutcome) :=
  if bool_decide (x_state o = ExecutionState.Queued) then
    xdo _ := record_terminal to_rfc3339 o ExecutionState.Cancelled None "lease_released_before_spawn" in
    xdo? terminal := refresh_settled o in
    XRet (Ok (terminal, true))
  else if negb (x_started o) then
    XRet (if negb (ExecutionState.is_terminal (x_state o)) then Err (Quarantine ExecutionStateUnverifiable)
          else Ok (o, true))
  else if reachable then
    RunnerCall {| rc_verb := VerbCancel; rc_target := target; rc_container := t_container target;
                  rc_path := default "" (t_runner_path target); rc_id := x_name o;
                  rc_record := x_uid o |} (fun answer =>
      match answer with
      | Ok report =>
          let outcome := outcome_from_report report in
          if negb (ExecutionState.is_terminal (out_state outcome)) then XRet (Err CleanupRetry)
          else
            xdo _ := record_terminal to_rfc3339 o (out_state outcome) (out_exit_code outcome) (out_reason outcome) in
            xdo? terminal := refresh_settled o in
            XRet (Ok (terminal, false))
      | Err failure =>
          xdo _ := record_terminal to_rfc3339 o ExecutionState.Unknown None (failure_reason_code failure) in
          xdo? terminal := refresh_settled o in
          XRet (Ok (terminal, false))
      end)
  else
    xdo _ := if negb (ExecutionState.is_terminal (x_state o))
             then record_terminal to_rfc3339 o ExecutionState.Cancelled None "target_destroyed"
             else XRet None in
    xdo? terminal := refresh_settled o in
    XRet (Ok (terminal, true)).

(** The manifest entry has this record. *)
Definition present_record (lease : SandboxLease) (entry : ExecutionManifestEntry) (o : ExecutionObject)
    (reachable : bool) : xprog ExecutionCleanupOutcome :=
  match (let? uid := execution_identity_holds o lease in
         let? _ := deny_if (negb (String.eqb (me_request_digest entry) (exec_request_digest (x_spec o)))
                            || negb (String.eqb (me_pod_uid entry) (exec_pod_uid (x_spec o))))
                     ExecutionManifestMismatch in
         Ok uid) with
  | Err reason => XRet (Quarantine reason)
  | Ok execution_uid =>
      match me_execution_uid entry with
      | None =>
          LedgerCall lease (CallExpireUnbound (me_name entry) (me_request_digest entry) (me_pod_uid entry)
                              (Some execution_uid)) (fun r => XRet (checkpointed r))
      | Some bound =>
          if negb (String.eqb bound execution_uid) then XRet (Quarantine ExecutionManifestMismatch)
          else match cleanup_target lease o with
               | Err reason => XRet (Quarantine reason)
               | Ok target =>
                   xdo settled := settle_bound o target reachable in
                   match settled with
                   | Err outcome => XRet outcome
                   | Ok (terminal, process_absence_proven) =>
                       if negb process_absence_proven then XRet AwaitTargetDestruction
                       else
                         LedgerCall lease (CallComplete (x_exec terminal) process_absence_proven) (fun r =>
                           match r with
                           | Err _ => XRet CleanupRetry
                           | Ok _ => remove_execution_record terminal execution_uid
                           end)
                   end
               end
      end
  end.

(** The manifest is empty: scan the whole namespace before reporting [Clean]. *)
Definition final_scan (lease : SandboxLease) (lease_uid : string) (manifest : list ExecutionManifestEntry)
  : xprog ExecutionCleanupOutcome :=
  ListRecords None (fun everything =>
    match everything with
    | Err e => XRet (if is_401_or_403 e then Quarantine ExecutionListForbidden else CleanupRetry)
    | Ok listed =>
        match owned_execution_records listed lease_uid manifest with
        | Err reason => XRet (Quarantine reason)
        | Ok _ =>
            LedgerCall lease CallClear (fun r =>
              XRet (match r with Ok true => CleanupCheckpointed | Ok false => CleanupClean | Err _ => CleanupRetry end))
        end
    end).

Definition cleanup_lease_executions_inner (lease : SandboxLease) (reachable require_empty_manifest : bool)
  : xprog ExecutionCleanupOutcome :=
  LedgerCall lease CallManifest (fun manifest =>
    match manifest with
    | Err _ => XRet (Quarantine ExecutionManifestUnverifiable)
    | Ok manifest =>
        if require_empty_manifest && negb (bool_decide (length manifest = 0%nat))
        then XRet (Quarantine NeverBoundExecutionManifestNonempty)
        else match sbx_uid lease with
             | None => XRet (Quarantine ExecutionParentUidMissing)
             | Some lease_uid =>
                 ListRecords (Some lease_uid) (fun listed =>
                   match listed with
                   | Err e => XRet (if is_401_or_403 e then Quarantine ExecutionListForbidden else CleanupRetry)
                   | Ok listed =>
                       match owned_execution_records listed lease_uid manifest with
                       | Err reason => XRet (Quarantine reason)
                       | Ok owned =>
                           match manifest with
                           | [] => final_scan lease lease_uid manifest
                           | entry :: _ =>
                               match owned !! me_name entry with
                               | None => missing_record lease lease_uid entry
                               | Some o => present_record lease entry o reachable
                               end
                           end
                       end
                   end)
             end
    end).

Definition cleanup_lease_executions (lease : SandboxLease) : xprog ExecutionCleanupOutcome :=
  cleanup_lease_executions_inner lease true false.
Definition cleanup_lease_executions_after_target_absence (lease : SandboxLease) : xprog ExecutionCleanupOutcome :=
  cleanup_lease_executions_inner lease false false.
Definition prove_never_bound_execution_footprint_empty (lease : SandboxLease) : xprog ExecutionCleanupOutcome :=
  cleanup_lease_executions_inner lease false true.

(** ** The reaper *)

(** Settled records, by UID and resourceVersion. *)
Abbreviation SettledTerminalRecords := (gset (string * string)) (only parsing).

Definition settled_key (o : ExecutionObject) : option (string * string) :=
  uid ← x_uid o; rv ← x_resource_version o; Some (uid, rv).

Definition settled_contains (s : SettledTerminalRecords) (o : ExecutionObject) : bool :=
  match settled_key o with Some key => bool_decide (key ∈ s) | None => false end.
Definition settled_insert (s : SettledTerminalRecords) (o : ExecutionObject) : SettledTerminalRecords :=
  match settled_key o with Some key => {[key]} ∪ s | None => s end.
Definition retain_listed (s : SettledTerminalRecords) (listed : list ExecutionObject) : SettledTerminalRecords :=
  s ∩ list_to_set (omap settled_key listed).

Definition complete_capacity_for_record (o : ExecutionObject) : xprog bool :=
  if x_started o then XRet true
  else match exec_lease_name (x_spec o) with
       | None => XRet true
       | Some lease_name =>
           GetParent lease_name (fun r =>
             match r with
             | Err e => XRet (is_404 e)
             | Ok lease =>
                 if negb (str_opt_eqb (sbx_uid lease) (Some (exec_lease_uid (x_spec o)))) then XRet true
                 else LedgerCall lease (CallComplete (x_exec o) false) (fun r =>
                        XRet (match r with Ok _ => true | Err _ => false end))
             end)
       end.

Fixpoint sweep_records (listed : list ExecutionObject) (now : Z) (settled : SettledTerminalRecords)
  : xprog SettledTerminalRecords :=
  match listed with
  | [] => XRet settled
  | o :: listed =>
      if ExecutionState.is_terminal (x_state o) then
        if settled_contains settled o then sweep_records listed now settled
        else
          xdo retired := complete_capacity_for_record o in
          sweep_records listed now (if retired then settled_insert settled o else settled)
      else if negb (queued_verdict_due parse_rfc3339 o now) then sweep_records listed now settled
      else
        xdo terminal := record_queued_setup_unknown to_rfc3339 o in
        match terminal with
        | None => sweep_records listed now settled
        | Some terminal =>
            xdo retired := complete_capacity_for_record terminal in
            sweep_records listed now (if retired then settled_insert settled terminal else settled)
        end
  end.

Definition setup_due (entry : ExecutionManifestEntry) (now : Z) : bool :=
  match parse_rfc3339 (me_reserved_at entry) with
  | Some reserved => reserved + EXECUTION_SETUP_GRACE <=? now
  | None => false
  end.

(** The record found under an unbound reservation is this reservation's, never
    started, queued or settled. *)
Definition setup_record (o : ExecutionObject) (lease : SandboxLease) (entry : ExecutionManifestEntry)
  : option (ExecutionObject * string) :=
  match execution_identity_holds o lease with
  | Err _ => None
  | Ok uid =>
      if negb (String.eqb (exec_request_digest (x_spec o)) (me_request_digest entry))
         || negb (String.eqb (exec_pod_uid (x_spec o)) (me_pod_uid entry))
         || x_started o
         || negb (bool_decide (x_state o = ExecutionState.Queued) || ExecutionState.is_terminal (x_state o))
      then None else Some (o, uid)
  end.

Definition expire_unbound (lease : SandboxLease) (entry : ExecutionManifestEntry)
    (observed : option (ExecutionObject * string)) : xprog unit :=
  LedgerCall lease (CallExpireUnbound (me_name entry) (me_request_digest entry) (me_pod_uid entry)
                      (snd <$> observed)) (fun r =>
    match r, observed with
    | Ok true, Some (o, _) =>
        if bool_decide (x_state o = ExecutionState.Queued) then
          xdo _ := record_terminal to_rfc3339 o ExecutionState.Unknown None "setup_unconfirmed" in
          XRet tt
        else XRet tt
    | _, _ => XRet tt
    end).

Definition reap_entry (lease : SandboxLease) (entry : ExecutionManifestEntry) (now : Z)
    (replica : option ServingReplica) : xprog unit :=
  if is_some (me_execution_uid entry) then XRet tt
  else if negb (setup_due entry now) then XRet tt
  else
    GetRecord (me_name entry) (fun r =>
      match r with
      | Ok o =>
          match setup_record o lease entry with
          | None => XRet tt
          | Some observed => expire_unbound lease entry (Some observed)
          end
      | Err e =>
          if negb (is_404 e) then XRet tt
          else match replica, me_writer entry with
               | Some current, Some _ =>
                   LedgerCall lease (CallExpireOrphaned entry current) (fun r =>
                     match r with
                     | Ok true => XRet tt
                     | Ok false => expire_unbound lease entry None
                     | Err _ => XRet tt
                     end)
               | _, _ => expire_unbound lease entry None
               end
      end).

Fixpoint reap_entries (lease : SandboxLease) (entries : list ExecutionManifestEntry) (now : Z)
    (replica : option ServingReplica) : xprog unit :=
  match entries with
  | [] => XRet tt
  | entry :: entries => xdo _ := reap_entry lease entry now replica in reap_entries lease entries now replica
  end.

Fixpoint reap_leases (leases : list SandboxLease) (now : Z) (replica : option ServingReplica) : xprog unit :=
  match leases with
  | [] => XRet tt
  | lease :: leases =>
      LedgerCall lease CallManifest (fun manifest =>
        match manifest with
        | Err _ => reap_leases leases now replica
        | Ok manifest =>
            xdo _ := reap_entries lease manifest now replica in
            reap_leases leases now replica
        end)
  end.

Definition reap_unbound_execution_capacity (now : Z) (replica : option ServingReplica) : xprog unit :=
  ListParents (fun listed =>
    match listed with Err _ => XRet tt | Ok leases => reap_leases leases now replica end).

(** One turn of the loop of [run_execution_reaper], after the sleep. *)
Definition reaper_sweep (settled : SettledTerminalRecords) (replica : option ServingReplica)
  : xprog SettledTerminalRecords :=
  ListRecords None (fun listed =>
    match listed with
    | Err _ => XRet settled
    | Ok listed =>
        Clock (fun now =>
          xdo settled := sweep_records listed now (retain_listed settled listed) in
          xdo _ := reap_unbound_execution_capacity now replica in
          XRet settled)
    end).

End Cleanup.
