(* ===== verification/ExecutionHandlers.v ===== *)
(** * ExecutionHandlers: the HTTP handlers that start, observe and cancel executions

    Model of the execution handlers of [src/api/sandbox.rs], from the resolved
    and registered request to its response: starting a reserved command,
    resuming a retried one, waiting for the runner, polling and cancelling.
    Authentication, verb checks and the guard registration come before them
    (see SandboxAccess and AccessLedger). *)

From S2P Require Import Prelude Text Execution SandboxObjects LedgerApi AccessLedger SandboxAccess RunnerClient ExecutionApi.

Local Open Scope kobe_scope.

Record Response : Type := {
  rs_status : Z;
  rs_record : option ExecutionObject;
  rs_output : option RunnerOutput;
}.

Definition respond (status : Z) (o : ExecutionObject) : Response :=
  {| rs_status := status; rs_record := Some o; rs_output := None |}.
Definition error_response (status : Z) : Response :=
  {| rs_status := status; rs_record := None; rs_output := None |}.

(** [stream_registration_denied]: the lease ended, or the backend failed; and a
    lease that ended under a running command. *)
Definition lease_ended_response : Response := error_response 409.
Definition gone_response : Response := error_response 410.
Definition backend_response : Response := error_response 503.

Definition execution_is_runner_managed (spec : SandboxExecutionSpec) : bool :=
  default (exec_detached spec) (exec_runner_managed spec).

Definition reused_execution_response_status (o : ExecutionObject) : option Z :=
  if exec_detached (x_spec o) && ExecutionState.is_terminal (x_state o) then Some 200
  else if negb (execution_is_runner_managed (x_spec o)) then Some 200 else None.

Definition request_error_response (e : ExecutionRequestError) : Response := error_response (request_error_status e).

Section Handlers.
Context (sha256_hex : string -> string) (parse_rfc3339 : string -> option Z) (to_rfc3339 : Z -> string).
Context (checked_deadline : Z -> StdDuration -> option Z) (limits : SandboxLimits).
Context (encode_base64 : list ascii -> string).
(** How often a waiting handler polls before it is observed. *)
Context (polls : nat).

Definition the_call (verb : runner_verb) (target : SandboxTarget) (container runner_path : string)
    (o : ExecutionObject) : runner_call :=
  {| rc_verb := verb; rc_target := target; rc_container := container; rc_path := runner_path; rc_id := x_name o;
     rc_record := x_uid o |}.

(** A runner call that completes before the lease is revoked, or whose answer
    is lost to the revocation. *)
Definition before_revocation (c : runner_call)
  : xprog (option (result Runner.ExecutionReport RunnerCallFailure)) :=
  Interrupt (fun revoked =>
    if revoked then XRet None
    else RunnerCall c (fun answer =>
           Interrupt (fun revoked => XRet (if revoked then None else Some answer)))).

Definition record_revoked_outcome (o : ExecutionObject) (cancelled : result Runner.ExecutionReport RunnerCallFailure)
  : xprog unit :=
  match cancelled with
  | Err _ => XRet tt
  | Ok report =>
      let outcome := outcome_from_report report in
      if ExecutionState.is_terminal (out_state outcome) then
        xdo _ := record_terminal to_rfc3339 o (out_state outcome) (out_exit_code outcome) (out_reason outcome) in
        XRet tt
      else XRet tt
  end.

Inductive WaitRunnerFailure : Type :=
| WaitPoll (failure : RunnerCallFailure)
| WaitRevoked (cancelled : result Runner.ExecutionReport RunnerCallFailure)
| StillWaiting.  (** the handler is still in its loop *)

Fixpoint wait_for_runner (fuel : nat) (target : SandboxTarget) (container runner_path : string) (o : ExecutionObject)
    (report : Runner.ExecutionReport) : xprog (result Runner.ExecutionReport WaitRunnerFailure) :=
  if Runner.is_terminal (Runner.report_state report) then XRet (Ok report)
  else match fuel with
       | O => XRet (Err StillWaiting)
       | S fuel =>
           let cancelled := RunnerCall (the_call VerbCancel target container runner_path o) (fun r =>
                              XRet (Err (WaitRevoked r))) in
           Interrupt (fun revoked =>
             if revoked then cancelled
             else RunnerCall (the_call VerbPoll target container runner_path o) (fun polled =>
                    Interrupt (fun revoked =>
                      if revoked then cancelled
                      else match polled with
                           | Err failure => XRet (Err (WaitPoll failure))
                           | Ok report => wait_for_runner fuel target container runner_path o report
                           end)))
       end.

Definition wait_output_response (target : SandboxTarget) (container runner_path : string) (o : ExecutionObject)
  : xprog Response :=
  Interrupt (fun revoked =>
    if revoked then XRet gone_response
    else ReadOutput (the_call VerbLogs target container runner_path o) (fun output =>
           Interrupt (fun revoked =>
             if revoked then XRet gone_response
             else match output with
                  | Err failure =>
                      if state_unverifiable failure && bool_decide (x_state o = ExecutionState.Unknown)
                      then XRet (respond 200 o)
                      else XRet (error_response (failure_http_status failure))
                  | Ok output =>
                      xdo refreshed := refresh o in
                      XRet {| rs_status := 200; rs_record := Some (default o refreshed); rs_output := Some output |}
                  end))).

Definition complete_wait_mode (target : SandboxTarget) (container runner_path : string) (o : ExecutionObject)
    (report : Runner.ExecutionReport) : xprog Response :=
  xdo waited := wait_for_runner polls target container runner_path o report in
  match waited with
  | Err (WaitPoll failure) => XRet (error_response (failure_http_status failure))
  | Err (WaitRevoked cancelled) =>
      xdo _ := record_revoked_outcome o cancelled in
      XRet gone_response
  | Err StillWaiting => XRet (error_response 0)
  | Ok report =>
      let outcome := outcome_from_report report in
      xdo durable := record_terminal to_rfc3339 o (out_state outcome) (out_exit_code outcome) (out_reason outcome) in
      match durable with
      | None => XRet backend_response
      | Some durable => wait_output_response target container runner_path durable
      end
  end.

Definition runner_started_response (o : ExecutionObject) (report : Runner.ExecutionReport) : xprog Response :=
  let outcome := outcome_from_report report in
  if ExecutionState.is_terminal (out_state outcome) then
    xdo durable := record_terminal to_rfc3339 o (out_state outcome) (out_exit_code outcome) (out_reason outcome) in
    XRet (match durable with Some durable => respond 200 durable | None => backend_response end)
  else
    xdo running := refresh o in
    XRet (match running with Some running => respond 202 running | None => backend_response end).

Definition run_with_runner (target : SandboxTarget) (container : string) (request : ExecutionRequest)
    (reserved : ExecutionObject) (timeout : StdDuration) : xprog Response :=
  match t_runner_path target with
  | None =>
      xdo _ := record_terminal to_rfc3339 reserved ExecutionState.Unknown None "runner_unavailable" in
      XRet (error_response 409)
  | Some runner_path =>
      let start := start_request encode_base64 (output_bytes limits) (x_name reserved) (rq_argv request)
                     (rq_cwd request) timeout (String.list_ascii_of_string <$> rq_stdin request) in
      xdo started := before_revocation (the_call (VerbStart start) target container runner_path reserved) in
      match started with
      | None =>
          xdo _ := record_terminal to_rfc3339 reserved ExecutionState.Unknown None "lease_revoked" in
          XRet gone_response
      | Some (Err failure) =>
          xdo _ := record_terminal to_rfc3339 reserved ExecutionState.Unknown None (failure_reason_code failure) in
          XRet (error_response (failure_http_status failure))
      | Some (Ok report) =>
          if rq_detached request then runner_started_response reserved report
          else complete_wait_mode target container runner_path reserved report
      end
  end.

Definition resume_wait_with_runner (target : SandboxTarget) (container : string) (o : ExecutionObject)
  : xprog Response :=
  if bool_decide (x_state o = ExecutionState.Queued) then XRet (respond 200 o)
  else match t_runner_path target with
       | None => XRet backend_response
       | Some runner_path =>
           if ExecutionState.is_terminal (x_state o) then wait_output_response target container runner_path o
           else
             xdo polled := before_revocation (the_call VerbPoll target container runner_path o) in
             match polled with
             | None =>
                 RunnerCall (the_call VerbCancel target container runner_path o) (fun cancelled =>
                   xdo _ := record_revoked_outcome o cancelled in
                   XRet gone_response)
             | Some (Err failure) =>
                 if state_unverifiable failure then
                   xdo durable := record_terminal to_rfc3339 o ExecutionState.Unknown None (failure_reason_code failure) in
                   XRet (respond 200 (default o durable))
                 else XRet (error_response (failure_http_status failure))
             | Some (Ok report) =>
                 if exec_detached (x_spec o) then runner_started_response o report
                 else complete_wait_mode target container runner_path o report
             end
       end.

(** The reason a fresh reservation is settled with when its setup fails, and
    what the caller is told. *)
Definition setup_failure (d : ScopedSetupDenied) : ExecutionState.t * string * Response :=
  match d with
  | SetupAccess denied =>
      (ExecutionState.Unknown, denied_reason_code denied, error_response (denied_http_status denied))
  | SetupRevoked => (ExecutionState.Cancelled, "lease_revoked_before_credential", lease_ended_response)
  | SetupTargetTimeout => (ExecutionState.Unknown, "target_setup_timeout", backend_response)
  | SetupCredentialTimeout => (ExecutionState.Unknown, "credential_setup_timeout", backend_response)
  end.

(** From the scoped credential to the runner: the only path that starts a
    command. *)
Definition start_reserved (lease : SandboxLease) (target : SandboxTarget) (container : string)
    (request : ExecutionRequest) (requested : StdDuration) (reserved : ExecutionObject) : xprog Response :=
  Clock (fun now =>
    match effective_timeout parse_rfc3339 requested lease now with
    | Err e =>
        xdo _ := record_terminal to_rfc3339 reserved ExecutionState.TimedOut None "lease_ttl_exhausted" in
        XRet (request_error_response e)
    | Ok timeout =>
        xdo marked := mark_running to_rfc3339 checked_deadline reserved timeout (deadline_source requested timeout) in
        match marked with
        | Err _ => XRet backend_response
        | Ok _ => run_with_runner target container request reserved timeout
        end
    end).

Definition after_reservation (lease : SandboxLease) (target : SandboxTarget) (container : string)
    (request : ExecutionRequest) (requested : StdDuration) (reserved : ExecutionObject) (fresh : bool)
  : xprog Response :=
  if fresh && negb (may_spawn reserved) then XRet (error_response 409)
  else
    ScopedSetup (fun access =>
      match access with
      | Err denied =>
          let '(state, reason, response) := setup_failure denied in
          if fresh then
            xdo _ := record_terminal to_rfc3339 reserved state None reason in
            XRet response
          else XRet response
      | Ok _ =>
          if negb fresh then resume_wait_with_runner target container reserved
          else start_reserved lease target container request requested reserved
      end).

(** [create_sandbox_execution] from its checks on.  The encoding of the request
    line between the deadline and the reservation cannot fail: [serde_json]
    writes a value of strings, integers and options always. *)
Definition create_sandbox_execution (namespace : string) (lease : SandboxLease) (target : SandboxTarget)
    (container : string) (request : ExecutionRequest) (writer : option ServingReplica) : xprog Response :=
  match t_runner_path target with
  | None => XRet (error_response 501)
  | Some _ =>
      match validate_request limits request with
      | Err e => XRet (request_error_response e)
      | Ok _ =>
          match requested_timeout (rq_timeout request) with
          | None => XRet (error_response 500)
          | Some requested =>
              Clock (fun now =>
                match effective_timeout parse_rfc3339 requested lease now with
                | Err e => XRet (request_error_response e)
                | Ok _ =>
                    xdo reservation := reserve_execution sha256_hex limits namespace lease target container request writer in
                    match reservation with
                    | Err e => XRet (request_error_response e)
                    | Ok (PendingReservation pending) => XRet (respond 202 pending)
                    | Ok (ExistingReservation existing) =>
                        match reused_execution_response_status existing with
                        | Some status => XRet (respond status existing)
                        | None => after_reservation lease target container request requested existing false
                        end
                    | Ok (NewReservation reserved) =>
                        after_reservation lease target container request requested reserved true
                    end
                end)
          end
      end
  end.

(** ** Polling and cancelling *)

Definition reconcile_runner (target : SandboxTarget) (container runner_path : string) (o : ExecutionObject)
  : xprog ExecutionObject :=
  if ExecutionState.is_terminal (x_state o) then XRet o
  else
    RunnerCall (the_call VerbPoll target container runner_path o) (fun polled =>
      let outcome :=
        match polled with
        | Ok report => Some (outcome_from_report report)
        | Err failure =>
            if state_unverifiable failure
            then Some {| out_state := ExecutionState.Unknown; out_exit_code := None;
                         out_reason := failure_reason_code failure |}
            else None
        end in
      match outcome with
      | None => XRet o
      | Some outcome =>
          if negb (ExecutionState.is_terminal (out_state outcome)) then XRet o
          else
            xdo durable := record_terminal to_rfc3339 o (out_state outcome) (out_exit_code outcome)
                             (out_reason outcome) in
            XRet (default o durable)
      end).

Definition get_sandbox_execution (target : SandboxTarget) (name : string) : xprog Response :=
  xdo owned := get_owned name (t_lease_uid target) in
  match owned with
  | Err e => XRet (request_error_response e)
  | Ok None => XRet (error_response 404)
  | Ok (Some o) =>
      match execution_runner_address (x_spec o) target with
      | Err RunnerMissing => XRet backend_response
      | Err _ => XRet (error_response 410)
      | Ok address =>
          if execution_is_runner_managed (x_spec o) && negb (ExecutionState.is_terminal (x_state o)) then
            match address with
            | None => XRet backend_response
            | Some (container, runner_path) =>
                ScopedSetup (fun access =>
                  match access with
                  | Err (SetupAccess denied) => XRet (error_response (denied_http_status denied))
                  | Err SetupRevoked => XRet lease_ended_response
                  | Err _ => XRet backend_response
                  | Ok _ =>
                      Interrupt (fun revoked =>
                        if revoked then XRet lease_ended_response
                        else
                          xdo o := reconcile_runner target container runner_path o in
                          XRet (respond 200 o))
                  end)
            end
          else XRet (respond 200 o)
      end
  end.

(** [cancel_runner]: the response, or [None] for a record no runner owns. *)
Definition cancel_runner (target : SandboxTarget) (name : string) : xprog (option Response) :=
  xdo owned := get_owned name (t_lease_uid target) in
  match owned with
  | Err e => XRet (Some (request_error_response e))
  | Ok None => XRet (Some (error_response 404))
  | Ok (Some o) =>
      if ExecutionState.is_terminal (x_state o) then XRet (Some (respond 200 o))
      else
        match execution_runner_address (x_spec o) target with
        | Ok None => XRet (if negb (execution_is_runner_managed (x_spec o)) then None else Some backend_response)
        | Err RunnerMissing => XRet (Some backend_response)
        | Err _ => XRet (Some (error_response 410))
        | Ok (Some (container, runner_path)) =>
            ScopedSetup (fun access =>
              match access with
              | Err (SetupAccess denied) => XRet (Some (error_response (denied_http_status denied)))
              | Err SetupRevoked => XRet (Some lease_ended_response)
              | Err _ => XRet (Some backend_response)
              | Ok _ =>
                  xdo cancelled := before_revocation (the_call VerbCancel target container runner_path o) in
                  match cancelled with
                  | None => XRet (Some lease_ended_response)
                  | Some (Err failure) => XRet (Some (error_response (failure_http_status failure)))
                  | Some (Ok report) =>
                      let outcome := outcome_from_report report in
                      if negb (ExecutionState.is_terminal (out_state outcome)) then XRet (Some (error_response 202))
                      else
                        xdo durable := record_terminal to_rfc3339 o (out_state outcome) (out_exit_code outcome)
                                         (out_reason outcome) in
                        XRet (Some (match durable with
                                    | Some durable => respond 200 durable
                                    | None => backend_response
                                    end))
                  end
              end)
        end
  end.

Definition cancel_sandbox_execution (target : SandboxTarget) (name : string) : xprog Response :=
  xdo handled := cancel_runner target name in
  match handled with
  | Some response => XRet response
  | None =>
      xdo r := cancel_owned to_rfc3339 name (t_lease_uid target) in
      XRet (match r with
            | Ok (Some o) => respond 200 o
            | Ok None => error_response 404
            | Err e => request_error_response e
            end)
  end.

End Handlers.
