(* ===== verification/ExecutionSystem.v ===== *)
(** * ExecutionSystem: every handler of the execution records, interleaved

    The system the execution records live in: request handlers, the reaper and
    lease cleanup, any number of each, interleaved request by request; requests
    that are lost or applied after their sender gave up; tasks that disappear;
    other clients changing metadata and deleting objects.  The answers of the
    access ledger, the runner and the clock are arbitrary here.  [xwlp] is what a
    handler guarantees of its writes and of the commands it starts, whatever it
    is answered; a lemma per handler establishes it. *)

From S2P Require Import Prelude Text Execution SandboxObjects LedgerApi AccessLedger SandboxAccess RunnerClient ExecutionApi ExecutionCleanup ExecutionHandlers.

Local Open Scope kobe_scope.

(** ** How a status may change *)

Inductive status_step (old new : SandboxExecutionStatus) : Prop :=
| step_running :
    transition_execution (exec_state old) ExecutionState.Running None = Ok ExecutionState.Running ->
    exec_state new = ExecutionState.Running -> is_some (exec_started_at new) = true ->
    exec_exit_code new = exec_exit_code old -> status_step old new
| step_settled code :
    ExecutionState.is_terminal (exec_state old) = false -> ExecutionState.is_terminal (exec_state new) = true ->
    transition_execution (exec_state old) (exec_state new) code = Ok (exec_state new) ->
    exec_started_at new = exec_started_at old ->
    (exec_exit_code new = code \/ (code = None /\ exec_exit_code new = exec_exit_code old)) ->
    status_step old new.

Lemma transition_Ok from to code s : transition_execution from to code = Ok s -> s = to.
Proof. unfold transition_execution. case_bool_decide as E; [by intros [= <-]|]. repeat case_match; by intros [= <-]. Qed.

Lemma status_step_terminal old new :
  ExecutionState.is_terminal (exec_state old) = true -> ~ status_step old new.
Proof.
  intros Ht [Hok _ _ _ | code Hnt _ _ _ _]; [|congruence].
  apply transition_terminal in Hok as [E _]; [|done]. rewrite <- E in Ht. done.
Qed.

Lemma status_steps_terminal old new :
  ExecutionState.is_terminal (exec_state old) = true -> rtc status_step old new -> new = old.
Proof. intros Ht H. destruct H as [|x y z Hs _]; [done|]. by apply status_step_terminal in Hs. Qed.

Lemma status_steps_started old new :
  rtc status_step old new -> is_some (exec_started_at old) = true -> is_some (exec_started_at new) = true.
Proof.
  induction 1 as [|x y z Hs _ IH]; [done|]. intros Hx. apply IH.
  destruct Hs as [_ _ Hst _ | code _ _ _ Hst _]; [done | by rewrite Hst].
Qed.

(** What every stored status satisfies. *)
Record status_wf (st : SandboxExecutionStatus) : Prop := {
  wf_queued : exec_state st = ExecutionState.Queued -> exec_started_at st = None;
  wf_exit : exit_code_agrees (exec_state st) (exec_exit_code st) = true;
  wf_running : exec_state st = ExecutionState.Running -> is_some (exec_started_at st) = true;
}.

Lemma status_wf_default : status_wf default_execution_status.
Proof. by constructor. Qed.

Lemma transition_exit_code from to code :
  from <> to -> transition_execution from to code = Ok to -> exit_code_agrees to code = true.
Proof.
  unfold transition_execution, exit_code_agrees. intros Hne. rewrite bool_decide_eq_false_2 by done.
  repeat case_match; try done; intros _; destruct (carries_exit_code to), code; done.
Qed.

Lemma status_step_wf old new : status_wf old -> status_step old new -> status_wf new.
Proof.
  intros [Hq Hx Hr] [Hok Hst Hs Hc | code Hnt Ht Hok Hs Hc].
  - constructor; [congruence | | done]. rewrite Hc, Hst. revert Hx. unfold exit_code_agrees, carries_exit_code.
    destruct (exec_state old) eqn:E; try done; by vm_compute in Hok.
  - assert (exec_state old <> exec_state new) as Hne by congruence.
    pose proof (transition_exit_code _ _ _ Hne Hok) as Hcode.
    constructor; [intros E; by rewrite E in Ht | | intros E; by rewrite E in Ht].
    destruct Hc as [-> | [-> ->]]; [done|].
    revert Hx Hcode. unfold exit_code_agrees. destruct (exec_exit_code old); [|done].
    destruct (exec_state old) eqn:E; try done.
Qed.

(** ** Contexts: what a handler has seen and may start *)

Record XCtx : Type := {
  xseen : ExecutionObject -> Prop;
  xowned : string -> Prop;
  xlease : option string;
}.

Definition xsaw (c : XCtx) (P : ExecutionObject -> Prop) : XCtx :=
  {| xseen := fun o => xseen c o \/ P o; xowned := xowned c; xlease := xlease c |}.

(** The writes whose answer is the stored object. *)
Definition answers_stored (w : record_write) : bool :=
  match w with CreateRecord _ | PatchStatus _ _ _ _ => true | _ => false end.

Definition xwrote (c : XCtx) (w : record_write) (r : result ExecutionObject kube_error) : XCtx :=
  {| xseen := fun o => xseen c o \/ (answers_stored w = true /\ r = Ok o);
     xowned := fun u => xowned c u
                        \/ match w with CreateRecord _ => exists o, r = Ok o /\ x_uid o = Some u | _ => False end;
     xlease := xlease c |}.

Definition is_start (c : runner_call) : bool := match rc_verb c with VerbStart _ => true | _ => false end.

Definition xspent (c : XCtx) (call : runner_call) : XCtx :=
  {| xseen := xseen c; xlease := xlease c;
     xowned := fun u => xowned c u /\ ~ (is_start call = true /\ rc_record call = Some u) |}.

Definition record_write_ok (c : XCtx) (w : record_write) : Prop :=
  match w with
  | CreateRecord o => xlease c = Some (exec_lease_uid (x_spec o))
  | PatchStatus name uid rv st =>
      exists o, xseen c o /\ x_name o = name /\ x_uid o = Some uid /\ x_resource_version o = Some rv
                /\ status_step (x_status o) st
  | _ => True
  end.

Definition record_answer_ok (w : record_write) (r : result ExecutionObject kube_error) : Prop :=
  match r with
  | Err _ => True
  | Ok o =>
      match w with
      | CreateRecord o' => x_name o = x_name o' /\ is_Some (x_uid o) /\ x_spec o = x_spec o'
      | PatchStatus name uid _ st => x_name o = name /\ x_uid o = Some uid /\ x_status o = st
      | _ => True
      end
  end.

Definition start_ok (c : XCtx) (call : runner_call) : Prop :=
  is_start call = true ->
  exists u o, rc_record call = Some u /\ xowned c u /\ xseen c o /\ x_uid o = Some u /\ x_started o = true.

(** Capacity is only ever completed for a record that was read. *)
Definition ledger_call_ok (c : XCtx) (call : ledger_call) : Prop :=
  match call with CallComplete e _ => exists o, xseen c o /\ x_exec o = e | _ => True end.

Fixpoint xwlp {R} (c : XCtx) (p : xprog R) (Q : XCtx -> R -> Prop) : Prop :=
  match p with
  | XRet r => Q c r
  | GetRecord name k => forall r, (forall o, r = Ok o -> x_name o = name) -> xwlp (xsaw c (fun o => r = Ok o)) (k r) Q
  | ListRecords _ k => forall r, xwlp (xsaw c (fun o => exists l, r = Ok l /\ In o l)) (k r) Q
  | WriteRecord w k => record_write_ok c w /\ forall r, record_answer_ok w r -> xwlp (xwrote c w r) (k r) Q
  | LedgerCall _ call k => ledger_call_ok c call /\ forall r, xwlp c (k r) Q
  | RunnerCall call k => start_ok c call /\ forall r, xwlp (xspent c call) (k r) Q
  | GetParent _ k => forall r, xwlp c (k r) Q
  | ListParents k => forall r, xwlp c (k r) Q
  | ReadOutput _ k => forall r, xwlp c (k r) Q
  | ScopedSetup k => forall r, xwlp c (k r) Q
  | Clock k => forall r, xwlp c (k r) Q
  | Interrupt k => forall r, xwlp c (k r) Q
  end.

Lemma xwlp_mono {R} (p : xprog R) c (Q Q' : XCtx -> R -> Prop) :
  (forall c r, Q c r -> Q' c r) -> xwlp c p Q -> xwlp c p Q'.
Proof.
  intros HQ. revert c. induction p; intros d; cbn; try solve [auto].
  all: intros [? ?]; split; auto.
Qed.

Lemma xwlp_bind {A B} (p : xprog A) (f : A -> xprog B) c Q :
  xwlp c p (fun c a => xwlp c (f a) Q) -> xwlp c (xbind p f) Q.
Proof. revert c. induction p; intros d; cbn; try solve [auto]. all: intros [? ?]; split; auto. Qed.

(** ** What only grows *)

Record xctx_le (c c' : XCtx) : Prop := {
  le_seen : forall o, xseen c o -> xseen c' o;
  le_lease : xlease c' = xlease c;
}.

#[export] Instance xctx_le_preorder : PreOrder xctx_le.
Proof. split; [by constructor | intros a b d [H1 E1] [H2 E2]; constructor; [auto | congruence]]. Qed.

Lemma xctx_le_refl c : xctx_le c c. Proof. done. Qed.
Lemma xctx_le_saw c P : xctx_le c (xsaw c P). Proof. constructor; cbn; auto. Qed.
Lemma xctx_le_wrote c w r : xctx_le c (xwrote c w r). Proof. constructor; cbn; auto. Qed.
Lemma xctx_le_spent c call : xctx_le c (xspent c call). Proof. by constructor. Qed.
#[export] Hint Resolve xctx_le_refl xctx_le_saw xctx_le_wrote xctx_le_spent : kobe.

(** Records and ownership of a context, kept by programs that start nothing. *)
Record keeps (c c' : XCtx) : Prop := {
  keeps_le : xctx_le c c';
  keeps_owned : forall u, xowned c u -> xowned c' u;
}.

#[export] Instance keeps_preorder : PreOrder keeps.
Proof. split; [by constructor | intros a b d [H1 E1] [H2 E2]; constructor; [by etrans | auto]]. Qed.

Lemma keeps_saw c P : keeps c (xsaw c P). Proof. constructor; [apply xctx_le_saw | done]. Qed.
Lemma keeps_wrote c w r : keeps c (xwrote c w r). Proof. constructor; [apply xctx_le_wrote | cbn; auto]. Qed.
Lemma keeps_spent c call : is_start call = false -> keeps c (xspent c call).
Proof. intros H. constructor; [apply xctx_le_spent |]. cbn. intros u Hu. split; [done|]. intros [E _]. congruence. Qed.
#[export] Hint Resolve keeps_saw keeps_wrote keeps_spent : kobe.

Lemma xwlp_frame {R} (p : xprog R) c Q : xwlp c p Q -> xwlp c p (fun c' r => Q c' r /\ xctx_le c c').
Proof.
  assert (forall c0, xctx_le c0 c -> xwlp c p Q -> xwlp c p (fun c' r => Q c' r /\ xctx_le c0 c')) as H;
    [|by apply H].
  revert c. induction p; intros d d0 Hle; cbn; try solve [auto].
  all: try (intros HQ ?; intros; eapply H; [etrans; [exact Hle|]; auto with kobe | eauto]).
  all: intros [? HQ]; split; [done|]; intros; eapply H; [etrans; [exact Hle|]; auto with kobe | eauto].
Qed.

(** Apply a handler's lemma to the first half of a sequence. *)
Ltac xcall lem := apply xwlp_bind; eapply xwlp_mono; [|apply lem].

#[local] Abbreviation kept c := (fun c' _ => keeps c c') (only parsing).

(** ** The status writers *)

Lemma xwlp_mutate_status expected mutate c :
  (forall st st', mutate st = Ok st' -> status_step st st') ->
  xwlp c (mutate_status expected mutate)
    (fun c' r => keeps c c' /\ forall o, r = Ok o ->
       xseen c' o /\ x_uid o = x_uid expected /\ exists st, mutate st = Ok (x_status o)).
Proof.
  intros Hstep. unfold mutate_status. destruct (x_uid expected) as [uid|]; [|by cbn].
  intros [live|e] Hname; [|cbn; split; [apply keeps_saw | done]].
  case_bool_decide as Hu; [cbn [negb deny_if] | cbn; split; [apply keeps_saw | done]].
  destruct (x_resource_version live) as [rv|] eqn:Hrv; [cbn [ok_or] | cbn; split; [apply keeps_saw | done]].
  destruct (mutate (x_status live)) as [st|] eqn:Hm; [|cbn; split; [apply keeps_saw | done]].
  cbn [xwlp]. split.
  { exists live. cbn. split_and!; eauto. }
  intros [o|e] Hans; cbn; (split; [etrans; [apply keeps_saw | apply keeps_wrote]|]); [|done].
  intros ? [= <-]. destruct Hans as (Hn & Hu' & Hst). split_and!; [by right | done | exists (x_status live); congruence].
Qed.

Section writers.
Context (to_rfc3339 : Z -> string) (checked_deadline : Z -> StdDuration -> option Z).

Lemma running_status_step now timeout source st st' :
  running_status to_rfc3339 checked_deadline now timeout source st = Ok st' ->
  status_step st st' /\ is_some (exec_started_at st') = true.
Proof.
  unfold running_status. destruct (transition_execution _ _ _) as [s|] eqn:E; [|done]. intros [= <-].
  pose proof (transition_Ok _ _ _ _ E) as ->. split; [by apply step_running | done].
Qed.

Lemma xwlp_mark_running o timeout source c :
  xwlp c (mark_running to_rfc3339 checked_deadline o timeout source)
    (fun c' r => keeps c c' /\ (r = Ok tt -> exists o', xseen c' o' /\ x_uid o' = x_uid o /\ x_started o' = true)).
Proof.
  intros now. xcall xwlp_mutate_status.
  - intros c' [o'|e]; cbn; intros [Hk Ho]; (split; [done|]); [|done]. intros _.
    destruct (Ho o' eq_refl) as (Hs & Hu & st & Hst). exists o'. split_and!; [done..|].
    unfold x_started. by apply running_status_step in Hst as [_ ->].
  - intros st st' H. by apply running_status_step in H as [? _].
Qed.

Lemma settle_plan_write name live uid state code at_ reason w :
  ExecutionState.is_terminal state = true ->
  settle_plan name live uid state code at_ reason = Ok (inr w) ->
  exists rv st, w = PatchStatus name uid rv st /\ x_uid live = Some uid /\ x_resource_version live = Some rv
    /\ status_step (x_status live) st.
Proof.
  unfold settle_plan. intros Ht H. case_bool_decide as Hu; [cbn [negb deny_if] in H | done].
  destruct (ExecutionState.is_terminal (x_state live)) eqn:Hl; [done|].
  destruct (transition_execution _ _ _) as [s|] eqn:Htr; [|done].
  destruct (x_resource_version live) as [rv|]; [cbn in H | done]. injection H as <-.
  pose proof (transition_Ok _ _ _ _ Htr) as ->.
  eexists rv, _. split_and!; [reflexivity | done | done |]. eapply (step_settled _ _ code); cbn; auto.
Qed.

Lemma settle_plan_done name live uid state code at_ reason o :
  settle_plan name live uid state code at_ reason = Ok (inl o) -> o = live.
Proof. unfold settle_plan. case_bool_decide; [|done]. cbn. case_match; [by intros [= <-]|]. repeat case_match; done. Qed.

Lemma xwlp_persist_loop n name uid state code at_ reason c :
  ExecutionState.is_terminal state = true ->
  xwlp c (persist_loop n name uid state code at_ reason)
    (fun c' r => keeps c c' /\ forall o, r = Ok o -> xseen c' o).
Proof.
  intros Ht. revert c. induction n as [|n IH]; intros c; [by cbn|].
  intros [live|e] Hname; [|cbn; split; [apply keeps_saw | done]].
  destruct (settle_plan _ _ _ _ _ _ _) as [[o|w]|e] eqn:Hp; cbn [xwlp].
  - apply settle_plan_done in Hp as ->. split; [apply keeps_saw | intros ? [= <-]; cbn; auto].
  - apply settle_plan_write in Hp as (rv & st & -> & Hu & Hrv & Hst); [|done]. split.
    { exists live. cbn. split_and!; eauto. }
    assert (forall r, keeps c (xwrote (xsaw c (fun o => Ok (E := kube_error) live = Ok o)) (PatchStatus name uid rv st) r)) as Hk
      by (intros r; etrans; [apply keeps_saw | apply keeps_wrote]).
    intros [o|e] Hans; cbn [xwlp]; [split; [apply Hk | intros ? [= <-]; cbn; auto]|].
    destruct (retried_code e); [|by split; [apply Hk | done]].
    eapply xwlp_mono; [|apply IH]. cbn. intros c' r [Hk' Ho]. split; [|done]. etrans; [apply Hk | done].
  - split; [apply keeps_saw | done].
Qed.

Lemma xwlp_record_terminal o state code reason c :
  ExecutionState.is_terminal state = true ->
  xwlp c (record_terminal to_rfc3339 o state code reason)
    (fun c' r => keeps c c' /\ forall d, r = Some d -> xseen c' d).
Proof.
  intros Ht. apply xwlp_bind. unfold persist_terminal. destruct (x_uid o) as [uid|]; [|by cbn].
  intros now. eapply xwlp_mono; [|by apply xwlp_persist_loop]. cbn. intros c' [d|] [Hk Hd]; (split; [done|]); [|done].
  intros ? [= <-]. auto.
Qed.

Lemma setup_unknown_step at_ st st' : setup_unknown_status at_ st = Ok st' -> status_step st st'.
Proof.
  unfold setup_unknown_status. case_bool_decide as Hq; [cbn [negb] | done].
  destruct (transition_execution _ _ _) as [s|] eqn:E; [|done]. intros [= <-].
  pose proof (transition_Ok _ _ _ _ E) as ->. eapply (step_settled _ _ None); cbn; rewrite ?Hq; auto.
Qed.

Lemma xwlp_setup_unknown o c :
  xwlp c (record_queued_setup_unknown to_rfc3339 o) (fun c' r => keeps c c' /\ forall d, r = Some d -> xseen c' d).
Proof.
  intros now. xcall xwlp_mutate_status; [|apply setup_unknown_step].
  cbn. intros c' [d|] [Hk Hd]; (split; [done|]); [|done]. intros ? [= <-]. by destruct (Hd d eq_refl).
Qed.

Lemma xwlp_refresh o c : xwlp c (refresh o) (fun c' r => keeps c c' /\ forall d, r = Some d -> xseen c' d).
Proof. intros [d|] Hn; cbn; (split; [apply keeps_saw|]); [intros ? [= <-]; cbn; auto | done]. Qed.

Lemma xwlp_get_owned name uid c :
  xwlp c (get_owned name uid) (fun c' r => keeps c c' /\ forall d, r = Ok (Some d) -> xseen c' d).
Proof.
  intros [d|e] Hn; cbn; (split; [apply keeps_saw|]).
  - intros x. case_match; [|done]. intros [= <-]. auto.
  - intros x. by case_match.
Qed.

Lemma xwlp_cancel_owned name uid c : xwlp c (cancel_owned to_rfc3339 name uid) (kept c).
Proof.
  xcall xwlp_get_owned. intros c1 [[o|]|e] [Hk _]; [|by cbn|by cbn].
  case_match; [by cbn|]. destruct (transition_execution _ _ _); [|by cbn].
  xcall xwlp_record_terminal; [|done]. intros c2 r [Hk2 _].
  xcall xwlp_refresh. intros c3 r3 [Hk3 _]. cbn. by do 2 (etrans; [eassumption|]).
Qed.

End writers.

(** ** Reservation *)

Lemma xwlp_create_record lease target container path digest legacy detached reserved c :
  xlease c = Some (exec_lease_uid (x_spec reserved)) ->
  xwlp c (create_record lease target container path digest legacy detached reserved)
    (fun c' r => keeps c c' /\ forall o, r = Ok (NewReservation o) -> exists u, x_uid o = Some u /\ xowned c' u).
Proof.
  intros Hl. cbn. split; [done|]. intros [o|e] Hans; cbn [xwlp].
  - split; [apply keeps_wrote|]. intros ? [= <-]. destruct Hans as (_ & [u Hu] & _). exists u. split; [done|].
    cbn. right. eauto.
  - destruct (is_409 e).
    2: { destruct (match e with Api _ _ => _ | Transport => _ end); [split; [done|]; intros _|]; cbn;
         (split; [apply keeps_wrote | done]). }
    intros [o|e'] Hn; cbn.
    2: { split; [etrans; [apply keeps_wrote | apply keeps_saw] | done]. }
    case_match; cbn; (split; [etrans; [apply keeps_wrote | apply keeps_saw]|]); [done|].
    unfold reuse_existing. intros x. case_match; done.
Qed.

Lemma xwlp_resolve lease target container path digest legacy detached reserved c :
  xlease c = Some (exec_lease_uid (x_spec reserved)) ->
  xwlp c (resolve_execution_create lease target container path digest legacy detached reserved)
    (fun c' r => keeps c c' /\ forall o, r = Ok (NewReservation o) -> exists u, x_uid o = Some u /\ xowned c' u).
Proof.
  intros Hl. xcall xwlp_create_record; [|done]. intros c' [res|e] [Hk Ho]; [|by cbn].
  cbn. split; [done|]. intros [[]|]; (split; [done|]); done.
Qed.

Lemma xwlp_reserve sha limits ns lease target container request writer c :
  xlease c = Some (t_lease_uid target) ->
  xwlp c (reserve_execution sha limits ns lease target container request writer)
    (fun c' r => keeps c c' /\ forall o, r = Ok (NewReservation o) -> exists u, x_uid o = Some u /\ xowned c' u).
Proof.
  intros Hl. unfold reserve_execution.
  destruct (let? _ := validate_request limits request in _) as [path|e]; [|by cbn].
  intros [|]; [by cbn|]. split; [done|]. intros [[| | | | |]|]; try by cbn.
  - xcall xwlp_resolve; [|done]. intros c' r [Hk Ho] [|]; cbn; by split.
  - xcall xwlp_resolve; [|done]. intros c' r [Hk Ho] [|]; cbn; by split.
  - intros [|]; [by cbn|]. intros [o|e] Hn; cbn; (split; [apply keeps_saw|]); [|done].
    intros x. unfold reuse_existing. repeat case_match; done.
Qed.

(** ** The handlers *)

Lemma outcome_terminal r :
  Runner.is_terminal (Runner.report_state r) = true ->
  ExecutionState.is_terminal (out_state (outcome_from_report r)) = true.
Proof.
  unfold outcome_from_report. destruct (Runner.report_state r); try done; intros _.
  - by destruct (Runner.exit_code r) as [[]|].
  - by destruct (failed_outcome_cases (Runner.exit_code r) (Runner.signal r)) as [-> | (c & -> & _)].
Qed.

Section handlers.
Context (to_rfc3339 : Z -> string) (parse : string -> option Z) (sha : string -> string).
Context (checked_deadline : Z -> StdDuration -> option Z) (limits : SandboxLimits) (encode : list ascii -> string).
Context (polls : nat).

#[local] Abbreviation anything := (fun (_ : XCtx) _ => True) (only parsing).

Lemma xwlp_before_revocation call c :
  is_start call = false -> xwlp c (before_revocation call) (fun c' _ => keeps c c').
Proof.
  intros Hs [|]; [by cbn|]. cbn. split; [intros E; congruence|]. intros r [|]; by apply keeps_spent.
Qed.

Lemma xwlp_record_revoked o cancelled c : xwlp c (record_revoked_outcome to_rfc3339 o cancelled) anything.
Proof.
  unfold record_revoked_outcome. destruct cancelled as [report|]; [|done]. case_match eqn:E; [|done].
  xcall xwlp_record_terminal; done.
Qed.

Lemma xwlp_wait_for_runner n target container path o report c :
  xwlp c (wait_for_runner n target container path o report)
    (fun _ r => forall rep, r = Ok rep -> Runner.is_terminal (Runner.report_state rep) = true).
Proof.
  revert report c. induction n as [|n IH]; intros report c; cbn [wait_for_runner];
    (case_match eqn:E; [by intros ? [= <-]|]); [done|].
  intros [|].
  { cbn. split; [by intros ?|]. intros r ? [=]. }
  cbn [xwlp]. split; [by intros ?|]. intros r [|].
  { cbn. split; [by intros ?|]. intros r' ? [=]. }
  destruct r as [report'|failure]; [apply IH | by intros ? [=]].
Qed.

Lemma xwlp_wait_output target container path o c : xwlp c (wait_output_response target container path o) anything.
Proof.
  intros [|]; [done|]. intros r [|]; [done|]. destruct r as [out|f].
  - xcall xwlp_refresh. done.
  - by case_match.
Qed.

Lemma xwlp_complete_wait target container path o report c :
  xwlp c (complete_wait_mode to_rfc3339 polls target container path o report) anything.
Proof.
  xcall xwlp_wait_for_runner. intros c1 [rep|[f|cancelled|]] Hr; try done.
  - xcall xwlp_record_terminal; [|by apply outcome_terminal, Hr].
    intros c2 [d|] _; [apply xwlp_wait_output | done].
  - xcall xwlp_record_revoked. done.
Qed.

Lemma xwlp_runner_started o report c : xwlp c (runner_started_response to_rfc3339 o report) anything.
Proof.
  unfold runner_started_response. case_match eqn:E.
  - xcall xwlp_record_terminal; done.
  - xcall xwlp_refresh. done.
Qed.

Lemma xwlp_resume_wait target container o c :
  xwlp c (resume_wait_with_runner to_rfc3339 polls target container o) anything.
Proof.
  unfold resume_wait_with_runner. case_match; [done|]. destruct (t_runner_path target) as [path|]; [|done].
  case_match; [apply xwlp_wait_output|]. xcall xwlp_before_revocation; [|done].
  intros c1 [[report|failure]|] _.
  - case_match; [apply xwlp_runner_started | apply xwlp_complete_wait].
  - case_match; [|done]. xcall xwlp_record_terminal; done.
  - cbn. split; [by intros ?|]. intros r. xcall xwlp_record_revoked. done.
Qed.

Lemma xwlp_run_with_runner target container request o timeout c u :
  x_uid o = Some u -> xowned c u -> (exists o', xseen c o' /\ x_uid o' = Some u /\ x_started o' = true) ->
  xwlp c (run_with_runner to_rfc3339 limits encode polls target container request o timeout) anything.
Proof.
  intros Hu Hown (o' & Hs & Hu' & Hst). unfold run_with_runner. destruct (t_runner_path target) as [path|].
  2: { xcall xwlp_record_terminal; done. }
  apply xwlp_bind. intros [|].
  { cbn [xwlp]. xcall xwlp_record_terminal; done. }
  cbn [xwlp]. split; [intros _; exists u, o'; split_and!; done|].
  intros answer [|]; cbn [xwlp].
  { xcall xwlp_record_terminal; done. }
  destruct answer as [report|failure].
  - case_match; [apply xwlp_runner_started | apply xwlp_complete_wait].
  - xcall xwlp_record_terminal; done.
Qed.

Lemma xwlp_start_reserved lease target container request requested o c u :
  x_uid o = Some u -> xowned c u ->
  xwlp c (start_reserved parse to_rfc3339 checked_deadline limits encode polls lease target container request requested o)
    anything.
Proof.
  intros Hu Hown now. destruct (effective_timeout _ _ _ _) as [timeout|e].
  - xcall xwlp_mark_running. intros c1 [[]|] [Hk Hs]; [|done].
    destruct (Hs eq_refl) as (o' & ? & Hu' & ?).
    eapply xwlp_run_with_runner; [done | by apply Hk | exists o'; by rewrite Hu'].
  - xcall xwlp_record_terminal; done.
Qed.

Lemma xwlp_after_reservation lease target container request requested o fresh c :
  (fresh = true -> exists u, x_uid o = Some u /\ xowned c u) ->
  xwlp c (after_reservation parse to_rfc3339 checked_deadline limits encode polls lease target container request
            requested o fresh) anything.
Proof.
  intros Hf. unfold after_reservation. case_match; [done|]. intros [[]|d].
  - destruct fresh; cbn [negb]; [|apply xwlp_resume_wait].
    destruct (Hf eq_refl) as (u & Hu & Ho). by eapply xwlp_start_reserved.
  - destruct (setup_failure d) as [[state reason] response] eqn:E. destruct fresh; [|done].
    xcall xwlp_record_terminal; [done|]. destruct d; by injection E as <- <- <-.
Qed.

Lemma xwlp_create ns lease target container request writer c :
  xlease c = Some (t_lease_uid target) ->
  xwlp c (create_sandbox_execution sha parse to_rfc3339 checked_deadline limits encode polls ns lease target container
            request writer) anything.
Proof.
  intros Hl. unfold create_sandbox_execution. destruct (t_runner_path target); [|done].
  destruct (validate_request limits request); [|done]. destruct (requested_timeout _); [|done].
  intros now. destruct (effective_timeout _ _ _ _); [|done].
  xcall xwlp_reserve; [|done]. intros c1 [[o|o|o]|e] [Hk Ho]; try done.
  - apply xwlp_after_reservation. intros _. by apply Ho.
  - case_match; [done|]. by apply xwlp_after_reservation.
Qed.

Lemma xwlp_reconcile target container path o c : xwlp c (reconcile_runner to_rfc3339 target container path o) anything.
Proof.
  unfold reconcile_runner. case_match; [done|]. split; [by intros ?|]. intros r.
  destruct r as [report|failure]; [|destruct (state_unverifiable failure); [|done]];
    cbv zeta iota; (destruct (negb _) eqn:E; [done|]); apply negb_false_iff in E; (xcall xwlp_record_terminal; done).
Qed.

Lemma xwlp_get target name c : xwlp c (get_sandbox_execution to_rfc3339 target name) anything.
Proof.
  xcall xwlp_get_owned. intros c1 [[o|]|e] _; try done.
  destruct (execution_runner_address _ _) as [address|[]]; try done.
  case_match; [|done]. destruct address as [[container path]|]; [|done].
  intros [|[]]; try done. intros [|]; [done|]. xcall xwlp_reconcile. done.
Qed.

Lemma xwlp_cancel_runner target name c : xwlp c (cancel_runner to_rfc3339 target name) anything.
Proof.
  xcall xwlp_get_owned. intros c1 [[o|]|e] _; try done. case_match; [done|].
  destruct (execution_runner_address _ _) as [[[container path]|]|[]]; try done.
  intros [|[]]; try done. xcall xwlp_before_revocation; [|done].
  intros c2 [[report|failure]|] _; try done. cbv zeta. destruct (negb _) eqn:E; [done|]. apply negb_false_iff in E.
  xcall xwlp_record_terminal; done.
Qed.

Lemma xwlp_cancel target name c : xwlp c (cancel_sandbox_execution to_rfc3339 target name) anything.
Proof.
  xcall xwlp_cancel_runner. intros c1 [response|] _; [done|]. xcall xwlp_cancel_owned. done.
Qed.

End handlers.

(** ** Cleanup and the reaper *)

Section cleanup.
Context (to_rfc3339 : Z -> string) (parse : string -> option Z).

#[local] Abbreviation anything := (fun (_ : XCtx) _ => True) (only parsing).

Lemma xwlp_await_creation entry c : xwlp c (await_creation parse entry) anything.
Proof. done. Qed.

Lemma xwlp_missing_record lease uid entry c : xwlp c (missing_record parse lease uid entry) anything.
Proof.
  intros [o|e] Hn; cbn; repeat case_match; cbn; done.
Qed.

Lemma xwlp_refresh_settled o c :
  xwlp c (refresh_settled o) (fun c' r => keeps c c' /\ forall t, r = Ok t -> xseen c' t).
Proof.
  xcall xwlp_refresh. cbn. intros c' [d|] [Hk Hd]; (split; [done|]); [|done]. case_match; [|done].
  intros ? [= <-]. auto.
Qed.

Lemma xwlp_settle_bound o target reachable c :
  xseen c o ->
  xwlp c (settle_bound to_rfc3339 o target reachable)
    (fun c' r => forall t b, r = Ok (t, b) -> xseen c' t).
Proof.
  intros Ho. unfold settle_bound.
  assert (forall (b : bool) c1, xwlp c1 (xdo? terminal := refresh_settled o in XRet (Ok (terminal, b)))
            (fun c' r => forall t b', r = Ok (t, b') -> xseen c' t)) as Href.
  { intros b c1. xcall xwlp_refresh_settled. intros c2 [t|e] [_ Ht]; cbn; intros ? ? [=]; subst. auto. }
  case_match; [xcall xwlp_record_terminal; [intros; apply Href | done]|].
  case_match.
  { cbn. intros t b. case_match; [done|]. by intros [= <- <-]. }
  destruct reachable.
  - split; [by intros ?|]. intros [report|failure]; [case_match eqn:E|].
    + by cbn.
    + apply negb_false_iff in E. xcall xwlp_record_terminal; [intros; apply Href | done].
    + xcall xwlp_record_terminal; [intros; apply Href | done].
  - apply xwlp_bind. case_match; [|apply Href].
    eapply xwlp_mono; [|by apply xwlp_record_terminal]. intros; apply Href.
Qed.

Lemma xwlp_confirm_deleted o uid c : xwlp c (confirm_deleted o uid) anything.
Proof. done. Qed.

Lemma xwlp_remove_record o uid c : xwlp c (remove_execution_record o uid) anything.
Proof.
  unfold remove_execution_record. destruct (x_resource_version o) as [rv|]; [|done]. case_match; [done|].
  split; [done|]. intros [d|e] _; [|done]. intros [cur|e] Hn; [|done]. case_match; [done|].
  split; [done|]. intros [d'|e] _; [done|]. by case_match.
Qed.

Lemma xwlp_present_record lease entry o reachable c :
  xseen c o -> xwlp c (present_record to_rfc3339 lease entry o reachable) anything.
Proof.
  intros Ho. unfold present_record. destruct (let? _ := execution_identity_holds o lease in _) as [uid|]; [|done].
  destruct (me_execution_uid entry); [|done]. case_match; [done|].
  destruct (cleanup_target lease o) as [target|]; [|done].
  xcall xwlp_settle_bound; [|done]. intros c1 [[t b]|outcome] Ht; [|done].
  destruct b; [|done]. cbn [negb]. split; [exists t; split; [by eapply Ht | done]|].
  intros [|]; [apply xwlp_remove_record | done].
Qed.

Lemma collect_owned_In listed uid owned0 owned n o :
  collect_owned listed uid owned0 = Ok owned -> owned !! n = Some o -> owned0 !! n = Some o \/ In o listed.
Proof.
  revert owned0. induction listed as [|x listed IH]; intros owned0; cbn.
  { intros [= <-]. auto. }
  case_match; [intros Hc Hn; destruct (IH _ Hc Hn); auto|]. case_match; [done|]. case_match; [done|].
  intros Hc Hn. destruct (IH _ Hc Hn) as [Hi|]; [|auto].
  apply lookup_insert_Some in Hi as [[_ ->]|[_ ?]]; auto.
Qed.

Lemma owned_records_In listed uid manifest owned n o :
  owned_execution_records listed uid manifest = Ok owned -> owned !! n = Some o -> In o listed.
Proof.
  unfold owned_execution_records. destruct (collect_owned _ _ _) as [m|] eqn:E; [|done].
  case_match; [done|]. intros [= <-] Hn. destruct (collect_owned_In _ _ _ _ _ _ E Hn); [done | done].
Qed.

Lemma xwlp_cleanup lease reachable require c :
  xwlp c (cleanup_lease_executions_inner parse to_rfc3339 lease reachable require) anything.
Proof.
  split; [done|]. intros [manifest|]; [|done]. case_match; [done|]. destruct (sbx_uid lease) as [uid|]; [|done].
  intros [listed|e]; [|done]. destruct (owned_execution_records _ _ _) as [owned|] eqn:Hown; [|done].
  destruct manifest as [|entry manifest].
  { intros [everything|e]; [|done]. case_match; [|done]. by split. }
  destruct (owned !! me_name entry) as [o|] eqn:Ho; [|apply xwlp_missing_record].
  apply xwlp_present_record. cbn. right. exists listed. split; [done|]. by eapply owned_records_In.
Qed.

Lemma xwlp_complete_capacity o c : xseen c o -> xwlp c (complete_capacity_for_record o) (kept c).
Proof.
  intros Ho. unfold complete_capacity_for_record. case_match; [by cbn|]. case_match; [|by cbn].
  intros [lease|e]; [|by cbn]. case_match; [by cbn|]. cbn. split; [eauto|]. intros [|]; done.
Qed.

Lemma xwlp_sweep listed now settled c :
  (forall o, In o listed -> xseen c o) -> xwlp c (sweep_records parse to_rfc3339 listed now settled) anything.
Proof.
  revert settled c. induction listed as [|o listed IH]; intros settled c Hl; [done|]. cbn [sweep_records].
  assert (forall d, keeps c d -> forall x, In x listed -> xseen d x) as Hk by (intros d Hd x Hx; apply Hd, Hl; by right).
  assert (forall settled, xwlp c (sweep_records parse to_rfc3339 listed now settled) anything) as Hrest
    by (intros; apply IH; by apply Hk).
  case_match.
  { case_match; [done|]. xcall xwlp_complete_capacity; [|apply Hl; by left].
    intros c1 retired Hk1. apply IH. by apply Hk. }
  case_match; [done|]. xcall xwlp_setup_unknown. intros c1 [t|] [Hk1 Ht]; [|apply IH; by apply Hk].
  xcall xwlp_complete_capacity; [|by apply Ht]. intros c2 retired Hk2. apply IH. apply Hk. by etrans.
Qed.

Lemma xwlp_expire_unbound lease entry observed c : xwlp c (expire_unbound to_rfc3339 lease entry observed) anything.
Proof.
  split; [done|]. intros [[]|]; try done. destruct observed as [[o u]|]; [|done]. case_match; [|done].
  xcall xwlp_record_terminal; done.
Qed.

Lemma xwlp_reap_entry lease entry now replica c : xwlp c (reap_entry parse to_rfc3339 lease entry now replica) anything.
Proof.
  unfold reap_entry. case_match; [done|]. case_match; [done|]. intros [o|e] Hn.
  - case_match; [apply xwlp_expire_unbound | done].
  - case_match; [done|]. destruct replica, (me_writer entry); try apply xwlp_expire_unbound.
    split; [done|]. intros [[]|]; try done. apply xwlp_expire_unbound.
Qed.

Lemma xwlp_reap_entries lease entries now replica c :
  xwlp c (reap_entries parse to_rfc3339 lease entries now replica) anything.
Proof. revert c. induction entries as [|e entries IH]; intros c; [done|]. xcall xwlp_reap_entry. intros; apply IH. Qed.

Lemma xwlp_reap_leases leases now replica c : xwlp c (reap_leases parse to_rfc3339 leases now replica) anything.
Proof.
  revert c. induction leases as [|l leases IH]; intros c; [done|]. split; [done|]. intros [manifest|]; [|apply IH].
  xcall xwlp_reap_entries. intros; apply IH.
Qed.

Lemma xwlp_reaper settled replica c : xwlp c (reaper_sweep parse to_rfc3339 settled replica) anything.
Proof.
  intros [listed|]; [|done]. intros now. xcall xwlp_sweep; [|by cbn; eauto]. intros c1 settled' _.
  apply xwlp_bind. intros [leases|]; [|done]. eapply xwlp_mono; [|apply xwlp_reap_leases]. done.
Qed.

End cleanup.
