(* ===== verification/ExecutionRecords.v ===== *)
(** * ExecutionRecords: what holds of every execution record, in every interleaving

    The interleaved system of ExecutionSystem's handlers as a step relation,
    its invariant, and the theorems about it: records settle once, a command is
    started at most once per record and only behind its durable checkpoint, and
    capacity released without a process-absence proof is never that of a
    command that runs. *)

From S2P Require Import Prelude Text Execution SandboxObjects LedgerApi LedgerInvariant AccessLedger SandboxAccess RunnerClient ExecutionApi ExecutionCleanup ExecutionHandlers ExecutionSystem.

Local Open Scope kobe_scope.

(** ** The system *)

Inductive ExecJob : Type :=
| ECreate (namespace : string) (lease : SandboxLease) (target : SandboxTarget) (container : string)
    (request : ExecutionRequest) (writer : option ServingReplica) (polls : nat)
| EGet (target : SandboxTarget) (name : string)
| ECancel (target : SandboxTarget) (name : string)
| EReap (settled : gset (string * string)) (replica : option ServingReplica)
| ECleanup (lease : SandboxLease) (reachable require_empty_manifest : bool).

(** The lease a handler may create records for. *)
Definition job_lease (j : ExecJob) : option string :=
  match j with ECreate _ _ target _ _ _ _ => Some (t_lease_uid target) | _ => None end.

Record XSys : Type := {
  xserver : RecordServer;
  xtasks : gmap string (ExecJob * xprog unit);
  xlimbo : list record_write;
  starts : list string;  (** the records whose command was sent to a runner *)
  released : list SandboxExecution;  (** completed without a process-absence proof *)
}.

Definition with_xserver (s : XSys) (srv : RecordServer) : XSys :=
  {| xserver := srv; xtasks := xtasks s; xlimbo := xlimbo s; starts := starts s; released := released s |}.
Definition with_xtasks (s : XSys) (t : gmap string (ExecJob * xprog unit)) : XSys :=
  {| xserver := xserver s; xtasks := t; xlimbo := xlimbo s; starts := starts s; released := released s |}.
Definition with_xlimbo (s : XSys) (l : list record_write) : XSys :=
  {| xserver := xserver s; xtasks := xtasks s; xlimbo := l; starts := starts s; released := released s |}.

(** A start is on record from the moment it is sent. *)
Definition note_call (s : XSys) (c : runner_call) : XSys :=
  {| xserver := xserver s; xtasks := xtasks s; xlimbo := xlimbo s;
     starts := (if is_start c then option_list (rc_record c) else []) ++ starts s; released := released s |}.

Definition started_status (e : SandboxExecution) : bool :=
  is_some (exec_started_at (default default_execution_status (se_status e))).
Definition state_of (e : SandboxExecution) : ExecutionState.t :=
  exec_state (default default_execution_status (se_status e)).

(** What [complete_execution_capacity] lets through without a proof. *)
Definition note_ledger (s : XSys) (c : ledger_call) : XSys :=
  {| xserver := xserver s; xtasks := xtasks s; xlimbo := xlimbo s; starts := starts s;
     released := match c with
                 | CallComplete e false =>
                     if execution_can_release_active_capacity (state_of e) (started_status e) false
                     then e :: released s else released s
                 | _ => released s
                 end |}.

Definition set_xtask (s : XSys) (id : string) (j : ExecJob) (p : xprog unit) : XSys :=
  with_xtasks s (<[id := (j, p)]> (xtasks s)).
Definition end_xtask (s : XSys) (id : string) : XSys := with_xtasks s (delete id (xtasks s)).

Section system.
Context (sha : string -> string) (parse : string -> option Z) (to_rfc3339 : Z -> string).
Context (checked_deadline : Z -> StdDuration -> option Z) (limits : SandboxLimits) (encode : list ascii -> string).

Definition quietly {A} (p : xprog A) : xprog unit := xbind p (fun _ => XRet tt).

Definition exec_job_prog (j : ExecJob) : xprog unit :=
  match j with
  | ECreate ns lease target container request writer polls =>
      quietly (create_sandbox_execution sha parse to_rfc3339 checked_deadline limits encode polls ns lease target
                 container request writer)
  | EGet target name => quietly (get_sandbox_execution to_rfc3339 target name)
  | ECancel target name => quietly (cancel_sandbox_execution to_rfc3339 target name)
  | EReap settled replica => quietly (reaper_sweep parse to_rfc3339 settled replica)
  | ECleanup lease reachable require => quietly (cleanup_lease_executions_inner parse to_rfc3339 lease reachable require)
  end.

(** A metadata change by another client: everything but identity, spec and
    status. *)
Definition same_record (o o' : ExecutionObject) : Prop := x_exec o' = x_exec o.

Inductive exec_step (s : XSys) : XSys -> Prop :=
| es_start id j : xtasks s !! id = None -> exec_step s (set_xtask s id j (exec_job_prog j))
| es_get id j name k r :
    xtasks s !! id = Some (j, GetRecord name k) ->
    r = get_record (xserver s) name \/ (exists e, r = Err e) ->
    exec_step s (set_xtask s id j (k r))
| es_list id j selector k r :
    xtasks s !! id = Some (j, ListRecords selector k) ->
    r = Ok (list_records (xserver s) selector) \/ (exists e, r = Err e) ->
    exec_step s (set_xtask s id j (k r))
| es_write id j w k stamp srv r :
    xtasks s !! id = Some (j, WriteRecord w k) -> apply_record (xserver s) w stamp = (srv, r) ->
    exec_step s (set_xtask (with_xserver s srv) id j (k r))
| es_write_lost id j w k e :
    xtasks s !! id = Some (j, WriteRecord w k) ->
    exec_step s (set_xtask (with_xlimbo s (w :: xlimbo s)) id j (k (Err e)))
| es_land w before after stamp srv r :
    xlimbo s = before ++ w :: after -> apply_record (xserver s) w stamp = (srv, r) ->
    exec_step s (with_xserver (with_xlimbo s (before ++ after)) srv)
| es_ledger id j lease c k r :
    xtasks s !! id = Some (j, LedgerCall lease c k) -> exec_step s (set_xtask (note_ledger s c) id j (k r))
| es_runner id j c k r :
    xtasks s !! id = Some (j, RunnerCall c k) -> exec_step s (set_xtask (note_call s c) id j (k r))
| es_parent id j name k r : xtasks s !! id = Some (j, GetParent name k) -> exec_step s (set_xtask s id j (k r))
| es_parents id j k r : xtasks s !! id = Some (j, ListParents k) -> exec_step s (set_xtask s id j (k r))
| es_output id j c k r : xtasks s !! id = Some (j, ReadOutput c k) -> exec_step s (set_xtask s id j (k r))
| es_setup id j k r : xtasks s !! id = Some (j, ScopedSetup k) -> exec_step s (set_xtask s id j (k r))
| es_clock id j k r : xtasks s !! id = Some (j, Clock k) -> exec_step s (set_xtask s id j (k r))
| es_interrupt id j k r : xtasks s !! id = Some (j, Interrupt k) -> exec_step s (set_xtask s id j (k r))
(* A task ends: it answered, its future was dropped, or its process died. *)
| es_end id j p :
    xtasks s !! id = Some (j, p) ->
    exec_step s (end_xtask (with_xlimbo s (match p with WriteRecord w _ => w :: xlimbo s | _ => xlimbo s end)) id)
(* Other clients. *)
| es_meta name o o' :
    records (xserver s) !! name = Some o -> same_record o o' ->
    x_resource_version o' = Some (version (record_version (xserver s))) ->
    exec_step s (with_xserver s (put_record (xserver s) o'))
| es_gone name : exec_step s (with_xserver s (drop_record (xserver s) name)).

Definition exec_initial (s : XSys) : Prop :=
  records (xserver s) = ∅ /\ 0 <= record_version (xserver s) /\ xtasks s = ∅ /\ xlimbo s = [] /\ starts s = []
  /\ released s = [].

Definition exec_reachable (s : XSys) : Prop := exists s0, exec_initial s0 /\ rtc exec_step s0 s.

End system.

(** ** The invariant of the store *)

(** One version of a record and a later one. *)
Definition evolves (o o' : ExecutionObject) : Prop :=
  x_name o = x_name o' /\ x_spec o = x_spec o' /\ rtc status_step (x_status o) (x_status o').

#[export] Instance evolves_preorder : PreOrder evolves.
Proof.
  split; [intros o; split_and!; [done | done | apply rtc_refl]|].
  intros a b c (H1 & H2 & H3) (H4 & H5 & H6). split_and!; [congruence..|by etrans].
Qed.

(** [h] holds every version ever stored, under the number of its version. *)
Record rec_inv (h : gmap Z ExecutionObject) (srv : RecordServer) : Prop := {
  ri_version : 0 <= record_version srv;
  ri_stored : forall name o, records srv !! name = Some o -> x_name o = name /\ exists n, h !! n = Some o;
  ri_rv : forall n o, h !! n = Some o -> 0 <= n < record_version srv /\ x_resource_version o = Some (version n);
  ri_uid : forall n o, h !! n = Some o -> exists m, x_uid o = Some (fresh_uid m) /\ 0 <= m < record_version srv;
  ri_evolves : forall n m o o', h !! n = Some o -> h !! m = Some o' -> x_uid o = x_uid o' -> n <= m -> evolves o o';
  ri_current : forall name o n o', records srv !! name = Some o -> h !! n = Some o' -> x_uid o' = x_uid o ->
                 exists m, h !! m = Some o /\ n <= m;
  ri_wf : forall n o, h !! n = Some o -> status_wf (x_status o);
}.

Lemma rec_inv_fresh h srv : rec_inv h srv -> h !! record_version srv = None.
Proof. intros I. destruct (h !! record_version srv) as [o|] eqn:E; [|done]. destruct (ri_rv _ _ I _ _ E). lia. Qed.

(** A new version of a stored record. *)
Lemma rec_inv_put h srv name cur o :
  rec_inv h srv -> records srv !! name = Some cur ->
  x_name o = x_name cur -> x_uid o = x_uid cur -> x_spec o = x_spec cur ->
  (x_status o = x_status cur \/ status_step (x_status cur) (x_status o)) ->
  x_resource_version o = Some (version (record_version srv)) ->
  rec_inv (<[record_version srv := o]> h) (put_record srv o).
Proof.
  intros I Hcur Hn Hu Hs Hst Hrv. pose proof (rec_inv_fresh h srv I) as Hfresh.
  destruct (ri_stored _ _ I _ _ Hcur) as [Hname [n0 Hn0]].
  assert (evolves cur o) as Hev.
  { split_and!; [congruence..|]. destruct Hst as [-> | Hst]; [apply rtc_refl | by apply rtc_once]. }
  assert (forall n x, h !! n = Some x -> x_uid x = x_uid o -> evolves x o) as Hall.
  { intros n x Hx Hux. destruct (ri_current _ _ I name cur n x Hcur Hx) as (m & Hm & Hle); [congruence|].
    etrans; [|exact Hev]. by eapply (ri_evolves _ _ I n m); [..|congruence|done]. }
  constructor; cbn [record_version records put_record].
  - pose proof (ri_version _ _ I). lia.
  - intros name' x [[<- <-] | [Hne Hx]]%lookup_insert_Some; [split; [done|]; eexists; apply lookup_insert_eq|].
    destruct (ri_stored _ _ I _ _ Hx) as [? [n Hx']]. split; [done|]. exists n.
    rewrite lookup_insert_ne; [done|]. intros <-. congruence.
  - intros n x [[<- <-] | [Hne Hx]]%lookup_insert_Some; [split; [pose proof (ri_version _ _ I); lia | done]|].
    destruct (ri_rv _ _ I _ _ Hx). split; [lia | done].
  - intros n x [[<- <-] | [Hne Hx]]%lookup_insert_Some.
    + destruct (ri_uid _ _ I _ _ Hn0) as (m & Hm & ?). exists m. split; [congruence | lia].
    + destruct (ri_uid _ _ I _ _ Hx) as (m & Hm & ?). exists m. split; [done | lia].
  - intros n m x y [[<- <-] | [Hne Hx]]%lookup_insert_Some [[<- <-] | [Hne' Hy]]%lookup_insert_Some Huu Hle.
    + done.
    + exfalso. destruct (ri_rv _ _ I _ _ Hy). lia.
    + by eapply Hall.
    + by eapply (ri_evolves _ _ I n m).
  - intros name' x n y [[<- <-] | [Hne Hx]]%lookup_insert_Some [[<- <-] | [Hne' Hy]]%lookup_insert_Some Huu.
    + exists (record_version srv). split; [apply lookup_insert_eq | lia].
    + exists (record_version srv). split; [apply lookup_insert_eq|]. destruct (ri_rv _ _ I _ _ Hy). lia.
    + exfalso. destruct (ri_current _ _ I name' x n0 cur Hx Hn0) as (m & Hm & Hle); [congruence|].
      assert (evolves cur x) as [Hnx _] by (eapply (ri_evolves _ _ I n0 m); [done | done | congruence | done]).
      destruct (ri_stored _ _ I _ _ Hx) as [? _]. congruence.
    + destruct (ri_current _ _ I name' x n y Hx Hy Huu) as (m & Hm & Hle). exists m.
      split; [|done]. rewrite lookup_insert_ne; [done|]. intros <-. congruence.
  - intros n x [[<- <-] | [Hne Hx]]%lookup_insert_Some; [|by eapply (ri_wf _ _ I)].
    destruct Hst as [-> | Hst]; [|eapply status_step_wf; [|done]]; by eapply (ri_wf _ _ I).
Qed.

Lemma rec_inv_drop h srv name : rec_inv h srv -> rec_inv h (drop_record srv name).
Proof.
  intros I. destruct I. constructor; cbn [record_version records drop_record]; try done;
    intros name'; intros; rewrite lookup_delete_Some in *; destruct_and?; eauto.
Qed.

(** A record that did not exist. *)
Lemma rec_inv_create h srv o :
  rec_inv h srv -> records srv !! x_name o = None -> x_uid o = Some (fresh_uid (record_version srv)) ->
  se_status (x_exec o) = None -> x_resource_version o = Some (version (record_version srv)) ->
  rec_inv (<[record_version srv := o]> h) (put_record srv o)
  /\ forall n x, h !! n = Some x -> x_uid x <> x_uid o.
Proof.
  intros I Hnone Hu Hst Hrv. pose proof (rec_inv_fresh h srv I) as Hfresh. pose proof (ri_version _ _ I) as Hv.
  assert (forall n x, h !! n = Some x -> x_uid x <> x_uid o) as Hdiff.
  { intros n x Hx E. destruct (ri_uid _ _ I _ _ Hx) as (m & Hm & Hlt). rewrite Hu, Hm in E. apply (inj Some), fresh_uid_inj in E; lia. }
  split; [|done]. constructor; cbn [record_version records put_record].
  - lia.
  - intros name' x [[<- <-] | [Hne Hx]]%lookup_insert_Some; [split; [done|]; eexists; apply lookup_insert_eq|].
    destruct (ri_stored _ _ I _ _ Hx) as [? [n Hx']]. split; [done|]. exists n.
    rewrite lookup_insert_ne; [done|]. intros <-. congruence.
  - intros n x [[<- <-] | [Hne Hx]]%lookup_insert_Some; [split; [lia | done]|].
    destruct (ri_rv _ _ I _ _ Hx). split; [lia | done].
  - intros n x [[<- <-] | [Hne Hx]]%lookup_insert_Some; [exists (record_version srv); split; [done | lia]|].
    destruct (ri_uid _ _ I _ _ Hx) as (m & Hm & ?). exists m. split; [done | lia].
  - intros n m x y [[<- <-] | [Hne Hx]]%lookup_insert_Some [[<- <-] | [Hne' Hy]]%lookup_insert_Some Huu Hle;
      [done | by apply Hdiff in Hy | by apply Hdiff in Hx | by eapply (ri_evolves _ _ I n m)].
  - intros name' x n y [[<- <-] | [Hne Hx]]%lookup_insert_Some [[<- <-] | [Hne' Hy]]%lookup_insert_Some Huu.
    + exists (record_version srv). split; [apply lookup_insert_eq | lia].
    + by apply Hdiff in Hy.
    + destruct (ri_stored _ _ I _ _ Hx) as [_ [m Hm]]. by apply Hdiff in Hm.
    + destruct (ri_current _ _ I name' x n y Hx Hy Huu) as (m & Hm & Hle). exists m.
      split; [|done]. rewrite lookup_insert_ne; [done|]. intros <-. congruence.
  - intros n x [[<- <-] | [Hne Hx]]%lookup_insert_Some; [|by eapply (ri_wf _ _ I)].
    unfold x_status. rewrite Hst. apply status_wf_default.
Qed.

(** What a write in flight was computed from. *)
Definition write_from (h : gmap Z ExecutionObject) (w : record_write) : Prop :=
  match w with
  | PatchStatus name uid rv st =>
      exists n o, h !! n = Some o /\ x_name o = name /\ x_uid o = Some uid /\ rv = version n
                  /\ status_step (x_status o) st
  | _ => True
  end.

Lemma write_from_mono h h' w : h ⊆ h' -> write_from h w -> write_from h' w.
Proof. intros Hh. destruct w; cbn; try done. intros (n & o & Hn & H). exists n, o. split; [by eapply lookup_weaken | done]. Qed.

(** Creating is the only write that makes a record, under a UID never seen. *)
Definition new_uid (h : gmap Z ExecutionObject) (w : record_write) (r : result ExecutionObject kube_error) : Prop :=
  match w, r with CreateRecord _, Ok o => forall n x, h !! n = Some x -> x_uid x <> x_uid o | _, _ => True end.

Lemma apply_record_inv h srv w stamp srv' r :
  rec_inv h srv -> write_from h w -> apply_record srv w stamp = (srv', r) ->
  exists h', h ⊆ h' /\ rec_inv h' srv' /\ record_answer_ok w r /\ new_uid h w r
             /\ (answers_stored w = true -> forall o, r = Ok o -> exists n, h' !! n = Some o).
Proof.
  intros I Hw. pose proof (rec_inv_fresh h srv I) as Hfresh.
  assert (forall o, h ⊆ <[record_version srv := o]> h) as Hsub by (intros; by apply insert_subseteq).
  destruct w as [o|name uid rv st|name uid rv fins|name uid rv]; cbn [apply_record].
  - destruct (records srv !! x_name o) eqn:Hn; intros [= <- <-]; [by exists h|].
    set (o' := {| x_exec := _ |}). destruct (rec_inv_create h srv o') as [HI Hnew]; [done..|].
    exists (<[record_version srv := o']> h). split_and!; [done | done | split_and!; [done | by eexists | done] | done |].
    intros _ ? [= <-]. eexists. apply lookup_insert_eq.
  - destruct (records srv !! name) as [o|] eqn:Hn; [|by intros [= <- <-]; exists h].
    case_bool_decide as Hm; [|by intros [= <- <-]; exists h]. destruct Hm as [Hu Hrv].
    destruct (ri_stored _ _ I _ _ Hn) as [Hname [n Hh]].
    case_bool_decide as Hsame; intros [= <- <-].
    { exists h. split_and!; [done..| | | ]; [|done|]; [|intros _ ? [= <-]; eauto].
      cbn. split_and!; [done..|]. unfold x_status. by rewrite Hsame. }
    set (o' := with_exec _ _ _). destruct Hw as (m & x & Hx & Hxn & Hxu & -> & Hst).
    destruct (ri_rv _ _ I _ _ Hh) as [? Hrv']. destruct (ri_rv _ _ I _ _ Hx) as [? Hrvx].
    assert (x = o) as ->.
    { rewrite Hrv in Hrv'. apply (inj Some), version_inj in Hrv'; [|lia..]. subst. congruence. }
    exists (<[record_version srv := o']> h). split_and!; [done | | done | done |].
    + eapply rec_inv_put; [done | exact Hn | done | done | done | by right | done].
    + intros _ ? [= <-]. eexists. apply lookup_insert_eq.
  - destruct (records srv !! name) as [o|] eqn:Hn; [|by intros [= <- <-]; exists h].
    case_bool_decide as Hm; [|by intros [= <- <-]; exists h].
    cbn [with_meta x_deletion_timestamp]. case_match; intros [= <- <-].
    + exists h. split_and!; try done. by apply rec_inv_drop.
    + eexists. split_and!; [apply Hsub | | done..].
      eapply rec_inv_put; [done | exact Hn | done | done | done | by left | done].
  - destruct (records srv !! name) as [o|] eqn:Hn; [|by intros [= <- <-]; exists h].
    destruct (bool_decide (x_uid o = Some uid) && _); [|by intros [= <- <-]; exists h].
    destruct (no_finalizers o); intros [= <- <-].
    + exists h. split_and!; try done. by apply rec_inv_drop.
    + eexists. split_and!; [apply Hsub | | done..].
      eapply rec_inv_put; [done | exact Hn | done | done | done | by left | done].
Qed.

(** ** The invariant of the system *)

(** Besides the versions: the task each record's spawn authority was given to. *)
Record XGhost : Type := { hist : gmap Z ExecutionObject; tok : string -> option string }.

Definition seen_in (h : gmap Z ExecutionObject) (o : ExecutionObject) : Prop := exists n, h !! n = Some o.

Record xghost_le (g g' : XGhost) : Prop := {
  gle_hist : hist g ⊆ hist g';
  gle_tok : forall o u, seen_in (hist g) o -> x_uid o = Some u -> tok g' u = tok g u;
}.

#[export] Instance xghost_le_preorder : PreOrder xghost_le.
Proof.
  split; [by constructor|]. intros a b c [H1 T1] [H2 T2]. constructor; [by etrans|].
  intros o u [n Hn] Hu. rewrite (T2 o u); [by apply (T1 o u); [exists n|] | | done].
  exists n. by eapply lookup_weaken.
Qed.

Lemma seen_in_mono h h' o : h ⊆ h' -> seen_in h o -> seen_in h' o.
Proof. intros Hh [n Hn]. exists n. by eapply lookup_weaken. Qed.

Record xctx_ok (g : XGhost) (started : list string) (id : string) (j : ExecJob) (c : XCtx) : Prop := {
  xo_seen : forall o, xseen c o -> seen_in (hist g) o;
  xo_owned : forall u, xowned c u ->
    tok g u = Some id /\ (u ∉ started)
    /\ exists o, seen_in (hist g) o /\ x_uid o = Some u /\ job_lease j = Some (exec_lease_uid (x_spec o));
  xo_lease : xlease c = job_lease j;
}.

Definition xtask_ok (g : XGhost) (started : list string) (id : string) (t : ExecJob * xprog unit) : Prop :=
  exists c, xctx_ok g started id t.1 c /\ xwlp c t.2 (fun _ _ => True).

Record xsys_inv (g : XGhost) (s : XSys) : Prop := {
  xi_rec : rec_inv (hist g) (xserver s);
  xi_tasks : forall id t, xtasks s !! id = Some t -> xtask_ok g (starts s) id t;
  xi_limbo : Forall (write_from (hist g)) (xlimbo s);
  xi_starts : forall u, u ∈ starts s ->
    is_Some (tok g u) /\ exists o, seen_in (hist g) o /\ x_uid o = Some u /\ x_started o = true;
  xi_nodup : NoDup (starts s);
  xi_released : forall e, e ∈ released s ->
    execution_can_release_active_capacity (state_of e) (started_status e) false = true
    /\ exists o, seen_in (hist g) o /\ x_exec o = e;
}.

(** A task of another identity keeps what it knows. *)
Lemma xtask_ok_mono g g' st st' id t :
  xghost_le g g' -> (forall u, u ∈ st' -> u ∈ st \/ tok g' u <> Some id) -> xtask_ok g st id t -> xtask_ok g' st' id t.
Proof.
  intros Hg Hst (c & [Hs Ho Hl] & Hw). exists c. split; [|done]. constructor; [| |done].
  - intros o Hx. eapply seen_in_mono; [apply Hg | auto].
  - intros u Hu. destruct (Ho u Hu) as (Ht & Hn & o & Hso & Huo & Hj).
    assert (tok g' u = Some id) as Ht' by (rewrite (gle_tok _ _ Hg o u); done). split_and!; [done| |].
    + intros Hin. destruct (Hst u Hin); done.
    + exists o. split_and!; [eapply seen_in_mono; [apply Hg | done] | done | done].
Qed.

(** One task acts. *)
Lemma xsys_inv_act g g' s s' id t :
  xsys_inv g s -> xghost_le g g' -> rec_inv (hist g') (xserver s') ->
  xtasks s' = <[id := t]> (xtasks s) -> xtask_ok g' (starts s') id t ->
  Forall (write_from (hist g')) (xlimbo s') ->
  (forall u, u ∈ starts s' -> u ∈ starts s \/ tok g' u = Some id) ->
  (forall u, u ∈ starts s' ->
     is_Some (tok g' u) /\ exists o, seen_in (hist g') o /\ x_uid o = Some u /\ x_started o = true) ->
  NoDup (starts s') ->
  (forall e, e ∈ released s' ->
     execution_can_release_active_capacity (state_of e) (started_status e) false = true
     /\ exists o, seen_in (hist g') o /\ x_exec o = e) ->
  xsys_inv g' s'.
Proof.
  intros I Hg Hrec Htasks Ht Hl Hst1 Hst Hnd Hrel. constructor; try done.
  intros id' t'. rewrite Htasks. intros [[<- <-] | [Hne Ht']]%lookup_insert_Some; [done|].
  eapply xtask_ok_mono; [done | | by eapply (xi_tasks _ _ I)].
  intros u Hu. destruct (Hst1 u Hu) as [|E]; [by left|]. right. rewrite E. congruence.
Qed.

(** ... without touching the records, the runner or the ledger. *)
Lemma xsys_inv_move g s id j p c :
  xsys_inv g s -> xctx_ok g (starts s) id j c -> xwlp c p (fun _ _ => True) -> xsys_inv g (set_xtask s id j p).
Proof.
  intros I Hc Hw. eapply (xsys_inv_act g g s _ id (j, p)); try done; [apply I | by exists c | apply I | by left | apply I | apply I | apply I].
Qed.

(** The context of a task about to make a request. *)
Lemma xtask_ctx g s id j p :
  xsys_inv g s -> xtasks s !! id = Some (j, p) -> exists c, xctx_ok g (starts s) id j c /\ xwlp c p (fun _ _ => True).
Proof. intros I H. by apply (xi_tasks _ _ I) in H. Qed.

Lemma xctx_ok_saw g st id j c P :
  xctx_ok g st id j c -> (forall o, P o -> seen_in (hist g) o) -> xctx_ok g st id j (xsaw c P).
Proof. intros [Hs Ho Hl] HP. constructor; cbn; [intros o [?|?]; auto | done | done]. Qed.

Section steps.
Context (sha : string -> string) (parse : string -> option Z) (to_rfc3339 : Z -> string).
Context (checked_deadline : Z -> StdDuration -> option Z) (limits : SandboxLimits) (encode : list ascii -> string).

#[local] Abbreviation step := (exec_step sha parse to_rfc3339 checked_deadline limits encode).

Lemma xwlp_job j c :
  xlease c = job_lease j ->
  xwlp c (exec_job_prog sha parse to_rfc3339 checked_deadline limits encode j) (fun _ _ => True).
Proof.
  intros Hl. destruct j; cbn [exec_job_prog]; apply xwlp_bind; (eapply xwlp_mono; [by intros; exact I|]).
  - by apply xwlp_create.
  - apply xwlp_get.
  - apply xwlp_cancel.
  - apply xwlp_reaper.
  - apply xwlp_cleanup.
Qed.

(** A stored object, and a listed one, is a version of the history. *)
Lemma get_record_seen h srv name r :
  rec_inv h srv -> r = get_record srv name \/ (exists e, r = Err e) ->
  forall o, r = Ok o -> x_name o = name /\ seen_in h o.
Proof.
  intros I [-> | [e ->]] o; [|done]. unfold get_record. destruct (records srv !! name) eqn:E; [|done].
  intros [= <-]. by apply (ri_stored _ _ I) in E as [? ?].
Qed.

Lemma list_records_seen h srv selector r l :
  rec_inv h srv -> r = Ok (list_records srv selector) \/ (exists e, r = Err (A := list ExecutionObject) (E := kube_error) e) ->
  r = Ok l -> forall o, In o l -> seen_in h o.
Proof.
  intros I [-> | [e ->]]; [|done]. intros [= <-] o Ho. unfold list_records in Ho.
  apply filter_In in Ho as [Ho _]. apply in_map_iff in Ho as ((name & x) & <- & Hx).
  apply list_elem_of_In, elem_of_btree_iter, (ri_stored _ _ I) in Hx as [_ Hx]. done.
Qed.

Lemma write_ok_from g st c w :
  rec_inv (hist g) st -> (forall o, xseen c o -> seen_in (hist g) o) -> record_write_ok c w -> write_from (hist g) w.
Proof.
  intros I Hs. destruct w as [|name uid rv st'| |]; cbn [record_write_ok write_from]; try done. intros (o & Ho & Hn & Hu & Hrv & Hst).
  destruct (Hs o Ho) as [n Hn']. exists n, o. destruct (ri_rv _ _ I _ _ Hn') as [_ E]. split_and!; try done. congruence.
Qed.

Lemma Forall_app_mid {A} (P : A -> Prop) before w after :
  Forall P (before ++ w :: after) -> P w /\ Forall P (before ++ after).
Proof. rewrite !Forall_app, Forall_cons. intros (? & ? & ?). done. Qed.

Lemma xsys_inv_write g s id j w k stamp srv r :
  xsys_inv g s -> xtasks s !! id = Some (j, WriteRecord w k) -> apply_record (xserver s) w stamp = (srv, r) ->
  exists g', xghost_le g g' /\ xsys_inv g' (set_xtask (with_xserver s srv) id j (k r)).
Proof.
  intros I Ht Happ. destruct (xtask_ctx g s id j _ I Ht) as (c & [Hs Ho Hl] & Hok & Hw).
  pose proof (write_ok_from g _ c w (xi_rec _ _ I) Hs Hok) as Hfrom.
  destruct (apply_record_inv _ _ _ _ _ _ (xi_rec _ _ I) Hfrom Happ) as (h' & Hsub & Hrec & Hans & Hnew & Hst).
  set (mine u := match w, r with CreateRecord _, Ok o => bool_decide (x_uid o = Some u) | _, _ => false end).
  set (g' := {| hist := h'; tok := fun u => if mine u then Some id else tok g u |}).
  assert (xghost_le g g') as Hg.
  { constructor; [done|]. intros o u [n Hn] Hu. cbn. destruct (mine u) eqn:E; [|done]. exfalso. subst mine. cbn in E.
    destruct w; try done. destruct r as [o'|]; [|done]. apply bool_decide_eq_true in E.
    eapply (Hnew n o); [done | congruence]. }
  assert (forall o, seen_in (hist g) o -> seen_in h' o) as Hmono by (intros; by eapply seen_in_mono).
  exists g'. split; [done|].
  eapply (xsys_inv_act g g' s _ id (j, k r)); try done; cbn [starts released xlimbo set_xtask with_xtasks with_xserver].
  - exists (xwrote c w r). split; [|by apply Hw]. constructor; [| |done].
    + intros o [Hx | [Ha E]]; [auto | by eapply Hst].
    + intros u [Hu | Hu].
      * destruct (Ho u Hu) as (Htok & Hns & o & Hso & Huo & Hj).
        split_and!; [by rewrite (gle_tok _ _ Hg o u Hso Huo) | done | exists o; by auto].
      * destruct w as [o0| | |]; try done. destruct Hu as (o & -> & Huo). subst mine. cbn.
        rewrite bool_decide_eq_true_2 by done. destruct Hans as (_ & _ & Hspec). split_and!; [done| |].
        -- intros Hin. apply (xi_starts _ _ I) in Hin as (_ & x & [n Hx] & Hux & _). eapply (Hnew n x); [done | congruence].
        -- exists o. split_and!; [by apply Hst | done |]. rewrite Hspec. by rewrite <- Hl.
  - eapply Forall_impl; [apply I|]. intros; by eapply write_from_mono.
  - by left.
  - intros u Hu. destruct (xi_starts _ _ I u Hu) as ([x Hx] & o & Hso & Huo & Hsto).
    split; [|exists o; by auto]. cbn. destruct (mine u); [by eexists | by rewrite Hx].
  - apply I.
  - intros e He. destruct (xi_released _ _ I e He) as (? & o & ? & ?). split; [done|]. exists o. auto.
Qed.

Lemma xsys_inv_start_call g s id j call k r :
  xsys_inv g s -> xtasks s !! id = Some (j, RunnerCall call k) -> xsys_inv g (set_xtask (note_call s call) id j (k r)).
Proof.
  intros I Ht. destruct (xtask_ctx g s id j _ I Ht) as (c & [Hs Ho Hl] & Hok & Hw).
  assert (forall u, u ∈ starts (note_call s call) ->
    u ∈ starts s \/ (is_start call = true /\ rc_record call = Some u
                     /\ tok g u = Some id /\ (u ∉ starts s)
                     /\ exists o, seen_in (hist g) o /\ x_uid o = Some u /\ x_started o = true)) as Hcases.
  { intros u. cbn. rewrite elem_of_app. intros [Hu|]; [|by left]. right. destruct (is_start call) eqn:Es; [|by inversion Hu].
    destruct (Hok Es) as (u' & o & Hrc & Hown & Hso & Huo & Hsto). rewrite Hrc in Hu. cbn in Hu.
    apply list_elem_of_singleton in Hu as ->. destruct (Ho u' Hown) as (? & ? & _). eauto 10. }
  eapply (xsys_inv_act g g s _ id (j, k r)); try done; cbn [starts released xlimbo set_xtask with_xtasks xserver note_call].
  - apply I.
  - exists (xspent c call). split; [|by apply Hw]. constructor; [done | | done].
    intros u [Hu Hns]. destruct (Ho u Hu) as (? & ? & ?). split_and!; [done | | done].
    intros Hin. destruct (Hcases u Hin) as [|(Es & Hrc & _)]; [done|]. by apply Hns.
  - apply I.
  - intros u Hu. destruct (Hcases u Hu) as [|(_ & _ & ? & _)]; auto.
  - intros u Hu. destruct (Hcases u Hu) as [Hin|(_ & _ & Htok & _ & Hex)]; [by apply (xi_starts _ _ I)|].
    split; [by rewrite Htok | done].
  - destruct (is_start call) eqn:Es; [|apply I]. destruct (Hok Es) as (u' & o & Hrc & Hown & _). rewrite Hrc. cbn.
    apply NoDup_cons. split; [by destruct (Ho u' Hown) as (_ & ? & _) | apply I].
  - apply I.
Qed.

Lemma xsys_inv_ledger_call g s id j lease call k r :
  xsys_inv g s -> xtasks s !! id = Some (j, LedgerCall lease call k) -> xsys_inv g (set_xtask (note_ledger s call) id j (k r)).
Proof.
  intros I Ht. destruct (xtask_ctx g s id j _ I Ht) as (c & Hc & Hok & Hw).
  eapply (xsys_inv_act g g s _ id (j, k r)); try done; cbn [starts released xlimbo set_xtask with_xtasks xserver note_ledger];
    [apply I | exists c; by split; [|apply Hw] | apply I | by left | apply I | apply I |].
  intros e He. destruct call as [| |x []| | | | | | |]; try by apply (xi_released _ _ I).
  case_match eqn:E; [|by apply (xi_released _ _ I)]. apply elem_of_cons in He as [->|He]; [|by apply (xi_released _ _ I)].
  destruct Hok as (o & Ho & Hx). split; [done|]. exists o. split; [|done]. by apply Hc.
Qed.

Lemma xsys_inv_store g s h' srv l :
  xsys_inv g s -> hist g ⊆ h' -> rec_inv h' srv -> Forall (write_from h') l ->
  exists g', xghost_le g g' /\ xsys_inv g' (with_xserver (with_xlimbo s l) srv).
Proof.
  intros I Hsub Hrec Hl. exists {| hist := h'; tok := tok g |}.
  assert (xghost_le g {| hist := h'; tok := tok g |}) as Hg by by constructor. split; [done|].
  assert (forall o, seen_in (hist g) o -> seen_in h' o) as Hmono by (intros; by eapply seen_in_mono).
  constructor; cbn; [done | | done | | apply I |].
  - intros id t Ht. eapply xtask_ok_mono; [done | by left | by eapply (xi_tasks _ _ I)].
  - intros u Hu. destruct (xi_starts _ _ I u Hu) as (? & o & ? & ? & ?). split; [done|]. exists o; auto.
  - intros e He. destruct (xi_released _ _ I e He) as (? & o & ? & ?). split; [done|]. exists o; auto.
Qed.

Lemma with_xlimbo_same s : with_xlimbo s (xlimbo s) = s. Proof. by destruct s. Qed.

Lemma xsys_inv_store_only g s h' srv :
  xsys_inv g s -> hist g ⊆ h' -> rec_inv h' srv -> exists g', xghost_le g g' /\ xsys_inv g' (with_xserver s srv).
Proof.
  intros I Hsub Hrec. rewrite <- (with_xlimbo_same s). apply (xsys_inv_store g s h'); try done.
  eapply Forall_impl; [apply I|]. intros; by eapply write_from_mono.
Qed.

Lemma xctx_ok_blank g st id j :
  xctx_ok g st id j {| xseen := fun _ => False; xowned := fun _ => False; xlease := job_lease j |}.
Proof. by constructor. Qed.

Lemma xsys_inv_step g s s' : xsys_inv g s -> step s s' -> exists g', xghost_le g g' /\ xsys_inv g' s'.
Proof.
  intros I Hs.
  assert (forall id j p c, xctx_ok g (starts s) id j c -> xwlp c p (fun _ _ => True) ->
            exists g', xghost_le g g' /\ xsys_inv g' (set_xtask s id j p)) as Hmove
    by (intros; exists g; split; [done | by eapply xsys_inv_move]).
  destruct Hs as [id j Hnone|id j name k r Ht Hr|id j sel k r Ht Hr|id j w k stamp srv r Ht Happ|id j w k e Ht
    |w before after stamp srv r Hlim Happ|id j lease call k r Ht|id j call k r Ht
    |id j name k r Ht|id j k r Ht|id j call k r Ht|id j k r Ht|id j k r Ht|id j k r Ht
    |id j p Ht|name o o' Hn Hsame Hrv|name].
  - eapply Hmove; [apply xctx_ok_blank | by apply xwlp_job].
  - destruct (xtask_ctx g s id j _ I Ht) as (c & Hc & Hw).
    pose proof (get_record_seen _ _ _ _ (xi_rec _ _ I) Hr) as Hseen.
    eapply Hmove; [|apply Hw; intros o E; by apply Hseen]. apply xctx_ok_saw; [done|]. intros o E. by apply Hseen.
  - destruct (xtask_ctx g s id j _ I Ht) as (c & Hc & Hw). eapply Hmove; [|apply Hw]. apply xctx_ok_saw; [done|].
    intros o (l & E & Ho). by eapply (list_records_seen _ _ _ _ _ (xi_rec _ _ I) Hr E).
  - by eapply xsys_inv_write.
  - destruct (xtask_ctx g s id j _ I Ht) as (c & Hc & Hok & Hw). exists g. split; [done|].
    eapply (xsys_inv_act g g s _ id (j, k (Err e))); try done; cbn; [apply I | | | by left | apply I | apply I | apply I].
    + exists (xwrote c w (Err e)). split; [|by apply Hw]. destruct Hc as [Hseen Hown Hl].
      constructor; cbn; [| |done].
      * intros o [?|[_ ?]]; [auto | done].
      * intros u [?|Hu]; [auto|]. destruct w; try done. by destruct Hu as (? & ? & _).
    + constructor; [|apply I]. eapply write_ok_from; [apply I | apply Hc | done].
  - pose proof (xi_limbo _ _ I) as Hl. rewrite Hlim in Hl. apply Forall_app_mid in Hl as [Hw Hl].
    destruct (apply_record_inv _ _ _ _ _ _ (xi_rec _ _ I) Hw Happ) as (h' & Hsub & Hrec & _).
    apply (xsys_inv_store g s h'); try done. eapply Forall_impl; [done|]. intros; by eapply write_from_mono.
  - exists g. split; [done|]. by apply xsys_inv_ledger_call with lease.
  - exists g. split; [done|]. by apply xsys_inv_start_call.
  - destruct (xtask_ctx g s id j _ I Ht) as (c & Hc & Hw). by eapply Hmove; [|apply Hw].
  - destruct (xtask_ctx g s id j _ I Ht) as (c & Hc & Hw). by eapply Hmove; [|apply Hw].
  - destruct (xtask_ctx g s id j _ I Ht) as (c & Hc & Hw). by eapply Hmove; [|apply Hw].
  - destruct (xtask_ctx g s id j _ I Ht) as (c & Hc & Hw). by eapply Hmove; [|apply Hw].
  - destruct (xtask_ctx g s id j _ I Ht) as (c & Hc & Hw). by eapply Hmove; [|apply Hw].
  - destruct (xtask_ctx g s id j _ I Ht) as (c & Hc & Hw). by eapply Hmove; [|apply Hw].
  - exists g. split; [done|]. constructor; cbn; try apply I.
    + intros id' t. rewrite lookup_delete_Some. intros [_ Ht']. by apply (xi_tasks _ _ I).
    + destruct p as [| | |w k| | | | | | | |]; try apply I. constructor; [|apply I].
      destruct (xtask_ctx g s id j _ I Ht) as (c & Hc & Hok & _). eapply write_ok_from; [apply I | apply Hc | done].
  - pose proof (rec_inv_fresh _ _ (xi_rec _ _ I)) as Hfresh.
    assert (x_name o' = x_name o /\ x_uid o' = x_uid o /\ x_spec o' = x_spec o /\ x_status o' = x_status o) as (? & ? & ? & ?)
      by (unfold x_name, x_uid, x_spec, x_status; by rewrite Hsame).
    eapply xsys_inv_store_only; [done | by apply insert_subseteq |].
    eapply rec_inv_put; [apply I | exact Hn | done | done | done | by left | done].
  - eapply xsys_inv_store_only; [done | done | apply rec_inv_drop, I].
Qed.

Lemma xsys_inv_steps g s s' : xsys_inv g s -> rtc step s s' -> exists g', xghost_le g g' /\ xsys_inv g' s'.
Proof.
  intros I H. revert g I. induction H as [s|s s1 s2 H1 _ IH]; intros g I; [by exists g|].
  destruct (xsys_inv_step g s s1 I H1) as (g1 & Hg1 & I1). destruct (IH g1 I1) as (g2 & Hg2 & I2).
  exists g2. split; [by etrans | done].
Qed.

Lemma xsys_inv_initial s : exec_initial s -> xsys_inv {| hist := ∅; tok := fun _ => None |} s.
Proof.
  intros (Hr & Hv & Ht & Hl & Hst & Hrel).
  constructor; cbn; rewrite ?Ht, ?Hl, ?Hst, ?Hrel; try done; try (intros ? ?; by inversion 1); try by constructor.
  - constructor; rewrite ?Hr; done.
  - intros u. by inversion 1.
  - intros e. by inversion 1.
Qed.

#[local] Abbreviation reachable := (exec_reachable sha parse to_rfc3339 checked_deadline limits encode).

Lemma exec_reachable_inv s : reachable s -> exists g, xsys_inv g s.
Proof.
  intros (s0 & H0 & H). destruct (xsys_inv_steps _ _ _ (xsys_inv_initial s0 H0) H) as (g & _ & I). eauto.
Qed.

Lemma stored_seen g s name o : xsys_inv g s -> records (xserver s) !! name = Some o -> seen_in (hist g) o.
Proof. intros I H. by apply (ri_stored _ _ (xi_rec _ _ I)) in H as [_ ?]. Qed.

(** Two stored versions of one record, in states of one run. *)
Lemma stored_versions s s' name name' o o' :
  reachable s -> rtc step s s' -> records (xserver s) !! name = Some o -> records (xserver s') !! name' = Some o' ->
  x_uid o = x_uid o' -> evolves o o' /\ status_wf (x_status o).
Proof.
  intros Hr Hs Ho Ho' Hu. destruct (exec_reachable_inv s Hr) as (g & I).
  destruct (xsys_inv_steps g s s' I Hs) as (g' & Hg & I').
  destruct (stored_seen g s name o I Ho) as [n Hn]. assert (hist g' !! n = Some o) as Hn' by (eapply lookup_weaken; [done | apply Hg]).
  destruct (ri_current _ _ (xi_rec _ _ I') name' o' n o Ho' Hn') as (m & Hm & Hle); [done|].
  split; [by eapply (ri_evolves _ _ (xi_rec _ _ I') n m) | by eapply (ri_wf _ _ (xi_rec _ _ I'))].
Qed.

(** A record that settled without ever starting is not, and will not be, one
    whose command was sent to a runner. *)
Lemma unstarted_never_runs g s o u :
  xsys_inv g s -> seen_in (hist g) o -> x_uid o = Some u ->
  ExecutionState.is_terminal (x_state o) = true -> x_started o = false -> u ∉ starts s.
Proof.
  intros I [n Hn] Hu Hterm Hns Hin.
  destruct (xi_starts _ _ I u Hin) as (_ & x & [m Hm] & Hxu & Hxs).
  destruct (Z.le_ge_cases n m) as [Hle|Hle].
  - destruct (ri_evolves _ _ (xi_rec _ _ I) n m o x Hn Hm) as (_ & _ & Hst); [congruence | done |].
    apply status_steps_terminal in Hst; [|done]. unfold x_started in *. rewrite Hst in Hxs. congruence.
  - destruct (ri_evolves _ _ (xi_rec _ _ I) m n x o Hm Hn) as (_ & _ & Hst); [congruence | done |].
    apply status_steps_started in Hst; [|done]. unfold x_started in *. congruence.
Qed.

End steps.
