(* ===== verification/ExecutionProps.v ===== *)
(** * ExecutionProps: the guarantees of the execution API

    Properties of requests and timeouts, of the records in every interleaving
    of the handlers, and of one cleanup pass, with a concrete run of the system
    that the witnesses inspect. *)

From S2P Require Import Prelude Text Durations Execution SandboxObjects LedgerApi AccessLedger LedgerProps SandboxAccess RunnerClient ExecutionApi ExecutionCleanup ExecutionHandlers ExecutionSystem ExecutionRecords.

Local Open Scope kobe_scope.

(** ** Requests and timeouts *)

(** [parse_duration] yields whole spans of at most a year, so only "lease" is
    unbounded. *)
Lemma requested_seconds_covers d :
  0 <= as_secs d <= u64_max -> 0 <= subsec_nanos d < nanos_per_second ->
  1 <= requested_seconds d <= u64_max
  /\ (as_secs d < u64_max -> seconds (as_secs d) + subsec_nanos d <= seconds (requested_seconds d)).
Proof.
  unfold requested_seconds, seconds, nanos_per_second, u64_max. intros Hs Hn. destruct (Z.ltb_spec 0 (subsec_nanos d)); lia.
Qed.

Lemma requested_timeout_range text d :
  requested_timeout text = Some d -> 0 <= as_secs d <= u64_max /\ 0 <= subsec_nanos d < nanos_per_second.
Proof.
  unfold requested_timeout. case_match.
  - intros [= <-]. unfold DURATION_MAX, u64_max, nanos_per_second. cbn. lia.
  - destruct (parse_duration text) as [t|] eqn:E; [|done]. case_match eqn:Hp; [|done]. intros [= <-]. unfold to_std. cbn.
    apply parse_duration_range in E. unfold ttl_range in E. apply Z.ltb_lt in Hp.
    split; [|apply Z.mod_pos_bound; done]. split; [apply Z.div_pos; [lia | done]|].
    destruct E as (n & -> & Hn). unfold seconds. rewrite Z.div_mul by done. unfold MAX_SECONDS, u64_max in *. lia.
Qed.

(** Whole seconds left, as the code computes them. *)
Lemma remaining_seconds_floor d :
  Z.max (Z.quot d 1000000) 0 / 1000 = if 0 <=? d then d / nanos_per_second else 0.
Proof.
  destruct (Z.leb_spec 0 d) as [Hd|Hd].
  - rewrite Z.quot_div_nonneg, Z.max_l by (try apply Z.div_pos; lia). rewrite Z.div_div by lia. done.
  - rewrite Z.max_r; [done|]. replace d with (- - d) by lia. rewrite Z.quot_opp_l by lia.
    assert (0 <= Z.quot (- d) 1000000) by (apply Z.quot_pos; lia). lia.
Qed.

(** No execution outlives its lease or is cut below what was asked: the
    whole seconds granted, which are the seconds the runner is told, end no
    later than the lease's expiry, are at least one, cover the requested
    duration unless the lease is what cut it, and the recorded source says
    exactly which of the two set the deadline; a lease without a readable
    expiry, or with less than a second left, starts nothing. *)
Theorem executions_end_with_their_lease parse encode limit id argv cwd stdin text requested lease now :
  requested_timeout text = Some requested ->
  match effective_timeout parse requested lease now with
  | Ok granted =>
      exists status expiry expires,
        sbx_status lease = Some status /\ sbx_expires_at status = Some expiry /\ parse expiry = Some expires
        /\ 1 <= as_secs granted /\ now + seconds (as_secs granted) <= expires
        /\ Runner.timeout_seconds (start_request encode limit id argv cwd granted stdin) = as_secs granted
        /\ (deadline_source requested granted = DeadlineTimeout -> as_secs requested < u64_max ->
            seconds (as_secs requested) + subsec_nanos requested <= seconds (as_secs granted))
        /\ (deadline_source requested granted = DeadlineLease -> expires - now < seconds (as_secs granted + 1))
  | Err e =>
      e = RequestDenied DeniedExpired
      /\ forall status expiry expires,
           sbx_status lease = Some status -> sbx_expires_at status = Some expiry -> parse expiry = Some expires ->
           expires - now < seconds 1
  end.
Proof.
  intros Hreq. apply requested_timeout_range in Hreq as [Hs Hn].
  destruct (requested_seconds_covers requested Hs Hn) as [Hr Hcov].
  unfold effective_timeout. destruct (sbx_status lease) as [status|]; cbn; [|split; [done|intros; congruence]].
  destruct (sbx_expires_at status) as [expiry|] eqn:He; cbn; [|split; [done|intros; congruence]].
  destruct (parse expiry) as [expires|] eqn:Hp; cbn; [|split; [done|intros; congruence]].
  rewrite remaining_seconds_floor. unfold seconds in *.
  pose proof (Z.div_mod (expires - now) nanos_per_second ltac:(done)) as Hdm.
  pose proof (Z.mod_pos_bound (expires - now) nanos_per_second ltac:(done)) as Hm.
  assert (0 < nanos_per_second) as Hpos by done.
  destruct (Z.leb_spec 0 (expires - now)) as [Hd|Hd].
  - pose proof (Z.div_pos (expires - now) nanos_per_second Hd Hpos) as Hq.
    destruct (Z.eqb_spec ((expires - now) / nanos_per_second) 0) as [E|E]; cbn.
    + split; [done|]. intros ? ? ? [= <-] ? ?. simplify_eq. nia.
    + exists status, expiry, expires. unfold deadline_source. cbn. split_and!; try done; try nia.
      * intros Hsrc Hlt. specialize (Hcov Hlt). destruct (Z.ltb_spec (requested_seconds requested `min` ((expires - now) / nanos_per_second)) (requested_seconds requested)); [done|]. nia.
      * intros Hsrc. destruct (Z.ltb_spec (requested_seconds requested `min` ((expires - now) / nanos_per_second)) (requested_seconds requested)); [|done]. nia.
  - cbn. split; [done|]. intros ? ? ? [= <-] ? ?. simplify_eq. lia.
Qed.

Definition demo_seconds (text : string) : option Z := seconds <$> parse_uint u64_max text.
Definition whole_seconds (n : Z) : StdDuration := {| as_secs := n; subsec_nanos := 0 |}.

Lemma executions_end_with_their_lease_witness :
  effective_timeout demo_seconds (whole_seconds 300) demo_ready_lease (seconds 3500) = Ok (whole_seconds 100)
  /\ deadline_source (whole_seconds 300) (whole_seconds 100) = DeadlineLease
  /\ exists expires, demo_seconds "3600" = Some expires /\ seconds 3500 + seconds 100 <= expires.
Proof.
  pose proof (executions_end_with_their_lease demo_seconds demo_encode 0 "sbxe-1" ["true"] None None "5m"
                (whole_seconds 300) demo_ready_lease (seconds 3500)) as H.
  assert (E : effective_timeout demo_seconds (whole_seconds 300) demo_ready_lease (seconds 3500) = Ok (whole_seconds 100))
    by by vm_compute.
  rewrite E in H. destruct H as (status & expiry & expires & Hs & He & Hp & _ & Hle & _); [by vm_compute|].
  injection Hs as <-. injection He as <-. split_and!; [done | by vm_compute | by exists expires].
Defined.

(** ** Admitted requests are requests the runner accepts *)

(** SHA-256 in lowercase hexadecimal. *)
Definition hex64 (sha : string -> string) : Prop :=
  forall s, str_len (sha s) = 64 /\ all_bytes (fun b => is_ascii_lowercase b || is_ascii_digit b) (sha s) = true.

Lemma substring_prefix n s t : (String.length t <= n)%nat -> String.substring 0 n (t +:+ s) = t +:+ String.substring 0 (n - String.length t) s.
Proof.
  revert n. induction t as [|c t IH]; intros n Hn; cbn in *; [by rewrite Nat.sub_0_r|].
  destruct n as [|n]; [lia|]. cbn. by rewrite IH by lia.
Qed.

Lemma all_bytes_substring p n s : all_bytes p s = true -> all_bytes p (String.substring 0 n s) = true.
Proof.
  revert n. induction s as [|c s IH]; intros [|n]; cbn; try done. intros [H1 H2]%andb_true_iff. by rewrite H1, IH.
Qed.

Lemma substring_len n s : (String.length (String.substring 0 n s) <= n)%nat.
Proof. revert n. induction s as [|c s IH]; intros [|n]; cbn; try lia. specialize (IH n). lia. Qed.

Lemma execution_name_valid sha uid key : hex64 sha -> Runner.is_valid_id (execution_name sha uid key) = true.
Proof.
  intros Hsha. destruct (Hsha (name_bytes uid key)) as [_ Hb]. unfold execution_name, Runner.is_valid_id.
  rewrite substring_prefix by (cbn; lia). change (37 - String.length "sbxe-")%nat with 32%nat.
  set (rest := String.substring 0 32 _).
  assert (Hlen : (String.length rest <= 32)%nat) by apply substring_len.
  rewrite str_len_app, all_bytes_app. apply andb_true_iff. split; [apply andb_true_iff; split; [done|]|].
  - apply Z.leb_le. unfold Runner.MAX_ID_LEN. change (str_len "sbxe-") with 5. unfold str_len. lia.
  - apply andb_true_iff. split; [done|]. eapply all_bytes_impl; [|by apply all_bytes_substring].
    intros b Hbb. by rewrite Hbb.
Qed.

Lemma no_nul_denied argv : forallb Runner.no_nul argv = true -> existsb (fun a => negb (Runner.no_nul a)) argv = false.
Proof. induction argv as [|a argv IH]; cbn; [done|]. intros [-> H]%andb_true_iff. by rewrite IH. Qed.

(** C40. What the API admits, the runner accepts: for a request that passes
    [validate_request] and whose arguments hold no NUL byte, the start request
    [run_with_runner] sends under the record's name, whatever timeout it was
    granted, passes the runner's own validation.  The hypothesis on NUL is
    needed: such an argument passes the API's checks and is refused by the
    runner. *)
Theorem admitted_requests_are_accepted sha limits encode decode uid request granted :
  hex64 sha -> (forall l, decode (encode l) = Some l) ->
  validate_request limits request = Ok tt ->
  Runner.validate decode
    (start_request encode (output_bytes limits) (execution_name sha uid (rq_idempotency_key request))
       (rq_argv request) (rq_cwd request) granted (String.list_ascii_of_string <$> rq_stdin request))
  = if forallb Runner.no_nul (rq_argv request) then Ok tt else Err Runner.ErrInvalidRequest.
Proof.
  intros Hsha Hcodec Hval. unfold Runner.validate, start_request.
  cbn [Runner.protocol Runner.req_id Runner.argv Runner.cwd Runner.timeout_seconds Runner.stdin_base64 Runner.stdin_ok].
  rewrite execution_name_valid by done. cbn [negb deny_if Z.eqb Runner.PROTOCOL_VERSION].
  unfold validate_request in Hval. revert Hval.
  destruct (match rq_argv request with [] => true | _ => false end || existsb (String.eqb "") (rq_argv request)); [done|].
  destruct (String.eqb (rq_idempotency_key request) "" || _); [done|].
  destruct (match rq_cwd request with Some _ => _ | None => false end); [done|]. intros _.
  replace (Z.max _ 1 =? 0) with false by (symmetry; apply Z.eqb_neq; lia).
  unfold Runner.stdin_ok. cbn [Runner.stdin_base64].
  destruct (forallb Runner.no_nul (rq_argv request)) eqn:E.
  - rewrite no_nul_denied by done. cbn. destruct (rq_stdin request); cbn; by rewrite ?Hcodec.
  - destruct (existsb (fun a => negb (Runner.no_nul a)) (rq_argv request)) eqn:E2; [done|]. exfalso.
    induction (rq_argv request) as [|a l IH]; cbn in *; [done|]. destruct (Runner.no_nul a); cbn in *; [auto | done].
Qed.

Definition demo_sha (s : string) : string := demo_digest.

Lemma demo_sha_hex : hex64 demo_sha.
Proof. by vm_compute. Qed.

Definition demo_request (argv : list string) (detached : bool) : ExecutionRequest :=
  {| rq_argv := argv; rq_cwd := Some "/work"; rq_timeout := "5m"; rq_idempotency_key := "k"; rq_detached := detached;
     rq_stdin := Some "in" |}.

Lemma demo_codec_base64 l : demo_decode (demo_encode l) = Some l.
Proof. unfold demo_decode, demo_encode. by rewrite String.list_ascii_of_string_of_list_ascii. Qed.

Lemma admitted_requests_are_accepted_witness :
  Runner.validate demo_decode
    (start_request demo_encode 1024 "sbxe-0123456789abcdef0123456789abcdef" ["ls"] (Some "/work") (whole_seconds 9)
       (Some ["i"; "n"]%char)) = Ok tt
  /\ validate_request demo_limits (demo_request [String zero "x"] true) = Ok tt
  /\ Runner.validate demo_decode
       (start_request demo_encode (output_bytes demo_limits) (execution_name demo_sha "uid" "k") [String zero "x"]
          (Some "/work") (whole_seconds 9) (Some ["i"; "n"]%char)) = Err Runner.ErrInvalidRequest.
Proof.
  split; [by vm_compute|]. split; [by vm_compute|].
  apply (admitted_requests_are_accepted demo_sha demo_limits demo_encode demo_decode "uid"
           (demo_request [String zero "x"] true) (whole_seconds 9));
    [apply demo_sha_hex | apply demo_codec_base64 | by vm_compute].
Defined.

(** ** The records, in every interleaving *)

Section properties.
Context (sha : string -> string) (parse : string -> option Z) (to_rfc3339 : Z -> string).
Context (checked_deadline : Z -> StdDuration -> option Z) (limits : SandboxLimits) (encode : list ascii -> string).

#[local] Abbreviation step := (exec_step sha parse to_rfc3339 checked_deadline limits encode).
#[local] Abbreviation reachable := (exec_reachable sha parse to_rfc3339 checked_deadline limits encode).

(** The state and exit code a record shows. *)
Definition verdict (o : ExecutionObject) : ExecutionState.t * option Z := (x_state o, exec_exit_code (x_status o)).

Lemma transition_running_code s code :
  transition_execution s ExecutionState.Running None = Ok ExecutionState.Running ->
  exit_code_agrees s code = true -> code = None.
Proof. destruct s, code; by cbn. Qed.

Lemma status_step_change old new :
  status_wf old -> status_step old new ->
  rtc execution_change (exec_state old, exec_exit_code old) (exec_state new, exec_exit_code new).
Proof.
  intros [Hq Hx Hr] [Hok Hst Hs Hc | code Hnt Ht Hok Hs Hc].
  - pose proof (transition_running_code _ _ Hok Hx) as E. rewrite Hst, Hc, E.
    destruct (decide (exec_state old = ExecutionState.Running)) as [->|Hne]; [apply rtc_refl|].
    apply rtc_once. by constructor.
  - apply rtc_once. assert (exec_state old <> exec_state new) as Hne by congruence. constructor; [done|].
    destruct Hc as [-> | [-> ->]]; [done|]. revert Hx. unfold exit_code_agrees.
    destruct (exec_state old); try done; by destruct (exec_exit_code old).
Qed.

Lemma status_steps_change old new :
  status_wf old -> rtc status_step old new ->
  rtc execution_change (exec_state old, exec_exit_code old) (exec_state new, exec_exit_code new) /\ status_wf new.
Proof.
  intros Hwf H. induction H as [|x y z Hs _ IH]; [split; [apply rtc_refl | done]|].
  pose proof (status_step_wf _ _ Hwf Hs) as Hy. destruct (IH Hy) as [H1 H2]. split; [|done].
  etrans; [by apply status_step_change | done].
Qed.

(** C8. Whatever interleaving of request handlers, reapers and cleanups runs,
    whichever of their requests are lost or applied late and whatever the
    runner and the access ledger answer, one execution record keeps its name
    and request, changes state only by the transitions of the state machine,
    and once settled keeps its whole status: the first verdict wins, and an
    exit code stands exactly beside [Succeeded] and [Failed]. *)
Theorem records_settle_once s s' name name' o o' :
  reachable s -> rtc step s s' ->
  records (xserver s) !! name = Some o -> records (xserver s') !! name' = Some o' -> x_uid o = x_uid o' ->
  x_name o' = x_name o /\ x_spec o' = x_spec o
  /\ rtc execution_change (verdict o) (verdict o')
  /\ exit_code_agrees (fst (verdict o')) (snd (verdict o')) = true
  /\ (ExecutionState.is_terminal (x_state o) = true -> x_status o' = x_status o).
Proof.
  intros Hr Hs Ho Ho' Hu.
  destruct (stored_versions _ _ _ _ _ _ s s' name name' o o' Hr Hs Ho Ho' Hu) as [(Hn & Hsp & Hst) Hwf].
  destruct (status_steps_change _ _ Hwf Hst) as [Hch [_ Hx _]].
  split_and!; [done..|]. intros Ht. by apply status_steps_terminal.
Qed.

(** C7. A command is sent to a runner at most once per execution record, and
    only behind the durable checkpoint: the record of every command ever sent,
    if it is still stored, says that it was started. *)
Theorem one_start_per_record s :
  reachable s ->
  NoDup (starts s)
  /\ forall name o u, u ∈ starts s -> records (xserver s) !! name = Some o -> x_uid o = Some u -> x_started o = true.
Proof.
  intros (g & I)%exec_reachable_inv. split; [apply I|]. intros name o u Hin Ho Hu.
  destruct (xi_starts _ _ I u Hin) as (_ & x & [n Hn] & Hxu & Hxs).
  destruct (ri_current _ _ (xi_rec _ _ I) name o n x Ho Hn) as (m & Hm & Hle); [congruence|].
  destruct (ri_evolves _ _ (xi_rec _ _ I) n m x o Hn Hm) as (_ & _ & Hst); [congruence | done |].
  by eapply status_steps_started.
Qed.

(** Active capacity that is given back without a proof that the process is
    gone is never that of a command that runs: such a completion is for a
    record that settled before it started, and no runner is sent its command,
    before or ever after. *)
Theorem released_capacity_never_runs s s' e u :
  reachable s -> e ∈ released s -> se_uid e = Some u -> rtc step s s' -> u ∉ starts s'.
Proof.
  intros (g & I)%exec_reachable_inv He Hu Hs.
  destruct (xi_released _ _ I e He) as (Hc & o & Ho & <-).
  destruct (xsys_inv_steps _ _ _ _ _ _ g s s' I Hs) as (g' & Hg & I').
  assert (x_started o = false /\ ExecutionState.is_terminal (x_state o) = true) as [Hns Ht].
  { unfold execution_can_release_active_capacity, started_status, state_of in Hc.
    change (default _ (se_status (x_exec o))) with (x_status o) in Hc. unfold x_started, x_state.
    destruct (ExecutionState.is_terminal (exec_state (x_status o))), (is_some (exec_started_at (x_status o))); done. }
  eapply unstarted_never_runs; [exact I' | eapply seen_in_mono; [apply Hg | done] | done..].
Qed.

(** Nobody holds the authority to start [u]. *)
Definition forget (g : XGhost) (u : string) : XGhost :=
  {| hist := hist g; tok := fun v => if String.eqb v u then None else tok g v |}.

Lemma forget_inv g s name o u :
  xsys_inv g s -> records (xserver s) !! name = Some o -> x_uid o = Some u ->
  (u ∉ starts s) ->
  (forall id j p, xtasks s !! id = Some (j, p) -> job_lease j <> Some (exec_lease_uid (x_spec o))) ->
  xsys_inv (forget g u) s.
Proof.
  intros I Ho Hu Hns Hidle. constructor; cbn; try apply I.
  - intros id [j p] Ht. destruct (xtask_ctx g s id j p I Ht) as (c & [Hs Hown Hl] & Hw).
    exists c. split; [|done]. constructor; [done| |done]. intros v Hv. cbn.
    destruct (Hown v Hv) as (Htok & Hn & x & [n Hx] & Hux & Hj). split_and!; [|done|by exists x; split_and!; [exists n|..]].
    destruct (String.eqb_spec v u) as [->|]; [|done]. exfalso. eapply (Hidle id j p Ht). rewrite Hj. do 2 f_equal.
    destruct (ri_current _ _ (xi_rec _ _ I) name o n x Ho Hx) as (m & Hm & Hle); [congruence|].
    destruct (ri_evolves _ _ (xi_rec _ _ I) n m x o Hx Hm) as (_ & Hsp & _); [congruence | done | done].
  - intros v Hv. destruct (xi_starts _ _ I v Hv) as (? & ?). split; [|done].
    destruct (String.eqb_spec v u) as [->|]; done.
Qed.

(** A reservation whose request is gone is never run: once no handler of
    the lease is in flight, a record still queued is not started by any retry
    under the same key, any read, reaper or cleanup that follows. *)
Theorem abandoned_reservation_never_runs s s' name o u :
  reachable s -> records (xserver s) !! name = Some o -> x_uid o = Some u -> x_state o = ExecutionState.Queued ->
  (forall id j p, xtasks s !! id = Some (j, p) -> job_lease j <> Some (exec_lease_uid (x_spec o))) ->
  rtc step s s' -> u ∉ starts s'.
Proof.
  intros Hr Ho Hu Hq Hidle Hs. destruct (exec_reachable_inv _ _ _ _ _ _ s Hr) as (g & I).
  destruct (stored_versions _ _ _ _ _ _ s s name name o o Hr (rtc_refl _ _) Ho Ho eq_refl) as [_ Hwf].
  assert (u ∉ starts s) as Hns.
  { intros Hin. destruct (xi_starts _ _ I u Hin) as (_ & x & [n Hn] & Hxu & Hxs).
    destruct (ri_current _ _ (xi_rec _ _ I) name o n x Ho Hn) as (m & Hm & Hle); [congruence|].
    destruct (ri_evolves _ _ (xi_rec _ _ I) n m x o Hn Hm) as (_ & _ & Hst); [congruence | done |].
    apply status_steps_started in Hst; [|done]. by rewrite (wf_queued _ Hwf Hq) in Hst. }
  pose proof (forget_inv g s name o u I Ho Hu Hns Hidle) as I0.
  destruct (xsys_inv_steps _ _ _ _ _ _ _ s s' I0 Hs) as (g' & Hg & I'). intros Hin.
  destruct (xi_starts _ _ I' u Hin) as [[id Hid] _].
  rewrite (gle_tok _ _ Hg o u (stored_seen _ _ _ _ I0 Ho) Hu) in Hid. cbn in Hid. by rewrite String.eqb_refl in Hid.
Qed.

End properties.

(** ** Running one task alone, with given answers *)

Record Oracle : Type := {
  or_ledger : forall c, ledger_answer c;
  or_runner : runner_call -> result Runner.ExecutionReport RunnerCallFailure;
  or_output : result RunnerOutput RunnerCallFailure;
  or_parent : result SandboxLease kube_error;
  or_setup : result unit ScopedSetupDenied;
  or_clock : Z;
}.

Fixpoint xexec (orc : Oracle) (s : XSys) (p : xprog unit) : XSys :=
  match p with
  | XRet _ => s
  | GetRecord name k => xexec orc s (k (get_record (xserver s) name))
  | ListRecords selector k => xexec orc s (k (Ok (list_records (xserver s) selector)))
  | WriteRecord w k => let '(srv, r) := apply_record (xserver s) w "now" in xexec orc (with_xserver s srv) (k r)
  | GetParent _ k => xexec orc s (k (or_parent orc))
  | ListParents k => xexec orc s (k (match or_parent orc with Ok l => Ok [l] | Err e => Err e end))
  | LedgerCall _ c k => xexec orc (note_ledger s c) (k (or_ledger orc c))
  | RunnerCall c k => xexec orc (note_call s c) (k (or_runner orc c))
  | ReadOutput _ k => xexec orc s (k (or_output orc))
  | ScopedSetup k => xexec orc s (k (or_setup orc))
  | Clock k => xexec orc s (k (or_clock orc))
  | Interrupt k => xexec orc s (k false)
  end.

Section alone.
Context (sha : string -> string) (parse : string -> option Z) (to_rfc3339 : Z -> string).
Context (checked_deadline : Z -> StdDuration -> option Z) (limits : SandboxLimits) (encode : list ascii -> string).

#[local] Abbreviation step := (exec_step sha parse to_rfc3339 checked_deadline limits encode).

Definition xplay (s : XSys) (id : string) (orc : Oracle) (j : ExecJob) : XSys :=
  end_xtask (xexec orc s (exec_job_prog sha parse to_rfc3339 checked_deadline limits encode j)) id.

(** What a task was before it moved does not matter. *)
Lemma xexec_step_l orc s s1 s2 id j p q e :
  step (set_xtask s id j p) (set_xtask s1 id j q) -> xtasks s1 = <[id := (j, p)]> (xtasks s2) ->
  with_xtasks s1 (xtasks s2) = s2 ->
  rtc step (set_xtask s2 id j q) (end_xtask (xexec orc s2 q) id) ->
  e = end_xtask (xexec orc s2 q) id -> rtc step (set_xtask s id j p) e.
Proof.
  intros Hs Ht E Hr ->. eapply rtc_l; [exact Hs|].
  replace (set_xtask s1 id j q) with (set_xtask s2 id j q); [done|]. rewrite <- E. unfold set_xtask, with_xtasks. cbn.
  by rewrite Ht, insert_insert_eq.
Qed.

#[local] Ltac alone one :=
  eapply xexec_step_l; [one | | | | reflexivity]; [reflexivity | match goal with s : XSys |- _ => by destruct s end | eauto].

Lemma xexec_steps orc p : forall s id j, rtc step (set_xtask s id j p) (end_xtask (xexec orc s p) id).
Proof.
  assert (Hid : forall s id j p, xtasks (set_xtask s id j p) !! id = Some (j, p)) by (intros; apply lookup_insert_eq).
  assert (Hsame : forall s id j p, with_xtasks (set_xtask s id j p) (xtasks s) = s) by (intros []; done).
  induction p; intros s id j; cbn [xexec].
  1: { apply rtc_once. pose proof (es_end sha parse to_rfc3339 checked_deadline limits encode _ id j _ (Hid s id j (XRet r))) as E.
       change (with_xlimbo _ _) with (with_xlimbo (set_xtask s id j (XRet r)) (xlimbo (set_xtask s id j (XRet r)))) in E.
       rewrite with_xlimbo_same in E.
       replace (end_xtask s id) with (end_xtask (set_xtask s id j (XRet r)) id); [done|].
       unfold end_xtask, set_xtask, with_xtasks. cbn. by rewrite delete_insert_eq. }
  3: destruct (apply_record (xserver s) w "now") as [srv r] eqn:E.
  - alone ltac:(eapply es_get; [apply Hid | by left]).
  - alone ltac:(eapply es_list; [apply Hid | by left]).
  - alone ltac:(eapply es_write; [apply Hid | done]).
  - alone ltac:(eapply es_parent, Hid).
  - alone ltac:(eapply es_parents, Hid).
  - alone ltac:(eapply (es_ledger _ _ _ _ _ _ _ id j), Hid).
  - alone ltac:(eapply es_runner, Hid).
  - alone ltac:(eapply es_output, Hid).
  - alone ltac:(eapply es_setup, Hid).
  - alone ltac:(eapply es_clock, Hid).
  - alone ltac:(eapply es_interrupt, Hid).
Qed.

Lemma xplay_steps s id orc j : xtasks s !! id = None -> rtc step s (xplay s id orc j).
Proof. intros Hid. eapply rtc_l; [by apply es_start | apply xexec_steps]. Qed.

End alone.

(** ** A concrete run

    One detached command that is started and then seen to have succeeded; one
    whose lease was revoked while its credential was set up; one whose
    reservation could not be bound, so that its record is left queued. *)

Definition demo_report (state : Runner.RunnerState) (code : option Z) : Runner.ExecutionReport :=
  {| Runner.report_id := "x"; Runner.report_state := state; Runner.exit_code := code; Runner.signal := None;
     Runner.started_at_unix_ms := None; Runner.finished_at_unix_ms := None; Runner.reason := Some Runner.Reason.COMPLETED;
     Runner.stdout_truncated := false; Runner.stderr_truncated := false |}.

Definition demo_ledger (bound : bool) (c : ledger_call) : ledger_answer c :=
  match c with
  | CallReserve _ _ _ _ => Ok Reserved
  | CallManifest => Ok []
  | CallComplete _ _ | CallReject _ _ _ => Ok tt
  | CallBind _ => Ok bound
  | _ => Ok false
  end.

Definition demo_runner (c : runner_call) : result Runner.ExecutionReport RunnerCallFailure :=
  match rc_verb c with
  | VerbStart _ => Ok (demo_report Runner.Running None)
  | _ => Ok (demo_report Runner.Succeeded (Some 0))
  end.

Definition demo_oracle (bound : bool) (setup : result unit ScopedSetupDenied) : Oracle :=
  {| or_ledger := demo_ledger bound; or_runner := demo_runner; or_output := Err Unreachable;
     or_parent := Ok demo_ready_lease; or_setup := setup; or_clock := seconds 100 |}.

Definition same_text (s : string) : string := s.
Definition no_deadline (_ : Z) (_ : StdDuration) : option Z := None.

Definition keyed (key : string) : ExecutionRequest :=
  {| rq_argv := ["ls"]; rq_cwd := None; rq_timeout := "5m"; rq_idempotency_key := key; rq_detached := true;
     rq_stdin := None |}.

Definition demo_create (key : string) : ExecJob :=
  ECreate "sandboxes" demo_ready_lease demo_target "main" (keyed key) None 0.

Definition demo_name (key : string) : string := execution_name same_text "lease-uid" key.

#[local] Abbreviation demo_play := (xplay same_text demo_seconds show_uint no_deadline demo_limits demo_encode).
#[local] Abbreviation demo_step := (exec_step same_text demo_seconds show_uint no_deadline demo_limits demo_encode).
#[local] Abbreviation demo_reachable := (exec_reachable same_text demo_seconds show_uint no_deadline demo_limits demo_encode).

Definition demo_empty : XSys :=
  {| xserver := {| records := ∅; record_version := 1 |}; xtasks := ∅; xlimbo := []; starts := []; released := [] |}.
Definition demo_running : XSys := demo_play demo_empty "1" (demo_oracle true (Ok tt)) (demo_create "a").
Definition demo_settled : XSys := demo_play demo_running "2" (demo_oracle true (Ok tt)) (EGet demo_target (demo_name "a")).
Definition demo_revoked : XSys := demo_play demo_settled "3" (demo_oracle true (Err SetupRevoked)) (demo_create "b").
Definition demo_reaped : XSys := demo_play demo_revoked "4" (demo_oracle true (Ok tt)) (EReap ∅ None).
Definition demo_queued : XSys := demo_play demo_reaped "5" (demo_oracle false (Ok tt)) (demo_create "c").
Definition demo_retried : XSys := demo_play demo_queued "6" (demo_oracle true (Ok tt)) (demo_create "c").

Example demo_shows :
  (verdict <$> records (xserver demo_running) !! demo_name "a", verdict <$> records (xserver demo_settled) !! demo_name "a",
   verdict <$> records (xserver demo_reaped) !! demo_name "b", verdict <$> records (xserver demo_retried) !! demo_name "c",
   starts demo_retried, se_uid <$> released demo_retried)
  = (Some (ExecutionState.Running, None), Some (ExecutionState.Succeeded, Some 0),
     Some (ExecutionState.Cancelled, None), Some (ExecutionState.Queued, None), ["uid-1"], [Some "uid-4"]).
Proof. by vm_compute. Qed.

Lemma demo_reach : rtc demo_step demo_empty demo_settled /\ rtc demo_step demo_settled demo_reaped
                   /\ rtc demo_step demo_reaped demo_queued /\ rtc demo_step demo_queued demo_retried.
Proof.
  split_and!; [etrans; [|by apply xplay_steps] | etrans; [|by apply xplay_steps] | |]; by apply xplay_steps.
Qed.

Lemma demo_initial : exec_initial demo_empty.
Proof. by vm_compute. Qed.

Lemma demo_settled_reachable : demo_reachable demo_settled.
Proof. exists demo_empty. split; [apply demo_initial | apply demo_reach]. Qed.
Lemma demo_reaped_reachable : demo_reachable demo_reaped.
Proof. exists demo_empty. split; [apply demo_initial|]. destruct demo_reach as (H1 & H2 & _). by etrans. Qed.
Lemma demo_queued_reachable : demo_reachable demo_queued.
Proof.
  exists demo_empty. split; [apply demo_initial|]. destruct demo_reach as (H1 & H2 & H3 & _). etrans; [done|]. by etrans.
Qed.

(** The record of key [key], where the run has one. *)
Definition demo_record (s : XSys) (key : string) : ExecutionObject :=
  default {| x_exec := demo_execution; x_namespace := None; x_labels := ∅; x_owner_references := None;
             x_finalizers := None; x_resource_version := None; x_creation_timestamp := None;
             x_deletion_timestamp := None |} (records (xserver s) !! demo_name key).

Lemma records_settle_once_witness :
  x_status (demo_record demo_retried "a") = x_status (demo_record demo_settled "a")
  /\ exec_state (x_status (demo_record demo_settled "a")) = ExecutionState.Succeeded.
Proof.
  assert (Hs : rtc demo_step demo_settled demo_retried).
  { destruct demo_reach as (_ & H2 & H3 & H4). etrans; [exact H2|]. etrans; [exact H3 | exact H4]. }
  split; [|by vm_compute].
  eapply (records_settle_once _ _ _ _ _ _ demo_settled demo_retried (demo_name "a") (demo_name "a"));
    [apply demo_settled_reachable | exact Hs | by vm_compute..].
Defined.

Lemma one_start_per_record_witness :
  starts demo_settled = ["uid-1"] /\ x_started (demo_record demo_settled "a") = true.
Proof.
  split; [by vm_compute|].
  destruct (one_start_per_record _ _ _ _ _ _ demo_settled demo_settled_reachable) as [_ H].
  apply (H (demo_name "a") _ "uid-1"); [change (starts demo_settled) with ["uid-1"]; apply list_elem_of_here | by vm_compute..].
Defined.

Lemma released_capacity_never_runs_witness :
  (se_uid <$> released demo_reaped) = [Some "uid-4"] /\ "uid-4" ∉ starts demo_retried.
Proof.
  split; [by vm_compute|].
  apply (released_capacity_never_runs same_text demo_seconds show_uint no_deadline demo_limits demo_encode
           demo_reaped demo_retried (x_exec (demo_record demo_reaped "b")) "uid-4");
    [apply demo_reaped_reachable | | by vm_compute |].
  { assert (E : released demo_reaped = [x_exec (demo_record demo_reaped "b")]) by by vm_compute. rewrite E. apply list_elem_of_here. }
  destruct demo_reach as (_ & _ & H3 & H4). by etrans.
Defined.

Lemma abandoned_reservation_never_runs_witness :
  x_state (demo_record demo_queued "c") = ExecutionState.Queued /\ "uid-6" ∉ starts demo_retried.
Proof.
  split; [by vm_compute|].
  apply (abandoned_reservation_never_runs same_text demo_seconds show_uint no_deadline demo_limits demo_encode
           demo_queued demo_retried (demo_name "c") (demo_record demo_queued "c") "uid-6");
    [apply demo_queued_reachable | by vm_compute | by vm_compute | by vm_compute | | apply demo_reach].
  intros id j p. assert (E : xtasks demo_queued = ∅) by by vm_compute. rewrite E. done.
Defined.

(** A read of a record whose creator is still setting up settles it when the
    runner, which was never asked to start it, does not know it. *)
Example poll_settles_queued_record :
  let forgot := {| or_ledger := demo_ledger true; or_runner _ := Err (Refused Runner.ErrNotFound);
                   or_output := Err Unreachable; or_parent := Ok demo_ready_lease; or_setup := Ok tt;
                   or_clock := seconds 100 |} in
  verdict (demo_record demo_queued "c") = (ExecutionState.Queued, None)
  /\ verdict (demo_record (demo_play demo_queued "7" forgot (EGet demo_target (demo_name "c"))) "c")
     = (ExecutionState.Unknown, None).
Proof. by vm_compute. Qed.
