(* ===== verification/CleanupProps.v ===== *)
(** * CleanupProps: what one pass of execution cleanup does, request by request

    The events of one run of a handler, with the answers it was given, and the
    theorems about a cleanup pass: what [Clean] means, and which records a pass
    may retire while the target is still alive. *)

From S2P Require Import Prelude Text Quarantine Execution SandboxObjects LedgerApi AccessLedger SandboxAccess RunnerClient ExecutionApi ExecutionCleanup.

Local Open Scope kobe_scope.

(** ** Runs *)

Inductive xevent : Type :=
| DidGet (name : string) (r : result ExecutionObject kube_error)
| DidList (selector : option string) (r : result (list ExecutionObject) kube_error)
| DidWrite (w : record_write) (r : result ExecutionObject kube_error)
| DidLedger (lease : SandboxLease) (c : ledger_call) (r : ledger_answer c)
| DidCall (c : runner_call) (r : result Runner.ExecutionReport RunnerCallFailure)
| DidOther.

(** [p] makes the requests of [tr], is answered as [tr] says and returns [res]. *)
Fixpoint xruns {R} (p : xprog R) (tr : list xevent) (res : R) : Prop :=
  match p with
  | XRet r => tr = [] /\ res = r
  | GetRecord name k => exists r tr', tr = DidGet name r :: tr' /\ xruns (k r) tr' res
  | ListRecords selector k => exists r tr', tr = DidList selector r :: tr' /\ xruns (k r) tr' res
  | WriteRecord w k => exists r tr', tr = DidWrite w r :: tr' /\ xruns (k r) tr' res
  | LedgerCall lease c k => exists r tr', tr = DidLedger lease c r :: tr' /\ xruns (k r) tr' res
  | RunnerCall c k => exists r tr', tr = DidCall c r :: tr' /\ xruns (k r) tr' res
  | GetParent _ k => exists r tr', tr = DidOther :: tr' /\ xruns (k r) tr' res
  | ListParents k => exists r tr', tr = DidOther :: tr' /\ xruns (k r) tr' res
  | ReadOutput _ k => exists r tr', tr = DidOther :: tr' /\ xruns (k r) tr' res
  | ScopedSetup k => exists r tr', tr = DidOther :: tr' /\ xruns (k r) tr' res
  | Clock k => exists r tr', tr = DidOther :: tr' /\ xruns (k r) tr' res
  | Interrupt k => exists r tr', tr = DidOther :: tr' /\ xruns (k r) tr' res
  end.

(** Every request [p] makes after the events [h] satisfies [Φ], and every
    answer it returns [Q], whatever it is answered. *)
Fixpoint xtrace {R} (h : list xevent) (p : xprog R) (Φ : list xevent -> xevent -> Prop)
    (Q : list xevent -> R -> Prop) : Prop :=
  match p with
  | XRet r => Q h r
  | GetRecord name k => forall r, Φ h (DidGet name r) /\ xtrace (h ++ [DidGet name r]) (k r) Φ Q
  | ListRecords selector k => forall r, Φ h (DidList selector r) /\ xtrace (h ++ [DidList selector r]) (k r) Φ Q
  | WriteRecord w k => forall r, Φ h (DidWrite w r) /\ xtrace (h ++ [DidWrite w r]) (k r) Φ Q
  | LedgerCall lease c k => forall r, Φ h (DidLedger lease c r) /\ xtrace (h ++ [DidLedger lease c r]) (k r) Φ Q
  | RunnerCall c k => forall r, Φ h (DidCall c r) /\ xtrace (h ++ [DidCall c r]) (k r) Φ Q
  | GetParent _ k => forall r, Φ h DidOther /\ xtrace (h ++ [DidOther]) (k r) Φ Q
  | ListParents k => forall r, Φ h DidOther /\ xtrace (h ++ [DidOther]) (k r) Φ Q
  | ReadOutput _ k => forall r, Φ h DidOther /\ xtrace (h ++ [DidOther]) (k r) Φ Q
  | ScopedSetup k => forall r, Φ h DidOther /\ xtrace (h ++ [DidOther]) (k r) Φ Q
  | Clock k => forall r, Φ h DidOther /\ xtrace (h ++ [DidOther]) (k r) Φ Q
  | Interrupt k => forall r, Φ h DidOther /\ xtrace (h ++ [DidOther]) (k r) Φ Q
  end.

Definition always (Φ : list xevent -> xevent -> Prop) (h tr : list xevent) : Prop :=
  forall before e after, tr = before ++ e :: after -> Φ (h ++ before) e.

Lemma always_cons Φ h e tr : Φ h e -> always Φ (h ++ [e]) tr -> always Φ h (e :: tr).
Proof.
  intros He Htr [|x before] y after E; cbn in E; simplify_eq; [by rewrite app_nil_r|].
  specialize (Htr before y after eq_refl). by rewrite <- app_assoc in Htr.
Qed.

Lemma xtrace_sound {R} (p : xprog R) h Φ Q tr res :
  xtrace h p Φ Q -> xruns p tr res -> always Φ h tr /\ Q (h ++ tr) res.
Proof.
  revert h tr. induction p as [r|? ? IH|? ? IH|? ? IH|? ? IH|? IH|? ? ? IH|? ? IH|? ? IH|? IH|? IH|? IH];
    intros h tr Hp Hr; cbn in Hp, Hr;
    [destruct Hr as [-> ->]; split; [by intros [|? ?] ? ? ? | by rewrite app_nil_r]|..];
    destruct Hr as (r & tr' & -> & Hr); destruct (Hp r) as [He Hk]; destruct (IH r _ _ Hk Hr) as [H1 H2];
    (split; [by apply always_cons | by rewrite <- app_assoc in H2]).
Qed.

Lemma xtrace_bind {A B} (p : xprog A) (f : A -> xprog B) h Φ Q :
  xtrace h p Φ (fun h a => xtrace h (f a) Φ Q) -> xtrace h (xbind p f) Φ Q.
Proof. revert h. induction p; intros h; cbn; [done|..]; intros Hp r; destruct (Hp r); auto. Qed.

Lemma xtrace_mono {R} (p : xprog R) h Φ (Q Q' : list xevent -> R -> Prop) :
  (forall h r, Q h r -> Q' h r) -> xtrace h p Φ Q -> xtrace h p Φ Q'.
Proof. intros HQ. revert h. induction p; intros h; cbn; [by apply HQ|..]; intros Hp r; destruct (Hp r); auto. Qed.

(** ** Retiring a record *)

(** The requests that give a record's capacity back or remove it. *)
Definition retiring (e : xevent) : bool :=
  match e with
  | DidWrite (DropFinalizers _ _ _ _) _ | DidWrite (DeleteRecord _ _ _) _ | DidLedger _ (CallComplete _ _) _ => true
  | _ => false
  end.

(** [h'] is [h] and requests that retire nothing. *)
Definition quietly_extends (h h' : list xevent) : Prop := exists t, h' = h ++ t /\ Forall (fun e => retiring e = false) t.

#[export] Instance quietly_extends_preorder : PreOrder quietly_extends.
Proof.
  split; [intros h; exists []; by rewrite app_nil_r|]. intros a b c (t & -> & Ht) (u & -> & Hu).
  exists (t ++ u). rewrite app_assoc, Forall_app. done.
Qed.

Lemma quietly_one h e : retiring e = false -> quietly_extends h (h ++ [e]).
Proof. intros He. exists [e]. by rewrite Forall_singleton. Qed.

Lemma quietly_in h h' e : quietly_extends h h' -> e ∈ h -> e ∈ h'.
Proof. intros (t & -> & _). rewrite elem_of_app. by left. Qed.

Lemma quietly_none h h' : quietly_extends h h' -> Forall (fun e => retiring e = false) h -> Forall (fun e => retiring e = false) h'.
Proof. intros (t & -> & Ht) Hh. by rewrite Forall_app. Qed.

Create HintDb silence.

Section cleanup.
Context (parse : string -> option Z) (to_rfc3339 : Z -> string).
Context (Φ : list xevent -> xevent -> Prop) (quiet : forall h e, retiring e = false -> Φ h e).

Definition silent {R} (p : xprog R) : Prop := forall h, xtrace h p Φ (fun h' _ => quietly_extends h h').

Lemma silent_ret {R} (r : R) : silent (XRet r).
Proof. intros h. cbn. reflexivity. Qed.

Lemma silent_bind {A B} (p : xprog A) (f : A -> xprog B) : silent p -> (forall a, silent (f a)) -> silent (xbind p f).
Proof.
  intros Hp Hf h. apply xtrace_bind. eapply xtrace_mono; [|apply Hp]. intros h' a Hh. cbn.
  eapply xtrace_mono; [|apply Hf]. intros h'' b Hh'. etrans; [exact Hh | exact Hh'].
Qed.

Lemma silent_then {R} h e (p : xprog R) :
  retiring e = false -> silent p -> Φ h e /\ xtrace (h ++ [e]) p Φ (fun h' _ => quietly_extends h h').
Proof.
  intros He Hp. split; [by apply quiet|]. eapply xtrace_mono; [|apply Hp]. intros h' b Hh. etrans; [|exact Hh].
  by apply quietly_one.
Qed.

Lemma silent_get {R} name (k : _ -> xprog R) : (forall r, silent (k r)) -> silent (GetRecord name k).
Proof. intros Hk h r. by apply silent_then. Qed.

Lemma silent_list {R} selector (k : _ -> xprog R) : (forall r, silent (k r)) -> silent (ListRecords selector k).
Proof. intros Hk h r. by apply silent_then. Qed.

Lemma silent_clock {R} (k : _ -> xprog R) : (forall r, silent (k r)) -> silent (Clock k).
Proof. intros Hk h r. by apply silent_then. Qed.

Lemma silent_patch {R} name uid rv st (k : _ -> xprog R) :
  (forall r, silent (k r)) -> silent (WriteRecord (PatchStatus name uid rv st) k).
Proof. intros Hk h r. by apply silent_then. Qed.

Lemma silent_call {R} c (k : _ -> xprog R) : (forall r, silent (k r)) -> silent (RunnerCall c k).
Proof. intros Hk h r. by apply silent_then. Qed.

Lemma silent_ledger {R} lease c (k : _ -> xprog R) :
  (forall r, retiring (DidLedger lease c r) = false) -> (forall r, silent (k r)) -> silent (LedgerCall lease c k).
Proof. intros Hc Hk h r. by apply silent_then. Qed.

#[local] Hint Resolve silent_ret silent_bind silent_get silent_list silent_clock silent_patch silent_call : silence.

Lemma silent_persist n name uid state code at_ reason : silent (persist_loop n name uid state code at_ reason).
Proof.
  induction n as [|n IH]; cbn; [apply silent_ret|]. apply silent_get. intros [live|e]; [|apply silent_ret].
  destruct (settle_plan name live uid state code at_ reason) as [[live'|w]|e] eqn:E; [apply silent_ret| |apply silent_ret].
  unfold settle_plan in E. destruct (deny_if _ _); [|done]. cbn in E.
  destruct (ExecutionState.is_terminal (x_state live)); [done|]. destruct (transition_execution _ _ _); [|done].
  destruct (x_resource_version live); [|done]. cbn in E. simplify_eq.
  apply silent_patch. intros [o|e]; [apply silent_ret|]. destruct (retried_code e); [apply IH | apply silent_ret].
Qed.

Lemma silent_record_terminal o state code reason : silent (record_terminal to_rfc3339 o state code reason).
Proof.
  unfold record_terminal, persist_terminal. apply silent_bind; [|intros []; apply silent_ret].
  destruct (x_uid o); [|apply silent_ret]. apply silent_clock. intros now. apply silent_persist.
Qed.

Lemma silent_refresh_settled o : silent (refresh_settled o).
Proof. unfold refresh_settled, refresh. apply silent_bind; eauto with silence. Qed.

Lemma silent_settle_bound o target reachable : silent (settle_bound to_rfc3339 o target reachable).
Proof.
  assert (Hq : forall (f : ExecutionObject -> _), (forall x, silent (f x)) ->
    silent (xdo? terminal := refresh_settled o in f terminal : xprog (result (ExecutionObject * bool) ExecutionCleanupOutcome))).
  { intros f Hf. apply silent_bind; [apply silent_refresh_settled|]. intros []; eauto with silence. }
  pose proof silent_record_terminal as Hrt. unfold settle_bound.
  repeat case_match; eauto with silence.
  - apply silent_call. intros [report|failure]; [case_match; [apply silent_ret|]|];
      (apply silent_bind; [apply Hrt|]; intros _; apply Hq; eauto with silence).
Qed.
End cleanup.

Lemma xtrace_and {R} (p : xprog R) h Φ Q Q' :
  xtrace h p Φ Q -> xtrace h p (fun _ _ => True) Q' -> xtrace h p Φ (fun h r => Q h r /\ Q' h r).
Proof. revert h. induction p; intros h; cbn; [done|..]; intros Hp Hp' r; destruct (Hp r), (Hp' r); auto. Qed.

(** What a program returns, whatever it is answered. *)
Definition returns {R} (p : xprog R) (P : R -> Prop) : Prop := forall h, xtrace h p (fun _ _ => True) (fun _ r => P r).

Lemma returns_bind {A B} (p : xprog A) (f : A -> xprog B) P : (forall a, returns (f a) P) -> returns (xbind p f) P.
Proof.
  intros Hf h. apply xtrace_bind. revert h. induction p; intros h; cbn; [apply Hf|..]; intros; split; auto.
Qed.

(** With a live target, only a record that was queued or never started when it
    was listed can be retired. *)
Definition never_started (o : ExecutionObject) : Prop := x_state o = ExecutionState.Queued \/ x_started o = false.

(** [t] is the settled record of the listed record [o]: [o] itself, settled
    without having started, or, when [o] was queued, what a read of its name
    found settled since. *)
Definition settled_record (h : list xevent) (o t : ExecutionObject) : Prop :=
  ExecutionState.is_terminal (x_state t) = true
  /\ ((t = o /\ x_started o = false)
      \/ (x_state o = ExecutionState.Queued /\ DidGet (x_name o) (Ok t) ∈ h)).

Lemma settled_record_unstarted h o t : settled_record h o t -> never_started o.
Proof. intros [_ [[_ ?]|[? _]]]; [by right | by left]. Qed.

Lemma settled_record_app h h' o t : settled_record h o t -> settled_record (h ++ h') o t.
Proof. intros [Ht [?|[? ?]]]; split; auto. right. split; [done|]. apply elem_of_app. by left. Qed.

Lemma xtrace_any {R} (p : xprog R) h : xtrace h p (fun _ _ => True) (fun _ _ => True).
Proof. revert h. induction p; intros h; cbn; auto. Qed.

Lemma refresh_settled_reads h o :
  xtrace h (refresh_settled o) (fun _ _ => True)
    (fun h' r => forall t, r = Ok t -> ExecutionState.is_terminal (x_state t) = true /\ DidGet (x_name o) (Ok t) ∈ h').
Proof.
  unfold refresh_settled, refresh. intros r. split; [done|]. cbn. destruct r as [t|e]; cbn; [|done].
  case_match; [|done]. intros t' [= <-]. split; [done|]. apply elem_of_app. right. apply list_elem_of_here.
Qed.

Lemma settle_bound_live to_rfc3339 o target h :
  xtrace h (settle_bound to_rfc3339 o target true) (fun _ _ => True)
    (fun h' r => forall t, r = Ok (t, true) -> settled_record h' o t).
Proof.
  assert (Hr : forall h b, b = false \/ x_state o = ExecutionState.Queued ->
    xtrace h (xdo? terminal := refresh_settled o in XRet (Ok (terminal, b))) (fun _ _ => True)
      (fun h' r => forall t, r = Ok (t, true) -> settled_record h' o t)).
  { intros h' b Hb. apply xtrace_bind. eapply xtrace_mono; [|apply refresh_settled_reads].
    intros h'' [t|e] Ht; cbn; [|done]. intros t' [= <- ->]. destruct (Ht t eq_refl) as [Hterm Hget].
    destruct Hb as [|Hq]; [done|]. split; [done|]. by right. }
  unfold settle_bound. case_bool_decide as Hq.
  { apply xtrace_bind. eapply xtrace_mono; [|apply xtrace_any]. intros h' ? _. apply Hr. by right. }
  destruct (x_started o) eqn:Hs; cbn [negb].
  2: { intros t. case_match eqn:Ht; cbn; [done|]. intros [= <-]. split; [by apply negb_false_iff|]. by left. }
  intros answer. split; [done|]. destruct answer as [report|failure]; [case_match; [done|]|];
    apply xtrace_bind; (eapply xtrace_mono; [|apply xtrace_any]); intros h' ? _; apply Hr; by left.
Qed.

(** ** The records of a lease *)

Lemma collect_owned_spec listed uid acc owned :
  collect_owned listed uid acc = Ok owned ->
  (forall o, In o listed -> names_this_lease o uid = true \/ labelled o uid = true ->
     names_this_lease o uid = true /\ labelled o uid = true /\ owned !! x_name o = Some o)
  /\ (forall name o, owned !! name = Some o -> acc !! name = Some o \/ In o listed)
  /\ acc ⊆ owned.
Proof.
  revert acc. induction listed as [|o listed IH]; intros acc; cbn [collect_owned].
  { intros [= <-]. split_and!; [done | auto | done]. }
  destruct (names_this_lease o uid) eqn:Hn, (labelled o uid) eqn:Hl; cbn [negb andb orb]; try done.
  - destruct (acc !! x_name o) eqn:Ha; cbn [is_some]; [done|]. intros Hc. destruct (IH _ Hc) as (H1 & H2 & H3).
    split_and!.
    + intros o' [<-|Ho'] H; [|by apply H1]. split_and!; [done..|]. eapply lookup_weaken; [|exact H3]. apply lookup_insert_eq.
    + intros name o' Ho'. destruct (H2 name o' Ho') as [[[<- <-]|[_ ?]]%lookup_insert_Some|?]; cbn; auto.
    + etrans; [|exact H3]. by apply insert_subseteq.
  - intros Hc. destruct (IH _ Hc) as (H1 & H2 & H3). split_and!; [|intros name o' Ho'; destruct (H2 name o' Ho'); cbn; auto|done].
    intros o' [<-|Ho'] H; [by destruct H; congruence | by apply H1].
Qed.

Lemma owned_records_spec listed uid manifest owned :
  owned_execution_records listed uid manifest = Ok owned ->
  (forall o, In o listed -> names_this_lease o uid = true \/ labelled o uid = true ->
     exists entry, In entry manifest /\ me_name entry = x_name o)
  /\ (forall name o, owned !! name = Some o -> In o listed).
Proof.
  unfold owned_execution_records. destruct (collect_owned listed uid ∅) as [own|] eqn:Hc; cbn; [|done].
  case_match eqn:He; [done|]. intros [= <-]. destruct (collect_owned_spec _ _ _ _ Hc) as (H1 & H2 & _). split.
  - intros o Ho H. destruct (H1 o Ho H) as (_ & _ & Hown).
    assert (existsb (fun e => String.eqb (me_name e) (x_name o)) manifest = true) as Hm.
    { destruct (existsb _ manifest) eqn:Em; [done|]. exfalso. rewrite <- not_true_iff_false in He. apply He.
      apply existsb_exists. exists (x_name o, o). split; [by apply list_elem_of_In, elem_of_map_to_list|]. by rewrite Em. }
    apply existsb_exists in Hm as (entry & Hin & E%String.eqb_eq). by exists entry.
  - intros name o Ho. destruct (H2 name o Ho) as [E|]; [|done]. by rewrite lookup_empty in E.
Qed.

Lemma returns_runs {R} (p : xprog R) P tr r : returns p P -> xruns p tr r -> P r.
Proof. intros Hp Hr. by apply (xtrace_sound p [] _ _ tr r (Hp [])). Qed.

(** Retiring one entry is not the end of the pass. *)
Definition not_clean (out : ExecutionCleanupOutcome) : Prop := out <> CleanupClean.

Lemma remove_record_not_clean o uid : returns (remove_execution_record o uid) not_clean.
Proof.
  unfold remove_execution_record, confirm_deleted, not_clean. intros h.
  destruct (x_resource_version o); [|done]. case_match; [done|].
  intros [dropped|e]; (split; [done|]); cbn; [|by repeat case_match].
  intros [current|e']; (split; [done|]); cbn; [|by repeat case_match]. case_match; cbn; [done|].
  intros [deleted|e'']; (split; [done|]); cbn; [|case_match; cbn; [|by repeat case_match]];
    intros r; (split; [done|]); by repeat case_match.
Qed.

Lemma returns_seq {A B} (p : xprog A) (f : A -> xprog B) P P' :
  returns p P -> (forall a, P a -> returns (f a) P') -> returns (xbind p f) P'.
Proof. intros Hp Hf h. apply xtrace_bind. eapply xtrace_mono; [|apply Hp]. intros h' a Ha. by apply Hf. Qed.

Definition failed_not_clean {A} (r : result A ExecutionCleanupOutcome) : Prop := r <> Err CleanupClean.

Lemma unlisted_not_clean name uid : returns (unlisted_record_is_absent name uid) failed_not_clean.
Proof. intros h r. split; [done|]. cbn. destruct r; by repeat case_match. Qed.

Lemma missing_record_not_clean parse lease uid entry : returns (missing_record parse lease uid entry) not_clean.
Proof.
  assert (Hc : forall r, not_clean (checkpointed r)) by (intros [[]|]; done).
  eapply returns_seq; [apply unlisted_not_clean|]. intros [[]|e] He h; [|cbn; congruence].
  repeat (case_match; cbn); try done; (intros r; split; [done | cbn; done || apply Hc]).
Qed.

Lemma refresh_settled_not_clean o : returns (refresh_settled o) failed_not_clean.
Proof. intros h r. split; [done|]. cbn. destruct r; [|done]. by repeat case_match. Qed.

Lemma settle_bound_not_clean to_rfc3339 o target reachable :
  returns (settle_bound to_rfc3339 o target reachable) failed_not_clean.
Proof.
  assert (Hr : forall b : bool, returns (xdo? terminal := refresh_settled o in XRet (Ok (terminal, b))) failed_not_clean).
  { intros b. eapply returns_seq; [apply refresh_settled_not_clean|]. intros [t|e] He h; cbn; [done|].
    intros [= ->]. by apply He. }
  unfold settle_bound. case_bool_decide; [apply returns_bind; intros _; apply Hr|].
  case_match; [by intros h; cbn; case_match|]. case_match; [|apply returns_bind; intros _; apply Hr].
  intros h answer. split; [done|]. destruct answer; [case_match; [done|]|]; apply returns_bind; intros _; apply Hr.
Qed.

Lemma present_record_not_clean to_rfc3339 lease entry o reachable :
  returns (present_record to_rfc3339 lease entry o reachable) not_clean.
Proof.
  assert (Hc : forall r, not_clean (checkpointed r)) by (intros [[]|]; done).
  unfold present_record. case_match; [|intros h; done]. destruct (me_execution_uid entry) as [bound|]; [|intros h; cbn; auto].
  destruct (String.eqb bound _); cbn [negb]; [|intros h; done]. destruct (cleanup_target lease o); [|intros h; done].
  eapply returns_seq; [apply settle_bound_not_clean|]. intros [[terminal proven]|e] He; [|intros h; cbn; congruence].
  destruct proven; cbn [negb]; [|intros h; done]. intros h r. split; [done|]. destruct r; [apply remove_record_not_clean | done].
Qed.

(** C10. [Clean] means nothing of the lease is left: a pass reports it only after
    it has read an empty manifest, then the labelled records, then every record
    of the namespace, and found none that names or is labelled with the lease,
    and the ledger then had nothing left to clear; on the way it changed
    nothing. *)
Theorem clean_means_nothing_left parse to_rfc3339 lease reachable require tr :
  xruns (cleanup_lease_executions_inner parse to_rfc3339 lease reachable require) tr CleanupClean ->
  exists uid labelled_records listed,
    sbx_uid lease = Some uid
    /\ tr = [DidLedger lease CallManifest (Ok []); DidList (Some uid) (Ok labelled_records);
             DidList None (Ok listed); DidLedger lease CallClear (Ok false)]
    /\ (forall o, In o listed -> names_this_lease o uid = false /\ labelled o uid = false)
    /\ forall srv, listed = list_records srv None ->
         forall name o, records srv !! name = Some o -> exec_lease_uid (x_spec o) <> uid.
Proof.
  unfold cleanup_lease_executions_inner. intros ([manifest|e] & tr1 & -> & H); [|by destruct H].
  case_match; [by destruct H|]. destruct (sbx_uid lease) as [uid|]; [|by destruct H].
  destruct H as ([labelled_records|e] & tr2 & -> & H); [|by destruct H as [_ H]; destruct (is_401_or_403 e)].
  destruct (owned_execution_records labelled_records uid manifest) as [owned|]; [|by destruct H].
  destruct manifest as [|entry manifest].
  2: { exfalso. destruct (owned !! me_name entry);
         [apply (returns_runs _ _ _ _ (present_record_not_clean _ _ _ _ _)) in H
         | apply (returns_runs _ _ _ _ (missing_record_not_clean _ _ _ _)) in H]; done. }
  destruct H as ([listed|e] & tr3 & -> & H); [|by destruct H as [_ H]; destruct (is_401_or_403 e)].
  destruct (owned_execution_records listed uid []) as [own|] eqn:Ho; [|by destruct H].
  destruct H as ([[]|e] & tr4 & -> & -> & H); try done.
  assert (Hnone : forall o, In o listed -> names_this_lease o uid = false /\ labelled o uid = false).
  { intros o Hin. destruct (owned_records_spec _ _ _ _ Ho) as [Hm _]. specialize (Hm o Hin).
    destruct (names_this_lease o uid), (labelled o uid); try done; (destruct Hm as (? & [] & _); auto). }
  exists uid, labelled_records, listed. split_and!; [done..|]. intros srv -> name o Hrec E.
  destruct (Hnone o) as [Hn _].
  - unfold list_records. apply filter_In. split; [|done]. apply in_map_iff. exists (name, o). split; [done|].
    by apply list_elem_of_In, elem_of_btree_iter.
  - unfold names_this_lease in Hn. apply String.eqb_neq in Hn. done.
Qed.

(** ** What may be retired while the target is alive *)

(** The records a pass was shown under the lease's label. *)
Definition was_listed (h : list xevent) (uid : string) (o : ExecutionObject) : Prop :=
  exists listed, DidList (Some uid) (Ok listed) ∈ h /\ In o listed.

(** [e] retires a record of the lease that was queued or never started when
    it was listed.  The capacity completed is that of its settled record, with
    the proof; the record written is the settled one, by its name and by the
    UID of the listed one, and only once the ledger has taken the completion. *)
Definition may_retire (lease : SandboxLease) (h : list xevent) (e : xevent) : Prop :=
  exists uid o t record_uid,
    sbx_uid lease = Some uid /\ was_listed h uid o /\ execution_identity_holds o lease = Ok record_uid
    /\ settled_record h o t
    /\ match e with
       | DidLedger l (CallComplete c proven) _ => l = lease /\ c = x_exec t /\ proven = true
       | DidWrite (DropFinalizers n u _ _) _ | DidWrite (DeleteRecord n u _) _ =>
           n = x_name t /\ u = record_uid /\ DidLedger lease (CallComplete (x_exec t) true) (Ok tt) ∈ h
       | _ => True
       end.

Definition retires_unstarted (lease : SandboxLease) (h : list xevent) (e : xevent) : Prop :=
  retiring e = true -> may_retire lease h e.

Lemma retires_quiet lease h e : retiring e = false -> retires_unstarted lease h e.
Proof. unfold retires_unstarted. congruence. Qed.
#[local] Hint Resolve retires_quiet : core.

Definition none_retired (h : list xevent) (out : ExecutionCleanupOutcome) : Prop :=
  out = AwaitTargetDestruction -> Forall (fun e => retiring e = false) h.

Lemma remove_record_retires lease h uid o record_uid t :
  sbx_uid lease = Some uid -> was_listed h uid o -> execution_identity_holds o lease = Ok record_uid ->
  settled_record h o t -> DidLedger lease (CallComplete (x_exec t) true) (Ok tt) ∈ h ->
  xtrace h (remove_execution_record t record_uid) (retires_unstarted lease) (fun _ out => out <> AwaitTargetDestruction).
Proof.
  intros Hu (listed & Hl & Hin) Hi Hn Hc.
  assert (forall u, may_retire lease (h ++ u)
            (DidWrite (DropFinalizers (x_name t) record_uid "" []) (Err Transport))) as Hmay.
  { intros u. exists uid, o, t, record_uid. split_and!; [done| |done|by apply settled_record_app|done|done|].
    - exists listed. split; [apply elem_of_app; by left | done].
    - apply elem_of_app. by left. }
  unfold remove_execution_record, confirm_deleted. destruct (x_resource_version t); [|done]. case_match; [done|].
  intros dropped. split; [intros _; specialize (Hmay []); by rewrite app_nil_r in Hmay|].
  destruct dropped as [dropped|e]; [|cbn; by repeat case_match].
  intros current. split; [auto|]. destruct current as [current|e]; [|cbn; by repeat case_match]. case_match; [done|].
  intros deleted. split; [intros _; rewrite <- app_assoc; apply Hmay|].
  destruct deleted as [deleted|e]; [|destruct (is_404 e); [|cbn; by repeat case_match]];
    (intros r; split; [auto|]; cbn; by repeat case_match).
Qed.

Lemma present_record_retires to_rfc3339 lease entry h uid o :
  sbx_uid lease = Some uid -> was_listed h uid o -> Forall (fun e => retiring e = false) h ->
  xtrace h (present_record to_rfc3339 lease entry o true) (retires_unstarted lease) none_retired.
Proof.
  intros Hu (listed & Hl & Hin) Hnone. unfold present_record.
  destruct (execution_identity_holds o lease) as [record_uid|] eqn:Hi; cbn match; [|done].
  destruct (deny_if _ ExecutionManifestMismatch); cbn match; [|done]. destruct (me_execution_uid entry) as [bound|].
  2: { intros r. split; [auto|]. intros E. by destruct r as [[]|]. }
  destruct (String.eqb bound _); cbn [negb]; [|done]. destruct (cleanup_target lease o) as [target|]; [|done].
  apply xtrace_bind. eapply xtrace_mono; [|apply xtrace_and;
    [apply (silent_settle_bound to_rfc3339 (retires_unstarted lease) (retires_quiet lease) o target true) | apply settle_bound_live]].
  intros h' [[t proven]|e] [Hq Hs]; [|intros _; by eapply quietly_none].
  destruct proven; cbn [negb]; [|intros _; by eapply quietly_none]. specialize (Hs t eq_refl).
  assert (was_listed h' uid o) as Hl' by (exists listed; split; [by eapply quietly_in | done]).
  intros r. split; [intros _; by exists uid, o, t, record_uid|]. destruct r as [[]|e]; [|done].
  eapply xtrace_mono; [|eapply (remove_record_retires lease _ uid o record_uid t); try done].
  - intros ? out Hout E. by destruct Hout.
  - destruct Hl' as (l & ? & ?). exists l. split; [apply elem_of_app; by left | done].
  - by apply settled_record_app.
  - apply elem_of_app. right. apply list_elem_of_here.
Qed.

Lemma missing_record_retires parse lease uid entry h :
  xtrace h (missing_record parse lease uid entry) (retires_unstarted lease) (fun _ out => out <> AwaitTargetDestruction).
Proof.
  assert (Hc : forall r, checkpointed r <> AwaitTargetDestruction) by (intros [[]|]; done).
  intros r. split; [auto|]. set (absent := match r with Ok _ => _ | Err _ => _ end).
  assert (absent <> Err AwaitTargetDestruction) as Ha by (subst absent; destruct r; by repeat case_match).
  cbn [xbind]. destruct absent as [[]|out]; [|cbn; congruence].
  repeat (case_match; cbn); try done; (intros; split; [auto | cbn; done || apply Hc]).
Qed.

(** C9. While its target is alive, a cleanup pass retires no record that was
    listed to it as started.  Every request of [cleanup_lease_executions] that
    completes capacity, drops a finalizer or deletes a record is for a record
    [o] of the lease, listed and verified, that was queued or never started
    when it was listed.  What is completed is the capacity of [o] itself or,
    for a queued [o], of the settled record a later read of its name returned;
    the record written is that same one, by its name and the UID of [o], and
    only after the ledger has taken the completion.  The read back looks at
    the name and the state alone ([queued_snapshot_is_retired_started]).  A
    pass that ends in [AwaitTargetDestruction] has made no such request. *)
Theorem live_target_keeps_started_records parse to_rfc3339 lease tr out :
  xruns (cleanup_lease_executions parse to_rfc3339 lease) tr out ->
  (forall before e after, tr = before ++ e :: after -> retiring e = true -> may_retire lease before e)
  /\ (out = AwaitTargetDestruction -> Forall (fun e => retiring e = false) tr).
Proof.
  intros Hr. apply (xtrace_sound (cleanup_lease_executions parse to_rfc3339 lease) [] (retires_unstarted lease) none_retired);
    [clear Hr|done].
  intros manifest. split; [auto|]. destruct manifest as [manifest|]; [|done].
  case_match; [done|]. destruct (sbx_uid lease) as [uid|] eqn:Hu; [|done].
  intros listed. split; [auto|]. destruct listed as [listed|e]; [|cbn; by case_match].
  destruct (owned_execution_records listed uid manifest) as [owned|] eqn:Ho; [|done].
  destruct manifest as [|entry manifest].
  - intros everything. split; [auto|]. destruct everything as [everything|e]; [|cbn; by case_match].
    destruct (owned_execution_records everything uid []); [|done]. intros r. split; [auto|]. by destruct r as [[]|].
  - destruct (owned !! me_name entry) as [o|] eqn:Hown.
    + apply present_record_retires with uid; [done | | by repeat constructor]. exists listed.
      split; [apply elem_of_app; right; apply list_elem_of_here | by eapply owned_records_spec].
    + eapply xtrace_mono; [|apply missing_record_retires]. intros ? ? Hne E. done.
Qed.

(** ** Concrete passes *)

(** A queued record of the lease, bound in the manifest. *)
Definition demo_bound_spec : SandboxExecutionSpec :=
  {| exec_lease_name := Some "sandbox-1"; exec_lease_uid := "lease-uid"; exec_pod_uid := "pod-uid";
     exec_idempotency_key := "k"; exec_request_digest := "d"; exec_timeout := "5m"; exec_detached := true;
     exec_runner_managed := Some true;
     exec_target := Some {| target_namespace := "sandboxes"; target_pod_name := "pod"; target_pod_uid := "pod-uid";
                            target_container := "main"; target_runner_path := "/kobe-runner" |} |}.

Definition demo_bound (state : ExecutionState.t) (started : option string) : ExecutionObject :=
  {| x_exec := {| se_name := "sbxe-1"; se_uid := Some "exec-1"; se_spec := demo_bound_spec;
                  se_status := Some {| exec_state := state; exec_started_at := started; exec_finished_at := None;
                                       exec_exit_code := None; exec_reason := None; exec_verdict_deadline := None;
                                       exec_deadline := None; exec_deadline_source := None |} |};
     x_namespace := Some "sandboxes";
     x_labels := <[RECORD_LEASE_UID_LABEL := "lease-uid"]> (<[RECORD_LEASE_NAME_LABEL := "sandbox-1"]> ∅);
     x_owner_references := None; x_finalizers := Some [SANDBOX_EXECUTION_FINALIZER]; x_resource_version := Some "1";
     x_creation_timestamp := None; x_deletion_timestamp := None |}.

Definition demo_entry : ExecutionManifestEntry :=
  {| me_name := "sbxe-1"; me_request_digest := "d"; me_pod_uid := "pod-uid"; me_execution_uid := Some "exec-1";
     me_active := true; me_creation_state := Bound; me_reserved_at := "0"; me_writer := None |}.

(** A record of another lease. *)
Definition demo_foreign : ExecutionObject :=
  {| x_exec := {| se_name := "sbxe-2"; se_uid := Some "exec-2";
                  se_spec := {| exec_lease_name := Some "sandbox-2"; exec_lease_uid := "other-uid";
                                exec_pod_uid := "pod-2"; exec_idempotency_key := "k"; exec_request_digest := "d";
                                exec_timeout := "5m"; exec_detached := true; exec_runner_managed := Some true;
                                exec_target := None |};
                  se_status := None |};
     x_namespace := Some "sandboxes"; x_labels := <[RECORD_LEASE_UID_LABEL := "other-uid"]> ∅;
     x_owner_references := None; x_finalizers := None; x_resource_version := None; x_creation_timestamp := None;
     x_deletion_timestamp := None |}.

Lemma clean_means_nothing_left_witness :
  names_this_lease demo_foreign "lease-uid" = false /\ labelled demo_foreign "lease-uid" = false.
Proof.
  pose (tr := [DidLedger demo_ready_lease CallManifest (Ok []); DidList (Some "lease-uid") (Ok []);
               DidList None (Ok [demo_foreign]); DidLedger demo_ready_lease CallClear (Ok false)]).
  destruct (clean_means_nothing_left (fun _ => None) show_uint demo_ready_lease true false tr)
    as (uid & l1 & l2 & [= <-] & [= -> <-] & H & _); [by repeat eexists | apply H; by left].
Defined.

(** The run of a handler that is always answered the same. *)
Record Answers : Type := {
  an_get : result ExecutionObject kube_error;
  an_list : result (list ExecutionObject) kube_error;
  an_write : result ExecutionObject kube_error;
  an_ledger : forall c, ledger_answer c;
  an_call : result Runner.ExecutionReport RunnerCallFailure;
}.

Fixpoint xrecord {R} (a : Answers) (p : xprog R) : list xevent * R :=
  let note e r := (e :: fst r, snd r) in
  match p with
  | XRet r => ([], r)
  | GetRecord name k => note (DidGet name (an_get a)) (xrecord a (k (an_get a)))
  | ListRecords selector k => note (DidList selector (an_list a)) (xrecord a (k (an_list a)))
  | WriteRecord w k => note (DidWrite w (an_write a)) (xrecord a (k (an_write a)))
  | LedgerCall lease c k => note (DidLedger lease c (an_ledger a c)) (xrecord a (k (an_ledger a c)))
  | RunnerCall c k => note (DidCall c (an_call a)) (xrecord a (k (an_call a)))
  | GetParent _ k => note DidOther (xrecord a (k (Err Transport)))
  | ListParents k => note DidOther (xrecord a (k (Err Transport)))
  | ReadOutput _ k => note DidOther (xrecord a (k (Err Unreachable)))
  | ScopedSetup k => note DidOther (xrecord a (k (Ok tt)))
  | Clock k => note DidOther (xrecord a (k 0))
  | Interrupt k => note DidOther (xrecord a (k false))
  end.

Lemma xrecord_runs {R} a (p : xprog R) : xruns p (fst (xrecord a p)) (snd (xrecord a p)).
Proof. induction p; cbn; [done|..]; by do 2 eexists. Qed.

Definition demo_answers (o : ExecutionObject) : Answers :=
  {| an_get := Err not_found; an_list := Ok [o]; an_write := Ok o;
     an_ledger c := match c with CallManifest => Ok [demo_entry] | CallReserve _ _ _ _ => Err Contended
                    | CallComplete _ _ | CallReject _ _ _ => Ok tt | _ => Ok true end;
     an_call := Err Unreachable |}.

Lemma live_target_keeps_started_records_witness :
  let o := demo_bound ExecutionState.Cancelled None in
  let before := [DidLedger demo_ready_lease CallManifest (Ok [demo_entry]); DidList (Some "lease-uid") (Ok [o]);
                 DidLedger demo_ready_lease (CallComplete (x_exec o) true) (Ok tt)] in
  may_retire demo_ready_lease before (DidWrite (DropFinalizers "sbxe-1" "exec-1" "1" [SANDBOX_EXECUTION_FINALIZER]) (Ok o)).
Proof.
  intros o before.
  pose proof (xrecord_runs (demo_answers o) (cleanup_lease_executions (fun _ => None) show_uint demo_ready_lease)) as Hrun.
  assert (E : xrecord (demo_answers o) (cleanup_lease_executions (fun _ => None) show_uint demo_ready_lease)
    = (before ++ [DidWrite (DropFinalizers "sbxe-1" "exec-1" "1" [SANDBOX_EXECUTION_FINALIZER]) (Ok o);
                  DidGet "sbxe-1" (Err not_found)], CleanupCheckpointed)) by (vm_compute; reflexivity).
  rewrite E in Hrun. destruct (live_target_keeps_started_records _ _ _ _ _ Hrun) as [H _].
  exact (H before _ _ eq_refl eq_refl).
Defined.

(** A record that was queued when it was listed, and that another writer has
    started and settled by the time it is read back, has its capacity
    completed with [process_absence_proven]. *)
Definition retire_race_answers : Answers :=
  {| an_get := Ok (demo_bound ExecutionState.Succeeded (Some "1")); an_list := Ok [demo_bound ExecutionState.Queued None];
     an_write := Err Transport; an_ledger := an_ledger (demo_answers (demo_bound ExecutionState.Queued None));
     an_call := Err Unreachable |}.

Example queued_snapshot_is_retired_started :
  let started := demo_bound ExecutionState.Succeeded (Some "1") in
  x_started started = true
  /\ DidLedger demo_ready_lease (CallComplete (x_exec started) true) (Ok tt)
     ∈ fst (xrecord retire_race_answers (cleanup_lease_executions (fun _ => None) show_uint demo_ready_lease)).
Proof.
  split; [reflexivity|].
  assert (E : fst (xrecord retire_race_answers (cleanup_lease_executions (fun _ => None) show_uint demo_ready_lease))
    !! 5%nat = Some (DidLedger demo_ready_lease (CallComplete (x_exec (demo_bound ExecutionState.Succeeded (Some "1"))) true) (Ok tt)))
    by (vm_compute; reflexivity).
  by eapply list_elem_of_lookup_2.
Qed.
