(* ===== verification/AdmissionApi.v ===== *)
(** * AdmissionApi: the objects Sandbox admission writes, their API server, its programs

    Admission of a Sandbox lease couples two kinds of objects that no
    transaction spans: the [SandboxLease] itself (the parent) and the
    coordination [Lease] tokens that hold its quota slot and its alias.  This
    file has the parents as [src/api/sandbox.rs] reads and writes them, the API
    server that stores both kinds, and programs over it.  A program may be a
    stage of a request that is abandoned when the process shuts down or the
    request's budget elapses ([await_admission_stage_until]). *)

From S2P Require Import Prelude Text SandboxObjects SandboxLifecycle LedgerApi AccessLedger.

Local Open Scope kobe_scope.

(** ** Parents *)

Record SandboxPlacementAuthority : Type := {
  pa_api_version : string;
  pa_kind : string;
  pa_namespace : string;
  pa_name : string;
  pa_uid : string;
  pa_generation : Z;
}.
#[global] Instance SandboxPlacementAuthority_eq_dec : EqDecision SandboxPlacementAuthority.
Proof. solve_decision. Defined.

(** [SandboxLeaseSpec]; the requester's type is kept beside its principal. *)
Record ParentSpec : Type := {
  ps_pool_ref : SandboxPoolReference;
  ps_placement_authority : option SandboxPlacementAuthority;
  ps_ttl : string;
  ps_alias : option string;
  ps_requester : SandboxPrincipal;
  ps_requester_type : string;
}.
#[global] Instance ParentSpec_eq_dec : EqDecision ParentSpec. Proof. solve_decision. Defined.

(** A [SandboxLease] with all the metadata admission reads; absent maps read as
    empty ones. *)
Record ParentLease : Type := {
  pl_name : string;
  pl_namespace : option string;
  pl_uid : option string;
  pl_resource_version : option string;
  pl_generation : option Z;
  pl_labels : gmap string string;
  pl_annotations : gmap string string;
  pl_finalizers : option (list string);
  pl_creation_timestamp : option string;
  pl_deletion_timestamp : option string;
  pl_spec : ParentSpec;
  pl_status : option SandboxLeaseStatus;
}.
#[global] Instance ParentLease_eq_dec : EqDecision ParentLease. Proof. solve_decision. Defined.

Definition normalized_finalizers (o : ParentLease) : list string := default [] (pl_finalizers o).

Definition parent_stamped (o : ParentLease) (uid rv created : option string) : ParentLease :=
  {| pl_name := pl_name o; pl_namespace := pl_namespace o; pl_uid := uid; pl_resource_version := rv;
     pl_generation := pl_generation o; pl_labels := pl_labels o; pl_annotations := pl_annotations o;
     pl_finalizers := pl_finalizers o; pl_creation_timestamp := created;
     pl_deletion_timestamp := pl_deletion_timestamp o; pl_spec := pl_spec o; pl_status := pl_status o |}.

Definition parent_deleting (o : ParentLease) (at_ : string) : ParentLease :=
  {| pl_name := pl_name o; pl_namespace := pl_namespace o; pl_uid := pl_uid o;
     pl_resource_version := pl_resource_version o; pl_generation := pl_generation o; pl_labels := pl_labels o;
     pl_annotations := pl_annotations o; pl_finalizers := pl_finalizers o;
     pl_creation_timestamp := pl_creation_timestamp o;
     pl_deletion_timestamp := Some (default at_ (pl_deletion_timestamp o)); pl_spec := pl_spec o;
     pl_status := pl_status o |}.

Definition with_parent_annotations (o : ParentLease) (annotations : gmap string string) : ParentLease :=
  {| pl_name := pl_name o; pl_namespace := pl_namespace o; pl_uid := pl_uid o;
     pl_resource_version := pl_resource_version o; pl_generation := pl_generation o; pl_labels := pl_labels o;
     pl_annotations := annotations; pl_finalizers := pl_finalizers o;
     pl_creation_timestamp := pl_creation_timestamp o; pl_deletion_timestamp := pl_deletion_timestamp o;
     pl_spec := pl_spec o; pl_status := pl_status o |}.

Definition with_parent_finalizers (o : ParentLease) (finalizers : option (list string)) : ParentLease :=
  {| pl_name := pl_name o; pl_namespace := pl_namespace o; pl_uid := pl_uid o;
     pl_resource_version := pl_resource_version o; pl_generation := pl_generation o; pl_labels := pl_labels o;
     pl_annotations := pl_annotations o; pl_finalizers := finalizers;
     pl_creation_timestamp := pl_creation_timestamp o; pl_deletion_timestamp := pl_deletion_timestamp o;
     pl_spec := pl_spec o; pl_status := pl_status o |}.

Definition with_parent_status (o : ParentLease) (status : SandboxLeaseStatus) : ParentLease :=
  {| pl_name := pl_name o; pl_namespace := pl_namespace o; pl_uid := pl_uid o;
     pl_resource_version := pl_resource_version o; pl_generation := pl_generation o; pl_labels := pl_labels o;
     pl_annotations := pl_annotations o; pl_finalizers := pl_finalizers o;
     pl_creation_timestamp := pl_creation_timestamp o; pl_deletion_timestamp := pl_deletion_timestamp o;
     pl_spec := pl_spec o; pl_status := Some status |}.

(** The same object as the access ledger reads it. *)
Definition gate_view (o : ParentLease) : SandboxLease :=
  {| sbx_name := pl_name o; sbx_namespace := pl_namespace o; sbx_uid := pl_uid o;
     sbx_annotations := pl_annotations o; sbx_deletion_timestamp := pl_deletion_timestamp o;
     sbx_pool_ref := ps_pool_ref (pl_spec o); sbx_alias := ps_alias (pl_spec o);
     sbx_requester := ps_requester (pl_spec o);
     sbx_status := (fun st => {| sbx_phase := ls_phase st; sbx_conditions := ls_conditions st;
                                 sbx_expires_at := ls_expires_at st; sbx_placement := ls_placement st;
                                 sbx_target := ls_target st |}) <$> pl_status o |}.

(** ** Writes *)

(** The operations of the JSON patches on a parent. *)
Inductive parent_op : Type :=
| PTestUid (value : string)
| PTestVersion (value : string)
| PTestAnnotation (key value : string)
| PReplaceAnnotation (key value : string)
| PAddAnnotation (key value : string)
| PSetFinalizers (value : list string)
| PSetStatus (value : SandboxLeaseStatus).

(** [add] below [/metadata/annotations] fails when the object has none. *)
Definition apply_parent_op (o : ParentLease) (op : parent_op) : option ParentLease :=
  match op with
  | PTestUid v => if bool_decide (pl_uid o = Some v) then Some o else None
  | PTestVersion v => if bool_decide (pl_resource_version o = Some v) then Some o else None
  | PTestAnnotation k v => if bool_decide (pl_annotations o !! k = Some v) then Some o else None
  | PReplaceAnnotation k v =>
      if bool_decide (is_Some (pl_annotations o !! k)) then Some (with_parent_annotations o (<[k := v]> (pl_annotations o)))
      else None
  | PAddAnnotation k v =>
      if bool_decide (pl_annotations o = ∅) then None
      else Some (with_parent_annotations o (<[k := v]> (pl_annotations o)))
  | PSetFinalizers fs => Some (with_parent_finalizers o (match fs with [] => None | _ => Some fs end))
  | PSetStatus st => Some (with_parent_status o st)
  end.

Fixpoint apply_parent_ops (ops : list parent_op) (o : ParentLease) : option ParentLease :=
  match ops with
  | [] => Some o
  | op :: ops => match apply_parent_op o op with Some o => apply_parent_ops ops o | None => None end
  end.

(** ** The server *)

Record Store : Type := { parents : gmap string ParentLease; tokens : gmap string Lease; next : Z }.

Definition put_parent (s : Store) (o : ParentLease) : Store :=
  {| parents := <[pl_name o := o]> (parents s); tokens := tokens s; next := next s + 1 |}.
Definition drop_parent (s : Store) (name : string) : Store :=
  {| parents := delete name (parents s); tokens := tokens s; next := next s + 1 |}.
Definition put_token (s : Store) (o : Lease) : Store :=
  {| parents := parents s; tokens := <[l_name o := o]> (tokens s); next := next s + 1 |}.
Definition drop_token (s : Store) (name : string) : Store :=
  {| parents := parents s; tokens := delete name (tokens s); next := next s + 1 |}.

(** A selector: every label must have the value. *)
Definition selected (labels : gmap string string) (selector : list (string * string)) : bool :=
  forallb (fun kv => bool_decide (labels !! kv.1 = Some kv.2)) selector.

(** Storing a changed object: a terminating object without finalizers goes. *)
Definition store_parent (s : Store) (o o' : ParentLease) : Store * ParentLease :=
  if bool_decide (o' = o) then (s, o)
  else
    let o' := parent_stamped o' (pl_uid o) (Some (version (next s))) (pl_creation_timestamp o) in
    if is_some (pl_deletion_timestamp o') && bool_decide (normalized_finalizers o' = [])
    then (drop_parent s (pl_name o), o')
    else (put_parent s o', o').

(** Requests.  [ParentMerge] is a merge patch with a version precondition that
    sets one annotation.  The two calls of the access ledger are answered by that
    component. *)
Inductive areq : Type -> Type :=
| ParentGet (name : string) : areq (result ParentLease kube_error)
| ParentList (selector : list (string * string)) : areq (result (list ParentLease) kube_error)
| ParentCreate (o : ParentLease) : areq (result ParentLease kube_error)
| ParentPatch (name : string) (ops : list parent_op) : areq (result ParentLease kube_error)
| ParentMerge (name rv key value : string) : areq (result ParentLease kube_error)
| ParentDelete (name uid rv : string) : areq (result unit kube_error)
| TokenGet (name : string) : areq (result Lease kube_error)
| TokenList (selector : list (string * string)) : areq (result (list Lease) kube_error)
| TokenCreate (o : Lease) : areq (result Lease kube_error)
| TokenDelete (name uid : string) (rv : option string) : areq (result unit kube_error)
| GatePrepare (lease : ParentLease) : areq (result AccessGateReference AccessLedgerError)
| GateRemove (lease : ParentLease) : areq (result unit AccessLedgerError)
| ReadClock : areq Z.

Definition find_parent (s : Store) (name : string) : result ParentLease kube_error :=
  match parents s !! name with Some o => Ok o | None => Err not_found end.

Definition find_token (s : Store) (name : string) : result Lease kube_error :=
  match tokens s !! name with Some o => Ok o | None => Err not_found end.

(** What the server does with a write at its own time [at_], and its answer. *)
Definition create_parent (at_ : string) (s : Store) (o : ParentLease) : Store * result ParentLease kube_error :=
  match parents s !! pl_name o with
  | Some _ => (s, Err (Api 409 None))
  | None =>
      let o := parent_stamped o (Some (fresh_uid (next s))) (Some (version (next s))) (Some at_) in
      (put_parent s o, Ok o)
  end.

Definition patch_parent (s : Store) (name : string) (ops : list parent_op) : Store * result ParentLease kube_error :=
  match parents s !! name with
  | None => (s, Err not_found)
  | Some o =>
      match apply_parent_ops ops o with
      | None => (s, Err (Api 422 None))
      | Some o' => let '(s, o') := store_parent s o o' in (s, Ok o')
      end
  end.

Definition merge_parent (s : Store) (name rv key value : string) : Store * result ParentLease kube_error :=
  match parents s !! name with
  | None => (s, Err not_found)
  | Some o =>
      if bool_decide (pl_resource_version o = Some rv) then
        let '(s, o') := store_parent s o (with_parent_annotations o (<[key := value]> (pl_annotations o))) in (s, Ok o')
      else (s, Err (Api 409 None))
  end.

Definition delete_parent (at_ : string) (s : Store) (name uid rv : string) : Store * result unit kube_error :=
  match parents s !! name with
  | None => (s, Err not_found)
  | Some o =>
      if bool_decide (pl_uid o = Some uid /\ pl_resource_version o = Some rv) then
        match normalized_finalizers o with
        | [] => (drop_parent s name, Ok tt)
        | _ => (fst (store_parent s o (parent_deleting o at_)), Ok tt)
        end
      else (s, Err (Api 409 None))
  end.

Definition create_token (s : Store) (o : Lease) : Store * result Lease kube_error :=
  match tokens s !! l_name o with
  | Some _ => (s, Err (Api 409 None))
  | None =>
      let o := stamped o (Some (fresh_uid (next s))) (Some (version (next s))) in (put_token s o, Ok o)
  end.

Definition delete_token (s : Store) (name uid : string) (rv : option string) : Store * result unit kube_error :=
  match tokens s !! name with
  | None => (s, Err not_found)
  | Some o =>
      if bool_decide (l_uid o = Some uid) && match rv with Some rv => bool_decide (l_resource_version o = Some rv) | None => true end
      then (drop_token s name, Ok tt) else (s, Err (Api 409 None))
  end.

(** The store after a request. *)
Definition effect {X} (at_ : string) (s : Store) (q : areq X) : Store :=
  match q with
  | ParentCreate o => fst (create_parent at_ s o)
  | ParentPatch name ops => fst (patch_parent s name ops)
  | ParentMerge name rv key value => fst (merge_parent s name rv key value)
  | ParentDelete name uid rv => fst (delete_parent at_ s name uid rv)
  | TokenCreate o => fst (create_token s o)
  | TokenDelete name uid rv => fst (delete_token s name uid rv)
  | _ => s
  end.

(** The server's own answer; [None] for the calls it does not answer. *)
Definition answer {X} (at_ : string) (s : Store) (q : areq X) : option X :=
  match q with
  | ParentGet name => Some (find_parent s name)
  | ParentList sel => Some (Ok (List.filter (fun o => selected (pl_labels o) sel) (map snd (btree_iter (parents s)))))
  | ParentCreate o => Some (snd (create_parent at_ s o))
  | ParentPatch name ops => Some (snd (patch_parent s name ops))
  | ParentMerge name rv key value => Some (snd (merge_parent s name rv key value))
  | ParentDelete name uid rv => Some (snd (delete_parent at_ s name uid rv))
  | TokenGet name => Some (find_token s name)
  | TokenList sel => Some (Ok (List.filter (fun o => selected (l_labels o) sel) (map snd (btree_iter (tokens s)))))
  | TokenCreate o => Some (snd (create_token s o))
  | TokenDelete name uid rv => Some (snd (delete_token s name uid rv))
  | GatePrepare _ | GateRemove _ | ReadClock => None
  end.

(** ** Programs *)

(** The two bounds of [await_admission_stage_until]. *)
Inductive interruption : Type := ShuttingDown | DeadlineElapsed.

(** [AStage] is a request of a stage that may be abandoned while it is under
    way, [APoll] a point where the bounds are looked at. *)
Inductive aprog (R : Type) : Type :=
| ARet (r : R)
| ACall {X : Type} (q : areq X) (k : X -> aprog R)
| AStage {X : Type} (q : areq X) (k : X -> aprog R) (d : interruption -> aprog R)
| APoll (k : option interruption -> aprog R).
Arguments ARet {R} r.
Arguments ACall {R X} q k.
Arguments AStage {R X} q k d.
Arguments APoll {R} k.

Fixpoint abind {A B} (p : aprog A) (f : A -> aprog B) : aprog B :=
  match p with
  | ARet a => f a
  | ACall q k => ACall q (fun r => abind (k r) f)
  | AStage q k d => AStage q (fun r => abind (k r) f) (fun e => abind (d e) f)
  | APoll k => APoll (fun o => abind (k o) f)
  end.

Fixpoint droppable {A} (p : aprog A) : aprog (result A interruption) :=
  match p with
  | ARet a => ARet (Ok a)
  | ACall q k => AStage q (fun r => droppable (k r)) (fun e => ARet (Err e))
  | AStage q k _ => AStage q (fun r => droppable (k r)) (fun e => ARet (Err e))
  | APoll k => APoll (fun o => droppable (k o))
  end.

Definition await_admission_stage_until {A} (p : aprog A) : aprog (result A interruption) :=
  APoll (fun o => match o with Some e => ARet (Err e) | None => droppable p end).

Definition acall {X} (q : areq X) : aprog X := ACall q ARet.

Notation "'ado' x := p 'in' k" := (abind p (fun x => k))
  (at level 10, x pattern, p at level 100, k at level 200,
   format "'[v' 'ado'  x  :=  p  'in' '/' k ']'") : kobe_scope.
Notation "'ado?' x := p 'in' k" :=
  (abind p (fun r => match r with Ok x => k | Err e => ARet (Err e) end))
  (at level 10, x pattern, p at level 100, k at level 200,
   format "'[v' 'ado?'  x  :=  p  'in' '/' k ']'") : kobe_scope.
