(* ===== verification/Admission.v ===== *)
(** * Admission: reserving, admitting, cancelling and reaping a Sandbox lease

    Model of the admission path of [src/api/sandbox.rs]: the names and shapes of
    reservation tokens, the durable set of tokens an admitted lease carries, the
    acquisition of an alias and a quota slot, the fenced admission patch and the
    cancellation it races with, the deletion of a lease that was never admitted,
    the release of tokens, the reapers, and the handlers that create and release
    a lease; and [finish_release] of [src/controllers/sandbox.rs], which returns
    the tokens of a lease whose footprint was proven absent.  SHA-256 and
    [serde_json] are parameters. *)

From S2P Require Import Prelude Text Durations PoolManager Quantity Policy SandboxObjects SandboxLifecycle LedgerApi AccessLedger SandboxAccess AdmissionApi.

Local Open Scope kobe_scope.

(** ** Constants *)

Definition REQUESTER_HASH_LABEL : string := "kobe.kunobi.ninja/requester-hash".
Definition SANDBOX_POOL_LABEL : string := "kobe.kunobi.ninja/sandbox-pool".
Definition SANDBOX_ALIAS_LABEL : string := "kobe.kunobi.ninja/alias".
Definition SANDBOX_RESERVATION_TYPE_LABEL : string := "kobe.kunobi.ninja/sandbox-reservation".
Definition SANDBOX_RESERVATION_LEASE_UID_LABEL : string := "kobe.kunobi.ninja/sandbox-lease-uid".
Definition SANDBOX_RESERVATION_LEASE_NAME_ANNOTATION : string := "kobe.kunobi.ninja/sandbox-lease-name".
Definition SANDBOX_RESERVATIONS_ANNOTATION : string := "kobe.kunobi.ninja/sandbox-reservations".
Definition SANDBOX_RESERVATION_QUOTA : string := "quota".
Definition SANDBOX_RESERVATION_ALIAS : string := "alias".
Definition MAX_SANDBOX_CONCURRENCY_SLOTS : Z := 256.
Definition SANDBOX_ADMISSION_ANNOTATION : string := "kobe.kunobi.ninja/sandbox-admission".
Definition SANDBOX_ADMISSION_PENDING : string := "pending".
Definition SANDBOX_ADMISSION_ADMITTED : string := "admitted".
Definition SANDBOX_ADMISSION_CANCELLED : string := "cancelled".
Definition SANDBOX_RELEASE_REQUESTED_AT_ANNOTATION : string := "kobe.kunobi.ninja/sandbox-release-requested-at".
Definition SANDBOX_CREATE_KEY_ANNOTATION : string := "kobe.kunobi.ninja/sandbox-create-key".
Definition SANDBOX_CREATE_INTENT_ANNOTATION : string := "kobe.kunobi.ninja/sandbox-create-intent".
Definition SANDBOX_LEASE_FINALIZER : string := "kobe.kunobi.ninja/sandbox-cleanup".
Definition SANDBOX_PENDING_CANCEL_DEADLINE_SECS : Z := 600.

(** ** Errors *)

Inductive SandboxLeaseMutationError : Type :=
| MissingUid
| MissingResourceVersion
| MissingCreationTimestamp
| ProvisioningDeadlineNotCommitted
| AdmissionDeadlineExceeded
| AdmissionShuttingDown
| LeaseShapeChanged
| UidChanged
| UnexpectedAdmissionState
| AdmissionNotCommitted
| DeletionNotConfirmed
| ReservationDeletionNotConfirmed
| MissingReservationNamespace
| ReservationShapeChanged (name reason : string)
| ReservationProvenanceChanged (reason : string)
| AccessGateProvenanceChanged
| LedgerFailed (e : AccessLedgerError)
| LifecycleFailed (e : SandboxLifecycleError)
| ProvenanceFailed (e : SandboxProvenanceError)
| KubeFailed (e : kube_error).

Definition interrupted (i : interruption) : SandboxLeaseMutationError :=
  match i with ShuttingDown => AdmissionShuttingDown | DeadlineElapsed => AdmissionDeadlineExceeded end.

Definition kube_mutation {A} (r : result A kube_error) : result A SandboxLeaseMutationError :=
  match r with Ok a => Ok a | Err e => Err (KubeFailed e) end.
Definition ledger_mutation {A} (r : result A AccessLedgerError) : result A SandboxLeaseMutationError :=
  match r with Ok a => Ok a | Err e => Err (LedgerFailed e) end.

Inductive AdmissionReservationError : Type :=
| QuotaExhausted
| AliasTaken
| MissingLeaseUid
| NoReservationNamespace
| TokenDeletionNotConfirmed
| TokenRequestFailed (e : kube_error).

(** ** Reservation names *)

Inductive SandboxReservationKind : Type := Quota | Alias.
#[global] Instance SandboxReservationKind_eq_dec : EqDecision SandboxReservationKind. Proof. solve_decision. Defined.

Definition quota_reservation_name (principal : string) (slot : Z) : string :=
  "sbx-quota-" +:+ principal +:+ "-" +:+ show_uint slot.

Definition alias_reservation_name (principal alias : string) : string :=
  "sbx-alias-" +:+ principal +:+ "-" +:+ alias.

(** [str::rsplit_once]. *)
Fixpoint rsplit_once (c : ascii) (s : string) : option (string * string) :=
  match s with
  | EmptyString => None
  | String a s =>
      match rsplit_once c s with
      | Some (l, r) => Some (String a l, r)
      | None => if Ascii.eqb a c then Some ("", s) else None
      end
  end.

(** [raw.parse::<u32>()]: an optional sign, then digits. *)
Definition parse_u32 (s : string) : option Z :=
  match s with
  | String "+" rest => parse_uint u32_max rest
  | _ => parse_uint u32_max s
  end.

Definition parsed_quota_reservation_name (name : string) : option (string * Z) :=
  raw ← strip_prefix "sbx-" name;
  raw ← strip_prefix SANDBOX_RESERVATION_QUOTA raw;
  raw ← strip_prefix "-" raw;
  '(principal, raw_slot) ← rsplit_once "-" raw;
  slot ← parse_u32 raw_slot;
  if (slot <? MAX_SANDBOX_CONCURRENCY_SLOTS) && String.eqb (quota_reservation_name principal slot) name
  then Some (principal, slot) else None.

Definition quota_reservation_slot (name principal : string) : option Z :=
  '(encoded_principal, slot) ← parsed_quota_reservation_name name;
  if String.eqb encoded_principal principal then Some slot else None.

Definition expected_reservation_kind (name principal : string) (alias : option string)
  : option SandboxReservationKind :=
  if is_some (quota_reservation_slot name principal) then Some Quota
  else
    alias ← alias;
    if String.eqb (alias_reservation_name principal alias) name then Some Alias else None.

(** ** The token set an admitted lease carries *)

Record AdmissionReservation : Type := { ar_kind : SandboxReservationKind; ar_name : string; ar_uid : string }.
#[global] Instance AdmissionReservation_eq_dec : EqDecision AdmissionReservation. Proof. solve_decision. Defined.

Definition kind_rank (k : SandboxReservationKind) : Z := match k with Quota => 0 | Alias => 1 end.

(** The comparison of [sort_by]: kind, then name, then UID. *)
Definition reservation_le (a b : AdmissionReservation) : Prop :=
  kind_rank (ar_kind a) < kind_rank (ar_kind b)
  \/ (ar_kind a = ar_kind b
      /\ ((String.le (ar_name a) (ar_name b) /\ ar_name a <> ar_name b)
          \/ (ar_name a = ar_name b /\ String.le (ar_uid a) (ar_uid b)))).
#[global] Instance reservation_le_dec : RelDecision reservation_le.
Proof. intros a b. unfold reservation_le. apply _. Defined.

Section Admission.
(** [principal_hash_for], the digest of the requester's identity; the codecs of
    [serde_json]; RFC 3339 times, printed by [to_rfc3339] and by
    [to_rfc3339_opts(AutoSi, true)], and the instants [chrono] can represent. *)
Context (principal_hash_for : SandboxPrincipal -> string).
Context `{C : Codec} {reservations_json : Json (list AdmissionReservation)}.
Context (parse_rfc3339 : string -> option Z) (to_rfc3339 to_rfc3339_z : Z -> string) (representable : Z -> bool).
(** The namespace of the parents, and the dedicated one of the tokens. *)
Context (lease_ns ledger_ns : string).

Definition parent_principal (lease : ParentLease) : string := principal_hash_for (ps_requester (pl_spec lease)).
Definition parent_alias (lease : ParentLease) : option string := ps_alias (pl_spec lease).
Definition admission_marker (lease : ParentLease) : option string := pl_annotations lease !! SANDBOX_ADMISSION_ANNOTATION.

(** The loop of [canonical_reservation_provenance]: the names and UIDs seen, and
    the numbers of quota and alias tokens. *)
Fixpoint check_reservations (principal : string) (alias : option string) (names uids : list string)
    (quota aliases : nat) (rs : list AdmissionReservation) : result (nat * nat) SandboxLeaseMutationError :=
  match rs with
  | [] => Ok (quota, aliases)
  | r :: rs =>
      let? _ := deny_if (String.eqb (ar_uid r) "" || bool_decide (ar_name r ∈ names) || bool_decide (ar_uid r ∈ uids))
                  (ReservationProvenanceChanged "reservation name and UID must be non-empty and unique") in
      let? derived := ok_or (expected_reservation_kind (ar_name r) principal alias)
                        (ReservationProvenanceChanged
                           ("reservation " +:+ ar_name r +:+ " is not derived from the admitted lease")) in
      let? _ := deny_if (negb (bool_decide (derived = ar_kind r)))
                  (ReservationProvenanceChanged ("reservation " +:+ ar_name r +:+ " kind changed")) in
      match ar_kind r with
      | Quota => check_reservations principal alias (ar_name r :: names) (ar_uid r :: uids) (S quota) aliases rs
      | Alias => check_reservations principal alias (ar_name r :: names) (ar_uid r :: uids) quota (S aliases) rs
      end
  end.

Definition canonical_reservation_provenance (lease : ParentLease) (rs : list AdmissionReservation)
  : result (list AdmissionReservation) SandboxLeaseMutationError :=
  let principal := parent_principal lease in
  let with_alias := if is_some (parent_alias lease) then 1%nat else 0%nat in
  let? _ := deny_if (negb (Nat.eqb (length rs) (1 + with_alias)))
              (ReservationProvenanceChanged "reservation count does not match quota plus optional alias") in
  let? counts := check_reservations principal (parent_alias lease) [] [] 0 0 rs in
  let? _ := deny_if (negb (Nat.eqb (fst counts) 1) || negb (Nat.eqb (snd counts) with_alias))
              (ReservationProvenanceChanged "reservation kinds do not match quota plus optional alias") in
  Ok (merge_sort reservation_le rs).

Definition encoded_reservation_provenance (lease : ParentLease) (rs : list AdmissionReservation)
  : result string SandboxLeaseMutationError :=
  let? canonical := canonical_reservation_provenance lease rs in
  ok_or (to_json canonical) (ReservationProvenanceChanged "serialization").

Definition persisted_reservation_provenance (lease : ParentLease)
  : result (list AdmissionReservation) SandboxLeaseMutationError :=
  let? encoded := ok_or (pl_annotations lease !! SANDBOX_RESERVATIONS_ANNOTATION)
                    (ReservationProvenanceChanged "admitted lease has no persisted reservation set") in
  let? rs := ok_or (from_json encoded) (ReservationProvenanceChanged "deserialization") in
  canonical_reservation_provenance lease rs.

Definition admitted_reservation_provenance_is_valid (lease : ParentLease) : bool :=
  bool_decide (admission_marker lease = Some SANDBOX_ADMISSION_ADMITTED)
  && match persisted_reservation_provenance lease with Ok _ => true | Err _ => false end.

(** ** Shapes *)

Definition require_provisioning_deadline (lease : ParentLease) (expected : string)
  : result unit SandboxLeaseMutationError :=
  if str_opt_eqb (pl_status lease ≫= ls_provisioning_deadline) (Some expected) then Ok tt
  else Err ProvisioningDeadlineNotCommitted.

Definition validate_lease_shape_base (expected actual : ParentLease) : result unit SandboxLeaseMutationError :=
  let? _ := deny_if (negb (String.eqb (pl_name actual) (pl_name expected))
                     || negb (bool_decide (pl_namespace actual = pl_namespace expected))
                     || negb (bool_decide (pl_spec actual = pl_spec expected))
                     || negb (bool_decide (normalized_finalizers actual = normalized_finalizers expected)))
              LeaseShapeChanged in
  let? _ := deny_if (match pl_uid expected with
                     | Some uid => negb (bool_decide (pl_uid actual = Some uid))
                     | None => false
                     end) UidChanged in
  let? _ := deny_if (is_none (pl_uid actual)) MissingUid in
  let? _ := deny_if (is_none (pl_resource_version actual)) MissingResourceVersion in
  let? _ := deny_if (negb (bool_decide (pl_labels expected ⊆ pl_labels actual))) LeaseShapeChanged in
  match pl_status expected ≫= ls_provisioning_deadline with
  | Some deadline => require_provisioning_deadline actual deadline
  | None => Ok tt
  end.

Definition validate_lease_shape (expected actual : ParentLease) (admission : string)
  : result unit SandboxLeaseMutationError :=
  let? _ := validate_lease_shape_base expected actual in
  deny_if (negb (bool_decide (admission_marker actual = Some admission))) UnexpectedAdmissionState.

(** A status no controller has touched. *)
Definition untouched_status (st : SandboxLeaseStatus) : bool :=
  bool_decide (ls_phase st = SandboxLeasePhase.Pending)
  && is_none (ls_observed_generation st) && is_none (ls_ready_at st) && is_none (ls_expires_at st)
  && is_none (ls_release_cause st) && is_none (ls_placement st) && is_none (ls_target st)
  && bool_decide (ls_conditions st = []).

Definition pristine_pending_lease (lease : ParentLease) : result unit SandboxLeaseMutationError :=
  let? _ := deny_if (bool_decide (admission_marker lease = Some SANDBOX_ADMISSION_ADMITTED))
              UnexpectedAdmissionState in
  let? _ := deny_if (is_some (pl_annotations lease !! SANDBOX_RESERVATIONS_ANNOTATION)
                     || is_some (pl_annotations lease !! SANDBOX_RELEASE_REQUESTED_AT_ANNOTATION))
              (ReservationProvenanceChanged "unadmitted lease carries active lifecycle provenance") in
  match pl_status lease with
  | Some st => deny_if (negb (untouched_status st)) LeaseShapeChanged
  | None => Ok tt
  end.

Definition validate_lease_shape_unadmitted (expected actual : ParentLease) : result unit SandboxLeaseMutationError :=
  let? _ := pristine_pending_lease expected in
  let? _ := pristine_pending_lease actual in
  validate_lease_shape_base expected actual.

Definition has_cleanup_finalizer (lease : ParentLease) : bool :=
  existsb (String.eqb SANDBOX_LEASE_FINALIZER) (normalized_finalizers lease).

Definition without_sandbox_cleanup_finalizer (lease : ParentLease) : ParentLease :=
  with_parent_finalizers lease
    match List.filter (fun f => negb (String.eqb f SANDBOX_LEASE_FINALIZER)) (normalized_finalizers lease) with
    | [] => None
    | remaining => Some remaining
    end.

(** ** Tokens *)

Definition reservation_type (k : SandboxReservationKind) : string :=
  match k with Quota => SANDBOX_RESERVATION_QUOTA | Alias => SANDBOX_RESERVATION_ALIAS end.

Definition reservation_labels (type lease_uid principal : string) : gmap string string :=
  <[SANDBOX_RESERVATION_TYPE_LABEL := type]>
    (<[SANDBOX_RESERVATION_LEASE_UID_LABEL := lease_uid]> {[ REQUESTER_HASH_LABEL := principal ]}).

Definition build_admission_reservation (name type : string) (lease : ParentLease) (principal : string)
  : result Lease AdmissionReservationError :=
  let? lease_uid := ok_or (pl_uid lease) MissingLeaseUid in
  Ok {| l_name := name; l_namespace := Some ledger_ns; l_uid := None; l_resource_version := None;
        l_labels := reservation_labels type lease_uid principal;
        l_annotations := {[ SANDBOX_RESERVATION_LEASE_NAME_ANNOTATION := pl_name lease ]};
        l_owner_references := None; l_finalizers := None; l_deletion_timestamp := None;
        l_spec := Some LeaseSpec_default |}.

Definition nonempty (o : option string) : option string :=
  match o with Some u => if String.eqb u "" then None else Some u | None => None end.

Definition validate_reservation_shape (token : Lease) (lease : ParentLease) (lease_uid principal : string)
  : result SandboxReservationKind SandboxLeaseMutationError :=
  let fail reason := ReservationShapeChanged (l_name token) reason in
  let? kind := ok_or (expected_reservation_kind (l_name token) principal (parent_alias lease))
                 (fail "name is not an exact reservation derived from this lease") in
  let? _ := deny_if (negb (bool_decide (l_namespace token = Some ledger_ns))) (fail "namespace changed") in
  let? _ := deny_if (is_none (nonempty (l_uid token))) (fail "UID is missing") in
  let? _ := deny_if (negb (bool_decide (default [] (l_owner_references token) = [])))
              (fail "ownerReferences must be empty") in
  let? _ := deny_if (negb (bool_decide (default [] (l_finalizers token) = []))) (fail "finalizers must be empty") in
  let? _ := deny_if (negb (bool_decide (l_labels token = reservation_labels (reservation_type kind) lease_uid principal)))
              (fail "labels changed") in
  let? _ := deny_if (negb (bool_decide (l_annotations token = {[ SANDBOX_RESERVATION_LEASE_NAME_ANNOTATION := pl_name lease ]})))
              (fail "lease-name annotation changed") in
  let? _ := deny_if (negb (bool_decide (l_spec token = Some LeaseSpec_default))) (fail "Lease spec changed") in
  Ok kind.

(** The first loop of [verified_reservations_for_lease], over the whole
    selector result. *)
Fixpoint check_owned (lease : ParentLease) (lease_uid : string) (persisted : option (list AdmissionReservation))
    (quota_seen alias_seen : bool) (owned : list Lease) : result (list AdmissionReservation) SandboxLeaseMutationError :=
  match owned with
  | [] => Ok []
  | token :: owned =>
      let name := l_name token in
      let? kind := validate_reservation_shape token lease lease_uid (parent_principal lease) in
      let? _ := match List.find (fun r => String.eqb (ar_name r) name) (rev (default [] persisted)) with
                | Some expected =>
                    deny_if (negb (bool_decide (ar_kind expected = kind))
                             || negb (bool_decide (l_uid token = Some (ar_uid expected))))
                      (ReservationProvenanceChanged
                         ("reservation " +:+ name +:+ " no longer matches its admitted UID and kind"))
                | None => deny_if (is_some persisted)
                            (ReservationProvenanceChanged
                               ("reservation " +:+ name +:+ " was not committed at admission"))
                end in
      let? _ := deny_if (match kind with Quota => quota_seen | Alias => alias_seen end)
                  (ReservationShapeChanged name
                     ("more than one " +:+ reservation_type kind +:+ " reservation carries this lease UID")) in
      let? held := check_owned lease lease_uid persisted
                     (match kind with Quota => true | Alias => quota_seen end)
                     (match kind with Quota => alias_seen | Alias => true end) owned in
      Ok ({| ar_kind := kind; ar_name := name; ar_uid := default "" (l_uid token) |} :: held)
  end.

(** The second loop: every expected name the selector did not return. *)
Fixpoint check_missing (lease : ParentLease) (lease_uid : string) (held : list AdmissionReservation)
    (require_complete : bool) (expected : list AdmissionReservation)
  : aprog (result unit SandboxLeaseMutationError) :=
  match expected with
  | [] => ARet (Ok tt)
  | e :: expected =>
      if existsb (fun r => String.eqb (ar_name r) (ar_name e)) held
      then check_missing lease lease_uid held require_complete expected
      else
        ado found := acall (TokenGet (ar_name e)) in
        match found with
        | Err err =>
            if is_404 err then
              if require_complete
              then ARet (Err (ReservationProvenanceChanged ("reservation " +:+ ar_name e +:+ " is no longer live")))
              else check_missing lease lease_uid held require_complete expected
            else ARet (Err (KubeFailed err))
        | Ok current =>
            if negb (bool_decide (l_uid current = Some (ar_uid e))) then
              if require_complete
              then ARet (Err (ReservationProvenanceChanged ("reservation " +:+ ar_name e +:+ " was replaced")))
              else check_missing lease lease_uid held require_complete expected
            else
              ARet (let? kind := validate_reservation_shape current lease lease_uid (parent_principal lease) in
                    let? _ := deny_if (negb (bool_decide (kind = ar_kind e)))
                                (ReservationProvenanceChanged ("reservation " +:+ ar_name e +:+ " was replaced")) in
                    Err (ReservationProvenanceChanged
                           ("reservation " +:+ ar_name e +:+ " disappeared from an exact UID list")))
        end
  end.

Definition verified_reservations_for_lease (lease : ParentLease) (lease_uid : string)
    (persisted : option (list AdmissionReservation)) (require_complete : bool)
  : aprog (result (list AdmissionReservation) SandboxLeaseMutationError) :=
  if negb (bool_decide (pl_uid lease = Some lease_uid)) then ARet (Err UidChanged)
  else
    ado listed := acall (TokenList [(SANDBOX_RESERVATION_LEASE_UID_LABEL, lease_uid)]) in
    match kube_mutation listed with
    | Err e => ARet (Err e)
    | Ok owned =>
        match check_owned lease lease_uid persisted false false owned with
        | Err e => ARet (Err e)
        | Ok held =>
            ado? _ := check_missing lease lease_uid held require_complete (default [] persisted) in
            if require_complete && negb (Nat.eqb (length held) (length (default [] persisted)))
            then ARet (Err (ReservationProvenanceChanged "live reservation set is incomplete"))
            else ARet (Ok held)
        end
    end.

(** The GET that tells whether the exact token is gone. *)
Definition confirm_token_gone (r : AdmissionReservation) : aprog (result unit AdmissionReservationError) :=
  ado found := acall (TokenGet (ar_name r)) in
  ARet match found with
       | Err e => if is_404 e then Ok tt else Err (TokenRequestFailed e)
       | Ok current =>
           if negb (bool_decide (l_uid current = Some (ar_uid r))) then Ok tt else Err TokenDeletionNotConfirmed
       end.

Fixpoint release_admission_reservations (acquired : list AdmissionReservation)
  : aprog (result unit AdmissionReservationError) :=
  match acquired with
  | [] => ARet (Ok tt)
  | r :: acquired =>
      ado deleted := acall (TokenDelete (ar_name r) (ar_uid r) None) in
      match (match deleted with Ok _ => None | Err e => if is_404 e || is_409 e then None else Some e end) with
      | Some e => ARet (Err (TokenRequestFailed e))
      | None => ado? _ := confirm_token_gone r in release_admission_reservations acquired
      end
  end.

Definition release_reservations_for_lease (lease : ParentLease) (lease_uid : string)
  : aprog (result unit SandboxLeaseMutationError) :=
  if negb (bool_decide (pl_uid lease = Some lease_uid)) then ARet (Err UidChanged)
  else
    match (if bool_decide (admission_marker lease = Some SANDBOX_ADMISSION_ADMITTED)
           then let? rs := persisted_reservation_provenance lease in Ok (Some rs)
           else let? _ := pristine_pending_lease lease in Ok None) with
    | Err e => ARet (Err e)
    | Ok persisted =>
        ado? held := verified_reservations_for_lease lease lease_uid persisted false in
        ado released := release_admission_reservations held in
        ARet match released with
             | Ok _ => Ok tt
             | Err (TokenRequestFailed e) => Err (KubeFailed e)
             | Err _ => Err ReservationDeletionNotConfirmed
             end
    end.

(** ** Removing a lease that was never admitted *)

Definition finish_pending_ledger_cleanup (lease : ParentLease) (uid : string)
  : aprog (result unit SandboxLeaseMutationError) :=
  ado? _ := release_reservations_for_lease lease uid in
  ado removed := acall (GateRemove lease) in
  ARet (ledger_mutation removed).

(** The fenced DELETE and the GET that proves absence. *)
Definition delete_and_confirm (lease : ParentLease) (uid : string) (current : ParentLease)
  : aprog (result unit SandboxLeaseMutationError) :=
  match pl_resource_version current with
  | None => ARet (Err MissingResourceVersion)
  | Some rv =>
      ado deleted := acall (ParentDelete (pl_name current) uid rv) in
      ado after := acall (ParentGet (pl_name current)) in
      match after with
      | Err e => if is_404 e then finish_pending_ledger_cleanup lease uid else ARet (Err (KubeFailed e))
      | Ok remaining =>
          ARet (if negb (bool_decide (pl_uid remaining = Some uid)) then Err UidChanged
                else match deleted with Err e => Err (KubeFailed e) | Ok _ => Err DeletionNotConfirmed end)
      end
  end.

(** The patch that removes Kobe's finalizer, when the lease still carries it. *)
Definition strip_and_delete (lease : ParentLease) (uid : string) (current : ParentLease)
  : aprog (result unit SandboxLeaseMutationError) :=
  if has_cleanup_finalizer current then
    match pl_resource_version current with
    | None => ARet (Err MissingResourceVersion)
    | Some rv =>
        let expected := without_sandbox_cleanup_finalizer current in
        ado patched := acall (ParentPatch (pl_name current)
                               [PTestUid uid; PTestVersion rv; PSetFinalizers (normalized_finalizers expected)]) in
        match patched with
        | Ok patched =>
            match validate_lease_shape_unadmitted expected patched with
            | Err e => ARet (Err e)
            | Ok _ => delete_and_confirm lease uid patched
            end
        | Err patch_error =>
            ado reread := acall (ParentGet (pl_name current)) in
            match reread with
            | Ok reread =>
                match validate_lease_shape_unadmitted expected reread with
                | Err e => ARet (Err e)
                | Ok _ => delete_and_confirm lease uid reread
                end
            | Err e => if is_404 e then finish_pending_ledger_cleanup lease uid else ARet (Err (KubeFailed patch_error))
            end
        end
    end
  else delete_and_confirm lease uid current.

Definition delete_exact_pending_lease (lease : ParentLease) : aprog (result unit SandboxLeaseMutationError) :=
  match (let? _ := pristine_pending_lease lease in ok_or (pl_uid lease) MissingUid) with
  | Err e => ARet (Err e)
  | Ok uid =>
      ado found := acall (ParentGet (pl_name lease)) in
      match found with
      | Err e => if is_404 e then finish_pending_ledger_cleanup lease uid else ARet (Err (KubeFailed e))
      | Ok current =>
          if negb (bool_decide (pl_uid current = Some uid)) then ARet (Err UidChanged)
          else
            match (match validate_lease_shape_unadmitted lease current with
                   | Ok _ => Ok tt
                   | Err _ => validate_lease_shape_unadmitted (without_sandbox_cleanup_finalizer lease) current
                   end) with
            | Err e => ARet (Err e)
            | Ok _ => strip_and_delete lease uid current
            end
      end
  end.

Definition delete_exact_pending_lease_until (lease : ParentLease) : aprog (result unit SandboxLeaseMutationError) :=
  ado r := await_admission_stage_until (delete_exact_pending_lease lease) in
  ARet match r with Ok r => r | Err i => Err (interrupted i) end.

(** ** Acquiring *)

Definition counts_toward_advisory_quota (token : Lease) (principal : string) (max_concurrent_leases : Z) : bool :=
  match quota_reservation_slot (l_name token) principal with
  | Some slot => slot <? max_concurrent_leases
  | None => false
  end
  && bool_decide (l_labels token !! SANDBOX_RESERVATION_TYPE_LABEL = Some SANDBOX_RESERVATION_QUOTA)
  && bool_decide (l_labels token !! REQUESTER_HASH_LABEL = Some principal)
  && is_some (nonempty (l_labels token !! SANDBOX_RESERVATION_LEASE_UID_LABEL)).

Definition rollback_partial_reservations (lease : ParentLease) : aprog unit :=
  ado _ := delete_exact_pending_lease lease in ARet tt.

(** The CREATE of one token: acquired, taken, or failed. *)
Definition create_reservation (kind : SandboxReservationKind) (name principal : string) (lease : ParentLease)
  : aprog (result (option AdmissionReservation) AdmissionReservationError) :=
  match build_admission_reservation name (reservation_type kind) lease principal with
  | Err e => ARet (Err e)
  | Ok token =>
      ado created := acall (TokenCreate token) in
      match created with
      | Ok created =>
          match l_uid created with
          | Some uid => ARet (Ok (Some {| ar_kind := kind; ar_name := l_name created; ar_uid := uid |}))
          | None => ado _ := rollback_partial_reservations lease in ARet (Err MissingLeaseUid)
          end
      | Err e => ARet (if is_409 e then Ok None else Err (TokenRequestFailed e))
      end
  end.

(** The scan of the quota slots: a request that fails for another reason than a
    taken slot unwinds what was acquired. *)
Fixpoint scan_slots (principal : string) (lease : ParentLease) (acquired : list AdmissionReservation) (slots : list Z)
  : aprog (result (list AdmissionReservation) AdmissionReservationError) :=
  match slots with
  | [] => ado _ := rollback_partial_reservations lease in ARet (Err QuotaExhausted)
  | slot :: slots =>
      ado created := create_reservation Quota (quota_reservation_name principal slot) principal lease in
      match created with
      | Ok (Some r) => ARet (Ok (acquired ++ [r]))
      | Ok None => scan_slots principal lease acquired slots
      | Err (TokenRequestFailed e) =>
          ado _ := rollback_partial_reservations lease in ARet (Err (TokenRequestFailed e))
      | Err e => ARet (Err e)
      end
  end.

Definition slots_below (max : Z) : list Z := map Z.of_nat (seq 0 (Z.to_nat max)).

Definition acquire_quota (principal : string) (lease : ParentLease) (acquired : list AdmissionReservation)
    (max_concurrent_leases : Z) : aprog (result (list AdmissionReservation) AdmissionReservationError) :=
  ado listed := acall (TokenList [(SANDBOX_RESERVATION_TYPE_LABEL, SANDBOX_RESERVATION_QUOTA);
                                  (REQUESTER_HASH_LABEL, principal)]) in
  if match listed with
     | Ok existing =>
         max_concurrent_leases <=?
           u32_wrap (Z.of_nat (length (List.filter (fun t => counts_toward_advisory_quota t principal max_concurrent_leases)
                                         existing)))
     | Err _ => false
     end
  then ado _ := rollback_partial_reservations lease in ARet (Err QuotaExhausted)
  else scan_slots principal lease acquired (slots_below max_concurrent_leases).

Definition acquire_admission_reservations (lease : ParentLease) (identity : SandboxPrincipal) (alias : option string)
    (max_concurrent_leases : Z) : aprog (result (list AdmissionReservation) AdmissionReservationError) :=
  let principal := principal_hash_for identity in
  match alias with
  | None => acquire_quota principal lease [] max_concurrent_leases
  | Some alias =>
      ado created := create_reservation Alias (alias_reservation_name principal alias) principal lease in
      match created with
      | Ok (Some r) => acquire_quota principal lease [r] max_concurrent_leases
      | Ok None => ARet (Err AliasTaken)
      | Err e => ARet (Err e)
      end
  end.

(** ** Admitting and cancelling: two sides of one compare-and-swap *)

Definition build_sandbox_lease (id : string) (pool_ref : SandboxPoolReference)
    (authority : option SandboxPlacementAuthority) (ttl : string) (alias : option string)
    (identity : SandboxPrincipal) (requester_type : string) : ParentLease :=
  {| pl_name := id; pl_namespace := Some lease_ns; pl_uid := None; pl_resource_version := None;
     pl_generation := None;
     pl_labels := (match alias with Some a => <[SANDBOX_ALIAS_LABEL := a]> | None => fun m => m end)
                    (<[REQUESTER_HASH_LABEL := principal_hash_for identity]>
                       {[ SANDBOX_POOL_LABEL := pool_ref_name pool_ref ]});
     pl_annotations := {[ SANDBOX_ADMISSION_ANNOTATION := SANDBOX_ADMISSION_PENDING ]};
     pl_finalizers := Some [SANDBOX_LEASE_FINALIZER]; pl_creation_timestamp := None; pl_deletion_timestamp := None;
     pl_spec := {| ps_pool_ref := pool_ref; ps_placement_authority := authority; ps_ttl := ttl; ps_alias := alias;
                   ps_requester := identity; ps_requester_type := requester_type |};
     pl_status := None |}.

Record SandboxCreateIdentity : Type := { create_lease_id : string; key_digest : string; intent_digest : string }.

Definition with_sandbox_create_identity (lease : ParentLease) (create : option SandboxCreateIdentity) : ParentLease :=
  match create with
  | Some c => with_parent_annotations lease
                (<[SANDBOX_CREATE_INTENT_ANNOTATION := intent_digest c]>
                   (<[SANDBOX_CREATE_KEY_ANNOTATION := key_digest c]> (pl_annotations lease)))
  | None => lease
  end.

Definition with_deadline (st : SandboxLeaseStatus) (deadline : string) : SandboxLeaseStatus :=
  {| ls_phase := ls_phase st; ls_observed_generation := ls_observed_generation st;
     ls_provisioning_deadline := Some deadline; ls_ready_at := ls_ready_at st; ls_expires_at := ls_expires_at st;
     ls_extensions_count := ls_extensions_count st; ls_granted_extension_seconds := ls_granted_extension_seconds st;
     ls_release_cause := ls_release_cause st; ls_placement := ls_placement st; ls_target := ls_target st;
     ls_teardown := ls_teardown st; ls_conditions := ls_conditions st |}.

(** The UID and version every fenced patch of a parent tests. *)
Definition fence (lease : ParentLease) : result (string * string) SandboxLeaseMutationError :=
  let? uid := ok_or (pl_uid lease) MissingUid in
  let? rv := ok_or (pl_resource_version lease) MissingResourceVersion in
  Ok (uid, rv).

Definition persist_pending_provisioning_deadline (lease : ParentLease) (deadline : string)
  : aprog (result ParentLease SandboxLeaseMutationError) :=
  match (let? f := fence lease in
         let? _ := deny_if (negb (bool_decide (ls_phase (default default_sandbox_status (pl_status lease))
                                               = SandboxLeasePhase.Pending))) UnexpectedAdmissionState in
         Ok f) with
  | Err e => ARet (Err e)
  | Ok (uid, rv) =>
      let check o := let? _ := validate_lease_shape lease o SANDBOX_ADMISSION_PENDING in
                     let? _ := require_provisioning_deadline o deadline in
                     Ok o in
      let status := with_deadline (default default_sandbox_status (pl_status lease)) deadline in
      ado patched := acall (ParentPatch (pl_name lease) [PTestUid uid; PTestVersion rv; PSetStatus status]) in
      match patched with
      | Ok stamped => ARet (check stamped)
      | Err _ =>
          ado reread := acall (ParentGet (pl_name lease)) in
          ARet (let? current := kube_mutation reread in check current)
      end
  end.

Definition gate_reference_is (lease : ParentLease) (gate : AccessGateReference) : bool :=
  match persisted_gate_reference (gate_view lease) with
  | Ok actual => String.eqb (gate_ref_name actual) (gate_ref_name gate)
                 && String.eqb (gate_ref_uid actual) (gate_ref_uid gate)
  | Err _ => false
  end.

(** What an admitted object must carry to be this request's admission. *)
Definition check_admitted (lease actual : ParentLease) (rs : list AdmissionReservation) (gate : AccessGateReference)
    (changed : string) : result unit SandboxLeaseMutationError :=
  let? _ := validate_lease_shape lease actual SANDBOX_ADMISSION_ADMITTED in
  let? persisted := persisted_reservation_provenance actual in
  let? canonical := canonical_reservation_provenance lease rs in
  let? _ := deny_if (negb (bool_decide (persisted = canonical))) (ReservationProvenanceChanged changed) in
  deny_if (negb (gate_reference_is actual gate)) AccessGateProvenanceChanged.

Definition admit_sandbox_lease (lease : ParentLease) (rs : list AdmissionReservation) (gate : AccessGateReference)
  : aprog (result unit SandboxLeaseMutationError) :=
  match (let? f := fence lease in
         let? reservations := encoded_reservation_provenance lease rs in
         let? gate_provenance := ledger_mutation (encode_gate_reference gate) in
         Ok (f, reservations, gate_provenance)) with
  | Err e => ARet (Err e)
  | Ok (uid, rv, reservations, gate_provenance) =>
      ado patched := acall (ParentPatch (pl_name lease)
        [PTestUid uid; PTestVersion rv; PTestAnnotation SANDBOX_ADMISSION_ANNOTATION SANDBOX_ADMISSION_PENDING;
         PReplaceAnnotation SANDBOX_ADMISSION_ANNOTATION SANDBOX_ADMISSION_ADMITTED;
         PAddAnnotation SANDBOX_RESERVATIONS_ANNOTATION reservations;
         PAddAnnotation ACCESS_GATE_ANNOTATION gate_provenance]) in
      match patched with
      | Ok admitted =>
          ARet (check_admitted lease admitted rs gate "admission response changed the persisted reservation set")
      | Err patch_error =>
          ado reread := acall (ParentGet (pl_name lease)) in
          match reread with
          | Err e => ARet (Err (KubeFailed (if is_404 e then patch_error else e)))
          | Ok current =>
              if bool_decide (admission_marker current = Some SANDBOX_ADMISSION_ADMITTED) then
                ARet (check_admitted lease current rs gate
                        "lost admission response contains different reservation provenance")
              else if bool_decide (admission_marker current = Some SANDBOX_ADMISSION_PENDING) then
                match validate_lease_shape_unadmitted lease current with
                | Err e => ARet (Err e)
                | Ok _ =>
                    ado? _ := delete_exact_pending_lease current in
                    ARet (Err AdmissionNotCommitted)
                end
              else ARet (Err UnexpectedAdmissionState)
          end
      end
  end.

Inductive PendingAdmissionCancellation : Type :=
| Cancelled (lease : ParentLease)
| AdmissionWon (lease : ParentLease)
| Gone.

(** The attempts of [cancel_pending_admission]; the last patch error is reported
    when they are used up. *)
Fixpoint cancel_attempts (n : nat) (expected : ParentLease) (uid : string) (last : kube_error)
  : aprog (result PendingAdmissionCancellation SandboxLeaseMutationError) :=
  match n with
  | O => ARet (Err (KubeFailed last))
  | S n =>
      ado found := acall (ParentGet (pl_name expected)) in
      match found with
      | Err e => ARet (if is_404 e then Ok Gone else Err (KubeFailed e))
      | Ok current =>
          if negb (bool_decide (pl_uid current = Some uid)) then ARet (Err UidChanged)
          else if bool_decide (admission_marker current = Some SANDBOX_ADMISSION_ADMITTED) then
            ARet (let? _ := validate_lease_shape expected current SANDBOX_ADMISSION_ADMITTED in
                  Ok (AdmissionWon current))
          else if bool_decide (admission_marker current = Some SANDBOX_ADMISSION_CANCELLED) then
            ARet (let? _ := validate_lease_shape_unadmitted expected current in Ok (Cancelled current))
          else if bool_decide (admission_marker current = Some SANDBOX_ADMISSION_PENDING) then
            match (let? _ := validate_lease_shape_unadmitted expected current in
                   ok_or (pl_resource_version current) MissingResourceVersion) with
            | Err e => ARet (Err e)
            | Ok rv =>
                ado patched := acall (ParentPatch (pl_name expected)
                  [PTestUid uid; PTestVersion rv;
                   PTestAnnotation SANDBOX_ADMISSION_ANNOTATION SANDBOX_ADMISSION_PENDING;
                   PReplaceAnnotation SANDBOX_ADMISSION_ANNOTATION SANDBOX_ADMISSION_CANCELLED]) in
                match patched with
                | Ok cancelled =>
                    ARet (let? _ := validate_lease_shape current cancelled SANDBOX_ADMISSION_CANCELLED in
                          Ok (Cancelled cancelled))
                | Err e => cancel_attempts n expected uid e
                end
            end
          else ARet (Err UnexpectedAdmissionState)
      end
  end.

Definition cancel_pending_admission (expected : ParentLease)
  : aprog (result PendingAdmissionCancellation SandboxLeaseMutationError) :=
  match pl_uid expected with
  | None => ARet (Err MissingUid)
  | Some uid => cancel_attempts 2 expected uid Transport
  end.

Definition cancel_and_reap_pending_admission (lease : ParentLease)
  : aprog (result PendingAdmissionCancellation SandboxLeaseMutationError) :=
  ado? outcome := cancel_pending_admission lease in
  match outcome with
  | Cancelled cancelled =>
      ado? _ := delete_exact_pending_lease cancelled in ARet (Ok (Cancelled cancelled))
  | Gone =>
      match pl_uid lease with
      | None => ARet (Err MissingUid)
      | Some uid => ado? _ := release_reservations_for_lease lease uid in ARet (Ok Gone)
      end
  | AdmissionWon admitted => ARet (Ok (AdmissionWon admitted))
  end.

Inductive AdmissionResolution : Type := ResolvedAdmitted | ResolvedCancelled | HandedOff.

Definition check_resolved (lease admitted : ParentLease) (deadline : string)
    (expected : option (list AdmissionReservation)) (gate : option AccessGateReference)
  : result unit SandboxLeaseMutationError :=
  let? _ := require_provisioning_deadline admitted deadline in
  let? persisted := persisted_reservation_provenance admitted in
  let? _ := match expected with
            | None => Ok tt
            | Some rs =>
                let? canonical := canonical_reservation_provenance lease rs in
                deny_if (negb (bool_decide (persisted = canonical)))
                  (ReservationProvenanceChanged "timed-out admission committed different reservation provenance")
            end in
  match gate with
  | None => Ok tt
  | Some g =>
      let? actual := ledger_mutation (persisted_gate_reference (gate_view admitted)) in
      deny_if (negb (String.eqb (gate_ref_name actual) (gate_ref_name g)
                     && String.eqb (gate_ref_uid actual) (gate_ref_uid g))) AccessGateProvenanceChanged
  end.

(** [resolve_timed_out_admission]: retried on API failures until one of the
    bounds is reached, here at the latest after [attempts]. *)
Fixpoint resolve_timed_out_admission (attempts : nat) (lease : ParentLease) (deadline : string)
    (expected : option (list AdmissionReservation)) (gate : option AccessGateReference) : aprog AdmissionResolution :=
  match attempts with
  | O => ARet HandedOff
  | S attempts =>
      ado attempt := await_admission_stage_until (cancel_and_reap_pending_admission lease) in
      match attempt with
      | Err _ => ARet HandedOff
      | Ok (Err (KubeFailed _)) =>
          APoll (fun o => match o with
                          | Some _ => ARet HandedOff
                          | None => resolve_timed_out_admission attempts lease deadline expected gate
                          end)
      | Ok (Err _) => ARet HandedOff
      | Ok (Ok (Cancelled _)) | Ok (Ok Gone) => ARet ResolvedCancelled
      | Ok (Ok (AdmissionWon admitted)) =>
          ARet match check_resolved lease admitted deadline expected gate with
               | Ok _ => ResolvedAdmitted
               | Err _ => HandedOff
               end
      end
  end.

(** ** Repairing a drifted active lease *)

Definition target_has_identity (t : SandboxTargetProvenance) : bool :=
  is_some (tp_child_cluster_lease t) || is_some (tp_child_cluster_instance t) || is_some (tp_sandbox_template t)
  || is_some (tp_sandbox_warm_pool t) || is_some (tp_sandbox_claim t) || is_some (tp_sandbox t)
  || is_some (tp_pod t) || is_some (tp_service t).

Definition active_phase (p : SandboxLeasePhase.t) : bool :=
  match p with
  | SandboxLeasePhase.Provisioning | SandboxLeasePhase.Ready | SandboxLeasePhase.Releasing => true
  | _ => false
  end.

Definition proven_active_release_shape (lease : ParentLease)
  : result (list AdmissionReservation) SandboxLeaseMutationError :=
  let? status := ok_or (pl_status lease) LeaseShapeChanged in
  let? target := match require_release_safe_target_provenance status lease_ns with
                 | Ok t => Ok t
                 | Err e => Err (ProvenanceFailed e)
                 end in
  let? _ := deny_if (negb (active_phase (ls_phase status)) || negb (target_has_identity target)
                     || negb (has_cleanup_finalizer lease)) LeaseShapeChanged in
  let? _ := fence lease in
  persisted_reservation_provenance lease.

Definition validate_repaired_release (expected actual : ParentLease) (persisted : list AdmissionReservation)
    (requested_at : string) : result unit SandboxLeaseMutationError :=
  let? _ := deny_if (negb (String.eqb (pl_name actual) (pl_name expected))
                     || negb (bool_decide (pl_namespace actual = pl_namespace expected))
                     || negb (bool_decide (pl_uid actual = pl_uid expected))
                     || negb (bool_decide (pl_spec actual = pl_spec expected))
                     || negb (bool_decide (admission_marker actual = Some SANDBOX_ADMISSION_ADMITTED))
                     || negb (bool_decide (pl_annotations actual !! SANDBOX_RELEASE_REQUESTED_AT_ANNOTATION
                                           = Some requested_at))) LeaseShapeChanged in
  let? rs := persisted_reservation_provenance actual in
  deny_if (negb (bool_decide (rs = persisted))) LeaseShapeChanged.

Definition repair_admitted_release_intent (lease : ParentLease) (persisted : list AdmissionReservation)
  : aprog (result unit SandboxLeaseMutationError) :=
  match fence lease with
  | Err e => ARet (Err e)
  | Ok (uid, rv) =>
      ado? _ := verified_reservations_for_lease lease uid (Some persisted) true in
      ado now := acall ReadClock in
      let requested_at :=
        match pl_annotations lease !! SANDBOX_RELEASE_REQUESTED_AT_ANNOTATION with
        | Some value => if is_some (parse_rfc3339 value) then value else to_rfc3339 now
        | None => to_rfc3339 now
        end in
      ado patched := acall (ParentPatch (pl_name lease)
        [PTestUid uid; PTestVersion rv; PAddAnnotation SANDBOX_ADMISSION_ANNOTATION SANDBOX_ADMISSION_ADMITTED;
         PAddAnnotation SANDBOX_RELEASE_REQUESTED_AT_ANNOTATION requested_at]) in
      match patched with
      | Ok repaired => ARet (validate_repaired_release lease repaired persisted requested_at)
      | Err patch_error =>
          ado reread := acall (ParentGet (pl_name lease)) in
          ARet match reread with
               | Ok current =>
                   match validate_repaired_release lease current persisted requested_at with
                   | Ok _ => Ok tt
                   | Err _ => Err (KubeFailed patch_error)
                   end
               | Err _ => Err (KubeFailed patch_error)
               end
      end
  end.

(** ** Sweeps *)

Definition pending_admission_cancellation_due (created_at : option string) (now : Z) : bool :=
  match created_at ≫= parse_rfc3339 with
  | Some created => SANDBOX_PENDING_CANCEL_DEADLINE_SECS <=? num_seconds (now - created)
  | None => false
  end.

Inductive AdmissionSweepResolution : Type := Reaped | SweepAdmissionWon (name : string) | ReleaseRequested.

Definition sweep_outcome (outcome : PendingAdmissionCancellation) : AdmissionSweepResolution :=
  match outcome with AdmissionWon admitted => SweepAdmissionWon (pl_name admitted) | _ => Reaped end.

Definition reconcile_expired_admission_candidate (lease : ParentLease) (now : Z)
  : aprog (result (option AdmissionSweepResolution) SandboxLeaseMutationError) :=
  let should_cancel := bool_decide (admission_marker lease = Some SANDBOX_ADMISSION_PENDING)
                       && pending_admission_cancellation_due (pl_creation_timestamp lease) now in
  let should_finish_cancel := bool_decide (admission_marker lease = Some SANDBOX_ADMISSION_CANCELLED) in
  if negb should_cancel && negb should_finish_cancel then ARet (Ok None)
  else
    match pristine_pending_lease lease with
    | Ok _ =>
        if should_cancel then
          ado? outcome := cancel_and_reap_pending_admission lease in ARet (Ok (Some (sweep_outcome outcome)))
        else
          ado? _ := delete_exact_pending_lease lease in ARet (Ok (Some Reaped))
    | Err _ =>
        match proven_active_release_shape lease with
        | Err e => ARet (Err e)
        | Ok persisted =>
            ado? _ := repair_admitted_release_intent lease persisted in ARet (Ok (Some ReleaseRequested))
        end
    end.

(** Both sweeps only log what each candidate came to. *)
Fixpoint reconcile_candidates (now : Z) (leases : list ParentLease) : aprog unit :=
  match leases with
  | [] => ARet tt
  | lease :: leases =>
      ado _ := reconcile_expired_admission_candidate lease now in reconcile_candidates now leases
  end.

Definition reap_expired_pending_admissions_once (now : Z) : aprog unit :=
  ado listed := acall (ParentList []) in
  match listed with Ok leases => reconcile_candidates now leases | Err _ => ARet tt end.

Definition cancel_expired_pending_admissions (identity : SandboxPrincipal) (now : Z) : aprog unit :=
  ado listed := acall (ParentList [(REQUESTER_HASH_LABEL, principal_hash_for identity)]) in
  match listed with
  | Ok leases =>
      reconcile_candidates now (List.filter (fun l => principal_matches (ps_requester (pl_spec l)) identity) leases)
  | Err _ => ARet tt
  end.

(** ** Orphaned tokens *)

Record OrphanReservationIdentity : Type := {
  or_name : string;
  or_uid : string;
  or_resource_version : string;
  or_lease_name : string;
  or_lease_uid : string;
  or_principal : string;
}.

Definition hex32 (s : string) : bool :=
  (str_len s =? 32) && all_bytes (fun b => is_ascii_digit b || ((97 <=? byte_of b) && (byte_of b <=? 102))) s.

Definition orphan_name_matches (type name principal : string) : bool :=
  if String.eqb type SANDBOX_RESERVATION_QUOTA then is_some (quota_reservation_slot name principal)
  else if String.eqb type SANDBOX_RESERVATION_ALIAS then
    match strip_prefix ("sbx-" +:+ SANDBOX_RESERVATION_ALIAS +:+ "-" +:+ principal +:+ "-") name with
    | Some alias => is_valid_k8s_name alias && String.eqb (alias_reservation_name principal alias) name
    | None => false
    end
  else false.

Definition orphan_reservation_identity (token : Lease) : result OrphanReservationIdentity string :=
  let? _ := deny_if (negb (bool_decide (l_namespace token = Some ledger_ns))) "namespace changed" in
  let? _ := deny_if (negb (bool_decide (default [] (l_owner_references token) = []))) "ownerReferences must be empty" in
  let? _ := deny_if (negb (bool_decide (default [] (l_finalizers token) = []))) "finalizers must be empty" in
  let? _ := deny_if (negb (bool_decide (l_spec token = Some LeaseSpec_default))) "Lease spec changed" in
  let? uid := ok_or (nonempty (l_uid token)) "UID is missing" in
  let? rv := ok_or (nonempty (l_resource_version token)) "resourceVersion is missing" in
  let labels := l_labels token in
  let? _ := deny_if (negb (Nat.eqb (base.size labels) 3)) "labels changed" in
  let? principal := ok_or (p ← labels !! REQUESTER_HASH_LABEL; if hex32 p then Some p else None)
                      "requester hash is malformed" in
  let? lease_uid := ok_or (nonempty (labels !! SANDBOX_RESERVATION_LEASE_UID_LABEL))
                      "SandboxLease UID label is missing" in
  let? type := ok_or (labels !! SANDBOX_RESERVATION_TYPE_LABEL) "reservation type is missing" in
  let? _ := deny_if (negb (orphan_name_matches type (l_name token) principal))
              "name is not derived from its reservation type and principal" in
  let? _ := deny_if (negb (Nat.eqb (base.size (l_annotations token)) 1)) "annotations changed" in
  let? lease_name := ok_or (n ← l_annotations token !! SANDBOX_RESERVATION_LEASE_NAME_ANNOTATION;
                            if starts_with n LEASE_ID_PREFIX && is_valid_k8s_name n then Some n else None)
                       "SandboxLease name annotation is malformed" in
  Ok {| or_name := l_name token; or_uid := uid; or_resource_version := rv; or_lease_name := lease_name;
        or_lease_uid := lease_uid; or_principal := principal |}.

(** A parent that may own tokens it has not recorded yet. *)
Definition unrecorded_parent (p : ParentLease) : bool :=
  match pl_status p with Some st => consumes_capacity (ls_phase st) | None => true end
  && match persisted_reservation_provenance p with Ok _ => false | Err _ => true end.

(** What the sweep retains without looking at the token's own fields. *)
Definition retained_by_name (live : list ParentLease) (name : string) : bool :=
  match parsed_quota_reservation_name name with
  | Some (principal, _) => existsb (fun p => unrecorded_parent p && String.eqb (parent_principal p) principal) live
  | None => false
  end
  || existsb (fun p => unrecorded_parent p
                       && match parent_alias p with
                          | Some alias => String.eqb (alias_reservation_name (parent_principal p) alias) name
                          | None => false
                          end) live.

Definition persisted_token (live : list ParentLease) (name uid : string) : bool :=
  existsb (fun p => match persisted_reservation_provenance p with
                    | Ok rs => existsb (fun r => String.eqb (ar_name r) name && String.eqb (ar_uid r) uid) rs
                    | Err _ => false
                    end) live.

(** The DELETE of an orphan and the GET after it, whose outcome is only logged. *)
Definition delete_orphan (id : OrphanReservationIdentity) : aprog unit :=
  ado _ := acall (TokenDelete (or_name id) (or_uid id) (Some (or_resource_version id))) in
  ado _ := acall (TokenGet (or_name id)) in
  ARet tt.

Definition reap_orphan (live : list ParentLease) (token : Lease) : aprog unit :=
  if retained_by_name live (l_name token) then ARet tt
  else
    match orphan_reservation_identity token with
    | Err _ => ARet tt
    | Ok id =>
        if persisted_token live (or_name id) (or_uid id) then ARet tt
        else if existsb (fun p => String.eqb (pl_name p) (or_lease_name id)
                                  && bool_decide (pl_uid p = Some (or_lease_uid id))) live then ARet tt
        else
          ado found := acall (ParentGet (or_lease_name id)) in
          match found with
          | Ok parent => if bool_decide (pl_uid parent = Some (or_lease_uid id)) then ARet tt else delete_orphan id
          | Err e => if is_404 e then delete_orphan id else ARet tt
          end
    end.

Fixpoint reap_orphans (live : list ParentLease) (listed : list Lease) : aprog unit :=
  match listed with
  | [] => ARet tt
  | token :: listed => ado _ := reap_orphan live token in reap_orphans live listed
  end.

(** The ledger is listed first and the parents second. *)
Definition reap_orphaned_admission_reservations : aprog unit :=
  ado listed := acall (TokenList []) in
  match listed with
  | Err _ => ARet tt
  | Ok listed =>
      ado live := acall (ParentList []) in
      match live with Err _ => ARet tt | Ok live => reap_orphans live listed end
  end.

(** One pass of [run_sandbox_admission_reaper]. *)
Definition admission_reaper_pass : aprog unit :=
  ado now := acall ReadClock in
  ado _ := reap_expired_pending_admissions_once now in
  reap_orphaned_admission_reservations.

(** ** Creating a lease *)

Inductive CreateResponse : Type :=
| CreateAccepted (lease_id deadline : string)
| CreatePending (lease_id deadline : string)
| CreateReplayed (status : Z) (admission_pending : bool) (lease_id : string)
| CreateRefused (status : Z) (what : string).

Definition infra (what : string) : aprog CreateResponse := ARet (CreateRefused 503 what).

Definition sandbox_create_replay (lease : ParentLease) (identity : SandboxPrincipal) (create : SandboxCreateIdentity)
  : CreateResponse :=
  if principal_matches (ps_requester (pl_spec lease)) identity
     && bool_decide (pl_annotations lease !! SANDBOX_CREATE_KEY_ANNOTATION = Some (key_digest create))
     && bool_decide (pl_annotations lease !! SANDBOX_CREATE_INTENT_ANNOTATION = Some (intent_digest create))
  then
    let terminal := match pl_status lease with
                    | Some st => match ls_phase st with
                                 | SandboxLeasePhase.Released | SandboxLeasePhase.Expired
                                 | SandboxLeasePhase.Quarantined => true
                                 | _ => false
                                 end
                    | None => false
                    end in
    if terminal then CreateReplayed 200 false (pl_name lease)
    else CreateReplayed 202 (negb (bool_decide (admission_marker lease = Some SANDBOX_ADMISSION_ADMITTED))) (pl_name lease)
  else CreateRefused 409 "Sandbox create idempotency key is already bound to different intent".

(** What the handler has decided when it starts to write: the lease it will
    create, for whom, and under which limits; and how often it will retry the
    resolution of an interrupted admission. *)
Record CreateRequest : Type := {
  cr_lease : ParentLease;
  cr_identity : SandboxPrincipal;
  cr_create : option SandboxCreateIdentity;
  cr_provisioning_timeout : Z;
  cr_max_concurrent_leases : Z;
  cr_resolutions : nat;
}.

Definition resolution_response (lease_id deadline what : string) (r : AdmissionResolution) : CreateResponse :=
  match r with
  | ResolvedAdmitted => CreateAccepted lease_id deadline
  | ResolvedCancelled => CreateRefused 503 what
  | HandedOff => CreatePending lease_id deadline
  end.

Section create.
Context (req : CreateRequest).

Definition finalize_admission (created : ParentLease) (deadline : string) (gate : AccessGateReference)
    (rs : list AdmissionReservation) : aprog CreateResponse :=
  let id := pl_name (cr_lease req) in
  let resolve := resolve_timed_out_admission (cr_resolutions req) created deadline (Some rs) (Some gate) in
  ado admission := await_admission_stage_until (admit_sandbox_lease created rs gate) in
  match admission with
  | Err _ =>
      ado r := resolve in ARet (resolution_response id deadline "Sandbox lease admission was interrupted" r)
  | Ok (Ok _) => ARet (CreateAccepted id deadline)
  | Ok (Err AdmissionNotCommitted) =>
      ado _ := delete_exact_pending_lease_until created in infra "Failed to finalize Sandbox lease admission"
  | Ok (Err _) =>
      ado r := resolve in
      match r with
      | ResolvedAdmitted => ado _ := acall (ParentGet id) in ARet (CreateAccepted id deadline)
      | r => ARet (resolution_response id deadline "Failed to finalize Sandbox lease admission" r)
      end
  end.

Definition reserve_admission (created : ParentLease) (deadline : string) (gate : AccessGateReference)
  : aprog CreateResponse :=
  let id := pl_name (cr_lease req) in
  ado acquired := await_admission_stage_until
    (acquire_admission_reservations created (cr_identity req) (parent_alias (cr_lease req))
       (cr_max_concurrent_leases req)) in
  match acquired with
  | Ok (Ok rs) => finalize_admission created deadline gate rs
  | Ok (Err e) =>
      ado cleaned := delete_exact_pending_lease_until created in
      ARet match e, cleaned with
           | QuotaExhausted, Ok _ => CreateRefused 429 "Concurrent Sandbox lease limit reached"
           | QuotaExhausted, Err _ => CreateRefused 503 "Sandbox quota reservation cleanup failed; lease remains unadmitted"
           | AliasTaken, Ok _ => CreateRefused 409 "Sandbox lease alias is already active"
           | AliasTaken, Err _ => CreateRefused 503 "Sandbox alias reservation cleanup failed; lease remains unadmitted"
           | _, _ => CreateRefused 503 "Failed to reserve Sandbox admission"
           end
  | Err _ =>
      ado r := resolve_timed_out_admission (cr_resolutions req) created deadline None (Some gate) in
      ARet (resolution_response id deadline "Sandbox lease admission was interrupted" r)
  end.

Definition prepare_gate (created : ParentLease) (deadline : string) : aprog CreateResponse :=
  let id := pl_name (cr_lease req) in
  ado prepared := await_admission_stage_until (acall (GatePrepare created)) in
  match prepared with
  | Ok (Ok gate) => reserve_admission created deadline gate
  | Ok (Err _) =>
      ado cleaned := delete_exact_pending_lease_until created in
      ARet match cleaned with
           | Err AdmissionDeadlineExceeded | Err AdmissionShuttingDown => CreatePending id deadline
           | _ => CreateRefused 503 "Failed to prepare Sandbox access gate"
           end
  | Err _ =>
      ado r := resolve_timed_out_admission (cr_resolutions req) created deadline None None in
      ARet match r with
           | ResolvedCancelled => CreateRefused 503 "Sandbox access-gate preparation was interrupted"
           | _ => CreatePending id deadline
           end
  end.

Definition provisioning_deadline_of (created : ParentLease) : result string SandboxLeaseMutationError :=
  let? accepted_at := ok_or (pl_creation_timestamp created ≫= parse_rfc3339) MissingCreationTimestamp in
  match sandbox_provisioning_deadline representable to_rfc3339_z accepted_at (cr_provisioning_timeout req) with
  | Ok deadline => Ok deadline
  | Err e => Err (LifecycleFailed e)
  end.

Definition after_create (created : ParentLease) : aprog CreateResponse :=
  match validate_lease_shape (cr_lease req) created SANDBOX_ADMISSION_PENDING with
  | Err _ =>
      ado cleaned := delete_exact_pending_lease_until created in
      infra match cleaned with
            | Err AdmissionDeadlineExceeded | Err AdmissionShuttingDown =>
                "Malformed Sandbox lease cleanup was interrupted"
            | _ => "Sandbox lease create response failed validation"
            end
  | Ok _ =>
      match provisioning_deadline_of created with
      | Err _ =>
          ado cleaned := delete_exact_pending_lease_until created in
          infra match cleaned with
                | Err AdmissionDeadlineExceeded | Err AdmissionShuttingDown =>
                    "Unbounded Sandbox lease cleanup was interrupted"
                | _ => "Failed to bound Sandbox lease provisioning"
                end
      | Ok deadline =>
          ado stamped := await_admission_stage_until (persist_pending_provisioning_deadline created deadline) in
          match stamped with
          | Ok (Ok created) => prepare_gate created deadline
          | Ok (Err _) =>
              ado cleaned := delete_exact_pending_lease_until created in
              infra match cleaned with
                    | Err AdmissionDeadlineExceeded | Err AdmissionShuttingDown =>
                        "Sandbox deadline checkpoint cleanup was interrupted"
                    | _ => "Failed to checkpoint Sandbox provisioning deadline"
                    end
          | Err _ =>
              ado r := resolve_timed_out_admission (cr_resolutions req) created deadline None None in
              ARet (resolution_response (pl_name (cr_lease req)) deadline "Sandbox lease admission was interrupted" r)
          end
      end
  end.

(** [create_sandbox_lease_until_inner] from the bound on the grant's concurrency
    on. *)
Definition create_sandbox_lease : aprog CreateResponse :=
  if MAX_SANDBOX_CONCURRENCY_SLOTS <? cr_max_concurrent_leases req
  then infra "Sandbox concurrency policy exceeds the supported reservation bound"
  else
  ado now := acall ReadClock in
  ado swept := await_admission_stage_until (cancel_expired_pending_admissions (cr_identity req) now) in
  match swept with
  | Err _ => infra "Sandbox lease admission timed out during abandoned-admission recovery"
  | Ok _ =>
      ado created := await_admission_stage_until (acall (ParentCreate (cr_lease req))) in
      match created with
      | Err _ => infra "Sandbox lease admission was interrupted"
      | Ok (Ok created) => after_create created
      | Ok (Err e) =>
          match (if is_409 e then cr_create req else None) with
          | None => infra "Failed to create Sandbox lease"
          | Some create =>
              ado existing := await_admission_stage_until (acall (ParentGet (create_lease_id create))) in
              match existing with
              | Ok (Ok existing) => ARet (sandbox_create_replay existing (cr_identity req) create)
              | Ok (Err _) => infra "Failed to recover concurrent keyed Sandbox create"
              | Err _ => infra "Concurrent Sandbox create recovery was interrupted"
              end
          end
      end
  end.

End create.

(** ** Releasing a lease *)

Inductive ReleaseResponse : Type := ReleaseNoContent | ReleaseRefused (status : Z) (what : string).

Definition RELEASE_FENCE_ATTEMPTS : nat := 5.

Definition pristine_parent_has_no_live_reservations (lease : ParentLease)
  : aprog (result bool SandboxLeaseMutationError) :=
  match pl_uid lease with
  | None => ARet (Err MissingUid)
  | Some _ =>
      let principal := parent_principal lease in
      let alias_name := alias_reservation_name principal <$> parent_alias lease in
      ado listed := acall (TokenList []) in
      ARet (let? listed := kube_mutation listed in
            Ok (negb (existsb (fun token => is_some (quota_reservation_slot (l_name token) principal)
                                            || bool_decide (alias_name = Some (l_name token))) listed)))
  end.

Definition released (r : result unit SandboxLeaseMutationError) (what : string) : ReleaseResponse :=
  match r with Ok _ => ReleaseNoContent | Err _ => ReleaseRefused 503 what end.

(** A lease whose marker is not [admitted]. *)
Definition release_unadmitted (lease : ParentLease) : aprog ReleaseResponse :=
  match pristine_pending_lease lease with
  | Ok _ =>
      let delete := ado r := delete_exact_pending_lease lease in
                    ARet (released r "Failed to remove unadmitted Sandbox lease") in
      if bool_decide (admission_marker lease = Some SANDBOX_ADMISSION_PENDING)
         || bool_decide (admission_marker lease = Some SANDBOX_ADMISSION_CANCELLED)
      then delete
      else
        ado absent := pristine_parent_has_no_live_reservations lease in
        match absent with
        | Ok true => delete
        | Ok false => ARet (ReleaseRefused 409 "Sandbox admission state is ambiguous")
        | Err _ => ARet (ReleaseRefused 503 "Failed to prove unadmitted Sandbox reservations absent")
        end
  | Err _ =>
      match proven_active_release_shape lease with
      | Err _ => ARet (ReleaseRefused 409 "Sandbox admission state is ambiguous")
      | Ok persisted =>
          ado r := repair_admitted_release_intent lease persisted in
          ARet (released r "Failed to repair Sandbox admission for verified teardown")
      end
  end.

Fixpoint release_sandbox_lease (attempts : nat) (id : string) (identity : SandboxPrincipal) (policy : Policy)
  : aprog ReleaseResponse :=
  match attempts with
  | O => ARet (ReleaseRefused 409 "Sandbox lease changed during release")
  | S attempts =>
      ado found := acall (ParentGet id) in
      match found with
      | Err e => ARet (if is_404 e then ReleaseRefused 404 "lease not found"
                       else ReleaseRefused 503 "Failed to get Sandbox lease")
      | Ok lease =>
          if negb (principal_matches (ps_requester (pl_spec lease)) identity)
          then ARet (ReleaseRefused 404 "lease not found")
          else if negb (is_sandbox_allowed (pool_ref_name (ps_pool_ref (pl_spec lease))) Policy.Release policy)
          then ARet (ReleaseRefused 403 "Sandbox release is not allowed")
          else
            match default SandboxLeasePhase.Pending (ls_phase <$> pl_status lease) with
            | SandboxLeasePhase.Quarantined => ARet (ReleaseRefused 409 "Sandbox cleanup is quarantined")
            | SandboxLeasePhase.Released | SandboxLeasePhase.Expired => ARet ReleaseNoContent
            | phase =>
                if negb (bool_decide (admission_marker lease = Some SANDBOX_ADMISSION_ADMITTED))
                then release_unadmitted lease
                else if bool_decide (phase = SandboxLeasePhase.Releasing)
                        || is_some (pl_annotations lease !! SANDBOX_RELEASE_REQUESTED_AT_ANNOTATION)
                then ARet ReleaseNoContent
                else
                  match pl_resource_version lease with
                  | None => ARet (ReleaseRefused 503 "Sandbox lease has no resourceVersion")
                  | Some rv =>
                      ado now := acall ReadClock in
                      ado patched := acall (ParentMerge id rv SANDBOX_RELEASE_REQUESTED_AT_ANNOTATION (to_rfc3339 now)) in
                      match patched with
                      | Ok _ => ARet ReleaseNoContent
                      | Err e => if is_409 e then release_sandbox_lease attempts id identity policy
                                 else ARet (ReleaseRefused 503 "Failed to request Sandbox release")
                      end
                  end
            end
      end
  end.

(** ** The tail of a verified release *)

Definition CLEANUP_VERIFIED_CONDITION : string := "CleanupVerified".
Definition FOOTPRINT_ABSENT_CONDITION : string := "FootprintAbsent".

Definition condition_is (st : SandboxLeaseStatus) (type : string) (value : SandboxConditionStatus) : bool :=
  existsb (fun c => String.eqb (sc_type c) type && bool_decide (sc_status c = value)) (ls_conditions st).

Definition footprint_absence_proven (st : SandboxLeaseStatus) : bool :=
  condition_is st FOOTPRINT_ABSENT_CONDITION ConditionTrue.

Definition with_condition_for_status (current : SandboxLeaseStatus) (observed_generation : option Z) (type : string)
    (value : SandboxConditionStatus) (reason message : string) (now : Z) : list SandboxCondition :=
  let previous := List.find (fun c => String.eqb (sc_type c) type) (ls_conditions current) in
  let last_transition_time :=
    match previous with
    | Some p => if bool_decide (sc_status p = value) then sc_last_transition_time p else Some (to_rfc3339 now)
    | None => Some (to_rfc3339 now)
    end in
  List.filter (fun c => negb (String.eqb (sc_type c) type)) (ls_conditions current)
  ++ [{| sc_type := type; sc_status := value; sc_reason := reason; sc_message := message;
         sc_observed_generation := observed_generation; sc_last_transition_time := last_transition_time |}].

Definition with_phase_conditions (st : SandboxLeaseStatus) (phase : SandboxLeasePhase.t)
    (conditions : list SandboxCondition) : SandboxLeaseStatus :=
  {| ls_phase := phase; ls_observed_generation := ls_observed_generation st;
     ls_provisioning_deadline := ls_provisioning_deadline st; ls_ready_at := ls_ready_at st;
     ls_expires_at := ls_expires_at st; ls_extensions_count := ls_extensions_count st;
     ls_granted_extension_seconds := ls_granted_extension_seconds st; ls_release_cause := ls_release_cause st;
     ls_placement := ls_placement st; ls_target := ls_target st; ls_teardown := ls_teardown st;
     ls_conditions := conditions |}.

(** [Some true] when the status was written, [Some false] when it lost a race. *)
Definition patch_lease_status_fenced (lease : ParentLease) (status : SandboxLeaseStatus)
  : aprog (result bool SandboxLeaseMutationError) :=
  match fence lease with
  | Err e => ARet (Err e)
  | Ok (uid, rv) =>
      ado patched := acall (ParentPatch (pl_name lease) [PTestUid uid; PTestVersion rv; PSetStatus status]) in
      ARet match patched with
           | Ok _ => Ok true
           | Err e => if optimistic_conflict e then Ok false else Err (KubeFailed e)
           end
  end.

Inductive ReleaseAction : Type := AwaitChange | Requeue (secs : Z).

Definition record_cleanup_stall (lease : ParentLease) (reason message : string) (retry : Z)
  : aprog (result ReleaseAction SandboxLeaseMutationError) :=
  let status := default default_sandbox_status (pl_status lease) in
  if existsb (fun c => String.eqb (sc_type c) CLEANUP_VERIFIED_CONDITION && bool_decide (sc_status c = ConditionFalse)
                       && String.eqb (sc_reason c) reason && String.eqb (sc_message c) message) (ls_conditions status)
  then ARet (Ok (Requeue retry))
  else
    ado now := acall ReadClock in
    ado? written := patch_lease_status_fenced lease
      (with_phase_conditions status (ls_phase status)
         (with_condition_for_status status (pl_generation lease) CLEANUP_VERIFIED_CONDITION ConditionFalse reason message now)) in
    ARet (Ok (Requeue (if written : bool then retry else 5))).

(** [reason.terminal_phase()]; a missing cause never reaches it. *)
Definition terminal_phase (cause : SandboxReleaseCause) : SandboxLeasePhase.t :=
  match cause with
  | CauseRuntimeTtl | CauseProvisioningDeadline => SandboxLeasePhase.Expired
  | _ => SandboxLeasePhase.Released
  end.

Definition finish_release (lease : ParentLease) (cause : SandboxReleaseCause)
  : aprog (result ReleaseAction SandboxLeaseMutationError) :=
  let status := default default_sandbox_status (pl_status lease) in
  if negb (footprint_absence_proven status) then
    ado now := acall ReadClock in
    ado? _ := patch_lease_status_fenced lease
      (with_phase_conditions status (ls_phase status)
         (with_condition_for_status status (pl_generation lease) FOOTPRINT_ABSENT_CONDITION ConditionTrue
            "FootprintObservedAbsent" "Lease-owned Sandbox footprint was verified absent" now)) in
    ARet (Ok AwaitChange)
  else
    match pl_uid lease with
    | None => ARet (Err MissingUid)
    | Some uid =>
        ado freed := release_reservations_for_lease lease uid in
        match freed with
        | Err _ =>
            record_cleanup_stall lease "ReservationReleaseRetry"
              "Workload absence is proven, but admission reservations are still held" 15
        | Ok _ =>
            match transition_sandbox_phase SandboxLeasePhase.Releasing (terminal_phase cause) true with
            | Err e => ARet (Err (LifecycleFailed e))
            | Ok terminal =>
                ado now := acall ReadClock in
                ado? written := patch_lease_status_fenced lease
                  (with_phase_conditions status terminal
                     (with_condition_for_status status (pl_generation lease) CLEANUP_VERIFIED_CONDITION ConditionTrue
                        "TeardownVerified" "Lease-owned footprint observed absent and reservations released" now)) in
                ARet (Ok (if written : bool then AwaitChange else Requeue 5))
            end
        end
    end.

(** ** Retiring terminal records *)

Definition DEFAULT_SANDBOX_LEASE_RETENTION : string := "168h".
Definition MIN_SANDBOX_LEASE_RETENTION_SECS : Z := 3600.

Definition sandbox_lease_retention (configured : option string) : Z :=
  let fallback := default 0 (parse_duration DEFAULT_SANDBOX_LEASE_RETENTION) in
  match nonempty (trim <$> configured) with
  | None => fallback
  | Some configured =>
      match parse_duration configured with
      | None => fallback
      | Some parsed => Z.max parsed (seconds MIN_SANDBOX_LEASE_RETENTION_SECS)
      end
  end.

Definition terminal_lease_recorded_at (st : SandboxLeaseStatus) : option string :=
  c ← List.find (fun c => String.eqb (sc_type c) CLEANUP_VERIFIED_CONDITION
                          && bool_decide (sc_status c = ConditionTrue)) (ls_conditions st);
  sc_last_transition_time c.

Definition terminal_lease_is_retired (phase : SandboxLeasePhase.t) (terminal_since : option string) (now retention : Z)
  : bool :=
  match phase with
  | SandboxLeasePhase.Released | SandboxLeasePhase.Expired =>
      match terminal_since ≫= parse_rfc3339 with Some since => retention <=? now - since | None => false end
  | SandboxLeasePhase.Quarantined => false
  | SandboxLeasePhase.Pending | SandboxLeasePhase.Provisioning | SandboxLeasePhase.Ready
  | SandboxLeasePhase.Releasing => false
  end.

Definition retired (lease : ParentLease) (retention now : Z) : bool :=
  match pl_status lease with
  | Some st => terminal_lease_is_retired (ls_phase st) (terminal_lease_recorded_at st) now retention
  | None => false
  end.

Definition delete_retired_lease (lease : ParentLease) (retention now : Z)
  : aprog (result bool SandboxLeaseMutationError) :=
  match pl_uid lease with
  | None => ARet (Err MissingUid)
  | Some uid =>
      ado found := acall (ParentGet (pl_name lease)) in
      match found with
      | Err e => ARet (if is_404 e then Ok false else Err (KubeFailed e))
      | Ok current =>
          if negb (bool_decide (pl_uid current = Some uid)) then ARet (Err UidChanged)
          else if negb (retired current retention now) then ARet (Ok false)
          else
            match pl_resource_version current with
            | None => ARet (Err MissingResourceVersion)
            | Some rv =>
                ado deleted := acall (ParentDelete (pl_name current) uid rv) in
                ARet match deleted with
                     | Ok _ => Ok true
                     | Err e => if is_404 e || is_409 e then Ok false else Err (KubeFailed e)
                     end
            end
      end
  end.

Fixpoint retire_leases (retention now : Z) (leases : list ParentLease) : aprog unit :=
  match leases with
  | [] => ARet tt
  | lease :: leases =>
      if retired lease retention now
      then ado _ := delete_retired_lease lease retention now in retire_leases retention now leases
      else retire_leases retention now leases
  end.

Definition sweep_retired_leases (retention now : Z) : aprog unit :=
  ado listed := acall (ParentList []) in
  match listed with Ok leases => retire_leases retention now leases | Err _ => ARet tt end.

End Admission.
