(* ===== verification/AdmissionFacts.v ===== *)
(** * AdmissionFacts: names and token sets

    The names of reservation tokens are read back as they were written and
    never collide, and a token set stays valid in any order. *)

From S2P Require Import Prelude Text Durations PoolManager Quantity Policy SandboxObjects SandboxLifecycle LedgerApi AccessLedger SandboxAccess AdmissionApi Admission.

Local Open Scope kobe_scope.

(** ** Names *)

Lemma rsplit_once_none c s : all_bytes (fun a => negb (Ascii.eqb a c)) s = true -> rsplit_once c s = None.
Proof.
  induction s as [|a s IH]; cbn; [done|]. intros [Ha Hs]%andb_true_iff. rewrite (IH Hs).
  apply negb_true_iff in Ha. by rewrite Ha.
Qed.

Lemma rsplit_once_app c l r : all_bytes (fun a => negb (Ascii.eqb a c)) r = true ->
  rsplit_once c (l +:+ String c r) = Some (l, r).
Proof.
  intros Hr. induction l as [|a l IH]; cbn.
  - by rewrite rsplit_once_none, Ascii.eqb_refl.
  - by rewrite IH.
Qed.

Lemma parse_u32_show n : 0 <= n <= u32_max -> parse_u32 (show_uint n) = Some n.
Proof.
  intros Hn. pose proof (show_uint_all_digits n ltac:(lia)) as Hd.
  assert (parse_u32 (show_uint n) = parse_uint u32_max (show_uint n)) as ->; [|by apply parse_uint_show].
  destruct (show_uint n) as [|c r]; [done|]. cbn in Hd. by destruct c as [[][][][][][][][]].
Qed.

Lemma digits_no_dash s : all_bytes is_ascii_digit s = true -> all_bytes (fun a => negb (Ascii.eqb a "-")) s = true.
Proof. apply all_bytes_impl. intros c. by destruct c as [[][][][][][][][]]. Qed.

Lemma parsed_quota_written principal slot : 0 <= slot < MAX_SANDBOX_CONCURRENCY_SLOTS ->
  parsed_quota_reservation_name (quota_reservation_name principal slot) = Some (principal, slot).
Proof.
  intros Hs. unfold parsed_quota_reservation_name.
  assert (Hp : strip_prefix "sbx-" (quota_reservation_name principal slot)
    = Some ("quota" +:+ ("-" +:+ (principal +:+ String "-" (show_uint slot))))) by apply (strip_prefix_app "sbx-").
  rewrite Hp. cbn [mbind option_bind]. unfold SANDBOX_RESERVATION_QUOTA. rewrite !strip_prefix_app. cbn [mbind option_bind].
  rewrite strip_prefix_app. cbn [mbind option_bind].
  rewrite rsplit_once_app by (apply digits_no_dash, show_uint_all_digits; lia). cbn [mbind option_bind].
  rewrite parse_u32_show by (unfold MAX_SANDBOX_CONCURRENCY_SLOTS, u32_max in *; lia). cbn [mbind option_bind]. rewrite String.eqb_refl, andb_true_r.
  by rewrite (proj2 (Z.ltb_lt _ _) (proj2 Hs)).
Qed.

Lemma parsed_quota_read name principal slot : parsed_quota_reservation_name name = Some (principal, slot) ->
  name = quota_reservation_name principal slot /\ 0 <= slot < MAX_SANDBOX_CONCURRENCY_SLOTS.
Proof.
  unfold parsed_quota_reservation_name. intros H.
  repeat (apply bind_Some in H as (? & ? & H)). destruct x2 as [pr raw].
  apply bind_Some in H as (sl & Hsl & H). case_match eqn:Hc; [|done]. simplify_eq. to_prop Hc.
  split; [done|]. split; [|done]. unfold parse_u32 in Hsl.
  repeat case_match; apply parse_uint_range in Hsl; lia.
Qed.

Lemma quota_slot_name name principal slot : quota_reservation_slot name principal = Some slot ->
  name = quota_reservation_name principal slot /\ 0 <= slot < MAX_SANDBOX_CONCURRENCY_SLOTS.
Proof.
  unfold quota_reservation_slot. intros ([pr sl] & Hp & H)%bind_Some. case_match eqn:E; [|done]. simplify_eq.
  apply String.eqb_eq in E as ->. by apply parsed_quota_read.
Qed.

Lemma quota_name_inj p p' s s' : 0 <= s < MAX_SANDBOX_CONCURRENCY_SLOTS -> 0 <= s' ->
  quota_reservation_name p s = quota_reservation_name p' s' -> p = p' /\ s = s'.
Proof.
  intros Hs Hs' E. unfold quota_reservation_name in E. apply app_inj_str in E.
  assert (Hd : forall n, 0 <= n -> all_bytes (fun a => negb (Ascii.eqb a "-")) (show_uint n) = true).
  { intros n Hn. by apply digits_no_dash, show_uint_all_digits. }
  pose proof (rsplit_once_app "-" p _ (Hd s ltac:(lia))) as H1. pose proof (rsplit_once_app "-" p' _ (Hd s' Hs')) as H2.
  cbn [String.append] in E. change ("-" +:+ show_uint s) with (String "-" (show_uint s)) in E.
  change ("-" +:+ show_uint s') with (String "-" (show_uint s')) in E.
  rewrite E, H2 in H1. injection H1 as -> Hsh. split; [done|]. apply show_uint_inj; [lia..|done].
Qed.

Lemma quota_not_alias p s p' a : quota_reservation_name p s <> alias_reservation_name p' a.
Proof. done. Qed.

(** ** Token sets *)

Section Sets.
Context (principal_hash_for : SandboxPrincipal -> string).
#[local] Abbreviation canonical := (canonical_reservation_provenance principal_hash_for).

Definition of_kind (k : SandboxReservationKind) (r : AdmissionReservation) : Prop := ar_kind r = k.
#[global] Instance of_kind_dec k r : Decision (of_kind k r) := decide (ar_kind r = k).
Definition count_kind (k : SandboxReservationKind) (rs : list AdmissionReservation) : nat := length (filter (of_kind k) rs).

(** What one token of a set has to satisfy, and what the set has to. *)
Definition derived (principal : string) (alias : option string) (r : AdmissionReservation) : Prop :=
  ar_uid r <> "" /\ expected_reservation_kind (ar_name r) principal alias = Some (ar_kind r).

Record token_set (principal : string) (alias : option string) (names uids : list string) (rs : list AdmissionReservation)
  : Prop := {
  ts_derived : Forall (derived principal alias) rs;
  ts_names : NoDup (map ar_name rs ++ names);
  ts_uids : NoDup (map ar_uid rs ++ uids);
}.

Lemma count_kind_cons k r rs :
  count_kind k (r :: rs)
  = ((match ar_kind r, k with Quota, Quota | Alias, Alias => 1 | _, _ => 0 end) + count_kind k rs)%nat.
Proof. unfold count_kind. rewrite filter_cons. unfold of_kind. by case_decide; destruct (ar_kind r), k. Qed.

Lemma token_set_cons principal alias names uids r rs :
  token_set principal alias names uids (r :: rs) <->
  derived principal alias r /\ (ar_name r ∉ names) /\ (ar_uid r ∉ uids)
  /\ token_set principal alias (ar_name r :: names) (ar_uid r :: uids) rs.
Proof.
  assert (Hmid : forall (x : string) l k, NoDup ((x :: l) ++ k) <-> (x ∉ k) /\ NoDup (l ++ x :: k)).
  { intros x l k. rewrite <- Permutation_middle. cbn. rewrite NoDup_cons, not_elem_of_app. tauto. }
  split.
  - intros [Hd Hn Hu]. inversion_clear Hd. apply Hmid in Hn as [? ?], Hu as [? ?]. split_and!; [done..|]. by constructor.
  - intros (Hd & Hn & Hu & [Hds Hns Hus]). constructor; [by constructor|by apply Hmid..].
Qed.

Lemma check_reservations_spec principal alias rs : forall names uids q a q' a', NoDup names -> NoDup uids ->
  check_reservations principal alias names uids q a rs = Ok (q', a') <->
  token_set principal alias names uids rs
  /\ q' = (q + count_kind Quota rs)%nat /\ a' = (a + count_kind Alias rs)%nat.
Proof.
  induction rs as [|r rs IH]; intros names uids q a q' a' Hn Hu; cbn [check_reservations].
  - split; [intros [= -> ->]|intros (_ & -> & ->)]; unfold count_kind; cbn; [|by rewrite !Nat.add_0_r].
    split; [|lia]. constructor; cbn; [constructor|done..].
  - rewrite token_set_cons, !count_kind_cons. unfold derived. split.
    + intros H. unbind H. rewrite ?deny_if_Ok, ?ok_or_Ok in *. bool_props. rewrite ?String.eqb_neq in *. subst.
      destruct (ar_kind r) eqn:Hk; (apply IH in H; [|by constructor..]); destruct H as (? & -> & ->); split_and!;
        done || lia.
    + intros (((Hne & Hd) & Hnn & Hnu & Hts) & -> & ->).
      rewrite (proj2 (String.eqb_neq _ _) Hne), !bool_decide_false by done. cbn. rewrite Hd. cbn.
      rewrite bool_decide_true by done. cbn. destruct (ar_kind r) eqn:Hk; apply IH; try by constructor.
      all: split_and!; [done|lia..].
Qed.

Lemma token_set_perm principal alias rs rs' : rs ≡ₚ rs' -> token_set principal alias [] [] rs -> token_set principal alias [] [] rs'.
Proof.
  intros Hp [Hd Hn Hu]. rewrite app_nil_r in *. constructor; rewrite ?app_nil_r.
  - by rewrite <- Hp.
  - by rewrite <- Hp.
  - by rewrite <- Hp.
Qed.

(** A valid set of tokens: one of the quota, one of the alias if there is one. *)
Lemma canonical_spec_iff lease rs sorted : canonical lease rs = Ok sorted <->
  token_set (parent_principal principal_hash_for lease) (parent_alias lease) [] [] rs
  /\ count_kind Quota rs = 1%nat /\ count_kind Alias rs = (if is_some (parent_alias lease) then 1%nat else 0%nat)
  /\ length rs = (1 + (if is_some (parent_alias lease) then 1 else 0))%nat /\ sorted = merge_sort reservation_le rs.
Proof.
  unfold canonical_reservation_provenance. split.
  - intros H. unbind H. simplify_eq. rewrite ?deny_if_Ok in *. bool_props. destruct a0 as [nq na].
    apply check_reservations_spec in Hok0 as (? & -> & ->); [|constructor..]. cbn in *. by split_and!.
  - intros (Hts & Hq & Ha & Hl & ->). rewrite Hl, Nat.eqb_refl. cbn.
    assert (Hc : check_reservations (parent_principal principal_hash_for lease) (parent_alias lease) [] [] 0 0 rs
                 = Ok (1%nat, (if is_some (parent_alias lease) then 1 else 0)%nat)).
    { apply check_reservations_spec; [constructor..|]. split_and!; [done|by rewrite Hq|by rewrite Ha]. }
    rewrite Hc. cbn. by rewrite Nat.eqb_refl.
Qed.

Lemma canonical_perm lease rs sorted : canonical lease rs = Ok sorted -> sorted ≡ₚ rs.
Proof. intros (_ & _ & _ & _ & ->)%canonical_spec_iff. apply merge_sort_Permutation. Qed.

(** A set that was put in order is still valid. *)
Lemma canonical_again lease rs sorted : canonical lease rs = Ok sorted ->
  exists again, canonical lease sorted = Ok again /\ again ≡ₚ rs.
Proof.
  intros Hc. pose proof (canonical_perm _ _ _ Hc) as Hp. apply canonical_spec_iff in Hc as (Hts & Hq & Ha & Hl & _).
  exists (merge_sort reservation_le sorted). split; [|rewrite merge_sort_Permutation; done].
  apply canonical_spec_iff. split_and!.
  - by eapply token_set_perm.
  - unfold count_kind in *. by rewrite Hp.
  - unfold count_kind in *. by rewrite Hp.
  - by rewrite Hp.
  - done.
Qed.

(** It has a quota token whose name tells its slot. *)
Lemma canonical_quota lease rs sorted : canonical lease rs = Ok sorted ->
  exists r slot, r ∈ rs /\ 0 <= slot < MAX_SANDBOX_CONCURRENCY_SLOTS
    /\ ar_name r = quota_reservation_name (parent_principal principal_hash_for lease) slot.
Proof.
  intros (Hts & Hq & _)%canonical_spec_iff. unfold count_kind in Hq.
  destruct (filter (of_kind Quota) rs) as [|r l] eqn:Hf; [done|].
  assert (Hr : r ∈ filter (of_kind Quota) rs) by (rewrite Hf; left). apply list_elem_of_filter in Hr as [Hk Hr].
  pose proof (ts_derived _ _ _ _ _ Hts) as Hd. rewrite Forall_forall in Hd. destruct (Hd r Hr) as [_ He].
  unfold expected_reservation_kind in He. destruct (quota_reservation_slot _ _) as [slot|] eqn:Hs.
  - exists r, slot. split; [done|]. apply quota_slot_name in Hs as [? ?]. done.
  - cbn in He. apply bind_Some in He as (? & _ & He). unfold of_kind in Hk. case_match; congruence.
Qed.

(** And the token of its alias. *)
Lemma canonical_alias lease rs sorted alias : canonical lease rs = Ok sorted -> parent_alias lease = Some alias ->
  exists r, r ∈ rs /\ ar_name r = alias_reservation_name (parent_principal principal_hash_for lease) alias.
Proof.
  intros (Hts & _ & Ha & _)%canonical_spec_iff Hal. unfold count_kind in Ha. rewrite Hal in *. cbn in Ha.
  destruct (filter (of_kind Alias) rs) as [|r l] eqn:Hf; [done|].
  assert (Hr : r ∈ filter (of_kind Alias) rs) by (rewrite Hf; left). apply list_elem_of_filter in Hr as [Hk Hr].
  pose proof (ts_derived _ _ _ _ _ Hts) as Hd. rewrite Forall_forall in Hd. destruct (Hd r Hr) as [_ He].
  exists r. split; [done|]. unfold expected_reservation_kind in He. unfold of_kind in Hk. rewrite Hk in He.
  case_match; [done|]. cbn in He. case_match eqn:E; [|done]. symmetry. by apply String.eqb_eq.
Qed.

End Sets.
