(* ===== verification/AdmissionSystem.v ===== *)
(** * AdmissionSystem: what every admission program guarantees of its requests

    The history of one cluster (the versions of parents that were stored or
    returned, the coordination objects, which of them are tokens this code
    created, which parents are gone for ever), and [awlp]: what a program
    guarantees of its requests in every world its answers allow.  A lemma per
    operation of Admission establishes it. *)

From S2P Require Import Prelude Text Durations PoolManager Quantity Policy SandboxObjects SandboxLifecycle LedgerApi AccessLedger SandboxAccess AdmissionApi Admission.

Local Open Scope kobe_scope.

(** ** History *)

Record Hist : Type := {
  seen : ParentLease -> Prop;      (** versions of parents, stored or returned *)
  objs : Lease -> Prop;            (** versions of coordination objects *)
  minted : Lease -> Prop;          (** tokens created for an admission *)
  gone : string -> Prop;           (** UIDs of parents that no longer exist *)
}.

(** History only grows, and an object that was there before is not a token
    created since. *)
Record hle (h h' : Hist) : Prop := {
  hle_seen o : seen h o -> seen h' o;
  hle_objs t : objs h t -> objs h' t;
  hle_minted t : minted h t -> minted h' t;
  hle_gone u : gone h u -> gone h' u;
  hle_old t : objs h t -> minted h' t -> minted h t;
}.

#[global] Instance hle_preorder : PreOrder hle.
Proof.
  split; [by constructor|]. intros a b c [] []. constructor; auto.
Qed.

(** Some version of the lease records that its footprint was verified absent. *)
Definition proven (h : Hist) (u : string) : Prop :=
  exists o st, seen h o /\ pl_uid o = Some u /\ pl_status o = Some st /\ footprint_absence_proven st = true.

(** The lease was removed, or its admission was revoked. *)
Definition dead (h : Hist) (u : string) : Prop :=
  gone h u \/ exists o, seen h o /\ pl_uid o = Some u /\ admission_marker o = Some SANDBOX_ADMISSION_CANCELLED.

Lemma proven_mono h h' u : hle h h' -> proven h u -> proven h' u.
Proof. intros [] (o & st & ? & ?). exists o, st. auto. Qed.
Lemma dead_mono h h' u : hle h h' -> dead h u -> dead h' u.
Proof. intros [] [?|(o & ? & ?)]; [left; auto|right; exists o; auto]. Qed.
#[export] Hint Resolve proven_mono dead_mono : kobe.

Definition token_lease_uid (t : Lease) : option string := l_labels t !! SANDBOX_RESERVATION_LEASE_UID_LABEL.
Definition token_lease_name (t : Lease) : option string := l_annotations t !! SANDBOX_RESERVATION_LEASE_NAME_ANNOTATION.

(** A token was created for a lease that existed. *)
Record hwf (h : Hist) : Prop := {
  hwf_minted t : minted h t ->
    exists o u, seen h o /\ pl_uid o = Some u /\ token_lease_uid t = Some u /\ token_lease_name t = Some (pl_name o);
}.

(** What a thread owns: the lease its CREATE returned, and whether it has sent
    the patch that admits it. *)
Record Ctx : Type := { own : option string; issued : bool }.

Section System.
Context (principal_hash_for : SandboxPrincipal -> string).
Context `{C : Codec} {reservations_json : Json (list AdmissionReservation)}.
Context (parse_rfc3339 : string -> option Z) (to_rfc3339 to_rfc3339_z : Z -> string) (representable : Z -> bool).
Context (lease_ns ledger_ns : string).
(** The number of slots granted to a principal. *)
Context (limit : string -> Z).

#[local] Abbreviation build_admission_reservation := (build_admission_reservation ledger_ns).
#[local] Abbreviation canonical := (canonical_reservation_provenance principal_hash_for).

(** ** Requests *)

(** A parent as it is created: pending, with Kobe's finalizer, untouched. *)
Definition fresh_parent (o : ParentLease) : Prop :=
  admission_marker o = Some SANDBOX_ADMISSION_PENDING /\ pl_annotations o !! SANDBOX_RESERVATIONS_ANNOTATION = None
  /\ has_cleanup_finalizer o = true /\ pl_status o = None /\ pl_deletion_timestamp o = None.

(** The tokens of an admission: created for this lease, under these names. *)
Definition holds_tokens (h : Hist) (o : ParentLease) (rs : list AdmissionReservation) : Prop :=
  forall r, r ∈ rs -> exists t, minted h t /\ l_name t = ar_name r /\ l_uid t = Some (ar_uid r)
                                /\ token_lease_uid t = pl_uid o.

Definition admit_ops (reservations gate : string) : list parent_op :=
  [PTestAnnotation SANDBOX_ADMISSION_ANNOTATION SANDBOX_ADMISSION_PENDING;
   PReplaceAnnotation SANDBOX_ADMISSION_ANNOTATION SANDBOX_ADMISSION_ADMITTED;
   PAddAnnotation SANDBOX_RESERVATIONS_ANNOTATION reservations;
   PAddAnnotation ACCESS_GATE_ANNOTATION gate].

(** A status written over the status of [o]. *)
Definition status_ok (o : ParentLease) (st : SandboxLeaseStatus) : Prop :=
  let old := default default_sandbox_status (pl_status o) in
  (footprint_absence_proven old = true -> footprint_absence_proven st = true)
  /\ (consumes_capacity (ls_phase st) = false ->
      consumes_capacity (ls_phase old) = false \/ footprint_absence_proven st = true).

(** What a fenced patch may do after its two tests, given the version it was
    computed from. *)
Inductive patch_ok (h : Hist) (c : Ctx) (o : ParentLease) : list parent_op -> Prop :=
| ok_admit rs sorted reservations gate :
    own c = pl_uid o -> has_cleanup_finalizer o = true ->
    canonical o rs = Ok sorted -> to_json sorted = Some reservations -> holds_tokens h o rs ->
    patch_ok h c o (admit_ops reservations gate)
| ok_cancel :
    patch_ok h c o [PTestAnnotation SANDBOX_ADMISSION_ANNOTATION SANDBOX_ADMISSION_PENDING;
                    PReplaceAnnotation SANDBOX_ADMISSION_ANNOTATION SANDBOX_ADMISSION_CANCELLED]
| ok_strip fs : pristine_pending_lease o = Ok tt -> patch_ok h c o [PSetFinalizers fs]
| ok_status st : status_ok o st -> patch_ok h c o [PSetStatus st]
| ok_repair at_ :
    is_Some (pl_annotations o !! SANDBOX_RESERVATIONS_ANNOTATION) ->
    patch_ok h c o [PAddAnnotation SANDBOX_ADMISSION_ANNOTATION SANDBOX_ADMISSION_ADMITTED;
                    PAddAnnotation SANDBOX_RELEASE_REQUESTED_AT_ANNOTATION at_].

(** A parent that may be removed: never admitted, or released with proof. *)
Definition removable (o : ParentLease) : Prop :=
  pristine_pending_lease o = Ok tt
  \/ exists st, pl_status o = Some st /\ consumes_capacity (ls_phase st) = false.

(** The name of a token, and the slot of a quota token within the grant. *)
Definition token_name_ok (t : Lease) (principal : string) : Prop :=
  (exists slot, 0 <= slot < limit principal /\ l_name t = quota_reservation_name principal slot)
  \/ (exists alias, l_name t = alias_reservation_name principal alias).

Definition req_ok {X} (h : Hist) (c : Ctx) (q : areq X) : Prop :=
  match q with
  | ParentCreate o => own c = None /\ issued c = false /\ fresh_parent o
  | ParentPatch name ops =>
      exists o uid rv rest, seen h o /\ pl_name o = name /\ pl_uid o = Some uid /\ pl_resource_version o = Some rv
        /\ ops = PTestUid uid :: PTestVersion rv :: rest /\ patch_ok h c o rest
  | ParentMerge _ _ key _ => key = SANDBOX_RELEASE_REQUESTED_AT_ANNOTATION
  | ParentDelete name uid rv =>
      exists o, seen h o /\ pl_name o = name /\ pl_uid o = Some uid /\ pl_resource_version o = Some rv /\ removable o
  | TokenCreate t =>
      exists o type principal, seen h o /\ build_admission_reservation (l_name t) type o principal = Ok t
        /\ token_name_ok t principal
  | TokenDelete _ uid _ =>
      exists t u, objs h t /\ l_uid t = Some uid /\ token_lease_uid t = Some u
        /\ (minted h t -> gone h u \/ proven h u)
  | _ => True
  end.

(** What an answer tells, in the history at the time of the answer. *)
Definition ans_ok {X} (h : Hist) (q : areq X) : X -> Prop :=
  match q in areq X return X -> Prop with
  | ParentGet name => fun r =>
      match r with
      | Ok o => seen h o /\ pl_name o = name /\ is_Some (pl_uid o)
                /\ (forall o', seen h o' -> pl_name o' = name -> forall u, pl_uid o' = Some u -> pl_uid o <> Some u -> gone h u)
      | Err e => is_404 e = true -> forall o', seen h o' -> pl_name o' = name -> forall u, pl_uid o' = Some u -> gone h u
      end
  | ParentList _ => fun r => match r with Ok l => Forall (seen h) l | Err _ => True end
  | ParentCreate o => fun r =>
      match r with
      | Ok o' => seen h o' /\ exists u rv at_, o' = parent_stamped o (Some u) (Some rv) (Some at_)
      | Err _ => True
      end
  | ParentPatch _ _ => fun r => match r with Ok o => seen h o | Err _ => True end
  | ParentMerge _ _ _ _ => fun r => match r with Ok o => seen h o | Err _ => True end
  | TokenGet _ => fun r => match r with Ok t => objs h t | Err _ => True end
  | TokenList sel => fun r =>
      match r with Ok l => Forall (fun t => objs h t /\ selected (l_labels t) sel = true) l | Err _ => True end
  | TokenCreate t => fun r =>
      match r with Ok t' => minted h t' /\ exists uid rv, t' = stamped t uid rv | Err _ => True end
  | _ => fun _ => True
  end.

(** The patch that admits a lease. *)
Definition is_admit {X} (q : areq X) : bool :=
  match q with
  | ParentPatch _ ops =>
      existsb (fun op => match op with
                         | PReplaceAnnotation k v => String.eqb k SANDBOX_ADMISSION_ANNOTATION
                                                     && String.eqb v SANDBOX_ADMISSION_ADMITTED
                         | _ => false
                         end) ops
  | _ => false
  end.

Definition sent {X} (c : Ctx) (q : areq X) : Ctx := {| own := own c; issued := issued c || is_admit q |}.

Definition received {X} (c : Ctx) (q : areq X) : X -> Ctx :=
  match q in areq X return X -> Ctx with
  | ParentCreate o => fun r => match r with Ok o' => {| own := pl_uid o'; issued := issued c |} | Err _ => c end
  | q => fun _ => sent c q
  end.

(** ** The guarantee of a program *)

(** [D] holds of what the thread owns at every point where a stage may be
    abandoned. *)
Fixpoint awlp {R} (D : Ctx -> Prop) (h : Hist) (c : Ctx) (p : aprog R) (Q : Hist -> Ctx -> R -> Prop) : Prop :=
  match p with
  | ARet r => Q h c r
  | ACall q k =>
      req_ok h c q /\ D (sent c q) /\
      forall h' r, hle h h' -> hwf h' -> ans_ok h' q r -> awlp D h' (received c q r) (k r) Q
  | AStage q k d =>
      req_ok h c q /\ D (sent c q) /\
      (forall h' r, hle h h' -> hwf h' -> ans_ok h' q r -> awlp D h' (received c q r) (k r) Q) /\
      (forall h' e, hle h h' -> hwf h' -> awlp D h' (sent c q) (d e) Q)
  | APoll k => forall h' o, hle h h' -> hwf h' -> awlp D h' c (k o) Q
  end.

Lemma awlp_use {R} (p : aprog R) D : forall h c (P Q : Hist -> Ctx -> R -> Prop),
  hwf h -> awlp D h c p P ->
  (forall h' c' r, hle h h' -> hwf h' -> P h' c' r -> Q h' c' r) -> awlp D h c p Q.
Proof.
  induction p as [r|X q k IH|X q k IH d IHd|k IH]; intros h c P Q Hwf Hp HQ; cbn in *.
  - by apply HQ.
  - destruct Hp as (Hq & Hd & Hp). split_and!; [done..|]. intros h' r Hle Hwf' Ha.
    eapply IH; [done|by apply Hp|]. intros h'' c' r' Hle'. apply HQ. by etrans.
  - destruct Hp as (Hq & HD & Hp & Hd). split_and!; [done..| |].
    + intros h' r Hle Hwf' Ha. eapply IH; [done|by apply Hp|]. intros h'' c' r' Hle'. apply HQ. by etrans.
    + intros h' e Hle Hwf'. eapply IHd; [done|by apply Hd|]. intros h'' c' r' Hle'. apply HQ. by etrans.
  - intros h' o Hle Hwf'. eapply IH; [done|by apply Hp|]. intros h'' c' r' Hle'. apply HQ. by etrans.
Qed.

Lemma awlp_bind {A B} (p : aprog A) (f : A -> aprog B) D : forall h c Q,
  awlp D h c p (fun h c a => awlp D h c (f a) Q) -> awlp D h c (abind p f) Q.
Proof.
  induction p as [r|X q k IH|X q k IH d IHd|k IH]; intros h c Q; cbn; [done| | |].
  - intros (Hq & Hd & H). split_and!; eauto.
  - intros (Hq & HD & H & Hd). split_and!; eauto.
  - eauto.
Qed.

Lemma awlp_then {A B} (p : aprog A) (f : A -> aprog B) D h c P Q :
  hwf h -> awlp D h c p P ->
  (forall h' c' a, hle h h' -> hwf h' -> P h' c' a -> awlp D h' c' (f a) Q) -> awlp D h c (abind p f) Q.
Proof. intros Hwf Hp Hf. apply awlp_bind. eapply awlp_use; eauto. Qed.

(** A stage: its program, or an interruption at one of its requests. *)
Lemma awlp_droppable {R} (p : aprog R) D : forall h c P,
  hwf h -> awlp D h c p P ->
  awlp (fun _ => True) h c (droppable p)
    (fun h' c' r => match r with Ok a => P h' c' a | Err _ => D c' /\ hle h h' end).
Proof.
  induction p as [r|X q k IH|X q k IH d IHd|k IH]; intros h c P Hwf; cbn.
  - done.
  - intros (Hq & Hd & H). split_and!; [done..| |by intros].
    intros h' r Hle Hwf' Ha. eapply awlp_use; [done|by apply IH, H|].
    intros h'' c'' [a|e] ? ? Hp; [done|]. destruct Hp. split; [done|by etrans].
  - intros (Hq & HD & H & Hd). split_and!; [done..| |by intros].
    intros h' r Hle Hwf' Ha. eapply awlp_use; [done|by apply IH, H|].
    intros h'' c'' [a|e] ? ? Hp; [done|]. destruct Hp. split; [done|by etrans].
  - intros H h' o Hle Hwf'. eapply awlp_use; [done|by apply IH, H|].
    intros h'' c'' [a|e] ? ? Hp; [done|]. destruct Hp. split; [done|by etrans].
Qed.

Lemma awlp_stage {R} (p : aprog R) D h c P :
  D c -> (forall h', hle h h' -> hwf h' -> awlp D h' c p P) ->
  awlp (fun _ => True) h c (await_admission_stage_until p)
    (fun h' c' r => match r with Ok a => P h' c' a | Err _ => D c' end).
Proof.
  intros Hc Hp h' [e|] Hle Hwf; [done|]. eapply awlp_use; [done|by apply awlp_droppable, Hp|].
  intros h'' c'' [a|e] ? ? H; [done|]. by destruct H.
Qed.

(** Requests that change nothing of what the thread owns. *)
Definition quiet {X} (q : areq X) : bool :=
  match q with ParentCreate _ => false | q => negb (is_admit q) end.

Lemma sent_quiet {X} (q : areq X) c : quiet q = true -> sent c q = c.
Proof.
  intros H. assert (Ha : is_admit q = false) by (destruct q; cbn in *; try done; by apply negb_true_iff).
  unfold sent. rewrite Ha, orb_false_r. by destruct c.
Qed.

Lemma received_quiet {X} (q : areq X) c r : quiet q = true -> received c q r = c.
Proof. intros H. rewrite <- (sent_quiet q c H) at 2. by destruct q. Qed.

Lemma awlp_quiet {X} (q : areq X) D h c Q :
  quiet q = true -> D c -> req_ok h c q ->
  (forall h' r, hle h h' -> hwf h' -> ans_ok h' q r -> Q h' c r) -> awlp D h c (acall q) Q.
Proof.
  intros Hq Hc Hr HQ. cbn. rewrite sent_quiet by done. split_and!; [done..|].
  intros h' r. rewrite received_quiet by done. apply HQ.
Qed.

(** Requests stay permitted as history grows. *)
Lemma holds_tokens_mono h h' o rs : hle h h' -> holds_tokens h o rs -> holds_tokens h' o rs.
Proof. intros Hle H r Hr. destruct (H r Hr) as (t & Hm & ?). exists t. split; [by apply (hle_minted _ _ Hle)|done]. Qed.

Lemma patch_ok_mono h h' c o ops : hle h h' -> patch_ok h c o ops -> patch_ok h' c o ops.
Proof. intros Hle []; econstructor; eauto using holds_tokens_mono. Qed.

Lemma req_ok_mono {X} h h' c (q : areq X) : hle h h' -> req_ok h c q -> req_ok h' c q.
Proof.
  intros Hle. destruct q; cbn; try done.
  - intros (o & uid & rv & rest & Hs & H). exists o, uid, rv, rest. split; [by apply (hle_seen _ _ Hle)|].
    destruct H as (? & ? & ? & ? & ?). split_and!; eauto using patch_ok_mono.
  - intros (o & Hs & H). exists o. split; [by apply (hle_seen _ _ Hle)|done].
  - intros (o' & ty & pr & Hs & H). exists o', ty, pr. split; [by apply (hle_seen _ _ Hle)|done].
  - intros (t & u & Ho & Hu & Hl & H). exists t, u. split_and!; [by apply (hle_objs _ _ Hle)|done..|].
    intros Hm. destruct (H (hle_old _ _ Hle t Ho Hm)); [left; by apply (hle_gone _ _ Hle)|right; by eapply proven_mono].
Qed.

Lemma awlp_hle {R} (p : aprog R) D h h' c Q :
  hle h h' -> (forall h1 h2 c r, hle h1 h2 -> Q h1 c r -> Q h2 c r) -> hwf h' -> awlp D h c p Q -> awlp D h' c p Q.
Proof.
  intros Hle HQ Hwf. destruct p as [r|X q k|X q k d|k]; cbn.
  - eauto.
  - intros (Hq & Hd & H). split_and!; [by eapply req_ok_mono|done|]. intros h'' r Hle'. apply H. by etrans.
  - intros (Hq & HD & H & Hd). split_and!; [by eapply req_ok_mono|done|intros h'' r Hle'; apply H|intros h'' e Hle'; apply Hd];
      by etrans.
  - intros H h'' o Hle'. apply H. by etrans.
Qed.

End System.
