(* ===== verification/AdmissionSteps.v ===== *)
(** * AdmissionSteps: the guarantee of every admission program

    One lemma per program of Admission: its requests are permitted
    ([AdmissionSystem.req_ok]) in every world its answers allow, and what its
    result says of the history. *)

From S2P Require Import Prelude Text Durations PoolManager Quantity Policy SandboxObjects SandboxLifecycle LedgerApi AccessLedger SandboxAccess AdmissionApi Admission AdmissionSystem.

Local Open Scope kobe_scope.

(** Only one answer is successful. *)
Ltac units := repeat match goal with u : unit |- _ => destruct u end.

(** Read what a successful check says. *)
Ltac oks := repeat match goal with H : ok_or _ _ = Ok _ |- _ => apply ok_or_Ok in H end.

(** Read every fact about an older history in the newest one. *)
Ltac advance :=
  repeat match goal with
    | Hle : hle ?h _, H : seen ?h _ |- _ => apply (hle_seen _ _ Hle) in H
    | Hle : hle ?h _, H : objs ?h _ |- _ => apply (hle_objs _ _ Hle) in H
    | Hle : hle ?h _, H : minted ?h _ |- _ => apply (hle_minted _ _ Hle) in H
    | Hle : hle ?h _, H : gone ?h _ |- _ => apply (hle_gone _ _ Hle) in H
    | Hle : hle ?h _, H : proven ?h _ |- _ => apply (proven_mono _ _ _ Hle) in H
    | Hle : hle ?h _, H : dead ?h _ |- _ => apply (dead_mono _ _ _ Hle) in H
    | Hle : hle ?h _, H : holds_tokens ?h _ _ |- _ => apply (holds_tokens_mono _ _ _ _ Hle) in H
    end.

Section Steps.
Context (principal_hash_for : SandboxPrincipal -> string).
Context `{C : Codec} {reservations_json : Json (list AdmissionReservation)}.
Context (parse_rfc3339 : string -> option Z) (to_rfc3339 to_rfc3339_z : Z -> string) (representable : Z -> bool).
Context (lease_ns ledger_ns : string).
Context (limit : string -> Z).

#[local] Abbreviation awlp := (awlp principal_hash_for ledger_ns limit).
#[local] Abbreviation req_ok := (req_ok principal_hash_for ledger_ns limit).
#[local] Abbreviation pristine := pristine_pending_lease.

(** ** Shapes *)

Lemma shape_base_facts expected actual : validate_lease_shape_base expected actual = Ok tt ->
  pl_name actual = pl_name expected /\ pl_spec actual = pl_spec expected
  /\ normalized_finalizers actual = normalized_finalizers expected
  /\ (forall u, pl_uid expected = Some u -> pl_uid actual = Some u).
Proof.
  unfold validate_lease_shape_base. intros H. unbind H. clear H.
  rewrite !deny_if_Ok in *. bool_props. split_and!; try done.
  intros u Hu. rewrite Hu in *. by bool_props.
Qed.

Lemma shape_facts expected actual marker : validate_lease_shape expected actual marker = Ok tt ->
  pl_name actual = pl_name expected /\ pl_spec actual = pl_spec expected
  /\ normalized_finalizers actual = normalized_finalizers expected
  /\ (forall u, pl_uid expected = Some u -> pl_uid actual = Some u)
  /\ admission_marker actual = Some marker.
Proof.
  unfold validate_lease_shape. intros H. unbind H. rewrite deny_if_Ok in H. bool_props. units.
  by destruct (shape_base_facts _ _ Hok) as (?&?&?&?).
Qed.

Lemma shape_unadmitted_facts expected actual u : validate_lease_shape_unadmitted expected actual = Ok u ->
  pristine actual = Ok tt /\ pl_name actual = pl_name expected
  /\ (forall u, pl_uid expected = Some u -> pl_uid actual = Some u).
Proof.
  unfold validate_lease_shape_unadmitted. intros H. unbind H. units.
  by destruct (shape_base_facts _ _ H) as (?&?&?&?).
Qed.

(** ** Errors *)

(** [AdmissionNotCommitted] is reported by the admission itself only. *)
Definition clean {A} (r : result A SandboxLeaseMutationError) : Prop :=
  match r with Err AdmissionNotCommitted => False | _ => True end.
Arguments clean {A} r : simpl never.

Lemma clean_bind {A B} (r : result A SandboxLeaseMutationError) (f : A -> result B SandboxLeaseMutationError) :
  clean r -> (forall a, clean (f a)) -> clean (let? a := r in f a).
Proof. destruct r; auto. Qed.

Lemma clean_deny b e : clean (Err (A := unit) e) -> clean (deny_if b e).
Proof. by destruct b. Qed.

Lemma clean_ok_or {A} (o : option A) e : clean (Err (A := A) e) -> clean (ok_or o e).
Proof. by destruct o. Qed.

Create HintDb clean.
Hint Resolve clean_bind clean_deny clean_ok_or : clean.
Hint Extern 1 (clean (Err _)) => exact I : clean.
Hint Extern 1 (clean (Ok _)) => exact I : clean.
Hint Extern 2 (clean (match _ with _ => _ end)) => case_match : clean.
Hint Extern 1 (clean (if _ then _ else _)) => case_match : clean.

Ltac solve_clean := intros; auto 20 with clean nocore.

Lemma clean_kube {A} (r : result A kube_error) : clean (kube_mutation r).
Proof. by destruct r. Qed.

Lemma clean_ledger {A} (r : result A AccessLedgerError) : clean (ledger_mutation r).
Proof. by destruct r. Qed.

Lemma clean_pristine lease : clean (pristine lease).
Proof. unfold pristine_pending_lease. solve_clean. Qed.

Lemma clean_base expected actual : clean (validate_lease_shape_base expected actual).
Proof. unfold validate_lease_shape_base, require_provisioning_deadline. solve_clean. Qed.
Hint Resolve clean_kube clean_ledger clean_pristine clean_base : clean.

Lemma clean_shape expected actual marker : clean (validate_lease_shape expected actual marker).
Proof. unfold validate_lease_shape. solve_clean. Qed.

Lemma clean_unadmitted expected actual : clean (validate_lease_shape_unadmitted expected actual).
Proof. unfold validate_lease_shape_unadmitted. solve_clean. Qed.

Lemma clean_canonical lease rs : clean (canonical_reservation_provenance principal_hash_for lease rs).
Proof.
  assert (Hc : forall principal alias rs names uids q a, clean (check_reservations principal alias names uids q a rs)).
  { intros principal alias. induction rs0 as [|r rs0 IH]; intros; cbn [check_reservations]; solve_clean. }
  unfold canonical_reservation_provenance. solve_clean.
Qed.
Hint Resolve clean_shape clean_unadmitted clean_canonical : clean.

Lemma clean_persisted lease : clean (persisted_reservation_provenance principal_hash_for lease).
Proof. unfold persisted_reservation_provenance. solve_clean. Qed.

Lemma clean_encoded lease rs : clean (encoded_reservation_provenance principal_hash_for lease rs).
Proof. unfold encoded_reservation_provenance. solve_clean. Qed.

Lemma clean_token_shape t lease u principal : clean (validate_reservation_shape ledger_ns t lease u principal).
Proof. unfold validate_reservation_shape. solve_clean. Qed.

Lemma clean_fence lease : clean (fence lease).
Proof. unfold fence. solve_clean. Qed.
Hint Resolve clean_persisted clean_encoded clean_token_shape clean_fence : clean.

Lemma clean_owned lease u persisted owned : forall q a,
  clean (check_owned principal_hash_for ledger_ns lease u persisted q a owned).
Proof. induction owned as [|t owned IH]; intros q a; cbn [check_owned]; solve_clean. Qed.

Lemma clean_check_admitted lease actual rs gate changed :
  clean (check_admitted principal_hash_for lease actual rs gate changed).
Proof. unfold check_admitted. solve_clean. Qed.
Hint Resolve clean_owned clean_check_admitted : clean.

(** ** Calls *)

(** Programs that leave what the thread owns unchanged. *)
Section quiet.
Context (D : Ctx -> Prop) (c : Ctx) (HD : D c).

(** One request. *)
Ltac request h' r Ha :=
  eapply awlp_then;
  [done
  |eapply awlp_quiet with (Q := fun h' c' r => c' = c /\ ans_ok h' _ r); [reflexivity|exact HD| |by intros]
  |intros h' ? r ? ? [-> Ha]; cbn in Ha; advance].

(** A program with a lemma [L] of its own. *)
Ltac run L h' r Hp :=
  eapply awlp_then; [done|eapply L|intros h' ? r ? ? [-> Hp]; advance].

(** A successful removal: the lease is gone. *)
Definition removed (u : string) (h : Hist) (c' : Ctx) (r : result unit SandboxLeaseMutationError) : Prop :=
  c' = c /\ clean r /\ (r = Ok tt -> gone h u).

(** A result passed on as it is. *)
Ltac leaf :=
  cbn; try unfold removed; split_and?; try done;
  match goal with
  | E : ?f = Err ?e |- clean (Err ?e) => let H := fresh in assert (H : clean f) by solve_clean; rewrite E in H; exact H
  | |- clean _ => solve_clean
  end.

(** ** Token sets *)

Lemma shape_of_token t lease u principal k :
  validate_reservation_shape ledger_ns t lease u principal = Ok k ->
  (exists v, l_uid t = Some v) /\ token_lease_uid t = Some u.
Proof.
  unfold validate_reservation_shape. intros H. unbind H. clear H. rewrite !deny_if_Ok in *. bool_props.
  split.
  - destruct (l_uid t); [by eexists|done].
  - unfold token_lease_uid. match goal with H : l_labels t = _ |- _ => rewrite H end. by simplify_map_eq.
Qed.

Lemma check_owned_held lease u persisted owned : forall q a held,
  check_owned principal_hash_for ledger_ns lease u persisted q a owned = Ok held ->
  forall r, r ∈ held -> exists t, t ∈ owned /\ l_name t = ar_name r /\ l_uid t = Some (ar_uid r) /\ token_lease_uid t = Some u.
Proof.
  induction owned as [|t owned IH]; intros q a held; cbn.
  - intros [= <-] r Hr. by apply elem_of_nil in Hr.
  - intros H. unbind H. simplify_eq. intros r [->|Hr]%elem_of_cons; cbn.
    + destruct (shape_of_token _ _ _ _ _ Hok) as [[v Hv] Hu]. exists t. rewrite Hv. cbn.
      split_and!; [left|done..].
    + destruct (IH _ _ _ Hok2 r Hr) as (t' & Ht & ?). exists t'. split; [by right|done].
Qed.

Lemma awlp_check_missing lease u held complete expected : forall h, hwf h ->
  awlp D h c (check_missing principal_hash_for ledger_ns lease u held complete expected)
    (fun _ c' r => c' = c /\ clean r).
Proof.
  induction expected as [|e expected IH]; intros h Hwf; cbn [check_missing]; [done|].
  case_match; [by apply IH|]. request h1 found Ha; [done|].
  destruct found; repeat case_match; cbn; try done; try (by apply IH); leaf.
Qed.

(** A set of tokens that carry the UID of a lease. *)
Definition tokens_of (h : Hist) (u : string) (rs : list AdmissionReservation) : Prop :=
  forall r, r ∈ rs -> exists t, objs h t /\ l_uid t = Some (ar_uid r) /\ token_lease_uid t = Some u.

Lemma awlp_verified lease u persisted complete h : hwf h ->
  awlp D h c (verified_reservations_for_lease principal_hash_for ledger_ns lease u persisted complete)
    (fun h' c' r => c' = c /\ clean r /\ match r with Ok held => tokens_of h' u held | Err _ => True end).
Proof.
  intros Hwf. unfold verified_reservations_for_lease. case_match; [done|].
  request h1 listed Ha; [done|]. destruct listed as [owned|e]; cbn; [|done].
  case_match eqn:Hc; [|leaf].
  eapply awlp_then; [done|by apply awlp_check_missing|]. intros h2 ? r Hle Hwf2 [-> Hcl].
  destruct r; [|done]. case_match; cbn; [done|]. split_and!; [done..|].
  intros r Hr. destruct (check_owned_held _ _ _ _ _ _ _ Hc r Hr) as (t & Ht & Hn & Hu & Hl).
  rewrite Forall_forall in Ha. destruct (Ha t Ht) as [Ho _]. exists t. split_and!; [by apply (hle_objs _ _ Hle)|done..].
Qed.

Lemma awlp_release_tokens u rs : forall h, hwf h -> gone h u \/ proven h u -> tokens_of h u rs ->
  awlp D h c (release_admission_reservations rs) (fun _ c' _ => c' = c).
Proof.
  induction rs as [|r rs IH]; intros h Hwf Hg Ht; cbn [release_admission_reservations]; [done|].
  request h1 d Ha.
  { destruct (Ht r) as (t & Ho & Hu & Hl); [left|]. exists t, u. by split_and!. }
  case_match; [done|]. unfold confirm_token_gone.
  eapply awlp_then with (P := fun _ c' _ => c' = c); [done| |].
  { request h2 f Hf; done. }
  intros h2 ? r' Hle Hwf2 ->. destruct r'; [|done]. apply IH; [done| |].
  - destruct Hg; advance; [by left|by right].
  - intros r' Hr. destruct (Ht r') as (t & Ho & ?); [by right|]. exists t. advance. done.
Qed.

Lemma awlp_release_reservations lease u h : hwf h -> gone h u \/ proven h u ->
  awlp D h c (release_reservations_for_lease principal_hash_for ledger_ns lease u)
    (fun _ c' r => c' = c /\ clean r).
Proof.
  intros Hwf Hg. unfold release_reservations_for_lease. case_match; [done|].
  case_match; [|leaf]. run awlp_verified h1 r Hr; [done|]. destruct Hr as [Hcl Hr]. destruct r; [|done].
  eapply awlp_then; [done|eapply awlp_release_tokens; [done| |done]|]; [destruct Hg; advance; [by left|by right]|].
  intros h2 ? r ? ? ->. by destruct r as [|[]].
Qed.

(** ** Removing a lease that was never admitted *)

Lemma awlp_ledger_cleanup lease u h : hwf h -> gone h u ->
  awlp D h c (finish_pending_ledger_cleanup principal_hash_for ledger_ns lease u)
    (fun h' c' r => c' = c /\ clean r /\ gone h' u).
Proof.
  intros Hwf Hg. unfold finish_pending_ledger_cleanup.
  run awlp_release_reservations h1 r Hr; [done|by left|].
  destruct r; [|done]. request h2 g Ha; [done|]. by destruct g.
Qed.

Lemma removed_gone u h (c' : Ctx) r : c' = c /\ clean r /\ gone h u -> removed u h c' r.
Proof. by intros (-> & ? & ?). Qed.

Lemma awlp_delete_and_confirm lease u current h :
  hwf h -> seen h current -> pl_uid current = Some u -> pristine current = Ok tt ->
  awlp D h c (delete_and_confirm principal_hash_for ledger_ns lease u current) (removed u).
Proof.
  intros Hwf Hs Hu Hp. unfold delete_and_confirm. destruct (pl_resource_version current) eqn:Hrv; [|done].
  request h1 d Ha. { exists current. split_and!; [done..|by left]. }
  request h2 g Hg; [done|]. destruct g as [rem|e].
  - cbn. repeat case_match; done.
  - destruct (is_404 e) eqn:He; [|done].
    eapply awlp_use; [done|apply awlp_ledger_cleanup; [done|by eapply Hg]|]. intros; by apply removed_gone.
Qed.

Lemma awlp_strip_and_delete lease u current h :
  hwf h -> seen h current -> pl_uid current = Some u -> pristine current = Ok tt ->
  awlp D h c (strip_and_delete principal_hash_for ledger_ns lease u current) (removed u).
Proof.
  intros Hwf Hs Hu Hp. unfold strip_and_delete. case_match; [|by apply awlp_delete_and_confirm].
  destruct (pl_resource_version current) eqn:Hrv; [|done].
  request h1 p Ha. { exists current. do 3 eexists. split_and!; try done. by apply ok_strip. }
  destruct p as [patched|e].
  - case_match eqn:Hv; [|leaf]. destruct (shape_unadmitted_facts _ _ _ Hv) as (? & ? & Huid).
    apply awlp_delete_and_confirm; [done..|by apply Huid|done].
  - request h2 g Hg; [done|]. destruct g as [reread|e'].
    + case_match eqn:Hv; [|leaf]. destruct (shape_unadmitted_facts _ _ _ Hv) as (? & ? & Huid).
      apply awlp_delete_and_confirm; [done|by apply Hg|by apply Huid|done].
    + destruct (is_404 e') eqn:He; [|done].
      eapply awlp_use; [done|apply awlp_ledger_cleanup; [done|by eapply Hg]|]. intros; by apply removed_gone.
Qed.

Lemma awlp_delete_exact lease h : hwf h -> seen h lease ->
  awlp D h c (delete_exact_pending_lease principal_hash_for ledger_ns lease)
    (fun h' c' r => c' = c /\ clean r /\ (r = Ok tt -> exists u, pl_uid lease = Some u /\ gone h' u)).
Proof.
  intros Hwf Hs. unfold delete_exact_pending_lease. case_match eqn:Hp; [|leaf].
  unbind Hp. apply ok_or_Ok in Hp. request h1 g Hg; [done|].
  assert (Hr : forall h' (c' : Ctx) r, removed a h' c' r ->
    c' = c /\ clean r /\ (r = Ok tt -> exists u, pl_uid lease = Some u /\ gone h' u)).
  { intros h' c' r (-> & Hcl & Hgone). split_and!; [done..|]. intros ->. exists a. auto. }
  destruct g as [current|e].
  - destruct Hg as (Hs' & Hn & _). case_match eqn:Hu; [done|]. bool_props.
    case_match eqn:Hv; [|leaf].
    assert (Hpr : pristine current = Ok tt).
    { destruct (validate_lease_shape_unadmitted lease current) eqn:E; eapply shape_unadmitted_facts; [exact E|exact Hv]. }
    eapply awlp_use; [done|by apply awlp_strip_and_delete|]. intros; by apply Hr.
  - destruct (is_404 e) eqn:He; [|done].
    eapply awlp_use; [done|apply awlp_ledger_cleanup; [done|by eapply Hg]|]. intros. by apply Hr, removed_gone.
Qed.

(** ** Acquiring *)

Lemma awlp_rollback lease h : hwf h -> seen h lease ->
  awlp D h c (rollback_partial_reservations principal_hash_for ledger_ns lease) (fun _ c' _ => c' = c).
Proof. intros Hwf Hs. unfold rollback_partial_reservations. by run awlp_delete_exact h1 r Hr. Qed.

(** The names a principal may reserve. *)
Definition reservable (principal name : string) : Prop :=
  (exists slot, 0 <= slot < limit principal /\ name = quota_reservation_name principal slot)
  \/ (exists alias, name = alias_reservation_name principal alias).

Lemma awlp_create_reservation kind name principal lease h :
  hwf h -> seen h lease -> reservable principal name ->
  awlp D h c (create_reservation principal_hash_for ledger_ns kind name principal lease)
    (fun h' c' r => c' = c /\ match r with Ok (Some r) => holds_tokens h' lease [r] | _ => True end).
Proof.
  intros Hwf Hs Hn. unfold create_reservation.
  destruct (build_admission_reservation ledger_ns name (reservation_type kind) lease principal) as [token|e] eqn:Hb; [|done].
  pose proof Hb as Hb'. unfold build_admission_reservation in Hb'. unbind Hb'. apply ok_or_Ok in Hok.
  simplify_eq. request h1 created Ha.
  { exists lease, (reservation_type kind), principal. done. }
  destruct created as [created|e]; [|cbn; by destruct (is_409 e)].
  destruct Ha as (Hm & uid & rv & ->). cbn in *. destruct uid as [uid|].
  - cbn. split; [done|]. intros r ->%list_elem_of_singleton. eexists. split; [exact Hm|]. cbn. split_and!; [done..|].
    rewrite Hok. unfold token_lease_uid, reservation_labels. cbn. by simplify_map_eq.
  - eapply awlp_then; [done|by apply awlp_rollback|]. by intros h2 ? r ? ? ->.
Qed.

Lemma holds_tokens_app h o rs rs' : holds_tokens h o rs -> holds_tokens h o rs' -> holds_tokens h o (rs ++ rs').
Proof. intros H H' r [Hr|Hr]%elem_of_app; auto. Qed.

Lemma awlp_scan_slots principal lease slots : forall acquired h,
  hwf h -> seen h lease -> holds_tokens h lease acquired -> Forall (fun s => 0 <= s < limit principal) slots ->
  awlp D h c (scan_slots principal_hash_for ledger_ns principal lease acquired slots)
    (fun h' c' r => c' = c /\ match r with Ok rs => holds_tokens h' lease rs | Err _ => True end).
Proof.
  induction slots as [|s slots IH]; intros acquired h Hwf Hs Ht Hf; cbn [scan_slots].
  - eapply awlp_then; [done|by apply awlp_rollback|]. by intros h1 ? r ? ? ->.
  - inversion_clear Hf. run awlp_create_reservation h1 r Hr; [done..|left; eauto|].
    destruct r as [[r|]|e].
    + cbn. split; [done|]. by apply holds_tokens_app.
    + by apply IH.
    + destruct e; try done. eapply awlp_then; [done|by apply awlp_rollback|]. by intros h2 ? r ? ? ->.
Qed.

Lemma slots_below_range max principal : max <= limit principal -> Forall (fun s => 0 <= s < limit principal) (slots_below max).
Proof.
  intros Hm. apply Forall_forall. intros s Hs. unfold slots_below in Hs.
  apply list_elem_of_fmap in Hs as (n & -> & [_ Hn]%elem_of_seq). lia.
Qed.

Lemma awlp_acquire_quota principal lease acquired max h :
  hwf h -> seen h lease -> holds_tokens h lease acquired -> max <= limit principal ->
  awlp D h c (acquire_quota principal_hash_for ledger_ns principal lease acquired max)
    (fun h' c' r => c' = c /\ match r with Ok rs => holds_tokens h' lease rs | Err _ => True end).
Proof.
  intros Hwf Hs Ht Hm. unfold acquire_quota. request h1 listed Ha; [done|].
  match goal with |- context [if ?b then _ else _] => destruct b end.
  - eapply awlp_then; [done|by apply awlp_rollback|]. by intros h2 ? r ? ? ->.
  - apply awlp_scan_slots; [done..|by apply slots_below_range].
Qed.

Lemma awlp_acquire lease identity alias max h :
  hwf h -> seen h lease -> max <= limit (principal_hash_for identity) ->
  awlp D h c (acquire_admission_reservations principal_hash_for ledger_ns lease identity alias max)
    (fun h' c' r => c' = c /\ match r with Ok rs => holds_tokens h' lease rs | Err _ => True end).
Proof.
  intros Hwf Hs Hm. unfold acquire_admission_reservations. destruct alias as [alias|].
  - run awlp_create_reservation h1 r Hr; [done..|right; eauto|]. destruct r as [[r|]|e]; [|done..].
    by apply awlp_acquire_quota.
  - apply awlp_acquire_quota; [done..| |done]. by intros r Hr%elem_of_nil.
Qed.

(** ** Checkpointing and cancelling *)

Lemma fence_Ok lease u rv : fence lease = Ok (u, rv) -> pl_uid lease = Some u /\ pl_resource_version lease = Some rv.
Proof. unfold fence. intros H. unbind H. simplify_eq. by rewrite !ok_or_Ok in *. Qed.

(** A fenced write of a status. *)
Lemma status_req h lease u rv st : seen h lease -> fence lease = Ok (u, rv) -> status_ok lease st ->
  req_ok h c (ParentPatch (pl_name lease) [PTestUid u; PTestVersion rv; PSetStatus st]).
Proof.
  intros Hs [Hu Hv]%fence_Ok Hst. exists lease. do 3 eexists. split_and!; try done. by apply ok_status.
Qed.

Lemma with_deadline_ok lease deadline :
  status_ok lease (with_deadline (default default_sandbox_status (pl_status lease)) deadline).
Proof. split; [done|]. cbn. by left. Qed.

Lemma awlp_persist lease deadline h : hwf h -> seen h lease ->
  awlp D h c (persist_pending_provisioning_deadline lease deadline)
    (fun h' c' r => c' = c /\ match r with
                              | Ok o => seen h' o /\ validate_lease_shape lease o SANDBOX_ADMISSION_PENDING = Ok tt
                              | Err _ => True
                              end).
Proof.
  intros Hwf Hs. unfold persist_pending_provisioning_deadline. case_match eqn:Hf; [|done]. unbind Hf. simplify_eq.
  match goal with |- context [match ?f with (_, _) => _ end] => destruct f as [u rv] end.
  assert (Hcheck : forall (h' : Hist) o, seen h' o ->
    match (let? _ := validate_lease_shape lease o SANDBOX_ADMISSION_PENDING in
           let? _ := require_provisioning_deadline o deadline in Ok o) with
    | Ok o => seen h' o /\ validate_lease_shape lease o SANDBOX_ADMISSION_PENDING = Ok tt
    | Err _ => True
    end).
  { intros h' o Ho. destruct (validate_lease_shape lease o SANDBOX_ADMISSION_PENDING) as [[]|] eqn:E; [|done].
    destruct (require_provisioning_deadline o deadline); done. }
  request h1 p Ha. { apply status_req; [done..|apply with_deadline_ok]. }
  destruct p as [o|e].
  - split; [done|]. by apply Hcheck.
  - request h2 g Hg; [done|]. split; [done|]. destruct g as [o|e']; [|done]. apply Hcheck, Hg.
Qed.

(** How a cancellation ended, for the lease with UID [u]. *)
Definition cancellation (name u : string) (h : Hist) (o : PendingAdmissionCancellation) : Prop :=
  match o with
  | Cancelled l => seen h l /\ pl_uid l = Some u /\ admission_marker l = Some SANDBOX_ADMISSION_CANCELLED
  | AdmissionWon l => seen h l /\ pl_name l = name /\ pl_uid l = Some u
                      /\ admission_marker l = Some SANDBOX_ADMISSION_ADMITTED
  | Gone => gone h u
  end.

Lemma awlp_cancel_attempts n expected u : forall last h,
  hwf h -> seen h expected -> pl_uid expected = Some u ->
  awlp D h c (cancel_attempts n expected u last)
    (fun h' c' r => c' = c /\ match r with Ok o => cancellation (pl_name expected) u h' o | Err _ => True end).
Proof.
  induction n as [|n IH]; intros last h Hwf Hs Hu; cbn [cancel_attempts]; [done|].
  request h1 g Hg; [done|]. destruct g as [current|e].
  2: { cbn. split; [done|]. destruct (is_404 e) eqn:He; [|done]. by eapply Hg. }
  destruct Hg as (Hs' & Hn & _). repeat case_match; bool_props; try done.
  match goal with E : ok_or _ _ = Ok _ |- _ => apply ok_or_Ok in E end. request h2 p Hp.
  { exists current. do 3 eexists. split_and!; [done|congruence|done..|]. by apply ok_cancel. }
  destruct p as [cancelled|e]; [|by apply IH].
  cbn. split; [done|]. case_match eqn:Hv; [|done]. unbind Hv. simplify_eq. units.
  destruct (shape_facts _ _ _ Hok) as (_ & _ & _ & Huid & Hm). cbn. auto.
Qed.

Lemma awlp_cancel_and_reap lease u h : hwf h -> seen h lease -> pl_uid lease = Some u ->
  awlp D h c (cancel_and_reap_pending_admission principal_hash_for ledger_ns lease)
    (fun h' c' r => c' = c /\ match r with
                              | Ok (AdmissionWon l) => seen h' l /\ pl_name l = pl_name lease /\ pl_uid l = Some u
                                                       /\ admission_marker l = Some SANDBOX_ADMISSION_ADMITTED
                              | Ok _ => dead h' u
                              | Err _ => True
                              end).
Proof.
  intros Hwf Hs Hu. unfold cancel_and_reap_pending_admission, cancel_pending_admission. rewrite Hu.
  run awlp_cancel_attempts h1 r Hr; [done..|]. destruct r as [[l|l|]|e]; cbn in Hr.
  - destruct Hr as (Hl & Hul & Hm). run awlp_delete_exact h2 r Hr; [done..|].
    destruct r; [|done]. split; [done|]. right. by exists l.
  - done.
  - run awlp_release_reservations h2 r Hr'; [done|by left|]. destruct r; [|done]. split; [done|]. by left.
  - done.
Qed.

(** ** Repair and sweeps *)

Lemma awlp_repair lease persisted h :
  hwf h -> seen h lease -> is_Some (pl_annotations lease !! SANDBOX_RESERVATIONS_ANNOTATION) ->
  awlp D h c (repair_admitted_release_intent principal_hash_for parse_rfc3339 to_rfc3339 ledger_ns lease persisted)
    (fun _ c' _ => c' = c).
Proof.
  intros Hwf Hs Ha. unfold repair_admitted_release_intent. destruct (fence lease) as [[u rv]|] eqn:Hf; [|done].
  apply fence_Ok in Hf as [Hu Hv]. run awlp_verified h1 r Hr; [done|]. destruct r; [|done].
  request h2 now Hnow; [done|]. cbn zeta. request h3 p Hp.
  { exists lease. do 3 eexists. split_and!; [done..|]. by apply ok_repair. }
  destruct p; [done|]. request h4 g Hg; done.
Qed.

Lemma active_shape_reservations lease rs :
  proven_active_release_shape principal_hash_for lease_ns lease = Ok rs ->
  is_Some (pl_annotations lease !! SANDBOX_RESERVATIONS_ANNOTATION).
Proof.
  unfold proven_active_release_shape, persisted_reservation_provenance. intros H. unbind H.
  oks. by eexists.
Qed.

Lemma awlp_reconcile_candidate lease now h : hwf h -> seen h lease ->
  awlp D h c (reconcile_expired_admission_candidate principal_hash_for parse_rfc3339 to_rfc3339 lease_ns ledger_ns lease now)
    (fun _ c' _ => c' = c).
Proof.
  intros Hwf Hs. unfold reconcile_expired_admission_candidate. case_match; [done|]. case_match eqn:Hp.
  - case_match.
    + destruct (pl_uid lease) as [u|] eqn:Hu.
      * run awlp_cancel_and_reap h1 r Hr; [done..|]. by destruct r.
      * unfold cancel_and_reap_pending_admission, cancel_pending_admission. by rewrite Hu.
    + run awlp_delete_exact h1 r Hr; [done..|]. by destruct r.
  - case_match eqn:Ha; [|done].
    eapply awlp_then; [done|apply awlp_repair; [done..|by eapply active_shape_reservations]|].
    intros h1 ? r ? ? ->. by destruct r.
Qed.

Lemma awlp_reconcile_candidates now leases : forall h, hwf h -> Forall (seen h) leases ->
  awlp D h c (reconcile_candidates principal_hash_for parse_rfc3339 to_rfc3339 lease_ns ledger_ns now leases)
    (fun _ c' _ => c' = c).
Proof.
  induction leases as [|l leases IH]; intros h Hwf Hf; cbn [reconcile_candidates]; [done|]. inversion_clear Hf.
  eapply awlp_then; [done|by apply awlp_reconcile_candidate|]. intros h1 ? r Hle ? ->. apply IH; [done|].
  eapply Forall_impl; [done|]. intros; by apply (hle_seen _ _ Hle).
Qed.

Lemma awlp_sweep now h : hwf h ->
  awlp D h c (reap_expired_pending_admissions_once principal_hash_for parse_rfc3339 to_rfc3339 lease_ns ledger_ns now)
    (fun _ c' _ => c' = c).
Proof.
  intros Hwf. unfold reap_expired_pending_admissions_once. request h1 l Hl; [done|].
  destruct l; [|done]. by apply awlp_reconcile_candidates.
Qed.

Lemma awlp_cancel_expired identity now h : hwf h ->
  awlp D h c (cancel_expired_pending_admissions principal_hash_for parse_rfc3339 to_rfc3339 lease_ns ledger_ns identity now)
    (fun _ c' _ => c' = c).
Proof.
  intros Hwf. unfold cancel_expired_pending_admissions. request h1 l Hl; [done|].
  destruct l; [|done]. apply awlp_reconcile_candidates; [done|].
  rewrite Forall_forall in *. intros x Hx. apply Hl. apply list_elem_of_In, filter_In in Hx as [Hx _].
  by apply list_elem_of_In.
Qed.

(** ** Orphaned tokens *)

Lemma orphan_identity_facts t id : orphan_reservation_identity ledger_ns t = Ok id ->
  l_uid t = Some (or_uid id) /\ token_lease_uid t = Some (or_lease_uid id)
  /\ token_lease_name t = Some (or_lease_name id).
Proof.
  unfold orphan_reservation_identity. intros H. unbind H. simplify_eq. oks. cbn.
  unfold token_lease_uid, token_lease_name.
  repeat match goal with H : nonempty ?o = Some _ |- _ => destruct o eqn:?; cbn in H; [|done]; case_match; simplify_eq end.
  split_and!; [done..|]. destruct (l_annotations t !! SANDBOX_RESERVATION_LEASE_NAME_ANNOTATION) eqn:E; [|done]. cbn in Hok11.
  case_match; [|done]. simplify_eq. exact E.
Qed.

(** An orphan may be deleted: its lease, if it was one of ours, is gone. *)
Lemma awlp_delete_orphan t id h :
  hwf h -> objs h t -> orphan_reservation_identity ledger_ns t = Ok id -> (minted h t -> gone h (or_lease_uid id)) ->
  awlp D h c (delete_orphan id) (fun _ c' _ => c' = c).
Proof.
  intros Hwf Ho (Hu & Hl & Hn)%orphan_identity_facts Hg. unfold delete_orphan. request h1 d Hd.
  { exists t, (or_lease_uid id). split_and!; [done..|]. intros Hm. left. auto. }
  request h2 g Hg'; done.
Qed.

Lemma awlp_reap_orphan live t h : hwf h -> objs h t ->
  awlp D h c (reap_orphan principal_hash_for ledger_ns live t) (fun _ c' _ => c' = c).
Proof.
  intros Hwf Ho. unfold reap_orphan. case_match; [done|]. case_match eqn:Hid; [|done].
  repeat (case_match; [done|]). request h1 g Hg; [done|].
  assert (Hgone : (forall o' u', seen h1 o' -> pl_name o' = or_lease_name a -> pl_uid o' = Some u' ->
                    u' = or_lease_uid a -> gone h1 u') ->
                  awlp D h1 c (delete_orphan a) (fun _ c' _ => c' = c)).
  { intros Habs. eapply awlp_delete_orphan; [done..|]. intros Hm.
    destruct (orphan_identity_facts _ _ Hid) as (_ & Hl & Hn).
    destruct (hwf_minted h1 ltac:(done) t Hm) as (o' & u & Hs & Hu & Hl' & Hn').
    rewrite Hl in Hl'. rewrite Hn in Hn'. simplify_eq. by eapply Habs. }
  destruct g as [parent|e].
  - destruct Hg as (_ & _ & _ & Hg). case_match; [done|]. bool_props. apply Hgone. intros; subst. by eapply Hg.
  - case_match; [|done]. apply Hgone. intros; subst. by eapply Hg.
Qed.

Lemma awlp_reap_orphans live ts : forall h, hwf h -> Forall (objs h) ts ->
  awlp D h c (reap_orphans principal_hash_for ledger_ns live ts) (fun _ c' _ => c' = c).
Proof.
  induction ts as [|t ts IH]; intros h Hwf Hf; cbn [reap_orphans]; [done|]. inversion_clear Hf.
  eapply awlp_then; [done|by apply awlp_reap_orphan|]. intros h1 ? r Hle ? ->. apply IH; [done|].
  eapply Forall_impl; [done|]. intros; by apply (hle_objs _ _ Hle).
Qed.

Lemma awlp_reaper_pass h : hwf h ->
  awlp D h c (admission_reaper_pass principal_hash_for parse_rfc3339 to_rfc3339 lease_ns ledger_ns) (fun _ c' _ => c' = c).
Proof.
  intros Hwf. unfold admission_reaper_pass. request h1 now Hn; [done|].
  eapply awlp_then; [done|by apply awlp_sweep|]. intros h2 ? ? ? ? ->.
  unfold reap_orphaned_admission_reservations. request h3 l Hl; [done|]. destruct l as [l|]; [|done].
  assert (Ho : Forall (objs h3) l) by (eapply Forall_impl; [exact Hl|]; by intros ? []).
  request h4 live Hlive; [done|]. destruct live; [|done]. apply awlp_reap_orphans; [done|].
  eapply Forall_impl; [exact Ho|]. intros; by advance.
Qed.

(** ** Releasing *)

Lemma awlp_release_unadmitted lease h : hwf h -> seen h lease ->
  awlp D h c (release_unadmitted principal_hash_for parse_rfc3339 to_rfc3339 lease_ns ledger_ns lease)
    (fun _ c' _ => c' = c).
Proof.
  intros Hwf Hs. unfold release_unadmitted.
  assert (Hdel : forall h1, hwf h1 -> seen h1 lease ->
    awlp D h1 c (ado r := delete_exact_pending_lease principal_hash_for ledger_ns lease in
                 ARet (released r "Failed to remove unadmitted Sandbox lease")) (fun _ c' _ => c' = c)).
  { intros h1 Hwf1 Hs1. by run awlp_delete_exact h2 r Hr. }
  case_match.
  - case_match; [by apply Hdel|]. unfold pristine_parent_has_no_live_reservations.
    destruct (pl_uid lease); [|done]. eapply awlp_then with (P := fun _ c' _ => c' = c); [done| |].
    { by request h1 l Hl. }
    intros h1 ? r ? ? ->. advance. destruct r as [[]|]; [by apply Hdel|done..].
  - case_match eqn:Ha; [|done].
    eapply awlp_then; [done|apply awlp_repair; [done..|by eapply active_shape_reservations]|]. by intros h1 ? r ? ? ->.
Qed.

Lemma awlp_release_lease attempts id identity policy : forall h, hwf h ->
  awlp D h c (release_sandbox_lease principal_hash_for parse_rfc3339 to_rfc3339 lease_ns ledger_ns attempts id identity policy)
    (fun _ c' _ => c' = c).
Proof.
  induction attempts as [|n IH]; intros h Hwf; cbn [release_sandbox_lease]; [done|].
  request h1 g Hg; [done|]. destruct g as [lease|e]; [|done]. destruct Hg as (Hs & _).
  repeat (case_match; try done).
  all: try (by apply awlp_release_unadmitted).
  all: request h2 now Hn; [done|].
  all: request h3 p Hp; [done|].
  all: destruct p; [done|].
  all: case_match; [by apply IH|done].
Qed.

Lemma footprint_kept st generation type value reason message now phase :
  type <> FOOTPRINT_ABSENT_CONDITION -> footprint_absence_proven st = true ->
  footprint_absence_proven
    (with_phase_conditions st phase (with_condition_for_status to_rfc3339 st generation type value reason message now)) = true.
Proof.
  intros Ht. unfold footprint_absence_proven, condition_is, with_condition_for_status. cbn [ls_conditions with_phase_conditions].
  rewrite existsb_app. intros H.
  apply orb_true_iff. left. apply existsb_exists in H as (x & Hx & Hp). apply existsb_exists. exists x.
  split; [|done]. apply filter_In. split; [done|]. to_prop Hp. apply negb_true_iff, String.eqb_neq. congruence.
Qed.

Lemma awlp_fenced_status lease st h : hwf h -> seen h lease -> status_ok lease st ->
  awlp D h c (patch_lease_status_fenced lease st) (fun _ c' _ => c' = c).
Proof.
  intros Hwf Hs Hst. unfold patch_lease_status_fenced. destruct (fence lease) as [[u rv]|] eqn:Hf; [|done].
  request h1 p Hp; [by apply status_req|done].
Qed.

Lemma awlp_stall lease reason message retry h : hwf h -> seen h lease ->
  awlp D h c (record_cleanup_stall to_rfc3339 lease reason message retry) (fun _ c' _ => c' = c).
Proof.
  intros Hwf Hs. unfold record_cleanup_stall. case_match; [done|]. request h1 now Hn; [done|].
  eapply awlp_then; [done|apply awlp_fenced_status; [done..|]|].
  - split; [by apply footprint_kept|]. cbn. by left.
  - intros h2 ? r ? ? ->. by destruct r.
Qed.

Lemma awlp_finish_release lease cause h : hwf h -> seen h lease ->
  awlp D h c (finish_release principal_hash_for to_rfc3339 ledger_ns lease cause) (fun _ c' _ => c' = c).
Proof.
  intros Hwf Hs. unfold finish_release.
  destruct (footprint_absence_proven (default default_sandbox_status (pl_status lease))) eqn:Hf; cbn [negb].
  - destruct (pl_uid lease) as [u|] eqn:Hu; [|done].
    assert (Hpr : proven h u).
    { destruct (pl_status lease) as [st|] eqn:Hst; [|done]. by exists lease, st. }
    run awlp_release_reservations h1 r Hr; [done|by right|]. destruct r; [|by apply awlp_stall].
    case_match; [|done]. request h2 now Hn; [done|].
    eapply awlp_then; [done|apply awlp_fenced_status; [done..|]|].
    + split; [by apply footprint_kept|]. intros _. right. by apply footprint_kept.
    + intros h3 ? r ? ? ->. by destruct r.
  - request h1 now Hn; [done|]. eapply awlp_then; [done|apply awlp_fenced_status; [done..|]|].
    + split; [by rewrite Hf|]. cbn. by left.
    + intros h3 ? r ? ? ->. by destruct r.
Qed.

(** ** Retiring *)

Lemma retired_removable lease retention now : retired parse_rfc3339 lease retention now = true -> removable lease.
Proof.
  unfold retired. destruct (pl_status lease) as [st|] eqn:Hst; [|done]. intros H. right. exists st. split; [done|].
  by destruct (ls_phase st).
Qed.

Lemma awlp_retire_leases retention now leases : forall h, hwf h ->
  awlp D h c (retire_leases parse_rfc3339 retention now leases) (fun _ c' _ => c' = c).
Proof.
  induction leases as [|l leases IH]; intros h Hwf; cbn [retire_leases]; [done|].
  case_match; [|by apply IH]. eapply awlp_then with (P := fun _ c' _ => c' = c); [done| |].
  - unfold delete_retired_lease. destruct (pl_uid l) as [u|]; [|done]. request h1 g Hg; [done|].
    destruct g as [current|]; [|done]. destruct Hg as (Hs & Hn & _). case_match eqn:Hu; [done|]. bool_props.
    case_match eqn:Hr; [done|]. bool_props. destruct (pl_resource_version current) eqn:Hv; [|done].
    request h2 d Hd; [|done]. exists current. split_and!; [done..|by eapply retired_removable].
  - intros h1 ? r ? ? ->. by apply IH.
Qed.

Lemma awlp_sweep_retired retention now h : hwf h ->
  awlp D h c (sweep_retired_leases parse_rfc3339 retention now) (fun _ c' _ => c' = c).
Proof.
  intros Hwf. unfold sweep_retired_leases. request h1 l Hl; [done|]. destruct l; [|done]. by apply awlp_retire_leases.
Qed.

End quiet.

(** ** Creating *)

(** A version of the lease that is admitted with a valid token set. *)
Definition accepted (h : Hist) (name u : string) : Prop :=
  exists o, seen h o /\ pl_name o = name /\ pl_uid o = Some u
            /\ admitted_reservation_provenance_is_valid principal_hash_for o = true.

Lemma accepted_intro h o u rs : seen h o -> pl_uid o = Some u -> admission_marker o = Some SANDBOX_ADMISSION_ADMITTED ->
  persisted_reservation_provenance principal_hash_for o = Ok rs -> accepted h (pl_name o) u.
Proof.
  intros Hs Hu Hm Hp. exists o. split_and!; [done..|]. unfold admitted_reservation_provenance_is_valid.
  rewrite Hp, bool_decide_true by done. done.
Qed.

Lemma check_admitted_accepted h lease o rs gate changed u :
  check_admitted principal_hash_for lease o rs gate changed = Ok tt -> seen h o -> pl_uid lease = Some u ->
  accepted h (pl_name lease) u.
Proof.
  unfold check_admitted. intros H Hs Hu. unbind H. units.
  destruct (shape_facts _ _ _ Hok) as (Hn & _ & _ & Huid & Hm). rewrite <- Hn. eapply accepted_intro; eauto.
Qed.

Lemma awlp_admit D c lease rs gate u h :
  (forall c', own c' = own c -> D c') ->
  hwf h -> seen h lease -> pl_uid lease = Some u -> own c = Some u -> has_cleanup_finalizer lease = true ->
  holds_tokens h lease rs ->
  awlp D h c (admit_sandbox_lease principal_hash_for ledger_ns lease rs gate)
    (fun h' c' r => own c' = own c /\ match r with
                                      | Ok _ => accepted h' (pl_name lease) u
                                      | Err AdmissionNotCommitted => gone h' u
                                      | Err _ => True
                                      end).
Proof.
  intros HD Hwf Hs Hu Ho Hfin Ht. unfold admit_sandbox_lease.
  assert (Hcl : clean (let? f := fence lease in
    let? reservations := encoded_reservation_provenance principal_hash_for lease rs in
    let? gate_provenance := ledger_mutation (encode_gate_reference gate) in Ok (f, reservations, gate_provenance)))
    by solve_clean.
  assert (Hdone : forall h' c' (r : result unit _), own c' = own c -> clean r -> (r = Ok tt -> accepted h' (pl_name lease) u) ->
    own c' = own c /\ match r with
                      | Ok _ => accepted h' (pl_name lease) u
                      | Err AdmissionNotCommitted => gone h' u
                      | Err _ => True
                      end).
  { intros h' c' [[]|[]] ? Hclean Hacc; split; try done. by apply Hacc. }
  destruct (fence lease) as [[uid rv]|] eqn:Hf; [|by apply Hdone].
  destruct (encoded_reservation_provenance principal_hash_for lease rs) as [reservations|] eqn:He; [|by apply Hdone].
  destruct (ledger_mutation (encode_gate_reference gate)); [|by apply Hdone].
  apply fence_Ok in Hf as [Hu' Hv]. simplify_eq. unfold encoded_reservation_provenance in He. unbind He. oks.
  eapply awlp_then with (P := fun h' c' r => own c' = own c /\ match r with Ok o => seen h' o | Err _ => True end);
    [done| |].
  - cbn. split_and!; [|by apply HD|by intros].
    exists lease. do 3 eexists. split_and!; [done..|]. eapply ok_admit; try done. congruence.
  - intros h1 c1 p Hle Hwf1 [Ho1 Hp]. advance. destruct p as [o|e].
    + apply Hdone; [done|solve_clean|]. intros Hc. by eapply check_admitted_accepted.
    + eapply awlp_then with (P := fun h' c' r => c' = c1 /\ match r with Ok o => seen h' o | Err _ => True end); [done| |].
      { eapply awlp_quiet; [done|by apply HD|done|]. intros h' [] ? ? Ha; [by destruct Ha|done]. }
      intros h2 ? g ? ? [-> Hg]. advance. destruct g as [current|]; [|by apply Hdone; [..|done]].
      case_match. { apply Hdone; [done|solve_clean|]. intros Hc. by eapply check_admitted_accepted. }
      case_match; [|by apply Hdone]. case_match eqn:Hsh.
      2: { apply Hdone; [done| |done]. pose proof (clean_unadmitted lease current) as Hx. rewrite Hsh in Hx. exact Hx. }
      destruct (shape_unadmitted_facts _ _ _ Hsh) as (_ & _ & Huid).
      eapply awlp_then; [done|apply (awlp_delete_exact D c1); [by apply HD|done..]|].
      intros h3 ? r ? ? (-> & Hclr & Hr). destruct r as [[]|e'].
      * destruct (Hr eq_refl) as (u' & Hu'' & Hg'). rewrite (Huid _ Hu) in Hu''. simplify_eq. done.
      * by apply Hdone.
Qed.

Section creating.
Context (c : Ctx).
#[local] Abbreviation anytime := (fun _ : Ctx => True).

Lemma awlp_delete_until lease h : hwf h -> seen h lease ->
  awlp anytime h c (delete_exact_pending_lease_until principal_hash_for ledger_ns lease) (fun _ c' _ => c' = c).
Proof.
  intros Hwf Hs. unfold delete_exact_pending_lease_until. eapply awlp_then; [done|apply awlp_stage with (D := eq c)|].
  - done.
  - intros h' Hle Hwf'. by apply awlp_delete_exact; [| |apply (hle_seen _ _ Hle)].
  - intros h1 c1 r ? ? Hr. destruct r; [by destruct Hr|done].
Qed.

Lemma awlp_resolve n lease deadline expected gate u : forall h, hwf h -> seen h lease -> pl_uid lease = Some u ->
  awlp anytime h c (resolve_timed_out_admission principal_hash_for ledger_ns n lease deadline expected gate)
    (fun h' c' r => c' = c /\ match r with
                              | ResolvedAdmitted => accepted h' (pl_name lease) u
                              | ResolvedCancelled => dead h' u
                              | HandedOff => True
                              end).
Proof.
  induction n as [|n IH]; intros h Hwf Hs Hu; cbn [resolve_timed_out_admission]; [done|].
  eapply awlp_then; [done|apply awlp_stage with (D := eq c)|].
  - done.
  - intros h' Hle Hwf'. apply awlp_cancel_and_reap with (u := u); [done..|by apply (hle_seen _ _ Hle)|done].
  - intros h1 c1 r ? ? Hr. advance. destruct r as [r|e]; [|by subst].
    destruct Hr as [-> Hr]. destruct r as [[l|l|]|e]; cbn.
    + done.
    + split; [done|]. destruct (check_resolved principal_hash_for lease l deadline expected gate) eqn:Hc; [|done].
      unfold check_resolved in Hc. unbind Hc.
      destruct Hr as (Hl & Hn & Hul & Hm). rewrite <- Hn. by eapply accepted_intro.
    + done.
    + destruct e; try done. intros h2 o ? ?. advance. destruct o; [done|]. by apply IH.
Qed.

(** What an answered create says. *)
Definition create_post (h : Hist) (c' : Ctx) (r : CreateResponse) : Prop :=
  match r with
  | CreateAccepted name _ => exists u, own c' = Some u /\ accepted h name u
  | CreateRefused _ _ => issued c' = false \/ exists u, own c' = Some u /\ dead h u
  | CreatePending _ _ | CreateReplayed _ _ _ => True
  end.

Lemma create_post_mono h h' c' r : hle h h' -> create_post h c' r -> create_post h' c' r.
Proof.
  intros Hle. destruct r; cbn; [|done..|].
  - intros (u & Hu & o & Hs & ?). exists u. split; [done|]. exists o. by advance.
  - intros [?|(u & Hu & Hd)]; [by left|]. right. exists u. by advance.
Qed.

Lemma resolution_post h (c' : Ctx) name deadline what u r : own c' = Some u ->
  match r with
  | ResolvedAdmitted => accepted h name u
  | ResolvedCancelled => dead h u
  | HandedOff => True
  end -> create_post h c' (resolution_response name deadline what r).
Proof. intros Ho Hr. destruct r; cbn; eauto. Qed.
End creating.

Section create.
Context (req : CreateRequest) (Hmax : cr_max_concurrent_leases req <= limit (principal_hash_for (cr_identity req))).
#[local] Abbreviation anytime := (fun _ : Ctx => True).

(** The created lease of this request, with UID [u]. *)
Definition created_as (h : Hist) (u : string) (o : ParentLease) : Prop :=
  seen h o /\ pl_uid o = Some u /\ pl_name o = pl_name (cr_lease req).

Lemma created_as_mono h h' u o : hle h h' -> created_as h u o -> created_as h' u o.
Proof. intros Hle (Hs & ?). split; [by apply (hle_seen _ _ Hle)|done]. Qed.

Lemma awlp_finalize c h o u deadline gate rs :
  hwf h -> created_as h u o -> own c = Some u -> has_cleanup_finalizer o = true -> holds_tokens h o rs ->
  awlp anytime h c (finalize_admission principal_hash_for ledger_ns req o deadline gate rs) create_post.
Proof.
  intros Hwf (Hs & Hu & Hn) Ho Hfin Ht. unfold finalize_admission.
  assert (Hres : forall h1 c1 (f : AdmissionResolution -> aprog CreateResponse), hle h h1 -> hwf h1 -> own c1 = Some u ->
    (forall h2 r, hle h1 h2 -> hwf h2 -> match r with
                                         | ResolvedAdmitted => accepted h2 (pl_name (cr_lease req)) u
                                         | ResolvedCancelled => dead h2 u
                                         | HandedOff => True
                                         end -> awlp anytime h2 c1 (f r) create_post) ->
    awlp anytime h1 c1 (abind (resolve_timed_out_admission principal_hash_for ledger_ns (cr_resolutions req) o deadline
                                 (Some rs) (Some gate)) f) create_post).
  { intros h1 c1 f Hle Hwf1 Ho1 Hf. eapply awlp_then; [done|eapply awlp_resolve; [done|by advance|done]|].
    intros h2 ? r ? ? [-> Hr]. apply Hf; [done..|]. by rewrite <- Hn. }
  eapply awlp_then; [done|apply awlp_stage with (D := fun c' => own c' = own c)|].
  - done.
  - intros h1 Hle Hwf1. apply awlp_admit with (u := u); try done; by advance.
  - intros h1 c1 r Hle Hwf1 Hr. destruct r as [r|e].
    + destruct Hr as [Ho1 Hr]. rewrite Ho in Ho1. destruct r as [[]|e].
      * exists u. by rewrite <- Hn.
      * assert (Hgen : awlp anytime h1 c1
            (ado r := resolve_timed_out_admission principal_hash_for ledger_ns (cr_resolutions req) o deadline
                        (Some rs) (Some gate) in
             match r with
             | ResolvedAdmitted => ado _ := acall (ParentGet (pl_name (cr_lease req))) in
                                   ARet (CreateAccepted (pl_name (cr_lease req)) deadline)
             | r => ARet (resolution_response (pl_name (cr_lease req)) deadline
                            "Failed to finalize Sandbox lease admission" r)
             end) create_post).
        { apply Hres; [done..|]. intros h2 r ? ? Hr2. destruct r; [|by right; eauto|done].
          eapply awlp_then; [done|eapply awlp_quiet with (Q := fun _ c' _ => c' = c1); done|].
          intros h3 ? ? Hle3 ? ->. eapply create_post_mono; [exact Hle3|]. cbn. eauto. }
        destruct e; try exact Hgen.
        eapply awlp_then; [done|apply awlp_delete_until; [done|by advance]|]. intros h2 ? ? ? ? ->. right. exists u.
        split; [done|]. left. by advance.
    + apply Hres; [done..|congruence|]. intros h2 r ? ? Hr2. apply resolution_post with (u := u); [congruence|done].
Qed.

(** Before the admission is sent, a refusal says nothing of the lease. *)
Lemma awlp_refused_after {R} c h o (f : result unit SandboxLeaseMutationError -> R) (Q : Hist -> Ctx -> R -> Prop) :
  hwf h -> seen h o -> (forall h' r, Q h' c (f r)) ->
  awlp anytime h c (ado r := delete_exact_pending_lease_until principal_hash_for ledger_ns o in ARet (f r)) Q.
Proof.
  intros Hwf Hs HQ. eapply awlp_then; [done|by apply awlp_delete_until|]. intros h1 ? r ? ? ->. apply HQ.
Qed.

Lemma awlp_resolved_after {R} c h o u deadline rs gate (f : AdmissionResolution -> R) (Q : Hist -> Ctx -> R -> Prop) :
  hwf h -> created_as h u o ->
  (forall h' r, match r with
                | ResolvedAdmitted => accepted h' (pl_name (cr_lease req)) u
                | ResolvedCancelled => dead h' u
                | HandedOff => True
                end -> Q h' c (f r)) ->
  awlp anytime h c (ado r := resolve_timed_out_admission principal_hash_for ledger_ns (cr_resolutions req) o deadline rs gate in
                    ARet (f r)) Q.
Proof.
  intros Hwf (Hs & Hu & Hn) HQ. eapply awlp_then; [done|by eapply awlp_resolve|]. intros h1 ? r ? ? [-> Hr]. apply HQ.
  by rewrite <- Hn.
Qed.

Lemma awlp_reserve c h o u deadline gate :
  hwf h -> created_as h u o -> own c = Some u -> issued c = false -> has_cleanup_finalizer o = true ->
  awlp anytime h c (reserve_admission principal_hash_for ledger_ns req o deadline gate) create_post.
Proof.
  intros Hwf Hc Ho Hi Hfin. unfold reserve_admission.
  eapply awlp_then; [done|apply awlp_stage with (D := eq c)|].
  - done.
  - intros h1 Hle Hwf1. eapply awlp_acquire; [done..| |done]. by apply (hle_seen _ _ Hle), Hc.
  - intros h1 c1 r Hle Hwf1 Hr. apply (created_as_mono _ _ _ _ Hle) in Hc. destruct r as [[rs|e]|e].
    + destruct Hr as [-> Hr]. by eapply awlp_finalize.
    + destruct Hr as [-> _]. apply awlp_refused_after; [done|by apply Hc|].
      intros h2 r. destruct e, r; by left.
    + subst. eapply awlp_resolved_after; [done..|]. intros h2 r Hr. by eapply resolution_post.
Qed.

Lemma awlp_prepare c h o u deadline :
  hwf h -> created_as h u o -> own c = Some u -> issued c = false -> has_cleanup_finalizer o = true ->
  awlp anytime h c (prepare_gate principal_hash_for ledger_ns req o deadline) create_post.
Proof.
  intros Hwf Hc Ho Hi Hfin. unfold prepare_gate.
  eapply awlp_then; [done|apply awlp_stage with (D := eq c) (P := fun _ c' _ => c' = c)|].
  - done.
  - intros h1 Hle Hwf1. by apply awlp_quiet.
  - intros h1 c1 r Hle Hwf1 Hr. apply (created_as_mono _ _ _ _ Hle) in Hc. destruct r as [[gate|e]|e]; subst.
    + by eapply awlp_reserve.
    + apply awlp_refused_after; [done|by apply Hc|]. intros h2 r. destruct r as [|[]]; cbn; auto.
    + eapply awlp_resolved_after; [done..|]. intros h2 r Hr. destruct r; [done|by right; eauto|done].
Qed.

Lemma awlp_after_create c h o u :
  hwf h -> created_as h u o -> own c = Some u -> issued c = false -> has_cleanup_finalizer o = true ->
  awlp anytime h c (after_create principal_hash_for parse_rfc3339 to_rfc3339_z representable ledger_ns req o) create_post.
Proof.
  intros Hwf Hc Ho Hi Hfin. unfold after_create, infra.
  case_match; [|apply awlp_refused_after; [done|by apply Hc|by left]].
  case_match; [|apply awlp_refused_after; [done|by apply Hc|by left]].
  eapply awlp_then; [done|apply awlp_stage with (D := eq c)|].
  - done.
  - intros h1 Hle Hwf1. apply awlp_persist; [done..|]. by apply (hle_seen _ _ Hle), Hc.
  - intros h1 c1 r Hle Hwf1 Hr. apply (created_as_mono _ _ _ _ Hle) in Hc. destruct r as [[o'|e]|e].
    + destruct Hr as (-> & Hs' & Hsh). destruct (shape_facts _ _ _ Hsh) as (Hn & _ & Hf & Huid & _).
      destruct Hc as (Hs & Hu & Hn'). eapply awlp_prepare; [done|split_and!; [done|by apply Huid|congruence]|done..|].
      unfold has_cleanup_finalizer. by rewrite Hf.
    + destruct Hr as [-> _]. apply awlp_refused_after; [done|by apply Hc|by left].
    + subst. eapply awlp_resolved_after; [done..|]. intros h2 r Hr. by eapply resolution_post.
Qed.

Lemma awlp_create h : hwf h -> fresh_parent (cr_lease req) ->
  awlp anytime h {| own := None; issued := false |}
    (create_sandbox_lease principal_hash_for parse_rfc3339 to_rfc3339 to_rfc3339_z representable lease_ns ledger_ns req)
    create_post.
Proof.
  intros Hwf Hfr. unfold create_sandbox_lease. set (c0 := {| own := None; issued := false |}). case_match; [by left|].
  eapply awlp_then; [done|eapply awlp_quiet with (Q := fun _ c' _ => c' = c0); done|]. intros h1 ? now ? ? ->.
  eapply awlp_then; [done|apply awlp_stage with (D := eq c0) (P := fun _ c' _ => c' = c0); [done|]|].
  { intros h2 ? ?. by apply awlp_cancel_expired. }
  intros h2 c2 r Hle2 Hwf2 Hr. destruct r as [[]|e]; [subst|subst; by left].
  eapply awlp_then; [done|apply awlp_stage with (D := eq c0)
    (P := fun h' c' r => match r with
                         | Ok o => seen h' o /\ own c' = pl_uid o /\ issued c' = false
                                   /\ exists u rv at_, o = parent_stamped (cr_lease req) (Some u) (Some rv) (Some at_)
                         | Err _ => c' = c0
                         end); [done|]|].
  { intros h3 ? ?. cbn. split_and!; [done..|]. intros h4 [o|e] ? ? Ha; [|done]. destruct Ha as [Hs Hex]. by split_and!. }
  intros h3 c3 r Hle3 Hwf3 Hr. destruct r as [[o|e]|e].
  - destruct Hr as (Hs & Ho & Hi & u & rv & at_ & ->). eapply awlp_after_create; [done|by split_and!|done..|].
    by destruct Hfr as (_ & _ & Hf & _).
  - subst. case_match; [|by left].
    eapply awlp_then; [done|apply awlp_stage with (D := eq c0) (P := fun _ c' _ => c' = c0); [done|]|].
    { intros h4 ? ?. by apply awlp_quiet. }
    intros h4 c4 r ? ? Hr4. destruct r as [[o|]|]; subst; cbn; [|by left..].
    unfold sandbox_create_replay. repeat case_match; cbn; auto.
  - subst. by left.
Qed.

(** The lease a handler builds is fresh. *)
Lemma built_lease_fresh id pool authority ttl alias identity type create :
  fresh_parent (with_sandbox_create_identity
                  (build_sandbox_lease principal_hash_for lease_ns id pool authority ttl alias identity type) create).
Proof. by destruct create. Qed.

End create.

End Steps.
