(* ===== verification/AdmissionWorld.v ===== *)
(** * AdmissionWorld: the cluster over which admission programs run

    The changes of the stored objects, abstractly ([change]): what a permitted
    request or the rest of the cluster does to one object.  The history that
    records them, and the invariant of the store and its history. *)

From S2P Require Import Prelude Text Durations PoolManager Quantity Policy SandboxObjects SandboxLifecycle LedgerApi AccessLedger LedgerCodec LedgerSteps LedgerBarrier LedgerInvariant SandboxAccess AdmissionApi Admission AdmissionSystem AdmissionSteps.

Local Open Scope kobe_scope.

(** The footprint of the lease was verified absent, by its own status. *)
Definition footprint (o : ParentLease) : bool :=
  match pl_status o with Some st => footprint_absence_proven st | None => false end.

(** The lease is in a phase that holds no capacity. *)
Definition returned (o : ParentLease) : bool :=
  match pl_status o with Some st => negb (consumes_capacity (ls_phase st)) | None => false end.

Definition recorded (o : ParentLease) : option string := pl_annotations o !! SANDBOX_RESERVATIONS_ANNOTATION.

(** The history after a step: the store it led to, the version it wrote and the
    token it created. *)
Definition observe (h : Hist) (s : Store) (new : option ParentLease) (created : option Lease) : Hist :=
  let known o := seen h o \/ parents s !! pl_name o = Some o \/ new = Some o in
  {| seen := known;
     objs t := objs h t \/ tokens s !! l_name t = Some t;
     minted t := minted h t \/ created = Some t;
     gone u := gone h u \/ exists o, known o /\ pl_uid o = Some u
                                     /\ forall p, parents s !! pl_name o = Some p -> pl_uid p <> Some u |}.

Section World.
Context (principal_hash_for : SandboxPrincipal -> string).
Context {reservations_json : Json (list AdmissionReservation)}.
Context (ledger_ns : string).
Context (limit : string -> Z).

#[local] Abbreviation canonical := (canonical_reservation_provenance principal_hash_for).
#[local] Abbreviation token_name_ok := (token_name_ok limit).

(** ** Changes *)

(** The admission of [o]: a token set that was created for it. *)
Definition admission_of (h : Hist) (o : ParentLease) (text : string) : Prop :=
  exists rs sorted, canonical o rs = Ok sorted /\ to_json sorted = Some text /\ holds_tokens h o rs.

(** One version of a parent to the next.  Only [who], the thread that created
    it, may admit it. *)
Record evolves (h : Hist) (who : option string) (p p' : ParentLease) : Prop := {
  ev_name : pl_name p' = pl_name p;
  ev_uid : pl_uid p' = pl_uid p;
  ev_spec : pl_spec p' = pl_spec p;
  ev_marker : admission_marker p' = admission_marker p
              \/ (admission_marker p = Some SANDBOX_ADMISSION_PENDING
                  /\ (admission_marker p' = Some SANDBOX_ADMISSION_CANCELLED
                      \/ admission_marker p' = Some SANDBOX_ADMISSION_ADMITTED /\ who = pl_uid p /\ is_Some (recorded p')));
  ev_recorded : recorded p' = recorded p
                \/ (admission_marker p' = Some SANDBOX_ADMISSION_ADMITTED
                    /\ exists text, recorded p' = Some text /\ admission_of h p text);
  ev_finalizer : admission_marker p' = Some SANDBOX_ADMISSION_ADMITTED ->
                 has_cleanup_finalizer p' = true \/ footprint p' = true
                 \/ (admission_marker p = Some SANDBOX_ADMISSION_ADMITTED /\ has_cleanup_finalizer p = false);
  ev_footprint : footprint p = true -> footprint p' = true;
  ev_returned : returned p' = true -> returned p = true \/ footprint p' = true;
}.

(** A change of the store, the version it wrote and the token it created. *)
Inductive change (h : Hist) (who : option string) (s : Store) : Store -> option ParentLease -> option Lease -> Prop :=
| ch_same new : (forall o, new = Some o -> parents s !! pl_name o = Some o) -> change h who s s new None
| ch_create o at_ o' :
    fresh_parent o -> parents s !! pl_name o = None ->
    o' = parent_stamped o (Some (fresh_uid (next s))) (Some (version (next s))) (Some at_) ->
    change h who s (put_parent s o') (Some o') None
| ch_update p p' :
    parents s !! pl_name p = Some p -> evolves h who p p' -> pl_resource_version p' = Some (version (next s)) ->
    change h who s (put_parent s p') (Some p') None
| ch_finish p p' :
    parents s !! pl_name p = Some p -> evolves h who p p' -> pl_resource_version p' = Some (version (next s)) ->
    normalized_finalizers p' = [] ->
    change h who s (drop_parent s (pl_name p)) (Some p') None
| ch_drop p :
    parents s !! pl_name p = Some p -> normalized_finalizers p = [] ->
    change h who s (drop_parent s (pl_name p)) None None
| ch_mint o type principal t t' :
    seen h o -> build_admission_reservation ledger_ns (l_name t) type o principal = Ok t -> token_name_ok t principal ->
    tokens s !! l_name t = None -> t' = stamped t (Some (fresh_uid (next s))) (Some (version (next s))) ->
    change h who s (put_token s t') None (Some t')
| ch_foreign t n :
    (tokens s !! l_name t = None /\ n = next s
     \/ exists old, tokens s !! l_name t = Some old /\ l_uid old = Some (fresh_uid n) /\ ~ minted h old) ->
    l_uid t = Some (fresh_uid n) -> l_resource_version t = Some (version (next s)) ->
    change h who s (put_token s t) None None
| ch_release t :
    tokens s !! l_name t = Some t ->
    (minted h t -> exists u, token_lease_uid t = Some u /\ (gone h u \/ proven h u)) ->
    change h who s (drop_token s (l_name t)) None None.

(** ** The invariant *)

(** Of the stored parents: identities and versions, the admission marker, what
    an admitted lease keeps. *)
Record pinv (h : Hist) (ps : gmap string ParentLease) (nx : Z) : Prop := {
  v_stored n p : ps !! n = Some p -> pl_name p = n /\ seen h p;
  v_uid o : seen h o -> exists n, 0 <= n < nx /\ pl_uid o = Some (fresh_uid n);
  v_version o : seen h o -> exists n, 0 <= n < nx /\ pl_resource_version o = Some (version n);
  v_one o o' : seen h o -> seen h o' -> pl_resource_version o = pl_resource_version o' -> o = o';
  v_same o o' : seen h o -> seen h o' -> pl_uid o = pl_uid o' -> pl_name o = pl_name o' /\ pl_spec o = pl_spec o';
  v_live o u : seen h o -> pl_uid o = Some u -> gone h u \/ exists p, ps !! pl_name o = Some p /\ pl_uid p = Some u;
  v_gone u n p : gone h u -> ps !! n = Some p -> pl_uid p <> Some u;
  v_gone_seen u : gone h u -> exists o, seen h o /\ pl_uid o = Some u;
  v_current n p o : ps !! n = Some p -> seen h o -> pl_uid o = pl_uid p ->
    admission_marker o = admission_marker p \/ admission_marker o = Some SANDBOX_ADMISSION_PENDING;
  v_marker o o' : seen h o -> seen h o' -> pl_uid o = pl_uid o' ->
    admission_marker o = admission_marker o' \/ admission_marker o = Some SANDBOX_ADMISSION_PENDING
    \/ admission_marker o' = Some SANDBOX_ADMISSION_PENDING;
  v_finalizer o u : seen h o -> pl_uid o = Some u -> admission_marker o = Some SANDBOX_ADMISSION_ADMITTED ->
    has_cleanup_finalizer o = true \/ proven h u;
  v_returned o u : seen h o -> pl_uid o = Some u -> returned o = true -> proven h u;
  v_footprint n p u : ps !! n = Some p -> pl_uid p = Some u -> proven h u -> footprint p = true;
  v_recorded o text : seen h o -> recorded o = Some text ->
    admission_marker o = Some SANDBOX_ADMISSION_ADMITTED /\ admission_of h o text;
  v_admitted o : seen h o -> admission_marker o = Some SANDBOX_ADMISSION_ADMITTED -> is_Some (recorded o);
  v_gone_admitted u o : gone h u -> seen h o -> pl_uid o = Some u ->
    admission_marker o = Some SANDBOX_ADMISSION_ADMITTED -> proven h u;
}.

(** Of the tokens: a token created for a lease is kept as it is until the lease
    is gone or its footprint is proven absent. *)
Record tinv (h : Hist) (ts : gmap string Lease) (nx : Z) : Prop := {
  v_token n t : ts !! n = Some t -> l_name t = n /\ objs h t;
  v_token_uid t : objs h t -> exists n, 0 <= n < nx /\ l_uid t = Some (fresh_uid n);
  v_minted t : minted h t -> objs h t /\ exists o u principal, seen h o /\ pl_uid o = Some u
    /\ token_lease_uid t = Some u /\ token_lease_name t = Some (pl_name o) /\ token_name_ok t principal;
  v_immutable t t' : minted h t -> objs h t' -> l_uid t' = l_uid t -> t' = t;
  v_held t : minted h t ->
    ts !! l_name t = Some t \/ exists u, token_lease_uid t = Some u /\ (gone h u \/ proven h u);
}.

Record inv (h : Hist) (s : Store) : Prop := {
  inv_next : 0 <= next s;
  inv_parents : pinv h (parents s) (next s);
  inv_tokens : tinv h (tokens s) (next s);
}.

Lemma inv_hwf h s : inv h s -> hwf h.
Proof.
  intros [_ _ Hi]. constructor. intros t Ht. destruct (v_minted _ _ _ Hi t Ht) as (_ & o & u & pr & ? & ? & ? & ? & _).
  by exists o, u.
Qed.

Lemma proven_footprint h o u : seen h o -> pl_uid o = Some u -> footprint o = true -> proven h u.
Proof.
  unfold footprint. intros Hs Hu Hf. destruct (pl_status o) as [st|] eqn:Hst; [|done]. by exists o, st.
Qed.

Lemma proven_inv h u : proven h u -> exists o, seen h o /\ pl_uid o = Some u /\ footprint o = true.
Proof. intros (o & st & ? & ? & Hst & ?). exists o. unfold footprint. by rewrite Hst. Qed.

Lemma canonical_spec o o' rs : pl_spec o' = pl_spec o -> canonical o' rs = canonical o rs.
Proof. intros Hs. unfold canonical_reservation_provenance, parent_principal, parent_alias. by rewrite Hs. Qed.

Lemma admission_of_mono h h' o o' text :
  (forall t, minted h t -> minted h' t) -> pl_spec o' = pl_spec o -> pl_uid o' = pl_uid o ->
  admission_of h o text -> admission_of h' o' text.
Proof.
  intros Hm Hs Hu (rs & sorted & Hc & Hj & Ht). exists rs, sorted. rewrite (canonical_spec o o') by done.
  split_and!; [done..|]. intros r Hr. destruct (Ht r Hr) as (t & ? & ?). exists t. rewrite Hu. auto.
Qed.

(** *** Parents *)

Definition with_seen (h : Hist) (o : ParentLease) : Hist :=
  {| seen x := seen h x \/ x = o; objs := objs h; minted := minted h; gone := gone h |}.
Definition with_gone (h : Hist) (u : string) : Hist :=
  {| seen := seen h; objs := objs h; minted := minted h; gone v := gone h v \/ v = u |}.

Lemma pinv_ext h h' ps nx nx' :
  (forall o, seen h' o <-> seen h o) -> (forall u, gone h' u <-> gone h u) -> (forall t, minted h t -> minted h' t) ->
  nx <= nx' -> pinv h ps nx -> pinv h' ps nx'.
Proof.
  intros Hs Hg Hm Hn Hi. assert (Hp : forall u, proven h' u <-> proven h u).
  { intros u. unfold proven. by setoid_rewrite Hs. }
  constructor; intros *; rewrite ?Hs, ?Hg, ?Hp.
  - by apply (v_stored _ _ _ Hi).
  - intros H. destruct (v_uid _ _ _ Hi _ H) as (n & ? & ?). exists n. split; [lia|done].
  - intros H. destruct (v_version _ _ _ Hi _ H) as (n & ? & ?). exists n. split; [lia|done].
  - by apply (v_one _ _ _ Hi).
  - by apply (v_same _ _ _ Hi).
  - by apply (v_live _ _ _ Hi).
  - by apply (v_gone _ _ _ Hi).
  - intros H. destruct (v_gone_seen _ _ _ Hi _ H) as (o & ?). exists o. by rewrite Hs.
  - by apply (v_current _ _ _ Hi).
  - by apply (v_marker _ _ _ Hi).
  - by apply (v_finalizer _ _ _ Hi).
  - by apply (v_returned _ _ _ Hi).
  - by apply (v_footprint _ _ _ Hi).
  - intros H Hr. destruct (v_recorded _ _ _ Hi _ _ H Hr). split; [done|]. by eapply admission_of_mono.
  - by apply (v_admitted _ _ _ Hi).
  - by apply (v_gone_admitted _ _ _ Hi).
Qed.

(** A UID that was not assigned yet belongs to nothing in the history. *)
Lemma fresh_unseen h ps nx o : 0 <= nx -> pinv h ps nx -> seen h o -> pl_uid o <> Some (fresh_uid nx).
Proof.
  intros Hn Hi Hs Hu. destruct (v_uid _ _ _ Hi _ Hs) as (n & ? & ?).
  assert (n = nx) by (apply fresh_uid_inj; [lia..|congruence]). lia.
Qed.

Lemma fresh_version h ps nx o : 0 <= nx -> pinv h ps nx -> seen h o -> pl_resource_version o <> Some (version nx).
Proof.
  intros Hn Hi Hs Hu. destruct (v_version _ _ _ Hi _ Hs) as (n & ? & ?).
  assert (n = nx) by (apply version_inj; [lia..|congruence]). lia.
Qed.

Lemma proven_with_seen h o u : proven (with_seen h o) u -> proven h u \/ (pl_uid o = Some u /\ footprint o = true).
Proof. intros (x & [Hx| ->] & Hu & Hf)%proven_inv; [left; by eapply proven_footprint|by right]. Qed.

Lemma pinv_create h ps nx o : 0 <= nx -> pinv h ps nx -> fresh_parent o -> ps !! pl_name o = None ->
  pl_uid o = Some (fresh_uid nx) -> pl_resource_version o = Some (version nx) ->
  pinv (with_seen h o) (<[pl_name o := o]> ps) (nx + 1).
Proof.
  intros Hn Hi (Hm & Hr & Hf & Hst & _) Hfree Hu Hv.
  pose proof (fun x => fresh_unseen h ps nx x Hn Hi) as Hunseen.
  assert (Hle : forall u, proven h u -> proven (with_seen h o) u).
  { intros u (x & Hx & ? & ?)%proven_inv. apply proven_footprint with (o := x); [by left|done..]. }
  assert (Hnew : forall u, proven (with_seen h o) u -> proven h u).
  { intros u [|[_ Hp]]%proven_with_seen; [done|]. unfold footprint in Hp. by rewrite Hst in Hp. }
  assert (Hother : forall n p, ps !! n = Some p -> pl_uid p <> Some (fresh_uid nx)).
  { intros n p Hp. by apply Hunseen, (v_stored _ _ _ Hi n). }
  constructor; cbn [seen gone with_seen].
  - intros n p [[<- <-]|[Hne Hp]]%lookup_insert_Some; [auto|]. destruct (v_stored _ _ _ Hi _ _ Hp). auto.
  - intros x [Hx| ->]; [|exists nx; split; [lia|done]]. destruct (v_uid _ _ _ Hi _ Hx) as (n & ? & ?). exists n. split; [lia|done].
  - intros x [Hx| ->]; [|exists nx; split; [lia|done]]. destruct (v_version _ _ _ Hi _ Hx) as (n & ? & ?). exists n. split; [lia|done].
  - intros x y [Hx| ->] [Hy| ->] E; [by eapply (v_one _ _ _ Hi)| | |done]; exfalso; eapply fresh_version; eauto; congruence.
  - intros x y [Hx| ->] [Hy| ->] E; [by eapply (v_same _ _ _ Hi)| | |done]; exfalso; [eapply (Hunseen x)|eapply (Hunseen y)]; congruence.
  - intros x u [Hx| ->] Hxu.
    + destruct (v_live _ _ _ Hi _ _ Hx Hxu) as [?|(p & Hp & ?)]; [by left|]. right. exists p. split; [|done].
      rewrite lookup_insert_ne; [done|]. congruence.
    + right. exists o. by rewrite lookup_insert_eq.
  - intros u n p Hg [[<- <-]|[Hne Hp]]%lookup_insert_Some; [|by eapply (v_gone _ _ _ Hi)].
    destruct (v_gone_seen _ _ _ Hi _ Hg) as (x & Hx & Hxu). intros E. apply (Hunseen x); congruence.
  - intros u Hg. destruct (v_gone_seen _ _ _ Hi _ Hg) as (x & Hx & ?). exists x. auto.
  - intros n p x [[<- <-]|[Hne Hp]]%lookup_insert_Some [Hx| ->] E; [|by left| |]; [|by eapply (v_current _ _ _ Hi)|].
    + exfalso. apply (Hunseen x); congruence.
    + exfalso. apply (Hother n p); congruence.
  - intros x y [Hx| ->] [Hy| ->] E; [by eapply (v_marker _ _ _ Hi)|by right; right|by right; left|by left].
  - intros x u [Hx| ->] Hxu Ha; [|by left]. destruct (v_finalizer _ _ _ Hi _ _ Hx Hxu Ha); auto.
  - intros x u [Hx| ->] Hxu Ha; [by eapply Hle, (v_returned _ _ _ Hi)|]. unfold returned in Ha. by rewrite Hst in Ha.
  - intros n p u [[<- <-]|[Hne Hp]]%lookup_insert_Some Hpu Hpr%Hnew; [|by eapply (v_footprint _ _ _ Hi)].
    apply proven_inv in Hpr as (x & Hx & Hxu & _). exfalso. apply (Hunseen x); congruence.
  - intros x text [Hx| ->] Hrec; [|unfold recorded in Hrec; congruence].
    destruct (v_recorded _ _ _ Hi _ _ Hx Hrec). split; [done|]. by eapply admission_of_mono.
  - intros x [Hx| ->] Ha; [by apply (v_admitted _ _ _ Hi)|]. by rewrite Hm in Ha.
  - intros u x Hg [Hx| ->] Hxu Ha; [by eapply Hle, (v_gone_admitted _ _ _ Hi)|]. by rewrite Hm in Ha.
Qed.

Lemma evolves_marker h ps nx who n p p' o :
  pinv h ps nx -> ps !! n = Some p -> evolves h who p p' -> seen h o -> pl_uid o = pl_uid p ->
  admission_marker o = admission_marker p' \/ admission_marker o = Some SANDBOX_ADMISSION_PENDING.
Proof.
  intros Hi Hp He Ho Hu. destruct (v_current _ _ _ Hi _ _ _ Hp Ho Hu) as [E|?]; [|by right].
  destruct (ev_marker _ _ _ _ He) as [E'|[E' _]]; [left|right]; congruence.
Qed.

Lemma pinv_update h ps nx who p p' : 0 <= nx -> pinv h ps nx -> ps !! pl_name p = Some p -> evolves h who p p' ->
  pl_resource_version p' = Some (version nx) -> pinv (with_seen h p') (<[pl_name p' := p']> ps) (nx + 1).
Proof.
  intros Hn Hi Hp He Hv. destruct (v_stored _ _ _ Hi _ _ Hp) as [_ Hs]. pose proof (ev_uid _ _ _ _ He) as Eu.
  rewrite (ev_name _ _ _ _ He).
  assert (Hle : forall u, proven h u -> proven (with_seen h p') u).
  { intros u (x & Hx & ? & ?)%proven_inv. apply proven_footprint with (o := x); [by left|done..]. }
  assert (Hself : forall u, pl_uid p' = Some u -> footprint p' = true -> proven (with_seen h p') u).
  { intros u Hu Hf. apply proven_footprint with (o := p'); [by right|done..]. }
  assert (Hother : forall n q, n <> pl_name p -> ps !! n = Some q -> pl_uid q <> pl_uid p).
  { intros n q Hne Hq E. destruct (v_stored _ _ _ Hi _ _ Hq) as [Hqn Hqs].
    destruct (v_same _ _ _ Hi _ _ Hqs Hs E). congruence. }
  assert (Hmk : forall o, seen h o -> pl_uid o = pl_uid p' ->
    admission_marker o = admission_marker p' \/ admission_marker o = Some SANDBOX_ADMISSION_PENDING).
  { intros o Ho Hu. eapply evolves_marker; [done..|congruence]. }
  constructor; cbn [seen gone with_seen].
  - intros n q [[<- <-]|[Hne Hq]]%lookup_insert_Some; [split; [apply He|by right]|].
    destruct (v_stored _ _ _ Hi _ _ Hq). auto.
  - intros x [Hx| ->]; [|rewrite Eu]; [destruct (v_uid _ _ _ Hi _ Hx) as (n & ? & ?)|destruct (v_uid _ _ _ Hi _ Hs) as (n & ? & ?)];
      exists n; (split; [lia|done]).
  - intros x [Hx| ->]; [|exists nx; split; [lia|done]]. destruct (v_version _ _ _ Hi _ Hx) as (n & ? & ?). exists n. split; [lia|done].
  - intros x y [Hx| ->] [Hy| ->] E; [by eapply (v_one _ _ _ Hi)| | |done]; exfalso; eapply fresh_version; eauto; congruence.
  - intros x y [Hx| ->] [Hy| ->] E; [by eapply (v_same _ _ _ Hi)| | |done]; rewrite (ev_name _ _ _ _ He), (ev_spec _ _ _ _ He);
      eapply (v_same _ _ _ Hi); try done; congruence.
  - intros x u [Hx| ->] Hxu; [|right; exists p'; by rewrite (ev_name _ _ _ _ He), lookup_insert_eq].
    destruct (v_live _ _ _ Hi _ _ Hx Hxu) as [?|(q & Hq & ?)]; [by left|]. right.
    destruct (decide (pl_name p = pl_name x)) as [E|Hne].
    + rewrite <- E in *. exists p'. rewrite lookup_insert_eq. split; [done|]. congruence.
    + exists q. by rewrite lookup_insert_ne.
  - intros u n q Hg [[<- <-]|[Hne Hq]]%lookup_insert_Some; [rewrite Eu|]; by eapply (v_gone _ _ _ Hi).
  - intros u Hg. destruct (v_gone_seen _ _ _ Hi _ Hg) as (x & Hx & ?). exists x. auto.
  - intros n q x [[<- <-]|[Hne Hq]]%lookup_insert_Some [Hx| ->] E; [by apply Hmk|by left|by eapply (v_current _ _ _ Hi)|].
    exfalso. apply (Hother n q); congruence.
  - intros x y [Hx| ->] [Hy| ->] E; [by eapply (v_marker _ _ _ Hi)| | |by left].
    + destruct (Hmk x Hx E); auto.
    + destruct (Hmk y Hy (eq_sym E)); auto.
  - intros x u [Hx| ->] Hxu Ha; [destruct (v_finalizer _ _ _ Hi _ _ Hx Hxu Ha); auto|].
    destruct (ev_finalizer _ _ _ _ He Ha) as [?|[?|[Ha' Hnf]]]; [by left|auto|].
    destruct (v_finalizer _ _ _ Hi p u Hs ltac:(congruence) Ha'); [congruence|auto].
  - intros x u [Hx| ->] Hxu Ha; [by eapply Hle, (v_returned _ _ _ Hi)|].
    destruct (ev_returned _ _ _ _ He Ha); [|auto]. eapply Hle, (v_returned _ _ _ Hi); [exact Hs|congruence|done].
  - intros n q u [[<- <-]|[Hne Hq]]%lookup_insert_Some Hqu [Hpr|[Hpu Hpf]]%proven_with_seen.
    + apply (ev_footprint _ _ _ _ He). apply (v_footprint _ _ _ Hi _ p u Hp); [congruence|done].
    + done.
    + by eapply (v_footprint _ _ _ Hi).
    + exfalso. apply (Hother n q); congruence.
  - intros x text [Hx| ->] Hrec.
    + destruct (v_recorded _ _ _ Hi _ _ Hx Hrec). split; [done|]. by eapply admission_of_mono.
    + destruct (ev_recorded _ _ _ _ He) as [E|(Ha & text' & E & Had)].
      * rewrite E in Hrec. destruct (v_recorded _ _ _ Hi _ _ Hs Hrec) as [Ha Had]. split.
        -- destruct (ev_marker _ _ _ _ He) as [->|[Hpend _]]; [done|]. by rewrite Ha in Hpend.
        -- eapply admission_of_mono; [|apply He|done|done]. auto.
      * split; [done|]. rewrite E in Hrec. simplify_eq. eapply admission_of_mono; [|apply He|done|done]. auto.
  - intros x [Hx| ->] Ha; [by apply (v_admitted _ _ _ Hi)|].
    destruct (ev_recorded _ _ _ _ He) as [E0|(_ & text & -> & _)]; [|by eexists].
    destruct (ev_marker _ _ _ _ He) as [E|(Hpend & [E|(_ & _ & Hrec)])].
    + rewrite E0. apply (v_admitted _ _ _ Hi _ Hs). congruence.
    + by rewrite Ha in E.
    + done.
  - intros u x Hg [Hx| ->] Hxu Ha; [by eapply Hle, (v_gone_admitted _ _ _ Hi)|].
    exfalso. eapply (v_gone _ _ _ Hi); [exact Hg|exact Hp|congruence].
Qed.

Lemma pinv_drop h ps nx p u : pinv h ps nx -> ps !! pl_name p = Some p -> pl_uid p = Some u ->
  normalized_finalizers p = [] -> pinv (with_gone h u) (delete (pl_name p) ps) nx.
Proof.
  intros Hi Hp Hu Hf. destruct (v_stored _ _ _ Hi _ _ Hp) as [_ Hs].
  constructor; cbn [seen gone with_gone].
  1: intros n q [Hne Hq]%lookup_delete_Some; by eapply (v_stored _ _ _ Hi).
  1,2: apply Hi.
  1: by apply (v_one _ _ _ Hi).
  1: by apply (v_same _ _ _ Hi).
  all: change (proven (with_gone h u)) with (proven h).
  - intros x v Hx Hxv. destruct (v_live _ _ _ Hi _ _ Hx Hxv) as [?|(q & Hq & Hqv)]; [by left; left|].
    destruct (decide (pl_name p = pl_name x)) as [E|Hne].
    + left. right. rewrite <- E in Hq. congruence.
    + right. exists q. by rewrite lookup_delete_ne.
  - intros v n q [Hg| ->] [Hne Hq]%lookup_delete_Some; [by eapply (v_gone _ _ _ Hi)|].
    intros E. destruct (v_stored _ _ _ Hi _ _ Hq) as [Hqn Hqs].
    destruct (v_same _ _ _ Hi _ _ Hqs Hs ltac:(congruence)). congruence.
  - intros v [Hg| ->]; [by apply (v_gone_seen _ _ _ Hi)|eauto].
  - intros n q x [Hne Hq]%lookup_delete_Some. by apply (v_current _ _ _ Hi n).
  - by apply (v_marker _ _ _ Hi).
  - by apply (v_finalizer _ _ _ Hi).
  - by apply (v_returned _ _ _ Hi).
  - intros n q v [Hne Hq]%lookup_delete_Some. by apply (v_footprint _ _ _ Hi n).
  - by apply (v_recorded _ _ _ Hi).
  - by apply (v_admitted _ _ _ Hi).
  - intros v x [Hg| ->] Hx Hxu Ha; [by eapply (v_gone_admitted _ _ _ Hi)|].
    destruct (v_current _ _ _ Hi _ _ x Hp Hx ltac:(congruence)) as [E|E]; [|by rewrite Ha in E].
    rewrite Ha in E. destruct (v_finalizer _ _ _ Hi p u Hs Hu (eq_sym E)) as [Hfin|]; [|done].
    unfold has_cleanup_finalizer in Hfin. by rewrite Hf in Hfin.
Qed.

(** *** Tokens *)

Definition with_token (h : Hist) (t : Lease) (created : bool) : Hist :=
  {| seen := seen h; objs x := objs h x \/ x = t; minted x := minted h x \/ (created = true /\ x = t); gone := gone h |}.

Lemma fresh_token h ts nx t : 0 <= nx -> tinv h ts nx -> objs h t -> l_uid t <> Some (fresh_uid nx).
Proof.
  intros Hn Hi Ht Hu. destruct (v_token_uid _ _ _ Hi _ Ht) as (n & ? & ?).
  assert (n = nx) by (apply fresh_uid_inj; [lia..|congruence]). lia.
Qed.

Lemma built_token o name type principal t : build_admission_reservation ledger_ns name type o principal = Ok t ->
  exists u, pl_uid o = Some u /\ token_lease_uid t = Some u /\ token_lease_name t = Some (pl_name o).
Proof.
  unfold build_admission_reservation. intros H. unbind H. oks. simplify_eq. exists a. split; [done|].
  unfold token_lease_uid, token_lease_name, reservation_labels. cbn. by simplify_map_eq.
Qed.

Lemma tinv_mint h ts nx o type principal t t' : 0 <= nx -> tinv h ts nx -> seen h o ->
  build_admission_reservation ledger_ns (l_name t) type o principal = Ok t -> token_name_ok t principal ->
  ts !! l_name t = None -> t' = stamped t (Some (fresh_uid nx)) (Some (version nx)) ->
  tinv (with_token h t' true) (<[l_name t' := t']> ts) (nx + 1).
Proof.
  intros Hn Hi Hs Hb Hname Hfree ->. set (t' := stamped t _ _). change (l_name t') with (l_name t).
  pose proof (fun x => fresh_token h ts nx x Hn Hi) as Hunseen.
  constructor; cbn [seen objs minted gone with_token].
  - intros n x [[<- <-]|[Hne Hx]]%lookup_insert_Some; [auto|]. destruct (v_token _ _ _ Hi _ _ Hx). auto.
  - intros x [Hx| ->]; [|exists nx; split; [lia|done]]. destruct (v_token_uid _ _ _ Hi _ Hx) as (n & ? & ?). exists n. split; [lia|done].
  - intros x [Hx|[_ ->]].
    + destruct (v_minted _ _ _ Hi _ Hx). auto.
    + split; [by right|]. destruct (built_token _ _ _ _ _ Hb) as (u & ? & ? & ?). by exists o, u, principal.
  - intros x y [Hx|[_ ->]] [Hy| ->] E; [by eapply (v_immutable _ _ _ Hi)| | |done]; exfalso.
    + apply (Hunseen x); [by apply (v_minted _ _ _ Hi)|]. by rewrite <- E.
    + by apply (Hunseen y).
  - change (proven (with_token h t' true)) with (proven h). intros x [Hx|[_ ->]].
    + destruct (v_held _ _ _ Hi _ Hx) as [Hst|?]; [left|by right]. rewrite lookup_insert_ne; [done|]. congruence.
    + left. by rewrite lookup_insert_eq.
Qed.

Lemma tinv_foreign h ts nx t n : 0 <= nx -> tinv h ts nx ->
  (ts !! l_name t = None /\ n = nx
   \/ exists old, ts !! l_name t = Some old /\ l_uid old = Some (fresh_uid n) /\ ~ minted h old) ->
  l_uid t = Some (fresh_uid n) -> tinv (with_token h t false) (<[l_name t := t]> ts) (nx + 1).
Proof.
  intros Hn Hi Hc Hu.
  assert (Hmt : forall x, minted h x -> l_uid t <> l_uid x /\ (ts !! l_name t <> Some x)).
  { intros x Hx. destruct Hc as [[Hfree ->]|(old & Hold & Huo & Hnm)].
    - split; [|congruence]. intros E. apply (fresh_token h ts nx x Hn Hi); [by apply (v_minted _ _ _ Hi)|congruence].
    - destruct (v_token _ _ _ Hi _ _ Hold) as [_ Ho]. split; [|congruence]. intros E.
      apply Hnm. by rewrite (v_immutable _ _ _ Hi x old Hx Ho ltac:(congruence)). }
  constructor; cbn [seen objs minted gone with_token].
  - intros m x [[<- <-]|[Hne Hx]]%lookup_insert_Some; [auto|]. destruct (v_token _ _ _ Hi _ _ Hx). auto.
  - assert (Hup : forall x, objs h x -> exists n, 0 <= n < nx + 1 /\ l_uid x = Some (fresh_uid n)).
    { intros x Hx. destruct (v_token_uid _ _ _ Hi _ Hx) as (m & ? & ?). exists m. split; [lia|done]. }
    intros x [Hx| ->]; [auto|]. rewrite Hu. destruct Hc as [[_ ->]|(old & Hold & Huo & _)]; [exists nx; split; [lia|done]|].
    rewrite <- Huo. by apply Hup, (v_token _ _ _ Hi (l_name t)).
  - intros x [Hx|[? ->]]; [|done]. destruct (v_minted _ _ _ Hi _ Hx). auto.
  - intros x y [Hx|[? ->]] [Hy| ->] E; [by eapply (v_immutable _ _ _ Hi)| |done..]. by destruct (Hmt x Hx).
  - change (proven (with_token h t false)) with (proven h). intros x [Hx|[? ->]]; [|done].
    destruct (v_held _ _ _ Hi _ Hx) as [Hst|?]; [left|by right]. rewrite lookup_insert_ne; [done|].
    intros E. rewrite <- E in Hst. by destruct (Hmt x Hx).
Qed.

Lemma tinv_release h ts nx t : tinv h ts nx -> ts !! l_name t = Some t ->
  (minted h t -> exists u, token_lease_uid t = Some u /\ (gone h u \/ proven h u)) ->
  tinv h (delete (l_name t) ts) nx.
Proof.
  intros Hi Ht Hr. constructor; [|apply Hi..|].
  - intros n x [Hne Hx]%lookup_delete_Some. by eapply (v_token _ _ _ Hi).
  - intros x Hx. destruct (v_held _ _ _ Hi _ Hx) as [Hst|?]; [|by right].
    destruct (decide (l_name t = l_name x)) as [E|Hne].
    + right. rewrite <- E in Hst. simplify_eq. auto.
    + left. by rewrite lookup_delete_ne.
Qed.

(** *** The history of a change *)

Lemma observe_pinv h hx s new created : pinv hx (parents s) (next s) ->
  (forall o, seen hx o <-> seen h o \/ new = Some o) -> (forall u, gone h u -> gone hx u) ->
  (forall t, minted hx t -> minted h t \/ created = Some t) ->
  pinv (observe h s new created) (parents s) (next s).
Proof.
  intros Hi Hs Hg Hm.
  assert (Hseen : forall o, seen (observe h s new created) o <-> seen hx o).
  { intros o. cbn. rewrite Hs. split; [|tauto]. intros [?|[Hst|?]]; auto.
    apply Hs. by eapply (v_stored _ _ _ Hi). }
  eapply pinv_ext; [exact Hseen| |exact Hm|done|exact Hi].
  intros u. split.
  - intros [?|(o & Ho & Hu & Hnone)]; [auto|]. destruct (v_live _ _ _ Hi o u (proj1 (Hseen o) Ho) Hu) as [?|(p & Hp & Hpu)]; [done|].
    by destruct (Hnone p Hp).
  - intros Hgx. right. destruct (v_gone_seen _ _ _ Hi _ Hgx) as (o & Ho & Hu). exists o. split_and!; [by apply Hseen|done|].
    intros p Hp. by eapply (v_gone _ _ _ Hi).
Qed.

Lemma observe_tinv h hx s new created nx : tinv hx (tokens s) nx -> nx <= next s ->
  (forall t, objs h t -> objs hx t) -> (forall t, objs hx t -> objs h t \/ tokens s !! l_name t = Some t) ->
  (forall t, minted hx t <-> minted h t \/ created = Some t) ->
  (forall o, seen hx o -> seen (observe h s new created) o) -> (forall u, gone hx u -> gone (observe h s new created) u) ->
  tinv (observe h s new created) (tokens s) (next s).
Proof.
  intros Hi Hnx Hle Ho Hm Hs Hg. set (h' := observe h s new created).
  assert (Hobjs : forall t, objs h' t <-> objs hx t).
  { intros t. cbn. split; [intros [?|?]; [auto|by eapply (v_token _ _ _ Hi)]|apply Ho]. }
  assert (Hp : forall u, proven hx u -> proven h' u).
  { intros u (o & ? & ? & ?)%proven_inv. eapply proven_footprint; eauto. }
  constructor; intros *.
  - intros H. rewrite Hobjs. by eapply (v_token _ _ _ Hi).
  - rewrite Hobjs. intros H. destruct (v_token_uid _ _ _ Hi _ H) as (n & ? & ?). exists n. split; [lia|done].
  - intros H%Hm. rewrite Hobjs. destruct (v_minted _ _ _ Hi _ H) as (? & o & u & pr & ? & ?). split; [done|]. exists o, u, pr. auto.
  - intros H%Hm. rewrite Hobjs. by eapply (v_immutable _ _ _ Hi).
  - intros H%Hm. destruct (v_held _ _ _ Hi _ H) as [?|(u & ? & [?|?])]; [by left|..]; right; exists u; auto.
Qed.

Lemma observe_seen_le h s new created o : seen h o -> seen (observe h s new created) o.
Proof. intros ?. by left. Qed.

Lemma observe_gone_le h s new created u : gone h u -> gone (observe h s new created) u.
Proof. intros ?. by left. Qed.
#[local] Hint Resolve observe_seen_le observe_gone_le : core.

Lemma observe_hle h s s0 who new created : inv h s -> change h who s s0 new created -> hle h (observe h s0 new created).
Proof.
  intros [Hn _ Hi] Hc. constructor; cbn; auto. intros t Ho [?|E]; [done|]. inversion Hc; simplify_eq.
  exfalso. by eapply fresh_token.
Qed.

(** Changes of the tokens leave the parents' part alone, and vice versa. *)
Lemma observe_other_tokens h s s' created : inv h s -> parents s' = parents s -> next s <= next s' ->
  pinv (observe h s' None created) (parents s') (next s').
Proof.
  intros [_ Hi _] Hp Hn. rewrite Hp. rewrite <- Hp at 1. apply observe_pinv with (hx := h); [|naive_solver..].
  rewrite Hp. eapply pinv_ext; [..|exact Hi]; done.
Qed.

Lemma observe_other_parents h s s' new : inv h s -> tokens s' = tokens s -> next s <= next s' ->
  tinv (observe h s' new None) (tokens s') (next s').
Proof. intros [_ _ Hi] Ht Hn. apply observe_tinv with (hx := h) (nx := next s); [by rewrite Ht|naive_solver..]. Qed.

Lemma change_inv h who s s' new created : inv h s -> change h who s s' new created -> inv (observe h s' new created) s'.
Proof.
  intros Hinv Hc. pose proof Hinv as [Hn Hp Ht].
  destruct Hc as [new Hnew|o at_ o' Hf Hfree Ho|p p' Hst He Hv|p p' Hst He Hv Hfin|p Hst Hfin
                 |o type principal t t' Hs Hb Hname Hfree Ht'|t n Hc Hu Hv|t Hst Hr].
  - constructor; [done| |by eapply observe_other_parents].
    apply observe_pinv with (hx := h); [done|..|naive_solver|naive_solver]. intros o. split; [by left|].
    intros [?|E%Hnew]; [done|]. by eapply (v_stored _ _ _ Hp).
  - constructor; [cbn; lia| |eapply observe_other_parents; [done..|cbn; lia]].
    apply observe_pinv with (hx := with_seen h o'); [|cbn; naive_solver..]. subst o'. by apply pinv_create.
  - constructor; [cbn; lia| |eapply observe_other_parents; [done..|cbn; lia]].
    apply observe_pinv with (hx := with_seen h p'); [|cbn; naive_solver..]. by eapply pinv_update.
  - constructor; [cbn; lia| |eapply observe_other_parents; [done..|cbn; lia]].
    destruct (v_uid _ _ _ Hp p) as (n & _ & Hu); [by apply (v_stored _ _ _ Hp (pl_name p))|].
    apply observe_pinv with (hx := with_gone (with_seen h p') (fresh_uid n)); [|cbn; naive_solver..].
    pose proof (pinv_update _ _ _ _ _ _ Hn Hp Hst He Hv) as Hup.
    apply (pinv_drop _ _ _ p') with (u := fresh_uid n) in Hup;
      [|by rewrite lookup_insert_eq|by rewrite (ev_uid _ _ _ _ He)|done].
    rewrite delete_insert_eq, (ev_name _ _ _ _ He) in Hup. exact Hup.
  - constructor; [cbn; lia| |eapply observe_other_parents; [done..|cbn; lia]].
    destruct (v_uid _ _ _ Hp p) as (n & _ & Hu); [by apply (v_stored _ _ _ Hp (pl_name p))|].
    apply observe_pinv with (hx := with_gone h (fresh_uid n)); [|cbn; naive_solver..].
    eapply pinv_ext; [done..| |by eapply pinv_drop]. cbn. lia.
  - constructor; [cbn; lia|eapply observe_other_tokens; [done..|cbn; lia]|].
    apply observe_tinv with (hx := with_token h t' true) (nx := next s + 1); [by eapply tinv_mint|cbn; lia|..].
    1,3,4,5: cbn; naive_solver. cbn. intros x [?| ->]; [by left|right]. by rewrite lookup_insert_eq.
  - constructor; [cbn; lia|eapply observe_other_tokens; [done..|cbn; lia]|].
    apply observe_tinv with (hx := with_token h t false) (nx := next s + 1); [by eapply tinv_foreign|cbn; lia|..].
    1,3,4,5: cbn; naive_solver. cbn. intros x [?| ->]; [by left|right]. by rewrite lookup_insert_eq.
  - constructor; [cbn; lia|eapply observe_other_tokens; [done..|cbn; lia]|].
    apply observe_tinv with (hx := h) (nx := next s); [by apply tinv_release|cbn; lia|..]; cbn; naive_solver.
Qed.

(** ** Requests as changes *)

(** The version of a parent and the token that a request writes. *)
Definition written {X} (at_ : string) (s : Store) (q : areq X) : option ParentLease :=
  match q with
  | ParentCreate o => match snd (create_parent at_ s o) with Ok o => Some o | Err _ => None end
  | ParentPatch name ops => match snd (patch_parent s name ops) with Ok o => Some o | Err _ => None end
  | ParentMerge name rv key value => match snd (merge_parent s name rv key value) with Ok o => Some o | Err _ => None end
  | ParentDelete name uid rv => parents (fst (delete_parent at_ s name uid rv)) !! name
  | _ => None
  end.

Definition created {X} (s : Store) (q : areq X) : option Lease :=
  match q with
  | TokenCreate t => match snd (create_token s t) with Ok t => Some t | Err _ => None end
  | _ => None
  end.

(** Who may admit: the owner, by the patch that does. *)
Definition who {X} (c : Ctx) (q : areq X) : option string := if is_admit q then own c else None.

Lemma evolves_stamped h w p p' rv at_ : evolves h w p p' -> evolves h w p (parent_stamped p' (pl_uid p) rv at_).
Proof. intros []. by constructor. Qed.

Lemma store_parent_change h w s p p' : parents s !! pl_name p = Some p -> evolves h w p p' ->
  change h w s (fst (store_parent s p p')) (Some (snd (store_parent s p p'))) None.
Proof.
  intros Hp He. unfold store_parent. case_bool_decide as E.
  - cbn. apply ch_same. by intros o [= <-].
  - pose proof (evolves_stamped _ _ _ _ (Some (version (next s))) (pl_creation_timestamp p) He) as He'.
    set (o' := parent_stamped p' _ _ _) in *. case_match eqn:Hd; cbn [fst snd].
    + to_prop Hd. by apply ch_finish.
    + by apply ch_update with p.
Qed.

(** Writes that keep the markers, the finalizers and the status. *)
Lemma evolves_same_data h w p p' :
  pl_name p' = pl_name p -> pl_uid p' = pl_uid p -> pl_spec p' = pl_spec p -> pl_status p' = pl_status p ->
  pl_finalizers p' = pl_finalizers p -> admission_marker p' = admission_marker p -> recorded p' = recorded p ->
  evolves h w p p'.
Proof.
  intros Hn Hu Hs Hst Hf Hm Hr.
  assert (Hfin : has_cleanup_finalizer p' = has_cleanup_finalizer p)
    by (unfold has_cleanup_finalizer, normalized_finalizers; by rewrite Hf).
  constructor; unfold footprint, returned; rewrite ?Hst; auto.
  rewrite Hfin, Hm. destruct (has_cleanup_finalizer p); auto.
Qed.

Lemma pristine_unadmitted o : pristine_pending_lease o = Ok tt -> admission_marker o <> Some SANDBOX_ADMISSION_ADMITTED.
Proof. unfold pristine_pending_lease. intros H. unbind H. rewrite deny_if_Ok in Hok. by bool_props. Qed.

Lemma status_ok_footprint o st : status_ok o st -> footprint o = true -> footprint_absence_proven st = true.
Proof. unfold footprint. intros [Hf _]. destruct (pl_status o); [exact Hf|done]. Qed.

Lemma status_ok_returned o st : status_ok o st -> consumes_capacity (ls_phase st) = false ->
  returned o = true \/ footprint_absence_proven st = true.
Proof.
  unfold returned. intros [_ Hr] Hc. destruct (Hr Hc) as [E|]; [left|by right].
  destruct (pl_status o); cbn in *; [by rewrite E|done].
Qed.

(** A permitted patch, after its two tests. *)
Lemma patch_evolves h c o name uid rv rest o' :
  (forall text, recorded o = Some text -> admission_marker o = Some SANDBOX_ADMISSION_ADMITTED) -> is_Some (pl_uid o) ->
  patch_ok principal_hash_for h c o rest -> apply_parent_ops rest o = Some o' ->
  evolves h (who c (ParentPatch name (PTestUid uid :: PTestVersion rv :: rest))) o o'.
Proof.
  intros Hrec Huid Hok Hops. destruct Hok as [rs sorted text gate Ho Hf Hc Hj Ht| |fs Hp|st Hst|at_ Hr]; cbn in Hops;
    repeat case_bool_decide; simplify_eq.
  - constructor; try done; unfold admission_marker, recorded in *; cbn.
    + right. split; [done|]. right. rewrite !lookup_insert_ne, !lookup_insert_eq by done. split_and!; [done..|].
      rewrite lookup_insert_ne, lookup_insert_eq by done. by eexists.
    + right. rewrite !lookup_insert_ne, lookup_insert_eq by done. split; [done|].
      exists text. rewrite lookup_insert_ne, lookup_insert_eq by done. split; [done|]. by exists rs, sorted.
    + by left.
    + auto.
  - constructor; try done; unfold admission_marker, recorded in *; cbn; auto.
    + right. split; [done|]. left. by rewrite lookup_insert_eq.
    + left. by rewrite lookup_insert_ne.
    + by rewrite lookup_insert_eq.
  - constructor; try done; auto. intros Ha. by destruct (pristine_unadmitted _ Hp).
  - constructor; try done; auto.
    + intros Ha. destruct (has_cleanup_finalizer o) eqn:E; auto.
    + unfold footprint at 2. cbn. by apply status_ok_footprint.
    + unfold footprint, returned at 1. cbn. intros Hn%negb_true_iff. by apply status_ok_returned.
  - destruct Hr as [text Hr]. pose proof (Hrec text Hr) as Ha. apply evolves_same_data; try done.
    + rewrite Ha. unfold admission_marker. cbn. by rewrite lookup_insert_ne, lookup_insert_eq.
    + unfold recorded. cbn. by rewrite !lookup_insert_ne.
Qed.

Lemma parent_in_place h s name p : inv h s -> parents s !! name = Some p ->
  pl_name p = name /\ seen h p /\ parents s !! pl_name p = Some p.
Proof. intros Hi Hp. destruct (v_stored _ _ _ (inv_parents _ _ Hi) _ _ Hp) as [<- ?]. done. Qed.

(** The stored object a fence was read from. *)
Lemma fenced_patch h s name p o uid rv rest o' : inv h s -> parents s !! name = Some p -> seen h o ->
  pl_resource_version o = Some rv ->
  apply_parent_ops (PTestUid uid :: PTestVersion rv :: rest) p = Some o' -> p = o /\ apply_parent_ops rest o = Some o'.
Proof.
  intros Hi Hp Ho Hrv. cbn. repeat case_bool_decide; try done. intros Hops.
  assert (p = o) as ->; [|done].
  destruct (parent_in_place _ _ _ _ Hi Hp) as (_ & Hs & _).
  eapply (v_one _ _ _ (inv_parents _ _ Hi)); [done..|congruence].
Qed.

(** The removal of a parent, by whoever asks for it. *)
Lemma delete_change h w at_ s name uid rv : inv h s ->
  change h w s (fst (delete_parent at_ s name uid rv)) (parents (fst (delete_parent at_ s name uid rv)) !! name) None.
Proof.
  intros Hi. unfold delete_parent.
  destruct (parents s !! name) as [o|] eqn:Hst; [|cbn; rewrite Hst; by apply ch_same].
  destruct (parent_in_place _ _ _ _ Hi Hst) as (<- & _ & _).
  case_bool_decide as Hfence; cbn [fst]; [|rewrite Hst; apply ch_same; by intros ? [= <-]].
  assert (He : evolves h w o (parent_deleting o at_)) by by apply evolves_same_data.
  destruct (normalized_finalizers o) eqn:Hf; cbn [fst].
  - cbn. rewrite lookup_delete_eq. by apply ch_drop.
  - pose proof (store_parent_change _ _ _ _ _ Hst He) as Hch. unfold store_parent in *. case_bool_decide as E; cbn in *.
    + rewrite Hst. apply ch_same. by intros ? [= <-].
    + assert (Hnf : normalized_finalizers (parent_stamped (parent_deleting o at_) (pl_uid o) (Some (version (next s)))
                      (pl_creation_timestamp o)) <> []) by (unfold normalized_finalizers in *; cbn; congruence).
      rewrite bool_decide_false in * by exact Hnf. rewrite ?andb_false_r in *. cbn in *. by rewrite lookup_insert_eq.
Qed.

Lemma effect_change {X} h c at_ s (q : areq X) : inv h s -> req_ok principal_hash_for ledger_ns limit h c q ->
  change h (who c q) s (effect at_ s q) (written at_ s q) (created s q).
Proof.
  intros Hi Hq. pose proof (inv_parents _ _ Hi) as Hp.
  assert (Hnone : forall w, change h w s s None None) by (intros w; by apply ch_same).
  destruct q as [name|sel|o|name ops|name rv key value|name uid rv|name|sel|t|name uid rv|l|l|]; cbn in Hq |- *;
    try apply Hnone.
  - destruct Hq as (_ & _ & Hf). unfold create_parent. destruct (parents s !! pl_name o) eqn:Hfree; [apply Hnone|].
    by eapply ch_create.
  - destruct Hq as (o & u & rv & rest & Hs & <- & Hu & Hrv & -> & Hok). unfold patch_parent.
    destruct (parents s !! pl_name o) as [p|] eqn:Hst; [|apply Hnone].
    destruct (apply_parent_ops (PTestUid u :: PTestVersion rv :: rest) p) as [o'|] eqn:Hops; [|apply Hnone].
    destruct (fenced_patch _ _ _ _ _ _ _ _ _ Hi Hst Hs Hrv Hops) as [-> Hrest].
    rewrite surjective_pairing with (p := store_parent s o o'). cbn.
    apply store_parent_change; [done|]. eapply patch_evolves; [|by eexists|done..].
    intros text Ht. by apply (v_recorded _ _ _ Hp _ text).
  - subst key. unfold merge_parent. destruct (parents s !! name) as [p|] eqn:Hst; [|apply Hnone].
    case_bool_decide; [|apply Hnone]. set (p' := with_parent_annotations p _).
    rewrite surjective_pairing with (p := store_parent s p p'). cbn.
    apply store_parent_change; [by eapply parent_in_place|].
    apply evolves_same_data; try done; unfold admission_marker, recorded; cbn; by rewrite lookup_insert_ne.
  - by apply delete_change.
  - destruct Hq as (o & type & principal & Hs & Hb & Hn). unfold create_token.
    destruct (tokens s !! l_name t) eqn:Hfree; [apply Hnone|]. cbn. by eapply ch_mint.
  - destruct Hq as (t & u & Ho & Hu & Hl & Hm). unfold delete_token.
    destruct (tokens s !! name) as [x|] eqn:Hst; [|apply Hnone].
    case_match eqn:Hfence; [|apply Hnone]. to_prop Hfence. cbn.
    destruct (v_token _ _ _ (inv_tokens _ _ Hi) _ _ Hst) as [<- Hx]. apply ch_release; [done|].
    intros Hmx. exists u. rewrite <- (v_immutable _ _ _ (inv_tokens _ _ Hi) x t Hmx Ho ltac:(congruence)) in Hmx |- *. auto.
Qed.

(** ** Answers *)

Lemma effect_answer {X} h c at_ s (q : areq X) r : inv h s -> req_ok principal_hash_for ledger_ns limit h c q ->
  answer at_ s q = Some r -> ans_ok (observe h (effect at_ s q) (written at_ s q) (created s q)) q r.
Proof.
  intros Hi Hq. pose proof (change_inv _ _ _ _ _ _ Hi (effect_change h c at_ s q Hi Hq)) as Hi'.
  destruct q as [name|sel|o|name ops|name rv key value|name uid rv|name|sel|t|name uid rv|l|l|]; cbn in Hi' |- *;
    try done; intros [= <-].
  - unfold find_parent. set (h' := observe h s None None) in *. destruct (parents s !! name) as [p|] eqn:Hst.
    + destruct (v_stored _ _ _ (inv_parents _ _ Hi') _ _ Hst) as [<- Hs].
      split_and!; [done..| |].
      { destruct (v_uid _ _ _ (inv_parents _ _ Hi') _ Hs) as (n & _ & ->). by eexists. }
      intros o' Hs' Hn u Hu Hne. destruct (v_live _ _ _ (inv_parents _ _ Hi') _ _ Hs' Hu) as [?|(p' & Hp' & Hpu)]; [done|].
      rewrite Hn, Hst in Hp'. congruence.
    + intros _ o' Hs' Hn u Hu. destruct (v_live _ _ _ (inv_parents _ _ Hi') _ _ Hs' Hu) as [?|(p' & Hp' & Hpu)]; [done|].
      rewrite Hn, Hst in Hp'. done.
  - apply Forall_forall. intros o Ho. apply list_elem_of_In, filter_In in Ho as [Ho _]. apply in_map_iff in Ho as ([n p] & <- & Ho).
    cbn. eapply (v_stored _ _ _ (inv_parents _ _ Hi') n). by apply elem_of_btree_iter, list_elem_of_In.
  - unfold create_parent. destruct (parents s !! pl_name o); [done|]. cbn. split; [right; by right|]. by do 3 eexists.
  - destruct (snd (patch_parent s name ops)); [|done]. by right; right.
  - destruct (snd (merge_parent s name rv key value)); [|done]. by right; right.
  - unfold find_token. destruct (tokens s !! name) eqn:Hst; [|done]. by eapply (v_token _ _ _ (inv_tokens _ _ Hi')).
  - apply Forall_forall. intros o Ho. apply list_elem_of_In, filter_In in Ho as [Ho Hsel]. apply in_map_iff in Ho as ([n p] & <- & Ho).
    split; [|done]. cbn. eapply (v_token _ _ _ (inv_tokens _ _ Hi') n). by apply elem_of_btree_iter, list_elem_of_In.
  - unfold create_token. destruct (tokens s !! l_name t); [done|]. cbn. split; [by right|]. by do 2 eexists.
Qed.

End World.
