(* ===== verification/AdmissionProps.v ===== *)
(** * AdmissionProps: concurrent admission over a shared cluster

    Any number of create and release requests, reaper passes, retention sweeps
    and teardown tails run interleaved over one store, request by request.  An
    answer may be lost, a request may take effect long after its caller gave up
    on it, a process may stop anywhere, and the rest of the cluster changes what
    it owns.  The theorems hold in every state that can be reached. *)

From S2P Require Import Prelude Text Durations PoolManager Quantity Policy SandboxObjects SandboxLifecycle LedgerApi AccessLedger LedgerCodec LedgerSteps LedgerBarrier LedgerInvariant SandboxAccess AdmissionApi Admission AdmissionFacts AdmissionSystem AdmissionSteps AdmissionWorld.

Local Open Scope kobe_scope.

(** The work of one thread. *)
Inductive Job : Type -> Type :=
| JobCreate (req : CreateRequest) : Job CreateResponse
| JobRelease (id : string) (identity : SandboxPrincipal) (policy : Policy) : Job ReleaseResponse
| JobReaper : Job unit
| JobFinish (lease : ParentLease) (cause : SandboxReleaseCause) : Job (result ReleaseAction SandboxLeaseMutationError)
| JobRetire (retention now : Z) : Job unit.

Record Thread : Type := {
  th_result : Type;
  th_job : Job th_result;
  th_ctx : Ctx;
  th_prog : aprog th_result;
}.

(** A request whose answer nobody waits for any more. *)
Record Stray : Type := { st_answer : Type; st_ctx : Ctx; st_request : areq st_answer }.

Record World : Type := { w_store : Store; w_hist : Hist; w_threads : list Thread; w_strays : list Stray }.

Definition set_prog (t : Thread) (c : Ctx) (p : aprog (th_result t)) : Thread :=
  {| th_result := th_result t; th_job := th_job t; th_ctx := c; th_prog := p |}.

(** The request a program waits for. *)
Inductive asks {R} : aprog R -> forall X, areq X -> (X -> aprog R) -> Prop :=
| asks_call X (q : areq X) k : asks (ACall q k) X q k
| asks_stage X (q : areq X) k d : asks (AStage q k d) X q k.

(** A failed request: any error, but absence of a parent is never invented. *)
Definition failure {X} (q : areq X) : X -> Prop :=
  match q in areq X return X -> Prop with
  | ParentGet _ => fun r => match r with Err e => is_404 e = false | Ok _ => False end
  | ParentList _ => fun r => exists e, r = Err e
  | ParentCreate _ | ParentPatch _ _ | ParentMerge _ _ _ _ => fun r => exists e, r = Err e
  | ParentDelete _ _ _ | TokenDelete _ _ _ => fun r => exists e, r = Err e
  | TokenGet _ | TokenCreate _ => fun r => exists e, r = Err e
  | TokenList _ => fun r => exists e, r = Err e
  | GatePrepare _ => fun r => exists e, r = Err e
  | GateRemove _ => fun r => exists e, r = Err e
  | ReadClock => fun _ => False
  end.

(** What the rest of the cluster may do to a lease: not its identity, its spec,
    its admission or its token set; and Kobe's finalizer goes and a phase without
    capacity is written only with the recorded proof that nothing is left. *)
Record leaves_alone (p p' : ParentLease) : Prop := {
  la_name : pl_name p' = pl_name p;
  la_uid : pl_uid p' = pl_uid p;
  la_spec : pl_spec p' = pl_spec p;
  la_marker : admission_marker p' = admission_marker p;
  la_recorded : recorded p' = recorded p;
  la_finalizer : has_cleanup_finalizer p = true -> has_cleanup_finalizer p' = true \/ footprint p' = true;
  la_footprint : footprint p = true -> footprint p' = true;
  la_returned : returned p' = true -> returned p = true \/ footprint p' = true;
}.

Section Props.
Context (principal_hash_for : SandboxPrincipal -> string).
Context `{C : Codec} {reservations_json : Json (list AdmissionReservation)}.
Context (parse_rfc3339 : string -> option Z) (to_rfc3339 to_rfc3339_z : Z -> string) (representable : Z -> bool).
Context (lease_ns ledger_ns : string).
Context (limit : string -> Z).

#[local] Abbreviation awlp := (awlp principal_hash_for ledger_ns limit).
#[local] Abbreviation req_ok := (req_ok principal_hash_for ledger_ns limit).
#[local] Abbreviation inv := (inv principal_hash_for limit).
#[local] Abbreviation change := (change principal_hash_for ledger_ns limit).
#[local] Abbreviation anytime := (fun _ : Ctx => True).

Definition code {R} (j : Job R) : aprog R :=
  match j with
  | JobCreate req =>
      create_sandbox_lease principal_hash_for parse_rfc3339 to_rfc3339 to_rfc3339_z representable lease_ns ledger_ns req
  | JobRelease id identity policy =>
      release_sandbox_lease principal_hash_for parse_rfc3339 to_rfc3339 lease_ns ledger_ns RELEASE_FENCE_ATTEMPTS id
        identity policy
  | JobReaper => admission_reaper_pass principal_hash_for parse_rfc3339 to_rfc3339 lease_ns ledger_ns
  | JobFinish lease cause => finish_release principal_hash_for to_rfc3339 ledger_ns lease cause
  | JobRetire retention now => sweep_retired_leases parse_rfc3339 retention now
  end.

(** A create request is for the lease its handler built, within the granted
    number of slots; a controller works on a lease it has seen. *)
Definition startable {R} (h : Hist) (j : Job R) : Prop :=
  match j with
  | JobCreate req =>
      cr_max_concurrent_leases req <= limit (principal_hash_for (cr_identity req))
      /\ exists id pool authority ttl alias type,
           cr_lease req = with_sandbox_create_identity
             (build_sandbox_lease principal_hash_for lease_ns id pool authority ttl alias (cr_identity req) type)
             (cr_create req)
  | JobFinish lease _ => seen h lease
  | _ => True
  end.

Definition with_store (w : World) (s : Store) (new : option ParentLease) (made : option Lease) : World :=
  {| w_store := s; w_hist := observe (w_hist w) s new made; w_threads := w_threads w; w_strays := w_strays w |}.
Definition with_thread (w : World) (i : nat) (t : Thread) : World :=
  {| w_store := w_store w; w_hist := w_hist w; w_threads := <[i := t]> (w_threads w); w_strays := w_strays w |}.

(** A request takes effect. *)
Definition served {X} (at_ : string) (w : World) (q : areq X) : World :=
  with_store w (effect at_ (w_store w) q) (written at_ (w_store w) q) (created (w_store w) q).

Definition no_context : Ctx := {| own := None; issued := false |}.

Inductive step (w : World) : World -> Prop :=
| step_spawn R (j : Job R) :
    startable (w_hist w) j ->
    step w {| w_store := w_store w; w_hist := w_hist w;
              w_threads := w_threads w ++ [{| th_result := R; th_job := j; th_ctx := no_context; th_prog := code j |}];
              w_strays := w_strays w |}
| step_answer i t X (q : areq X) k at_ r :
    w_threads w !! i = Some t -> asks (th_prog t) X q k ->
    (answer at_ (w_store w) q = Some r \/ answer at_ (w_store w) q = None) ->
    step w (with_thread (served at_ w q) i (set_prog t (received (th_ctx t) q r) (k r)))
| step_fail i t X (q : areq X) k r :
    w_threads w !! i = Some t -> asks (th_prog t) X q k -> failure q r ->
    step w (with_thread w i (set_prog t (received (th_ctx t) q r) (k r)))
| step_stray i t X (q : areq X) k :
    w_threads w !! i = Some t -> asks (th_prog t) X q k ->
    step w {| w_store := w_store w; w_hist := w_hist w;
              w_threads := <[i := set_prog t (sent (th_ctx t) q) (th_prog t)]> (w_threads w);
              w_strays := {| st_answer := X; st_ctx := th_ctx t; st_request := q |} :: w_strays w |}
| step_deliver at_ x : x ∈ w_strays w -> step w (served at_ w (st_request x))
| step_drop i t X (q : areq X) k d e :
    w_threads w !! i = Some t -> th_prog t = AStage q k d ->
    step w (with_thread w i (set_prog t (sent (th_ctx t) q) (d e)))
| step_poll i t k o :
    w_threads w !! i = Some t -> th_prog t = APoll k -> step w (with_thread w i (set_prog t (th_ctx t) (k o)))
| step_cluster p p' :
    parents (w_store w) !! pl_name p = Some p -> leaves_alone p p' ->
    step w (with_store w (fst (store_parent (w_store w) p p')) (Some (snd (store_parent (w_store w) p p'))) None)
| step_delete at_ p u rv :
    parents (w_store w) !! pl_name p = Some p -> pl_uid p = Some u -> pl_resource_version p = Some rv ->
    step w (served at_ w (ParentDelete (pl_name p) u rv))
| step_foreign t n :
    (tokens (w_store w) !! l_name t = None /\ n = next (w_store w)
     \/ exists old, tokens (w_store w) !! l_name t = Some old /\ l_uid old = Some (fresh_uid n) /\ ~ minted (w_hist w) old) ->
    l_uid t = Some (fresh_uid n) -> l_resource_version t = Some (version (next (w_store w))) ->
    step w (with_store w (put_token (w_store w) t) None None)
| step_foreign_drop t :
    tokens (w_store w) !! l_name t = Some t -> ~ minted (w_hist w) t ->
    step w (with_store w (drop_token (w_store w) (l_name t)) None None).

Definition init : World :=
  {| w_store := {| parents := ∅; tokens := ∅; next := 0 |};
     w_hist := {| seen _ := False; objs _ := False; minted _ := False; gone _ := False |};
     w_threads := []; w_strays := [] |}.

Definition reachable (w : World) : Prop := rtc step init w.

(** ** The invariant of the system *)

Definition post {R} (j : Job R) : Hist -> Ctx -> R -> Prop :=
  match j with JobCreate _ => create_post principal_hash_for | _ => fun _ _ _ => True end.

Record winv (w : World) : Prop := {
  wi_store : inv (w_hist w) (w_store w);
  wi_thread i t : w_threads w !! i = Some t -> awlp anytime (w_hist w) (th_ctx t) (th_prog t) (post (th_job t));
  wi_stray x : x ∈ w_strays w -> req_ok (w_hist w) (st_ctx x) (st_request x);
  wi_known i t u : w_threads w !! i = Some t -> own (th_ctx t) = Some u -> exists o, seen (w_hist w) o /\ pl_uid o = Some u;
  wi_unique i j t t' u : w_threads w !! i = Some t -> w_threads w !! j = Some t' ->
    own (th_ctx t) = Some u -> own (th_ctx t') = Some u -> i = j;
  wi_sent x u : x ∈ w_strays w -> is_admit (st_request x) = true -> own (st_ctx x) = Some u ->
    exists i t, w_threads w !! i = Some t /\ own (th_ctx t) = Some u /\ issued (th_ctx t) = true;
  wi_admitted o u : seen (w_hist w) o -> pl_uid o = Some u -> admission_marker o = Some SANDBOX_ADMISSION_ADMITTED ->
    exists i t, w_threads w !! i = Some t /\ own (th_ctx t) = Some u /\ issued (th_ctx t) = true;
}.

Lemma post_mono {R} (j : Job R) h h' c r : hle h h' -> post j h c r -> post j h' c r.
Proof. destruct j; cbn; try done. apply create_post_mono. Qed.

Lemma inv_init : inv (w_hist init) (w_store init).
Proof. constructor; [done|constructor; cbn; done|constructor; cbn; done]. Qed.

Lemma winv_init : winv init.
Proof.
  constructor; cbn; try done; try apply inv_init.
  - by intros x ?%elem_of_nil.
  - by intros x u ?%elem_of_nil.
Qed.

(** *** Steps of the store *)

(** What a step makes known: what was known, and the version it wrote. *)
Lemma change_seen h who s s' new made o : inv h s -> change h who s s' new made -> seen (observe h s' new made) o ->
  seen h o \/ new = Some o.
Proof.
  intros Hi Hc. pose proof (v_stored _ _ _ _ (inv_parents _ _ _ _ Hi)) as Hst. intros [?|[Hs|?]]; [by left| |by right].
  destruct Hc; cbn in Hs; try (left; by eapply Hst).
  - apply lookup_insert_Some in Hs as [[_ <-]|[_ Hs]]; [by right|left; by eapply Hst].
  - apply lookup_insert_Some in Hs as [[_ <-]|[_ Hs]]; [by right|left; by eapply Hst].
  - apply lookup_delete_Some in Hs as [_ Hs]. left; by eapply Hst.
  - apply lookup_delete_Some in Hs as [_ Hs]. left; by eapply Hst.
Qed.

(** A version that is admitted: so was one before, or its owner admitted it. *)
Lemma change_admitted h who s s' new made o : inv h s -> change h who s s' new made -> new = Some o ->
  admission_marker o = Some SANDBOX_ADMISSION_ADMITTED ->
  (exists p, seen h p /\ pl_uid p = pl_uid o /\ admission_marker p = Some SANDBOX_ADMISSION_ADMITTED) \/ who = pl_uid o.
Proof.
  intros Hi Hc -> Ha. pose proof (v_stored _ _ _ _ (inv_parents _ _ _ _ Hi)) as Hst.
  assert (Hev : forall p, parents s !! pl_name p = Some p -> evolves principal_hash_for h who p o ->
    (exists p, seen h p /\ pl_uid p = pl_uid o /\ admission_marker p = Some SANDBOX_ADMISSION_ADMITTED) \/ who = pl_uid o).
  { intros p Hp He. rewrite (ev_uid _ _ _ _ _ He). destruct (ev_marker _ _ _ _ _ He) as [E|(_ & [E|(_ & -> & _)])].
    - left. exists p. split_and!; [by eapply Hst|done|congruence].
    - by rewrite Ha in E.
    - by right. }
  inversion Hc; simplify_eq; eauto.
  - left. exists o. split_and!; [by eapply Hst; eauto|done..].
  - match goal with Hf : fresh_parent _ |- _ => destruct Hf as (Hm & _) end.
    change (admission_marker (parent_stamped ?x _ _ _)) with (admission_marker x) in Ha. by rewrite Hm in Ha.
Qed.

Definition owner (w : World) (u : string) : Prop :=
  exists i t, w_threads w !! i = Some t /\ own (th_ctx t) = Some u /\ issued (th_ctx t) = true.

Lemma winv_change w who s' new made : winv w -> change (w_hist w) who (w_store w) s' new made ->
  (forall u, who = Some u -> owner w u) -> winv (with_store w s' new made).
Proof.
  intros Hw Hc Hown. pose proof (wi_store _ Hw) as Hi.
  assert (Hi' : inv (observe (w_hist w) s' new made) s') by (eapply change_inv; eauto).
  assert (Hle : hle (w_hist w) (observe (w_hist w) s' new made)) by (eapply observe_hle; eauto).
  constructor; cbn [w_hist w_store w_threads w_strays with_store]; [done|..].
  - intros i t Ht. eapply awlp_hle; [exact Hle|by intros; eapply post_mono|by eapply inv_hwf|by apply (wi_thread _ Hw i)].
  - intros x Hx. eapply req_ok_mono; [exact Hle|]. by apply (wi_stray _ Hw).
  - intros i t u Ht Hu. destruct (wi_known _ Hw i t u Ht Hu) as (o & Hs & ?). exists o.
    split; [by apply (hle_seen _ _ Hle)|done].
  - apply (wi_unique _ Hw).
  - apply (wi_sent _ Hw).
  - intros o u Ho Hu Ha. destruct (change_seen _ _ _ _ _ _ _ Hi Hc Ho) as [Hs|E]; [by apply (wi_admitted _ Hw o)|].
    destruct (change_admitted _ _ _ _ _ _ _ Hi Hc E Ha) as [(p & Hs & Hpu & Hpa)|Hwho].
    + apply (wi_admitted _ Hw p); [done|congruence|done].
    + apply Hown. congruence.
Qed.

(** *** Steps of a thread *)

(** What a thread owns only changes when its CREATE is answered. *)
Definition owns_more (w : World) (c c' : Ctx) : Prop :=
  (issued c = true -> issued c' = true)
  /\ (own c' = own c
      \/ own c = None /\ exists u, own c' = Some u /\ (exists o, seen (w_hist w) o /\ pl_uid o = Some u)
                                  /\ forall i t, w_threads w !! i = Some t -> own (th_ctx t) <> Some u).

Lemma winv_move w i t c' p' strays : winv w -> w_threads w !! i = Some t -> owns_more w (th_ctx t) c' ->
  awlp anytime (w_hist w) c' p' (post (th_job t)) ->
  (forall x, x ∈ strays -> x ∈ w_strays w
     \/ req_ok (w_hist w) (st_ctx x) (st_request x)
        /\ (is_admit (st_request x) = true -> own (st_ctx x) = own c' /\ issued c' = true)) ->
  winv {| w_store := w_store w; w_hist := w_hist w; w_threads := <[i := set_prog t c' p']> (w_threads w);
          w_strays := strays |}.
Proof.
  intros Hw Ht [Hiss Hown] Hp Hstr. pose proof (lookup_lt_Some _ _ _ Ht) as Hlt.
  assert (Hkeep : forall u, owner w u -> owner {| w_store := w_store w; w_hist := w_hist w;
      w_threads := <[i := set_prog t c' p']> (w_threads w); w_strays := strays |} u).
  { intros u (j & x & Hj & Hu & Hi). destruct (decide (i = j)) as [<-|Hne].
    - exists i, (set_prog t c' p'). cbn. rewrite list_lookup_insert_eq by done. simplify_eq.
      split_and!; [done| |auto]. destruct Hown as [->|[? _]]; [done|congruence].
    - exists j, x. cbn. by rewrite list_lookup_insert_ne. }
  assert (Hcase : forall j x, <[i := set_prog t c' p']> (w_threads w) !! j = Some x ->
    (j = i /\ x = set_prog t c' p') \/ (j <> i /\ w_threads w !! j = Some x)).
  { intros j x [(-> & <- & _)|[Hne Hx]]%list_lookup_insert_Some; [by left|by right]. }
  constructor; cbn [w_hist w_store w_threads w_strays].
  - apply (wi_store _ Hw).
  - intros j x [[-> ->]|[_ Hx]]%Hcase; [done|]. by apply (wi_thread _ Hw j).
  - intros x [Hx|[Hx _]]%Hstr; [by apply (wi_stray _ Hw)|done].
  - intros j x u [[-> ->]|[_ Hx]]%Hcase Hu; [cbn in Hu|by eapply (wi_known _ Hw)].
    destruct Hown as [E|(_ & v & Hv & Hk & _)]; [eapply (wi_known _ Hw); [exact Ht|congruence]|].
    by assert (u = v) as -> by congruence.
  - intros j k x y u [[-> ->]|[Hji Hx]]%Hcase [[-> ->]|[Hki Hy]]%Hcase Hu Hv; cbn in Hu, Hv; [done| | |by eapply (wi_unique _ Hw)];
      exfalso; destruct Hown as [E|(_ & v & Hv' & _ & Hfresh)].
    + apply Hki. symmetry. apply (wi_unique _ Hw i k t y u); [done..|congruence|done].
    + apply (Hfresh k y); [done|congruence].
    + apply Hji. apply (wi_unique _ Hw j i x t u); [done..|congruence].
    + apply (Hfresh j x); [done|congruence].
  - intros x u [Hx|[Hx Ha]]%Hstr Hadm Hu; [by eapply Hkeep, (wi_sent _ Hw)|]. destruct (Ha Hadm) as [E Hi].
    exists i, (set_prog t c' p'). rewrite list_lookup_insert_eq by done. cbn. split_and!; [done|congruence|done].
  - intros o u Ho Hu Ha. by eapply Hkeep, (wi_admitted _ Hw).
Qed.

Lemma sent_more w X (q : areq X) c : owns_more w c (sent c q).
Proof. split; [cbn; by intros ->|by left]. Qed.

Lemma sent_sent {X} (q : areq X) c : sent (sent c q) q = sent c q.
Proof. unfold sent. cbn. by rewrite <- orb_assoc, orb_diag. Qed.

Lemma received_sent {X} (q : areq X) c r : received (sent c q) q r = received c q r.
Proof.
  destruct q as [| |o|name ops| | | | | | | | |]; try exact (sent_sent _ c).
  destruct c as [ow iss], r; unfold sent; cbn; by rewrite orb_false_r.
Qed.

Lemma req_ok_sent {X} h c (q : areq X) : req_ok h c q -> req_ok h (sent c q) q.
Proof.
  destruct q as [| |o|name ops| | | | | | | | |]; try done.
  - intros (? & ? & ?). cbn. by rewrite orb_false_r.
  - intros (o & uid & rv & rest & ? & ? & ? & ? & ? & Hok). exists o, uid, rv, rest.
    split_and!; [done..|]. destruct Hok; econstructor; eauto.
Qed.

Lemma asks_guarantee {R} (p : aprog R) X (q : areq X) k h c Q : asks p X q k -> awlp anytime h c p Q ->
  req_ok h c q /\ (forall h' r, hle h h' -> hwf h' -> ans_ok h' q r -> awlp anytime h' (received c q r) (k r) Q)
  /\ awlp anytime h (sent c q) p Q.
Proof.
  intros [] Hp; cbn in Hp.
  - destruct Hp as (Hq & _ & Hk). split_and!; [done..|]. cbn. split_and!; [by apply req_ok_sent|done|].
    intros h' r. rewrite received_sent. apply Hk.
  - destruct Hp as (Hq & _ & Hk & Hd). split_and!; [done..|]. cbn. split_and!; [by apply req_ok_sent|done| |].
    + intros h' r. rewrite received_sent. apply Hk.
    + rewrite sent_sent. apply Hd.
Qed.

Lemma failure_ok {X} (q : areq X) h r : failure q r -> ans_ok h q r.
Proof.
  destruct q; cbn; intros H; try done; try (by destruct H as [e ->]). destruct r as [|e]; [done|].
  rewrite H. intros Hn. discriminate Hn.
Qed.

Lemma received_failed {X} (q : areq X) w c r : failure q r -> owns_more w c (received c q r).
Proof.
  intros Hf. destruct q; try apply sent_more. destruct Hf as [e ->]. split; [done|by left].
Qed.

(** The owner of a lease that was created in this step is new. *)
Lemma received_answered {X} (q : areq X) w c at_ r strays threads :
  winv w -> req_ok (w_hist w) c q -> answer at_ (w_store w) q = Some r \/ answer at_ (w_store w) q = None ->
  (forall i t, threads !! i = Some t -> exists j t', w_threads w !! j = Some t' /\ own (th_ctx t') = own (th_ctx t)) ->
  owns_more {| w_store := w_store (served at_ w q); w_hist := w_hist (served at_ w q); w_threads := threads;
               w_strays := strays |} (sent c q) (received c q r).
Proof.
  intros Hw Hq Ha Hth. destruct q as [| |o| | | | | | | | | |]; try (by split; [|left]).
  destruct Hq as (Hown & Hiss & Hf). cbn in Ha. unfold create_parent in Ha.
  destruct (parents (w_store w) !! pl_name o) eqn:Hfree; destruct Ha as [[= <-]|]; try done; cbn.
  - split; [|by left]. cbn. by rewrite Hiss.
  - split; [cbn; by rewrite Hiss|]. right. split; [done|]. eexists. split; [done|]. split.
    + exists (parent_stamped o (Some (fresh_uid (next (w_store w)))) (Some (version (next (w_store w)))) (Some at_)).
      split; [|done]. cbn. unfold create_parent. rewrite Hfree. cbn. by right; right.
    + intros i t Ht E. destruct (Hth i t Ht) as (j & t' & Ht' & E'). rewrite E in E'.
      destruct (wi_known _ Hw j t' _ Ht' E') as (x & Hx & Hxu).
      by eapply (fresh_unseen _ _ _ _ x (inv_next _ _ _ _ (wi_store _ Hw)) (inv_parents _ _ _ _ (wi_store _ Hw))).
Qed.

Lemma winv_answer w i t X (q : areq X) k at_ r : winv w -> w_threads w !! i = Some t -> asks (th_prog t) X q k ->
  answer at_ (w_store w) q = Some r \/ answer at_ (w_store w) q = None ->
  winv (with_thread (served at_ w q) i (set_prog t (received (th_ctx t) q r) (k r))).
Proof.
  intros Hw Ht Hk Ha. pose proof (lookup_lt_Some _ _ _ Ht) as Hlt.
  destruct (asks_guarantee _ _ _ _ _ _ _ Hk (wi_thread _ Hw i t Ht)) as (Hq & Hcont & Hself).
  set (t1 := set_prog t (sent (th_ctx t) q) (th_prog t)). set (w1 := with_thread w i t1).
  assert (Hw1 : winv w1). { apply winv_move; try done; [apply sent_more|by left]. }
  assert (Ht1 : w_threads w1 !! i = Some t1) by (cbn; by rewrite list_lookup_insert_eq).
  assert (Hc : change (w_hist w) (who (th_ctx t) q) (w_store w) (effect at_ (w_store w) q) (written at_ (w_store w) q)
                 (created (w_store w) q)) by (apply effect_change; [apply (wi_store _ Hw)|done]).
  assert (Hw2 : winv (served at_ w1 q)).
  { eapply winv_change; [done|exact Hc|]. unfold who. intros u Hu. case_match eqn:Hadm; [|done].
    exists i, t1. split_and!; [done..|]. cbn. by rewrite Hadm, orb_true_r. }
  assert (Hans : ans_ok (w_hist (served at_ w q)) q r).
  { destruct Ha as [Ha|Ha]; [by eapply effect_answer; [apply (wi_store _ Hw)|..]|]. by destruct q. }
  pose proof (winv_move (served at_ w1 q) i t1 (received (th_ctx t) q r) (k r) (w_strays w) Hw2 Ht1) as Hmove.
  unfold with_thread, served, with_store in *. cbn in *. rewrite list_insert_insert_eq in Hmove. apply Hmove.
  - eapply received_answered; [exact Hw|done..|]. intros j x Hx.
    apply list_lookup_insert_Some in Hx as [(-> & <- & _)|[_ Hx]]; [by exists j, t|by exists j, x].
  - apply Hcont; [eapply observe_hle; [apply (wi_store _ Hw)|exact Hc]|by eapply inv_hwf, (wi_store _ Hw2)|done].
  - by left.
Qed.

Lemma leaves_alone_evolves h p p' : leaves_alone p p' -> evolves principal_hash_for h None p p'.
Proof.
  intros []. constructor; auto. intros Ha. destruct (has_cleanup_finalizer p) eqn:E.
  - destruct la_finalizer0; auto.
  - right. right. split; [congruence|done].
Qed.

Lemma startable_awlp {R} (j : Job R) h : hwf h -> startable h j -> awlp anytime h no_context (code j) (post j).
Proof.
  intros Hwf Hs. destruct j as [req|id identity policy| |lease cause|retention now]; cbn [code post startable] in *.
  - destruct Hs as [Hmax (id & pool & authority & ttl & alias & type & Hl)].
    apply awlp_create; [done..|]. rewrite Hl. apply built_lease_fresh.
  - by eapply awlp_use; [done|apply awlp_release_lease|].
  - by eapply awlp_use; [done|apply awlp_reaper_pass|].
  - by eapply awlp_use; [done|apply awlp_finish_release|].
  - by eapply awlp_use; [done|apply awlp_sweep_retired|].
Qed.

Lemma winv_spawn w R (j : Job R) : winv w -> startable (w_hist w) j ->
  winv {| w_store := w_store w; w_hist := w_hist w;
          w_threads := w_threads w ++ [{| th_result := R; th_job := j; th_ctx := no_context; th_prog := code j |}];
          w_strays := w_strays w |}.
Proof.
  intros Hw Hs. set (t0 := {| th_result := R; th_job := j; th_ctx := no_context; th_prog := code j |}).
  assert (Hcase : forall i t, (w_threads w ++ [t0]) !! i = Some t -> w_threads w !! i = Some t \/ t = t0).
  { intros i t [Ht|[_ Ht]]%lookup_app_Some; [by left|right]. by apply list_lookup_singleton_Some in Ht as [_ <-]. }
  assert (Hkeep : forall u, owner w u -> owner {| w_store := w_store w; w_hist := w_hist w; w_threads := w_threads w ++ [t0];
                                                  w_strays := w_strays w |} u).
  { intros u (i & t & Ht & ?). exists i, t. split; [|done]. by apply lookup_app_l_Some. }
  constructor; cbn [w_hist w_store w_threads w_strays].
  - apply (wi_store _ Hw).
  - intros i t [Ht| ->]%Hcase; [by apply (wi_thread _ Hw i)|]. apply startable_awlp; [by eapply inv_hwf, (wi_store _ Hw)|done].
  - apply (wi_stray _ Hw).
  - intros i t u [Ht| ->]%Hcase Hu; [by eapply (wi_known _ Hw)|done].
  - intros i k t t' u [Ht| ->]%Hcase [Ht'| ->]%Hcase Hu Hu'; [by eapply (wi_unique _ Hw)|done..].
  - intros x u Hx Ha Hu. by eapply Hkeep, (wi_sent _ Hw).
  - intros o u Ho Hu Ha. by eapply Hkeep, (wi_admitted _ Hw).
Qed.

Lemma step_winv w w' : winv w -> step w w' -> winv w'.
Proof.
  intros Hw Hstep. pose proof (wi_store _ Hw) as Hi. pose proof (inv_hwf _ _ _ _ Hi) as Hwf.
  destruct Hstep as [R j Hs|i t X q k at_ r Ht Hk Ha|i t X q k r Ht Hk Hf|i t X q k Ht Hk|at_ x Hx
                    |i t X q k d e Ht Hd|i t k o Ht Hp|p p' Hst Hla|at_ p u rv Hst Hu Hrv|t n Hc Hu Hv|t Hst Hm].
  - by apply winv_spawn.
  - by eapply winv_answer.
  - destruct (asks_guarantee _ _ _ _ _ _ _ Hk (wi_thread _ Hw i t Ht)) as (Hq & Hcont & _).
    apply winv_move; [done..|by apply received_failed|apply Hcont; [done..|by apply failure_ok]|by left].
  - destruct (asks_guarantee _ _ _ _ _ _ _ Hk (wi_thread _ Hw i t Ht)) as (Hq & _ & Hself).
    apply winv_move; [done..|apply sent_more|done|]. intros x [->|Hx]%elem_of_cons; [right; cbn|by left].
    split; [done|]. intros ->. by rewrite orb_true_r.
  - eapply winv_change; [done|apply effect_change; [done|by apply (wi_stray _ Hw)]|]. unfold who. intros u Hu.
    case_match eqn:Hadm; [|done]. by eapply (wi_sent _ Hw).
  - pose proof (wi_thread _ Hw i t Ht) as Hp. rewrite Hd in Hp. cbn in Hp. destruct Hp as (_ & _ & _ & Hp).
    apply winv_move; [done..|apply sent_more|by apply Hp|by left].
  - pose proof (wi_thread _ Hw i t Ht) as Hpr. rewrite Hp in Hpr. cbn in Hpr.
    apply winv_move; [done..|by split; [|left]|by apply Hpr|by left].
  - eapply winv_change; [done|apply store_parent_change; [done|by apply leaves_alone_evolves]|done].
  - eapply winv_change with (who := None); [done|by apply delete_change|done].
  - eapply winv_change with (who := None); [done|by eapply ch_foreign|done].
  - eapply winv_change with (who := None); [done|apply ch_release; [done|by intros ?]|done].
Qed.

Lemma reachable_winv w : reachable w -> winv w.
Proof.
  unfold reachable. intros H. pose proof winv_init as Hi. induction H as [|w1 w2 w3 Hs _ IH]; [done|].
  by eapply IH, step_winv.
Qed.

End Props.
