(* ===== verification/AdmissionTheorems.v ===== *)
(** * AdmissionTheorems: what holds of every reachable admission state

    The tokens an admitted lease keeps, the bound on admitted leases of one
    principal, the exclusion of admission and cancellation, and what the answer
    of a create request says.  A driver runs one thread without interference, to
    exhibit reachable states. *)

From S2P Require Import Prelude Text Durations PoolManager Quantity Policy SandboxObjects SandboxLifecycle LedgerApi AccessLedger LedgerCodec LedgerSteps LedgerBarrier LedgerInvariant LedgerProps SandboxAccess AdmissionApi Admission AdmissionFacts AdmissionSystem AdmissionSteps AdmissionWorld AdmissionProps.

Local Open Scope kobe_scope.

(** A lease that holds capacity: admitted, and its footprint not proven absent. *)
Definition admitted (p : ParentLease) : bool :=
  bool_decide (admission_marker p = Some SANDBOX_ADMISSION_ADMITTED).
Definition holds_capacity (p : ParentLease) : bool := admitted p && negb (footprint p).

Lemma holds_capacity_iff p : holds_capacity p = true <->
  admission_marker p = Some SANDBOX_ADMISSION_ADMITTED /\ footprint p = false.
Proof. unfold holds_capacity, admitted. rewrite andb_true_iff, bool_decide_eq_true, negb_true_iff. done. Qed.

(** ** Counting *)

Lemma Forall_choose {A B} (P : A -> B -> Prop) (l : list A) : (forall a, a ∈ l -> exists b, P a b) -> exists k, Forall2 P l k.
Proof.
  induction l as [|a l IH]; intros H; [by exists []|]. destruct (H a) as [b Hb]; [left|].
  destruct IH as [k Hk]; [intros; apply H; by right|]. exists (b :: k). by constructor.
Qed.

(** Distinct slots below a bound are at most that many. *)
Lemma slots_bounded (l : list Z) (bound : Z) : NoDup l -> Forall (fun s => 0 <= s < bound) l -> Z.of_nat (length l) <= Z.max 0 bound.
Proof.
  intros Hn Hf. assert (Hsub : l ⊆+ slots_below bound).
  { apply NoDup_submseteq; [done|]. intros s Hs. rewrite Forall_forall in Hf. specialize (Hf s Hs).
    unfold slots_below. apply list_elem_of_fmap. exists (Z.to_nat s). split; [lia|]. apply elem_of_seq. lia. }
  apply submseteq_length in Hsub. unfold slots_below in Hsub. rewrite length_map, length_seq in Hsub. lia.
Qed.

Lemma NoDup_choose {A B} (P : A -> B -> Prop) (l : list A) (k : list B) : NoDup l -> Forall2 P l k ->
  (forall a a' b, a ∈ l -> a' ∈ l -> P a b -> P a' b -> a = a') -> NoDup k.
Proof.
  intros Hn Hp. induction Hp as [|a b l k Hab Hp IH]; intros Hinj; [constructor|].
  apply NoDup_cons in Hn as [Ha Hn]. apply NoDup_cons. split.
  - intros Hb. apply list_elem_of_lookup in Hb as [i Hi]. destruct (Forall2_lookup_r _ _ _ _ _ Hp Hi) as (a' & Ha' & Hab').
    assert (a' ∈ l) by by eapply list_elem_of_lookup_2. rewrite (Hinj a a' b) in Ha; [done|left|by right|done..].
  - apply IH; [done|]. intros x y z Hx Hy. apply Hinj; by right.
Qed.

Section Claims.
Context (principal_hash_for : SandboxPrincipal -> string).
Context `{C : Codec} {reservations_json : Json (list AdmissionReservation)}.
Context (parse_rfc3339 : string -> option Z) (to_rfc3339 to_rfc3339_z : Z -> string) (representable : Z -> bool).
Context (lease_ns ledger_ns : string).
Context (limit : string -> Z).

#[local] Abbreviation reachable :=
  (reachable principal_hash_for parse_rfc3339 to_rfc3339 to_rfc3339_z representable lease_ns ledger_ns limit).
#[local] Abbreviation winv := (winv principal_hash_for ledger_ns limit).
#[local] Abbreviation persisted := (persisted_reservation_provenance principal_hash_for).
#[local] Abbreviation principal_of := (parent_principal principal_hash_for).

(** A token set is read from its text as it was written. *)
Definition reservations_roundtrip : Prop :=
  forall (rs : list AdmissionReservation) text, to_json rs = Some text -> from_json text = Some rs.

Section invariant.
Context (Hjson : reservations_roundtrip) (w : World) (Hw : winv w).
#[local] Abbreviation h := (w_hist w).
#[local] Abbreviation s := (w_store w).
Let Hp : pinv principal_hash_for h (parents s) (next s) := inv_parents _ _ _ _ (wi_store _ _ _ _ Hw).
Let Ht : tinv limit h (tokens s) (next s) := inv_tokens _ _ _ _ (wi_store _ _ _ _ Hw).

Lemma admitted_set o : seen h o -> admission_marker o = Some SANDBOX_ADMISSION_ADMITTED ->
  exists rs, persisted o = Ok rs /\ holds_tokens h o rs.
Proof.
  intros Hs Ha. destruct (v_admitted _ _ _ _ Hp _ Hs Ha) as [text Hrec].
  destruct (v_recorded _ _ _ _ Hp _ _ Hs Hrec) as (_ & rs & sorted & Hc & Hj & Htok).
  destruct (canonical_again _ _ _ _ Hc) as (again & Hc' & Hperm). exists again. split.
  - unfold persisted_reservation_provenance. unfold recorded in Hrec. rewrite Hrec. cbn. rewrite (Hjson _ _ Hj). exact Hc'.
  - intros r Hr. apply Htok. by rewrite <- Hperm.
Qed.

Lemma stored_version_seen n p : parents s !! n = Some p -> seen h p.
Proof. intros H. by eapply (v_stored _ _ _ _ Hp). Qed.

Lemma stored_uid n p : parents s !! n = Some p -> exists u, pl_uid p = Some u.
Proof. intros H. destruct (v_uid _ _ _ _ Hp p (stored_version_seen _ _ H)) as (m & _ & ->). by eexists. Qed.

(** Every token of a lease that holds capacity is stored. *)
Lemma tokens_held n p rs r : parents s !! n = Some p -> holds_capacity p = true -> holds_tokens h p rs -> r ∈ rs ->
  exists t, tokens s !! ar_name r = Some t /\ minted h t /\ l_uid t = Some (ar_uid r) /\ token_lease_uid t = pl_uid p.
Proof.
  intros Hst [Ha Hf]%holds_capacity_iff Htok Hr. destruct (Htok r Hr) as (t & Hm & <- & Hu & Hl).
  destruct (stored_uid _ _ Hst) as [u Hpu].
  destruct (v_held _ _ _ _ Ht _ Hm) as [Hin|(v & Hv & [Hg|Hpr])]; [by exists t| |].
  - exfalso. eapply (v_gone _ _ _ _ Hp); [exact Hg|exact Hst|congruence].
  - rewrite (v_footprint _ _ _ _ Hp n p v Hst) in Hf; [done|congruence|done].
Qed.

(** Two leases that hold the same token are one. *)
Lemma token_shared n n' p p' name t : parents s !! n = Some p -> parents s !! n' = Some p' ->
  tokens s !! name = Some t -> token_lease_uid t = pl_uid p -> token_lease_uid t = pl_uid p' -> p = p'.
Proof.
  intros Hst Hst' _ E E'. destruct (v_stored _ _ _ _ Hp _ _ Hst) as [Hn Hs]. destruct (v_stored _ _ _ _ Hp _ _ Hst') as [Hn' Hs'].
  destruct (v_same _ _ _ _ Hp p p' Hs Hs' ltac:(congruence)) as [Hname _]. congruence.
Qed.

(** The slot of a lease that holds capacity is within its principal's grant. *)
Definition holds_slot (p : ParentLease) (slot : Z) : Prop :=
  0 <= slot < Z.min MAX_SANDBOX_CONCURRENCY_SLOTS (limit (principal_of p))
  /\ exists t, tokens s !! quota_reservation_name (principal_of p) slot = Some t /\ token_lease_uid t = pl_uid p.

Lemma capacity_slot n p : parents s !! n = Some p -> holds_capacity p = true -> exists slot, holds_slot p slot.
Proof.
  intros Hst Hc. pose proof (stored_version_seen _ _ Hst) as Hs. pose proof Hc as [Ha _]%holds_capacity_iff.
  destruct (v_admitted _ _ _ _ Hp _ Hs Ha) as [text Hrec].
  destruct (v_recorded _ _ _ _ Hp _ _ Hs Hrec) as (_ & rs & sorted & Hcan & _ & Htok).
  destruct (canonical_quota _ _ _ _ Hcan) as (r & slot & Hr & Hslot & Hname).
  destruct (tokens_held _ _ _ _ Hst Hc Htok Hr) as (t & Hin & Hm & _ & Hl). rewrite Hname in Hin.
  exists slot. split; [|by exists t]. split; [lia|]. apply Z.min_glb_lt; [lia|].
  destruct (v_minted _ _ _ _ Ht _ Hm) as (_ & o & u & pr & _ & _ & _ & _ & Hok).
  destruct (v_token _ _ _ _ Ht _ _ Hin) as [Htn _]. destruct Hok as [(slot' & Hs' & E)|(alias & E)]; rewrite Htn in E.
  - apply quota_name_inj in E as [-> ->]; [lia|done|lia].
  - by apply quota_not_alias in E.
Qed.

End invariant.

Lemma reachable_system_inv w : reachable w -> winv w.
Proof. apply reachable_winv. Qed.

(** C18. In every reachable state, a stored lease that is admitted and whose
    footprint was not proven absent has a valid recorded token set, and every
    token of it is in the ledger, with the recorded UID, for this lease: no
    interleaving of creates, cancellations, reapers and releases, lost answer or
    late request frees the quota or the alias of a lease that may still run. *)
Theorem admitted_lease_keeps_its_tokens w name p :
  reservations_roundtrip -> reachable w -> parents (w_store w) !! name = Some p -> holds_capacity p = true ->
  exists rs, persisted p = Ok rs
    /\ forall r, r ∈ rs -> exists t, tokens (w_store w) !! ar_name r = Some t /\ l_uid t = Some (ar_uid r)
                                     /\ token_lease_uid t = pl_uid p.
Proof.
  intros Hjson Hr Hst Hc. pose proof (reachable_system_inv _ Hr) as Hw. pose proof Hc as [Ha _]%holds_capacity_iff.
  destruct (admitted_set Hjson w Hw p (stored_version_seen w Hw _ _ Hst) Ha) as (rs & Hrs & Htok). exists rs. split; [done|].
  intros r Hin. destruct (tokens_held w Hw _ _ _ _ Hst Hc Htok Hin) as (t & ? & _ & ? & ?). by exists t.
Qed.

(** The leases of a principal that hold capacity. *)
Definition capacity_of (w : World) (principal : string) : list ParentLease :=
  List.filter (fun p => holds_capacity p && String.eqb (principal_of p) principal) (map snd (btree_iter (parents (w_store w)))).

Lemma capacity_of_elem w principal p : p ∈ capacity_of w principal ->
  exists n, parents (w_store w) !! n = Some p /\ holds_capacity p = true /\ principal_of p = principal.
Proof.
  intros Hp. apply list_elem_of_In, filter_In in Hp as [Hin Hc]. to_prop Hc.
  apply in_map_iff in Hin as ([n q] & <- & Hin). exists n. split; [|done]. by apply elem_of_btree_iter, list_elem_of_In.
Qed.

Lemma capacity_of_NoDup w principal : winv w -> NoDup (capacity_of w principal).
Proof.
  intros Hw. apply NoDup_ListNoDup, List.NoDup_filter, NoDup_ListNoDup.
  pose proof (btree_iter_NoDup (parents (w_store w))) as Hn.
  assert (Hnames : Forall (fun kv => pl_name kv.2 = kv.1) (btree_iter (parents (w_store w)))).
  { apply Forall_forall. intros [n p] Hin%elem_of_btree_iter. by apply (v_stored _ _ _ _ (inv_parents _ _ _ _ (wi_store _ _ _ _ Hw))). }
  induction Hnames as [|[n p] l Hnp Hall IH]; [constructor|]. cbn in *. apply NoDup_cons in Hn as [Hni Hn].
  apply NoDup_cons. split; [|by apply IH]. intros Hin. apply Hni. apply list_elem_of_fmap in Hin as ([m q] & -> & Hin).
  rewrite Forall_forall in Hall. pose proof (Hall _ Hin) as Hm. cbn in *. subst.
  apply list_elem_of_fmap. by exists (pl_name q, q).
Qed.

(** C19. In every reachable state, the leases of one principal that are admitted
    and not proven absent are at most as many as the slots it was ever granted
    (and never more than 256), however many creates run at once. *)
Theorem concurrency_limit_holds w principal : reachable w ->
  Z.of_nat (length (capacity_of w principal)) <= Z.max 0 (Z.min MAX_SANDBOX_CONCURRENCY_SLOTS (limit principal)).
Proof.
  intros Hr. pose proof (reachable_system_inv _ Hr) as Hw.
  destruct (Forall_choose (holds_slot w) (capacity_of w principal)) as [slots Hslots].
  { intros p (n & Hst & Hc & _)%capacity_of_elem. by eapply capacity_slot. }
  rewrite (Forall2_length _ _ _ Hslots). apply slots_bounded.
  - eapply NoDup_choose; [by apply capacity_of_NoDup|exact Hslots|].
    intros p p' slot (n & Hst & _ & Hpr)%capacity_of_elem (n' & Hst' & _ & Hpr')%capacity_of_elem (_ & t & Hin & Hl) (_ & t' & Hin' & Hl').
    rewrite Hpr in Hin. rewrite Hpr' in Hin'. simplify_eq. by eapply token_shared.
  - apply Forall_forall. intros slot Hin. apply list_elem_of_lookup in Hin as [i Hi].
    destruct (Forall2_lookup_r _ _ _ _ _ Hslots Hi) as (p & Hpi & [Hrange _]).
    destruct (capacity_of_elem w principal p) as (n & _ & _ & <-); [by eapply list_elem_of_lookup_2|done].
Qed.

(** In every reachable state, an alias of a principal names at most one lease
    that is admitted and not proven absent. *)
Theorem alias_names_one_lease w name name' p p' alias : reachable w ->
  parents (w_store w) !! name = Some p -> parents (w_store w) !! name' = Some p' ->
  holds_capacity p = true -> holds_capacity p' = true -> principal_of p = principal_of p' ->
  parent_alias p = Some alias -> parent_alias p' = Some alias -> p = p'.
Proof.
  intros Hr Hst Hst' Hc Hc' Hpr Hal Hal'. pose proof (reachable_system_inv _ Hr) as Hw.
  assert (Htok : forall n q, parents (w_store w) !! n = Some q -> holds_capacity q = true -> parent_alias q = Some alias ->
    exists t, tokens (w_store w) !! alias_reservation_name (principal_of q) alias = Some t /\ token_lease_uid t = pl_uid q).
  { intros n q Hq Hcq Haq. pose proof (inv_parents _ _ _ _ (wi_store _ _ _ _ Hw)) as Hp.
    pose proof (stored_version_seen w Hw _ _ Hq) as Hs. pose proof Hcq as [Ha _]%holds_capacity_iff.
    destruct (v_admitted _ _ _ _ Hp _ Hs Ha) as [text Hrec].
    destruct (v_recorded _ _ _ _ Hp _ _ Hs Hrec) as (_ & rs & sorted & Hcan & _ & Ht).
    destruct (canonical_alias _ _ _ _ _ Hcan Haq) as (r & Hin & <-).
    destruct (tokens_held w Hw _ _ _ _ Hq Hcq Ht Hin) as (t & ? & _ & _ & ?). by exists t. }
  destruct (Htok _ _ Hst Hc Hal) as (t & Hin & Hl). destruct (Htok _ _ Hst' Hc' Hal') as (t' & Hin' & Hl').
  rewrite <- Hpr in Hin'. simplify_eq. by eapply token_shared.
Qed.

(** Admission and cancellation of a lease exclude each other: once a version
    of it was admitted, none was or will be cancelled, and the lease stays
    stored and admitted until its footprint was proven absent. *)
Theorem admission_is_final w o u : reachable w -> seen (w_hist w) o -> pl_uid o = Some u ->
  admission_marker o = Some SANDBOX_ADMISSION_ADMITTED ->
  (forall o', seen (w_hist w) o' -> pl_uid o' = Some u -> admission_marker o' <> Some SANDBOX_ADMISSION_CANCELLED)
  /\ (proven (w_hist w) u
      \/ exists p, parents (w_store w) !! pl_name o = Some p /\ pl_uid p = Some u
                   /\ admission_marker p = Some SANDBOX_ADMISSION_ADMITTED).
Proof.
  intros Hr Hs Hu Ha. pose proof (reachable_system_inv _ Hr) as Hw. pose proof (inv_parents _ _ _ _ (wi_store _ _ _ _ Hw)) as Hp.
  split.
  - intros o' Hs' Hu' Hcan. destruct (v_marker _ _ _ _ Hp o o' Hs Hs' ltac:(congruence)) as [E|[E|E]].
    + by rewrite Ha, Hcan in E.
    + by rewrite Ha in E.
    + by rewrite Hcan in E.
  - destruct (v_live _ _ _ _ Hp _ _ Hs Hu) as [Hg|(p & Hst & Hpu)].
    + left. by eapply (v_gone_admitted _ _ _ _ Hp).
    + right. exists p. split_and!; [done..|]. destruct (v_current _ _ _ _ Hp _ _ _ Hst Hs ltac:(congruence)) as [E|E];
        rewrite Ha in E; [done|discriminate E].
Qed.

(** C21. A token that was created for a lease leaves the ledger only when the lease
    is gone or its footprint was proven absent; and if any version of the lease
    was ever admitted, only with the proof. *)
Theorem token_freed_after_proof w t u : reachable w -> minted (w_hist w) t -> token_lease_uid t = Some u ->
  tokens (w_store w) !! l_name t <> Some t ->
  (gone (w_hist w) u \/ proven (w_hist w) u)
  /\ forall o, seen (w_hist w) o -> pl_uid o = Some u -> admission_marker o = Some SANDBOX_ADMISSION_ADMITTED ->
       proven (w_hist w) u.
Proof.
  intros Hr Hm Hl Hout. pose proof (reachable_system_inv _ Hr) as Hw. pose proof (inv_parents _ _ _ _ (wi_store _ _ _ _ Hw)) as Hp.
  destruct (v_held _ _ _ _ (inv_tokens _ _ _ _ (wi_store _ _ _ _ Hw)) _ Hm) as [|(v & Hv & Hgp)]; [done|].
  assert (v = u) as -> by congruence. split; [done|]. intros o Hs Hu Ha. destruct Hgp as [Hg|]; [|done].
  by eapply (v_gone_admitted _ _ _ _ Hp).
Qed.

(** ** Answers of a create *)

Definition create_thread (req : CreateRequest) (c : Ctx) (p : aprog CreateResponse) : Thread :=
  {| th_result := CreateResponse; th_job := JobCreate req; th_ctx := c; th_prog := p |}.

(** C20. A create that was refused leaves nothing behind that runs: in no
    reachable state, now or later, is the lease it created stored as admitted;
    even a patch that was sent before the refusal and arrives after it. *)
Theorem refused_create_is_not_admitted w i req c status what : reachable w ->
  w_threads w !! i = Some (create_thread req c (ARet (CreateRefused status what))) ->
  existsb (fun p => admitted p && bool_decide (pl_uid p = own c)) (map snd (btree_iter (parents (w_store w)))) = false.
Proof.
  intros Hr Hi. apply not_true_iff_false. intros (p & Hin & Hc)%existsb_exists. to_prop Hc. unfold admitted in *. bool_props.
  match goal with H : admission_marker p = _ |- _ => rename H into Ha end.
  match goal with H : pl_uid p = own c |- _ => rename H into Hown end.
  apply in_map_iff in Hin as ([name q] & E & Hin). cbn in E. subst q.
  assert (Hst : parents (w_store w) !! name = Some p) by by apply elem_of_btree_iter, list_elem_of_In.
  pose proof (reachable_system_inv _ Hr) as Hw. pose proof (inv_parents _ _ _ _ (wi_store _ _ _ _ Hw)) as Hp.
  pose proof (stored_version_seen w Hw _ _ Hst) as Hs. destruct (stored_uid w Hw _ _ Hst) as [u Hu].
  pose proof (wi_thread _ _ _ _ Hw i _ Hi) as Hpost. cbn in Hpost. destruct Hpost as [Hiss|(v & Hv & Hd)].
  - destruct (wi_admitted _ _ _ _ Hw p u Hs Hu Ha) as (j & t & Ht & Hj & Hjs).
    assert (i = j) as -> by (apply (wi_unique _ _ _ _ Hw i j _ _ u Hi Ht); [cbn; congruence|done]).
    rewrite Hi in Ht. simplify_eq. cbn in Hjs. congruence.
  - assert (v = u) as -> by congruence. destruct Hd as [Hg|(o & Ho & Hou & Hm)].
    + by eapply (v_gone _ _ _ _ Hp).
    + destruct (v_current _ _ _ _ Hp _ _ o Hst Ho ltac:(congruence)) as [E|E]; rewrite Hm in E;
        [rewrite Ha in E|]; discriminate E.
Qed.

(** A create that was accepted names a lease that it created and that is
    admitted: unless its footprint was proven absent since, it is stored under
    that name with a valid recorded token set. *)
Theorem accepted_create_is_admitted w i req c name deadline :
  reservations_roundtrip -> reachable w ->
  w_threads w !! i = Some (create_thread req c (ARet (CreateAccepted name deadline))) ->
  exists u, own c = Some u
    /\ (proven (w_hist w) u
        \/ exists p, parents (w_store w) !! name = Some p /\ pl_uid p = Some u
                     /\ admitted_reservation_provenance_is_valid principal_hash_for p = true).
Proof.
  intros Hjson Hr Hi. pose proof (reachable_system_inv _ Hr) as Hw. pose proof (inv_parents _ _ _ _ (wi_store _ _ _ _ Hw)) as Hp.
  pose proof (wi_thread _ _ _ _ Hw i _ Hi) as (u & Hu & o & Hs & <- & Hou & Hv). exists u. split; [done|].
  unfold admitted_reservation_provenance_is_valid in Hv. to_prop Hv.
  match goal with H : admission_marker o = _ |- _ => rename H into Ha end.
  destruct (v_live _ _ _ _ Hp _ _ Hs Hou) as [Hg|(p & Hst & Hpu)].
  - left. by eapply (v_gone_admitted _ _ _ _ Hp).
  - right. exists p. split_and!; [done..|].
    assert (Hpa : admission_marker p = Some SANDBOX_ADMISSION_ADMITTED).
    { destruct (v_current _ _ _ _ Hp _ _ _ Hst Hs ltac:(congruence)) as [E|E]; rewrite Ha in E; [done|discriminate E]. }
    destruct (admitted_set Hjson w Hw p (stored_version_seen w Hw _ _ Hst) Hpa) as (rs & Hrs & _).
    unfold admitted_reservation_provenance_is_valid. by rewrite Hrs, bool_decide_true.
Qed.

(** The name of a quota slot is read back as the principal and the slot it was
    written for, and only such a name is read: the two spellings of a slot and a
    slot of another principal are rejected. *)
Theorem quota_name_roundtrip name principal slot :
  parsed_quota_reservation_name name = Some (principal, slot)
  <-> name = quota_reservation_name principal slot /\ 0 <= slot < MAX_SANDBOX_CONCURRENCY_SLOTS.
Proof.
  split; [apply parsed_quota_read|]. intros [-> Hs]. by apply parsed_quota_written.
Qed.

(** ** A driver *)

(** The answer of the server, and of the ledger and the clock. *)
Definition reply {X} (at_ : string) (s : Store) (clock : Z) (gate : AccessGateReference) (q : areq X) : X :=
  match answer at_ s q with
  | Some r => r
  | None =>
      match q in areq X return X with
      | GatePrepare _ => Ok gate
      | GateRemove _ => Ok tt
      | ReadClock => clock
      | ParentGet _ | ParentCreate _ | ParentPatch _ _ | ParentMerge _ _ _ _ => Err Transport
      | ParentList _ => Err Transport
      | ParentDelete _ _ _ | TokenDelete _ _ _ => Err Transport
      | TokenGet _ | TokenCreate _ => Err Transport
      | TokenList _ => Err Transport
      end
  end.

(** Run thread [i] alone. *)
Fixpoint drive (fuel : nat) (at_ : string) (clock : Z) (gate : AccessGateReference) (i : nat) (w : World) : World :=
  match fuel with
  | O => w
  | S fuel =>
      match w_threads w !! i with
      | None => w
      | Some t =>
          match th_prog t with
          | ARet _ => w
          | ACall q k | AStage q k _ =>
              let r := reply at_ (w_store w) clock gate q in
              drive fuel at_ clock gate i (with_thread (served at_ w q) i (set_prog t (received (th_ctx t) q r) (k r)))
          | APoll k => drive fuel at_ clock gate i (with_thread w i (set_prog t (th_ctx t) (k None)))
          end
      end
  end.

(** The thread creates the token on its way. *)
Fixpoint mints (fuel : nat) (at_ : string) (clock : Z) (gate : AccessGateReference) (i : nat) (t : Lease) (w : World) : bool :=
  match fuel with
  | O => false
  | S fuel =>
      match w_threads w !! i with
      | None => false
      | Some th =>
          match th_prog th with
          | ARet _ => false
          | ACall q k | AStage q k _ =>
              let r := reply at_ (w_store w) clock gate q in
              bool_decide (created (w_store w) q = Some t)
              || mints fuel at_ clock gate i t (with_thread (served at_ w q) i (set_prog th (received (th_ctx th) q r) (k r)))
          | APoll k => mints fuel at_ clock gate i t (with_thread w i (set_prog th (th_ctx th) (k None)))
          end
      end
  end.

Lemma drive_minted fuel at_ clock gate i t : forall w,
  minted (w_hist w) t \/ mints fuel at_ clock gate i t w = true -> minted (w_hist (drive fuel at_ clock gate i w)) t.
Proof.
  induction fuel as [|fuel IH]; intros w; cbn [drive mints]; [by intros [|]|].
  destruct (w_threads w !! i) as [th|]; [|by intros [|]].
  destruct (th_prog th) as [r|X q k|X q k d|k]; [by intros [|]| | |]; intros [Hm|Hm]; apply IH; cbn zeta in *;
    try (by right); try (left; by left); try (by left).
  all: apply orb_true_iff in Hm as [Hm|Hm]; [left; right; by apply bool_decide_eq_true in Hm|by right].
Qed.

Definition spawned {R} (j : Job R) (w : World) : World :=
  {| w_store := w_store w; w_hist := w_hist w;
     w_threads := w_threads w ++ [{| th_result := R; th_job := j; th_ctx := no_context;
        th_prog := code principal_hash_for parse_rfc3339 to_rfc3339 to_rfc3339_z representable lease_ns ledger_ns j |}];
     w_strays := w_strays w |}.

#[local] Abbreviation step :=
  (step principal_hash_for parse_rfc3339 to_rfc3339 to_rfc3339_z representable lease_ns ledger_ns limit).

Lemma drive_steps fuel at_ clock gate i : forall w, rtc step w (drive fuel at_ clock gate i w).
Proof.
  induction fuel as [|fuel IH]; intros w; cbn [drive]; [done|]. destruct (w_threads w !! i) as [t|] eqn:Ht; [|done].
  assert (Hans : forall X (q : areq X) k, asks (th_prog t) X q k ->
    step w (with_thread (served at_ w q) i (set_prog t (received (th_ctx t) q (reply at_ (w_store w) clock gate q))
                                              (k (reply at_ (w_store w) clock gate q))))).
  { intros X q k Hk. eapply step_answer; [done..|]. unfold reply. destruct (answer at_ (w_store w) q); auto. }
  destruct (th_prog t) as [r|X q k|X q k d|k] eqn:Hp; [done| | |].
  - eapply rtc_l; [apply Hans; constructor|apply IH].
  - eapply rtc_l; [apply Hans; constructor|apply IH].
  - eapply rtc_l; [by eapply step_poll|apply IH].
Qed.

Lemma reachable_spawn {R} (j : Job R) fuel at_ clock gate i w : reachable w ->
  startable principal_hash_for lease_ns limit (w_hist w) j -> reachable (drive fuel at_ clock gate i (spawned j w)).
Proof.
  unfold AdmissionProps.reachable. intros Hr Hs. etrans; [exact Hr|]. eapply rtc_l; [by apply step_spawn|apply drive_steps].
Qed.

Lemma reachable_init : reachable init.
Proof. apply rtc_refl. Qed.

End Claims.

(** ** Witnesses *)

#[local] Instance SandboxReservationKind_countable : Countable SandboxReservationKind.
Proof.
  refine (inj_countable' (fun k => match k with Quota => true | Alias => false end)
    (fun b : bool => if b then Quota else Alias) _). by intros [].
Defined.
#[local] Instance AdmissionReservation_countable : Countable AdmissionReservation.
Proof.
  refine (inj_countable' (fun r => (ar_kind r, ar_name r, ar_uid r))
    (fun '(a, b, c) => {| ar_kind := a; ar_name := b; ar_uid := c |}) _). by intros [].
Defined.

Module Demo.

Definition json : Json (list AdmissionReservation) := {| to_json rs := Some (object_text rs); from_json := object_value |}.

Lemma json_roundtrip : reservations_roundtrip (reservations_json := json).
Proof. intros rs text [= <-]. apply object_roundtrip. Qed.

Definition hash (p : SandboxPrincipal) : string := pr_identity p.
Definition clock_text (t : Z) : string := show_uint t.
Definition clock_value (s : string) : option Z := parse_uint u64_max s.
Definition alice : SandboxPrincipal := {| pr_provider := "oidc"; pr_issuer := "issuer"; pr_identity := "a11ce" |}.
Definition pool : SandboxPoolReference := {| pool_ref_name := "pool"; pool_ref_uid := "pool-uid"; pool_ref_generation := 1 |}.
Definition gate : AccessGateReference := {| gate_ref_name := "kobe-access-g-uid-0"; gate_ref_uid := "gate-uid" |}.
Definition one (_ : string) : Z := 1.

Definition request (id : string) (alias : option string) : CreateRequest :=
  {| cr_lease := build_sandbox_lease hash "kobe" id pool None "1h" alias alice "user";
     cr_identity := alice; cr_create := None; cr_provisioning_timeout := seconds 60; cr_max_concurrent_leases := 1;
     cr_resolutions := 2 |}.

Definition run {R} (j : Job R) (i : nat) (w : World) : World :=
  drive 200 "5" 7 gate i
    (spawned (C := demo_codec) (reservations_json := json) hash clock_value clock_text clock_text (fun _ => true) "kobe"
       "kobe-ledger" j w).

(** The first create is accepted, the second one finds the only slot taken. *)
Definition world1 : World := run (JobCreate (request "sbx-1" (Some "dev"))) 0 init.
Definition world2 : World := run (JobCreate (request "sbx-2" None)) 1 world1.

(** A third create acquires its alias, finds no slot and gives the alias back. *)
Definition started3 : World :=
  spawned (C := demo_codec) (reservations_json := json) hash clock_value clock_text clock_text (fun _ => true) "kobe"
    "kobe-ledger" (JobCreate (request "sbx-3" (Some "tmp"))) world2.
Definition held3 (fuel : nat) : World := drive fuel "5" 7 gate 2 started3.
Definition world3 : World := held3 200.

Lemma startable_request w id alias :
  startable hash "kobe" one w (JobCreate (request id alias)).
Proof. split; [done|]. by do 6 eexists. Qed.

#[local] Abbreviation reachable :=
  (AdmissionProps.reachable (C := demo_codec) (reservations_json := json) hash clock_value clock_text clock_text
     (fun _ => true) "kobe" "kobe-ledger" one).

Lemma world1_reachable : reachable world1.
Proof. apply reachable_spawn; [apply reachable_init|apply startable_request]. Qed.

Lemma world2_reachable : reachable world2.
Proof. apply reachable_spawn; [apply world1_reachable|apply startable_request]. Qed.

Lemma world3_reachable : reachable world3.
Proof. apply reachable_spawn; [apply world2_reachable|apply startable_request]. Qed.

Definition lease1 : ParentLease := default (cr_lease (request "" None)) (parents (w_store world2) !! "sbx-1").

(** The alias token of the third lease, while it was held. *)
Definition token3 : Lease :=
  default {| l_name := ""; l_namespace := None; l_uid := None; l_resource_version := None; l_labels := ∅;
             l_annotations := ∅; l_owner_references := None; l_finalizers := None; l_deletion_timestamp := None;
             l_spec := None |} (tokens (w_store (held3 14)) !! "sbx-alias-a11ce-tmp").
Definition uid3 : string := default "" (token_lease_uid token3).

End Demo.

Lemma admitted_lease_keeps_its_tokens_witness :
  exists rs, persisted_reservation_provenance (reservations_json := Demo.json) Demo.hash Demo.lease1 = Ok rs
    /\ forall r, r ∈ rs -> exists t, tokens (w_store Demo.world2) !! ar_name r = Some t /\ l_uid t = Some (ar_uid r)
                                     /\ token_lease_uid t = pl_uid Demo.lease1.
Proof.
  apply (admitted_lease_keeps_its_tokens (C := demo_codec) (reservations_json := Demo.json) Demo.hash Demo.clock_value
           Demo.clock_text Demo.clock_text (fun _ => true) "kobe" "kobe-ledger" Demo.one Demo.world2 "sbx-1" Demo.lease1).
  - apply Demo.json_roundtrip.
  - apply Demo.world2_reachable.
  - vm_compute. reflexivity.
  - vm_compute. reflexivity.
Defined.

Lemma concurrency_limit_holds_witness :
  length (capacity_of Demo.hash Demo.world2 "a11ce") = 1%nat
  /\ Z.of_nat (length (capacity_of Demo.hash Demo.world2 "a11ce")) <= Z.max 0 (Z.min 256 1).
Proof.
  split; [vm_compute; reflexivity|].
  apply (concurrency_limit_holds (C := demo_codec) (reservations_json := Demo.json) Demo.hash Demo.clock_value
           Demo.clock_text Demo.clock_text (fun _ => true) "kobe" "kobe-ledger" Demo.one Demo.world2 "a11ce").
  apply Demo.world2_reachable.
Defined.

Lemma alias_names_one_lease_witness : parent_alias Demo.lease1 = Some "dev" /\ Demo.lease1 = Demo.lease1.
Proof.
  split; [vm_compute; reflexivity|].
  apply (alias_names_one_lease (C := demo_codec) (reservations_json := Demo.json) Demo.hash Demo.clock_value
           Demo.clock_text Demo.clock_text (fun _ => true) "kobe" "kobe-ledger" Demo.one Demo.world2 "sbx-1" "sbx-1"
           Demo.lease1 Demo.lease1 "dev");
    [apply Demo.world2_reachable|vm_compute; reflexivity..].
Defined.

Lemma admission_is_final_witness :
  (forall o', seen (w_hist Demo.world2) o' -> pl_uid o' = Some "uid-0" -> admission_marker o' <> Some SANDBOX_ADMISSION_CANCELLED)
  /\ (proven (w_hist Demo.world2) "uid-0"
      \/ exists p, parents (w_store Demo.world2) !! pl_name Demo.lease1 = Some p /\ pl_uid p = Some "uid-0"
                   /\ admission_marker p = Some SANDBOX_ADMISSION_ADMITTED).
Proof.
  apply (admission_is_final (C := demo_codec) (reservations_json := Demo.json) Demo.hash Demo.clock_value
           Demo.clock_text Demo.clock_text (fun _ => true) "kobe" "kobe-ledger" Demo.one Demo.world2 Demo.lease1 "uid-0").
  - apply Demo.world2_reachable.
  - eapply stored_version_seen with (n := "sbx-1"); [eapply reachable_winv, Demo.world2_reachable|]. vm_compute. reflexivity.
  - vm_compute. reflexivity.
  - vm_compute. reflexivity.
Defined.

Lemma refused_create_is_not_admitted_witness :
  w_threads Demo.world2 !! 1%nat
    = Some (create_thread (Demo.request "sbx-2" None) {| own := Some "uid-5"; issued := false |}
              (ARet (CreateRefused 429 "Concurrent Sandbox lease limit reached")))
  /\ existsb (fun p => admitted p && bool_decide (pl_uid p = Some "uid-5")) (map snd (btree_iter (parents (w_store Demo.world2))))
     = false.
Proof.
  assert (Ht : w_threads Demo.world2 !! 1%nat
    = Some (create_thread (Demo.request "sbx-2" None) {| own := Some "uid-5"; issued := false |}
              (ARet (CreateRefused 429 "Concurrent Sandbox lease limit reached")))) by (vm_compute; reflexivity).
  split; [exact Ht|].
  apply (refused_create_is_not_admitted (C := demo_codec) (reservations_json := Demo.json) Demo.hash Demo.clock_value
           Demo.clock_text Demo.clock_text (fun _ => true) "kobe" "kobe-ledger" Demo.one Demo.world2 1
           (Demo.request "sbx-2" None) {| own := Some "uid-5"; issued := false |} 429
           "Concurrent Sandbox lease limit reached").
  - apply Demo.world2_reachable.
  - exact Ht.
Defined.

Lemma accepted_create_is_admitted_witness :
  exists u, Some "uid-0" = Some u
    /\ (proven (w_hist Demo.world2) u
        \/ exists p, parents (w_store Demo.world2) !! "sbx-1" = Some p /\ pl_uid p = Some u
                     /\ admitted_reservation_provenance_is_valid (reservations_json := Demo.json) Demo.hash p = true).
Proof.
  apply (accepted_create_is_admitted (C := demo_codec) (reservations_json := Demo.json) Demo.hash Demo.clock_value
           Demo.clock_text Demo.clock_text (fun _ => true) "kobe" "kobe-ledger" Demo.one Demo.world2 0
           (Demo.request "sbx-1" (Some "dev")) {| own := Some "uid-0"; issued := true |} "sbx-1" "60000000005").
  - apply Demo.json_roundtrip.
  - apply Demo.world2_reachable.
  - vm_compute. reflexivity.
Defined.

Lemma token_freed_after_proof_witness :
  let w := Demo.world3 in let u := Demo.uid3 in
  (gone (w_hist w) u \/ proven (w_hist w) u)
  /\ forall o, seen (w_hist w) o -> pl_uid o = Some u -> admission_marker o = Some SANDBOX_ADMISSION_ADMITTED ->
       proven (w_hist w) u.
Proof.
  apply (token_freed_after_proof (C := demo_codec) (reservations_json := Demo.json) Demo.hash Demo.clock_value
           Demo.clock_text Demo.clock_text (fun _ => true) "kobe" "kobe-ledger" Demo.one Demo.world3 Demo.token3 Demo.uid3).
  - apply Demo.world3_reachable.
  - apply drive_minted. right. vm_compute. reflexivity.
  - vm_compute. reflexivity.
  - vm_compute. discriminate.
Defined.
