(* ===== verification/Cel.v ===== *)
(** * Admission-policy expressions

    The part of the Common Expression Language the admission policies of Kobe
    are written in: values, expressions, the text of an expression and what it
    evaluates to.  The evaluation rules are those of the language definition:
    selecting an absent key is an error, [has] asks for it, [||] and [&&] take
    the decisive value of either side even when the other one is an error, and
    an equality is deep.  The sources handle expressions as texts only
    (src/receipt_authority.rs, src/sandbox_ledger.rs); this file says what the
    texts mean. *)

From stdpp Require Import base list strings.
From Stdlib Require Import ZArith Ascii String.
From S2P Require Import Prelude Text.
Local Open Scope string_scope.

(** The double quote. *)
Definition dquote : string := String (ascii_of_nat 34) EmptyString.

(** [slice.join(sep)] *)
Fixpoint join_with (sep : string) (l : list string) : string :=
  match l with
  | [] => ""
  | [s] => s
  | s :: l' => s +:+ sep +:+ join_with sep l'
  end.

(** ** Values *)

(** An API object is decoded JSON; its numbers are integers here, as in the
    schemas of the objects the policies look at. *)
Inductive value : Type :=
| VNull
| VBool (b : bool)
| VNum (n : Z)
| VStr (s : string)
| VList (l : list value)
| VMap (m : list (string * value)).

Fixpoint field (f : string) (m : list (string * value)) : option value :=
  match m with
  | [] => None
  | (k, v) :: m => if String.eqb k f then Some v else field f m
  end.

(** Deep equality; the order of the keys of a map does not matter. *)
Fixpoint veq (a b : value) {struct a} : bool :=
  match a, b with
  | VNull, VNull => true
  | VBool x, VBool y => Bool.eqb x y
  | VNum x, VNum y => Z.eqb x y
  | VStr x, VStr y => String.eqb x y
  | VList l, VList l' =>
      (fix all l l' := match l, l' with
                       | [], [] => true
                       | x :: l, y :: l' => veq x y && all l l'
                       | _, _ => false
                       end) l l'
  | VMap m, VMap m' =>
      Nat.eqb (length m) (length m') &&
      (fix all m := match m with
                    | [] => true
                    | (k, x) :: m => match field k m' with
                                     | Some y => veq x y
                                     | None => false
                                     end && all m
                    end) m
  | _, _ => false
  end.

(** ** Expressions *)

(** [EStr] is written in single quotes, [EJson] in double quotes with JSON
    escapes, [EParen] is a pair of parentheses. *)
Inductive expr : Type :=
| EVar (x : string)
| ENull
| EStr (s : string)
| EJson (s : string)
| EStrs (l : list string)
| ESel (e : expr) (f : string)
| EHas (e : expr) (f : string)
| ENot (e : expr)
| EEq (a b : expr)
| ENe (a b : expr)
| EIn (a b : expr)
| EAnd (a b : expr)
| EOr (a b : expr)
| EIf (c a b : expr)
| EExists (e : expr) (x : string) (p : expr)
| EFilter (e : expr) (x : string) (p : expr)
| EParen (e : expr).

(** *** Text *)

Definition hex_digit (n : Z) : ascii :=
  ascii_of_N (Z.to_N (if n <? 10 then 48 + n else 87 + n))%Z.

(** One byte of a JSON string, escaped the way serde_json does. *)
Definition json_byte (c : ascii) : string :=
  let b := byte_of c in
  let esc (d : ascii) := String "\"%char (String d "") in
  if (b =? 34)%Z then esc c
  else if (b =? 92)%Z then esc c
  else if (b =? 8)%Z then esc "b"%char
  else if (b =? 9)%Z then esc "t"%char
  else if (b =? 10)%Z then esc "n"%char
  else if (b =? 12)%Z then esc "f"%char
  else if (b =? 13)%Z then esc "r"%char
  else if (b <? 32)%Z then "\u00" +:+ String (hex_digit (b / 16)%Z) (String (hex_digit (b mod 16)%Z) "")
  else String c "".

Fixpoint json_body (s : string) : string :=
  match s with
  | EmptyString => ""
  | String c s => json_byte c +:+ json_body s
  end.

(** [serde_json::to_string] of a [&str]. *)
Definition json_to_string (s : string) : string := dquote +:+ json_body s +:+ dquote.

Definition single_quoted (s : string) : string := "'" +:+ s +:+ "'".

Fixpoint show (e : expr) : string :=
  match e with
  | EVar x => x
  | ENull => "null"
  | EStr s => single_quoted s
  | EJson s => json_to_string s
  | EStrs l => "[" +:+ join_with ", " (map single_quoted l) +:+ "]"
  | ESel e f => show e +:+ "." +:+ f
  | EHas e f => "has(" +:+ show e +:+ "." +:+ f +:+ ")"
  | ENot e => "!" +:+ show e
  | EEq a b => show a +:+ " == " +:+ show b
  | ENe a b => show a +:+ " != " +:+ show b
  | EIn a b => show a +:+ " in " +:+ show b
  | EAnd a b => show a +:+ " && " +:+ show b
  | EOr a b => show a +:+ " || " +:+ show b
  | EIf c a b => show c +:+ " ? " +:+ show a +:+ " : " +:+ show b
  | EExists e x p => show e +:+ ".exists(" +:+ x +:+ ", " +:+ show p +:+ ")"
  | EFilter e x p => show e +:+ ".filter(" +:+ x +:+ ", " +:+ show p +:+ ")"
  | EParen e => "(" +:+ show e +:+ ")"
  end.

(** How tightly the outermost construct of an expression binds, in the
    language's grammar: conditional, or, and, relation, unary, member. *)
Definition level (e : expr) : nat :=
  match e with
  | EIf _ _ _ => 0
  | EOr _ _ => 1
  | EAnd _ _ => 2
  | EEq _ _ | ENe _ _ | EIn _ _ => 3
  | ENot _ => 5
  | _ => 6
  end.

(** The text of the expression is read back with this structure: every operand
    binds at least as tightly as its place demands (operators associate to the
    left). *)
Fixpoint reads_back (e : expr) : bool :=
  let at_least (n : nat) e := Nat.leb n (level e) && reads_back e in
  match e with
  | EVar _ | ENull | EStr _ | EJson _ | EStrs _ => true
  | ESel e _ | EHas e _ => at_least 6%nat e
  | ENot e => at_least 6%nat e
  | EEq a b | ENe a b | EIn a b => at_least 3%nat a && at_least 4%nat b
  | EAnd a b => at_least 2%nat a && at_least 3%nat b
  | EOr a b => at_least 1%nat a && at_least 2%nat b
  | EIf c a b => at_least 1%nat c && at_least 1%nat a && at_least 0%nat b
  | EExists e _ p | EFilter e _ p => at_least 6%nat e && at_least 0%nat p
  | EParen e => at_least 0%nat e
  end.

(** *** Evaluation *)

Notation env := (list (string * value)) (only parsing).

Definition cor (a b : option value) : option value :=
  match a, b with
  | Some (VBool true), _ | _, Some (VBool true) => Some (VBool true)
  | Some (VBool false), Some (VBool false) => Some (VBool false)
  | _, _ => None
  end.

Definition cand (a b : option value) : option value :=
  match a, b with
  | Some (VBool false), _ | _, Some (VBool false) => Some (VBool false)
  | Some (VBool true), Some (VBool true) => Some (VBool true)
  | _, _ => None
  end.

Definition cnot (a : option value) : option value :=
  match a with Some (VBool b) => Some (VBool (negb b)) | _ => None end.

Definition ceq (a b : option value) : option value :=
  match a, b with Some x, Some y => Some (VBool (veq x y)) | _, _ => None end.

Definition cin (a b : option value) : option value :=
  match a, b with
  | Some x, Some (VList l) => Some (VBool (existsb (veq x) l))
  | _, _ => None
  end.

Definition sel (v : option value) (f : string) : option value :=
  match v with Some (VMap m) => field f m | _ => None end.

Definition chas (v : option value) (f : string) : option value :=
  match v with Some (VMap m) => Some (VBool (is_some (field f m))) | _ => None end.

Definition cexists (v : option value) (p : value -> option value) : option value :=
  match v with
  | Some (VList l) => foldr (fun x acc => cor (p x) acc) (Some (VBool false)) l
  | _ => None
  end.

Fixpoint keep (p : value -> option value) (l : list value) : option (list value) :=
  match l with
  | [] => Some []
  | x :: l => match p x, keep p l with
              | Some (VBool true), Some l => Some (x :: l)
              | Some (VBool false), Some l => Some l
              | _, _ => None
              end
  end.

Definition cfilter (v : option value) (p : value -> option value) : option value :=
  match v with Some (VList l) => VList <$> keep p l | _ => None end.

(** [None] is an evaluation error. *)
Fixpoint ceval (e : expr) (g : env) {struct e} : option value :=
  match e with
  | EVar x => field x g
  | ENull => Some VNull
  | EStr s | EJson s => Some (VStr s)
  | EStrs l => Some (VList (map VStr l))
  | ESel e f => sel (ceval e g) f
  | EHas e f => chas (ceval e g) f
  | ENot e => cnot (ceval e g)
  | EEq a b => ceq (ceval a g) (ceval b g)
  | ENe a b => cnot (ceq (ceval a g) (ceval b g))
  | EIn a b => cin (ceval a g) (ceval b g)
  | EAnd a b => cand (ceval a g) (ceval b g)
  | EOr a b => cor (ceval a g) (ceval b g)
  | EIf c a b => match ceval c g with
                 | Some (VBool true) => ceval a g
                 | Some (VBool false) => ceval b g
                 | _ => None
                 end
  | EExists e x p => cexists (ceval e g) (fun v => ceval p ((x, v) :: g))
  | EFilter e x p => cfilter (ceval e g) (fun v => ceval p ((x, v) :: g))
  | EParen e => ceval e g
  end.

(** The policy's question: does the expression hold?  An error does not. *)
Definition holds (e : expr) (g : env) : Prop := ceval e g = Some (VBool true).

#[global] Instance holds_dec e g : Decision (holds e g).
Proof.
  unfold holds. destruct (ceval e g) as [[|[]| | | |]|]; (left; reflexivity) || (right; discriminate).
Defined.

(** ** Facts *)

Lemma veq_str v s : veq v (VStr s) = true -> v = VStr s.
Proof. destruct v; cbn; try done. intros ->%String.eqb_eq. done. Qed.

Lemma str_veq v s : veq (VStr s) v = true -> v = VStr s.
Proof. destruct v; cbn; try done. intros ->%String.eqb_eq. done. Qed.

Lemma cor_true a b :
  cor a b = Some (VBool true) <-> a = Some (VBool true) \/ b = Some (VBool true).
Proof.
  split; [|intros [-> | ->]; [done|]].
  - destruct a as [[|[]| | | |]|], b as [[|[]| | | |]|]; cbn; auto; discriminate.
  - by destruct a as [[|[]| | | |]|].
Qed.

Lemma cand_true a b :
  cand a b = Some (VBool true) <-> a = Some (VBool true) /\ b = Some (VBool true).
Proof.
  split; [|by intros [-> ->]].
  destruct a as [[|[]| | | |]|], b as [[|[]| | | |]|]; cbn; auto; discriminate.
Qed.

Lemma cnot_true a : cnot a = Some (VBool true) <-> a = Some (VBool false).
Proof. destruct a as [[|[]| | | |]|]; cbn; split; congruence. Qed.

Lemma ceq_true a b :
  ceq a b = Some (VBool true) <-> exists x y, a = Some x /\ b = Some y /\ veq x y = true.
Proof.
  split.
  - destruct a as [x|], b as [y|]; cbn; try done. intros [= H]. eauto.
  - by intros (x & y & -> & -> & H); cbn; rewrite H.
Qed.

Lemma ceq_false a b :
  ceq a b = Some (VBool false) <-> exists x y, a = Some x /\ b = Some y /\ veq x y = false.
Proof.
  split.
  - destruct a as [x|], b as [y|]; cbn; try done. intros [= H]. eauto.
  - by intros (x & y & -> & -> & H); cbn; rewrite H.
Qed.

Lemma chas_true v f :
  chas v f = Some (VBool true) <-> exists x, sel v f = Some x.
Proof.
  destruct v as [[| | | | |m]|]; cbn; split; try done; try (by intros []).
  - intros [= H]. destruct (field f m); [eauto|done].
  - by intros [x ->].
Qed.

Lemma chas_false v f :
  chas v f = Some (VBool false) -> sel v f = None.
Proof. destruct v as [[| | | | |m]|]; cbn; try done. by destruct (field f m). Qed.

(** ** Deep equality is transitive *)

Lemma value_nested_ind (P : value -> Prop) :
  P VNull -> (forall b, P (VBool b)) -> (forall n, P (VNum n)) -> (forall s, P (VStr s)) ->
  (forall l, Forall P l -> P (VList l)) -> (forall m, Forall (fun kv => P kv.2) m -> P (VMap m)) ->
  forall v, P v.
Proof.
  intros Hnull Hbool Hnum Hstr Hlist Hmap. fix IH 1.
  intros [| | | |l|m]; [done..| |].
  - apply Hlist. induction l; constructor; [apply IH|done].
  - apply Hmap. induction m as [|[k x] m IHm]; constructor; [apply IH|done].
Qed.

Lemma veq_list l l' : veq (VList l) (VList l') = true <-> Forall2 (fun x y => veq x y = true) l l'.
Proof.
  split; revert l'.
  - induction l as [|x l IH]; intros [|y l'] H; try done; constructor;
      cbn in H; apply andb_true_iff in H as [? ?]; [done|]. by apply IH.
  - intros l' H. induction H as [|x y l l' Hxy H IH]; [done|]. cbn. by rewrite Hxy.
Qed.

Lemma veq_map m m' :
  veq (VMap m) (VMap m') = true <->
  length m = length m' /\
  Forall (fun kv => exists y, field kv.1 m' = Some y /\ veq kv.2 y = true) m.
Proof.
  cbn [veq]. rewrite andb_true_iff, Nat.eqb_eq. apply and_iff_compat_l.
  induction m as [|[k x] m IH]; [done|]. rewrite andb_true_iff, Forall_cons, IH. cbn.
  apply and_iff_compat_r. destruct (field k m') as [y|]; [|naive_solver]. naive_solver.
Qed.

Lemma field_In f m v : field f m = Some v -> In (f, v) m.
Proof.
  induction m as [|[k x] m IH]; cbn; [done|].
  destruct (String.eqb_spec k f) as [->|]; [intros [= ->]; auto|auto].
Qed.

Lemma veq_trans a b c : veq a b = true -> veq b c = true -> veq a c = true.
Proof.
  revert b c. induction a as [|x|x|x|l IH|m IH] using value_nested_ind; intros b c.
  - by destruct b, c.
  - destruct b, c; try done. cbn. intros ->%Bool.eqb_prop. done.
  - destruct b, c; try done. cbn. intros ->%Z.eqb_eq. done.
  - destruct b, c; try done. cbn. intros ->%String.eqb_eq. done.
  - destruct b as [| | | |l'|], c as [| | | |l''|]; try done. rewrite !veq_list.
    intros H. revert l''. induction H as [|x y l l' Hxy H IHl]; intros l'' Hc;
      inversion Hc; subst; constructor; inversion IH; subst; eauto.
  - destruct b as [| | | | |m'], c as [| | | | |m'']; try done. rewrite !veq_map.
    intros [Hl H] [Hl' H']. split; [congruence|]. rewrite Forall_forall in *.
    intros [k x] Hk. destruct (H _ Hk) as (y & Hy & Hxy). cbn in *.
    apply field_In in Hy. rewrite <- list_elem_of_In in Hy.
    destruct (H' _ Hy) as (z & Hz & Hyz). cbn in *.
    exists z. split; [done|]. by apply (IH _ Hk y z).
Qed.
