(* ===== verification/PolicyObjects.v ===== *)
(** * Admission policies and the server that enforces them

    The objects src/receipt_authority.rs and src/sandbox_ledger.rs read (a
    [ValidatingAdmissionPolicy], its binding, the quota and the namespace of
    the ledger), the request an API server shows to a policy, and what
    Kubernetes documents of a policy in force, as the interface
    [AdmissionServer]: the server and its expression engine are not part of
    the repository. *)

From stdpp Require Import base list strings.
From Stdlib Require Import ZArith Ascii String.
From S2P Require Import Prelude Text Cel.
Local Open Scope string_scope.

(** ** Objects of admissionregistration.k8s.io/v1 *)

Record LabelSelectorRequirement : Type := {
  requirement_key : string;
  requirement_operator : string;
  requirement_values : option (list string);
}.
#[global] Instance LabelSelectorRequirement_eq_dec : EqDecision LabelSelectorRequirement.
Proof. solve_decision. Defined.

Record LabelSelector : Type := {
  match_expressions : option (list LabelSelectorRequirement);
  match_labels : option (list (string * string));
}.
#[global] Instance LabelSelector_eq_dec : EqDecision LabelSelector.
Proof. solve_decision. Defined.

(** [LabelSelector::default()] *)
Definition default_selector : LabelSelector := {| match_expressions := None; match_labels := None |}.

Record NamedRuleWithOperations : Type := {
  api_groups : option (list string);
  api_versions : option (list string);
  rule_operations : option (list string);
  rule_resources : option (list string);
  resource_names : option (list string);
  rule_scope : option string;
}.

Record MatchResources : Type := {
  resource_rules : option (list NamedRuleWithOperations);
  exclude_resource_rules : option (list NamedRuleWithOperations);
  match_policy : option string;
  namespace_selector : option LabelSelector;
  object_selector : option LabelSelector;
}.

Record MatchCondition : Type := { condition_name : string; condition_expression : string }.

Record Validation : Type := { validation_expression : string; validation_message : option string }.

Record ParamKind : Type := { param_api_version : option string; param_kind_name : option string }.

Record PolicySpec : Type := {
  failure_policy : option string;
  param_kind : option ParamKind;
  match_conditions : option (list MatchCondition);
  match_constraints : option MatchResources;
  validations : option (list Validation);
}.

Record PolicyCondition : Type := { policy_condition_type : string; policy_condition_status : string }.

(** [expression_warnings]: the warnings' texts. *)
Record TypeChecking : Type := { expression_warnings : option (list string) }.

Record PolicyStatus : Type := {
  observed_generation : option Z;
  policy_conditions : option (list PolicyCondition);
  type_checking : option TypeChecking;
}.

Record ValidatingAdmissionPolicy : Type := {
  policy_object_name : string;
  policy_generation : option Z;
  policy_spec : option PolicySpec;
  policy_status : option PolicyStatus;
}.

(** [param_ref] and [match_resources] are only asked to be absent. *)
Record BindingSpec : Type := {
  bound_policy_name : option string;
  validation_actions : option (list string);
  binding_match_resources : option MatchResources;
  binding_param_ref : option string;
}.

Record ValidatingAdmissionPolicyBinding : Type := {
  binding_object_name : string;
  binding_spec : option BindingSpec;
}.

(** ** Requests *)

(** What the server knows of a request when it asks the policies.  Empty
    strings stand for the parts a request does not have (subresource, name,
    namespace); [request_object] is absent for a DELETE and
    [request_old_object] for a CREATE. *)
Record Request : Type := {
  request_user : string;
  request_operation : string;
  request_group : string;
  request_version : string;
  request_resource : string;
  request_subresource : string;
  request_namespace : string;
  request_name : string;
  request_object : option value;
  request_old_object : option value;
}.

Definition present (k v : string) : list (string * value) :=
  if String.eqb v "" then [] else [(k, VStr v)].

(** [request] as an expression sees it: parts that are empty are not there. *)
Definition request_value (r : Request) : value :=
  VMap ([("resource", VMap [("group", VStr (request_group r)); ("version", VStr (request_version r));
                            ("resource", VStr (request_resource r))]);
         ("operation", VStr (request_operation r));
         ("userInfo", VMap (present "username" (request_user r)))]
        ++ present "subResource" (request_subresource r)
        ++ present "name" (request_name r) ++ present "namespace" (request_namespace r))%list.

Definition request_env (r : Request) : list (string * value) :=
  [("request", request_value r); ("object", default VNull (request_object r));
   ("oldObject", default VNull (request_old_object r))].

(** The resource of a request as a rule names it. *)
Definition request_path (r : Request) : string :=
  if String.eqb (request_subresource r) "" then request_resource r
  else request_resource r +:+ "/" +:+ request_subresource r.

Definition listed (s : string) (l : option (list string)) : bool :=
  existsb (String.eqb s) (default [] l).

(** A rule that names the request outright, not by a wildcard: its group,
    version, operation and resource, for every object and in every scope. *)
Definition rule_names (rule : NamedRuleWithOperations) (r : Request) : bool :=
  listed (request_group r) (api_groups rule) && listed (request_version r) (api_versions rule)
  && listed (request_operation r) (rule_operations rule)
  && listed (request_path r) (rule_resources rule)
  && match resource_names rule with None | Some [] => true | _ => false end
  && match rule_scope rule with None => true | Some s => String.eqb s "*" end.

Definition no_exclusions (c : MatchResources) : bool :=
  match exclude_resource_rules c with None | Some [] => true | _ => false end.

Definition selects_all (s : option LabelSelector) : bool :=
  match s with None => true | Some s => bool_decide (s = default_selector) end.

(** The constraints certainly cover the request. *)
Definition covers (c : MatchResources) (r : Request) : bool :=
  existsb (fun rule => rule_names rule r) (default [] (resource_rules c))
  && no_exclusions c && selects_all (namespace_selector c) && selects_all (object_selector c).

(** A binding that puts the policy in force everywhere, as a denial.  A policy
    with a parameter kind is then evaluated without a parameter, or counts as
    misconfigured, to which its failure policy applies. *)
Definition in_force (p : ValidatingAdmissionPolicy) (b : ValidatingAdmissionPolicyBinding) : bool :=
  match policy_spec p, binding_spec b with
  | Some s, Some bs =>
      str_opt_eqb (failure_policy s) (Some "Fail")
      && str_opt_eqb (bound_policy_name bs) (Some (policy_object_name p))
      && listed "Deny" (validation_actions bs)
      && is_none (binding_match_resources bs) && is_none (binding_param_ref bs)
  | _, _ => false
  end.

(** [expression.split_whitespace()], with fuel for the length of the text;
    [word] is the word read so far.  No white-space character is longer than
    three bytes. *)
Fixpoint words_with (fuel : nat) (word s : string) : list string :=
  let flush := if String.eqb word "" then [] else [word] in
  match fuel, s with
  | S fuel, String c rest =>
      match ws_len (substring 0 3 s) with
      | O => words_with fuel (word +:+ String c "") rest
      | n => flush ++ words_with fuel "" (drop_str n s)
      end
  | _, _ => flush
  end%list.

Definition split_whitespace (s : string) : list string := words_with (S (String.length s)) "" s.

(** [normalize_expression] of src/receipt_authority.rs, and
    [normalized_expression] of src/sandbox_ledger.rs. *)
Definition normalize_expression (s : string) : string := join_with " " (split_whitespace s).

(** The request is one the constraints a validation demands cover. *)
Definition request_in (groups versions operations resources : list string) (r : Request) : bool :=
  existsb (String.eqb (request_group r)) groups && existsb (String.eqb (request_version r)) versions
  && existsb (String.eqb (request_operation r)) operations
  && existsb (String.eqb (request_path r)) resources.

(** What Kobe relies on of the API server: [cel] is its expression engine and
    [admits p b r] says that the policy [p] with the binding [b] let [r] pass.
    A policy in force whose constraints cover a request evaluates its
    validations unless a match condition is false, and lets the request pass
    only if each is true; errors deny, the failure policy being [Fail]. *)
Class AdmissionServer : Type := {
  cel : string -> list (string * value) -> option value;
  admits : ValidatingAdmissionPolicy -> ValidatingAdmissionPolicyBinding -> Request -> bool;
  admits_enforces : forall p b r spec c,
    in_force p b = true -> policy_spec p = Some spec -> match_constraints spec = Some c ->
    covers c r = true -> admits p b r = true ->
    Exists (fun m => cel (condition_expression m) (request_env r) = Some (VBool false))
           (default [] (match_conditions spec)) \/
    Forall (fun v => cel (validation_expression v) (request_env r) = Some (VBool true))
           (default [] (validations spec));
}.

(** [text] is that of [e] up to its layout. *)
Definition lays_out (text : string) (e : expr) : bool :=
  String.eqb (normalize_expression text) (show e)
  || String.eqb (normalize_expression text) (normalize_expression (show e)).

(** The engine gives the expressions of a list their meaning, however their
    texts are laid out. *)
Definition engine_reads `{AdmissionServer} (es : list expr) : Prop :=
  forall e text g, In e es -> lays_out text e = true -> cel text g = ceval e g.

(** ** Expressions on the request *)

Definition e_resource : expr := ESel (ESel (EVar "request") "resource") "resource".
Definition e_group : expr := ESel (ESel (EVar "request") "resource") "group".
Definition e_user : expr := ESel (ESel (EVar "request") "userInfo") "username".
Definition e_operation : expr := ESel (EVar "request") "operation".
Definition e_deletes : expr := EEq e_operation (EStr "DELETE").

(** ** Facts *)

Lemma listed_In s l : listed s l = true <-> In s (default [] l).
Proof.
  unfold listed. rewrite existsb_exists. split.
  - by intros (x & Hx & ->%String.eqb_eq).
  - intros H. exists s. by rewrite String.eqb_refl.
Qed.

Lemma existsb_eqb s l : existsb (String.eqb s) l = true <-> In s l.
Proof. apply (listed_In s (Some l)). Qed.

(** A part of the request an expression may not find. *)
Definition part (v : string) : option value := if String.eqb v "" then None else Some (VStr v).

Lemma part_is v s : ceq (part v) (Some (VStr s)) = Some (VBool true) -> v = s.
Proof. unfold part. destruct (String.eqb v ""); cbn; [done|]. by intros [= E%String.eqb_eq]. Qed.

Lemma part_is_not v s : ceq (part v) (Some (VStr s)) = Some (VBool false) -> v <> s.
Proof. unfold part. destruct (String.eqb v ""); cbn; [done|]. by intros [= E%String.eqb_neq]. Qed.

Lemma ceval_user r :
  ceval e_user (request_env r) = part (request_user r).
Proof. cbn. unfold present, part. by destruct (String.eqb (request_user r) ""). Qed.

Lemma holds_user r u : holds (EEq e_user (EJson u)) (request_env r) -> request_user r = u.
Proof. unfold holds. cbn [ceval]. rewrite ceval_user. apply part_is. Qed.

Lemma holds_not_user r u : holds (ENe e_user (EJson u)) (request_env r) -> request_user r <> u.
Proof. unfold holds. cbn [ceval]. rewrite ceval_user, cnot_true. apply part_is_not. Qed.

Lemma holds_other_resource r res :
  holds (ENe e_resource (EStr res)) (request_env r) -> request_resource r <> res.
Proof. unfold holds. cbn. intros [= H]. apply negb_true_iff, String.eqb_neq in H. done. Qed.

Lemma holds_operation r op :
  holds (EEq e_operation (EStr op)) (request_env r) -> request_operation r = op.
Proof. unfold holds. cbn. intros [= H]. by apply String.eqb_eq in H. Qed.

Lemma holds_not_operation r op :
  holds (ENe e_operation (EStr op)) (request_env r) -> request_operation r <> op.
Proof. unfold holds. cbn. intros [= H]. by apply negb_true_iff, String.eqb_neq in H. Qed.

Lemma holds_or a b g : holds (EOr a b) g <-> holds a g \/ holds b g.
Proof. apply cor_true. Qed.

Lemma holds_and a b g : holds (EAnd a b) g <-> holds a g /\ holds b g.
Proof. apply cand_true. Qed.

Lemma holds_paren e g : holds (EParen e) g <-> holds e g.
Proof. done. Qed.


Lemma holds_or3 a b c g : holds (EOr (EOr a b) c) g -> holds a g \/ holds b g \/ holds c g.
Proof. rewrite !holds_or. tauto. Qed.

Lemma ceval_subresource r :
  ceval (ESel (EVar "request") "subResource") (request_env r) = part (request_subresource r).
Proof.
  cbn. unfold present, part. by destruct (String.eqb (request_subresource r) ""),
    (String.eqb (request_name r) ""), (String.eqb (request_namespace r) "").
Qed.

Lemma ceval_name r : ceval (ESel (EVar "request") "name") (request_env r) = part (request_name r).
Proof.
  cbn. unfold present, part. by destruct (String.eqb (request_subresource r) ""),
    (String.eqb (request_name r) ""), (String.eqb (request_namespace r) "").
Qed.

Lemma ceval_namespace r :
  ceval (ESel (EVar "request") "namespace") (request_env r) = part (request_namespace r).
Proof.
  cbn. unfold present, part. by destruct (String.eqb (request_subresource r) ""),
    (String.eqb (request_name r) ""), (String.eqb (request_namespace r) "").
Qed.

(** ** A server that does what is documented

    It evaluates the expressions it knows, and nothing else; used to run the
    theorems on concrete clusters. *)

Definition table_cel (es : list expr) (text : string) (g : list (string * value)) : option value :=
  let n := normalize_expression text in
  match find (fun e => String.eqb n (show e)) es with Some e => ceval e g | None => None end.

Definition is_true (v : option value) : bool := match v with Some (VBool b) => b | _ => false end.
Definition is_false (v : option value) : bool := match v with Some (VBool b) => negb b | _ => false end.

Definition documented_admits (eval : string -> list (string * value) -> option value)
    (p : ValidatingAdmissionPolicy) (b : ValidatingAdmissionPolicyBinding) (r : Request) : bool :=
  if in_force p b then
    match policy_spec p with
    | Some spec =>
        match match_constraints spec with
        | Some c =>
            negb (covers c r)
            || existsb (fun m => is_false (eval (condition_expression m) (request_env r)))
                       (default [] (match_conditions spec))
            || forallb (fun v => is_true (eval (validation_expression v) (request_env r)))
                       (default [] (validations spec))
        | None => true
        end
    | None => true
    end
  else true.

Definition table_server (es : list expr) : AdmissionServer.
Proof.
  refine {| cel := table_cel es; admits := documented_admits (table_cel es) |}.
  intros p b r spec c Hf Hs Hc Hcov. unfold documented_admits. rewrite Hf, Hs, Hc, Hcov. cbn [negb orb].
  rewrite orb_true_iff, existsb_exists, forallb_forall. intros [(m & Hin & Hm)|Hv].
  - left. apply Exists_exists. exists m. split; [by apply list_elem_of_In|].
    by destruct (table_cel es _ _) as [[|[]| | | |]|].
  - right. apply Forall_forall. intros v Hin%list_elem_of_In. specialize (Hv v Hin).
    by destruct (table_cel es _ _) as [[|[]| | | |]|].
Defined.

Lemma table_reads es :
  forallb (fun e => String.eqb (normalize_expression (show e)) (show e)) es = true ->
  NoDup (map show es) -> @engine_reads (table_server es) es.
Proof.
  intros Hn Hd e text g Hin Hl. rewrite forallb_forall in Hn.
  assert (normalize_expression text = show e) as Ht.
  { unfold lays_out in Hl. apply orb_true_iff in Hl as [Hl%String.eqb_eq|Hl%String.eqb_eq]; [done|].
    rewrite Hl. by apply String.eqb_eq, Hn. }
  cbn. unfold table_cel. rewrite Ht. clear Ht Hl Hn.
  induction es as [|e' es IH]; [done|]. cbn [find map] in *. apply NoDup_cons in Hd as [Hn Hd].
  destruct (String.eqb_spec (show e) (show e')) as [E|E].
  - destruct Hin as [->|Hin]; [done|]. destruct Hn. rewrite <- E.
    by apply list_elem_of_In, in_map.
  - destruct Hin as [->|Hin]; [done|]. by apply IH.
Qed.
