(* ===== verification/ReceiptAuthority.v ===== *)
(** * The teardown authority's admission boundary

    src/receipt_authority.rs: the texts of the expressions the two admission
    policies must carry, and the start-up validation that refuses to run the
    producer of teardown evidence unless the live policies, their bindings and
    its own identity are exactly these.  [authority_rules] and
    [firewall_rules] are the same expressions as syntax trees; the texts are
    proved to be theirs. *)

From stdpp Require Import base list strings.
From Stdlib Require Import ZArith Ascii String.
From S2P Require Import Prelude Text Objects LedgerApi Cel PolicyObjects.
Local Open Scope string_scope.
Local Open Scope kobe_scope.

(** [is_separate]: the process role comes from the environment. *)
Definition is_separate (role : option string) : bool := str_opt_eqb role (Some "control-plane").

Inductive ReceiptAuthorityError : Type :=
| Invalid (control : string)
| NotReady (control : string)
| AuthorityRequestFailed (e : kube_error).

(** ** Required expressions *)

(** *** The texts *)

Definition unchanged_status_field_expression (resource field_ username : string) : string :=
  let username := json_to_string username in
  "request.resource.resource != '" +:+ resource +:+ "' || request.userInfo.username == " +:+
  username +:+ " || request.operation == 'DELETE' || (oldObject == null ?" +:+
  " (!has(object.status) || !has(object.status." +:+ field_ +:+
  ")) : (((!has(oldObject.status) || !has(oldObject.status." +:+ field_ +:+
  ")) && (!has(object.status) || !has(object.status." +:+ field_ +:+
  "))) || (has(oldObject.status) && has(oldObject.status." +:+ field_ +:+
  ") && has(object.status) && has(object.status." +:+ field_ +:+ ") && object.status." +:+
  field_ +:+ " == oldObject.status." +:+ field_ +:+ ")))".

Definition authority_cannot_change_status_field_expression (resource field_ username : string) : string :=
  let username := json_to_string username in
  "request.resource.resource != '" +:+ resource +:+ "' || request.userInfo.username != " +:+
  username +:+ " || request.operation == 'DELETE' || (oldObject == null ?" +:+
  " (!has(object.status) || !has(object.status." +:+ field_ +:+
  ")) : (((!has(oldObject.status) || !has(oldObject.status." +:+ field_ +:+
  ")) && (!has(object.status) || !has(object.status." +:+ field_ +:+
  "))) || (has(oldObject.status) && has(oldObject.status." +:+ field_ +:+
  ") && has(object.status) && has(object.status." +:+ field_ +:+ ") && object.status." +:+
  field_ +:+ " == oldObject.status." +:+ field_ +:+ ")))".

Definition proof_fields : list string :=
  ["teardownReceipt"; "teardownEvidence"; "teardownAttemptId"; "unboundReleaseVerifiedAt";
   "teardownAcknowledgement"].
Definition instance_proof_fields : list string := ["creationManifest"; "teardownIdentities"].
Definition lifecycle_fields : list string := ["binding"; "clusterName"; "phase"; "connectTokenCreation"].
Definition instance_lifecycle_fields : list string := ["binding"; "leaseRef"; "phase"].

Definition required_authority_expressions (username : string) : list string :=
  let quoted_username := json_to_string username in
  (["request.resource.resource != 'verifiedteardownevidence' ||" +:+
       " request.userInfo.username == " +:+ quoted_username]
   ++ ["request.userInfo.username != " +:+ quoted_username +:+
       " || !(request.resource.resource in ['clusterleases', 'clusterinstances']) ||" +:+
       " request.subResource == 'status'"]
   ++ map (fun f => unchanged_status_field_expression "clusterleases" f username) proof_fields
   ++ map (fun f => unchanged_status_field_expression "clusterinstances" f username) instance_proof_fields
   ++ map (fun f => authority_cannot_change_status_field_expression "clusterleases" f username)
        lifecycle_fields
   ++ map (fun f => authority_cannot_change_status_field_expression "clusterinstances" f username)
        instance_lifecycle_fields
   ++ ["request.resource.resource != 'clusterleases' || request.operation == 'DELETE'" +:+
       " || !has(object.status) || !has(object.status.connectTokenCreation) ||" +:+
       " object.status.connectTokenCreation.phase == 'closed' ||" +:+
       " (has(object.status.binding) &&" +:+
       " (has(object.status.connectTokenCreation.identity) ==" +:+
       " has(object.status.binding.connectToken)) &&" +:+
       " (!has(object.status.connectTokenCreation.identity) ||" +:+
       " object.status.connectTokenCreation.identity.apiVersion ==" +:+
       " object.status.binding.connectToken.apiVersion &&" +:+
       " object.status.connectTokenCreation.identity.kind ==" +:+
       " object.status.binding.connectToken.kind &&" +:+
       " object.status.connectTokenCreation.identity.name ==" +:+
       " object.status.binding.connectToken.name &&" +:+
       " object.status.connectTokenCreation.identity.uid ==" +:+
       " object.status.binding.connectToken.uid &&" +:+
       " (has(object.status.connectTokenCreation.identity.namespace) ==" +:+
       " has(object.status.binding.connectToken.namespace)) &&" +:+
       " (!has(object.status.connectTokenCreation.identity.namespace) ||" +:+
       " object.status.connectTokenCreation.identity.namespace ==" +:+
       " object.status.binding.connectToken.namespace)))"]
   ++ ["request.resource.resource != 'clusterleases' || request.userInfo.username == " +:+
       quoted_username +:+ " || request.operation == 'DELETE' || ((oldObject == null ||" +:+
       " !has(oldObject.status) || !has(oldObject.status.conditions) ? [] :" +:+
       " oldObject.status.conditions.filter(c, c.type == 'AllocationAbsent')) ==" +:+
       " (!has(object.status) || !has(object.status.conditions) ? [] :" +:+
       " object.status.conditions.filter(c, c.type == 'AllocationAbsent')))"]
   ++ ["request.resource.resource != 'clusterleases' || request.operation != 'UPDATE'" +:+
       " || !has(oldObject.metadata.finalizers) ||" +:+
       " !oldObject.metadata.finalizers.exists(f, f ==" +:+
       " 'kobe.kunobi.ninja/teardown-receipt-retention') ||" +:+
       " (has(object.metadata.finalizers) && object.metadata.finalizers.exists(f, f" +:+
       " == 'kobe.kunobi.ninja/teardown-receipt-retention')) ||" +:+
       " (has(oldObject.status) && has(oldObject.status.teardownAcknowledgement) &&" +:+
       " has(object.status) && has(object.status.teardownAcknowledgement) &&" +:+
       " object.status.teardownAcknowledgement ==" +:+
       " oldObject.status.teardownAcknowledgement)"])%list.

Definition firewall_expressions (username authority_namespace : string) : list string :=
  let username := json_to_string username in
  let namespace := json_to_string authority_namespace in
  ["request.userInfo.username != " +:+ username +:+
   " || request.resource.resource in ['namespaces', 'clusterroles'," +:+
   " 'clusterrolebindings'] || request.namespace != " +:+ namespace;
   "request.userInfo.username != " +:+ username +:+
   " || request.resource.resource != 'namespaces' || request.name != " +:+ namespace;
   "request.userInfo.username != " +:+ username +:+
   " || request.resource.group != 'rbac.authorization.k8s.io' ||" +:+
   " !(request.resource.resource in ['clusterroles', 'clusterrolebindings'])"].

(** ** Identities *)

Definition service_account_identity (username : string) : option (string * string) :=
  suffix ← strip_prefix "system:serviceaccount:" username;
  '(namespace, name) ← split_once ":"%char suffix;
  if negb (String.eqb namespace "") && negb (String.eqb name "") && negb (contains name ":")
  then Some (namespace, name) else None.

Definition validate_identity_contract
    (policy_name firewall_policy_name expected_username control_plane_username authority_namespace : string)
    : result unit ReceiptAuthorityError :=
  let authority_identity := service_account_identity expected_username in
  let control_plane_identity := service_account_identity control_plane_username in
  deny_if
    (String.eqb (trim authority_namespace) "" || String.eqb (trim policy_name) ""
     || String.eqb (trim firewall_policy_name) ""
     || match authority_identity with
        | None => true | Some (namespace, _) => negb (String.eqb namespace authority_namespace) end
     || match control_plane_identity with
        | None => true | Some (namespace, _) => String.eqb namespace authority_namespace end
     || String.eqb expected_username control_plane_username
     || String.eqb policy_name firewall_policy_name)
    (Invalid "ServiceAccount username").

(** ** Policies *)

(** [rule_covers]; the groups and versions are compared as lists, the
    operations and resources as sets. *)
Definition rule_covers (rule : NamedRuleWithOperations)
    (groups versions operations resources : list string) : bool :=
  bool_decide (default [] (api_groups rule) = groups)
  && bool_decide (default [] (api_versions rule) = versions)
  && match resource_names rule with None | Some [] => true | _ => false end
  && is_none (rule_scope rule)
  && forallb (fun o => listed o (rule_operations rule)) operations
  && forallb (fun o => listed o (rule_resources rule)) resources.

(** Every required text is among the policy's, up to layout. *)
Definition expressions_present (required : list string) (spec : PolicySpec) : bool :=
  let actual := map (fun v => normalize_expression (validation_expression v))
                    (default [] (validations spec)) in
  forallb (fun e => existsb (String.eqb (normalize_expression e)) actual) required.

Definition nonempty_list {A} (l : option (list A)) : bool :=
  match l with None | Some [] => false | _ => true end.

(** The part of the two validations of a policy that is the same in the
    source's two copies: the guards around the rules and the expressions,
    then the reconciliation status. *)
Definition spec_weakened (policy : ValidatingAdmissionPolicy) (spec : PolicySpec)
    (constraints : MatchResources) (policy_name : string) : bool :=
  negb (String.eqb (policy_object_name policy) policy_name)
  || negb (str_opt_eqb (failure_policy spec) (Some "Fail"))
  || is_some (param_kind spec)
  || nonempty_list (match_conditions spec)
  || nonempty_list (exclude_resource_rules constraints)
  || str_opt_eqb (match_policy constraints) (Some "Exact")
  || is_some (namespace_selector constraints)
  || is_some (object_selector constraints).

Definition status_unready (generation : Z) (status : PolicyStatus) : bool :=
  negb (bool_decide (observed_generation status = Some generation))
  || negb (existsb (fun c => String.eqb (policy_condition_type c) "Accepted"
                             && String.eqb (policy_condition_status c) "True")
                   (default [] (policy_conditions status)))
  || match type_checking status with
     | Some c => nonempty_list (expression_warnings c) | None => false end.

Definition validate_status (policy : ValidatingAdmissionPolicy) (control : string)
    : result unit ReceiptAuthorityError :=
  let? generation := ok_or (policy_generation policy) (NotReady control) in
  let? status := ok_or (policy_status policy) (NotReady control) in
  deny_if (status_unready generation status) (NotReady control).

Definition validate_binding (binding : ValidatingAdmissionPolicyBinding) (policy_name control : string)
    : result unit ReceiptAuthorityError :=
  let? spec := ok_or (binding_spec binding) (Invalid control) in
  deny_if
    (negb (String.eqb (binding_object_name binding) policy_name)
     || negb (str_opt_eqb (bound_policy_name spec) (Some policy_name))
     || negb (bool_decide (validation_actions spec = Some ["Deny"]))
     || is_some (binding_match_resources spec) || is_some (binding_param_ref spec))
    (Invalid control).

Definition authority_resources : list string :=
  ["verifiedteardownevidence"; "clusterleases"; "clusterleases/status"; "clusterinstances";
   "clusterinstances/status"].
Definition writes : list string := ["CREATE"; "UPDATE"; "DELETE"].

Definition validate_objects (policy : ValidatingAdmissionPolicy)
    (binding : ValidatingAdmissionPolicyBinding) (policy_name expected_username : string)
    : result unit ReceiptAuthorityError :=
  let control := "ValidatingAdmissionPolicy" in
  let? spec := ok_or (policy_spec policy) (Invalid control) in
  let? constraints := ok_or (match_constraints spec) (Invalid control) in
  let? rules := ok_or (resource_rules constraints) (Invalid control) in
  let exact_resource_rule :=
    existsb (fun rule => rule_covers rule ["kobe.kunobi.ninja"] ["v1alpha1"] writes authority_resources)
            rules in
  let? _ := deny_if
    (spec_weakened policy spec constraints policy_name || negb exact_resource_rule
     || negb (expressions_present (required_authority_expressions expected_username) spec))
    (Invalid control) in
  let? _ := validate_status policy control in
  validate_binding binding policy_name "ValidatingAdmissionPolicyBinding".

Definition firewall_coverage : list (list string * list string * list string * list string) :=
  [([""], ["v1"], writes,
    ["configmaps"; "endpoints"; "events"; "persistentvolumeclaims"; "replicationcontrollers";
     "secrets"; "serviceaccounts"; "serviceaccounts/token"; "services"; "pods"; "pods/status";
     "pods/ephemeralcontainers"]);
   ([""], ["v1"], ["CONNECT"], ["pods/exec"; "pods/attach"; "pods/portforward"]);
   (["apps"], ["v1"], writes, ["deployments"; "replicasets"; "statefulsets"; "daemonsets"]);
   (["batch"], ["v1"], writes, ["jobs"; "jobs/status"; "cronjobs"]);
   (["networking.k8s.io"], ["v1"], writes, ["ingresses"; "networkpolicies"]);
   (["policy"], ["v1"], writes, ["poddisruptionbudgets"]);
   (["coordination.k8s.io"], ["v1"], writes, ["leases"]);
   (["rbac.authorization.k8s.io"], ["v1"], writes, ["roles"; "rolebindings"]);
   ([""], ["v1"], writes, ["namespaces"]);
   (["rbac.authorization.k8s.io"], ["v1"], writes, ["clusterroles"; "clusterrolebindings"])].

Definition validate_firewall_objects (policy : ValidatingAdmissionPolicy)
    (binding : ValidatingAdmissionPolicyBinding)
    (policy_name control_plane_username authority_namespace : string)
    : result unit ReceiptAuthorityError :=
  let control := "identity firewall policy" in
  let? spec := ok_or (policy_spec policy) (Invalid control) in
  let? constraints := ok_or (match_constraints spec) (Invalid control) in
  let? rules := ok_or (resource_rules constraints) (Invalid control) in
  let covered :=
    forallb (fun '(groups, versions, operations, resources) =>
               existsb (fun rule => rule_covers rule groups versions operations resources) rules)
            firewall_coverage in
  let? _ := deny_if
    (spec_weakened policy spec constraints policy_name || negb covered
     || negb (expressions_present (firewall_expressions control_plane_username authority_namespace) spec))
    (Invalid control) in
  let? _ := validate_status policy control in
  validate_binding binding policy_name "identity firewall binding".

(** What the five reads of [validate] answer when all succeed; the username is
    that of the self-subject review. *)
Record AuthorityObjects : Type := {
  authority_policy : ValidatingAdmissionPolicy;
  authority_binding : ValidatingAdmissionPolicyBinding;
  firewall_policy : ValidatingAdmissionPolicy;
  firewall_binding : ValidatingAdmissionPolicyBinding;
  review_username : option string;
}.

(** [validate]; [reads] is the answer of the joined reads, the first failure
    being theirs. *)
Definition validate
    (reads : result AuthorityObjects kube_error)
    (policy_name firewall_policy_name expected_username control_plane_username authority_namespace : string)
    : result unit ReceiptAuthorityError :=
  let? _ := validate_identity_contract policy_name firewall_policy_name expected_username
              control_plane_username authority_namespace in
  match reads with
  | Err e => Err (AuthorityRequestFailed e)
  | Ok o =>
      let? _ := deny_if (negb (str_opt_eqb (review_username o) (Some expected_username)))
                        (Invalid "ServiceAccount identity") in
      let? _ := validate_objects (authority_policy o) (authority_binding o) policy_name expected_username in
      validate_firewall_objects (firewall_policy o) (firewall_binding o) firewall_policy_name
        control_plane_username authority_namespace
  end.

(** ** The expressions as syntax trees *)

Definition e_status (o : string) : expr := ESel (EVar o) "status".

Definition e_has_field (o f : string) : expr := EHas (e_status o) f.
(** The object has no status, or no such field in it. *)
Definition e_lacks (o f : string) : expr :=
  EParen (EOr (ENot (EHas (EVar o) "status")) (ENot (e_has_field o f))).
Definition e_both_lack (f : string) : expr := EParen (EAnd (e_lacks "oldObject" f) (e_lacks "object" f)).
Definition e_same (f : string) : expr :=
  EAnd (EAnd (EAnd (EAnd (EHas (EVar "oldObject") "status") (e_has_field "oldObject" f))
                   (EHas (EVar "object") "status")) (e_has_field "object" f))
       (EEq (ESel (e_status "object") f) (ESel (e_status "oldObject") f)).
Definition e_unchanged (f : string) : expr :=
  EParen (EIf (EEq (EVar "oldObject") ENull) (e_lacks "object" f)
              (EParen (EOr (e_both_lack f) (EParen (e_same f))))).
Definition e_other_resource (resource : string) : expr := ENe e_resource (EStr resource).

Definition unchanged_rule (resource f username : string) : expr :=
  EOr (EOr (EOr (e_other_resource resource) (EEq e_user (EJson username))) e_deletes) (e_unchanged f).
Definition authority_unchanged_rule (resource f username : string) : expr :=
  EOr (EOr (EOr (e_other_resource resource) (ENe e_user (EJson username))) e_deletes) (e_unchanged f).

Definition evidence_rule (username : string) : expr :=
  EOr (e_other_resource "verifiedteardownevidence") (EEq e_user (EJson username)).
Definition status_only_rule (username : string) : expr :=
  EOr (EOr (ENe e_user (EJson username))
           (ENot (EParen (EIn e_resource (EStrs ["clusterleases"; "clusterinstances"])))))
      (EEq (ESel (EVar "request") "subResource") (EStr "status")).

Definition e_creation (f : string) : expr := ESel (ESel (e_status "object") "connectTokenCreation") f.
Definition e_identity (f : string) : expr := ESel (e_creation "identity") f.
Definition e_token (f : string) : expr := ESel (ESel (ESel (e_status "object") "binding") "connectToken") f.
Definition e_has_identity : expr := EHas (ESel (e_status "object") "connectTokenCreation") "identity".
Definition e_has_token : expr := EHas (ESel (e_status "object") "binding") "connectToken".
Definition e_same_part (f : string) : expr := EEq (e_identity f) (e_token f).
Definition e_identity_namespace : expr := EHas (e_creation "identity") "namespace".
Definition e_token_namespace : expr :=
  EHas (ESel (ESel (e_status "object") "binding") "connectToken") "namespace".

Definition connect_token_rule : expr :=
  EOr (EOr (EOr (EOr (EOr (e_other_resource "clusterleases") e_deletes)
                     (ENot (EHas (EVar "object") "status")))
                (ENot (e_has_field "object" "connectTokenCreation")))
           (EEq (e_creation "phase") (EStr "closed")))
      (EParen
        (EAnd (EAnd (e_has_field "object" "binding") (EParen (EEq e_has_identity e_has_token)))
          (EParen (EOr (ENot e_has_identity)
            (EAnd (EAnd (EAnd (EAnd (EAnd (e_same_part "apiVersion") (e_same_part "kind"))
                                    (e_same_part "name")) (e_same_part "uid"))
                        (EParen (EEq e_identity_namespace e_token_namespace)))
                  (EParen (EOr (ENot e_identity_namespace) (e_same_part "namespace")))))))).

Definition e_absence (o : string) : expr :=
  EFilter (ESel (e_status o) "conditions") "c" (EEq (ESel (EVar "c") "type") (EStr "AllocationAbsent")).
Definition absence_rule (username : string) : expr :=
  EOr (EOr (EOr (e_other_resource "clusterleases") (EEq e_user (EJson username))) e_deletes)
      (EParen (EEq
        (EParen (EIf (EOr (EOr (EEq (EVar "oldObject") ENull) (ENot (EHas (EVar "oldObject") "status")))
                          (ENot (e_has_field "oldObject" "conditions")))
                     (EStrs []) (e_absence "oldObject")))
        (EParen (EIf (EOr (ENot (EHas (EVar "object") "status"))
                          (ENot (e_has_field "object" "conditions")))
                     (EStrs []) (e_absence "object"))))).

Definition retention : string := "kobe.kunobi.ninja/teardown-receipt-retention".
Definition e_finalizers (o : string) : expr := ESel (ESel (EVar o) "metadata") "finalizers".
Definition e_has_finalizers (o : string) : expr := EHas (ESel (EVar o) "metadata") "finalizers".
Definition e_retained (o : string) : expr :=
  EExists (e_finalizers o) "f" (EEq (EVar "f") (EStr retention)).
Definition retention_rule : expr :=
  EOr (EOr (EOr (EOr (EOr (e_other_resource "clusterleases") (ENe e_operation (EStr "UPDATE")))
                     (ENot (e_has_finalizers "oldObject")))
                (ENot (e_retained "oldObject")))
           (EParen (EAnd (e_has_finalizers "object") (e_retained "object"))))
      (EParen (e_same "teardownAcknowledgement")).

Definition authority_rules (username : string) : list expr :=
  ([evidence_rule username; status_only_rule username]
   ++ map (fun f => unchanged_rule "clusterleases" f username) proof_fields
   ++ map (fun f => unchanged_rule "clusterinstances" f username) instance_proof_fields
   ++ map (fun f => authority_unchanged_rule "clusterleases" f username) lifecycle_fields
   ++ map (fun f => authority_unchanged_rule "clusterinstances" f username) instance_lifecycle_fields
   ++ [connect_token_rule; absence_rule username; retention_rule])%list.

Definition firewall_rules (username namespace : string) : list expr :=
  [EOr (EOr (ENe e_user (EJson username))
            (EIn e_resource (EStrs ["namespaces"; "clusterroles"; "clusterrolebindings"])))
       (ENe (ESel (EVar "request") "namespace") (EJson namespace));
   EOr (EOr (ENe e_user (EJson username)) (e_other_resource "namespaces"))
       (ENe (ESel (EVar "request") "name") (EJson namespace));
   EOr (EOr (ENe e_user (EJson username)) (ENe e_group (EStr "rbac.authorization.k8s.io")))
       (ENot (EParen (EIn e_resource (EStrs ["clusterroles"; "clusterrolebindings"]))))].

(** Both sides to right-nested concatenations of characters and variables. *)
Create HintDb cel_text.
#[export] Hint Unfold e_resource e_group e_user e_operation e_deletes e_status e_has_field e_lacks
  e_both_lack e_same e_unchanged e_other_resource unchanged_rule authority_unchanged_rule
  evidence_rule status_only_rule e_creation e_identity e_token e_has_identity e_has_token
  e_same_part e_identity_namespace e_token_namespace connect_token_rule e_absence absence_rule
  retention e_finalizers e_has_finalizers e_retained retention_rule
  unchanged_status_field_expression authority_cannot_change_status_field_expression
  single_quoted json_to_string dquote : cel_text.

Ltac same_text :=
  autounfold with cel_text; cbn [show map String.append join_with app];
  autounfold with cel_text; cbn [String.append];
  repeat (rewrite app_assoc_str; cbn [String.append]); reflexivity.

Lemma unchanged_text resource f username :
  unchanged_status_field_expression resource f username = show (unchanged_rule resource f username).
Proof. same_text. Qed.

Lemma authority_unchanged_text resource f username :
  authority_cannot_change_status_field_expression resource f username
  = show (authority_unchanged_rule resource f username).
Proof. same_text. Qed.

(** The texts the code requires are those of the trees. *)
Lemma authority_texts username :
  required_authority_expressions username = map show (authority_rules username).
Proof.
  unfold required_authority_expressions, authority_rules, proof_fields, instance_proof_fields,
    lifecycle_fields, instance_lifecycle_fields. cbn [map app].
  rewrite !unchanged_text, !authority_unchanged_text.
  repeat (apply (f_equal2 cons); [reflexivity || same_text|]). reflexivity.
Qed.

Lemma firewall_texts username namespace :
  firewall_expressions username namespace = map show (firewall_rules username namespace).
Proof.
  unfold firewall_expressions, firewall_rules. cbn [map].
  repeat (apply (f_equal2 cons); [same_text|]). reflexivity.
Qed.

(** Their parentheses are where the language's precedences need them. *)
Lemma authority_rules_read_back username : forallb reads_back (authority_rules username) = true.
Proof. reflexivity. Qed.

Lemma firewall_rules_read_back username namespace :
  forallb reads_back (firewall_rules username namespace) = true.
Proof. reflexivity. Qed.
