(* ===== verification/SandboxLedger.v ===== *)
(** * Start-up proof of the Sandbox ledger

    src/sandbox_ledger.rs: before the API serves Sandboxes it requires the
    namespace of the admission ledger to be quota-bounded and writable by the
    operator only, checks the operator's identity and permissions, and proves
    with two dry runs that the policy and the quota are being enforced. *)

From stdpp Require Import base list strings gmap.
From Stdlib Require Import ZArith Ascii String.
From S2P Require Import Prelude Text Cel PolicyObjects.
Local Open Scope string_scope.
Local Open Scope kobe_scope.

Definition LEDGER_LABEL : string := "kobe.kunobi.ninja/sandbox-ledger".
Definition LEASE_COUNT_QUOTA : string := "count/leases.coordination.k8s.io".
Definition CONFIG_MAP_COUNT_QUOTA : string := "count/configmaps".
Definition POLICY_CANARY_NAME : string := "kobe-ledger-policy-enforcement-canary".
Definition POLICY_CANARY_MESSAGE : string := "Sandbox ledger admission-policy enforcement canary".
Definition QUOTA_CANARY_NAME : string := "kobe-ledger-quota-enforcement-canary".

(** [kube::Error]: a status the server answered, or no answer. *)
Inductive request_error : Type :=
| StatusError (code : Z) (message : string)
| NoAnswer.

Inductive SandboxLedgerError : Type :=
| ControlInvalid (control : string)
| ControlNotReady (control : string)
| ControlUnread (e : request_error).

(** ** Objects *)

(** Quantities are their texts. *)
Record ResourceQuotaSpec : Type := {
  quota_hard : option (gmap string string);
  quota_scopes : option (list string);
  quota_scope_selector : option string;
}.
Record ResourceQuotaStatus : Type := {
  quota_status_hard : option (gmap string string);
  quota_used : option (gmap string string);
}.
Record ResourceQuota : Type := {
  quota_name : string;
  quota_namespace : option string;
  quota_spec : option ResourceQuotaSpec;
  quota_status : option ResourceQuotaStatus;
}.
Record Namespace : Type := { namespace_name : string; namespace_labels : gmap string string }.

Record LedgerObjects : Type := {
  ledger_namespace_object : Namespace;
  ledger_quota : ResourceQuota;
  ledger_policy : ValidatingAdmissionPolicy;
  ledger_binding : ValidatingAdmissionPolicyBinding;
}.

Definition expected_hard (object_limit : Z) : gmap string string :=
  <[CONFIG_MAP_COUNT_QUOTA := "0"]> (<[LEASE_COUNT_QUOTA := show_uint object_limit]> ∅).

(** ** The objects' shapes *)

Definition validate_namespace (o : Namespace) (namespace : string) : result unit SandboxLedgerError :=
  deny_if (negb (String.eqb (namespace_name o) namespace)
           || negb (str_opt_eqb (namespace_labels o !! LEDGER_LABEL) (Some "true")))
          (ControlInvalid "Namespace").

Definition validate_quota (quota : ResourceQuota) (namespace policy_name : string) (object_limit : Z)
    : result unit SandboxLedgerError :=
  let? spec := ok_or (quota_spec quota) (ControlInvalid "ResourceQuota") in
  let? _ := deny_if
    (negb (String.eqb (quota_name quota) policy_name)
     || negb (str_opt_eqb (quota_namespace quota) (Some namespace))
     || negb (bool_decide (quota_hard spec = Some (expected_hard object_limit)))
     || match quota_scopes spec with None | Some [] => false | _ => true end
     || is_some (quota_scope_selector spec))
    (ControlInvalid "ResourceQuota") in
  let? status := ok_or (quota_status quota) (ControlNotReady "ResourceQuota") in
  let? used := ok_or (quota_used status) (ControlNotReady "ResourceQuota") in
  deny_if
    (negb (bool_decide (quota_status_hard status = Some (expected_hard object_limit)))
     || negb (Nat.eqb (size used) 2)
     || is_none (used !! LEASE_COUNT_QUOTA) || is_none (used !! CONFIG_MAP_COUNT_QUOTA))
    (ControlNotReady "ResourceQuota").

Definition exact_rule (rule : NamedRuleWithOperations) (constraints : MatchResources) : bool :=
  bool_decide (api_groups rule = Some ["coordination.k8s.io"])
  && bool_decide (api_versions rule = Some ["v1"])
  && bool_decide (rule_resources rule = Some ["leases"])
  && bool_decide (rule_operations rule = Some ["CREATE"; "UPDATE"; "DELETE"])
  && str_opt_eqb (rule_scope rule) (Some "*")
  && match resource_names rule with None | Some [] => true | _ => false end
  && no_exclusions constraints
  && str_opt_eqb (match_policy constraints) (Some "Equivalent")
  && bool_decide (namespace_selector constraints = Some default_selector)
  && bool_decide (object_selector constraints = Some default_selector).

Definition expected_match (namespace : string) : string :=
  "request.namespace == " +:+ dquote +:+ namespace +:+ dquote.
Definition expected_writer_validation (operator_username : string) : string :=
  "request.userInfo.username == " +:+ dquote +:+ operator_username +:+ dquote.
Definition expected_canary_validation : string :=
  "request.operation != " +:+ dquote +:+ "CREATE" +:+ dquote +:+ " || object.metadata.name != "
  +:+ dquote +:+ POLICY_CANARY_NAME +:+ dquote.

Definition exact_match (spec : PolicySpec) (namespace : string) : bool :=
  match match_conditions spec with
  | Some [condition] =>
      String.eqb (condition_name condition) "only-sandbox-ledger-namespace"
      && String.eqb (normalize_expression (condition_expression condition)) (expected_match namespace)
  | _ => false
  end.

Definition exact_validation (spec : PolicySpec) (operator_username : string) : bool :=
  match validations spec with
  | Some [writer; canary] =>
      String.eqb (normalize_expression (validation_expression writer))
                 (expected_writer_validation operator_username)
      && String.eqb (normalize_expression (validation_expression canary)) expected_canary_validation
      && str_opt_eqb (validation_message canary) (Some POLICY_CANARY_MESSAGE)
  | _ => false
  end.

Definition validate_policy (policy : ValidatingAdmissionPolicy)
    (namespace policy_name operator_username : string) : result unit SandboxLedgerError :=
  let vap part := "ValidatingAdmissionPolicy" +:+ part in
  let? spec := ok_or (policy_spec policy) (ControlInvalid (vap ".spec")) in
  let? constraints := ok_or (match_constraints spec) (ControlInvalid (vap ".matchConstraints")) in
  let? rules := ok_or (resource_rules constraints) (ControlInvalid (vap ".resourceRules")) in
  let? rule := match rules with
               | [rule] => Ok rule
               | _ => Err (ControlInvalid (vap ".resourceRules"))
               end in
  let? _ := deny_if (negb (String.eqb (policy_object_name policy) policy_name))
                    (ControlInvalid (vap ".metadata.name")) in
  let? _ := deny_if (negb (str_opt_eqb (failure_policy spec) (Some "Fail")))
                    (ControlInvalid (vap ".failurePolicy")) in
  let? _ := deny_if (negb (exact_rule rule constraints)) (ControlInvalid (vap ".resourceRules")) in
  let? _ := deny_if (negb (exact_match spec namespace)) (ControlInvalid (vap ".matchConditions")) in
  let? _ := deny_if (negb (exact_validation spec operator_username))
                    (ControlInvalid (vap ".validations")) in
  let? generation := ok_or (policy_generation policy) (ControlNotReady (vap "")) in
  let? status := ok_or (policy_status policy) (ControlNotReady (vap "")) in
  let? checking := ok_or (type_checking status) (ControlNotReady (vap "")) in
  let? _ := deny_if (negb (bool_decide (observed_generation status = Some generation)))
                    (ControlNotReady (vap "")) in
  deny_if (match default [] (expression_warnings checking) with [] => false | _ => true end)
          (ControlInvalid (vap ".typeChecking")).

Definition validate_binding (binding : ValidatingAdmissionPolicyBinding) (policy_name : string)
    : result unit SandboxLedgerError :=
  let? spec := ok_or (binding_spec binding) (ControlInvalid "ValidatingAdmissionPolicyBinding") in
  deny_if
    (negb (String.eqb (binding_object_name binding) policy_name)
     || negb (str_opt_eqb (bound_policy_name spec) (Some policy_name))
     || negb (bool_decide (validation_actions spec = Some ["Deny"]))
     || is_some (binding_match_resources spec) || is_some (binding_param_ref spec))
    (ControlInvalid "ValidatingAdmissionPolicyBinding").

Definition validate_objects (o : LedgerObjects) (namespace policy_name operator_username : string)
    (object_limit : Z) : result unit SandboxLedgerError :=
  let? _ := validate_namespace (ledger_namespace_object o) namespace in
  let? _ := validate_quota (ledger_quota o) namespace policy_name object_limit in
  let? _ := validate_policy (ledger_policy o) namespace policy_name operator_username in
  validate_binding (ledger_binding o) policy_name.

(** ** One attempt *)

(** The server's answers during one attempt: the joined reads, the
    self-subject review, one access review per verb (whether it allows), and
    the dry-run CREATEs of the two canaries. *)
Record LedgerAnswers : Type := {
  joined_reads : result LedgerObjects request_error;
  self_review : result (option string) request_error;
  access_review : string -> result bool request_error;
  lease_canary : result unit request_error;
  config_map_canary : result unit request_error;
}.

Definition control_read {A} (r : result A request_error) : result A SandboxLedgerError :=
  match r with Ok a => Ok a | Err e => Err (ControlUnread e) end.

Definition validate_operator_identity (a : LedgerAnswers) (expected_username : string)
    : result unit SandboxLedgerError :=
  let? actual_username := control_read (self_review a) in
  deny_if (negb (str_opt_eqb actual_username (Some expected_username)))
          (ControlInvalid "operator ServiceAccount identity").

Fixpoint review_verbs (a : LedgerAnswers) (verbs : list string) : result unit SandboxLedgerError :=
  match verbs with
  | [] => Ok tt
  | verb :: verbs =>
      let? allowed := control_read (access_review a verb) in
      let? _ := deny_if (negb allowed) (ControlInvalid "operator coordination-Lease permissions") in
      review_verbs a verbs
  end.

Definition lease_verbs : list string := ["get"; "list"; "create"; "patch"; "delete"].

Definition validate_lease_permissions (a : LedgerAnswers) : result unit SandboxLedgerError :=
  review_verbs a lease_verbs.

Definition validate_admission_enforcement (a : LedgerAnswers) : result unit SandboxLedgerError :=
  let? _ := match lease_canary a with
            | Err (StatusError code message as e) =>
                if (code =? 403)%Z && contains message POLICY_CANARY_MESSAGE then Ok tt
                else Err (ControlUnread e)
            | Err e => Err (ControlUnread e)
            | Ok _ => Err (ControlInvalid "ValidatingAdmissionPolicy enforcement")
            end in
  match config_map_canary a with
  | Err (StatusError code message as e) =>
      if (code =? 403)%Z && contains (to_ascii_lowercase message) "exceeded quota" then Ok tt
      else Err (ControlUnread e)
  | Err e => Err (ControlUnread e)
  | Ok _ => Err (ControlInvalid "ResourceQuota enforcement")
  end.

Definition validate_once (a : LedgerAnswers) (namespace policy_name operator_username : string)
    (object_limit : Z) : result unit SandboxLedgerError :=
  let? objects := control_read (joined_reads a) in
  let? _ := validate_objects objects namespace policy_name operator_username object_limit in
  let? _ := validate_operator_identity a operator_username in
  let? _ := validate_lease_permissions a in
  validate_admission_enforcement a.

(** ** The loop *)

(** One answer set per attempt with the time at which the attempt failed;
    [None] while the list of attempts has not decided. *)
Fixpoint attempts_until (deadline : Z) (namespace policy_name operator_username : string)
    (object_limit : Z) (attempts : list (LedgerAnswers * Z)) : option (result unit SandboxLedgerError) :=
  match attempts with
  | [] => None
  | (a, now) :: rest =>
      match validate_once a namespace policy_name operator_username object_limit with
      | Ok u => Some (Ok u)
      | Err e => if (now <? deadline)%Z
                 then attempts_until deadline namespace policy_name operator_username object_limit rest
                 else Some (Err e)
      end
  end.

Definition validate (start : Z) (namespace policy_name operator_username : string)
    (object_limit : Z) (attempts : list (LedgerAnswers * Z)) : option (result unit SandboxLedgerError) :=
  attempts_until (start + seconds 30) namespace policy_name operator_username object_limit attempts.

(** ** What the validated controls guarantee *)

Definition ledger_condition (namespace : string) : expr :=
  EEq (ESel (EVar "request") "namespace") (EJson namespace).
Definition writer_rule (operator_username : string) : expr := EEq e_user (EJson operator_username).
Definition canary_rule : expr :=
  EOr (ENe e_operation (EJson "CREATE"))
      (ENe (ESel (ESel (EVar "object") "metadata") "name") (EJson POLICY_CANARY_NAME)).
Definition ledger_rules (namespace operator_username : string) : list expr :=
  [ledger_condition namespace; writer_rule operator_username; canary_rule].

(** Text that JSON writes as it is. *)
Definition json_plain (s : string) : bool :=
  all_bytes (fun c => (32 <=? byte_of c)%Z && negb (byte_of c =? 34)%Z && negb (byte_of c =? 92)%Z) s.

Lemma json_body_plain s : json_plain s = true -> json_body s = s.
Proof.
  unfold json_plain. induction s as [|c s IH]; cbn [all_bytes json_body]; [done|].
  rewrite !andb_true_iff, !negb_true_iff, Z.leb_le. intros [[[Hge Hq] Hb] Hs]. rewrite (IH Hs).
  unfold json_byte. rewrite Hq, Hb.
  repeat match goal with |- context [(byte_of c =? ?n)%Z] =>
    replace (byte_of c =? n)%Z with false by (symmetry; apply Z.eqb_neq; lia) end.
  by replace (byte_of c <? 32)%Z with false by (symmetry; apply Z.ltb_ge; lia).
Qed.

Lemma condition_text namespace :
  json_plain namespace = true -> expected_match namespace = show (ledger_condition namespace).
Proof. intros H. unfold expected_match. cbn. unfold json_to_string. by rewrite json_body_plain. Qed.

Lemma writer_text username :
  json_plain username = true -> expected_writer_validation username = show (writer_rule username).
Proof.
  intros H. unfold expected_writer_validation. cbn. unfold json_to_string. by rewrite json_body_plain.
Qed.

Lemma canary_text : expected_canary_validation = show canary_rule.
Proof. reflexivity. Qed.

(** A write of a coordination Lease in the namespace. *)
Definition ledger_write (namespace : string) (r : Request) : bool :=
  request_in ["coordination.k8s.io"] ["v1"] ["CREATE"; "UPDATE"; "DELETE"] ["leases"] r
  && String.eqb (request_namespace r) namespace.

Lemma exact_rule_covers rule c r namespace :
  exact_rule rule c = true -> resource_rules c = Some [rule] -> ledger_write namespace r = true ->
  covers c r = true.
Proof.
  unfold exact_rule, ledger_write, covers. intros He Hrules Hr. rewrite Hrules.
  assert (rule_names rule r = true) as Hn; cbn [default id existsb].
  - unfold rule_names, request_in, listed in *. rewrite !andb_true_iff, ?bool_decide_eq_true in *.
    destruct_and!. repeat match goal with E : _ rule = Some _ |- _ => rewrite E; clear E end.
    repeat split; try done.
    by replace (rule_scope rule) with (Some "*") by (symmetry; by apply str_opt_eqb_eq).
  - rewrite Hn. bool_props. unfold selects_all.
    repeat match goal with E : _ c = Some default_selector |- _ => rewrite E end.
    repeat split; auto.
Qed.

Lemma once_objects a namespace policy_name username limit :
  validate_once a namespace policy_name username limit = Ok tt ->
  exists o, joined_reads a = Ok o /\ validate_objects o namespace policy_name username limit = Ok tt.
Proof.
  unfold validate_once. intros H. destruct (joined_reads a) as [o|]; cbn in H; [|done].
  unbind H. exists o. split; [done|]. by repeat match goal with u : unit |- _ => destruct u end.
Qed.

Lemma attempts_ok deadline namespace policy_name username limit attempts :
  attempts_until deadline namespace policy_name username limit attempts = Some (Ok tt) ->
  exists a now, In (a, now) attempts /\ validate_once a namespace policy_name username limit = Ok tt.
Proof.
  induction attempts as [|[a now] l IH]; cbn [attempts_until]; [done|].
  destruct (validate_once a _ _ _ _) as [[]|e] eqn:E.
  - intros _. exists a, now. split; [by left|done].
  - destruct (now <? deadline)%Z; [|done]. intros (a' & n' & Hin & H)%IH. exists a', n'. split; [by right|done].
Qed.

(** A validated policy and binding, taken apart. *)
Lemma validated_policy p b namespace policy_name username :
  validate_policy p namespace policy_name username = Ok tt -> validate_binding b policy_name = Ok tt ->
  exists spec c rule, policy_spec p = Some spec /\ match_constraints spec = Some c /\
    resource_rules c = Some [rule] /\ exact_rule rule c = true /\ exact_match spec namespace = true /\
    exact_validation spec username = true /\ in_force p b = true.
Proof.
  unfold validate_policy, validate_binding. intros Hp Hb.
  destruct (binding_spec b) as [bs|] eqn:Hbs; cbn [ok_or] in Hb; [|done].
  destruct (policy_spec p) as [spec|] eqn:Hspec; cbn [ok_or] in Hp; [|done].
  destruct (match_constraints spec) as [c|] eqn:Hc; cbn [ok_or] in Hp; [|done].
  destruct (resource_rules c) as [[|rule []]|] eqn:Hrules; cbn [ok_or] in Hp; try done.
  unbind Hp. rewrite !deny_if_Ok, ?ok_or_Ok in *. bool_props. subst.
  exists spec, c, rule. split_and!; try done.
  unfold in_force. rewrite Hspec, Hbs. bool_props. subst.
  repeat split; auto. by replace (validation_actions bs) with (Some ["Deny"]).
Qed.

(** What the policy demands of a write it let pass. *)
Lemma policy_enforced `{AdmissionServer} p b namespace policy_name username r :
  validate_policy p namespace policy_name username = Ok tt -> validate_binding b policy_name = Ok tt ->
  json_plain namespace = true -> json_plain username = true ->
  engine_reads (ledger_rules namespace username) ->
  ledger_write namespace r = true -> admits p b r = true ->
  holds (writer_rule username) (request_env r) /\ holds canary_rule (request_env r).
Proof.
  intros Hp Hb Hns Hun Hreads Hr Hadm.
  destruct (validated_policy _ _ _ _ _ Hp Hb) as (spec & c & rule & Hs & Hc & Hrs & He & Hm & Hv & Hf).
  assert (forall e text, In e (ledger_rules namespace username) ->
            String.eqb (normalize_expression text) (show e) = true ->
            cel text (request_env r) = ceval e (request_env r)) as Hcel.
  { intros e text Hin Ht. apply Hreads; [done|]. unfold lays_out. by rewrite Ht. }
  unfold exact_match, exact_validation in *. rewrite condition_text in Hm by done.
  rewrite writer_text, canary_text in Hv by done.
  destruct (admits_enforces p b r spec c) as [Hx|Hx]; try done; [by eapply exact_rule_covers|..].
  - destruct (match_conditions spec) as [[|m []]|]; try done. apply andb_true_iff in Hm as [_ Hm].
    apply Exists_cons in Hx as [Hx|Hx]; [|by inversion Hx].
    rewrite (Hcel _ _ (or_introl eq_refl) Hm) in Hx.
    unfold ledger_write in Hr. apply andb_true_iff in Hr as [_ Hr%String.eqb_eq].
    exfalso. revert Hr. apply part_is_not. rewrite <- ceval_namespace. exact Hx.
  - destruct (validations spec) as [[|w [|k []]]|]; try done. rewrite !andb_true_iff in Hv.
    destruct Hv as [[Hw Hk] _]. apply Forall_cons in Hx as [Hx1 Hx2]. apply Forall_cons in Hx2 as [Hx2 _].
    rewrite (Hcel _ _ (or_intror (or_introl eq_refl)) Hw) in Hx1.
    by rewrite (Hcel _ _ (or_intror (or_intror (or_introl eq_refl))) Hk) in Hx2.
Qed.

(** The quota is the configured one of that namespace and counts every object
    in it: at most [limit] Leases and no ConfigMap, as written and as published
    back by the quota controller with a use of its own for both. *)
Definition bounds_namespace (q : ResourceQuota) (namespace policy_name : string) (limit : Z) : Prop :=
  quota_name q = policy_name /\ quota_namespace q = Some namespace /\
  (exists spec, quota_spec q = Some spec /\ quota_hard spec = Some (expected_hard limit) /\
     default [] (quota_scopes spec) = [] /\ quota_scope_selector spec = None) /\
  (exists status used, quota_status q = Some status /\ quota_status_hard status = Some (expected_hard limit) /\
     quota_used status = Some used /\ is_Some (used !! LEASE_COUNT_QUOTA) /\ is_Some (used !! CONFIG_MAP_COUNT_QUOTA)).

Lemma is_none_false_Some {A} (o : option A) : is_none o = false -> is_Some o.
Proof. by destruct o. Qed.

Lemma quota_validated q namespace policy_name limit :
  validate_quota q namespace policy_name limit = Ok tt -> bounds_namespace q namespace policy_name limit.
Proof.
  unfold validate_quota, bounds_namespace. destruct (quota_spec q) as [spec|]; cbn [ok_or]; [|done].
  destruct (deny_if _ _) as [[]|] eqn:E; [|done]. apply deny_if_Ok in E.
  destruct (quota_status q) as [status|]; cbn [ok_or]; [|done].
  destruct (quota_used status) as [used|] eqn:Eu; cbn [ok_or]; [|done]. intros E2%deny_if_Ok.
  rewrite !orb_false_iff, !negb_false_iff in E, E2. destruct_and!. bool_props.
  split_and!; [done|done| |].
  - exists spec. split_and!; [done|done| |]; by repeat case_match.
  - exists status, used. split_and!; [done..| |]; by apply is_none_false_Some.
Qed.

(** What an attempt that succeeds was answered besides the objects. *)
Definition enforcement_shown (a : LedgerAnswers) : Prop :=
  (forall verb, In verb lease_verbs -> access_review a verb = Ok true) /\
  (exists m, lease_canary a = Err (StatusError 403 m) /\ contains m POLICY_CANARY_MESSAGE = true) /\
  (exists m, config_map_canary a = Err (StatusError 403 m) /\ contains (to_ascii_lowercase m) "exceeded quota" = true).

Lemma review_verbs_Ok a verbs :
  review_verbs a verbs = Ok tt -> forall verb, In verb verbs -> access_review a verb = Ok true.
Proof.
  induction verbs as [|v verbs IH]; cbn [review_verbs]; [done|]. unfold control_read.
  destruct (access_review a v) as [[]|e] eqn:E; cbn; try done. intros H verb [<-|Hin]; auto.
Qed.

Lemma enforcement_validated a : validate_admission_enforcement a = Ok tt ->
  (exists m, lease_canary a = Err (StatusError 403 m) /\ contains m POLICY_CANARY_MESSAGE = true) /\
  (exists m, config_map_canary a = Err (StatusError 403 m) /\ contains (to_ascii_lowercase m) "exceeded quota" = true).
Proof.
  unfold validate_admission_enforcement. destruct (lease_canary a) as [|[c m|]]; try done.
  destruct ((c =? 403)%Z && _) eqn:E; [|done]. destruct (config_map_canary a) as [|[c' m'|]]; try done.
  cbn. destruct ((c' =? 403)%Z && _) eqn:E'; [|done]. intros _. bool_props. subst. split; [by exists m|by exists m'].
Qed.

Lemma canary_refused r :
  holds canary_rule (request_env r) -> request_operation r = "CREATE" ->
  sel (sel (Some (default VNull (request_object r))) "metadata") "name" <> Some (VStr POLICY_CANARY_NAME).
Proof.
  intros [H|H]%holds_or Hop E.
  - by apply holds_not_operation in H.
  - apply cnot_true, ceq_false in H as (x & y & Hx & Hy & Hne). cbn [ceval] in Hx, Hy.
    change (field "object" (request_env r)) with (Some (default VNull (request_object r))) in Hx.
    rewrite E in Hx. by simplify_eq.
Qed.

(** Attempts that start no earlier than [t], with the pause of the loop
    between them. *)
Fixpoint paced (t : Z) (attempts : list (LedgerAnswers * Z)) : Prop :=
  match attempts with
  | [] => True
  | (_, now) :: rest => (t <= now)%Z /\ paced (now + millis 250) rest
  end.

Lemma attempts_end deadline namespace policy_name username limit attempts t :
  paced t attempts -> attempts <> [] ->
  (deadline <= t + millis 250 * (Z.of_nat (length attempts) - 1))%Z ->
  exists res, attempts_until deadline namespace policy_name username limit attempts = Some res.
Proof.
  unfold millis. revert t. induction attempts as [|[a now] l IH]; intros t Hp Hne Hd; [done|].
  cbn [attempts_until]. destruct Hp as [Ht Hp]. destruct (validate_once _ _ _ _ _); [eauto|].
  destruct (now <? deadline)%Z eqn:E; [|eauto]. apply Z.ltb_lt in E. cbn [length] in Hd.
  apply (IH (now + millis 250)%Z Hp); unfold millis; [intros ->; cbn in Hd; lia|]. lia.
Qed.

(** The validation answers: 121 attempts, the pause of the source between
    them, reach its deadline of thirty seconds. *)
Theorem ledger_validation_ends start namespace policy_name username limit attempts :
  paced start attempts -> (121 <= length attempts)%nat ->
  exists res, validate start namespace policy_name username limit attempts = Some res.
Proof.
  intros Hp Hl. apply (attempts_end _ _ _ _ _ _ start Hp).
  - intros ->. cbn in Hl. lia.
  - unfold millis, seconds, nanos_per_second. lia.
Qed.

(** ** A concrete cluster *)

Module LedgerDemo.
Definition namespace : string := "kobe-ledger".
Definition operator : string := "system:serviceaccount:kobe:operator".
Definition name : string := "kobe-sandbox-ledger".

Definition policy : ValidatingAdmissionPolicy :=
  {| policy_object_name := name; policy_generation := Some 1%Z;
     policy_spec := Some
       {| failure_policy := Some "Fail"; param_kind := None;
          match_conditions := Some [{| condition_name := "only-sandbox-ledger-namespace";
                                       condition_expression := expected_match namespace |}];
          match_constraints := Some
            {| resource_rules := Some
                 [{| api_groups := Some ["coordination.k8s.io"]; api_versions := Some ["v1"];
                     rule_operations := Some ["CREATE"; "UPDATE"; "DELETE"];
                     rule_resources := Some ["leases"]; resource_names := None;
                     rule_scope := Some "*" |}];
               exclude_resource_rules := None; match_policy := Some "Equivalent";
               namespace_selector := Some default_selector; object_selector := Some default_selector |};
          validations := Some
            [{| validation_expression := expected_writer_validation operator; validation_message := None |};
             {| validation_expression := expected_canary_validation;
                validation_message := Some POLICY_CANARY_MESSAGE |}] |};
     policy_status := Some {| observed_generation := Some 1%Z; policy_conditions := None;
                              type_checking := Some {| expression_warnings := None |} |} |}.

Definition objects : LedgerObjects :=
  {| ledger_namespace_object := {| namespace_name := namespace; namespace_labels := {[LEDGER_LABEL := "true"]} |};
     ledger_quota :=
       {| quota_name := name; quota_namespace := Some namespace;
          quota_spec := Some {| quota_hard := Some (expected_hard 4096); quota_scopes := None;
                                quota_scope_selector := None |};
          quota_status := Some {| quota_status_hard := Some (expected_hard 4096);
                                  quota_used := Some (expected_hard 12) |} |};
     ledger_policy := policy;
     ledger_binding :=
       {| binding_object_name := name;
          binding_spec := Some {| bound_policy_name := Some name; validation_actions := Some ["Deny"];
                                  binding_match_resources := None; binding_param_ref := None |} |} |}.

Definition answers (ready : bool) : LedgerAnswers :=
  {| joined_reads := if ready then Ok objects else Err NoAnswer;
     self_review := Ok (Some operator);
     access_review := fun _ => Ok true;
     lease_canary := Err (StatusError 403 ("denied: " +:+ POLICY_CANARY_MESSAGE));
     config_map_canary := Err (StatusError 403 "Exceeded quota: kobe-sandbox-ledger") |}.

(** The first attempt fails, the second one, a second later, succeeds. *)
Definition attempts : list (LedgerAnswers * Z) := [(answers false, 0%Z); (answers true, seconds 1)].

Lemma accepted : validate 0 namespace name operator 4096 attempts = Some (Ok tt).
Proof. vm_compute. reflexivity. Qed.

Definition server : AdmissionServer := table_server (ledger_rules namespace operator).

Lemma engine_reads_rules : @engine_reads server (ledger_rules namespace operator).
Proof.
  apply table_reads; [vm_compute; reflexivity|]. apply (bool_decide_unpack _). vm_compute. done.
Qed.

Definition write (user lease : string) : Request :=
  {| request_user := user; request_operation := "CREATE"; request_group := "coordination.k8s.io";
     request_version := "v1"; request_resource := "leases"; request_subresource := "";
     request_namespace := namespace; request_name := lease;
     request_object := Some (VMap [("metadata", VMap [("name", VStr lease)])]);
     request_old_object := None |}.

Example foreign_write_refused :
  @admits server (ledger_policy objects) (ledger_binding objects) (write "alice" "quota-1") = false.
Proof. vm_compute. reflexivity. Qed.

Example operator_write_passes :
  @admits server (ledger_policy objects) (ledger_binding objects) (write operator "quota-1") = true.
Proof. vm_compute. reflexivity. Qed.
End LedgerDemo.

(** C23. The ledger has one writer.  When the start-up validation succeeds, one
    of its attempts read, all together, the labelled namespace of the ledger; a
    quota of that namespace, without scopes or selector, whose limits, as
    written and as published by the quota controller, are exactly the
    configured number of Leases and no ConfigMap; and a policy and binding
    under which a write of a Lease in that namespace is let pass only from the
    operator's identity, and not even from it when it would store the
    enforcement canary.  The process runs under that identity, holds each of
    the verbs it needs, and was refused both dry runs, by the policy and by the
    quota.  This is for a namespace and an operator name that JSON writes as
    they are, and a CEL engine that evaluates the three expressions as the
    language defines them. *)
Theorem ledger_has_one_writer `{AdmissionServer} start namespace policy_name operator limit attempts :
  validate start namespace policy_name operator limit attempts = Some (Ok tt) ->
  json_plain namespace = true -> json_plain operator = true ->
  engine_reads (ledger_rules namespace operator) ->
  exists a now o, In (a, now) attempts /\ joined_reads a = Ok o /\ self_review a = Ok (Some operator) /\
    enforcement_shown a /\
    namespace_name (ledger_namespace_object o) = namespace /\
    namespace_labels (ledger_namespace_object o) !! LEDGER_LABEL = Some "true" /\
    bounds_namespace (ledger_quota o) namespace policy_name limit /\
    forall r, ledger_write namespace r = true -> admits (ledger_policy o) (ledger_binding o) r = true ->
      request_user r = operator /\
      (request_operation r = "CREATE" ->
       sel (sel (Some (default VNull (request_object r))) "metadata") "name" <> Some (VStr POLICY_CANARY_NAME)).
Proof.
  intros Hv Hns Hop Hreads. apply attempts_ok in Hv as (a & now & Hin & Honce).
  destruct (once_objects _ _ _ _ _ Honce) as (o & Hj & Ho). exists a, now, o.
  unfold validate_once in Honce. rewrite Hj in Honce. cbn [control_read] in Honce. rewrite Ho in Honce.
  destruct (validate_operator_identity a operator) as [[]|] eqn:Hid; cbn match in Honce; [|done].
  destruct (validate_lease_permissions a) as [[]|] eqn:Hverbs; cbn match in Honce; [|done].
  unfold validate_objects in Ho.
  destruct (validate_namespace _ _) as [[]|] eqn:Hn; [|done].
  destruct (validate_quota _ _ _ _) as [[]|] eqn:Hq; [|done].
  destruct (validate_policy _ _ _ _) as [[]|] eqn:Hp; [|done].
  apply deny_if_Ok in Hn. bool_props.
  split_and!; try done.
  - unfold validate_operator_identity in Hid. destruct (self_review a) as [u|]; cbn in Hid; [|done].
    apply deny_if_Ok in Hid. bool_props. by subst.
  - split; [by apply review_verbs_Ok|by apply enforcement_validated].
  - by apply quota_validated.
  - intros r Hr Hadm. destruct (policy_enforced _ _ _ _ _ r Hp Ho Hns Hop Hreads Hr Hadm) as [Hw Hc].
    split; [by apply holds_user|by apply canary_refused].
Qed.

Lemma ledger_has_one_writer_witness :
  exists a now o, In (a, now) LedgerDemo.attempts /\ joined_reads a = Ok o /\
    self_review a = Ok (Some LedgerDemo.operator) /\ enforcement_shown a /\
    namespace_name (ledger_namespace_object o) = LedgerDemo.namespace /\
    namespace_labels (ledger_namespace_object o) !! LEDGER_LABEL = Some "true" /\
    bounds_namespace (ledger_quota o) LedgerDemo.namespace LedgerDemo.name 4096 /\
    forall r, ledger_write LedgerDemo.namespace r = true ->
      @admits LedgerDemo.server (ledger_policy o) (ledger_binding o) r = true ->
      request_user r = LedgerDemo.operator /\
      (request_operation r = "CREATE" ->
       sel (sel (Some (default VNull (request_object r))) "metadata") "name" <> Some (VStr POLICY_CANARY_NAME)).
Proof.
  exact (@ledger_has_one_writer LedgerDemo.server 0 LedgerDemo.namespace LedgerDemo.name LedgerDemo.operator
           4096 LedgerDemo.attempts LedgerDemo.accepted eq_refl eq_refl LedgerDemo.engine_reads_rules).
Defined.
