(* ===== verification/AuthorityProps.v ===== *)
(** * What the validated authority boundary guarantees

    When [ReceiptAuthority.validate] accepts the cluster it starts in, the
    proof fields of a lease were written by the teardown authority, whoever
    else writes the lease in between; a lease leaves its retention only after
    the authority acknowledged; and the control plane's identity cannot reach
    into the authority's namespace. *)

From stdpp Require Import base list strings.
From Stdlib Require Import ZArith Ascii String.
From S2P Require Import Prelude Text Objects LedgerApi Cel PolicyObjects ReceiptAuthority.
Local Open Scope string_scope.
Local Open Scope kobe_scope.

(** ** From validation to the expressions *)

(** A write the authority's policy watches. *)
Definition authority_request (r : Request) : bool :=
  request_in ["kobe.kunobi.ninja"] ["v1alpha1"] writes authority_resources r.

Ltac units := repeat match goal with u : unit |- _ => destruct u end.

Lemma rule_covers_names rule gs vs os rs r :
  rule_covers rule gs vs os rs = true -> request_in gs vs os rs r = true -> rule_names rule r = true.
Proof.
  unfold rule_covers, request_in, rule_names. rewrite !andb_true_iff, !bool_decide_eq_true, !forallb_forall.
  intros (((((Hg & Hv) & Hn) & Hs) & Ho) & Hr) (((Hg' & Hv') & Ho') & Hr').
  rewrite existsb_eqb in Ho', Hr'. unfold listed at 1 2. rewrite Hg, Hv.
  repeat split; auto. destruct (rule_scope rule); [done|done].
Qed.

Lemma validated_in_force p b name control spec c :
  policy_spec p = Some spec -> spec_weakened p spec c name = false ->
  validate_binding b name control = Ok tt -> in_force p b = true.
Proof.
  intros Hspec Hweak Hb. unfold spec_weakened, validate_binding, in_force in *. rewrite Hspec.
  destruct (binding_spec b) as [bs|]; cbn in Hb; [|done]. apply deny_if_Ok in Hb.
  bool_props. subst. repeat split; auto. by replace (validation_actions bs) with (Some ["Deny"]).
Qed.

Lemma unweakened_covers p spec c name rules rule r gs vs os rs :
  spec_weakened p spec c name = false -> resource_rules c = Some rules -> In rule rules ->
  rule_covers rule gs vs os rs = true -> request_in gs vs os rs r = true -> covers c r = true.
Proof.
  intros Hweak Hrules Hin Hcov Hr. unfold spec_weakened, covers in *. rewrite Hrules.
  bool_props. unfold selects_all, no_exclusions.
  replace (namespace_selector c) with (@None LabelSelector).
  replace (object_selector c) with (@None LabelSelector). repeat split; auto.
  - apply existsb_exists. eauto using rule_covers_names.
  - by destruct (exclude_resource_rules c) as [[]|].
Qed.

(** Every expression the validation found in the policy held of a request the
    policy let pass. *)
Lemma enforced_expressions `{AdmissionServer} p b name control spec c rules rule r gs vs os rs es :
  policy_spec p = Some spec -> match_constraints spec = Some c ->
  spec_weakened p spec c name = false -> validate_binding b name control = Ok tt ->
  resource_rules c = Some rules -> In rule rules ->
  rule_covers rule gs vs os rs = true -> request_in gs vs os rs r = true ->
  expressions_present (map show es) spec = true -> engine_reads es -> admits p b r = true ->
  forall e, In e es -> holds e (request_env r).
Proof.
  intros Hspec Hc Hweak Hb Hrules Hin Hcov Hr Hpresent Hreads Hadm e He.
  pose proof (admits_enforces _ _ _ _ _ (validated_in_force _ _ _ _ _ _ Hspec Hweak Hb) Hspec Hc
                (unweakened_covers _ _ _ _ _ _ _ _ _ _ _ Hweak Hrules Hin Hcov Hr) Hadm) as [Hm|Hv].
  - unfold spec_weakened in Hweak. bool_props.
    destruct (match_conditions spec) as [[|]|]; try done; by inversion Hm.
  - unfold expressions_present in Hpresent. rewrite forallb_forall in Hpresent.
    specialize (Hpresent _ (in_map show _ _ He)). rewrite existsb_eqb in Hpresent.
    apply in_map_iff in Hpresent as (v & Hv' & Hin').
    rewrite Forall_forall in Hv. apply list_elem_of_In, Hv in Hin'.
    unfold holds. rewrite <- Hin'. symmetry. apply Hreads; [done|].
    unfold lays_out. rewrite Hv', String.eqb_refl. by rewrite orb_true_r.
Qed.

(** ** What the expressions say of a request *)

Definition status_field (o : option value) (f : string) : option value :=
  sel (sel (Some (default VNull o)) "status") f.

(** The field is absent before and after, or equal. *)
Definition field_unchanged (r : Request) (f : string) : Prop :=
  (status_field (request_old_object r) f = None /\ status_field (request_object r) f = None) \/
  exists x y, status_field (request_object r) f = Some x /\
              status_field (request_old_object r) f = Some y /\ veq x y = true.

Lemma holds_lacks g o f :
  holds (e_lacks o f) g -> sel (sel (ceval (EVar o) g) "status") f = None.
Proof.
  intros [Hs|Hf]%holds_paren%holds_or.
  - apply cnot_true, chas_false in Hs. cbn [ceval] in *. by rewrite Hs.
  - by apply cnot_true, chas_false in Hf.
Qed.

Lemma holds_same r f :
  holds (e_same f) (request_env r) ->
  exists x y, status_field (request_object r) f = Some x /\
              status_field (request_old_object r) f = Some y /\ veq x y = true.
Proof. intros [_ H]%holds_and. by apply ceq_true in H. Qed.

Lemma holds_unchanged r f : holds (e_unchanged f) (request_env r) -> field_unchanged r f.
Proof.
  unfold holds, e_unchanged. cbn [ceval].
  destruct (ceq _ _) as [v|] eqn:Enull; [|done].
  destruct v as [|[]| | | |]; try done.
  - apply ceq_true in Enull as (x & y & Hx & Hy & E). intros Hl%holds_lacks. left.
    split; [|done]. unfold status_field. cbn in Hx, Hy. simplify_eq.
    by destruct (default VNull (request_old_object r)).
  - intros [Hb|Hs]%holds_or; [left|right; by apply holds_same].
    apply holds_paren, holds_and in Hb as [Ho Hn]. by apply holds_lacks in Ho, Hn.
Qed.

(** The object carries the retention finalizer. *)
Definition retains (o : option value) : bool :=
  match sel (sel (Some (default VNull o)) "metadata") "finalizers" with
  | Some (VList l) => existsb (fun x => veq x (VStr retention)) l
  | _ => false
  end.

Lemma exists_bools {A} (p : A -> bool) l :
  foldr (fun x acc => cor (Some (VBool (p x))) acc) (Some (VBool false)) l = Some (VBool (existsb p l)).
Proof. induction l as [|x l IH]; cbn [foldr existsb]; [done|]. rewrite IH. by destruct (p x), (existsb p l). Qed.

Lemma ceval_retained r o s :
  field s (request_env r) = Some (default VNull o) ->
  ceval (e_retained s) (request_env r)
  = match sel (sel (Some (default VNull o)) "metadata") "finalizers" with
    | Some (VList _) => Some (VBool (retains o)) | _ => None end.
Proof.
  intros Hs. unfold e_retained, e_finalizers, retains. cbn [ceval]. rewrite Hs.
  destruct (sel (sel _ _) _) as [[| | | |l|]|]; try done. apply exists_bools.
Qed.

Lemma holds_retention_rule r :
  holds retention_rule (request_env r) ->
  request_resource r = "clusterleases" -> request_operation r = "UPDATE" ->
  retains (request_old_object r) = true -> retains (request_object r) = false ->
  exists x y, status_field (request_object r) "teardownAcknowledgement" = Some x /\
              status_field (request_old_object r) "teardownAcknowledgement" = Some y /\ veq x y = true.
Proof.
  unfold retention_rule. rewrite !holds_or.
  intros [[[[[H|H]|H]|H]|H]|H] Hres Hop Hold Hnew.
  - by apply holds_other_resource in H.
  - by apply holds_not_operation in H.
  - apply cnot_true, chas_false in H. unfold retains in Hold. cbn [ceval] in H.
    change (field "oldObject" (request_env r)) with (Some (default VNull (request_old_object r))) in H.
    by rewrite H in Hold.
  - apply cnot_true in H. rewrite (ceval_retained r (request_old_object r)) in H by done.
    destruct (sel (sel _ _) _) as [[]|]; congruence.
  - apply holds_paren, holds_and in H as [_ H]. unfold holds in H.
    rewrite (ceval_retained r (request_object r)) in H by done.
    destruct (sel (sel _ _) _) as [[]|]; congruence.
  - by apply holds_same.
Qed.

(** ** The life of an object behind the policy *)

(** [life o resource h cur]: after the requests [h], every one of which the
    authority's policy let pass, the object of this resource (by one name) is
    [cur].  A CREATE or UPDATE stores the object the policy was shown; a DELETE
    removes it or, while finalizers remain, marks it and leaves its finalizers
    and its status as they are. *)
Inductive life `{AdmissionServer} (o : AuthorityObjects) (resource : string)
    : list Request -> option value -> Prop :=
| life_none : life o resource [] None
| life_write h r :
    life o resource h (request_old_object r) ->
    authority_request r = true -> request_resource r = resource ->
    admits (authority_policy o) (authority_binding o) r = true ->
    request_operation r <> "DELETE" ->
    life o resource (h ++ [r]) (request_object r)
| life_delete h r :
    life o resource h (request_old_object r) ->
    authority_request r = true -> request_resource r = resource ->
    admits (authority_policy o) (authority_binding o) r = true ->
    request_operation r = "DELETE" ->
    life o resource (h ++ [r]) None
| life_terminating h r cur :
    life o resource h (request_old_object r) ->
    authority_request r = true -> request_resource r = resource ->
    admits (authority_policy o) (authority_binding o) r = true ->
    request_operation r = "DELETE" ->
    (forall f, status_field (Some cur) f = status_field (request_old_object r) f) ->
    retains (Some cur) = retains (request_old_object r) ->
    life o resource (h ++ [r]) (Some cur).

(** The fields the authority alone may write. *)
Definition proof_field (resource f : string) : bool :=
  (String.eqb resource "clusterleases" && existsb (String.eqb f) proof_fields)
  || (String.eqb resource "clusterinstances" && existsb (String.eqb f) instance_proof_fields).

(** The fields the authority may not write. *)
Definition lifecycle_field (resource f : string) : bool :=
  (String.eqb resource "clusterleases" && existsb (String.eqb f) lifecycle_fields)
  || (String.eqb resource "clusterinstances" && existsb (String.eqb f) instance_lifecycle_fields).

(** Take a successful validation of a policy apart. *)
Ltac open_validation Ho :=
  let sp := fresh "spec" in let cs := fresh "c" in let rs := fresh "rules" in
  destruct (policy_spec _) as [sp|] eqn:Hspec in Ho; cbn [ok_or] in Ho; [|discriminate Ho];
  destruct (match_constraints sp) as [cs|] eqn:Hc in Ho; cbn [ok_or] in Ho; [|discriminate Ho];
  destruct (resource_rules cs) as [rs|] eqn:Hrules in Ho; cbn [ok_or] in Ho; [|discriminate Ho];
  destruct (deny_if _ _) as [[]|] eqn:Hd in Ho; [|discriminate Ho];
  destruct (validate_status _ _) as [[]|] in Ho; [|discriminate Ho];
  rewrite deny_if_Ok, !orb_false_iff, !negb_false_iff in Hd.

Section Validated.
Context `{AdmissionServer}.
Variables (o : AuthorityObjects) (policy_name firewall_name authority control_plane namespace : string).
Hypothesis Hvalid : validate (Ok o) policy_name firewall_name authority control_plane namespace = Ok tt.

Lemma validated_parts :
  validate_identity_contract policy_name firewall_name authority control_plane namespace = Ok tt /\
  validate_objects (authority_policy o) (authority_binding o) policy_name authority = Ok tt /\
  validate_firewall_objects (firewall_policy o) (firewall_binding o) firewall_name control_plane namespace
  = Ok tt.
Proof. unfold validate in Hvalid. unbind Hvalid. by units. Qed.

Section Authority.
Hypothesis Hreads : engine_reads (authority_rules authority).

Lemma authority_rules_hold r e :
  authority_request r = true -> admits (authority_policy o) (authority_binding o) r = true ->
  In e (authority_rules authority) -> holds e (request_env r).
Proof.
  destruct validated_parts as (_ & Ho & _). unfold validate_objects in Ho.
  open_validation Ho. rewrite authority_texts in Hd. destruct Hd as ((Hweak & Hrule) & Hex).
  apply existsb_exists in Hrule as (rule & Hin & Hcov). intros Hr Hadm.
  exact (enforced_expressions _ _ _ _ _ _ _ _ _ _ _ _ _ _ Hspec Hc Hweak Ho Hrules Hin Hcov Hr
           Hex Hreads Hadm e).
Qed.

Lemma proof_field_rule resource f :
  proof_field resource f = true -> In (unchanged_rule resource f authority) (authority_rules authority).
Proof.
  unfold proof_field, authority_rules. rewrite orb_true_iff, !andb_true_iff, !String.eqb_eq, !existsb_eqb.
  rewrite !in_app_iff. intros [[-> Hf]|[-> Hf]].
  - right; left. by apply (in_map (fun f => unchanged_rule "clusterleases" f authority)).
  - right; right; left. by apply (in_map (fun f => unchanged_rule "clusterinstances" f authority)).
Qed.

Lemma lifecycle_field_rule resource f :
  lifecycle_field resource f = true ->
  In (authority_unchanged_rule resource f authority) (authority_rules authority).
Proof.
  unfold lifecycle_field, authority_rules.
  rewrite orb_true_iff, !andb_true_iff, !String.eqb_eq, !existsb_eqb, !in_app_iff.
  intros [[-> Hf]|[-> Hf]]; do 3 right.
  - left. by apply (in_map (fun f => authority_unchanged_rule "clusterleases" f authority)).
  - right; left. by apply (in_map (fun f => authority_unchanged_rule "clusterinstances" f authority)).
Qed.

(** A write of someone else leaves the proof fields as they were. *)
Lemma others_keep_proof_fields r f :
  authority_request r = true -> admits (authority_policy o) (authority_binding o) r = true ->
  request_operation r <> "DELETE" -> request_user r <> authority ->
  proof_field (request_resource r) f = true -> field_unchanged r f.
Proof.
  intros Hr Hadm Hop Hu Hf.
  pose proof (authority_rules_hold r _ Hr Hadm (proof_field_rule _ _ Hf)) as Hh.
  apply holds_or in Hh as [Hh|Hh]; [|by apply holds_unchanged].
  apply holds_or in Hh as [Hh|Hh]; [|by apply holds_operation in Hh].
  apply holds_or in Hh as [Hh|Hh]; [by apply holds_other_resource in Hh|by apply holds_user in Hh].
Qed.

(** A write of the authority leaves the lifecycle fields as they were. *)
Lemma authority_keeps_lifecycle_fields r f :
  authority_request r = true -> admits (authority_policy o) (authority_binding o) r = true ->
  request_operation r <> "DELETE" -> request_user r = authority ->
  lifecycle_field (request_resource r) f = true -> field_unchanged r f.
Proof.
  intros Hr Hadm Hop Hu Hf.
  pose proof (authority_rules_hold r _ Hr Hadm (lifecycle_field_rule _ _ Hf)) as Hh.
  apply holds_or in Hh as [Hh|Hh]; [|by apply holds_unchanged].
  apply holds_or in Hh as [Hh|Hh]; [|by apply holds_operation in Hh].
  apply holds_or in Hh as [Hh|Hh]; [by apply holds_other_resource in Hh|by apply holds_not_user in Hh].
Qed.

(** What a proof field holds was put there by the authority. *)
Definition written_by_authority (h : list Request) (f : string) (v : value) : Prop :=
  exists r v', In r h /\ request_user r = authority /\
    status_field (request_object r) f = Some v' /\ (v = v' \/ veq v v' = true).

Lemma written_later h r f v : written_by_authority h f v -> written_by_authority (h ++ [r]) f v.
Proof. intros (r' & v' & Hin & H'). exists r', v'. split; [apply in_app_iff; auto|done]. Qed.

Lemma life_proof_fields resource h cur f v :
  life o resource h cur -> proof_field resource f = true -> status_field cur f = Some v ->
  written_by_authority h f v.
Proof.
  intros Hlife Hf. revert v.
  induction Hlife as [|h r Hl IH Hr Hres Hadm Hop|h r Hl IH Hr Hres Hadm Hop
                     |h r cur Hl IH Hr Hres Hadm Hop Hst Hfin]; intros v Hv; try done.
  - destruct (decide (request_user r = authority)) as [Hu|Hu].
    + exists r, v. rewrite in_app_iff. cbn. naive_solver.
    + subst resource. destruct (others_keep_proof_fields r f) as [[_ H0]|(x & y & Hx & Hy & Heq)];
        try done; [congruence|]. rewrite Hx in Hv. simplify_eq.
      apply written_later. destruct (IH y Hy) as (r' & v' & Hin & Hu' & Hw & Hsame).
      exists r', v'. split_and!; try done. right. destruct Hsame as [<-|Hs]; [done|].
      by apply (veq_trans _ y).
  - rewrite Hst in Hv. by apply written_later, IH.
Qed.

Lemma life_retention h r :
  life o "clusterleases" h (request_old_object r) ->
  authority_request r = true -> request_resource r = "clusterleases" ->
  admits (authority_policy o) (authority_binding o) r = true -> request_operation r = "UPDATE" ->
  retains (request_old_object r) = true -> retains (request_object r) = false ->
  exists v, status_field (request_object r) "teardownAcknowledgement" = Some v /\
            written_by_authority h "teardownAcknowledgement" v.
Proof.
  intros Hl Hr Hres Hadm Hop Hold Hnew.
  destruct (holds_retention_rule r) as (x & y & Hx & Hy & Heq); try done.
  { apply (authority_rules_hold r _ Hr Hadm). unfold authority_rules. rewrite !in_app_iff.
    do 5 right. cbn. auto. }
  exists x. split; [done|].
  destruct (life_proof_fields _ _ _ "teardownAcknowledgement" y Hl) as (r' & v' & Hin & Hu & Hw & Hs); try done.
  exists r', v'. split_and!; try done. right. destruct Hs as [<-|Hs]; [done|]. by apply (veq_trans _ y).
Qed.
End Authority.

Section Firewall.
Hypothesis Hreads : engine_reads (firewall_rules control_plane namespace).

(** A request the firewall policy watches. *)
Definition firewall_request (r : Request) : bool :=
  existsb (fun '(gs, vs, os, rs) => request_in gs vs os rs r) firewall_coverage.

Lemma firewall_rules_hold r e :
  firewall_request r = true -> admits (firewall_policy o) (firewall_binding o) r = true ->
  In e (firewall_rules control_plane namespace) -> holds e (request_env r).
Proof.
  destruct validated_parts as (_ & _ & Ho). unfold validate_firewall_objects in Ho.
  open_validation Ho. rewrite firewall_texts in Hd. destruct Hd as ((Hweak & Hrule) & Hex).
  unfold firewall_request. rewrite existsb_exists. intros ([[[gs vs] os] rs] & Hin & Hr) Hadm.
  rewrite forallb_forall in Hrule. specialize (Hrule _ Hin). cbn beta iota in Hrule.
  apply existsb_exists in Hrule as (rule & Hin' & Hcov).
  exact (enforced_expressions _ _ _ _ _ _ _ _ _ _ _ _ _ _ Hspec Hc Hweak Ho Hrules Hin' Hcov Hr
           Hex Hreads Hadm e).
Qed.
End Firewall.
End Validated.

(** ** A concrete cluster

    The two policies as the chart installs them, a server that evaluates them,
    and the history of one lease: created by the control plane, attested by
    the authority, updated by the control plane and let go of. *)

Module Demo.
Definition namespace : string := "kobe-authority".
Definition authority : string := "system:serviceaccount:kobe-authority:teardown".
Definition control_plane : string := "system:serviceaccount:kobe:operator".

Definition rule (gs vs os rs : list string) : NamedRuleWithOperations :=
  {| api_groups := Some gs; api_versions := Some vs; rule_operations := Some os;
     rule_resources := Some rs; resource_names := None; rule_scope := None |}.

Definition policy (name : string) (rules : list NamedRuleWithOperations) (texts : list string)
    : ValidatingAdmissionPolicy :=
  {| policy_object_name := name; policy_generation := Some 1%Z;
     policy_spec := Some
       {| failure_policy := Some "Fail"; param_kind := None; match_conditions := None;
          match_constraints := Some
            {| resource_rules := Some rules; exclude_resource_rules := None; match_policy := None;
               namespace_selector := None; object_selector := None |};
          validations := Some (map (fun t => {| validation_expression := t; validation_message := None |})
                                   texts) |};
     policy_status := Some
       {| observed_generation := Some 1%Z;
          policy_conditions := Some [{| policy_condition_type := "Accepted"; policy_condition_status := "True" |}];
          type_checking := None |} |}.

Definition binding (name : string) : ValidatingAdmissionPolicyBinding :=
  {| binding_object_name := name;
     binding_spec := Some {| bound_policy_name := Some name; validation_actions := Some ["Deny"];
                             binding_match_resources := None; binding_param_ref := None |} |}.

Definition objects : AuthorityObjects :=
  {| authority_policy := policy "teardown-authority"
       [rule ["kobe.kunobi.ninja"] ["v1alpha1"] writes authority_resources]
       (required_authority_expressions authority);
     authority_binding := binding "teardown-authority";
     firewall_policy := policy "identity-firewall"
       (map (fun '(gs, vs, os, rs) => rule gs vs os rs) firewall_coverage)
       (firewall_expressions control_plane namespace);
     firewall_binding := binding "identity-firewall";
     review_username := Some authority |}.

Lemma valid :
  validate (Ok objects) "teardown-authority" "identity-firewall" authority control_plane namespace = Ok tt.
Proof. vm_compute. reflexivity. Qed.

Definition server : AdmissionServer :=
  table_server (authority_rules authority ++ firewall_rules control_plane namespace).

Lemma reads : @engine_reads server (authority_rules authority ++ firewall_rules control_plane namespace).
Proof.
  apply table_reads; [vm_compute; reflexivity|].
  apply (bool_decide_unpack _). vm_compute. done.
Qed.

Lemma reads_authority : @engine_reads server (authority_rules authority).
Proof. intros e t g Hin. apply reads. apply in_app_iff. auto. Qed.

Lemma reads_firewall : @engine_reads server (firewall_rules control_plane namespace).
Proof. intros e t g Hin. apply reads. apply in_app_iff. auto. Qed.

Definition lease (finalizers : list value) (status : list (string * value)) : value :=
  VMap [("metadata", VMap [("name", VStr "lease-a"); ("finalizers", VList finalizers)]);
        ("status", VMap status)].

Definition request (user op sub : string) (old new : option value) : Request :=
  {| request_user := user; request_operation := op; request_group := "kobe.kunobi.ninja";
     request_version := "v1alpha1"; request_resource := "clusterleases"; request_subresource := sub;
     request_namespace := "kobe"; request_name := "lease-a"; request_object := new;
     request_old_object := old |}.

Definition receipt : value := VMap [("uid", VStr "u-1"); ("verified", VBool true)].
Definition acknowledged : value := VMap [("receiver", VStr "sandbox-1")].
Definition kept : list value := [VStr retention].
Definition created : value := lease kept [].
Definition bound : value := lease kept [("phase", VStr "Bound")].
Definition attested : value :=
  lease kept [("phase", VStr "Bound"); ("teardownReceipt", receipt); ("teardownAcknowledgement", acknowledged)].
(** The control plane writes the receipt back with its keys in another order. *)
Definition handed_back : value :=
  lease kept [("phase", VStr "Released"); ("teardownAcknowledgement", acknowledged);
              ("teardownReceipt", VMap [("verified", VBool true); ("uid", VStr "u-1")])].
Definition let_go : value :=
  lease [] [("phase", VStr "Released"); ("teardownReceipt", receipt); ("teardownAcknowledgement", acknowledged)].

Definition r1 : Request := request control_plane "CREATE" "" None (Some created).
Definition r2 : Request := request control_plane "UPDATE" "status" (Some created) (Some bound).
Definition r3 : Request := request authority "UPDATE" "status" (Some bound) (Some attested).
Definition r4 : Request := request control_plane "UPDATE" "status" (Some attested) (Some handed_back).
Definition r5 : Request := request control_plane "UPDATE" "" (Some handed_back) (Some let_go).

Lemma lived : @life server objects "clusterleases" [r1; r2; r3; r4] (Some handed_back).
Proof.
  apply (@life_write server objects "clusterleases" [r1; r2; r3] r4);
    [|vm_compute; done..].
  apply (@life_write server objects "clusterleases" [r1; r2] r3); [|vm_compute; done..].
  apply (@life_write server objects "clusterleases" [r1] r2); [|vm_compute; done..].
  apply (@life_write server objects "clusterleases" [] r1); [|vm_compute; done..].
  apply life_none.
Qed.

(** What the policy stops: the control plane writing a receipt, changing one,
    dropping the finalizer early; the authority changing a phase; an
    evidence record of someone else. *)
Example forged_receipt_refused :
  @admits server (authority_policy objects) (authority_binding objects)
    (request control_plane "UPDATE" "status" (Some bound) (Some attested)) = false.
Proof. vm_compute. reflexivity. Qed.

Example early_let_go_refused :
  @admits server (authority_policy objects) (authority_binding objects)
    (request control_plane "UPDATE" "" (Some bound) (Some (lease [] [("phase", VStr "Bound")]))) = false.
Proof. vm_compute. reflexivity. Qed.

Example authority_phase_refused :
  @admits server (authority_policy objects) (authority_binding objects)
    (request authority "UPDATE" "status" (Some bound) (Some (lease kept [("phase", VStr "Released")]))) = false.
Proof. vm_compute. reflexivity. Qed.
End Demo.

(** ** Guarantees *)

(** C22. Every proof in the cluster is the authority's: once the process has
    validated its policies, whatever the history of a lease or an instance, a
    proof field of its status (receipt, evidence, attempt, acknowledgement,
    absence stamp; manifest and identities of an instance) holds a value only
    if the authority wrote that value in a request of that history, whoever
    else created, updated or deleted the object in between. *)
Theorem proof_fields_come_from_the_authority `{AdmissionServer} o policy_name firewall_name authority
    control_plane namespace resource h cur f v :
  validate (Ok o) policy_name firewall_name authority control_plane namespace = Ok tt ->
  engine_reads (authority_rules authority) ->
  life o resource h cur -> proof_field resource f = true -> status_field cur f = Some v ->
  written_by_authority authority h f v.
Proof. intros Hv Hr. by apply (life_proof_fields _ _ _ _ _ _ Hv Hr). Qed.

Lemma proof_fields_come_from_the_authority_witness :
  @life Demo.server Demo.objects "clusterleases" [Demo.r1; Demo.r2; Demo.r3; Demo.r4] (Some Demo.handed_back) /\
  exists v, status_field (Some Demo.handed_back) "teardownReceipt" = Some v /\
    written_by_authority Demo.authority [Demo.r1; Demo.r2; Demo.r3; Demo.r4] "teardownReceipt" v.
Proof.
  split; [exact Demo.lived|]. eexists. split; [reflexivity|].
  exact (@proof_fields_come_from_the_authority Demo.server Demo.objects _ _ Demo.authority _ _
           "clusterleases" _ _ "teardownReceipt" _ Demo.valid Demo.reads_authority Demo.lived
           eq_refl eq_refl).
Defined.

(** A lease is retained until its teardown is acknowledged: an update that
    takes the retention finalizer off a lease is let pass only when the lease
    carries, before and after, an acknowledgement that the authority wrote
    earlier in its history. *)
Theorem retention_outlives_acknowledgement `{AdmissionServer} o policy_name firewall_name authority
    control_plane namespace h r :
  validate (Ok o) policy_name firewall_name authority control_plane namespace = Ok tt ->
  engine_reads (authority_rules authority) ->
  life o "clusterleases" h (request_old_object r) ->
  authority_request r = true -> request_resource r = "clusterleases" ->
  admits (authority_policy o) (authority_binding o) r = true -> request_operation r = "UPDATE" ->
  retains (request_old_object r) = true -> retains (request_object r) = false ->
  exists v, status_field (request_object r) "teardownAcknowledgement" = Some v /\
            written_by_authority authority h "teardownAcknowledgement" v.
Proof. intros Hv Hr. by apply (life_retention _ _ _ _ _ _ Hv Hr). Qed.

Lemma retention_outlives_acknowledgement_witness :
  exists v, status_field (request_object Demo.r5) "teardownAcknowledgement" = Some v /\
    written_by_authority Demo.authority [Demo.r1; Demo.r2; Demo.r3; Demo.r4] "teardownAcknowledgement" v.
Proof.
  refine (@retention_outlives_acknowledgement Demo.server Demo.objects _ _ Demo.authority _ _ _ Demo.r5
            Demo.valid Demo.reads_authority Demo.lived _ _ _ _ _ _); vm_compute; reflexivity.
Defined.

(** The authority attests and does nothing else: it writes leases and
    instances through their status only and leaves binding, cluster name,
    phase, lease reference and connect-token attempt as they are; and no one
    else touches the evidence records. *)
Theorem authority_only_attests `{AdmissionServer} o policy_name firewall_name authority
    control_plane namespace r :
  validate (Ok o) policy_name firewall_name authority control_plane namespace = Ok tt ->
  engine_reads (authority_rules authority) -> authority_request r = true ->
  admits (authority_policy o) (authority_binding o) r = true ->
  (request_resource r = "verifiedteardownevidence" -> request_user r = authority) /\
  (request_user r = authority ->
   request_resource r = "clusterleases" \/ request_resource r = "clusterinstances" ->
   request_subresource r = "status" /\
   (request_operation r <> "DELETE" ->
    forall f, lifecycle_field (request_resource r) f = true -> field_unchanged r f)).
Proof.
  intros Hv Hr Hreq Hadm.
  pose proof (fun e => authority_rules_hold _ _ _ _ _ _ Hv Hr r e Hreq Hadm) as Hh. split.
  - intros Hres. destruct (proj1 (holds_or _ _ _) (Hh (evidence_rule authority) (or_introl eq_refl))) as [Hx|Hx].
    + by apply holds_other_resource in Hx.
    + by apply holds_user in Hx.
  - intros Hu Hres. split.
    + destruct (holds_or3 _ _ _ _ (Hh (status_only_rule authority) (or_intror (or_introl eq_refl))))
        as [Hx|[Hx|Hx]].
      * by apply holds_not_user in Hx.
      * unfold holds in Hx. cbn in Hx. by destruct Hres as [E|E]; rewrite E in Hx.
      * apply part_is. rewrite <- ceval_subresource. exact Hx.
    + intros Hop f Hf. by apply (authority_keeps_lifecycle_fields _ _ _ _ _ _ Hv Hr).
Qed.

Lemma holds_in r l :
  holds (EIn e_resource (EStrs l)) (request_env r) -> In (request_resource r) l.
Proof.
  unfold holds. cbn. intros [= E]. apply existsb_exists in E as (x & Hin & E).
  apply in_map_iff in Hin as (s & <- & Hin). cbn in E. by apply String.eqb_eq in E as ->.
Qed.

(** The control plane is kept out of the authority's namespace: behind a
    validated firewall no request of the control plane's identity that the
    firewall watches is let pass into the namespace that holds the authority's
    service account (so it cannot mint its token, read its secrets or enter
    its pods), nor on that namespace itself, nor on cluster-wide roles. *)
Theorem control_plane_kept_out `{AdmissionServer} o policy_name firewall_name authority
    control_plane namespace r :
  validate (Ok o) policy_name firewall_name authority control_plane namespace = Ok tt ->
  engine_reads (firewall_rules control_plane namespace) ->
  firewall_request r = true -> request_user r = control_plane ->
  admits (firewall_policy o) (firewall_binding o) r = true ->
  (exists name, service_account_identity authority = Some (namespace, name)) /\
  (request_namespace r = namespace ->
   In (request_resource r) ["namespaces"; "clusterroles"; "clusterrolebindings"]) /\
  (request_resource r = "namespaces" -> request_name r <> namespace) /\
  (request_group r = "rbac.authorization.k8s.io" ->
   ~ In (request_resource r) ["clusterroles"; "clusterrolebindings"]).
Proof.
  intros Hv Hr Hreq Hu Hadm.
  pose proof (fun e => firewall_rules_hold _ _ _ _ _ _ Hv Hr r e Hreq Hadm) as Hh. split_and!.
  - destruct (validated_parts _ _ _ _ _ _ Hv) as (Hc & _). unfold validate_identity_contract in Hc.
    apply deny_if_Ok in Hc. rewrite !orb_false_iff in Hc. destruct_and!.
    destruct (service_account_identity authority) as [[ns n]|]; [|done].
    bool_props. subst. eauto.
  - intros Hns. destruct (holds_or3 _ _ _ _ (Hh _ (or_introl eq_refl))) as [Hx|[Hx|Hx]].
    + by apply holds_not_user in Hx.
    + by apply holds_in in Hx.
    + exfalso. revert Hns. apply part_is_not. rewrite <- ceval_namespace. by apply cnot_true.
  - intros Hres. destruct (holds_or3 _ _ _ _ (Hh _ (or_intror (or_introl eq_refl)))) as [Hx|[Hx|Hx]].
    + by apply holds_not_user in Hx.
    + by apply holds_other_resource in Hx.
    + apply part_is_not. rewrite <- ceval_name. by apply cnot_true.
  - intros Hg Hin.
    destruct (holds_or3 _ _ _ _ (Hh _ (or_intror (or_intror (or_introl eq_refl))))) as [Hx|[Hx|Hx]].
    + by apply holds_not_user in Hx.
    + unfold holds in Hx. cbn in Hx. by rewrite Hg in Hx.
    + apply cnot_true in Hx. cbn in Hin, Hx. by destruct Hin as [E|[E|[]]]; rewrite <- E in Hx.
Qed.

Lemma control_plane_kept_out_witness :
  let r := {| request_user := Demo.control_plane; request_operation := "CREATE"; request_group := "";
              request_version := "v1"; request_resource := "serviceaccounts";
              request_subresource := "token"; request_namespace := "kobe"; request_name := "operator";
              request_object := Some VNull; request_old_object := None |} in
  @admits Demo.server (firewall_policy Demo.objects) (firewall_binding Demo.objects) r = true /\
  (request_namespace r = Demo.namespace ->
   In (request_resource r) ["namespaces"; "clusterroles"; "clusterrolebindings"]).
Proof.
  intros r. assert (@admits Demo.server (firewall_policy Demo.objects) (firewall_binding Demo.objects) r = true)
    as Hadm by (vm_compute; reflexivity).
  split; [exact Hadm|].
  refine (proj1 (proj2 (@control_plane_kept_out Demo.server Demo.objects _ _ _ _ _ r Demo.valid
            Demo.reads_firewall _ _ Hadm))); vm_compute; reflexivity.
Defined.
