(* ===== verification/Claims.v ===== *)
(** * The management SandboxClaim and its release tombstone

    The functions of src/controllers/sandbox.rs that read and write the one
    upstream Claim of a management-placed lease: the shape it is created with,
    the migration of an older one, the shutdown stamp of a Ready lease, the
    conversion into an expired [Retain] tombstone that keeps its name occupied,
    and the sweep that frees the name after its retention.  Every function
    sends at most one write; it is returned as data ([claim_write]) and applied
    by the server of [ClaimProtocol]. *)

From S2P Require Import Prelude Text Quarantine Durations SandboxObjects SandboxLifecycle LedgerApi AccessLedger AdmissionApi Admission.

Local Open Scope kobe_scope.

(** ** Objects *)

Record Owner : Type := {
  ow_api_version : string;
  ow_kind : string;
  ow_name : string;
  ow_uid : string;
  ow_controller : option bool;
}.
#[global] Instance Owner_eq_dec : EqDecision Owner. Proof. solve_decision. Defined.

(** A [SandboxClaim]; absent maps read as empty ones, and of the spec the
    fields a JSON pointer of the code reads as strings. *)
Record Claim : Type := {
  cl_name : string;
  cl_namespace : option string;
  cl_uid : option string;
  cl_resource_version : option string;
  cl_deletion_timestamp : option string;
  cl_owner_references : option (list Owner);
  cl_finalizers : option (list string);
  cl_labels : gmap string string;
  cl_annotations : gmap string string;
  cl_warm_pool : option string;
  cl_shutdown_time : option string;
  cl_shutdown_policy : option string;
}.
#[global] Instance Claim_eq_dec : EqDecision Claim. Proof. solve_decision. Defined.

(** The operations of the JSON patches on a Claim. *)
Inductive claim_op : Type :=
| CTestUid (uid : string)
| CTestVersion (rv : string)
| CTestFinalizers (l : list string)
| CSetOwners (l : list Owner)
| CSetAnnotations (m : gmap string string)
| CSetLabels (m : gmap string string)
| CSetFinalizers (l : list string)
| CSetLifecycle (shutdown_time shutdown_policy : string).

Inductive claim_write : Type :=
| ClaimCreate (c : Claim)
| ClaimPatch (name : string) (ops : list claim_op)
| ClaimMerge (name rv shutdown_time shutdown_policy : string)
| ClaimDelete (name uid rv : string).

Definition with_owners (c : Claim) (l : list Owner) : Claim :=
  {| cl_name := cl_name c; cl_namespace := cl_namespace c; cl_uid := cl_uid c;
     cl_resource_version := cl_resource_version c; cl_deletion_timestamp := cl_deletion_timestamp c;
     cl_owner_references := Some l; cl_finalizers := cl_finalizers c; cl_labels := cl_labels c;
     cl_annotations := cl_annotations c; cl_warm_pool := cl_warm_pool c;
     cl_shutdown_time := cl_shutdown_time c; cl_shutdown_policy := cl_shutdown_policy c |}.
Definition with_claim_annotations (c : Claim) (m : gmap string string) : Claim :=
  {| cl_name := cl_name c; cl_namespace := cl_namespace c; cl_uid := cl_uid c;
     cl_resource_version := cl_resource_version c; cl_deletion_timestamp := cl_deletion_timestamp c;
     cl_owner_references := cl_owner_references c; cl_finalizers := cl_finalizers c; cl_labels := cl_labels c;
     cl_annotations := m; cl_warm_pool := cl_warm_pool c;
     cl_shutdown_time := cl_shutdown_time c; cl_shutdown_policy := cl_shutdown_policy c |}.
Definition with_claim_labels (c : Claim) (m : gmap string string) : Claim :=
  {| cl_name := cl_name c; cl_namespace := cl_namespace c; cl_uid := cl_uid c;
     cl_resource_version := cl_resource_version c; cl_deletion_timestamp := cl_deletion_timestamp c;
     cl_owner_references := cl_owner_references c; cl_finalizers := cl_finalizers c; cl_labels := m;
     cl_annotations := cl_annotations c; cl_warm_pool := cl_warm_pool c;
     cl_shutdown_time := cl_shutdown_time c; cl_shutdown_policy := cl_shutdown_policy c |}.
Definition with_claim_finalizers (c : Claim) (l : list string) : Claim :=
  {| cl_name := cl_name c; cl_namespace := cl_namespace c; cl_uid := cl_uid c;
     cl_resource_version := cl_resource_version c; cl_deletion_timestamp := cl_deletion_timestamp c;
     cl_owner_references := cl_owner_references c; cl_finalizers := Some l; cl_labels := cl_labels c;
     cl_annotations := cl_annotations c; cl_warm_pool := cl_warm_pool c;
     cl_shutdown_time := cl_shutdown_time c; cl_shutdown_policy := cl_shutdown_policy c |}.
Definition with_lifecycle (c : Claim) (time policy : string) : Claim :=
  {| cl_name := cl_name c; cl_namespace := cl_namespace c; cl_uid := cl_uid c;
     cl_resource_version := cl_resource_version c; cl_deletion_timestamp := cl_deletion_timestamp c;
     cl_owner_references := cl_owner_references c; cl_finalizers := cl_finalizers c; cl_labels := cl_labels c;
     cl_annotations := cl_annotations c; cl_warm_pool := cl_warm_pool c;
     cl_shutdown_time := Some time; cl_shutdown_policy := Some policy |}.

(** ** Names *)

Definition claim_name (lease : string) : string := "kobe-" +:+ lease.
Definition warm_pool_name (pool : string) : string := "kobe-" +:+ pool.

Definition SANDBOX_CLAIM_KIND : string := "SandboxClaim".
Definition SANDBOX_LEASE_KIND : string := "SandboxLease".
Definition KOBE_MANAGED_BY : string := "kobe-operator".
Definition MANAGED_BY_LABEL : string := "app.kubernetes.io/managed-by".
Definition SANDBOX_LEASE_UID_LABEL : string := "kobe.kunobi.ninja/sandbox-lease-uid".
Definition SANDBOX_CLAIM_CLEANUP_FINALIZER : string := "kobe.kunobi.ninja/sandbox-claim-cleanup".
Definition SANDBOX_CLAIM_TOMBSTONE_RETAIN_UNTIL_ANNOTATION : string := "kobe.kunobi.ninja/tombstone-retain-until".
Definition SANDBOX_CLAIM_TOMBSTONE_PRIOR_UID_LABEL : string := "kobe.kunobi.ninja/prior-sandbox-claim-uid".
Definition SANDBOX_CLAIM_TOMBSTONE_LABEL : string := "kobe.kunobi.ninja/sandbox-claim-tombstone".
Definition SANDBOX_ALLOCATION_FENCE_LEASE_NAME_ANNOTATION : string := "kobe.kunobi.ninja/sandbox-lease-name".
Definition SANDBOX_CLAIM_CREATE_TIMEOUT : Z := seconds 30.
Definition SANDBOX_CLAIM_TOMBSTONE_MARGIN : Z := minutes 5.

Inductive PlacementError : Type :=
| PlacementKubernetes (e : kube_error)
| PlacementInvalid (what : string)
| MissingClaimVersion.

Section Claims.
(** RFC 3339 times ([to_rfc3339] and [to_rfc3339_opts(AutoSi, true)]), the
    configured retention of a lease and the operator's namespace. *)
Context (parse_rfc3339 : string -> option Z) (to_rfc3339 to_rfc3339_z : Z -> string).
Context (configured_retention : option string) (ns : string).

(** ** Shapes *)

Definition lease_uid (lease : ParentLease) : option string :=
  match pl_uid lease with Some uid => if String.eqb uid "" then None else Some uid | None => None end.

Definition claim_uid (c : Claim) : option string :=
  match cl_uid c with Some uid => if String.eqb uid "" then None else Some uid | None => None end.

Definition sandbox_retention_deadline (now : Z) : Z :=
  now + sandbox_lease_retention configured_retention + SANDBOX_CLAIM_CREATE_TIMEOUT + SANDBOX_CLAIM_TOMBSTONE_MARGIN.

Definition metadata_has_no_owner_references (owners : option (list Owner)) : bool :=
  match owners with None | Some [] => true | _ => false end.

Definition has_label (c : Claim) (k v : string) : bool := str_opt_eqb (cl_labels c !! k) (Some v).

Definition claim_is_for_lease (c : Claim) (uid : string) : bool :=
  has_label c SANDBOX_LEASE_UID_LABEL uid && has_label c MANAGED_BY_LABEL KOBE_MANAGED_BY.

Definition claim_reference_has_expected_shape (r : SandboxObjectReference) (namespace name : string) : bool :=
  String.eqb (oref_api_version r) AGENT_SANDBOX_API_VERSION && String.eqb (oref_kind r) SANDBOX_CLAIM_KIND
  && str_opt_eqb (oref_namespace r) (Some namespace) && String.eqb (oref_name r) name
  && negb (String.eqb (oref_uid r) "").

Definition exact_legacy_claim_owner (lease : ParentLease) (c : Claim) : bool :=
  match lease_uid lease, cl_owner_references c with
  | Some uid, Some [o] =>
      String.eqb (ow_api_version o) KOBE_API_VERSION && String.eqb (ow_kind o) SANDBOX_LEASE_KIND
      && String.eqb (ow_name o) (pl_name lease) && String.eqb (ow_uid o) uid
      && bool_decide (ow_controller o = Some true)
  | _, _ => false
  end.

Definition claim_matches_release_shape (c : Claim) (uid expected_warm_pool : string) : bool :=
  claim_is_for_lease c uid && str_opt_eqb (cl_warm_pool c) (Some expected_warm_pool).

Definition sandbox_claim_cleanup_finalizer_present (c : Claim) : bool :=
  existsb (String.eqb SANDBOX_CLAIM_CLEANUP_FINALIZER) (default [] (cl_finalizers c)).

Definition retain_until (c : Claim) : option Z :=
  cl_annotations c !! SANDBOX_CLAIM_TOMBSTONE_RETAIN_UNTIL_ANNOTATION ≫= parse_rfc3339.

Definition claim_is_expired_retain_tombstone (c : Claim) (now : Z) : bool :=
  let retain := str_opt_eqb (cl_shutdown_policy c) (Some "Retain") in
  let expired := match cl_shutdown_time c ≫= parse_rfc3339 with Some t => t <=? now | None => false end in
  let retained := match retain_until c with Some t => now <? t | None => false end in
  let labelled := has_label c SANDBOX_CLAIM_TOMBSTONE_LABEL "true" in
  retain && expired && retained && labelled && sandbox_claim_cleanup_finalizer_present c
  && metadata_has_no_owner_references (cl_owner_references c).

Definition provisioning_bound (lease : ParentLease) : option Z :=
  t ← (pl_status lease ≫= ls_provisioning_deadline) ≫= parse_rfc3339;
  Some (t + SANDBOX_CLAIM_TOMBSTONE_MARGIN).

Definition claim_tombstone_covers_provisioning_deadline (c : Claim) (lease : ParentLease) : bool :=
  match provisioning_bound lease, retain_until c with
  | Some required, Some retained => required <=? retained
  | _, _ => false
  end.

Definition new_claim_tombstone_deadline (lease : ParentLease) (now : Z) : Z :=
  match provisioning_bound lease with
  | Some deadline => Z.max (sandbox_retention_deadline now) deadline
  | None => sandbox_retention_deadline now
  end.

Definition sandbox_claim_has_tombstone_shape (c : Claim) : bool :=
  has_label c SANDBOX_CLAIM_TOMBSTONE_LABEL "true"
  || is_some (cl_annotations c !! SANDBOX_CLAIM_TOMBSTONE_RETAIN_UNTIL_ANNOTATION)
  || str_opt_eqb (cl_shutdown_policy c) (Some "Retain").

(** ** Creating *)

Definition build_sandbox_claim (name namespace warm_pool uid : string) (provisioning_deadline : Z)
    (hold_for_explicit_cleanup : bool) (owner : option Owner) : Claim :=
  {| cl_name := name; cl_namespace := Some namespace; cl_uid := None; cl_resource_version := None;
     cl_deletion_timestamp := None;
     cl_owner_references := (fun o => [o]) <$> owner;
     cl_finalizers := if hold_for_explicit_cleanup then Some [SANDBOX_CLAIM_CLEANUP_FINALIZER] else None;
     cl_labels := <[SANDBOX_LEASE_UID_LABEL := uid]> {[MANAGED_BY_LABEL := KOBE_MANAGED_BY]};
     cl_annotations := ∅; cl_warm_pool := Some warm_pool;
     cl_shutdown_time := Some (to_rfc3339_z provisioning_deadline);
     cl_shutdown_policy := Some "DeleteForeground" |}.

Definition tombstone_labels (prior : option string) (labels : gmap string string) : gmap string string :=
  let labels := <[SANDBOX_CLAIM_TOMBSTONE_LABEL := "true"]> labels in
  match prior with Some uid => <[SANDBOX_CLAIM_TOMBSTONE_PRIOR_UID_LABEL := uid]> labels | None => labels end.

Definition tombstone_annotations (lease : ParentLease) (now : Z) (annotations : gmap string string)
    : gmap string string :=
  <[SANDBOX_ALLOCATION_FENCE_LEASE_NAME_ANNOTATION := pl_name lease]>
    (<[SANDBOX_CLAIM_TOMBSTONE_RETAIN_UNTIL_ANNOTATION := to_rfc3339 (new_claim_tombstone_deadline lease now)]>
       annotations).

Definition build_management_claim_tombstone (lease : ParentLease) (prior : option string) (now : Z)
    : result Claim PlacementError :=
  let? uid := ok_or (lease_uid lease) (PlacementInvalid "no UID to fence its release tombstone") in
  let claim := build_sandbox_claim (claim_name (pl_name lease)) ns
                 (warm_pool_name (pool_ref_name (ps_pool_ref (pl_spec lease)))) uid now true None in
  let claim := with_lifecycle claim (to_rfc3339 now) "Retain" in
  let claim := with_claim_annotations claim (tombstone_annotations lease now (cl_annotations claim)) in
  Ok (with_claim_labels claim (tombstone_labels prior (cl_labels claim))).

(** ** Converting *)

Definition patch_management_claim_tombstone (c : Claim) (lease : ParentLease) (prior : option string) (now : Z)
    : result claim_write PlacementError :=
  let? uid := ok_or (claim_uid c) (PlacementInvalid "no UID for its tombstone fence") in
  let? rv := ok_or (cl_resource_version c) (PlacementInvalid "no resourceVersion for its tombstone fence") in
  let finalizers := default [] (cl_finalizers c) in
  let retained := if existsb (String.eqb SANDBOX_CLAIM_CLEANUP_FINALIZER) finalizers then finalizers
                  else finalizers ++ [SANDBOX_CLAIM_CLEANUP_FINALIZER] in
  Ok (ClaimPatch (cl_name c)
    [CTestUid uid; CTestVersion rv; CSetOwners []; CSetAnnotations (tombstone_annotations lease now (cl_annotations c));
     CSetLabels (tombstone_labels prior (cl_labels c)); CSetFinalizers retained;
     CSetLifecycle (to_rfc3339 now) "Retain"]).

(** ** Migrating *)

(** The lifecycle to install, or [None] when the present one is safe. *)
Definition management_claim_lifecycle_patch (c : Claim) (lease : ParentLease)
    : result (option (string * string)) PlacementError :=
  let? status := ok_or (pl_status lease) (PlacementInvalid "no status for Claim lifecycle migration") in
  let current := cl_shutdown_time c in
  let parsed := current ≫= parse_rfc3339 in
  let foreground := str_opt_eqb (cl_shutdown_policy c) (Some "DeleteForeground") in
  let install (desired : option string) :=
    match desired with
    | Some value =>
        if is_some (parse_rfc3339 value) then Ok (Some (value, "DeleteForeground"))
        else Err (PlacementInvalid "no parseable deadline for Claim lifecycle migration")
    | None => Err (PlacementInvalid "no parseable deadline for Claim lifecycle migration")
    end in
  if is_some (ls_ready_at status) then
    if is_some parsed && foreground then Ok None
    else install (if is_some parsed then current else ls_expires_at status)
  else
    let deadline := ls_provisioning_deadline status in
    let already_exact :=
      foreground && match deadline ≫= parse_rfc3339, parsed with
                    | Some expected, Some current => expected =? current
                    | _, _ => false
                    end in
    if already_exact then Ok None else install deadline.

Inductive ManagementClaimFence : Type :=
| FenceReady
| FenceForeign
| FencePatched (w : claim_write).

(** [ensure_management_claim_fenced]; [FencePatched] carries the patch it sends
    and answers whether it is applied or loses a race. *)
Definition ensure_management_claim_fenced (c : Claim) (lease : ParentLease)
    : result ManagementClaimFence PlacementError :=
  match lease_uid lease with
  | None => Ok FenceForeign
  | Some uid =>
      let ownerless := metadata_has_no_owner_references (cl_owner_references c) in
      let legacy := exact_legacy_claim_owner lease c in
      let finalized := sandbox_claim_cleanup_finalizer_present c in
      if negb (String.eqb (cl_name c) (claim_name (pl_name lease)))
         || negb (str_opt_eqb (cl_namespace c) (Some ns))
         || is_some (cl_deletion_timestamp c) || sandbox_claim_has_tombstone_shape c
         || negb (ownerless || legacy)
         || negb (claim_matches_release_shape c uid (warm_pool_name (pool_ref_name (ps_pool_ref (pl_spec lease)))))
      then Ok FenceForeign
      else
        let? lifecycle := if legacy || negb finalized then management_claim_lifecycle_patch c lease else Ok None in
        if ownerless && finalized && is_none lifecycle then Ok FenceReady
        else
          let? cuid := ok_or (claim_uid c) (PlacementInvalid "no UID for cleanup-fence migration") in
          let? rv := ok_or (cl_resource_version c) (PlacementInvalid "no resourceVersion for cleanup-fence migration") in
          let finalizers := default [] (cl_finalizers c) in
          let finalizers := if finalized then finalizers else finalizers ++ [SANDBOX_CLAIM_CLEANUP_FINALIZER] in
          Ok (FencePatched (ClaimPatch (cl_name c)
            ([CTestUid cuid; CTestVersion rv; CSetOwners []; CSetFinalizers finalizers]
             ++ match lifecycle with Some (time, policy) => [CSetLifecycle time policy] | None => [] end)))
  end.

Definition stamp_upstream_shutdown (name rv : string) (at_ : Z) : result claim_write PlacementError :=
  if negb (nonblank rv) then Err MissingClaimVersion
  else Ok (ClaimMerge name rv (to_rfc3339_z at_) "DeleteForeground").

(** What the pass of [reconcile_lease] over a placed lease writes to the Claim
    it has read: the migration, or the shutdown stamp.  [checks] is the answer of
    what lies between them, the provenance of the Sandbox and its readiness. *)
Definition stamp_ready_claim (c : Claim) (lease : ParentLease) (checks : result unit PlacementError) (at_ : Z)
    : result (option claim_write) PlacementError :=
  let? fenced := ensure_management_claim_fenced c lease in
  match fenced with
  | FenceReady =>
      let? _ := checks in
      let? w := stamp_upstream_shutdown (claim_name (pl_name lease)) (default "" (cl_resource_version c)) at_ in
      Ok (Some w)
  | FencePatched w => Ok (Some w)
  | FenceForeign => Err (PlacementInvalid "unverifiable cleanup ownership")
  end.

(** ** The tombstone *)

Definition target_reference (c : Claim) : result SandboxObjectReference PlacementError :=
  let? uid := ok_or (claim_uid c) (PlacementInvalid "no UID to record as Sandbox provenance") in
  Ok {| oref_api_version := AGENT_SANDBOX_API_VERSION; oref_kind := SANDBOX_CLAIM_KIND; oref_namespace := Some ns;
        oref_name := cl_name c; oref_uid := uid; oref_generation := None |}.

Inductive ManagementClaimTombstone : Type :=
| TombstoneCheckpointed
| TombstoneReady (claim : Claim) (tombstone_ref : SandboxObjectReference) (prior_claim_uid : option string)
| TombstoneRetry (secs : Z)
| TombstoneQuarantine (reason : QuarantineReason).

(** What [ensure_management_claim_tombstone] does after its GET: an answer, or
    one write, of which the answer follows. *)
Inductive TombstonePlan : Type :=
| PlanAnswer (r : result ManagementClaimTombstone PlacementError)
| PlanCreate (c : Claim)
| PlanMigrate (w : claim_write)
| PlanCheckpoint (reference : SandboxObjectReference)
| PlanConvert (w : claim_write).

Definition tombstone_plan (lease : ParentLease) (observed : result Claim kube_error) (now : Z) : TombstonePlan :=
  let status := default default_sandbox_status (pl_status lease) in
  let name := claim_name (pl_name lease) in
  let prior := ls_target status ≫= tp_sandbox_claim in
  let recorded := td_sandbox_claim_tombstone (ls_teardown status) in
  let misshapen (r : option SandboxObjectReference) :=
    match r with Some r => negb (claim_reference_has_expected_shape r ns name) | None => false end in
  let quarantine reason := PlanAnswer (Ok (TombstoneQuarantine reason)) in
  match lease_uid lease with
  | None => PlanAnswer (Err (PlacementInvalid "no UID to fence management cleanup"))
  | Some uid =>
      if misshapen prior then quarantine ClaimProvenanceInvalid
      else if misshapen recorded then quarantine ClaimTombstoneProvenanceInvalid
      else
        match observed with
        | Err (Api code _ as e) =>
            if code =? 404 then
              if is_some recorded then quarantine ClaimTombstoneMissing
              else match build_management_claim_tombstone lease (oref_uid <$> prior) now with
                   | Ok tombstone => PlanCreate tombstone
                   | Err e => PlanAnswer (Err e)
                   end
            else if (code =? 401) || (code =? 403) then quarantine ClaimTombstoneUnverifiable
            else PlanAnswer (Err (PlacementKubernetes e))
        | Err e => PlanAnswer (Err (PlacementKubernetes e))
        | Ok c =>
            if is_some (cl_deletion_timestamp c) && negb (sandbox_claim_cleanup_finalizer_present c)
            then quarantine ClaimTombstoneDeletingWithoutCleanupFence
            else if negb (claim_matches_release_shape c uid (warm_pool_name (pool_ref_name (ps_pool_ref (pl_spec lease)))))
            then quarantine ClaimTombstoneIdentityUnverifiable
            else if match recorded with Some r => negb (str_opt_eqb (cl_uid c) (Some (oref_uid r))) | None => false end
            then quarantine ClaimTombstoneIdentityChanged
            else if negb (metadata_has_no_owner_references (cl_owner_references c)) && negb (exact_legacy_claim_owner lease c)
            then quarantine ClaimOwnerrefLegacyUnverifiable
            else
              let converting :=
                match target_reference c with
                | Err e => PlanAnswer (Err e)
                | Ok reference =>
                    match recorded with
                    | None => PlanCheckpoint reference
                    | Some tombstone_ref =>
                        if negb (claim_is_expired_retain_tombstone c now)
                           || negb (claim_tombstone_covers_provisioning_deadline c lease)
                        then match patch_management_claim_tombstone c lease (oref_uid <$> prior) now with
                             | Ok w => PlanConvert w
                             | Err e => PlanAnswer (Err e)
                             end
                        else PlanAnswer (Ok (TombstoneReady c tombstone_ref (oref_uid <$> prior)))
                    end
                end in
              if negb (sandbox_claim_has_tombstone_shape c) && is_none (cl_deletion_timestamp c) then
                match ensure_management_claim_fenced c lease with
                | Err e => PlanAnswer (Err e)
                | Ok FenceReady => converting
                | Ok (FencePatched w) => PlanMigrate w
                | Ok FenceForeign => quarantine ClaimOwnerrefLegacyUnverifiable
                end
              else converting
        end
  end.

(** The answer of [ensure_management_claim_tombstone] once its write was
    answered; [None] is a CREATE that timed out, and a patch that lost an
    optimistic race counts as sent. *)
Definition tombstone_answer (plan : TombstonePlan) (answered : option (result unit kube_error))
    : result ManagementClaimTombstone PlacementError :=
  let sent (done : ManagementClaimTombstone) :=
    match answered with
    | Some (Err e) => if optimistic_conflict e then Ok done else Err (PlacementKubernetes e)
    | _ => Ok done
    end in
  match plan with
  | PlanAnswer r => r
  | PlanCreate _ =>
      match answered with
      | Some (Ok _) => Ok (TombstoneRetry 1)
      | Some (Err e) => if is_409 e then Ok (TombstoneRetry 1) else Err (PlacementKubernetes e)
      | None => Ok (TombstoneRetry 10)
      end
  | PlanMigrate _ => sent (TombstoneRetry 1)
  | PlanCheckpoint _ => sent TombstoneCheckpointed
  | PlanConvert _ => sent (TombstoneRetry 1)
  end.

(** The write a plan sends to the Claim. *)
Definition plan_write (plan : TombstonePlan) : option claim_write :=
  match plan with
  | PlanCreate c => Some (ClaimCreate c)
  | PlanMigrate w | PlanConvert w => Some w
  | PlanAnswer _ | PlanCheckpoint _ => None
  end.

(** ** Sweeping *)

Definition retention_deadline_elapsed (annotations : gmap string string) (key : string) (now : Z) : bool :=
  match annotations !! key ≫= parse_rfc3339 with Some deadline => deadline <=? now | None => false end.

Definition filled (s : option string) : option string :=
  match s with Some v => if String.eqb v "" then None else Some v | None => None end.

(** Which outer lease (name, UID) a listed tombstone waits for, when its
    retention is over; [None] for a Claim the sweep skips. *)
Definition sweep_candidate (c : Claim) (now : Z) : option (string * string) :=
  outer_uid ← filled (cl_labels c !! SANDBOX_LEASE_UID_LABEL);
  outer_name ← filled (cl_annotations c !! SANDBOX_ALLOCATION_FENCE_LEASE_NAME_ANNOTATION);
  if negb (metadata_has_no_owner_references (cl_owner_references c))
     || negb (String.eqb (cl_name c) (claim_name outer_name))
     || negb (str_opt_eqb (cl_namespace c) (Some ns))
     || negb (has_label c MANAGED_BY_LABEL KOBE_MANAGED_BY)
     || negb (retention_deadline_elapsed (cl_annotations c) SANDBOX_CLAIM_TOMBSTONE_RETAIN_UNTIL_ANNOTATION now)
     || negb (str_opt_eqb (cl_shutdown_policy c) (Some "Retain"))
     || match cl_shutdown_time c ≫= parse_rfc3339 with Some t => now <? t | None => true end
  then None else Some (outer_name, outer_uid).

(** [exact_outer_lease_still_exists], from the answer to its GET. *)
Definition exact_outer_lease_still_exists (uid : string) (read : result ParentLease kube_error)
    : result bool kube_error :=
  match read with
  | Ok lease => Ok (str_opt_eqb (pl_uid lease) (Some uid))
  | Err e => if is_404 e then Ok false else Err e
  end.

(** One listed Claim of [sweep_sandbox_allocation_tombstones]: the write it
    sends, if any, given the answer to the GET of the outer lease. *)
Definition sweep_claim (c : Claim) (now : Z) (read : result ParentLease kube_error) : option claim_write :=
  if negb (has_label c SANDBOX_CLAIM_TOMBSTONE_LABEL "true") then None
  else
    match sweep_candidate c now with
    | None => None
    | Some (_, outer_uid) =>
        match exact_outer_lease_still_exists outer_uid read with
        | Ok false =>
            match cl_uid c, cl_resource_version c with
            | Some uid, Some rv =>
                let finalizers := default [] (cl_finalizers c) in
                if existsb (String.eqb SANDBOX_CLAIM_CLEANUP_FINALIZER) finalizers
                then Some (ClaimPatch (cl_name c)
                  [CTestUid uid; CTestVersion rv; CTestFinalizers finalizers;
                   CSetFinalizers (List.filter (fun f => negb (String.eqb f SANDBOX_CLAIM_CLEANUP_FINALIZER)) finalizers)])
                else Some (ClaimDelete (cl_name c) uid rv)
            | _, _ => None
            end
        | _ => None
        end
    end.
End Claims.
