(* ===== verification/ClaimProtocol.v ===== *)
(** * One Claim name under all its writers

    The Claim of [Claims] on the API server, and everything that writes it:
    creates of any age, the migration, the shutdown stamp and the tombstone
    conversion of controllers that read it earlier, the retention sweep, and
    the rest of the cluster.  Requests travel for any time, are reordered and
    lost.  Once the name is held by an inert tombstone it stays held by that
    object until a sweep finds its retention over and its lease gone. *)

From S2P Require Import Prelude Text Durations SandboxObjects SandboxLifecycle LedgerApi AccessLedger AdmissionApi Admission Claims.

Local Open Scope kobe_scope.

(** ** The server *)

Definition apply_claim_op (c : Claim) (op : claim_op) : option Claim :=
  match op with
  | CTestUid uid => if str_opt_eqb (cl_uid c) (Some uid) then Some c else None
  | CTestVersion rv => if str_opt_eqb (cl_resource_version c) (Some rv) then Some c else None
  | CTestFinalizers l => if bool_decide (cl_finalizers c = Some l) then Some c else None
  | CSetOwners l => Some (with_owners c l)
  | CSetAnnotations m => Some (with_claim_annotations c m)
  | CSetLabels m => Some (with_claim_labels c m)
  | CSetFinalizers l => Some (with_claim_finalizers c l)
  | CSetLifecycle time policy => Some (with_lifecycle c time policy)
  end.

Fixpoint apply_claim_ops (ops : list claim_op) (c : Claim) : option Claim :=
  match ops with
  | [] => Some c
  | op :: ops => c ← apply_claim_op c op; apply_claim_ops ops c
  end.

Definition stamped (c : Claim) (uid rv deletion : option string) : Claim :=
  {| cl_name := cl_name c; cl_namespace := cl_namespace c; cl_uid := uid; cl_resource_version := rv;
     cl_deletion_timestamp := deletion; cl_owner_references := cl_owner_references c;
     cl_finalizers := cl_finalizers c; cl_labels := cl_labels c; cl_annotations := cl_annotations c;
     cl_warm_pool := cl_warm_pool c; cl_shutdown_time := cl_shutdown_time c;
     cl_shutdown_policy := cl_shutdown_policy c |}.

(** Store an updated object: unchanged content keeps its version, and a
    deleting object goes with its last finalizer. *)
Definition store_claim (old new : Claim) (rv : string) : option Claim :=
  if bool_decide (new = old) then Some old
  else if is_some (cl_deletion_timestamp new) && match default [] (cl_finalizers new) with [] => true | _ => false end
  then None else Some (stamped new (cl_uid new) (Some rv) (cl_deletion_timestamp new)).

(** The object after a write, [None] when the write is refused; [uid], [rv] and
    [at_] are what the server stamps. *)
Definition apply_write (held : option Claim) (x : claim_write) (uid rv at_ : string) : option (option Claim) :=
  match x, held with
  | ClaimCreate c, None => Some (Some (stamped c (Some uid) (Some rv) None))
  | ClaimCreate _, Some _ => None
  | ClaimPatch name ops, Some h =>
      if String.eqb name (cl_name h) then n ← apply_claim_ops ops h; Some (store_claim h n rv) else None
  | ClaimMerge name v time policy, Some h =>
      if String.eqb name (cl_name h) && str_opt_eqb (cl_resource_version h) (Some v)
      then Some (store_claim h (with_lifecycle h time policy) rv) else None
  | ClaimDelete name u v, Some h =>
      if String.eqb name (cl_name h) && str_opt_eqb (cl_uid h) (Some u) && str_opt_eqb (cl_resource_version h) (Some v)
      then Some (match default [] (cl_finalizers h) with
                 | [] => None
                 | _ => Some (stamped h (cl_uid h) (Some rv) (Some (default at_ (cl_deletion_timestamp h))))
                 end)
      else None
  | _, None => None
  end.

(** ** The world *)

(** [versions]: every version the server ever stored under the name; [wire]:
    writes that were sent and may arrive any number of times; [absent]: UIDs of
    outer leases some read of a sweep found gone. *)
Record World : Type := {
  held : option Claim;
  versions : list Claim;
  wire : list claim_write;
  clock : Z;
  absent : list string;
}.

Section Protocol.
Context (parse_rfc3339 : string -> option Z) (to_rfc3339 to_rfc3339_z : Z -> string) (representable : Z -> bool).
Context (configured_retention : option string) (ns : string).

(** The Claim keeps the name occupied and runs nothing: expired, retained,
    labelled, ownerless and under Kobe's finalizer. *)
Definition inert (c : Claim) (now : Z) : bool :=
  str_opt_eqb (cl_shutdown_policy c) (Some "Retain")
  && match cl_shutdown_time c ≫= parse_rfc3339 with Some t => t <=? now | None => false end
  && is_some (retain_until parse_rfc3339 c)
  && has_label c SANDBOX_CLAIM_TOMBSTONE_LABEL "true"
  && sandbox_claim_cleanup_finalizer_present c
  && metadata_has_no_owner_references (cl_owner_references c).

(** What the rest of the cluster may do to a tombstone: mark it deleted, change
    its status or other finalizers; its metadata and lifecycle stay. *)
Definition leaves_claim_alone (c c' : Claim) : Prop :=
  cl_uid c' = cl_uid c /\ cl_name c' = cl_name c /\ cl_owner_references c' = cl_owner_references c /\
  cl_labels c' = cl_labels c /\ cl_annotations c' = cl_annotations c /\
  cl_shutdown_time c' = cl_shutdown_time c /\ cl_shutdown_policy c' = cl_shutdown_policy c /\
  sandbox_claim_cleanup_finalizer_present c' = sandbox_claim_cleanup_finalizer_present c.

(** A write some controller sends, from what it read; an instant [chrono] cannot
    represent panics before anything is sent. *)
Inductive sends (w : World) : claim_write -> Prop :=
| sends_create c : sends w (ClaimCreate c)
| sends_plan c lease now x :
    In c (versions w) -> now <= clock w -> representable now = true ->
    representable (new_claim_tombstone_deadline parse_rfc3339 configured_retention lease now) = true ->
    plan_write (tombstone_plan parse_rfc3339 to_rfc3339 to_rfc3339_z configured_retention ns lease (Ok c) now) = Some x ->
    sends w x
| sends_migration c lease x :
    In c (versions w) -> ensure_management_claim_fenced parse_rfc3339 ns c lease = Ok (FencePatched x) -> sends w x
| sends_stamp c lease checks at_ x :
    In c (versions w) ->
    stamp_ready_claim parse_rfc3339 to_rfc3339_z ns c lease checks at_ = Ok (Some x) -> sends w x
| sends_sweep c now outer read x :
    In c (versions w) -> now <= clock w ->
    sweep_candidate parse_rfc3339 ns c now = Some outer ->
    exact_outer_lease_still_exists outer.2 read = Ok false -> In outer.2 (absent w) ->
    sweep_claim parse_rfc3339 ns c now read = Some x -> sends w x.

Definition fresh_version (w : World) (rv : string) : Prop :=
  forall c, In c (versions w) -> cl_resource_version c <> Some rv.

Definition log (o : option Claim) (l : list Claim) : list Claim :=
  match o with Some c => c :: l | None => l end.

Definition with_held (w : World) (o : option Claim) : World :=
  {| held := o; versions := log o (versions w); wire := wire w; clock := clock w; absent := absent w |}.

Inductive world_step (w : World) : World -> Prop :=
| step_tick t : clock w <= t ->
    world_step w {| held := held w; versions := versions w; wire := wire w; clock := t; absent := absent w |}
| step_absent uid :
    world_step w {| held := held w; versions := versions w; wire := wire w; clock := clock w; absent := uid :: absent w |}
| step_send x : sends w x ->
    world_step w {| held := held w; versions := versions w; wire := x :: wire w; clock := clock w; absent := absent w |}
| step_arrive x uid rv at_ o : In x (wire w) -> fresh_version w rv ->
    apply_write (held w) x uid rv at_ = Some o -> world_step w (with_held w o)
| step_others c c' rv : held w = Some c -> fresh_version w rv -> cl_resource_version c' = Some rv ->
    (forall t, inert c t = true -> leaves_claim_alone c c') -> world_step w (with_held w (Some c'))
| step_vanish c : held w = Some c -> (forall t, inert c t = false) -> world_step w (with_held w None).

Definition empty_world : World :=
  {| held := None; versions := []; wire := []; clock := 0; absent := [] |}.

(** A sweep was entitled to free the name: it read the tombstone after its
    retention, and found the outer lease it names gone. *)
Definition swept (w : World) (uid : option string) : Prop :=
  exists c now outer, In c (versions w) /\ cl_uid c = uid /\ now <= clock w /\
    sweep_candidate parse_rfc3339 ns c now = Some outer /\ In outer.2 (absent w).

(** ** Invariant *)

Record world_ok (w : World) : Prop := {
  ok_held : forall c, held w = Some c -> In c (versions w);
  ok_version : forall c, In c (versions w) -> is_some (cl_resource_version c) = true;
  ok_unique : forall c c', In c (versions w) -> In c' (versions w) ->
    cl_resource_version c = cl_resource_version c' -> c = c';
  ok_wire : forall x, In x (wire w) -> sends w x;
}.

Definition extends (w w' : World) : Prop :=
  (forall c, In c (versions w) -> In c (versions w')) /\ clock w <= clock w' /\
  (forall u, In u (absent w) -> In u (absent w')).

Lemma sends_extends w w' x : extends w w' -> sends w x -> sends w' x.
Proof.
  intros (Hv & Hc & Ha) Hs. inversion Hs; subst.
  - constructor.
  - apply (sends_plan _ c lease now); auto. lia.
  - apply (sends_migration _ c lease); auto.
  - apply (sends_stamp _ c lease checks at_); auto.
  - apply (sends_sweep _ c now outer read); auto. lia.
Qed.

Lemma swept_extends w w' uid : extends w w' -> swept w uid -> swept w' uid.
Proof.
  intros (Hv & Hc & Ha) (c & now & outer & H1 & H2 & H3 & H4 & H5). exists c, now, outer.
  repeat split; auto. lia.
Qed.

Lemma with_held_extends w o : extends w (with_held w o).
Proof. repeat split; cbn; [|lia|auto]. intros c Hc. destruct o; cbn; auto. Qed.

Lemma step_extends w w' : world_step w w' -> extends w w'.
Proof.
  destruct 1; try apply with_held_extends; repeat split; cbn; auto; try lia.
Qed.

(** A write stores a version it has just stamped, or the one it found. *)
Lemma apply_write_version h x uid rv at_ o c :
  apply_write h x uid rv at_ = Some o -> o = Some c -> h = Some c \/ cl_resource_version c = Some rv.
Proof.
  intros Ha ->.
  assert (forall old new d, store_claim old new d = Some c -> old = c \/ cl_resource_version c = Some d) as Hst.
  { unfold store_claim. intros old new d. destruct (bool_decide (new = old)); [intros [= ->]; auto|].
    destruct (_ && _); [done|]. intros [= <-]. auto. }
  destruct x as [n|name ops|name v time policy|name u v], h as [h|]; cbn in Ha; try done.
  - simplify_eq. by right.
  - destruct (String.eqb name _); [|done]. destruct (apply_claim_ops ops h); cbn in Ha; [|done].
    injection Ha as Ha. destruct (Hst _ _ _ Ha) as [->|]; auto.
  - destruct (_ && _); [|done]. injection Ha as Ha. destruct (Hst _ _ _ Ha) as [->|]; auto.
  - destruct (_ && _); [|done]. destruct (default [] (cl_finalizers h)); [done|]. simplify_eq. by right.
Qed.

Lemma with_held_ok w o :
  world_ok w ->
  (forall c, o = Some c ->
     held w = Some c \/ exists rv, cl_resource_version c = Some rv /\ fresh_version w rv) ->
  world_ok (with_held w o).
Proof.
  intros [Hh Hv Hu Hw] Ho. split; cbn.
  - intros c ->. by left.
  - intros c Hin. destruct o as [o|]; cbn in Hin; [|auto]. destruct Hin as [<-|Hin]; [|auto].
    destruct (Ho _ eq_refl) as [E|(rv & E & _)]; [auto|by rewrite E].
  - assert (forall c c', o = Some c -> In c' (versions w) ->
              cl_resource_version c = cl_resource_version c' -> c = c') as Hnew.
    { intros c c' Hc Hin E. destruct (Ho _ Hc) as [Hc'|(rv & Hc' & Hfresh)]; [by apply Hu; auto|].
      destruct (Hfresh c' Hin). congruence. }
    intros c c' Hin Hin' E. destruct o as [o|]; cbn in *; [|auto].
    destruct Hin as [<-|Hin], Hin' as [<-|Hin']; auto. symmetry. auto.
  - intros x Hx. eapply sends_extends; [apply with_held_extends|auto].
Qed.

Lemma step_ok w w' : world_ok w -> world_step w w' -> world_ok w'.
Proof.
  intros Hok Hs. destruct Hs as [t Ht|uid|x Hx|x uid rv at_ o Hx Hf Ha|c c' rv Hh Hf Hrv Hl|c Hh Hi].
  - destruct Hok as [Hh Hv Hu Hw]. split; cbn; auto. intros x Hx. eapply sends_extends; [|by apply Hw].
    repeat split; cbn; auto.
  - destruct Hok as [Hh Hv Hu Hw]. split; cbn; auto. intros x Hx. eapply sends_extends; [|by apply Hw].
    repeat split; cbn; auto. lia.
  - destruct Hok as [Hh Hv Hu Hw]. split; cbn; auto. intros y [<-|Hy].
    + eapply sends_extends; [|exact Hx]. repeat split; cbn; auto. lia.
    + eapply sends_extends; [|by apply Hw]. repeat split; cbn; auto. lia.
  - apply with_held_ok; [done|]. intros c Hc.
    destruct (apply_write_version _ _ _ _ _ _ _ Ha Hc); eauto.
  - apply with_held_ok; [done|]. intros d [= <-]. eauto.
  - by apply with_held_ok.
Qed.

Lemma empty_ok : world_ok empty_world.
Proof. by split. Qed.

(** ** What each writer can do to a tombstone *)

Lemma inert_shape c now : inert c now = true -> sandbox_claim_has_tombstone_shape c = true.
Proof.
  unfold inert, sandbox_claim_has_tombstone_shape. rewrite !andb_true_iff. intros (((((H & _) & _) & _) & _) & _).
  rewrite H. by rewrite !orb_true_r.
Qed.

Lemma inert_later c now now' : now <= now' -> inert c now = true -> inert c now' = true.
Proof.
  intros Hle. unfold inert. rewrite !andb_true_iff. intros (((((H1 & H2) & H3) & H4) & H5) & H6).
  repeat split; auto. destruct (cl_shutdown_time c ≫= parse_rfc3339); [|done].
  apply Z.leb_le in H2. apply Z.leb_le. lia.
Qed.

(** A version test that passes identifies the object that was read. *)
Lemma tests_identify w h c uid rv ops n :
  world_ok w -> held w = Some h -> In c (versions w) -> cl_resource_version c = Some rv ->
  apply_claim_ops (CTestUid uid :: CTestVersion rv :: ops) h = Some n ->
  c = h /\ cl_uid h = Some uid /\ apply_claim_ops ops h = Some n.
Proof.
  intros Hok Hh Hc Hrv Ha. cbn in Ha.
  destruct (str_opt_eqb (cl_uid h) (Some uid)) eqn:E1; [|done]. cbn in Ha.
  destruct (str_opt_eqb (cl_resource_version h) (Some rv)) eqn:E2; [|done]. cbn in Ha.
  apply str_opt_eqb_eq in E1, E2. split; [|done].
  apply (ok_unique _ Hok); [done|by apply (ok_held _ Hok)|congruence].
Qed.

Lemma fence_cases c lease r :
  ensure_management_claim_fenced parse_rfc3339 ns c lease = Ok r -> r <> FenceForeign ->
  sandbox_claim_has_tombstone_shape c = false /\
  forall x, r = FencePatched x -> exists uid rv ops,
    x = ClaimPatch (cl_name c) (CTestUid uid :: CTestVersion rv :: ops) /\ cl_resource_version c = Some rv.
Proof.
  unfold ensure_management_claim_fenced. destruct (lease_uid lease) as [u|]; [|by intros [= <-]].
  destruct (_ || _) eqn:E; [by intros [= <-]|]. rewrite !orb_false_iff in E. destruct_and!.
  intros Hr _. split; [done|]. intros x ->.
  match type of Hr with context [match ?y with Ok _ => _ | Err _ => _ end] => destruct y as [lc|]; [|done] end.
  destruct (_ && is_none lc); [done|].
  destruct (claim_uid c) as [cu|]; cbn [ok_or] in Hr; [|done].
  destruct (cl_resource_version c) as [rv|]; cbn [ok_or] in Hr; [|done].
  simplify_eq. eexists _, _, _. split; [reflexivity|done].
Qed.

Lemma plan_writes lease c now x :
  plan_write (tombstone_plan parse_rfc3339 to_rfc3339 to_rfc3339_z configured_retention ns lease (Ok c) now) = Some x ->
  ensure_management_claim_fenced parse_rfc3339 ns c lease = Ok (FencePatched x) \/
  exists prior,
    patch_management_claim_tombstone parse_rfc3339 to_rfc3339 configured_retention c lease prior now = Ok x.
Proof.
  unfold tombstone_plan. cbv zeta.
  destruct (lease_uid lease); [|done].
  do 6 (match goal with |- plan_write (if ?b then _ else _) = _ -> _ => destruct b; [done|] end).
  match goal with |- plan_write (if _ then _ else ?t) = _ -> _ => set (tail := t) end.
  assert (plan_write tail = Some x -> exists prior,
            patch_management_claim_tombstone parse_rfc3339 to_rfc3339 configured_retention c lease prior now = Ok x) as Ht.
  { subst tail. destruct (target_reference ns c); [|done].
    destruct (td_sandbox_claim_tombstone _); [|done]. destruct (_ || _); [|done].
    destruct (patch_management_claim_tombstone _ _ _ _ _ _ _) eqn:E; [|done]. intros [= <-]. eauto. }
  clearbody tail. destruct (_ && _); [|auto].
  destruct (ensure_management_claim_fenced _ _ _ _) as [[]|]; try done; auto.
  intros [= ->]. auto.
Qed.

Context (Hround : forall t, representable t = true -> parse_rfc3339 (to_rfc3339 t) = Some t).

Lemma store_keeps old new rv :
  sandbox_claim_cleanup_finalizer_present new = true ->
  exists c, store_claim old new rv = Some c /\
    (c = old /\ new = old \/ c = stamped new (cl_uid new) (Some rv) (cl_deletion_timestamp new)).
Proof.
  intros Hf. unfold store_claim. destruct (bool_decide (new = old)) eqn:E.
  - apply bool_decide_eq_true in E. eauto.
  - unfold sandbox_claim_cleanup_finalizer_present in Hf.
    destruct (default [] (cl_finalizers new)); [done|]. rewrite andb_false_r. eauto.
Qed.

Lemma inert_stamped c uid rv d now : inert (stamped c uid rv d) now = inert c now.
Proof. done. Qed.

(** Converting, once more or for the first time, leaves a tombstone. *)
Lemma converted_inert c lease prior now ck rv uid ops n :
  patch_management_claim_tombstone parse_rfc3339 to_rfc3339 configured_retention c lease prior now
  = Ok (ClaimPatch (cl_name c) (CTestUid uid :: CTestVersion rv :: ops)) ->
  apply_claim_ops ops c = Some n -> now <= ck -> representable now = true ->
  representable (new_claim_tombstone_deadline parse_rfc3339 configured_retention lease now) = true ->
  inert n ck = true /\ cl_uid n = cl_uid c /\ sandbox_claim_cleanup_finalizer_present n = true.
Proof.
  unfold patch_management_claim_tombstone. destruct (claim_uid c); cbn [ok_or]; [|done].
  destruct (cl_resource_version c); cbn [ok_or]; [|done]. intros [= <- <- <-] Ha Hck Hn Hd.
  cbn in Ha. injection Ha as <-.
  assert (forall l, sandbox_claim_cleanup_finalizer_present
            (with_claim_finalizers c (if existsb (String.eqb SANDBOX_CLAIM_CLEANUP_FINALIZER) l then l
                                      else l ++ [SANDBOX_CLAIM_CLEANUP_FINALIZER])) = true) as Hf.
  { intros l. unfold sandbox_claim_cleanup_finalizer_present. cbn.
    destruct (existsb _ l) eqn:E; [done|]. rewrite existsb_app. cbn. by rewrite orb_true_r. }
  split; [|split; [done|apply Hf]]. unfold inert. cbn. rewrite (Hround _ Hn).
  replace (now <=? ck) with true by (symmetry; by apply Z.leb_le).
  assert (retain_until parse_rfc3339
            (with_claim_annotations c (tombstone_annotations parse_rfc3339 to_rfc3339 configured_retention lease now (cl_annotations c)))
          = Some (new_claim_tombstone_deadline parse_rfc3339 configured_retention lease now)) as Hret.
  { unfold retain_until, tombstone_annotations. cbn.
    rewrite lookup_insert_ne, lookup_insert_eq by done. cbn. by apply Hround. }
  unfold retain_until in *. cbn in *. rewrite Hret. cbn.
  unfold has_label. cbn. replace (tombstone_labels prior (cl_labels c) !! SANDBOX_CLAIM_TOMBSTONE_LABEL) with (Some "true").
  - cbn. rewrite andb_true_r. apply Hf.
  - unfold tombstone_labels. destruct prior; [rewrite lookup_insert_ne by done|]; by rewrite lookup_insert_eq.
Qed.

(** The held tombstone after a step: the same object, inert at the latest when it
    was going to be, or a sweep was entitled to it. *)
Definition keeps (w : World) (due : Z) (h : Claim) (o : option Claim) : Prop :=
  (exists h', o = Some h' /\ cl_uid h' = cl_uid h /\ inert h' (Z.max due (clock w)) = true) \/ swept w (cl_uid h).

Lemma migration_refused w h due c lease x uid rv at_ o :
  world_ok w -> held w = Some h -> inert h due = true -> In c (versions w) ->
  ensure_management_claim_fenced parse_rfc3339 ns c lease = Ok (FencePatched x) ->
  apply_write (Some h) x uid rv at_ <> Some o.
Proof.
  intros Hok Hh Hi Hc Hf Ha. destruct (fence_cases _ _ _ Hf ltac:(done)) as [Hshape Hx].
  destruct (Hx _ eq_refl) as (u & v & ops & -> & Hrv). cbn [apply_write] in Ha.
  destruct (String.eqb (cl_name c) _); [|done].
  destruct (apply_claim_ops _ h) eqn:E; cbn in Ha; [|done].
  destruct (tests_identify _ _ _ _ _ _ _ Hok Hh Hc Hrv E) as (-> & _).
  rewrite (inert_shape _ _ Hi) in Hshape. done.
Qed.

Lemma conversion_keeps w h due c lease prior now x uid rv at_ o :
  world_ok w -> held w = Some h -> In c (versions w) -> now <= clock w -> representable now = true ->
  representable (new_claim_tombstone_deadline parse_rfc3339 configured_retention lease now) = true ->
  patch_management_claim_tombstone parse_rfc3339 to_rfc3339 configured_retention c lease prior now = Ok x ->
  apply_write (Some h) x uid rv at_ = Some o -> keeps w due h o.
Proof.
  intros Hok Hh Hc Hn Hr Hd Hp Ha. assert (Hp' := Hp). unfold patch_management_claim_tombstone in Hp.
  destruct (claim_uid c) as [u|]; cbn [ok_or] in Hp; [|done].
  destruct (cl_resource_version c) as [v|] eqn:Hrv; cbn [ok_or] in Hp; [|done].
  injection Hp as <-. cbn [apply_write] in Ha. destruct (String.eqb (cl_name c) _); [|done].
  destruct (apply_claim_ops _ h) as [n|] eqn:E; cbn [mbind option_bind] in Ha; [|done].
  destruct (tests_identify _ _ _ _ _ _ _ Hok Hh Hc Hrv E) as (-> & _ & E').
  destruct (converted_inert _ _ _ _ _ _ _ _ _ Hp' E' Hn Hr Hd) as (Hi & Hu & Hf).
  apply (inert_later _ _ (Z.max due (clock w))) in Hi; [|lia].
  injection Ha as <-. left. destruct (store_keeps h n rv Hf) as (c' & -> & [ [-> ->] | -> ] ); eauto.
Qed.

Lemma stamp_refused w h due c lease checks at' x uid rv at_ o :
  world_ok w -> held w = Some h -> inert h due = true -> In c (versions w) ->
  stamp_ready_claim parse_rfc3339 to_rfc3339_z ns c lease checks at' = Ok (Some x) ->
  apply_write (Some h) x uid rv at_ <> Some o.
Proof.
  intros Hok Hh Hi Hc. unfold stamp_ready_claim.
  destruct (ensure_management_claim_fenced _ _ _ _) as [[| |y]|] eqn:Hf; try done.
  2:{ intros [= <-]. by apply (migration_refused w h due c lease). }
  destruct (fence_cases _ _ _ Hf ltac:(done)) as [Hshape _].
  destruct checks; [|done]. unfold stamp_upstream_shutdown. destruct (nonblank _) eqn:Hnb; [|done]. intros [= <-] Ha. cbn [apply_write] in Ha.
  destruct (String.eqb _ _ && _) eqn:E; [|done]. apply andb_true_iff in E as [_ E]. apply str_opt_eqb_eq in E.
  destruct (cl_resource_version c) as [v|] eqn:Hrv; [|done].
  assert (c = h) as -> by (apply (ok_unique _ Hok); [done|by apply (ok_held _ Hok)|cbn in *; congruence]).
  rewrite (inert_shape _ _ Hi) in Hshape. done.
Qed.

Lemma sweep_frees w h c now outer read x uid rv at_ o :
  world_ok w -> held w = Some h -> In c (versions w) -> now <= clock w ->
  sweep_candidate parse_rfc3339 ns c now = Some outer -> In outer.2 (absent w) ->
  sweep_claim parse_rfc3339 ns c now read = Some x ->
  apply_write (Some h) x uid rv at_ = Some o -> swept w (cl_uid h).
Proof.
  intros Hok Hh Hc Hn Hs Ho Hx Ha. exists c, now, outer. repeat split; auto.
  unfold sweep_claim in Hx. rewrite Hs in Hx. destruct outer as [nm ou]. destruct (negb _); [done|].
  destruct (exact_outer_lease_still_exists _ _) as [[]|]; try done.
  destruct (cl_uid c) as [u|] eqn:Hu; [|done]. destruct (cl_resource_version c) as [v|] eqn:Hv; [|done].
  destruct (existsb _ _); injection Hx as <-; cbn [apply_write] in Ha.
  - destruct (String.eqb _ _); [|done]. destruct (apply_claim_ops _ h) eqn:E; [|done].
    by destruct (tests_identify _ _ _ _ _ _ _ Hok Hh Hc Hv E) as (_ & -> & _).
  - destruct (String.eqb _ _ && _) eqn:E; [|done]. apply andb_true_iff in E as [_ E].
    symmetry. by apply str_opt_eqb_eq.
Qed.

Lemma arrival_keeps w h due x uid rv at_ o :
  world_ok w -> held w = Some h -> inert h (Z.max due (clock w)) = true -> sends w x ->
  apply_write (Some h) x uid rv at_ = Some o -> keeps w due h o.
Proof.
  intros Hok Hh Hi Hs Ha. inversion Hs; subst.
  - done.
  - destruct (plan_writes _ _ _ _ H3) as [Hf|(prior & Hp)].
    + by destruct (migration_refused _ _ _ _ _ _ uid rv at_ o Hok Hh Hi H Hf).
    + by eapply conversion_keeps.
  - by destruct (migration_refused _ _ _ _ _ _ uid rv at_ o Hok Hh Hi H H0).
  - by destruct (stamp_refused _ _ _ _ _ _ _ _ uid rv at_ o Hok Hh Hi H H0).
  - right. by eapply sweep_frees.
Qed.

Lemma step_keeps w w' h due :
  world_ok w -> held w = Some h -> inert h (Z.max due (clock w)) = true -> world_step w w' ->
  keeps w' due h (held w').
Proof.
  intros Hok Hh Hi Hs. assert (Hext := step_extends _ _ Hs).
  assert (forall t, Z.max due (clock w) <= t -> inert h t = true) as Hlater by (intros; by eapply inert_later).
  destruct Hs as [t Ht|u|x Hx|x uid rv at_ o Hx Hf Ha|c c' rv Hc Hf Hrv Hl|c Hc Hn].
  1-3: left; exists h; cbn; repeat split; auto; apply Hlater; cbn; lia.
  - rewrite Hh in Ha.
    destruct (arrival_keeps _ _ _ _ _ _ _ _ Hok Hh Hi (ok_wire _ Hok _ Hx) Ha) as [Hk|Hk]; [by left|].
    right. by eapply swept_extends.
  - assert (c = h) as -> by congruence. left. exists c'. split; [done|].
    destruct (Hl _ Hi) as (Hu & _ & Ho & Hlb & Han & Ht & Hp & Hfin). split; [done|].
    unfold inert, retain_until, has_label in *. cbn. by rewrite Hp, Ht, Han, Hlb, Hfin, Ho.
  - assert (c = h) as -> by congruence. by rewrite Hn in Hi.
Qed.

Definition reachable (w : World) : Prop := rtc world_step empty_world w.

Lemma steps_ok w w' : world_ok w -> rtc world_step w w' -> world_ok w'.
Proof. intros Hok Hs. induction Hs; [done|]. apply IHHs. by eapply step_ok. Qed.

Lemma steps_extend w w' : rtc world_step w w' -> extends w w'.
Proof.
  induction 1 as [|w w1 w' H1 _ (Hv & Hc & Ha)]; [repeat split; auto; lia|].
  destruct (step_extends _ _ H1) as (Hv1 & Hc1 & Ha1). repeat split; auto. lia.
Qed.

Lemma inert_persists w w' h due :
  world_ok w -> held w = Some h -> inert h (Z.max due (clock w)) = true -> rtc world_step w w' ->
  keeps w' due h (held w').
Proof.
  intros Hok Hh Hi Hs. revert h Hh Hi.
  induction Hs as [w|w w1 w' H1 Hs IH]; intros h Hh Hi; [left; eauto|].
  destruct (step_keeps _ _ _ _ Hok Hh Hi H1) as [(h1 & Hh1 & Hu & Hi1)|Hsw].
  - unfold keeps. rewrite <- Hu. apply (IH (step_ok _ _ Hok H1) h1 Hh1 Hi1).
  - right. eapply swept_extends; [by apply steps_extend|done].
Qed.

(** The answer that lets a release go on is given for an inert Claim only. *)
Lemma ready_inert lease c now ck r prior c' :
  tombstone_plan parse_rfc3339 to_rfc3339 to_rfc3339_z configured_retention ns lease (Ok c) now
  = PlanAnswer (Ok (TombstoneReady c' r prior)) -> now <= ck -> c' = c /\ inert c ck = true.
Proof.
  unfold tombstone_plan. cbv zeta. intros Hp Hck.
  destruct (lease_uid lease); [|done].
  do 6 (match type of Hp with (if ?b then _ else _) = _ => destruct b; [done|] end).
  match type of Hp with (if _ then _ else ?t) = _ => set (tail := t) in * end.
  assert (tail = PlanAnswer (Ok (TombstoneReady c' r prior)) -> c' = c /\ inert c ck = true) as Ht.
  { subst tail. clear Hp. destruct (target_reference ns c); [|done].
    destruct (td_sandbox_claim_tombstone _); [|done].
    destruct (claim_is_expired_retain_tombstone _ _ _) eqn:E; cbn [negb orb].
    2:{ by destruct (patch_management_claim_tombstone _ _ _ _ _ _ _). }
    destruct (claim_tombstone_covers_provisioning_deadline _ _ _); cbn [negb].
    2:{ by destruct (patch_management_claim_tombstone _ _ _ _ _ _ _). }
    intros [= <- _ _]. split; [done|]. apply (inert_later _ now); [done|].
    unfold claim_is_expired_retain_tombstone in E. rewrite !andb_true_iff in E.
    destruct E as (((((E1 & E2) & E3) & E4) & E5) & E6). unfold inert. rewrite E1, E2, E4, E5, E6.
    by destruct (retain_until _ _). }
  clearbody tail. destruct (_ && _); [|auto].
  destruct (ensure_management_claim_fenced _ _ _ _) as [[]|]; try done; auto.
Qed.

(** It is given for the Claim the lease has recorded as its tombstone. *)
Lemma ready_recorded lease c now r prior c' :
  tombstone_plan parse_rfc3339 to_rfc3339 to_rfc3339_z configured_retention ns lease (Ok c) now
  = PlanAnswer (Ok (TombstoneReady c' r prior)) ->
  td_sandbox_claim_tombstone (ls_teardown (default default_sandbox_status (pl_status lease))) = Some r /\
  cl_uid c = Some (oref_uid r).
Proof.
  unfold tombstone_plan. cbv zeta. intros Hp. destruct (lease_uid lease); [|done].
  do 4 (match type of Hp with (if ?b then _ else _) = _ => destruct b; [done|] end).
  destruct (td_sandbox_claim_tombstone _) as [rec|].
  - destruct (negb (str_opt_eqb (cl_uid c) _)) eqn:E; [done|]. apply negb_false_iff, str_opt_eqb_eq in E.
    destruct (negb _ && _); [done|]. revert Hp.
    match goal with |- (if _ then _ else ?t) = _ -> _ => set (tail := t) end.
    assert (tail = PlanAnswer (Ok (TombstoneReady c' r prior)) -> Some rec = Some r) as Ht.
    { subst tail. destruct (target_reference ns c); [|done]. destruct (_ || _).
      - by destruct (patch_management_claim_tombstone _ _ _ _ _ _ _).
      - by intros [= _ -> _]. }
    clearbody tail. intros Hp. assert (Some rec = Some r) as [= ->]; [|done]. revert Hp.
    destruct (_ && _); [|done]. by destruct (ensure_management_claim_fenced _ _ _ _) as [[]|].
  - exfalso. revert Hp. destruct (negb _ && _); [done|]. destruct (_ && _).
    + destruct (ensure_management_claim_fenced _ _ _ _) as [[]|]; try done; by destruct (target_reference ns c).
    + by destruct (target_reference ns c).
Qed.

(** C11. Once a release has been told that the Claim of its lease is a tombstone
    ([TombstoneReady]), no CREATE, migration, shutdown stamp, conversion or
    sweep of any replica, sent at any earlier or later time, however delayed,
    reordered or repeated, brings a runnable Claim back under that name: the
    same object holds it, expired and retained, until a sweep has read it after
    its retention deadline and found the outer lease it names gone. *)
Theorem tombstone_keeps_the_name w w' lease h now r prior :
  reachable w -> held w = Some h -> now <= clock w ->
  tombstone_plan parse_rfc3339 to_rfc3339 to_rfc3339_z configured_retention ns lease (Ok h) now
  = PlanAnswer (Ok (TombstoneReady h r prior)) ->
  rtc world_step w w' ->
  (exists h', held w' = Some h' /\ cl_uid h' = cl_uid h /\ inert h' (clock w') = true) \/ swept w' (cl_uid h).
Proof.
  intros Hr Hh Hn Hp Hs. destruct (ready_inert _ _ _ _ _ _ _ Hp Hn) as [_ Hi].
  destruct (steps_extend _ _ Hs) as (_ & Hck & _).
  destruct (inert_persists w w' h (clock w) (steps_ok _ _ empty_ok Hr) Hh) as [(h' & Hh' & Hu & Hi')|Hsw];
    [by rewrite Z.max_id|done| |by right].
  left. exists h'. rewrite Z.max_r in Hi' by done. done.
Qed.
End Protocol.

(** ** A lease released while its shutdown stamp is in flight *)
Module ClaimDemo.
Definition representable (t : Z) : bool := (0 <=? t) && (t <=? u64_max).
Definition read_time : string -> option Z := parse_uint u64_max.

Lemma round_trip t : representable t = true -> read_time (show_uint t) = Some t.
Proof. unfold representable. rewrite andb_true_iff, !Z.leb_le. intros. by apply parse_uint_show. Qed.

Definition lease (recorded : option SandboxObjectReference) : ParentLease :=
  {| pl_name := "box"; pl_namespace := Some "kobe"; pl_uid := Some "l1"; pl_resource_version := Some "7";
     pl_generation := Some 1; pl_labels := ∅; pl_annotations := ∅; pl_finalizers := None;
     pl_creation_timestamp := None; pl_deletion_timestamp := None;
     pl_spec := {| ps_pool_ref := {| pool_ref_name := "py"; pool_ref_uid := "p1"; pool_ref_generation := 1 |};
                   ps_placement_authority := None; ps_ttl := "1h"; ps_alias := None;
                   ps_requester := {| pr_provider := "oidc"; pr_issuer := "idp"; pr_identity := "ana" |};
                   ps_requester_type := "user" |};
     pl_status := Some {| ls_phase := SandboxLeasePhase.Releasing; ls_observed_generation := Some 1;
       ls_provisioning_deadline := Some "900"; ls_ready_at := None; ls_expires_at := None; ls_extensions_count := 0;
       ls_granted_extension_seconds := 0; ls_release_cause := None; ls_placement := None; ls_target := None;
       ls_teardown := {| td_releasing_at := None; td_claim_cleanup_fence := None;
         td_sandbox_claim_tombstone := recorded; td_allocation_fence := None; td_child_teardown_mode := None;
         td_child_teardown_receipt_acknowledgement := None; td_child_teardown_evidence := None;
         td_child_unbound_release_proof := None |};
       ls_conditions := [] |} |}.

Definition recorded : SandboxObjectReference :=
  {| oref_api_version := AGENT_SANDBOX_API_VERSION; oref_kind := SANDBOX_CLAIM_KIND; oref_namespace := Some "kobe";
     oref_name := "kobe-box"; oref_uid := "c1"; oref_generation := None |}.

Definition draft : Claim := build_sandbox_claim show_uint "kobe-box" "kobe" "kobe-py" "l1" 900 true None.
Definition live : Claim := stamped draft (Some "c1") (Some "1") None.
Definition stamp : claim_write := ClaimMerge "kobe-box" "1" "5000" "DeleteForeground".
Definition conversion : claim_write :=
  match plan_write (tombstone_plan read_time show_uint show_uint None "kobe" (lease (Some recorded)) (Ok live) 1000) with
  | Some x => x
  | None => stamp
  end.
Definition tombstone : Claim :=
  match apply_write (Some live) conversion "" "2" "" with Some (Some c) => c | _ => live end.

Definition created : World :=
  {| held := Some live; versions := [live]; wire := [ClaimCreate draft]; clock := 1000; absent := [] |}.
Definition after_release : World :=
  {| held := Some tombstone; versions := [tombstone; live]; wire := [conversion; stamp; ClaimCreate draft];
     clock := 1000; absent := [] |}.
Definition later : World :=
  {| held := Some tombstone; versions := [tombstone; live]; wire := [conversion; stamp; ClaimCreate draft];
     clock := 99000; absent := [] |}.

Abbreviation step := (world_step read_time show_uint show_uint representable None "kobe").

Lemma reach_created : rtc step empty_world created.
Proof.
  eapply rtc_l; [apply (step_tick _ _ _ _ _ _ _ 1000); cbn; lia|].
  eapply rtc_l; [apply (step_send _ _ _ _ _ _ _ (ClaimCreate draft)), sends_create|].
  eapply rtc_once.
  match goal with |- step ?w _ => exact (step_arrive _ _ _ _ _ _ w (ClaimCreate draft) "c1" "1" "" (Some live)
    (or_introl eq_refl) (fun c Hc => match Hc with end) eq_refl) end.
Qed.

Lemma reach_released : rtc step created after_release.
Proof.
  eapply rtc_l.
  { apply (step_send _ _ _ _ _ _ _ stamp).
    apply (sends_stamp _ _ _ _ _ _ _ live (lease None) (Ok tt) 5000); [by left|by vm_compute]. }
  eapply rtc_l.
  { apply (step_send _ _ _ _ _ _ _ conversion).
    apply (sends_plan _ _ _ _ _ _ _ live (lease (Some recorded)) 1000);
      [by left|cbn; lia|by vm_compute|by vm_compute|by vm_compute]. }
  eapply rtc_once.
  match goal with |- step ?w _ => refine (step_arrive _ _ _ _ _ _ w conversion "" "2" "" (Some tombstone)
    (or_introl eq_refl) _ _) end; [|by vm_compute].
  intros c [<-|[]]. done.
Qed.
End ClaimDemo.

Lemma tombstone_keeps_the_name_witness :
  (exists h', held ClaimDemo.later = Some h' /\ cl_uid h' = Some "c1" /\ inert ClaimDemo.read_time h' 99000 = true) \/
  swept ClaimDemo.read_time "kobe" ClaimDemo.later (Some "c1").
Proof.
  apply (tombstone_keeps_the_name ClaimDemo.read_time show_uint show_uint ClaimDemo.representable None "kobe"
           ClaimDemo.round_trip ClaimDemo.after_release ClaimDemo.later (ClaimDemo.lease (Some ClaimDemo.recorded))
           ClaimDemo.tombstone 1000 ClaimDemo.recorded None).
  - unfold reachable. etransitivity; [apply ClaimDemo.reach_created|apply ClaimDemo.reach_released].
  - reflexivity.
  - cbn. lia.
  - vm_compute. reflexivity.
  - apply rtc_once. apply (step_tick _ _ _ _ _ _ ClaimDemo.after_release 99000). cbn. lia.
Defined.
