(* ===== verification/Footprint.v ===== *)
(** * The workload footprint of a released Sandbox lease

    The absence proofs of src/controllers/sandbox.rs: the identities recorded
    for a lease, the checkpoint of its descendants while the Claim still names
    them, and the scans that must all be empty before capacity goes back.  A
    function is a value of [rprog]: the reads it makes, in order, with what it
    does on each possible answer. *)

From S2P Require Import Prelude Text Quarantine Durations SandboxObjects SandboxLifecycle LedgerApi AccessLedger ExecutionApi ExecutionCleanup AdmissionApi Admission Claims.

Local Open Scope kobe_scope.

(** ** Objects *)

(** A Sandbox, Pod, Service or PersistentVolumeClaim; the last two fields are
    the [status.service] and [status.selector] of a Sandbox. *)
Record Obj : Type := {
  ob_name : string;
  ob_uid : option string;
  ob_owner_references : option (list Owner);
  ob_labels : gmap string string;
  ob_service : option string;
  ob_selector : option string;
}.
#[global] Instance Obj_eq_dec : EqDecision Obj. Proof. solve_decision. Defined.

(** A PersistentVolume: the UID of its [claimRef]. *)
Record Volume : Type := { vo_claim_uid : option string }.

(** What release reads of a SandboxPool. *)
Record PoolView : Type := { pv_uid : option string; pv_generation : option Z; pv_requires_service : bool }.

Definition metadata_is_controlled_by (owners : option (list Owner)) (api_version kind name uid : string) : bool :=
  match owners with
  | None => false
  | Some l => existsb (fun o => String.eqb (ow_api_version o) api_version && String.eqb (ow_kind o) kind
                                && String.eqb (ow_name o) name && String.eqb (ow_uid o) uid
                                && bool_decide (ow_controller o = Some true)) l
  end.

(** Controlled by the object a reference names. *)
Definition controlled_by (o : Obj) (r : SandboxObjectReference) : bool :=
  metadata_is_controlled_by (ob_owner_references o) (oref_api_version r) (oref_kind r) (oref_name r) (oref_uid r).

(** ** Requests *)

(** Reads are of the operator's namespace; a claim is read with its
    [status.sandbox.name].  The calls into the access ledger, the execution
    cleanup and the credentials are answered by those components. *)
Inductive rreq : Type -> Type :=
| GetClaim (name : string) : rreq (result (Claim * option string) kube_error)
| GetSandbox (name : string) : rreq (result Obj kube_error)
| GetPod (name : string) : rreq (result Obj kube_error)
| GetService (name : string) : rreq (result Obj kube_error)
| ListSandboxes (claim_uid : string) : rreq (result (list Obj) kube_error)
| ListPods (selector : option string) : rreq (result (list Obj) kube_error)
| ListServices : rreq (result (list Obj) kube_error)
| ListPvcs : rreq (result (list Obj) kube_error)
| ListVolumes : rreq (result (list Volume) kube_error)
| GetPool (name : string) : rreq (result PoolView kube_error)
| GetHandle (name : string) : rreq (result unit kube_error)
| GetFence (name : string) : rreq (result (Lease * option string) kube_error)
| CreateFence (fence : Lease) : rreq (option (result (Lease * option string) kube_error))
| WriteClaim (w : claim_write) : rreq (option (result unit kube_error))
| WriteStatus (status : SandboxLeaseStatus) : rreq (result unit kube_error)
| DrainAccess : rreq (result AccessDrain AccessLedgerError)
| CleanExecutions (target_absent : bool) : rreq ExecutionCleanupOutcome
| CleanIdentities (lease_uid pod_name pod_uid : string) : rreq (option bool)
| StopRequested : rreq bool
| ReadTime : rreq Z.

Inductive rprog (R : Type) : Type :=
| RRet (r : R)
| RCall {X : Type} (q : rreq X) (k : X -> rprog R).
Arguments RRet {R} r.
Arguments RCall {R X} q k.

Fixpoint rbind {A B} (p : rprog A) (f : A -> rprog B) : rprog B :=
  match p with
  | RRet a => f a
  | RCall q k => RCall q (fun x => rbind (k x) f)
  end.

Definition rcall {X} (q : rreq X) : rprog X := RCall q RRet.

Notation "'rdo' x := p 'in' k" := (rbind p (fun x => k))
  (at level 10, x pattern, p at level 100, k at level 200,
   format "'[v' 'rdo'  x  :=  p  'in' '/' k ']'") : kobe_scope.

(** ** Checks *)

Inductive TargetFootprintCheck : Type :=
| FpVerified
| FpRetry (check : string)
| FpQuarantine (reason : QuarantineReason).
#[global] Instance TargetFootprintCheck_eq_dec : EqDecision TargetFootprintCheck. Proof. solve_decision. Defined.

Inductive ExactObjectAbsence : Type := Absent | Present | Replaced | Unverifiable | Transient.

(** [if check != Verified { return check }] *)
Notation "p ';?' q" :=
  (rbind p (fun c => match c with FpVerified => q | _ => RRet c end)) (at level 100, right associativity) : kobe_scope.

(** The first check of a list that did not verify. *)
Definition first_unverified (l : list TargetFootprintCheck) : TargetFootprintCheck :=
  match List.find (fun c => negb (bool_decide (c = FpVerified))) l with Some c => c | None => FpVerified end.

(** A read that failed: forbidden is durable, anything else is retried. *)
Definition failed_read (e : kube_error) (forbidden : QuarantineReason) (transient : string) : TargetFootprintCheck :=
  if is_401_or_403 e then FpQuarantine forbidden else FpRetry transient.

Definition UPSTREAM_CLAIM_UID_LABEL : string := "agents.x-k8s.io/claim-uid".
Definition SANDBOX_KIND : string := "Sandbox".
Definition SANDBOX_WORKSPACE_VOLUME_NAME : string := "workspace".
Definition MAX_REPLACEMENT_PODS : nat := 4.

Definition recorded_reference_is_exact (r : SandboxObjectReference) (api_version kind namespace : string) : bool :=
  String.eqb (oref_api_version r) api_version && String.eqb (oref_kind r) kind
  && str_opt_eqb (oref_namespace r) (Some namespace) && negb (String.eqb (oref_name r) "")
  && negb (String.eqb (oref_uid r) "").

Section Footprint.
Context (ns : string).

Definition status_of (lease : ParentLease) : SandboxLeaseStatus := default default_sandbox_status (pl_status lease).

(** ** Recorded provenance *)

Definition recorded_service_requirement (lease : ParentLease) : option TargetFootprintCheck :=
  match pl_status lease with
  | None => Some FpVerified
  | Some status =>
      if is_none (ls_ready_at status) then Some FpVerified
      else
        target ← ls_target status;
        required ← tp_service_required target;
        Some (if required : bool then FpQuarantine RequiredServiceProvenanceMissing else FpVerified)
  end.

Definition missing_service_provenance_is_allowed (lease : ParentLease) : rprog TargetFootprintCheck :=
  match recorded_service_requirement lease with
  | Some recorded => RRet recorded
  | None =>
      let pool_ref := ps_pool_ref (pl_spec lease) in
      rdo read := rcall (GetPool (pool_ref_name pool_ref)) in
      RRet match read with
           | Ok pool =>
               if str_opt_eqb (pv_uid pool) (Some (pool_ref_uid pool_ref))
                  && bool_decide (pv_generation pool = Some (pool_ref_generation pool_ref))
               then if pv_requires_service pool then FpQuarantine RequiredServiceProvenanceMissing else FpVerified
               else FpQuarantine ServiceRequirementPoolIdentityChanged
           | Err e =>
               if is_401_or_403 e then FpQuarantine ServiceRequirementUnverifiable
               else if is_404 e then FpQuarantine ServiceRequirementPoolMissing
               else FpRetry "service_requirement_lookup_transient"
           end
  end.

Definition misrecorded (r : option SandboxObjectReference) (api_version kind : string) : bool :=
  match r with Some r => negb (recorded_reference_is_exact r api_version kind ns) | None => false end.

Definition validate_management_target_provenance (lease : ParentLease) : rprog TargetFootprintCheck :=
  match pl_status lease ≫= ls_target with
  | None => RRet (FpQuarantine ManagementTargetProvenanceMissing)
  | Some target =>
      if negb (String.eqb (tp_namespace target) ns) then RRet (FpQuarantine ManagementTargetNamespaceChanged)
      else
        match tp_sandbox_claim target with
        | None => RRet (FpQuarantine ClaimProvenanceMissing)
        | Some claim =>
            if negb (recorded_reference_is_exact claim AGENT_SANDBOX_API_VERSION SANDBOX_CLAIM_KIND ns)
            then RRet (FpQuarantine ManagementTargetProvenanceInvalid)
            else if misrecorded (tp_sandbox target) SANDBOX_API_VERSION SANDBOX_KIND
                    || misrecorded (tp_pod target) "v1" "Pod"
                    || (is_some (tp_pod target) && is_none (tp_sandbox target))
                    || (is_some (tp_service target) && is_none (tp_sandbox target))
            then RRet (FpQuarantine ManagementTargetProvenanceInvalid)
            else if is_some (pl_status lease ≫= ls_ready_at) && is_none (tp_pod target)
            then RRet (FpQuarantine PodProvenanceMissing)
            else
              match tp_service target with
              | Some service =>
                  RRet (if recorded_reference_is_exact service "v1" "Service" ns then FpVerified
                        else FpQuarantine ServiceProvenanceInvalid)
              | None => missing_service_provenance_is_allowed lease
              end
        end
  end.

(** ** Absence of recorded objects *)

Definition exact_object_absence (get : string -> rreq (result Obj kube_error)) (reference owner : SandboxObjectReference)
  : rprog ExactObjectAbsence :=
  rdo read := rcall (get (oref_name reference)) in
  RRet match read with
       | Ok o =>
           if negb (str_opt_eqb (ob_uid o) (Some (oref_uid reference))) then Replaced
           else if negb (controlled_by o owner) then Replaced
           else Present
       | Err e => if is_404 e then Absent else if is_401_or_403 e then Unverifiable else Transient
       end.

(** [Vec::dedup]: consecutive repetitions are removed. *)
Fixpoint dedup (l : list string) : list string :=
  match l with
  | [] => []
  | x :: l => match dedup l with
              | y :: _ as rest => if String.eqb x y then rest else x :: rest
              | [] => [x]
              end
  end.

Fixpoint pods_absent_under (names : list string) (recorded : list SandboxObjectReference) (owner : SandboxObjectReference)
  : rprog ExactObjectAbsence :=
  match names with
  | [] => RRet Absent
  | name :: names =>
      rdo read := rcall (GetPod name) in
      match read with
      | Err e => if is_404 e then pods_absent_under names recorded owner
                 else RRet (if is_401_or_403 e then Unverifiable else Transient)
      | Ok observed =>
          let recorded_uid := existsb (fun pod => str_opt_eqb (ob_uid observed) (Some (oref_uid pod))) recorded in
          RRet (if recorded_uid && controlled_by observed owner then Present else Replaced)
      end
  end.

Definition recorded_pods_absence (recorded : list SandboxObjectReference) (owner : SandboxObjectReference)
  : rprog ExactObjectAbsence :=
  pods_absent_under (dedup (map oref_name recorded)) recorded owner.

Definition classify_exact_absence (absence : ExactObjectAbsence) (present : string)
    (replaced unverifiable : QuarantineReason) (transient : string) : TargetFootprintCheck :=
  match absence with
  | Absent => FpVerified
  | Present => FpRetry present
  | Replaced => FpQuarantine replaced
  | Unverifiable => FpQuarantine unverifiable
  | Transient => FpRetry transient
  end.

(** ** Storage *)

(** What teardown expects of storage owned by the Sandbox. *)
Inductive WorkspaceStorage : Type := Forbidden | MayExist | MustBeGone.
#[global] Instance WorkspaceStorage_eq_dec : EqDecision WorkspaceStorage. Proof. solve_decision. Defined.

Definition workspace_storage (target : SandboxTargetProvenance) (declared : WorkspaceStorage) : WorkspaceStorage :=
  if bool_decide (tp_workspace_volume_required target = Some true) then declared else Forbidden.

Definition is_only_the_declared_workspace_claim (owned : list Obj) (sandbox : option SandboxObjectReference) : bool :=
  match sandbox, owned with
  | Some sandbox, [claim] =>
      String.eqb (ob_name claim) (SANDBOX_WORKSPACE_VOLUME_NAME +:+ "-" +:+ oref_name sandbox)
      && controlled_by claim sandbox
  | _, _ => false
  end.

Definition labelled_for (o : Obj) (claim_uids : list string) : bool :=
  match ob_labels o !! UPSTREAM_CLAIM_UID_LABEL with Some uid => existsb (String.eqb uid) claim_uids | None => false end.

Definition owned_pvc (claim_uids : list string) (sandbox : option SandboxObjectReference) (pvc : Obj) : bool :=
  match sandbox with Some sandbox => controlled_by pvc sandbox | None => false end || labelled_for pvc claim_uids.

Definition exact_owned_storage_is_absent (claim_uids : list string) (sandbox : option SandboxObjectReference)
    (expected : WorkspaceStorage) : rprog TargetFootprintCheck :=
  rdo listed := rcall ListPvcs in
  match listed with
  | Err e => RRet (failed_read e PvcEnumerationUnverifiable "pvc_enumeration_transient")
  | Ok pvcs =>
      let owned := List.filter (owned_pvc claim_uids sandbox) pvcs in
      let pvc_uids := omap (fun o => filled (ob_uid o)) owned in
      rdo volumes := rcall ListVolumes in
      match volumes with
      | Err e => RRet (failed_read e PvEnumerationUnverifiable "pv_enumeration_transient")
      | Ok volumes =>
          let associated := List.filter (fun v => match vo_claim_uid v with
                                                  | Some uid => existsb (String.eqb uid) pvc_uids
                                                  | None => false
                                                  end) volumes in
          RRet (if bool_decide (owned = []) && (Z.of_nat (length associated) =? 0) then FpVerified
                else if negb (bool_decide (expected = Forbidden)) && is_only_the_declared_workspace_claim owned sandbox
                then if bool_decide (expected = MayExist) then FpVerified else FpRetry "workspace_volume_still_present"
                else FpQuarantine UnexpectedPersistentStorage)
      end
  end.

(** ** Enumerations *)

Definition claim_labelled_sandboxes_absent (claim_uid : string) (recorded : option SandboxObjectReference)
  : rprog TargetFootprintCheck :=
  rdo listed := rcall (ListSandboxes claim_uid) in
  RRet match listed with
       | Ok [] => FpVerified
       | Ok objects =>
           match recorded, objects with
           | Some recorded, [o] =>
               if String.eqb (ob_name o) (oref_name recorded) && str_opt_eqb (ob_uid o) (Some (oref_uid recorded))
               then FpRetry "claim_labelled_sandbox_still_present"
               else FpQuarantine ClaimLabelledSandboxReplaced
           | Some _, _ => FpQuarantine ClaimLabelledSandboxReplaced
           | None, _ => FpQuarantine ClaimLabelledSandboxUnrecorded
           end
       | Err e => failed_read e SandboxEnumerationUnverifiable "sandbox_enumeration_transient"
       end.

Definition exact_owned_objects_absent (list_all : rreq (result (list Obj) kube_error)) (sandbox : SandboxObjectReference)
    (recorded : list SandboxObjectReference) (present : string) (replaced unverifiable : QuarantineReason)
    (transient : string) : rprog TargetFootprintCheck :=
  rdo listed := rcall list_all in
  RRet match listed with
       | Ok objects =>
           let owned := List.filter (fun o => controlled_by o sandbox) objects in
           if bool_decide (owned = []) then FpVerified
           else if existsb (fun o => existsb (fun r => String.eqb (ob_name o) (oref_name r)) recorded
                                     && negb (existsb (fun r => str_opt_eqb (ob_uid o) (Some (oref_uid r))) recorded)) owned
           then FpQuarantine replaced
           else FpRetry present
       | Err e => failed_read e unverifiable transient
       end.

(** The controlling Sandbox owner of an object. *)
Definition sandbox_owner (o : Obj) : option Owner :=
  ob_owner_references o ≫= List.find (fun w => bool_decide (ow_controller w = Some true)
    && String.eqb (ow_api_version w) SANDBOX_API_VERSION && String.eqb (ow_kind w) SANDBOX_KIND).

(** A Sandbox of the Claim: controlled by it or carrying its UID. *)
Definition sandbox_of_claim (o : Obj) (claim : SandboxObjectReference) : bool :=
  controlled_by o claim || str_opt_eqb (ob_labels o !! UPSTREAM_CLAIM_UID_LABEL) (Some (oref_uid claim)).

Fixpoint unresolved_owners (owners : list Owner) (claim : SandboxObjectReference) (present : string)
    (unverifiable : QuarantineReason) (transient : string) : rprog TargetFootprintCheck :=
  match owners with
  | [] => RRet FpVerified
  | owner :: owners =>
      rdo read := rcall (GetSandbox (ow_name owner)) in
      match read with
      | Ok sandbox =>
          if str_opt_eqb (ob_uid sandbox) (Some (ow_uid owner)) then
            if sandbox_of_claim sandbox claim then RRet (FpRetry present)
            else unresolved_owners owners claim present unverifiable transient
          else RRet (FpRetry present)
      | Err e => RRet (if is_404 e then FpRetry present else failed_read e unverifiable transient)
      end
  end.

Definition unresolved_sandbox_children_absent (list_all : rreq (result (list Obj) kube_error))
    (claim : SandboxObjectReference) (present : string) (unverifiable : QuarantineReason) (transient : string)
  : rprog TargetFootprintCheck :=
  rdo listed := rcall list_all in
  match listed with
  | Err e => RRet (failed_read e unverifiable transient)
  | Ok objects => unresolved_owners (omap sandbox_owner objects) claim present unverifiable transient
  end.

(** ** The footprint of a management lease *)

Definition recorded_pods (target : SandboxTargetProvenance) : list SandboxObjectReference :=
  option_list (tp_pod target) ++ tp_replacement_pods target.

Definition recorded_sandbox_absent (claim : SandboxObjectReference) (sandbox : option SandboxObjectReference)
  : rprog TargetFootprintCheck :=
  match sandbox with
  | None => RRet FpVerified
  | Some sandbox =>
      rdo absence := exact_object_absence GetSandbox sandbox claim in
      RRet (classify_exact_absence absence "sandbox_still_present" SandboxIdentityChangedDuringTeardown
              SandboxAbsenceUnverifiable "sandbox_absence_transient")
  end.

Definition recorded_pods_absent (target : SandboxTargetProvenance) : rprog TargetFootprintCheck :=
  match tp_sandbox target, recorded_pods target with
  | Some sandbox, _ :: _ =>
      rdo absence := recorded_pods_absence (recorded_pods target) sandbox in
      RRet (classify_exact_absence absence "pod_still_present" PodIdentityChangedDuringTeardown
              PodAbsenceUnverifiable "pod_absence_transient")
  | _, _ => RRet FpVerified
  end.

Definition recorded_service_absent (target : SandboxTargetProvenance) : rprog TargetFootprintCheck :=
  match tp_service target, tp_sandbox target with
  | Some service, Some sandbox =>
      rdo absence := exact_object_absence GetService service sandbox in
      RRet (classify_exact_absence absence "service_still_present" ServiceIdentityChangedDuringTeardown
              ServiceAbsenceUnverifiable "service_absence_transient")
  | _, _ => RRet FpVerified
  end.

(** The Sandboxes carrying the UID of any of the Claims. *)
Fixpoint labelled_sandboxes_absent (uids : list string) (sandbox : option SandboxObjectReference)
  : rprog TargetFootprintCheck :=
  match uids with
  | [] => RRet FpVerified
  | uid :: uids => claim_labelled_sandboxes_absent uid sandbox ;? labelled_sandboxes_absent uids sandbox
  end.

(** Both lists are read before either answer is looked at. *)
Definition owned_children_absent (target : SandboxTargetProvenance) (sandbox : SandboxObjectReference)
  : rprog TargetFootprintCheck :=
  rdo pods := exact_owned_objects_absent (ListPods None) sandbox (recorded_pods target)
    "sandbox_owned_pod_still_present" SandboxOwnedPodReplaced PodEnumerationUnverifiable "pod_enumeration_transient" in
  rdo services := exact_owned_objects_absent ListServices sandbox (option_list (tp_service target))
    "sandbox_owned_service_still_present" SandboxOwnedServiceReplaced ServiceEnumerationUnverifiable
    "service_enumeration_transient" in
  RRet (first_unverified [pods; services]).

Fixpoint unresolved_children_absent (claims : list SandboxObjectReference) : rprog TargetFootprintCheck :=
  match claims with
  | [] => RRet FpVerified
  | claim :: claims =>
      rdo pods := unresolved_sandbox_children_absent (ListPods None) claim "unresolved_sandbox_owned_pod_present"
        PodOwnerChainUnverifiable "pod_owner_chain_transient" in
      rdo services := unresolved_sandbox_children_absent ListServices claim "unresolved_sandbox_owned_service_present"
        ServiceOwnerChainUnverifiable "service_owner_chain_transient" in
      match first_unverified [pods; services] with
      | FpVerified => unresolved_children_absent claims
      | c => RRet c
      end
  end.

Definition claim_refs (claim tombstone : SandboxObjectReference) : list SandboxObjectReference :=
  claim :: if String.eqb (oref_uid tombstone) (oref_uid claim) then [] else [tombstone].

Definition management_target_footprint_absent (lease : ParentLease) (tombstone : SandboxObjectReference)
    (prior_claim_uid : option string) : rprog TargetFootprintCheck :=
  validate_management_target_provenance lease ;?
  match pl_status lease ≫= ls_target with
  | None => RRet (FpRetry "target_missing_after_verification")
  | Some target =>
      match tp_sandbox_claim target with
      | None => RRet (FpRetry "claim_missing_after_verification")
      | Some claim =>
          if negb (bool_decide ((pl_status lease ≫= fun st => td_sandbox_claim_tombstone (ls_teardown st)) = Some tombstone))
             || negb (str_opt_eqb prior_claim_uid (Some (oref_uid claim)))
             || negb (recorded_reference_is_exact tombstone AGENT_SANDBOX_API_VERSION SANDBOX_CLAIM_KIND ns)
             || negb (String.eqb (oref_name tombstone) (oref_name claim))
          then RRet (FpQuarantine ClaimTombstoneProvenanceInvalid)
          else
            let refs := claim_refs claim tombstone in
            recorded_sandbox_absent claim (tp_sandbox target) ;?
            recorded_pods_absent target ;?
            recorded_service_absent target ;?
            labelled_sandboxes_absent (map oref_uid refs) (tp_sandbox target) ;?
            match tp_sandbox target with
            | Some sandbox => owned_children_absent target sandbox
            | None => unresolved_children_absent refs
            end ;?
            exact_owned_storage_is_absent (map oref_uid refs) (tp_sandbox target) (workspace_storage target MustBeGone)
      end
  end.

(** ** Releases that came before any create *)

Definition admission_only_fence : string := "AdmissionOnlyV1".
Definition pre_create_fence : string := "PreCreateV1".
Definition finalizer_fence : string := "FinalizerV1".

(** The scans of both proofs: nothing descends from the tombstone. *)
Definition tombstone_has_no_descendants (tombstone : SandboxObjectReference) (pod_present service_present : string)
  : rprog TargetFootprintCheck :=
  claim_labelled_sandboxes_absent (oref_uid tombstone) None ;?
  unresolved_sandbox_children_absent (ListPods None) tombstone pod_present PodOwnerChainUnverifiable
    "pod_owner_chain_transient" ;?
  unresolved_sandbox_children_absent ListServices tombstone service_present ServiceOwnerChainUnverifiable
    "service_owner_chain_transient" ;?
  exact_owned_storage_is_absent [oref_uid tombstone] None Forbidden.

Definition tombstone_misrecorded (lease : ParentLease) (tombstone : SandboxObjectReference) : bool :=
  negb (bool_decide (td_sandbox_claim_tombstone (ls_teardown (status_of lease)) = Some tombstone))
  || negb (recorded_reference_is_exact tombstone AGENT_SANDBOX_API_VERSION SANDBOX_CLAIM_KIND ns)
  || negb (String.eqb (oref_name tombstone) (claim_name (pl_name lease))).

Definition is_child_placement (p : option ResolvedSandboxPlacement) : bool :=
  match p with Some (PlacedChildCluster _) => true | _ => false end.

Definition admission_only_management_footprint_absent (lease : ParentLease) (tombstone : SandboxObjectReference)
    (prior_claim_uid : option string) : rprog TargetFootprintCheck :=
  let status := status_of lease in
  if negb (str_opt_eqb (td_claim_cleanup_fence (ls_teardown status)) (Some admission_only_fence))
     || is_some (ls_observed_generation status) || is_some (ls_ready_at status) || is_some (ls_expires_at status)
     || is_some (ls_placement status) || is_some (ls_target status) || is_some prior_claim_uid
     || tombstone_misrecorded lease tombstone
  then RRet (FpQuarantine AdmissionOnlyProvenanceInvalid)
  else tombstone_has_no_descendants tombstone "admission_only_sandbox_owned_pod_present"
         "admission_only_sandbox_owned_service_present".

Definition internal_lease_name (sandbox_lease : string) : string := "kobe-sbx-" +:+ sandbox_lease.

Definition pre_create_footprint_absent (lease : ParentLease) (tombstone : SandboxObjectReference)
    (prior_claim_uid : option string) : rprog TargetFootprintCheck :=
  let status := status_of lease in
  if negb (str_opt_eqb (td_claim_cleanup_fence (ls_teardown status)) (Some pre_create_fence))
     || is_some (ls_ready_at status) || is_some (ls_expires_at status) || is_some (ls_target status)
     || is_child_placement (ls_placement status) || is_some prior_claim_uid
     || tombstone_misrecorded lease tombstone
  then RRet (FpQuarantine PreCreateProvenanceInvalid)
  else
    rdo handle := rcall (GetHandle (internal_lease_name (pl_name lease))) in
    match handle with
    | Ok _ => RRet (FpQuarantine PreCreateChildHandlePresent)
    | Err e =>
        if is_404 e
        then tombstone_has_no_descendants tombstone "pre_create_sandbox_owned_pod_present"
               "pre_create_sandbox_owned_service_present"
        else RRet (FpRetry "pre_create_child_handle_unreadable")
    end.

(** ** Before the Claim is converted *)

Definition preflight_management_target (lease : ParentLease) : rprog TargetFootprintCheck :=
  validate_management_target_provenance lease ;?
  match pl_status lease ≫= ls_target with
  | None => RRet (FpRetry "target_missing_after_verification")
  | Some target =>
      match tp_sandbox_claim target with
      | None => RRet (FpRetry "claim_missing_after_verification")
      | Some claim =>
          exact_owned_storage_is_absent [oref_uid claim] (tp_sandbox target) (workspace_storage target MayExist)
      end
  end.

(** [target_reference] for an object that is not a Claim. *)
Definition object_reference (api_version kind : string) (o : Obj) : option SandboxObjectReference :=
  uid ← filled (ob_uid o);
  Some {| oref_api_version := api_version; oref_kind := kind; oref_namespace := Some ns; oref_name := ob_name o;
          oref_uid := uid; oref_generation := None |}.

Definition with_descendants (t : SandboxTargetProvenance) (sandbox pod : option SandboxObjectReference)
    (replacements : list SandboxObjectReference) (service : option SandboxObjectReference) : SandboxTargetProvenance :=
  {| tp_namespace := tp_namespace t; tp_child_cluster_lease := tp_child_cluster_lease t;
     tp_child_cluster_instance := tp_child_cluster_instance t;
     tp_child_cluster_kubeconfig_secret := tp_child_cluster_kubeconfig_secret t;
     tp_child_cluster_kubeconfig_sha256 := tp_child_cluster_kubeconfig_sha256 t;
     tp_sandbox_template := tp_sandbox_template t; tp_sandbox_warm_pool := tp_sandbox_warm_pool t;
     tp_sandbox_claim := tp_sandbox_claim t; tp_sandbox := sandbox; tp_pod := pod;
     tp_replacement_pods := replacements; tp_service := service; tp_service_required := tp_service_required t;
     tp_workspace_volume_required := tp_workspace_volume_required t |}.

Inductive ManagementDescendantCheckpoint : Type :=
| DescendantsCurrent
| DescendantsUpdated (target : SandboxTargetProvenance)
| DescendantsCheck (check : TargetFootprintCheck).

(** The Service the Sandbox names, to record: [Ok None] keeps what is recorded. *)
Definition observed_service (sandbox : Obj) (sandbox_ref : SandboxObjectReference)
  : rprog (result (option SandboxObjectReference) TargetFootprintCheck) :=
  match filled (ob_service sandbox) with
  | None => RRet (Ok None)
  | Some name =>
      rdo read := rcall (GetService name) in
      RRet match read with
           | Ok service =>
               if controlled_by service sandbox_ref then
                 match object_reference "v1" "Service" service with
                 | Some r => Ok (Some r)
                 | None => Err (FpQuarantine ServiceIdentityUnverifiable)
                 end
               else Err (FpQuarantine ServiceOwnerIdentityChanged)
           | Err e => if is_404 e then Ok None
                      else Err (failed_read e ServiceAbsenceUnverifiable "service_lookup_transient")
           end
  end.

(** The one Pod the Sandbox selects. *)
Definition observed_pod (sandbox : Obj) (sandbox_ref : SandboxObjectReference)
  : rprog (result (option SandboxObjectReference) TargetFootprintCheck) :=
  match filled (ob_selector sandbox) with
  | None => RRet (Ok None)
  | Some selector =>
      rdo listed := rcall (ListPods (Some selector)) in
      RRet match listed with
           | Err e => Err (failed_read e PodEnumerationUnverifiable "pod_enumeration_transient")
           | Ok [] => Ok None
           | Ok [pod] =>
               if controlled_by pod sandbox_ref then
                 match object_reference "v1" "Pod" pod with
                 | Some r => Ok (Some r)
                 | None => Err (FpQuarantine PodIdentityUnverifiable)
                 end
               else Err (FpQuarantine PodOwnerIdentityChanged)
           | Ok _ => Err (FpQuarantine PodSelectorAmbiguous)
           end
  end.

(** The served Pod is written once; another Pod is recorded beside it. *)
Definition record_pod (target : SandboxTargetProvenance) (pod : option SandboxObjectReference)
  : result (option SandboxObjectReference * list SandboxObjectReference) TargetFootprintCheck :=
  let replacements := tp_replacement_pods target in
  match pod with
  | None => Ok (tp_pod target, replacements)
  | Some r =>
      match tp_pod target with
      | None => Ok (Some r, replacements)
      | Some served =>
          if bool_decide (served = r) then Ok (Some served, replacements)
          else if existsb (fun p => bool_decide (p = r)) replacements then Ok (Some served, replacements)
          else if (MAX_REPLACEMENT_PODS <=? length replacements)%nat then Err (FpQuarantine PodReplacementUnbounded)
          else Ok (Some served, replacements ++ [r])
      end
  end.

Definition checkpoint_sandbox (target : SandboxTargetProvenance) (claim_ref : SandboxObjectReference) (sandbox : Obj)
  : rprog ManagementDescendantCheckpoint :=
  let quarantine r := RRet (DescendantsCheck (FpQuarantine r)) in
  if negb (controlled_by sandbox claim_ref) then quarantine SandboxOwnerIdentityChanged
  else
    match object_reference SANDBOX_API_VERSION SANDBOX_KIND sandbox with
    | None => quarantine SandboxIdentityUnverifiable
    | Some sandbox_ref =>
        if match tp_sandbox target with Some recorded => negb (bool_decide (recorded = sandbox_ref)) | None => false end
        then quarantine SandboxIdentityChangedDuringTeardown
        else
          rdo service := observed_service sandbox sandbox_ref in
          match service with
          | Err c => RRet (DescendantsCheck c)
          | Ok service =>
              rdo pod := observed_pod sandbox sandbox_ref in
              RRet match (let? pod := pod in record_pod target pod) with
                   | Err c => DescendantsCheck c
                   | Ok (pod, replacements) =>
                       let proposed := with_descendants target (Some sandbox_ref) pod replacements
                         (match service with Some r => Some r | None => tp_service target end) in
                       if bool_decide (proposed = target) then DescendantsCurrent else DescendantsUpdated proposed
                   end
          end
    end.

Definition checkpoint_management_descendants (lease : ParentLease) : rprog ManagementDescendantCheckpoint :=
  rdo validation := validate_management_target_provenance lease in
  if negb (bool_decide (validation = FpVerified)) then RRet (DescendantsCheck validation)
  else
    match pl_status lease ≫= ls_target with
    | None => RRet (DescendantsCheck (FpRetry "target_missing_after_verification"))
    | Some target =>
        match tp_sandbox_claim target with
        | None => RRet (DescendantsCheck (FpRetry "claim_missing_after_verification"))
        | Some claim_ref =>
            rdo read := rcall (GetClaim (oref_name claim_ref)) in
            match read with
            | Err e => RRet (if is_404 e then DescendantsCurrent
                             else DescendantsCheck (failed_read e ClaimAbsenceUnverifiable "claim_lookup_transient"))
            | Ok (claim, sandbox_name) =>
                if negb (str_opt_eqb (cl_uid claim) (Some (oref_uid claim_ref))) then RRet DescendantsCurrent
                else
                  match filled sandbox_name with
                  | None => RRet DescendantsCurrent
                  | Some name =>
                      rdo sandbox := rcall (GetSandbox name) in
                      match sandbox with
                      | Err e => RRet (if is_404 e then DescendantsCurrent
                                       else DescendantsCheck (failed_read e SandboxAbsenceUnverifiable "sandbox_lookup_transient"))
                      | Ok sandbox => checkpoint_sandbox target claim_ref sandbox
                      end
                  end
            end
        end
    end.
End Footprint.
