(* ===== verification/Release.v ===== *)
(** * The release of a Sandbox lease

    [drive_release] of src/controllers/sandbox.rs and what it calls: why a lease
    is released, the allocation fence, the quarantine and stall records, the
    bounded drains, and the order in which gate, executions, identities, Claim
    and footprint are dealt with.  A pass ends with an action, or by handing the
    lease to [finish_release] (in [Admission]) or to the child-cluster paths. *)

From S2P Require Import Prelude Text Quarantine Durations SandboxObjects SandboxLifecycle LedgerApi AccessLedger ExecutionApi ExecutionCleanup AdmissionApi Admission Claims Footprint.

Local Open Scope kobe_scope.

(** ** Reasons *)

Inductive ReleaseReason : Type :=
| ReasonRequested | ReasonRuntimeTtl | ReasonProvisioningDeadline | ReasonModeDisabled | ReasonMissingCause
| ReasonUnverifiable | ReasonWorkloadLost.
#[global] Instance ReleaseReason_eq_dec : EqDecision ReleaseReason. Proof. solve_decision. Defined.

Definition persisted_cause (r : ReleaseReason) : option SandboxReleaseCause :=
  match r with
  | ReasonRequested => Some CauseRequested
  | ReasonRuntimeTtl => Some CauseRuntimeTtl
  | ReasonProvisioningDeadline => Some CauseProvisioningDeadline
  | ReasonModeDisabled => Some CauseModeDisabled
  | ReasonUnverifiable => Some CauseUnverifiable
  | ReasonWorkloadLost => Some CauseWorkloadLost
  | ReasonMissingCause => None
  end.

Definition from_persisted (c : SandboxReleaseCause) : ReleaseReason :=
  match c with
  | CauseRequested => ReasonRequested
  | CauseRuntimeTtl => ReasonRuntimeTtl
  | CauseProvisioningDeadline => ReasonProvisioningDeadline
  | CauseModeDisabled => ReasonModeDisabled
  | CauseUnverifiable => ReasonUnverifiable
  | CauseWorkloadLost => ReasonWorkloadLost
  end.

Inductive Action : Type := ActAwait | ActRequeue (d : Z).

(** How a pass ends. *)
Inductive ReleasePass : Type :=
| PassDone (r : result Action PlacementError)
| PassFinish (reason : ReleaseReason)
| PassChild
| PassChildFinish.

Definition requeue (secs : Z) : ReleasePass := PassDone (Ok (ActRequeue (seconds secs))).

Section Release.
Context (parse_rfc3339 : string -> option Z) (to_rfc3339 to_rfc3339_z : Z -> string).
Context (configured_retention : option string) (ns : string) (access_ledger_enabled : bool).
(** [admitted_reservation_provenance_is_valid] of [Admission], which depends on
    the stored encoding of token sets. *)
Context (admitted : ParentLease -> bool).

Definition elapsed (now : Z) (deadline : option string) : option Z :=
  t ← deadline ≫= parse_rfc3339; if t <=? now then Some t else None.

Definition release_reason (lease : ParentLease) (now : Z) : option ReleaseReason :=
  let status := status_of lease in
  match ls_phase status with
  | SandboxLeasePhase.Released | SandboxLeasePhase.Expired => None
  | SandboxLeasePhase.Quarantined => from_persisted <$> ls_release_cause status
  | phase =>
      match ls_release_cause status with
      | Some cause => Some (from_persisted cause)
      | None =>
          let runtime := if is_some (ls_ready_at status) then elapsed now (ls_expires_at status) else None in
          let provisioning :=
            if is_none (ls_ready_at status) then elapsed now (ls_provisioning_deadline status) else None in
          let expiry :=
            match runtime, provisioning with
            | Some r, Some p => if r <=? p then Some (r, ReasonRuntimeTtl) else Some (p, ReasonProvisioningDeadline)
            | Some r, None => Some (r, ReasonRuntimeTtl)
            | None, Some p => Some (p, ReasonProvisioningDeadline)
            | None, None => None
            end in
          let annotated := pl_annotations lease !! SANDBOX_RELEASE_REQUESTED_AT_ANNOTATION in
          let annotation_time := annotated ≫= parse_rfc3339 in
          let deletion_time := pl_deletion_timestamp lease ≫= parse_rfc3339 in
          let requested_at :=
            match annotation_time, deletion_time with
            | Some a, Some d => Some (Z.min a d)
            | Some a, None => Some a
            | None, d => d
            end in
          let requested := is_some annotated || is_some (pl_deletion_timestamp lease) in
          match expiry with
          | None => if requested then Some ReasonRequested
                    else if bool_decide (phase = SandboxLeasePhase.Releasing) then Some ReasonMissingCause else None
          | Some (deadline, reason) =>
              if requested && match requested_at with Some r => r <=? deadline | None => false end
              then Some ReasonRequested else Some reason
          end
      end
  end.

Definition sandbox_finalizer_present (lease : ParentLease) : bool :=
  existsb (String.eqb SANDBOX_LEASE_FINALIZER) (default [] (pl_finalizers lease)).

(** No create was named, and none may have been: the part both shapes share. *)
Definition nothing_named (lease : ParentLease) (status : SandboxLeaseStatus) : bool :=
  is_none (ls_ready_at status) && is_none (ls_expires_at status) && is_none (ls_release_cause status)
  && is_none (ls_target status) && is_none (td_claim_cleanup_fence (ls_teardown status))
  && is_none (td_sandbox_claim_tombstone (ls_teardown status)) && is_none (td_allocation_fence (ls_teardown status))
  && match ls_conditions status with [] => true | _ => false end
  && sandbox_finalizer_present lease && admitted lease.

Definition admitted_pending_is_allocation_free (lease : ParentLease) (status : SandboxLeaseStatus) : bool :=
  bool_decide (ls_phase status = SandboxLeasePhase.Pending) && is_none (ls_observed_generation status)
  && is_some (ls_provisioning_deadline status ≫= parse_rfc3339) && is_none (ls_placement status)
  && nothing_named lease status.

Definition pre_create_is_allocation_free (lease : ParentLease) (status : SandboxLeaseStatus) : bool :=
  (bool_decide (ls_phase status = SandboxLeasePhase.Pending)
   || bool_decide (ls_phase status = SandboxLeasePhase.Provisioning))
  && negb (is_child_placement (ls_placement status)) && nothing_named lease status.

(** The final gate of every create. *)
Definition sandbox_lease_authorizes_allocation (current : ParentLease) (now : Z) : bool :=
  let status := status_of current in
  is_none (pl_deletion_timestamp current)
  && bool_decide (admission_marker current = Some SANDBOX_ADMISSION_ADMITTED)
  && sandbox_finalizer_present current && bool_decide (ls_phase status = SandboxLeasePhase.Provisioning)
  && is_none (td_allocation_fence (ls_teardown status)) && negb (footprint_absence_proven status)
  && is_none (release_reason current now).

(** ** Status writes *)

Definition with_teardown (st : SandboxLeaseStatus) (teardown : SandboxTeardownRecord) : SandboxLeaseStatus :=
  {| ls_phase := ls_phase st; ls_observed_generation := ls_observed_generation st;
     ls_provisioning_deadline := ls_provisioning_deadline st; ls_ready_at := ls_ready_at st;
     ls_expires_at := ls_expires_at st; ls_extensions_count := ls_extensions_count st;
     ls_granted_extension_seconds := ls_granted_extension_seconds st; ls_release_cause := ls_release_cause st;
     ls_placement := ls_placement st; ls_target := ls_target st; ls_teardown := teardown;
     ls_conditions := ls_conditions st |}.

Definition with_cause (st : SandboxLeaseStatus) (phase : SandboxLeasePhase.t) (cause : option SandboxReleaseCause)
    (conditions : list SandboxCondition) : SandboxLeaseStatus :=
  {| ls_phase := phase; ls_observed_generation := ls_observed_generation st;
     ls_provisioning_deadline := ls_provisioning_deadline st; ls_ready_at := ls_ready_at st;
     ls_expires_at := ls_expires_at st; ls_extensions_count := ls_extensions_count st;
     ls_granted_extension_seconds := ls_granted_extension_seconds st; ls_release_cause := cause;
     ls_placement := ls_placement st; ls_target := ls_target st; ls_teardown := ls_teardown st;
     ls_conditions := conditions |}.

Definition with_target (st : SandboxLeaseStatus) (target : option SandboxTargetProvenance) : SandboxLeaseStatus :=
  {| ls_phase := ls_phase st; ls_observed_generation := ls_observed_generation st;
     ls_provisioning_deadline := ls_provisioning_deadline st; ls_ready_at := ls_ready_at st;
     ls_expires_at := ls_expires_at st; ls_extensions_count := ls_extensions_count st;
     ls_granted_extension_seconds := ls_granted_extension_seconds st; ls_release_cause := ls_release_cause st;
     ls_placement := ls_placement st; ls_target := target; ls_teardown := ls_teardown st;
     ls_conditions := ls_conditions st |}.

Definition with_claim (t : SandboxTargetProvenance) (claim : option SandboxObjectReference) : SandboxTargetProvenance :=
  {| tp_namespace := tp_namespace t; tp_child_cluster_lease := tp_child_cluster_lease t;
     tp_child_cluster_instance := tp_child_cluster_instance t;
     tp_child_cluster_kubeconfig_secret := tp_child_cluster_kubeconfig_secret t;
     tp_child_cluster_kubeconfig_sha256 := tp_child_cluster_kubeconfig_sha256 t;
     tp_sandbox_template := tp_sandbox_template t; tp_sandbox_warm_pool := tp_sandbox_warm_pool t;
     tp_sandbox_claim := claim; tp_sandbox := tp_sandbox t; tp_pod := tp_pod t;
     tp_replacement_pods := tp_replacement_pods t; tp_service := tp_service t;
     tp_service_required := tp_service_required t; tp_workspace_volume_required := tp_workspace_volume_required t |}.

Definition with_fences (t : SandboxTeardownRecord) (releasing_at cleanup : option string)
    (tombstone allocation : option SandboxObjectReference) : SandboxTeardownRecord :=
  {| td_releasing_at := releasing_at; td_claim_cleanup_fence := cleanup; td_sandbox_claim_tombstone := tombstone;
     td_allocation_fence := allocation; td_child_teardown_mode := td_child_teardown_mode t;
     td_child_teardown_receipt_acknowledgement := td_child_teardown_receipt_acknowledgement t;
     td_child_teardown_evidence := td_child_teardown_evidence t;
     td_child_unbound_release_proof := td_child_unbound_release_proof t |}.

(** [patch_lease_status_fenced]: [Ok false] is a lost race. *)
Definition write_status (lease : ParentLease) (status : SandboxLeaseStatus) : rprog (result bool PlacementError) :=
  match fence lease with
  | Err _ => RRet (Err (PlacementInvalid "no UID or resourceVersion to fence status"))
  | Ok _ =>
      rdo written := rcall (WriteStatus status) in
      RRet match written with
           | Ok _ => Ok true
           | Err e => if optimistic_conflict e then Ok false else Err (PlacementKubernetes e)
           end
  end.

(** Continue with the written status, or end the pass with the error. *)
Definition written (p : rprog (result bool PlacementError)) (k : bool -> ReleasePass) : rprog ReleasePass :=
  rdo r := p in RRet match r with Ok b => k b | Err e => PassDone (Err e) end.

Definition record_stall (lease : ParentLease) (reason message : string) (retry : Z) : rprog ReleasePass :=
  let status := status_of lease in
  if existsb (fun c => String.eqb (sc_type c) CLEANUP_VERIFIED_CONDITION && bool_decide (sc_status c = ConditionFalse)
                       && String.eqb (sc_reason c) reason && String.eqb (sc_message c) message) (ls_conditions status)
  then RRet (requeue retry)
  else
    rdo now := rcall ReadTime in
    written (write_status lease
      (with_phase_conditions status (ls_phase status)
         (with_condition_for_status to_rfc3339 status (pl_generation lease) CLEANUP_VERIFIED_CONDITION ConditionFalse
            reason message now)))
      (fun b => requeue (if b then retry else 5)).

Definition quarantine_lease_with_cause (lease : ParentLease) (reason : QuarantineReason)
    (stamp : option SandboxReleaseCause) : rprog ReleasePass :=
  let status := status_of lease in
  if footprint_absence_proven status then RRet (requeue 5)
  else
    match transition_sandbox_phase (ls_phase status) SandboxLeasePhase.Quarantined false with
    | Err _ => RRet (PassDone (Err (PlacementInvalid "the lease cannot be quarantined")))
    | Ok phase =>
        rdo now := rcall ReadTime in
        written (write_status lease
          (with_cause status phase (match ls_release_cause status with Some c => Some c | None => stamp end)
             (with_condition_for_status to_rfc3339 status (pl_generation lease) CLEANUP_VERIFIED_CONDITION ConditionFalse
                (reason_as_str reason) "Teardown could not be verified; capacity is withheld" now)))
          (fun b => requeue (if b then 300 else 5))
    end.

Definition quarantine_lease (lease : ParentLease) (reason : QuarantineReason) : rprog ReleasePass :=
  quarantine_lease_with_cause lease reason None.

(** ** The allocation fence *)

Definition SANDBOX_ALLOCATION_FENCE_LABEL : string := "kobe.kunobi.ninja/sandbox-allocation-fence".
Definition SANDBOX_ALLOCATION_FENCE_RETAIN_UNTIL_ANNOTATION : string :=
  "kobe.kunobi.ninja/allocation-fence-retain-until".
Definition SANDBOX_ALLOCATION_FENCE_HOLDER_PREFIX : string := "closed:".
Definition SANDBOX_ALLOCATION_DRAIN_MARGIN : Z := seconds 5.

Definition allocation_fence_name (lease : string) : string := "kobe-sbx-fence-" +:+ lease.

Inductive AllocationFence : Type :=
| FenceCheckpointed
| FenceDraining (d : Z)
| FenceClosed
| FenceQuarantine (reason : QuarantineReason).

Definition lease_label_is (o : Lease) (k v : string) : bool := str_opt_eqb (l_labels o !! k) (Some v).

Definition allocation_fence_matches (fence : Lease) (lease : ParentLease) : bool :=
  match lease_uid lease with
  | None => false
  | Some uid =>
      String.eqb (l_name fence) (allocation_fence_name (pl_name lease)) && str_opt_eqb (l_namespace fence) (Some ns)
      && is_none (l_deletion_timestamp fence)
      && match l_owner_references fence with None | Some [] => true | _ => false end
      && lease_label_is fence MANAGED_BY_LABEL KOBE_MANAGED_BY && lease_label_is fence SANDBOX_LEASE_UID_LABEL uid
      && lease_label_is fence SANDBOX_ALLOCATION_FENCE_LABEL "true"
      && str_opt_eqb (l_annotations fence !! SANDBOX_ALLOCATION_FENCE_LEASE_NAME_ANNOTATION) (Some (pl_name lease))
      && str_opt_eqb (l_spec fence ≫= spec_holder_identity) (Some (SANDBOX_ALLOCATION_FENCE_HOLDER_PREFIX +:+ uid))
  end.

Definition allocation_fence_needs_drain (status : SandboxLeaseStatus) : bool :=
  negb (bool_decide (ls_placement status = Some PlacedManagement)).

Definition build_allocation_fence (lease : ParentLease) (uid : string) (now : Z) : Lease :=
  {| l_name := allocation_fence_name (pl_name lease); l_namespace := Some ns; l_uid := None; l_resource_version := None;
     l_labels := <[MANAGED_BY_LABEL := KOBE_MANAGED_BY]> (<[SANDBOX_LEASE_UID_LABEL := uid]>
                   {[SANDBOX_ALLOCATION_FENCE_LABEL := "true"]});
     l_annotations :=
       <[SANDBOX_ALLOCATION_FENCE_RETAIN_UNTIL_ANNOTATION :=
           to_rfc3339 (sandbox_retention_deadline configured_retention now)]>
         {[SANDBOX_ALLOCATION_FENCE_LEASE_NAME_ANNOTATION := pl_name lease]};
     l_owner_references := None; l_finalizers := None; l_deletion_timestamp := None;
     l_spec := Some {| spec_acquire_time := None;
                       spec_holder_identity := Some (SANDBOX_ALLOCATION_FENCE_HOLDER_PREFIX +:+ uid);
                       spec_lease_duration_seconds := None; spec_lease_transitions := None;
                       spec_preferred_holder := None; spec_renew_time := None; spec_strategy := None |} |}.

(** What the fence that was read or created means; the pair carries its
    [creationTimestamp]. *)
Definition judge_fence (lease : ParentLease) (fence : Lease) (created : option string)
  : rprog (result AllocationFence PlacementError) :=
  let status := status_of lease in
  let recorded := td_allocation_fence (ls_teardown status) in
  if negb (allocation_fence_matches fence lease) then RRet (Ok (FenceQuarantine AllocationFenceIdentityChanged))
  else
    match filled (l_uid fence) with
    | None => RRet (Ok (FenceQuarantine AllocationFenceUidMissing))
    | Some fence_uid =>
        match recorded with
        | None =>
            let t := ls_teardown status in
            rdo r := write_status lease (with_teardown status (with_fences t (td_releasing_at t) (td_claim_cleanup_fence t)
              (td_sandbox_claim_tombstone t)
              (Some {| oref_api_version := "coordination.k8s.io/v1"; oref_kind := "Lease"; oref_namespace := Some ns;
                       oref_name := l_name fence; oref_uid := fence_uid; oref_generation := None |}))) in
            RRet match r with Ok _ => Ok FenceCheckpointed | Err e => Err e end
        | Some recorded =>
            if negb (String.eqb (oref_uid recorded) fence_uid)
            then RRet (Ok (FenceQuarantine AllocationFenceIdentityChanged))
            else
              match created ≫= parse_rfc3339 with
              | None => RRet (Ok (FenceQuarantine AllocationFenceTimestampMissing))
              | Some created_at =>
                  if negb (allocation_fence_needs_drain status) then RRet (Ok FenceClosed)
                  else
                    rdo now := rcall ReadTime in
                    let drain := SANDBOX_CLAIM_CREATE_TIMEOUT + SANDBOX_ALLOCATION_DRAIN_MARGIN in
                    let waited := Z.max 0 (now - created_at) in
                    RRet (Ok (if waited <? drain then FenceDraining (drain - waited) else FenceClosed))
              end
        end
    end.

Definition ensure_allocation_fence (lease : ParentLease) : rprog (result AllocationFence PlacementError) :=
  let recorded := td_allocation_fence (ls_teardown (status_of lease)) in
  let name := allocation_fence_name (pl_name lease) in
  match lease_uid lease with
  | None => RRet (Err (PlacementInvalid "no UID for its allocation fence"))
  | Some uid =>
      if match recorded with
         | Some r => negb (recorded_reference_is_exact r "coordination.k8s.io/v1" "Lease" ns && String.eqb (oref_name r) name)
         | None => false
         end
      then RRet (Ok (FenceQuarantine AllocationFenceProvenanceInvalid))
      else
        rdo read := rcall (GetFence name) in
        match read with
        | Ok (fence, created) => judge_fence lease fence created
        | Err e =>
            if is_404 e then
              if is_some recorded then RRet (Ok (FenceQuarantine AllocationFenceMissing))
              else
                rdo now := rcall ReadTime in
                rdo made := rcall (CreateFence (build_allocation_fence lease uid now)) in
                match made with
                | Some (Ok (fence, created)) => judge_fence lease fence created
                | Some (Err e) =>
                    if is_409 e then
                      rdo again := rcall (GetFence name) in
                      match again with
                      | Ok (fence, created) => judge_fence lease fence created
                      | Err e => RRet (Err (PlacementKubernetes e))
                      end
                    else RRet (Err (PlacementKubernetes e))
                | None => RRet (Ok (FenceDraining (seconds 10)))
                end
            else if is_401_or_403 e then RRet (Ok (FenceQuarantine AllocationFenceUnverifiable))
            else RRet (Err (PlacementKubernetes e))
        end
  end.

(** ** The bounded drains *)

Definition ACCESS_DRAIN_ATTEMPTS : nat := 4.
Definition EXECUTION_DRAIN_MAX_STEPS : nat := 64.
Definition EXECUTION_DRAIN_BUDGET : Z := seconds 10.
Definition EXECUTION_CLEANUP_RETRY : Z := 15.
Definition EXECUTION_CREATION_RETRY : Z := 2.
Definition FOOTPRINT_ABSENCE_POLL : Z := 5.
Definition ACCESS_DRAIN_RETRY : Z := 1.
Definition EXECUTION_CREATION_STALL_REASON : string := "ExecutionCreationUnresolved".
Definition EXECUTION_CREATION_STALL_MESSAGE : string :=
  "An execution reservation is still Creating; release waits until its writer binds it or the reaper retires it".

Fixpoint drain_access (attempts : nat) (outcome : AccessDrain) : rprog (result AccessDrain AccessLedgerError) :=
  match attempts with
  | O => RRet (Ok outcome)
  | S attempts =>
      rdo r := rcall DrainAccess in
      match r with
      | Err e => RRet (Err e)
      | Ok Drained => RRet (Ok Drained)
      | Ok outcome => drain_access attempts outcome
      end
  end.

Definition close_and_drain_access : rprog (result AccessDrain AccessLedgerError) :=
  drain_access ACCESS_DRAIN_ATTEMPTS Waiting.

(** [remaining] steps are remaining of [EXECUTION_DRAIN_MAX_STEPS]. *)
Fixpoint drain_steps (remaining : nat) (target_absent : bool) (deadline : Z) : rprog ExecutionCleanupOutcome :=
  match remaining with
  | O => RRet CleanupCheckpointed
  | S remaining =>
      rdo outcome := rcall (CleanExecutions target_absent) in
      match outcome with
      | CleanupCheckpointed =>
          match remaining with
          | O => RRet CleanupCheckpointed
          | _ =>
              rdo now := rcall ReadTime in
              if deadline <=? now then RRet CleanupCheckpointed
              else
                rdo stop := rcall StopRequested in
                if stop : bool then RRet CleanupCheckpointed else drain_steps remaining target_absent deadline
          end
      | outcome => RRet outcome
      end
  end.

Definition drain_execution_cleanup (target_absent : bool) : rprog ExecutionCleanupOutcome :=
  rdo now := rcall ReadTime in
  drain_steps EXECUTION_DRAIN_MAX_STEPS target_absent (now + EXECUTION_DRAIN_BUDGET).

Inductive ExecutionCleanupAdvance : Type :=
| AdvanceContinue
| AdvanceCheckpointed
| AdvanceDestroyTarget
| AdvanceRetry (secs : Z)
| AdvanceCreationStalled
| AdvanceQuarantine (reason : QuarantineReason).

Definition execution_cleanup_advance (outcome : ExecutionCleanupOutcome) : ExecutionCleanupAdvance :=
  match outcome with
  | CleanupClean => AdvanceContinue
  | CleanupCheckpointed => AdvanceCheckpointed
  | AwaitTargetDestruction => AdvanceDestroyTarget
  | CleanupRetry => AdvanceRetry EXECUTION_CLEANUP_RETRY
  | AwaitCreation false => AdvanceRetry EXECUTION_CREATION_RETRY
  | AwaitCreation true => AdvanceCreationStalled
  | Quarantine reason => AdvanceQuarantine reason
  end.

Definition record_execution_creation_stall (lease : ParentLease) : rprog ReleasePass :=
  record_stall lease EXECUTION_CREATION_STALL_REASON EXECUTION_CREATION_STALL_MESSAGE EXECUTION_CLEANUP_RETRY.

(** ** Which placement *)

Definition is_child_placed (lease : ParentLease) : rprog bool :=
  let status := status_of lease in
  match ls_placement status with
  | Some PlacedManagement => RRet false
  | Some (PlacedChildCluster _) => RRet true
  | None =>
      if is_some (ls_target status ≫= tp_child_cluster_lease) then RRet true
      else
        rdo read := rcall (GetHandle (internal_lease_name (pl_name lease))) in
        RRet match read with Ok _ => true | Err e => negb (is_404 e) end
  end.

(** ** The Claim *)

(** [ensure_management_claim_tombstone].  The checks of the recorded references
    precede the read in the code; they do not depend on it. *)
Definition ensure_management_claim_tombstone (lease : ParentLease)
  : rprog (result ManagementClaimTombstone PlacementError) :=
  let status := status_of lease in
  rdo read := rcall (GetClaim (claim_name (pl_name lease))) in
  rdo now := rcall ReadTime in
  let plan := tombstone_plan parse_rfc3339 to_rfc3339 to_rfc3339_z configured_retention ns lease
                (match read with Ok (c, _) => Ok c | Err e => Err e end) now in
  match plan with
  | PlanAnswer r => RRet r
  | PlanCheckpoint reference =>
      let t := ls_teardown status in
      rdo r := write_status lease (with_teardown status (with_fences t (td_releasing_at t) (td_claim_cleanup_fence t)
                                                           (Some reference) (td_allocation_fence t))) in
      RRet match r with Ok _ => Ok TombstoneCheckpointed | Err e => Err e end
  | PlanCreate c =>
      rdo answered := rcall (WriteClaim (ClaimCreate c)) in RRet (tombstone_answer plan answered)
  | PlanMigrate w | PlanConvert w =>
      rdo answered := rcall (WriteClaim w) in RRet (tombstone_answer plan answered)
  end.

(** What a footprint check means for the pass. *)
Definition conclude (lease : ParentLease) (reason : ReleaseReason) (retry : Z) (check : TargetFootprintCheck)
  : rprog ReleasePass :=
  match check with
  | FpVerified => RRet (PassFinish reason)
  | FpRetry _ => RRet (requeue retry)
  | FpQuarantine q => quarantine_lease lease q
  end.

Definition checkpoint_never_started_management_claim (lease : ParentLease) (tombstone : SandboxObjectReference)
    (prior_claim_uid : option string) (reason : ReleaseReason) : rprog ReleasePass :=
  let status := status_of lease in
  let fence := td_claim_cleanup_fence (ls_teardown status) in
  if str_opt_eqb fence (Some admission_only_fence) then
    rdo check := admission_only_management_footprint_absent ns lease tombstone prior_claim_uid in
    conclude lease reason 10 check
  else if str_opt_eqb fence (Some pre_create_fence) then
    rdo check := pre_create_footprint_absent ns lease tombstone prior_claim_uid in
    conclude lease reason 10 check
  else if negb (str_opt_eqb fence (Some finalizer_fence)) then quarantine_lease lease ClaimProvenanceMissingAfterAbsence
  else
    match ls_target status with
    | None => quarantine_lease lease ManagementTargetProvenanceMissing
    | Some target =>
        if negb (String.eqb (tp_namespace target) ns) || is_some (tp_sandbox_claim target)
           || negb (recorded_reference_is_exact tombstone AGENT_SANDBOX_API_VERSION SANDBOX_CLAIM_KIND ns)
           || negb (String.eqb (oref_name tombstone) (claim_name (pl_name lease)))
        then quarantine_lease lease ClaimTombstoneProvenanceInvalid
        else
          written (write_status lease (with_target status (Some (with_claim target (Some tombstone)))))
            (fun _ => PassDone (Ok ActAwait))
    end.

(** A tombstone where no workload Claim was recorded. *)
Definition release_unrecorded_tombstone (lease : ParentLease) (reason : ReleaseReason) : rprog ReleasePass :=
  rdo r := ensure_management_claim_tombstone lease in
  match r with
  | Err e => RRet (PassDone (Err e))
  | Ok TombstoneCheckpointed => RRet (PassDone (Ok ActAwait))
  | Ok (TombstoneRetry secs) => RRet (requeue secs)
  | Ok (TombstoneReady _ tombstone prior) => checkpoint_never_started_management_claim lease tombstone prior reason
  | Ok (TombstoneQuarantine q) => quarantine_lease lease q
  end.

Definition empty_target : SandboxTargetProvenance :=
  {| tp_namespace := ns; tp_child_cluster_lease := None; tp_child_cluster_instance := None;
     tp_child_cluster_kubeconfig_secret := None; tp_child_cluster_kubeconfig_sha256 := None;
     tp_sandbox_template := None; tp_sandbox_warm_pool := None; tp_sandbox_claim := None; tp_sandbox := None;
     tp_pod := None; tp_replacement_pods := []; tp_service := None; tp_service_required := None;
     tp_workspace_volume_required := None |}.

(** A live Claim whose identity was never recorded is recorded, or migrated
    first, and the pass ends. *)
Definition recover_claim (lease : ParentLease) (observed : Claim) : rprog ReleasePass :=
  let status := status_of lease in
  let record :=
    match target_reference ns observed with
    | Err e => RRet (PassDone (Err e))
    | Ok reference =>
        let target := default empty_target (ls_target status) in
        if negb (String.eqb (tp_namespace target) ns) then quarantine_lease lease ClaimNamespaceChanged
        else written (write_status lease (with_target status (Some (with_claim target (Some reference)))))
               (fun _ => PassDone (Ok ActAwait))
    end in
  match pl_uid lease with
  | None => RRet (PassDone (Err (PlacementInvalid "no UID to recover claim provenance")))
  | Some uid =>
      if negb (claim_is_for_lease observed uid) then quarantine_lease lease ClaimIdentityUnverifiable
      else if is_some (cl_deletion_timestamp observed) then
        if negb (metadata_has_no_owner_references (cl_owner_references observed))
           || negb (sandbox_claim_cleanup_finalizer_present observed)
        then quarantine_lease lease ClaimIdentityUnverifiable
        else record
      else
        match ensure_management_claim_fenced parse_rfc3339 ns observed lease with
        | Err e => RRet (PassDone (Err e))
        | Ok FenceReady => record
        | Ok FenceForeign => quarantine_lease lease ClaimIdentityUnverifiable
        | Ok (FencePatched w) =>
            rdo answered := rcall (WriteClaim w) in
            RRet match answered with
                 | Some (Err e) => if optimistic_conflict e then requeue 5 else PassDone (Err (PlacementKubernetes e))
                 | _ => requeue 5
                 end
        end
  end.

Definition release_unrecorded_claim (lease : ParentLease) (reason : ReleaseReason) : rprog ReleasePass :=
  rdo read := rcall (GetClaim (claim_name (pl_name lease))) in
  match read with
  | Err e => if is_404 e then release_unrecorded_tombstone lease reason
             else if is_401_or_403 e then quarantine_lease lease ClaimAbsenceUnverifiable
             else RRet (requeue 15)
  | Ok (observed, _) =>
      if is_some (td_sandbox_claim_tombstone (ls_teardown (status_of lease)))
         || sandbox_claim_has_tombstone_shape observed
      then release_unrecorded_tombstone lease reason
      else recover_claim lease observed
  end.

(** [require_exact_reference] for the tombstone.  [target_reference] records no
    generation, and a Claim is modelled without one: a reference that has one
    does not match. *)
Definition exact_tombstone (r : SandboxObjectReference) (name : string) (c : Claim) : bool :=
  String.eqb (oref_api_version r) AGENT_SANDBOX_API_VERSION && String.eqb (oref_kind r) SANDBOX_CLAIM_KIND
  && str_opt_eqb (oref_namespace r) (Some ns) && String.eqb (oref_name r) name
  && String.eqb (oref_uid r) (default "<none>" (cl_uid c)) && is_none (oref_generation r).

Definition release_recorded_claim (lease : ParentLease) (claim : SandboxObjectReference) (reason : ReleaseReason)
  : rprog ReleasePass :=
  let status := status_of lease in
  let name := claim_name (pl_name lease) in
  if negb (claim_reference_has_expected_shape claim ns name) then quarantine_lease lease ClaimProvenanceInvalid
  else
    rdo descendants := checkpoint_management_descendants ns lease in
    match descendants with
    | DescendantsUpdated target =>
        written (write_status lease (with_target status (Some target))) (fun _ => PassDone (Ok ActAwait))
    | DescendantsCheck (FpRetry _) => RRet (requeue 15)
    | DescendantsCheck (FpQuarantine q) => quarantine_lease lease q
    | DescendantsCurrent | DescendantsCheck FpVerified =>
        rdo preflight := preflight_management_target ns lease in
        match preflight with
        | FpRetry _ => RRet (requeue 15)
        | FpQuarantine q => quarantine_lease lease q
        | FpVerified =>
            rdo r := ensure_management_claim_tombstone lease in
            match r with
            | Err e => RRet (PassDone (Err e))
            | Ok TombstoneCheckpointed => RRet (PassDone (Ok ActAwait))
            | Ok (TombstoneRetry secs) => RRet (requeue secs)
            | Ok (TombstoneQuarantine q) => quarantine_lease lease q
            | Ok (TombstoneReady current tombstone prior) =>
                if negb (exact_tombstone tombstone name current) then quarantine_lease lease ClaimTombstoneIdentityChanged
                else
                  rdo check := management_target_footprint_absent ns lease tombstone prior in
                  conclude lease reason FOOTPRINT_ABSENCE_POLL check
            end
        end
    end.

(** ** One pass *)

(** The pass that makes the intent durable; [None] when it already is. *)
Definition begin_release (lease : ParentLease) (reason : ReleaseReason) : option (rprog ReleasePass) :=
  let status := status_of lease in
  let proposed := persisted_cause reason in
  if bool_decide (reason = ReasonMissingCause) && is_none (ls_release_cause status)
  then Some (quarantine_lease lease ReleaseCauseMissing)
  else if match ls_release_cause status, proposed with
          | Some current, Some proposed => negb (bool_decide (current = proposed))
          | _, _ => false
          end
  then Some (RRet (PassDone (Err (PlacementInvalid "releaseCause is immutable"))))
  else if negb (bool_decide (ls_phase status = SandboxLeasePhase.Releasing))
          || (is_none (ls_release_cause status) && is_some proposed)
  then
    Some match transition_sandbox_phase (ls_phase status) SandboxLeasePhase.Releasing false with
         | Err _ => RRet (PassDone (Err (PlacementInvalid "the lease cannot be released")))
         | Ok phase =>
             rdo now := rcall ReadTime in
             let t := ls_teardown status in
             let cleanup :=
               if admitted_pending_is_allocation_free lease status then Some admission_only_fence
               else if pre_create_is_allocation_free lease status then Some pre_create_fence
               else td_claim_cleanup_fence t in
             let releasing_at := match td_releasing_at t with Some at_ => Some at_ | None => Some (to_rfc3339 now) end in
             written (write_status lease
               (with_teardown (with_cause status phase proposed (ls_conditions status))
                  (with_fences t releasing_at cleanup (td_sandbox_claim_tombstone t) (td_allocation_fence t))))
               (fun _ => PassDone (Ok ActAwait))
         end
  else None.

(** Each stage continues with [k], or ends the pass. *)
Definition drain_stage (lease : ParentLease) (k : rprog ReleasePass) : rprog ReleasePass :=
  if negb access_ledger_enabled then k
  else
    rdo r := close_and_drain_access in
    match r with
    | Ok Drained => k
    | Ok Checkpointed | Ok Waiting => RRet (requeue ACCESS_DRAIN_RETRY)
    | Err (Invalid _) | Err Serialization => quarantine_lease lease AccessDrainUnverifiable
    | Err (Kubernetes e) =>
        if is_401_or_403 e then quarantine_lease lease AccessDrainForbidden else RRet (requeue 15)
    | Err _ => RRet (requeue 15)
    end.

Definition fence_stage (lease : ParentLease) (k : rprog ReleasePass) : rprog ReleasePass :=
  rdo r := ensure_allocation_fence lease in
  match r with
  | Err e => RRet (PassDone (Err e))
  | Ok FenceClosed => k
  | Ok FenceCheckpointed => RRet (PassDone (Ok ActAwait))
  | Ok (FenceDraining d) => RRet (PassDone (Ok (ActRequeue d)))
  | Ok (FenceQuarantine q) =>
      if footprint_absence_proven (status_of lease)
      then record_stall lease "AllocationFenceInvalid" (reason_as_str q) 300
      else quarantine_lease lease q
  end.

Definition execution_stage (lease : ParentLease) (child_placed : bool) (k : rprog ReleasePass) : rprog ReleasePass :=
  if access_ledger_enabled && negb child_placed && negb (footprint_absence_proven (status_of lease)) then
    rdo outcome := drain_execution_cleanup false in
    match execution_cleanup_advance outcome with
    | AdvanceContinue | AdvanceDestroyTarget => k
    | AdvanceCheckpointed => RRet (requeue 1)
    | AdvanceRetry secs => RRet (requeue secs)
    | AdvanceCreationStalled => record_execution_creation_stall lease
    | AdvanceQuarantine q => quarantine_lease lease q
    end
  else k.

(** [Some true] is [Clean], [Some false] [Retry], [None] [Quarantine]. *)
Definition identity_stage (lease : ParentLease) (child_placed : bool) (k : rprog ReleasePass) : rprog ReleasePass :=
  match (if child_placed then None else ls_target (status_of lease)) with
  | None => k
  | Some target =>
      match tp_pod target with
      | None => k
      | Some pod =>
          match pl_uid lease with
          | None => RRet (PassDone (Err (PlacementInvalid "no UID to clean scoped identities")))
          | Some uid =>
              if negb (String.eqb (tp_namespace target) ns) || String.eqb (oref_name pod) "" || String.eqb (oref_uid pod) ""
              then quarantine_lease lease CredentialProvenanceInvalid
              else
                rdo outcome := rcall (CleanIdentities uid (oref_name pod) (oref_uid pod)) in
                match outcome with
                | Some true => k
                | Some false => RRet (requeue 15)
                | None => quarantine_lease lease CredentialCleanupUnverifiable
                end
          end
      end
  end.

(** After the proof: the records that waited for it, then the tail. *)
Definition after_proof (lease : ParentLease) (reason : ReleaseReason) : rprog ReleasePass :=
  if negb access_ledger_enabled then RRet (PassFinish reason)
  else
    rdo outcome := drain_execution_cleanup true in
    match outcome with
    | CleanupClean => RRet (PassFinish reason)
    | CleanupCheckpointed => RRet (requeue 1)
    | AwaitCreation false => RRet (requeue EXECUTION_CREATION_RETRY)
    | AwaitCreation true => record_execution_creation_stall lease
    | CleanupRetry | AwaitTargetDestruction =>
        record_stall lease "ManagementExecutionCleanupRetry"
          "Target absence is proven, but exact execution retirement must be retried" 15
    | Quarantine _ =>
        record_stall lease "ManagementExecutionCleanupInvalid"
          "Target absence is proven, but execution provenance is contradictory" 300
    end.

Definition workload_stage (lease : ParentLease) (child_placed : bool) (reason : ReleaseReason) : rprog ReleasePass :=
  let status := status_of lease in
  if footprint_absence_proven status then
    if child_placed then RRet PassChildFinish else after_proof lease reason
  else if child_placed then RRet PassChild
  else
    match ls_target status ≫= tp_sandbox_claim with
    | None => release_unrecorded_claim lease reason
    | Some claim => release_recorded_claim lease claim reason
    end.

Definition drive_release (lease : ParentLease) (reason : ReleaseReason) : rprog ReleasePass :=
  match begin_release lease reason with
  | Some p => p
  | None =>
      drain_stage lease
        (fence_stage lease
           (rdo child_placed := is_child_placed lease in
            execution_stage lease child_placed
              (identity_stage lease child_placed (workload_stage lease child_placed reason))))
  end.
End Release.
