(* ===== verification/ReleaseProps.v ===== *)
(** * What a finished release has proved

    The programs of [Footprint] and [Release] run against a history of the
    cluster that goes on changing between their reads: the Claim's name evolves
    as in [ClaimProtocol], and Sandboxes, Pods, Services and volumes as the
    upstream controller makes and removes them.  A release that goes on to
    return capacity leaves nothing of its lease behind, and everything that
    could still reach the workload was stopped before its Claim was touched. *)

From S2P Require Import Prelude Text Quarantine Durations SandboxObjects SandboxLifecycle LedgerApi AccessLedger ExecutionApi ExecutionCleanup AdmissionApi Admission Claims ClaimProtocol Footprint Release.

Local Open Scope kobe_scope.

(** ** Histories *)

Record ClusterObjects : Type := {
  k_sandboxes : list Obj;
  k_pods : list Obj;
  k_services : list Obj;
  k_pvcs : list Obj;
}.

Record History : Type := { at_world : nat -> World; at_cluster : nat -> ClusterObjects }.

(** A read never answers 404 for an object that is there; other errors are
    always possible, and so is any answer of the other components. *)
Definition got (l : list Obj) (name : string) (x : result Obj kube_error) : Prop :=
  match x with
  | Ok o => In o l /\ ob_name o = name
  | Err e => is_404 e = true -> forall o, In o l -> ob_name o <> name
  end.

Definition listed (l : list Obj) (p : Obj -> bool) (x : result (list Obj) kube_error) : Prop :=
  match x with
  | Ok l' => forall o, In o l' <-> In o l /\ p o = true
  | Err _ => True
  end.

Definition claim_label (o : Obj) : option string := ob_labels o !! UPSTREAM_CLAIM_UID_LABEL.

Definition answers (w : World) (c : ClusterObjects) {X} (q : rreq X) : X -> Prop :=
  match q with
  | GetClaim name => fun x =>
      match x with
      | Ok (claim, _) => held w = Some claim /\ cl_name claim = name
      | Err e => is_404 e = true -> forall claim, held w = Some claim -> cl_name claim <> name
      end
  | GetSandbox name => got (k_sandboxes c) name
  | GetPod name => got (k_pods c) name
  | GetService name => got (k_services c) name
  | ListSandboxes uid => listed (k_sandboxes c) (fun o => str_opt_eqb (claim_label o) (Some uid))
  | ListPods None => listed (k_pods c) (fun _ => true)
  | ListServices => listed (k_services c) (fun _ => true)
  | ListPvcs => listed (k_pvcs c) (fun _ => true)
  | ReadTime => fun x => x <= clock w
  | _ => fun _ => True
  end.

(** A run of [p] that starts at time [n] and ends at [m] with [r]. *)
Fixpoint runs (h : History) {R} (p : rprog R) (n : nat) (r : R) (m : nat) : Prop :=
  match p with
  | RRet r' => r = r' /\ n = m
  | RCall q k => exists t x, (n <= t)%nat /\ answers (at_world h t) (at_cluster h t) q x /\ runs h (k x) t r m
  end.

Lemma runs_le h {R} (p : rprog R) n r m : runs h p n r m -> (n <= m)%nat.
Proof.
  revert n. induction p as [r'|X q k IH]; intros n; cbn; [by intros [_ ->]|].
  intros (t & x & Hn & _ & Hr). apply IH in Hr. lia.
Qed.

Lemma runs_bind h {A B} (p : rprog A) (f : A -> rprog B) n r m :
  runs h (rbind p f) n r m <-> exists a t, runs h p n a t /\ runs h (f a) t r m.
Proof.
  revert n. induction p as [a|X q k IH]; intros n; cbn.
  - split; [by eauto|]. by intros (? & ? & [-> ->] & H).
  - split.
    + intros (t & x & Hn & Hx & Hr). apply IH in Hr as (a & u & Hk & Hf). exists a, u. split; [eauto 6|done].
    + intros (a & u & (t & x & Hn & Hx & Hk) & Hf). exists t, x. split; [done|]. split; [done|]. apply IH. eauto.
Qed.

Lemma runs_call h {X} (q : rreq X) n x m :
  runs h (rcall q) n x m <-> (n <= m)%nat /\ answers (at_world h m) (at_cluster h m) q x.
Proof.
  cbn. split.
  - intros (t & y & Hn & Ha & -> & <-). done.
  - intros [Hn Ha]. exists m, x. done.
Qed.

Lemma runs_check h (p q : rprog TargetFootprintCheck) n m :
  runs h (p ;? q) n FpVerified m -> exists t, runs h p n FpVerified t /\ runs h q t FpVerified m.
Proof.
  rewrite runs_bind. intros (c & t & Hp & Hq). destruct c; [eauto|by destruct Hq as [? _]..].
Qed.

Section Upstream.
Context (parse_rfc3339 : string -> option Z) (to_rfc3339 to_rfc3339_z : Z -> string) (representable : Z -> bool).
Context (configured_retention : option string) (ns : string).
Local Abbreviation wstep := (world_step parse_rfc3339 to_rfc3339 to_rfc3339_z representable configured_retention ns).
Local Abbreviation inert := (inert parse_rfc3339).
Local Abbreviation swept := (swept parse_rfc3339 ns).

(** The Claim of that UID is there and runs. *)
Definition claim_runs (w : World) (uid : string) : Prop :=
  exists c, held w = Some c /\ cl_uid c = Some uid /\ inert c (clock w) = false.

(** A controlling Sandbox owner. *)
Definition names_sandbox (w : Owner) : bool :=
  String.eqb (ow_api_version w) SANDBOX_API_VERSION && String.eqb (ow_kind w) SANDBOX_KIND
  && bool_decide (ow_controller w = Some true).

(** A child keeps its owners and its Claim label, and is created only for a
    Sandbox that is there. *)
Definition children_follow (h : History) (select : ClusterObjects -> list Obj) : Prop :=
  forall t o, In o (select (at_cluster h (S t))) ->
    (exists o', In o' (select (at_cluster h t)) /\ ob_owner_references o' = ob_owner_references o
                /\ claim_label o' = claim_label o) \/
    ((forall w, In w (default [] (ob_owner_references o)) -> names_sandbox w = true ->
        exists s, In s (k_sandboxes (at_cluster h t)) /\ ob_uid s = Some (ow_uid w)) /\
     (forall u, claim_label o = Some u ->
        exists s, In s (k_sandboxes (at_cluster h t)) /\ claim_label s = Some u)).

(** What is relied on of the upstream controller and the API server. *)
Record upstream (h : History) : Prop := {
  up_start : reachable parse_rfc3339 to_rfc3339 to_rfc3339_z representable configured_retention ns (at_world h 0);
  up_world : forall t, rtc wstep (at_world h t) (at_world h (S t));
  up_identity : forall t t' s s', In s (k_sandboxes (at_cluster h t)) -> In s' (k_sandboxes (at_cluster h t')) ->
    ob_uid s = ob_uid s' -> claim_label s = claim_label s' /\ ob_name s = ob_name s';
  up_sandbox : forall t s, In s (k_sandboxes (at_cluster h (S t))) ->
    (exists s', In s' (k_sandboxes (at_cluster h t)) /\ ob_uid s' = ob_uid s) \/
    ((forall t' s', (t' <= t)%nat -> In s' (k_sandboxes (at_cluster h t')) -> ob_uid s' <> ob_uid s) /\
     forall u, claim_label s = Some u -> claim_runs (at_world h t) u);
  up_pods : children_follow h k_pods;
  up_services : children_follow h k_services;
  up_pvcs : children_follow h k_pvcs;
}.

(** ** What must be gone *)

(** Nothing of the lease is left at [t]: no Sandbox of its Claims, no recorded
    Sandbox, no volume claim of either, and no Pod or Service of the recorded
    Sandbox, or of any Sandbox its Claims ever had when none was recorded. *)
Record gone (h : History) (uids : list string) (recorded : option SandboxObjectReference) (t : nat) : Prop := {
  gone_sandboxes : forall s, In s (k_sandboxes (at_cluster h t)) ->
    labelled_for s uids = false /\ forall r, recorded = Some r -> ob_uid s <> Some (oref_uid r);
  gone_storage : forall o, In o (k_pvcs (at_cluster h t)) -> owned_pvc uids recorded o = false;
  gone_children : forall o, In o (k_pods (at_cluster h t)) \/ In o (k_services (at_cluster h t)) ->
    match recorded with
    | Some r => controlled_by o r = false
    | None => forall w t' s, sandbox_owner o = Some w -> In s (k_sandboxes (at_cluster h t')) ->
                ob_uid s = Some (ow_uid w) -> labelled_for s uids = false
    end;
}.

Context (h : History) (Hup : upstream h).

(** ** Absence persists *)

Lemma absence_persists (P : nat -> Prop) t0 t :
  (t0 <= t)%nat -> P t0 -> (forall u, (t0 <= u < t)%nat -> P u -> P (S u)) -> P t.
Proof.
  intros Hle H0 Hs. induction Hle as [|t Hle IH]; [done|]. apply Hs; [lia|]. apply IH. intros u Hu. apply Hs. lia.
Qed.

Lemma labelled_for_spec o uids : labelled_for o uids = true <-> exists u, claim_label o = Some u /\ In u uids.
Proof.
  unfold labelled_for, claim_label. destruct (ob_labels o !! _) as [u|]; [|split; [done|by intros (? & ? & _)]].
  rewrite existsb_exists. split.
  - intros (x & Hin & E). apply String.eqb_eq in E as ->. eauto.
  - intros (x & [= ->] & Hin). exists x. split; [done|]. apply String.eqb_refl.
Qed.

Lemma labelled_for_label o o' uids : claim_label o = claim_label o' -> labelled_for o uids = labelled_for o' uids.
Proof. unfold labelled_for, claim_label. by intros ->. Qed.

Definition no_labelled (uids : list string) (t : nat) : Prop :=
  forall s, In s (k_sandboxes (at_cluster h t)) -> labelled_for s uids = false.

Definition no_uid (uid : string) (t : nat) : Prop :=
  forall s, In s (k_sandboxes (at_cluster h t)) -> ob_uid s <> Some uid.

Definition quiet (uids : list string) (n t : nat) : Prop :=
  forall u v, (n <= u <= t)%nat -> In v uids -> ~ claim_runs (at_world h u) v.

Lemma no_labelled_persists uids n t :
  (n <= t)%nat -> quiet uids n t -> no_labelled uids n -> no_labelled uids t.
Proof.
  intros Hle Hq Hn. apply (absence_persists (no_labelled uids) n t Hle Hn). intros u Hu IH s Hs.
  destruct (up_sandbox _ Hup _ _ Hs) as [(s' & Hs' & E)|[_ Hnew]].
  - destruct (up_identity _ Hup _ _ _ _ Hs' Hs E) as [El _]. rewrite <- (labelled_for_label _ _ _ El). by apply IH.
  - destruct (labelled_for s uids) eqn:E; [|done]. apply labelled_for_spec in E as (v & Hv & Hin).
    destruct (Hq u v); [lia|done|by apply Hnew].
Qed.

Lemma no_uid_persists uid n t t0 s0 :
  (t0 <= n)%nat -> In s0 (k_sandboxes (at_cluster h t0)) -> ob_uid s0 = Some uid ->
  (n <= t)%nat -> no_uid uid n -> no_uid uid t.
Proof.
  intros Ht0 Hs0 Hu0 Hle Hn. apply (absence_persists (no_uid uid) n t Hle Hn). intros u Hu IH s Hs E.
  destruct (up_sandbox _ Hup _ _ Hs) as [(s' & Hs' & E')|[Hnew _]].
  - apply (IH s' Hs'). congruence.
  - apply (Hnew t0 s0); [lia|done|congruence].
Qed.

(** A property of owners and label that no child has, and that no new child can
    have, is had by none later. *)
Lemma no_child_persists select (P : Obj -> Prop) n t :
  children_follow h select -> (n <= t)%nat ->
  (forall o o', ob_owner_references o' = ob_owner_references o -> claim_label o' = claim_label o -> P o -> P o') ->
  (forall u o, (n <= u <= t)%nat -> P o ->
     (exists w, In w (default [] (ob_owner_references o)) /\ names_sandbox w = true /\ no_uid (ow_uid w) u) \/
     (exists v, claim_label o = Some v /\ no_labelled [v] u)) ->
  (forall o, In o (select (at_cluster h n)) -> ~ P o) -> forall o, In o (select (at_cluster h t)) -> ~ P o.
Proof.
  intros Hf Hle Hmeta Hnew Hn.
  apply (absence_persists (fun t => forall o, In o (select (at_cluster h t)) -> ~ P o) n t Hle Hn).
  intros u Hu IH o Ho HP. destruct (Hf _ _ Ho) as [(o' & Ho' & E1 & E2)|[Hown Hlab]].
  - apply (IH o' Ho'). by apply (Hmeta o).
  - destruct (Hnew u o ltac:(lia) HP) as [(w & Hw & Hns & Hno)|(v & Hv & Hno)].
    + destruct (Hown w Hw Hns) as (s & Hs & E). by apply (Hno s).
    + destruct (Hlab v Hv) as (s & Hs & E). specialize (Hno s Hs).
      assert (labelled_for s [v] = true) by (apply labelled_for_spec; exists v; cbn; auto). congruence.
Qed.

Lemma controlled_by_owner o r :
  controlled_by o r = true -> oref_api_version r = SANDBOX_API_VERSION -> oref_kind r = SANDBOX_KIND ->
  exists w, In w (default [] (ob_owner_references o)) /\ names_sandbox w = true /\ ow_uid w = oref_uid r.
Proof.
  unfold controlled_by, metadata_is_controlled_by, names_sandbox.
  destruct (ob_owner_references o) as [l|]; [|done]. rewrite existsb_exists. intros (w & Hw & E) <- <-.
  rewrite !andb_true_iff in E. destruct E as ((((E1 & E2) & E3) & E4) & E5). exists w. split; [done|].
  rewrite E1, E2, E5. split; [done|]. by apply String.eqb_eq.
Qed.

Lemma sandbox_owner_in o w :
  sandbox_owner o = Some w -> In w (default [] (ob_owner_references o)) /\ names_sandbox w = true.
Proof.
  unfold sandbox_owner, names_sandbox. destruct (ob_owner_references o) as [l|]; cbn; [|done].
  intros H. apply find_some in H as [Hin E]. split; [done|]. rewrite !andb_true_iff in E.
  destruct E as ((E1 & E2) & E3). by rewrite E1, E2, E3.
Qed.

(** ** What each verified check observed *)

Lemma classify_verified a p q u t : classify_exact_absence a p q u t = FpVerified -> a = Absent.
Proof. by destruct a. Qed.

Lemma failed_read_unverified e q t : failed_read e q t <> FpVerified.
Proof. unfold failed_read. by destruct (is_401_or_403 e). Qed.

Lemma recorded_sandbox_verified claim r n m :
  runs h (recorded_sandbox_absent claim (Some r)) n FpVerified m ->
  exists t, (n <= t <= m)%nat /\ forall s, In s (k_sandboxes (at_cluster h t)) -> ob_name s <> oref_name r.
Proof.
  unfold recorded_sandbox_absent, exact_object_absence. rewrite runs_bind.
  intros (a & t & Ha & [Hc <-]). symmetry in Hc. apply classify_verified in Hc as ->.
  rewrite runs_bind in Ha. destruct Ha as (x & t' & Hx & [Hr <-]). rewrite runs_call in Hx. destruct Hx as [Hle Hx].
  exists t'. split; [lia|]. cbn in Hx. destruct x as [o|e].
  - destruct (negb _); [done|]. by destruct (negb _).
  - cbn in Hx. destruct (is_404 e); [auto|by destruct (is_401_or_403 e)].
Qed.

Lemma labelled_verified uid recorded n m :
  runs h (claim_labelled_sandboxes_absent uid recorded) n FpVerified m -> (n <= m)%nat /\ no_labelled [uid] m.
Proof.
  unfold claim_labelled_sandboxes_absent. rewrite runs_bind. intros (x & t & Hx & [Hr <-]).
  rewrite runs_call in Hx. destruct Hx as [Hle Hx]. split; [done|]. cbn in Hx.
  destruct x as [l|e]; [|by destruct (failed_read_unverified _ _ _ (eq_sym Hr))]. cbn in Hx.
  destruct l as [|o l].
  - intros s Hs. destruct (labelled_for s [uid]) eqn:E; [|done].
    apply labelled_for_spec in E as (u & Hu & [->|[]]). destruct (Hx s) as [_ Hx']. destruct Hx'. split; [done|].
    by apply str_opt_eqb_eq.
  - exfalso. destruct recorded as [r|]; [|done]. destruct l; [|done]. by destruct (_ && _).
Qed.

Lemma no_labelled_app us vs t : no_labelled us t -> no_labelled vs t -> no_labelled (us ++ vs) t.
Proof.
  intros H1 H2 s Hs. destruct (labelled_for s (us ++ vs)) eqn:E; [|done].
  apply labelled_for_spec in E as (u & Hu & Hin). apply in_app_or in Hin as [Hin|Hin].
  - rewrite <- (H1 s Hs). symmetry. apply labelled_for_spec. eauto.
  - rewrite <- (H2 s Hs). symmetry. apply labelled_for_spec. eauto.
Qed.

Lemma quiet_sub us vs n n' t t' :
  (forall v, In v us -> In v vs) -> (n <= n')%nat -> (t' <= t)%nat -> quiet vs n t -> quiet us n' t'.
Proof. intros Hs Hn Ht Hq u v Hu Hv. apply Hq; [lia|auto]. Qed.

Lemma labelled_all_verified uids recorded n m :
  runs h (labelled_sandboxes_absent uids recorded) n FpVerified m -> quiet uids n m -> no_labelled uids m.
Proof.
  revert n. induction uids as [|u uids IH]; intros n; cbn [labelled_sandboxes_absent].
  - intros _ _ s _. unfold labelled_for. by destruct (_ !! _).
  - intros Hr Hq. apply runs_check in Hr as (t & Hu & Hr). apply labelled_verified in Hu as [Hle Hu].
    pose proof (runs_le _ _ _ _ _ Hr). apply (no_labelled_app [u] uids).
    + apply (no_labelled_persists _ t); [lia| |done]. apply (quiet_sub _ (u :: uids) n _ m); cbn; [intuition|lia|lia|done].
    + apply (IH t); [done|]. apply (quiet_sub _ (u :: uids) n _ m); cbn; [auto|lia|lia|done].
Qed.

Lemma first_unverified_verified l : first_unverified l = FpVerified -> forall c, In c l -> c = FpVerified.
Proof.
  unfold first_unverified. intros H c Hc. destruct (decide (c = FpVerified)) as [E|E]; [done|].
  destruct (List.find _ l) as [d|] eqn:F.
  - apply find_some in F as [_ F]. subst d. by rewrite bool_decide_true in F.
  - pose proof (find_none _ _ F c Hc) as G. cbn in G. by rewrite bool_decide_false in G.
Qed.

(** A request that lists every object of one kind. *)
Definition lists (q : rreq (result (list Obj) kube_error)) (select : ClusterObjects -> list Obj) : Prop :=
  forall w c x, answers w c q x = listed (select c) (fun _ => true) x.

Lemma listed_all l x : listed l (fun _ => true) (Ok x) -> forall o, In o l -> In o x.
Proof. intros H o Ho. by apply H. Qed.

Lemma exact_owned_verified q select r recorded a b c d n m :
  lists q select -> runs h (exact_owned_objects_absent q r recorded a b c d) n FpVerified m ->
  (n <= m)%nat /\ forall o, In o (select (at_cluster h m)) -> controlled_by o r = false.
Proof.
  intros Hq. unfold exact_owned_objects_absent. rewrite runs_bind. intros (x & t & Hx & [Hr <-]).
  rewrite runs_call in Hx. destruct Hx as [Hle Hx]. split; [done|]. rewrite Hq in Hx.
  destruct x as [l|e]; [|by destruct (failed_read_unverified _ _ _ (eq_sym Hr))].
  destruct (bool_decide _) eqn:E; [|by destruct (existsb _ _)]. apply bool_decide_eq_true in E.
  intros o Ho. apply listed_all with (o := o) in Hx; [|done].
  destruct (controlled_by o r) eqn:F; [|done]. assert (In o []) as []. { rewrite <- E. by apply filter_In. }
Qed.

Lemma controlled_gone select r n t :
  children_follow h select -> oref_api_version r = SANDBOX_API_VERSION -> oref_kind r = SANDBOX_KIND ->
  (forall u, (n <= u <= t)%nat -> no_uid (oref_uid r) u) -> (n <= t)%nat ->
  (forall o, In o (select (at_cluster h n)) -> controlled_by o r = false) ->
  forall o, In o (select (at_cluster h t)) -> controlled_by o r = false.
Proof.
  intros Hf Ha Hk Hno Hle Hn o Ho. apply not_true_is_false.
  apply (no_child_persists select (fun o => controlled_by o r = true) n t); try done.
  - intros a b E _. unfold controlled_by. by rewrite E.
  - intros u a Hu Hc. left. destruct (controlled_by_owner _ _ Hc Ha Hk) as (w & Hw & Hns & E).
    exists w. rewrite E. auto.
  - intros a Ha'. rewrite (Hn a Ha'). done.
Qed.

Lemma unresolved_owners_verified owners claim a b c n m :
  runs h (unresolved_owners owners claim a b c) n FpVerified m ->
  forall w, In w owners -> exists t s, In s (k_sandboxes (at_cluster h t)) /\ ob_uid s = Some (ow_uid w)
                                      /\ sandbox_of_claim s claim = false.
Proof.
  revert n. induction owners as [|o owners IH]; intros n; cbn [unresolved_owners]; [done|].
  rewrite runs_bind. intros (x & t & Hx & Hr) w Hw. rewrite runs_call in Hx. destruct Hx as [_ Hx].
  destruct x as [s|e]; [|destruct Hr as [Hr _]; destruct (is_404 e);
                         [done|by destruct (failed_read_unverified _ _ _ (eq_sym Hr))]].
  destruct (str_opt_eqb _ _) eqn:E; [|by destruct Hr]. apply str_opt_eqb_eq in E.
  destruct (sandbox_of_claim s claim) eqn:F; [by destruct Hr|].
  destruct Hw as [<-|Hw]; [|by apply (IH t)]. destruct Hx as [Hin _]. eauto.
Qed.

(** A child whose controlling Sandbox was one of the Claim's. *)
Definition child_of (uid : string) (o : Obj) : Prop :=
  exists w t s, sandbox_owner o = Some w /\ In s (k_sandboxes (at_cluster h t)) /\ ob_uid s = Some (ow_uid w)
                /\ labelled_for s [uid] = true.

Lemma not_of_claim s claim : sandbox_of_claim s claim = false -> labelled_for s [oref_uid claim] = false.
Proof.
  unfold sandbox_of_claim. intros H. apply orb_false_iff in H as [_ H]. apply not_true_is_false. intros E.
  apply labelled_for_spec in E as (u & Hu & [<-|[]]). unfold claim_label in Hu. rewrite Hu in H.
  unfold str_opt_eqb in H. cbn in H. by rewrite String.eqb_refl in H.
Qed.

Lemma unresolved_verified q select claim a b c n m :
  lists q select -> runs h (unresolved_sandbox_children_absent q claim a b c) n FpVerified m ->
  exists t, (n <= t <= m)%nat /\ forall o, In o (select (at_cluster h t)) -> ~ child_of (oref_uid claim) o.
Proof.
  intros Hq. unfold unresolved_sandbox_children_absent. rewrite runs_bind. intros (x & t & Hx & Hr).
  pose proof (runs_le _ _ _ _ _ Hx). pose proof (runs_le _ _ _ _ _ Hr).
  rewrite runs_call in Hx. destruct Hx as [_ Hx]. rewrite Hq in Hx. exists t. split; [lia|].
  destruct x as [l|e]; [|by destruct Hr as [Hr _]; destruct (failed_read_unverified _ _ _ (eq_sym Hr))].
  intros o Ho (w & t' & s & Hw & Hs & Hu & Hl).
  apply listed_all with (o := o) in Hx; [|done].
  destruct (unresolved_owners_verified _ _ _ _ _ _ _ Hr w) as (t2 & s2 & Hs2 & Hu2 & Hc).
  { apply list_elem_of_In, list_elem_of_omap. exists o. by rewrite list_elem_of_In. }
  apply not_of_claim in Hc. destruct (up_identity _ Hup _ _ _ _ Hs Hs2 ltac:(congruence)) as [El _].
  rewrite (labelled_for_label _ _ _ El) in Hl. congruence.
Qed.

Lemma child_of_gone select uid n t :
  children_follow h select -> (n <= t)%nat -> (forall u, (n <= u <= t)%nat -> no_labelled [uid] u) ->
  (forall o, In o (select (at_cluster h n)) -> ~ child_of uid o) ->
  forall o, In o (select (at_cluster h t)) -> ~ child_of uid o.
Proof.
  intros Hf Hle Hno. apply no_child_persists; [done..| |].
  - intros a b E _ (w & t' & s & Hw & Hr). exists w, t', s. unfold sandbox_owner in *. by rewrite E.
  - intros u o Hu (w & t' & s & Hw & Hs & Hus & Hl). left. destruct (sandbox_owner_in _ _ Hw) as [Hin Hns].
    exists w. do 2 (split; [done|]). intros s2 Hs2 E. specialize (Hno u Hu s2 Hs2).
    destruct (up_identity _ Hup _ _ _ _ Hs Hs2 ltac:(congruence)) as [El _].
    rewrite (labelled_for_label _ _ _ El) in Hl. congruence.
Qed.

(** Storage: the list of volume claims was read at some point of the run. *)
Lemma storage_verified uids recorded expected n m :
  expected <> MayExist -> runs h (exact_owned_storage_is_absent uids recorded expected) n FpVerified m ->
  exists t, (n <= t <= m)%nat /\ forall o, In o (k_pvcs (at_cluster h t)) -> owned_pvc uids recorded o = false.
Proof.
  intros He. unfold exact_owned_storage_is_absent. rewrite runs_bind. intros (x & t & Hx & Hr).
  pose proof (runs_le _ _ _ _ _ Hx). pose proof (runs_le _ _ _ _ _ Hr).
  rewrite runs_call in Hx. destruct Hx as [_ Hx]. exists t. split; [lia|].
  destruct x as [l|e]; [|by destruct Hr as [Hr _]; destruct (failed_read_unverified _ _ _ (eq_sym Hr))].
  cbv zeta in Hr. rewrite runs_bind in Hr. destruct Hr as (v & t2 & _ & Hr).
  destruct v as [v|e]; [|by destruct Hr as [Hr _]; destruct (failed_read_unverified _ _ _ (eq_sym Hr))].
  destruct Hr as [Hr _]. destruct (bool_decide (_ = [])) eqn:E.
  - apply bool_decide_eq_true in E. intros o Ho. apply listed_all with (o := o) in Hx; [|done].
    destruct (owned_pvc uids recorded o) eqn:F; [|done].
    assert (In o []) as []. { rewrite <- E. by apply filter_In. }
  - cbn [andb] in Hr. destruct (_ && _); [|done]. rewrite bool_decide_false in Hr by done. done.
Qed.

Lemma storage_gone uids recorded n t :
  (n <= t)%nat -> (forall u, (n <= u <= t)%nat -> no_labelled uids u) ->
  (forall r, recorded = Some r -> oref_api_version r = SANDBOX_API_VERSION /\ oref_kind r = SANDBOX_KIND
     /\ forall u, (n <= u <= t)%nat -> no_uid (oref_uid r) u) ->
  (forall o, In o (k_pvcs (at_cluster h n)) -> owned_pvc uids recorded o = false) ->
  forall o, In o (k_pvcs (at_cluster h t)) -> owned_pvc uids recorded o = false.
Proof.
  intros Hle Hno Hr Hn o Ho. apply not_true_is_false.
  apply (no_child_persists k_pvcs (fun o => owned_pvc uids recorded o = true) n t); try done.
  - apply (up_pvcs _ Hup).
  - intros a b E El. unfold owned_pvc, controlled_by. rewrite E. by rewrite (labelled_for_label _ _ _ El).
  - intros u a Hu Hc. unfold owned_pvc in Hc. apply orb_true_iff in Hc as [Hc|Hc].
    + destruct recorded as [r|]; [|done]. destruct (Hr r eq_refl) as (Ha & Hk & Hno').
      destruct (controlled_by_owner _ _ Hc Ha Hk) as (w & Hw & Hns & E). left. exists w. rewrite E. auto.
    + apply labelled_for_spec in Hc as (v & Hv & Hin). right. exists v. split; [done|]. intros s Hs.
      apply not_true_is_false. intros E. apply labelled_for_spec in E as (v' & Hv' & [<-|[]]).
      specialize (Hno u Hu s Hs). apply not_true_iff_false in Hno. apply Hno, labelled_for_spec. eauto.
  - intros a Ha. by rewrite (Hn a Ha).
Qed.

(** ** The three proofs of absence *)

Lemma validated_sandbox lease target r n m :
  runs h (validate_management_target_provenance ns lease) n FpVerified m ->
  pl_status lease ≫= ls_target = Some target -> tp_sandbox target = Some r ->
  oref_api_version r = SANDBOX_API_VERSION /\ oref_kind r = SANDBOX_KIND.
Proof.
  unfold validate_management_target_provenance. intros Hr Ht Hs. rewrite Ht in Hr.
  destruct (negb (String.eqb _ _)); [by destruct Hr|]. destruct (tp_sandbox_claim target); [|by destruct Hr].
  destruct (negb (recorded_reference_is_exact _ _ _ _)); [by destruct Hr|].
  destruct (misrecorded _ (tp_sandbox target) _ _) eqn:E; [by destruct Hr|].
  rewrite Hs in E. cbn [misrecorded] in E. apply negb_false_iff in E. unfold recorded_reference_is_exact in E.
  rewrite !andb_true_iff in E. destruct E as ((((E1 & E2) & _) & _) & _). by apply String.eqb_eq in E1, E2.
Qed.

(** The recorded Sandbox was seen by an earlier pass. *)
Definition sandbox_observed (recorded : option SandboxObjectReference) (n : nat) : Prop :=
  forall r, recorded = Some r -> exists t s, (t <= n)%nat /\ In s (k_sandboxes (at_cluster h t))
    /\ ob_uid s = Some (oref_uid r) /\ ob_name s = oref_name r.

Lemma recorded_sandbox_gone claim r n m :
  sandbox_observed (Some r) n -> runs h (recorded_sandbox_absent claim (Some r)) n FpVerified m ->
  forall u, (m <= u)%nat -> no_uid (oref_uid r) u.
Proof.
  intros Ho Hr u Hu. destruct (Ho r eq_refl) as (t0 & s0 & Ht0 & Hs0 & Hu0 & Hn0).
  destruct (recorded_sandbox_verified _ _ _ _ Hr) as (t & Ht & Habs).
  apply (no_uid_persists _ t u t0 s0); try done; try lia. intros s Hs E. apply (Habs s Hs).
  destruct (up_identity _ Hup _ _ _ _ Hs Hs0 ltac:(congruence)) as [_ En]. congruence.
Qed.

Lemma no_labelled_sub us vs t : (forall v, In v us -> In v vs) -> no_labelled vs t -> no_labelled us t.
Proof.
  intros Hs Hn s Hin. apply not_true_is_false. intros E. apply labelled_for_spec in E as (u & Hu & Hi).
  specialize (Hn s Hin). apply not_true_iff_false in Hn. apply Hn, labelled_for_spec. eauto.
Qed.

Lemma owned_children_gone target r n m T :
  runs h (owned_children_absent target r) n FpVerified m -> (m <= T)%nat ->
  oref_api_version r = SANDBOX_API_VERSION -> oref_kind r = SANDBOX_KIND ->
  (forall u, (n <= u <= T)%nat -> no_uid (oref_uid r) u) ->
  forall o, In o (k_pods (at_cluster h T)) \/ In o (k_services (at_cluster h T)) -> controlled_by o r = false.
Proof.
  unfold owned_children_absent. rewrite runs_bind. intros (c1 & t1 & H1 & Hr) HT Ha Hk Hno.
  rewrite runs_bind in Hr. destruct Hr as (c2 & t2 & H2 & [Hv <-]). symmetry in Hv.
  pose proof (first_unverified_verified _ Hv) as Hall.
  rewrite (Hall c1) in H1 by (cbn; auto). rewrite (Hall c2) in H2 by (cbn; auto).
  apply (exact_owned_verified _ k_pods) in H1 as [Hle1 H1]; [|done].
  apply (exact_owned_verified _ k_services) in H2 as [Hle2 H2]; [|done].
  intros o [Ho|Ho].
  - apply (controlled_gone k_pods r t1 T); try done; [apply (up_pods _ Hup)| |lia]. intros u Hu. apply Hno. lia.
  - apply (controlled_gone k_services r t2 T); try done; [apply (up_services _ Hup)| ]. intros u Hu. apply Hno. lia.
Qed.

Lemma unresolved_pair_gone claim a b c d e f n t1 t2 T :
  runs h (unresolved_sandbox_children_absent (ListPods None) claim a b c) n FpVerified t1 ->
  runs h (unresolved_sandbox_children_absent ListServices claim d e f) t1 FpVerified t2 -> (t2 <= T)%nat ->
  (forall u, (n <= u <= T)%nat -> no_labelled [oref_uid claim] u) ->
  forall o, In o (k_pods (at_cluster h T)) \/ In o (k_services (at_cluster h T)) -> ~ child_of (oref_uid claim) o.
Proof.
  intros H1 H2 HT Hno. apply (unresolved_verified _ k_pods) in H1 as (u1 & Hu1 & H1); [|done].
  apply (unresolved_verified _ k_services) in H2 as (u2 & Hu2 & H2); [|done].
  intros o [Ho|Ho].
  - apply (child_of_gone k_pods _ u1 T); try done; [apply (up_pods _ Hup)|lia|]. intros u Hu. apply Hno. lia.
  - apply (child_of_gone k_services _ u2 T); try done; [apply (up_services _ Hup)|lia|]. intros u Hu. apply Hno. lia.
Qed.

Lemma unresolved_children_gone claims n m T :
  runs h (unresolved_children_absent claims) n FpVerified m -> (m <= T)%nat ->
  (forall u, (n <= u <= T)%nat -> no_labelled (map oref_uid claims) u) ->
  forall c, In c claims -> forall o, In o (k_pods (at_cluster h T)) \/ In o (k_services (at_cluster h T)) ->
    ~ child_of (oref_uid c) o.
Proof.
  revert n. induction claims as [|c claims IH]; intros n; cbn [unresolved_children_absent]; [done|].
  rewrite runs_bind. intros (c1 & t1 & H1 & Hr) HT Hno. rewrite runs_bind in Hr.
  destruct Hr as (c2 & t2 & H2 & Hr).
  destruct (first_unverified [c1; c2]) eqn:Hv; [|by destruct Hr..].
  pose proof (first_unverified_verified _ Hv) as Hall.
  rewrite (Hall c1) in H1 by (cbn; auto). rewrite (Hall c2) in H2 by (cbn; auto).
  pose proof (runs_le _ _ _ _ _ H1). pose proof (runs_le _ _ _ _ _ H2). pose proof (runs_le _ _ _ _ _ Hr).
  intros d [<-|Hd].
  - apply (unresolved_pair_gone _ _ _ _ _ _ _ _ _ _ _ H1 H2); [lia|]. intros u Hu.
    apply (no_labelled_sub _ (map oref_uid (c :: claims))); [cbn; intuition|]. by apply Hno.
  - apply (IH t2); try done. intros u Hu.
    apply (no_labelled_sub _ (map oref_uid (c :: claims))); [cbn; auto|]. apply Hno. lia.
Qed.

Lemma children_of_none uids o :
  (forall u, In u uids -> ~ child_of u o) ->
  forall w t' s, sandbox_owner o = Some w -> In s (k_sandboxes (at_cluster h t')) -> ob_uid s = Some (ow_uid w) ->
    labelled_for s uids = false.
Proof.
  intros Hc w t' s Hw Hs Hu. apply not_true_is_false. intros E. apply labelled_for_spec in E as (u & Hl & Hin).
  apply (Hc u Hin). exists w, t', s. do 3 (split; [done|]). apply labelled_for_spec. exists u. cbn. auto.
Qed.

Lemma must_be_gone target : workspace_storage target MustBeGone <> MayExist.
Proof. unfold workspace_storage. by destruct (bool_decide (tp_workspace_volume_required target = Some true)). Qed.

Lemma management_footprint_gone lease tombstone prior n m T :
  runs h (management_target_footprint_absent ns lease tombstone prior) n FpVerified m -> (m <= T)%nat ->
  exists target claim, pl_status lease ≫= ls_target = Some target /\ tp_sandbox_claim target = Some claim /\
    (sandbox_observed (tp_sandbox target) n -> quiet [oref_uid claim; oref_uid tombstone] n T ->
     gone h [oref_uid claim; oref_uid tombstone] (tp_sandbox target) T).
Proof.
  unfold management_target_footprint_absent. intros Hr HT. apply runs_check in Hr as (t0 & H0 & Hr).
  destruct (pl_status lease ≫= ls_target) as [target|] eqn:Htg; [|by destruct Hr].
  destruct (tp_sandbox_claim target) as [claim|] eqn:Hcl; [|by destruct Hr].
  destruct (_ || _ || _ || _); [by destruct Hr|]. cbv zeta in Hr.
  exists target, claim. do 2 (split; [done|]). intros Hobs Hq.
  pose proof (fun r => validated_sandbox lease target r _ _ H0 Htg) as Hex.
  apply runs_check in Hr as (t1 & H1 & Hr). apply runs_check in Hr as (t2 & H2 & Hr).
  apply runs_check in Hr as (t3 & H3 & Hr). apply runs_check in Hr as (t4 & H4 & Hr).
  apply runs_check in Hr as (t5 & H5 & H6).
  pose proof (runs_le _ _ _ _ _ H0). pose proof (runs_le _ _ _ _ _ H1). pose proof (runs_le _ _ _ _ _ H2).
  pose proof (runs_le _ _ _ _ _ H3). pose proof (runs_le _ _ _ _ _ H4). pose proof (runs_le _ _ _ _ _ H5).
  pose proof (runs_le _ _ _ _ _ H6).
  set (uids := [oref_uid claim; oref_uid tombstone]) in *.
  assert (forall v, In v (map oref_uid (claim_refs claim tombstone)) <-> In v uids) as Huids.
  { intros v. unfold claim_refs. destruct (String.eqb _ _) eqn:E; cbn; [|done].
    apply String.eqb_eq in E. rewrite E. intuition. }
  assert (forall u, (t4 <= u <= T)%nat -> no_labelled uids u) as Hlab.
  { intros u Hu. apply (no_labelled_persists _ t4); [lia|by apply (quiet_sub _ uids n _ T); try lia|].
    apply (no_labelled_sub _ (map oref_uid (claim_refs claim tombstone))); [by intros v; apply Huids|].
    apply (labelled_all_verified _ _ _ _ H4). apply (quiet_sub _ uids n _ T); [by intros v; apply Huids|lia|lia|done]. }
  assert (forall r, tp_sandbox target = Some r -> forall u, (t1 <= u)%nat -> no_uid (oref_uid r) u) as Hrec.
  { intros r Hs. rewrite Hs in H1, Hobs. apply (recorded_sandbox_gone claim r t0 t1); [|done].
    intros r' E. destruct (Hobs r' E) as (a & b & ? & ?). exists a, b. split; [lia|done]. }
  split.
  - intros s Hs. split; [by apply (Hlab T); [lia|]|]. intros r Hs'. by apply (Hrec r Hs' T); [lia|].
  - destruct (storage_verified _ _ _ _ _ (must_be_gone _) H6)
      as (ts & Hts & Hst).
    assert (forall o, owned_pvc (map oref_uid (claim_refs claim tombstone)) (tp_sandbox target) o
                      = owned_pvc uids (tp_sandbox target) o) as Heq.
    { intros o. unfold owned_pvc. f_equal. apply eq_true_iff_eq. rewrite !labelled_for_spec.
      split; intros (v & ? & ?); exists v; (split; [done|by apply Huids]). }
    apply (storage_gone _ _ ts); [lia|intros; apply Hlab; lia| |intros o Ho; rewrite <- Heq; by apply Hst].
    intros r Hs. destruct (Hex r Hs) as [? ?]. do 2 (split; [done|]). intros u Hu. apply Hrec; [done|lia].
  - destruct (tp_sandbox target) as [r|] eqn:Hs.
    + destruct (Hex r eq_refl) as [? ?]. apply (owned_children_gone target r t4 t5); try done; [lia|].
      intros u Hu. apply (Hrec r eq_refl). lia.
    + intros o Ho. apply children_of_none. intros v Hv. apply Huids, in_map_iff in Hv as (c & <- & Hc).
      apply (unresolved_children_gone _ _ _ T H5); try done; [lia|]. intros u Hu.
      apply (no_labelled_sub _ uids); [by intros v; apply Huids|]. apply Hlab. lia.
Qed.

Lemma descendants_gone tombstone a b n m T :
  runs h (tombstone_has_no_descendants tombstone a b) n FpVerified m -> (m <= T)%nat ->
  quiet [oref_uid tombstone] n T -> gone h [oref_uid tombstone] None T.
Proof.
  unfold tombstone_has_no_descendants. intros Hr HT Hq. apply runs_check in Hr as (t1 & H1 & Hr).
  apply runs_check in Hr as (t2 & H2 & Hr). apply runs_check in Hr as (t3 & H3 & H4).
  pose proof (runs_le _ _ _ _ _ H2). pose proof (runs_le _ _ _ _ _ H3). pose proof (runs_le _ _ _ _ _ H4).
  apply labelled_verified in H1 as [Hle H1].
  assert (forall u, (t1 <= u <= T)%nat -> no_labelled [oref_uid tombstone] u) as Hlab.
  { intros u Hu. apply (no_labelled_persists _ t1); [lia|by apply (quiet_sub _ [oref_uid tombstone] n _ T); try lia|done]. }
  split.
  - intros s Hs. split; [by apply (Hlab T); [lia|]|done].
  - assert (Forbidden <> MayExist) as Hf by done. destruct (storage_verified _ _ _ _ _ Hf H4) as (ts & Hts & Hst).
    apply (storage_gone _ _ ts); [lia|intros; apply Hlab; lia|done|done].
  - intros o Ho. apply children_of_none. intros v [<-|[]].
    apply (unresolved_pair_gone _ _ _ _ _ _ _ _ _ _ T H2 H3); try done; lia.
Qed.

(** ** Which passes go on to finish *)

Context (Hround : forall t, representable t = true -> parse_rfc3339 (to_rfc3339 t) = Some t).
Context (access_ledger_enabled : bool) (admitted : ParentLease -> bool).

Lemma written_unfinished p k n r m :
  (forall b, k b <> PassFinish r) -> ~ runs h (written p k) n (PassFinish r) m.
Proof.
  unfold written. intros Hk. rewrite runs_bind. intros ([b|e] & t & _ & [Hr _]); [by apply (Hk b)|done].
Qed.

Lemma quarantine_unfinished lease q n r m : ~ runs h (quarantine_lease to_rfc3339 lease q) n (PassFinish r) m.
Proof.
  unfold quarantine_lease, quarantine_lease_with_cause. destruct (footprint_absence_proven _); [by intros [? _]|].
  destruct (transition_sandbox_phase _ _ _); [|by intros [? _]]. rewrite runs_bind.
  intros (x & t & _ & Hr). by apply written_unfinished in Hr.
Qed.

Lemma stall_unfinished lease a b c n r m : ~ runs h (record_stall to_rfc3339 lease a b c) n (PassFinish r) m.
Proof.
  unfold record_stall. destruct (existsb _ _); [by intros [? _]|]. rewrite runs_bind.
  intros (x & t & _ & Hr). by apply written_unfinished in Hr.
Qed.

(** Close a goal whose run ended otherwise than by finishing. *)
Ltac unfinished :=
  match goal with
  | H : runs _ (quarantine_lease _ _ _) _ _ _ |- _ => by destruct (quarantine_unfinished _ _ _ _ _ H)
  | H : runs _ (record_stall _ _ _ _ _) _ _ _ |- _ => by destruct (stall_unfinished _ _ _ _ _ _ _ H)
  | H : runs _ (record_execution_creation_stall _ _) _ _ _ |- _ => by destruct (stall_unfinished _ _ _ _ _ _ _ H)
  | H : runs _ (written _ _) _ _ _ |- _ => by apply written_unfinished in H
  | H : runs _ (RRet _) _ _ _ |- _ => by destruct H
  end.

Definition goes_on (p k : rprog ReleasePass) : Prop :=
  forall n r m, runs h p n (PassFinish r) m -> exists t, (n <= t)%nat /\ runs h k t (PassFinish r) m.

Lemma begin_unfinished lease reason p n r m :
  begin_release parse_rfc3339 to_rfc3339 admitted lease reason = Some p -> ~ runs h p n (PassFinish r) m.
Proof.
  unfold begin_release. cbv zeta. intros E Hr. destruct (_ && is_none _); [simplify_eq; unfinished|].
  destruct (match ls_release_cause _ with Some _ => _ | None => _ end); [simplify_eq; unfinished|].
  destruct (_ || _); [|done]. injection E as <-.
  destruct (transition_sandbox_phase _ _ _); [|unfinished]. destruct Hr as (t & x & _ & _ & Hr). unfinished.
Qed.

Lemma drain_goes_on lease k : goes_on (drain_stage to_rfc3339 access_ledger_enabled lease k) k.
Proof.
  intros n r m Hr. unfold drain_stage in Hr. destruct access_ledger_enabled; cbn [negb] in Hr; [|eauto].
  rewrite runs_bind in Hr. destruct Hr as (x & t & Hx & Hr). apply runs_le in Hx.
  destruct x as [[]|[| | |e|]]; try unfinished; [by eauto|].
  destruct (is_401_or_403 e); unfinished.
Qed.

Lemma fence_goes_on lease k : goes_on (fence_stage parse_rfc3339 to_rfc3339 configured_retention ns lease k) k.
Proof.
  intros n r m Hr. unfold fence_stage in Hr. rewrite runs_bind in Hr. destruct Hr as (x & t & Hx & Hr).
  apply runs_le in Hx. destruct x as [[]|]; try unfinished; [by eauto|].
  destruct (footprint_absence_proven _); unfinished.
Qed.

Lemma execution_goes_on lease b k : goes_on (execution_stage to_rfc3339 access_ledger_enabled lease b k) k.
Proof.
  intros n r m Hr. unfold execution_stage in Hr. destruct (_ && _); [|eauto].
  rewrite runs_bind in Hr. destruct Hr as (x & t & Hx & Hr). apply runs_le in Hx.
  destruct (execution_cleanup_advance x); try unfinished; eauto.
Qed.

Lemma identity_goes_on lease b k : goes_on (identity_stage to_rfc3339 ns lease b k) k.
Proof.
  intros n r m Hr. unfold identity_stage in Hr. destruct (if b then _ else _) as [target|]; [|eauto].
  destruct (tp_pod target) as [pod|]; [|eauto]. destruct (pl_uid lease); [|unfinished].
  destruct (_ || _); [unfinished|]. rewrite runs_bind in Hr. destruct Hr as (x & t & Hx & Hr). apply runs_le in Hx.
  destruct x as [[]|]; [by eauto|unfinished..].
Qed.

(** A pass over an unproven lease that finishes did so in its last stage. *)
Lemma finishing_pass lease reason n r m :
  footprint_absence_proven (status_of lease) = false ->
  runs h (drive_release parse_rfc3339 to_rfc3339 to_rfc3339_z configured_retention ns access_ledger_enabled admitted
            lease reason) n (PassFinish r) m ->
  exists t, (n <= t)%nat /\
    runs h (match ls_target (status_of lease) ≫= tp_sandbox_claim with
            | None => release_unrecorded_claim parse_rfc3339 to_rfc3339 to_rfc3339_z configured_retention ns lease reason
            | Some claim =>
                release_recorded_claim parse_rfc3339 to_rfc3339 to_rfc3339_z configured_retention ns lease claim reason
            end) t (PassFinish r) m.
Proof.
  intros Hp Hr. unfold drive_release in Hr. destruct (begin_release _ _ _ _ _) eqn:E.
  { by destruct (begin_unfinished _ _ _ _ _ _ E Hr). }
  apply drain_goes_on in Hr as (t1 & H1 & Hr). apply fence_goes_on in Hr as (t2 & H2 & Hr).
  rewrite runs_bind in Hr. destruct Hr as (child & t3 & H3 & Hr). apply runs_le in H3.
  apply execution_goes_on in Hr as (t4 & H4 & Hr). apply identity_goes_on in Hr as (t5 & H5 & Hr).
  exists t5. split; [lia|]. unfold workload_stage in Hr. rewrite Hp in Hr. destruct child; [unfinished|]. done.
Qed.

(** ** The tombstone that was answered stays *)

Lemma world_later n m : (n <= m)%nat -> rtc wstep (at_world h n) (at_world h m).
Proof. induction 1 as [|m Hle IH]; [done|]. etransitivity; [exact IH|]. apply (up_world _ Hup). Qed.

Lemma world_fine n : world_ok parse_rfc3339 to_rfc3339 to_rfc3339_z representable configured_retention ns (at_world h n).
Proof.
  eapply steps_ok; [apply empty_ok|]. etransitivity; [apply (up_start _ Hup)|]. apply world_later. lia.
Qed.

Local Abbreviation ensure := (ensure_management_claim_tombstone parse_rfc3339 to_rfc3339 to_rfc3339_z
                                configured_retention ns).

Definition tombstone_held (tombstone : SandboxObjectReference) (t : nat) : Prop :=
  exists c, held (at_world h t) = Some c /\ cl_uid c = Some (oref_uid tombstone) /\
            inert c (clock (at_world h t)) = true.

Lemma ensured lease c tombstone prior n m :
  runs h (ensure lease) n (Ok (TombstoneReady c tombstone prior)) m ->
  td_sandbox_claim_tombstone (ls_teardown (status_of lease)) = Some tombstone /\
  forall T, (m <= T)%nat -> tombstone_held tombstone T \/ swept (at_world h T) (Some (oref_uid tombstone)).
Proof.
  unfold ensure_management_claim_tombstone. cbv zeta. rewrite runs_bind. intros (x & t & Hx & Hr).
  rewrite runs_bind in Hr. destruct Hr as (now & t' & Hn & Hr). rewrite !runs_call in Hx, Hn.
  destruct Hx as [_ Hx], Hn as [Hle Hn].
  destruct (tombstone_plan _ _ _ _ _ _ _ _) as [a|w|w|ref|w] eqn:Hp; cycle 1.
  1,2,4: rewrite runs_bind in Hr; destruct Hr as (y & t2 & _ & [Hr _]); unfold tombstone_answer in Hr;
         by repeat (case_match; try discriminate).
  { rewrite runs_bind in Hr. destruct Hr as ([|] & t2 & _ & [Hr _]); done. }
  destruct Hr as [<- <-]. destruct x as [[claim sandbox]|e].
  2:{ revert Hp. unfold tombstone_plan. cbv zeta. by repeat (case_match; try discriminate). }
  destruct (ready_recorded _ _ _ _ _ _ _ _ _ _ _ Hp) as [Hrec Huid]. split; [done|].
  destruct (ready_inert _ _ _ _ _ _ _ now now _ _ _ Hp ltac:(lia)) as [-> Hi]. cbn in Hx. destruct Hx as [Hx _].
  intros T HT.
  destruct (inert_persists _ _ _ _ _ _ Hround _ (at_world h T) claim now (world_fine t) Hx) as [(c' & Hc & Hu & Hi')|Hs].
  - eapply inert_later; [|exact Hi]. lia.
  - apply world_later. lia.
  - left. exists c'. rewrite Hc, Hu, <- Huid. do 2 (split; [done|]). cbn in Hn.
    destruct (steps_extend _ _ _ _ _ _ _ _ (world_later t' T HT)) as (_ & Hck & _).
    rewrite Z.max_r in Hi' by lia. done.
  - right. by rewrite <- Huid.
Qed.

Lemma conclude_finishes lease reason retry check n r m :
  runs h (conclude to_rfc3339 lease reason retry check) n (PassFinish r) m -> check = FpVerified /\ m = n.
Proof.
  destruct check; cbn [conclude]; intros Hr; [|unfinished..]. by destruct Hr.
Qed.

Lemma recorded_finishes lease claim reason n r m :
  runs h (release_recorded_claim parse_rfc3339 to_rfc3339 to_rfc3339_z configured_retention ns lease claim reason)
    n (PassFinish r) m ->
  exists c tombstone prior t1 t2, (n <= t1)%nat /\ runs h (ensure lease) t1 (Ok (TombstoneReady c tombstone prior)) t2 /\
    runs h (management_target_footprint_absent ns lease tombstone prior) t2 FpVerified m.
Proof.
  unfold release_recorded_claim. cbv zeta. destruct (negb _); [intros; unfinished|].
  rewrite runs_bind. intros (d & t1 & Hd & Hr). apply runs_le in Hd.
  destruct d as [|target|[|c|q]]; try unfinished.
  all: rewrite runs_bind in Hr; destruct Hr as (p & t2 & Hp & Hr); apply runs_le in Hp;
       destruct p as [|c|q]; [|unfinished..];
       rewrite runs_bind in Hr; destruct Hr as (x & t3 & Hx & Hr);
       destruct x as [[|c tombstone prior|secs|q]|e]; try unfinished;
       destruct (negb _); [unfinished|]; rewrite runs_bind in Hr; destruct Hr as (v & t4 & Hv & Hr);
       apply conclude_finishes in Hr as [-> ->]; exists c, tombstone, prior, t2, t3; (split; [lia|done]).
Qed.

Lemma never_started_finishes lease tombstone prior reason n r m :
  runs h (checkpoint_never_started_management_claim to_rfc3339 ns lease tombstone prior reason) n (PassFinish r) m ->
  runs h (admission_only_management_footprint_absent ns lease tombstone prior) n FpVerified m \/
  runs h (pre_create_footprint_absent ns lease tombstone prior) n FpVerified m.
Proof.
  unfold checkpoint_never_started_management_claim. cbv zeta. intros Hr.
  destruct (str_opt_eqb _ (Some admission_only_fence)).
  { left. rewrite runs_bind in Hr. destruct Hr as (c & t & Hc & Hr). by apply conclude_finishes in Hr as [-> ->]. }
  destruct (str_opt_eqb _ (Some pre_create_fence)).
  { right. rewrite runs_bind in Hr. destruct Hr as (c & t & Hc & Hr). by apply conclude_finishes in Hr as [-> ->]. }
  destruct (negb _); [unfinished|]. destruct (ls_target _); [|unfinished]. destruct (_ || _); unfinished.
Qed.

Lemma unrecorded_finishes lease reason n r m :
  runs h (release_unrecorded_claim parse_rfc3339 to_rfc3339 to_rfc3339_z configured_retention ns lease reason)
    n (PassFinish r) m ->
  exists c tombstone prior t1 t2, (n <= t1)%nat /\ runs h (ensure lease) t1 (Ok (TombstoneReady c tombstone prior)) t2 /\
    runs h (checkpoint_never_started_management_claim to_rfc3339 ns lease tombstone prior reason) t2 (PassFinish r) m.
Proof.
  assert (forall t, (n <= t)%nat ->
    runs h (release_unrecorded_tombstone parse_rfc3339 to_rfc3339 to_rfc3339_z configured_retention ns lease reason)
      t (PassFinish r) m ->
    exists c tombstone prior t1 t2, (n <= t1)%nat /\ runs h (ensure lease) t1 (Ok (TombstoneReady c tombstone prior)) t2 /\
    runs h (checkpoint_never_started_management_claim to_rfc3339 ns lease tombstone prior reason) t2 (PassFinish r) m) as Ht.
  { intros t Hle. unfold release_unrecorded_tombstone. rewrite runs_bind. intros (x & t2 & Hx & Hr).
    destruct x as [[|c tombstone prior|secs|q]|e]; try unfinished. exists c, tombstone, prior, t, t2. done. }
  unfold release_unrecorded_claim. rewrite runs_bind. intros (x & t & Hx & Hr). apply runs_le in Hx.
  destruct x as [[observed name]|e].
  - destruct (_ || _); [eauto|]. exfalso. revert Hr. unfold recover_claim. cbv zeta. intros Hr.
    destruct (pl_uid lease); [|unfinished]. destruct (negb _); [unfinished|].
    set (record := match target_reference ns observed with Ok _ => _ | Err _ => _ end) in *.
    assert (~ runs h record t (PassFinish r) m) as Hrec.
    { subst record. clear Hr. destruct (target_reference ns observed); [|by intros [? _]].
      intros Hr. destruct (negb _); unfinished. }
    destruct (is_some _).
    + destruct (_ || _); [unfinished|done].
    + destruct (ensure_management_claim_fenced _ _ _ _) as [[| |w]|]; [done|unfinished| |unfinished].
      rewrite runs_bind in Hr. destruct Hr as (y & t2 & _ & [Hr _]). destruct y as [[|e]|]; try done.
      by destruct (optimistic_conflict e).
  - destruct (is_404 e); [eauto|]. destruct (is_401_or_403 e); unfinished.
Qed.

Lemma bounded_or (P : nat -> Prop) (Q : Prop) n T :
  (forall t, (n <= t <= T)%nat -> P t \/ Q) -> (forall t, (n <= t <= T)%nat -> P t) \/ Q.
Proof.
  induction T as [|T IH]; intros H.
  - destruct (decide (n = 0)%nat) as [->|]; [|left; lia]. destruct (H 0%nat ltac:(lia)) as [H0|]; [|by right].
    left. intros t Ht. by replace t with 0%nat by lia.
  - destruct IH as [IH|]; [intros t Ht; apply H; lia| |by right].
    destruct (decide (n <= S T)%nat); [|left; lia]. destruct (H (S T) ltac:(lia)) as [HS|]; [|by right].
    left. intros t Ht. destruct (decide (t = S T)) as [->|]; [done|]. apply IH. lia.
Qed.

Lemma held_quiet tombstone uids n T :
  (forall t, (n <= t <= T)%nat -> tombstone_held tombstone t) -> quiet uids n T.
Proof. intros Hh t v Ht _ (c & Hc & _ & Hi). destruct (Hh t Ht) as (c' & Hc' & _ & Hi'). congruence. Qed.

(** The Claims of a lease: the recorded one and its tombstone. *)
Definition lease_claims (lease : ParentLease) : list string :=
  map oref_uid (option_list (ls_target (status_of lease) ≫= tp_sandbox_claim)
                ++ option_list (td_sandbox_claim_tombstone (ls_teardown (status_of lease)))).

Lemma status_target lease : pl_status lease ≫= ls_target = ls_target (status_of lease).
Proof. unfold status_of. by destruct (pl_status lease). Qed.

Lemma ensured_quiet lease c tombstone prior n m T uids :
  runs h (ensure lease) n (Ok (TombstoneReady c tombstone prior)) m -> (m <= T)%nat ->
  quiet uids m T \/ swept (at_world h T) (Some (oref_uid tombstone)).
Proof.
  intros He HT. destruct (ensured _ _ _ _ _ _ He) as [_ Hheld].
  destruct (bounded_or (tombstone_held tombstone) (swept (at_world h T) (Some (oref_uid tombstone))) m T) as [Hall|];
    [|left; by eapply held_quiet|by right].
  intros t Ht. destruct (Hheld t ltac:(lia)) as [|Hs]; [by left|right].
  eapply swept_extends; [|exact Hs]. eapply steps_extend, world_later. lia.
Qed.

Lemma pass_leaves_nothing lease reason n m r T :
  sandbox_observed (ls_target (status_of lease) ≫= tp_sandbox) n ->
  footprint_absence_proven (status_of lease) = false ->
  runs h (drive_release parse_rfc3339 to_rfc3339 to_rfc3339_z configured_retention ns access_ledger_enabled admitted
            lease reason) n (PassFinish r) m -> (m <= T)%nat ->
  exists tombstone, td_sandbox_claim_tombstone (ls_teardown (status_of lease)) = Some tombstone /\
    (gone h (lease_claims lease) (ls_target (status_of lease) ≫= tp_sandbox) T \/
     swept (at_world h T) (Some (oref_uid tombstone))).
Proof.
  intros Hobs Hp Hr HT. apply finishing_pass in Hr as (t0 & H0 & Hr); [|done].
  destruct (ls_target (status_of lease) ≫= tp_sandbox_claim) as [claim|] eqn:Hc.
  - apply recorded_finishes in Hr as (c & tombstone & prior & t1 & t2 & H1 & He & Hv).
    destruct (ensured _ _ _ _ _ _ He) as [Ht _]. exists tombstone. split; [done|].
    pose proof (runs_le _ _ _ _ _ He). pose proof (runs_le _ _ _ _ _ Hv).
    destruct (ensured_quiet _ _ _ _ _ _ T [oref_uid claim; oref_uid tombstone] He ltac:(lia)) as [Hq|]; [left|by right].
    destruct (management_footprint_gone _ _ _ _ _ _ Hv HT) as (target & claim' & Htg & Hcl & Hgone).
    rewrite status_target in Htg. rewrite Htg in Hc. cbn in Hc. assert (claim' = claim) as -> by congruence.
    unfold lease_claims. rewrite Htg, Ht. cbn. rewrite Hcl. cbn. apply Hgone; [|done].
    rewrite Htg in Hobs. cbn in Hobs. intros x E. destruct (Hobs x E) as (a & b & ? & ?). exists a, b. split; [lia|done].
  - apply unrecorded_finishes in Hr as (c & tombstone & prior & t1 & t2 & H1 & He & Hv).
    destruct (ensured _ _ _ _ _ _ He) as [Ht _]. exists tombstone. split; [done|].
    apply never_started_finishes in Hv.
    assert (ls_target (status_of lease) = None /\ exists a b t3, (t2 <= t3)%nat /\
              runs h (tombstone_has_no_descendants tombstone a b) t3 FpVerified m) as (Htg & a & b & t3 & H3 & Hd).
    { destruct Hv as [Hv|Hv]; revert Hv.
      - unfold admission_only_management_footprint_absent. cbv zeta. destruct (_ || _) eqn:E; [by intros [? _]|].
        rewrite !orb_false_iff in E. destruct_and!. intros Hv. split; [by destruct (ls_target _)|eauto 6].
      - unfold pre_create_footprint_absent. cbv zeta. destruct (_ || _) eqn:E; [by intros [? _]|].
        rewrite !orb_false_iff in E. destruct_and!. rewrite runs_bind. intros (x & t3 & Hx & Hv). apply runs_le in Hx.
        split; [by destruct (ls_target _)|]. destruct x as [|e]; [by destruct Hv|]. destruct (is_404 e); [|by destruct Hv].
        eauto 6. }
    pose proof (runs_le _ _ _ _ _ He). pose proof (runs_le _ _ _ _ _ Hd).
    destruct (ensured_quiet _ _ _ _ _ _ T [oref_uid tombstone] He ltac:(lia)) as [Hq|]; [left|by right].
    unfold lease_claims. rewrite Htg, Ht. cbn. apply (descendants_gone _ _ _ _ _ _ Hd HT).
    eapply quiet_sub; [|exact H3|reflexivity|exact Hq]. auto.
Qed.
End Upstream.
