(* ===== verification/ReleaseOrder.v ===== *)
(** * In which order a release stops things

    The programs of [Release] against any answers at all: the log of what a pass
    asked and was told shows that the access gate was drained, the allocation
    fence closed, executions stopped and identities removed before the pass
    wrote to the Claim of the lease or went on to return its capacity. *)

From S2P Require Import Prelude Text Quarantine Durations SandboxObjects SandboxLifecycle LedgerApi AccessLedger ExecutionApi ExecutionCleanup AdmissionApi Admission Claims Footprint Release.

Local Open Scope kobe_scope.

(** ** Logs *)

Inductive event : Type :=
| EvDrain (r : result AccessDrain AccessLedgerError)
| EvFence (fence : Lease)
| EvExecutions (target_absent : bool) (outcome : ExecutionCleanupOutcome)
| EvIdentities (lease_uid pod_name pod_uid : string) (outcome : option bool)
| EvClaim (w : claim_write)
| EvStatus (status : SandboxLeaseStatus)
| EvOther.

Definition event_of {X} (q : rreq X) : X -> event :=
  match q with
  | DrainAccess => EvDrain
  | GetFence _ => fun x => match x with Ok (fence, _) => EvFence fence | Err _ => EvOther end
  | CleanExecutions b => EvExecutions b
  | CleanIdentities lease_uid pod_name pod_uid => EvIdentities lease_uid pod_name pod_uid
  | WriteClaim w => fun _ => EvClaim w
  | WriteStatus status => fun _ => EvStatus status
  | _ => fun _ => EvOther
  end.

(** [p] ends with [r] after the exchanges of [log]. *)
Fixpoint traced {R} (p : rprog R) (log : list event) (r : R) : Prop :=
  match p with
  | RRet r' => r = r' /\ log = []
  | RCall q k => exists x log', log = event_of q x :: log' /\ traced (k x) log' r
  end.

Lemma traced_bind {A B} (p : rprog A) (f : A -> rprog B) log r :
  traced (rbind p f) log r -> exists a l1 l2, log = l1 ++ l2 /\ traced p l1 a /\ traced (f a) l2 r.
Proof.
  revert log. induction p as [a|X q k IH]; intros log; cbn.
  - intros H. exists a, [], log. done.
  - intros (x & log' & -> & H). apply IH in H as (a & l1 & l2 & -> & H1 & H2).
    exists a, (event_of q x :: l1), l2. split; [done|]. split; [eauto|done].
Qed.

(** A program that never writes to the Claim. *)
Fixpoint claimless {R} (p : rprog R) : Prop :=
  match p with
  | RRet _ => True
  | RCall q k => (forall x w, event_of q x <> EvClaim w) /\ forall x, claimless (k x)
  end.

Definition claim_free (log : list event) : Prop := forall w, ~ In (EvClaim w) log.

Lemma claimless_log {R} (p : rprog R) log r : claimless p -> traced p log r -> claim_free log.
Proof.
  revert log. induction p as [a|X q k IH]; intros log; cbn.
  - by intros _ [_ ->] w [].
  - intros [Hq Hk] (x & log' & -> & H) w [E|Hin]; [exact (Hq x w E)|exact (IH x log' (Hk x) H w Hin)].
Qed.

Lemma claimless_bind {A B} (p : rprog A) (f : A -> rprog B) :
  claimless p -> (forall a, claimless (f a)) -> claimless (rbind p f).
Proof. induction p as [a|X q k IH]; cbn; [auto|]. intros [Hq Hk] Hf. auto. Qed.

(** Split a program into its steps; every request must not write to the Claim. *)
Ltac claimless_steps :=
  repeat first
    [ assumption
    | progress cbn [claimless rcall]
    | apply claimless_bind
    | match goal with
      | |- claimless (match ?x with _ => _ end) => destruct x
      | |- claimless (if ?x then _ else _) => destruct x
      | |- claimless (RRet _) => exact I
      end
    | exact I
    | split; [by intros ? ?; cbn; repeat case_match|]
    | intros ? ].

Lemma claimless_write lease st : claimless (write_status lease st).
Proof. unfold write_status. claimless_steps. Qed.

Lemma claimless_written p k : claimless p -> claimless (written p k).
Proof. intros Hp. unfold written. claimless_steps. Qed.
#[local] Hint Resolve claimless_write claimless_written : core.

(** ** Passes that leave the workload alone *)

Definition untouched (log : list event) (r : ReleasePass) : Prop := claim_free log /\ forall x, r <> PassFinish x.

(** Neither writes to the Claim nor finishes. *)
Fixpoint harmless (p : rprog ReleasePass) : Prop :=
  match p with
  | RRet r => forall x, r <> PassFinish x
  | RCall q k => (forall x w, event_of q x <> EvClaim w) /\ forall x, harmless (k x)
  end.

Lemma harmless_untouched p log r : harmless p -> traced p log r -> untouched log r.
Proof.
  revert log. induction p as [a|X q k IH]; intros log; cbn.
  - intros Ha [-> ->]. split; [by intros w []|done].
  - intros [Hq Hk] (x & log' & -> & H). destruct (IH x log' (Hk x) H) as [Hc Hr]. split; [|done].
    intros w [E|Hin]; [exact (Hq x w E)|exact (Hc w Hin)].
Qed.

Lemma harmless_bind {A} (p : rprog A) f : claimless p -> (forall a, harmless (f a)) -> harmless (rbind p f).
Proof. induction p as [a|X q k IH]; cbn; [auto|]. intros [Hq Hk] Hf. auto. Qed.

Lemma harmless_written p k : claimless p -> (forall b x, k b <> PassFinish x) -> harmless (written p k).
Proof. intros Hp Hk. apply harmless_bind; [done|]. intros [b|e]; cbn; [apply Hk|done]. Qed.

Section Order.
Context (parse_rfc3339 : string -> option Z) (to_rfc3339 to_rfc3339_z : Z -> string).
Context (configured_retention : option string) (ns : string) (access_ledger_enabled : bool) (admitted : ParentLease -> bool).

Lemma harmless_quarantine lease q : harmless (quarantine_lease to_rfc3339 lease q).
Proof.
  unfold quarantine_lease, quarantine_lease_with_cause. destruct (footprint_absence_proven _); [done|].
  destruct (transition_sandbox_phase _ _ _); [|done]. apply harmless_bind; [cbn; split; [by intros ? ?|done]|].
  intros now. by apply harmless_written.
Qed.

Lemma harmless_stall lease a b c : harmless (record_stall to_rfc3339 lease a b c).
Proof.
  unfold record_stall. destruct (existsb _ _); [done|]. apply harmless_bind; [cbn; split; [by intros ? ?|done]|].
  intros now. by apply harmless_written.
Qed.
#[local] Hint Resolve harmless_quarantine harmless_stall harmless_written : core.

(** [p] goes on with [k] only after a log with [M]; otherwise it is harmless. *)
Definition stage (M : list event -> Prop) (p k : rprog ReleasePass) : Prop :=
  forall log r, traced p log r ->
    untouched log r \/ exists l1 l2, log = l1 ++ l2 /\ claim_free l1 /\ M l1 /\ traced k l2 r.

Lemma stage_skip (M : list event -> Prop) k : M [] -> stage M k k.
Proof. intros HM log r H. right. exists [], log. repeat split; [by intros w []|done..]. Qed.

(** A stage asks with a program that does not write to the Claim. *)
Lemma stage_ask {A} (M : list event -> Prop) (p : rprog A) f k :
  claimless p -> (forall a l, traced p l a -> harmless (f a) \/ (f a = k /\ M l)) -> stage M (rbind p f) k.
Proof.
  intros Hp Hf log r H. apply traced_bind in H as (a & l1 & l2 & -> & H1 & H2).
  assert (claim_free l1) as Hc by (by eapply claimless_log).
  destruct (Hf a l1 H1) as [Hh|[E HM]].
  - left. destruct (harmless_untouched _ _ _ Hh H2) as [Hc2 Hr]. split; [|done].
    intros w Hin. apply in_app_or in Hin as [Hin|Hin]; [exact (Hc w Hin)|exact (Hc2 w Hin)].
  - right. exists l1, l2. by rewrite <- E.
Qed.

(** ** The stages *)

Definition drained (l : list event) : Prop := access_ledger_enabled = true -> In (EvDrain (Ok Drained)) l.

Lemma drain_access_traced n o l :
  traced (drain_access n o) l (Ok Drained) -> o = Drained \/ In (EvDrain (Ok Drained)) l.
Proof.
  revert o l. induction n as [|n IH]; intros o l; cbn; [intros [[= ->] _]; auto|].
  intros (x & l' & -> & H). destruct x as [[]|e]; cbn in H.
  - destruct (IH _ _ H) as [|]; [done|]. right. by right.
  - destruct (IH _ _ H) as [|]; [done|]. right. by right.
  - right. by left.
  - by destruct H.
Qed.

Lemma claimless_drain n o : claimless (drain_access n o).
Proof. revert o. induction n as [|n IH]; intros o; cbn; [done|]. split; [by intros ? ?|]. intros [[]|e]; cbn; auto. Qed.

Lemma drain_stage_stage lease k : stage drained (drain_stage to_rfc3339 access_ledger_enabled lease k) k.
Proof.
  unfold drain_stage. destruct access_ledger_enabled eqn:Ha; cbn [negb].
  2:{ apply stage_skip. unfold drained. by rewrite Ha. }
  apply stage_ask; [apply claimless_drain|]. intros a l Hl.
  destruct a as [[]|[| | |e|]]; try (left; first [done|apply harmless_quarantine|by intros ?]).
  - right. split; [done|]. intros _. by destruct (drain_access_traced _ _ _ Hl).
  - left. destruct (is_401_or_403 e); [apply harmless_quarantine|done].
Qed.

(** The exact fence of this lease was read. *)
Definition fence_closed (lease : ParentLease) (l : list event) : Prop :=
  exists fence, In (EvFence fence) l /\ allocation_fence_matches ns fence lease = true.

Lemma judge_closed lease fence created l :
  traced (judge_fence parse_rfc3339 ns lease fence created) l (Ok FenceClosed) ->
  allocation_fence_matches ns fence lease = true /\ is_some (td_allocation_fence (ls_teardown (status_of lease))) = true.
Proof.
  unfold judge_fence. cbv zeta. destruct (allocation_fence_matches ns fence lease); cbn [negb]; [|by intros [? _]].
  destruct (filled (l_uid fence)); [|by intros [? _]]. destruct (td_allocation_fence _); [done|].
  intros H. apply traced_bind in H as ([|] & l1 & l2 & _ & _ & [H _]); done.
Qed.

Lemma claimless_judge lease fence created : claimless (judge_fence parse_rfc3339 ns lease fence created).
Proof. unfold judge_fence. cbv zeta. claimless_steps; auto. Qed.

Lemma claimless_fence lease : claimless (ensure_allocation_fence parse_rfc3339 to_rfc3339 configured_retention ns lease).
Proof. unfold ensure_allocation_fence. cbv zeta. claimless_steps; try apply claimless_judge. Qed.

Lemma fence_stage_stage lease k :
  stage (fence_closed lease) (fence_stage parse_rfc3339 to_rfc3339 configured_retention ns lease k) k.
Proof.
  unfold fence_stage. apply stage_ask; [apply claimless_fence|]. intros a l Hl.
  destruct a as [[|d| |q]|e]; try (left; done).
  2:{ left. destruct (footprint_absence_proven _); auto. }
  right. split; [done|]. unfold ensure_allocation_fence in Hl. cbv zeta in Hl.
  destruct (lease_uid lease); [|by destruct Hl]. destruct (match td_allocation_fence _ with Some _ => _ | None => _ end); [by destruct Hl|].
  cbn [rbind rcall traced] in Hl. destruct Hl as (x & l' & -> & Hl). destruct x as [[fence created]|e]; cbn in Hl.
  - apply judge_closed in Hl as [Hm _]. exists fence. split; [by left|done].
  - destruct (is_404 e); [|by destruct (is_401_or_403 e); destruct Hl].
    destruct (td_allocation_fence _) eqn:Hn; [by destruct Hl|]. exfalso. cbn in Hl.
    destruct Hl as (now & l2 & -> & Hl). destruct Hl as (y & l3 & -> & Hl).
    destruct y as [[[fence created]|e']|]; [|cbn in Hl; destruct (is_409 e'); [|by destruct Hl]|by destruct Hl].
    + apply judge_closed in Hl as [_ Hs]. by rewrite Hn in Hs.
    + destruct Hl as (z & l4 & -> & Hl). destruct z as [[fence created]|e2]; [|by destruct Hl].
      apply judge_closed in Hl as [_ Hs]. by rewrite Hn in Hs.
Qed.

(** The executions of a management lease whose absence is not proven yet. *)
Definition executions_stopped (lease : ParentLease) (child : bool) (l : list event) : Prop :=
  access_ledger_enabled = true -> child = false -> footprint_absence_proven (status_of lease) = false ->
  In (EvExecutions false CleanupClean) l \/ In (EvExecutions false AwaitTargetDestruction) l.

Lemma claimless_drain_steps n b d : claimless (drain_steps n b d).
Proof.
  induction n as [|n IH]; cbn; [done|]. split; [by intros ? ?|]. intros []; cbn; auto.
  destruct n; [done|]. cbn. split; [by intros ? ?|]. intros now. destruct (d <=? now); cbn; [done|].
  split; [by intros ? ?|]. intros []; cbn; auto.
Qed.

Lemma claimless_executions b : claimless (drain_execution_cleanup b).
Proof.
  unfold drain_execution_cleanup. apply claimless_bind; [cbn; split; [by intros ? ?|done]|].
  intros now. apply claimless_drain_steps.
Qed.

(** The outcome of the drain is the outcome of one of its cleanups. *)
Lemma drain_steps_traced n b d o l : traced (drain_steps n b d) l o -> o <> CleanupCheckpointed -> In (EvExecutions b o) l.
Proof.
  revert l. induction n as [|n IH]; intros l; cbn; [by intros [-> _]|]. intros (x & l' & -> & H) Ho.
  destruct x; try (by destruct H as [-> _]; left). destruct n; [by destruct H|].
  cbn in H. destruct H as (now & l2 & -> & H). destruct (d <=? now); [by destruct H|].
  cbn in H. destruct H as (stop & l3 & -> & H). destruct stop; [by destruct H|]. right; right; right. by apply IH.
Qed.

Lemma execution_stage_stage lease child k :
  stage (executions_stopped lease child) (execution_stage to_rfc3339 access_ledger_enabled lease child k) k.
Proof.
  unfold execution_stage. destruct (_ && _) eqn:E.
  2:{ apply stage_skip. intros Ha Hc Hp. by rewrite Ha, Hc, Hp in E. }
  apply stage_ask; [apply claimless_executions|]. intros a l Hl.
  assert (a <> CleanupCheckpointed -> In (EvExecutions false a) l) as Hin.
  { intros Ho. apply traced_bind in Hl as (now & l1 & l2 & -> & _ & Hl). apply in_or_app. right.
    by eapply drain_steps_traced. }
  destruct a as [| | | |[]|q]; cbn [execution_cleanup_advance]; try (left; first [done|apply harmless_stall|apply harmless_quarantine]).
  - right. split; [done|]. intros _ _ _. left. by apply Hin.
  - right. split; [done|]. intros _ _ _. right. by apply Hin.
Qed.

(** The identities scoped to the recorded Pod of exactly this lease. *)
Definition identities_removed (lease : ParentLease) (child : bool) (l : list event) : Prop :=
  forall pod, child = false -> ls_target (status_of lease) ≫= tp_pod = Some pod ->
  exists uid, pl_uid lease = Some uid /\ In (EvIdentities uid (oref_name pod) (oref_uid pod) (Some true)) l.

Lemma identity_stage_stage lease child k :
  stage (identities_removed lease child) (identity_stage to_rfc3339 ns lease child k) k.
Proof.
  unfold identity_stage. destruct (if child then _ else _) as [target|] eqn:E.
  2:{ apply stage_skip. intros pod ->. by rewrite E. }
  destruct child; [done|]. destruct (tp_pod target) as [pod|] eqn:Hpod.
  2:{ apply stage_skip. intros pod _. rewrite E. cbn. by rewrite Hpod. }
  assert (forall r, harmless r -> stage (identities_removed lease false) r k) as Hh.
  { intros r Hr log x H. left. by eapply harmless_untouched. }
  destruct (pl_uid lease) as [uid|] eqn:Hu; [|by apply Hh]. destruct (_ || _); [apply Hh, harmless_quarantine|].
  apply stage_ask; [cbn; split; [by intros ? ?|done]|]. intros a l Hl.
  destruct a as [[]|]; [|left; done|left; apply harmless_quarantine].
  right. split; [done|]. intros pod' _. rewrite E. cbn. rewrite Hpod. intros [= <-].
  exists uid. split; [done|]. cbn in Hl. destruct Hl as (x & l' & -> & [<- ->]). by left.
Qed.

Lemma harmless_begin lease reason p :
  begin_release parse_rfc3339 to_rfc3339 admitted lease reason = Some p -> harmless p.
Proof.
  unfold begin_release. cbv zeta. intros E. destruct (_ && is_none _); [injection E as <-; apply harmless_quarantine|].
  destruct (match ls_release_cause _ with Some _ => _ | None => _ end); [by injection E as <-|].
  destruct (_ || _); [|done]. injection E as <-. destruct (transition_sandbox_phase _ _ _); [|done].
  apply (harmless_bind (rcall ReadTime)); [cbn; split; [by intros ? ?|done]|]. intros now. by apply harmless_written.
Qed.

Lemma claimless_placed lease : claimless (is_child_placed lease).
Proof. unfold is_child_placed. cbv zeta. claimless_steps. Qed.

(** The end of a pass over a footprint that is proven absent: the executions
    that waited for that proof are retired. *)
Lemma after_proof_traced lease reason l r :
  traced (after_proof to_rfc3339 access_ledger_enabled lease reason) l r ->
  untouched l r \/ (claim_free l /\ (access_ledger_enabled = true -> In (EvExecutions true CleanupClean) l)).
Proof.
  unfold after_proof. destruct access_ledger_enabled eqn:Ha; cbn [negb].
  2:{ intros [-> ->]. right. split; [by intros w []|done]. }
  intros H. apply traced_bind in H as (o & l1 & l2 & -> & H1 & H2).
  pose proof (claimless_log _ _ _ (claimless_executions true) H1) as Hc.
  assert (forall p, harmless p -> traced p l2 r -> untouched (l1 ++ l2) r) as Hh.
  { intros p Hp H. destruct (harmless_untouched _ _ _ Hp H) as [Hc2 Hr]. split; [|done].
    intros w Hin. apply in_app_or in Hin as [Hin|Hin]; [exact (Hc w Hin)|exact (Hc2 w Hin)]. }
  destruct o as [| | | |[]|q];
    [|left; (refine (Hh _ _ H2); first [done|apply harmless_stall])..].
  destruct H2 as [-> ->]. rewrite app_nil_r. right. split; [done|]. intros _.
  apply traced_bind in H1 as (now & l3 & l4 & -> & _ & H1). apply in_or_app. right. by eapply drain_steps_traced.
Qed.

(** Executions by the time a pass may touch the workload: before the proof of
    absence, all are retired but those that only the end of the target will
    stop; with it, all are retired. *)
Definition executions_settled (lease : ParentLease) (l : list event) : Prop :=
  access_ledger_enabled = true ->
  if footprint_absence_proven (status_of lease) then In (EvExecutions true CleanupClean) l
  else In (EvExecutions false CleanupClean) l \/ In (EvExecutions false AwaitTargetDestruction) l.

(** What a pass has done once it may touch the workload. *)
Definition stopped (lease : ParentLease) (l : list event) : Prop :=
  drained l /\ fence_closed lease l /\ executions_settled lease l /\ identities_removed lease false l.

Lemma stopped_app lease l l' : stopped lease l -> stopped lease (l ++ l').
Proof.
  intros (H1 & (f & Hf & Hm) & H3 & H4). split; [|split; [|split]].
  - intros Ha. apply in_or_app. left. auto.
  - exists f. split; [apply in_or_app; by left|done].
  - intros Ha. specialize (H3 Ha). destruct (footprint_absence_proven _); [apply in_or_app; by left|].
    destruct H3; [left|right]; apply in_or_app; by left.
  - intros pod Ha Hb. destruct (H4 pod Ha Hb) as (uid & Hu & Hi). exists uid. split; [done|]. apply in_or_app. by left.
Qed.

Lemma pass_order lease reason log r :
  traced (drive_release parse_rfc3339 to_rfc3339 to_rfc3339_z configured_retention ns access_ledger_enabled admitted
            lease reason) log r ->
  untouched log r \/ exists l1 l2, log = l1 ++ l2 /\ claim_free l1 /\ stopped lease l1.
Proof.
  unfold drive_release. intros H. destruct (begin_release _ _ _ _ _) eqn:E.
  { left. eapply harmless_untouched; [by eapply harmless_begin|done]. }
  assert (forall a b, untouched b r -> claim_free a -> untouched (a ++ b) r) as Happ.
  { intros a b [Hb Hr] Ha. split; [|done]. intros w Hin. apply in_app_or in Hin as [Hin|Hin]; [exact (Ha w Hin)|exact (Hb w Hin)]. }
  destruct (drain_stage_stage _ _ _ _ H) as [|(l1 & r1 & -> & F1 & M1 & H1)]; [by left|].
  destruct (fence_stage_stage _ _ _ _ H1) as [|(l2 & r2 & -> & F2 & M2 & H2)]; [left; by apply Happ|].
  apply traced_bind in H2 as (child & l3 & r3 & -> & H3 & H4).
  assert (claim_free l3) as F3 by (eapply claimless_log; [apply claimless_placed|done]).
  destruct (execution_stage_stage _ _ _ _ _ H4) as [|(l4 & r4 & -> & F4 & M4 & H5)]; [left; auto|].
  destruct (identity_stage_stage _ _ _ _ _ H5) as [|(l5 & r5 & -> & F5 & M5 & H6)]; [left; auto 6|].
  destruct child.
  { left. assert (untouched r5 r) as Hu.
    { unfold workload_stage in H6. destruct (footprint_absence_proven _); destruct H6 as [-> ->]; (split; [by intros w []|done]). }
    auto 7. }
  assert (exists a b, r5 = a ++ b /\ claim_free a
            /\ (untouched r5 r \/ executions_settled lease (l4 ++ a))) as (a & b & -> & Fa & [Hu|Ms]).
  { unfold workload_stage in H6. unfold executions_settled. destruct (footprint_absence_proven _) eqn:Hp.
    - exists r5, []. rewrite app_nil_r. destruct (after_proof_traced _ _ _ _ H6) as [Hu|[Fr He]].
      + split; [done|]. split; [by destruct Hu|by left].
      + split; [done|]. split; [done|]. right. intros Ha. apply in_or_app. right. auto.
    - exists [], r5. split; [done|]. split; [by intros w []|]. right. rewrite app_nil_r. intros Ha.
      exact (M4 Ha eq_refl Hp). }
  { left. auto 7. }
  right. exists (l1 ++ l2 ++ l3 ++ l4 ++ l5 ++ a), b. rewrite <- !app_assoc. split; [done|]. split.
  - intros w Hin. repeat (apply in_app_or in Hin as [Hin|Hin]; [by first [exact (F1 w Hin)|exact (F2 w Hin)|exact (F3 w Hin)|exact (F4 w Hin)|exact (F5 w Hin)]|]).
    exact (Fa w Hin).
  - split; [intros Ha; apply in_or_app; left; auto|]. split.
    + destruct M2 as (f & Hf & Hm). exists f. split; [|done]. apply in_or_app. right. apply in_or_app. by left.
    + assert (forall e, In e (l4 ++ a) -> In e (l1 ++ l2 ++ l3 ++ l4 ++ l5 ++ a)) as Hin.
      { intros e He. do 3 (apply in_or_app; right). apply in_app_or in He as [He|He]; apply in_or_app; [by left|right].
        apply in_or_app. by right. }
      split.
      * intros Ha. specialize (Ms Ha). destruct (footprint_absence_proven _); [by apply Hin|].
        destruct Ms; [left|right]; by apply Hin.
      * intros pod Hc Hs. destruct (M5 pod Hc Hs) as (uid & Hu & Hi). exists uid. split; [done|].
        do 4 (apply in_or_app; right). apply in_or_app. by left.
Qed.

(** What came before the pass wrote to the Claim, or went on to finish. *)
Definition touches (log : list event) (r : ReleasePass) (pre : list event) : Prop :=
  (exists w post, log = pre ++ EvClaim w :: post) \/ ((exists x, r = PassFinish x) /\ pre = log).

Lemma stopped_before lease reason log r pre :
  traced (drive_release parse_rfc3339 to_rfc3339 to_rfc3339_z configured_retention ns access_ledger_enabled admitted
            lease reason) log r -> touches log r pre -> stopped lease pre.
Proof.
  intros H [(w & post & ->)|[[x ->] ->]]; destruct (pass_order _ _ _ _ H) as [[Hc Hr]|(l1 & l2 & E & Hc & Hs)].
  - destruct (Hc w). apply in_or_app. right. by left.
  - assert (exists l3, pre = l1 ++ l3) as [l3 ->]; [|by apply stopped_app].
    clear H Hs. revert pre E. induction l1 as [|e l1 IH]; intros pre E; [by exists pre|].
    destruct pre as [|e' pre]; cbn in E; injection E as <- E; [destruct (Hc w); by left|].
    destruct (IH (fun w Hin => Hc w (or_intror Hin)) pre E) as [l3 ->]. by exists l3.
  - by destruct (Hr x).
  - rewrite E. by apply stopped_app.
Qed.
End Order.
