(* ===== verification/ReleaseWrites.v ===== *)
(** * What a release pass writes to its lease

    Every status a pass of [drive_release] writes extends the one it read: no
    checkpoint that a later pass or the retention of the lease relies on is
    cleared or changed. *)

From S2P Require Import Prelude Text Quarantine Durations SandboxObjects SandboxLifecycle LedgerApi AccessLedger ExecutionApi ExecutionCleanup AdmissionApi Admission Claims Footprint Release ReleaseOrder.

Local Open Scope kobe_scope.

Definition kept {A} (o o' : option A) : Prop := forall a, o = Some a -> o' = Some a.

Lemma kept_refl {A} (o : option A) : kept o o.
Proof. by intros a. Qed.
Lemma kept_none {A} (o : option A) : kept None o.
Proof. by intros a. Qed.
#[export] Hint Resolve kept_refl kept_none : core.

(** The identities of a target that teardown relies on; the Service is not one
    of them. *)
Record target_extends (t t' : SandboxTargetProvenance) : Prop := {
  te_namespace : tp_namespace t' = tp_namespace t;
  te_claim : kept (tp_sandbox_claim t) (tp_sandbox_claim t');
  te_sandbox : kept (tp_sandbox t) (tp_sandbox t');
  te_pod : kept (tp_pod t) (tp_pod t');
  te_replacements : exists more, tp_replacement_pods t' = tp_replacement_pods t ++ more;
  te_service_required : tp_service_required t' = tp_service_required t;
  te_workspace : tp_workspace_volume_required t' = tp_workspace_volume_required t;
  te_child_lease : tp_child_cluster_lease t' = tp_child_cluster_lease t;
  te_child_instance : tp_child_cluster_instance t' = tp_child_cluster_instance t;
  te_secret : tp_child_cluster_kubeconfig_secret t' = tp_child_cluster_kubeconfig_secret t;
  te_sha256 : tp_child_cluster_kubeconfig_sha256 t' = tp_child_cluster_kubeconfig_sha256 t;
  te_template : tp_sandbox_template t' = tp_sandbox_template t;
  te_warm_pool : tp_sandbox_warm_pool t' = tp_sandbox_warm_pool t;
}.

Record status_extends (st st' : SandboxLeaseStatus) : Prop := {
  se_cause : kept (ls_release_cause st) (ls_release_cause st');
  se_releasing_at : kept (td_releasing_at (ls_teardown st)) (td_releasing_at (ls_teardown st'));
  se_cleanup : kept (td_claim_cleanup_fence (ls_teardown st)) (td_claim_cleanup_fence (ls_teardown st'));
  se_tombstone : kept (td_sandbox_claim_tombstone (ls_teardown st)) (td_sandbox_claim_tombstone (ls_teardown st'));
  se_fence : kept (td_allocation_fence (ls_teardown st)) (td_allocation_fence (ls_teardown st'));
  se_target : forall t, ls_target st = Some t -> exists t', ls_target st' = Some t' /\ target_extends t t';
  se_absence : footprint_absence_proven st = true -> footprint_absence_proven st' = true;
  se_placement : ls_placement st' = ls_placement st;
  se_ready_at : ls_ready_at st' = ls_ready_at st;
  se_live : footprint_absence_proven st = false -> footprint_absence_proven st' = false;
}.

Lemma target_extends_refl t : target_extends t t.
Proof. split; auto. exists []. by rewrite app_nil_r. Qed.
#[export] Hint Resolve target_extends_refl : core.

(** ** Programs whose status writes satisfy [P] *)

Section Writes.
Context (P : SandboxLeaseStatus -> Prop).

Definition writes_only {R} (p : rprog R) : Prop := forall log r st, traced p log r -> In (EvStatus st) log -> P st.

Lemma writes_ret {R} (r : R) : writes_only (RRet r).
Proof. by intros log x st [_ ->] []. Qed.

Lemma writes_bind {A B} (p : rprog A) (f : A -> rprog B) :
  writes_only p -> (forall a l, traced p l a -> writes_only (f a)) -> writes_only (rbind p f).
Proof.
  intros Hp Hf log r st H Hin. apply traced_bind in H as (a & l1 & l2 & -> & H1 & H2).
  apply in_app_or in Hin as [Hin|Hin]; [by eapply Hp|by eapply Hf].
Qed.

Lemma writes_call {X} (q : rreq X) : (forall st x, event_of q x = EvStatus st -> P st) -> writes_only (rcall q).
Proof. intros Hq log r st (x & l & -> & [_ ->]) [E|[]]. by apply (Hq st x). Qed.

Lemma writes_status lease st : P st -> writes_only (write_status lease st).
Proof.
  intros HP. unfold write_status. destruct (fence lease) as [f|]; [|apply writes_ret].
  apply writes_bind; [apply writes_call; by intros x y [= <-]|]. intros a l _. apply writes_ret.
Qed.

Lemma writes_written p k : writes_only p -> writes_only (written p k).
Proof. intros Hp. apply writes_bind; [done|]. intros a l _. apply writes_ret. Qed.
End Writes.

(** Split a program into steps that write no status, leaving those that may. *)
Ltac writes_steps :=
  repeat first
    [ apply writes_ret
    | apply writes_call; intros ? ?; cbn; by repeat case_match
    | apply writes_bind; [|intros ? ? _]
    | match goal with
      | |- writes_only _ (match ?x with _ => _ end) => destruct x eqn:?
      | |- writes_only _ (if ?x then _ else _) => destruct x eqn:?
      end ].

(** ** What is written *)

Lemma condition_kept st gen type v reason message now f t w :
  t <> type ->
  existsb (fun c => String.eqb (sc_type c) t && bool_decide (sc_status c = w))
    (with_condition_for_status f st gen type v reason message now)
  = condition_is st t w.
Proof.
  intros Hne. unfold with_condition_for_status, condition_is. rewrite existsb_app. cbn.
  assert (String.eqb type t = false) as -> by (by apply String.eqb_neq). cbn. rewrite !orb_false_r.
  induction (ls_conditions st) as [|c l IH]; [done|]. cbn. destruct (String.eqb (sc_type c) type) eqn:E; cbn.
  - apply String.eqb_eq in E. rewrite E, IH. assert (String.eqb type t = false) as -> by (by apply String.eqb_neq). done.
  - by rewrite IH.
Qed.

Lemma record_pod_extends t pod served replacements :
  record_pod t pod = Ok (served, replacements) ->
  kept (tp_pod t) served /\ exists more, replacements = tp_replacement_pods t ++ more.
Proof.
  unfold record_pod. destruct pod as [r|].
  - destruct (tp_pod t) as [s|]; [|intros [= <- <-]; split; [done|exists []; by rewrite app_nil_r]].
    destruct (bool_decide _); [intros [= <- <-]; split; [done|exists []; by rewrite app_nil_r]|].
    destruct (existsb _ _); [intros [= <- <-]; split; [done|exists []; by rewrite app_nil_r]|].
    destruct (_ <=? _)%nat; [done|]. intros [= <- <-]. split; [done|]. by eexists.
  - intros [= <- <-]. split; [done|]. exists []. by rewrite app_nil_r.
Qed.

Lemma checkpoint_sandbox_extends ns t claim sandbox l t' :
  traced (checkpoint_sandbox ns t claim sandbox) l (DescendantsUpdated t') -> target_extends t t'.
Proof.
  unfold checkpoint_sandbox. cbv zeta. destruct (negb _); [by intros [? _]|].
  destruct (object_reference _ _ _ _) as [r|]; [|by intros [? _]].
  destruct (match tp_sandbox t with Some _ => _ | None => _ end) eqn:Hs; [by intros [? _]|].
  intros H. apply traced_bind in H as (svc & l1 & l2 & _ & _ & H). destruct svc as [svc|]; [|by destruct H].
  apply traced_bind in H as (pod & l3 & l4 & _ & _ & [H _]).
  destruct pod as [pod|]; [|done]. cbn in H. destruct (record_pod t pod) as [[served more]|] eqn:Hp; [|done].
  destruct (bool_decide _); [done|]. injection H as ->. apply record_pod_extends in Hp as [Hk Hm].
  split; try done. cbn. destruct (tp_sandbox t) as [s|]; [|done]. apply negb_false_iff, bool_decide_eq_true in Hs. by subst.
Qed.

Lemma descendants_extend ns lease t l t' :
  ls_target (status_of lease) = Some t ->
  traced (checkpoint_management_descendants ns lease) l (DescendantsUpdated t') -> target_extends t t'.
Proof.
  intros Ht. unfold checkpoint_management_descendants. intros H.
  apply traced_bind in H as (v & l1 & l2 & _ & _ & H). destruct (negb _); [by destruct H|].
  assert (pl_status lease ≫= ls_target = Some t) as Ht' by (rewrite <- Ht; unfold status_of; by destruct (pl_status lease)).
  rewrite Ht' in H. destruct (tp_sandbox_claim t) as [claim|]; [|by destruct H].
  apply traced_bind in H as (x & l3 & l4 & _ & _ & H). destruct x as [[c name]|e]; [|destruct H; by case_match].
  destruct (negb _); [by destruct H|]. destruct (filled name); [|by destruct H].
  apply traced_bind in H as (read & l5 & l6 & _ & _ & H). destruct read as [sandbox|e]; [|destruct H; by case_match].
  by eapply checkpoint_sandbox_extends.
Qed.

Section Pass.
Context (parse_rfc3339 : string -> option Z) (to_rfc3339 to_rfc3339_z : Z -> string).
Context (configured_retention : option string) (ns : string) (access_ledger_enabled : bool) (admitted : ParentLease -> bool).
Context (lease : ParentLease).
Local Abbreviation st := (status_of lease).
Local Abbreviation grows := (status_extends st).

Lemma grows_condition phase cause type v reason message now :
  type <> FOOTPRINT_ABSENT_CONDITION -> kept (ls_release_cause st) cause ->
  grows (with_cause st phase cause (with_condition_for_status to_rfc3339 st (pl_generation lease) type v reason message now)).
Proof.
  intros Ht Hc. split; cbn; auto.
  - intros t E. eauto.
  - intros <-. by apply condition_kept.
  - intros <-. by apply condition_kept.
Qed.

Lemma grows_teardown t :
  kept (td_releasing_at (ls_teardown st)) (td_releasing_at t) ->
  kept (td_claim_cleanup_fence (ls_teardown st)) (td_claim_cleanup_fence t) ->
  kept (td_sandbox_claim_tombstone (ls_teardown st)) (td_sandbox_claim_tombstone t) ->
  kept (td_allocation_fence (ls_teardown st)) (td_allocation_fence t) -> grows (with_teardown st t).
Proof. intros. split; cbn; eauto. Qed.

Lemma grows_target t' : (forall t, ls_target st = Some t -> target_extends t t') -> grows (with_target st (Some t')).
Proof. intros H. split; cbn; auto. intros t E. eauto. Qed.

Lemma claim_recorded t r : tp_sandbox_claim t = None -> target_extends t (with_claim t r).
Proof. intros E. split; cbn; auto; [by rewrite E|]. exists []. by rewrite app_nil_r. Qed.

Lemma writes_quarantine q : writes_only grows (quarantine_lease to_rfc3339 lease q).
Proof.
  unfold quarantine_lease, quarantine_lease_with_cause. destruct (footprint_absence_proven _); [apply writes_ret|].
  destruct (transition_sandbox_phase _ _ _); [|apply writes_ret]. apply writes_bind; [by apply writes_call|].
  intros now l _. apply writes_written, writes_status, grows_condition; [done|]. by destruct (ls_release_cause _).
Qed.

Lemma writes_stall a b c : writes_only grows (record_stall to_rfc3339 lease a b c).
Proof.
  unfold record_stall. destruct (existsb _ _); [apply writes_ret|]. apply writes_bind; [by apply writes_call|].
  intros now l _. apply writes_written, writes_status. by apply (grows_condition (ls_phase st) (ls_release_cause st)).
Qed.

Lemma unnamed status : nothing_named admitted lease status = true ->
  td_claim_cleanup_fence (ls_teardown status) = None.
Proof.
  unfold nothing_named. rewrite !andb_true_iff. intros H. destruct_and!. by destruct (td_claim_cleanup_fence _).
Qed.

Lemma writes_begin reason p :
  reason <> ReasonMissingCause \/ ls_release_cause st = None ->
  begin_release parse_rfc3339 to_rfc3339 admitted lease reason = Some p -> writes_only grows p.
Proof.
  unfold begin_release. cbv zeta. intros Hr E.
  destruct (bool_decide (reason = ReasonMissingCause) && _) eqn:Hm; [injection E as <-; apply writes_quarantine|].
  destruct (match ls_release_cause _ with Some _ => _ | None => _ end) eqn:Hc; [injection E as <-; apply writes_ret|].
  destruct (_ || _); [|done]. injection E as <-. destruct (transition_sandbox_phase _ _ _); [|apply writes_ret].
  apply (writes_bind grows (rcall ReadTime)); [by apply writes_call|]. intros now l _.
  apply writes_written, writes_status. split; cbn; eauto.
  - destruct (ls_release_cause st) as [c|]; [|done]. destruct (persisted_cause reason) as [c'|] eqn:Hp.
    + apply negb_false_iff, bool_decide_eq_true in Hc. by subst.
    + destruct Hr as [Hr|Hr]; [|done]. by destruct reason.
  - by destruct (td_releasing_at _).
  - destruct (admitted_pending_is_allocation_free _ _ _ _) eqn:Ha.
    + unfold admitted_pending_is_allocation_free in Ha. rewrite !andb_true_iff in Ha. destruct Ha as [_ Ha].
      by rewrite (unnamed _ Ha).
    + destruct (pre_create_is_allocation_free _ _ _) eqn:Hp; [|done].
      unfold pre_create_is_allocation_free in Hp. rewrite !andb_true_iff in Hp. destruct Hp as [_ Hp].
      by rewrite (unnamed _ Hp).
Qed.

Lemma writes_drain_access n o : writes_only grows (drain_access n o).
Proof.
  revert o. induction n as [|n IH]; intros o; cbn [drain_access]; [apply writes_ret|].
  apply writes_bind; [by apply writes_call|]. intros [[]|] l _; auto; apply writes_ret.
Qed.

Lemma writes_drain_steps n b d : writes_only grows (drain_steps n b d).
Proof.
  induction n as [|n IH]; cbn [drain_steps]; [apply writes_ret|].
  apply writes_bind; [by apply writes_call|]. intros [] l _; try apply writes_ret.
  destruct n; [apply writes_ret|]. apply writes_bind; [by apply writes_call|]. intros now l2 _.
  destruct (d <=? now); [apply writes_ret|]. apply writes_bind; [by apply writes_call|]. intros [] l3 _; [apply writes_ret|done].
Qed.

Lemma writes_executions b : writes_only grows (drain_execution_cleanup b).
Proof. apply writes_bind; [by apply writes_call|]. intros now l _. apply writes_drain_steps. Qed.

Lemma writes_judge fence created : writes_only grows (judge_fence parse_rfc3339 ns lease fence created).
Proof.
  unfold judge_fence. cbv zeta. destruct (negb _); [apply writes_ret|]. destruct (filled _); [|apply writes_ret].
  destruct (td_allocation_fence _) eqn:Ha.
  - writes_steps.
  - apply writes_bind; [|intros a l _; apply writes_ret]. apply writes_status, grows_teardown; cbn; auto. by rewrite Ha.
Qed.

Lemma writes_fence : writes_only grows (ensure_allocation_fence parse_rfc3339 to_rfc3339 configured_retention ns lease).
Proof. unfold ensure_allocation_fence. cbv zeta. writes_steps; apply writes_judge. Qed.

Lemma writes_ensure :
  writes_only grows (ensure_management_claim_tombstone parse_rfc3339 to_rfc3339 to_rfc3339_z configured_retention ns lease).
Proof.
  unfold ensure_management_claim_tombstone. cbv zeta. apply writes_bind; [by apply writes_call|]. intros read l _.
  apply writes_bind; [by apply writes_call|]. intros now l2 _.
  destruct (tombstone_plan _ _ _ _ _ _ _ _) as [r|w|w|ref|w] eqn:Hp.
  1,2,3,5: writes_steps.
  apply writes_bind; [|intros a l3 _; apply writes_ret]. apply writes_status, grows_teardown; cbn; auto.
  destruct (td_sandbox_claim_tombstone (ls_teardown st)) eqn:Ht; [exfalso|done]. revert Hp. unfold tombstone_plan, status_of in *.
  cbv zeta. rewrite Ht. by repeat (case_match; try discriminate).
Qed.

(** ** The footprint checks write nothing *)

Lemma writes_validate : writes_only grows (validate_management_target_provenance ns lease).
Proof. unfold validate_management_target_provenance, missing_service_provenance_is_allowed. writes_steps. Qed.

Lemma writes_storage uids r e : writes_only grows (exact_owned_storage_is_absent uids r e).
Proof. unfold exact_owned_storage_is_absent. cbv zeta. writes_steps. Qed.

Lemma writes_labelled uid r : writes_only grows (claim_labelled_sandboxes_absent uid r).
Proof. unfold claim_labelled_sandboxes_absent. writes_steps. Qed.

Lemma writes_labelled_all uids r : writes_only grows (labelled_sandboxes_absent uids r).
Proof.
  induction uids as [|u uids IH]; cbn [labelled_sandboxes_absent]; [apply writes_ret|].
  apply writes_bind; [apply writes_labelled|]. intros [] l _; auto using writes_ret.
Qed.

Lemma writes_owners owners c a b d : writes_only grows (unresolved_owners owners c a b d).
Proof.
  induction owners as [|o owners IH]; cbn [unresolved_owners]; [apply writes_ret|].
  apply writes_bind; [by apply writes_call|]. intros [s|e] l _; [|apply writes_ret].
  destruct (str_opt_eqb _ _); [|apply writes_ret]. destruct (sandbox_of_claim _ _); [apply writes_ret|done].
Qed.

(** A list request never writes. *)
Definition reads {X} (q : rreq X) : Prop := forall x, event_of q x = EvOther.

Lemma writes_reads {X} (q : rreq X) : reads q -> writes_only grows (rcall q).
Proof. intros Hq. apply writes_call. intros s x. by rewrite Hq. Qed.

Lemma writes_unresolved q c a b d : reads q -> writes_only grows (unresolved_sandbox_children_absent q c a b d).
Proof.
  intros Hq. unfold unresolved_sandbox_children_absent. apply writes_bind; [by apply writes_reads|].
  intros [o|e] l _; [apply writes_owners|apply writes_ret].
Qed.

Lemma writes_unresolved_all claims : writes_only grows (unresolved_children_absent claims).
Proof.
  induction claims as [|c claims IH]; cbn [unresolved_children_absent]; [apply writes_ret|].
  apply writes_bind; [by apply writes_unresolved|]. intros a l _. apply writes_bind; [by apply writes_unresolved|].
  intros b l2 _. destruct (first_unverified _); auto using writes_ret.
Qed.

Lemma writes_owned q r recorded a b c d : reads q -> writes_only grows (exact_owned_objects_absent q r recorded a b c d).
Proof. intros Hq. apply writes_bind; [by apply writes_reads|]. intros x l _. apply writes_ret. Qed.

Lemma writes_pods names recorded owner : writes_only grows (pods_absent_under names recorded owner).
Proof.
  induction names as [|n names IH]; cbn [pods_absent_under]; [apply writes_ret|].
  apply writes_bind; [by apply writes_call|]. intros [o|e] l _; [apply writes_ret|].
  destruct (is_404 e); auto using writes_ret.
Qed.

Lemma writes_object (get : string -> rreq (result Obj kube_error)) r o :
  (forall n, reads (get n)) -> writes_only grows (exact_object_absence get r o).
Proof. intros Hg. apply writes_bind; [by apply writes_reads|]. intros x l _. apply writes_ret. Qed.

(** [if check != Verified { return check }] *)
Lemma writes_check (p q : rprog TargetFootprintCheck) : writes_only grows p -> writes_only grows q -> writes_only grows (p ;? q).
Proof. intros Hp Hq. apply writes_bind; [done|]. intros [] l _; auto using writes_ret. Qed.

Lemma writes_management tombstone prior : writes_only grows (management_target_footprint_absent ns lease tombstone prior).
Proof.
  unfold management_target_footprint_absent. apply writes_check; [apply writes_validate|].
  destruct (pl_status lease ≫= ls_target) as [t|]; [|apply writes_ret].
  destruct (tp_sandbox_claim t) as [c|]; [|apply writes_ret]. destruct (_ || _); [apply writes_ret|]. cbv zeta.
  apply writes_check.
  { unfold recorded_sandbox_absent. destruct (tp_sandbox t); [|apply writes_ret].
    apply writes_bind; [by apply writes_object|]. intros a l _. apply writes_ret. }
  apply writes_check.
  { unfold recorded_pods_absent. destruct (tp_sandbox t); [|apply writes_ret]. destruct (recorded_pods t) eqn:E; [apply writes_ret|].
    apply writes_bind; [apply writes_pods|]. intros a la _. apply writes_ret. }
  apply writes_check.
  { unfold recorded_service_absent. destruct (tp_service t); [|apply writes_ret]. destruct (tp_sandbox t); [|apply writes_ret].
    apply writes_bind; [by apply writes_object|]. intros a l _. apply writes_ret. }
  apply writes_check; [apply writes_labelled_all|]. apply writes_check; [|apply writes_storage].
  destruct (tp_sandbox t); [|apply writes_unresolved_all]. unfold owned_children_absent.
  apply writes_bind; [by apply writes_owned|]. intros a l _. apply writes_bind; [by apply writes_owned|].
  intros b l2 _. apply writes_ret.
Qed.

Lemma writes_no_descendants tombstone a b : writes_only grows (tombstone_has_no_descendants tombstone a b).
Proof.
  unfold tombstone_has_no_descendants. apply writes_check; [apply writes_labelled|].
  apply writes_check; [by apply writes_unresolved|]. apply writes_check; [by apply writes_unresolved|]. apply writes_storage.
Qed.

Lemma writes_preflight : writes_only grows (preflight_management_target ns lease).
Proof.
  unfold preflight_management_target. apply writes_check; [apply writes_validate|].
  destruct (pl_status lease ≫= ls_target); [|apply writes_ret]. destruct (tp_sandbox_claim _); [|apply writes_ret].
  apply writes_storage.
Qed.

Lemma writes_descendants : writes_only grows (checkpoint_management_descendants ns lease).
Proof.
  unfold checkpoint_management_descendants. apply writes_bind; [apply writes_validate|]. intros v l _.
  destruct (negb _); [apply writes_ret|]. destruct (pl_status lease ≫= ls_target); [|apply writes_ret].
  destruct (tp_sandbox_claim _); [|apply writes_ret]. apply writes_bind; [by apply writes_call|]. intros [[c n]|e] l2 _; [|apply writes_ret].
  destruct (negb _); [apply writes_ret|]. destruct (filled n); [|apply writes_ret].
  apply writes_bind; [by apply writes_call|]. intros [o|e] l3 _; [|apply writes_ret].
  unfold checkpoint_sandbox, observed_service, observed_pod. cbv zeta. writes_steps.
Qed.

(** ** The stages *)

Lemma writes_conclude reason retry c : writes_only grows (conclude to_rfc3339 lease reason retry c).
Proof. destruct c; [apply writes_ret..|apply writes_quarantine]. Qed.

Lemma writes_never_started tombstone prior reason :
  writes_only grows (checkpoint_never_started_management_claim to_rfc3339 ns lease tombstone prior reason).
Proof.
  unfold checkpoint_never_started_management_claim. cbv zeta. destruct (str_opt_eqb _ _).
  { apply writes_bind; [|intros c l _; apply writes_conclude].
    unfold admission_only_management_footprint_absent. cbv zeta. destruct (_ || _); [apply writes_ret|apply writes_no_descendants]. }
  destruct (str_opt_eqb _ _).
  { apply writes_bind; [|intros c l _; apply writes_conclude].
    unfold pre_create_footprint_absent. cbv zeta. destruct (_ || _); [apply writes_ret|].
    apply writes_bind; [by apply writes_call|]. intros [u|e] l _; [apply writes_ret|].
    destruct (is_404 e); [apply writes_no_descendants|apply writes_ret]. }
  destruct (negb _); [apply writes_quarantine|]. destruct (ls_target st) as [t|] eqn:Ht; [|apply writes_quarantine].
  destruct (_ || _) eqn:E; [apply writes_quarantine|]. rewrite !orb_false_iff in E. destruct_and!.
  apply writes_written, writes_status, grows_target. intros t' E'. rewrite Ht in E'. injection E' as <-.
  apply claim_recorded. by destruct (tp_sandbox_claim t).
Qed.

Lemma writes_unrecorded_tombstone reason :
  writes_only grows (release_unrecorded_tombstone parse_rfc3339 to_rfc3339 to_rfc3339_z configured_retention ns lease reason).
Proof.
  unfold release_unrecorded_tombstone. apply writes_bind; [apply writes_ensure|].
  intros [[]|] l _; try apply writes_ret; [apply writes_never_started|apply writes_quarantine].
Qed.

Lemma writes_unrecorded reason :
  ls_target st ≫= tp_sandbox_claim = None ->
  writes_only grows (release_unrecorded_claim parse_rfc3339 to_rfc3339 to_rfc3339_z configured_retention ns lease reason).
Proof.
  intros Hc. unfold release_unrecorded_claim. apply writes_bind; [by apply writes_call|]. intros [[c n]|e] l _.
  - destruct (_ || _); [apply writes_unrecorded_tombstone|]. unfold recover_claim. cbv zeta.
    set (record := match target_reference ns c with Ok _ => _ | Err _ => _ end).
    assert (writes_only grows record) as Hrec.
    { subst record. destruct (target_reference ns c); [|apply writes_ret]. destruct (negb _); [apply writes_quarantine|].
      apply writes_written, writes_status, grows_target. intros t Ht. rewrite Ht in *. cbn in *. by apply claim_recorded. }
    clearbody record. destruct (pl_uid lease); [|apply writes_ret]. destruct (negb _); [apply writes_quarantine|].
    destruct (is_some _); [destruct (_ || _); [apply writes_quarantine|done]|].
    destruct (ensure_management_claim_fenced _ _ _ _) as [[| |w]|]; [done|apply writes_quarantine| |apply writes_ret].
    apply writes_bind; [by apply writes_call|]. intros a l2 _. apply writes_ret.
  - destruct (is_404 e); [apply writes_unrecorded_tombstone|].
    destruct (is_401_or_403 e); [apply writes_quarantine|apply writes_ret].
Qed.

Lemma writes_recorded claim reason :
  ls_target st ≫= tp_sandbox_claim = Some claim ->
  writes_only grows (release_recorded_claim parse_rfc3339 to_rfc3339 to_rfc3339_z configured_retention ns lease claim reason).
Proof.
  intros Hc. unfold release_recorded_claim. cbv zeta. destruct (negb _); [apply writes_quarantine|].
  apply writes_bind; [apply writes_descendants|]. intros d l Hd.
  destruct d as [|t'|[|c|q]]; [|
    apply writes_written, writes_status, grows_target; intros t Ht; by eapply descendants_extend| |apply writes_ret|apply writes_quarantine].
  all: apply writes_bind; [apply writes_preflight|]; intros [|c|q] l2 _; [|apply writes_ret|apply writes_quarantine];
       apply writes_bind; [apply writes_ensure|]; intros [[|c tombstone prior|secs|q]|e] l3 _;
       try apply writes_ret; [|apply writes_quarantine]; destruct (negb _); [apply writes_quarantine|];
       apply writes_bind; [apply writes_management|]; intros v l4 _; apply writes_conclude.
Qed.

(** Every status of a pass extends the one it read. *)
Lemma pass_writes_extend reason :
  reason <> ReasonMissingCause \/ ls_release_cause st = None ->
  writes_only grows (drive_release parse_rfc3339 to_rfc3339 to_rfc3339_z configured_retention ns access_ledger_enabled admitted
                  lease reason).
Proof.
  intros Hr. unfold drive_release. destruct (begin_release _ _ _ _ _) eqn:E; [by eapply writes_begin|].
  assert (forall k, writes_only grows k -> writes_only grows (drain_stage to_rfc3339 access_ledger_enabled lease k)) as Hdrain.
  { intros k Hk. unfold drain_stage. destruct (negb _); [done|]. apply writes_bind; [apply writes_drain_access|].
    intros [[]|[| | |e|]] l _; auto using writes_ret, writes_quarantine.
    destruct (is_401_or_403 e); [apply writes_quarantine|apply writes_ret]. }
  apply Hdrain. apply writes_bind; [apply writes_fence|]. intros [[|d| |q]|e] l _; try apply writes_ret.
  2:{ destruct (footprint_absence_proven _); [apply writes_stall|apply writes_quarantine]. }
  apply writes_bind; [unfold is_child_placed; cbv zeta; writes_steps|]. intros child l2 _.
  assert (writes_only grows (workload_stage parse_rfc3339 to_rfc3339 to_rfc3339_z configured_retention ns access_ledger_enabled
                          lease child reason)) as Hw.
  { unfold workload_stage. cbv zeta. destruct (footprint_absence_proven _).
    - destruct child; [apply writes_ret|]. unfold after_proof. destruct (negb _); [apply writes_ret|].
      apply writes_bind; [apply writes_executions|]. intros [| | | |[]|q] l3 _; try apply writes_ret; apply writes_stall.
    - destruct child; [apply writes_ret|]. destruct (ls_target st ≫= tp_sandbox_claim) eqn:Hc;
        [by apply writes_recorded|by apply writes_unrecorded]. }
  assert (writes_only grows (identity_stage to_rfc3339 ns lease child
            (workload_stage parse_rfc3339 to_rfc3339 to_rfc3339_z configured_retention ns access_ledger_enabled
               lease child reason))) as Hi.
  { unfold identity_stage. destruct (if child then _ else _); [|done]. destruct (tp_pod _); [|done].
    destruct (pl_uid lease); [|apply writes_ret]. destruct (_ || _); [apply writes_quarantine|].
    apply writes_bind; [by apply writes_call|]. intros [[]|] l3 _; [done|apply writes_ret|apply writes_quarantine]. }
  unfold execution_stage. destruct (_ && _); [|done]. apply writes_bind; [apply writes_executions|]. intros o l3 _.
  destruct (execution_cleanup_advance o); auto using writes_ret, writes_quarantine. apply writes_stall.
Qed.

(** ** The cause *)

Lemma reason_persisted now reason c :
  release_reason parse_rfc3339 lease now = Some reason -> ls_release_cause st = Some c -> persisted_cause reason = Some c.
Proof.
  unfold release_reason. cbv zeta. intros Hr Hc. rewrite Hc in Hr.
  destruct (ls_phase st); cbn in Hr; try done; injection Hr as <-; by destruct c.
Qed.

(** A pass over a lease without a cause is the one that writes it. *)
Lemma begin_writes_cause reason :
  ls_release_cause st = None -> reason <> ReasonMissingCause ->
  writes_only (fun status => ls_release_cause status = persisted_cause reason)
    (drive_release parse_rfc3339 to_rfc3339 to_rfc3339_z configured_retention ns access_ledger_enabled admitted
       lease reason).
Proof.
  intros Hc Hm. unfold drive_release, begin_release. cbv zeta. rewrite Hc.
  assert (exists c, persisted_cause reason = Some c) as [c Hp] by (destruct reason; cbn; eauto; done).
  rewrite Hp, (bool_decide_false _ Hm). cbn [andb is_none is_some negb]. rewrite orb_true_r.
  destruct (transition_sandbox_phase _ _ _); [|apply writes_ret].
  apply (writes_bind _ (rcall ReadTime)); [by apply writes_call|]. intros now l _. by apply writes_written, writes_status.
Qed.

Lemma written_cause now reason log r status :
  release_reason parse_rfc3339 lease now = Some reason -> reason <> ReasonMissingCause ->
  traced (drive_release parse_rfc3339 to_rfc3339 to_rfc3339_z configured_retention ns access_ledger_enabled admitted
            lease reason) log r -> In (EvStatus status) log -> ls_release_cause status = persisted_cause reason.
Proof.
  intros Hr Hm Ht Hin. destruct (ls_release_cause st) as [c|] eqn:Hc.
  - rewrite (reason_persisted _ _ _ Hr Hc).
    by apply (se_cause _ _ (pass_writes_extend reason (or_introl Hm) _ _ _ Ht Hin)).
  - by apply (begin_writes_cause reason Hc Hm _ _ _ Ht Hin).
Qed.
End Pass.

(** ** What is recorded over the life of a lease *)

(** A target without its Service. *)
Definition forget_service (p : SandboxTargetProvenance) : SandboxTargetProvenance :=
  with_descendants p (tp_sandbox p) (tp_pod p) (tp_replacement_pods p) None.

Lemma provenance_le_forget e m : provenance_le e m -> provenance_le (forget_service e) (forget_service m).
Proof. intros []. by split. Qed.

Lemma target_extends_forget t t' : target_extends t t' -> provenance_le (forget_service t) (forget_service t').
Proof. intros [? ? ? ? [more Hm] ? ? ? ? ? ? ? ?]. split; try done; cbn; try congruence. by exists more. Qed.

Section History.
Context (parse_rfc3339 : string -> option Z) (to_rfc3339 to_rfc3339_z : Z -> string).
Context (configured_retention : option string) (ns : string) (access_ledger_enabled : bool) (admitted : ParentLease -> bool).

(** The writers of a target: a record merged into it, the service requirement
    at Ready, and the statuses of a pass of [drive_release]; [true] marks the
    last. *)
Inductive target_write (placement : ResolvedSandboxPlacement)
  : bool -> SandboxTargetProvenance -> SandboxTargetProvenance -> Prop :=
| WriteMerged t proposed t' :
    merge_target_provenance (Some t) proposed placement ns = Ok t' -> target_write placement false t t'
| WriteRequirement t phase next required t' :
    ls_target next = Some t -> ls_target (record_service_requirement_at_ready phase next required) = Some t' ->
    target_write placement false t t'
| WriteReleasing t lease now reason log r status t' :
    ls_target (status_of lease) = Some t -> release_reason parse_rfc3339 lease now = Some reason ->
    traced (drive_release parse_rfc3339 to_rfc3339 to_rfc3339_z configured_retention ns access_ledger_enabled admitted
              lease reason) log r ->
    In (EvStatus status) log -> ls_target status = Some t' -> target_write placement true t t'.

(** [true] once a release has written. *)
Inductive target_history (placement : ResolvedSandboxPlacement)
  : bool -> SandboxTargetProvenance -> SandboxTargetProvenance -> Prop :=
| HistoryStart t : target_history placement false t t
| HistoryWrite released b t t' t'' :
    target_history placement released t t' -> target_write placement b t' t'' ->
    target_history placement (released || b) t t''.

Lemma release_write_extends lease now reason log r status t t' :
  ls_target (status_of lease) = Some t -> release_reason parse_rfc3339 lease now = Some reason ->
  traced (drive_release parse_rfc3339 to_rfc3339 to_rfc3339_z configured_retention ns access_ledger_enabled admitted
            lease reason) log r ->
  In (EvStatus status) log -> ls_target status = Some t' -> target_extends t t'.
Proof.
  intros Ht Hr Hrun Hin Ht'. assert (reason <> ReasonMissingCause \/ ls_release_cause (status_of lease) = None) as Hm.
  { destruct (ls_release_cause (status_of lease)) as [c|] eqn:Hc; [left|by right].
    pose proof (reason_persisted _ _ _ _ _ Hr Hc) as Hp. by intros ->. }
  destruct (se_target _ _ (pass_writes_extend _ _ _ _ _ _ _ _ _ Hm _ _ _ Hrun Hin) t Ht) as (t2 & Ht2 & He).
  rewrite Ht' in Ht2. by injection Ht2 as ->.
Qed.

Lemma write_grows placement b t t' :
  target_write placement b t t' ->
  provenance_le (forget_service t) (forget_service t') /\
  (b = false -> provenance_le t t' /\ (recordable placement ns t -> recordable placement ns t')).
Proof.
  intros [u p u' Hm|u phase next required u' Hu Hu'|u lease now reason log r status u' Hu Hr Hrun Hin Hu'].
  - pose proof (merge_recorded _ _ _ _ _ Hm) as Hrec. apply merge_target_provenance_Some in Hm as (_ & Hle & _).
    split; [by apply provenance_le_forget|done].
  - destruct (requirement_grows _ _ _ _ _ Hu Hu') as [Hle Hrec]. split; [by apply provenance_le_forget|auto].
  - split; [|done]. eapply target_extends_forget, release_write_extends; done.
Qed.

Lemma history_grows placement released t t' :
  target_history placement released t t' ->
  provenance_le (forget_service t) (forget_service t') /\
  (released = false -> provenance_le t t' /\ (recordable placement ns t -> recordable placement ns t')).
Proof.
  induction 1 as [t|released b t t' t'' _ [IH1 IH2] Hw]; [done|]. apply write_grows in Hw as [H1 H2].
  split; [by etrans|]. intros [-> ->]%orb_false_iff. destruct (IH2 eq_refl), (H2 eq_refl). split; [by etrans|auto].
Qed.
End History.

(** The reason read from a persisted cause, whatever the signals and the time. *)
Lemma persisted_reason parse lease now c :
  ls_release_cause (status_of lease) = Some c -> consumes_capacity (ls_phase (status_of lease)) = true ->
  release_reason parse lease now = Some (from_persisted c).
Proof. unfold release_reason. cbv zeta. intros -> Hp. by destruct (ls_phase (status_of lease)). Qed.
