(* ===== verification/ReleaseTheorems.v ===== *)
(** * The guarantees of a Sandbox release

    The theorems of [ReleaseProps] and [ReleaseOrder], and concrete passes: a
    lease whose Sandbox is gone behind its tombstone, which goes on to return
    its capacity, and a lease that never had a Claim, which occupies the name. *)

From S2P Require Import Prelude Text Quarantine Durations SandboxObjects SandboxLifecycle LedgerApi AccessLedger ExecutionApi ExecutionCleanup AdmissionApi Admission Claims ClaimProtocol Footprint Release ReleaseProps ReleaseOrder ReleaseWrites.

Local Open Scope kobe_scope.

Section Guarantees.
Context (parse_rfc3339 : string -> option Z) (to_rfc3339 to_rfc3339_z : Z -> string) (representable : Z -> bool).
Context (configured_retention : option string) (ns : string) (access_ledger_enabled : bool) (admitted : ParentLease -> bool).
Local Abbreviation drive :=
  (drive_release parse_rfc3339 to_rfc3339 to_rfc3339_z configured_retention ns access_ledger_enabled admitted).

(** C12. A release pass that goes on to return capacity leaves nothing behind.
    However the cluster changes between its reads, from the end of the pass on
    no Sandbox of the lease's Claims is left, the recorded Sandbox is gone, and
    so are its Pods, its Service and its volume claims; where no Sandbox was
    recorded, no Pod or Service is left of any Sandbox those Claims ever had.
    It stays so until a sweep found the tombstone's retention over and the
    lease gone. *)
Theorem finished_release_leaves_nothing h lease reason finished n m T :
  (forall t, representable t = true -> parse_rfc3339 (to_rfc3339 t) = Some t) ->
  upstream parse_rfc3339 to_rfc3339 to_rfc3339_z representable configured_retention ns h ->
  sandbox_observed h (ls_target (status_of lease) ≫= tp_sandbox) n ->
  footprint_absence_proven (status_of lease) = false ->
  runs h (drive lease reason) n (PassFinish finished) m -> (m <= T)%nat ->
  exists tombstone, td_sandbox_claim_tombstone (ls_teardown (status_of lease)) = Some tombstone /\
    (gone h (lease_claims lease) (ls_target (status_of lease) ≫= tp_sandbox) T \/
     swept parse_rfc3339 ns (at_world h T) (Some (oref_uid tombstone))).
Proof. intros Hround Hup Hobs Hp Hr HT. by eapply pass_leaves_nothing. Qed.


(** C14. The checkpoints of a release only grow.  Every status a release pass
    writes keeps the release cause, the start of the release, the cleanup and
    allocation fences, the tombstone, the placement and the readiness of the
    lease, keeps every Claim, Sandbox and Pod recorded for it, adds replacement
    Pods only at the end, and neither clears nor sets the proof of absence. *)
Theorem release_checkpoints_only_grow lease reason log r status :
  reason <> ReasonMissingCause \/ ls_release_cause (status_of lease) = None ->
  traced (drive lease reason) log r -> In (EvStatus status) log -> status_extends (status_of lease) status.
Proof. intros Hr Ht Hin. by eapply pass_writes_extend. Qed.

(** C37. The first cause of a release wins for good.  Once a pass has written any
    status, every later reading of the lease that keeps its cause and has not
    reached a clean end gives the same reason, whatever requests, deletions and
    deadlines have come since, so the terminal phase a caller is billed for
    cannot change during teardown. *)
Theorem release_cause_is_final lease reason now log r status lease' now' :
  release_reason parse_rfc3339 lease now = Some reason -> reason <> ReasonMissingCause ->
  traced (drive lease reason) log r -> In (EvStatus status) log ->
  ls_release_cause (status_of lease') = ls_release_cause status ->
  consumes_capacity (ls_phase (status_of lease')) = true ->
  release_reason parse_rfc3339 lease' now' = Some reason.
Proof.
  intros Hr Hm Ht Hin Hc Hp. rewrite (written_cause _ _ _ _ _ _ _ _ _ _ _ _ _ Hr Hm Ht Hin) in Hc.
  destruct (persisted_cause reason) as [c|] eqn:E; [|by destruct reason].
  rewrite (persisted_reason _ _ _ _ Hc Hp). f_equal. destruct reason; cbn in E; (done || by injection E as <-).
Qed.

(** C25. What is recorded of a target only grows.  Over any sequence of records
    merged into it, the service requirement recorded at Ready and passes of a
    release, every recorded reference but the Service, and each requirement,
    keeps its exact value, and replacement Pods are only appended.  The Service
    keeps its value too until a release writes: [checkpoint_management_descendants]
    replaces it ([recorded_service_is_replaced]).  Until then the target of a
    lease that could be released also stays valid and safe to release, and
    recording it again changes nothing. *)
Theorem recorded_provenance_only_grows s placement e m released :
  ls_placement s = Some placement -> require_release_safe_target_provenance s ns = Ok e ->
  target_history parse_rfc3339 to_rfc3339 to_rfc3339_z configured_retention ns access_ledger_enabled admitted
    placement released e m ->
  provenance_le (forget_service e) (forget_service m) /\
  (released = false ->
   provenance_le e m /\
   require_release_safe_target_provenance (SandboxLifecycle.with_target s m) ns = Ok m /\
   merge_target_provenance (Some m) m placement ns = Ok m).
Proof.
  intros Hp Hsafe Hh. pose proof (release_safe_recordable _ _ _ _ Hp Hsafe) as Hr.
  destruct (history_grows _ _ _ _ _ _ _ _ _ _ _ Hh) as [Hg Hf]. split; [done|].
  intros ->. destruct (Hf eq_refl) as [Hle Hrec]. split; [done|]. split; [|by apply merge_again, Hrec].
  eapply release_safe_grows; try done. by apply Hrec.
Qed.
End Guarantees.

(** ** Concrete passes *)

Definition oracle : Type := forall X, rreq X -> X.

Fixpoint replay {R} (o : oracle) (p : rprog R) : list event * R :=
  match p with
  | RRet r => ([], r)
  | @RCall _ X q k => let '(log, r) := replay o (k (o X q)) in (event_of q (o X q) :: log, r)
  end.

Lemma replay_traced {R} o (p : rprog R) : traced p (replay o p).1 (replay o p).2.
Proof.
  induction p as [r|X q k IH]; cbn; [done|]. specialize (IH (o X q)). destruct (replay o (k (o X q))) as [log r].
  cbn. eauto.
Qed.

Lemma replay_runs {R} h n o (p : rprog R) :
  (forall X (q : rreq X), answers (at_world h n) (at_cluster h n) q (o X q)) -> runs h p n (replay o p).2 n.
Proof.
  intros Ho. induction p as [r|X q k IH]; cbn; [done|]. specialize (IH (o X q)).
  destruct (replay o (k (o X q))) as [log r]. exists n, (o X q). auto.
Qed.


Module ReleaseDemo.
Definition reference (api_version kind name uid : string) : SandboxObjectReference :=
  {| oref_api_version := api_version; oref_kind := kind; oref_namespace := Some "kobe"; oref_name := name;
     oref_uid := uid; oref_generation := None |}.

Definition closed_fence : Lease :=
  let drawn := build_allocation_fence show_uint None "kobe" (ClaimDemo.lease None) "l1" 0 in
  {| l_name := l_name drawn; l_namespace := l_namespace drawn; l_uid := Some "f1"; l_resource_version := Some "5";
     l_labels := l_labels drawn; l_annotations := l_annotations drawn; l_owner_references := None;
     l_finalizers := None; l_deletion_timestamp := None; l_spec := l_spec drawn |}.

Definition target : SandboxTargetProvenance :=
  with_descendants (with_claim (empty_target "kobe") (Some (reference AGENT_SANDBOX_API_VERSION SANDBOX_CLAIM_KIND "kobe-box" "c1")))
    (Some (reference SANDBOX_API_VERSION SANDBOX_KIND "sb" "s1")) (Some (reference "v1" "Pod" "sb" "p1")) [] None.

Definition releasing (target : option SandboxTargetProvenance) (tombstone : option SandboxObjectReference) : ParentLease :=
  let lease := ClaimDemo.lease tombstone in
  let st := status_of lease in
  let t := ls_teardown st in
  with_parent_status lease
    {| ls_phase := SandboxLeasePhase.Releasing; ls_observed_generation := Some 1;
       ls_provisioning_deadline := Some "900"; ls_ready_at := None; ls_expires_at := None; ls_extensions_count := 0;
       ls_granted_extension_seconds := 0; ls_release_cause := Some CauseRequested;
       ls_placement := Some PlacedManagement; ls_target := target;
       ls_teardown := with_fences t (Some "950") (Some finalizer_fence) tombstone
                        (Some (reference "coordination.k8s.io/v1" "Lease" (l_name closed_fence) "f1"));
       ls_conditions := [] |}.

(** The answers of a cluster where the Claim's name is as [claim] says and
    nothing else is left. *)
Definition emptied (claim : result (Claim * option string) kube_error) : oracle := fun X q =>
  match q with
  | GetClaim name => if String.eqb name "kobe-box" then claim else Err Transport
  | GetSandbox _ | GetPod _ | GetService _ => Err not_found
  | ListSandboxes _ | ListPods _ | ListServices | ListPvcs => Ok []
  | ListVolumes => Ok []
  | GetPool _ => Err not_found
  | GetHandle _ => Err not_found
  | GetFence _ => Ok (closed_fence, Some "0")
  | CreateFence _ => None
  | WriteClaim _ => Some (Ok tt)
  | WriteStatus _ => Ok tt
  | DrainAccess => Ok Drained
  | CleanExecutions _ => CleanupClean
  | CleanIdentities _ _ _ => Some true
  | StopRequested => false
  | ReadTime => 1000
  end.

Definition pass (lease : ParentLease) : rprog ReleasePass :=
  drive_release ClaimDemo.read_time show_uint show_uint None "kobe" true (fun _ => true) lease ReasonRequested.

Definition finished : ParentLease := releasing (Some target) (Some ClaimDemo.recorded).

Lemma finishes : (replay (emptied (Ok (ClaimDemo.tombstone, Some "sb"))) (pass finished)).2 = PassFinish ReasonRequested.
Proof. by vm_compute. Qed.

Definition sandbox : Obj :=
  {| ob_name := "sb"; ob_uid := Some "s1"; ob_owner_references := None;
     ob_labels := {[UPSTREAM_CLAIM_UID_LABEL := "c1"]}; ob_service := None; ob_selector := None |}.

(** The Sandbox is seen, then gone; the Claim becomes its own tombstone. *)
Definition history : History :=
  {| at_world := fun t => match t with O => ClaimDemo.created | _ => ClaimDemo.after_release end;
     at_cluster := fun t => {| k_sandboxes := match t with O => [sandbox] | _ => [] end;
                               k_pods := []; k_services := []; k_pvcs := [] |} |}.

Lemma lawful : upstream ClaimDemo.read_time show_uint show_uint ClaimDemo.representable None "kobe" history.
Proof.
  split.
  - apply ClaimDemo.reach_created.
  - intros [|t]; [apply ClaimDemo.reach_released|reflexivity].
  - intros [|t] [|t'] s s'; cbn; try tauto. by intros [<-|[]] [<-|[]].
  - intros t s [].
  - intros t o [].
  - intros t o [].
  - intros t o [].
Qed.

Lemma answered X (q : rreq X) :
  answers (at_world history 1) (at_cluster history 1) q (emptied (Ok (ClaimDemo.tombstone, Some "sb")) X q).
Proof.
  destruct q; cbn; try done; try (by intros _ o []); try (by intros o; split; [intros []|intros [[] _]]).
  - destruct (String.eqb name "kobe-box") eqn:E; [|done]. apply String.eqb_eq in E as ->. split; [done|by vm_compute].
  - destruct selector; cbn; [done|]. by intros o; split; [intros []|intros [[] _]].
Qed.

Lemma observed : sandbox_observed history (ls_target (status_of finished) ≫= tp_sandbox) 1.
Proof. intros r [= <-]. exists 0%nat, sandbox. split; [lia|]. split; [by left|done]. Qed.


End ReleaseDemo.

Lemma finished_release_leaves_nothing_witness :
  exists tombstone, td_sandbox_claim_tombstone (ls_teardown (status_of ReleaseDemo.finished)) = Some tombstone /\
    (gone ReleaseDemo.history ["c1"; "c1"] (Some (ReleaseDemo.reference SANDBOX_API_VERSION SANDBOX_KIND "sb" "s1")) 7 \/
     swept ClaimDemo.read_time "kobe" (at_world ReleaseDemo.history 7) (Some (oref_uid tombstone))).
Proof.
  apply (finished_release_leaves_nothing ClaimDemo.read_time show_uint show_uint ClaimDemo.representable None "kobe"
           true (fun _ => true) ReleaseDemo.history ReleaseDemo.finished ReasonRequested ReasonRequested 1 1 7).
  - apply ClaimDemo.round_trip.
  - apply ReleaseDemo.lawful.
  - apply ReleaseDemo.observed.
  - vm_compute. reflexivity.
  - rewrite <- ReleaseDemo.finishes. apply replay_runs, ReleaseDemo.answered.
  - lia.
Defined.


(** The first pass over a lease that has just been asked to go. *)
Definition asked : ParentLease :=
  let lease := with_parent_annotations (ClaimDemo.lease None) {[SANDBOX_RELEASE_REQUESTED_AT_ANNOTATION := "800"]} in
  with_parent_status lease (with_cause (status_of lease) SandboxLeasePhase.Provisioning None []).

Definition first_write : list event * ReleasePass := replay (ReleaseDemo.emptied (Err not_found)) (ReleaseDemo.pass asked).

Definition first_status : SandboxLeaseStatus :=
  match last first_write.1 with Some (EvStatus status) => status | _ => default_sandbox_status end.

Lemma first_status_written : In (EvStatus first_status) first_write.1.
Proof. vm_compute. right. by left. Qed.

Lemma release_checkpoints_only_grow_witness :
  ls_release_cause first_status = Some CauseRequested /\ status_extends (status_of asked) first_status.
Proof.
  split; [vm_compute; reflexivity|].
  apply (release_checkpoints_only_grow ClaimDemo.read_time show_uint show_uint None "kobe" true (fun _ => true)
           asked ReasonRequested first_write.1 first_write.2).
  - by left.
  - apply replay_traced.
  - apply first_status_written.
Defined.

(** The deadline has passed by the second look; the reason stays. *)
Lemma release_cause_is_final_witness :
  release_reason ClaimDemo.read_time asked 850 = Some ReasonRequested /\
  release_reason ClaimDemo.read_time (with_parent_status (ClaimDemo.lease None) first_status) 5000 = Some ReasonRequested.
Proof.
  split; [vm_compute; reflexivity|].
  apply (release_cause_is_final ClaimDemo.read_time show_uint show_uint None "kobe" true (fun _ => true)
           asked ReasonRequested 850 first_write.1 first_write.2 first_status).
  - vm_compute. reflexivity.
  - done.
  - apply replay_traced.
  - apply first_status_written.
  - reflexivity.
  - vm_compute. reflexivity.
Defined.

(** ** A recorded reference that does change *)

Definition owned (kind name uid : string) (o : Obj) : Obj :=
  {| ob_name := ob_name o; ob_uid := ob_uid o;
     ob_owner_references := Some [{| ow_api_version := if String.eqb kind "Sandbox" then SANDBOX_API_VERSION else AGENT_SANDBOX_API_VERSION;
                                     ow_kind := kind; ow_name := name; ow_uid := uid; ow_controller := Some true |}];
     ob_labels := ob_labels o; ob_service := ob_service o; ob_selector := ob_selector o |}.

Definition plain (name uid : string) (service : option string) : Obj :=
  {| ob_name := name; ob_uid := Some uid; ob_owner_references := None; ob_labels := ∅; ob_service := service;
     ob_selector := None |}.

(** The Sandbox now names a Service made after the recorded one. *)
Definition replaced_service : oracle := fun X q =>
  match q with
  | GetClaim _ => Ok (ClaimDemo.live, Some "sb")
  | GetSandbox _ => Ok (owned "SandboxClaim" "kobe-box" "c1" (plain "sb" "s1" (Some "svc")))
  | GetService _ => Ok (owned "Sandbox" "sb" "s1" (plain "svc" "v2" None))
  | q => ReleaseDemo.emptied (Err not_found) _ q
  end.

Definition served : ParentLease :=
  ReleaseDemo.releasing
    (Some (with_descendants ReleaseDemo.target (tp_sandbox ReleaseDemo.target) (tp_pod ReleaseDemo.target) []
             (Some (ReleaseDemo.reference "v1" "Service" "svc" "v1")))) None.

(** A release pass replaces the recorded Service by the one the Sandbox names
    now: of the references of a target, it is not written once. *)
Lemma recorded_service_is_replaced :
  exists status, In (EvStatus status) (replay replaced_service (ReleaseDemo.pass served)).1 /\
    ls_target (status_of served) ≫= tp_service = Some (ReleaseDemo.reference "v1" "Service" "svc" "v1") /\
    ls_target status ≫= tp_service = Some (ReleaseDemo.reference "v1" "Service" "svc" "v2").
Proof.
  destruct (last (replay replaced_service (ReleaseDemo.pass served)).1) as [[]|] eqn:E; try (by vm_compute in E).
  exists status. split; [by apply last_Some_elem_of, list_elem_of_In in E|]. split; [done|].
  vm_compute in E. injection E as <-. reflexivity.
Qed.

(** The target of [served] gains a service requirement, then a release
    replaces its Service. *)
Definition served_target : SandboxTargetProvenance := default ReleaseDemo.target (ls_target (status_of served)).
Definition required_target : SandboxTargetProvenance := with_service_required served_target (Some true).
Definition required : ParentLease := ReleaseDemo.releasing (Some required_target) None.
Definition replacing : list event * ReleasePass := replay replaced_service (ReleaseDemo.pass required).
Definition replaced_status : SandboxLeaseStatus :=
  match last replacing.1 with Some (EvStatus status) => status | _ => default_sandbox_status end.
Definition replaced_target : SandboxTargetProvenance := default ReleaseDemo.target (ls_target replaced_status).

Lemma recorded_provenance_only_grows_witness :
  let history := target_history ClaimDemo.read_time show_uint show_uint None "kobe" true (fun _ => true) PlacedManagement in
  (history false served_target required_target /\ provenance_le served_target required_target) /\
  (history true served_target replaced_target /\ tp_service served_target <> tp_service replaced_target /\
   provenance_le (forget_service served_target) (forget_service replaced_target)).
Proof.
  intros history.
  assert (history false served_target required_target) as H1.
  { apply (HistoryWrite _ _ _ _ _ _ _ _ false false _ served_target); [constructor|].
    apply (WriteMerged _ _ _ _ _ _ _ _ _ required_target). vm_compute. reflexivity. }
  assert (history true served_target replaced_target) as H2.
  { apply (HistoryWrite _ _ _ _ _ _ _ _ false true _ required_target); [done|].
    apply (WriteReleasing _ _ _ _ _ _ _ _ _ required 1000 ReasonRequested replacing.1 replacing.2 replaced_status).
    - vm_compute. reflexivity.
    - vm_compute. reflexivity.
    - apply replay_traced.
    - vm_compute. tauto.
    - vm_compute. reflexivity. }
  split; split; [done| |done|].
  - by apply (recorded_provenance_only_grows ClaimDemo.read_time show_uint show_uint None "kobe" true (fun _ => true)
      (status_of served) PlacedManagement served_target required_target false).
  - split; [by vm_compute|].
    by apply (recorded_provenance_only_grows ClaimDemo.read_time show_uint show_uint None "kobe" true (fun _ => true)
      (status_of served) PlacedManagement served_target replaced_target true).
Defined.
