(* ===== verification/ConnectToken.v ===== *)
(** * The connect token of a leased cluster

    Model of the token functions of src/api/connect.rs and of the token protocol
    of src/controllers/lease.rs.  A lease whose teardown needs a receipt records
    every step of its one Secret before it is taken: an attempt is [Prepared]
    with the binding, moved to [Creating] just before the only POST, [Reserved]
    with the UID, [Ready], then [Closing] and [Closed].  A function is a value
    of [tprog]: its requests in order, with what it does on each answer. *)

From S2P Require Import Prelude Text Teardown StateMachine Objects LeaseBinding LeaseController LedgerApi.

Local Open Scope kobe_scope.

(** ** Objects *)

(** A connect-token Secret; [sec_token] is its decoded [token] entry, when it
    has one that is valid UTF-8. *)
Record Secret : Type := {
  sec_name : option string;
  sec_uid : option string;
  sec_version : option string;
  sec_owners : option (list OwnerReference);
  sec_annotations : gmap string string;
  sec_token : option string;
}.

Record TeardownEvidenceReference : Type := {
  evidence_name : string;
  evidence_uid : string;
  evidence_generation : Z;
  evidence_version : string;
}.
#[global] Instance TeardownEvidenceReference_eq_dec : EqDecision TeardownEvidenceReference.
Proof. solve_decision. Defined.

Inductive TeardownAcknowledgedProofKind : Type := AckReceipt | AckNeverBound.
#[global] Instance TeardownAcknowledgedProofKind_eq_dec : EqDecision TeardownAcknowledgedProofKind.
Proof. solve_decision. Defined.

Record TeardownAcknowledgedProof : Type := {
  ack_kind : TeardownAcknowledgedProofKind;
  ack_receipt_token : option string;
  ack_evidence : option TeardownEvidenceReference;
  ack_unbound_release_verified_at : option string;
}.

Record TeardownAcknowledgement : Type := {
  ack_attempt_id : string;
  ack_consumer : KubernetesResourceIdentity;
  ack_proof : TeardownAcknowledgedProof;
  acknowledged_at : string;
}.

Record ClusterLeaseCondition : Type := {
  lc_type : string;
  lc_status : string;
  lc_reason : string;
  lc_message : string;
  lc_last_transition_time : option string;
}.

(** A lease with the metadata and status fields its release uses. *)
Record TokenLease : Type := {
  tl_lease : ClusterLease;
  tl_annotations : gmap string string;
  tl_finalizers : list string;
  tl_attempt : option string;
  tl_unbound_at : option string;
  tl_receipt : option TeardownReceipt;
  tl_evidence : option TeardownEvidenceReference;
  tl_acknowledgement : option TeardownAcknowledgement;
  tl_conditions : list ClusterLeaseCondition;
}.

Definition tl_status (l : TokenLease) : ClusterLeaseStatus := default default_lease_status (lease_status (tl_lease l)).
Definition tl_name (l : TokenLease) : string := meta_name (lease_metadata (tl_lease l)).
Definition tl_uid (l : TokenLease) : option string := meta_uid (lease_metadata (tl_lease l)).
Definition tl_version (l : TokenLease) : option string := resource_version (lease_metadata (tl_lease l)).
Definition tl_phase (l : TokenLease) : ClusterLeasePhase.t := lease_phase (tl_status l).
Definition tl_binding (l : TokenLease) : option LeaseBinding := lease_status_binding (tl_status l).
Definition tl_creation (l : TokenLease) : option ConnectTokenCreation := connect_token_creation (tl_status l).
Definition tl_mode (l : TokenLease) : CleanupMode := default Standard (lease_cleanup_mode (tl_lease l)).

(** ** Writes *)

Inductive lease_op : Type :=
| OpBinding (b : LeaseBinding)
| OpNoBinding
| OpCreation (c : ConnectTokenCreation)
| OpAttempt (attempt : string)
| OpUnbound (at_ : string) (conditions : list ClusterLeaseCondition)
| OpMessage (m : string).

(** A JSON Patch of a lease's status: what it tests, then what it writes. *)
Record LeasePatch : Type := {
  lp_name : string;
  lp_uid : string;
  lp_version : string;
  lp_phase : option ClusterLeasePhase.t;
  lp_binding : option LeaseBinding;
  lp_creation : option ConnectTokenCreation;
  lp_attempt : option string;
  lp_ops : list lease_op;
}.

Definition with_lease_message (m : string) (st : ClusterLeaseStatus) : ClusterLeaseStatus :=
  {| lease_phase := lease_phase st; cluster_name := cluster_name st; lease_status_binding := lease_status_binding st;
     bound_at := bound_at st; expires_at := expires_at st; extensions_count := extensions_count st;
     lease_max_extensions := lease_max_extensions st; connect_token_creation := connect_token_creation st;
     lease_message := Some m |}.

Definition with_lease_status (l : ClusterLease) (st : ClusterLeaseStatus) : ClusterLease :=
  {| lease_metadata := lease_metadata l; lease_pool_ref := lease_pool_ref l; lease_ttl := lease_ttl l;
     requester_type := requester_type l; lease_cleanup_mode := lease_cleanup_mode l; lease_status := Some st |}.

Definition with_tl_status (l : TokenLease) (st : ClusterLeaseStatus) : TokenLease :=
  {| tl_lease := with_lease_status (tl_lease l) st; tl_annotations := tl_annotations l;
     tl_finalizers := tl_finalizers l; tl_attempt := tl_attempt l; tl_unbound_at := tl_unbound_at l;
     tl_receipt := tl_receipt l; tl_evidence := tl_evidence l; tl_acknowledgement := tl_acknowledgement l;
     tl_conditions := tl_conditions l |}.

Definition with_tl_proof (l : TokenLease) (attempt unbound_at : option string)
    (conditions : list ClusterLeaseCondition) : TokenLease :=
  {| tl_lease := tl_lease l; tl_annotations := tl_annotations l; tl_finalizers := tl_finalizers l;
     tl_attempt := attempt; tl_unbound_at := unbound_at; tl_receipt := tl_receipt l; tl_evidence := tl_evidence l;
     tl_acknowledgement := tl_acknowledgement l; tl_conditions := conditions |}.

Definition apply_lease_op (l : TokenLease) (op : lease_op) : TokenLease :=
  match op with
  | OpBinding b => with_tl_status l (with_lease_binding (Some b) (tl_status l))
  | OpNoBinding => with_tl_status l (with_lease_binding None (tl_status l))
  | OpCreation c => with_tl_status l (with_token_creation (Some c) (tl_status l))
  | OpAttempt a => with_tl_proof l (Some a) (tl_unbound_at l) (tl_conditions l)
  | OpUnbound at_ conditions => with_tl_proof l (tl_attempt l) (Some at_) conditions
  | OpMessage m => with_tl_status l (with_lease_message m (tl_status l))
  end.

(** A [test] of a path that is not there fails. *)
Definition tested {A} `{EqDecision A} (want have : option A) : bool :=
  match want with Some _ => bool_decide (have = want) | None => true end.

Definition lease_tests (p : LeasePatch) (l : TokenLease) : bool :=
  String.eqb (tl_name l) (lp_name p) && str_opt_eqb (tl_uid l) (Some (lp_uid p))
  && str_opt_eqb (tl_version l) (Some (lp_version p)) && is_some (lease_status (tl_lease l))
  && tested (lp_phase p) (lease_phase <$> lease_status (tl_lease l)) && tested (lp_binding p) (tl_binding l)
  && tested (lp_creation p) (tl_creation l) && tested (lp_attempt p) (tl_attempt l).

Definition apply_lease_patch (p : LeasePatch) (l : TokenLease) : option TokenLease :=
  if lease_tests p l then Some (foldl apply_lease_op l (lp_ops p)) else None.

(** ** Programs *)

Inductive LeaseError : Type := Lifecycle (what : string) | Kubernetes (e : kube_error).

(** [TqAdopt] is [reserve_binding_instance_after_lease_fence], which
    [LeaseController] models. *)
Inductive treq : Type -> Type :=
| TqGetSecret (name : string) : treq (result Secret kube_error)
| TqCreateSecret (s : Secret) : treq (result Secret kube_error)
| TqInstallToken (name uid version token : string) : treq (result Secret kube_error)
| TqDeleteSecret (name uid : string) (version : option string) : treq (result unit kube_error)
| TqGetLease (name : string) : treq (result TokenLease kube_error)
| TqPatchLease (p : LeasePatch) : treq (result TokenLease kube_error)
| TqAdopt (b : LeaseBinding) : treq (result ReservationOutcome LeaseError)
| TqListInstances : treq (result (list ClusterInstance) kube_error)
| TqUuid : treq string
| TqRandomToken : treq string
| TqNow : treq Z.

Inductive tprog (R : Type) : Type :=
| TRet (r : R)
| TCall {X : Type} (q : treq X) (k : X -> tprog R).
Arguments TRet {R} r.
Arguments TCall {R X} q k.

Fixpoint tbind {A B} (p : tprog A) (f : A -> tprog B) : tprog B :=
  match p with
  | TRet a => f a
  | TCall q k => TCall q (fun x => tbind (k x) f)
  end.

Definition tcall {X} (q : treq X) : tprog X := TCall q TRet.

Notation "'tdo' x := p 'in' k" := (tbind p (fun x => k))
  (at level 10, x pattern, p at level 100, k at level 200,
   format "'[v' 'tdo'  x  :=  p  'in' '/' k ']'") : kobe_scope.

(** [?] on a program that answers a [Result]. *)
Definition tbind_ok {A B E} (p : tprog (result A E)) (f : A -> tprog (result B E)) : tprog (result B E) :=
  tbind p (fun r => match r with Ok a => f a | Err e => TRet (Err e) end).

Notation "'tdo?' x := p 'in' k" := (tbind_ok p (fun x => k))
  (at level 10, x pattern, p at level 100, k at level 200,
   format "'[v' 'tdo?'  x  :=  p  'in' '/' k ']'") : kobe_scope.

(** [Err(error.into())] on a failed request. *)
Definition lift_kube {A} (r : result A kube_error) : result A LeaseError :=
  match r with Ok a => Ok a | Err e => Err (Kubernetes e) end.

(** [.map_err(LeaseError::Lifecycle)]. *)
Definition lifecycle {A} (p : tprog (result A string)) : tprog (result A LeaseError) :=
  tdo r := p in TRet match r with Ok a => Ok a | Err e => Err (Lifecycle e) end.

(** [lease_uid_for]. *)
Definition lease_uid_for (l : TokenLease) : result string LeaseError := ok_or (tl_uid l) (Lifecycle "lease missing UID").
Definition lease_version_for (l : TokenLease) : result string LeaseError :=
  ok_or (tl_version l) (Lifecycle "lease missing resourceVersion").

Definition CLUSTER_LEASE_API_VERSION : string := "kobe.kunobi.ninja/v1alpha1".
Definition CONNECT_TOKEN_ATTEMPT_ANNOTATION : string := "kobe.kunobi.ninja/connect-token-creation-attempt".

Section Token.
Context (parse_rfc3339 : string -> option Z) (to_rfc3339 : Z -> string) (ns : string).

(** ** The Secret *)

Definition connect_token_identity (s : Secret) : result KubernetesResourceIdentity string :=
  let present (o : option string) := v ← o; if nonblank v then Some v else None in
  let? n := ok_or (present (sec_name s)) "Connect token Secret has no name" in
  let? u := ok_or (present (sec_uid s)) "Connect token Secret has no UID" in
  Ok {| Teardown.api_version := "v1"; Teardown.kind := "Secret"; Teardown.namespace := Some ns;
        Teardown.name := n; Teardown.uid := u |}.

Definition require_identity_shape (i : KubernetesResourceIdentity) (lease_id : string) : result unit string :=
  deny_if (negb (require_connect_token_identity_shape i ns lease_id)) "connect-token footprint is malformed".

Definition connect_token_owner_uid (s : Secret) (lease_name : string) : option string :=
  owners ← sec_owners s;
  owner_uid <$> List.find (fun o => String.eqb (owner_api_version o) CLUSTER_LEASE_API_VERSION
                                    && String.eqb (owner_kind o) "ClusterLease" && String.eqb (owner_name o) lease_name
                                    && negb (String.eqb (owner_uid o) "")) owners.

Definition require_connect_token_owner (s : Secret) (lease_name lease_uid : string) : result unit string :=
  deny_if (negb (str_opt_eqb (connect_token_owner_uid s lease_name) (Some lease_uid)))
    "connect token owner UID does not match lease".

Definition read_token (s : Secret) : result string string := ok_or (sec_token s) "Connect token secret is missing token data".

Definition of_attempt (s : Secret) (attempt : string) : bool :=
  str_opt_eqb (sec_annotations s !! CONNECT_TOKEN_ATTEMPT_ANNOTATION) (Some attempt).

(** The object of a POST: owned by the lease; with the token, or with the
    attempt and no data. *)
Definition token_secret (l : TokenLease) (lease_uid : string) (annotations : gmap string string) (token : option string)
  : Secret :=
  {| sec_name := Some (connect_secret_name (tl_name l)); sec_uid := None; sec_version := None;
     sec_owners := Some [{| owner_api_version := CLUSTER_LEASE_API_VERSION; owner_kind := "ClusterLease";
                            owner_name := tl_name l; owner_uid := lease_uid |}];
     sec_annotations := annotations; sec_token := token |}.

(** ** Creation *)

Definition provision_lease_connect_token (l : TokenLease) : tprog (result KubernetesResourceIdentity string) :=
  let name := connect_secret_name (tl_name l) in
  match tl_uid l with
  | None => TRet (Err "lease has no UID")
  | Some lease_uid =>
      let existing s := let? _ := require_connect_token_owner s (tl_name l) lease_uid in connect_token_identity s in
      tdo read := tcall (TqGetSecret name) in
      match read with
      | Ok s => TRet (existing s)
      | Err e =>
          if is_404 e then
            tdo token := tcall TqRandomToken in
            tdo made := tcall (TqCreateSecret (token_secret l lease_uid ∅ (Some token))) in
            match made with
            | Ok created => TRet (connect_token_identity created)
            | Err e =>
                if is_409 e then
                  tdo again := tcall (TqGetSecret name) in
                  TRet match again with Ok s => existing s | Err _ => Err "Failed to read existing connect token" end
                else TRet (Err "Failed to create connect token")
            end
          else TRet (Err "Failed to read connect token")
      end
  end.

(** [validate] of [reserve_lease_connect_token], and the checks of
    [observe_reserved_lease_connect_token]. *)
Definition reserved_identity (l : TokenLease) (lease_uid attempt : string) (s : Secret)
  : result KubernetesResourceIdentity string :=
  let? _ := require_connect_token_owner s (tl_name l) lease_uid in
  let? _ := deny_if (negb (of_attempt s attempt)) "connect-token Secret belongs to a different creation attempt" in
  connect_token_identity s.

Definition reserve_lease_connect_token (l : TokenLease) (attempt : string) : tprog (result KubernetesResourceIdentity string) :=
  let name := connect_secret_name (tl_name l) in
  if negb (nonblank attempt) then TRet (Err "connect-token creation attempt is empty")
  else
    match tl_uid l with
    | None => TRet (Err "lease has no UID")
    | Some lease_uid =>
        tdo read := tcall (TqGetSecret name) in
        match read with
        | Ok s => TRet (reserved_identity l lease_uid attempt s)
        | Err e =>
            if is_404 e then
              tdo made := tcall (TqCreateSecret
                (token_secret l lease_uid {[CONNECT_TOKEN_ATTEMPT_ANNOTATION := attempt]} None)) in
              match made with
              | Ok created => TRet (reserved_identity l lease_uid attempt created)
              | Err e =>
                  if is_409 e then
                    tdo again := tcall (TqGetSecret name) in
                    TRet match again with
                         | Ok s => reserved_identity l lease_uid attempt s
                         | Err _ => Err "Failed to read reserved connect token"
                         end
                  else TRet (Err "Failed to reserve connect token")
              end
            else TRet (Err "Failed to read connect token")
        end
    end.

Definition observe_reserved_lease_connect_token (l : TokenLease) (attempt : string)
  : tprog (result (option KubernetesResourceIdentity) string) :=
  match tl_uid l with
  | None => TRet (Err "lease has no UID")
  | Some lease_uid =>
      tdo read := tcall (TqGetSecret (connect_secret_name (tl_name l))) in
      TRet match read with
           | Ok s => let? i := reserved_identity l lease_uid attempt s in Ok (Some i)
           | Err e => if is_404 e then Ok None else Err "connect-token reservation lookup failed"
           end
  end.

(** The last look at the lease before its token is installed. *)
Definition activation_open (l : TokenLease) (lease_uid : string) (b : LeaseBinding) (attempt : string)
    (expected : KubernetesResourceIdentity) : bool :=
  match tl_creation l with
  | None => false
  | Some c =>
      str_opt_eqb (tl_uid l) (Some lease_uid) && bool_decide (tl_phase l = ClusterLeasePhase.Pending)
      && bool_decide (tl_binding l = Some b) && String.eqb (attempt_id c) attempt
      && bool_decide (creation_phase c = ConnectTokenCreationPhase.Reserved)
      && bool_decide (token_identity c = Some expected)
  end.

Definition activate_reserved_lease_connect_token (lease_name lease_uid : string) (b : LeaseBinding) (attempt : string)
  : tprog (result string string) :=
  tdo read := tcall (TqGetLease lease_name) in
  match read with
  | Err _ => TRet (Err "lease lookup failed")
  | Ok l =>
  match lease_status (tl_lease l), tl_creation l, connect_token b with
  | None, _, _ => TRet (Err "lease has no durable connect-token creation status")
  | Some _, None, _ => TRet (Err "lease has no durable connect-token creation attempt")
  | Some _, Some _, None => TRet (Err "verified binding has no reserved connect-token UID")
  | Some _, Some _, Some expected =>
      if negb (activation_open l lease_uid b attempt expected) then TRet (Err "connect-token activation fence is closed")
      else
        match require_identity_shape expected lease_name with
        | Err e => TRet (Err e)
        | Ok _ =>
            tdo read := tcall (TqGetSecret (Teardown.name expected)) in
            match read with
            | Err _ => TRet (Err "connect-token lookup failed")
            | Ok s =>
                match (let? _ := require_connect_token_owner s lease_name lease_uid in connect_token_identity s) with
                | Err e => TRet (Err e)
                | Ok i =>
                    if negb (bool_decide (i = expected)) || negb (of_attempt s attempt)
                    then TRet (Err "reserved connect-token identity changed before activation")
                    else
                      match read_token s, sec_version s with
                      | Ok token, _ => TRet (Ok token)
                      | Err _, None => TRet (Err "reserved connect-token Secret has no resourceVersion")
                      | Err _, Some version =>
                          tdo token := tcall TqRandomToken in
                          tdo installed := tcall (TqInstallToken (Teardown.name expected) (Teardown.uid expected) version token) in
                          match installed with
                          | Err _ => TRet (Err "failed to activate reserved connect-token Secret")
                          | Ok activated =>
                              match read_token activated with
                              | Ok stored => TRet (Ok stored)
                              | Err _ =>
                                  tdo read := tcall (TqGetSecret (Teardown.name expected)) in
                                  TRet match read with
                                       | Err _ => Err "failed to re-read activated connect-token Secret"
                                       | Ok stored =>
                                           let? i := connect_token_identity stored in
                                           let? _ := deny_if (negb (bool_decide (i = expected)))
                                                       "activated connect-token identity changed after patch" in
                                           read_token stored
                                       end
                              end
                          end
                      end
                end
            end
        end
  end end.

(** ** Use *)

Definition ensure_lease_connect_token (l : TokenLease) (b : LeaseBinding) : tprog (result string string) :=
  tdo? expected := match connect_token b with
                   | Some expected => TRet (Ok expected)
                   | None => if requires_receipt (cleanup_mode b)
                             then TRet (Err "verified binding has no connect-token footprint")
                             else provision_lease_connect_token l
                   end in
  tdo? _ := TRet (require_identity_shape expected (tl_name l)) in
  tdo read := tcall (TqGetSecret (Teardown.name expected)) in
  TRet match read with
       | Err _ => Err "Failed to read connect token"
       | Ok s =>
           let? lease_uid := ok_or (tl_uid l) "lease has no UID" in
           let? _ := require_connect_token_owner s (tl_name l) lease_uid in
           let? i := connect_token_identity s in
           let? _ := deny_if (negb (bool_decide (i = expected))) "connect token Secret identity changed after binding" in
           read_token s
       end.

(** The owner and the identity of the token that was presented. *)
Definition validate_lease_connect_token (lease_id presented : string)
  : tprog (result (option (string * KubernetesResourceIdentity)) string) :=
  tdo read := tcall (TqGetSecret (connect_secret_name lease_id)) in
  TRet match read with
       | Err e => if is_404 e then Ok None else Err "Failed to read connect token"
       | Ok s =>
           match connect_token_owner_uid s lease_id with
           | None => Ok None
           | Some owner =>
               let? token := read_token s in
               if String.eqb token presented then let? i := connect_token_identity s in Ok (Some (owner, i)) else Ok None
           end
       end.

(** ** Deletion *)

Definition delete_lease_connect_token (lease_id lease_uid : string) : tprog (result unit string) :=
  let name := connect_secret_name lease_id in
  tdo read := tcall (TqGetSecret name) in
  match read with
  | Err e => TRet (if is_404 e then Ok tt else Err "Failed to read connect token")
  | Ok s =>
      match (let? _ := require_connect_token_owner s lease_id lease_uid in ok_or (sec_uid s) "Secret has no UID") with
      | Err e => TRet (Err e)
      | Ok secret_uid =>
          tdo gone := tcall (TqDeleteSecret name secret_uid (sec_version s)) in
          TRet match gone with
               | Ok _ => Ok tt
               | Err e => if is_404 e then Ok tt else Err "Failed to delete connect token"
               end
      end
  end.

(** The wait for an observed 404. *)
Fixpoint await_absence (attempts : nat) (expected : KubernetesResourceIdentity) : tprog (result unit string) :=
  match attempts with
  | O => TRet (Err "connect-token still present after delete")
  | S attempts =>
      tdo read := tcall (TqGetSecret (Teardown.name expected)) in
      match read with
      | Err e => TRet (if is_404 e then Ok tt else Err "connect-token absence proof failed")
      | Ok s => if str_opt_eqb (sec_uid s) (Some (Teardown.uid expected)) then await_absence attempts expected
                else TRet (Err "connect-token same-name replacement detected")
      end
  end.

Definition ABSENCE_READS : nat := 20.

Definition token_check (expected : KubernetesResourceIdentity) (r : result unit string) : TeardownCheck :=
  match r with
  | Ok _ => {| check_subject := ConnectTokenSecret; check_result := Verified; reason := None; verified := [canonical_id expected] |}
  | Err _ => {| check_subject := ConnectTokenSecret; check_result := Unknown; reason := Some "connect_token_unproven"; verified := [] |}
  end.

Definition delete_lease_connect_token_verified (lease_id lease_uid : string) (expected : KubernetesResourceIdentity)
  : tprog TeardownCheck :=
  let name := Teardown.name expected in
  tdo r :=
    tdo? _ := TRet (require_identity_shape expected lease_id) in
    tdo read := tcall (TqGetSecret name) in
    match read with
    | Err e => if is_404 e then await_absence ABSENCE_READS expected else TRet (Err "connect-token lookup failed")
    | Ok s =>
        match (let? _ := require_connect_token_owner s lease_id lease_uid in
               let? i := connect_token_identity s in
               deny_if (negb (bool_decide (i = expected))) "connect-token same-name replacement detected") with
        | Err e => TRet (Err e)
        | Ok _ =>
            tdo gone := tcall (TqDeleteSecret name (Teardown.uid expected) (sec_version s)) in
            match gone with
            | Err e => if is_404 e then await_absence ABSENCE_READS expected else TRet (Err "connect-token delete failed")
            | Ok _ => await_absence ABSENCE_READS expected
            end
        end
    end in
  TRet (token_check expected r).

Definition observe_lease_connect_token_absent (lease_id : string) (expected : KubernetesResourceIdentity)
  : tprog TeardownCheck :=
  tdo r :=
    tdo? _ := TRet (require_identity_shape expected lease_id) in
    tdo read := tcall (TqGetSecret (Teardown.name expected)) in
    TRet match read with
         | Err e => if is_404 e then Ok tt else Err "connect-token absence lookup failed"
         | Ok s => Err (if str_opt_eqb (sec_uid s) (Some (Teardown.uid expected))
                        then "connect-token exact object is still present"
                        else "connect-token same-name replacement detected")
         end in
  TRet (token_check expected r).

Definition verified_check (c : TeardownCheck) : bool := bool_decide (check_result c = Verified).

Definition delete_unbound_lease_connect_token_verified (lease_id lease_uid : string) : tprog (result unit string) :=
  tdo read := tcall (TqGetSecret (connect_secret_name lease_id)) in
  match read with
  | Err e => TRet (if is_404 e then Ok tt else Err "unbound connect-token lookup failed")
  | Ok s =>
      match (let? _ := require_connect_token_owner s lease_id lease_uid in connect_token_identity s) with
      | Err e => TRet (Err e)
      | Ok i =>
          tdo check := delete_lease_connect_token_verified lease_id lease_uid i in
          TRet (if verified_check check then Ok tt else Err "unbound connect-token absence remains unproven")
      end
  end.

(** ** The attempt *)

Definition with_token_identity (c : ConnectTokenCreation) (p : ConnectTokenCreationPhase.t) (i : KubernetesResourceIdentity)
  : ConnectTokenCreation :=
  {| attempt_id := attempt_id c; creation_phase := p; token_identity := Some i; verified_absent_at := verified_absent_at c |}.

Definition with_connect_token (b : LeaseBinding) (i : KubernetesResourceIdentity) : LeaseBinding :=
  {| binding_id := binding_id b; binding_lease := binding_lease b; binding_instance := binding_instance b;
     binding_pool := binding_pool b; backend := backend b; instance_spec_digest := instance_spec_digest b;
     cleanup_mode := cleanup_mode b; creation_manifest_digest := creation_manifest_digest b;
     creation_manifest := creation_manifest b; connect_token := Some i |}.

(** A patch of the attempt of a lease with this binding. *)
Definition attempt_patch (name uid version : string) (phase : ClusterLeasePhase.t) (attempt : option string)
    (b : LeaseBinding) (c : ConnectTokenCreation) (ops : list lease_op) : LeasePatch :=
  {| lp_name := name; lp_uid := uid; lp_version := version; lp_phase := Some phase; lp_binding := Some b;
     lp_creation := Some c; lp_attempt := attempt; lp_ops := ops |}.

(** [Some l] is the lease as written; a lost race is [None]. *)
Definition patch_lease (p : LeasePatch) : tprog (result (option TokenLease) LeaseError) :=
  tdo r := tcall (TqPatchLease p) in
  TRet match r with
       | Ok l => Ok (Some l)
       | Err e => if optimistic_conflict e then Ok None else Err (Kubernetes e)
       end.

(** A patch whose answer only matters when it is an error. *)
Definition patch_and_forget (p : LeasePatch) : tprog (result unit LeaseError) :=
  tdo? _ := patch_lease p in TRet (Ok tt).

Definition binding_lease_name (b : LeaseBinding) : string := ref_name (binding_lease b).

Definition persist_reserved_connect_token (l : TokenLease) (b : LeaseBinding) (c : ConnectTokenCreation)
    (i : KubernetesResourceIdentity) : tprog (result (option (TokenLease * LeaseBinding * ConnectTokenCreation)) LeaseError) :=
  if negb (bool_decide (creation_phase c = ConnectTokenCreationPhase.Creating)) || is_some (token_identity c)
     || is_some (connect_token b)
  then TRet (Err (Lifecycle "only an unresolved Creating attempt can persist a token UID"))
  else if negb (bool_decide (tl_phase l = ClusterLeasePhase.Pending)) || negb (bool_decide (tl_binding l = Some b))
          || negb (bool_decide (tl_creation l = Some c))
  then TRet (Ok None)
  else
    tdo? lease_uid := TRet (lease_uid_for l) in
    tdo? version := TRet (lease_version_for l) in
    let sealed_b := with_connect_token b i in
    let sealed_c := with_token_identity c ConnectTokenCreationPhase.Reserved i in
    tdo? sealed := patch_lease (attempt_patch (binding_lease_name b) lease_uid version ClusterLeasePhase.Pending None b c
                                  [OpBinding sealed_b; OpCreation sealed_c]) in
    TRet (Ok (l ← sealed; Some (l, sealed_b, sealed_c))).

Definition close_abandoned_pending_binding (l : TokenLease) (b : LeaseBinding) : tprog (result unit LeaseError) :=
  match tl_creation l with
  | None => TRet (Err (Lifecycle "verified binding rollback has no token creation checkpoint"))
  | Some c =>
      match token_identity c with
      | None => TRet (Err (Lifecycle "verified binding rollback has no exact token identity"))
      | Some i =>
          if negb (bool_decide (tl_phase l = ClusterLeasePhase.Pending)) || negb (bool_decide (tl_binding l = Some b))
             || negb (bool_decide (connect_token b = Some i))
          then TRet (Ok tt)
          else
            tdo? uid := TRet (lease_uid_for l) in
            tdo? version := TRet (lease_version_for l) in
            let patch c' := attempt_patch (binding_lease_name b) uid version ClusterLeasePhase.Pending None b c [OpCreation c'] in
            match creation_phase c with
            | ConnectTokenCreationPhase.Reserved | ConnectTokenCreationPhase.Ready =>
                patch_and_forget (patch (creation_at c ConnectTokenCreationPhase.Closing (verified_absent_at c)))
            | ConnectTokenCreationPhase.Closing =>
                tdo check := delete_lease_connect_token_verified (binding_lease_name b) uid i in
                if negb (verified_check check)
                then TRet (Err (Lifecycle "cannot clear a verified binding while its token footprint is unproven"))
                else
                  tdo now := tcall TqNow in
                  patch_and_forget (patch (creation_at c ConnectTokenCreationPhase.Closed (Some (to_rfc3339 now))))
            | _ => TRet (Err (Lifecycle "verified binding rollback did not enter Closing"))
            end
      end
  end.

Definition clear_lease_binding_intent (lease_uid : string) (b : LeaseBinding) : tprog (result unit LeaseError) :=
  tdo read := tcall (TqGetLease (binding_lease_name b)) in
  match read with
  | Err e => TRet (if is_404 e then Ok tt else Err (Kubernetes e))
  | Ok l =>
      if negb (clear_intent_applies lease_uid b (tl_lease l)) then TRet (Ok tt)
      else
        tdo? version := TRet (lease_version_for l) in
        if requires_receipt (cleanup_mode b) then close_abandoned_pending_binding l b
        else patch_and_forget
               {| lp_name := binding_lease_name b; lp_uid := lease_uid; lp_version := version;
                  lp_phase := Some ClusterLeasePhase.Pending; lp_binding := Some b; lp_creation := None;
                  lp_attempt := None; lp_ops := [OpNoBinding] |}
  end.

(** The attempt up to a reserved Secret. *)
Definition reserve_token (l : TokenLease) (b : LeaseBinding) (c : ConnectTokenCreation) (lease_uid : string)
  : tprog (result (option (TokenLease * LeaseBinding * ConnectTokenCreation)) LeaseError) :=
  match creation_phase c with
  | ConnectTokenCreationPhase.Prepared =>
      if is_some (connect_token b) || is_some (token_identity c)
      then TRet (Err (Lifecycle "Prepared connect-token attempt already carries an identity"))
      else
        tdo? version := TRet (lease_version_for l) in
        tdo? dispatched := patch_lease (attempt_patch (binding_lease_name b) lease_uid version ClusterLeasePhase.Pending
          None b c [OpCreation (creation_at c ConnectTokenCreationPhase.Creating (verified_absent_at c))]) in
        match dispatched with
        | None => TRet (Ok None)
        | Some dispatched =>
            match tl_creation dispatched with
            | None => TRet (Err (Lifecycle "dispatched connect-token attempt disappeared"))
            | Some dc =>
                if negb (bool_decide (creation_phase dc = ConnectTokenCreationPhase.Creating)) then TRet (Ok None)
                else
                  tdo? i := lifecycle (reserve_lease_connect_token dispatched (attempt_id dc)) in
                  persist_reserved_connect_token dispatched b dc i
            end
        end
  | ConnectTokenCreationPhase.Creating =>
      if is_some (connect_token b) || is_some (token_identity c)
      then TRet (Err (Lifecycle "Creating connect-token attempt already carries an identity"))
      else
        tdo? i := lifecycle (observe_reserved_lease_connect_token l (attempt_id c)) in
        match i with None => TRet (Ok None) | Some i => persist_reserved_connect_token l b c i end
  | ConnectTokenCreationPhase.Reserved | ConnectTokenCreationPhase.Ready =>
      TRet (if bool_decide (connect_token b = token_identity c) then Ok (Some (l, b, c))
            else Err (Lifecycle "connect-token binding and creation identities differ"))
  | ConnectTokenCreationPhase.Closing => tdo? _ := close_abandoned_pending_binding l b in TRet (Ok None)
  | ConnectTokenCreationPhase.Closed => TRet (Ok None)
  end.

(** From the reserved Secret to [Ready]. *)
Definition finish_token (l : TokenLease) (b : LeaseBinding) (c : ConnectTokenCreation) (lease_uid : string)
  : tprog (result (option (TokenLease * LeaseBinding)) LeaseError) :=
  if bool_decide (creation_phase c = ConnectTokenCreationPhase.Ready) then
    tdo? _ := lifecycle (ensure_lease_connect_token l b) in TRet (Ok (Some (l, b)))
  else
    tdo? _ := lifecycle (activate_reserved_lease_connect_token (binding_lease_name b) lease_uid b (attempt_id c)) in
    tdo read := tcall (TqGetLease (binding_lease_name b)) in
    tdo? current := TRet (lift_kube read) in
    if negb (bool_decide (tl_creation current = Some c)) || negb (str_opt_eqb (tl_uid current) (Some lease_uid))
       || negb (bool_decide (tl_phase current = ClusterLeasePhase.Pending)) || negb (bool_decide (tl_binding current = Some b))
    then TRet (Ok None)
    else
      tdo? version := TRet (lease_version_for current) in
      tdo? ready := patch_lease (attempt_patch (binding_lease_name b) lease_uid version ClusterLeasePhase.Pending None b c
                                   [OpCreation (creation_at c ConnectTokenCreationPhase.Ready (verified_absent_at c))]) in
      TRet (Ok (l ← ready; Some (l, b))).

Definition complete_connect_token_creation (l : TokenLease) (b : LeaseBinding)
  : tprog (result (option (TokenLease * LeaseBinding)) LeaseError) :=
  match tl_creation l with
  | None => TRet (Err (Lifecycle "verified binding has no durable connect-token creation attempt"))
  | Some c =>
      if negb (bool_decide (tl_phase l = ClusterLeasePhase.Pending)) || negb (bool_decide (tl_binding l = Some b))
         || negb (nonblank (attempt_id c))
      then TRet (Ok None)
      else
        tdo? lease_uid := TRet (lease_uid_for l) in
        tdo? sealed := reserve_token l b c lease_uid in
        match sealed with
        | None => TRet (Ok None)
        | Some (l, b, c) => finish_token l b c lease_uid
        end
  end.

(** The intent of [reserve_ready_instance]: the binding and, where a receipt is
    required, the prepared attempt in one write. *)
Definition prepared (attempt : string) : ConnectTokenCreation :=
  {| attempt_id := attempt; creation_phase := ConnectTokenCreationPhase.Prepared; token_identity := None;
     verified_absent_at := None |}.

Definition write_binding_intent (l : TokenLease) (b : LeaseBinding)
  : tprog (result (option LeaseBinding) LeaseError) :=
  tdo? lease_uid := TRet (lease_uid_for l) in
  tdo? version := TRet (lease_version_for l) in
  let patch ops := {| lp_name := tl_name l; lp_uid := lease_uid; lp_version := version;
                      lp_phase := Some ClusterLeasePhase.Pending; lp_binding := None; lp_creation := None;
                      lp_attempt := None; lp_ops := OpBinding b :: ops |} in
  if requires_receipt (cleanup_mode b) then
    tdo attempt := tcall TqUuid in
    tdo? intent := patch_lease (patch [OpCreation (prepared attempt)]) in
    match intent with
    | None => TRet (Ok None)
    | Some intent =>
        tdo? ready := complete_connect_token_creation intent b in
        TRet (Ok (snd <$> ready))
    end
  else
    tdo? intent := patch_lease (patch []) in
    TRet (Ok (match intent with Some _ => Some b | None => None end)).

(** ** Release *)

Definition is_terminal_phase (p : ClusterLeasePhase.t) : bool :=
  match p with ClusterLeasePhase.Released | ClusterLeasePhase.Expired => true | _ => false end.

Definition ALLOCATION_ABSENT_CONDITION : string := "AllocationAbsent".
Definition TEARDOWN_RECEIPT_RETENTION_FINALIZER : string := "kobe.kunobi.ninja/teardown-receipt-retention".
Definition CONNECT_TOKEN_CREATE_FENCE_ANNOTATION : string := "kobe.kunobi.ninja/connect-token-binding-before-create-v1".
Definition UNBOUND_RELEASE_PROOF_ACKNOWLEDGED_ANNOTATION : string := "kobe.kunobi.ninja/unbound-release-proof-acknowledged".

Definition is_rfc3339 (s : option string) : bool := is_some (s ≫= parse_rfc3339).

Definition retained_unstarted_binding_is_closed (l : TokenLease) : bool :=
  match tl_binding l, tl_creation l with
  | Some b, Some c =>
      bool_decide (cleanup_mode b = VerifiedDestroy) && is_none (connect_token b)
      && bool_decide (creation_phase c = ConnectTokenCreationPhase.Closed) && is_none (token_identity c)
      && is_rfc3339 (verified_absent_at c) && is_none (cluster_name (tl_status l))
  | _, _ => false
  end.

Definition retained_unstarted_binding_matches_lease (l : TokenLease) : bool :=
  match tl_binding l with
  | None => false
  | Some b =>
      retained_unstarted_binding_is_closed l && bool_decide (lease_cleanup_mode (tl_lease l) = Some VerifiedDestroy)
      && String.eqb (ref_name (binding_lease b)) (tl_name l) && str_opt_eqb (ref_uid (binding_lease b)) (tl_uid l)
      && String.eqb (ref_name (binding_pool b)) (lease_pool_ref (tl_lease l))
      && match ref_uid (binding_pool b) with Some u => negb (String.eqb u "") | None => false end
      && negb (String.eqb (bound_name (binding_instance b)) "") && negb (String.eqb (bound_uid (binding_instance b)) "")
      && (0 <? observed_generation (binding_instance b))
  end.

Definition nonblank_attempt (l : TokenLease) : option string :=
  a ← tl_attempt l; if nonblank a then Some a else None.

Definition unbound_release_proof_is_complete (l : TokenLease) : bool :=
  match nonblank_attempt l with
  | None => false
  | Some attempt =>
      is_rfc3339 (tl_unbound_at l) && is_terminal_phase (tl_phase l)
      && match tl_creation l with
         | None => true
         | Some c => bool_decide (creation_phase c = ConnectTokenCreationPhase.Closed)
                     && str_opt_eqb (verified_absent_at c) (tl_unbound_at l)
         end
      && (is_none (tl_binding l) || retained_unstarted_binding_is_closed l)
      && is_none (cluster_name (tl_status l)) && is_none (tl_receipt l) && is_none (tl_evidence l)
      && existsb (fun c => String.eqb (lc_type c) ALLOCATION_ABSENT_CONDITION && String.eqb (lc_status c) "True"
                           && String.eqb (lc_reason c) "NeverBound" && contains (lc_message c) attempt) (tl_conditions l)
  end.

Definition unbound_release_proof_is_complete_for_lease (l : TokenLease) : bool :=
  unbound_release_proof_is_complete l && (is_none (tl_binding l) || retained_unstarted_binding_matches_lease l).

Definition unbound_release_acknowledgement_token (l : TokenLease) : option string :=
  if unbound_release_proof_is_complete l then
    attempt ← nonblank_attempt l; at_ ← tl_unbound_at l; Some (attempt +:+ ":" +:+ at_)
  else None.

(** [separate] is [receipt_authority::is_separate()]. *)
Definition unbound_release_proof_acknowledged (separate : bool) (l : TokenLease) : bool :=
  match tl_attempt l with
  | None => false
  | Some attempt =>
      if separate then
        match tl_acknowledgement l with
        | None => false
        | Some ack =>
            String.eqb (ack_attempt_id ack) attempt && bool_decide (ack_kind (ack_proof ack) = AckNeverBound)
            && match ack_unbound_release_verified_at (ack_proof ack) with
               | Some at_ => str_opt_eqb (tl_unbound_at l) (Some at_)
               | None => false
               end
        end
      else str_opt_eqb (tl_annotations l !! UNBOUND_RELEASE_PROOF_ACKNOWLEDGED_ANNOTATION) (Some attempt)
  end.

Definition status_patch (l : TokenLease) (uid version : string) (ops : list lease_op) : LeasePatch :=
  {| lp_name := tl_name l; lp_uid := uid; lp_version := version; lp_phase := Some (tl_phase l); lp_binding := None;
     lp_creation := None; lp_attempt := None; lp_ops := ops |}.

(** [persist_authority_teardown_attempt]. *)
Definition persist_teardown_attempt (l : TokenLease) : tprog (result unit LeaseError) :=
  tdo? uid := TRet (lease_uid_for l) in
  tdo? version := TRet (lease_version_for l) in
  tdo attempt := tcall TqUuid in
  patch_and_forget (status_patch l uid version [OpAttempt attempt]).

(** The attempt that is durable, [None] while there is none. *)
Definition ensure_unbound_release_attempt (separate : bool) (l : TokenLease) : tprog (result (option string) LeaseError) :=
  match nonblank_attempt l with
  | Some attempt => TRet (Ok (Some attempt))
  | None =>
      if is_some (tl_attempt l) || is_some (tl_receipt l)
      then TRet (Err (Lifecycle "unbound release has malformed or conflicting teardown evidence"))
      else if separate then TRet (Ok None)
      else tdo? _ := persist_teardown_attempt l in TRet (Ok None)
  end.

(** The next state of the attempt, [None] when this pass cannot take it. *)
Definition close_move (l : TokenLease) (b : LeaseBinding) (c : ConnectTokenCreation)
  : tprog (result (option (LeaseBinding * ConnectTokenCreation)) LeaseError) :=
  let identity := token_identity c in
  match creation_phase c with
  | ConnectTokenCreationPhase.Prepared =>
      if is_some identity || is_some (connect_token b)
      then TRet (Err (Lifecycle "Prepared token attempt unexpectedly carries an identity"))
      else tdo now := tcall TqNow in
           TRet (Ok (Some (b, creation_at c ConnectTokenCreationPhase.Closed (Some (to_rfc3339 now)))))
  | ConnectTokenCreationPhase.Creating =>
      if is_some identity || is_some (connect_token b)
      then TRet (Err (Lifecycle "Creating token attempt unexpectedly carries an identity"))
      else
        tdo? i := lifecycle (observe_reserved_lease_connect_token l (attempt_id c)) in
        TRet (Ok (i ← i; Some (with_connect_token b i, with_token_identity c ConnectTokenCreationPhase.Closing i)))
  | ConnectTokenCreationPhase.Reserved | ConnectTokenCreationPhase.Ready =>
      TRet (if negb (bool_decide (identity = connect_token b)) || is_none identity
            then Err (Lifecycle "reserved token identity differs from the binding")
            else Ok (Some (b, creation_at c ConnectTokenCreationPhase.Closing (verified_absent_at c))))
  | ConnectTokenCreationPhase.Closing =>
      match identity with
      | None => TRet (Err (Lifecycle "Closing token attempt has no exact identity"))
      | Some i =>
          if negb (bool_decide (connect_token b = Some i))
          then TRet (Err (Lifecycle "Closing token identity differs from the binding"))
          else
            tdo? uid := TRet (lease_uid_for l) in
            tdo check := delete_lease_connect_token_verified (binding_lease_name b) uid i in
            if negb (verified_check check) then TRet (Ok None)
            else tdo now := tcall TqNow in
                 TRet (Ok (Some (b, creation_at c ConnectTokenCreationPhase.Closed (Some (to_rfc3339 now)))))
      end
  | ConnectTokenCreationPhase.Closed => TRet (Ok None)
  end.

Definition close_terminal_connect_token_creation (l : TokenLease) (b : LeaseBinding)
  : tprog (result (option (TokenLease * LeaseBinding)) LeaseError) :=
  match tl_creation l, nonblank_attempt l with
  | None, _ => TRet (Err (Lifecycle "verified terminal binding has no token creation checkpoint"))
  | _, None => TRet (Err (Lifecycle "terminal token close has no durable teardown attempt"))
  | Some c, Some teardown =>
      if negb (is_terminal_phase (tl_phase l)) || negb (bool_decide (tl_binding l = Some b)) || negb (nonblank (attempt_id c))
      then TRet (Ok None)
      else if bool_decide (creation_phase c = ConnectTokenCreationPhase.Closed) then
        TRet (if negb (is_rfc3339 (verified_absent_at c)) || negb (bool_decide (token_identity c = connect_token b))
              then Err (Lifecycle "Closed connect-token attempt lacks exact absence evidence")
              else Ok (Some (l, b)))
      else
        tdo? next := close_move l b c in
        match next with
        | None => TRet (Ok None)
        | Some (next_b, next_c) =>
            tdo? uid := TRet (lease_uid_for l) in
            tdo? version := TRet (lease_version_for l) in
            tdo? _ := patch_lease (attempt_patch (tl_name l) uid version (tl_phase l) (Some teardown) b c
                                     [OpBinding next_b; OpCreation next_c]) in
            TRet (Ok None)
        end
  end.

(** ** The proof that nothing was ever bound *)

Definition deterministic_connect_token_name_is_absent (lease_name : string) : tprog (result bool LeaseError) :=
  tdo read := tcall (TqGetSecret (connect_secret_name lease_name)) in
  TRet match read with
       | Ok _ => Ok false
       | Err e => if is_404 e then Ok true else Err (Kubernetes e)
       end.

(** An instance that carries a binding or a reference of this lease. *)
Definition instance_names_lease (l : TokenLease) (lease_uid : string) (i : ClusterInstance) : bool :=
  let names (r : ResourceRef) := String.eqb (ref_name r) (tl_name l) && str_opt_eqb (ref_uid r) (Some lease_uid) in
  match inst_status i with
  | None => false
  | Some st => match inst_binding st with Some b => names (binding_lease b) | None => false end
               || match lease_ref st with Some r => names r | None => false end
  end.

Definition no_instance_names (l : TokenLease) (verified_at : string) : tprog (result (option string) LeaseError) :=
  tdo read := tcall TqListInstances in
  tdo? all := TRet (lift_kube read) in
  tdo? lease_uid := TRet (lease_uid_for l) in
  TRet (Ok (if existsb (instance_names_lease l lease_uid) all then None else Some verified_at)).

Definition authority_never_bound_observation (l : TokenLease) : tprog (result (option string) LeaseError) :=
  if is_some (cluster_name (tl_status l))
     || (is_some (tl_binding l) && negb (retained_unstarted_binding_matches_lease l))
  then TRet (Ok None)
  else
    match tl_creation l with
    | Some c =>
        if negb (bool_decide (creation_phase c = ConnectTokenCreationPhase.Closed)) then TRet (Ok None)
        else
          match verified_absent_at c with
          | None => TRet (Ok None)
          | Some at_ =>
              if negb (is_rfc3339 (Some at_)) then TRet (Ok None)
              else
                match token_identity c with
                | Some i =>
                    tdo check := observe_lease_connect_token_absent (tl_name l) i in
                    if negb (verified_check check) then TRet (Ok None) else no_instance_names l at_
                | None =>
                    tdo? absent := deterministic_connect_token_name_is_absent (tl_name l) in
                    if negb absent then TRet (Ok None) else no_instance_names l at_
                end
          end
    | None =>
        if is_some (tl_binding l) then TRet (Ok None)
        else
          tdo? absent := deterministic_connect_token_name_is_absent (tl_name l) in
          if negb absent then TRet (Ok None)
          else tdo now := tcall TqNow in no_instance_names l (to_rfc3339 now)
    end.

(** [record_unbound_release_proof] and its copy
    [record_authority_unbound_release_proof]. *)
Definition record_unbound_release_proof (l : TokenLease) (attempt verified_at : string) : tprog (result unit LeaseError) :=
  if negb (str_opt_eqb (tl_attempt l) (Some attempt)) || is_some (cluster_name (tl_status l))
     || (is_some (tl_binding l) && negb (retained_unstarted_binding_matches_lease l)) || is_some (tl_receipt l)
  then TRet (Err (Lifecycle "NeverBound proof lost its exact release attempt"))
  else
    tdo? uid := TRet (lease_uid_for l) in
    tdo? version := TRet (lease_version_for l) in
    let proof := {| lc_type := ALLOCATION_ABSENT_CONDITION; lc_status := "True"; lc_reason := "NeverBound";
                    lc_message := "release attempt " +:+ attempt +:+ " proved no reciprocal allocation existed";
                    lc_last_transition_time := Some verified_at |} in
    let kept := List.filter (fun c => negb (String.eqb (lc_type c) ALLOCATION_ABSENT_CONDITION)) (tl_conditions l) in
    patch_and_forget
      {| lp_name := tl_name l; lp_uid := uid; lp_version := version; lp_phase := Some (tl_phase l); lp_binding := None;
         lp_creation := None; lp_attempt := Some attempt; lp_ops := [OpUnbound verified_at (kept ++ [proof])] |}.

Inductive AuthorityAction : Type := AuthorityAwait | AuthorityRequeue (secs : Z).
Definition NEVER_BOUND_BACKSTOP : Z := 30.

Definition fenced_for_release (l : TokenLease) : bool :=
  str_opt_eqb (tl_annotations l !! CONNECT_TOKEN_CREATE_FENCE_ANNOTATION) (Some "true").

Definition reconcile_release_authority (l : TokenLease) : tprog (result AuthorityAction LeaseError) :=
  if negb (bool_decide (lease_cleanup_mode (tl_lease l) = Some VerifiedDestroy)) || negb (is_terminal_phase (tl_phase l))
     || is_some (deletion_timestamp (lease_metadata (tl_lease l)))
     || negb (fenced_for_release l)
     || negb (existsb (String.eqb TEARDOWN_RECEIPT_RETENTION_FINALIZER) (tl_finalizers l))
  then TRet (Ok AuthorityAwait)
  else
    match tl_attempt l with
    | None =>
        if is_some (tl_receipt l) || is_some (tl_unbound_at l)
        then TRet (Err (Lifecycle "terminal lease carries proof without a durable attempt"))
        else tdo? _ := persist_teardown_attempt l in TRet (Ok (AuthorityRequeue 1))
    | Some attempt =>
        if negb (nonblank attempt) then TRet (Err (Lifecycle "terminal lease carries an empty teardown attempt"))
        else if unbound_release_proof_is_complete_for_lease l || is_some (tl_receipt l) then TRet (Ok AuthorityAwait)
        else if is_some (tl_unbound_at l)
        then TRet (Err (Lifecycle "NeverBound proof does not match the exact retained lease intent"))
        else
          tdo? proof := authority_never_bound_observation l in
          match proof with
          | None => TRet (Ok (AuthorityRequeue NEVER_BOUND_BACKSTOP))
          | Some at_ => tdo? _ := record_unbound_release_proof l attempt at_ in TRet (Ok (AuthorityRequeue 1))
          end
    end.

(** ** The terminal pass of the lease controller *)

(** How the verified part of a terminal pass ends: [RetireNeverBound] goes on
    to drop the retention finalizer and delete the lease, [ToRecycling] to the
    teardown of the bound instance. *)
Inductive TerminalPass : Type :=
| TerminalRequeue (secs : Z)
| RetireNeverBound (l : TokenLease)
| ToRecycling (l : TokenLease).

Definition BINDING_UNVERIFIED_MESSAGE : string := "binding unverified; access revoked; recycle/quarantine required".

Definition mark_binding_unverified (l : TokenLease) : tprog (result unit LeaseError) :=
  if str_opt_eqb (lease_message (tl_status l)) (Some BINDING_UNVERIFIED_MESSAGE) then TRet (Ok tt)
  else
    tdo? uid := TRet (lease_uid_for l) in
    tdo? version := TRet (lease_version_for l) in
    patch_and_forget
      {| lp_name := tl_name l; lp_uid := uid; lp_version := version; lp_phase := None; lp_binding := None;
         lp_creation := None; lp_attempt := None; lp_ops := [OpMessage BINDING_UNVERIFIED_MESSAGE] |}.

Definition requires_attempt_bound_token_deletion (l : TokenLease) : bool := requires_receipt (tl_mode l).

Definition unverified_then_requeue (l : TokenLease) (secs : Z) : tprog (result TerminalPass LeaseError) :=
  tdo? _ := mark_binding_unverified l in TRet (Ok (TerminalRequeue secs)).

(** The lease once its creator is closed: proven, to be proven, or bound. *)
Definition never_bound_stage (separate : bool) (l : TokenLease) : tprog (result TerminalPass LeaseError) :=
  if unbound_release_proof_is_complete_for_lease l then
    TRet (Ok (if unbound_release_proof_acknowledged separate l then RetireNeverBound l else TerminalRequeue 30))
  else if negb (is_none (cluster_name (tl_status l))
                && (is_none (tl_binding l) || retained_unstarted_binding_matches_lease l))
  then TRet (Ok (ToRecycling l))
  else if negb match tl_creation l with
               | None => true
               | Some c => bool_decide (creation_phase c = ConnectTokenCreationPhase.Closed) && is_some (verified_absent_at c)
               end
  then unverified_then_requeue l 30
  else
    tdo? _ := match tl_creation l with
              | Some _ => TRet (Ok tt)
              | None =>
                  tdo? uid := TRet (lease_uid_for l) in
                  lifecycle (delete_unbound_lease_connect_token_verified (tl_name l) uid)
              end in
    if separate then TRet (Ok (TerminalRequeue 1))
    else
      tdo? proof := authority_never_bound_observation l in
      match proof with
      | None => TRet (Ok (TerminalRequeue NEVER_BOUND_BACKSTOP))
      | Some at_ =>
          tdo? _ := record_unbound_release_proof l (default "" (tl_attempt l)) at_ in TRet (Ok (TerminalRequeue 1))
      end.

(** The branch of [reconcile_lease] for a Released or Expired lease whose
    cleanup is verified. *)
Definition terminate_verified (separate : bool) (l : TokenLease) : tprog (result TerminalPass LeaseError) :=
  if negb (fenced_for_release l) then unverified_then_requeue l 30
  else
    tdo? attempt := ensure_unbound_release_attempt separate l in
    match attempt, tl_binding l with
    | None, _ => TRet (Ok (TerminalRequeue 1))
    | Some _, None => never_bound_stage separate l
    | Some _, Some b =>
        tdo? closed := close_terminal_connect_token_creation l b in
        match closed with
        | None => TRet (Ok (TerminalRequeue 5))
        | Some (l, b) =>
            if retained_unstarted_binding_matches_lease l then never_bound_stage separate l
            else
              tdo? adopted := tcall (TqAdopt b) in
              if bool_decide (adopted = LeaseController.Reserved) then never_bound_stage separate l
              else unverified_then_requeue l 1
        end
    end.
End Token.

Lemma append_nonempty s c t : s +:+ String c t <> s.
Proof. induction s as [|d s IH]; [done|]. cbn. intros [= E]. by apply IH. Qed.

(** An acknowledgement as the consumer writes it, the token of the proof, is
    never the attempt the lease controller compares it with. *)
Lemma written_acknowledgement_is_not_recognised parse l token :
  unbound_release_acknowledgement_token parse l = Some token ->
  tl_annotations l !! UNBOUND_RELEASE_PROOF_ACKNOWLEDGED_ANNOTATION = Some token ->
  unbound_release_proof_acknowledged false l = false.
Proof.
  unfold unbound_release_acknowledgement_token, unbound_release_proof_acknowledged, nonblank_attempt.
  destruct (unbound_release_proof_is_complete parse l); [|done]. destruct (tl_attempt l) as [a|]; [|done]. cbn.
  destruct (nonblank a); [|done]. destruct (tl_unbound_at l) as [u|]; [|done]. cbn. intros [= <-] ->. cbn.
  apply String.eqb_neq, append_nonempty.
Qed.
