(* ===== verification/TokenSystem.v ===== *)
(** * What every token program may do

    A history of one lease name and of the Secret that goes with it, the moves
    of a token attempt, and a lemma per program of [ConnectToken]: whatever it
    is answered, it sends only requests that are permitted at that moment.  A
    program that moved its attempt from [Prepared] to [Creating] holds the
    licence for one POST. *)

From S2P Require Import Prelude Text Teardown StateMachine Objects LeaseBinding LeaseController LedgerApi ConnectToken.

Local Open Scope kobe_scope.

(** Every version of the lease and of the Secret that was ever stored under the
    name, and the UIDs of Secrets that are gone. *)
Record History : Type := { hv : list TokenLease; hs : list Secret; hd : list string }.

Definition extends (h h' : History) : Prop := incl (hv h) (hv h') /\ incl (hs h) (hs h') /\ incl (hd h) (hd h').

#[export] Instance extends_preorder : PreOrder extends.
Proof.
  split; [intros h; split_and!; apply incl_refl|].
  intros a b c (?&?&?) (?&?&?). split_and!; eapply incl_tran; eauto.
Qed.

Section System.
Context (parse_rfc3339 : string -> option Z) (to_rfc3339 : Z -> string) (ns name : string).

Definition owned (s : Secret) (u : string) : Prop := connect_token_owner_uid s name = Some u.

(** ** Facts *)

Definition landed (h : History) (u : string) (i : KubernetesResourceIdentity) : Prop :=
  exists s, In s (hs h) /\ owned s u /\ connect_token_identity ns s = Ok i.

Definition dead (h : History) (i : KubernetesResourceIdentity) : Prop := In (Teardown.uid i) (hd h).

Definition is_standard (h : History) (u : string) : Prop :=
  exists l, In l (hv h) /\ tl_uid l = Some u /\ tl_mode l = Standard.

(** What a stored attempt of lease [u] carries. *)
Definition attempt_ok (h : History) (u : string) (b : LeaseBinding) (c : ConnectTokenCreation) : Prop :=
  connect_token b = token_identity c /\
  (forall i, token_identity c = Some i -> landed h u i) /\
  match creation_phase c with
  | ConnectTokenCreationPhase.Prepared | ConnectTokenCreationPhase.Creating => token_identity c = None
  | ConnectTokenCreationPhase.Reserved | ConnectTokenCreationPhase.Ready | ConnectTokenCreationPhase.Closing =>
      is_Some (token_identity c)
  | ConnectTokenCreationPhase.Closed => forall i, token_identity c = Some i -> dead h i
  end.

Record lease_ok (h : History) (l : TokenLease) : Prop := {
  lo_name : tl_name l = name;
  lo_uid : exists u, tl_uid l = Some u /\ u <> "";
  lo_binding : forall b, tl_binding l = Some b -> cleanup_mode b = tl_mode l /\ binding_lease_name b = name;
  lo_creation : forall c, tl_creation l = Some c -> tl_mode l = VerifiedDestroy /\
    exists b, tl_binding l = Some b /\ forall u, tl_uid l = Some u -> attempt_ok h u b c;
  lo_none : tl_mode l = VerifiedDestroy -> tl_creation l = None -> tl_binding l = None;
}.

Definition good (h : History) : Prop := forall l, In l (hv h) -> lease_ok h l.

Lemma landed_extends h h' u i : extends h h' -> landed h u i -> landed h' u i.
Proof. intros (_&Hs&_) (s & Hin & ?). exists s. auto. Qed.

Lemma attempt_ok_extends h h' u b c : extends h h' -> attempt_ok h u b c -> attempt_ok h' u b c.
Proof.
  intros He (Hb & Hl & Hp). split; [done|]. split; [intros i Hi; eapply landed_extends; eauto|].
  destruct (creation_phase c); try done. intros i Hi. destruct He as (_&_&Hd). by apply Hd, Hp.
Qed.

(** ** Moves *)

(** One step of an attempt. *)
Inductive attempt_step (h : History) (u : string) (b : LeaseBinding) (c : ConnectTokenCreation)
  : LeaseBinding -> ConnectTokenCreation -> Prop :=
| as_dispatch : creation_phase c = ConnectTokenCreationPhase.Prepared ->
    attempt_step h u b c b (creation_at c ConnectTokenCreationPhase.Creating (verified_absent_at c))
| as_record p i : creation_phase c = ConnectTokenCreationPhase.Creating ->
    p = ConnectTokenCreationPhase.Reserved \/ p = ConnectTokenCreationPhase.Closing -> landed h u i ->
    attempt_step h u b c (with_connect_token b i) (with_token_identity c p i)
| as_advance p : is_Some (token_identity c) ->
    (creation_phase c = ConnectTokenCreationPhase.Reserved /\
       (p = ConnectTokenCreationPhase.Ready \/ p = ConnectTokenCreationPhase.Closing)) \/
    (creation_phase c = ConnectTokenCreationPhase.Ready /\ p = ConnectTokenCreationPhase.Closing) ->
    attempt_step h u b c b (creation_at c p (verified_absent_at c))
| as_abandon at_ : creation_phase c = ConnectTokenCreationPhase.Prepared ->
    attempt_step h u b c b (creation_at c ConnectTokenCreationPhase.Closed at_)
| as_close i at_ : creation_phase c = ConnectTokenCreationPhase.Closing -> token_identity c = Some i -> dead h i ->
    attempt_step h u b c b (creation_at c ConnectTokenCreationPhase.Closed at_).

Definition unstarted (l : TokenLease) : Prop :=
  match tl_creation l with
  | None => True
  | Some c => creation_phase c = ConnectTokenCreationPhase.Closed /\ token_identity c = None
  end.

Definition kept (l l' : TokenLease) : Prop :=
  tl_name l' = tl_name l /\ tl_uid l' = tl_uid l /\ tl_mode l' = tl_mode l /\ tl_phase l' = tl_phase l.

(** What a patch makes of the version it was made for. *)
Inductive move (h : History) (u : string) (l l' : TokenLease) : Prop :=
| mv_quiet : tl_binding l' = tl_binding l -> tl_creation l' = tl_creation l -> tl_unbound_at l' = tl_unbound_at l ->
    move h u l l'
| mv_intent b : tl_phase l = ClusterLeasePhase.Pending -> tl_binding l = None ->
    tl_binding l' = Some b -> cleanup_mode b = tl_mode l -> binding_lease_name b = name -> connect_token b = None ->
    (tl_mode l = VerifiedDestroy /\ exists attempt, tl_creation l' = Some (prepared attempt)) \/
    (tl_mode l = Standard /\ tl_creation l' = tl_creation l) ->
    tl_unbound_at l' = tl_unbound_at l -> move h u l l'
| mv_clear : tl_mode l = Standard -> tl_binding l' = None -> tl_creation l' = tl_creation l ->
    tl_unbound_at l' = tl_unbound_at l -> move h u l l'
| mv_attempt b c b' c' : tl_binding l = Some b -> tl_creation l = Some c ->
    tl_binding l' = Some b' -> tl_creation l' = Some c' -> attempt_step h u b c b' c' ->
    tl_unbound_at l' = tl_unbound_at l -> move h u l l'
| mv_proof : tl_binding l' = tl_binding l -> tl_creation l' = tl_creation l -> is_terminal_phase (tl_phase l) = true ->
    unstarted l -> move h u l l'.

(** ** Requests *)

Definition dispatches (p : LeasePatch) : bool :=
  existsb (fun op => match op with
                     | OpCreation c => bool_decide (creation_phase c = ConnectTokenCreationPhase.Creating)
                     | _ => false
                     end) (lp_ops p).

Definition permitted_patch (h : History) (p : LeasePatch) : Prop :=
  exists l, In l (hv h) /\ tl_uid l = Some (lp_uid p) /\ tl_version l = Some (lp_version p) /\
    forall l', apply_lease_patch p l = Some l' ->
      kept l l' /\ move h (lp_uid p) l l' /\
      (dispatches p = true -> exists b c b' c', tl_binding l = Some b /\ tl_creation l = Some c /\
         creation_phase c = ConnectTokenCreationPhase.Prepared /\
         tl_binding l' = Some b' /\ tl_creation l' = Some c' /\ creation_phase c' = ConnectTokenCreationPhase.Creating) /\
      (dispatches p = false -> forall c', tl_creation l' = Some c' ->
         creation_phase c' = ConnectTokenCreationPhase.Creating -> tl_creation l = Some c').

(** A POST needs the licence for its lease, or a lease without attempts. *)
Definition permitted_create (licence : option string) (h : History) (s : Secret) : Prop :=
  exists u, owned s u /\ (licence = Some u \/ is_standard h u).

Definition permitted (licence : option string) (h : History) {X} (q : treq X) : Prop :=
  match q with
  | TqCreateSecret s => permitted_create licence h s
  | TqPatchLease p => permitted_patch h p
  | _ => True
  end.

Definition stamp_lease (l : TokenLease) (rv : string) : TokenLease :=
  let m := lease_metadata (tl_lease l) in
  {| tl_lease := {| lease_metadata := {| meta_name := meta_name m; meta_uid := meta_uid m;
                                         meta_generation := meta_generation m; resource_version := Some rv;
                                         deletion_timestamp := deletion_timestamp m; owner_references := owner_references m |};
                    lease_pool_ref := lease_pool_ref (tl_lease l); lease_ttl := lease_ttl (tl_lease l);
                    requester_type := requester_type (tl_lease l); lease_cleanup_mode := lease_cleanup_mode (tl_lease l);
                    lease_status := lease_status (tl_lease l) |};
     tl_annotations := tl_annotations l; tl_finalizers := tl_finalizers l; tl_attempt := tl_attempt l;
     tl_unbound_at := tl_unbound_at l; tl_receipt := tl_receipt l; tl_evidence := tl_evidence l;
     tl_acknowledgement := tl_acknowledgement l; tl_conditions := tl_conditions l |}.

(** What an answer tells, at the history in which it was given. *)
Definition told (h : History) {X} (q : treq X) : X -> Prop :=
  match q with
  | TqGetLease n => fun x => match x with Ok l => n = name -> In l (hv h) | Err _ => True end
  | TqGetSecret n => fun x =>
      match x with
      | Ok s => n = connect_secret_name name -> In s (hs h)
      | Err e => is_404 e = true -> n = connect_secret_name name ->
                 forall s u, In s (hs h) -> sec_uid s = Some u -> In u (hd h)
      end
  | TqCreateSecret s => fun x =>
      match x with Ok s' => sec_name s = Some (connect_secret_name name) -> In s' (hs h) | Err _ => True end
  | TqPatchLease p => fun x =>
      match x with
      | Ok l' => In l' (hv h) /\ exists l l1 rv, In l (hv h) /\ apply_lease_patch p l = Some l1 /\ l' = stamp_lease l1 rv
      | Err _ => True
      end
  | _ => fun _ => True
  end.

(** The licence after an answer: the first POST uses it up. *)
Definition next_licence (licence : option string) {X} (q : treq X) : X -> option string :=
  match q with
  | TqPatchLease p => fun x => match x with
                               | Ok _ => if dispatches p then Some (lp_uid p) else licence
                               | Err _ => licence
                               end
  | TqCreateSecret _ => fun _ => None
  | _ => fun _ => licence
  end.

(** ** Lawful programs *)

(** Whatever it is answered, [p] sends only permitted requests, and what it
    returns satisfies [Q]. *)
Fixpoint lawful {R} (licence : option string) (h : History) (p : tprog R) (Q : History -> R -> Prop) : Prop :=
  match p with
  | TRet r => Q h r
  | TCall q k =>
      permitted licence h q /\
      forall x h', extends h h' -> good h' -> told h' q x -> lawful (next_licence licence q x) h' (k x) Q
  end.

(** ** Facts are kept *)

Lemma dead_extends h h' i : extends h h' -> dead h i -> dead h' i.
Proof. intros (_&_&Hd). apply Hd. Qed.

Lemma move_extends h h' u l l' : extends h h' -> move h u l l' -> move h' u l l'.
Proof.
  intros He [?|b ? ? ? ? ? ? Hc ?|?|b c b' c' ? ? ? ? Hs ?|?];
    [by constructor|by eapply mv_intent|by apply mv_clear| |by apply mv_proof].
  apply (mv_attempt _ _ _ _ b c b' c'); try done.
  destruct Hs; [eapply as_dispatch|eapply as_record|eapply as_advance|eapply as_abandon|eapply as_close];
    eauto using landed_extends, dead_extends.
Qed.

Lemma permitted_extends licence h h' X (q : treq X) : extends h h' -> permitted licence h q -> permitted licence h' q.
Proof.
  intros He. pose proof He as (Hv&_&_). destruct q; cbn; try done.
  - intros (u & Ho & [Hl|(l & Hin & ?)]); exists u; split; auto. right. exists l. auto.
  - intros (l & Hin & Hu & Hr & Hp). exists l. repeat (split; [by auto|]). intros l' Ha.
    destruct (Hp l' Ha) as (? & ? & ?). eauto using move_extends.
Qed.

Lemma lawful_extends {R} licence h h' (p : tprog R) Q :
  extends h h' -> (forall h h' r, extends h h' -> Q h r -> Q h' r) -> lawful licence h p Q -> lawful licence h' p Q.
Proof.
  intros He HQ. destruct p as [r|X q k]; cbn; [by eapply HQ|]. intros [Hp Hk]. split; [by eapply permitted_extends|].
  intros x h'' He'. apply Hk. by etrans.
Qed.

(** A postcondition must hold of some history between the start and the end of
    what follows; a program need not keep its licence. *)
Lemma lawful_weaken {R} licence h (p : tprog R) (Q Q' : History -> R -> Prop) :
  lawful licence h p Q -> (forall h' r, extends h h' -> Q h' r -> Q' h' r) -> lawful licence h p Q'.
Proof.
  revert licence h. induction p as [r|X q k IH]; cbn; intros licence h Hl HQ; [by apply HQ|].
  destruct Hl as [Hp Hk]. split; [done|]. intros x h' He Hg Ht. apply IH; [by apply Hk|].
  intros h'' r He'. apply HQ. by etrans.
Qed.

Lemma permitted_any licence h X (q : treq X) : permitted None h q -> permitted licence h q.
Proof. destruct q; cbn; try done. intros (u & Ho & [?|?]); [done|]. exists u. auto. Qed.

(** What is lawful without a licence is lawful with one. *)
Lemma lawful_any {R} licence h (p : tprog R) Q : lawful None h p Q -> lawful licence h p Q.
Proof.
  revert licence h. induction p as [r|X q k IH]; cbn; intros licence h; [done|].
  intros [Hp Hk]. split; [by apply permitted_any|]. intros x h' He Hg Ht. specialize (Hk x h' He Hg Ht).
  destruct q; cbn in *; try (by apply IH); try done. destruct x; [|by apply IH].
  destruct (dispatches p) eqn:E; cbn in *; [done|]. by apply IH.
Qed.

(** [f] is lawful without a licence, whatever [p] left of its own. *)
Lemma lawful_bind {A B} licence h (p : tprog A) (f : A -> tprog B) P Q :
  lawful licence h p P ->
  (forall h' a, extends h h' -> (h' = h \/ good h') -> P h' a -> lawful None h' (f a) Q) -> lawful licence h (tbind p f) Q.
Proof.
  revert licence h. induction p as [r|X q k IH]; cbn; intros licence h Hl Hf.
  - apply lawful_any. apply Hf; [done|by left|done].
  - destruct Hl as [Hp Hk]. split; [done|]. intros x h' He Hg Ht. apply IH; [by apply Hk|].
    intros h'' a He' Hg'. apply Hf; [by etrans|]. destruct Hg' as [->|?]; auto.
Qed.

(** ** The token functions *)

Lemma owned_token_secret l u a t : tl_name l = name -> u <> "" -> owned (token_secret l u a t) u.
Proof.
  intros Hn Hu. unfold owned, connect_token_owner_uid, token_secret. cbn. rewrite Hn, !String.eqb_refl. cbn.
  apply String.eqb_neq in Hu. by rewrite Hu.
Qed.

Lemma require_owner_spec s n u v : require_connect_token_owner s n u = Ok v -> connect_token_owner_uid s n = Some u.
Proof.
  unfold require_connect_token_owner, deny_if. destruct (str_opt_eqb _ _) eqn:E; [|done].
  intros _. by apply str_opt_eqb_eq in E.
Qed.

Lemma reserved_identity_spec l u attempt s i :
  tl_name l = name -> reserved_identity ns l u attempt s = Ok i -> owned s u /\ connect_token_identity ns s = Ok i.
Proof.
  intros Hn. unfold reserved_identity. destruct (require_connect_token_owner _ _ _) eqn:E; [|done]. cbn.
  destruct (deny_if _ _); [|done]. cbn. intros Hi. apply require_owner_spec in E. rewrite Hn in E. by split.
Qed.

Lemma lawful_call {R X} licence h (q : treq X) (k : X -> tprog R) Q :
  permitted licence h q ->
  (forall x h', extends h h' -> good h' -> told h' q x -> lawful (next_licence licence q x) h' (k x) Q) ->
  lawful licence h (TCall q k) Q.
Proof. by split. Qed.

(** The next request, when it needs no permission. *)
Ltac ask :=
  cbn [tbind tbind_ok tcall]; apply lawful_call; [exact I|]; intros ? ? ?He ?Hg ?Ht; cbn [next_licence].
(** A program whose requests need no permission and whose result says nothing. *)
Ltac walk :=
  repeat (cbn [tbind tbind_ok tcall];
    match goal with
    | |- lawful _ _ (TRet _) _ => exact I
    | |- lawful _ _ (TCall _ _) _ => ask
    | |- lawful _ _ (match ?x with _ => _ end) _ => destruct x eqn:?
    end).

Lemma reserve_lawful h l attempt u :
  tl_name l = name -> tl_uid l = Some u -> u <> "" ->
  lawful (Some u) h (reserve_lease_connect_token ns l attempt) (fun h r => forall i, r = Ok i -> landed h u i).
Proof.
  intros Hn Hu Hne. unfold reserve_lease_connect_token. destruct (nonblank attempt); [|by cbn]. cbn [negb]. rewrite Hu.
  assert (forall s h0, In s (hs h0) -> forall i, reserved_identity ns l u attempt s = Ok i -> landed h0 u i) as Hl.
  { intros s h0 Hin i Hi. apply reserved_identity_spec in Hi as [? ?]; [|done]. by exists s. }
  ask. destruct x as [s|e]; [cbn; apply Hl, Ht; by rewrite Hn|].
  destruct (is_404 e); [|by cbn]. cbn [tbind tcall]. apply lawful_call.
  { exists u. split; [by apply owned_token_secret|by left]. }
  intros x h2 He2 Hg2 Ht2. cbn [next_licence]. destruct x as [s|e2].
  { cbn. apply Hl, Ht2. cbn. by rewrite Hn. }
  destruct (is_409 e2); [|by cbn]. ask. destruct x; [cbn; apply Hl, Ht0; by rewrite Hn|by cbn].
Qed.

Lemma observe_lawful h l attempt u :
  tl_name l = name -> tl_uid l = Some u ->
  lawful None h (observe_reserved_lease_connect_token ns l attempt)
    (fun h r => forall i, r = Ok (Some i) -> landed h u i).
Proof.
  intros Hn Hu. unfold observe_reserved_lease_connect_token. rewrite Hu. ask.
  destruct x as [s|e]; [|by cbn; destruct (is_404 e)]. cbn. intros i Hi.
  destruct (reserved_identity ns l u attempt s) eqn:E; [|done]. cbn in Hi. injection Hi as <-.
  apply reserved_identity_spec in E as [? ?]; [|done]. exists s. split; [apply Ht; by rewrite Hn|done].
Qed.

Lemma provision_lawful h l u :
  tl_name l = name -> tl_uid l = Some u -> u <> "" -> is_standard h u ->
  lawful None h (provision_lease_connect_token ns l) (fun _ _ => True).
Proof.
  intros Hn Hu Hne Hs. unfold provision_lease_connect_token. rewrite Hu. ask. destruct x as [s|e]; [by cbn|].
  destruct (is_404 e); [|by cbn]. ask. cbn [tbind tcall]. apply lawful_call.
  - exists u. split; [by apply owned_token_secret|right]. destruct Hs as (l0 & Hin & ?). exists l0.
    split; [|done]. destruct He as (Hv&_), He0 as (Hv0&_). auto.
  - intros x2 h2 He2 Hg2 Ht2. cbn [next_licence]. destruct x2 as [s|e2]; [by cbn|].
    destruct (is_409 e2); [|by cbn]. ask. by destruct x0.
Qed.

Lemma ensure_lawful h l b u :
  tl_name l = name -> tl_uid l = Some u -> u <> "" -> (cleanup_mode b = Standard -> is_standard h u) ->
  lawful None h (ensure_lease_connect_token ns l b) (fun _ _ => True).
Proof.
  intros Hn Hu Hne Hs. unfold ensure_lease_connect_token, tbind_ok. apply (lawful_bind _ _ _ _ (fun _ _ => True)).
  - destruct (connect_token b); [by cbn|]. destruct (cleanup_mode b); cbn; [|done]. apply (provision_lawful _ _ u); auto.
  - intros h' [i|e] He _ _; [|by cbn]. cbn [tbind]. destruct (require_identity_shape ns i (tl_name l)); [|by cbn].
    ask. by destruct x.
Qed.

Lemma activate_lawful h n u b attempt :
  lawful None h (activate_reserved_lease_connect_token ns n u b attempt) (fun _ _ => True).
Proof.
  unfold activate_reserved_lease_connect_token. walk.
Qed.

(** A 404 for the name says that every Secret seen before is gone. *)
Lemma absence_lawful attempts h i u :
  Teardown.name i = connect_secret_name name -> landed h u i ->
  lawful None h (await_absence attempts i) (fun h r => r = Ok tt -> dead h i).
Proof.
  intros Hn Hl. revert h Hl. induction attempts as [|n IH]; intros h Hl; [by cbn|]. cbn [await_absence]. ask.
  destruct x as [s|e].
  - destruct (str_opt_eqb _ _); [|by cbn]. apply IH. by eapply landed_extends.
  - cbn. destruct (is_404 e) eqn:E; [|done]. intros _. apply (landed_extends _ h') in Hl; [|done].
    destruct Hl as (s & Hin & Ho & Hi). apply (Ht E Hn s); [done|]. unfold connect_token_identity in Hi.
    destruct (sec_name s ≫= _); [|done]. cbn in Hi. destruct (sec_uid s) as [v|]; [|done]. cbn in Hi.
    destruct (nonblank v); [|done]. cbn in Hi. by injection Hi as <-.
Qed.

Lemma shape_name i n : require_identity_shape ns i n = Ok tt -> Teardown.name i = connect_secret_name n.
Proof.
  unfold require_identity_shape, require_connect_token_identity_shape, deny_if. destruct (negb _) eqn:E; [done|]. intros _.
  apply negb_false_iff in E. rewrite !andb_true_iff in E. destruct E as [[_ E] _]. by apply String.eqb_eq.
Qed.

Lemma delete_verified_lawful h i u u' :
  landed h u i ->
  lawful None h (delete_lease_connect_token_verified ns name u' i) (fun h r => verified_check r = true -> dead h i).
Proof.
  intros Hl. unfold delete_lease_connect_token_verified.
  apply (lawful_bind _ _ _ _ (fun h r => r = Ok tt -> dead h i)).
  2:{ intros h' [[]|e] _ _ Hd; cbn; [intros _; by apply Hd|done]. }
  cbn [tbind tbind_ok]. destruct (require_identity_shape ns i name) as [[]|] eqn:Es; [|by cbn].
  apply shape_name in Es. cbn [tbind tbind_ok]. ask.
  assert (forall h2, extends h h2 -> lawful None h2 (await_absence ABSENCE_READS i) (fun h r => r = Ok tt -> dead h i)) as Ha.
  { intros h2 He2. apply (absence_lawful _ _ _ u); [done|]. by eapply landed_extends. }
  destruct x as [s|e].
  - destruct (let? _ := _ in _); [|by cbn]. ask. assert (extends h h'0) by (by etrans). destruct x; [by apply Ha|].
    destruct (is_404 e); [by apply Ha|by cbn].
  - destruct (is_404 e); [by apply Ha|by cbn].
Qed.

(** ** Patches *)

Lemma apply_tests p l l' : apply_lease_patch p l = Some l' ->
  l' = foldl apply_lease_op l (lp_ops p) /\ tested (lp_binding p) (tl_binding l) = true /\
  tested (lp_creation p) (tl_creation l) = true /\ tested (lp_phase p) (lease_phase <$> lease_status (tl_lease l)) = true.
Proof.
  unfold apply_lease_patch, lease_tests. destruct (_ && _) eqn:E; [|done]. intros [= <-].
  rewrite !andb_true_iff in E. tauto.
Qed.

Lemma tested_some {A} `{EqDecision A} (a : A) have : tested (Some a) have = true -> have = Some a.
Proof. cbn. by rewrite bool_decide_eq_true. Qed.

(** A patch of an attempt, with the binding written again or left. *)
Lemma attempt_patch_permitted h l n uid version phase attempt b c b' c' ops :
  In l (hv h) -> tl_uid l = Some uid -> tl_version l = Some version ->
  ops = [OpBinding b'; OpCreation c'] \/ (b' = b /\ ops = [OpCreation c']) ->
  (tl_binding l = Some b -> tl_creation l = Some c -> attempt_step h uid b c b' c') ->
  permitted_patch h (attempt_patch n uid version phase attempt b c ops).
Proof.
  intros Hin Hu Hv Hops Hs. exists l. repeat (split; [done|]). intros l' Ha.
  apply apply_tests in Ha as (-> & Hb & Hc & _). apply tested_some in Hb, Hc. specialize (Hs Hb Hc). cbn [attempt_patch lp_ops lp_uid].
  assert (exists m, foldl apply_lease_op l ops = m /\ kept l m /\ tl_binding m = Some b' /\ tl_creation m = Some c' /\
            tl_unbound_at m = tl_unbound_at l) as (m & -> & Hk & Hb' & Hc' & Hub).
  { eexists. split; [done|]. by destruct Hops as [->|[-> ->]]. }
  split; [done|]. split; [by eapply mv_attempt|].
  assert (dispatches (attempt_patch n uid version phase attempt b c ops) =
          bool_decide (creation_phase c' = ConnectTokenCreationPhase.Creating)) as ->.
  { unfold dispatches. by destruct Hops as [->|[-> ->]]; cbn; rewrite orb_false_r. }
  rewrite bool_decide_eq_true, bool_decide_eq_false. split.
  - intros Hp. exists b, c, b', c'. repeat (split; [done|]). split; [|done].
    destruct Hs as [|p i ? Hpp|p ? Hpp| |]; cbn in Hp; try done.
    + by destruct Hpp as [-> | ->].
    + by destruct Hpp as [[_ [-> | ->]]|[_ ->]].
  - intros Hp c0. rewrite Hc'. by intros [= <-] ?.
Qed.

(** A patch that leaves binding and attempt alone. *)
Lemma quiet_patch_permitted h l p :
  In l (hv h) -> tl_uid l = Some (lp_uid p) -> tl_version l = Some (lp_version p) ->
  Forall (fun op => match op with OpAttempt _ | OpMessage _ => True | _ => False end) (lp_ops p) -> permitted_patch h p.
Proof.
  intros Hin Hu Hv Hops. exists l. repeat (split; [done|]). intros l' Ha. apply apply_tests in Ha as (-> & _).
  assert (dispatches p = false) as ->.
  { unfold dispatches. induction Hops as [|[] ops Ho _ IH]; cbn; done. }
  assert (forall m, kept l m /\ tl_binding m = tl_binding l /\ tl_creation m = tl_creation l /\ tl_unbound_at m = tl_unbound_at l ->
            let m' := foldl apply_lease_op m (lp_ops p) in
            kept l m' /\ tl_binding m' = tl_binding l /\ tl_creation m' = tl_creation l /\ tl_unbound_at m' = tl_unbound_at l) as H.
  { clear Hv Hu. induction Hops as [|op ops Ho _ IH]; intros m Hm; [done|]. cbn. apply IH. by destruct op. }
  destruct (H l) as (Hk & Hb & Hc & Hub); [done|]. split; [done|]. split; [by apply mv_quiet|]. split; [done|].
  intros _ c'. by rewrite Hc.
Qed.

Lemma patch_lawful h p :
  permitted_patch h p -> dispatches p = false ->
  lawful None h (patch_lease p)
    (fun h r => forall l', r = Ok (Some l') ->
       In l' (hv h) /\ exists l l1 rv, In l (hv h) /\ apply_lease_patch p l = Some l1 /\ l' = stamp_lease l1 rv).
Proof.
  intros Hp Hd. unfold patch_lease. cbn [tbind tcall]. apply lawful_call; [done|]. intros x h' He Hg Ht. cbn.
  destruct x as [l|e]; cbn; rewrite ?Hd; cbn.
  - intros l' [= <-]. exact Ht.
  - by destruct (optimistic_conflict e).
Qed.

Lemma forget_lawful h p :
  permitted_patch h p -> dispatches p = false -> lawful None h (patch_and_forget p) (fun _ _ => True).
Proof.
  intros Hp Hd. unfold patch_and_forget, tbind_ok. eapply lawful_bind; [by apply patch_lawful|].
  intros h' [] _ _ _; by cbn.
Qed.

(** ** The lease functions *)

Lemma lawful_map {A B} licence h (p : tprog A) (g : A -> B) P Q :
  lawful licence h p P -> (forall h' a, P h' a -> Q h' (g a)) -> lawful licence h (tbind p (fun a => TRet (g a))) Q.
Proof.
  revert licence h. induction p as [r|X q k IH]; intros licence h Hl Hf; [by apply Hf|].
  destruct Hl as [Hp Hk]. apply lawful_call; [done|]. intros x h' He Hg Ht. by apply IH; [apply Hk|].
Qed.

Lemma lifecycle_lawful {A} licence h (p : tprog (result A string)) (P : History -> A -> Prop) :
  lawful licence h p (fun h r => forall a, r = Ok a -> P h a) ->
  lawful licence h (lifecycle p) (fun h r => forall a, r = Ok a -> P h a).
Proof. intros Hl. eapply lawful_map; [exact Hl|]. intros h' [a|e] Ha a'; [|done]. by intros [= <-]; apply Ha. Qed.

Lemma lawful_ok {A B E} licence h (p : tprog (result A E)) (f : A -> tprog (result B E)) (P : History -> A -> Prop) Q :
  good h -> lawful licence h p (fun h r => forall a, r = Ok a -> P h a) ->
  (forall h' a, extends h h' -> good h' -> P h' a -> lawful None h' (f a) Q) -> (forall h' e, Q h' (Err e)) ->
  lawful licence h (tbind_ok p f) Q.
Proof.
  intros Hgood Hp Hf He. unfold tbind_ok. eapply lawful_bind; [exact Hp|]. intros h' [a|e] Hx Hg Ha; [|by apply He].
  apply Hf; [done| |by apply Ha]. destruct Hg as [-> | ?]; done.
Qed.

Lemma trivially_lawful {A} licence h (p : tprog A) Q :
  lawful licence h p Q -> lawful licence h p (fun _ _ => True).
Proof. intros Hl. by eapply lawful_weaken. Qed.

Lemma in_extends h h' l : extends h h' -> In l (hv h) -> In l (hv h').
Proof. intros (Hv&_). apply Hv. Qed.

(** A lease that was seen, with the UID and the version it had. *)
Definition seen (h : History) (l : TokenLease) (u : string) : Prop := In l (hv h) /\ tl_uid l = Some u.

Lemma seen_extends h h' l u : extends h h' -> seen h l u -> seen h' l u.
Proof. intros He [Hin Hu]. split; [by eapply in_extends|done]. Qed.

Lemma seen_name h l u : good h -> seen h l u -> tl_name l = name /\ u <> "".
Proof. intros Hg [Hin Hu]. destruct (Hg l Hin) as [Hn (v & Hv & ?)]. split; [done|]. rewrite Hu in Hv. by injection Hv as <-. Qed.

Lemma seen_attempt h l u c : good h -> seen h l u -> tl_creation l = Some c ->
  tl_mode l = VerifiedDestroy /\ exists b, tl_binding l = Some b /\ cleanup_mode b = VerifiedDestroy /\
    binding_lease_name b = name /\ attempt_ok h u b c.
Proof.
  intros Hg [Hin Hu] Hc. destruct (Hg l Hin) as [_ _ Hb Hcr _]. destruct (Hcr c Hc) as (Hm & b & Eb & Ha).
  split; [done|]. exists b. destruct (Hb b Eb) as [-> ?]. auto.
Qed.

Lemma stamped_fields l rv : tl_uid (stamp_lease l rv) = tl_uid l /\ tl_binding (stamp_lease l rv) = tl_binding l /\
  tl_creation (stamp_lease l rv) = tl_creation l /\ tl_mode (stamp_lease l rv) = tl_mode l /\
  tl_name (stamp_lease l rv) = tl_name l /\ tl_phase (stamp_lease l rv) = tl_phase l /\
  tl_unbound_at (stamp_lease l rv) = tl_unbound_at l /\ tl_version (stamp_lease l rv) = Some rv.
Proof. done. Qed.

(** What a stored attempt patch answers. *)
Lemma attempt_patched h n uid version phase attempt b c b' c' ops l' :
  ops = [OpBinding b'; OpCreation c'] \/ (b' = b /\ ops = [OpCreation c']) ->
  (In l' (hv h) /\ exists l l1 rv, In l (hv h) /\
     apply_lease_patch (attempt_patch n uid version phase attempt b c ops) l = Some l1 /\ l' = stamp_lease l1 rv) ->
  seen h l' uid /\ tl_binding l' = Some b' /\ tl_creation l' = Some c'.
Proof.
  intros Hops (Hin & l & l1 & rv & _ & Ha & ->). unfold apply_lease_patch in Ha.
  destruct (lease_tests _ l) eqn:Et; [|done]. injection Ha as <-. unfold lease_tests in Et.
  rewrite !andb_true_iff in Et. destruct Et as [[[[[[[_ Hu] _] _] _] Hb] _] _]. apply str_opt_eqb_eq in Hu.
  cbn in Hu, Hb. apply bool_decide_eq_true in Hb. unfold seen. destruct Hops as [->|[-> ->]]; cbn; auto.
Qed.

(** The outermost test of a program. *)
Ltac branch E := match goal with |- lawful _ _ (if ?x then _ else _) _ => destruct x eqn:E end.

Lemma persist_lawful h l b c i u :
  good h -> seen h l u -> landed h u i ->
  lawful None h (persist_reserved_connect_token l b c i)
    (fun h r => forall x, r = Ok (Some x) -> seen h x.1.1 u /\ tl_binding x.1.1 = Some x.1.2 /\ tl_creation x.1.1 = Some x.2 /\
       creation_phase x.2 = ConnectTokenCreationPhase.Reserved).
Proof.
  intros Hg [Hin Hu] Hl. unfold persist_reserved_connect_token. branch E; [by cbn|]. branch E'; [by cbn|].
  unfold lease_uid_for, lease_version_for. rewrite Hu. cbn [ok_or tbind tbind_ok].
  destruct (tl_version l) as [version|] eqn:Ev; [|by cbn]. cbn [ok_or tbind tbind_ok].
  rewrite !orb_false_iff in E. destruct E as [[E _] _]. apply negb_false_iff, bool_decide_eq_true in E.
  eapply (lawful_bind _ _ _ _ _); [apply patch_lawful|].
  - apply (attempt_patch_permitted _ l _ _ _ _ _ _ _ (with_connect_token b i)
      (with_token_identity c ConnectTokenCreationPhase.Reserved i)); auto.
    intros _ _. apply as_record; auto.
  - by cbn.
  - intros h' [o|e] He _ Ho; cbn; [|done]. intros [[l' b'] c']. destruct o as [l1|]; [|done]. cbn. intros [= <- <- <-].
    destruct (attempt_patched h' (binding_lease_name b) u version ClusterLeasePhase.Pending None b c
      (with_connect_token b i) (with_token_identity c ConnectTokenCreationPhase.Reserved i)
      [OpBinding (with_connect_token b i); OpCreation (with_token_identity c ConnectTokenCreationPhase.Reserved i)] l1); auto.
    by destruct_and?.
Qed.

Lemma abandon_lawful h l b u :
  good h -> seen h l u -> lawful None h (close_abandoned_pending_binding to_rfc3339 ns l b) (fun _ _ => True).
Proof.
  intros Hg Hs. unfold close_abandoned_pending_binding. destruct (tl_creation l) as [c|] eqn:Ec; [|by cbn].
  destruct (token_identity c) as [i|] eqn:Ei; [|by cbn]. branch E; [by cbn|].
  rewrite !orb_false_iff, !negb_false_iff, !bool_decide_eq_true in E. destruct E as [[_ Eb] _].
  destruct (seen_attempt _ _ _ _ Hg Hs Ec) as (_ & b0 & Eb0 & _ & Hn & Ha).
  rewrite Eb in Eb0. injection Eb0 as <-. destruct Ha as (_ & Hl & _). destruct Hs as [Hin Hu].
  unfold lease_uid_for, lease_version_for. rewrite Hu. cbn [ok_or tbind tbind_ok].
  destruct (tl_version l) as [version|] eqn:Ev; [|by cbn]. cbn [ok_or tbind tbind_ok].
  assert (is_Some (token_identity c)) by eauto.
  destruct (creation_phase c) eqn:Ep; try by cbn.
  1,2: apply forget_lawful; [|done]; eapply (attempt_patch_permitted _ l); eauto; intros _ _; apply as_advance; auto.
  rewrite Hn. eapply lawful_bind; [by apply (delete_verified_lawful _ i u), Hl|].
  intros h' check He _ Hd. cbn in Hd. destruct (verified_check check); [|by cbn]. cbn [negb]. specialize (Hd eq_refl). ask.
  apply forget_lawful; [|done]. eapply (attempt_patch_permitted _ l); eauto.
  - eapply in_extends; [|exact Hin]. by etrans.
  - intros _ _. apply (as_close _ _ _ _ i); auto. eapply dead_extends; eauto.
Qed.

Lemma clear_lawful h u b :
  good h -> (exists l, In l (hv h) /\ tl_binding l = Some b) ->
  lawful None h (clear_lease_binding_intent to_rfc3339 ns u b) (fun _ _ => True).
Proof.
  intros Hg (l0 & Hin0 & Hb0). unfold clear_lease_binding_intent.
  destruct (lo_binding _ _ (Hg l0 Hin0) b Hb0) as [_ Hn]. ask. destruct x as [l|e]; [|by cbn].
  specialize (Ht Hn). branch E; [by cbn|]. apply negb_false_iff in E. unfold clear_intent_applies in E.
  rewrite !andb_true_iff, str_opt_eqb_eq, !bool_decide_eq_true in E. destruct E as [[Eu Eb] _].
  unfold lease_version_for. destruct (tl_version l) as [version|] eqn:Ev; [|by cbn]. cbn [ok_or tbind tbind_ok].
  assert (tl_binding l = Some b) as Hb.
  { unfold tl_binding, tl_status. destruct (lease_status (tl_lease l)); [exact Eb|done]. }
  destruct (cleanup_mode b) eqn:Em; cbn [requires_receipt]; [|by apply (abandon_lawful _ _ _ u)].
  apply forget_lawful; [|done]. exists l. cbn. repeat (split; [done|]). intros l' Ha.
  apply apply_tests in Ha as (-> & _). cbn. split; [done|]. destruct (Hg0 l Ht) as [_ _ Hlb _ _].
  destruct (Hlb b Hb) as [Hmode _]. split; [apply mv_clear; [congruence|done..]|]. split; [done|]. by intros _ c' Hc' _.
Qed.

Definition reserved_at (h : History) (u : string) (x : TokenLease * LeaseBinding * ConnectTokenCreation) : Prop :=
  seen h x.1.1 u /\ tl_binding x.1.1 = Some x.1.2 /\ tl_creation x.1.1 = Some x.2 /\
  (creation_phase x.2 = ConnectTokenCreationPhase.Reserved \/ creation_phase x.2 = ConnectTokenCreationPhase.Ready).

Lemma reserve_token_lawful h l b c u :
  good h -> seen h l u -> tl_binding l = Some b -> tl_creation l = Some c ->
  lawful None h (reserve_token to_rfc3339 ns l b c u) (fun h r => forall x, r = Ok (Some x) -> reserved_at h u x).
Proof.
  intros Hg Hs Hb Hc. pose proof (seen_name _ _ _ Hg Hs) as [Hn Hne]. unfold reserve_token.
  assert (forall h' l b c i, good h' -> seen h' l u -> landed h' u i ->
    lawful None h' (persist_reserved_connect_token l b c i) (fun h r => forall x, r = Ok (Some x) -> reserved_at h u x)) as Hp.
  { intros h' l' b' c' i Hg' Hs' Hi. eapply lawful_weaken; [by apply (persist_lawful _ _ _ _ _ u)|].
    intros h2 r _ Hr x Hx. destruct (Hr x Hx) as (? & ? & ? & ?). split_and!; auto. }
  destruct (creation_phase c) eqn:Ep.
  - branch E; [by cbn|]. unfold lease_version_for. destruct (tl_version l) as [version|] eqn:Ev; [|by cbn].
    cbn [ok_or tbind tbind_ok patch_lease tcall]. apply lawful_call.
    { eapply (attempt_patch_permitted _ l); [apply Hs|apply Hs|done|auto|]. intros _ _. by apply as_dispatch. }
    intros x h' He Hg' Ht. cbn [next_licence tbind]. destruct x as [d|e]; [|by destruct (optimistic_conflict e)].
    assert (seen h' d u /\ tl_binding d = Some b /\ tl_creation d = Some (creation_at c ConnectTokenCreationPhase.Creating (verified_absent_at c)))
      as (Hd & Hdb & Hdc) by (eapply attempt_patched; [|exact Ht]; auto).
    rewrite Hdc. cbn [creation_phase creation_at]. rewrite bool_decide_true by done. cbn [negb].
    change (next_licence _ _ _) with (Some u). destruct (seen_name _ _ _ Hg' Hd) as [Hdn _].
    eapply lawful_ok; [done|apply lifecycle_lawful, reserve_lawful; [done|apply Hd|done]| |by cbn].
    intros h2 i He2 Hg2 Hi. apply Hp; [done|by eapply seen_extends|done].
  - branch E; [by cbn|]. eapply lawful_ok; [done| | |by cbn].
    + apply (lifecycle_lawful _ _ _ (fun h o => forall i, o = Some i -> landed h u i)).
      eapply lawful_weaken; [apply (observe_lawful _ _ _ u); [done|apply Hs]|].
      intros h' r _ Hr o -> i ->. by apply Hr.
    + intros h' [i|] He Hg' Hi; [|by cbn]. apply Hp; [done|by eapply seen_extends|by apply Hi].
  - cbn. destruct (bool_decide _); [|done]. intros x [= <-]. split_and!; cbn; auto.
  - cbn. destruct (bool_decide _); [|done]. intros x [= <-]. split_and!; cbn; auto.
  - apply (lawful_ok _ _ _ _ (fun _ _ => True)); [done| | |by cbn].
    + eapply lawful_weaken; [by apply (abandon_lawful _ _ _ u)|]. by intros.
    + by cbn.
  - by cbn.
Qed.

Lemma finish_token_lawful h x u :
  good h -> reserved_at h u x -> lawful None h (finish_token ns x.1.1 x.1.2 x.2 u) (fun _ _ => True).
Proof.
  destruct x as [[l b] c]. intros Hg (Hs & Hb & Hc & Hp). cbn in Hs, Hb, Hc, Hp. cbn [fst snd]. unfold finish_token.
  destruct (seen_name _ _ _ Hg Hs) as [Hn Hne]. destruct (seen_attempt _ _ _ _ Hg Hs Hc) as (_ & b0 & Eb & Hm & Hbn & Ha).
  rewrite Hb in Eb. injection Eb as <-. branch E.
  - eapply lawful_ok; [done| | |done].
    + apply (lifecycle_lawful _ _ _ (fun _ _ => True)). eapply lawful_weaken; [apply (ensure_lawful _ _ _ u)|]; auto.
      * apply Hs.
      * rewrite Hm. done.
    + by cbn.
  - apply bool_decide_eq_false in E. destruct Hp as [Hp|?]; [|done].
    eapply lawful_ok; [done| | |done].
    { apply (lifecycle_lawful _ _ _ (fun _ _ => True)). eapply lawful_weaken; [apply activate_lawful|]; auto. }
    intros h' _ He Hg' _. ask. destruct x as [cur|e]; [|by cbn]. cbn [lift_kube tbind tbind_ok].
    branch E'; [by cbn|]. rewrite !orb_false_iff, !negb_false_iff, !bool_decide_eq_true, str_opt_eqb_eq in E'.
    destruct E' as [[[Ecc Ecu] _] Ecb]. unfold lease_version_for. destruct (tl_version cur) eqn:Ev; [|by cbn].
    cbn [ok_or tbind tbind_ok]. apply (lawful_bind _ _ _ _ (fun _ _ => True)).
    + eapply trivially_lawful, patch_lawful; [|done]. eapply (attempt_patch_permitted _ cur); eauto.
      intros _ _. apply as_advance; [|by auto]. destruct Ha as (_ & _ & Hph). by rewrite Hp in Hph.
    + intros h2 [] _ _ _; by cbn.
Qed.

Lemma complete_lawful h l b u :
  good h -> seen h l u -> lawful None h (complete_connect_token_creation to_rfc3339 ns l b) (fun _ _ => True).
Proof.
  intros Hg Hs. unfold complete_connect_token_creation. destruct (tl_creation l) as [c|] eqn:Ec; [|by cbn].
  branch E; [by cbn|]. rewrite !orb_false_iff, !negb_false_iff, !bool_decide_eq_true in E. destruct E as [[_ Eb] _].
  unfold lease_uid_for. destruct Hs as [Hin Hu]. rewrite Hu. cbn [ok_or tbind tbind_ok].
  eapply lawful_ok; [done| | |done].
  - eapply lawful_weaken; [by apply (reserve_token_lawful _ _ _ _ u)|]. intros h' r _ Hr o ->.
    instantiate (1 := fun h o => forall x, o = Some x -> reserved_at h u x). intros x ->. by apply Hr.
  - intros h' [x|] He Hg' Hx; [|by cbn]. destruct x as [[l' b'] c']. apply (finish_token_lawful h' (l', b', c')); auto.
Qed.

(** The binding a lease is given: of its mode and its name, without a token. *)
Definition fresh_binding (l : TokenLease) (b : LeaseBinding) : Prop :=
  cleanup_mode b = tl_mode l /\ binding_lease_name b = name /\ connect_token b = None.

Lemma intent_permitted h l u version b ops :
  In l (hv h) -> tl_uid l = Some u -> tl_version l = Some version -> tl_binding l = None -> fresh_binding l b ->
  (cleanup_mode b = VerifiedDestroy /\ exists a, ops = [OpCreation (prepared a)]) \/ (cleanup_mode b = Standard /\ ops = []) ->
  permitted_patch h {| lp_name := tl_name l; lp_uid := u; lp_version := version;
                       lp_phase := Some ClusterLeasePhase.Pending; lp_binding := None; lp_creation := None;
                       lp_attempt := None; lp_ops := OpBinding b :: ops |}.
Proof.
  intros Hin Hu Hv Hb (Hm & Hn & Ht) Hops. exists l. cbn. repeat (split; [done|]). intros l' Ha.
  apply apply_tests in Ha as (-> & _ & _ & Hp). apply tested_some in Hp.
  assert (tl_phase l = ClusterLeasePhase.Pending) as Hph.
  { unfold tl_phase, tl_status. destruct (lease_status (tl_lease l)); [|done]. cbn in *. by injection Hp. }
  rewrite Hm in Hops. destruct Hops as [[Hv' [a ->]]|[Hs' ->]]; cbn.
  - split; [done|]. split; [|by split; [|intros _ c' [= <-]]]. apply (mv_intent _ _ _ _ b); auto. left. eauto.
  - split; [done|]. split; [|by split; [|intros _ c' Hc' _]]. apply (mv_intent _ _ _ _ b); auto.
Qed.

Lemma intent_lawful h l b u :
  good h -> seen h l u -> tl_binding l = None -> fresh_binding l b ->
  lawful None h (write_binding_intent to_rfc3339 ns l b) (fun _ _ => True).
Proof.
  intros Hg [Hin Hu] Hb Hf. unfold write_binding_intent, lease_uid_for, lease_version_for. rewrite Hu.
  cbn [ok_or tbind tbind_ok]. destruct (tl_version l) as [version|] eqn:Ev; [|by cbn]. cbn [ok_or tbind tbind_ok].
  destruct (cleanup_mode b) eqn:Em; cbn [requires_receipt].
  - apply (lawful_bind _ _ _ _ (fun _ _ => True)).
    + eapply trivially_lawful, patch_lawful; [|done]. apply intent_permitted; auto.
    + intros h' [] _ _ _; by cbn.
  - ask. rename x into a. eapply lawful_ok; [done| | |done].
    + eapply lawful_weaken; [apply patch_lawful; [|done]|].
      { apply intent_permitted; eauto using in_extends. }
      intros h2 r _ Hr o ->. instantiate (1 := fun h o => forall l', o = Some l' -> seen h l' u). intros l' ->.
      destruct (Hr l' eq_refl) as (Hin' & l1 & l2 & rv & _ & Ha & ->). split; [done|]. unfold apply_lease_patch in Ha.
      destruct (lease_tests _ l1) eqn:Et; [|done]. injection Ha as <-. unfold lease_tests in Et.
      rewrite !andb_true_iff in Et. destruct Et as [[[[[[[_ Hu'] _] _] _] _] _] _]. by apply str_opt_eqb_eq in Hu'.
    + intros h2 [l'|] He2 Hg2 Hl'; [|by cbn]. apply (lawful_ok _ _ _ _ (fun _ _ => True)); [done| | |done].
      * eapply lawful_weaken; [apply (complete_lawful _ _ _ u); auto|]. by intros.
      * by cbn.
Qed.

(** ** Release *)

(** A program that returns nothing of interest. *)
Ltac nothing := by cbn; intros; simplify_eq.

Lemma close_move_lawful h l b c u :
  good h -> seen h l u -> tl_binding l = Some b -> tl_creation l = Some c ->
  lawful None h (close_move to_rfc3339 ns l b c)
    (fun h r => forall x, r = Ok x -> forall y, x = Some y ->
       attempt_step h u b c y.1 y.2 /\ creation_phase y.2 <> ConnectTokenCreationPhase.Creating).
Proof.
  intros Hg Hs Hb Hc. destruct (seen_name _ _ _ Hg Hs) as [Hn _].
  destruct (seen_attempt _ _ _ _ Hg Hs Hc) as (_ & b0 & Eb & _ & Hbn & _ & Hl & Hp).
  rewrite Hb in Eb. injection Eb as <-. unfold close_move. destruct (creation_phase c) eqn:Ep.
  - branch E; [nothing|]. ask. cbn. intros o [= <-] y [= <-]. split; [by apply as_abandon|done].
  - branch E; [nothing|]. eapply lawful_ok; [done| | |by cbn].
    + apply (lifecycle_lawful _ _ _ (fun h o => forall i, o = Some i -> landed h u i)).
      eapply lawful_weaken; [apply (observe_lawful _ _ _ u); [done|apply Hs]|].
      intros h' r _ Hr o -> i ->. by apply Hr.
    + intros h' [i|] He Hg' Hi; cbn; intros o [= <-] y; [intros [= <-]|done]. split; [apply as_record; auto|done].
  - cbn. destruct (_ || _); [done|]. intros o [= <-] y [= <-]. split; [apply as_advance; auto|done].
  - cbn. destruct (_ || _); [done|]. intros o [= <-] y [= <-]. split; [apply as_advance; auto|done].
  - destruct (token_identity c) as [i|] eqn:Ei; [|nothing]. branch E; [nothing|]. unfold lease_uid_for.
    destruct Hs as [Hin Hu]. rewrite Hu. cbn [ok_or tbind tbind_ok]. rewrite Hbn.
    eapply lawful_bind; [by apply (delete_verified_lawful _ i u), Hl|]. intros h' check He _ Hd. cbn in Hd.
    destruct (verified_check check); [|nothing]. specialize (Hd eq_refl). cbn [negb]. ask. cbn.
    intros o [= <-] y [= <-]. split; [|done]. apply (as_close _ _ _ _ i); auto. by eapply dead_extends.
  - nothing.
Qed.

Lemma close_terminal_lawful h l b u :
  good h -> seen h l u ->
  lawful None h (close_terminal_connect_token_creation parse_rfc3339 to_rfc3339 ns l b)
    (fun h r => forall x, r = Ok x -> forall y, x = Some y -> y.1 = l).
Proof.
  intros Hg Hs. unfold close_terminal_connect_token_creation. destruct (tl_creation l) as [c|] eqn:Ec; [|nothing].
  destruct (nonblank_attempt l) as [t|]; [|nothing]. branch E; [nothing|].
  rewrite !orb_false_iff, !negb_false_iff, !bool_decide_eq_true in E. destruct E as [[_ Eb] _]. branch E'.
  - cbn. destruct (_ || _); [done|]. by intros o [= <-] y [= <-].
  - eapply lawful_ok; [done|by apply (close_move_lawful _ _ _ _ u)| |by cbn].
    intros h' [[b' c']|] He Hg' Hm; [|nothing]. specialize (Hm _ eq_refl). cbn in Hm. destruct Hs as [Hin Hu].
    unfold lease_uid_for, lease_version_for. rewrite Hu. cbn [ok_or tbind tbind_ok].
    destruct (tl_version l) as [version|] eqn:Ev; [|nothing]. cbn [ok_or tbind tbind_ok].
    destruct Hm as [Hm Hd].
    apply (lawful_bind _ _ _ _ (fun _ _ => True)).
    + eapply trivially_lawful, patch_lawful; [eapply (attempt_patch_permitted _ l); eauto using in_extends|].
      cbn. by rewrite bool_decide_false.
    + intros h2 [] _ _ _; nothing.
Qed.

Lemma trivial_ok {A B E} licence h (p : tprog (result A E)) (f : A -> tprog (result B E)) :
  good h -> lawful licence h p (fun _ _ => True) ->
  (forall h' a, extends h h' -> good h' -> lawful None h' (f a) (fun _ _ => True)) ->
  lawful licence h (tbind_ok p f) (fun _ _ => True).
Proof.
  intros Hg Hp Hf. apply (lawful_ok _ _ _ _ (fun _ _ => True)); [done| |auto|done].
  eapply lawful_weaken; [exact Hp|]. by intros.
Qed.

Lemma trivial_lifecycle {A} h (p : tprog (result A string)) P :
  lawful None h p P -> lawful None h (lifecycle p) (fun _ _ => True).
Proof. intros Hp. by eapply lawful_map. Qed.

Lemma quiet_lawful h l u version ops :
  seen h l u -> tl_version l = Some version ->
  Forall (fun op => match op with OpAttempt _ | OpMessage _ => True | _ => False end) ops ->
  forall phase, lawful None h
    (patch_and_forget {| lp_name := tl_name l; lp_uid := u; lp_version := version; lp_phase := phase; lp_binding := None;
                         lp_creation := None; lp_attempt := None; lp_ops := ops |}) (fun _ _ => True).
Proof.
  intros [Hin Hu] Hv Hops phase. apply forget_lawful; [by apply (quiet_patch_permitted _ l)|].
  unfold dispatches. cbn. induction Hops as [|[] ops Ho _ IH]; cbn; done.
Qed.

Lemma mark_lawful h l u : seen h l u -> lawful None h (mark_binding_unverified l) (fun _ _ => True).
Proof.
  intros Hs. unfold mark_binding_unverified. branch E; [by cbn|]. unfold lease_uid_for, lease_version_for.
  rewrite (proj2 Hs). cbn [ok_or tbind tbind_ok]. destruct (tl_version l) as [version|] eqn:Ev; [|by cbn].
  cbn [ok_or tbind tbind_ok]. apply quiet_lawful; auto.
Qed.

Lemma unverified_lawful h l u secs :
  good h -> seen h l u -> lawful None h (unverified_then_requeue l secs) (fun _ _ => True).
Proof. intros Hg Hs. apply trivial_ok; [done|by apply (mark_lawful _ _ u)|by cbn]. Qed.

Lemma persist_attempt_lawful h l u : seen h l u -> lawful None h (persist_teardown_attempt l) (fun _ _ => True).
Proof.
  intros Hs. unfold persist_teardown_attempt, lease_uid_for, lease_version_for.
  rewrite (proj2 Hs). cbn [ok_or tbind tbind_ok]. destruct (tl_version l) as [version|] eqn:Ev; [|by cbn].
  cbn [ok_or tbind tbind_ok]. ask. unfold status_patch. apply quiet_lawful; auto. by eapply seen_extends.
Qed.

Lemma ensure_attempt_lawful separate h l u :
  good h -> seen h l u -> lawful None h (ensure_unbound_release_attempt separate l) (fun _ _ => True).
Proof.
  intros Hg Hs. unfold ensure_unbound_release_attempt. destruct (nonblank_attempt l); [by cbn|].
  branch E; [by cbn|]. destruct separate; [by cbn|]. apply trivial_ok; [done|by apply (persist_attempt_lawful _ _ u)|by cbn].
Qed.

Lemma observation_lawful h l :
  lawful None h (authority_never_bound_observation parse_rfc3339 to_rfc3339 ns l) (fun _ _ => True).
Proof.
  unfold authority_never_bound_observation, no_instance_names, observe_lease_connect_token_absent,
    deterministic_connect_token_name_is_absent, lease_uid_for, lift_kube, ok_or. walk.
  destruct (require_identity_shape _ _ _); walk.
Qed.

Lemma await_lawful h attempts i : lawful None h (await_absence attempts i) (fun _ _ => True).
Proof.
  revert h. induction attempts as [|m IH]; intros h; [by cbn|]. cbn [await_absence]. ask. destruct x; [|by cbn].
  destruct (str_opt_eqb _ _); [apply IH|by cbn].
Qed.

Lemma delete_any_lawful h n u i : lawful None h (delete_lease_connect_token_verified ns n u i) (fun _ _ => True).
Proof.
  unfold delete_lease_connect_token_verified. apply (lawful_bind _ _ _ _ (fun _ _ => True)); [|by cbn].
  cbn [tbind tbind_ok]. destruct (require_identity_shape ns i n); [|by cbn]. cbn [tbind tbind_ok]. ask.
  destruct x as [s|e]; [|destruct (is_404 e); [apply await_lawful|by cbn]]. destruct (let? _ := _ in _); [|by cbn]. ask.
  destruct x as [|e]; [apply await_lawful|]. destruct (is_404 e); [apply await_lawful|by cbn].
Qed.

Lemma delete_unbound_lawful h n u : lawful None h (delete_unbound_lease_connect_token_verified ns n u) (fun _ _ => True).
Proof.
  unfold delete_unbound_lease_connect_token_verified. ask.
  destruct x as [s|]; [|by cbn]. destruct (let? _ := _ in _) as [i|]; [|by cbn].
  apply (lawful_bind _ _ _ _ (fun _ _ => True)); [apply delete_any_lawful|by cbn].
Qed.

Lemma delete_lawful h n u : lawful None h (delete_lease_connect_token n u) (fun _ _ => True).
Proof. unfold delete_lease_connect_token. walk. Qed.

Lemma validate_lawful h n presented : lawful None h (validate_lease_connect_token ns n presented) (fun _ _ => True).
Proof. unfold validate_lease_connect_token. walk. Qed.

Lemma observe_absent_lawful h n i : lawful None h (observe_lease_connect_token_absent ns n i) (fun _ _ => True).
Proof.
  unfold observe_lease_connect_token_absent. cbn [tbind tbind_ok tcall].
  destruct (require_identity_shape ns i n); walk.
Qed.

(** What is retained without a proof of a bound instance never left [Prepared]. *)
Lemma retained_unstarted h l u :
  good h -> seen h l u ->
  is_some (tl_binding l) && negb (retained_unstarted_binding_matches_lease parse_rfc3339 l) = false -> unstarted l.
Proof.
  intros Hg Hs Hr. unfold unstarted. destruct (tl_creation l) as [c|] eqn:Ec; [|done].
  destruct (seen_attempt _ _ _ _ Hg Hs Ec) as (_ & b & Eb & _). rewrite Eb in Hr. cbn in Hr.
  apply negb_false_iff in Hr. unfold retained_unstarted_binding_matches_lease in Hr. rewrite Eb in Hr.
  rewrite !andb_true_iff in Hr. destruct Hr as [[[[[[[[Hr _] _] _] _] _] _] _] _].
  unfold retained_unstarted_binding_is_closed in Hr. rewrite Eb, Ec in Hr. rewrite !andb_true_iff in Hr.
  destruct Hr as [[[[_ Hp] Hi] _] _]. apply bool_decide_eq_true in Hp. split; [done|].
  by destruct (token_identity c).
Qed.

Lemma record_lawful h l u attempt at_ :
  good h -> seen h l u -> is_terminal_phase (tl_phase l) = true ->
  lawful None h (record_unbound_release_proof parse_rfc3339 l attempt at_) (fun _ _ => True).
Proof.
  intros Hg Hs Hp. unfold record_unbound_release_proof. branch E; [by cbn|]. rewrite !orb_false_iff in E.
  destruct E as [[[_ _] E] _]. pose proof (retained_unstarted _ _ _ Hg Hs E) as Hun. destruct Hs as [Hin Hu].
  unfold lease_uid_for, lease_version_for. rewrite Hu. cbn [ok_or tbind tbind_ok].
  destruct (tl_version l) as [version|] eqn:Ev; [|by cbn]. cbn [ok_or tbind tbind_ok].
  apply forget_lawful; [|done]. exists l. cbn. repeat (split; [done|]). intros l' Ha.
  apply apply_tests in Ha as (-> & _). split; [done|]. split; [by apply mv_proof|]. split; [done|]. by intros _ c' Hc' _.
Qed.

Lemma never_bound_lawful separate h l u :
  good h -> seen h l u -> is_terminal_phase (tl_phase l) = true ->
  lawful None h (never_bound_stage parse_rfc3339 to_rfc3339 ns separate l) (fun _ _ => True).
Proof.
  intros Hg Hs Hp. unfold never_bound_stage. branch E; [by cbn|]. branch E'; [by cbn|].
  branch E''; [by apply (unverified_lawful _ _ u)|]. apply trivial_ok; [done| |].
  - destruct (tl_creation l); [by cbn|]. unfold lease_uid_for. rewrite (proj2 Hs). cbn [ok_or tbind tbind_ok].
    eapply trivial_lifecycle, delete_unbound_lawful.
  - intros h' _ He Hg'. destruct separate; [by cbn|]. apply trivial_ok; [done|apply observation_lawful|].
    intros h2 [at_|] He2 Hg2; [|by cbn]. apply trivial_ok; [done| |by cbn]. apply (record_lawful _ _ u); [done| |done].
    eapply seen_extends; [|exact Hs]. by etrans.
Qed.

Lemma terminate_lawful separate h l u :
  good h -> seen h l u -> is_terminal_phase (tl_phase l) = true ->
  lawful None h (terminate_verified parse_rfc3339 to_rfc3339 ns separate l) (fun _ _ => True).
Proof.
  intros Hg Hs Hp. unfold terminate_verified. branch E; [by apply (unverified_lawful _ _ u)|].
  apply trivial_ok; [done|by apply (ensure_attempt_lawful _ _ _ u)|]. intros h' [a|] He Hg'; [|by cbn].
  destruct (tl_binding l) as [b|]; [|apply (never_bound_lawful _ _ _ u); eauto using seen_extends].
  eapply lawful_ok; [done|apply (close_terminal_lawful _ _ _ u); eauto using seen_extends| |done].
  intros h2 [[l' b']|] He2 Hg2 Hl; [|by cbn]. specialize (Hl _ eq_refl). cbn in Hl. subst l'.
  assert (seen h2 l u) by (eapply seen_extends; [|exact Hs]; by etrans).
  branch E'; [by apply (never_bound_lawful _ _ _ u)|]. cbn [tbind_ok tbind tcall]. ask. destruct x as [o|]; [|by cbn].
  branch E''; [apply (never_bound_lawful _ _ _ u)|apply (unverified_lawful _ _ u)]; eauto using seen_extends.
Qed.

Lemma authority_lawful h l u :
  good h -> seen h l u -> lawful None h (reconcile_release_authority parse_rfc3339 to_rfc3339 ns l) (fun _ _ => True).
Proof.
  intros Hg Hs. unfold reconcile_release_authority. branch E; [by cbn|]. rewrite !orb_false_iff, !negb_false_iff in E.
  destruct E as [[[[_ Hp] _] _] _]. destruct (tl_attempt l) as [a|].
  - branch E1; [by cbn|]. branch E2; [by cbn|]. branch E3; [by cbn|].
    apply trivial_ok; [done|apply observation_lawful|]. intros h' [at_|] He Hg'; [|by cbn].
    apply trivial_ok; [done|apply (record_lawful _ _ u); eauto using seen_extends|by cbn].
  - branch E1; [by cbn|]. apply trivial_ok; [done|by apply (persist_attempt_lawful _ _ u)|by cbn].
Qed.
End System.
