(* ===== verification/TokenWorld.v ===== *)
(** * The cluster in which the token programs run

    One lease name, its Secret, and any number of token programs over them.  A
    program may read a lease from long ago, a request may be answered with an
    error and arrive later or not at all, a process may die between two
    requests, and the lease and the Secret are written and deleted by others.
    The invariant keeps a ticket per lease: who may still send its one POST, or
    which Secret that POST made. *)

From S2P Require Import Prelude Text Teardown StateMachine Objects LeaseBinding LeaseController LedgerApi ConnectToken TokenSystem.

Local Open Scope kobe_scope.

Record TokenWorld : Type := {
  lease_now : option TokenLease;
  secret_now : option Secret;
  past : History;
  running : gmap nat (tprog unit);
}.

Section World.
Context (parse_rfc3339 : string -> option Z) (to_rfc3339 : Z -> string) (ns name : string).

(** ** The stored objects *)

Definition store_lease (w : TokenWorld) (l : TokenLease) : TokenWorld :=
  {| lease_now := Some l; secret_now := secret_now w;
     past := {| hv := l :: hv (past w); hs := hs (past w); hd := hd (past w) |}; running := running w |}.

Definition no_lease (w : TokenWorld) : TokenWorld :=
  {| lease_now := None; secret_now := secret_now w; past := past w; running := running w |}.

Definition store_secret (w : TokenWorld) (s : Secret) : TokenWorld :=
  {| lease_now := lease_now w; secret_now := Some s;
     past := {| hv := hv (past w); hs := s :: hs (past w); hd := hd (past w) |}; running := running w |}.

Definition drop_secret (w : TokenWorld) (u : string) : TokenWorld :=
  {| lease_now := lease_now w; secret_now := None;
     past := {| hv := hv (past w); hs := hs (past w); hd := u :: hd (past w) |}; running := running w |}.

Definition with_running (w : TokenWorld) (r : gmap nat (tprog unit)) : TokenWorld :=
  {| lease_now := lease_now w; secret_now := secret_now w; past := past w; running := r |}.

Definition fresh_version (h : History) (rv : string) : Prop := forall l, In l (hv h) -> tl_version l <> Some rv.

(** The server never gives a UID twice. *)
Definition fresh_secret (h : History) (u : string) : Prop :=
  ~ In u (hd h) /\ forall s, In s (hs h) -> sec_uid s <> Some u.

Definition stamp_secret (s : Secret) (u rv : string) : Secret :=
  {| sec_name := sec_name s; sec_uid := Some u; sec_version := Some rv; sec_owners := sec_owners s;
     sec_annotations := sec_annotations s; sec_token := sec_token s |}.

Definition with_token (s : Secret) (rv token : string) : Secret :=
  {| sec_name := sec_name s; sec_uid := sec_uid s; sec_version := Some rv; sec_owners := sec_owners s;
     sec_annotations := sec_annotations s; sec_token := Some token |}.

Definition failed {A E} (r : result A E) : Prop := exists e, r = Err e.

(** What a request may be answered and what it leaves behind.  A write that took
    effect may be answered with an error. *)
Definition serve (w : TokenWorld) {X} (q : treq X) : X -> TokenWorld -> Prop :=
  match q with
  | TqGetLease n => fun x w' =>
      w' = w /\ match x with Ok l => n = name -> lease_now w = Some l | Err _ => True end
  | TqGetSecret n => fun x w' =>
      w' = w /\ match x with
                | Ok s => n = connect_secret_name name -> secret_now w = Some s
                | Err e => is_404 e = true -> n = connect_secret_name name -> secret_now w = None
                end
  | TqCreateSecret s => fun x w' =>
      (w' = w /\ (failed x \/ sec_name s <> Some (connect_secret_name name))) \/
      (secret_now w = None /\ sec_name s = Some (connect_secret_name name) /\
       exists u rv, fresh_secret (past w) u /\ w' = store_secret w (stamp_secret s u rv) /\
                    (x = Ok (stamp_secret s u rv) \/ failed x))
  | TqPatchLease p => fun x w' =>
      (w' = w /\ failed x) \/
      (exists l l' rv, lease_now w = Some l /\ apply_lease_patch p l = Some l' /\ fresh_version (past w) rv /\
                       w' = store_lease w (stamp_lease l' rv) /\ (x = Ok (stamp_lease l' rv) \/ failed x))
  | TqDeleteSecret n u version => fun x w' =>
      w' = w \/
      (exists s, secret_now w = Some s /\ n = connect_secret_name name /\ sec_uid s = Some u /\
                 (forall rv, version = Some rv -> sec_version s = Some rv) /\ w' = drop_secret w u)
  | TqInstallToken n u version token => fun x w' =>
      w' = w \/
      (exists s rv, secret_now w = Some s /\ n = connect_secret_name name /\ sec_uid s = Some u /\
                    sec_version s = Some version /\ w' = store_secret w (with_token s rv token))
  | _ => fun _ w' => w' = w
  end.

(** The answer to a write whose fate is unknown. *)
Definition unanswered {X} (q : treq X) : X -> Prop :=
  match q with
  | TqCreateSecret _ | TqPatchLease _ | TqDeleteSecret _ _ _ | TqInstallToken _ _ _ _ => failed
  | _ => fun _ => False
  end.

(** ** Programs *)

Definition ignore {A} (p : tprog A) : tprog unit := tbind p (fun _ => TRet tt).

(** What may be started, on any version of the lease that was ever stored. *)
Inductive entry (h : History) : tprog unit -> Prop :=
| en_intent l u b : seen h l u -> tl_binding l = None -> fresh_binding name l b ->
    entry h (ignore (write_binding_intent to_rfc3339 ns l b))
| en_complete l u b : seen h l u -> entry h (ignore (complete_connect_token_creation to_rfc3339 ns l b))
| en_clear l u b : In l (hv h) -> tl_binding l = Some b -> entry h (ignore (clear_lease_binding_intent to_rfc3339 ns u b))
| en_terminate separate l u : seen h l u -> is_terminal_phase (tl_phase l) = true ->
    entry h (ignore (terminate_verified parse_rfc3339 to_rfc3339 ns separate l))
| en_authority l u : seen h l u -> entry h (ignore (reconcile_release_authority parse_rfc3339 to_rfc3339 ns l))
| en_ensure l u b : seen h l u -> tl_binding l = Some b -> entry h (ignore (ensure_lease_connect_token ns l b))
| en_validate n presented : entry h (ignore (validate_lease_connect_token ns n presented))
| en_delete n u : entry h (ignore (delete_lease_connect_token n u))
| en_delete_verified n u i : entry h (ignore (delete_lease_connect_token_verified ns n u i))
| en_observe n i : entry h (ignore (observe_lease_connect_token_absent ns n i)).

(** ** The rest of the cluster *)

Record new_lease (h : History) (l : TokenLease) : Prop := {
  nl_name : tl_name l = name;
  nl_uid : exists u, tl_uid l = Some u /\ u <> "" /\ forall l', In l' (hv h) -> tl_uid l' <> Some u;
  nl_version : exists rv, tl_version l = Some rv /\ fresh_version h rv;
  nl_binding : tl_binding l = None;
  nl_creation : tl_creation l = None;
  nl_unbound : tl_unbound_at l = None;
}.

(** A write of the lease by anyone else: phases, conditions, annotations,
    finalizers, the receipt; of a lease without attempts also the binding. *)
Record elsewhere (h : History) (l l' : TokenLease) : Prop := {
  ew_name : tl_name l' = tl_name l;
  ew_uid : tl_uid l' = tl_uid l;
  ew_mode : tl_mode l' = tl_mode l;
  ew_version : exists rv, tl_version l' = Some rv /\ fresh_version h rv;
  ew_creation : tl_creation l' = tl_creation l;
  ew_unbound : tl_unbound_at l' = tl_unbound_at l;
  ew_binding : tl_binding l' = tl_binding l \/
    (tl_mode l = Standard /\
     forall b, tl_binding l' = Some b -> cleanup_mode b = Standard /\ binding_lease_name b = name);
  ew_left : tl_phase l' = ClusterLeasePhase.Pending -> tl_phase l = ClusterLeasePhase.Pending;
}.

Inductive tstep (w : TokenWorld) : TokenWorld -> Prop :=
| ts_start k p : running w !! k = None -> entry (past w) p -> tstep w (with_running w (<[k := p]> (running w)))
| ts_serve k X (q : treq X) c x w' : running w !! k = Some (TCall q c) -> serve w q x w' ->
    tstep w (with_running w' (<[k := c x]> (running w)))
| ts_late k j X (q : treq X) c x : running w !! k = Some (TCall q c) -> running w !! j = None -> unanswered q x ->
    tstep w (with_running w (<[j := TCall q (fun _ => TRet tt)]> (<[k := c x]> (running w))))
| ts_die k : tstep w (with_running w (delete k (running w)))
| ts_create_lease l : lease_now w = None -> new_lease (past w) l -> tstep w (store_lease w l)
| ts_write_lease l l' : lease_now w = Some l -> elsewhere (past w) l l' -> tstep w (store_lease w l')
| ts_delete_lease : tstep w (no_lease w)
| ts_collect s u : secret_now w = Some s -> sec_uid s = Some u -> tstep w (drop_secret w u)
| ts_edit_secret s s' : secret_now w = Some s -> sec_uid s' = sec_uid s -> sec_owners s' = sec_owners s ->
    tstep w (store_secret w s')
| ts_foreign s u : secret_now w = None -> sec_uid s = Some u -> fresh_secret (past w) u ->
    connect_token_owner_uid s name = None -> tstep w (store_secret w s).

Definition empty_world : TokenWorld :=
  {| lease_now := None; secret_now := None; past := {| hv := []; hs := []; hd := [] |}; running := ∅ |}.

Definition reachable (w : TokenWorld) : Prop := rtc tstep empty_world w.
(** ** The invariant *)

(** Who was given the POST of a lease, task [k]; or the Secret it made. *)
Inductive Ticket : Type := Held (k : nat) | Landed (uid : string).

#[local] Abbreviation owned := (owned name).
#[local] Abbreviation landed := (landed ns name).
#[local] Abbreviation good := (good ns name).
#[local] Abbreviation move := (move ns name).

(** No POST was ever sent for the lease, and none will be. *)
Definition never (p : TokenLease) : Prop :=
  match tl_creation p with
  | None => tl_phase p <> ClusterLeasePhase.Pending
  | Some c => creation_phase c = ConnectTokenCreationPhase.Closed /\ token_identity c = None
  end.

(** The licence for the POST was given. *)
Definition begun (p : TokenLease) : Prop :=
  exists c, tl_creation p = Some c /\ creation_phase c <> ConnectTokenCreationPhase.Prepared /\
            (creation_phase c = ConnectTokenCreationPhase.Closed -> is_Some (token_identity c)).

(** It was not given yet. *)
Definition waiting (l : TokenLease) : Prop :=
  match tl_creation l with None => True | Some c => creation_phase c = ConnectTokenCreationPhase.Prepared end.

(** What a stored version of verified lease [u] says of its ticket. *)
Record past_ok (T : gmap string Ticket) (u : string) (p : TokenLease) : Prop := {
  po_never : never p -> T !! u = None;
  po_begun : begun p -> is_Some (T !! u);
  po_identity : forall c i, tl_creation p = Some c -> token_identity c = Some i -> T !! u = Some (Landed (Teardown.uid i));
  po_unbound : is_Some (tl_unbound_at p) -> tl_phase p <> ClusterLeasePhase.Pending /\ unstarted p;
}.

(** What a stored version says of the one that is stored now. *)
Record follows (p l : TokenLease) : Prop := {
  fo_closed : forall c, tl_creation p = Some c -> creation_phase c = ConnectTokenCreationPhase.Closed -> tl_creation l = Some c;
  fo_left : tl_phase p <> ClusterLeasePhase.Pending -> tl_phase l <> ClusterLeasePhase.Pending;
  fo_none : tl_phase p <> ClusterLeasePhase.Pending -> tl_creation p = None -> tl_creation l = None;
}.

Definition version_of (h : History) (u : string) (p : TokenLease) : Prop :=
  In p (hv h) /\ tl_uid p = Some u /\ tl_mode p = VerifiedDestroy.

Record lease_inv (T : gmap string Ticket) (h : History) (now : option TokenLease) : Prop := {
  li_good : good h;
  li_now : forall l, now = Some l -> In l (hv h);
  li_version : forall l, In l (hv h) -> is_Some (tl_version l);
  li_same : forall l l', In l (hv h) -> In l' (hv h) -> tl_version l = tl_version l' -> l = l';
  li_mode : forall l l', In l (hv h) -> In l' (hv h) -> tl_uid l = tl_uid l' -> tl_mode l = tl_mode l';
  li_past : forall p u, version_of h u p -> past_ok T u p;
  li_follows : forall p l u, now = Some l -> version_of h u l -> version_of h u p -> follows p l;
  li_waiting : forall l u, now = Some l -> version_of h u l -> waiting l -> T !! u = None;
  li_known : forall u, is_Some (T !! u) -> exists l, In l (hv h) /\ tl_uid l = Some u;
}.

Record secret_inv (T : gmap string Ticket) (h : History) (now : option Secret) : Prop := {
  si_owned : forall s u p, In s (hs h) -> owned s u -> version_of h u p ->
    exists v, sec_uid s = Some v /\ T !! u = Some (Landed v);
  si_known : forall s u, In s (hs h) -> owned s u -> exists l, In l (hv h) /\ tl_uid l = Some u;
  si_now : forall s, now = Some s -> In s (hs h) /\ exists v, sec_uid s = Some v /\ ~ In v (hd h);
  si_gone : forall s, In s (hs h) -> exists v, sec_uid s = Some v /\
    (In v (hd h) \/ exists s', now = Some s' /\ sec_uid s' = Some v);
}.

(** Each task is lawful with its licence, and a licence is a held ticket. *)
Record task_inv (T : gmap string Ticket) (h : History) (lic : nat -> option string) (r : gmap nat (tprog unit)) : Prop := {
  ti_lawful : forall k p, r !! k = Some p -> lawful ns name (lic k) h p (fun _ _ => True);
  ti_held : forall k u, lic k = Some u -> T !! u = Some (Held k);
}.

Record world_inv (T : gmap string Ticket) (lic : nat -> option string) (w : TokenWorld) : Prop := {
  wi_lease : lease_inv T (past w) (lease_now w);
  wi_secret : secret_inv T (past w) (secret_now w);
  wi_task : task_inv T (past w) lic (running w);
}.

End World.
