(* ===== verification/TokenSteps.v ===== *)
(** * Every step keeps the invariant of the token programs

    The versions of the lease and the ticket of each UID, then the Secrets, then
    the tasks, step by step. *)

From S2P Require Import Prelude Text Teardown StateMachine Objects LeaseBinding LeaseController LedgerApi ConnectToken TokenSystem TokenWorld.

Local Open Scope kobe_scope.

Section Steps.
Context (parse_rfc3339 : string -> option Z) (to_rfc3339 : Z -> string) (ns name : string).

#[local] Abbreviation owned := (owned name).
#[local] Abbreviation landed := (landed ns name).
#[local] Abbreviation good := (good ns name).
#[local] Abbreviation move := (move ns name).
#[local] Abbreviation lease_ok := (lease_ok ns name).
#[local] Abbreviation lease_inv := (lease_inv ns name).
#[local] Abbreviation secret_inv := (secret_inv name).
#[local] Abbreviation attempt_step := (attempt_step ns name).

(** ** Versions of the lease *)

Lemma lease_ok_extends h h' l : extends h h' -> lease_ok h l -> lease_ok h' l.
Proof.
  intros He [Hn Hu Hb Hc H0]. constructor; auto. intros c Ec. destruct (Hc c Ec) as (Hm & b & Eb & Ha).
  split; [done|]. exists b. split; [done|]. intros u Eu. eapply attempt_ok_extends; eauto.
Qed.

Lemma attempt_step_ok h u b c b' c' :
  attempt_step h u b c b' c' -> attempt_ok ns name h u b c ->
  attempt_ok ns name h u b' c' /\ cleanup_mode b' = cleanup_mode b /\ binding_lease_name b' = binding_lease_name b.
Proof.
  intros Hs (Hb & Hl & Hp). destruct Hs as [Hph|p i Hph Hpp Hi|p Hi Hpp|at_ Hph|i at_ Hph Hid Hd]; (split; [|done]);
    unfold attempt_ok; cbn; (split; [done|]).
  - split; [done|]. by rewrite Hph in Hp.
  - split; [by intros j [= <-]|]. destruct Hpp as [-> | ->]; eauto.
  - split; [done|]. by destruct Hpp as [[_ [-> | ->]]|[_ ->]].
  - split; [done|]. rewrite Hph in Hp. by rewrite Hp.
  - split; [done|]. intros j. rewrite Hid. by intros [= <-].
Qed.

Lemma move_ok h u l l' : lease_ok h l -> tl_uid l = Some u -> kept l l' -> move h u l l' -> lease_ok h l'.
Proof.
  intros [Hn Hu Hb Hc H0] Eu (Kn & Ku & Km & Kp) Hmv.
  assert (tl_creation l' = tl_creation l -> tl_binding l' = tl_binding l -> lease_ok h l') as Hsame.
  { intros Ec Eb. by constructor; rewrite ?Kn, ?Ku, ?Km, ?Ec, ?Eb. }
  destruct Hmv as [Eb Ec _|b Ep E0 Eb Em En Et Ec _|Em Eb Ec _|b c b' c' Eb Ec Eb' Ec' Hs _|Eb Ec _ _]; auto.
  - constructor; rewrite ?Kn, ?Ku, ?Km, ?Eb; try done; [by intros ? [= <-]| |].
    + destruct Ec as [[Hm [a ->]]|[Hm ->]].
      * intros c [= <-]. split; [done|]. exists b. split; [done|]. intros v Ev. by split_and!.
      * intros c Ec. by destruct (Hc c Ec) as [? _]; rewrite Hm in *.
    + intros Hm Hc'. destruct Ec as [[_ [a Ha]]|[Hm' _]]; [by rewrite Ha in Hc'|by rewrite Hm in Hm'].
  - constructor; rewrite ?Kn, ?Ku, ?Km, ?Eb, ?Ec; try done. intros c E. by destruct (Hc c E) as [? _]; rewrite Em in *.
  - destruct (Hc c Ec) as (Hm & b0 & Eb0 & Ha). rewrite Eb in Eb0. injection Eb0 as <-.
    destruct (attempt_step_ok _ _ _ _ _ _ Hs (Ha u Eu)) as (Ha' & Hm' & Hn').
    constructor; rewrite ?Kn, ?Ku, ?Km, ?Eb', ?Ec'; try done.
    + intros ? [= <-]. rewrite Hm', Hn'. by apply Hb.
    + intros ? [= <-]. split; [done|]. exists b'. split; [done|]. intros v Ev. rewrite Eu in Ev. by injection Ev as <-.
Qed.

(** ** Tickets *)

Lemma past_ok_other T u v t p : u <> v -> past_ok T u p -> past_ok (<[v := t]> T) u p.
Proof. intros Hne [H1 H2 H3 H4]. constructor; intros; rewrite ?lookup_insert_ne by done; eauto. Qed.

Lemma past_ok_update T u t p :
  ~ never p -> (forall v, T !! u <> Some (Landed v)) -> past_ok T u p -> past_ok (<[u := t]> T) u p.
Proof.
  intros Hn Hv [H1 H2 H3 H4]. constructor; rewrite ?lookup_insert_eq; eauto; [done|].
  intros c i Hc Hi. by destruct (Hv (Teardown.uid i)); apply (H3 c i).
Qed.

(** [never] and [waiting] exclude each other between a version and a later one. *)
Lemma follows_waiting p l c : follows p l -> tl_creation l = Some c ->
  creation_phase c = ConnectTokenCreationPhase.Prepared -> ~ never p.
Proof.
  intros [Hc _ Hz] El Ep Hn. unfold never in Hn. destruct (tl_creation p) as [d|] eqn:Ed.
  - destruct Hn as [Hd _]. specialize (Hc d eq_refl Hd). rewrite El in Hc. injection Hc as <-. by rewrite Hd in Ep.
  - specialize (Hz Hn eq_refl). by rewrite El in Hz.
Qed.

(** What a version says of its attempt alone. *)
Lemma past_ok_same T u p p' :
  tl_creation p' = tl_creation p -> tl_phase p' = tl_phase p -> tl_unbound_at p' = tl_unbound_at p ->
  past_ok T u p -> past_ok T u p'.
Proof.
  intros Ec Ep Eu [H1 H2 H3 H4]. unfold never, begun, unstarted in *.
  constructor; unfold never, begun, unstarted; rewrite ?Ec, ?Ep, ?Eu; auto.
Qed.

(** ** A move *)

Lemma lease_follows_refl l : follows l l.
Proof. by constructor. Qed.

Lemma move_follows h u p l l' :
  lease_ok h l -> tl_mode l = VerifiedDestroy -> kept l l' -> move h u l l' -> follows p l -> follows p l'.
Proof.
  intros [_ _ _ Hc _] Hm (_ & _ & _ & Kp) Hmv [H1 H2 H3].
  assert (tl_creation l' = tl_creation l -> follows p l') as Hsame.
  { intros Ec. constructor; rewrite ?Kp, ?Ec; auto. }
  destruct Hmv as [Eb Ec _|b Ep E0 Eb Em En Et Ec _|Em Eb Ec _|b c b' c' Eb Ec Eb' Ec' Hs _|Eb Ec _ _]; auto.
  - assert (tl_creation l = None) as Ec0.
    { destruct (tl_creation l) as [c|]; [|done]. destruct (Hc c eq_refl) as (_ & b0 & Eb0 & _). by rewrite E0 in Eb0. }
    constructor; rewrite ?Kp; auto.
    + intros c Epc Hcl. specialize (H1 c Epc Hcl). by rewrite Ec0 in H1.
    + intros Hp. by destruct (H2 Hp).
  - constructor; rewrite ?Kp; auto.
    + intros d Ed Hd. specialize (H1 d Ed Hd). rewrite Ec in H1. injection H1 as ->.
      destruct Hs as [Hph|p' i Hph ? ?|p' ? [[Hph _]|[Hph _]]|at_ Hph|i at_ Hph ? ?]; by rewrite Hd in Hph.
    + intros Hp Ed. by rewrite (H3 Hp Ed) in Ec.
Qed.

Lemma past_identified T u p c i :
  tl_creation p = Some c -> token_identity c = Some i -> creation_phase c <> ConnectTokenCreationPhase.Prepared ->
  T !! u = Some (Landed (Teardown.uid i)) -> ~ is_Some (tl_unbound_at p) ->
  past_ok T u p /\ (waiting p -> T !! u = None).
Proof.
  intros Ec Hi Hph HT Hun. split; [constructor|].
  - unfold never. rewrite Ec, Hi. by intros [_ ?].
  - eauto.
  - intros d j. rewrite Ec. intros [= <-]. rewrite Hi. by intros [= <-].
  - done.
  - unfold waiting. by rewrite Ec.
Qed.

(** A version with an attempt that is not closed carries no proof. *)
Lemma unproven T u p c :
  past_ok T u p -> tl_creation p = Some c -> creation_phase c <> ConnectTokenCreationPhase.Closed \/ is_Some (token_identity c) ->
  ~ is_Some (tl_unbound_at p).
Proof.
  intros [_ _ _ Hun] Ec Hc Hs. destruct (Hun Hs) as [_ Hus]. unfold unstarted in Hus. rewrite Ec in Hus.
  destruct Hus as [E Ei]. destruct Hc as [?|Hi]; [done|]. rewrite Ei in Hi. by destruct Hi.
Qed.

(** The dispatch gives the ticket. *)
Lemma dispatch_past T T' h u l l' c c' :
  lease_ok h l -> tl_uid l = Some u -> move h u l l' -> past_ok T u l ->
  tl_creation l = Some c -> creation_phase c = ConnectTokenCreationPhase.Prepared ->
  tl_creation l' = Some c' -> creation_phase c' = ConnectTokenCreationPhase.Creating -> is_Some (T' !! u) ->
  past_ok T' u l' /\ (waiting l' -> T' !! u = None).
Proof.
  intros [_ _ _ Hc _] Eu Hmv Hp Ec Hpr Ec' Hcre Hsome. destruct (Hc c Ec) as (_ & b & Eb & Ha).
  destruct (Ha u Eu) as (_ & _ & Hi). rewrite Hpr in Hi.
  assert (token_identity c' = None /\ tl_unbound_at l' = tl_unbound_at l) as [Hid Hub].
  { destruct Hmv as [? E ?|b0 ? E0 ? ? ? ? ? ?|? ? E ?|b0 c0 b1 c1 ? Ec0 ? Ec1 Hs ?|? E ? ?];
      try (rewrite E, Ec in Ec'; injection Ec' as <-; by rewrite Hpr in Hcre); [by rewrite E0 in Eb|].
    rewrite Ec in Ec0. injection Ec0 as <-. rewrite Ec' in Ec1. injection Ec1 as <-. split; [|done].
    by destruct Hs as [?|? ? Hph ? ?|? ? [[Hph _]|[Hph _]]|? ?|? ? Hph ? ?]; [|rewrite Hpr in Hph..| |rewrite Hpr in Hph]. }
  assert (~ is_Some (tl_unbound_at l')) as Hun.
  { rewrite Hub. eapply unproven; [done..|]. left. by rewrite Hpr. }
  split; [constructor|].
  - unfold never. rewrite Ec'. intros [E _]. by rewrite Hcre in E.
  - done.
  - intros d i. rewrite Ec'. intros [= <-]. by rewrite Hid.
  - done.
  - unfold waiting. rewrite Ec'. intros E. by rewrite Hcre in E.
Qed.

(** Every other move leaves it. *)
Lemma move_past T h u l l' :
  lease_ok h l -> tl_uid l = Some u -> tl_mode l = VerifiedDestroy -> kept l l' -> move h u l l' ->
  past_ok T u l -> (waiting l -> T !! u = None) ->
  (forall i, landed h u i -> T !! u = Some (Landed (Teardown.uid i))) ->
  (forall c', tl_creation l' = Some c' -> creation_phase c' = ConnectTokenCreationPhase.Creating ->
              tl_creation l = Some c') ->
  past_ok T u l' /\ (waiting l' -> T !! u = None).
Proof.
  intros Hok Eu Hm (_ & _ & _ & Kp) Hmv Hp Hw Hl Hcr. pose proof Hok as [_ _ _ Hc _].
  destruct Hmv as [Eb Ec Eun|b Ep E0 Eb Em En Et Ec Eun|Em Eb Ec Eun|b c b' c' Eb Ec Eb' Ec' Hs Eun|Eb Ec Hterm Hun].
  - split; [by apply (past_ok_same _ _ l)|]. unfold waiting in *. by rewrite Ec.
  - destruct Ec as [[_ [a Ec]]|[Hm' _]]; [|by rewrite Hm in Hm'].
    assert (tl_creation l = None) as Ec0.
    { destruct (tl_creation l) as [c|] eqn:E; [|done]. destruct (Hc c eq_refl) as (_ & b0 & Eb0 & _). by rewrite E0 in Eb0. }
    split; [|intros _; apply Hw; unfold waiting; by rewrite Ec0]. destruct Hp as [_ _ _ Hun]. constructor.
    + unfold never. rewrite Ec. by intros [? _].
    + intros (d & Ed & Hd & _). rewrite Ec in Ed. injection Ed as <-. by destruct Hd.
    + intros d i Ed. rewrite Ec in Ed. by injection Ed as <-.
    + rewrite Eun. intros Hs. by destruct (Hun Hs) as [[] _].
  - by rewrite Hm in Em.
  - assert (~ is_Some (tl_unbound_at l')) as Hnu.
    { rewrite Eun. eapply unproven; [done..|].
      destruct Hs as [Hph|p i Hph ? ?|p Hi ?|at_ Hph|i at_ Hph ? ?]; [left..|right; done|left|left]; by rewrite Hph. }
    destruct Hs as [Hph|p i Hph Hpp Hi|p Hi Hpp|at_ Hph|i at_ Hph Hid Hd].
    + specialize (Hcr _ Ec' eq_refl). rewrite Ec in Hcr. apply (f_equal (fmap creation_phase)) in Hcr. cbn in Hcr.
      by rewrite Hph in Hcr.
    + apply (past_identified _ _ _ _ i Ec'); [done| |by apply Hl|done]. by destruct Hpp as [-> | ->].
    + destruct Hi as [i Hi]. apply (past_identified _ _ _ _ i Ec'); [done| |by apply (po_identity _ _ _ Hp c)|done].
      by destruct Hpp as [[_ [-> | ->]]|[_ ->]].
    + destruct (Hc c Ec) as (_ & b0 & _ & Ha). destruct (Ha u Eu) as (_ & _ & Hi). rewrite Hph in Hi.
      assert (T !! u = None) as HT by (apply Hw; unfold waiting; by rewrite Ec).
      split; [constructor|]; auto; [| |done].
      * intros (d & Ed & _ & Hd). rewrite Ec' in Ed. injection Ed as <-. cbn in Hd. rewrite Hi in Hd.
        by destruct (Hd eq_refl).
      * intros d j. rewrite Ec'. intros [= <-]. cbn. by rewrite Hi.
    + apply (past_identified _ _ _ _ i Ec'); [done|done|by apply (po_identity _ _ _ Hp c)|done].
  - split; [|unfold waiting in *; by rewrite Ec]. destruct Hp as [H1 H2 H3 _].
    constructor; unfold never, begun, unstarted in *; rewrite ?Ec, ?Kp; auto.
    intros _. split; [|done]. by destruct (tl_phase l).
Qed.

(** ** The invariant of the lease *)

Definition with_version (h : History) (l : TokenLease) : History := {| hv := l :: hv h; hs := hs h; hd := hd h |}.
Definition with_secrets (h : History) (s : list Secret) (d : list string) : History :=
  {| hv := hv h; hs := s ++ hs h; hd := d ++ hd h |}.

Lemma with_version_extends h l : extends h (with_version h l).
Proof. split; [apply incl_tl, incl_refl|]. split; apply incl_refl. Qed.

Lemma with_secrets_extends h s d : extends h (with_secrets h s d).
Proof. split; [apply incl_refl|]. split; apply incl_appr, incl_refl. Qed.

Lemma add_version T T' h now l' :
  lease_inv T h now -> lease_ok h l' -> (exists rv, tl_version l' = Some rv /\ fresh_version h rv) ->
  (forall l, In l (hv h) -> tl_uid l = tl_uid l' -> tl_mode l = tl_mode l') ->
  (forall u p, version_of h u p -> past_ok T' u p) ->
  (forall u, tl_uid l' = Some u -> tl_mode l' = VerifiedDestroy ->
     past_ok T' u l' /\ (waiting l' -> T' !! u = None) /\ forall p, version_of h u p -> follows p l') ->
  (forall u, is_Some (T' !! u) -> is_Some (T !! u) \/ tl_uid l' = Some u) ->
  lease_inv T' (with_version h l') (Some l').
Proof.
  intros [Hg Hnow Hver Hsame Hmode _ _ _ Hknown] Hok (rv & Hrv & Hfresh) Hm Hpast Hnew Hk.
  pose proof (with_version_extends h l') as He. constructor.
  - intros l [<-|Hin]; eapply lease_ok_extends; eauto.
  - intros l [= <-]. by left.
  - intros l [<-|Hin]; eauto.
  - intros l1 l2 [<-|H1] [<-|H2]; auto.
    + rewrite Hrv. intros E. by destruct (Hfresh l2 H2).
    + rewrite Hrv. intros E. by destruct (Hfresh l1 H1).
  - intros l1 l2 [<-|H1] [<-|H2] E; auto. symmetry. by apply Hm.
  - intros p u ([<-|Hin] & Hu & Hv); [by apply Hnew|]. by apply Hpast.
  - intros p l u [= <-] (_ & Hu & Hv) ([<-|Hin] & Hu' & Hv'); [apply lease_follows_refl|]. by apply (Hnew u).
  - intros l u [= <-] (_ & Hu & Hv). by apply Hnew.
  - intros u Hs. destruct (Hk u Hs) as [Hs'|Hu].
    + destruct (Hknown u Hs') as (l & Hin & Hu). exists l. split; [by right|done].
    + exists l'. split; [by left|done].
Qed.

Lemma lease_secrets T h now s d : lease_inv T h now -> lease_inv T (with_secrets h s d) now.
Proof.
  intros [Hg Hnow Hver Hsame Hmode Hpast Hf Hw Hk]. constructor; auto.
  intros l Hin. eapply lease_ok_extends; [apply (with_secrets_extends h s d)|by apply Hg].
Qed.

(** A ticket that was given passes on, or becomes a Secret. *)
Lemma lease_ticket T h now u k t : T !! u = Some (Held k) -> lease_inv T h now -> lease_inv (<[u := t]> T) h now.
Proof.
  intros HT [Hg Hnow Hver Hsame Hmode Hpast Hf Hw Hk]. constructor; auto.
  - intros p v Hp. destruct (decide (v = u)) as [->|Hne]; [|by apply past_ok_other; auto].
    apply past_ok_update; [|intros v; by rewrite HT|by apply Hpast].
    intros Hn. destruct (Hpast p u Hp) as [Hnv _ _ _]. specialize (Hnv Hn). by rewrite HT in Hnv.
  - intros l v El Hv Hwt. destruct (decide (v = u)) as [->|Hne].
    + specialize (Hw l u El Hv Hwt). by rewrite HT in Hw.
    + rewrite lookup_insert_ne by done. eauto.
  - intros v Hs. apply Hk. destruct (decide (v = u)) as [->|Hne]; [by rewrite HT|]. by rewrite lookup_insert_ne in Hs.
Qed.

Lemma stamped_move h u l l1 rv : move h u l l1 -> move h u l (stamp_lease l1 rv).
Proof.
  intros [?|b ? ? ? ? ? ? ? ?|?|b c b' c' ? ? ? ? ? ?|?];
    [by apply mv_quiet|by apply (mv_intent _ _ _ _ _ _ b)|by apply mv_clear|by apply (mv_attempt _ _ _ _ _ _ b c b' c')|by apply mv_proof].
Qed.

(** A Secret of a lease is the one of its ticket. *)
Lemma landed_ticket T h secret u p i :
  secret_inv T h secret -> version_of h u p -> landed h u i -> T !! u = Some (Landed (Teardown.uid i)).
Proof.
  intros HS Hv (s & Hs & Ho & Hi). destruct (si_owned _ _ _ _ HS s u p Hs Ho Hv) as (v & Hu & ->).
  unfold connect_token_identity in Hi. destruct (sec_name s ≫= _); [|done]. cbn in Hi. rewrite Hu in Hi. cbn in Hi.
  destruct (nonblank v); [|done]. cbn in Hi. by injection Hi as <-.
Qed.

(** A patch applies to the version it was made for. *)
Lemma patch_version T h l l0 p l1 :
  lease_inv T h (Some l) -> In l0 (hv h) -> tl_version l0 = Some (lp_version p) -> apply_lease_patch p l = Some l1 ->
  tl_uid l = Some (lp_uid p) /\ l0 = l.
Proof.
  intros HI Hin Hv Ha. unfold apply_lease_patch, lease_tests in Ha. destruct (_ && _) eqn:E; [|done].
  rewrite !andb_true_iff in E. destruct E as [[[[[[[_ Eu] Ev] _] _] _] _] _]. apply str_opt_eqb_eq in Eu, Ev.
  split; [done|]. apply (li_same _ _ _ _ _ HI); [done|by apply (li_now _ _ _ _ _ HI)|]. by rewrite Hv, Ev.
Qed.

(** A patch of the lease that is stored now.  A dispatch gives the ticket to
    [k]. *)
Lemma patch_lease_inv T h now secret p l l1 rv k :
  lease_inv T h (Some l) -> secret_inv T h secret -> permitted_patch ns name h p -> apply_lease_patch p l = Some l1 ->
  fresh_version h rv -> now = stamp_lease l1 rv ->
  let T' := if dispatches p then <[lp_uid p := Held k]> T else T in
  (dispatches p = true -> T !! lp_uid p = None) /\ lease_inv T' (with_version h now) (Some now).
Proof.
  intros HI HS (l0 & Hin0 & Hu0 & Hv0 & Hp) Ha Hrv ->. pose proof HI as [Hg Hnow Hver Hsame Hmode Hpast Hf Hw Hk].
  destruct (patch_version _ _ _ _ _ _ HI Hin0 Hv0 Ha) as [Hu ->].
  set (u := lp_uid p) in *. destruct (Hp l1 Ha) as (Hkept & Hmv & Hd & Hnd). pose proof (Hg l Hin0) as Hok.
  pose proof Hkept as (Kn & Ku & Km & Kp).
  assert (lease_ok h l1) as Hok1 by (by eapply move_ok).
  set (T' := if dispatches p then _ else T). assert (dispatches p = true -> T !! u = None /\ version_of h u l) as HT0.
  { intros E. destruct (Hd E) as (b & c & b' & c' & _ & Ec & Epr & _). destruct (lo_creation _ _ _ _ Hok c Ec) as [Hm _].
    split; [|done]. apply (Hw l u); [done|done|]. unfold waiting. by rewrite Ec. }
  split; [intros E; by apply HT0|].
  assert (tl_uid (stamp_lease l1 rv) = Some u /\ tl_mode (stamp_lease l1 rv) = tl_mode l) as [Eu Em] by (by rewrite <- Hu).
  apply (add_version T T' h (Some l)); try done.
  - destruct Hok1. by constructor.
  - by exists rv.
  - intros q Hq Eq. rewrite Em. apply Hmode; [done|done|congruence].
  - intros v q Hq. subst T'. destruct (dispatches p) eqn:E; [|by apply Hpast].
    destruct (decide (v = u)) as [->|Hne]; [|by apply past_ok_other; auto].
    destruct (HT0 eq_refl) as [HTn Hver_l]. destruct (Hd eq_refl) as (b & c & b' & c' & _ & Ec & Epr & _).
    apply past_ok_update; [|by rewrite HTn|by apply Hpast]. eapply follows_waiting; [by eapply Hf|done|done].
  - intros v Ev Hm. rewrite Eu in Ev. injection Ev as <-. rewrite Em in Hm. assert (version_of h u l) as Hl by done.
    pose proof (stamped_move h u l l1 rv Hmv) as Hmv'.
    assert (past_ok T' u (stamp_lease l1 rv) /\ (waiting (stamp_lease l1 rv) -> T' !! u = None)) as [? ?].
    { subst T'. destruct (dispatches p) eqn:E.
      - destruct (Hd eq_refl) as (b & c & b' & c' & _ & Ec & Epr & _ & Ec' & Ecr).
        eapply (dispatch_past T _ h u l _ c c'); eauto. by rewrite lookup_insert_eq.
      - apply (move_past T h u l); [done..|by apply Hpast|by apply Hw|by intros i; apply (landed_ticket _ h secret _ l)|by apply Hnd]. }
    split; [done|]. split; [done|]. intros q Hq. apply (move_follows h u q l); [done..|]. by eapply Hf.
  - intros v Hs. subst T'. destruct (dispatches p) eqn:E; [|by left]. destruct (decide (v = u)) as [->|Hne]; [by right|].
    left. by rewrite lookup_insert_ne in Hs.
Qed.

(** ** The invariant of the Secrets *)

Lemma secret_version T T' h l' now :
  secret_inv T h now ->
  (forall u, tl_uid l' = Some u -> tl_mode l' = VerifiedDestroy ->
     (exists p, version_of h u p) \/ forall l, In l (hv h) -> tl_uid l <> Some u) ->
  (forall u v, T !! u = Some (Landed v) -> T' !! u = Some (Landed v)) -> secret_inv T' (with_version h l') now.
Proof.
  intros [Ho Hk Hn Hg] Hl HT. constructor; [| |done..].
  - intros s u p Hs Hu Hp. assert (exists q, version_of h u q) as [q Hq].
    { destruct Hp as ([<-|Hin] & Eu & Em); [|by exists p]. destruct (Hl u Eu Em) as [?|Hno]; [done|].
      destruct (Hk s u Hs Hu) as (l & Hin & E). by destruct (Hno l Hin). }
    destruct (Ho s u q Hs Hu Hq) as (v & Ev & HTv). exists v. split; [done|by apply HT].
  - intros s u Hs Hu. destruct (Hk s u Hs Hu) as (l & Hin & E). exists l. split; [by right|done].
Qed.

Lemma secret_new T T' h s v :
  secret_inv T h None -> sec_uid s = Some v -> fresh_secret h v ->
  (forall u, owned s u -> (exists l, In l (hv h) /\ tl_uid l = Some u) /\
     forall p, version_of h u p -> T' !! u = Some (Landed v)) ->
  (forall u w, T !! u = Some (Landed w) -> T' !! u = Some (Landed w)) ->
  secret_inv T' (with_secrets h [s] []) (Some s).
Proof.
  intros [Ho Hk Hn Hg] Hv [Hd Hf] Hs HT. constructor.
  - intros r u p [<-|Hin] Hu Hp; [exists v; split; [done|by apply (Hs u Hu) in Hp]|].
    destruct (Ho r u p Hin Hu Hp) as (w & Ew & HTw). eauto.
  - intros r u [<-|Hin] Hu; [by apply Hs|eauto].
  - intros r [= <-]. split; [by left|eauto].
  - intros r [<-|Hin]; [exists v; split; [done|right; eauto]|]. destruct (Hg r Hin) as (w & Ew & [?|(s' & ? & _)]); [|done].
    exists w. auto.
Qed.

Lemma secret_edit T h s s' :
  secret_inv T h (Some s) -> sec_uid s' = sec_uid s -> sec_owners s' = sec_owners s ->
  secret_inv T (with_secrets h [s'] []) (Some s').
Proof.
  intros [Ho Hk Hn Hg] Eu Eo. destruct (Hn s eq_refl) as (Hin & v & Ev & Hv).
  assert (forall u, owned s' u -> owned s u) as Ho'.
  { intros u. unfold TokenSystem.owned, connect_token_owner_uid. by rewrite Eo. }
  constructor.
  - intros r u p [<-|Hr] Hu Hp; [|eauto]. rewrite Eu. eauto.
  - intros r u [<-|Hr] Hu; [|eauto]. eauto.
  - intros r [= <-]. split; [by left|]. rewrite Eu. eauto.
  - assert (forall w, sec_uid s = Some w -> exists r, Some s' = Some r /\ sec_uid r = Some w) as Hnow by (rewrite <- Eu; eauto).
    intros r [<-|Hr]; [exists v; rewrite Eu; split; [done|right; by apply Hnow]|].
    destruct (Hg r Hr) as (w & Ew & [?|(s0 & [= <-] & E0)]); exists w; auto.
Qed.

Lemma secret_drop T h s v : secret_inv T h (Some s) -> sec_uid s = Some v -> secret_inv T (with_secrets h [] [v]) None.
Proof.
  intros [Ho Hk Hn Hg] Ev. constructor; [done..|]. intros r Hr.
  destruct (Hg r Hr) as (w & Ew & [?|(s0 & [= <-] & E0)]); exists w; (split; [done|left]); [by right|].
  left. rewrite Ev in E0. by injection E0.
Qed.

(** ** A request *)

#[local] Abbreviation serve := (serve name).

(** What a served request leaves, for the task [k] that sent it and the others. *)
Definition served (T : gmap string Ticket) (lic : nat -> option string) (k : nat) {X} (q : treq X) (x : X)
    (w w' : TokenWorld) : Prop :=
  exists T', lease_inv T' (past w') (lease_now w') /\ secret_inv T' (past w') (secret_now w') /\
    extends (past w) (past w') /\ told name (past w') q x /\ running w' = running w /\
    (forall u, next_licence (lic k) q x = Some u -> T' !! u = Some (Held k)) /\
    (forall j u, j <> k -> lic j = Some u -> T' !! u = Some (Held j)).

Lemma served_quiet T lic k X (q : treq X) x w :
  lease_inv T (past w) (lease_now w) -> secret_inv T (past w) (secret_now w) ->
  (forall j u, lic j = Some u -> T !! u = Some (Held j)) -> told name (past w) q x ->
  (forall u, next_licence (lic k) q x = Some u -> lic k = Some u) -> served T lic k q x w w.
Proof. intros HL HS HH Ht Hn. exists T. repeat (split; [by auto|]). auto. Qed.

Lemma create_served T lic k s x w w' :
  world_inv ns name T lic w -> permitted ns name (lic k) (past w) (TqCreateSecret s) -> serve w (TqCreateSecret s) x w' ->
  served T lic k (TqCreateSecret s) x w w'.
Proof.
  intros [HL HS [_ HH]] (u & Ho & Hp) [[-> Hx]|(Hnow & Hname & v & rv & Hv & -> & Hx)].
  - apply served_quiet; auto; [|done]. destruct x; [|done]. intros Hn. destruct Hx as [[e He]|?]; done.
  - set (s' := stamp_secret s v rv) in *. rewrite Hnow in HS.
    assert (forall u', owned s' u' -> u' = u) as Hou.
    { intros u' Hu'. change (owned s u') in Hu'. unfold TokenSystem.owned in *. congruence. }
    assert (extends (past w) (past (store_secret w s'))) as He by apply (with_secrets_extends (past w) [s'] []).
    assert (told name (past (store_secret w s')) (TqCreateSecret s) x) as Ht.
    { destruct Hx as [->|[e ->]]; [|done]. intros _. by left. }
    destruct Hp as [Hlic|(l & Hin & Hu & Hm)].
    + pose proof (HH k u Hlic) as HT. exists (<[u := Landed v]> T). split_and!; auto; [| |done|].
      * apply (lease_secrets _ _ _ [s'] []). by eapply lease_ticket.
      * apply (secret_new T _ _ _ v); auto.
        { intros u' Hu'. apply Hou in Hu' as ->. split; [apply (li_known _ _ _ _ _ HL); eauto|]. intros p _.
          by rewrite lookup_insert_eq. }
        intros u' w' HTu. rewrite lookup_insert_ne; [done|]. intros <-. by rewrite HT in HTu.
      * intros j u' Hj Hl. rewrite lookup_insert_ne; [by apply HH|]. intros <-. specialize (HH j u Hl). congruence.
    + exists T. split_and!; auto; [by apply (lease_secrets _ _ _ [s'] [])| |done].
      apply (secret_new T _ _ _ v); auto. intros u' Hu'. apply Hou in Hu' as ->. split; [eauto|].
      intros p (Hp & Eu & Em). assert (tl_mode p = tl_mode l) by (apply (li_mode _ _ _ _ _ HL); [done..|congruence]).
      congruence.
Qed.

Lemma patch_served T lic k p x w w' :
  world_inv ns name T lic w -> permitted ns name (lic k) (past w) (TqPatchLease p) -> serve w (TqPatchLease p) x w' ->
  served T lic k (TqPatchLease p) x w w'.
Proof.
  intros [HL HS [_ HH]] Hp [[-> [e ->]]|(l & l1 & rv & Hnow & Ha & Hrv & -> & Hx)]; [by apply served_quiet|].
  rewrite Hnow in HL. set (l' := stamp_lease l1 rv) in *.
  destruct (patch_lease_inv T (past w) l' (secret_now w) p l l1 rv k HL HS Hp Ha Hrv eq_refl) as [HT0 HL'].
  set (T' := if dispatches p then _ else T) in *. assert (forall u t, T !! u = Some t -> T' !! u = Some t) as HT'.
  { intros u t HT. subst T'. destruct (dispatches p); [|done]. rewrite lookup_insert_ne; [done|]. intros <-.
    by rewrite HT0 in HT. }
  exists T'. split_and!; auto.
  - pose proof Hp as (l0 & Hin0 & Hu0 & Hv0 & Hmv). destruct (patch_version _ _ _ _ _ _ HL Hin0 Hv0 Ha) as [Hu ->].
    apply (secret_version T); auto. intros u Eu Em. left. exists l. destruct (Hmv l1 Ha) as ((_ & Ku & Km & _) & _).
    change (tl_uid l1 = Some u) in Eu. change (tl_mode l1 = VerifiedDestroy) in Em. rewrite Ku in Eu. rewrite Km in Em.
    done.
  - apply (with_version_extends (past w) l').
  - destruct Hx as [->|[e ->]]; [|done]. split; [by left|]. exists l, l1, rv. split_and!; [|done|done].
    right. by apply (li_now _ _ _ _ _ HL).
  - intros u. destruct Hx as [->|[e ->]]; cbn; [|intros Hl; by apply HT', HH]. subst T'. destruct (dispatches p).
    + intros [= <-]. by rewrite lookup_insert_eq.
    + apply HH.
Qed.

Lemma request_served T lic k X (q : treq X) x w w' :
  world_inv ns name T lic w -> permitted ns name (lic k) (past w) q -> serve w q x w' -> served T lic k q x w w'.
Proof.
  intros HW Hp Hs. pose proof HW as [HL HS [_ HH]].
  assert (forall s, In s (hs (past w)) -> secret_now w = None -> exists v, sec_uid s = Some v /\ In v (hd (past w))) as Hgone.
  { intros s Hs' Hnow. destruct (si_gone _ _ _ _ HS s Hs') as (v & Ev & [?|(s0 & E & _)]); [eauto|]. by rewrite Hnow in E. }
  destruct q; cbn in Hs; try (subst w'; by apply served_quiet).
  - destruct Hs as [-> Hx]. apply served_quiet; auto. cbn. destruct x as [s|e].
    + intros Hn. by apply (si_now _ _ _ _ HS), Hx.
    + intros E Hn s u Hin Hu. destruct (Hgone s Hin (Hx E Hn)) as (v & Ev & Hv). congruence.
  - by apply create_served.
  - destruct Hs as [->|(s & rv & Hnow & _ & Hu & _ & ->)]; [by apply served_quiet|]. exists T. rewrite Hnow in HS.
    split_and!; auto; [by apply (lease_secrets _ _ _ [_] [])|by apply (secret_edit _ _ s)|].
    apply (with_secrets_extends (past w) [_] []).
  - destruct Hs as [->|(s & Hnow & _ & Hu & _ & ->)]; [by apply served_quiet|]. exists T. rewrite Hnow in HS.
    split_and!; auto; [by apply (lease_secrets _ _ _ [] [_])|by apply (secret_drop _ _ s)|].
    apply (with_secrets_extends (past w) [] [_]).
  - destruct Hs as [-> Hx]. apply served_quiet; auto. cbn. destruct x as [l|e]; [|done].
    intros Hn. by apply (li_now _ _ _ _ _ HL), Hx.
  - by apply patch_served.
Qed.

(** ** The tasks *)

#[local] Abbreviation lawful_task licence h p := (lawful ns name licence h p (fun _ _ => True)).

Lemma ignore_lawful {A} licence h (p : tprog A) P : lawful ns name licence h p P -> lawful_task licence h (ignore p).
Proof. intros Hp. by eapply lawful_map. Qed.

Lemma entry_lawful h p : good h -> entry parse_rfc3339 to_rfc3339 ns name h p -> lawful_task None h p.
Proof.
  intros Hg [l u b ? ? ?|l u b ?|l u b ? ?|separate l u ? ?|l u ?|l u b Hs Hb|n presented|n u|n u i|n i];
    (eapply ignore_lawful).
  - by eapply intent_lawful.
  - by eapply complete_lawful.
  - by apply clear_lawful; [..|exists l].
  - by eapply terminate_lawful.
  - by eapply authority_lawful.
  - destruct (seen_name _ _ _ _ _ Hg Hs) as [Hn Hne]. destruct Hs as [Hin Hu]. eapply ensure_lawful with (u := u); auto.
    intros Hm. exists l. split; [done|]. split; [done|]. destruct (lo_binding _ _ _ _ (Hg l Hin) b Hb). congruence.
  - apply validate_lawful.
  - apply delete_lawful.
  - apply delete_any_lawful.
  - apply observe_absent_lawful.
Qed.

Lemma tasks_later T T' h h' lic r :
  extends h h' -> (forall k u, lic k = Some u -> T' !! u = Some (Held k)) -> task_inv ns name T h lic r -> task_inv ns name T' h' lic r.
Proof.
  intros He Hh [Hl _]. constructor; [|done]. intros k p Hp. eapply lawful_extends; [exact He|done|by apply Hl].
Qed.

Definition give {A} (f : nat -> A) (k : nat) (a : A) : nat -> A := fun j => if decide (j = k) then a else f j.

Lemma give_eq {A} (f : nat -> A) k a : give f k a k = a.
Proof. unfold give. by rewrite decide_True. Qed.

Lemma give_ne {A} (f : nat -> A) k a j : j <> k -> give f k a j = f j.
Proof. intros. unfold give. by rewrite decide_False. Qed.

(** A task goes on, with the licence it has then. *)
Lemma task_goes_on T T' h h' lic r k p licence :
  task_inv ns name T h lic r -> extends h h' -> lawful_task licence h' p ->
  (forall u, licence = Some u -> T' !! u = Some (Held k)) ->
  (forall j u, j <> k -> lic j = Some u -> T' !! u = Some (Held j)) ->
  task_inv ns name T' h' (give lic k licence) (<[k := p]> r).
Proof.
  intros [Hl Hh] He Hp Hk Hj. constructor.
  - intros j q. destruct (decide (j = k)) as [->|Hne].
    + rewrite lookup_insert_eq, give_eq. by intros [= <-].
    + rewrite lookup_insert_ne, give_ne by done. intros Hq. eapply lawful_extends; [exact He|done|by apply Hl].
  - intros j u. destruct (decide (j = k)) as [->|Hne]; [rewrite give_eq; apply Hk|rewrite give_ne by done; by apply Hj].
Qed.

Lemma task_insert T h lic r k p :
  task_inv ns name T h lic r -> lawful_task (lic k) h p -> task_inv ns name T h lic (<[k := p]> r).
Proof.
  intros [Hl Hh] Hp. constructor; [|done]. intros j q. destruct (decide (j = k)) as [->|Hne].
  - rewrite lookup_insert_eq. by intros [= <-].
  - rewrite lookup_insert_ne by done. apply Hl.
Qed.

(** ** The steps *)

#[local] Abbreviation world_inv := (world_inv ns name).

Lemma serve_inv T lic w w' k X (q : treq X) c x :
  world_inv T lic w -> running w !! k = Some (TCall q c) -> serve w q x w' ->
  exists T' lic', world_inv T' lic' (with_running w' (<[k := c x]> (running w))).
Proof.
  intros HW Hk Hs. pose proof HW as [_ _ HT]. destruct (ti_lawful _ _ _ _ _ _ HT k _ Hk) as [Hp Hc].
  destruct (request_served _ _ _ _ _ _ _ _ HW Hp Hs) as (T' & HL' & HS' & He & Ht & Hr & Hnk & Hnj).
  exists T', (give lic k (next_licence (lic k) q x)). constructor; [done..|]. cbn.
  eapply task_goes_on; [exact HT|exact He| |exact Hnk|exact Hnj].
  apply Hc; [done|by apply (li_good _ _ _ _ _ HL')|done].
Qed.

(** The request is on its way: the task goes on, the licence for a POST goes
    with the request. *)
Lemma late_inv T lic w k j X (q : treq X) c x :
  world_inv T lic w -> running w !! k = Some (TCall q c) -> running w !! j = None -> unanswered q x ->
  exists T' lic', world_inv T' lic' (with_running w (<[j := TCall q (fun _ => TRet tt)]> (<[k := c x]> (running w)))).
Proof.
  intros [HL HS HT] Hk Hj Hx. destruct (ti_lawful _ _ _ _ _ _ HT k _ Hk) as [Hp Hc].
  assert (j <> k) as Hjk by (intros ->; by rewrite Hj in Hk). pose proof (ti_held _ _ _ _ _ _ HT) as HH.
  assert (lawful_task (next_licence (lic k) q x) (past w) (c x)) as Hcx.
  { apply Hc; [done|by apply (li_good _ _ _ _ _ HL)|]. destruct q; cbn in Hx |- *; try done; by destruct Hx as [e ->]. }
  destruct q; try done.
  - cbn [next_licence] in Hcx. set (T' := match lic k with Some u => <[u := Held j]> T | None => T end).
    assert (forall i u, i <> k -> i <> j -> lic i = Some u -> T' !! u = Some (Held i)) as Hi.
    { intros i u Hik Hij Hl. pose proof (HH i u Hl) as E. subst T'. destruct (lic k) as [v|] eqn:Ek; [|done].
      rewrite lookup_insert_ne; [done|]. intros ->. pose proof (HH k u Ek). congruence. }
    assert (lease_inv T' (past w) (lease_now w) /\ secret_inv T' (past w) (secret_now w)) as [HL' HS'].
    { subst T'. destruct (lic k) as [v|] eqn:Ek; [|done]. pose proof (HH k v Ek) as E.
      split; [by eapply lease_ticket|]. destruct HS as [Ho Hkn Hn Hg]. constructor; [|done..].
      intros s0 u p Hs Hu Hv. destruct (Ho s0 u p Hs Hu Hv) as (w0 & Ew & ET). exists w0. split; [done|].
      rewrite lookup_insert_ne; [done|]. intros ->. by rewrite E in ET. }
    exists T', (give (give lic k None) j (lic k)). constructor; [done..|]. cbn.
    eapply task_goes_on; [|reflexivity|by split| |].
    + eapply (task_goes_on T T); [exact HT|reflexivity|exact Hcx|done|]. intros i u _. apply HH.
    + intros u Hl. subst T'. rewrite Hl. by rewrite lookup_insert_eq.
    + intros i u Hij. destruct (decide (i = k)) as [->|Hik]; [by rewrite give_eq|]. rewrite give_ne by done. by apply Hi.
  - exists T, lic. constructor; [done..|]. by apply task_insert; [apply task_insert|].
  - exists T, lic. constructor; [done..|]. by apply task_insert; [apply task_insert|].
  - exists T, lic. constructor; [done..|]. destruct Hx as [e ->]. apply task_insert; [by apply task_insert|]. by split.
Qed.

Lemma new_lease_inv T lic w l :
  world_inv T lic w -> new_lease name (past w) l -> world_inv T lic (store_lease w l).
Proof.
  intros [HL HS HT] [Hn (u & Hu & Hne & Hfresh) Hv Hb Hc Hub].
  assert (forall p, ~ version_of (past w) u p) as Hno by (intros p (Hin & E & _); by destruct (Hfresh p Hin)).
  assert (T !! u = None) as HTu.
  { destruct (T !! u) as [t|] eqn:E; [|done]. destruct (li_known _ _ _ _ _ HL u ltac:(eauto)) as (p & Hin & Ep).
    by destruct (Hfresh p Hin). }
  constructor.
  - apply (add_version T T (past w) (lease_now w)); [done| |done| |by intros; apply (li_past _ _ _ _ _ HL)| |by left].
    + constructor; rewrite ?Hb, ?Hc; eauto; done.
    + intros p Hin E. rewrite Hu in E. by destruct (Hfresh p Hin).
    + intros v Ev _. rewrite Hu in Ev. injection Ev as <-. split; [|split; [done|by intros p ?; destruct (Hno p)]].
      constructor; [done|by intros (c & E & _); rewrite Hc in E|by intros c i E; rewrite Hc in E|].
      rewrite Hub. by intros [? ?].
  - apply (secret_version T); [done| |done]. intros v Ev _. right. rewrite Hu in Ev. by injection Ev as <-.
  - eapply tasks_later; [apply (with_version_extends (past w) l)|apply (ti_held _ _ _ _ _ _ HT)|done].
Qed.

Lemma elsewhere_inv T lic w l l' :
  world_inv T lic w -> lease_now w = Some l -> elsewhere name (past w) l l' -> world_inv T lic (store_lease w l').
Proof.
  intros [HL HS HT] Hnow [En Eu Em Ev Ec Eun Eb El]. pose proof (li_now _ _ _ _ _ HL l Hnow) as Hin.
  pose proof (li_good _ _ _ _ _ HL l Hin) as Hok.
  assert (forall u, tl_uid l' = Some u -> tl_mode l' = VerifiedDestroy -> version_of (past w) u l /\ tl_binding l' = tl_binding l) as Hl.
  { intros u Hu Hm. rewrite Eu in Hu. rewrite Em in Hm. split; [done|]. destruct Eb as [?|[Hm' _]]; [done|by rewrite Hm in Hm']. }
  constructor.
  - apply (add_version T T (past w) (lease_now w)); [done| |done| |by intros; apply (li_past _ _ _ _ _ HL)| |by left].
    + destruct Hok as [On Ou Ob Oc O0]. constructor; rewrite ?En, ?Eu, ?Em, ?Ec; try done.
      * destruct Eb as [->|[-> Hb]]; auto.
      * intros c E. destruct (Oc c E) as (Hm & b & Hb & Ha). split; [done|]. destruct Eb as [->|[Hm' _]]; [eauto|].
        by rewrite Hm in Hm'.
      * intros Hm E. destruct Eb as [->|[Hm' _]]; [by apply O0|by rewrite Hm in Hm'].
    + intros p Hp E. rewrite Em. apply (li_mode _ _ _ _ _ HL); [done..|]. by rewrite E, Eu.
    + intros u Hu Hm. destruct (Hl u Hu Hm) as [Hv _]. destruct (li_past _ _ _ _ _ HL l u Hv) as [P1 P2 P3 P4].
      split; [|split].
      * constructor; unfold never, begun, unstarted in *; rewrite ?Ec, ?Eun; auto.
        -- intros Hnv. destruct (tl_creation l) as [c|] eqn:E; [by apply P1|].
           apply (li_waiting _ _ _ _ _ HL l); [done|done|]. unfold waiting. by rewrite E.
        -- intros Hs. destruct (P4 Hs) as [Hp ?]. auto.
      * unfold waiting. rewrite Ec. by apply (li_waiting _ _ _ _ _ HL l).
      * intros p Hp. destruct (li_follows _ _ _ _ _ HL p l u Hnow Hv Hp) as [F1 F2 F3].
        constructor; rewrite ?Ec; auto. intros Hne E. by apply (F2 Hne), El.
  - apply (secret_version T); [done| |done]. intros u Hu Hm. left. exists l. by apply Hl.
  - eapply tasks_later; [apply (with_version_extends (past w) l')|apply (ti_held _ _ _ _ _ _ HT)|done].
Qed.

Lemma step_inv T lic w w' :
  world_inv T lic w -> tstep parse_rfc3339 to_rfc3339 ns name w w' -> exists T' lic', world_inv T' lic' w'.
Proof.
  intros HW Hs. pose proof HW as [HL HS HT]. pose proof (ti_held _ _ _ _ _ _ HT) as HH.
  destruct Hs as [k p Hk Hp|k X q c x w' Hk Hq|k j X q c x Hk Hj Hx|k|l Hnow Hl|l l' Hnow Hl| |s u Hnow Hu|s s' Hnow Eu Eo|s u Hnow Hu Hf Ho].
  - exists T, lic. constructor; [done..|]. apply task_insert; [done|]. apply lawful_any, entry_lawful; [|done].
    by apply (li_good _ _ _ _ _ HL).
  - by eapply serve_inv.
  - by eapply late_inv.
  - exists T, lic. constructor; [done..|]. destruct HT as [Hl _]. constructor; [|done]. intros j p. cbn.
    intros Hj. apply lookup_delete_Some in Hj as [_ Hj]. by apply Hl.
  - exists T, lic. by apply new_lease_inv.
  - exists T, lic. by eapply elsewhere_inv.
  - exists T, lic. constructor; [|done..]. destruct HL. by constructor.
  - exists T, lic. rewrite Hnow in HS. constructor; [by apply (lease_secrets _ _ _ [] [u])|by apply (secret_drop _ _ s)|].
    eapply tasks_later; [apply (with_secrets_extends (past w) [] [u])|done|done].
  - exists T, lic. rewrite Hnow in HS. constructor; [by apply (lease_secrets _ _ _ [s'] [])|by apply (secret_edit _ _ s)|].
    eapply tasks_later; [apply (with_secrets_extends (past w) [s'] [])|done|done].
  - exists T, lic. rewrite Hnow in HS. constructor; [by apply (lease_secrets _ _ _ [s] [])| |].
    + apply (secret_new T _ _ _ u); auto. intros v Hv. unfold TokenSystem.owned in Hv. by rewrite Ho in Hv.
    + eapply tasks_later; [apply (with_secrets_extends (past w) [s] [])|done|done].
Qed.

Lemma token_reachable_inv w : reachable parse_rfc3339 to_rfc3339 ns name w -> exists T lic, world_inv T lic w.
Proof.
  unfold reachable. intros Hr. apply rtc_ind_r with (P := fun w => exists T lic, world_inv T lic w) (x := empty_world) in Hr; [done| |].
  - exists ∅, (fun _ => None). constructor; constructor; unfold version_of; cbn; try done; try tauto. by intros u [t Ht].
  - intros y z _ Hs (T & lic & HI). by eapply step_inv.
Qed.
End Steps.
