(* ===== verification/TokenTheorems.v ===== *)
(** * What the connect-token protocol guarantees

    In every reachable world: a lease whose cleanup is verified has had at most
    one Secret, a [Closed] attempt leaves none of them, and a proof that nothing
    was ever bound is final.  Then a server that answers requests in turn, and
    two runs on it. *)

From S2P Require Import Prelude Text Teardown StateMachine Objects LeaseBinding LeaseController LedgerApi ConnectToken TokenSystem TokenWorld TokenSteps.

Local Open Scope kobe_scope.

Section Theorems.
Context (parse_rfc3339 : string -> option Z) (to_rfc3339 : Z -> string) (ns name : string).

(** C15. Whatever tasks run, stop and answer late: if [p] is any version that was
    ever stored of verified lease [u], then all Secrets ever owned by [u] are
    one; and if the attempt of [p] was [Closed], no Secret of [u] is there, now
    or after any further steps. *)
Theorem closed_token_is_gone w u p :
  reachable parse_rfc3339 to_rfc3339 ns name w -> version_of (past w) u p ->
  (forall s s', In s (hs (past w)) -> In s' (hs (past w)) -> connect_token_owner_uid s name = Some u ->
     connect_token_owner_uid s' name = Some u -> sec_uid s = sec_uid s') /\
  (forall c, tl_creation p = Some c -> creation_phase c = ConnectTokenCreationPhase.Closed ->
     forall s, secret_now w = Some s -> connect_token_owner_uid s name <> Some u).
Proof.
  intros Hr Hp. destruct (token_reachable_inv _ _ _ _ w Hr) as (T & lic & [HL HS _]). split.
  - intros s s' Hs Hs' Ho Ho'. destruct (si_owned _ _ _ _ HS s u p Hs Ho Hp) as (v & -> & E).
    destruct (si_owned _ _ _ _ HS s' u p Hs' Ho' Hp) as (v' & -> & E'). congruence.
  - intros c Ec Hc s Hnow Ho. destruct (si_now _ _ _ _ HS s Hnow) as (Hs & v & Ev & Hv).
    destruct (si_owned _ _ _ _ HS s u p Hs Ho Hp) as (v' & Ev' & E). rewrite Ev in Ev'. injection Ev' as <-.
    pose proof (li_past _ _ _ _ _ HL p u Hp) as [P1 _ P3 _]. destruct (token_identity c) as [i|] eqn:Ei.
    + rewrite (P3 c i Ec Ei) in E. injection E as <-. destruct Hp as (Hin & Hu & _).
      destruct (lo_creation _ _ _ _ (li_good _ _ _ _ _ HL p Hin) c Ec) as (_ & b & _ & Ha).
      destruct (Ha u Hu) as (_ & _ & Hd). rewrite Hc in Hd. by apply Hv, Hd.
    + rewrite P1 in E; [done|]. unfold never. by rewrite Ec.
Qed.

(** C16. A stored proof that lease [u] was never bound is final: no Secret was
    ever owned by [u], and no version of it, before or after, opens the fence
    under which an instance is reserved for a binding. *)
Theorem never_bound_is_final w u p :
  reachable parse_rfc3339 to_rfc3339 ns name w -> version_of (past w) u p -> is_Some (tl_unbound_at p) ->
  (forall s, In s (hs (past w)) -> connect_token_owner_uid s name <> Some u) /\
  (forall q b, In q (hv (past w)) -> tl_uid q = Some u -> reserve_lease_fence b (tl_lease q) = false).
Proof.
  intros Hr Hp Hub. destruct (token_reachable_inv _ _ _ _ w Hr) as (T & lic & [HL HS _]).
  pose proof (li_past _ _ _ _ _ HL p u Hp) as [P1 _ _ P4]. destruct (P4 Hub) as [Hph Hun].
  assert (T !! u = None) as HT.
  { apply P1. unfold never, unstarted in *. by destruct (tl_creation p). }
  split.
  - intros s Hs Ho. destruct (si_owned _ _ _ _ HS s u p Hs Ho Hp) as (v & _ & E). by rewrite HT in E.
  - intros q b Hq Hu. apply not_true_iff_false. intros Hf.
    assert (version_of (past w) u q) as Hv.
    { split; [done|]. split; [done|]. destruct Hp as (Hin & Hu' & <-). apply (li_mode _ _ _ _ _ HL); [done..|congruence]. }
    pose proof (li_past _ _ _ _ _ HL q u Hv) as [_ P2 _ _].
    destruct (lo_binding _ _ _ _ (li_good _ _ _ _ _ HL q Hq) b) as [Hm _].
    { unfold reserve_lease_fence in Hf. rewrite !andb_true_iff, !bool_decide_eq_true in Hf.
      destruct Hf as [[_ Hb] _]. exact Hb. }
    unfold reserve_lease_fence, token_ready in Hf. rewrite !andb_true_iff in Hf. destruct Hf as [_ Hf].
    destruct Hv as (_ & _ & Hvm). rewrite Hm, Hvm in Hf. cbn in Hf.
    destruct (connect_token_creation _) as [c|] eqn:Ec; [|done]. rewrite andb_true_iff, bool_decide_eq_true in Hf.
    destruct Hf as [Hf _]. destruct P2 as [t Ht]; [|by rewrite HT in Ht]. exists c. split; [exact Ec|]. by rewrite Hf.
Qed.
End Theorems.

(** ** A server that answers in turn *)

Section Run.
Context (parse_rfc3339 : string -> option Z) (to_rfc3339 : Z -> string) (ns name : string).

Definition marks (n : nat) : string := Nat.iter n (String "i"%char) "".

Definition answer (w : TokenWorld) {X} (q : treq X) : X * TokenWorld :=
  let rv := marks (length (hv (past w))) in
  let u := marks (S (length (hs (past w)))) in
  let used := existsb (fun l => str_opt_eqb (tl_version l) (Some rv)) (hv (past w))
              || existsb (String.eqb u) (hd (past w)) || existsb (fun s => str_opt_eqb (sec_uid s) (Some u)) (hs (past w)) in
  let ours n := String.eqb n (connect_secret_name name) in
  match q in treq X return X * TokenWorld with
  | TqGetLease n => (match lease_now w with Some l => Ok l | None => Err (Api 404 None) end, w)
  | TqGetSecret n => (match secret_now w with Some s => Ok s | None => Err (Api 404 None) end, w)
  | TqCreateSecret s =>
      if is_none (secret_now w) && str_opt_eqb (sec_name s) (Some (connect_secret_name name)) && negb used
      then (Ok (stamp_secret s u rv), store_secret w (stamp_secret s u rv)) else (Err (Api 409 None), w)
  | TqPatchLease p =>
      match l ← lease_now w; apply_lease_patch p l with
      | Some l' => if used then (Err (Api 409 None), w) else (Ok (stamp_lease l' rv), store_lease w (stamp_lease l' rv))
      | None => (Err (Api 409 None), w)
      end
  | TqDeleteSecret n u v =>
      match secret_now w with
      | Some s => if ours n && str_opt_eqb (sec_uid s) (Some u) && str_opt_eqb (sec_version s) v
                  then (Ok tt, drop_secret w u) else (Err (Api 409 None), w)
      | None => (Err (Api 404 None), w)
      end
  | TqInstallToken n u v token =>
      match secret_now w with
      | Some s => if ours n && str_opt_eqb (sec_uid s) (Some u) && str_opt_eqb (sec_version s) (Some v)
                  then (Ok (with_token s rv token), store_secret w (with_token s rv token)) else (Err (Api 409 None), w)
      | None => (Err (Api 404 None), w)
      end
  | TqAdopt b => (Ok LeaseController.Occupied, w)
  | TqListInstances => (Ok [], w)
  | TqUuid => ("attempt", w)
  | TqRandomToken => ("token", w)
  | TqNow => (0, w)
  end.

(** [n] requests of task [k]. *)
Fixpoint execute (n k : nat) (w : TokenWorld) : TokenWorld :=
  match n, running w !! k with
  | S n, Some (TCall q c) =>
      let (x, w') := answer w q in execute n k (with_running w' (<[k := c x]> (running w)))
  | _, _ => w
  end.

Definition start (k : nat) (p : tprog unit) (w : TokenWorld) : TokenWorld := with_running w (<[k := p]> (running w)).

Lemma existsb_false {A} (f : A -> bool) l x : existsb f l = false -> In x l -> f x = false.
Proof. intros He Hin. destruct (f x) eqn:E; [|done]. by rewrite (proj2 (existsb_exists f l)) in He; [|exists x]. Qed.

Lemma answer_serve w X (q : treq X) : serve name w q (answer w q).1 (answer w q).2 /\ running (answer w q).2 = running w.
Proof.
  unfold answer. set (rv := marks (length _)). set (u := marks (S _)). set (used := existsb _ _ || _ || _).
  assert (used = false -> fresh_version (past w) rv /\ fresh_secret (past w) u) as Hu.
  { unfold used. rewrite !orb_false_iff. intros [[H1 H2] H3]. split; [|split].
    - intros l Hin E. apply (existsb_false _ _ l) in H1; [|done]. cbn beta in H1. by rewrite (proj2 (str_opt_eqb_eq _ _) E) in H1.
    - intros Hin. apply (existsb_false _ _ u) in H2; [|done]. by rewrite String.eqb_refl in H2.
    - intros s Hin E. apply (existsb_false _ _ s) in H3; [|done]. cbn beta in H3. by rewrite (proj2 (str_opt_eqb_eq _ _) E) in H3. }
  destruct q; cbn; try done.
  - split; [split; [done|]|done]. by destruct (secret_now w) eqn:E.
  - destruct (is_none _ && _ && _) eqn:E; [|split; [left; split; [done|left; by eexists]|done]].
    rewrite !andb_true_iff, str_opt_eqb_eq, negb_true_iff in E. destruct E as [[En Es] Eu]. split; [|done].
    right. destruct (secret_now w); [done|]. split; [done|]. split; [done|]. exists u, rv. split; [by apply Hu|]. auto.
  - destruct (secret_now w) as [s|] eqn:Es; [|split; [by left|done]].
    destruct (_ && _ && _) eqn:E; [|split; [by left|done]]. split; [|done]. right.
    rewrite !andb_true_iff, !str_opt_eqb_eq, String.eqb_eq in E. destruct E as [[En Eu] Ev]. by exists s, rv.
  - destruct (secret_now w) as [s|] eqn:Es; [|split; [by left|done]].
    destruct (_ && _ && _) eqn:E; [|split; [by left|done]]. split; [|done]. right.
    rewrite !andb_true_iff, !str_opt_eqb_eq, String.eqb_eq in E. destruct E as [[En Eu] Ev]. exists s.
    split_and!; auto. intros r ->. done.
  - split; [split; [done|]|done]. by destruct (lease_now w).
  - destruct (lease_now w) as [l|] eqn:El; cbn; [|split; [left; split; [done|by eexists]|done]].
    destruct (apply_lease_patch p l) as [l'|] eqn:Ea; [|split; [left; split; [done|by eexists]|done]].
    destruct used; [split; [left; split; [done|by eexists]|done]|]. split; [|done]. right. exists l, l', rv.
    split_and!; auto. by apply Hu.
Qed.

Lemma execute_steps n k w : rtc (tstep parse_rfc3339 to_rfc3339 ns name) w (execute n k w).
Proof.
  revert w. induction n as [|n IH]; intros w; cbn; [done|]. destruct (running w !! k) as [[r|X q c]|] eqn:Ek; [done| |done].
  destruct (answer_serve w X q) as [Hs _]. destruct (answer w q) as [x w']. eapply rtc_l; [by eapply ts_serve|apply IH].
Qed.

Lemma run_reachable n k p w :
  reachable parse_rfc3339 to_rfc3339 ns name w -> running w !! k = None -> entry parse_rfc3339 to_rfc3339 ns name (past w) p ->
  reachable parse_rfc3339 to_rfc3339 ns name (execute n k (start k p w)).
Proof.
  intros Hr Hk Hp. unfold reachable. etrans; [exact Hr|]. etrans; [|apply execute_steps].
  by apply rtc_once, ts_start.
Qed.

Lemma step_reachable w w' :
  reachable parse_rfc3339 to_rfc3339 ns name w -> tstep parse_rfc3339 to_rfc3339 ns name w w' ->
  reachable parse_rfc3339 to_rfc3339 ns name w'.
Proof. intros Hr Hs. unfold reachable. by eapply rtc_r. Qed.
End Run.

(** ** Two runs *)

#[local] Abbreviation sample_parse := (fun _ : string => Some 0).
#[local] Abbreviation sample_show := (fun _ : Z => "now").

Definition token_sample_binding : LeaseBinding :=
  {| binding_id := "b"; binding_lease := {| ref_name := "l"; ref_uid := Some "u" |};
     binding_instance := {| bound_name := "i"; bound_uid := "iu"; observed_generation := 1 |};
     binding_pool := {| ref_name := "p"; ref_uid := Some "pu" |};
     backend := {| provenance_type := K3s; provenance_digest := ""; capi := None |};
     instance_spec_digest := ""; cleanup_mode := VerifiedDestroy; creation_manifest_digest := None;
     creation_manifest := None; connect_token := None |}.

Definition token_sample_lease : TokenLease :=
  {| tl_lease :=
       {| lease_metadata := {| meta_name := "l"; meta_uid := Some "u"; meta_generation := Some 1;
                               resource_version := Some "v"; deletion_timestamp := None; owner_references := None |};
          lease_pool_ref := "p"; lease_ttl := "1h"; requester_type := "ci"; lease_cleanup_mode := Some VerifiedDestroy;
          lease_status := Some default_lease_status |};
     tl_annotations := {[CONNECT_TOKEN_CREATE_FENCE_ANNOTATION := "true"]}; tl_finalizers := []; tl_attempt := None;
     tl_unbound_at := None; tl_receipt := None; tl_evidence := None; tl_acknowledgement := None; tl_conditions := [] |}.

Definition lease_of (w : TokenWorld) : TokenLease := default token_sample_lease (lease_now w).

Definition released_lease (l : TokenLease) : TokenLease :=
  let st := tl_status l in
  stamp_lease (with_tl_status l
    {| lease_phase := ClusterLeasePhase.Released; cluster_name := cluster_name st; lease_status_binding := lease_status_binding st;
       bound_at := bound_at st; expires_at := expires_at st; extensions_count := extensions_count st;
       lease_max_extensions := lease_max_extensions st; connect_token_creation := connect_token_creation st;
       lease_message := lease_message st |}) "released".

(** The lease gets a binding and its task takes [n] requests; then it is
    released. *)
Definition bound_world (n : nat) : TokenWorld :=
  execute "l" n 0 (start 0 (ignore (write_binding_intent sample_show "ns" token_sample_lease token_sample_binding))
                     (store_lease empty_world token_sample_lease)).
Definition released_world (n : nat) : TokenWorld := store_lease (bound_world n) (released_lease (lease_of (bound_world n))).

(** A pass over the lease as it is stored. *)
Definition pass (k : nat) (w : TokenWorld) : TokenWorld :=
  execute "l" 20 k (start k (ignore (terminate_verified sample_parse sample_show "ns" false (lease_of w))) w).
Definition passes (w : TokenWorld) : TokenWorld := pass 3 (pass 2 (pass 1 w)).

(** Stopped before the dispatch: no Secret, and the proof of it. *)
Example stopped_early : let w := passes (released_world 2) in
  secret_now w = None /\ hs (past w) = [] /\ tl_unbound_at (lease_of w) = Some "now".
Proof. vm_compute. split_and!; reflexivity. Qed.

(** Run to the end: the Secret is there with its token, and gone after the
    release. *)
Example run_to_the_end :
  (tl_creation (lease_of (bound_world 20)) ≫= fun c => Some (creation_phase c)) = Some ConnectTokenCreationPhase.Ready /\
  (secret_now (bound_world 20) ≫= sec_token) = Some "token" /\
  (let w := passes (released_world 20) in
   secret_now w = None /\ (tl_creation (lease_of w) ≫= fun c => Some (creation_phase c)) = Some ConnectTokenCreationPhase.Closed).
Proof. vm_compute. split_and!; reflexivity. Qed.

#[local] Abbreviation sample_reachable := (reachable sample_parse sample_show "ns" "l").

Lemma released_elsewhere h l :
  existsb (fun l => str_opt_eqb (tl_version l) (Some "released")) (hv h) = false -> elsewhere "l" h l (released_lease l).
Proof.
  intros Hf. constructor; try reflexivity; [|by left|by intros [=]]. exists "released". split; [reflexivity|].
  intros v Hv E. apply (existsb_false _ _ v) in Hf; [|done]. cbn beta in Hf.
  by rewrite (proj2 (str_opt_eqb_eq _ _) E) in Hf.
Qed.

Lemma released_reachable n : n = 2%nat \/ n = 20%nat -> sample_reachable (released_world n).
Proof.
  intros Hn. unfold released_world. eapply step_reachable with (w := bound_world n).
  - apply run_reachable; [|done|].
    + eapply step_reachable; [by apply rtc_refl|]. apply ts_create_lease; [done|].
      constructor; try done.
      * exists "u". split; [done|]. split; [done|]. by intros ? [].
      * exists "v". split; [done|]. by intros ? [].
    + apply en_intent with (u := "u"); [split; [by left|done]|done..].
  - apply ts_write_lease with (l := lease_of (bound_world n)).
    + destruct Hn as [-> | ->]; vm_compute; reflexivity.
    + apply released_elsewhere. destruct Hn as [-> | ->]; vm_compute; reflexivity.
Qed.

Definition may_pass (k : nat) (w : TokenWorld) : bool :=
  is_none (running w !! k) && is_some (lease_now w) && str_opt_eqb (tl_uid (lease_of w)) (Some "u")
  && is_terminal_phase (tl_phase (lease_of w)).

Lemma pass_reachable k w : sample_reachable w -> may_pass k w = true -> sample_reachable (pass k w).
Proof.
  unfold may_pass. rewrite !andb_true_iff, str_opt_eqb_eq. intros Hr [[[Hk Hl] Hu] Ht].
  destruct (token_reachable_inv _ _ _ _ w Hr) as (T & lic & [HL _ _]). apply run_reachable; [done|by destruct (running w !! k)|].
  apply en_terminate with (u := "u"); [split; [|done]|done]. apply (li_now _ _ _ _ _ HL).
  unfold lease_of. by destruct (lease_now w).
Qed.

Lemma passes_reachable n : n = 2%nat \/ n = 20%nat -> sample_reachable (passes (released_world n)).
Proof.
  intros Hn. unfold passes. repeat (apply pass_reachable; [|destruct Hn as [-> | ->]; vm_compute; reflexivity]).
  by apply released_reachable.
Qed.

Lemma closed_token_is_gone_witness :
  let w := passes (released_world 20) in let p := lease_of w in
  (tl_creation p ≫= fun c => Some (creation_phase c)) = Some ConnectTokenCreationPhase.Closed /\ length (hs (past w)) = 2%nat /\
  forall s s', In s (hs (past w)) -> In s' (hs (past w)) -> connect_token_owner_uid s "l" = Some "u" ->
    connect_token_owner_uid s' "l" = Some "u" -> sec_uid s = sec_uid s'.
Proof.
  split; [vm_compute; reflexivity|]. split; [vm_compute; reflexivity|].
  apply (closed_token_is_gone sample_parse sample_show "ns" "l" _ "u" (lease_of (passes (released_world 20)))).
  - apply passes_reachable. by right.
  - split; [vm_compute; left; reflexivity|split; vm_compute; reflexivity].
Defined.

Lemma never_bound_is_final_witness :
  let w := passes (released_world 2) in
  tl_unbound_at (lease_of w) = Some "now" /\
  forall q b, In q (hv (past w)) -> tl_uid q = Some "u" -> reserve_lease_fence b (tl_lease q) = false.
Proof.
  split; [vm_compute; reflexivity|].
  apply (never_bound_is_final sample_parse sample_show "ns" "l" _ "u" (lease_of (passes (released_world 2)))).
  - apply passes_reachable. by left.
  - split; [vm_compute; left; reflexivity|split; vm_compute; reflexivity].
  - exists "now". vm_compute. reflexivity.
Defined.
