(* ===== verification/Reaper.v ===== *)
(** * The node-side reaper

    Model of src/reaper/ and of the live set it reads
    (src/controllers/live_set.rs): which entries of the lease root are stale,
    the mounts below one, the sweep that unmounts and removes them, and the sweep
    of empty container cgroups.  A sweep is a value of [rprog]: its system calls
    and API requests in order, with what it does on each answer. *)

From S2P Require Import Prelude Text Durations PoolManager PolicyObjects.

Local Open Scope kobe_scope.

(** ** Text *)

Definition LF : ascii := "010"%char.
Definition CR : ascii := "013"%char.

(** [s.lines()]: the last line may lack its terminator. *)
Definition line_of (piece : string) : string := default piece (strip_suffix_char CR piece).

Fixpoint lines_of (pieces : list string) : list string :=
  match pieces with
  | [] => []
  | [last] => if String.eqb last "" then [] else [last]
  | piece :: pieces => line_of piece :: lines_of pieces
  end.

Definition lines (s : string) : list string := lines_of (split_char LF s).

(** ** Paths

    [components] of a Unix path: empty and [.] pieces do not count, except a
    leading [.]. *)
Definition ROOT_DIR : string := "/".

Definition is_component (piece : string) : bool := negb (String.eqb piece "") && negb (String.eqb piece ".").

Definition components (path : string) : list string :=
  match split_char "/" path with
  | "" :: pieces => if String.eqb path "" then [] else ROOT_DIR :: List.filter is_component pieces
  | first :: pieces => first :: List.filter is_component pieces
  | [] => []
  end.

Fixpoint is_prefix (p l : list string) : bool :=
  match p, l with
  | [], _ => true
  | a :: p, b :: l => String.eqb a b && is_prefix p l
  | _ :: _, [] => false
  end.

(** [mountpoint == root || mountpoint.starts_with(root)]. *)
Definition lies_under (root path : string) : bool := is_prefix (components root) (components path).

Definition ends_with_slash (path : string) : bool :=
  match rev_str path "" with String c _ => Ascii.eqb c "/" | EmptyString => true end.

(** [path.join(name)] for a name without a slash. *)
Definition path_join (path name : string) : string := if ends_with_slash path then path +:+ name else path +:+ "/" +:+ name.

(** ** src/reaper/classify.rs *)

Inductive FileKind : Type := RealDir | SymlinkOrOther.
#[global] Instance FileKind_eq_dec : EqDecision FileKind.
Proof. solve_decision. Defined.

Record HostEntry : Type := {
  host_name : string;
  host_path : string;
  mtime : Z;
  host_kind : FileKind;
}.

Record StaleEntry : Type := { stale_name : string; stale_path : string }.

(** [^[a-z0-9]([a-z0-9-]*[a-z0-9])?$]. *)
Definition name_re (name : string) : bool :=
  let alnum c := is_ascii_lowercase c || is_ascii_digit c in
  match name, rev_str name "" with
  | String first _, String last _ => alnum first && alnum last && all_bytes (fun c => alnum c || Ascii.eqb c "-") name
  | _, _ => false
  end.

(** [duration_since] fails on an instant in the future. *)
Definition too_fresh (now mtime_skip modified : Z) : bool := (modified <=? now) && (now - modified <? mtime_skip).

Definition classify_entry (live : gset string) (now mtime_skip : Z) (e : HostEntry) : option StaleEntry :=
  if negb (name_re (host_name e)) then None
  else if negb (bool_decide (host_kind e = RealDir)) then None
  else if bool_decide (host_name e ∈ live) then None
  else if too_fresh now mtime_skip (mtime e) then None
  else Some {| stale_name := host_name e; stale_path := host_path e |}.

Definition classify_entries (live : gset string) (entries : list HostEntry) (now mtime_skip : Z) : list StaleEntry :=
  omap (classify_entry live now mtime_skip) entries.

(** ** src/reaper/mounts.rs *)

(** [out.push(b as char)]: bytes above 127 become two. *)
Definition push_byte (b : Z) : string :=
  if b <? 128 then String (ascii_of_N (Z.to_N b)) ""
  else String (ascii_of_N (Z.to_N (192 + Z.shiftr b 6))) (String (ascii_of_N (Z.to_N (128 + Z.land b 63))) "").

(** [u8::from_str_radix(digits, 8)] of three digits. *)
Definition octal (a b c : ascii) : option Z :=
  let d := digit_value in
  let v := d a * 64 + d b * 8 + d c in
  if (d a <? 8) && (d b <? 8) && (d c <? 8) && (v <=? u8_max) then Some v else None.

Fixpoint decode_octal_escapes (s : string) : string :=
  match s with
  | EmptyString => ""
  | String x rest =>
      let plain := push_byte (byte_of x) +:+ decode_octal_escapes rest in
      match rest with
      | String a (String b (String c rest)) =>
          if Ascii.eqb x "\" && is_ascii_digit a && is_ascii_digit b && is_ascii_digit c then
            match octal a b c with
            | Some v => push_byte v +:+ decode_octal_escapes rest
            | None => plain
            end
          else plain
      | _ => plain
      end
  end.

(** Field 4 of a mountinfo line. *)
Definition parse_line (line : string) : option string := decode_octal_escapes <$> split_whitespace line !! 4%nat.

Definition depth (path : string) : Z := Z.of_nat (length (components path)).

Definition collect_mounts_under (root mountinfo : string) : list string :=
  sort_by (fun a b => Z.compare (depth b) (depth a)) (List.filter (lies_under root) (omap parse_line (lines mountinfo))).

(** ** src/controllers/live_set.rs *)

(** The names of a [BTreeSet], in order. *)
Fixpoint render_instances (names : list string) : string :=
  match names with
  | [] => ""
  | [n] => n
  | n :: names => n +:+ String LF (render_instances names)
  end.

(** ** Programs *)

Record Metadata : Type := { md_is_dir : bool; md_is_symlink : bool; md_modified : option Z }.

Inductive rreq : Type -> Type :=
| RIsDir (path : string) : rreq bool
| RReadFile (path : string) : rreq (result string unit)
| RReadDir (path : string) : rreq (result (list (result string unit)) unit)
| RStat (path : string) : rreq (result Metadata unit)
| RNow : rreq Z
| RListInstances (name : string) : rreq (result nat unit)
| RUmount (path : string) : rreq (result unit unit)
| RRemoveAll (path : string) : rreq (result unit unit)
| RRemoveDir (path : string) : rreq (result unit bool).

Inductive rprog (R : Type) : Type :=
| RRet (r : R)
| RCall {X : Type} (q : rreq X) (k : X -> rprog R).
Arguments RRet {R} r.
Arguments RCall {R X} q k.

Fixpoint rbind {A B} (p : rprog A) (f : A -> rprog B) : rprog B :=
  match p with
  | RRet a => f a
  | RCall q k => RCall q (fun x => rbind (k x) f)
  end.

Definition rcall {X} (q : rreq X) : rprog X := RCall q RRet.

Notation "'rdo' x := p 'in' k" := (rbind p (fun x => k))
  (at level 10, x pattern, p at level 100, k at level 200,
   format "'[v' 'rdo'  x  :=  p  'in' '/' k ']'") : kobe_scope.

(** ** src/reaper/sweep.rs *)

(** [disabled] is [KOBE_REAPER_DISABLE=1], read at every tick. *)
Record SweepParams : Type := {
  lease_root : string;
  live_set_path : string;
  mountinfo_path : string;
  mtime_skip : Z;
  dry_run : bool;
  skip_get : bool;
  disabled : bool;
}.

Inductive SkipReason : Type := ApiserverUnreachable | LiveSetLag | UmountFailed | RmFailed | DryRun.
Inductive SweepOutcome : Type := Reaped | Skipped (r : SkipReason).
#[global] Instance SkipReason_eq_dec : EqDecision SkipReason.
Proof. solve_decision. Defined.
#[global] Instance SweepOutcome_eq_dec : EqDecision SweepOutcome.
Proof. solve_decision. Defined.

Definition skip_as_str (r : SkipReason) : string :=
  match r with
  | ApiserverUnreachable => "apiserver_unreachable"
  | LiveSetLag => "live_set_lag"
  | UmountFailed => "umount_failed"
  | RmFailed => "rm_failed"
  | DryRun => "dry_run"
  end.

Definition parse_live_set (content : string) : list string :=
  List.filter (fun l => negb (String.eqb l "")) (map trim (lines content)).

Definition read_live_set (path : string) : rprog (result (gset string) unit) :=
  rdo content := rcall (RReadFile path) in
  RRet match content with Ok c => Ok (list_to_set (parse_live_set c)) | Err e => Err e end.

(** The modification time of an entry without one is the epoch. *)
Definition host_entry (name path : string) (md : Metadata) : HostEntry :=
  {| host_name := name; host_path := path; mtime := default 0 (md_modified md);
     host_kind := if md_is_dir md && negb (md_is_symlink md) then RealDir else SymlinkOrOther |}.

Fixpoint stat_entries (root : string) (items : list (result string unit)) : rprog (list HostEntry) :=
  match items with
  | [] => RRet []
  | Err _ :: items => stat_entries root items
  | Ok name :: items =>
      rdo md := rcall (RStat (path_join root name)) in
      rdo rest := stat_entries root items in
      RRet match md with Ok md => host_entry name (path_join root name) md :: rest | Err _ => rest end
  end.

Definition list_host_entries (root : string) : rprog (result (list HostEntry) unit) :=
  rdo items := rcall (RReadDir root) in
  match items with
  | Err e => RRet (Err e)
  | Ok items => rdo entries := stat_entries root items in RRet (Ok entries)
  end.

(** Deepest first; a failure ends the entry's turn. *)
Fixpoint umount_all (mounts : list string) : rprog bool :=
  match mounts with
  | [] => RRet true
  | m :: mounts =>
      rdo r := rcall (RUmount m) in
      match r with Ok _ => umount_all mounts | Err _ => RRet false end
  end.

(** The last look at the API server: why the entry is left alone. *)
Definition final_check (skip_get : bool) (name : string) : rprog (option SkipReason) :=
  if skip_get then RRet None
  else
    rdo found := rcall (RListInstances name) in
    RRet match found with
         | Ok O => None
         | Ok (S _) => Some LiveSetLag
         | Err _ => Some ApiserverUnreachable
         end.

Definition process_stale (p : SweepParams) (s : StaleEntry) : rprog (result SweepOutcome unit) :=
  rdo kept := final_check (skip_get p) (stale_name s) in
  match kept with
  | Some reason => RRet (Ok (Skipped reason))
  | None =>
      rdo mountinfo := rcall (RReadFile (mountinfo_path p)) in
      match mountinfo with
      | Err e => RRet (Err e)
      | Ok mountinfo =>
          let mounts := collect_mounts_under (stale_path s) mountinfo in
          if dry_run p then RRet (Ok (Skipped DryRun))
          else
            rdo detached := umount_all mounts in
            if negb detached then RRet (Ok (Skipped UmountFailed))
            else
              rdo removed := rcall (RRemoveAll (stale_path s)) in
              RRet (Ok match removed with Ok _ => Reaped | Err _ => Skipped RmFailed end)
      end
  end.

Fixpoint process_all (p : SweepParams) (stale : list StaleEntry) : rprog nat :=
  match stale with
  | [] => RRet O
  | s :: stale =>
      rdo outcome := process_stale p s in
      rdo cleaned := process_all p stale in
      RRet match outcome with Ok Reaped => S cleaned | _ => cleaned end
  end.

Definition sweep_once (p : SweepParams) : rprog (result nat unit) :=
  if disabled p then RRet (Ok O)
  else
    rdo present := rcall (RIsDir (lease_root p)) in
    if negb present then RRet (Ok O)
    else
      rdo live := read_live_set (live_set_path p) in
      match live with
      | Err _ => RRet (Ok O)
      | Ok live =>
          rdo entries := list_host_entries (lease_root p) in
          match entries with
          | Err e => RRet (Err e)
          | Ok entries =>
              rdo now := rcall RNow in
              rdo cleaned := process_all p (classify_entries live entries now (mtime_skip p)) in
              RRet (Ok cleaned)
          end
      end.

(** ** src/reaper/cgroups.rs *)

Definition is_full_container_id (name : string) : bool :=
  (str_len name =? 64) && all_bytes (fun c => is_ascii_digit c || ((97 <=? byte_of c) && (byte_of c <=? 102))) name.

Definition unpopulated (events : string) : bool :=
  existsb (fun line => bool_decide (split_whitespace line = ["populated"; "0"])) (lines events).

Definition is_reapable (path : string) (now mtime_skip : Z) : rprog bool :=
  rdo md := rcall (RStat path) in
  match (match md with Ok md => md_modified md | Err _ => None end) with
  | None => RRet false
  | Some modified =>
      if too_fresh now mtime_skip modified then RRet false
      else
        rdo events := rcall (RReadFile (path_join path "cgroup.events")) in
        match events with
        | Err _ => RRet false
        | Ok events =>
            if negb (unpopulated events) then RRet false
            else
              rdo procs := rcall (RReadFile (path_join path "cgroup.procs")) in
              RRet match procs with Ok procs => String.eqb (trim procs) "" | Err _ => false end
        end
  end.

(** An entry of the cgroup root; [RRemoveDir] is not recursive. *)
Definition reap_cgroup (root : string) (now mtime_skip : Z) (dry_run : bool) (item : result string unit) : rprog bool :=
  match item with
  | Err _ => RRet false
  | Ok name =>
      if negb (is_full_container_id name) then RRet false
      else
        let path := path_join root name in
        rdo md := rcall (RStat path) in
        match md with
        | Err _ => RRet false
        | Ok md =>
            if negb (md_is_dir md) || md_is_symlink md then RRet false
            else
              rdo reapable := is_reapable path now mtime_skip in
              if negb reapable then RRet false
              else if dry_run then RRet false
              else
                rdo removed := rcall (RRemoveDir path) in
                RRet match removed with Ok _ => true | Err _ => false end
        end
  end.

Fixpoint reap_cgroups (root : string) (now mtime_skip : Z) (dry_run : bool) (items : list (result string unit)) : rprog nat :=
  match items with
  | [] => RRet O
  | item :: items =>
      rdo removed := reap_cgroup root now mtime_skip dry_run item in
      rdo cleaned := reap_cgroups root now mtime_skip dry_run items in
      RRet (if removed then S cleaned else cleaned)
  end.

Definition reap_empty_container_cgroups (root : string) (now mtime_skip : Z) (dry_run disabled : bool)
  : rprog (result nat unit) :=
  if disabled then RRet (Ok O)
  else
    rdo present := rcall (RIsDir root) in
    if negb present then RRet (Ok O)
    else
      rdo items := rcall (RReadDir root) in
      match items with
      | Err e => RRet (Err e)
      | Ok items => rdo cleaned := reap_cgroups root now mtime_skip dry_run items in RRet (Ok cleaned)
      end.

(** ** src/host_reaper_bin.rs *)

(** [parse_duration], in seconds. *)
Definition parse_reaper_duration (s : string) : option Z :=
  match rev_str s "" with
  | EmptyString => None
  | String last rest =>
      n ← parse_uint u64_max (rev_str rest "");
      let scaled k := if n * k <=? u64_max then Some (n * k) else None in
      if Ascii.eqb last "s" then Some n
      else if Ascii.eqb last "m" then scaled 60
      else if Ascii.eqb last "h" then scaled 3600
      else None
  end.
