(* ===== verification/ReaperProps.v ===== *)
(** * What the reaper may destroy

    The answers to a sweep are arbitrary; what it unmounts and removes is
    justified by the answers it had before. *)

From S2P Require Import Prelude Text Durations PoolManager PoolActions PoolStatus PolicyObjects Reaper.

Local Open Scope kobe_scope.

(** ** Text *)

Lemma rev_str_String c s acc : rev_str (String c s) acc = rev_str s "" +:+ String c acc.
Proof. cbn. by rewrite rev_str_app. Qed.

Lemma split_char_none c s : all_bytes (fun a => negb (Ascii.eqb a c)) s = true -> split_char c s = [s].
Proof.
  induction s as [|a s IH]; [done|]. cbn. rewrite andb_true_iff, negb_true_iff. intros [-> Hs]. by rewrite IH.
Qed.

Lemma split_char_line c l r : all_bytes (fun a => negb (Ascii.eqb a c)) l = true ->
  split_char c (l +:+ String c r) = l :: split_char c r.
Proof.
  induction l as [|a l IH]; cbn; [by rewrite Ascii.eqb_refl|]. rewrite andb_true_iff, negb_true_iff. intros [-> Hl].
  by rewrite IH.
Qed.

Lemma split_char_nonempty c s : split_char c s <> [].
Proof. destruct s as [|a s]; cbn; [done|]. destruct (Ascii.eqb a c); [done|]. by destruct (split_char c s). Qed.

(** ** The live set

    An instance's name has no white space, so the set is read back as it was
    published. *)
Definition plain_name (n : string) : bool := negb (String.eqb n "") && all_bytes plain_byte n.

Lemma plain_not c s : plain_byte c = false -> all_bytes plain_byte s = true ->
  all_bytes (fun a => negb (Ascii.eqb a c)) s = true.
Proof.
  intros Hc. apply all_bytes_impl. intros a Ha. apply negb_true_iff. destruct (Ascii.eqb_spec a c) as [->|]; [congruence|done].
Qed.

Lemma last_plain n : plain_name n = true -> exists s d, n = s +:+ String d "" /\ plain_byte d = true.
Proof.
  unfold plain_name. destruct n as [|c n]; [done|]. rewrite andb_true_iff. intros [_ Hn]. revert c Hn.
  induction n as [|d n IH]; intros c Hn.
  - exists "", c. cbn in Hn. rewrite andb_true_r in Hn. done.
  - cbn in Hn. rewrite andb_true_iff in Hn. destruct Hn as [_ Hn]. destruct (IH d Hn) as (s & e & E & He).
    exists (String c s), e. split; [|done]. cbn. by rewrite <- E.
Qed.

Lemma trim_name n : plain_name n = true -> trim n = n.
Proof.
  intros Hn. destruct (last_plain n Hn) as (s & d & E & Hd). unfold plain_name in Hn. rewrite andb_true_iff in Hn.
  destruct Hn as [_ Ha], n as [|c n]; [done|]. cbn in Ha. rewrite andb_true_iff in Ha. destruct Ha as [Hc _]. by apply (trim_plain c n d s).
Qed.

Lemma last_char_inj s r c d : s +:+ String c "" = r +:+ String d "" -> c = d.
Proof.
  revert r. induction s as [|a s IH]; intros [|b r]; cbn; intros H.
  - by injection H.
  - injection H as _ E. by destruct r.
  - injection H as _ E. by destruct s.
  - injection H as _ E. by apply (IH r).
Qed.

Lemma line_of_name n : plain_name n = true -> line_of n = n.
Proof.
  intros Hn. destruct (last_plain n Hn) as (s & d & -> & Hd). unfold line_of.
  destruct (strip_suffix_char CR (s +:+ String d "")) as [r|] eqn:E; [|done]. apply strip_suffix_char_Some in E.
  apply last_char_inj in E as ->. done.
Qed.

Lemma live_pieces names : names <> [] -> Forall (fun n => plain_name n = true) names -> split_char LF (render_instances names) = names.
Proof.
  intros Hne Hp. assert (forall n, plain_name n = true -> all_bytes (fun a => negb (Ascii.eqb a LF)) n = true) as Hlf.
  { intros n. unfold plain_name. rewrite andb_true_iff. intros [_ Hn]. by apply plain_not. }
  induction Hp as [|n names Hn Hp IH]; [done|]. destruct names as [|m names]; cbn [render_instances].
  - by apply split_char_none, Hlf.
  - rewrite split_char_line by (by apply Hlf). f_equal. by apply IH.
Qed.

Lemma live_lines names : Forall (fun n => plain_name n = true) names -> lines_of names = names.
Proof.
  induction 1 as [|n names Hn Hp IH]; [done|]. destruct names as [|m names].
  - cbn. unfold plain_name in Hn. rewrite andb_true_iff, negb_true_iff in Hn. destruct Hn as [-> _]. done.
  - cbn [lines_of] in *. by rewrite IH, line_of_name.
Qed.

(** The reaper reads the live set the operator rendered. *)
Theorem live_set_roundtrip names :
  Forall (fun n => plain_name n = true) names -> parse_live_set (render_instances names) = names.
Proof.
  intros Hp. unfold parse_live_set, lines. destruct (decide (names = [])) as [->|Hne]; [done|].
  rewrite live_pieces, live_lines by done. induction Hp as [|n names Hn Hp IH]; [done|]. cbn.
  rewrite trim_name by done. unfold plain_name in Hn. rewrite andb_true_iff in Hn. destruct Hn as [-> _]. f_equal.
  destruct names; [done|]. by apply IH.
Qed.

(** ** Mounts *)

Definition deeper : string -> string -> comparison := fun a b => Z.compare (depth b) (depth a).

#[local] Instance deeper_preorder : TotalPreorder deeper.
Proof.
  unfold deeper. split.
  - intros a b. apply Z.compare_antisym.
  - intros a b c ->%Z.compare_eq. done.
  - intros a b c. rewrite !Z.compare_lt_iff. lia.
Qed.

(** Every collected mount lies under the root and comes from the text. *)
Lemma collected root text m :
  In m (collect_mounts_under root text) <-> lies_under root m = true /\ exists line, In line (lines text) /\ parse_line line = Some m.
Proof.
  unfold collect_mounts_under. rewrite sort_by_In, filter_In. rewrite <- list_elem_of_In, list_elem_of_omap.
  setoid_rewrite list_elem_of_In. tauto.
Qed.

Lemma is_prefix_length p l : is_prefix p l = true -> p = l \/ (length p < length l)%nat.
Proof.
  revert l. induction p as [|a p IH]; intros [|b l]; cbn; try done; [by left|right; lia|].
  rewrite andb_true_iff, String.eqb_eq. intros [-> Hp]. destruct (IH l Hp) as [->|]; [by left|right; lia].
Qed.

(** No mount comes before one that is mounted below it. *)
Lemma children_first root text before m after n :
  collect_mounts_under root text = before ++ m :: after -> In n after -> lies_under m n = true ->
  components m = components n.
Proof.
  intros E Hn Hl. pose proof (sort_by_sorted deeper (List.filter (lies_under root) (omap parse_line (lines text)))) as Hs.
  change (sort_by deeper _) with (collect_mounts_under root text) in Hs. rewrite E in Hs.
  apply StronglySorted_app in Hs as (_ & _ & Hs). apply StronglySorted_inv in Hs as [_ Hs]. rewrite List.Forall_forall in Hs.
  specialize (Hs n Hn). unfold cmp_le, deeper in Hs. destruct (is_prefix_length _ _ Hl) as [|Hlt]; [done|].
  unfold depth in Hs. destruct (Z.compare_spec (Z.of_nat (length (components n))) (Z.of_nat (length (components m)))); [lia|lia|done].
Qed.

(** ** Paths *)

Lemma name_is_component n : name_re n = true -> all_bytes (fun a => negb (Ascii.eqb a "/")) n = true /\ is_component n = true.
Proof.
  unfold name_re. destruct n as [|c n]; [done|]. destruct (rev_str (String c n) "") as [|d t]; [done|].
  rewrite !andb_true_iff. intros [[Hc _] Ha]. split.
  - eapply all_bytes_impl; [|exact Ha]. intros a Ha'. apply negb_true_iff. by destruct (Ascii.eqb_spec a "/") as [->|].
  - unfold is_component. cbn. destruct (Ascii.eqb_spec c "."%char) as [->|]; [done|]. done.
Qed.

Lemma split_char_app c s r : split_char c (s +:+ String c r) = split_char c s ++ split_char c r.
Proof.
  induction s as [|a s IH]; cbn; [by rewrite Ascii.eqb_refl|]. rewrite IH. destruct (Ascii.eqb a c); [done|].
  pose proof (split_char_nonempty c s). by destruct (split_char c s).
Qed.

Definition named (pieces : list string) : list string :=
  match pieces with
  | first :: pieces => (if String.eqb first "" then ROOT_DIR else first) :: List.filter is_component pieces
  | [] => []
  end.

Lemma components_named path : path <> "" -> components path = named (split_char "/" path).
Proof.
  intros Hp. unfold components, named. apply String.eqb_neq in Hp. destruct (split_char "/" path) as [|[|c f] ps]; [done| |done].
  by rewrite Hp.
Qed.

Lemma named_app p q : p <> [] -> named (p ++ q) = named p ++ List.filter is_component q.
Proof. destruct p as [|f p]; [done|]. intros _. cbn. by rewrite List.filter_app. Qed.

Lemma ends_with_slash_spec root : root <> "" -> ends_with_slash root = true -> exists r, root = r +:+ "/".
Proof.
  intros Hr. unfold ends_with_slash. pose proof (rev_str_involutive root "") as E. change (rev_str "" root) with root in E.
  destruct (rev_str root "") as [|c t]; [by rewrite <- E in Hr|]. intros ->%Ascii.eqb_eq.
  exists (rev_str t ""). rewrite <- E. cbn. apply rev_str_app.
Qed.

(** The entry of a name is a directory of its own directly below the root. *)
Lemma components_join root n : root <> "" -> name_re n = true -> components (path_join root n) = components root ++ [n].
Proof.
  intros Hr Hn. destruct (name_is_component n Hn) as [Hs Hc].
  assert (forall r, components (r +:+ String "/" n) = named (split_char "/" r) ++ [n]) as H.
  { intros r. rewrite components_named by (by destruct r). rewrite split_char_app, (split_char_none "/" n) by done.
    rewrite named_app by apply split_char_nonempty. cbn. by rewrite Hc. }
  unfold path_join. destruct (ends_with_slash root) eqn:E.
  - destruct (ends_with_slash_spec root Hr E) as [r ->]. rewrite app_assoc_str. cbn [String.append]. rewrite H.
    rewrite (components_named (r +:+ "/")) by done. change (r +:+ "/") with (r +:+ String "/" "").
    rewrite split_char_app, named_app by apply split_char_nonempty. cbn. by rewrite app_nil_r.
  - cbn [String.append]. by rewrite H, <- components_named.
Qed.

Lemma is_prefix_app p l r : is_prefix (p ++ l) r = true -> is_prefix p r = true.
Proof.
  revert r. induction p as [|a p IH]; intros [|b r]; cbn; try done. rewrite !andb_true_iff. intros [-> ?]. auto.
Qed.

Lemma is_prefix_snoc p a b l : is_prefix (p ++ [a]) l = true -> is_prefix (p ++ [b]) l = true -> a = b.
Proof.
  revert l. induction p as [|c p IH]; intros [|d l]; cbn; try done.
  - rewrite !andb_true_iff, !String.eqb_eq. by intros [-> _] [-> _].
  - rewrite !andb_true_iff. intros [_ ?] [_ ?]. by eapply IH.
Qed.

(** Nothing lies under the entries of two names. *)
Lemma entries_disjoint root a b path : root <> "" -> name_re a = true -> name_re b = true ->
  lies_under (path_join root a) path = true -> lies_under (path_join root b) path = true -> a = b.
Proof.
  intros Hr Ha Hb. unfold lies_under. rewrite !components_join by done. apply is_prefix_snoc.
Qed.

(** ** Runs *)

Inductive revent : Type :=
| REv {X : Type} (q : rreq X) (x : X).

(** [tr] is what a run of [p] asked and was answered, [r] what it returned. *)
Fixpoint rruns {R} (p : rprog R) (tr : list revent) (r : R) : Prop :=
  match p with
  | RRet a => tr = [] /\ r = a
  | RCall q k => exists x tr', tr = REv q x :: tr' /\ rruns (k x) tr' r
  end.

(** The path a request destroys. *)
Definition destroys {X} (q : rreq X) : option string :=
  match q with RUmount path | RRemoveAll path | RRemoveDir path => Some path | _ => None end.

Definition is_removal (e : revent) : bool :=
  match e with
  | REv q x => (match q in rreq X return X -> bool with
                | RRemoveAll _ => fun x => match x with Ok _ => true | Err _ => false end
                | _ => fun _ => false
                end) x
  end.

Definition removals (tr : list revent) : nat := length (List.filter is_removal tr).

(** Whatever is answered, every destructive request of [p] is justified by the
    answers so far, latest first, and [Q] holds of all of them at the end. *)
Section Safe.
Context (J : list revent -> forall X, rreq X -> Prop).

Fixpoint safe {R} (pre : list revent) (p : rprog R) (Q : list revent -> R -> Prop) : Prop :=
  match p with
  | RRet r => Q pre r
  | RCall q k => (is_Some (destroys q) -> J pre _ q) /\ forall x, safe (REv q x :: pre) (k x) Q
  end.

Lemma safe_bind {A B} pre (p : rprog A) (f : A -> rprog B) P Q :
  safe pre p P -> (forall pre' a, incl pre pre' -> P pre' a -> safe pre' (f a) Q) -> safe pre (rbind p f) Q.
Proof.
  revert pre. induction p as [r|X q k IH]; cbn; intros pre Hp Hf; [apply Hf; [apply incl_refl|done]|].
  destruct Hp as [Hj Hk]. split; [done|]. intros x. apply IH; [done|]. intros pre' a Hi. apply Hf.
  eapply incl_tran; [|exact Hi]. by apply incl_tl, incl_refl.
Qed.

Lemma safe_weaken {A} pre (p : rprog A) P Q :
  safe pre p P -> (forall pre' a, P pre' a -> Q pre' a) -> safe pre p Q.
Proof.
  revert pre. induction p as [r|X q k IH]; cbn; intros pre Hp Hf; [by apply Hf|].
  destruct Hp as [Hj Hk]. split; [done|]. intros x. by apply IH.
Qed.

Definition justified (pre : list revent) (e : revent) : Prop :=
  match e with REv q _ => is_Some (destroys q) -> J pre _ q end.

Lemma safe_runs {R} pre (p : rprog R) Q tr r :
  safe pre p Q -> rruns p tr r ->
  Q (rev tr ++ pre) r /\ forall before e after, tr = before ++ e :: after -> justified (rev before ++ pre) e.
Proof.
  revert pre tr. induction p as [a|X q k IH]; cbn; intros pre tr Hs Hr.
  - destruct Hr as [-> ->]. split; [done|]. by intros [] ? ? ?.
  - destruct Hs as [Hj Hk], Hr as (x & tr' & -> & Hr). destruct (IH x _ _ (Hk x) Hr) as [HQ HJ].
    cbn [rev]. rewrite <- app_assoc. split; [done|]. intros [|e' before] e after E; cbn in E.
    + injection E as <- _. exact Hj.
    + injection E as <- E. cbn [rev]. rewrite <- app_assoc. by eapply HJ.
Qed.
End Safe.

(** ** The sweep *)

Section Sweep.
Context (p : SweepParams).

(** The modification time is at least [mtime_skip] in the past, or it is in the
    future. *)
Definition aged (now mtime_skip modified : Z) : Prop := mtime_skip <= now - modified \/ now < modified.

Lemma too_fresh_spec now skip modified : too_fresh now skip modified = false <-> aged now skip modified.
Proof. unfold too_fresh, aged. lia. Qed.

(** The answers so far single out an entry of the lease root: a real directory,
    aged, not in the live set. *)
Definition candidate (pre : list revent) (name : string) : Prop :=
  disabled p = false /\ name_re name = true /\
  (exists content, In (REv (RReadFile (live_set_path p)) (Ok content)) pre /\ ~ In name (parse_live_set content)) /\
  (exists md now, In (REv (RStat (path_join (lease_root p) name)) (Ok md)) pre /\ In (REv RNow now) pre /\
     md_is_dir md = true /\ md_is_symlink md = false /\ aged now (mtime_skip p) (default 0 (md_modified md))).

(** The API server knew no instance of that name, and this is not a dry run. *)
Definition condemned (pre : list revent) (name : string) : Prop :=
  candidate pre name /\ dry_run p = false /\ (skip_get p = false -> In (REv (RListInstances name) (Ok O)) pre).

(** What is destroyed belongs to a condemned entry: a mount below it after the
    mounts listed before it, or the entry after all its mounts. *)
Definition justification (pre : list revent) X (q : rreq X) : Prop :=
  exists name text, condemned pre name /\ In (REv (RReadFile (mountinfo_path p)) (Ok text)) pre /\
    let path := path_join (lease_root p) name in
    let detached m := In (REv (RUmount m) (Ok tt)) pre in
    match q with
    | RUmount m => exists before after, collect_mounts_under path text = before ++ m :: after /\ Forall detached before
    | RRemoveAll m => m = path /\ Forall detached (collect_mounts_under path text)
    | _ => False
    end.

#[local] Abbreviation safe := (safe justification).

Lemma candidate_incl pre pre' n : incl pre pre' -> candidate pre n -> candidate pre' n.
Proof.
  intros Hi (? & ? & (c & ? & ?) & (md & now & ? & ? & ?)). split; [done|]. split; [done|].
  split; [exists c; auto|exists md, now; auto].
Qed.

Lemma umount_all_safe name text before mounts pre :
  condemned pre name -> In (REv (RReadFile (mountinfo_path p)) (Ok text)) pre ->
  collect_mounts_under (path_join (lease_root p) name) text = before ++ mounts ->
  Forall (fun m => In (REv (RUmount m) (Ok tt)) pre) before ->
  safe pre (umount_all mounts)
    (fun pre' all => incl pre pre' /\ removals pre' = removals pre /\
       (all = true -> Forall (fun m => In (REv (RUmount m) (Ok tt)) pre') (before ++ mounts))).
Proof.
  revert before pre. induction mounts as [|m mounts IH]; intros before pre Hc Hr E Hb; cbn [umount_all].
  - cbn. split; [apply incl_refl|]. split; [done|]. by rewrite app_nil_r.
  - cbn. split; [intros _; exists name, text; eauto 10|]. intros [[]|e]; cbn.
    + assert (incl pre (REv (RUmount m) (Ok tt) :: pre)) as Hi by (apply incl_tl, incl_refl).
      destruct Hc as (Hcand & Hd & Hg). eapply safe_weaken; [apply (IH (before ++ [m]))|].
      * split; [by eapply candidate_incl|]. split; [done|]. intros Hs. right. auto.
      * by right.
      * by rewrite <- app_assoc.
      * apply Forall_app. split; [|by repeat constructor; left]. eapply Forall_impl; [exact Hb|]. intros x Hx. by right.
      * intros pre' all (Hi' & Hn & Ha). rewrite <- app_assoc in Ha. split; [by eapply incl_tran|]. done.
    + split; [apply incl_tl, incl_refl|]. by split.
Qed.

Lemma process_stale_safe pre name :
  candidate pre name ->
  safe pre (process_stale p {| stale_name := name; stale_path := path_join (lease_root p) name |})
    (fun pre' r => incl pre pre' /\ removals pre' = match r with Ok Reaped => S (removals pre) | _ => removals pre end).
Proof.
  intros Hc. unfold process_stale. cbn [stale_name stale_path].
  apply (safe_bind _ _ _ _ (fun pre' kept => removals pre' = removals pre /\
    (kept = None -> skip_get p = false -> In (REv (RListInstances name) (Ok O)) pre'))).
  { unfold final_check. destruct (skip_get p); [by cbn|]. cbn. split; [by intros []|]. intros [[|n]|e]; cbn; (split; [done|]); intros; [by left|done|done]. }
  intros pre1 kept Hi1 [Hn1 Hg]. destruct kept as [reason|]; [by cbn|]. cbn. split; [by intros []|].
  intros [text|e]; cbn; [|by split; [apply incl_tl|]].
  assert (incl pre (REv (RReadFile (mountinfo_path p)) (Ok text) :: pre1)) as Hi2 by by apply incl_tl.
  destruct (dry_run p) eqn:Ed; [by cbn|].
  assert (condemned (REv (RReadFile (mountinfo_path p)) (Ok text) :: pre1) name) as Hcon.
  { split; [by eapply candidate_incl|]. split; [done|]. intros Hs. right. auto. }
  eapply safe_bind; [apply (umount_all_safe name text []); [done|by left|done|constructor]|].
  cbn [app]. intros pre3 all Hi3 (_ & Hn3 & Ha).
  change (removals pre3 = removals pre1) in Hn3. rewrite Hn1 in Hn3. destruct all; cbn; [|split; [by eapply incl_tran|done]].
  assert (condemned pre3 name) as Hcon3.
  { destruct Hcon as (? & ? & Hg'). split; [by eapply candidate_incl|]. split; [done|]. intros Hs. by apply Hi3, Hg'. }
  split.
  - intros _. exists name, text. split; [done|]. split; [apply Hi3; by left|]. auto.
  - intros [[]|e]; (split; [apply incl_tl; by eapply incl_tran|]).
    + change (S (removals pre3) = S (removals pre)). by rewrite Hn3.
    + exact Hn3.
Qed.

Lemma process_all_safe stale pre :
  Forall (fun s => stale_path s = path_join (lease_root p) (stale_name s) /\ candidate pre (stale_name s)) stale ->
  safe pre (process_all p stale) (fun pre' n => removals pre' = (removals pre + n)%nat).
Proof.
  revert pre. induction stale as [|[n path] stale IH]; intros pre Hs; cbn [process_all]; [cbn; lia|].
  apply Forall_cons in Hs as [[Hp Hc] Hs]. cbn in Hp, Hc. subst path.
  eapply safe_bind; [by apply process_stale_safe|]. cbn. intros pre1 outcome _ [Hi Hn].
  eapply safe_bind; [apply IH|].
  - eapply Forall_impl; [exact Hs|]. intros s [? ?]. split; [done|]. by eapply candidate_incl.
  - cbn. intros pre2 cleaned _ ->. rewrite Hn. destruct outcome as [[|]|]; lia.
Qed.

Lemma stat_entries_safe items pre :
  safe pre (stat_entries (lease_root p) items) (fun pre' entries =>
    incl pre pre' /\ removals pre' = removals pre /\
    Forall (fun e => exists name md, e = host_entry name (path_join (lease_root p) name) md /\
                       In (REv (RStat (path_join (lease_root p) name)) (Ok md)) pre') entries).
Proof.
  revert pre. induction items as [|[name|e] items IH]; intros pre; cbn [stat_entries];
    [by split; [apply incl_refl|]| |apply IH].
  cbn. split; [by intros []|]. intros md. eapply safe_bind; [apply IH|]. cbn. intros pre' rest _ (Hi & Hn & Hr).
  split; [eapply incl_tran; [|exact Hi]; by apply incl_tl, incl_refl|].
  split; [exact Hn|]. destruct md as [md|]; [|done]. constructor; [|done].
  exists name, md. split; [done|]. apply Hi. by left.
Qed.

Lemma sweep_safe : safe [] (sweep_once p) (fun pre r => forall n, r = Ok n -> removals pre = n).
Proof.
  unfold sweep_once. destruct (disabled p) eqn:Edis; [by intros n [= <-]|].
  cbn. split; [by intros []|]. intros [|]; cbn; [|by intros n [= <-]]. split; [by intros []|].
  intros [content|e]; cbn; [|by intros n [= <-]]. split; [by intros []|].
  intros [items|e]; cbn; [|by intros n].
  apply (safe_bind _ _ _ _ (fun pre r => exists entries, r = Ok entries /\ removals pre = O /\
    Forall (fun e => exists name md, e = host_entry name (path_join (lease_root p) name) md /\
                       In (REv (RStat (path_join (lease_root p) name)) (Ok md)) pre) entries)).
  { eapply safe_bind; [apply stat_entries_safe|]. cbn. intros pre' entries _ (_ & Hn & He). eauto. }
  intros pre1 r Hi1 (entries & -> & Hn1 & He). cbn. split; [by intros []|]. intros now.
  eapply safe_bind; [apply process_all_safe|].
  - apply List.Forall_forall. intros s Hs. unfold classify_entries in Hs. apply list_elem_of_In, list_elem_of_omap in Hs as (e & Hin & Hc).
    rewrite Forall_forall in He. destruct (He e Hin) as (name & md & -> & Hstat).
    unfold classify_entry in Hc. cbn in Hc. destruct (name_re name) eqn:En; [|done]. cbn in Hc.
    destruct (md_is_dir md && negb (md_is_symlink md)) eqn:Ek; cbn in Hc; [|done].
    destruct (bool_decide (name ∈ _)) eqn:El; [done|]. destruct (too_fresh _ _ _) eqn:Ef; [done|]. injection Hc as <-. cbn.
    split; [done|]. split; [done|]. split; [done|]. rewrite andb_true_iff, negb_true_iff in Ek.
    apply bool_decide_eq_false in El. rewrite elem_of_list_to_set, list_elem_of_In in El. split.
    + exists content. split; [right; apply Hi1; right; by left|done].
    + exists md, now. rewrite <- too_fresh_spec. split; [by right|]. split; [by left|]. tauto.
  - cbn. intros pre2 cleaned _ -> n [= <-]. exact (f_equal (fun k => (k + cleaned)%nat) Hn1).
Qed.
End Sweep.

Lemma condemned_incl p pre pre' n : incl pre pre' -> condemned p pre n -> condemned p pre' n.
Proof. intros Hi (Hc & Hd & Hg). split; [by eapply candidate_incl|]. split; [done|]. intros Hs. by apply Hi, Hg. Qed.

Lemma lies_under_refl path : lies_under path path = true.
Proof. unfold lies_under. induction (components path) as [|c l IH]; cbn; [done|]. by rewrite String.eqb_refl. Qed.

(** Before [m] every collected mount strictly below it was detached. *)
Lemma below_detached (detached : string -> Prop) root text first m rest n :
  collect_mounts_under root text = first ++ m :: rest -> Forall detached first ->
  In n (collect_mounts_under root text) -> lies_under m n = true -> components n <> components m -> detached n.
Proof.
  intros E Hf Hn Hl Hne. rewrite List.Forall_forall in Hf. pose proof Hn as Hin. rewrite E in Hin.
  apply in_app_or in Hin as [Hin|[<-|Hin]]; [by apply Hf|done|]. by destruct Hne; symmetry; eapply children_first.
Qed.

(** C17. Whatever the file system and the API server answer, what a sweep
    unmounts or removes lies below one entry of the lease root and no other: a
    real directory with an instance name that is not in the live set as it was
    read, whose modification time is at least [mtime_skip] in the past or else
    in the future, and of which the API server then knew no instance (unless
    that check is switched off); never in a dry run.  A mount is unmounted only
    when every collected mount strictly below it has been detached; the entry
    itself is removed only when every mount collected below it was.  And the
    number a sweep returns is the number of entries it removed. *)
Theorem sweep_spares_the_living p tr r :
  lease_root p <> "" -> rruns (sweep_once p) tr r ->
  (forall before X (q : rreq X) (x : X) after path, tr = before ++ REv q x :: after -> destroys q = Some path ->
     exists name text, condemned p before name /\ lies_under (path_join (lease_root p) name) path = true /\
       (forall other, name_re other = true -> lies_under (path_join (lease_root p) other) path = true -> other = name) /\
       In (REv (RReadFile (mountinfo_path p)) (Ok text)) before /\
       let mounts := collect_mounts_under (path_join (lease_root p) name) text in
       let detached m := In (REv (RUmount m) (Ok tt)) before in
       match q with
       | RUmount m => In m mounts /\
           forall n, In n mounts -> lies_under m n = true -> components n <> components m -> detached n
       | RRemoveAll m => m = path_join (lease_root p) name /\ Forall detached mounts
       | _ => False
       end) /\
  (forall n, r = Ok n -> removals tr = n).
Proof.
  intros Hroot Hr. destruct (safe_runs _ _ _ _ _ _ (sweep_safe p) Hr) as [HQ HJ]. rewrite app_nil_r in HQ. split.
  - intros before X q x after path E Hd. specialize (HJ before _ after E). cbn in HJ.
    destruct HJ as (name & text & Hc & Ht & Hq); [eauto|]. rewrite app_nil_r in *.
    assert (incl (rev before) before) as Hi by (intros e He; by apply in_rev).
    apply (condemned_incl p _ _ _ Hi) in Hc. apply Hi in Ht.
    assert (lies_under (path_join (lease_root p) name) path = true) as Hl.
    { destruct q; try done; cbn in Hd; injection Hd as ->.
      - destruct Hq as (first & rest & Em & _). apply (collected _ text). rewrite Em. apply in_elt.
      - destruct Hq as [-> _]. apply lies_under_refl. }
    exists name, text. split; [done|]. split; [done|]. split; [|split; [done|]].
    + intros other Ho Hlo. destruct Hc as ((_ & Hn & _) & _). by apply (entries_disjoint (lease_root p) other name path).
    + destruct q; try done.
      * destruct Hq as (first & rest & Em & Hf). split; [rewrite Em; apply in_elt|]. intros n Hn Hln Hne.
        by eapply Hi, (below_detached (fun m => In (REv (RUmount m) (Ok tt)) (rev before))).
      * destruct Hq as [Hm Hf]. split; [done|]. eapply Forall_impl; [exact Hf|]. intros m'. apply Hi.
  - intros n E. specialize (HQ n E). unfold removals in *. rewrite <- HQ. rewrite filter_rev, length_rev. done.
Qed.

(** ** Runs on given answers *)

Inductive ranswer : Type :=
| AnsBool (b : bool)
| AnsFile (r : result string unit)
| AnsDir (r : result (list (result string unit)) unit)
| AnsStat (r : result Metadata unit)
| AnsNow (now : Z)
| AnsCount (r : result nat unit)
| AnsDone (r : result unit unit).

Definition feed {X} (q : rreq X) (a : ranswer) : option X :=
  match q in rreq X return option X with
  | RIsDir _ => match a with AnsBool b => Some b | _ => None end
  | RReadFile _ => match a with AnsFile r => Some r | _ => None end
  | RReadDir _ => match a with AnsDir r => Some r | _ => None end
  | RStat _ => match a with AnsStat r => Some r | _ => None end
  | RNow => match a with AnsNow n => Some n | _ => None end
  | RListInstances _ => match a with AnsCount r => Some r | _ => None end
  | RUmount _ | RRemoveAll _ => match a with AnsDone r => Some r | _ => None end
  | RRemoveDir _ => match a with
                    | AnsDone (Ok u) => Some (Ok u)
                    | AnsDone (Err _) => Some (Err false)
                    | _ => None
                    end
  end.

Fixpoint replay {R} (p : rprog R) (answers : list ranswer) : option (list revent * R) :=
  match p, answers with
  | RRet r, [] => Some ([], r)
  | RCall q k, a :: answers =>
      x ← feed q a; tr ← replay (k x) answers; Some (REv q x :: tr.1, tr.2)
  | _, _ => None
  end.

Lemma replay_sweep_runs {R} (p : rprog R) answers tr r : replay p answers = Some (tr, r) -> rruns p tr r.
Proof.
  revert answers tr. induction p as [a|X q k IH]; intros [|ans answers] tr; cbn; try done; [by intros [= <- <-]|].
  destruct (feed q ans) as [x|]; [|done]. cbn. destruct (replay (k x) answers) as [[tr' r']|] eqn:E; [|done]. cbn.
  intros [= <- <-]. exists x, tr'. split; [done|]. by eapply IH.
Qed.

(** A lease root with the directory of a live instance and one of an instance
    that is gone, with a mount in a mount. *)
Definition reaper_sample_params : SweepParams :=
  {| lease_root := "/l"; live_set_path := "/live"; mountinfo_path := "/mounts"; mtime_skip := seconds 120;
     dry_run := false; skip_get := false; disabled := false |}.

Definition reaper_sample_dir : Metadata := {| md_is_dir := true; md_is_symlink := false; md_modified := Some 0 |}.

Definition reaper_sample_mounts : string :=
  "36 35 98:0 / /l/gone/v rw -" +:+ String LF ("37 35 98:0 / /l/gone/v/a\040b rw -" +:+ String LF "38 35 98:0 / /l/keep/v rw -").

Definition reaper_sample_answers : list ranswer :=
  [AnsBool true; AnsFile (Ok "keep"); AnsDir (Ok [Ok "keep"; Ok "gone"; Ok "Not-One"]); AnsStat (Ok reaper_sample_dir);
   AnsStat (Ok reaper_sample_dir); AnsStat (Ok reaper_sample_dir); AnsNow (seconds 600); AnsCount (Ok O);
   AnsFile (Ok reaper_sample_mounts); AnsDone (Ok tt); AnsDone (Ok tt); AnsDone (Ok tt)].

Example sample_sweep_destroys :
  option_map (fun t => (omap (fun e => match e with REv q _ => destroys q end) t.1, t.2))
    (replay (sweep_once reaper_sample_params) reaper_sample_answers) =
  Some (["/l/gone/v/a b"; "/l/gone/v"; "/l/gone"], Ok 1%nat).
Proof. vm_compute. reflexivity. Qed.

Lemma sweep_spares_the_living_witness :
  exists tr, rruns (sweep_once reaper_sample_params) tr (Ok 1%nat) /\ removals tr = 1%nat.
Proof.
  destruct (replay (sweep_once reaper_sample_params) reaper_sample_answers) as [[tr r]|] eqn:E.
  - assert (r = Ok 1%nat) as ->.
    { pose proof sample_sweep_destroys as H. rewrite E in H. cbn in H. by injection H. }
    exists tr. split; [by eapply replay_sweep_runs|].
    apply (sweep_spares_the_living reaper_sample_params tr (Ok 1%nat)); [discriminate|by eapply replay_sweep_runs|reflexivity].
  - pose proof sample_sweep_destroys as H. rewrite E in H. discriminate.
Defined.

(** ** Container cgroups *)

(** The answers so far show an aged, empty cgroup directory with the name of a
    container. *)
Definition empty_container (root : string) (now mtime_skip : Z) (pre : list revent) (name : string) : Prop :=
  is_full_container_id name = true /\
  (exists md, In (REv (RStat (path_join root name)) (Ok md)) pre /\ md_is_dir md = true /\ md_is_symlink md = false) /\
  (exists md modified, In (REv (RStat (path_join root name)) (Ok md)) pre /\ md_modified md = Some modified /\
     too_fresh now mtime_skip modified = false) /\
  (exists events, In (REv (RReadFile (path_join (path_join root name) "cgroup.events")) (Ok events)) pre /\ unpopulated events = true) /\
  (exists procs, In (REv (RReadFile (path_join (path_join root name) "cgroup.procs")) (Ok procs)) pre /\ trim procs = "").

(** Only such a directory is removed, by a removal that is not recursive, and
    never in a dry run or when the reaper is disabled. *)
Theorem reaped_cgroups_are_empty root now mtime_skip dry_run disabled tr r :
  rruns (reap_empty_container_cgroups root now mtime_skip dry_run disabled) tr r ->
  forall before X (q : rreq X) (x : X) after path, tr = before ++ REv q x :: after -> destroys q = Some path ->
    dry_run = false /\ disabled = false /\
    exists name, path = path_join root name /\ empty_container root now mtime_skip before name /\
      match q with RRemoveDir _ => True | _ => False end.
Proof.
  set (J := fun pre X (q : rreq X) => dry_run = false /\ disabled = false /\ exists name,
    match q with RRemoveDir m => m = path_join root name /\ empty_container root now mtime_skip pre name | _ => False end).
  intros Hr. assert (safe J [] (reap_empty_container_cgroups root now mtime_skip dry_run disabled) (fun _ _ => True)) as Hs.
  { unfold reap_empty_container_cgroups. destruct disabled eqn:Ed; [by cbn|]. cbn. split; [by intros []|].
    intros [|]; cbn; [|done]. split; [by intros []|]. intros [items|e]; cbn; [|done].
    apply (safe_bind _ _ _ _ (fun _ _ => True)); [|by cbn]. generalize ([REv (RReadDir root) (Ok items); REv (RIsDir root) true]).
    induction items as [|item items IH]; intros pre; cbn [reap_cgroups]; [by cbn|].
    apply (safe_bind _ _ _ _ (fun _ _ => True)); [|intros pre' removed _ _; apply (safe_bind _ _ _ _ (fun _ _ => True)); [apply IH|by cbn]].
    destruct item as [name|e]; cbn; [|done]. destruct (is_full_container_id name) eqn:En; cbn; [|done].
    split; [by intros []|]. intros [md|e]; cbn; [|done]. destruct (md_is_dir md) eqn:E1; cbn; [|done].
    destruct (md_is_symlink md) eqn:E2; cbn; [done|]. split; [by intros []|]. intros [md2|e]; cbn; [|done].
    destruct (md_modified md2) as [modified|] eqn:E3; cbn; [|done]. destruct (too_fresh now mtime_skip modified) eqn:E4; cbn; [done|].
    split; [by intros []|]. intros [events|e]; cbn; [|done]. destruct (unpopulated events) eqn:E5; cbn; [|done].
    split; [by intros []|]. intros [procs|e]; cbn; [|done]. destruct (String.eqb_spec (trim procs) "") as [E6|]; cbn; [|done].
    destruct dry_run eqn:Edry; cbn; [done|]. split; [|by intros []]. intros _. split; [done|]. split; [done|].
    exists name. split; [done|]. split; [done|]. split; [exists md; cbn; tauto|]. split; [exists md2, modified; cbn; tauto|].
    split; [exists events; cbn; tauto|]. exists procs. cbn. tauto. }
  destruct (safe_runs _ _ _ _ _ _ Hs Hr) as [_ HJ]. intros before X q x after path E Hd.
  specialize (HJ before _ after E). cbn in HJ. destruct HJ as (? & ? & name & Hq); [eauto|]. split; [done|]. split; [done|].
  exists name. destruct q; try done. cbn in Hd. injection Hd as <-. destruct Hq as [-> Hq]. split; [done|]. split; [|done].
  rewrite app_nil_r in Hq. unfold empty_container in *. by setoid_rewrite <- in_rev in Hq.
Qed.

(** A mountpoint that is not ASCII is not read back: each byte above 127
    becomes a character of its own. *)
Example non_ascii_mountpoint_is_changed :
  let e := String "195"%char (String "169"%char "") in
  parse_line ("36 35 98:0 / /l/gone/" +:+ e +:+ " rw -") <> Some ("/l/gone/" +:+ e).
Proof. vm_compute. discriminate. Qed.

(** An entry whose modification time is in the future is not kept by the age
    gate. *)
Lemma future_entry_passes_the_gate now mtime_skip modified : now < modified -> too_fresh now mtime_skip modified = false.
Proof. intros Hn. unfold too_fresh. by assert ((modified <=? now) = false) as -> by lia. Qed.
